(* ===== verification/_CoqProject ===== *)
-Q . S2P
Prelude.v
Common.v
Uint256.v
BlockIndex.v
Pow.v
IntSer.v
BigInt.v
ScriptNum.v
Stack.v
Script.v
Hasher.v
Sha2.v
Ripemd160.v
Sha1.v
Hash.v
Flags.v
SigEnc.v
Interp.v
Shift.v
ScriptSpec.v
Simulation.v
StackOps.v
NumOps.v
SigOps.v
EvalRef.v
VerifyRef.v
Standard.v
Serialize.v
Transaction.v
Sighash.v
TxVerify.v
Merkle.v
PartialMerkle.v
Coins.v
Compressor.v
DbWrapper.v
CoinsDB.v
TxCheck.v
BlockCheck.v
Connect.v
BlockScripts.v
Replay.v
ChainIndex.v
ChainLinks.v
SoftReject.v
Activate.v
Rewind.v
Accept.v
NodeRun.v
