(* ===== verification/Prelude.v ===== *)
(** * Bitcoin SV: a verification library for the node's core

    The program is the Bitcoin SV node.  This library models its consensus core: the arithmetic of targets, the block
    index and the proof-of-work rules; the script language from its numbers and stacks to the verification of an input;
    the hash functions; the wire formats of transactions and blocks; Merkle trees; the checks of transactions and blocks;
    the coin set with the cache in front of it, up to the connection and disconnection of whole blocks; the database that
    stores the coins, and how it recovers from a crash; the way of headers and blocks into the block index; and the choice
    and activation of the best chain.  File names of the program below are relative to its [src] directory.

    ** How code is modelled

    A C++ function is a Rocq function of the same name.  Machine integers are [Z] with the wrap-around of their width
    written out ([u32], [u64], [i64] below), bytes are [Z] with the range predicate [is_byte], containers are lists and
    stdpp maps.  Code that throws or asserts returns an [outcome]: a value, an exception, or [Abort] where the source has no
    defined result.  Code that mutates an object takes and returns it; the code that works on a view of the coins is
    written in a state monad ([cached], Coins.v).  Loops that are not structural take fuel, and a theorem says that the fuel
    given is enough: the script loop runs at most once per byte, long division once per bit, the ancestor search once per
    height, the Merkle sweep once per level, the search for the best candidate once per candidate, the roll-back after a
    crash once per height; the loop that activates the best chain ends because every block it has to give up is marked for
    good.  Where the source calls code that is not part of it, the call is a parameter, a type class with the documented
    behaviour as its laws, and there is a concrete instance: [BN_API] for OpenSSL's big numbers (BigInt.v), [Secp256k1] and
    [SecpLaws] for the curve library (SigEnc.v, Compressor.v), [LevelDB] and [LevelDBLaws] for the key-value store
    (DbWrapper.v), [MemUsage] for the allocator and [CoinsViewLaws] for what lies under the coins cache (Coins.v), which the
    coins database is proved to obey (CoinsDB.v).  The same way [CoinsTip] is what the
    activation asks of connecting and disconnecting a block, disk and flush included (Activate.v).

    ** The parts

    - [Prelude], [Common]: machine integers, outcomes, byte strings, and crypto/common.h.
    - [Uint256] (arith_uint256.h, .cpp): the 256-bit numbers, limb by limb, and compact targets.  The operators compute
      modulo 2^256, division is exact, the compact form decodes as documented and survives a round trip.
    - [BlockIndex] (block_index.h, .cpp, chain.h, .cpp): index entries in a heap, skip pointers, accumulated work, median
      time past, the active chain.  Every tree the node can build is consistent; the skip-list search is the walk to the
      parent; the active chain is the chain of its tip.
    - [Pow] (pow.cpp): the three retargeting rules and the check of a hash.  Every rule computes its formula, is defined on
      every tree, and stays within the limit.
    - [IntSer], [BigInt], [ScriptNum] (script/int_serialization.h, big_int.cpp, script/script_num.cpp): the numbers of
      scripts, with exact arithmetic and the errors of decoding.
    - [Stack] (script/limitedstack.cpp): the main and the alt stack with their common memory budget; the account is exact.
    - [Script], [Flags] (script/script.h, .cpp, opcodes.h, script_flags.h, sighashtype.h): reading and writing scripts,
      counting signature operations.
    - [Hasher], [Sha2], [Ripemd160], [Sha1], [Hash] (crypto/, hash.h, .cpp): the buffered and unrolled hash functions equal
      the definitions of the standards, whatever the cut into writes; HMAC, SipHash, MurmurHash3 over them.
    - [SigEnc] (pubkey.cpp, the encoding checks of script/interpreter.cpp): the strict and the lax DER parser.
    - [Interp] (script/interpreter.cpp): EvalScript with every opcode, and VerifyScript.  [ScriptSpec] is the abstract
      machine: a list of byte strings, no memory account, no pointers.  [Simulation], [Shift], [StackOps], [NumOps],
      [SigOps] relate the opcodes to it one by one, [EvalRef] and [VerifyRef] the loop and the verifier; [Standard] derives
      what the usual scripts mean.
    - [Serialize], [Transaction] (serialize.h, streams.h, amount.h, primitives/): codecs with their laws; blocks and
      transactions have exactly one serialization.
    - [Sighash], [TxVerify] (script/interpreter.cpp): the two signature hashes, the checker of a transaction's signatures
      and lock times, and the verification of an input with it.
    - [Merkle] (consensus/merkle.cpp): the constant-space computation against the tree, level by level.
    - [PartialMerkle] (merkleblock.h, .cpp): the proofs that some transactions are in a block.  A tree that is built and sent
      gives back the chosen transactions, and what a received tree proves is in the block with that Merkle root, or two
      different inputs of the hash are found.
    - [Coins] (coins.h, .cpp): coins, cache entries with their flags, and the cached view.  The abstract specification is a
      finite map from outpoints to outputs, and the refinement theorem says that every run of operations answers as the map.
    - [Compressor] (compressor.h, .cpp, undo.h): the stored form of coins and of undo data.
    - [DbWrapper] (dbwrapper.h, .cpp, streams.h): batches, the obfuscation of stored values, and the stream that reads them.
    - [CoinsDB] (txdb.h, .cpp): the coins under their keys, the cache that many threads read, and the flush in batches.  The
      database shows a coin set; concurrent readers get its answers; a flush that is cut off leaves a mixture of the old and
      the new set, with both tips marked.
    - [TxCheck], [BlockCheck] (consensus/validation.h, validation.cpp, checkpoints.cpp): the checks that need no coins, as
      decision procedures of the rules they enforce; lock times, subsidies, script flags.
    - [Connect], [BlockScripts] (validation.cpp, processing_block_index.cpp): the checks of inputs, [BlockConnector],
      and the undoing of a block.  What is accepted is sound, can be undone, never makes money, and had its scripts verified.
    - [Replay] (validation.cpp): ReplayBlocks.  From any such mixture the next start reaches the coins of the new tip, however
      often flushes and starts are cut off.
    - [ChainIndex], [ChainLinks] (validation.cpp, block_index.h): the globals around the block index, namely the ordered set
      of candidates, the blocks that wait for their parents and the failure flags.  FindMostWorkChain finds the greatest
      usable candidate, ReceivedBlockTransactions links what can be linked, InvalidateChain marks exactly the descendants.
    - [SoftReject] (blockindex_with_descendants.h, block_index.h, validation.cpp): soft rejection and the soft consensus
      freeze.  The iterative walk of the descendants is the recursive one; the counters stay consistent with the parents.
    - [Activate] (validation.cpp): ActivateBestChain down to ConnectTip and DisconnectTip.  The loop ends with the best chain
      active, the coins of that chain and no invalid block in it; with a soft rejected block of the caller it need not end.
    - [Rewind] (validation.cpp): InvalidateBlock, SoftRejectBlockNL and PreciousBlock, which rewind the chain and activate the
      best one.  What is invalidated stays off the chain; a soft rejection that fails half-way is taken back.
    - [Accept], [NodeRun] (block_index_store.h, validation.cpp): the way of headers and blocks into the block index, from
      ProcessNewBlockHeaders and ProcessNewBlock to the call of ReceivedBlockTransactions.  A header is taken when and only
      when the rules allow it, and whatever comes in, every entry of the index but the first obeys the rules on headers and
      every block whose transactions are counted was checked.

    ** Assumptions that bound the theorems

    The refinement of the interpreter assumes a stack memory limit below 2^31 bytes, because above it the source reaches an
    assertion on sizes, and script numbers of at most 4 bytes before Genesis, the consensus value.  Merkle trees have at most
    2^31 leaves, since the counter of the source overflows above.  Heights stay below the mark of the memory pool.  The
    activation runs in one thread, on undamaged blocks, and is not cancelled.  The recovery assumes that the blocks and undo
    data of both branches can be read, and that a crash keeps a first part of the batches, each as a whole.  A header is
    accepted on chains whose work and counters stay within their types, and no two known headers share a hash.

    ** Not modelled

    The network, the memory pool, mining, the wallet, the RPC interfaces and start-up are input and output, threads and
    policy around this core.  The block files and the database of the block index are not modelled either: they are disk
    storage of what the parts above compute.  Of the databases the iterators and
    cursors are left out.  The signature cache is left out, the script execution cache is a parameter.  Vendored libraries are parameters as said above. *)

From Stdlib Require Export ZArith Lia.
From stdpp Require Export base option list numbers.
#[global] Set Default Goal Selector "!".

Open Scope Z_scope.

(** ** Machine integers

    A [w]-bit unsigned integer of the C++ source is a [Z]; every operation that can leave the range
    is wrapped where the source's type wraps it. *)

Definition wrap (w z : Z) : Z := z mod 2 ^ w.

Definition u8 (z : Z) : Z := z mod 2 ^ 8.

Definition u16 (z : Z) : Z := z mod 2 ^ 16.

Definition u32 (z : Z) : Z := z mod 2 ^ 32.

Definition u64 (z : Z) : Z := z mod 2 ^ 64.

(** Conversion to a signed type: two's complement. *)

Definition i32 (z : Z) : Z := (z + 2 ^ 31) mod 2 ^ 32 - 2 ^ 31.

Definition i64 (z : Z) : Z := (z + 2 ^ 63) mod 2 ^ 64 - 2 ^ 63.

(** ** Tactics

    Fallible code is written in the option monad ([x ← e; k]); [bind_step H] rewrites the next call
    with its result [H] and steps over the bind. *)

Ltac bind_simpl := cbn [mbind option_bind].

Ltac bind_step H := rewrite H; bind_simpl.

(** ** Outcomes

    Code that throws: a result, a C++ exception, or [Abort] where the code has no defined result (a
    failed [assert], undefined behaviour). *)

Inductive outcome (E A : Type) :=
| Ok (a : A)
| Throw (e : E)
| Abort.

Arguments Ok {E A} _.
Arguments Throw {E A} _.
Arguments Abort {E A}.

#[export] Instance outcome_ret E : MRet (outcome E) := fun _ a => Ok a.

#[export] Instance outcome_bind E : MBind (outcome E) :=
  fun _ _ k o => match o with Ok a => k a | Throw e => Throw e | Abort => Abort end.

(** The exception types of the script code. *)

Inductive exn :=
| scriptnum_overflow_error
| scriptnum_minencode_error
| stack_overflow_error
| big_int_error
| invalid_argument
| out_of_range
| length_error
| runtime_error.

(** [assert(b)]. *)

Definition assert_ {E} (b : bool) : outcome E unit := if b then Ok tt else Abort.

(** ** Bytes *)

(** [uint8_t] sequences are lists of [Z]; [is_byte] is what the type guarantees. *)

Definition is_byte (b : Z) : Prop := 0 <= b < 256.

Notation bytes := (Forall is_byte).

(** Unsigned value of a little-endian / big-endian byte string. *)

Fixpoint le_val (l : list Z) : Z :=
  match l with
  | [] => 0
  | b :: t => b + 256 * le_val t
  end.

Definition be_val (l : list Z) : Z := le_val (rev l).

(** [n] little-endian bytes of [z]. *)

Fixpoint le_bytes (n : nat) (z : Z) : list Z :=
  match n with
  | O => []
  | S m => z mod 256 :: le_bytes m (z / 256)
  end.

Definition be_bytes (n : nat) (z : Z) : list Z := rev (le_bytes n z).

(** ** Integer lemmas *)

Lemma land_ffffffff n : Z.land n 0xffffffff = n mod 2 ^ 32.
Proof. exact (Z.land_ones n 32 ltac:(lia)). Qed.

Lemma land_ff n : Z.land n 0xff = n mod 2 ^ 8.
Proof. exact (Z.land_ones n 8 ltac:(lia)). Qed.

Lemma pow2_pos n : 0 <= n -> 0 < 2 ^ n.
Proof. intros. by apply Z.pow_pos_nonneg. Qed.

Lemma pow2_split n m : 0 <= n <= m -> 2 ^ m = 2 ^ n * 2 ^ (m - n).
Proof. intros. rewrite <- Z.pow_add_r by lia. f_equal. lia. Qed.

Lemma testbit_small x n i : 0 <= x < 2 ^ n -> n <= i -> Z.testbit x i = false.
Proof.
  intros [Hx Hn] Hi. destruct (decide (x = 0)) as [->|]; [apply Z.bits_0|].
  assert (0 <= n) by (destruct (decide (0 <= n)); [done | rewrite Z.pow_neg_r in Hn by lia; lia]).
  apply Z.bits_above_log2; [done|]. enough (Z.log2 x < n) by lia. apply Z.log2_lt_pow2; lia.
Qed.

Lemma land_low_high lo hi n : 0 <= n -> 0 <= lo < 2 ^ n -> Z.land lo (hi * 2 ^ n) = 0.
Proof.
  intros Hn Hlo. apply Z.bits_inj'. intros i Hi. rewrite Z.land_spec, Z.bits_0.
  destruct (decide (i < n)).
  - rewrite Z.mul_pow2_bits_low by lia. apply andb_false_r.
  - rewrite (testbit_small lo n) by lia. done.
Qed.

(** An OR of bits below [2 ^ n] and a multiple of [2 ^ n] is a sum. *)

Lemma lor_low_high lo hi n : 0 <= n -> 0 <= lo < 2 ^ n -> Z.lor lo (hi * 2 ^ n) = lo + hi * 2 ^ n.
Proof. intros. symmetry. apply Z.add_nocarry_lor. by apply land_low_high. Qed.

Lemma lor_high_low lo hi n : 0 <= n -> 0 <= lo < 2 ^ n -> Z.lor (hi * 2 ^ n) lo = lo + hi * 2 ^ n.
Proof. intros. rewrite Z.lor_comm. by apply lor_low_high. Qed.

(** Bitwise operators stay inside a power-of-two range. *)

Lemma bitop_range f g n a b :
  (forall x y i, Z.testbit (f x y) i = g (Z.testbit x i) (Z.testbit y i)) ->
  g false false = false -> 0 <= n ->
  0 <= a < 2 ^ n -> 0 <= b < 2 ^ n -> 0 <= f a b < 2 ^ n.
Proof.
  intros Hf Hg Hn Ha Hb.
  assert (f a b = f a b mod 2 ^ n) as ->; [|apply Z.mod_pos_bound; by apply pow2_pos].
  apply Z.bits_inj'. intros i Hi. destruct (decide (i < n)).
  - by rewrite Z.mod_pow2_bits_low.
  - rewrite Z.mod_pow2_bits_high by lia.
    by rewrite Hf, (testbit_small a n), (testbit_small b n) by lia.
Qed.

Lemma lor_range n a b : 0 <= n -> 0 <= a < 2 ^ n -> 0 <= b < 2 ^ n -> 0 <= Z.lor a b < 2 ^ n.
Proof. apply (bitop_range _ orb); [apply Z.lor_spec | done]. Qed.

Lemma land_range n a b : 0 <= n -> 0 <= a < 2 ^ n -> 0 <= b < 2 ^ n -> 0 <= Z.land a b < 2 ^ n.
Proof. apply (bitop_range _ andb); [apply Z.land_spec | done]. Qed.

Lemma lxor_range n a b : 0 <= n -> 0 <= a < 2 ^ n -> 0 <= b < 2 ^ n -> 0 <= Z.lxor a b < 2 ^ n.
Proof. apply (bitop_range _ xorb); [apply Z.lxor_spec | done]. Qed.

(** A bit test written as in the source, [x & (1 << i)]. *)

Lemma land_bit x i : 0 <= i -> (Z.land x (Z.shiftl 1 i) =? 0) = negb (Z.testbit x i).
Proof.
  intros Hi. rewrite Z.shiftl_1_l. apply eq_true_iff_eq. rewrite Z.eqb_eq, negb_true_iff. split.
  - intros H. apply (f_equal (fun z => Z.testbit z i)) in H.
    rewrite Z.land_spec, Z.pow2_bits_true, Z.bits_0, andb_true_r in H; done.
  - intros H. apply Z.bits_inj'. intros j Hj. rewrite Z.land_spec, Z.bits_0.
    destruct (decide (i = j)) as [->|]; [by rewrite H|].
    by rewrite Z.pow2_bits_false, andb_false_r.
Qed.

Lemma testbit_top m n : 0 <= n -> 0 <= m < 2 ^ (n + 1) -> Z.testbit m n = (2 ^ n <=? m).
Proof.
  intros Hn Hm. rewrite Z.pow_add_r in Hm by lia. pose proof (pow2_pos n Hn).
  destruct (Z.leb_spec (2 ^ n) m).
  - apply Z.testbit_true; [done|]. replace (m / 2 ^ n) with 1; [done|].
    apply (Z.div_unique_pos _ _ _ (m - 2 ^ n)); lia.
  - apply (testbit_small _ n); lia.
Qed.

Lemma digit_inj w a a' x y : 0 <= a < w -> 0 <= a' < w -> a + x * w = a' + y * w -> x = y /\ a = a'.
Proof. intros Ha Ha' E. assert (x = y) as -> by nia. lia. Qed.

(** ** Byte strings *)

Lemma le_val_bound l : bytes l -> 0 <= le_val l < 2 ^ (8 * Z.of_nat (length l)).
Proof.
  induction 1 as [|b l Hb Hl IH]; simpl; [lia|]. unfold is_byte in Hb.
  replace (8 * Z.of_nat (S (length l))) with (8 + 8 * Z.of_nat (length l)) by lia.
  rewrite Z.pow_add_r by lia. change (2 ^ 8) with 256. lia.
Qed.

Lemma le_val_app l1 l2 : le_val (l1 ++ l2) = le_val l1 + 2 ^ (8 * Z.of_nat (length l1)) * le_val l2.
Proof.
  induction l1 as [|b l1 IH]; [simpl; lia|].
  cbn [app le_val length]. rewrite IH.
  replace (8 * Z.of_nat (S (length l1))) with (8 + 8 * Z.of_nat (length l1)) by lia.
  rewrite Z.pow_add_r by lia. change (2 ^ 8) with 256. lia.
Qed.

Lemma length_le_bytes n z : length (le_bytes n z) = n.
Proof. revert z. induction n; intros; simpl; [done|]. by rewrite IHn. Qed.

Lemma le_bytes_bytes n z : bytes (le_bytes n z).
Proof.
  revert z. induction n; intros; simpl; constructor; [|done].
  unfold is_byte. apply Z.mod_pos_bound. lia.
Qed.

Lemma le_val_le_bytes n z : le_val (le_bytes n z) = z mod 2 ^ (8 * Z.of_nat n).
Proof.
  revert z. induction n as [|n IH]; intros z; [by rewrite Z.mod_1_r|].
  cbn [le_bytes le_val]. rewrite IH.
  replace (8 * Z.of_nat (S n)) with (8 + 8 * Z.of_nat n) by lia.
  rewrite Z.pow_add_r by lia. change (2 ^ 8) with 256.
  rewrite Z.rem_mul_r by (pose proof (pow2_pos (8 * Z.of_nat n)); lia). lia.
Qed.

Lemma le_bytes_le_val l : bytes l -> le_bytes (length l) (le_val l) = l.
Proof.
  induction 1 as [|b l Hb Hl IH]; [done|]. unfold is_byte in Hb. cbn [length le_bytes le_val].
  replace ((b + 256 * le_val l) mod 256) with b
    by (rewrite Z.mul_comm, Z.mod_add, Z.mod_small by lia; done).
  replace ((b + 256 * le_val l) / 256) with (le_val l)
    by (rewrite Z.mul_comm, Z.div_add, Z.div_small by lia; lia).
  by rewrite IH.
Qed.

Lemma le_val_inj l1 l2 : bytes l1 -> bytes l2 -> length l1 = length l2 -> le_val l1 = le_val l2 -> l1 = l2.
Proof.
  intros H1 H2 Hl Hv. rewrite <- (le_bytes_le_val l1), <- (le_bytes_le_val l2) by done. congruence.
Qed.

(** Big-endian strings. *)

Lemma be_bytes_pad n k z : 0 <= z < 2 ^ (8 * Z.of_nat k) -> be_bytes (n + k) z = replicate n 0 ++ be_bytes k z.
Proof.
  intros Hz. unfold be_bytes. rewrite <- (rev_involutive (replicate n 0)), <- rev_app_distr. f_equal.
  assert (rev (replicate n 0) = le_bytes n 0) as ->.
  { clear. induction n as [|n IH]; [done|]. cbn [le_bytes]. rewrite replicate_S_end, rev_app_distr, IH. done. }
  revert z Hz. induction k as [|k IH]; intros z Hz.
  - rewrite Nat.add_0_r. replace z with 0 by (cbn in Hz; lia). done.
  - rewrite Nat.add_succ_r. cbn [le_bytes app]. f_equal. apply IH.
    replace (8 * Z.of_nat (S k)) with (8 * Z.of_nat k + 8) in Hz by lia. rewrite Z.pow_add_r in Hz by lia.
    split; [apply Z.div_pos; lia | apply Z.div_lt_upper_bound; lia].
Qed.

Lemma be_val_cons b l : be_val (b :: l) = b * 2 ^ (8 * Z.of_nat (length l)) + be_val l.
Proof. unfold be_val. cbn [rev]. rewrite le_val_app, length_rev. cbn [le_val]. lia. Qed.

Lemma be_val_bound l : bytes l -> 0 <= be_val l < 2 ^ (8 * Z.of_nat (length l)).
Proof. intros H. unfold be_val. rewrite <- (length_rev l). apply le_val_bound. by apply Forall_rev. Qed.

Lemma be_bytes_be_val l : bytes l -> be_bytes (length l) (be_val l) = l.
Proof.
  intros H. unfold be_bytes, be_val. rewrite <- (length_rev l), le_bytes_le_val by (by apply Forall_rev). apply rev_involutive.
Qed.

(** Big-endian bytes by shifting and masking. *)

Lemma size_header size : [Z.land (Z.shiftr size 24) 0xff; Z.land (Z.shiftr size 16) 0xff;
  Z.land (Z.shiftr size 8) 0xff; Z.land (Z.shiftr size 0) 0xff] = be_bytes 4 size.
Proof.
  rewrite !land_ff, !Z.shiftr_div_pow2, Z.div_1_r by lia. unfold be_bytes. cbn [le_bytes rev app].
  rewrite !Z.div_div by lia. done.
Qed.

(** ** Facts about single bytes, by running through the 256 values *)

Lemma byte_forall (P : Z -> bool) : forallb P (seqZ 0 256) = true -> forall b, is_byte b -> P b = true.
Proof.
  intros H b Hb. rewrite forallb_forall in H. apply H. apply list_elem_of_In, elem_of_seqZ.
  unfold is_byte in Hb. lia.
Qed.

Ltac by_byte P := apply (byte_forall P); [vm_compute; reflexivity | assumption].

Lemma byte_land_7f b : is_byte b -> Z.land b 0x7f = b mod 128.
Proof. intros _. exact (Z.land_ones b 7 ltac:(lia)). Qed.

Lemma byte_mod_128 b : is_byte b -> b mod 128 = if b <? 128 then b else b - 128.
Proof.
  unfold is_byte. intros Hb. destruct (Z.ltb_spec b 128); [apply Z.mod_small; lia|].
  symmetry. apply (Z.mod_unique_pos _ _ 1); lia.
Qed.

Lemma byte_land_80 b : is_byte b -> (Z.land b 0x80 =? 0) = (b <? 128).
Proof. intros Hb. apply eqb_prop. by_byte (fun b => eqb (Z.land b 0x80 =? 0) (b <? 128)). Qed.

Lemma byte_lor_80 b : is_byte b -> b < 128 -> Z.lor b 0x80 = b + 128.
Proof.
  intros Hb Hl. apply Z.eqb_eq. rewrite <- (orb_false_l (_ =? _)).
  rewrite <- (proj2 (Z.leb_gt 128 b) Hl).
  by_byte (fun b => (128 <=? b) || (Z.lor b 0x80 =? b + 128)).
Qed.

(** ** Byte string hints *)

Create HintDb bytes.
#[export] Hint Resolve Forall_app_2 Forall_cons_2 Forall_nil_2 Forall_take Forall_drop le_bytes_bytes
  Forall_rev : bytes.
