(* ===== verification/Common.v ===== *)
(** * Byte-order helpers of src/crypto/common.h

    [ReadLEn]/[ReadBEn] read the first bytes of an array, [WriteLEn]/[WriteBEn] produce the bytes
    written; the [memcpy] and the [leNtoh]/[htobeN] conversions of the source give exactly the
    little- and big-endian value of the bytes, whatever the host's byte order. *)

From S2P Require Import Prelude.

Definition ReadLE16 (ptr : list Z) : Z := le_val (take 2 ptr).

Definition ReadLE32 (ptr : list Z) : Z := le_val (take 4 ptr).

Definition ReadLE64 (ptr : list Z) : Z := le_val (take 8 ptr).

Definition WriteLE16 (x : Z) : list Z := le_bytes 2 x.

Definition WriteLE32 (x : Z) : list Z := le_bytes 4 x.

Definition WriteLE64 (x : Z) : list Z := le_bytes 8 x.

Definition ReadBE32 (ptr : list Z) : Z := be_val (take 4 ptr).

Definition ReadBE64 (ptr : list Z) : Z := be_val (take 8 ptr).

Definition WriteBE32 (x : Z) : list Z := be_bytes 4 x.

Definition WriteBE64 (x : Z) : list Z := be_bytes 8 x.

(** [CountBits]: the loop [while (x) { x >>= 1; ++ret; }] on a 64-bit [x]; 64 rounds suffice. *)

Fixpoint count_bits_loop (fuel : nat) (x ret : Z) : Z :=
  match fuel with
  | O => ret
  | S n => if x =? 0 then ret else count_bits_loop n (Z.shiftr x 1) (ret + 1)
  end.

Definition CountBits (x : Z) : Z := count_bits_loop 64 x 0.
