(* ===== verification/Uint256.v ===== *)
(** * [arith_uint256]: 256-bit unsigned arithmetic on eight 32-bit words

    Models src/arith_uint256.h and src/arith_uint256.cpp (class template [base_uint], whose only
    instantiation is [base_uint<256>], and class [arith_uint256]) and the conversions to and from
    the byte container [uint256].  A number is the word array [pn], least significant word first;
    each operation keeps the source's loop over the words with its 32- and 64-bit truncations.
    The theorems identify every operation with arithmetic on [val], the number the words denote. *)

From S2P Require Import Prelude Common.

Module arith_uint256.

Definition WIDTH : nat := 8.

(** The object is its array [uint32_t pn[WIDTH]]. *)

Notation base_uint := (list Z).

(** [pn[i]]; the source never reads outside the array. *)

Definition word (a : base_uint) (i : nat) : Z := nth i a 0.

Definition zero : base_uint := replicate WIDTH 0.

(** [base_uint(uint64_t b)] and [operator=(uint64_t b)]. *)

Definition of_u64 (b : Z) : base_uint :=
  u32 b :: u32 (Z.shiftr b 32) :: replicate (WIDTH - 2) 0.

(** [operator!]. *)

Definition is_zero (a : base_uint) : bool := forallb (fun w => w =? 0) a.

(** [operator~]. *)

Definition lnot (a : base_uint) : base_uint := map (fun w => u32 (Z.lnot w)) a.

(** Prefix [operator++]: [while (++pn[i] == 0 && i < WIDTH - 1) i++;]. *)

Fixpoint incr (a : base_uint) : base_uint :=
  match a with
  | [] => []
  | w :: t =>
      let w' := u32 (w + 1) in
      if w' =? 0 then w' :: incr t else w' :: t
  end.

(** Prefix [operator--]: [while (--pn[i] == (uint32_t)-1 && i < WIDTH - 1) i++;]. *)

Fixpoint decr (a : base_uint) : base_uint :=
  match a with
  | [] => []
  | w :: t =>
      let w' := u32 (w - 1) in
      if w' =? u32 (-1) then w' :: decr t else w' :: t
  end.

(** Unary [operator-]. *)

Definition neg (a : base_uint) : base_uint := incr (lnot a).

Definition xor (a b : base_uint) : base_uint := zip_with Z.lxor a b.

Definition and (a b : base_uint) : base_uint := zip_with Z.land a b.

Definition or (a b : base_uint) : base_uint := zip_with Z.lor a b.

(** [operator^=(uint64_t)] and [operator|=(uint64_t)] touch the two low words. *)

Definition xor_u64 (a : base_uint) (b : Z) : base_uint :=
  alter (fun w => Z.lxor w (u32 (Z.shiftr b 32))) 1%nat (alter (fun w => Z.lxor w (u32 b)) 0%nat a).

Definition or_u64 (a : base_uint) (b : Z) : base_uint :=
  alter (fun w => Z.lor w (u32 (Z.shiftr b 32))) 1%nat (alter (fun w => Z.lor w (u32 b)) 0%nat a).

(** [operator+=(const base_uint &)]. *)

Fixpoint add_loop (carry : Z) (a b : base_uint) : base_uint :=
  match a, b with
  | x :: a', y :: b' =>
      let n := u64 (carry + x + y) in
      Z.land n 0xffffffff :: add_loop (Z.shiftr n 32) a' b'
  | _, _ => []
  end.

Definition add (a b : base_uint) : base_uint := add_loop 0 a b.

Definition sub (a b : base_uint) : base_uint := add a (neg b).

Definition add_u64 (a : base_uint) (b64 : Z) : base_uint := add a (of_u64 b64).

Definition sub_u64 (a : base_uint) (b64 : Z) : base_uint := add a (neg (of_u64 b64)).

(** [operator*=(uint32_t)]. *)

Fixpoint mul32_loop (carry b32 : Z) (a : base_uint) : base_uint :=
  match a with
  | [] => []
  | x :: t =>
      let n := u64 (carry + b32 * x) in
      Z.land n 0xffffffff :: mul32_loop (Z.shiftr n 32) b32 t
  end.

Definition mul32 (a : base_uint) (b32 : Z) : base_uint := mul32_loop 0 b32 a.

(** [operator*=(const base_uint &)]: the inner loop adds [a.pn[j] * b] into [pn[j..]]. *)

Fixpoint mul_row (carry aj : Z) (pn b : base_uint) : base_uint :=
  match pn, b with
  | p :: pn', y :: b' =>
      let n := u64 (carry + p + aj * y) in
      Z.land n 0xffffffff :: mul_row (Z.shiftr n 32) aj pn' b'
  | _, _ => pn
  end.

Definition mul_step (a b pn : base_uint) (j : nat) : base_uint :=
  take j pn ++ mul_row 0 (word a j) (drop j pn) b.

Definition mul (a b : base_uint) : base_uint :=
  foldl (mul_step a b) (of_u64 0) (seq 0 WIDTH).

(** [operator<<=] and [operator>>=]: [pn[k] |= v] is [alter (Z.lor v) k]. *)

Definition shl_step (a : base_uint) (k : nat) (shift : Z) (pn : base_uint) (i : nat) : base_uint :=
  let pn1 :=
    if (i + k + 1 <? WIDTH)%nat && negb (shift =? 0)
    then alter (fun w => Z.lor w (Z.shiftr (word a i) (32 - shift))) (i + k + 1)%nat pn
    else pn in
  if (i + k <? WIDTH)%nat
  then alter (fun w => Z.lor w (u32 (Z.shiftl (word a i) shift))) (i + k)%nat pn1
  else pn1.

Definition shl (a : base_uint) (shift : Z) : base_uint :=
  foldl (shl_step a (Z.to_nat (shift / 32)) (shift mod 32)) zero (seq 0 WIDTH).

Definition shr_step (a : base_uint) (k : nat) (shift : Z) (pn : base_uint) (i : nat) : base_uint :=
  let pn1 :=
    if (k + 1 <=? i)%nat && negb (shift =? 0)
    then alter (fun w => Z.lor w (u32 (Z.shiftl (word a i) (32 - shift)))) (i - k - 1)%nat pn
    else pn in
  if (k <=? i)%nat
  then alter (fun w => Z.lor w (Z.shiftr (word a i) shift)) (i - k)%nat pn1
  else pn1.

Definition shr (a : base_uint) (shift : Z) : base_uint :=
  foldl (shr_step a (Z.to_nat (shift / 32)) (shift mod 32)) zero (seq 0 WIDTH).

(** [CompareTo]: from the most significant word down. *)

Fixpoint compare_loop (a b : list Z) : Z :=
  match a, b with
  | x :: a', y :: b' => if x <? y then -1 else if y <? x then 1 else compare_loop a' b'
  | _, _ => 0
  end.

Definition CompareTo (a b : base_uint) : Z := compare_loop (rev a) (rev b).

Definition EqualTo (a : base_uint) (b : Z) : bool :=
  forallb (fun w => w =? 0) (drop 2 a) &&
  (word a 1 =? Z.shiftr b 32) && (word a 0 =? Z.land b 0xffffffff).

(** [bits()]: the inner loop scans bits 31..1 of the highest non-zero word. *)

Fixpoint bits_inner (w pos : Z) (bit : nat) : Z :=
  match bit with
  | O => 32 * pos + 1
  | S b =>
      if Z.land w (Z.shiftl 1 (Z.of_nat bit)) =? 0 then bits_inner w pos b
      else 32 * pos + Z.of_nat bit + 1
  end.

Fixpoint bits_loop (a : base_uint) (n : nat) : Z :=
  match n with
  | O => 0
  | S pos =>
      if word a pos =? 0 then bits_loop a pos else bits_inner (word a pos) (Z.of_nat pos) 31
  end.

Definition bits (a : base_uint) : Z := bits_loop a WIDTH.

(** [operator/=]; [None] is the exception [uint_error("Division by zero")].  [div_loop] runs the
    [while (shift >= 0)] loop for [shift = n - 1, ..., 0]. *)

Definition set_bit (q : base_uint) (shift : nat) : base_uint :=
  alter (fun w => Z.lor w (u32 (Z.shiftl 1 (Z.land (Z.of_nat shift) 31)))) (shift / 32)%nat q.

Fixpoint div_loop (n : nat) (num div q : base_uint) : base_uint * base_uint :=
  match n with
  | O => (q, num)
  | S shift =>
      let '(num', q') :=
        if 0 <=? CompareTo num div then (sub num div, set_bit q shift) else (num, q) in
      div_loop shift num' (shr div 1) q'
  end.

Definition div (a b : base_uint) : option base_uint :=
  let num_bits := bits a in
  let div_bits := bits b in
  if div_bits =? 0 then None
  else if num_bits <? div_bits then Some (of_u64 0)
  else
    let shift := num_bits - div_bits in
    Some (fst (div_loop (Z.to_nat (shift + 1)) a (shl b shift) (of_u64 0))).

Definition GetLow64 (a : base_uint) : Z := Z.lor (word a 0) (u64 (Z.shiftl (word a 1) 32)).

(** [SetCompact]: the number, [*pfNegative] and [*pfOverflow]. *)

Definition SetCompact (nCompact : Z) : base_uint * bool * bool :=
  let nSize := Z.shiftr nCompact 24 in
  let nWord0 := Z.land nCompact 0x007fffff in
  let '(nWord, r) :=
    if nSize <=? 3 then
      let w := Z.shiftr nWord0 (8 * (3 - nSize)) in (w, of_u64 w)
    else (nWord0, shl (of_u64 nWord0) (8 * (nSize - 3))) in
  (r,
   negb (nWord =? 0) && negb (Z.land nCompact 0x00800000 =? 0),
   negb (nWord =? 0) &&
   ((34 <? nSize) || ((0xff <? nWord) && (33 <? nSize)) || ((0xffff <? nWord) && (32 <? nSize)))).

(** [GetCompact]; [None] when one of its two assertions fails. *)

Definition GetCompact (a : base_uint) (fNegative : bool) : option Z :=
  let nSize0 := Z.quot (bits a + 7) 8 in
  let nCompact0 :=
    if nSize0 <=? 3 then u32 (u64 (Z.shiftl (GetLow64 a) (8 * (3 - nSize0))))
    else u32 (GetLow64 (shr a (8 * (nSize0 - 3)))) in
  let '(nCompact1, nSize) :=
    if negb (Z.land nCompact0 0x00800000 =? 0) then (Z.shiftr nCompact0 8, nSize0 + 1)
    else (nCompact0, nSize0) in
  if negb (Z.land nCompact1 (u32 (Z.lnot 0x007fffff)) =? 0) then None
  else if negb (nSize <? 256) then None
  else
    let nCompact2 := Z.lor nCompact1 (Z.shiftl nSize 24) in
    Some (Z.lor nCompact2
            (if fNegative && negb (Z.land nCompact2 0x007fffff =? 0) then 0x00800000 else 0)).

(** The conversions [ArithToUint256] / [UintToArith256] (a [uint256] is its 32 bytes). *)

Definition ArithToUint256 (a : base_uint) : list Z :=
  foldr (fun x b => WriteLE32 (word a x) ++ b) [] (seq 0 WIDTH).

Definition UintToArith256 (a : list Z) : base_uint :=
  map (fun x => ReadLE32 (drop (x * 4) a)) (seq 0 WIDTH).

(** ** What the words denote *)

Fixpoint val (a : list Z) : Z :=
  match a with
  | [] => 0
  | w :: t => w + 2 ^ 32 * val t
  end.

Definition is_word (w : Z) : Prop := 0 <= w < 2 ^ 32.

Definition wf (a : base_uint) : Prop := length a = WIDTH /\ Forall is_word a.

(** [2 ^ (32 * n)], the modulus of [n] words. *)

Definition M (n : nat) : Z := 2 ^ (32 * Z.of_nat n).

Lemma M_0 : M 0 = 1.
Proof. done. Qed.

Lemma M_S n : M (S n) = 2 ^ 32 * M n.
Proof. unfold M. rewrite <- Z.pow_add_r by lia. f_equal. lia. Qed.

Lemma M_pos n : 0 < M n.
Proof. apply pow2_pos. lia. Qed.

Lemma M_add n m : M (n + m) = M n * M m.
Proof. unfold M. rewrite <- Z.pow_add_r by lia. f_equal. lia. Qed.

Lemma is_word_mod z : is_word (z mod 2 ^ 32).
Proof. apply Z.mod_pos_bound. lia. Qed.

Lemma val_bound a : Forall is_word a -> 0 <= val a < M (length a).
Proof.
  induction 1 as [|w a Hw Ha IH]; [cbn [length val app]; rewrite M_0; lia|].
  cbn [val length]. rewrite M_S. unfold is_word in Hw. lia.
Qed.

Lemma val_wf_bound a : wf a -> 0 <= val a < 2 ^ 256.
Proof. intros [Hl Ha]. apply val_bound in Ha. rewrite Hl in Ha. exact Ha. Qed.

Lemma val_app a b : val (a ++ b) = val a + M (length a) * val b.
Proof.
  induction a as [|w a IH]; [cbn [length val app]; rewrite M_0; lia|].
  cbn [app val length]. rewrite IH, M_S. lia.
Qed.

Lemma val_inj a b :
  length a = length b -> Forall is_word a -> Forall is_word b -> val a = val b -> a = b.
Proof.
  intros Hl Ha. revert b Hl. induction Ha as [|x a Hx Ha IH]; intros [|y b] Hl Hb Hv; try done.
  inversion Hb; subst. unfold is_word in *. cbn [val] in Hv.
  assert (val a = val b) by lia. f_equal; [lia|]. apply IH; auto.
Qed.

Lemma wf_mod a n : wf a -> val a = n mod 2 ^ 256 -> forall b, wf b -> val b = n mod 2 ^ 256 -> a = b.
Proof. intros [? ?] ? b [? ?] ?. apply val_inj; congruence. Qed.

Lemma val_replicate_0 n : val (replicate n 0) = 0.
Proof. induction n; simpl; lia. Qed.

(** ** Addition, negation, subtraction *)

Lemma add_loop_spec a b carry :
  length a = length b -> Forall is_word a -> Forall is_word b -> 0 <= carry <= 1 ->
  length (add_loop carry a b) = length a /\ Forall is_word (add_loop carry a b) /\
  val (add_loop carry a b) = (carry + val a + val b) mod M (length a).
Proof.
  intros Hl Ha. revert b carry Hl.
  induction Ha as [|x a Hx Ha IH]; intros [|y b] carry Hl Hb Hc; try done.
  { split_and!; [done..|]. cbn [length]. rewrite M_0. by rewrite Z.mod_1_r. }
  inversion Hb as [|? ? Hy Hb']; subst. unfold is_word in Hx, Hy. cbn [add_loop length val].
  unfold u64. rewrite (Z.mod_small _ (2 ^ 64)) by lia.
  rewrite land_ffffffff, Z.shiftr_div_pow2 by lia.
  destruct (IH b ((carry + x + y) / 2 ^ 32)) as (IH1 & IH2 & IH3); [simpl in Hl; lia | done | |].
  { split; [apply Z.div_pos; lia|]. enough ((carry + x + y) / 2 ^ 32 < 2) by lia.
    apply Z.div_lt_upper_bound; lia. }
  split_and!; [by rewrite IH1 | constructor; [apply is_word_mod | done] |].
  rewrite IH3, M_S. replace (carry + (x + 2 ^ 32 * val a) + (y + 2 ^ 32 * val b))
    with ((carry + x + y) + 2 ^ 32 * (val a + val b)) by lia.
  rewrite (Z.rem_mul_r _ (2 ^ 32)) by (pose proof (M_pos (length a)); lia).
  rewrite (Z.mul_comm (2 ^ 32) (val a + val b)).
  rewrite Z.mod_add, Z.div_add by lia. do 3 f_equal. lia.
Qed.

Lemma add_wf a b : wf a -> wf b -> wf (add a b).
Proof.
  intros [La Fa] [Lb Fb]. destruct (add_loop_spec a b 0) as (H1 & H2 & _); try done; try congruence.
  split; [unfold add; congruence | done].
Qed.

Lemma val_add a b : wf a -> wf b -> val (add a b) = (val a + val b) mod 2 ^ 256.
Proof.
  intros [La Fa] [Lb Fb]. destruct (add_loop_spec a b 0) as (_ & _ & H); try done; try congruence.
  rewrite La in H. exact H.
Qed.

Lemma lnot_spec a : Forall is_word a ->
  Forall is_word (lnot a) /\ val (lnot a) = M (length a) - 1 - val a.
Proof.
  induction 1 as [|w a Hw Ha [IH1 IH2]]; [cbn [length]; by rewrite M_0|]. unfold is_word in Hw.
  cbn [lnot map length val]. unfold u32 at 1 3. split; [constructor; [apply is_word_mod | done]|].
  fold (lnot a). rewrite IH2, M_S.
  replace (Z.lnot w mod 2 ^ 32) with (2 ^ 32 - 1 - w)
    by (apply (Z.mod_unique _ _ (-1)); unfold Z.lnot; lia).
  lia.
Qed.

Lemma incr_spec a : Forall is_word a ->
  length (incr a) = length a /\ Forall is_word (incr a) /\ val (incr a) = (val a + 1) mod M (length a).
Proof.
  induction 1 as [|w a Hw Ha (IH1 & IH2 & IH3)]; [cbn [length]; by rewrite M_0|]. unfold is_word in Hw.
  cbn [incr length val]. pose proof (val_bound a Ha) as Hb. pose proof (M_pos (length a)).
  rewrite M_S. unfold u32. destruct (decide (w = 2 ^ 32 - 1)) as [->|Hne].
  - replace ((2 ^ 32 - 1 + 1) mod 2 ^ 32) with 0 by done. rewrite Z.eqb_refl.
    split_and!; [by rewrite <- IH1 | constructor; [done|done] |]. cbn [val]. rewrite IH3.
    replace (2 ^ 32 - 1 + 2 ^ 32 * val a + 1) with (2 ^ 32 * (val a + 1)) by lia.
    rewrite Z.mul_mod_distr_l by lia. done.
  - rewrite Z.mod_small by lia. rewrite (proj2 (Z.eqb_neq _ _)) by lia.
    split_and!; [done | constructor; [unfold is_word; lia|done] |].
    cbn [val]. rewrite Z.mod_small by lia. lia.
Qed.

Lemma decr_spec a : Forall is_word a ->
  length (decr a) = length a /\ Forall is_word (decr a) /\ val (decr a) = (val a - 1) mod M (length a).
Proof.
  induction 1 as [|w a Hw Ha (IH1 & IH2 & IH3)]; [cbn [length]; by rewrite M_0|]. unfold is_word in Hw.
  cbn [decr length val]. pose proof (val_bound a Ha) as Hb. pose proof (M_pos (length a)).
  rewrite M_S. unfold u32. change (-1 mod 2 ^ 32) with (2 ^ 32 - 1).
  destruct (decide (w = 0)) as [->|Hne].
  - change ((0 - 1) mod 2 ^ 32) with (2 ^ 32 - 1). rewrite Z.eqb_refl.
    split_and!; [by rewrite <- IH1 | constructor; [unfold is_word; lia|done] |].
    cbn [val]. rewrite IH3. replace (0 + 2 ^ 32 * val a - 1)
      with ((2 ^ 32 - 1) + (val a - 1) * 2 ^ 32) by lia.
    rewrite Z.rem_mul_r, Z.mod_add, Z.div_add by lia.
    rewrite (Z.mod_small (2 ^ 32 - 1)), (Z.div_small (2 ^ 32 - 1)) by lia. done.
  - rewrite Z.mod_small by lia. rewrite (proj2 (Z.eqb_neq _ _)) by lia.
    split_and!; [done | constructor; [unfold is_word; lia|done] |].
    cbn [val]. rewrite Z.mod_small by lia. lia.
Qed.

Lemma neg_spec a : wf a -> wf (neg a) /\ val (neg a) = (- val a) mod 2 ^ 256.
Proof.
  intros [Hl Ha]. destruct (lnot_spec a Ha) as [H1 H2].
  assert (length (lnot a) = WIDTH) as Hl' by (unfold lnot; by rewrite length_map).
  destruct (incr_spec (lnot a) H1) as (H3 & H4 & H5). split; [split; [unfold neg; congruence|done]|].
  unfold neg. rewrite H5, H2, Hl', Hl. change (M WIDTH) with (2 ^ 256).
  replace (2 ^ 256 - 1 - val a + 1) with (- val a + 1 * 2 ^ 256) by lia.
  by rewrite Z.mod_add by lia.
Qed.

Lemma sub_spec a b : wf a -> wf b -> wf (sub a b) /\ val (sub a b) = (val a - val b) mod 2 ^ 256.
Proof.
  intros Ha Hb. destruct (neg_spec b Hb) as [H1 H2]. unfold sub. split; [by apply add_wf|].
  rewrite val_add, H2 by done. rewrite Zplus_mod_idemp_r. f_equal; lia.
Qed.

Lemma of_u64_spec b : 0 <= b < 2 ^ 64 -> wf (of_u64 b) /\ val (of_u64 b) = b.
Proof.
  intros Hb. unfold of_u64, u32. rewrite Z.shiftr_div_pow2 by lia.
  assert (0 <= b / 2 ^ 32 < 2 ^ 32) by (split; [apply Z.div_pos; lia | apply Z.div_lt_upper_bound; lia]).
  rewrite (Z.mod_small (b / 2 ^ 32)) by done. split.
  - split; [done|]. constructor; [apply is_word_mod|]. constructor; [done|].
    apply Forall_replicate. unfold is_word; lia.
  - cbn [val]. rewrite val_replicate_0. pose proof (Z.div_mod b (2 ^ 32)). lia.
Qed.

(** ** Multiplication *)

(** One column of a schoolbook product: the 64-bit accumulator does not overflow, and its low word
    and carry are the quotient and remainder by [2 ^ 32]. *)

Lemma mul_column carry p x y :
  is_word carry -> is_word p -> is_word x -> is_word y ->
  u64 (carry + p + x * y) = carry + p + x * y /\ is_word ((carry + p + x * y) / 2 ^ 32).
Proof.
  unfold is_word, u64. intros.
  assert (0 <= x * y <= (2 ^ 32 - 1) * (2 ^ 32 - 1)) by nia.
  split; [apply Z.mod_small; lia|].
  split; [apply Z.div_pos; lia | apply Z.div_lt_upper_bound; lia].
Qed.

Lemma mod_M_S n q z : 0 < M n -> q mod 2 ^ 32 + 2 ^ 32 * ((q / 2 ^ 32 + z) mod M n) = (q + 2 ^ 32 * z) mod M (S n).
Proof.
  intros. rewrite M_S, (Z.rem_mul_r _ (2 ^ 32)) by lia.
  rewrite (Z.mul_comm (2 ^ 32) z), Z.mod_add, Z.div_add by lia. done.
Qed.

Lemma mul32_loop_spec a b32 carry :
  Forall is_word a -> is_word b32 -> is_word carry ->
  length (mul32_loop carry b32 a) = length a /\ Forall is_word (mul32_loop carry b32 a) /\
  val (mul32_loop carry b32 a) = (carry + b32 * val a) mod M (length a).
Proof.
  intros Ha Hb. revert carry. induction Ha as [|x a Hx Ha IH]; intros carry Hc.
  { cbn [length]. rewrite M_0. by rewrite Z.mod_1_r. }
  cbn [mul32_loop length val].
  destruct (mul_column carry 0 b32 x) as [E Hq]; [done | unfold is_word; lia | done..|].
  rewrite Z.add_0_r in E, Hq. rewrite E, land_ffffffff, Z.shiftr_div_pow2 by lia.
  destruct (IH _ Hq) as (IH1 & IH2 & IH3).
  split_and!; [by rewrite IH1 | constructor; [apply is_word_mod | done] |].
  rewrite IH3, mod_M_S by apply M_pos. f_equal. lia.
Qed.

Lemma mul32_spec a b : wf a -> is_word b -> wf (mul32 a b) /\ val (mul32 a b) = (val a * b) mod 2 ^ 256.
Proof.
  intros [Hl Ha] Hb. destruct (mul32_loop_spec a b 0) as (H1 & H2 & H3); [done.. | unfold is_word; lia |].
  split; [split; [unfold mul32; congruence | done]|].
  unfold mul32. rewrite H3, Hl. change (M WIDTH) with (2 ^ 256). f_equal. lia.
Qed.

Lemma mul_row_spec pn b aj carry :
  (length pn <= length b)%nat -> Forall is_word pn -> Forall is_word b -> is_word aj -> is_word carry ->
  length (mul_row carry aj pn b) = length pn /\ Forall is_word (mul_row carry aj pn b) /\
  val (mul_row carry aj pn b) = (carry + val pn + aj * val b) mod M (length pn).
Proof.
  intros Hl Hp. revert b carry Hl. induction Hp as [|p pn Hp Hpn IH]; intros b carry Hl Hb Haj Hc.
  { cbn [length]. rewrite M_0. destruct b; by rewrite Z.mod_1_r. }
  destruct b as [|y b]; [simpl in Hl; lia|]. inversion Hb; subst. cbn [mul_row length val] in *.
  destruct (mul_column carry p aj y) as [E Hq]; [done..|].
  rewrite E, land_ffffffff, Z.shiftr_div_pow2 by lia.
  destruct (IH b _ ltac:(lia) ltac:(done) Haj Hq) as (IH1 & IH2 & IH3).
  split_and!; [by rewrite IH1 | constructor; [apply is_word_mod | done] |].
  rewrite IH3. rewrite <- (Z.add_assoc (_ / _)), mod_M_S by apply M_pos. f_equal. lia.
Qed.

Lemma lookup_word a j : (j < length a)%nat -> a !! j = Some (word a j).
Proof.
  intros [x Hx]%lookup_lt_is_Some_2. unfold word. by rewrite nth_lookup, Hx.
Qed.

Lemma word_is_word a j : Forall is_word a -> is_word (word a j).
Proof.
  intros Ha. unfold word. destruct (nth_in_or_default j a 0) as [H| ->]; [|unfold is_word; lia].
  by apply (proj1 (List.Forall_forall _ _) Ha).
Qed.

Lemma mul_step_spec a b pn j : wf b -> wf pn -> Forall is_word a -> (j < WIDTH)%nat ->
  wf (mul_step a b pn j) /\
  (val (mul_step a b pn j) mod 2 ^ 256 = (val pn + word a j * M j * val b) mod 2 ^ 256).
Proof.
  intros [Lb Fb] [Lp Fp] Fa Hj. unfold mul_step.
  assert (length (drop j pn) = (WIDTH - j)%nat) as Ld by (rewrite length_drop; congruence).
  assert (length (take j pn) = j) as Lt by (rewrite length_take; lia).
  destruct (mul_row_spec (drop j pn) b (word a j) 0) as (H1 & H2 & H3);
    [lia | by apply Forall_drop | done | by apply word_is_word | unfold is_word; lia |].
  split; [split|].
  - rewrite length_app, H1. lia.
  - apply Forall_app_2; [by apply Forall_take | done].
  - rewrite val_app, Lt, H3, Ld. change (2 ^ 256) with (M WIDTH).
    replace (M WIDTH) with (M j * M (WIDTH - j)) by (rewrite <- M_add; f_equal; lia).
    assert (val pn = val (take j pn) + M j * val (drop j pn)) as ->
      by (rewrite <- Lt at 2; rewrite <- val_app; by rewrite take_drop).
    rewrite <- Z.mul_mod_distr_l by (pose proof (M_pos j); pose proof (M_pos (WIDTH - j)); lia).
    rewrite Zplus_mod_idemp_r. f_equal. lia.
Qed.

Lemma mul_loop_spec a b n : wf a -> wf b -> (n <= WIDTH)%nat ->
  let r := foldl (mul_step a b) (of_u64 0) (seq 0 n) in
  wf r /\ val r mod 2 ^ 256 = (val (take n a) * val b) mod 2 ^ 256.
Proof.
  intros [La Fa] Hb. induction n as [|n IH]; intros Hn; cbn zeta in *.
  { split; [by apply of_u64_spec|]. done. }
  rewrite seq_S, foldl_app. cbn [foldl]. destruct IH as [IH1 IH2]; [lia|].
  rewrite Nat.add_0_l.
  destruct (mul_step_spec a b _ n Hb IH1 Fa ltac:(lia)) as [H1 H2]. split; [done|].
  rewrite H2. rewrite <- Zplus_mod_idemp_l, IH2, Zplus_mod_idemp_l. f_equal.
  rewrite (take_S_r _ _ (word a n)) by (apply lookup_word; lia).
  rewrite val_app, length_take, Nat.min_l by lia. cbn [val]. lia.
Qed.

Lemma mul_spec a b : wf a -> wf b -> wf (mul a b) /\ val (mul a b) = (val a * val b) mod 2 ^ 256.
Proof.
  intros Ha Hb. destruct (mul_loop_spec a b WIDTH Ha Hb ltac:(lia)) as [H1 H2].
  split; [done|]. fold (mul a b) in H1, H2. rewrite Z.mod_small in H2 by (by apply val_wf_bound).
  rewrite H2. destruct Ha as [La _]. by rewrite <- La, firstn_all.
Qed.

(** ** Comparison *)

Lemma compare_loop_app a b x y : length a = length b ->
  compare_loop (a ++ x) (b ++ y) = if compare_loop a b =? 0 then compare_loop x y else compare_loop a b.
Proof.
  revert b. induction a as [|u a IH]; intros [|v b] Hl; try done.
  cbn [app compare_loop]. destruct (Z.ltb_spec u v); [done|]. destruct (Z.ltb_spec v u); [done|].
  apply IH. simpl in Hl. lia.
Qed.

Definition sign_of (c : comparison) : Z := match c with Lt => -1 | Eq => 0 | Gt => 1 end.

Lemma CompareTo_spec_gen a b : length a = length b -> Forall is_word a -> Forall is_word b ->
  CompareTo a b = sign_of (val a ?= val b).
Proof.
  intros Hl Ha. revert b Hl. unfold CompareTo.
  induction Ha as [|x a Hx Ha IH]; intros [|y b] Hl Hb; try done.
  inversion Hb as [|? ? Hy Hb']; subst. cbn [rev val].
  rewrite compare_loop_app by (rewrite !length_rev; simpl in Hl; lia).
  rewrite IH by (simpl in Hl; auto). unfold is_word in Hx, Hy.
  destruct (Z.compare_spec (val a) (val b)) as [E|E|E]; cbn [sign_of Z.eqb compare_loop].
  - destruct (Z.ltb_spec x y).
    { rewrite (proj2 (Z.compare_lt_iff _ _)) by lia. done. }
    destruct (Z.ltb_spec y x).
    { rewrite (proj2 (Z.compare_gt_iff _ _)) by lia. done. }
    rewrite (proj2 (Z.compare_eq_iff _ _)) by lia. done.
  - rewrite (proj2 (Z.compare_lt_iff _ _)) by lia. done.
  - rewrite (proj2 (Z.compare_gt_iff _ _)) by lia. done.
Qed.

Lemma CompareTo_spec a b : wf a -> wf b -> CompareTo a b = sign_of (val a ?= val b).
Proof. intros [] []. apply CompareTo_spec_gen; congruence. Qed.

(** ** Shifts

    Both loops are compared with a one-pass reference: a shift by fewer than 32 bits that carries
    between neighbouring words ([shl_words], [shr_words]), then a move by whole words. *)

Fixpoint shl_words (s c : Z) (a : list Z) : list Z :=
  match a with
  | [] => [c]
  | w :: t => Z.lor c (u32 (Z.shiftl w s)) :: shl_words s (if s =? 0 then 0 else Z.shiftr w (32 - s)) t
  end.

Fixpoint shr_words (s : Z) (a : list Z) : list Z :=
  match a with
  | [] => []
  | w :: t =>
      Z.lor (Z.shiftr w s)
        (match t with
         | [] => 0
         | w' :: _ => if s =? 0 then 0 else u32 (Z.shiftl w' (32 - s))
         end) :: shr_words s t
  end.

Lemma wf_destruct a : wf a -> exists a0 a1 a2 a3 a4 a5 a6 a7, a = [a0; a1; a2; a3; a4; a5; a6; a7].
Proof.
  intros [Hl _]. do 8 (destruct a as [|? a]; [done|]). destruct a; [|done]. eauto 10.
Qed.

Lemma shl_steps_shift a s k : wf a -> (k < WIDTH)%nat ->
  foldl (shl_step a k s) zero (seq 0 WIDTH) = take WIDTH (replicate k 0 ++ shl_words s 0 a).
Proof.
  intros Ha Hk. destruct (wf_destruct a Ha) as (a0&a1&a2&a3&a4&a5&a6&a7&->).
  unfold WIDTH in Hk. cbn [shl_words]. unfold shl_step, word.
  do 8 (destruct k as [|k]; [destruct (s =? 0); reflexivity|]). lia.
Qed.

Lemma shl_steps_clear a s k : (WIDTH <= k)%nat -> foldl (shl_step a k s) zero (seq 0 WIDTH) = zero.
Proof.
  intros Hk. assert (forall i pn, shl_step a k s pn i = pn) as H.
  { intros i pn. unfold shl_step. rewrite !(proj2 (Nat.ltb_ge _ _)) by lia. done. }
  induction (seq 0 WIDTH) as [|i l IH]; [done|]. cbn [foldl]. by rewrite H.
Qed.

Lemma shr_steps_shift a s k : wf a -> (k < WIDTH)%nat ->
  foldl (shr_step a k s) zero (seq 0 WIDTH) = drop k (shr_words s a) ++ replicate k 0.
Proof.
  intros Ha Hk. destruct (wf_destruct a Ha) as (a0&a1&a2&a3&a4&a5&a6&a7&->).
  unfold WIDTH in Hk. cbn [shr_words]. unfold shr_step, word. rewrite Z.lor_0_r.
  destruct (s =? 0); rewrite ?Z.lor_0_r.
  - do 8 (destruct k as [|k]; [reflexivity|]). lia.
  - do 8 (destruct k as [|k]; [reflexivity|]). lia.
Qed.

Lemma shr_steps_clear a s k : (WIDTH <= k)%nat -> foldl (shr_step a k s) zero (seq 0 WIDTH) = zero.
Proof.
  intros Hk. assert (forall l pn, Forall (fun i => (i < WIDTH)%nat) l -> foldl (shr_step a k s) pn l = pn) as H.
  { intros l pn Hl. revert pn. induction Hl as [|i l Hi Hl IH]; intros pn; [done|]. cbn [foldl].
    unfold shr_step at 2. rewrite !(proj2 (Nat.leb_gt _ _)) by lia. apply IH. }
  apply H. apply List.Forall_forall. intros i Hi%in_seq. lia.
Qed.

(** The two halves of a word shifted left by [s] bits. *)

Lemma shl_word w s : is_word w -> 0 <= s < 32 ->
  w * 2 ^ s = u32 (Z.shiftl w s) + 2 ^ 32 * (if s =? 0 then 0 else Z.shiftr w (32 - s)) /\
  0 <= (if s =? 0 then 0 else Z.shiftr w (32 - s)) < 2 ^ s /\
  exists h, u32 (Z.shiftl w s) = h * 2 ^ s /\ 0 <= h < 2 ^ (32 - s).
Proof.
  unfold is_word. intros Hw Hs. pose proof (pow2_pos s ltac:(lia)). pose proof (pow2_pos (32 - s) ltac:(lia)).
  assert (2 ^ 32 = 2 ^ (32 - s) * 2 ^ s) as E32 by (rewrite <- Z.pow_add_r by lia; f_equal; lia).
  assert ((if s =? 0 then 0 else Z.shiftr w (32 - s)) = w / 2 ^ (32 - s)) as ->.
  { destruct (Z.eqb_spec s 0) as [->|]; [|by rewrite Z.shiftr_div_pow2 by lia].
    rewrite Z.div_small; [done | lia]. }
  assert (u32 (Z.shiftl w s) = (w mod 2 ^ (32 - s)) * 2 ^ s) as ->.
  { unfold u32. rewrite Z.shiftl_mul_pow2 by lia. rewrite E32.
    by rewrite Z.mul_mod_distr_r by lia. }
  split_and!.
  - rewrite E32. pose proof (Z.div_mod w (2 ^ (32 - s)) ltac:(lia)). nia.
  - apply Z.div_pos; lia.
  - apply Z.div_lt_upper_bound; lia.
  - eexists. split; [done|]. apply Z.mod_pos_bound. lia.
Qed.

Lemma shl_words_spec a s c : Forall is_word a -> 0 <= s < 32 -> 0 <= c < 2 ^ s ->
  Forall is_word (shl_words s c a) /\ val (shl_words s c a) = c + 2 ^ s * val a.
Proof.
  intros Ha Hs. revert c. assert (2 ^ s < 2 ^ 32) by (apply Z.pow_lt_mono_r; lia).
  induction Ha as [|w a Hw Ha IH]; intros c Hc.
  { cbn [shl_words val]. split; [repeat constructor; lia | lia]. }
  destruct (shl_word w s Hw Hs) as (E & Hh & h & Eh & Hhb). cbn [shl_words val].
  destruct (IH _ Hh) as [IH1 IH2]. split.
  - constructor; [|done]. apply lor_range; [lia | lia |]. apply is_word_mod.
  - rewrite IH2. rewrite Eh in E |- *. rewrite lor_low_high by lia. lia.
Qed.

Lemma shr_words_spec a s : Forall is_word a -> 0 <= s < 32 ->
  Forall is_word (shr_words s a) /\ val (shr_words s a) = val a / 2 ^ s.
Proof.
  intros Ha Hs. pose proof (pow2_pos s ltac:(lia)) as Hp.
  assert (2 ^ 32 = 2 ^ (32 - s) * 2 ^ s) as E32 by (rewrite <- Z.pow_add_r by lia; f_equal; lia).
  induction Ha as [|w a Hw Ha [IH1 IH2]]; [done|]. cbn [shr_words val]. rewrite IH2.
  assert (is_word (Z.shiftr w s)) as Hws.
  { unfold is_word in *. rewrite Z.shiftr_div_pow2 by lia. split; [apply Z.div_pos; lia|].
    apply Z.div_lt_upper_bound; [lia|]. nia. }
  assert (val a mod 2 ^ s = match a with [] => 0 | w' :: _ => w' mod 2 ^ s end) as Em.
  { destruct a as [|w' t]; [done|]. cbn [val]. rewrite E32.
    rewrite <- Z.mul_assoc, (Z.mul_comm (2 ^ (32 - s))), <- Z.mul_assoc, Z.mul_comm.
    by rewrite Z.mod_add by lia. }
  assert (match a with [] => 0 | w' :: _ => if s =? 0 then 0 else u32 (Z.shiftl w' (32 - s)) end
          = (val a mod 2 ^ s) * 2 ^ (32 - s)) as ->.
  { rewrite Em. destruct a as [|w' t]; [done|]. destruct (Z.eqb_spec s 0) as [->|Hs0]; [by rewrite Z.mod_1_r|].
    unfold u32. rewrite Z.shiftl_mul_pow2 by lia. rewrite E32, (Z.mul_comm (2 ^ (32 - s)) (2 ^ s)).
    rewrite Z.mul_mod_distr_r by (pose proof (pow2_pos (32 - s)); lia). done. }
  pose proof (Z.mod_pos_bound (val a) (2 ^ s) Hp) as Hm.
  assert (0 <= Z.shiftr w s < 2 ^ (32 - s)) as Hlow.
  { unfold is_word in Hw. rewrite Z.shiftr_div_pow2 by lia. split; [apply Z.div_pos; lia|].
    apply Z.div_lt_upper_bound; lia. }
  rewrite lor_low_high by lia. split.
  - constructor; [|done]. unfold is_word. pose proof (pow2_pos (32 - s) ltac:(lia)). nia.
  - rewrite Z.shiftr_div_pow2 by lia.
    apply (Z.div_unique_pos _ _ _ (w mod 2 ^ s)); [apply Z.mod_pos_bound; lia|].
    pose proof (Z.div_mod w (2 ^ s) ltac:(lia)) as Dw. pose proof (Z.div_mod (val a) (2 ^ s) ltac:(lia)) as Da.
    rewrite E32. rewrite Da at 1. rewrite Dw at 1. ring.
Qed.

Lemma val_take_drop a n : Forall is_word a -> (n <= length a)%nat ->
  val (take n a) = val a mod M n /\ val (drop n a) = val a / M n.
Proof.
  intros Ha Hn. pose proof (val_bound (take n a) ltac:(by apply Forall_take)) as Hb.
  rewrite length_take, Nat.min_l in Hb by done.
  assert (val a = M n * val (drop n a) + val (take n a)) as E.
  { rewrite <- (take_drop n a) at 1. rewrite val_app, length_take, Nat.min_l by done. lia. }
  split; [by apply (Z.mod_unique_pos _ _ (val (drop n a))) | by apply (Z.div_unique_pos _ _ _ (val (take n a)))].
Qed.

Lemma length_shl_words s c a : length (shl_words s c a) = S (length a).
Proof. revert c. induction a; intros; simpl; auto. Qed.

Lemma length_shr_words s a : length (shr_words s a) = length a.
Proof. induction a; simpl; auto. Qed.

Lemma zero_wf : wf zero.
Proof. split; [done|]. apply Forall_replicate. unfold is_word. lia. Qed.

Lemma shl_spec a shift : wf a -> 0 <= shift ->
  wf (shl a shift) /\ val (shl a shift) = (val a * 2 ^ shift) mod 2 ^ 256.
Proof.
  intros Ha Hs. unfold shl. pose proof (Z.div_mod shift 32 ltac:(lia)) as D.
  pose proof (Z.mod_pos_bound shift 32 ltac:(lia)) as Hm.
  pose proof (Z.div_pos shift 32 ltac:(lia) ltac:(lia)) as Hq.
  set (s := shift mod 32) in *. set (k := Z.to_nat (shift / 32)).
  assert (2 ^ shift = M k * 2 ^ s) as ->.
  { unfold M, k. rewrite <- Z.pow_add_r by lia. f_equal. lia. }
  destruct (decide (k < WIDTH)%nat) as [Hk|Hk].
  - rewrite shl_steps_shift by done. destruct Ha as [La Fa].
    destruct (shl_words_spec a s 0 Fa Hm) as [F1 V1]; [pose proof (pow2_pos s); lia|].
    assert (Forall is_word (replicate k 0 ++ shl_words s 0 a)) as F2.
    { apply Forall_app_2; [apply Forall_replicate; unfold is_word; lia | done]. }
    assert (WIDTH <= length (replicate k 0%Z ++ shl_words s 0%Z a))%nat as L2.
    { rewrite length_app, length_replicate, length_shl_words, La. lia. }
    split; [split; [rewrite length_take; lia | by apply Forall_take]|].
    rewrite (proj1 (val_take_drop _ WIDTH F2 L2)). rewrite val_app, val_replicate_0, length_replicate, V1.
    change (M WIDTH) with (2 ^ 256). f_equal. lia.
  - rewrite shl_steps_clear by lia. split; [apply zero_wf|]. change (val zero) with 0. symmetry.
    replace k with (WIDTH + (k - WIDTH))%nat by lia. rewrite M_add.
    change (M WIDTH) with (2 ^ 256). rewrite <- !Z.mul_assoc, (Z.mul_comm (2 ^ 256)), !Z.mul_assoc.
    apply Z.mod_mul. lia.
Qed.

Lemma shr_spec a shift : wf a -> 0 <= shift ->
  wf (shr a shift) /\ val (shr a shift) = val a / 2 ^ shift.
Proof.
  intros Ha Hs. unfold shr. pose proof (Z.div_mod shift 32 ltac:(lia)) as D.
  pose proof (Z.mod_pos_bound shift 32 ltac:(lia)) as Hm.
  pose proof (Z.div_pos shift 32 ltac:(lia) ltac:(lia)) as Hq.
  set (s := shift mod 32) in *. set (k := Z.to_nat (shift / 32)).
  assert (2 ^ shift = 2 ^ s * M k) as ->.
  { unfold M, k. rewrite <- Z.pow_add_r by lia. f_equal. lia. }
  pose proof (pow2_pos s ltac:(lia)). pose proof (M_pos k).
  destruct (decide (k < WIDTH)%nat) as [Hk|Hk].
  - rewrite shr_steps_shift by done. destruct Ha as [La Fa].
    destruct (shr_words_spec a s Fa Hm) as [F1 V1].
    assert (length (shr_words s a) = WIDTH) as L1 by (by rewrite length_shr_words).
    split; [split|].
    + rewrite length_app, length_drop, length_replicate. lia.
    + apply Forall_app_2; [by apply Forall_drop | apply Forall_replicate; unfold is_word; lia].
    + rewrite val_app, val_replicate_0, Z.mul_0_r, Z.add_0_r.
      rewrite (proj2 (val_take_drop _ k F1 ltac:(lia))), V1. by rewrite Z.div_div by lia.
  - rewrite shr_steps_clear by lia. split; [apply zero_wf|]. symmetry. apply Z.div_small.
    pose proof (val_wf_bound a Ha). replace k with (WIDTH + (k - WIDTH))%nat by lia. rewrite M_add.
    change (M WIDTH) with (2 ^ 256). pose proof (M_pos (k - WIDTH)). nia.
Qed.

(** ** Bit length *)

(** [bits] of a number: 0 for 0, else the position of the highest set bit plus one. *)

Definition num_bits (v : Z) : Z := if v =? 0 then 0 else Z.log2 v + 1.

Lemma num_bits_pos v : 0 < v -> 1 <= num_bits v /\ 2 ^ (num_bits v - 1) <= v < 2 ^ num_bits v.
Proof.
  intros Hv. unfold num_bits. rewrite (proj2 (Z.eqb_neq v 0)) by lia.
  pose proof (Z.log2_spec v Hv). pose proof (Z.log2_nonneg v).
  replace (Z.log2 v + 1 - 1) with (Z.log2 v) by lia. unfold Z.succ in *. lia.
Qed.

Lemma num_bits_unique v n : 0 < n -> 2 ^ (n - 1) <= v < 2 ^ n -> num_bits v = n.
Proof.
  intros Hn Hv. pose proof (pow2_pos (n - 1) ltac:(lia)). unfold num_bits.
  rewrite (proj2 (Z.eqb_neq v 0)) by lia. enough (Z.log2 v = n - 1) by lia.
  apply Z.log2_unique; [lia|]. replace (Z.succ (n - 1)) with n by lia. lia.
Qed.

Lemma bits_inner_spec w pos n : 0 < w < 2 ^ (Z.of_nat n + 1) ->
  bits_inner w pos n = 32 * pos + num_bits w.
Proof.
  induction n as [|n IH]; intros Hw; cbn [bits_inner].
  - assert (w = 1) as -> by (change (2 ^ (Z.of_nat 0 + 1)) with 2 in Hw; lia). done.
  - rewrite land_bit by lia. rewrite testbit_top by lia.
    destruct (Z.leb_spec (2 ^ Z.of_nat (S n)) w); cbn [negb].
    + rewrite (num_bits_unique w (Z.of_nat (S n) + 1)); [lia | lia |].
      replace (Z.of_nat (S n) + 1 - 1) with (Z.of_nat (S n)) by lia. lia.
    + apply IH. replace (Z.of_nat n + 1) with (Z.of_nat (S n)) by lia. lia.
Qed.

Lemma bits_loop_spec a n : Forall is_word a -> (n <= length a)%nat -> bits_loop a n = num_bits (val (take n a)).
Proof.
  intros Ha. induction n as [|n IH]; intros Hn; [done|]. cbn [bits_loop].
  rewrite (take_S_r _ _ (word a n)) by (apply lookup_word; lia).
  rewrite val_app, length_take, Nat.min_l by lia. cbn [val].
  pose proof (val_bound (take n a) ltac:(by apply Forall_take)) as Hb.
  rewrite length_take, Nat.min_l in Hb by lia.
  pose proof (word_is_word a n Ha) as Hw. unfold is_word in Hw.
  destruct (Z.eqb_spec (word a n) 0) as [E|E].
  { rewrite E, IH by lia. f_equal. lia. }
  rewrite bits_inner_spec by (change (2 ^ (Z.of_nat 31 + 1)) with (2 ^ 32); lia).
  destruct (num_bits_pos (word a n) ltac:(lia)) as [H1 H2]. symmetry. apply num_bits_unique; [lia|].
  unfold M in Hb |- *.
  replace (32 * Z.of_nat n + num_bits (word a n) - 1) with (32 * Z.of_nat n + (num_bits (word a n) - 1)) by lia.
  rewrite !Z.pow_add_r by lia. nia.
Qed.

Lemma bits_spec a : wf a -> bits a = num_bits (val a).
Proof. intros [Hl Ha]. unfold bits. rewrite bits_loop_spec by (done || lia). by rewrite <- Hl, firstn_all. Qed.

Lemma num_bits_bound v n : 0 <= v < 2 ^ n -> 0 <= n -> 0 <= num_bits v <= n.
Proof.
  intros Hv Hn. destruct (decide (v = 0)) as [->|]; [done|].
  destruct (num_bits_pos v ltac:(lia)) as [H1 H2]. split; [lia|].
  destruct (decide (num_bits v <= n)); [done|]. exfalso.
  assert (2 ^ n <= 2 ^ (num_bits v - 1)) by (apply Z.pow_le_mono_r; lia). lia.
Qed.

(** ** Division *)

Lemma val_alter f i a : (i < length a)%nat -> val (alter f i a) = val a + (f (word a i) - word a i) * M i.
Proof.
  revert i. induction a as [|w a IH]; intros [|i] Hi; simpl in Hi; try lia.
  - cbn [alter list_alter val]. unfold word; cbn [nth]. rewrite M_0. lia.
  - cbn [alter list_alter val]. change (list_alter f i a) with (alter f i a).
    rewrite IH by lia. unfold word; cbn [nth]. rewrite M_S. lia.
Qed.

Lemma testbit_val a i r : Forall is_word a -> (i < length a)%nat -> 0 <= r < 32 ->
  Z.testbit (val a) (32 * Z.of_nat i + r) = Z.testbit (word a i) r.
Proof.
  intros Ha. revert i. induction Ha as [|w a Hw Ha IH]; intros [|i] Hi Hr; simpl in Hi; try lia.
  - cbn [val]. unfold word; cbn [nth]. rewrite (Z.mul_comm (2 ^ 32)), <- lor_low_high by (done || lia).
    rewrite Z.lor_spec, Z.mul_pow2_bits_low by lia. rewrite orb_false_r. done.
  - cbn [val]. unfold word; cbn [nth]. rewrite (Z.mul_comm (2 ^ 32)), <- lor_low_high by (done || lia).
    rewrite Z.lor_spec, (testbit_small w 32) by (done || lia).
    rewrite Z.mul_pow2_bits by lia. cbn [orb].
    replace (32 * Z.of_nat (S i) + r - 32) with (32 * Z.of_nat i + r) by lia. apply IH; lia.
Qed.

Lemma set_bit_spec q n : wf q -> (n < 256)%nat -> val q mod 2 ^ (Z.of_nat n + 1) = 0 ->
  wf (set_bit q n) /\ val (set_bit q n) = val q + 2 ^ Z.of_nat n.
Proof.
  intros [Hl Hq] Hn Hm. unfold set_bit.
  assert (Z.land (Z.of_nat n) 31 = Z.of_nat (n mod 32)) as ->.
  { change 31 with (Z.ones 5). rewrite Z.land_ones by lia. rewrite Nat2Z.inj_mod. done. }
  pose proof (Nat.div_mod n 32 ltac:(lia)) as D. pose proof (Nat.mod_upper_bound n 32 ltac:(lia)) as Hr.
  set (i := (n / 32)%nat) in *. set (r := (n mod 32)%nat) in *.
  assert (i < WIDTH)%nat as Hi by (unfold WIDTH; lia).
  assert (Z.of_nat n = 32 * Z.of_nat i + Z.of_nat r) as En by lia.
  assert (u32 (Z.shiftl 1 (Z.of_nat r)) = 1 * 2 ^ Z.of_nat r) as ->.
  { unfold u32. rewrite Z.shiftl_mul_pow2 by lia. apply Z.mod_small. rewrite Z.mul_1_l.
    split; [pose proof (pow2_pos (Z.of_nat r)); lia | apply Z.pow_lt_mono_r; lia]. }
  assert (Z.testbit (word q i) (Z.of_nat r) = false) as Hbit.
  { rewrite <- testbit_val by (done || lia). rewrite <- En.
    rewrite <- (Z.mod_pow2_bits_low _ (Z.of_nat n + 1)) by lia. by rewrite Hm, Z.bits_0. }
  assert (Z.lor (word q i) (1 * 2 ^ Z.of_nat r) = word q i + 2 ^ Z.of_nat r) as Elor.
  { rewrite Z.mul_1_l. symmetry. apply Z.add_nocarry_lor. apply Z.bits_inj'. intros j Hj.
    rewrite Z.land_spec, Z.bits_0. destruct (decide (j = Z.of_nat r)) as [->|]; [by rewrite Hbit|].
    by rewrite Z.pow2_bits_false, andb_false_r by lia. }
  split; [split; [by rewrite length_alter|]|].
  - apply Forall_alter; [done|]. intros w _ Hw. unfold is_word in *.
    apply lor_range; [lia | done |]. rewrite Z.mul_1_l.
    split; [pose proof (pow2_pos (Z.of_nat r)); lia | apply Z.pow_lt_mono_r; lia].
  - rewrite val_alter by lia. rewrite Elor, En. unfold M. rewrite Z.pow_add_r by lia. lia.
Qed.

Lemma CompareTo_ge a b : wf a -> wf b -> (0 <=? CompareTo a b) = (val b <=? val a).
Proof.
  intros. rewrite CompareTo_spec by done.
  destruct (Z.compare_spec (val a) (val b)), (Z.leb_spec (val b) (val a)); cbn; lia.
Qed.

(** The loop invariant of long division by [B]: [n] rounds are left, the quotient so far is a
    multiple of [2 ^ n], the remainder is below [B * 2 ^ n]. *)

Lemma div_loop_spec n A B num div q :
  wf num -> wf div -> wf q -> 0 < B -> A < 2 ^ 256 -> (n <= 256)%nat ->
  val div = B * 2 ^ Z.of_nat n / 2 -> val q mod 2 ^ Z.of_nat n = 0 ->
  val num < B * 2 ^ Z.of_nat n -> A = val q * B + val num ->
  let '(q', num') := div_loop n num div q in
  wf q' /\ wf num' /\ A = val q' * B + val num' /\ val num' < B.
Proof.
  intros Hnum Hdiv Hq HB HA. revert num div q Hnum Hdiv Hq.
  induction n as [|n IH]; intros num div q Hnum Hdiv Hq Hn Ed Eq Hlt EA.
  { cbn [div_loop]. split_and!; auto. change (2 ^ Z.of_nat 0) with 1 in Hlt. lia. }
  cbn [div_loop]. pose proof (pow2_pos (Z.of_nat n) ltac:(lia)) as Hp.
  assert (2 ^ Z.of_nat (S n) = 2 * 2 ^ Z.of_nat n) as E2
    by (replace (Z.of_nat (S n)) with (1 + Z.of_nat n) by lia; by rewrite Z.pow_add_r by lia).
  assert (val div = B * 2 ^ Z.of_nat n) as Ed'.
  { rewrite Ed, E2. replace (B * (2 * 2 ^ Z.of_nat n)) with (B * 2 ^ Z.of_nat n * 2) by lia.
    by rewrite Z.div_mul by lia. }
  rewrite CompareTo_ge by done.
  destruct (shr_spec div 1 Hdiv ltac:(lia)) as [W1 V1]. change (2 ^ 1) with 2 in V1.
  pose proof (val_wf_bound num Hnum) as Bnum. pose proof (val_wf_bound q Hq) as Bq.
  apply Z.mod_divide in Eq as [c Ec]; [|lia]. rewrite E2 in Ec.
  destruct (Z.leb_spec (val div) (val num)) as [Hge|Hlt'].
  - destruct (sub_spec num div Hnum Hdiv) as [W2 V2].
    rewrite Z.mod_small in V2 by (pose proof (val_wf_bound div Hdiv); lia).
    destruct (set_bit_spec q n Hq ltac:(lia)) as [W3 V3].
    { replace (Z.of_nat n + 1) with (1 + Z.of_nat n) by lia. rewrite Z.pow_add_r by lia.
      rewrite Ec. apply Z.mod_mul. lia. }
    apply IH; try done; try lia.
    + rewrite V1, Ed'. f_equal.
    + rewrite V3, Ec. replace (c * (2 * 2 ^ Z.of_nat n) + 2 ^ Z.of_nat n)
        with ((2 * c + 1) * 2 ^ Z.of_nat n) by lia. apply Z.mod_mul. lia.
  - apply IH; try done; try lia.
    + rewrite V1, Ed'. f_equal.
    + rewrite Ec. replace (c * (2 * 2 ^ Z.of_nat n)) with ((2 * c) * 2 ^ Z.of_nat n) by lia.
      apply Z.mod_mul. lia.
Qed.

Lemma div_spec a b : wf a -> wf b ->
  match div a b with
  | None => val b = 0
  | Some q => val b <> 0 /\ wf q /\ val q = val a / val b
  end.
Proof.
  intros Ha Hb. unfold div. rewrite (bits_spec a), (bits_spec b) by done.
  pose proof (val_wf_bound a Ha) as Ba. pose proof (val_wf_bound b Hb) as Bb.
  destruct (decide (val b = 0)) as [E|E]; [by rewrite E|].
  destruct (num_bits_pos (val b) ltac:(lia)) as [P1 P2].
  rewrite (proj2 (Z.eqb_neq (num_bits (val b)) 0)) by lia.
  destruct (of_u64_spec 0 ltac:(lia)) as [W0 V0].
  pose proof (num_bits_bound (val a) 256 ltac:(lia) ltac:(lia)) as Hna.
  assert (val a < 2 ^ num_bits (val a)) as Pa.
  { destruct (decide (val a = 0)) as [->|]; [done|]. apply num_bits_pos. lia. }
  destruct (Z.ltb_spec (num_bits (val a)) (num_bits (val b))) as [Hlt|Hge].
  - split_and!; [done..|]. rewrite V0. symmetry. apply Z.div_small. split; [lia|].
    assert (2 ^ num_bits (val a) <= 2 ^ (num_bits (val b) - 1)) by (apply Z.pow_le_mono_r; lia). lia.
  - set (s := num_bits (val a) - num_bits (val b)) in *.
    destruct (shl_spec b s Hb ltac:(lia)) as [W1 V1].
    assert (val b * 2 ^ s < 2 ^ 256).
    { assert (2 ^ num_bits (val b) * 2 ^ s <= 2 ^ 256).
      { rewrite <- Z.pow_add_r by lia. apply Z.pow_le_mono_r; lia. }
      pose proof (pow2_pos s ltac:(lia)). nia. }
    rewrite Z.mod_small in V1 by (pose proof (pow2_pos s ltac:(lia)); nia).
    pose proof (div_loop_spec (Z.to_nat (s + 1)) (val a) (val b) a (shl b s) (of_u64 0)) as L.
    rewrite Z2Nat.id in L by lia.
    assert (2 ^ (s + 1) = 2 * 2 ^ s) as E2 by (rewrite Z.add_comm; by rewrite Z.pow_add_r by lia).
    destruct (div_loop _ _ _ _) as [q r]. cbn [fst].
    destruct L as (L1 & L2 & L3 & L4); try done; try lia.
    + rewrite V1, E2. replace (val b * (2 * 2 ^ s)) with (val b * 2 ^ s * 2) by lia.
      by rewrite Z.div_mul by lia.
    + assert (2 ^ num_bits (val a) = 2 ^ (num_bits (val b) - 1) * 2 ^ (s + 1)) as E3.
      { rewrite <- Z.pow_add_r by lia. f_equal. lia. }
      pose proof (pow2_pos (s + 1) ltac:(lia)). nia.
    + split_and!; [done..|]. apply (Z.div_unique_pos _ _ _ (val r)); [|lia].
      pose proof (val_wf_bound r L2). lia.
Qed.

(** ** The compact format

    [compact_size c] and [compact_word c] are the exponent and the mantissa fields; [compact_value]
    is the number N of the header comment, [mantissa * 256 ^ (exponent - 3)], with the bytes below
    the unit dropped. *)

Definition compact_size (c : Z) : Z := c / 2 ^ 24.

Definition compact_word (c : Z) : Z := c mod 2 ^ 23.

Definition compact_value (c : Z) : Z :=
  if compact_size c <=? 3 then compact_word c / 256 ^ (3 - compact_size c)
  else compact_word c * 256 ^ (compact_size c - 3).

(** The compact code of a number: its byte length and its top three bytes, or, when their sign bit
    is set, one byte more and the top two bytes. *)

Definition num_bytes (v : Z) : Z := (num_bits v + 7) / 8.

Definition compact_code (v : Z) : Z :=
  let n := num_bytes v in
  let m := if n <=? 3 then v * 256 ^ (3 - n) else v / 256 ^ (n - 3) in
  if 2 ^ 23 <=? m then (n + 1) * 2 ^ 24 + m / 256 else n * 2 ^ 24 + m.

Lemma pow256 n : 0 <= n -> 256 ^ n = 2 ^ (8 * n).
Proof. intros. rewrite Z.pow_mul_r by lia. done. Qed.

Lemma SetCompact_fields c : 0 <= c < 2 ^ 32 ->
  Z.shiftr c 24 = compact_size c /\ Z.land c 0x007fffff = compact_word c /\
  0 <= compact_size c < 256 /\ 0 <= compact_word c < 2 ^ 23.
Proof.
  intros Hc. unfold compact_size, compact_word. rewrite Z.shiftr_div_pow2 by lia.
  change 0x007fffff with (Z.ones 23). rewrite Z.land_ones by lia.
  split_and!; [done | done | apply Z.div_pos; lia | apply Z.div_lt_upper_bound; lia | apply Z.mod_pos_bound; lia..].
Qed.

Lemma SetCompact_spec c : 0 <= c < 2 ^ 32 ->
  let '(r, fNegative, fOverflow) := SetCompact c in
  wf r /\ val r = compact_value c mod 2 ^ 256 /\
  fOverflow = (2 ^ 256 <=? compact_value c) /\
  (fNegative = true <-> Z.testbit c 23 = true /\ compact_value c <> 0).
Proof.
  intros Hc. destruct (SetCompact_fields c Hc) as (E1 & E2 & Hs & Hw).
  unfold SetCompact. rewrite E1, E2. clear E1 E2. unfold compact_value.
  change 0x00800000 with (Z.shiftl 1 23). rewrite land_bit, negb_involutive by lia.
  set (n := compact_size c) in *. set (w := compact_word c) in *.
  destruct (Z.leb_spec n 3) as [Hn|Hn].
  - rewrite Z.shiftr_div_pow2 by lia. rewrite <- pow256 by lia.
    assert (0 < 256 ^ (3 - n)) by (apply Z.pow_pos_nonneg; lia).
    assert (0 <= w / 256 ^ (3 - n) < 2 ^ 23) as Hd.
    { split; [apply Z.div_pos; lia | apply Z.div_lt_upper_bound; nia]. }
    destruct (of_u64_spec (w / 256 ^ (3 - n)) ltac:(lia)) as [W V].
    split_and!; [done | | |].
    + rewrite V. symmetry. apply Z.mod_small. lia.
    + rewrite !(proj2 (Z.ltb_ge _ n)) by lia. rewrite !andb_false_r. cbn [orb].
      rewrite ?andb_false_r. symmetry. apply Z.leb_gt. lia.
    + rewrite andb_true_iff, negb_true_iff, Z.eqb_neq. tauto.
  - destruct (of_u64_spec w ltac:(lia)) as [W V].
    destruct (shl_spec (of_u64 w) (8 * (n - 3)) W ltac:(lia)) as [W' V'].
    assert (0 < 256 ^ (n - 3)) by (apply Z.pow_pos_nonneg; lia).
    split_and!; [done | by rewrite V', V, pow256 by lia | |].
    + apply eq_true_iff_eq. rewrite Z.leb_le, andb_true_iff, negb_true_iff, Z.eqb_neq.
      rewrite !orb_true_iff, !andb_true_iff, !Z.ltb_lt. change (2 ^ 256) with (256 ^ 32).
      destruct (Z.lt_total n 33) as [L|[->|L]].
      { split; [lia|]. intros Hge. exfalso.
        assert (256 ^ (n - 3) <= 256 ^ 29) by (apply Z.pow_le_mono_r; lia).
        assert (w * 256 ^ (n - 3) < 2 ^ 23 * 256 ^ 29) by nia. lia. }
      { change (256 ^ (33 - 3)) with (256 ^ 30). lia. }
      destruct (Z.lt_total n 34) as [L'|[->|L']]; [lia| |].
      { change (256 ^ (34 - 3)) with (256 ^ 31). lia. }
      assert (256 ^ 32 <= 256 ^ (n - 3)) by (apply Z.pow_le_mono_r; lia).
      split; [intros; nia|]. intros Hge. split; [intros ->; lia | lia].
    + rewrite andb_true_iff, negb_true_iff, Z.eqb_neq. split; intros [? ?]; (split; first [done | nia]).
Qed.

Lemma num_bytes_pos v : 0 < v -> 1 <= num_bytes v /\ 256 ^ (num_bytes v - 1) <= v < 256 ^ num_bytes v.
Proof.
  intros Hv. destruct (num_bits_pos v Hv) as [H1 H2]. unfold num_bytes.
  pose proof (Z.div_mod (num_bits v + 7) 8 ltac:(lia)). pose proof (Z.mod_pos_bound (num_bits v + 7) 8 ltac:(lia)).
  set (n := (num_bits v + 7) / 8) in *. assert (1 <= n) by lia. split; [done|]. rewrite !pow256 by lia.
  assert (2 ^ (8 * (n - 1)) <= 2 ^ (num_bits v - 1)) by (apply Z.pow_le_mono_r; lia).
  assert (2 ^ num_bits v <= 2 ^ (8 * n)) by (apply Z.pow_le_mono_r; lia). lia.
Qed.

Lemma num_bytes_unique v n : 1 <= n -> 256 ^ (n - 1) <= v < 256 ^ n -> num_bytes v = n.
Proof.
  intros Hn Hv. assert (0 < v) by (pose proof (Z.pow_pos_nonneg 256 (n - 1)); lia).
  destruct (num_bytes_pos v) as [H1 H2]; [done|].
  destruct (Z.lt_total (num_bytes v) n) as [L|[E|L]]; [|done|].
  - assert (256 ^ num_bytes v <= 256 ^ (n - 1)) by (apply Z.pow_le_mono_r; lia). lia.
  - assert (256 ^ n <= 256 ^ (num_bytes v - 1)) by (apply Z.pow_le_mono_r; lia). lia.
Qed.

(** The three leading bytes [m] of a positive number of [n] bytes. *)

Lemma leading_bytes v : 0 < v ->
  let n := num_bytes v in
  let m := if n <=? 3 then v * 256 ^ (3 - n) else v / 256 ^ (n - 3) in
  2 ^ 16 <= m < 2 ^ 24.
Proof.
  intros Hv. destruct (num_bytes_pos v Hv) as [H1 H2]. cbn zeta. set (n := num_bytes v) in *.
  destruct (Z.leb_spec n 3).
  - assert (256 ^ (n - 1) * 256 ^ (3 - n) = 2 ^ 16) by (rewrite <- Z.pow_add_r by lia; by replace (n - 1 + (3 - n)) with 2 by lia).
    assert (256 ^ n * 256 ^ (3 - n) = 2 ^ 24) by (rewrite <- Z.pow_add_r by lia; by replace (n + (3 - n)) with 3 by lia).
    assert (0 < 256 ^ (3 - n)) by (apply Z.pow_pos_nonneg; lia). nia.
  - assert (256 ^ (n - 1) = 2 ^ 16 * 256 ^ (n - 3)) by (change (2 ^ 16) with (256 ^ 2); rewrite <- Z.pow_add_r by lia; f_equal; lia).
    assert (256 ^ n = 2 ^ 24 * 256 ^ (n - 3)) by (change (2 ^ 24) with (256 ^ 3); rewrite <- Z.pow_add_r by lia; f_equal; lia).
    assert (0 < 256 ^ (n - 3)) by (apply Z.pow_pos_nonneg; lia).
    split; [apply Z.div_le_lower_bound; lia | apply Z.div_lt_upper_bound; lia].
Qed.

Lemma GetLow64_spec a : wf a -> val a < 2 ^ 64 -> GetLow64 a = val a.
Proof.
  intros Ha Hv. destruct (wf_destruct a Ha) as (a0&a1&a2&a3&a4&a5&a6&a7&->).
  destruct Ha as [_ Ha]. apply Forall_cons_1 in Ha as [H0 Ha]. apply Forall_cons_1 in Ha as [H1 Ha].
  pose proof (val_bound _ Ha) as Hb. unfold GetLow64, word. cbn [nth]. cbn [val] in Hv |- *. cbn [val] in Hb.
  unfold is_word in *. unfold u64. rewrite Z.shiftl_mul_pow2 by lia.
  rewrite Z.mod_small by lia. rewrite lor_low_high by lia. lia.
Qed.

Lemma GetCompact_spec a fNegative : wf a ->
  exists m, GetCompact a fNegative = Some m /\ 0 <= m < 2 ^ 32 /\
    m = compact_code (val a) + (if fNegative && negb (val a =? 0) then 2 ^ 23 else 0).
Proof.
  intros Ha. unfold GetCompact. rewrite bits_spec by done. pose proof (val_wf_bound a Ha) as Ba.
  pose proof (num_bits_bound (val a) 256 ltac:(lia) ltac:(lia)) as Hnb.
  rewrite Z.quot_div_nonneg by lia. fold (num_bytes (val a)). unfold compact_code.
  assert (0 <= num_bytes (val a) <= 32) as Hn32.
  { unfold num_bytes. split; [apply Z.div_pos; lia|]. enough ((num_bits (val a) + 7) / 8 < 33) by lia.
    apply Z.div_lt_upper_bound; lia. }
  set (n := num_bytes (val a)) in *.
  assert ((if n <=? 3 then u32 (u64 (Z.shiftl (GetLow64 a) (8 * (3 - n))))
           else u32 (GetLow64 (shr a (8 * (n - 3))))) =
          (if n <=? 3 then val a * 256 ^ (3 - n) else val a / 256 ^ (n - 3)) /\
          (val a = 0 \/ 2 ^ 16 <= (if n <=? 3 then val a * 256 ^ (3 - n) else val a / 256 ^ (n - 3))) /\
          0 <= (if n <=? 3 then val a * 256 ^ (3 - n) else val a / 256 ^ (n - 3)) < 2 ^ 24) as (-> & Hz & Hm).
  { destruct (decide (val a = 0)) as [E|E].
    { assert (n = 0) as -> by (unfold n; by rewrite E). cbn [Z.leb Z.compare].
      rewrite GetLow64_spec by (done || lia). rewrite E. split_and!; [done | by left | lia..]. }
    pose proof (leading_bytes (val a) ltac:(lia)) as L. cbn zeta in L. fold n in L.
    split; [|split; [right|]; lia]. revert L. destruct (Z.leb_spec n 3); intros L.
    - assert (0 < 256 ^ (3 - n)) by (apply Z.pow_pos_nonneg; lia).
      rewrite GetLow64_spec by (done || nia). rewrite Z.shiftl_mul_pow2, <- pow256 by lia.
      unfold u32, u64. rewrite (Z.mod_small _ (2 ^ 64)) by lia. apply Z.mod_small. lia.
    - destruct (shr_spec a (8 * (n - 3)) Ha ltac:(lia)) as [W V]. rewrite <- pow256 in V by lia.
      rewrite GetLow64_spec, V by (done || lia). unfold u32. apply Z.mod_small. lia. }
  set (m := if n <=? 3 then val a * 256 ^ (3 - n) else val a / 256 ^ (n - 3)) in *.
  change (Z.land m 0x00800000) with (Z.land m (Z.shiftl 1 23)).
  rewrite land_bit, negb_involutive, testbit_top by lia.
  assert (exists m1 n1, (if 2 ^ 23 <=? m then (Z.shiftr m 8, n + 1) else (m, n)) = (m1, n1) /\
            0 <= m1 < 2 ^ 23 /\ 0 <= n1 <= 33 /\ (m1 = 0 <-> val a = 0) /\
            (if 2 ^ 23 <=? m then (n + 1) * 2 ^ 24 + m / 256 else n * 2 ^ 24 + m) = m1 + n1 * 2 ^ 24)
    as (m1 & n1 & -> & Hm1 & Hn1 & Hz1 & ->).
  { destruct (Z.leb_spec (2 ^ 23) m).
    - exists (m / 256), (n + 1). rewrite Z.shiftr_div_pow2 by lia. change (2 ^ 8) with 256.
      assert (2 ^ 15 <= m / 256) by (apply Z.div_le_lower_bound; lia).
      assert (m / 256 < 2 ^ 23) by (apply Z.div_lt_upper_bound; lia).
      split_and!; [done | lia.. | | lia]. split; [lia|]. intros E. exfalso.
      assert (m = 0) by (unfold m, n; by rewrite E). lia.
    - exists m, n. split_and!; [done | lia.. | | lia]. split; [lia|]. intros E. unfold m, n. by rewrite E. }
  change (u32 (Z.lnot 0x007fffff)) with (511 * 2 ^ 23).
  rewrite land_low_high by lia. cbn [Z.eqb negb].
  rewrite (proj2 (Z.ltb_lt n1 256)) by lia. cbn [negb]. rewrite Z.shiftl_mul_pow2 by lia.
  rewrite lor_low_high by lia.
  assert (Z.land (m1 + n1 * 2 ^ 24) 0x007fffff = m1) as ->.
  { change 0x007fffff with (Z.ones 23). rewrite Z.land_ones by lia.
    replace (m1 + n1 * 2 ^ 24) with (m1 + (n1 * 2) * 2 ^ 23) by lia.
    rewrite Z.mod_add by lia. apply Z.mod_small. lia. }
  eexists. split; [done|].
  assert (Z.eqb m1 0 = Z.eqb (val a) 0) as -> by (apply eq_true_iff_eq; rewrite !Z.eqb_eq; done).
  destruct (fNegative && negb (val a =? 0)).
  - assert (Z.lor (m1 + n1 * 2 ^ 24) 0x00800000 = m1 + n1 * 2 ^ 24 + 2 ^ 23) as ->; [|lia].
    rewrite <- (lor_low_high m1 n1 24) at 1 by lia. rewrite <- Z.lor_assoc.
    change 0x00800000 with (1 * 2 ^ 23). rewrite (Z.lor_comm (n1 * 2 ^ 24)).
    rewrite (lor_low_high (1 * 2 ^ 23) n1 24) by lia.
    replace (1 * 2 ^ 23 + n1 * 2 ^ 24) with ((1 + n1 * 2) * 2 ^ 23) by lia.
    rewrite lor_low_high by lia. lia.
  - rewrite Z.lor_0_r. lia.
Qed.

Lemma compact_fields n m : 0 <= m < 2 ^ 23 ->
  compact_size (n * 2 ^ 24 + m) = n /\ compact_word (n * 2 ^ 24 + m) = m /\
  Z.testbit (n * 2 ^ 24 + m) 23 = false.
Proof.
  intros Hm. unfold compact_size, compact_word. split_and!.
  - symmetry. apply (Z.div_unique_pos _ _ _ m); lia.
  - symmetry. apply (Z.mod_unique_pos _ _ (n * 2)); lia.
  - rewrite <- (Z.mod_pow2_bits_low _ 24) by lia. apply (testbit_small _ 23); [|lia].
    replace ((n * 2 ^ 24 + m) mod 2 ^ 24) with m; [lia|]. apply (Z.mod_unique_pos _ _ n); lia.
Qed.

(** Dropping the [k] low bytes of a number [v] with [2 ^ 15 * 256 ^ k <= v]. *)

Lemma truncate_bound v k : 0 <= k -> 2 ^ 15 * 256 ^ k <= v ->
  v / 256 ^ k * 256 ^ k <= v /\ (v - v / 256 ^ k * 256 ^ k) * 2 ^ 15 <= v.
Proof.
  intros Hk Hv. assert (0 < 256 ^ k) by (apply Z.pow_pos_nonneg; lia).
  pose proof (Z.div_mod v (256 ^ k) ltac:(lia)). pose proof (Z.mod_pos_bound v (256 ^ k) ltac:(lia)). lia.
Qed.

(** Codes of numbers of more than [k + 2] bytes depend on the bytes from position [k] up only. *)

Lemma compact_code_value_large n v : 3 <= n -> num_bytes v = n -> 0 < v ->
  let m := v / 256 ^ (n - 3) in
  let k := if 2 ^ 23 <=? m then n - 2 else n - 3 in
  compact_code v = (k + 3) * 2 ^ 24 + v / 256 ^ k /\ 2 ^ 15 <= v / 256 ^ k < 2 ^ 23 /\ 0 <= k.
Proof.
  intros Hn Ev Hv. pose proof (leading_bytes v Hv) as L. cbn zeta in *. unfold compact_code. rewrite Ev in *.
  assert ((if n <=? 3 then v * 256 ^ (3 - n) else v / 256 ^ (n - 3)) = v / 256 ^ (n - 3)) as Em.
  { destruct (Z.leb_spec n 3); [|done]. assert (n = 3) as -> by lia. cbn. rewrite Z.div_1_r. lia. }
  rewrite Em in *. set (m := v / 256 ^ (n - 3)) in *.
  destruct (Z.leb_spec (2 ^ 23) m).
  - assert (v / 256 ^ (n - 2) = m / 256) as ->.
    { unfold m. rewrite Z.div_div by (try apply Z.pow_nonzero; lia). f_equal.
      replace (n - 2) with (n - 3 + 1) by lia. by rewrite Z.pow_add_r by lia. }
    split_and!; [f_equal; lia | apply Z.div_le_lower_bound; lia | apply Z.div_lt_upper_bound; lia | lia].
  - split_and!; [f_equal; lia | lia..].
Qed.

Lemma compact_code_value v : 0 <= v ->
  let c := compact_code v in
  let r := compact_value c in
  Z.testbit c 23 = false /\ 0 <= r <= v /\ (v - r) * 2 ^ 15 <= v /\ compact_code r = c.
Proof.
  intros Hv. cbn zeta. destruct (decide (v = 0)) as [->|Hv0]; [done|].
  destruct (num_bytes_pos v ltac:(lia)) as [H1 H2]. destruct (decide (3 <= num_bytes v)) as [H3|H3].
  - destruct (compact_code_value_large (num_bytes v) v H3 eq_refl ltac:(lia)) as (Ec & Hm & Hk). cbn zeta in *.
    set (n := num_bytes v) in *. set (k := if _ : bool then n - 2 else n - 3) in *.
    assert (0 < 256 ^ k) by (apply Z.pow_pos_nonneg; lia).
    assert (k = n - 2 /\ 2 ^ 23 <= v / 256 ^ (n - 3) \/ k = n - 3 /\ v / 256 ^ (n - 3) < 2 ^ 23) as Hk'
      by (unfold k; destruct (Z.leb_spec (2 ^ 23) (v / 256 ^ (n - 3))); [by left | by right]).
    rewrite Ec. destruct (compact_fields (k + 3) (v / 256 ^ k)) as (F1 & F2 & F3); [lia|].
    assert (compact_value ((k + 3) * 2 ^ 24 + v / 256 ^ k) = v / 256 ^ k * 256 ^ k) as ->.
    { unfold compact_value. rewrite F1, F2. destruct (Z.leb_spec (k + 3) 3).
      - assert (k = 0) as -> by lia. cbn. rewrite !Z.div_1_r. lia.
      - do 2 f_equal. lia. }
    assert (2 ^ 15 * 256 ^ k <= v) as Hlo.
    { pose proof (Z.mul_div_le v (256 ^ k) ltac:(lia)). nia. }
    destruct (truncate_bound v k Hk Hlo) as [T1 T2].
    split_and!; [done | nia | done | done |].
    set (r := v / 256 ^ k * 256 ^ k) in *.
    assert (num_bytes r = n) as En.
    { apply num_bytes_unique; [done|]. split; [|lia].
      assert (256 ^ (n - 1) = 256 ^ (n - 1 - k) * 256 ^ k) as E.
      { rewrite <- Z.pow_add_r by lia. f_equal. lia. }
      unfold r. rewrite E. apply Z.mul_le_mono_nonneg_r; [lia|]. apply Z.div_le_lower_bound; [lia|]. lia. }
    destruct (compact_code_value_large n r H3 En) as (Er & _ & _); [unfold r; nia|]. cbn zeta in Er.
    assert ((if 2 ^ 23 <=? r / 256 ^ (n - 3) then n - 2 else n - 3) = k) as Ek.
    { assert (0 < 256 ^ (n - 3)) by (apply Z.pow_pos_nonneg; lia). unfold r.
      destruct Hk' as [[-> Hge]|[-> Hlt]].
      - assert (256 ^ (n - 2) = 256 * 256 ^ (n - 3)) as ->
          by (rewrite <- Z.pow_succ_r by lia; f_equal; lia).
        rewrite (Z.mul_comm 256), <- Z.div_div, !Z.mul_assoc by lia.
        rewrite <- Z.mul_assoc, (Z.mul_comm (256 ^ (n - 3)) 256), Z.mul_assoc, Z.div_mul by lia.
        rewrite (proj2 (Z.leb_le _ _)); [done|].
        pose proof (Z.div_mod (v / 256 ^ (n - 3)) 256 ltac:(lia)).
        pose proof (Z.mod_pos_bound (v / 256 ^ (n - 3)) 256 ltac:(lia)). lia.
      - rewrite Z.div_mul by lia. rewrite (proj2 (Z.leb_gt _ _)) by lia. done. }
    rewrite Ek in Er. rewrite Er. unfold r. by rewrite Z.div_mul by lia.
  - assert (exists n m, compact_code v = n * 2 ^ 24 + m /\ 0 <= m < 2 ^ 23 /\ n <= 3 /\ m = v * 256 ^ (3 - n) /\ 0 <= 3 - n)
      as (n & m & Ec & Hm & Hn & Em & Hn').
    { pose proof (leading_bytes v ltac:(lia)) as L. cbn zeta in L. unfold compact_code.
      set (n := num_bytes v) in *. rewrite (proj2 (Z.leb_le n 3)) in * by lia.
      destruct (Z.leb_spec (2 ^ 23) (v * 256 ^ (3 - n))).
      - exists (n + 1), (v * 256 ^ (3 - n) / 256). split_and!; [done | apply Z.div_pos; lia | apply Z.div_lt_upper_bound; lia | lia | | lia].
        replace (3 - n) with (3 - (n + 1) + 1) by lia. rewrite Z.pow_add_r by lia.
        rewrite Z.mul_assoc. by rewrite Z.div_mul by lia.
      - exists n, (v * 256 ^ (3 - n)). split_and!; [done | lia..| done | lia]. }
    rewrite Ec. destruct (compact_fields n m Hm) as (F1 & F2 & F3).
    assert (compact_value (n * 2 ^ 24 + m) = v) as ->.
    { unfold compact_value. rewrite F1, F2, (proj2 (Z.leb_le n 3)), Em by lia.
      apply Z.div_mul. apply Z.pow_nonzero; lia. }
    split_and!; [done | lia..| done].
Qed.

(** ** The operations of [arith_uint256] *)

(** [arith_uint256] is the ring of integers modulo 2^256: on well-formed operands every
    additive operator and both multiplications return a well-formed number whose value is the
    exact result reduced modulo 2^256. *)
Theorem arith_ring a b w :
  wf a -> wf b -> 0 <= w < 2 ^ 32 ->
  (wf (add a b) /\ val (add a b) = (val a + val b) mod 2 ^ 256) /\
  (wf (sub a b) /\ val (sub a b) = (val a - val b) mod 2 ^ 256) /\
  (wf (neg a) /\ val (neg a) = (- val a) mod 2 ^ 256) /\
  (wf (incr a) /\ val (incr a) = (val a + 1) mod 2 ^ 256) /\
  (wf (decr a) /\ val (decr a) = (val a - 1) mod 2 ^ 256) /\
  (wf (mul a b) /\ val (mul a b) = (val a * val b) mod 2 ^ 256) /\
  (wf (mul32 a w) /\ val (mul32 a w) = (val a * w) mod 2 ^ 256).
Proof.
  intros Ha Hb Hw.
  split_and!; try (by apply add_wf); try (by apply val_add); try (by apply sub_spec);
    try (by apply neg_spec); try (by apply mul_spec); try (by apply mul32_spec).
  all: destruct Ha as [La Fa]; destruct (incr_spec a Fa) as (I1 & I2 & I3);
    destruct (decr_spec a Fa) as (D1 & D2 & D3); try (split; congruence).
  all: rewrite La in *; assumption.
Qed.

Lemma arith_ring_witness :
  val (add (neg (of_u64 1)) (of_u64 5)) = 4 /\ val (mul32 (of_u64 7) 6) = 42.
Proof.
  split.
  - assert (wf (neg (of_u64 1))) by (apply neg_spec, of_u64_spec; lia).
    assert (wf (of_u64 5)) by (apply of_u64_spec; lia).
    destruct (arith_ring (neg (of_u64 1)) (of_u64 5) 0) as ((_ & ->) & _); [done..|lia|]. reflexivity.
  - assert (wf (of_u64 7)) by (apply of_u64_spec; lia).
    destruct (arith_ring (of_u64 7) (of_u64 7) 6) as (_ & _ & _ & _ & _ & _ & _ & ->); [done..|lia|].
    reflexivity.
Defined.

(** Shifts, comparison and bit length: [<<=] multiplies by a power of two modulo 2^256, [>>=]
    divides (for every shift amount, also 256 and above), [CompareTo] orders by value, and [bits]
    is the position of the highest set bit plus one (0 for zero). *)
Theorem arith_shift_compare_bits a b s :
  wf a -> wf b -> 0 <= s ->
  (wf (shl a s) /\ val (shl a s) = (val a * 2 ^ s) mod 2 ^ 256) /\
  (wf (shr a s) /\ val (shr a s) = val a / 2 ^ s) /\
  CompareTo a b = (if val a <? val b then -1 else if val b <? val a then 1 else 0) /\
  bits a = (if val a =? 0 then 0 else Z.log2 (val a) + 1).
Proof.
  intros Ha Hb Hs. split_and!; [by apply shl_spec | by apply shl_spec | by apply shr_spec |
    by apply shr_spec | | by apply bits_spec].
  rewrite CompareTo_spec by done.
  destruct (Z.compare_spec (val a) (val b)), (Z.ltb_spec (val a) (val b)), (Z.ltb_spec (val b) (val a));
    cbn; lia.
Qed.

Lemma arith_shift_compare_bits_witness :
  val (shr (shl (of_u64 12345) 250) 249) = (12345 * 2 ^ 250) mod 2 ^ 256 / 2 ^ 249.
Proof.
  assert (wf (of_u64 12345)) as W by (apply of_u64_spec; lia).
  destruct (arith_shift_compare_bits (of_u64 12345) (of_u64 12345) 250 W W ltac:(lia)) as ((W1 & V1) & _).
  destruct (arith_shift_compare_bits (shl (of_u64 12345) 250) (of_u64 12345) 249 W1 W ltac:(lia))
    as (_ & (_ & ->) & _).
  rewrite V1. reflexivity.
Defined.

(** Long division: [operator/=] throws exactly when the divisor is zero and otherwise
    terminates with the integer quotient. *)
Theorem arith_div a b :
  wf a -> wf b ->
  (div a b = None <-> val b = 0) /\
  (val b <> 0 -> exists q, div a b = Some q /\ wf q /\ val q = val a / val b).
Proof.
  intros Ha Hb. pose proof (div_spec a b Ha Hb) as H. destruct (div a b) as [q|].
  - destruct H as (H1 & H2 & H3). split; [split; done|]. eauto.
  - split; [done|]. intros; contradiction.
Qed.

Lemma arith_div_witness :
  (exists q, div (shl (of_u64 1000001) 200) (of_u64 7) = Some q /\ val q = 1000001 * 2 ^ 200 / 7) /\
  div (of_u64 5) (of_u64 0) = None.
Proof.
  assert (wf (of_u64 7)) as W7 by (apply of_u64_spec; lia).
  assert (wf (shl (of_u64 1000001) 200)) as W1 by (apply shl_spec; [apply of_u64_spec|]; lia).
  split.
  - destruct (arith_div (shl (of_u64 1000001) 200) (of_u64 7) W1 W7) as [_ H].
    destruct H as (q & E & _ & V); [done|]. exists q. split; [done|]. rewrite V. reflexivity.
  - destruct (arith_div (of_u64 5) (of_u64 0)) as [[_ H] _]; [apply of_u64_spec; lia..|]. by apply H.
Defined.

(** [SetCompact] decodes a 32-bit compact target: the value is the number
    mantissa * 256^(exponent-3) (modulo 2^256), [*pfOverflow] is set exactly when that number does
    not fit in 256 bits, and [*pfNegative] exactly when the sign bit is set and the number is not
    zero. *)
Theorem SetCompact_decodes c :
  0 <= c < 2 ^ 32 ->
  let '(r, fNegative, fOverflow) := SetCompact c in
  wf r /\ val r = compact_value c mod 2 ^ 256 /\
  fOverflow = (2 ^ 256 <=? compact_value c) /\
  (fNegative = true <-> Z.testbit c 23 = true /\ compact_value c <> 0).
Proof. apply SetCompact_spec. Qed.

Lemma SetCompact_decodes_witness :
  let '(r, n, o) := SetCompact 0x1d00ffff in val r = 0xffff * 256 ^ 26 /\ n = false /\ o = false.
Proof.
  pose proof (SetCompact_decodes 0x1d00ffff ltac:(lia)) as H.
  destruct (SetCompact 0x1d00ffff) as [[r n] o] eqn:E. destruct H as (_ & V & O & N).
  split_and!; [rewrite V; reflexivity | | rewrite O; reflexivity].
  destruct n; [|done]. destruct N as [N _]. destruct (N eq_refl) as [T _]. discriminate T.
Defined.

(** [GetCompact] never trips its assertions, and compact targets survive a round trip:
    decoding the code of [a] gives neither a negative nor an overflowing target, the decoded value
    rounds [a] down by less than one part in 2^15, and encoding it again gives the same code. *)
Theorem compact_roundtrip a :
  wf a ->
  exists c r,
    GetCompact a false = Some c /\ 0 <= c < 2 ^ 32 /\
    SetCompact c = (r, false, false) /\ wf r /\
    val r <= val a /\ (val a - val r) * 2 ^ 15 <= val a /\
    GetCompact r false = Some c.
Proof.
  intros Ha. destruct (GetCompact_spec a false Ha) as (c & E & Hc & Ec). cbn [andb] in Ec.
  rewrite Z.add_0_r in Ec. pose proof (val_wf_bound a Ha) as Ba.
  destruct (compact_code_value (val a) ltac:(lia)) as (T & Hr & Herr & Hcode). cbn zeta in *.
  rewrite <- Ec in *. pose proof (SetCompact_spec c Hc) as S.
  destruct (SetCompact c) as [[r n] o] eqn:ES. destruct S as (Wr & Vr & O & N).
  rewrite Z.mod_small in Vr by lia. exists c, r. split_and!; [done | lia | lia | | done | lia | lia |].
  - rewrite ES, O, (proj2 (Z.leb_gt _ _)) by lia. destruct n; [|done].
    destruct N as [N _]. destruct (N eq_refl) as [T' _]. congruence.
  - destruct (GetCompact_spec r false Wr) as (c' & E' & _ & Ec'). cbn [andb] in Ec'.
    rewrite E', Ec', Vr, Hcode. f_equal. lia.
Qed.

Lemma compact_roundtrip_witness : exists c r,
  GetCompact (shl (of_u64 0x123456789abc) 100) false = Some c /\ SetCompact c = (r, false, false).
Proof.
  assert (wf (of_u64 0x123456789abc)) as W by (apply of_u64_spec; lia).
  destruct (compact_roundtrip (shl (of_u64 0x123456789abc) 100)) as (c & r & H1 & _ & H2 & _);
    [by apply shl_spec|]. eauto.
Defined.

(** ** [uint256] byte container *)

Lemma val_le_val a : Forall is_word a -> val a = le_val (flat_map (fun w => le_bytes 4 w) a).
Proof.
  unfold is_word. induction 1 as [|w a Hw Ha IH]; [done|]. cbn [flat_map val].
  rewrite le_val_app, length_le_bytes, le_val_le_bytes, IH.
  rewrite Z.mod_small by (change (8 * Z.of_nat 4) with 32; lia). done.
Qed.

Lemma ArithToUint256_flat a : wf a -> ArithToUint256 a = flat_map (fun w => le_bytes 4 w) a.
Proof. intros Ha. by destruct (wf_destruct a Ha) as (a0&a1&a2&a3&a4&a5&a6&a7&->). Qed.

Lemma read_words_spec n u : bytes u -> length u = (4 * n)%nat ->
  let ws := map (fun x => ReadLE32 (drop (x * 4) u)) (seq 0 n) in
  Forall is_word ws /\ val ws = le_val u.
Proof.
  cbn zeta. revert u. induction n as [|n IH]; intros u Hu Hl; [destruct u; [done | simpl in Hl; lia]|].
  rewrite <- cons_seq, <- seq_shift. cbn [map]. rewrite map_map.
  assert (bytes (take 4 u)) as Ht by (by apply Forall_take).
  assert (length (take 4 u) = 4%nat) as Lt by (rewrite length_take; lia).
  destruct (IH (drop 4 u)) as [F V]; [by apply Forall_drop | rewrite length_drop; lia |].
  assert (map (fun x => ReadLE32 (drop (S x * 4) u)) (seq 0 n) =
          map (fun x => ReadLE32 (drop (x * 4) (drop 4 u))) (seq 0 n)) as ->.
  { apply map_ext. intros x. rewrite drop_drop. do 2 f_equal. }
  pose proof (le_val_bound _ Ht) as Hb. rewrite Lt in Hb. split.
  - constructor; [exact Hb | done].
  - cbn [val]. rewrite V. unfold ReadLE32. cbn [Nat.mul drop].
    rewrite <- (take_drop 4 u) at 3. rewrite le_val_app, Lt. done.
Qed.

Lemma UintToArith256_spec u : bytes u -> length u = 32%nat ->
  wf (UintToArith256 u) /\ val (UintToArith256 u) = le_val u.
Proof.
  intros Hu Hl. destruct (read_words_spec WIDTH u Hu Hl) as [F V].
  split; [split; [done | exact F] | exact V].
Qed.

Lemma ArithToUint256_spec a : wf a ->
  bytes (ArithToUint256 a) /\ length (ArithToUint256 a) = 32%nat /\ le_val (ArithToUint256 a) = val a.
Proof.
  intros Ha. rewrite ArithToUint256_flat by done. pose proof (val_le_val a (proj2 Ha)) as V.
  split_and!; [| | done].
  - destruct Ha as [_ Ha]. clear V. induction Ha; [done|]. cbn [flat_map].
    apply Forall_app_2; [apply le_bytes_bytes | done].
  - by destruct (wf_destruct a Ha) as (a0&a1&a2&a3&a4&a5&a6&a7&->).
Qed.

Lemma UintToArith256_ArithToUint256 a : wf a -> UintToArith256 (ArithToUint256 a) = a.
Proof.
  intros Ha. destruct (ArithToUint256_spec a Ha) as (H1 & H2 & H3).
  destruct (UintToArith256_spec _ H1 H2) as [[W1 W2] V]. destruct Ha as [A1 A2].
  apply val_inj; congruence.
Qed.



End arith_uint256.
