(* ===== verification/BlockIndex.v ===== *)
(** * The block tree: [CBlockIndex], its skip list, and the active chain [CChain]

    Models src/block_index.h / src/block_index.cpp (block status flags, the constructor, the skip
    pointer, ancestor search, accumulated work, median time) and src/chain.h / src/chain.cpp
    (the vector of the active chain).  [CBlockIndex] objects live in a heap [gmap ptr CBlockIndex]
    and refer to one another by pointer, as in the source; [None] for a pointer is [nullptr].  An
    operation whose assertion fails, or that would follow a dangling pointer, returns no value
    (the outer [option]).  Mutexes, file positions and the dirty set are not modelled: they do not
    influence the values computed here. *)

From stdpp Require Import gmap sorting.
From S2P Require Import Prelude Common Uint256.
Import arith_uint256.

(** ** [BlockStatus] *)

Definition VALIDITY_MASK : Z := 0x07.
Definition HAS_DATA_FLAG : Z := 0x08.
Definition HAS_UNDO_FLAG : Z := 0x10.
Definition FAILED_FLAG : Z := 0x20.
Definition FAILED_PARENT_FLAG : Z := 0x40.
Definition HAS_DISK_BLOCK_META_DATA_FLAG : Z := 0x80.
Definition HAS_SOFT_REJ_FLAG : Z := 0x100.
Definition HAS_DOUBLE_SPEND_FLAG : Z := 0x200.
Definition HAS_SOFT_CONSENSUS_FROZEN_FLAG : Z := 0x400.
Definition INVALID_MASK : Z := Z.lor FAILED_FLAG FAILED_PARENT_FLAG.

Inductive BlockValidity : Type := UNKNOWN | HEADER | TREE | TRANSACTIONS | CHAIN | SCRIPTS.

Definition validity_code (v : BlockValidity) : Z :=
  match v with
  | UNKNOWN => 0 | HEADER => 1 | TREE => 2 | TRANSACTIONS => 3 | CHAIN => 4 | SCRIPTS => 5
  end.

(** [BlockStatus((status & ~FLAG) | (b ? FLAG : 0))], the body of every [with...] method. *)

Definition with_flag (flag status : Z) (b : bool) : Z :=
  Z.lor (Z.land status (u32 (Z.lnot flag))) (if b then flag else 0).

Definition has_flag (flag status : Z) : bool := negb (Z.land status flag =? 0).

Definition withData (status : Z) (b : bool) : Z := with_flag HAS_DATA_FLAG status b.
Definition withUndo (status : Z) (b : bool) : Z := with_flag HAS_UNDO_FLAG status b.
Definition withDiskBlockMetaData (status : Z) (b : bool) : Z :=
  with_flag HAS_DISK_BLOCK_META_DATA_FLAG status b.
Definition withFailed (status : Z) (b : bool) : Z := with_flag FAILED_FLAG status b.
Definition withFailedParent (status : Z) (b : bool) : Z := with_flag FAILED_PARENT_FLAG status b.
Definition withDataForSoftRejection (status : Z) (b : bool) : Z :=
  with_flag HAS_SOFT_REJ_FLAG status b.
Definition withDataForSoftConsensusFreeze (status : Z) (b : bool) : Z :=
  with_flag HAS_SOFT_CONSENSUS_FROZEN_FLAG status b.
Definition withDoubleSpend (status : Z) (b : bool) : Z := with_flag HAS_DOUBLE_SPEND_FLAG status b.

Definition getValidity (status : Z) : Z := Z.land status VALIDITY_MASK.

Definition withValidity (status : Z) (v : BlockValidity) : Z :=
  Z.lor (Z.land status (u32 (Z.lnot VALIDITY_MASK))) (validity_code v).

Definition isInvalid (status : Z) : bool := has_flag INVALID_MASK status.

Definition isValid (status : Z) (nUpTo : BlockValidity) : bool :=
  if isInvalid status then false else validity_code nUpTo <=? getValidity status.

Definition withClearedFailureFlags (status : Z) : Z := Z.land status (u32 (Z.lnot INVALID_MASK)).

(** [RaiseValidityNL]: the new status and the returned boolean. *)

Definition RaiseValidityNL (status : Z) (nUpTo : BlockValidity) : Z * bool :=
  if isInvalid status then (status, false)
  else if validity_code nUpTo <=? getValidity status then (status, false)
  else (withValidity status nUpTo, true).

(** ** Objects and heap *)

Definition ptr : Type := positive.

Record CBlockHeader := {
  hdr_nVersion : Z;
  hdr_hashPrevBlock : list Z;
  hdr_hashMerkleRoot : list Z;
  hdr_nTime : Z;
  hdr_nBits : Z;
  hdr_nNonce : Z
}.

Record CBlockIndex := {
  pprev : option ptr;
  pskip : option ptr;
  nHeight : Z;
  nChainWork : list Z;
  nStatus : Z;
  nVersion : Z;
  hashMerkleRoot : list Z;
  nTime : Z;
  nBits : Z;
  nNonce : Z;
  nTimeReceived : Z;
  nTimeMax : Z;
  nSoftRejected : Z;
  mSoftConsensusFreezeForNBlocks : Z;
  mSoftConsensusFreezeForNBlocksCumulative : Z;
  nTx : Z;
  nChainTx : Z;
  nSequenceId : Z;
  mValidationCompletionTime : Z
}.

(** The range of [SteadyClockTimePoint]. *)

Definition time_min : Z := - 2 ^ 63.

Definition time_max : Z := 2 ^ 63 - 1.

Notation heap := (gmap ptr CBlockIndex).

(** ** Skip list *)

Definition InvertLowestOne (n : Z) : Z := Z.land n (n - 1).

Definition GetSkipHeight (height : Z) : Z :=
  if height <? 2 then 0
  else if negb (Z.land height 1 =? 0) then InvertLowestOne (InvertLowestOne (height - 1)) + 1
  else InvertLowestOne height.

(** The [while (heightWalk > height)] loop of [GetAncestor]; every round lowers [heightWalk], so
    [fuel = heightWalk - height] rounds suffice. *)

Fixpoint ancestor_loop (h : heap) (fuel : nat) (pindexWalk : ptr) (heightWalk height : Z) : option ptr :=
  match fuel with
  | O => if heightWalk <=? height then Some pindexWalk else None
  | S n =>
      if heightWalk <=? height then Some pindexWalk
      else
        match h !! pindexWalk with
        | None => None
        | Some walk =>
            let heightSkip := GetSkipHeight heightWalk in
            let heightSkipPrev := GetSkipHeight (heightWalk - 1) in
            match pskip walk with
            | Some skip =>
                if (heightSkip =? height) ||
                   ((height <? heightSkip) &&
                    negb ((heightSkipPrev <? heightSkip - 2) && (height <=? heightSkipPrev)))
                then ancestor_loop h n skip heightSkip height
                else
                  match pprev walk with
                  | Some prev => ancestor_loop h n prev (heightWalk - 1) height
                  | None => None
                  end
            | None =>
                match pprev walk with
                | Some prev => ancestor_loop h n prev (heightWalk - 1) height
                | None => None
                end
            end
        end
  end.

(** Outer [None]: a failed assertion or dangling pointer; inner [None]: [nullptr]. *)

Definition GetAncestor (h : heap) (this : ptr) (height : Z) : option (option ptr) :=
  match h !! this with
  | None => None
  | Some b =>
      if (nHeight b <? height) || (height <? 0) then Some None
      else
        match ancestor_loop h (Z.to_nat (nHeight b - height)) this (nHeight b) height with
        | Some q => Some (Some q)
        | None => None
        end
  end.

(** [BuildSkipNL], for a block at [height] whose predecessor is [pprev]. *)

Definition BuildSkipNL (h : heap) (prev : option ptr) (height : Z) : option (option ptr) :=
  match prev with
  | None => Some None
  | Some q => GetAncestor h q (GetSkipHeight height)
  end.

(** ** Work *)

Definition GetBlockProof (bits : Z) : option (list Z) :=
  let '(bnTarget, fNegative, fOverflow) := SetCompact bits in
  if fNegative || fOverflow || EqualTo bnTarget 0 then Some (of_u64 0)
  else
    match div (lnot bnTarget) (add bnTarget (of_u64 1)) with
    | Some q => Some (add q (of_u64 1))
    | None => None
    end.

Definition SetChainWorkNL (h : heap) (prev : option ptr) (bits : Z) : option (list Z) :=
  match prev with
  | None => option_map (add (of_u64 0)) (GetBlockProof bits)
  | Some q =>
      match h !! q, GetBlockProof bits with
      | Some b, Some w => Some (add (nChainWork b) w)
      | _, _ => None
      end
  end.

(** ** Construction *)

(** [UpdateSoftConsensusFreezeFromParentNL] on the parent [p] and the own explicit freeze. *)

Definition UpdateSoftConsensusFreezeFromParentNL (p : CBlockIndex) (freeze : Z) : Z :=
  if negb (mSoftConsensusFreezeForNBlocksCumulative p =? -1)
  then Z.max freeze (mSoftConsensusFreezeForNBlocksCumulative p - 1)
  else freeze.

(** [SetSoftRejectedFromParentBaseNL]: [nSoftRejected] and the status. *)

Definition SetSoftRejectedFromParentBaseNL (p : CBlockIndex) (status : Z) : Z * Z :=
  if 0 <? nSoftRejected p then (nSoftRejected p - 1, withDataForSoftRejection status true)
  else (-1, withDataForSoftRejection status false).

(** The constructor [CBlockIndex(block, prev, notifyDirty)], run at time [now]. *)

Definition new_CBlockIndex (h : heap) (block : CBlockHeader) (prev : option ptr) (now : Z) : option CBlockIndex :=
  let finish parent height skip softRej status freezeCum :=
    match SetChainWorkNL h prev (hdr_nBits block) with
    | None => None
    | Some work =>
        Some {|
          pprev := prev;
          pskip := skip;
          nHeight := height;
          nChainWork := work;
          nStatus := fst (RaiseValidityNL status TREE);
          nVersion := hdr_nVersion block;
          hashMerkleRoot := hdr_hashMerkleRoot block;
          nTime := hdr_nTime block;
          nBits := hdr_nBits block;
          nNonce := hdr_nNonce block;
          nTimeReceived := now;
          nTimeMax :=
            match parent with
            | Some p => Z.max (nTimeMax p) (hdr_nTime block)
            | None => hdr_nTime block
            end;
          nSoftRejected := softRej;
          mSoftConsensusFreezeForNBlocks := -1;
          mSoftConsensusFreezeForNBlocksCumulative := freezeCum;
          nTx := 0;
          nChainTx := 0;
          nSequenceId := 0;
          mValidationCompletionTime := time_max
        |}
    end in
  match prev with
  | None => finish None 0 None (-1) 0 (-1)
  | Some q =>
      match h !! q with
      | None => None
      | Some p =>
          match BuildSkipNL h prev (nHeight p + 1) with
          | None => None
          | Some skip =>
              let '(softRej, status) := SetSoftRejectedFromParentBaseNL p 0 in
              finish (Some p) (nHeight p + 1) skip softRej status
                (UpdateSoftConsensusFreezeFromParentNL p (-1))
          end
      end
  end.

(** The ranges of the header's [uint32_t] fields. *)

Definition header_range (block : CBlockHeader) : Prop :=
  0 <= hdr_nTime block < 2 ^ 32 /\ 0 <= hdr_nBits block < 2 ^ 32.

(** The heaps the node can build: every block is constructed on an existing predecessor (or is the
    genesis block) and stored at a fresh address.  (Heights stay below [2 ^ 31] in any real chain, so
    [nHeight + 1] does not overflow [int32_t].) *)

Inductive block_tree : heap -> Prop :=
| tree_empty : block_tree ∅
| tree_add h block prev now p b :
    block_tree h -> h !! p = None -> header_range block ->
    new_CBlockIndex h block prev now = Some b ->
    block_tree (<[p := b]> h).

(** ** Times *)

Definition nMedianTimeSpan : nat := 11.

(** The loop of [GetMedianTimePast] that collects up to eleven block times. *)

Fixpoint collect_times (h : heap) (n : nat) (pindex : option ptr) : list Z :=
  match n, pindex with
  | S m, Some p =>
      match h !! p with
      | Some b => nTime b :: collect_times h m (pprev b)
      | None => []
      end
  | _, _ => []
  end.

(** [nth_element] puts at position [n] the element a full sort would put there. *)

Definition GetMedianTimePast (h : heap) (this : ptr) : option Z :=
  let block_times := collect_times h nMedianTimeSpan (Some this) in
  merge_sort Z.le block_times !! (length block_times / 2)%nat.

(** ** Last common ancestor *)

Definition get_prev (h : heap) (p : option ptr) : option ptr :=
  match p with
  | Some q => match h !! q with Some b => pprev b | None => None end
  | None => None
  end.

Fixpoint common_loop (h : heap) (fuel : nat) (pa pb : option ptr) : option ptr * option ptr :=
  match fuel with
  | O => (pa, pb)
  | S n =>
      if bool_decide (pa ≠ pb) && bool_decide (is_Some pa) && bool_decide (is_Some pb)
      then common_loop h n (get_prev h pa) (get_prev h pb)
      else (pa, pb)
  end.

Definition LastCommonAncestor (h : heap) (pa pb : ptr) : option (option ptr) :=
  match h !! pa, h !! pb with
  | Some a, Some b =>
      let moved :=
        if nHeight b <? nHeight a then
          match GetAncestor h pa (nHeight b) with Some x => Some (x, Some pb) | None => None end
        else if nHeight a <? nHeight b then
          match GetAncestor h pb (nHeight a) with Some x => Some (Some pa, x) | None => None end
        else Some (Some pa, Some pb) in
      match moved with
      | None => None
      | Some (x, y) =>
          let '(x', y') := common_loop h (Z.to_nat (Z.min (nHeight a) (nHeight b) + 1)) x y in
          if bool_decide (x' = y') then Some x' else None
      end
  | _, _ => None
  end.

(** ** The active chain *)

Record CChain := { vChain : list (option ptr); mChainTip : option ptr }.

Definition Genesis (c : CChain) : option ptr := match vChain c with [] => None | p :: _ => p end.

Definition chain_at (c : CChain) (height : Z) : option ptr :=
  if (height <? 0) || (Z.of_nat (length (vChain c)) <=? height) then None
  else match vChain c !! Z.to_nat height with Some p => p | None => None end.

Definition Contains (h : heap) (c : CChain) (p : ptr) : bool :=
  match h !! p with
  | Some b => bool_decide (chain_at c (nHeight b) = Some p)
  | None => false
  end.

Definition Next (h : heap) (c : CChain) (p : ptr) : option ptr :=
  if Contains h c p then
    match h !! p with Some b => chain_at c (nHeight b + 1) | None => None end
  else None.

Definition Height (h : heap) (c : CChain) : Z :=
  match mChainTip c with
  | Some p => match h !! p with Some b => nHeight b | None => -1 end
  | None => -1
  end.

(** [std::vector::resize]: truncate, or extend with [nullptr]. *)

Definition resize (n : nat) (v : list (option ptr)) : list (option ptr) :=
  take n v ++ replicate (n - length v) None.

Fixpoint set_tip_loop (h : heap) (fuel : nat) (pindex : option ptr) (v : list (option ptr)) : list (option ptr) :=
  match fuel, pindex with
  | S n, Some p =>
      match h !! p with
      | Some b =>
          if bool_decide (v !! Z.to_nat (nHeight b) = Some (Some p)) then v
          else set_tip_loop h n (pprev b) (<[Z.to_nat (nHeight b) := Some p]> v)
      | None => v
      end
  | _, _ => v
  end.

Definition SetTip (h : heap) (c : CChain) (pindex : option ptr) : CChain :=
  match pindex with
  | None => {| vChain := []; mChainTip := None |}
  | Some p =>
      match h !! p with
      | Some b =>
          let n := Z.to_nat (nHeight b + 1) in
          {| vChain := set_tip_loop h n pindex (resize n (vChain c)); mChainTip := pindex |}
      | None => c
      end
  end.

Fixpoint fork_loop (h : heap) (c : CChain) (fuel : nat) (pindex : option ptr) : option ptr :=
  match fuel, pindex with
  | S n, Some p => if Contains h c p then Some p else fork_loop h c n (get_prev h pindex)
  | _, _ => pindex
  end.

Definition FindFork (h : heap) (c : CChain) (pindex : option ptr) : option (option ptr) :=
  match pindex with
  | None => Some None
  | Some p =>
      match h !! p with
      | None => None
      | Some b =>
          let start :=
            if Height h c <? nHeight b then GetAncestor h p (Height h c) else Some (Some p) in
          match start with
          | None => None
          | Some q => Some (fork_loop h c (Z.to_nat (nHeight b + 1)) q)
          end
      end
  end.

(** ** Walking back along [pprev] *)

(** The reference for ancestor search: [n] steps along [pprev]. *)

Fixpoint walk (h : heap) (n : nat) (p : ptr) : option ptr :=
  match n with
  | O => Some p
  | S m =>
      match h !! p with
      | Some b => match pprev b with Some q => walk h m q | None => None end
      | None => None
      end
  end.

(** What holds of every block of a tree: heights count the predecessors, and a skip pointer is the
    predecessor at [GetSkipHeight]. *)

Definition block_ok (h : heap) (b : CBlockIndex) : Prop :=
  0 <= nHeight b /\
  match pprev b with
  | None => nHeight b = 0 /\ pskip b = None
  | Some q =>
      exists bq, h !! q = Some bq /\ nHeight b = nHeight bq + 1 /\
        (pskip b = None \/
         exists s, pskip b = Some s /\ walk h (Z.to_nat (nHeight bq - GetSkipHeight (nHeight b))) q = Some s)
  end.

Definition tree_ok (h : heap) : Prop := forall p b, h !! p = Some b -> block_ok h b.

Lemma InvertLowestOne_bound n : 0 < n -> 0 <= InvertLowestOne n < n.
Proof.
  intros Hn. unfold InvertLowestOne.
  assert (0 <= Z.land n (n - 1)) by (apply Z.land_nonneg; lia).
  destruct (decide (n = 1)) as [->|Hn1]; [done|].
  enough (Z.land n (n - 1) <= n - 1) by lia.
  assert (Z.land n (n - 1) = Z.land (Z.land n (n - 1)) (n - 1)) as Hl
    by (by rewrite <- Z.land_assoc, Z.land_diag).
  assert (Z.ldiff (Z.land n (n - 1)) (n - 1) = 0) as Hd.
  { apply Z.bits_inj'. intros i Hi. rewrite Z.ldiff_spec, Z.land_spec, Z.bits_0.
    by destruct (Z.testbit n i), (Z.testbit (n - 1) i). }
  apply Z.ldiff_le in Hd; lia.
Qed.

Lemma GetSkipHeight_bound height : 0 < height -> 0 <= GetSkipHeight height < height.
Proof.
  intros Hh. unfold GetSkipHeight. destruct (Z.ltb_spec height 2); [lia|].
  destruct (negb _).
  - pose proof (InvertLowestOne_bound (height - 1) ltac:(lia)) as [H1 H2].
    destruct (decide (InvertLowestOne (height - 1) = 0)) as [->|E]; [change (InvertLowestOne 0) with 0; lia|].
    pose proof (InvertLowestOne_bound (InvertLowestOne (height - 1)) ltac:(lia)). lia.
  - apply InvertLowestOne_bound. lia.
Qed.

Lemma walk_plus h n m p q : walk h n p = Some q -> walk h (n + m) p = walk h m q.
Proof.
  revert p. induction n as [|n IH]; intros p Hw; [by injection Hw as ->|].
  cbn [walk Nat.add] in *. destruct (h !! p) as [b|]; [|done]. destruct (pprev b); [|done]. by apply IH.
Qed.

Lemma walk_mono h h' n p q : h ⊆ h' -> walk h n p = Some q -> walk h' n p = Some q.
Proof.
  intros Hs. revert p. induction n as [|n IH]; intros p Hw; [done|]. cbn [walk] in *.
  destruct (h !! p) as [b|] eqn:E; [|done]. rewrite (lookup_weaken h h' p b) by done.
  destruct (pprev b); [|done]. by apply IH.
Qed.

(** Walking back [n] steps succeeds exactly for [n] up to the height. *)

Lemma walk_height h p b n : tree_ok h -> h !! p = Some b -> Z.of_nat n <= nHeight b ->
  exists q bq, walk h n p = Some q /\ h !! q = Some bq /\ nHeight bq = nHeight b - Z.of_nat n.
Proof.
  intros Ht. revert p b. induction n as [|n IH]; intros p b Hp Hn.
  { exists p, b. split_and!; [done | done | lia]. }
  destruct (Ht p b Hp) as [H0 H1]. cbn [walk]. rewrite Hp.
  destruct (pprev b) as [q|] eqn:Eq; [|lia]. destruct H1 as (bq & Hq & Eh & _).
  destruct (IH q bq Hq) as (r & br & Hw & Hr & Er); [lia|]. exists r, br. split_and!; [done | done | lia].
Qed.

Lemma walk_back h p b n q bq : tree_ok h -> h !! p = Some b -> walk h n p = Some q -> h !! q = Some bq ->
  nHeight bq = nHeight b - Z.of_nat n.
Proof.
  intros Ht. revert p b. induction n as [|n IH]; intros p b Hp Hw Hq.
  { injection Hw as ->. rewrite Hp in Hq. injection Hq as ->. lia. }
  cbn [walk] in Hw. rewrite Hp in Hw. destruct (Ht p b Hp) as [H0 H1].
  destruct (pprev b) as [r|]; [|done]. destruct H1 as (br & Hr & Eh & _).
  pose proof (IH r br Hr Hw Hq). lia.
Qed.

(** Walking down to the skip height from a block is walking from its skip pointer. *)

Lemma skip_is_walk h p b s : tree_ok h -> h !! p = Some b -> pskip b = Some s ->
  0 < nHeight b /\ walk h (Z.to_nat (nHeight b - GetSkipHeight (nHeight b))) p = Some s.
Proof.
  intros Ht Hp Hs. destruct (Ht p b Hp) as [H0 H1].
  destruct (pprev b) as [q|] eqn:Eq; [|destruct H1; congruence].
  destruct H1 as (bq & Hq & Eh & [E|(s' & Es & Hw)]); [congruence|]. assert (s' = s) as -> by congruence.
  assert (0 <= nHeight bq) by apply (Ht q bq Hq). split; [lia|].
  pose proof (GetSkipHeight_bound (nHeight b) ltac:(lia)).
  replace (Z.to_nat (nHeight b - GetSkipHeight (nHeight b)))
    with (S (Z.to_nat (nHeight bq - GetSkipHeight (nHeight b)))) by lia.
  cbn [walk]. by rewrite Hp, Eq.
Qed.

Lemma ancestor_loop_spec h fuel p b height :
  tree_ok h -> h !! p = Some b -> 0 <= height <= nHeight b -> nHeight b - height <= Z.of_nat fuel ->
  ancestor_loop h fuel p (nHeight b) height = walk h (Z.to_nat (nHeight b - height)) p.
Proof.
  intros Ht. revert p b. induction fuel as [|fuel IH]; intros p b Hp Hh Hf.
  { cbn [ancestor_loop]. rewrite (proj2 (Z.leb_le _ _)) by lia.
    by replace (Z.to_nat (nHeight b - height)) with 0%nat by lia. }
  cbn [ancestor_loop]. destruct (Z.leb_spec (nHeight b) height).
  { by replace (Z.to_nat (nHeight b - height)) with 0%nat by lia. }
  rewrite Hp. destruct (Ht p b Hp) as [H0 H1].
  assert (forall q bq, pprev b = Some q -> h !! q = Some bq -> nHeight b = nHeight bq + 1 ->
    ancestor_loop h fuel q (nHeight b - 1) height = walk h (Z.to_nat (nHeight b - height)) p) as Hprev.
  { intros q bq Eq Hq Eh. replace (nHeight b - 1) with (nHeight bq) by lia. rewrite (IH q bq Hq) by lia.
    replace (Z.to_nat (nHeight b - height)) with (S (Z.to_nat (nHeight bq - height))) by lia.
    cbn [walk]. by rewrite Hp, Eq. }
  destruct (pprev b) as [q|] eqn:Eq; [|lia]. destruct H1 as (bq & Hq & Eh & _).
  destruct (pskip b) as [s|] eqn:Es; [|by apply (Hprev q bq)].
  destruct (skip_is_walk h p b s Ht Hp Es) as [Hpos Hws].
  pose proof (GetSkipHeight_bound (nHeight b) Hpos) as Hb.
  destruct (_ || _) eqn:Ec; [|by apply (Hprev q bq)].
  assert (height <= GetSkipHeight (nHeight b)) as Hle.
  { apply orb_true_iff in Ec as [Ec|Ec]; [apply Z.eqb_eq in Ec; lia|].
    apply andb_true_iff in Ec as [Ec _]. apply Z.ltb_lt in Ec. lia. }
  destruct (walk_height h p b (Z.to_nat (nHeight b - GetSkipHeight (nHeight b))) Ht Hp) as (s' & bs & Hw' & Hs & Ehs); [lia|].
  assert (s' = s) as -> by congruence.
  replace (GetSkipHeight (nHeight b)) with (nHeight bs) in * by lia.
  rewrite (IH s bs Hs) by lia. rewrite <- (walk_plus h _ _ _ _ Hws). f_equal. lia.
Qed.

Lemma GetAncestor_spec h p b height : tree_ok h -> h !! p = Some b ->
  GetAncestor h p height =
    Some (if (nHeight b <? height) || (height <? 0) then None else walk h (Z.to_nat (nHeight b - height)) p).
Proof.
  intros Ht Hp. unfold GetAncestor. rewrite Hp. destruct (_ || _) eqn:Ec; [done|].
  apply orb_false_iff in Ec as [E1%Z.ltb_ge E2%Z.ltb_ge].
  rewrite ancestor_loop_spec by (done || lia).
  destruct (walk_height h p b (Z.to_nat (nHeight b - height)) Ht Hp) as (q & bq & -> & _); [lia | done].
Qed.

(** ** Building the tree keeps it well formed *)

Lemma block_ok_mono h h' b : h ⊆ h' -> block_ok h b -> block_ok h' b.
Proof.
  intros Hs [H0 H1]. split; [done|]. destruct (pprev b) as [q|]; [|done].
  destruct H1 as (bq & Hq & Eh & Hk). exists bq. split_and!; [by apply (lookup_weaken h) | done |].
  destruct Hk as [Hk|(s & Es & Hw)]; [by left|]. right. exists s. split; [done|]. by apply (walk_mono h).
Qed.

Lemma new_CBlockIndex_ok h block prev now b :
  tree_ok h -> new_CBlockIndex h block prev now = Some b ->
  block_ok h b /\ pprev b = prev /\ nTime b = hdr_nTime block /\ nBits b = hdr_nBits block /\
  SetChainWorkNL h prev (hdr_nBits block) = Some (nChainWork b).
Proof.
  intros Ht Hn. unfold new_CBlockIndex in Hn.
  destruct (SetChainWorkNL h prev (hdr_nBits block)) as [w|] eqn:Ew.
  2:{ destruct prev as [q|]; [|done]. destruct (h !! q); [|done].
      destruct (BuildSkipNL _ _ _); [|done]. by destruct (SetSoftRejectedFromParentBaseNL _ _). }
  destruct prev as [q|].
  - destruct (h !! q) as [bq|] eqn:Eq; [|done].
    destruct (BuildSkipNL h (Some q) (nHeight bq + 1)) as [skip|] eqn:Es; [|done].
    destruct (SetSoftRejectedFromParentBaseNL bq 0) as [sr st]. injection Hn as <-. cbn.
    split_and!; try done. split; cbn; [pose proof (proj1 (Ht q bq Eq)); lia|].
    exists bq. split_and!; [done | done |]. unfold BuildSkipNL in Es.
    rewrite (GetAncestor_spec h q bq) in Es by done. destruct (_ || _); [injection Es as <-; by left|]. injection Es as <-.
    destruct (walk h _ q) as [s|]; [|by left]. right. by exists s.
  - injection Hn as <-. cbn. by split_and!.
Qed.

Lemma block_tree_ok h : block_tree h -> tree_ok h.
Proof.
  induction 1 as [|h block prev now p b Ht IH Hf Hr Hn]; [intros p b; by rewrite lookup_empty|].
  destruct (new_CBlockIndex_ok h block prev now b IH Hn) as [Hb _].
  intros q c. destruct (decide (p = q)) as [->|Hne].
  - rewrite lookup_insert_eq. intros [= <-]. apply (block_ok_mono h); [by apply insert_subseteq | done].
  - rewrite lookup_insert_ne by done. intros Hq.
    apply (block_ok_mono h); [by apply insert_subseteq | by apply (IH q)].
Qed.

(** ** Proof of work *)

(** The expected number of hashes behind a compact target: [2^256 / (target + 1)], and 0 for a
    target that is zero, negative or too large. *)

Definition proof_value (bits : Z) : Z :=
  let t := compact_value bits in
  if Z.testbit bits 23 || (t =? 0) || (2 ^ 256 <=? t) then 0 else 2 ^ 256 / (t + 1).

Lemma EqualTo_0 a : wf a -> EqualTo a 0 = (val a =? 0).
Proof.
  intros Ha. destruct (wf_destruct a Ha) as (a0&a1&a2&a3&a4&a5&a6&a7&->).
  destruct Ha as [_ Ha]. pose proof (val_bound _ Ha) as _.
  assert (forall w, In w [a0;a1;a2;a3;a4;a5;a6;a7] -> 0 <= w) as Hp.
  { intros w Hw. by apply (proj1 (List.Forall_forall _ _) Ha). }
  cbn in Hp. apply eq_true_iff_eq. unfold EqualTo, word. cbn [drop forallb nth].
  change (Z.shiftr 0 32) with 0. change (Z.land 0 0xffffffff) with 0.
  rewrite !andb_true_iff, !Z.eqb_eq. cbn [val].
  destruct_and?. assert (0 <= a0 /\ 0 <= a1 /\ 0 <= a2 /\ 0 <= a3 /\ 0 <= a4 /\ 0 <= a5 /\ 0 <= a6 /\ 0 <= a7)
    as (?&?&?&?&?&?&?&?) by (split_and!; apply Hp; tauto).
  clear Hp Ha. lia.
Qed.

Lemma compact_value_nonneg bits : 0 <= bits < 2 ^ 32 -> 0 <= compact_value bits.
Proof.
  intros Hb. destruct (SetCompact_fields bits Hb) as (_ & _ & Hs & Hw). unfold compact_value.
  destruct (Z.leb_spec (compact_size bits) 3).
  - apply Z.div_pos; [lia|]. apply Z.pow_pos_nonneg; lia.
  - apply Z.mul_nonneg_nonneg; [lia|]. apply Z.pow_nonneg. lia.
Qed.

(** A decoded target below 2^256 leaves room for the increment in [GetBlockProof]: a mantissa is
    shifted by whole bytes, so no compact code decodes to 2^256 - 1. *)
Lemma compact_value_succ bits : 0 <= bits < 2 ^ 32 ->
  compact_value bits < 2 ^ 256 -> compact_value bits + 1 < 2 ^ 256.
Proof.
  intros Hb. destruct (SetCompact_fields bits Hb) as (_ & _ & Hs & Hw). unfold compact_value.
  destruct (Z.leb_spec (compact_size bits) 3) as [Hle|Hgt].
  - intros _. assert (0 < 256 ^ (3 - compact_size bits)) by (apply Z.pow_pos_nonneg; lia).
    assert (compact_word bits / 256 ^ (3 - compact_size bits) <= compact_word bits); [|lia].
    apply Z.div_le_upper_bound; [done|]. nia.
  - intros Hlt. replace (compact_size bits - 3) with (1 + (compact_size bits - 4)) in * by lia.
    rewrite Z.pow_add_r in * by lia. change (256 ^ 1) with 256 in *.
    set (k := 256 ^ (compact_size bits - 4)) in *. clearbody k. lia.
Qed.

Lemma GetBlockProof_spec bits : 0 <= bits < 2 ^ 32 ->
  exists w, GetBlockProof bits = Some w /\ wf w /\ val w = proof_value bits.
Proof.
  intros Hb. pose proof (SetCompact_spec bits Hb) as S. unfold GetBlockProof, proof_value.
  pose proof (compact_value_nonneg bits Hb) as Hcv.
  destruct (SetCompact bits) as [[t n] o]. destruct S as (Wt & Vt & O & N).
  destruct (of_u64_spec 0 ltac:(lia)) as [W0 V0]. destruct (of_u64_spec 1 ltac:(lia)) as [W1 V1].
  rewrite EqualTo_0 by done.
  destruct (Z.leb_spec (2 ^ 256) (compact_value bits)) as [Hbig|Hsmall].
  { subst o. rewrite !orb_true_r. cbn [orb]. exists (of_u64 0). by rewrite V0. }
  pose proof (compact_value_succ bits Hb Hsmall) as Hinc.
  rewrite Z.mod_small in Vt by lia. subst o. rewrite Vt, !orb_false_r.
  destruct (Z.eqb_spec (compact_value bits) 0) as [Ez|Ez].
  { rewrite !orb_true_r. exists (of_u64 0). by rewrite V0. }
  rewrite !orb_false_r. assert (n = Z.testbit bits 23) as ->.
  { apply eq_true_iff_eq. rewrite N. tauto. }
  destruct (Z.testbit bits 23); [exists (of_u64 0); by rewrite V0|].
  destruct (lnot_spec t (proj2 Wt)) as [Fl Vl]. rewrite (proj1 Wt) in Vl. change (M WIDTH) with (2 ^ 256) in Vl.
  assert (wf (lnot t)) as Wl by (split; [unfold lnot; rewrite length_map; apply Wt | done]).
  pose proof (add_wf t (of_u64 1) Wt W1) as Wa. pose proof (val_add t (of_u64 1) Wt W1) as Va.
  rewrite V1, Vt, Z.mod_small in Va by lia.
  pose proof (div_spec (lnot t) (add t (of_u64 1)) Wl Wa) as D.
  destruct (div (lnot t) (add t (of_u64 1))) as [q|]; [|lia]. destruct D as (_ & Wq & Vq).
  eexists. split; [done|]. split; [by apply add_wf|].
  rewrite val_add, V1, Vq, Va, Vl, Vt by done.
  replace (2 ^ 256 - 1 - compact_value bits)
    with (2 ^ 256 + (-1) * (compact_value bits + 1)) by lia.
  rewrite Z.div_add by lia. rewrite <- Z.add_assoc, Z.add_0_r.
  apply Z.mod_small. split; [apply Z.div_pos; lia|]. apply Z.div_lt; lia.
Qed.

(** The constructor never fails: a block can be stored on every existing predecessor. *)

Lemma new_CBlockIndex_total h block prev now : tree_ok h -> header_range block ->
  (forall q, prev = Some q -> is_Some (h !! q)) -> exists b, new_CBlockIndex h block prev now = Some b.
Proof.
  intros Ht [_ Hb] Hprev. destruct (GetBlockProof_spec _ Hb) as (w & Ew & _).
  unfold new_CBlockIndex, SetChainWorkNL. rewrite Ew. destruct prev as [q|]; [|by eexists].
  destruct (Hprev q eq_refl) as [bq Hq]. rewrite Hq. cbn [BuildSkipNL].
  rewrite (GetAncestor_spec h q bq) by done. destruct (SetSoftRejectedFromParentBaseNL bq 0). by eexists.
Qed.

(** Accumulated work of the last [n] blocks of the chain that ends at [p]. *)

Fixpoint chain_work (h : heap) (n : nat) (p : ptr) : Z :=
  match n, h !! p with
  | S m, Some b =>
      proof_value (nBits b) + match pprev b with Some q => chain_work h m q | None => 0 end
  | _, _ => 0
  end.

Lemma chain_work_mono h h' n p b : h ⊆ h' -> tree_ok h -> h !! p = Some b -> chain_work h' n p = chain_work h n p.
Proof.
  intros Hs Ht. revert p b. induction n as [|n IH]; intros p b Hp; [done|]. cbn [chain_work].
  rewrite Hp, (lookup_weaken h h' p b Hp Hs). destruct (Ht p b Hp) as [_ H1].
  destruct (pprev b) as [q|]; [|done]. destruct H1 as (bq & Hq & _). by rewrite (IH q bq).
Qed.

Definition work_ok (h : heap) (p : ptr) (b : CBlockIndex) : Prop :=
  wf (nChainWork b) /\ 0 <= nBits b < 2 ^ 32 /\ 0 <= nTime b < 2 ^ 32 /\
  val (nChainWork b) = chain_work h (S (Z.to_nat (nHeight b))) p mod 2 ^ 256.

Lemma block_tree_work h : block_tree h -> forall p b, h !! p = Some b -> work_ok h p b.
Proof.
  induction 1 as [|h block prev now p b Ht IH Hf [Hr1 Hr2] Hn]; [intros p b; by rewrite lookup_empty|].
  pose proof (block_tree_ok h Ht) as Hok.
  assert (h ⊆ <[p := b]> h) as Hsub by (by apply insert_subseteq).
  destruct (new_CBlockIndex_ok h block prev now b Hok Hn) as ((B0 & B1) & Ep & Et & Eb & Ew).
  intros q c. destruct (decide (p = q)) as [->|Hne].
  2:{ rewrite lookup_insert_ne by done. intros Hq. destruct (IH q c Hq) as (I1 & I2 & I3 & I4).
      split_and!; [done | lia.. |]. by rewrite (chain_work_mono h _ _ q c). }
  rewrite lookup_insert_eq. intros [= <-]. destruct (GetBlockProof_spec _ Hr2) as (w & Egp & Ww & Vw).
  unfold work_ok. cbn [chain_work]. rewrite lookup_insert_eq. rewrite Et, Eb, Ep in *.
  destruct prev as [r|].
  - cbn [SetChainWorkNL] in Ew. destruct B1 as (br & Hbr & Eh & _). rewrite Hbr, Egp in Ew.
    injection Ew as Ew. destruct (IH r br Hbr) as (I1 & _ & _ & I4). rewrite <- Ew.
    split_and!; [by apply add_wf | lia.. |].
    rewrite val_add, I4, Vw by done. rewrite Zplus_mod_idemp_l.
    replace (Z.to_nat (nHeight b)) with (S (Z.to_nat (nHeight br)))
      by (pose proof (proj1 (Hok r br Hbr)); lia).
    rewrite (chain_work_mono h (<[q := b]> h) _ r br) by done. f_equal. lia.
  - cbn [SetChainWorkNL] in Ew. rewrite Egp in Ew. injection Ew as Ew. rewrite <- Ew.
    destruct (of_u64_spec 0 ltac:(lia)) as [W0 V0].
    split_and!; [by apply add_wf | lia.. |]. rewrite val_add, V0, Vw by done. f_equal. lia.
Qed.

(** C27. Every block tree the node can build is well formed: heights count predecessors, every skip
    pointer is the predecessor at [GetSkipHeight], and the accumulated work of a block is the sum
    over its chain of 2^256 / (target + 1) (modulo 2^256). *)
Theorem block_tree_invariant h p b :
  block_tree h -> h !! p = Some b ->
  block_ok h b /\ wf (nChainWork b) /\
  val (nChainWork b) = chain_work h (S (Z.to_nat (nHeight b))) p mod 2 ^ 256.
Proof.
  intros Ht Hp. split; [by apply (block_tree_ok h Ht p)|].
  destruct (block_tree_work h Ht p b Hp) as (H1 & _ & _ & H2). done.
Qed.

(** Ancestor search through the skip list is exactly the walk along [pprev]: on every tree the
    node can build, [GetAncestor] terminates without assertion failure, returns [nullptr] for a
    height that is negative or above the block's, and otherwise the block reached by
    [nHeight - height] steps along [pprev], which has the requested height. *)
Theorem GetAncestor_is_walk h p b height :
  block_tree h -> h !! p = Some b ->
  if (nHeight b <? height) || (height <? 0) then GetAncestor h p height = Some None
  else exists q bq, GetAncestor h p height = Some (Some q) /\
         walk h (Z.to_nat (nHeight b - height)) p = Some q /\ h !! q = Some bq /\ nHeight bq = height.
Proof.
  intros Ht%block_tree_ok Hp. rewrite (GetAncestor_spec h p b) by done.
  destruct (_ || _) eqn:Ec; [done|]. apply orb_false_iff in Ec as [E1%Z.ltb_ge E2%Z.ltb_ge].
  destruct (walk_height h p b (Z.to_nat (nHeight b - height)) Ht Hp) as (q & bq & Hw & Hq & Eh); [lia|].
  rewrite Hw. exists q, bq. split_and!; [done.. | lia].
Qed.

(** A tree of five blocks with a fork at height 1, for the witnesses: 1 <- 2 <- 3 <- 4 and 2 <- 5. *)

Definition add_block (p : ptr) (block : CBlockHeader) (prev : option ptr) (now : Z) (h : heap) : heap :=
  match new_CBlockIndex h block prev now with Some b => <[p := b]> h | None => h end.

Lemma add_block_tree p block prev now h :
  block_tree h -> h !! p = None -> header_range block -> block_tree (add_block p block prev now h).
Proof.
  intros. unfold add_block. destruct (new_CBlockIndex h block prev now) eqn:E; [|done].
  by apply (tree_add h block prev now).
Qed.

Definition demo_header (t : Z) : CBlockHeader :=
  {| hdr_nVersion := 1; hdr_hashPrevBlock := []; hdr_hashMerkleRoot := []; hdr_nTime := t; hdr_nBits := 0x1d00ffff; hdr_nNonce := 0 |}.

Definition demo_tree : heap :=
  add_block 5%positive (demo_header 1350) (Some 2%positive) 0
    (add_block 4%positive (demo_header 1400) (Some 3%positive) 0
      (add_block 3%positive (demo_header 1300) (Some 2%positive) 0
        (add_block 2%positive (demo_header 1200) (Some 1%positive) 0
          (add_block 1%positive (demo_header 1100) None 0 ∅)))).

Lemma demo_tree_ok : block_tree demo_tree.
Proof.
  assert (forall t, 0 <= t < 2 ^ 32 -> header_range (demo_header t)) as Hr by done.
  repeat (apply add_block_tree; [| vm_compute; reflexivity | apply Hr; lia]).
  apply tree_empty.
Qed.

Definition demo_block (p : ptr) : CBlockIndex :=
  match demo_tree !! p with
  | Some b => b
  | None =>
      {| pprev := None; pskip := None; nHeight := 0; nChainWork := []; nStatus := 0; nVersion := 0;
         hashMerkleRoot := []; nTime := 0; nBits := 0; nNonce := 0; nTimeReceived := 0; nTimeMax := 0;
         nSoftRejected := -1; mSoftConsensusFreezeForNBlocks := -1;
         mSoftConsensusFreezeForNBlocksCumulative := -1; nTx := 0; nChainTx := 0; nSequenceId := 0; mValidationCompletionTime := 0 |}
  end.

Lemma block_tree_invariant_witness :
  val (nChainWork (demo_block 4%positive)) = 4 * 4295032833 /\ block_ok demo_tree (demo_block 4%positive).
Proof.
  destruct (block_tree_invariant demo_tree 4%positive (demo_block 4%positive) demo_tree_ok ltac:(vm_compute; reflexivity))
    as (H1 & _ & H2).
  split; [|done]. rewrite H2. vm_compute. reflexivity.
Defined.

Lemma GetAncestor_is_walk_witness : GetAncestor demo_tree 4%positive 1 = Some (Some 2%positive).
Proof.
  pose proof (GetAncestor_is_walk demo_tree 4%positive (demo_block 4%positive) 1 demo_tree_ok ltac:(vm_compute; reflexivity)) as H.
  replace ((nHeight (demo_block 4%positive) <? 1) || (1 <? 0)) with false in H by (vm_compute; reflexivity).
  destruct H as (q & bq & H & Hw & _). rewrite H. rewrite <- Hw. vm_compute. reflexivity.
Defined.

(** ** The last common ancestor *)

Definition ancestor (h : heap) (q p : ptr) : Prop := exists n, walk h n p = Some q.

Lemma ancestor_refl h p : ancestor h p p.
Proof. by exists O. Qed.

Lemma ancestor_trans h x y z : ancestor h x y -> ancestor h y z -> ancestor h x z.
Proof. intros [n Hn] [m Hm]. exists (m + n)%nat. by rewrite (walk_plus h m n z y). Qed.

Lemma ancestor_step h p b q : h !! p = Some b -> pprev b = Some q -> ancestor h q p.
Proof. intros Hp Hb. exists 1%nat. cbn [walk]. by rewrite Hp, Hb. Qed.

(** An ancestor is a block, its distance is the difference of the heights, and a proper ancestor is
    an ancestor of the predecessor. *)

Lemma ancestor_height h p b q : tree_ok h -> h !! p = Some b -> ancestor h q p ->
  exists bq, h !! q = Some bq /\ 0 <= nHeight bq <= nHeight b /\
    walk h (Z.to_nat (nHeight b - nHeight bq)) p = Some q.
Proof.
  intros Ht Hp [n Hn]. assert (Z.of_nat n <= nHeight b \/ nHeight b < Z.of_nat n) as [Hle|Hgt] by lia.
  - destruct (walk_height h p b n Ht Hp Hle) as (q' & bq & Hw & Hq & Eh). simplify_eq.
    pose proof (proj1 (Ht q bq Hq)). exists bq. split_and!; [done | lia | lia |].
    by replace (Z.to_nat (nHeight b - nHeight bq)) with n by lia.
  - exfalso. pose proof (proj1 (Ht p b Hp)) as H0.
    destruct (walk_height h p b (Z.to_nat (nHeight b)) Ht Hp ltac:(lia)) as (q' & bq & Hw & Hq & Eh).
    replace n with (Z.to_nat (nHeight b) + S (n - S (Z.to_nat (nHeight b))))%nat in Hn by lia.
    rewrite (walk_plus h _ _ p q' Hw) in Hn. cbn [walk] in Hn. rewrite Hq in Hn.
    destruct (Ht q' bq Hq) as [_ H1]. destruct (pprev bq); [|done].
    destruct H1 as (c & Hc & ? & _). pose proof (proj1 (Ht _ c Hc)). lia.
Qed.

Lemma ancestor_at h p b q bq height r : tree_ok h -> h !! p = Some b -> ancestor h q p -> h !! q = Some bq ->
  nHeight bq <= height <= nHeight b -> walk h (Z.to_nat (nHeight b - height)) p = Some r -> ancestor h q r.
Proof.
  intros Ht Hp Ha Hq Hh Hr. destruct (ancestor_height h p b q Ht Hp Ha) as (bq' & Hq' & Hb & Hw). simplify_eq.
  exists (Z.to_nat (height - nHeight bq)).
  rewrite <- (walk_plus h (Z.to_nat (nHeight b - height)) _ p r Hr).
  by replace (_ + _)%nat with (Z.to_nat (nHeight b - nHeight bq)) by lia.
Qed.

Lemma ancestor_inv h p b q : tree_ok h -> h !! p = Some b -> ancestor h q p ->
  q = p \/ exists r, pprev b = Some r /\ ancestor h q r.
Proof.
  intros Ht Hp [[|n] Hn]; [by left; injection Hn|]. right. cbn [walk] in Hn. rewrite Hp in Hn.
  destruct (pprev b) as [r|]; [|done]. exists r. split; [done | by exists n].
Qed.

(** [q] is the last common ancestor of [x] and [y] ([None]: they are in different trees). *)

Definition last_common (h : heap) (x y : ptr) (r : option ptr) : Prop :=
  match r with
  | Some q => ancestor h q x /\ ancestor h q y /\
              forall z, ancestor h z x -> ancestor h z y -> ancestor h z q
  | None => forall z, ancestor h z x -> ancestor h z y -> False
  end.

Lemma common_loop_spec h fuel x y bx b_y : tree_ok h -> h !! x = Some bx -> h !! y = Some b_y ->
  nHeight bx = nHeight b_y -> nHeight bx < Z.of_nat fuel ->
  exists r, common_loop h fuel (Some x) (Some y) = (r, r) /\ last_common h x y r.
Proof.
  intros Ht. revert x y bx b_y. induction fuel as [|fuel IH]; intros x y bx b_y Hx Hy Eh Hf.
  { pose proof (proj1 (Ht x bx Hx)). lia. }
  cbn [common_loop]. rewrite (bool_decide_true (is_Some (Some x))), (bool_decide_true (is_Some (Some y))) by done.
  rewrite !andb_true_r. destruct (decide (x = y)) as [->|Hne].
  { rewrite bool_decide_false by (intros Hn; by apply Hn). exists (Some y). split; [done|].
    split_and!; [apply ancestor_refl.. | done]. }
  rewrite bool_decide_true by congruence. cbn [get_prev]. rewrite Hx, Hy.
  assert (forall z, ancestor h z x -> ancestor h z y ->
    exists x' y', pprev bx = Some x' /\ pprev b_y = Some y' /\ ancestor h z x' /\ ancestor h z y') as Hcommon.
  { intros z Zx Zy. destruct (ancestor_height h x bx z Ht Hx Zx) as (bz & Hz & Hb & Wx).
    destruct (ancestor_height h y b_y z Ht Hy Zy) as (bz' & Hz' & _ & Wy). simplify_eq.
    destruct (ancestor_inv h x bx z Ht Hx Zx) as [->|(x' & Ex & Ax)].
    { simplify_eq. rewrite Eh, Z.sub_diag in Wy. by injection Wy. }
    destruct (ancestor_inv h y b_y z Ht Hy Zy) as [->|(y' & Ey & Ay)].
    { simplify_eq. rewrite Eh, Z.sub_diag in Wx. by injection Wx. }
    by exists x', y'. }
  destruct (Ht x bx Hx) as [Hx0 Hx1], (Ht y b_y Hy) as [Hy0 Hy1].
  destruct (pprev bx) as [x'|] eqn:Ex, (pprev b_y) as [y'|] eqn:Ey.
  - destruct Hx1 as (cx & Hcx & Ehx & _), Hy1 as (cy & Hcy & Ehy & _).
    destruct (IH x' y' cx cy Hcx Hcy ltac:(lia) ltac:(lia)) as (r & Er & Hr).
    exists r. split; [done|]. destruct r as [q|]; cbn [last_common] in *.
    + destruct Hr as (R1 & R2 & R3). split_and!.
      * apply (ancestor_trans h q x' x R1). by apply (ancestor_step h x bx).
      * apply (ancestor_trans h q y' y R2). by apply (ancestor_step h y b_y).
      * intros z Zx Zy. destruct (Hcommon z Zx Zy) as (? & ? & ? & ? & ? & ?). simplify_eq. by apply R3.
    + intros z Zx Zy. destruct (Hcommon z Zx Zy) as (? & ? & ? & ? & ? & ?). simplify_eq. by apply (Hr z).
  - destruct Hx1 as (cx & Hcx & ? & _). pose proof (proj1 (Ht _ _ Hcx)). lia.
  - destruct Hy1 as (cy & Hcy & ? & _). pose proof (proj1 (Ht _ _ Hcy)). lia.
  - exists None. split; [by destruct fuel|]. intros z Zx Zy.
    destruct (Hcommon z Zx Zy) as (? & ? & ? & _). done.
Qed.

Lemma GetAncestor_walk h p b height : tree_ok h -> h !! p = Some b -> 0 <= height <= nHeight b ->
  exists q bq, GetAncestor h p height = Some (Some q) /\
    walk h (Z.to_nat (nHeight b - height)) p = Some q /\ h !! q = Some bq /\ nHeight bq = height.
Proof.
  intros Ht Hp Hh. rewrite (GetAncestor_spec h p b) by done.
  rewrite (proj2 (Z.ltb_ge (nHeight b) height)), (proj2 (Z.ltb_ge height 0)) by lia. cbn [orb].
  destruct (walk_height h p b (Z.to_nat (nHeight b - height)) Ht Hp) as (q & bq & Hw & Hq & Eh); [lia|].
  rewrite Hw. exists q, bq. split_and!; [done.. | lia].
Qed.

(** Moving one side down to the height of the other keeps the common ancestors. *)

Lemma last_common_move h x y bx b_y x' r : tree_ok h -> h !! x = Some bx -> h !! y = Some b_y ->
  nHeight b_y <= nHeight bx -> walk h (Z.to_nat (nHeight bx - nHeight b_y)) x = Some x' ->
  last_common h x' y r -> last_common h x y r.
Proof.
  intros Ht Hx Hy Hh Hw. assert (ancestor h x' x) as Hx' by (by eexists).
  assert (forall z, ancestor h z x -> ancestor h z y -> ancestor h z x') as Hz.
  { intros z Zx Zy. destruct (ancestor_height h y b_y z Ht Hy Zy) as (bz & Hz & Hb & _).
    apply (ancestor_at h x bx z bz (nHeight b_y)); [done.. | lia | done]. }
  destruct r as [q|]; cbn [last_common].
  - intros (R1 & R2 & R3). split_and!; [by apply (ancestor_trans h q x' x) | done |].
    intros z Zx Zy. apply R3; [by apply Hz | done].
  - intros Hr z Zx Zy. apply (Hr z); [by apply Hz | done].
Qed.

Lemma last_common_sym h x y r : last_common h x y r -> last_common h y x r.
Proof. destruct r as [q|]; cbn [last_common]; [intros (R1 & R2 & R3); split_and!; auto | eauto]. Qed.

Lemma LastCommonAncestor_spec h x y bx b_y : tree_ok h -> h !! x = Some bx -> h !! y = Some b_y ->
  exists r, LastCommonAncestor h x y = Some r /\ last_common h x y r.
Proof.
  intros Ht Hx Hy. pose proof (proj1 (Ht x bx Hx)). pose proof (proj1 (Ht y b_y Hy)).
  unfold LastCommonAncestor. rewrite Hx, Hy.
  destruct (Z.ltb_spec (nHeight b_y) (nHeight bx)) as [Hlt|Hge].
  - destruct (GetAncestor_walk h x bx (nHeight b_y) Ht Hx ltac:(lia)) as (x' & cx & E & Hw & Hc & Eh).
    rewrite E. destruct (common_loop_spec h (Z.to_nat (Z.min (nHeight bx) (nHeight b_y) + 1)) x' y cx b_y)
      as (r & Er & Hr); [done.. | lia |].
    rewrite Er, bool_decide_true by done. exists r. split; [done|].
    apply (last_common_move h x y bx b_y x'); [done.. | lia | done | done].
  - destruct (Z.ltb_spec (nHeight bx) (nHeight b_y)) as [Hlt|Hge'].
    + destruct (GetAncestor_walk h y b_y (nHeight bx) Ht Hy ltac:(lia)) as (y' & cy & E & Hw & Hc & Eh).
      rewrite E. destruct (common_loop_spec h (Z.to_nat (Z.min (nHeight bx) (nHeight b_y) + 1)) x y' bx cy)
        as (r & Er & Hr); [done.. | lia |].
      rewrite Er, bool_decide_true by done. exists r. split; [done|].
      apply last_common_sym, (last_common_move h y x b_y bx y'); [done.. | lia | done |].
      by apply last_common_sym.
    + destruct (common_loop_spec h (Z.to_nat (Z.min (nHeight bx) (nHeight b_y) + 1)) x y bx b_y)
        as (r & Er & Hr); [done | done | done | lia | lia |].
      rewrite Er, bool_decide_true by done. by exists r.
Qed.

(** [LastCommonAncestor] never fails its final assertion and returns the last block the two
    chains share: a common ancestor every other common ancestor is an ancestor of, or [nullptr] when
    the blocks have no common ancestor. *)
Theorem LastCommonAncestor_correct h x y bx b_y :
  block_tree h -> h !! x = Some bx -> h !! y = Some b_y ->
  exists r, LastCommonAncestor h x y = Some r /\ last_common h x y r.
Proof. intros Ht%block_tree_ok. by apply LastCommonAncestor_spec. Qed.

Lemma LastCommonAncestor_correct_witness :
  last_common demo_tree 4%positive 5%positive (Some 2%positive).
Proof.
  destruct (LastCommonAncestor_correct demo_tree 4%positive 5%positive (demo_block 4%positive) (demo_block 5%positive)
    demo_tree_ok ltac:(vm_compute; reflexivity) ltac:(vm_compute; reflexivity)) as (r & E & H).
  replace (LastCommonAncestor demo_tree 4%positive 5%positive) with (Some (Some 2%positive)) in E
    by (vm_compute; reflexivity).
  injection E as <-. exact H.
Defined.

(** ** The active chain *)

(** [v] holds only chains: below an occupied slot every slot is the ancestor at that height. *)

Definition slots_ok (h : heap) (v : list (option ptr)) : Prop :=
  forall i x, v !! i = Some (Some x) -> forall k, (k <= i)%nat -> v !! k = Some (walk h (i - k) x).

(** The chain vector is exactly the chain of its tip, indexed by height. *)

Definition chain_ok (h : heap) (c : CChain) : Prop :=
  match mChainTip c with
  | None => vChain c = []
  | Some p =>
      exists b, h !! p = Some b /\ length (vChain c) = S (Z.to_nat (nHeight b)) /\
        forall i, (i <= Z.to_nat (nHeight b))%nat ->
          vChain c !! i = Some (walk h (Z.to_nat (nHeight b) - i) p)
  end.

Lemma chain_slots h c : tree_ok h -> chain_ok h c -> slots_ok h (vChain c).
Proof.
  intros Ht Hc i x Hx k Hk. unfold chain_ok in Hc. destruct (mChainTip c) as [p|].
  2:{ rewrite Hc in Hx. by rewrite lookup_nil in Hx. }
  destruct Hc as (b & Hp & Hl & Hi). pose proof (lookup_lt_Some _ _ _ Hx) as Hlt.
  rewrite Hi in Hx by lia. injection Hx as Hx. rewrite Hi by lia. f_equal.
  rewrite <- (walk_plus h _ (i - k) p x Hx). f_equal. lia.
Qed.

Lemma slots_resize h v n : slots_ok h v -> slots_ok h (resize n v).
Proof.
  intros Hv i x. unfold resize. intros Hx k Hk. pose proof (lookup_lt_Some _ _ _ Hx) as Hlt.
  rewrite length_app, length_replicate, length_take in Hlt.
  assert (i < length v)%nat as Hi.
  { destruct (decide (i < length v)%nat) as [|Hge]; [done|]. exfalso.
    rewrite lookup_app_r, lookup_replicate in Hx by (rewrite length_take; lia). by destruct Hx. }
  rewrite lookup_app_l in Hx by (rewrite length_take; lia).
  rewrite lookup_take_lt in Hx by lia.
  rewrite lookup_app_l by (rewrite length_take; lia). rewrite lookup_take_lt by lia. by apply Hv.
Qed.

Lemma length_resize n v : length (resize n v) = n.
Proof. unfold resize. rewrite length_app, length_take, length_replicate. lia. Qed.

Lemma length_set_tip_loop h n p v : length (set_tip_loop h n p v) = length v.
Proof.
  revert p v. induction n as [|n IH]; intros [p|] v; try done. cbn [set_tip_loop].
  destruct (h !! p) as [b|]; [|done]. case_bool_decide; [done|]. by rewrite IH, length_insert.
Qed.

(** The loop writes the chain of [p] below its height and keeps the slots above, also when it stops
    at the first slot that already holds the right block. *)

Lemma set_tip_loop_spec h n p b v : tree_ok h -> h !! p = Some b -> slots_ok h (take (S (Z.to_nat (nHeight b))) v) ->
  (Z.to_nat (nHeight b) < length v)%nat -> nHeight b < Z.of_nat n ->
  forall i, set_tip_loop h n (Some p) v !! i =
    if (i <=? Z.to_nat (nHeight b))%nat then Some (walk h (Z.to_nat (nHeight b) - i) p) else v !! i.
Proof.
  intros Ht. revert p b v. induction n as [|n IH]; intros p b v Hp Hs Hl Hn i.
  { pose proof (proj1 (Ht p b Hp)). lia. }
  cbn [set_tip_loop]. rewrite Hp. pose proof (proj1 (Ht p b Hp)) as H0.
  case_bool_decide as Hd.
  { destruct (Nat.leb_spec i (Z.to_nat (nHeight b))) as [Hi|Hi]; [|done].
    specialize (Hs (Z.to_nat (nHeight b)) p). rewrite lookup_take_lt in Hs by lia.
    specialize (Hs Hd i Hi). by rewrite lookup_take_lt in Hs by lia. }
  destruct (Ht p b Hp) as [_ H1]. destruct (pprev b) as [q|] eqn:Eq.
  - destruct H1 as (bq & Hq & Eh & _). pose proof (proj1 (Ht q bq Hq)).
    rewrite (IH q bq) with (i := i); [|done| |rewrite length_insert; lia|lia].
    2:{ intros j x Hx k Hk. pose proof (lookup_lt_Some _ _ _ Hx) as Hj. rewrite length_take, length_insert in Hj.
        rewrite lookup_take_lt, list_lookup_insert_ne in Hx by lia.
        rewrite lookup_take_lt, list_lookup_insert_ne by lia.
        specialize (Hs j x). rewrite lookup_take_lt in Hs by lia. specialize (Hs Hx k Hk).
        by rewrite lookup_take_lt in Hs by lia. }
    destruct (Nat.leb_spec i (Z.to_nat (nHeight bq))) as [Hi|Hi].
    + rewrite (proj2 (Nat.leb_le _ _)) by lia.
      replace (Z.to_nat (nHeight b) - i)%nat with (S (Z.to_nat (nHeight bq) - i)) by lia.
      cbn [walk]. by rewrite Hp, Eq.
    + destruct (Nat.leb_spec i (Z.to_nat (nHeight b))) as [Hi'|Hi'].
      * assert (i = Z.to_nat (nHeight b)) as -> by lia. rewrite list_lookup_insert_eq by lia.
        by rewrite Nat.sub_diag.
      * by rewrite list_lookup_insert_ne by lia.
  - destruct H1 as [Eh _]. replace (set_tip_loop h n None _) with (<[Z.to_nat (nHeight b) := Some p]> v)
      by (by destruct n). rewrite Eh in *. destruct i as [|i].
    + rewrite list_lookup_insert_eq by lia. done.
    + cbn [Nat.leb Z.to_nat]. by rewrite list_lookup_insert_ne by lia.
Qed.

Lemma SetTip_ok h c p b : tree_ok h -> chain_ok h c -> h !! p = Some b -> chain_ok h (SetTip h c (Some p)).
Proof.
  intros Ht Hc Hp. pose proof (proj1 (Ht p b Hp)) as H0. unfold SetTip. rewrite Hp.
  exists b. cbn [vChain mChainTip]. split; [done|].
  replace (Z.to_nat (nHeight b + 1)) with (S (Z.to_nat (nHeight b))) by lia.
  rewrite length_set_tip_loop, length_resize. split; [done|]. intros i Hi.
  rewrite (set_tip_loop_spec h _ p b); [by rewrite (proj2 (Nat.leb_le _ _)) | done | done | | rewrite length_resize; lia | lia].
  rewrite take_ge by (rewrite length_resize; lia). apply slots_resize. by apply chain_slots.
Qed.

(** A node's run as far as the index is concerned: it stores blocks and moves the active tip. *)

Inductive index_run : heap -> CChain -> Prop :=
| run_start : index_run ∅ {| vChain := []; mChainTip := None |}
| run_store h c block prev now p b :
    index_run h c -> h !! p = None -> header_range block ->
    new_CBlockIndex h block prev now = Some b -> index_run (<[p := b]> h) c
| run_tip h c p b : index_run h c -> h !! p = Some b -> index_run h (SetTip h c (Some p))
| run_clear h c : index_run h c -> index_run h (SetTip h c None).

Lemma chain_ok_mono h h' c : tree_ok h -> h ⊆ h' -> chain_ok h c -> chain_ok h' c.
Proof.
  intros Ht Hs. unfold chain_ok. destruct (mChainTip c) as [p|]; [|done].
  intros (b & Hp & Hl & Hi). exists b. split_and!; [by apply (lookup_weaken h h') | done |].
  intros i Hle. rewrite Hi by done. pose proof (proj1 (Ht p b Hp)).
  destruct (walk_height h p b (Z.to_nat (nHeight b) - i) Ht Hp ltac:(lia)) as (q & _ & Hw & _).
  by rewrite Hw, (walk_mono h h' _ p q Hs Hw).
Qed.

Lemma index_run_ok h c : index_run h c -> block_tree h /\ chain_ok h c.
Proof.
  induction 1 as [|h c block prev now p b _ [IT IC] Hf Hr Hn|h c p b _ [IT IC] Hp|h c _ [IT IC]].
  - split; [apply tree_empty | done].
  - split; [by apply (tree_add h block prev now)|].
    apply (chain_ok_mono h); [by apply block_tree_ok | by apply insert_subseteq | done].
  - split; [done|]. apply (SetTip_ok h c p b); [by apply block_tree_ok | done..].
  - by split.
Qed.

Lemma chain_at_ok h c p b i : tree_ok h -> chain_ok h c -> mChainTip c = Some p -> h !! p = Some b ->
  chain_at c i = if (i <? 0) || (nHeight b <? i) then None else walk h (Z.to_nat (nHeight b - i)) p.
Proof.
  intros Ht Hc Etip Hp. unfold chain_ok in Hc. rewrite Etip in Hc.
  destruct Hc as (b' & Hp' & Hl & Hi). rewrite Hp in Hp'. injection Hp' as <-. pose proof (proj1 (Ht p b Hp)).
  unfold chain_at. rewrite Hl. destruct (Z.ltb_spec i 0); [done|]. cbn [orb].
  destruct (Z.leb_spec (Z.of_nat (S (Z.to_nat (nHeight b)))) i).
  - by rewrite (proj2 (Z.ltb_lt _ _)) by lia.
  - rewrite (proj2 (Z.ltb_ge _ _)), Hi by lia. f_equal. lia.
Qed.

Lemma Contains_ancestor h c p b q bq : tree_ok h -> chain_ok h c -> mChainTip c = Some p -> h !! p = Some b ->
  h !! q = Some bq -> Contains h c q = true <-> ancestor h q p.
Proof.
  intros Ht Hc Etip Hp Hq. unfold Contains. rewrite Hq, bool_decide_eq_true.
  rewrite (chain_at_ok h c p b) by done. pose proof (proj1 (Ht q bq Hq)). split.
  - destruct (_ || _); [done|]. intros Hw. by eexists.
  - intros Ha. destruct (ancestor_height h p b q Ht Hp Ha) as (bq' & Hq' & Hb & Hw). simplify_eq.
    by rewrite (proj2 (Z.ltb_ge _ 0)), (proj2 (Z.ltb_ge _ (nHeight bq))) by lia.
Qed.

Lemma fork_loop_spec h c p b fuel x bx : tree_ok h -> chain_ok h c -> mChainTip c = Some p -> h !! p = Some b ->
  h !! x = Some bx -> nHeight bx < Z.of_nat fuel -> last_common h x p (fork_loop h c fuel (Some x)).
Proof.
  intros Ht Hc Etip Hp. revert x bx. induction fuel as [|fuel IH]; intros x bx Hx Hf.
  { pose proof (proj1 (Ht x bx Hx)). lia. }
  cbn [fork_loop]. pose proof (Contains_ancestor h c p b x bx Ht Hc Etip Hp Hx) as HC.
  destruct (Contains h c x).
  { split_and!; [apply ancestor_refl | by apply HC | done]. }
  assert (~ ancestor h x p) as Hn by (intros ?%HC; done). cbn [get_prev]. rewrite Hx.
  destruct (Ht x bx Hx) as [_ H1]. destruct (pprev bx) as [q|] eqn:Eq.
  - destruct H1 as (bq & Hq & Eh & _). specialize (IH q bq Hq ltac:(lia)).
    assert (forall z, ancestor h z x -> ancestor h z p -> ancestor h z q) as Hz.
    { intros z Zx Zp. destruct (ancestor_inv h x bx z Ht Hx Zx) as [->|(q' & Eq' & ?)]; [done|]. by simplify_eq. }
    destruct (fork_loop h c fuel (Some q)) as [r|]; cbn [last_common] in *.
    + destruct IH as (R1 & R2 & R3). split_and!; [|done|auto].
      apply (ancestor_trans h r q x R1). by apply (ancestor_step h x bx).
    + intros z Zx Zp. by apply (IH z); [apply Hz|].
  - replace (fork_loop h c fuel None) with (@None ptr) by (by destruct fuel). intros z Zx Zp.
    destruct (ancestor_inv h x bx z Ht Hx Zx) as [->|(q' & Eq' & _)]; [done|]. congruence.
Qed.

Lemma FindFork_spec h c x bx : tree_ok h -> chain_ok h c -> h !! x = Some bx ->
  exists r, FindFork h c (Some x) = Some r /\
    match mChainTip c with Some p => last_common h x p r | None => r = None end.
Proof.
  intros Ht Hc Hx. pose proof (proj1 (Ht x bx Hx)) as H0. unfold FindFork. rewrite Hx.
  pose proof Hc as Hc'. unfold chain_ok in Hc'. unfold Height. destruct (mChainTip c) as [p|] eqn:Etip.
  - destruct Hc' as (b & Hp & _). rewrite Hp. pose proof (proj1 (Ht p b Hp)).
    destruct (Z.ltb_spec (nHeight b) (nHeight bx)) as [Hlt|Hge].
    + destruct (GetAncestor_walk h x bx (nHeight b) Ht Hx ltac:(lia)) as (x' & cx & E & Hw & Hc'' & Eh).
      rewrite E. eexists. split; [done|]. apply (last_common_move h x p bx b x'); [done.. | lia | done |].
      apply (fork_loop_spec h c p b _ x' cx); [done.. | lia].
    + eexists. split; [done|]. apply (fork_loop_spec h c p b _ x bx); [done.. | lia].
  - rewrite (proj2 (Z.ltb_lt _ _)), (GetAncestor_spec h x bx) by (done || lia).
    change (-1 <? 0) with true. rewrite orb_true_r. eexists. split; [done|]. by destruct (Z.to_nat _).
Qed.

(** C28. After any run of the node the active chain is the chain of its tip: slot [i] holds the tip's
    ancestor at height [i], although [SetTip] stops at the first slot that is already right; a block
    is contained iff it is an ancestor of the tip; and [FindFork] finds the last common ancestor of a
    block and the tip. *)
Theorem active_chain_correct h c p b :
  index_run h c -> mChainTip c = Some p -> h !! p = Some b ->
  Height h c = nHeight b /\
  (forall i, chain_at c i =
     if (i <? 0) || (nHeight b <? i) then None else walk h (Z.to_nat (nHeight b - i)) p) /\
  (forall q bq, h !! q = Some bq ->
     (Contains h c q = true <-> ancestor h q p) /\
     exists r, FindFork h c (Some q) = Some r /\ last_common h q p r).
Proof.
  intros [Ht%block_tree_ok Hc]%index_run_ok Etip Hp. split_and!.
  - unfold Height. by rewrite Etip, Hp.
  - intros i. by apply chain_at_ok.
  - intros q bq Hq. split; [by apply (Contains_ancestor h c p b q bq)|].
    destruct (FindFork_spec h c q bq Ht Hc Hq) as (r & Er & Hr). rewrite Etip in Hr. by exists r.
Qed.

(** The run that builds [demo_tree], sets the tip to block 5 and then reorganises to block 4. *)

Lemma add_block_run p block prev now h c : index_run h c -> h !! p = None -> header_range block ->
  index_run (add_block p block prev now h) c.
Proof.
  intros. unfold add_block. destruct (new_CBlockIndex h block prev now) eqn:E; [|done].
  by apply (run_store h c block prev now).
Qed.

Definition demo_chain : CChain :=
  SetTip demo_tree (SetTip demo_tree {| vChain := []; mChainTip := None |} (Some 5%positive)) (Some 4%positive).

Lemma demo_run : index_run demo_tree demo_chain.
Proof.
  apply (run_tip demo_tree _ 4%positive (demo_block 4%positive)); [|vm_compute; reflexivity].
  apply (run_tip demo_tree _ 5%positive (demo_block 5%positive)); [|vm_compute; reflexivity].
  assert (forall t, 0 <= t < 2 ^ 32 -> header_range (demo_header t)) as Hr by done.
  repeat (apply add_block_run; [| vm_compute; reflexivity | apply Hr; lia]).
  apply run_start.
Qed.

Lemma active_chain_correct_witness :
  vChain demo_chain = [Some 1; Some 2; Some 3; Some 4]%positive /\ Contains demo_tree demo_chain 5%positive = false /\
  ~ ancestor demo_tree 5%positive 4%positive.
Proof.
  destruct (active_chain_correct demo_tree demo_chain 4%positive (demo_block 4%positive) demo_run
    ltac:(vm_compute; reflexivity) ltac:(vm_compute; reflexivity)) as (_ & _ & H).
  split; [vm_compute; reflexivity|]. split; [vm_compute; reflexivity|].
  destruct (H 5%positive (demo_block 5%positive) ltac:(vm_compute; reflexivity)) as [HC _].
  rewrite <- HC. vm_compute. discriminate.
Defined.
