(* ===== verification/Pow.v ===== *)
(** * Proof of work

    [src/pow.cpp]: the check of a block hash against its compact target, the legacy retarget with
    the emergency adjustment, and the difficulty algorithm that replaced it.  Index entries live in
    the heap of [BlockIndex]; an [assert] that fails, a dangling pointer and the [uint_error] of a
    division by zero are [None].  The [int64_t] sums and products of times stay in the model far from
    the 64-bit bounds, so they are plain integers; the conversion of a time span to the [uint32_t]
    operand of [operator*=] is written out. *)

From S2P Require Import Prelude Common Uint256 BlockIndex.
From stdpp Require Import gmap sorting.
Import arith_uint256.
#[local] Open Scope Z_scope.

(** The consensus parameters ([consensus/params.h]) the difficulty code reads. *)

Record Params := {
  daaHeight : Z;
  powLimit : list Z;
  fPowAllowMinDifficultyBlocks : bool;
  fPowNoRetargeting : bool;
  nPowTargetSpacing : Z;
  nPowTargetTimespan : Z
}.

Definition DifficultyAdjustmentInterval (P : Params) : option Z :=
  if nPowTargetSpacing P =? 0 then None
  else Some (Z.quot (nPowTargetTimespan P) (nPowTargetSpacing P)).

Definition IsDAAEnabled (P : Params) (height : Z) : bool := daaHeight P <=? height.

Definition gt (a b : list Z) : bool := 0 <? CompareTo a b.

Definition GetCompact0 (a : list Z) : option Z := GetCompact a false.

Definition set_compact (c : Z) : list Z := fst (fst (SetCompact c)).

(** ** [CheckProofOfWork] *)

Definition CheckProofOfWork (hash : list Z) (bits : Z) (P : Params) : bool :=
  let '(bnTarget, fNegative, fOverflow) := SetCompact bits in
  if fNegative || EqualTo bnTarget 0 || fOverflow || gt bnTarget (UintToArith256 (powLimit P)) then false
  else if gt (UintToArith256 hash) bnTarget then false
  else true.

(** ** The legacy retarget *)

Definition clamp_timespan (P : Params) (nActualTimespan : Z) : Z :=
  let t := if nActualTimespan <? Z.quot (nPowTargetTimespan P) 4
           then Z.quot (nPowTargetTimespan P) 4 else nActualTimespan in
  if nPowTargetTimespan P * 4 <? t then nPowTargetTimespan P * 4 else t.

Definition CalculateNextWorkRequired (pindexPrev : CBlockIndex) (nFirstBlockTime : Z) (P : Params) : option Z :=
  if fPowNoRetargeting P then Some (nBits pindexPrev)
  else
    let nActualTimespan := clamp_timespan P (nTime pindexPrev - nFirstBlockTime) in
    let bnPowLimit := UintToArith256 (powLimit P) in
    let bnNew := mul32 (set_compact (nBits pindexPrev)) (u32 nActualTimespan) in
    bnNew ← div bnNew (of_u64 (u64 (nPowTargetTimespan P)));
    GetCompact0 (if gt bnNew bnPowLimit then bnPowLimit else bnNew).

(** The loop of the testnet rule: back to the last block that did not use the rule. *)

Fixpoint min_difficulty_loop (h : heap) (fuel : nat) (interval limit : Z) (pindex : ptr) : option Z :=
  match fuel, h !! pindex with
  | S n, Some b =>
      match pprev b with
      | Some q =>
          if negb (Z.rem (nHeight b) interval =? 0) && (nBits b =? limit)
          then min_difficulty_loop h n interval limit q
          else Some (nBits b)
      | None => Some (nBits b)
      end
  | _, _ => None
  end.

Definition GetNextEDAWorkRequired (h : heap) (pindexPrev : ptr) (pblock : CBlockHeader) (P : Params) : option Z :=
  prev ← h !! pindexPrev;
  let height := nHeight prev + 1 in
  interval ← DifficultyAdjustmentInterval P;
  if interval =? 0 then None
  else if Z.rem height interval =? 0 then
    if height <? interval then None
    else
      first ← GetAncestor h pindexPrev (i32 (height - interval));
      pindexFirst ← first;
      bFirst ← h !! pindexFirst;
      CalculateNextWorkRequired prev (nTime bFirst) P
  else
    nProofOfWorkLimit ← GetCompact0 (UintToArith256 (powLimit P));
    if fPowAllowMinDifficultyBlocks P then
      if nTime prev + 2 * nPowTargetSpacing P <? hdr_nTime pblock then Some nProofOfWorkLimit
      else min_difficulty_loop h (Z.to_nat height) interval nProofOfWorkLimit pindexPrev
    else if nBits prev =? nProofOfWorkLimit then Some nProofOfWorkLimit
    else
      anc6 ← GetAncestor h pindexPrev (height - 7);
      pindex6 ← anc6;
      mtp ← GetMedianTimePast h pindexPrev;
      mtp6 ← GetMedianTimePast h pindex6;
      if mtp - mtp6 <? 12 * 3600 then Some (nBits prev)
      else
        let nPow := set_compact (nBits prev) in
        let nPow := add nPow (shr nPow 2) in
        let bnPowLimit := UintToArith256 (powLimit P) in
        GetCompact0 (if gt nPow bnPowLimit then bnPowLimit else nPow).

(** ** The difficulty adjustment algorithm *)

Definition clamp_work_timespan (P : Params) (nActualTimespan : Z) : Z :=
  if 288 * nPowTargetSpacing P <? nActualTimespan then 288 * nPowTargetSpacing P
  else if nActualTimespan <? 72 * nPowTargetSpacing P then 72 * nPowTargetSpacing P
  else nActualTimespan.

Definition ComputeTarget (pindexFirst pindexLast : CBlockIndex) (P : Params) : option (list Z) :=
  if nHeight pindexLast <=? nHeight pindexFirst then None
  else
    let work := sub (nChainWork pindexLast) (nChainWork pindexFirst) in
    let work := mul32 work (u32 (nPowTargetSpacing P)) in
    let nActualTimespan := clamp_work_timespan P (nTime pindexLast - nTime pindexFirst) in
    work ← div work (of_u64 (u64 nActualTimespan));
    div (neg work) work.

Definition swap_if_later (x y : ptr * CBlockIndex) : (ptr * CBlockIndex) * (ptr * CBlockIndex) :=
  if nTime (snd y) <? nTime (snd x) then (y, x) else (x, y).

Definition GetSuitableBlock (h : heap) (pindex : ptr) : option ptr :=
  b2 ← h !! pindex;
  if nHeight b2 <? 3 then None
  else
    p1 ← pprev b2;
    b1 ← h !! p1;
    p0 ← pprev b1;
    b0 ← h !! p0;
    let '(x0, x2) := swap_if_later (p0, b0) (pindex, b2) in
    let '(x0, x1) := swap_if_later x0 (p1, b1) in
    let '(x1, x2) := swap_if_later x1 x2 in
    Some (fst x1).

Definition GetNextCashWorkRequired (h : heap) (pindexPrev : ptr) (pblock : CBlockHeader) (P : Params) : option Z :=
  prev ← h !! pindexPrev;
  if fPowAllowMinDifficultyBlocks P && (nTime prev + 2 * nPowTargetSpacing P <? hdr_nTime pblock)
  then GetCompact0 (UintToArith256 (powLimit P))
  else
    let height := nHeight prev in
    interval ← DifficultyAdjustmentInterval P;
    if height <? interval then None
    else
      pindexLast ← GetSuitableBlock h pindexPrev;
      bLast ← h !! pindexLast;
      anc ← GetAncestor h pindexPrev (height - 144);
      first ← anc;
      pindexFirst ← GetSuitableBlock h first;
      bFirst ← h !! pindexFirst;
      nextTarget ← ComputeTarget bFirst bLast P;
      let bnPowLimit := UintToArith256 (powLimit P) in
      GetCompact0 (if gt nextTarget bnPowLimit then bnPowLimit else nextTarget).

Definition GetNextWorkRequired (h : heap) (pindexPrev : option ptr) (pblock : CBlockHeader) (P : Params) : option Z :=
  match pindexPrev with
  | None => GetCompact0 (UintToArith256 (powLimit P))
  | Some p =>
      prev ← h !! p;
      if fPowNoRetargeting P then Some (nBits prev)
      else if IsDAAEnabled P (nHeight prev) then GetNextCashWorkRequired h p pblock P
      else GetNextEDAWorkRequired h p pblock P
  end.

(** ** Correctness *)

Lemma gt_spec a b : wf a -> wf b -> gt a b = (val b <? val a).
Proof.
  intros. unfold gt. rewrite CompareTo_spec by done.
  destruct (Z.compare_spec (val a) (val b)), (Z.ltb_spec (val b) (val a)); cbn; lia.
Qed.

Lemma GetCompact0_spec a : wf a -> GetCompact0 a = Some (compact_code (val a)) /\ 0 <= compact_code (val a) < 2 ^ 32.
Proof.
  intros Ha. destruct (GetCompact_spec a false Ha) as (m & E & Hm & ->). cbn [andb] in *.
  rewrite Z.add_0_r in *. done.
Qed.

(** [uint256] values: 32 bytes. *)

Definition is_u256 (u : list Z) : Prop := bytes u /\ length u = 32%nat.

Definition limit_val (P : Params) : Z := le_val (powLimit P).

Lemma limit_wf P : is_u256 (powLimit P) ->
  wf (UintToArith256 (powLimit P)) /\ val (UintToArith256 (powLimit P)) = limit_val P.
Proof. intros []. by apply UintToArith256_spec. Qed.

(** A compact target that passes the range check of [CheckProofOfWork], the lower bound apart. *)

Definition target_ok (P : Params) (bits : Z) : Prop :=
  0 <= bits < 2 ^ 32 /\ Z.testbit bits 23 = false /\ compact_value bits <= limit_val P.

Lemma limit_lt P : is_u256 (powLimit P) -> limit_val P < 2 ^ 256.
Proof. intros [Hb Hl]. pose proof (le_val_bound _ Hb) as H. rewrite Hl in H. apply H. Qed.

Lemma set_compact_spec P bits : is_u256 (powLimit P) -> target_ok P bits ->
  wf (set_compact bits) /\ val (set_compact bits) = compact_value bits.
Proof.
  intros HP (Hb & _ & Ht). pose proof (SetCompact_spec bits Hb) as S. unfold set_compact.
  destruct (SetCompact bits) as [[t n] o]. destruct S as (W & V & _). split; [done|].
  pose proof (limit_lt P HP). pose proof (compact_value_nonneg bits Hb). cbn [fst].
  rewrite V, Z.mod_small by lia. done.
Qed.

(** The clamped code of a target. *)

Lemma clamp_to_limit P t : is_u256 (powLimit P) -> wf t ->
  GetCompact0 (if gt t (UintToArith256 (powLimit P)) then UintToArith256 (powLimit P) else t) =
    Some (compact_code (Z.min (val t) (limit_val P))) /\
  target_ok P (compact_code (Z.min (val t) (limit_val P))).
Proof.
  intros HP Ht. destruct (limit_wf P HP) as [Wl Vl]. rewrite gt_spec, Vl by done.
  set (r := if limit_val P <? val t then UintToArith256 (powLimit P) else t).
  assert (wf r /\ val r = Z.min (val t) (limit_val P)) as [Wr Vr].
  { unfold r. destruct (Z.ltb_spec (limit_val P) (val t)); (split; [done | lia]). }
  destruct (GetCompact0_spec r Wr) as [E R]. rewrite <- Vr. split; [done|].
  pose proof (val_wf_bound r Wr) as Br. destruct (compact_code_value (val r) ltac:(lia)) as (T & C & _).
  split_and!; [lia | lia | done | lia].
Qed.

Lemma limit_code P : is_u256 (powLimit P) ->
  GetCompact0 (UintToArith256 (powLimit P)) = Some (compact_code (limit_val P)) /\ target_ok P (compact_code (limit_val P)).
Proof.
  intros HP. destruct (limit_wf P HP) as [W V]. destruct (clamp_to_limit P _ HP W) as [E T].
  rewrite V, Z.min_id in *. by destruct (gt _ _).
Qed.

Lemma CheckProofOfWork_spec hash bits P :
  is_u256 hash -> is_u256 (powLimit P) -> 0 <= bits < 2 ^ 32 ->
  CheckProofOfWork hash bits P = true <->
  Z.testbit bits 23 = false /\ 0 < compact_value bits <= limit_val P /\ le_val hash <= compact_value bits.
Proof.
  intros [Hh1 Hh2] HP Hb. destruct (limit_wf P HP) as [Wl Vl]. pose proof (limit_lt P HP).
  destruct (UintToArith256_spec hash Hh1 Hh2) as [Wh Vh]. pose proof (compact_value_nonneg bits Hb).
  pose proof (SetCompact_spec bits Hb) as S. unfold CheckProofOfWork.
  destruct (SetCompact bits) as [[t n] o]. destruct S as (Wt & Vt & -> & N).
  rewrite EqualTo_0, !gt_spec, Vl, Vh by done.
  destruct (Z.leb_spec (2 ^ 256) (compact_value bits)) as [Hbig|Hsmall].
  { rewrite orb_true_r. cbn [orb]. split; [done | lia]. }
  rewrite Z.mod_small in Vt by lia. rewrite Vt, orb_false_r.
  destruct n; cbn [orb].
  { split; [done|]. intros (T & ? & _). destruct N as [N _]. destruct (N eq_refl). congruence. }
  destruct (Z.eqb_spec (compact_value bits) 0) as [E0|E0]; cbn [orb]; [split; [done | lia]|].
  destruct (Z.ltb_spec (limit_val P) (compact_value bits)); [split; [done | lia]|].
  destruct (Z.ltb_spec (compact_value bits) (le_val hash)); [split; [done | lia]|].
  split; [intros _ | done]. split; [|lia]. destruct (Z.testbit bits 23); [|done].
  by destruct N as [_ N]; destruct (N (conj eq_refl E0)).
Qed.

(** C35. [CheckProofOfWork] accepts a hash exactly when the compact target is positive, does not
    exceed the proof-of-work limit, and the hash, read as a little-endian number, does not exceed
    the target. *)
Theorem CheckProofOfWork_correct hash bits P :
  is_u256 hash -> is_u256 (powLimit P) -> 0 <= bits < 2 ^ 32 ->
  CheckProofOfWork hash bits P = true <->
  Z.testbit bits 23 = false /\ 0 < compact_value bits <= limit_val P /\ le_val hash <= compact_value bits.
Proof. apply CheckProofOfWork_spec. Qed.

(** The proof-of-work parameters of a network that retargets. *)

Record params_ok (P : Params) : Prop := {
  ok_limit : is_u256 (powLimit P);
  ok_spacing : 0 < nPowTargetSpacing P;
  ok_interval : 147 * nPowTargetSpacing P <= nPowTargetTimespan P;
  ok_timespan : nPowTargetTimespan P * 4 < 2 ^ 32;
  ok_limit_room : limit_val P * (nPowTargetTimespan P * 4) < 2 ^ 256;
  ok_limit_max : limit_val P < 2 ^ 254
}.

(** The targets of stored blocks: they passed [CheckProofOfWork]. *)

Definition targets_ok (h : heap) (P : Params) : Prop :=
  forall p b, h !! p = Some b -> target_ok P (nBits b) /\ 0 < compact_value (nBits b).

Lemma clamp_timespan_spec P t : 0 < nPowTargetTimespan P ->
  clamp_timespan P t = Z.max (nPowTargetTimespan P / 4) (Z.min (nPowTargetTimespan P * 4) t).
Proof.
  intros Hp. unfold clamp_timespan. rewrite Z.quot_div_nonneg by lia.
  assert (nPowTargetTimespan P / 4 <= nPowTargetTimespan P * 4) by (apply Z.div_le_upper_bound; lia).
  destruct (Z.ltb_spec t (nPowTargetTimespan P / 4)).
  - rewrite (proj2 (Z.ltb_ge _ _)) by lia. lia.
  - destruct (Z.ltb_spec (nPowTargetTimespan P * 4) t); lia.
Qed.

Lemma CalculateNextWorkRequired_spec b first P : params_ok P -> target_ok P (nBits b) -> fPowNoRetargeting P = false ->
  let span := Z.max (nPowTargetTimespan P / 4) (Z.min (nPowTargetTimespan P * 4) (nTime b - first)) in
  let bits := compact_code (Z.min (compact_value (nBits b) * span / nPowTargetTimespan P) (limit_val P)) in
  CalculateNextWorkRequired b first P = Some bits /\ target_ok P bits.
Proof.
  intros [L1 L2 L3 L4 L5 L6] Hb Hn. cbn zeta. unfold CalculateNextWorkRequired. rewrite Hn.
  rewrite clamp_timespan_spec by lia. set (span := Z.max _ _).
  destruct (set_compact_spec P _ L1 Hb) as [Ws Vs].
  assert (0 <= nPowTargetTimespan P / 4 <= nPowTargetTimespan P * 4).
  { split; [apply Z.div_pos; lia | apply Z.div_le_upper_bound; lia]. }
  assert (0 <= span <= nPowTargetTimespan P * 4) as Hspan by lia.
  unfold u32, u64. rewrite !Z.mod_small by lia.
  destruct (mul32_spec _ span Ws) as [Wm Vm]; [unfold is_word; lia|].
  destruct (of_u64_spec (nPowTargetTimespan P)) as [Wt Vt]; [lia|].
  pose proof (div_spec _ _ Wm Wt) as D. rewrite Vt, Vm, Vs in D.
  destruct Hb as (Hr & _ & Hle). pose proof (compact_value_nonneg _ Hr).
  rewrite Z.mod_small in D by nia. destruct (div _ _) as [q|]; [|lia]. destruct D as (_ & Wq & Vq).
  cbn [mbind option_bind]. rewrite <- Vq. by apply clamp_to_limit.
Qed.

(** The legacy retarget multiplies the target by the time the interval took, limited to a factor
    of four either way, over the time it should have taken, caps it at the proof-of-work limit and
    encodes it. *)
Theorem CalculateNextWorkRequired_correct b first P :
  params_ok P -> target_ok P (nBits b) -> fPowNoRetargeting P = false ->
  let span := Z.max (nPowTargetTimespan P / 4) (Z.min (nPowTargetTimespan P * 4) (nTime b - first)) in
  let bits := compact_code (Z.min (compact_value (nBits b) * span / nPowTargetTimespan P) (limit_val P)) in
  CalculateNextWorkRequired b first P = Some bits /\ target_ok P bits.
Proof. apply CalculateNextWorkRequired_spec. Qed.

(** ** The median of three *)

Lemma swap_if_later_spec x y x' y' : swap_if_later x y = (x', y') ->
  nTime (snd x') <= nTime (snd y') /\ (x' = x /\ y' = y \/ x' = y /\ y' = x).
Proof. unfold swap_if_later. case_match eqn:E; intros [= <- <-]; lia || (split; [lia | tauto]). Qed.

(** [r] is among the last three blocks of the chain of [p], and its time is the median of theirs. *)

Definition median_of_three (h : heap) (p r : ptr) : Prop :=
  exists p1 p0 b2 b1 b0 br k, h !! p = Some b2 /\ h !! p1 = Some b1 /\ h !! p0 = Some b0 /\ h !! r = Some br /\
    walk h 1 p = Some p1 /\ walk h 2 p = Some p0 /\ walk h k p = Some r /\ (k <= 2)%nat /\
    exists lo hi, Permutation [lo; nTime br; hi] [nTime b0; nTime b1; nTime b2] /\ lo <= nTime br <= hi.

Lemma GetSuitableBlock_spec h p b : tree_ok h -> h !! p = Some b -> 3 <= nHeight b ->
  exists r, GetSuitableBlock h p = Some r /\ median_of_three h p r.
Proof.
  intros Ht Hp Hh. unfold GetSuitableBlock. bind_step Hp.
  rewrite (proj2 (Z.ltb_ge _ _)) by lia. destruct (Ht p b Hp) as [_ H1].
  destruct (pprev b) as [p1|] eqn:E1; [|lia]. destruct H1 as (b1 & Hb1 & Eh1 & _).
  cbn [mbind option_bind]. bind_step Hb1. destruct (Ht p1 b1 Hb1) as [_ H0].
  destruct (pprev b1) as [p0|] eqn:E0; [|lia]. destruct H0 as (b0 & Hb0 & Eh0 & _).
  cbn [mbind option_bind]. bind_step Hb0.
  destruct (swap_if_later (p0, b0) (p, b)) as [x0 x2] eqn:S1.
  destruct (swap_if_later x0 (p1, b1)) as [y0 y1] eqn:S2.
  destruct (swap_if_later y1 x2) as [z1 z2] eqn:S3.
  apply swap_if_later_spec in S1 as [O1 C1], S2 as [O2 C2], S3 as [O3 C3].
  exists (fst z1). split; [done|].
  assert (walk h 1 p = Some p1) as W1 by (cbn [walk]; by rewrite Hp, E1).
  assert (walk h 2 p = Some p0) as W0 by (cbn [walk]; by rewrite Hp, E1, Hb1, E0).
  assert (nTime (snd y0) <= nTime (snd z1)) as O4.
  { destruct C1 as [[-> ->]|[-> ->]], C2 as [[-> ->]|[-> ->]], C3 as [[-> ->]|[-> ->]]; cbn [fst snd] in *; lia. }
  assert (Permutation [nTime (snd y0); nTime (snd z1); nTime (snd z2)] [nTime b0; nTime b1; nTime b]) as HP.
  { destruct C1 as [[-> ->]|[-> ->]], C2 as [[-> ->]|[-> ->]], C3 as [[-> ->]|[-> ->]]; cbn [fst snd]; solve_Permutation. }
  assert (exists k, h !! fst z1 = Some (snd z1) /\ walk h k p = Some (fst z1) /\ (k <= 2)%nat) as (k & Hz & Wk & Hk).
  { assert (z1 = (p, b) \/ z1 = (p1, b1) \/ z1 = (p0, b0)) as [->|[->| ->]]
      by (destruct C1 as [[-> ->]|[-> ->]], C2 as [[-> ->]|[-> ->]], C3 as [[-> ->]|[-> ->]]; tauto).
    - by exists 0%nat; auto.
    - by exists 1%nat; auto.
    - by exists 2%nat; auto. }
  exists p1, p0, b, b1, b0, (snd z1), k. split_and!; [done.. |].
  exists (nTime (snd y0)), (nTime (snd z2)). split; [done | lia].
Qed.

(** ** Work between two blocks of a chain *)

Lemma chain_work_nonneg h n p : (forall q b, h !! q = Some b -> 0 <= proof_value (nBits b)) -> 0 <= chain_work h n p.
Proof.
  intros Hm. revert p. induction n as [|n IH]; intros p; [done|]. cbn [chain_work].
  destruct (h !! p) as [b|] eqn:Hp; [|done]. pose proof (Hm p b Hp). destruct (pprev b) as [q|]; [|lia].
  pose proof (IH q). lia.
Qed.

Lemma chain_work_walk h m k p b q bq : tree_ok h -> (forall r c, h !! r = Some c -> m <= proof_value (nBits c)) ->
  h !! p = Some b -> walk h k p = Some q -> h !! q = Some bq ->
  chain_work h (S (Z.to_nat (nHeight bq))) q + Z.of_nat k * m <= chain_work h (S (Z.to_nat (nHeight b))) p.
Proof.
  intros Ht Hm. revert p b. induction k as [|k IH]; intros p b Hp Hw Hq.
  { injection Hw as ->. rewrite Hp in Hq. injection Hq as ->. lia. }
  cbn [walk] in Hw. rewrite Hp in Hw. destruct (Ht p b Hp) as [_ H1].
  destruct (pprev b) as [r|] eqn:Eb; [|done]. destruct H1 as (br & Hr & Eh & _).
  assert (forall n, chain_work h (S n) p = proof_value (nBits b) + chain_work h n r) as ->
    by (intros n; cbn [chain_work]; by rewrite Hp, Eb).
  specialize (IH r br Hr Hw Hq). pose proof (proj1 (Ht r br Hr)). pose proof (Hm p b Hp).
  replace (Z.to_nat (nHeight b)) with (S (Z.to_nat (nHeight br))) by lia. lia.
Qed.

Lemma proof_value_min P bits : params_ok P -> target_ok P bits -> 0 < compact_value bits -> 4 <= proof_value bits.
Proof.
  intros [L1 L2 L3 L4 L5 L6] (Hr & Hs & Hle) Hpos. unfold proof_value. rewrite Hs.
  rewrite (proj2 (Z.eqb_neq _ _)), (proj2 (Z.leb_gt _ _)) by lia. cbn [orb].
  apply Z.div_le_lower_bound; lia.
Qed.

(** The work of an entry, read off the chain when the total work does not wrap. *)

Definition work_of (h : heap) (p : ptr) (b : CBlockIndex) : Z := chain_work h (S (Z.to_nat (nHeight b))) p.

Lemma clamp_work_timespan_spec P t : 0 < nPowTargetSpacing P ->
  clamp_work_timespan P t = Z.max (72 * nPowTargetSpacing P) (Z.min (288 * nPowTargetSpacing P) t).
Proof.
  intros. unfold clamp_work_timespan.
  destruct (Z.ltb_spec (288 * nPowTargetSpacing P) t), (Z.ltb_spec t (72 * nPowTargetSpacing P)); lia.
Qed.

(** The work per block the two blocks project for the next block, and the target that needs it. *)

Definition projected_work (h : heap) (P : Params) (f l : ptr) (bf bl : CBlockIndex) : Z :=
  (work_of h l bl - work_of h f bf) * nPowTargetSpacing P /
  Z.max (72 * nPowTargetSpacing P) (Z.min (288 * nPowTargetSpacing P) (nTime bl - nTime bf)).

Lemma ComputeTarget_spec h P f l bf bl k : params_ok P -> block_tree h -> targets_ok h P ->
  h !! f = Some bf -> h !! l = Some bl -> walk h k l = Some f -> (72 <= k)%nat ->
  work_of h l bl * nPowTargetSpacing P < 2 ^ 256 ->
  let W := projected_work h P f l bf bl in
  0 < W /\ exists t, ComputeTarget bf bl P = Some t /\ wf t /\ val t = 2 ^ 256 / W - 1.
Proof.
  intros HP Ht Hok Hf Hl Hw Hk Hno. cbn zeta. pose proof (block_tree_ok h Ht) as Htr.
  assert (forall r c, h !! r = Some c -> 4 <= proof_value (nBits c)) as Hmin.
  { intros r c Hr. destruct (Hok r c Hr). by apply (proof_value_min P). }
  destruct HP as [L1 L2 L3 L4 L5 L6].
  destruct (block_tree_work h Ht f bf Hf) as (Wf & _ & _ & Vf).
  destruct (block_tree_work h Ht l bl Hl) as (Wl & _ & _ & Vl). fold (work_of h f bf) in Vf. fold (work_of h l bl) in Vl.
  pose proof (chain_work_walk h 4 k l bl f bf Htr Hmin Hl Hw Hf) as Hd.
  fold (work_of h f bf) (work_of h l bl) in Hd.
  assert (0 <= work_of h f bf) as H0. { apply chain_work_nonneg. intros q c Hq. pose proof (Hmin q c Hq). lia. }
  rewrite Z.mod_small in Vf, Vl by nia. pose proof (walk_back h l bl k f bf Htr Hl Hw Hf) as Hheight.
  unfold ComputeTarget, projected_work. rewrite (proj2 (Z.leb_gt _ _)) by lia.
  rewrite clamp_work_timespan_spec by done. set (span := Z.max _ _).
  assert (72 * nPowTargetSpacing P <= span <= 288 * nPowTargetSpacing P) as Hspan by lia.
  set (D := work_of h l bl - work_of h f bf) in *.
  destruct (sub_spec _ _ Wl Wf) as [Ws Vs]. rewrite Vl, Vf in Vs. fold D in Vs.
  rewrite Z.mod_small in Vs by nia. unfold u32, u64. rewrite !Z.mod_small by lia.
  destruct (mul32_spec _ (nPowTargetSpacing P) Ws) as [Wm Vm]; [unfold is_word; lia|].
  rewrite Vs, Z.mod_small in Vm by nia. destruct (of_u64_spec span) as [Wt Vt]; [lia|].
  pose proof (div_spec _ _ Wm Wt) as HD. rewrite Vt, Vm in HD.
  assert (0 < D * nPowTargetSpacing P / span) as HW.
  { apply Z.div_str_pos. nia. }
  split; [done|]. destruct (div _ _) as [w|]; [|lia]. destruct HD as (_ & Ww & Vw). cbn [mbind option_bind].
  pose proof (val_wf_bound w Ww) as Bw. rewrite <- Vw in *.
  destruct (neg_spec w Ww) as [Wn Vn]. pose proof (div_spec _ _ Wn Ww) as HE.
  destruct (div (neg w) w) as [t|]; [|lia]. destruct HE as (_ & Wt' & Vt'). exists t. split_and!; [done..|].
  rewrite Vt', Vn. replace (- val w) with (2 ^ 256 - val w + (-1) * 2 ^ 256) by lia.
  rewrite Z.mod_add, Z.mod_small by lia. replace (2 ^ 256 - val w) with (2 ^ 256 + (-1) * val w) by lia.
  rewrite Z.div_add by lia. lia.
Qed.

Lemma interval_ok P : params_ok P ->
  exists n, DifficultyAdjustmentInterval P = Some n /\ 147 <= n < 2 ^ 31 /\ n = nPowTargetTimespan P / nPowTargetSpacing P.
Proof.
  intros [L1 L2 L3 L4 L5 L6]. unfold DifficultyAdjustmentInterval.
  rewrite (proj2 (Z.eqb_neq _ _)), Z.quot_div_nonneg by lia. eexists. split_and!; [done | | | done].
  - apply Z.div_le_lower_bound; lia.
  - apply Z.div_lt_upper_bound; nia.
Qed.

Lemma GetNextCashWorkRequired_spec h p b pblock P : params_ok P -> block_tree h -> targets_ok h P -> h !! p = Some b ->
  nPowTargetTimespan P / nPowTargetSpacing P <= nHeight b ->
  fPowAllowMinDifficultyBlocks P && (nTime b + 2 * nPowTargetSpacing P <? hdr_nTime pblock) = false ->
  work_of h p b * nPowTargetSpacing P < 2 ^ 256 ->
  exists l f a bl bf, median_of_three h p l /\ walk h 144 p = Some a /\ median_of_three h a f /\
    h !! l = Some bl /\ h !! f = Some bf /\
    let W := projected_work h P f l bf bl in
    let bits := compact_code (Z.min (2 ^ 256 / W - 1) (limit_val P)) in
    0 < W /\ GetNextCashWorkRequired h p pblock P = Some bits /\ target_ok P bits.
Proof.
  intros HP Ht Hok Hp Hh Hnm Hno. pose proof (block_tree_ok h Ht) as Htr.
  destruct (interval_ok P HP) as (n & En & Hn & Eq). rewrite <- Eq in Hh.
  destruct (GetSuitableBlock_spec h p b Htr Hp ltac:(lia)) as (l & El & Ml).
  destruct (GetAncestor_walk h p b (nHeight b - 144) Htr Hp ltac:(lia)) as (a & ba & Ea & Wa & Ha & Eha).
  replace (Z.to_nat (nHeight b - (nHeight b - 144))) with 144%nat in Wa by lia.
  destruct (GetSuitableBlock_spec h a ba Htr Ha ltac:(lia)) as (f & Ef & Mf).
  pose proof Ml as (_ & _ & _ & _ & _ & bl & kl & _ & _ & _ & Hl & _ & _ & Wl & Hkl & _).
  pose proof Mf as (_ & _ & _ & _ & _ & bf & kf & _ & _ & _ & Hf & _ & _ & Wf & Hkf & _).
  exists l, f, a, bl, bf. split_and!; [done.. |]. cbn zeta.
  assert (walk h (144 + kf - kl) l = Some f) as Wlf.
  { rewrite <- (walk_plus h kl _ p l Wl). replace (kl + _)%nat with (144 + kf)%nat by lia.
    by rewrite (walk_plus h 144 kf p a Wa). }
  assert (work_of h l bl <= work_of h p b) as Hle.
  { pose proof (chain_work_walk h 0 kl p b l bl Htr) as Hw. unfold work_of. rewrite <- (Z.add_0_r (chain_work h _ l)).
    replace 0 with (Z.of_nat kl * 0) by lia. apply Hw; [|done..].
    intros r c Hr. destruct (Hok r c Hr). pose proof (proof_value_min P (nBits c) HP ltac:(done) ltac:(done)). lia. }
  pose proof (ok_spacing P HP).
  destruct (ComputeTarget_spec h P f l bf bl (144 + kf - kl)) as (HW & t & Et & Wt & Vt); [done.. | lia | nia |].
  split; [done|]. unfold GetNextCashWorkRequired. bind_step Hp. rewrite Hnm, En.
  cbn [mbind option_bind]. rewrite (proj2 (Z.ltb_ge _ _)) by lia. bind_step El.
  bind_step Hl. bind_step Ea. bind_step Ef.
  bind_step Hf. bind_step Et. rewrite <- Vt.
  apply clamp_to_limit; [by apply ok_limit | done].
Qed.

(** ** Every required target is within the limit *)

Lemma min_difficulty_loop_spec h P interval limit p b fuel : tree_ok h -> targets_ok h P -> h !! p = Some b ->
  nHeight b < Z.of_nat fuel -> exists bits, min_difficulty_loop h fuel interval limit p = Some bits /\ target_ok P bits.
Proof.
  intros Ht Hok. revert p b. induction fuel as [|fuel IH]; intros p b Hp Hf.
  { pose proof (proj1 (Ht p b Hp)). lia. }
  cbn [min_difficulty_loop]. rewrite Hp. pose proof (proj1 (Hok p b Hp)). destruct (Ht p b Hp) as [_ H1].
  destruct (pprev b) as [q|]; [|by eexists]. destruct (_ && _); [|by eexists].
  destruct H1 as (bq & Hq & Eh & _). apply (IH q bq Hq). lia.
Qed.

Lemma GetMedianTimePast_total h p b : h !! p = Some b -> exists t, GetMedianTimePast h p = Some t.
Proof.
  intros Hp. unfold GetMedianTimePast. cbn [nMedianTimeSpan collect_times]. rewrite Hp.
  set (l := nTime b :: _). assert (0 < length l)%nat as Hl by (subst l; cbn [length]; lia).
  apply lookup_lt_is_Some_2. rewrite merge_sort_Permutation. apply Nat.div_lt; lia.
Qed.

Lemma GetNextEDAWorkRequired_spec h p b pblock P : params_ok P -> fPowNoRetargeting P = false ->
  block_tree h -> targets_ok h P -> h !! p = Some b -> nHeight b + 1 < 2 ^ 31 ->
  6 <= nHeight b \/ nBits b = compact_code (limit_val P) ->
  exists bits, GetNextEDAWorkRequired h p pblock P = Some bits /\ target_ok P bits.
Proof.
  intros HP Hno Ht Hok Hp Hmax Hsix. pose proof (block_tree_ok h Ht) as Htr. pose proof (proj1 (Htr p b Hp)) as H0.
  destruct (interval_ok P HP) as (n & En & Hn & _). destruct (limit_code P (ok_limit P HP)) as [El Tl].
  pose proof (proj1 (Hok p b Hp)) as Tb.
  unfold GetNextEDAWorkRequired. bind_step Hp. bind_step En. rewrite (proj2 (Z.eqb_neq _ _)) by lia.
  destruct (Z.eqb_spec (Z.rem (nHeight b + 1) n) 0) as [Er|_].
  - rewrite Z.rem_mod_nonneg in Er by lia. apply Z.mod_divide in Er as [k Ek]; [|lia].
    assert (n <= nHeight b + 1) as Hge by (assert (1 <= k) by nia; nia).
    rewrite (proj2 (Z.ltb_ge _ _)) by lia.
    assert (i32 (nHeight b + 1 - n) = nHeight b + 1 - n) as -> by (unfold i32; rewrite Z.mod_small; lia).
    destruct (GetAncestor_walk h p b (nHeight b + 1 - n) Htr Hp ltac:(lia)) as (a & ba & Ea & _ & Ha & _).
    bind_step Ea. bind_step Ha. destruct (CalculateNextWorkRequired_spec b (nTime ba) P HP Tb Hno). by eexists.
  - bind_step El. destruct (fPowAllowMinDifficultyBlocks P).
    { destruct (_ <? _); [by eexists|]. apply (min_difficulty_loop_spec h P _ _ p b); [done.. | lia]. }
    destruct (Z.eqb_spec (nBits b) (compact_code (limit_val P))) as [Eb|Eb]; [by eexists|].
    destruct (GetAncestor_walk h p b (nHeight b + 1 - 7) Htr Hp ltac:(lia)) as (a & ba & Ea & _ & Ha & _).
    bind_step Ea. destruct (GetMedianTimePast_total h p b Hp) as [t1 E1].
    destruct (GetMedianTimePast_total h a ba Ha) as [t2 E2]. bind_step E1. bind_step E2.
    destruct (_ <? _); [by eexists|].
    destruct (set_compact_spec P _ (ok_limit P HP) Tb) as [Ws _].
    eexists. apply clamp_to_limit; [by apply ok_limit|]. apply add_wf; [done|]. apply shr_spec; [done | lia].
Qed.

(** C34. The difficulty algorithm in force: for a block above the first interval,
    [GetNextCashWorkRequired] takes the median-time blocks among the last three of the chain and of
    the chain 144 blocks earlier, divides the work between them, scaled to the target spacing, by the
    time between them (bounded to 72 and 288 spacings) to a positive work [W], and returns the
    compact code of the target 2^256 / W - 1, capped at the proof-of-work limit; no assertion fails
    and no division by zero is thrown. *)
Theorem GetNextCashWorkRequired_correct h p b pblock P :
  params_ok P -> block_tree h -> targets_ok h P -> h !! p = Some b ->
  nPowTargetTimespan P / nPowTargetSpacing P <= nHeight b ->
  fPowAllowMinDifficultyBlocks P && (nTime b + 2 * nPowTargetSpacing P <? hdr_nTime pblock) = false ->
  work_of h p b * nPowTargetSpacing P < 2 ^ 256 ->
  exists l f a bl bf, median_of_three h p l /\ walk h 144 p = Some a /\ median_of_three h a f /\
    h !! l = Some bl /\ h !! f = Some bf /\
    let W := projected_work h P f l bf bl in
    let bits := compact_code (Z.min (2 ^ 256 / W - 1) (limit_val P)) in
    0 < W /\ GetNextCashWorkRequired h p pblock P = Some bits /\ target_ok P bits.
Proof. apply GetNextCashWorkRequired_spec. Qed.

(** On every chain of blocks with valid targets, [GetNextWorkRequired] returns a target that is
    not negative and does not exceed the proof-of-work limit, in every regime: genesis, no
    retargeting, the legacy and emergency rules, the testnet rule and the difficulty algorithm. *)
Theorem GetNextWorkRequired_within_limit h prev pblock P :
  params_ok P -> block_tree h -> targets_ok h P ->
  match prev with
  | None => True
  | Some p => exists b, h !! p = Some b /\ nHeight b + 1 < 2 ^ 31 /\
      (if IsDAAEnabled P (nHeight b) then
         nPowTargetTimespan P / nPowTargetSpacing P <= nHeight b /\ work_of h p b * nPowTargetSpacing P < 2 ^ 256
       else 6 <= nHeight b \/ nBits b = compact_code (limit_val P))
  end ->
  exists bits, GetNextWorkRequired h prev pblock P = Some bits /\ target_ok P bits.
Proof.
  intros HP Ht Hok Hprev. destruct (limit_code P (ok_limit P HP)) as [El Tl]. unfold GetNextWorkRequired.
  destruct prev as [p|]; [|by eexists]. destruct Hprev as (b & Hp & Hmax & Hreg). bind_step Hp.
  destruct (fPowNoRetargeting P) eqn:En; [eexists; split; [done | by apply (Hok p)]|].
  destruct (IsDAAEnabled P (nHeight b)).
  - destruct Hreg as [Hi Hw].
    destruct (fPowAllowMinDifficultyBlocks P && (nTime b + 2 * nPowTargetSpacing P <? hdr_nTime pblock)) eqn:Em.
    { unfold GetNextCashWorkRequired. bind_step Hp. rewrite Em. by eexists. }
    destruct (GetNextCashWorkRequired_spec h p b pblock P) as (l & f & a & bl & bf & _ & _ & _ & _ & _ & _ & E & T);
      [done..|]. by eexists.
  - by apply (GetNextEDAWorkRequired_spec h p b).
Qed.

(** ** A chain for the witnesses

    [long_chain n] stores [n + 1] blocks, one after the other, block [i] at address [i + 1]. *)

Definition long_header (i : nat) : CBlockHeader :=
  {| hdr_nVersion := 1; hdr_hashPrevBlock := []; hdr_hashMerkleRoot := [];
     hdr_nTime := 1000 + 600 * Z.of_nat i; hdr_nBits := 0x1c7fff00; hdr_nNonce := 0 |}.

Fixpoint long_chain (n : nat) : heap :=
  match n with
  | O => add_block (Pos.of_succ_nat O) (long_header O) None 0 ∅
  | S m => add_block (Pos.of_succ_nat n) (long_header n) (Some (Pos.of_succ_nat m)) 0 (long_chain m)
  end.

Definition wit_params : Params :=
  {| daaHeight := 147; powLimit := le_bytes 32 (2 ^ 224 - 1); fPowAllowMinDifficultyBlocks := false;
     fPowNoRetargeting := false; nPowTargetSpacing := 600; nPowTargetTimespan := 147 * 600 |}.

Lemma wit_params_ok : params_ok wit_params.
Proof.
  assert (limit_val wit_params = 2 ^ 224 - 1) as E by reflexivity.
  split; rewrite ?E; try (cbn; lia). split; [apply le_bytes_bytes | apply length_le_bytes].
Qed.

Lemma long_chain_ok n : Z.of_nat n < 1000000 ->
  block_tree (long_chain n) /\
  (forall p b, long_chain n !! p = Some b -> nBits b = 0x1c7fff00 /\ (p <= Pos.of_succ_nat n)%positive) /\
  exists b, long_chain n !! Pos.of_succ_nat n = Some b /\ nHeight b = Z.of_nat n /\ nTime b = hdr_nTime (long_header n).
Proof.
  assert (forall i, Z.of_nat i < 1000000 -> header_range (long_header i)) as Hr.
  { intros i Hi. split; cbn [hdr_nTime hdr_nBits long_header]; lia. }
  induction n as [|n IH]; intros Hn.
  - unfold long_chain, add_block.
    destruct (new_CBlockIndex_total ∅ (long_header 0) None 0) as [b Eb]; [done | apply Hr; lia | done |].
    rewrite Eb. destruct (new_CBlockIndex_ok ∅ _ _ _ b ltac:(done) Eb) as ((B0 & B1) & Ep & Et & Ebits & _).
    rewrite Ep in B1. destruct B1 as [B1 _]. split_and!.
    + apply (tree_add ∅ (long_header 0) None 0); [apply tree_empty | done | apply Hr; lia | done].
    + intros p c. rewrite lookup_insert_Some, lookup_empty. intros [[<- <-]|[_ ?]]; [|done]. by rewrite Ebits.
    + exists b. rewrite lookup_insert_eq. done.
  - destruct (IH ltac:(lia)) as (I1 & I2 & bn & I3 & I4 & _). clear IH.
    pose proof (block_tree_ok _ I1) as Htr. cbn [long_chain]. set (h := long_chain n) in *. unfold add_block.
    destruct (new_CBlockIndex_total h (long_header (S n)) (Some (Pos.of_succ_nat n)) 0) as [b Eb];
      [done | by apply Hr | by intros q [= <-] |].
    rewrite Eb. destruct (new_CBlockIndex_ok h _ _ _ b Htr Eb) as ((B0 & B1) & Ep & Et & Ebits & _).
    rewrite Ep in B1. destruct B1 as (bq & Hq & Eh & _). assert (h !! Pos.of_succ_nat (S n) = None) as Hfresh.
    { destruct (h !! Pos.of_succ_nat (S n)) as [c|] eqn:E; [|done]. apply I2 in E as [_ E]. lia. }
    split_and!.
    + apply (tree_add h (long_header (S n)) (Some (Pos.of_succ_nat n)) 0); [done | done | by apply Hr | done].
    + intros p c. rewrite lookup_insert_Some. intros [[<- <-]|[_ Hc]]; [by rewrite Ebits|].
      apply I2 in Hc as [? ?]. split; [done | lia].
    + exists b. rewrite lookup_insert_eq. split_and!; [done | | done]. pose proof (eq_trans (eq_sym Hq) I3) as E. injection E as ->. lia.
Qed.

Lemma long_chain_targets n : Z.of_nat n < 1000000 -> targets_ok (long_chain n) wit_params.
Proof.
  intros Hn p b Hp. destruct (long_chain_ok n Hn) as (_ & H & _). destruct (H p b Hp) as [-> _].
  split; [split; [lia|split; [reflexivity|]]|]; vm_compute; congruence.
Qed.

Lemma chain_work_max h n p m : 0 <= m -> (forall q b, h !! q = Some b -> proof_value (nBits b) <= m) ->
  chain_work h n p <= Z.of_nat n * m.
Proof.
  intros H0 Hm. revert p. induction n as [|n IH]; intros p; [done|]. cbn [chain_work].
  destruct (h !! p) as [b|] eqn:Hp; [|nia]. pose proof (Hm p b Hp). destruct (pprev b) as [q|]; [|nia].
  pose proof (IH q). nia.
Qed.

#[local] Opaque long_chain.

Lemma CheckProofOfWork_correct_witness :
  CheckProofOfWork (le_bytes 32 0x000000000019d6689c085ae165831e934ff763ae46a2a6c172b3f1b60a8ce26f) 0x1d00ffff
    wit_params = true.
Proof.
  apply CheckProofOfWork_correct; [split; [apply le_bytes_bytes | apply length_le_bytes] | apply wit_params_ok | lia |].
  split_and!; [reflexivity | reflexivity | vm_compute; discriminate | vm_compute; discriminate].
Defined.

Lemma CalculateNextWorkRequired_correct_witness :
  CalculateNextWorkRequired (demo_block 4%positive) 1000 wit_params = Some 0x1c3fffc0.
Proof.
  destruct (CalculateNextWorkRequired_correct (demo_block 4%positive) 1000 wit_params wit_params_ok) as [E _];
    [split_and!; vm_compute; (reflexivity || discriminate) | reflexivity |].
  rewrite E. vm_compute. reflexivity.
Defined.

Lemma long_chain_work n p b : Z.of_nat n < 1000000 -> long_chain n !! p = Some b -> nHeight b = Z.of_nat n ->
  work_of (long_chain n) p b * 600 < 2 ^ 256.
Proof.
  intros Hn Hp Hh. destruct (long_chain_ok n Hn) as (_ & H & _). unfold work_of. rewrite Hh, Nat2Z.id.
  pose proof (chain_work_max (long_chain n) (S n) p (2 ^ 64) ltac:(lia)) as Hw.
  assert (chain_work (long_chain n) (S n) p <= Z.of_nat (S n) * 2 ^ 64); [|lia].
  apply Hw. intros q c Hq. destruct (H q c Hq) as [-> _]. vm_compute. discriminate.
Qed.

Lemma GetNextCashWorkRequired_correct_witness : exists bits,
  GetNextCashWorkRequired (long_chain 150) (Pos.of_succ_nat 150) (long_header 151) wit_params = Some bits /\
  target_ok wit_params bits.
Proof.
  destruct (long_chain_ok 150 ltac:(lia)) as (Ht & _ & b & Hb & Hh & _).
  destruct (GetNextCashWorkRequired_correct (long_chain 150) (Pos.of_succ_nat 150) b (long_header 151) wit_params)
    as (l & f & a & bl & bf & _ & _ & _ & _ & _ & _ & E & T).
  - apply wit_params_ok.
  - exact Ht.
  - apply long_chain_targets. lia.
  - exact Hb.
  - rewrite Hh. vm_compute. discriminate.
  - reflexivity.
  - apply long_chain_work; [lia | exact Hb | exact Hh].
  - eexists. split; [exact E | exact T].
Defined.

Lemma GetNextWorkRequired_within_limit_witness : exists bits,
  GetNextWorkRequired (long_chain 10) (Some (Pos.of_succ_nat 10)) (long_header 11) wit_params = Some bits /\
  target_ok wit_params bits.
Proof.
  destruct (long_chain_ok 10 ltac:(lia)) as (Ht & _ & b & Hb & Hh & _).
  apply GetNextWorkRequired_within_limit.
  - apply wit_params_ok.
  - exact Ht.
  - apply long_chain_targets. lia.
  - exists b. split; [exact Hb|]. rewrite Hh. split; [reflexivity|]. left. lia.
Defined.
