(* ===== verification/IntSer.v ===== *)
(** * Script integers as byte strings

    [src/script/int_serialization.h]: the little-endian sign-magnitude encoding of script numbers,
    its minimal form and the function that makes an encoding minimal. *)

From S2P Require Import Prelude.

(** ** The source *)

Definition abs64 (value : Z) : Z := if value <? 0 then u64 (- u64 value) else u64 value.

Fixpoint serialize_loop (fuel : nat) (neg : bool) (absvalue : Z) : list Z :=
  match fuel with
  | O => []
  | S n =>
      if absvalue =? 0 then []
      else
        let tmp := Z.land absvalue 0xff in
        let absvalue := Z.shiftr absvalue 8 in
        if negb (absvalue =? 0) then tmp :: serialize_loop n neg absvalue
        else if negb (Z.land tmp 0x80 =? 0) then [tmp; if neg then 0x80 else 0]
        else [if neg then Z.lor tmp 0x80 else tmp]
  end.

(** [serialize<int64_t>]: the eight bytes of a [uint64_t] are consumed in at most eight rounds. *)

Definition serialize (value : Z) : list Z :=
  if value =? 0 then [] else serialize_loop 8 (value <? 0) (abs64 value).

(** [deserialize<int64_t>]; a shift by 64 bits or more is undefined ([None]), as is the empty range
    (the assertion). *)

Fixpoint deserialize_loop (l : list Z) (i result : Z) : option Z :=
  match l with
  | [] => Some result
  | b :: t =>
      if 64 <=? 8 * i then None
      else deserialize_loop t (i + 1) (Z.lor result (i64 (Z.shiftl b (8 * i))))
  end.

Definition deserialize (l : list Z) : option Z :=
  match list.last l with
  | None => None
  | Some b =>
      let d := Z.of_nat (length l) in
      result ← deserialize_loop (take (length l - 1) l) 0 0;
      if 8 <? d then Some result
      else
        let negative := negb (Z.land b 0x80 =? 0) in
        let tmp := if negative then Z.land b 0x7f else b in
        let result := Z.lor result (i64 (Z.shiftl tmp (8 * (d - 1)))) in
        Some (if negative then - result else result)
  end.

Definition byte_at (l : list Z) (i : nat) : Z := nth i l 0.

Definition IsMinimallyEncoded (span : list Z) (nMaxNumSize : Z) : bool :=
  let size := length span in
  if nMaxNumSize <? Z.of_nat size then false
  else if (0 <? size)%nat && (Z.land (byte_at span (size - 1)) 0x7f =? 0) &&
          ((size <=? 1)%nat || (Z.land (byte_at span (size - 2)) 0x80 =? 0))
  then false
  else true.

(** The loop of [MinimallyEncode] at index [i]. *)

Fixpoint trim_loop (data : list Z) (last : Z) (i : nat) : list Z :=
  match i with
  | O => []
  | S j =>
      if negb (byte_at data j =? 0) then
        if negb (Z.land (byte_at data j) 0x80 =? 0) then take (S i) (<[i := last]> data)
        else take i (<[j := Z.lor (byte_at data j) last]> data)
      else trim_loop data last j
  end.

(** Returns whether the data changed, and the data. *)

Definition MinimallyEncode (data : list Z) : bool * list Z :=
  let size := length data in
  if (size =? 0)%nat then (false, data)
  else
    let last := byte_at data (size - 1) in
    if negb (Z.land last 0x7f =? 0) then (false, data)
    else if (size =? 1)%nat then (true, [])
    else if negb (Z.land (byte_at data (size - 2)) 0x80 =? 0) then (false, data)
    else (true, trim_loop data last (size - 1)).

(** ** What an encoding denotes *)

Definition num_val (l : list Z) : Z :=
  match list.last l with
  | None => 0
  | Some b =>
      let m := le_val l in
      let top := 2 ^ (8 * Z.of_nat (length l) - 1) in
      if b <? 128 then m else top - m
  end.

(** Minimal: the magnitude does not fit in one byte less. *)

Definition minimal (l : list Z) : Prop := l = [] \/ 2 ^ (8 * Z.of_nat (length l - 1)) <= 2 * Z.abs (num_val l).

Lemma num_val_snoc l b : is_byte b -> num_val (l ++ [b]) =
  if b <? 128 then le_val l + b * 2 ^ (8 * Z.of_nat (length l))
  else - (le_val l + (b - 128) * 2 ^ (8 * Z.of_nat (length l))).
Proof.
  intros Hb. unfold num_val. rewrite last_snoc, le_val_app, length_app. cbn [le_val length].
  replace (8 * Z.of_nat (length l + 1) - 1) with (7 + 8 * Z.of_nat (length l)) by lia.
  rewrite Z.pow_add_r by lia. change (2 ^ 7) with 128. destruct (Z.ltb_spec b 128); lia.
Qed.

Lemma num_val_abs l b : bytes l -> is_byte b ->
  Z.abs (num_val (l ++ [b])) = le_val l + b mod 128 * 2 ^ (8 * Z.of_nat (length l)).
Proof.
  intros Hl Hb. rewrite num_val_snoc by done. pose proof (le_val_bound l Hl).
  pose proof (pow2_pos (8 * Z.of_nat (length l)) ltac:(lia)). rewrite (byte_mod_128 b Hb). unfold is_byte in Hb.
  destruct (Z.ltb_spec b 128); [apply Z.abs_eq; nia | rewrite Z.abs_opp; apply Z.abs_eq; nia].
Qed.

Lemma num_val_bound l : bytes l -> 2 * Z.abs (num_val l) < 2 ^ (8 * Z.of_nat (length l)) \/ l = [].
Proof.
  intros Hl. destruct l as [|b l _] using rev_ind; [by right|left].
  apply Forall_app in Hl as [Hl Hb]. rewrite Forall_singleton in Hb.
  rewrite num_val_abs, length_app by done. pose proof (le_val_bound l Hl).
  cbn [length]. replace (8 * Z.of_nat (length l + 1)) with (8 + 8 * Z.of_nat (length l)) by lia.
  rewrite Z.pow_add_r by lia. change (2 ^ 8) with 256.
  pose proof (Z.mod_pos_bound b 128 ltac:(lia)). nia.
Qed.

(** A number has one minimal encoding. *)

Lemma minimal_length l l' : bytes l -> bytes l' -> minimal l -> minimal l' -> num_val l = num_val l' ->
  length l = length l'.
Proof.
  assert (forall l l', bytes l -> bytes l' -> minimal l -> minimal l' -> num_val l = num_val l' ->
    (length l <= length l')%nat) as H.
  { clear l l'. intros l l' Hb Hb' Hm Hm' E. destruct (decide (length l <= length l')%nat) as [|Hgt]; [done|exfalso].
    destruct Hm as [->|Hm]; [cbn in Hgt; lia|]. rewrite E in Hm.
    destruct (num_val_bound l' Hb') as [Hn| ->].
    - pose proof (Z.pow_le_mono_r 2 (8 * Z.of_nat (length l')) (8 * Z.of_nat (length l - 1))). lia.
    - cbn in Hm. pose proof (pow2_pos (8 * Z.of_nat (length l - 1))). lia. }
  intros. apply Nat.le_antisymm; by apply H.
Qed.

Lemma minimal_unique l l' : bytes l -> bytes l' -> minimal l -> minimal l' -> num_val l = num_val l' -> l = l'.
Proof.
  intros Hb Hb' Hm Hm' E. pose proof (minimal_length l l' Hb Hb' Hm Hm' E) as Hlen.
  destruct l as [|b l _] using rev_ind; [by destruct l'|].
  destruct l' as [|b' l' _] using rev_ind; [rewrite length_app in Hlen; cbn in Hlen; lia|].
  destruct Hm as [?|Hm]; [by destruct l|]. clear Hm'. rewrite length_app in Hm. cbn [length] in Hm.
  apply Forall_app in Hb as [Hl Hbb], Hb' as [Hl' Hbb']. rewrite Forall_singleton in Hbb, Hbb'.
  rewrite num_val_abs in Hm by done. rewrite !num_val_snoc in E by done. rewrite !length_app in Hlen. cbn [length] in Hlen.
  assert (length l' = length l) as Hll by lia. rewrite Hll in *.
  pose proof (le_val_bound l Hl) as B. pose proof (le_val_bound l' Hl') as B'. rewrite Hll in B'.
  replace (length l + 1 - 1)%nat with (length l) in Hm by lia.
  set (w := 2 ^ (8 * Z.of_nat (length l))) in *. 
  assert (0 < le_val l + b mod 128 * w) by lia.
  pose proof (byte_mod_128 b Hbb) as Eb.
  assert (b = b' /\ le_val l = le_val l') as [-> Ev].
  { unfold is_byte in *. rewrite Eb in *. destruct (Z.ltb_spec b 128), (Z.ltb_spec b' 128).
    - by apply (digit_inj w).
    - nia.
    - nia.
    - destruct (digit_inj w (le_val l) (le_val l') (b - 128) (b' - 128)); lia. }
  f_equal. by apply le_val_inj.
Qed.

(** [IsMinimallyEncoded] tests exactly that. *)

Lemma byte_at_snoc l b : byte_at (l ++ [b]) (length (l ++ [b]) - 1) = b.
Proof. unfold byte_at. rewrite length_app. cbn [length]. rewrite app_nth2 by lia. by replace (_ - _)%nat with 0%nat by lia. Qed.

Lemma byte_at_snoc2 l c b : byte_at ((l ++ [c]) ++ [b]) (length ((l ++ [c]) ++ [b]) - 2) = c.
Proof.
  unfold byte_at. rewrite !length_app. cbn [length]. rewrite app_nth1 by (rewrite length_app; cbn [length]; lia).
  rewrite app_nth2 by lia. by replace (_ - _)%nat with 0%nat by lia.
Qed.

Lemma minimal_snoc l b : bytes l -> is_byte b ->
  minimal (l ++ [b]) <-> b mod 128 <> 0 \/ exists l' c, l = l' ++ [c] /\ 128 <= c.
Proof.
  intros Hl Hb. unfold minimal. rewrite length_app. cbn [length].
  replace (length l + 1 - 1)%nat with (length l) by lia. rewrite num_val_abs by done.
  pose proof (le_val_bound l Hl) as B. pose proof (Z.mod_pos_bound b 128 ltac:(lia)).
  pose proof (pow2_pos (8 * Z.of_nat (length l)) ltac:(lia)). split.
  - intros [?|H']; [by destruct l|]. destruct (decide (b mod 128 = 0)) as [E|]; [right | by left].
    rewrite E in H'. destruct l as [|c l' _] using rev_ind; [cbn in *; lia|]. exists l', c. split; [done|].
    apply Forall_app in Hl as [Hl' Hc]. rewrite le_val_app, length_app in *. cbn [length le_val] in *.
    pose proof (le_val_bound l' Hl'). rewrite Nat2Z.inj_add, Z.mul_add_distr_l, Z.pow_add_r in * by lia.
    change (2 ^ (8 * Z.of_nat 1)) with 256 in *. nia.
  - intros [Hn|(l' & c & -> & Hc)]; right; [nia|].
    apply Forall_app in Hl as [Hl' Hcb]. rewrite le_val_app, length_app in *. cbn [length le_val] in *.
    pose proof (le_val_bound l' Hl'). rewrite Nat2Z.inj_add, Z.mul_add_distr_l, Z.pow_add_r in * by lia.
    change (2 ^ (8 * Z.of_nat 1)) with 256 in *. nia.
Qed.

Lemma IsMinimallyEncoded_spec l n : bytes l ->
  IsMinimallyEncoded l n = true <-> Z.of_nat (length l) <= n /\ minimal l.
Proof.
  intros Hl. unfold IsMinimallyEncoded. destruct (Z.ltb_spec n (Z.of_nat (length l))) as [Hgt|Hle]; [split; [done | lia]|].
  destruct l as [|b l _] using rev_ind; [split; [by split; [lia | left] | done]|].
  apply Forall_app in Hl as [Hl Hb]. rewrite Forall_singleton in Hb. rewrite minimal_snoc, byte_at_snoc by done.
  rewrite byte_land_7f by done. rewrite (proj2 (Nat.ltb_lt 0 _)) by (rewrite length_app; cbn; lia). cbn [andb].
  destruct (Z.eqb_spec (b mod 128) 0) as [E|E]; cbn [andb]; [|split; [intros _; split; [lia | by left] | done]].
  destruct l as [|c l' _] using rev_ind.
  { cbn. split; [done|]. intros [_ [?|(l' & c & H & _)]]; [lia | by destruct l']. }
  apply Forall_app in Hl as [Hl' Hc]. rewrite Forall_singleton in Hc. rewrite byte_at_snoc2, byte_land_80 by done.
  rewrite (proj2 (Nat.leb_gt _ _)) by (rewrite !length_app; cbn; lia). cbn [orb].
  destruct (Z.ltb_spec c 128) as [Hlt|Hge]; split; try done.
  - intros [_ [?|(l'' & c' & H & Hc')]]; [lia|]. apply app_inj_tail in H as [_ ->]. lia.
  - intros _. split; [lia|]. right. by exists l', c.
Qed.

(** ** [serialize] writes the minimal encoding *)

Lemma serialize_loop_spec n neg a : 0 < a < 2 ^ (8 * Z.of_nat n) ->
  exists m b, serialize_loop n neg a = m ++ [b] /\ bytes m /\ is_byte b /\ (b <? 128) = negb neg /\
    le_val m + b mod 128 * 2 ^ (8 * Z.of_nat (length m)) = a /\ 2 ^ (8 * Z.of_nat (length m)) <= 2 * a.
Proof.
  revert a. induction n as [|n IH]; intros a Ha; [cbn in Ha; lia|].
  cbn [serialize_loop]. rewrite (proj2 (Z.eqb_neq a 0)) by lia.
  rewrite land_ff, Z.shiftr_div_pow2 by lia. change (2 ^ 8) with 256.
  pose proof (Z.div_mod a 256 ltac:(lia)) as D. pose proof (Z.mod_pos_bound a 256 ltac:(lia)) as Hm.
  assert (is_byte (a mod 256)) as Hb by done. assert (0 <= a / 256) as Hd by (apply Z.div_pos; lia).
  destruct (Z.eqb_spec (a / 256) 0) as [E|E]; cbn [negb].
  - rewrite byte_land_80 by done. replace (a mod 256) with a in * by lia.
    destruct (Z.ltb_spec a 128) as [Hlt|Hge]; cbn [negb].
    + exists [], (if neg then Z.lor a 0x80 else a). cbn [app length le_val]. change (2 ^ (8 * Z.of_nat 0)) with 1.
      destruct neg; [rewrite byte_lor_80 by done|].
      * split_and!; [done | done | unfold is_byte; lia | apply Z.ltb_ge; lia | | lia].
        rewrite byte_mod_128, (proj2 (Z.ltb_ge _ _)) by (unfold is_byte; lia). lia.
      * split_and!; [done | done | done | by apply Z.ltb_lt | rewrite Z.mod_small; lia | lia].
    + exists [a], (if neg then 0x80 else 0). cbn [app length le_val]. change (2 ^ (8 * Z.of_nat 1)) with 256.
      split_and!; [done | by apply Forall_singleton | by destruct neg | by destruct neg | | lia].
      replace (_ mod 128) with 0 by (by destruct neg). clear. lia.
  - destruct (IH (a / 256)) as (m & b & El & Bm & Bb & Es & Ev & Emin).
    { split; [lia|]. apply Z.div_lt_upper_bound; [lia|].
      replace (8 * Z.of_nat (S n)) with (8 + 8 * Z.of_nat n) in Ha by lia.
      rewrite Z.pow_add_r in Ha by lia. apply Ha. }
    exists (a mod 256 :: m), b. rewrite El. cbn [app length le_val].
    replace (8 * Z.of_nat (S (length m))) with (8 + 8 * Z.of_nat (length m)) by lia.
    rewrite Z.pow_add_r by lia. change (2 ^ 8) with 256. split_and!; [done | by constructor | done | done | | lia].
    rewrite D at 2. rewrite <- Ev. ring.
Qed.

Lemma serialize_spec v : - 2 ^ 63 <= v < 2 ^ 63 ->
  bytes (serialize v) /\ num_val (serialize v) = v /\ minimal (serialize v).
Proof.
  intros Hv. unfold serialize. destruct (Z.eqb_spec v 0) as [->|Hn].
  { split_and!; [done | done | by left]. }
  assert (abs64 v = Z.abs v) as Ea.
  { unfold abs64, u64. destruct (Z.ltb_spec v 0); [|rewrite Z.mod_small; lia].
    replace (v mod 2 ^ 64) with (v + 2 ^ 64) by (apply (Z.mod_unique_pos _ _ (-1)); lia).
    rewrite <- (Z.mod_unique_pos (- (v + 2 ^ 64)) (2 ^ 64) (-1) (- v)); lia. }
  rewrite Ea. destruct (serialize_loop_spec 8 (v <? 0) (Z.abs v)) as (m & b & -> & Bm & Bb & Es & Ev & Emin); [lia|].
  assert (num_val (m ++ [b]) = v) as En.
  { rewrite num_val_snoc, Es by done. rewrite byte_mod_128, Es in Ev by done. destruct (Z.ltb_spec v 0); cbn [negb] in *; lia. }
  split_and!; [auto with bytes | done | right]. rewrite En, length_app. cbn [length].
  by replace (length m + 1 - 1)%nat with (length m) by lia.
Qed.

(** ** [deserialize] reads what an encoding denotes *)

Lemma deserialize_loop_spec l i r : bytes l -> 0 <= i -> i + Z.of_nat (length l) <= 7 -> 0 <= r < 2 ^ (8 * i) ->
  deserialize_loop l i r = Some (r + le_val l * 2 ^ (8 * i)).
Proof.
  intros Hl. revert i r. induction Hl as [|b l Hb Hl IH]; intros i r Hi Hle Hr; cbn [deserialize_loop le_val].
  { f_equal. lia. }
  cbn [length] in Hle. rewrite (proj2 (Z.leb_gt _ _)) by lia. unfold is_byte in Hb.
  pose proof (Z.pow_le_mono_r 2 (8 * i) 48 ltac:(lia) ltac:(lia)). pose proof (pow2_pos (8 * i) ltac:(lia)).
  rewrite Z.shiftl_mul_pow2 by lia.
  assert (i64 (b * 2 ^ (8 * i)) = b * 2 ^ (8 * i)) as -> by (unfold i64; rewrite Z.mod_small; nia).
  rewrite lor_low_high by lia. replace (8 * (i + 1)) with (8 * i + 8) in * by lia.
  rewrite IH; [f_equal | lia | lia |]; replace (8 * (i + 1)) with (8 * i + 8) by lia;
    rewrite Z.pow_add_r by lia; change (2 ^ 8) with 256; nia.
Qed.

Lemma deserialize_spec l : bytes l -> l <> [] -> (length l <= 8)%nat -> deserialize l = Some (num_val l).
Proof.
  intros Hl Hne Hlen. destruct l as [|b l _] using rev_ind; [done|]. clear Hne.
  apply Forall_app in Hl as [Hl Hb]. rewrite Forall_singleton in Hb.
  unfold deserialize. rewrite last_snoc. rewrite length_app in *. cbn [length] in *.
  replace (length l + 1 - 1)%nat with (length l) by lia. rewrite take_app_length.
  pose proof (le_val_bound l Hl) as B.
  rewrite deserialize_loop_spec by (done || lia). bind_simpl. rewrite (proj2 (Z.ltb_ge _ _)) by lia.
  rewrite byte_land_80, byte_land_7f, num_val_snoc, byte_mod_128 by done. f_equal.
  change (2 ^ (8 * 0)) with 1. rewrite Z.mul_1_r, Z.add_0_l.
  replace (8 * (Z.of_nat (length l + 1) - 1)) with (8 * Z.of_nat (length l)) by lia.
  pose proof (Z.pow_le_mono_r 2 (8 * Z.of_nat (length l)) 56 ltac:(lia) ltac:(lia)).
  pose proof (pow2_pos (8 * Z.of_nat (length l)) ltac:(lia)). rewrite Z.shiftl_mul_pow2 by lia. unfold is_byte in Hb.
  assert (forall t, 0 <= t < 128 -> Z.lor (le_val l) (i64 (t * 2 ^ (8 * Z.of_nat (length l)))) =
    le_val l + t * 2 ^ (8 * Z.of_nat (length l))) as Hlor.
  { intros t Ht. assert (i64 (t * 2 ^ (8 * Z.of_nat (length l))) = t * 2 ^ (8 * Z.of_nat (length l))) as ->
      by (unfold i64; rewrite Z.mod_small; nia). apply lor_low_high; lia. }
  destruct (Z.ltb_spec b 128); cbn [negb]; rewrite Hlor by lia; lia.
Qed.

(** ** [MinimallyEncode] keeps the number and makes the encoding minimal *)

Definition sign_byte (s : Z) : Prop := s = 0 \/ s = 0x80.

Lemma num_val_sign l s : sign_byte s -> num_val (l ++ [s]) = if s =? 0 then le_val l else - le_val l.
Proof. intros [-> | ->]; rewrite num_val_snoc by done; cbn [Z.ltb Z.eqb Z.compare]; [lia|]. change (128 - 128) with 0. cbn. lia. Qed.

Lemma byte_at_app_lt l1 l2 i : (i < length l1)%nat -> byte_at (l1 ++ l2) i = byte_at l1 i.
Proof. intros. unfold byte_at. by apply app_nth1. Qed.

Lemma take_S_byte l i : (i < length l)%nat -> take (S i) l = take i l ++ [byte_at l i].
Proof. intros Hi. apply take_S_r. unfold byte_at. rewrite nth_lookup. destruct (lookup_lt_is_Some_2 l i Hi) as [x Hx]. by rewrite Hx. Qed.

Lemma byte_at_byte l i : bytes l -> is_byte (byte_at l i).
Proof.
  intros Hl. unfold byte_at. rewrite nth_lookup. destruct (l !! i) eqn:E; [|done].
  by apply (Forall_lookup_1 _ _ _ _ Hl E).
Qed.

Lemma trim_loop_spec d s i : bytes d -> sign_byte s -> (i <= length d)%nat ->
  let r := trim_loop (d ++ [s]) s i in
  bytes r /\ num_val r = num_val (take i d ++ [s]) /\ minimal r /\ (length r <= S i)%nat.
Proof.
  intros Hd Hs. assert (is_byte s) as Hsb by (destruct Hs as [-> | ->]; done).
  cbn zeta. induction i as [|j IH]; intros Hi; cbn [trim_loop].
  { cbn [take app]. split_and!; [done | by destruct Hs as [-> | ->] | by left | cbn; lia]. }
  rewrite byte_at_app_lt by lia. pose proof (byte_at_byte d j Hd) as Hc.
  rewrite (take_S_byte d j) by lia. set (c := byte_at d j) in *.
  rewrite num_val_sign, le_val_app by done. rewrite length_take, Nat.min_l by lia. cbn [le_val].
  assert (bytes (take j d)) as Ht by auto with bytes.
  destruct (Z.eqb_spec c 0) as [Ez|Ez]; cbn [negb].
  { destruct IH as (I1 & I2 & I3 & I4); [lia|]. split_and!; [done | | done | lia].
    rewrite I2, num_val_sign, Ez by done. destruct (s =? 0); lia. }
  rewrite byte_land_80 by done. destruct (Z.ltb_spec c 128) as [Hlt|Hge]; cbn [negb].
  - assert (take (S j) (<[j := Z.lor c s]> (d ++ [s])) = take j d ++ [Z.lor c s]) as ->.
    { rewrite (take_S_r _ j (Z.lor c s)) by (apply list_lookup_insert_eq; rewrite length_app; cbn; lia).
      rewrite take_insert_ge by lia. by rewrite take_app_le by lia. }
    assert (Z.lor c s = if s =? 0 then c else c + 128) as El.
    { destruct Hs as [-> | ->]; [apply Z.lor_0_r | by apply byte_lor_80]. }
    assert (is_byte (Z.lor c s)) as Hb by (rewrite El; unfold is_byte in *; destruct (s =? 0); lia).
    split_and!; [auto with bytes | | | rewrite length_app, length_take; cbn; lia].
    + rewrite num_val_snoc, length_take, Nat.min_l, El by (done || lia). unfold is_byte in Hc.
      destruct (s =? 0); [rewrite (proj2 (Z.ltb_lt c 128)) by lia | rewrite (proj2 (Z.ltb_ge _ 128)) by lia]; lia.
    + apply minimal_snoc; [done..|]. left. rewrite byte_mod_128, El by done. unfold is_byte in Hc.
      destruct (s =? 0); [rewrite (proj2 (Z.ltb_lt c 128)) by lia | rewrite (proj2 (Z.ltb_ge _ 128)) by lia]; lia.
  - assert (take (S (S j)) (<[S j := s]> (d ++ [s])) = (take j d ++ [c]) ++ [s]) as ->.
    { rewrite (take_S_r _ (S j) s) by (apply list_lookup_insert_eq; rewrite length_app; cbn; lia).
      rewrite take_insert_ge by lia. rewrite take_app_le by lia. by rewrite (take_S_byte d j) by lia. }
    split_and!; [auto with bytes | | | rewrite !length_app, length_take; cbn; lia].
    + rewrite num_val_sign, le_val_app by done. rewrite length_take, Nat.min_l by lia. done.
    + apply minimal_snoc; [auto with bytes | done |]. right. by exists (take j d), c.
Qed.

Lemma sign_byte_spec b : is_byte b -> (Z.land b 0x7f =? 0) = true <-> sign_byte b.
Proof.
  intros Hb. rewrite byte_land_7f, byte_mod_128, Z.eqb_eq by done. unfold sign_byte, is_byte in *.
  destruct (Z.ltb_spec b 128); lia.
Qed.

Lemma MinimallyEncode_spec l : bytes l ->
  let '(changed, l') := MinimallyEncode l in
  bytes l' /\ num_val l' = num_val l /\ minimal l' /\ (length l' <= length l)%nat /\
  (changed = false -> l' = l) /\ (changed = true -> ~ minimal l).
Proof.
  intros Hl. unfold MinimallyEncode. destruct l as [|b l _] using rev_ind.
  { split_and!; [done | done | by left | done | done | done]. }
  rewrite byte_at_snoc. apply Forall_app in Hl as [Hd Hb]. rewrite Forall_singleton in Hb.
  rewrite (proj2 (Nat.eqb_neq _ 0)) by (rewrite length_app; cbn; lia).
  pose proof (sign_byte_spec b Hb) as HS. destruct (Z.land b 0x7f =? 0) eqn:E; cbn [negb].
  2:{ split_and!; [auto with bytes | done | | done | done | done]. apply minimal_snoc; [done..|]. left.
      rewrite byte_land_7f in E by done. by apply Z.eqb_neq. }
  assert (sign_byte b) as Hs by (by apply HS). assert (b mod 128 = 0) as Em by (destruct Hs as [-> | ->]; done).
  destruct l as [|c d _] using rev_ind.
  { cbn. split_and!; [done | by destruct Hs as [-> | ->] | by left | lia | done |].
    intros _ Hm. apply (minimal_snoc [] b) in Hm; [|done..]. destruct Hm as [?|(l' & c & H & _)]; [done | by destruct l']. }
  rewrite (proj2 (Nat.eqb_neq _ 1)) by (rewrite !length_app; cbn; lia). rewrite byte_at_snoc2.
  pose proof Hd as Hdc. apply Forall_app in Hd as [Hd Hc]. rewrite Forall_singleton in Hc. rewrite byte_land_80 by done.
  destruct (Z.ltb_spec c 128) as [Hlt|Hge]; cbn [negb].
  - replace (length ((d ++ [c]) ++ [b]) - 1)%nat with (length (d ++ [c])) by (rewrite !length_app; cbn; lia).
    destruct (trim_loop_spec (d ++ [c]) b (length (d ++ [c])) Hdc Hs) as (T1 & T2 & T3 & T4); [done|].
    cbn zeta in *. rewrite firstn_all in T2. split_and!; [done | done | done | | done |].
    { rewrite !length_app in *. cbn [length] in *. lia. }
    intros _ Hm. apply minimal_snoc in Hm; [|done..]. destruct Hm as [?|(l' & c' & H & ?)]; [done|].
    apply app_inj_tail in H as [_ ->]. lia.
  - split_and!; [auto with bytes | done | | done | done | done]. apply minimal_snoc; [done..|]. right. by exists d, c.
Qed.

(** Script numbers round-trip: [serialize] of an [int64_t] is a minimal encoding (so it passes
    [IsMinimallyEncoded]) that [deserialize] reads back, and it is the only minimal encoding of its
    value: any minimal byte string that denotes the number is the one [serialize] writes. *)
Theorem script_num_roundtrip v l :
  - 2 ^ 63 < v < 2 ^ 63 -> bytes l ->
  bytes (serialize v) /\ (length (serialize v) <= 8)%nat /\
  IsMinimallyEncoded (serialize v) 8 = true /\ (v <> 0 -> deserialize (serialize v) = Some v) /\
  (minimal l -> num_val l = v -> l = serialize v).
Proof.
  intros Hv Hl. destruct (serialize_spec v ltac:(lia)) as (S1 & S2 & S3).
  assert (length (serialize v) <= 8)%nat as Hlen.
  { destruct S3 as [->|Hm]; [cbn; lia|]. rewrite S2 in Hm. destruct (decide (length (serialize v) <= 8)%nat) as [|Hgt]; [done|].
    pose proof (Z.pow_le_mono_r 2 64 (8 * Z.of_nat (length (serialize v) - 1))). lia. }
  split_and!; [done | done | apply IsMinimallyEncoded_spec; [done | split; [lia | done]] | |].
  - intros Hn. rewrite deserialize_spec, S2; [done | done | | done]. intros E. rewrite E in S2. cbn in S2. congruence.
  - intros Hm En. apply minimal_unique; [done.. | by rewrite S2].
Qed.

Lemma script_num_roundtrip_witness :
  deserialize (serialize (-255)) = Some (-255) /\ [0xff; 0x80] = serialize (-255).
Proof.
  destruct (script_num_roundtrip (-255) [0xff; 0x80] ltac:(lia)) as (_ & _ & _ & H1 & H2);
    [by repeat constructor|].
  split; [by apply H1|]. apply H2; [|reflexivity]. right. vm_compute. discriminate.
Defined.

(** [MinimallyEncode] keeps the number a byte string denotes and returns its minimal encoding;
    it reports a change exactly when the input was not minimal. *)
Theorem MinimallyEncode_correct l :
  bytes l ->
  let '(changed, l') := MinimallyEncode l in
  num_val l' = num_val l /\ IsMinimallyEncoded l' (Z.of_nat (length l)) = true /\
  (changed = false -> l' = l) /\ (changed = true <-> IsMinimallyEncoded l (Z.of_nat (length l)) = false).
Proof.
  intros Hl. pose proof (MinimallyEncode_spec l Hl) as H. destruct (MinimallyEncode l) as [ch l'].
  destruct H as (H1 & H2 & H3 & H4 & H5 & H6). split_and!; [done | | done |].
  - apply IsMinimallyEncoded_spec; [done|]. split; [lia | done].
  - pose proof (IsMinimallyEncoded_spec l (Z.of_nat (length l)) Hl) as Hm. destruct ch; split; try done.
    + intros _. destruct (IsMinimallyEncoded l _); [|done]. destruct (proj1 Hm eq_refl). by destruct H6.
    + intros E. rewrite E in Hm. rewrite H5 in H3 by done. assert (false = true) as F by (apply Hm; split; [lia | done]). done.
Qed.

Lemma MinimallyEncode_correct_witness :
  MinimallyEncode [0x7f; 0; 0; 0x80] = (true, [0xff]) /\ num_val [0xff] = num_val [0x7f; 0; 0; 0x80].
Proof.
  pose proof (MinimallyEncode_correct [0x7f; 0; 0; 0x80] ltac:(by repeat constructor)) as H.
  split; [reflexivity|]. apply H.
Defined.
