(* ===== verification/BigInt.v ===== *)
(** * Big integers

    [src/big_int.h] and [src/big_int.cpp]: [bsv::bint], a C++ wrapper around OpenSSL's [BIGNUM].
    The OpenSSL functions are not part of the repository: they are the fields of the class [BN_API],
    what their manual pages promise are the fields of [BN_Laws] (with [BN_Total] for runs in which no
    allocation fails), and [Z_BN] is an executable instance that satisfies both. *)

From S2P Require Import Prelude IntSer.

(** ** OpenSSL *)

(** A call that can fail returns [None]; [BN_bin2bn] overwrites its last argument, [BN_to_long] is
    [BN_to_ASN1_INTEGER] followed by [ASN1_INTEGER_get]. *)

Class BN_API := {
  BIGNUM : Type;
  BN_new : option BIGNUM;
  BN_copy : BIGNUM -> option BIGNUM;
  BN_value_one : BIGNUM;
  BN_set_word : BIGNUM -> Z -> option BIGNUM;
  BN_set_negative : BIGNUM -> bool -> BIGNUM;
  BN_is_negative : BIGNUM -> bool;
  BN_add : BIGNUM -> BIGNUM -> option BIGNUM;
  BN_sub : BIGNUM -> BIGNUM -> option BIGNUM;
  BN_mul : BIGNUM -> BIGNUM -> option BIGNUM;
  BN_div : BIGNUM -> BIGNUM -> option BIGNUM;
  BN_mod : BIGNUM -> BIGNUM -> option BIGNUM;
  BN_lshift : BIGNUM -> Z -> option BIGNUM;
  BN_rshift : BIGNUM -> Z -> option BIGNUM;
  BN_cmp : BIGNUM -> BIGNUM -> Z;
  BN_num_bytes : BIGNUM -> nat;
  BN_bn2bin : BIGNUM -> list Z;
  BN_bin2bn : list Z -> BIGNUM -> BIGNUM;
  BN_bn2mpi : BIGNUM -> list Z;
  BN_mpi2bn : list Z -> option BIGNUM;
  BN_to_long : BIGNUM -> option Z
}.

(** The MPI format after its length: big-endian magnitude with the sign in the most significant bit,
    prefixed by a byte when that bit is taken. *)

Definition mpi_body (neg : bool) (mag : list Z) : list Z :=
  match mag with
  | [] => []
  | h :: t =>
      if 128 <=? h then (if neg then 128 else 0) :: h :: t
      else (if neg then h + 128 else h) :: t
  end.

Definition mpi_value (body : list Z) : Z :=
  match body with
  | [] => 0
  | h :: t => if h <? 128 then be_val (h :: t) else - be_val ((h - 128) :: t)
  end.

Class BN_Laws `{BN_API} := {
  toZ : BIGNUM -> Z;
  BN_new_law a : BN_new = Some a -> toZ a = 0;
  BN_copy_law a b : BN_copy a = Some b -> toZ b = toZ a;
  BN_value_one_law : toZ BN_value_one = 1;
  BN_set_word_law a w b : 0 <= w < 2 ^ 64 -> BN_set_word a w = Some b -> toZ b = w;
  BN_set_negative_law a n : toZ (BN_set_negative a n) = if n then - Z.abs (toZ a) else Z.abs (toZ a);
  BN_is_negative_law a : BN_is_negative a = (toZ a <? 0);
  BN_add_law a b c : BN_add a b = Some c -> toZ c = toZ a + toZ b;
  BN_sub_law a b c : BN_sub a b = Some c -> toZ c = toZ a - toZ b;
  BN_mul_law a b c : BN_mul a b = Some c -> toZ c = toZ a * toZ b;
  BN_div_law a b c : BN_div a b = Some c -> toZ b <> 0 /\ toZ c = Z.quot (toZ a) (toZ b);
  BN_mod_law a b c : BN_mod a b = Some c -> toZ b <> 0 /\ toZ c = Z.rem (toZ a) (toZ b);
  BN_lshift_law a n c : 0 <= n -> BN_lshift a n = Some c -> toZ c = toZ a * 2 ^ n;
  BN_rshift_law a n c : 0 <= n -> BN_rshift a n = Some c -> toZ c = Z.quot (toZ a) (2 ^ n);
  BN_cmp_law a b : BN_cmp a b = match toZ a ?= toZ b with Lt => -1 | Eq => 0 | Gt => 1 end;
  BN_num_bytes_law a : BN_num_bytes a = length (BN_bn2bin a);
  BN_bn2bin_law a : bytes (BN_bn2bin a) /\ be_val (BN_bn2bin a) = Z.abs (toZ a) /\ hd 1 (BN_bn2bin a) <> 0;
  BN_bin2bn_law l d : bytes l -> toZ (BN_bin2bn l d) = be_val l;
  BN_bn2mpi_law a :
    let body := mpi_body (BN_is_negative a) (BN_bn2bin a) in
    BN_bn2mpi a = be_bytes 4 (Z.of_nat (length body)) ++ body;
  BN_mpi2bn_law l a : bytes l -> BN_mpi2bn (be_bytes 4 (Z.of_nat (length l)) ++ l) = Some a -> toZ a = mpi_value l;
  BN_to_long_law a n : - 2 ^ 63 <= toZ a < 2 ^ 63 -> BN_to_long a = Some n -> n = toZ a
}.

(** No allocation fails. *)

Class BN_Total `{BN_Laws} := {
  BN_new_total : is_Some BN_new;
  BN_copy_total a : is_Some (BN_copy a);
  BN_set_word_total a w : 0 <= w < 2 ^ 64 -> is_Some (BN_set_word a w);
  BN_add_total a b : is_Some (BN_add a b);
  BN_sub_total a b : is_Some (BN_sub a b);
  BN_mul_total a b : is_Some (BN_mul a b);
  BN_div_total a b : toZ b <> 0 -> is_Some (BN_div a b);
  BN_mod_total a b : toZ b <> 0 -> is_Some (BN_mod a b);
  BN_mpi2bn_total l : bytes l -> Z.of_nat (length l) < 2 ^ 31 ->
    is_Some (BN_mpi2bn (be_bytes 4 (Z.of_nat (length l)) ++ l));
  BN_to_long_total a : is_Some (BN_to_long a)
}.

(** ** [bsv::bint]

    A well-formed [bint] owns a [BIGNUM]; the default-constructed and moved-from [nullptr] states
    occur only as the unused remainder of [operator/=]. *)

Section bint.
Context `{BN_API}.

Definition or_throw {A} (o : option A) : outcome exn A :=
  match o with Some a => Ok a | None => Throw big_int_error end.

(** The constructors from a signed integer, [int] or [int64_t], differ in the least value, whose
    negation would overflow. *)

Definition bint_of_signed (min i : Z) : outcome exn BIGNUM :=
  v ← or_throw BN_new;
  if 0 <=? i then or_throw (BN_set_word v (u64 i))
  else if min <? i then
    v ← or_throw (BN_set_word v (u64 (- i)));
    Ok (BN_set_negative v true)
  else
    v ← or_throw (BN_set_word v (u64 (- (i + 1))));
    or_throw (BN_sub (BN_set_negative v true) BN_value_one).

Definition bint_of_int (i : Z) : outcome exn BIGNUM := bint_of_signed (- 2 ^ 31) i.

Definition bint_of_i64 (i : Z) : outcome exn BIGNUM := bint_of_signed (- 2 ^ 63) i.

Definition bint_of_size_t (i : Z) : outcome exn BIGNUM :=
  v ← or_throw BN_new;
  or_throw (BN_set_word v i).

Definition bint_copy (other : BIGNUM) : outcome exn BIGNUM := or_throw (BN_copy other).

Definition spaceship_operator (a b : BIGNUM) : Z := BN_cmp a b.

Definition bint_lt (a b : BIGNUM) : bool := spaceship_operator a b <? 0.

Definition bint_eq (a b : BIGNUM) : bool := spaceship_operator a b =? 0.

Definition bint_add (a b : BIGNUM) : outcome exn BIGNUM := or_throw (BN_add a b).

Definition bint_sub (a b : BIGNUM) : outcome exn BIGNUM := or_throw (BN_sub a b).

Definition bint_mul (a b : BIGNUM) : outcome exn BIGNUM := or_throw (BN_mul a b).

Definition bint_div (a b : BIGNUM) : outcome exn BIGNUM := or_throw (BN_div a b).

Definition bint_mod (a b : BIGNUM) : outcome exn BIGNUM := or_throw (BN_mod a b).

Definition is_negative (a : BIGNUM) : bool := BN_is_negative a.

Definition negate (a : BIGNUM) : BIGNUM :=
  if is_negative a then BN_set_negative a false else BN_set_negative a true.

Definition bint_neg (a : BIGNUM) : outcome exn BIGNUM :=
  rv ← bint_copy a;
  Ok (negate rv).

Definition to_bin (a : BIGNUM) : list Z := BN_bn2bin a.

Definition size_bytes (a : BIGNUM) : nat := BN_num_bytes a.

(** [std::transform] over the reverse iterators of a big-endian string [short] and a string [long]
    at least as long: into [short] ([&=]) or into [long] ([|=]). *)

Definition transform_short (f : Z -> Z -> Z) (short long : list Z) : list Z :=
  rev (zip_with f (rev short) (rev long)).

Definition transform_long (f : Z -> Z -> Z) (short long : list Z) : list Z :=
  rev (zip_with f (rev short) (rev long) ++ drop (length short) (rev long)).

(** [operator&=] on distinct objects. *)

Definition bint_and (this other : BIGNUM) : outcome exn BIGNUM :=
  if (size_bytes other =? 0)%nat then bint_of_int 0
  else
    let neg := is_negative this && is_negative other in
    let bytes_other := to_bin other in
    let bytes_this := to_bin this in
    let r :=
      if (length bytes_other <=? length bytes_this)%nat
      then BN_bin2bn (transform_short Z.land bytes_other bytes_this) this
      else BN_bin2bn (transform_short Z.land bytes_this bytes_other) this in
    Ok (if neg then negate r else r).

Definition bint_or (this other : BIGNUM) : BIGNUM :=
  if (size_bytes other =? 0)%nat then this
  else
    let neg := (is_negative other && negb (is_negative this)) || (is_negative this && negb (is_negative other)) in
    let bytes_other := to_bin other in
    let bytes_this := to_bin this in
    let r :=
      if (length bytes_other <=? length bytes_this)%nat
      then BN_bin2bn (transform_long Z.lor bytes_other bytes_this) this
      else BN_bin2bn (transform_long Z.lor bytes_this bytes_other) this in
    if neg then negate r else r.

Definition bint_shl (a : BIGNUM) (n : Z) : outcome exn BIGNUM :=
  if n <=? 0 then Ok a else or_throw (BN_lshift a n).

Definition bint_shr (a : BIGNUM) (n : Z) : outcome exn BIGNUM :=
  if n <=? 0 then Ok a else or_throw (BN_rshift a n).

Definition lsb (a : BIGNUM) : Z := match list.last (to_bin a) with None => 0 | Some b => b end.

Definition to_long (a : BIGNUM) : outcome exn Z := or_throw (BN_to_long a).

Definition to_size_t_limited (a : BIGNUM) : outcome exn Z :=
  i ← to_long a;
  Ok (u64 i).

Definition length_in_bytes : nat := 4.

Definition bint_serialize (a : BIGNUM) : list Z := rev (drop length_in_bytes (BN_bn2mpi a)).

(** The size header is written byte by byte; a [nullptr] result of [BN_mpi2bn] would be dereferenced
    by the next operation. *)

Definition bint_deserialize (s : list Z) : outcome exn BIGNUM :=
  let size := Z.of_nat (length s) in
  let header := [Z.land (Z.shiftr size 24) 0xff; Z.land (Z.shiftr size 16) 0xff;
                 Z.land (Z.shiftr size 8) 0xff; Z.land (Z.shiftr size 0) 0xff] in
  match BN_mpi2bn (header ++ rev s) with
  | Some p => Ok p
  | None => Abort
  end.

End bint.

(** ** An executable instance *)

Definition mag_bytes (z : Z) : nat := if z =? 0 then 0%nat else S (Z.to_nat (Z.log2 z / 8)).

Definition Z_bn2bin (z : Z) : list Z := be_bytes (mag_bytes (Z.abs z)) (Z.abs z).

Definition Z_bn2mpi (z : Z) : list Z :=
  let body := mpi_body (z <? 0) (Z_bn2bin z) in be_bytes 4 (Z.of_nat (length body)) ++ body.

#[export] Instance Z_BN : BN_API := {
  BIGNUM := Z;
  BN_new := Some 0;
  BN_copy a := Some a;
  BN_value_one := 1;
  BN_set_word _ w := Some w;
  BN_set_negative a n := if n then - Z.abs a else Z.abs a;
  BN_is_negative a := a <? 0;
  BN_add a b := Some (a + b);
  BN_sub a b := Some (a - b);
  BN_mul a b := Some (a * b);
  BN_div a b := if b =? 0 then None else Some (Z.quot a b);
  BN_mod a b := if b =? 0 then None else Some (Z.rem a b);
  BN_lshift a n := Some (a * 2 ^ n);
  BN_rshift a n := Some (Z.quot a (2 ^ n));
  BN_cmp a b := match a ?= b with Lt => -1 | Eq => 0 | Gt => 1 end;
  BN_num_bytes a := length (Z_bn2bin a);
  BN_bn2bin := Z_bn2bin;
  BN_bin2bn l _ := be_val l;
  BN_bn2mpi := Z_bn2mpi;
  BN_mpi2bn l := Some (mpi_value (drop 4 l));
  BN_to_long a := Some (if (- 2 ^ 63 <=? a) && (a <? 2 ^ 63) then a else -1)
}.

Lemma le_bytes_snoc n z : le_bytes (S n) z = le_bytes n z ++ [(z / 2 ^ (8 * Z.of_nat n)) mod 256].
Proof.
  revert z. induction n as [|n IH]; intros z; [by rewrite Z.div_1_r|].
  change (le_bytes (S (S n)) z) with (z mod 256 :: le_bytes (S n) (z / 256)). rewrite IH. cbn [le_bytes app].
  do 3 f_equal. replace (8 * Z.of_nat (S n)) with (8 + 8 * Z.of_nat n) by lia.
  rewrite Z.pow_add_r, <- Z.div_div by lia. done.
Qed.

Lemma be_bytes_bytes n z : bytes (be_bytes n z).
Proof. unfold be_bytes. auto with bytes. Qed.

Lemma Z_bn2bin_spec z : bytes (Z_bn2bin z) /\ be_val (Z_bn2bin z) = Z.abs z /\ hd 1 (Z_bn2bin z) <> 0.
Proof.
  unfold Z_bn2bin, be_val, be_bytes. split_and!; [auto with bytes | |].
  - rewrite rev_involutive, le_val_le_bytes. apply Z.mod_small. split; [lia|]. unfold mag_bytes.
    destruct (Z.eqb_spec (Z.abs z) 0) as [->|Hn]; [done|]. destruct (Z.log2_spec (Z.abs z)) as [_ Hlt]; [lia|].
    eapply Z.lt_le_trans; [exact Hlt|]. pose proof (Z.log2_nonneg (Z.abs z)). apply Z.pow_le_mono_r; [lia|].
    pose proof (Z.div_mod (Z.log2 (Z.abs z)) 8 ltac:(lia)). pose proof (Z.mod_pos_bound (Z.log2 (Z.abs z)) 8 ltac:(lia)).
    pose proof (Z.div_pos (Z.log2 (Z.abs z)) 8 ltac:(lia) ltac:(lia)). lia.
  - unfold mag_bytes. destruct (Z.eqb_spec (Z.abs z) 0) as [->|Hn]; [done|].
    pose proof (Z.log2_nonneg (Z.abs z)). pose proof (Z.div_pos (Z.log2 (Z.abs z)) 8 ltac:(lia) ltac:(lia)) as Hd.
    rewrite le_bytes_snoc, rev_app_distr. cbn [rev app hd]. rewrite Z2Nat.id by lia.
    set (L := Z.log2 (Z.abs z)) in *. destruct (Z.log2_spec (Z.abs z)) as [Hle Hlt]; [lia|]. fold L in Hle, Hlt.
    pose proof (Z.div_mod L 8 ltac:(lia)). pose proof (Z.mod_pos_bound L 8 ltac:(lia)).
    pose proof (pow2_pos (8 * (L / 8)) ltac:(lia)).
    assert (1 <= Z.abs z / 2 ^ (8 * (L / 8)) < 256) as Hr; [|rewrite Z.mod_small; lia].
    split; [apply Z.div_le_lower_bound; [lia|]; rewrite Z.mul_1_r; etransitivity; [|exact Hle]; apply Z.pow_le_mono_r; lia|].
    apply Z.div_lt_upper_bound; [lia|]. eapply Z.lt_le_trans; [exact Hlt|].
    change 256 with (2 ^ 8). rewrite <- Z.pow_add_r by lia. apply Z.pow_le_mono_r; lia.
Qed.

#[export] Instance Z_BN_laws : BN_Laws.
Proof.
  apply (Build_BN_Laws Z_BN (fun a : Z => a)); cbn; intros; simplify_eq; try done.
  - case_match eqn:E; simplify_eq. by apply Z.eqb_neq in E.
  - case_match eqn:E; simplify_eq. by apply Z.eqb_neq in E.
  - apply Z_bn2bin_spec.
  - by rewrite (proj2 (Z.leb_le _ _)), (proj2 (Z.ltb_lt _ _)) by lia.
Defined.

#[export] Instance Z_BN_total : BN_Total.
Proof.
  split; cbn; intros; try by eexists.
  - rewrite (proj2 (Z.eqb_neq _ _)) by done. by eexists.
  - rewrite (proj2 (Z.eqb_neq _ _)) by done. by eexists.
Qed.

(** ** Bitwise operators on byte strings *)

Lemma land_digit b c m n : 0 <= b < 256 -> 0 <= c < 256 ->
  Z.land (b + 256 * m) (c + 256 * n) = Z.land b c + 256 * Z.land m n.
Proof.
  intros Hb Hc. rewrite !(Z.mul_comm 256). change 256 with (2 ^ 8) in *.
  rewrite <- !lor_low_high by (done || lia || by apply land_range).
  rewrite Z.land_lor_distr_l, !Z.land_lor_distr_r, (land_low_high b n 8), (Z.land_comm (m * 2 ^ 8) c), (land_low_high c m 8) by lia.
  rewrite Z.lor_0_r, Z.lor_0_l. f_equal. rewrite <- !Z.shiftl_mul_pow2, Z.shiftl_land by lia. done.
Qed.

Lemma lor_digit b c m n : 0 <= b < 256 -> 0 <= c < 256 ->
  Z.lor (b + 256 * m) (c + 256 * n) = Z.lor b c + 256 * Z.lor m n.
Proof.
  intros Hb Hc. rewrite !(Z.mul_comm 256). change 256 with (2 ^ 8) in *.
  rewrite <- !lor_low_high by (done || lia || by apply lor_range).
  rewrite <- !Z.shiftl_mul_pow2, Z.shiftl_lor by lia.
  rewrite <- !Z.lor_assoc. f_equal. rewrite !Z.lor_assoc. f_equal. apply Z.lor_comm.
Qed.

Lemma zip_land_bytes l1 l2 : bytes l1 -> bytes l2 -> bytes (zip_with Z.land l1 l2).
Proof.
  intros H1. revert l2. induction H1 as [|b l1 Hb H1 IH]; intros [|c l2] H2; cbn; [done..|].
  inversion_clear H2. constructor; [|by apply IH]. by apply (land_range 8).
Qed.

Lemma le_val_zip_land l1 l2 : bytes l1 -> bytes l2 -> (length l1 <= length l2)%nat ->
  le_val (zip_with Z.land l1 l2) = Z.land (le_val l1) (le_val l2).
Proof.
  intros H1. revert l2. induction H1 as [|b l1 Hb H1 IH]; intros [|c l2] H2 Hl; cbn [length zip_with le_val] in *; try done.
  { lia. }
  inversion_clear H2. rewrite land_digit, IH by (done || lia). done.
Qed.

Lemma le_val_zip_lor l1 l2 : bytes l1 -> bytes l2 -> (length l1 <= length l2)%nat ->
  bytes (zip_with Z.lor l1 l2 ++ drop (length l1) l2) /\
  le_val (zip_with Z.lor l1 l2 ++ drop (length l1) l2) = Z.lor (le_val l1) (le_val l2).
Proof.
  intros H1. revert l2. induction H1 as [|b l1 Hb H1 IH]; intros l2 H2 Hl; [by cbn|].
  destruct l2 as [|c l2]; cbn [length] in Hl; [lia|]. inversion_clear H2.
  destruct (IH l2) as [I1 I2]; [done | lia |]. cbn [length zip_with le_val drop app].
  rewrite lor_digit, I2 by done. split; [|done]. constructor; [by apply (lor_range 8) | done].
Qed.

(** ** Correctness of the wrapper *)

Section laws.
Context `{BN_Laws}.

Lemma or_throw_Ok {A} (o : option A) a : or_throw o = Ok a -> o = Some a.
Proof. destruct o; cbn; intros; by simplify_eq. Qed.

Lemma or_throw_bind {A B} (o : option A) (k : A -> outcome exn B) b : (x ← or_throw o; k x) = Ok b ->
  exists a, o = Some a /\ k a = Ok b.
Proof. destruct o; cbn; intros; [eauto | done]. Qed.

Lemma bint_of_signed_spec min i b : - 2 ^ 63 <= min <= i -> i < 2 ^ 63 -> bint_of_signed min i = Ok b -> toZ b = i.
Proof.
  intros Hm Hi E. unfold bint_of_signed, u64 in E. apply or_throw_bind in E as (v & _ & E).
  destruct (Z.leb_spec 0 i) as [H0'|H0'].
  { apply or_throw_Ok, BN_set_word_law in E; rewrite Z.mod_small in *; lia. }
  destruct (Z.ltb_spec min i) as [H1|H1].
  - apply or_throw_bind in E as (w & Ew & E). apply BN_set_word_law in Ew; rewrite Z.mod_small in *; try lia.
    injection E as <-. rewrite BN_set_negative_law, Ew. lia.
  - apply or_throw_bind in E as (w & Ew & E). apply BN_set_word_law in Ew; rewrite Z.mod_small in *; try lia.
    apply or_throw_Ok, BN_sub_law in E. rewrite E, BN_set_negative_law, BN_value_one_law, Ew. lia.
Qed.

Lemma negate_spec a : toZ (negate a) = - toZ a.
Proof.
  unfold negate, is_negative. rewrite BN_is_negative_law.
  destruct (Z.ltb_spec (toZ a) 0); rewrite BN_set_negative_law; lia.
Qed.

Lemma bint_neg_spec a b : bint_neg a = Ok b -> toZ b = - toZ a.
Proof.
  unfold bint_neg, bint_copy. intros E. apply or_throw_bind in E as (v & Ev & E). injection E as <-.
  rewrite negate_spec. by rewrite (BN_copy_law a v).
Qed.

Lemma bint_lt_spec a b : bint_lt a b = (toZ a <? toZ b).
Proof.
  unfold bint_lt, spaceship_operator. rewrite BN_cmp_law. unfold Z.ltb. by destruct (toZ a ?= toZ b).
Qed.

Lemma bint_eq_spec a b : bint_eq a b = (toZ a =? toZ b).
Proof.
  unfold bint_eq, spaceship_operator. rewrite BN_cmp_law.
  destruct (Z.compare_spec (toZ a) (toZ b)) as [E|E|E]; cbn; symmetry; [by apply Z.eqb_eq | apply Z.eqb_neq; lia..].
Qed.

Lemma size_bytes_0 a : (size_bytes a =? 0)%nat = (toZ a =? 0).
Proof.
  unfold size_bytes. rewrite BN_num_bytes_law. destruct (BN_bn2bin_law a) as (B & V & Hd).
  destruct (BN_bn2bin a) as [|h t]; cbn [length Nat.eqb] in *.
  - symmetry. apply Z.eqb_eq. cbn in V. lia.
  - symmetry. apply Z.eqb_neq. intros E. rewrite E in V. unfold be_val in V. cbn [rev hd] in *.
    rewrite le_val_app in V. cbn [le_val] in V. apply Forall_cons_1 in B as [Bh Bt].
    pose proof (le_val_bound (rev t) ltac:(auto with bytes)). pose proof (pow2_pos (8 * Z.of_nat (length (rev t)))).
    unfold is_byte in Bh. change (Z.abs 0) with 0 in V. nia.
Qed.

Lemma and_bytes_spec x y d : bytes x -> bytes y -> (length x <= length y)%nat ->
  toZ (BN_bin2bn (transform_short Z.land x y) d) = Z.land (be_val x) (be_val y).
Proof.
  intros Hx Hy Hl. unfold transform_short. rewrite BN_bin2bn_law.
  - unfold be_val. rewrite rev_involutive. apply le_val_zip_land; [auto with bytes.. | rewrite !length_rev; lia].
  - apply Forall_rev, zip_land_bytes; auto with bytes.
Qed.

Lemma or_bytes_spec x y d : bytes x -> bytes y -> (length x <= length y)%nat ->
  toZ (BN_bin2bn (transform_long Z.lor x y) d) = Z.lor (be_val x) (be_val y).
Proof.
  intros Hx Hy Hl. unfold transform_long.
  destruct (le_val_zip_lor (rev x) (rev y)) as [B V]; [auto with bytes.. | rewrite !length_rev; lia |].
  rewrite length_rev in *. rewrite BN_bin2bn_law; [|auto with bytes]. unfold be_val. by rewrite rev_involutive.
Qed.

Lemma bint_and_spec a b c : bint_and a b = Ok c ->
  toZ c = (if (toZ a <? 0) && (toZ b <? 0) then -1 else 1) * Z.land (Z.abs (toZ a)) (Z.abs (toZ b)).
Proof.
  unfold bint_and. rewrite size_bytes_0. destruct (Z.eqb_spec (toZ b) 0) as [E|E].
  { intros Ec. apply bint_of_signed_spec in Ec; [|lia..]. rewrite Ec, E, Z.land_0_r. lia. }
  intros [= <-]. unfold is_negative, to_bin. rewrite !BN_is_negative_law.
  destruct (BN_bn2bin_law a) as (Ba & Va & _), (BN_bn2bin_law b) as (Bb & Vb & _).
  set (r := if (_ <=? _)%nat then _ else _).
  assert (toZ r = Z.land (Z.abs (toZ a)) (Z.abs (toZ b))) as Er.
  { unfold r. destruct (Nat.leb_spec (length (BN_bn2bin b)) (length (BN_bn2bin a))).
    - rewrite and_bytes_spec, Va, Vb by done. apply Z.land_comm.
    - rewrite and_bytes_spec, Va, Vb by (done || lia). done. }
  destruct (_ && _); rewrite ?negate_spec, Er; lia.
Qed.

Lemma bint_or_spec a b :
  toZ (bint_or a b) = if toZ b =? 0 then toZ a
    else (if xorb (toZ a <? 0) (toZ b <? 0) then -1 else 1) * Z.lor (Z.abs (toZ a)) (Z.abs (toZ b)).
Proof.
  unfold bint_or. rewrite size_bytes_0. destruct (Z.eqb_spec (toZ b) 0) as [E|E]; [done|].
  unfold is_negative, to_bin. rewrite !BN_is_negative_law.
  destruct (BN_bn2bin_law a) as (Ba & Va & _), (BN_bn2bin_law b) as (Bb & Vb & _).
  set (r := if (_ <=? _)%nat then _ else _).
  assert (toZ r = Z.lor (Z.abs (toZ a)) (Z.abs (toZ b))) as Er.
  { unfold r. destruct (Nat.leb_spec (length (BN_bn2bin b)) (length (BN_bn2bin a))).
    - rewrite or_bytes_spec, Va, Vb by done. apply Z.lor_comm.
    - rewrite or_bytes_spec, Va, Vb by (done || lia). done. }
  destruct (toZ a <? 0), (toZ b <? 0); cbn [andb orb negb xorb]; rewrite ?negate_spec, Er; lia.
Qed.

(** ** Serialization *)

Lemma mpi_num_val body : bytes body -> mpi_value body = num_val (rev body).
Proof.
  destruct body as [|h t]; [done|]. intros [Hh Ht]%Forall_cons_1. cbn [mpi_value rev]. rewrite num_val_snoc by done.
  unfold be_val. cbn [rev]. rewrite !le_val_app. cbn [le_val]. destruct (Z.ltb_spec h 128); lia.
Qed.

Lemma mpi_body_spec neg mag : bytes mag -> hd 1 mag <> 0 ->
  bytes (mpi_body neg mag) /\ mpi_value (mpi_body neg mag) = (if neg then - be_val mag else be_val mag) /\
  minimal (rev (mpi_body neg mag)).
Proof.
  destruct mag as [|h t]; cbn [mpi_body hd]; intros Hm Hh.
  { split_and!; [done | by destruct neg | by left]. }
  apply Forall_cons_1 in Hm as [Bh Bt]. assert (bytes (rev t)) as Br by auto with bytes. unfold is_byte in Bh.
  destruct (Z.leb_spec 128 h).
  - assert (is_byte (if neg then 128 else 0)) as Bs by (by destruct neg).
    split_and!; [constructor; [done | by constructor] | |].
    + rewrite mpi_num_val by (constructor; [done | by constructor]). cbn [rev].
      rewrite num_val_sign by (destruct neg; [by right | by left]). by destruct neg.
    + cbn [rev]. apply minimal_snoc; [auto with bytes | done |]. right. by exists (rev t), h.
  - assert (is_byte (if neg then h + 128 else h)) as Bs by (unfold is_byte; destruct neg; lia).
    split_and!; [by constructor | |].
    + cbn [mpi_value]. unfold be_val. destruct neg.
      * rewrite (proj2 (Z.ltb_ge _ _)) by lia. by replace (h + 128 - 128) with h by lia.
      * by rewrite (proj2 (Z.ltb_lt _ _)) by lia.
    + cbn [rev]. apply minimal_snoc; [done..|]. left. rewrite byte_mod_128 by done.
      destruct neg; [rewrite (proj2 (Z.ltb_ge _ _)) by lia | rewrite (proj2 (Z.ltb_lt _ _)) by lia]; lia.
Qed.

Lemma bint_serialize_spec a : bytes (bint_serialize a) /\ num_val (bint_serialize a) = toZ a /\ minimal (bint_serialize a).
Proof.
  unfold bint_serialize. rewrite BN_bn2mpi_law. cbn zeta. destruct (BN_bn2bin_law a) as (B & V & Hd).
  destruct (mpi_body_spec (BN_is_negative a) (BN_bn2bin a) B Hd) as (M1 & M2 & M3).
  assert (forall n body, drop length_in_bytes (be_bytes 4 n ++ body) = body) as -> by done.
  split_and!; [auto with bytes | | done]. rewrite <- mpi_num_val, M2, V, BN_is_negative_law by done.
  destruct (Z.ltb_spec (toZ a) 0); lia.
Qed.

Lemma bint_deserialize_spec s a : bytes s -> bint_deserialize s = Ok a -> toZ a = num_val s.
Proof.
  intros Hs. unfold bint_deserialize. rewrite size_header, <- (length_rev s). case_match eqn:E; [|done]. intros [= <-].
  apply BN_mpi2bn_law in E; [|auto with bytes]. rewrite E, mpi_num_val, rev_involutive by auto with bytes. done.
Qed.

End laws.
