(* ===== verification/ScriptNum.v ===== *)
(** * Script numbers

    [src/script/script_num.h] and [script_num.cpp]: [CScriptNum] is an [int64_t] (numbers of at most
    four or five bytes) or a [bsv::bint].  Its constructor throws on overlong and on non-minimal
    encodings; an [assert] and signed overflow, which C++ leaves undefined, are [Abort]. *)

From S2P Require Import Prelude IntSer BigInt.

Section CScriptNum.
Context `{BN_API}.

Inductive CScriptNum :=
| Small (n : Z)
| Big (n : BIGNUM).

Definition MAXIMUM_ELEMENT_SIZE : Z := 4.

(** The constructor from bytes. *)

Definition CScriptNum_of_bytes (span : list Z) (fRequireMinimal : bool) (nMaxNumSize : Z) (big_int : bool) :
    outcome exn CScriptNum :=
  if nMaxNumSize <? Z.of_nat (length span) then Throw scriptnum_overflow_error
  else if fRequireMinimal && negb (IsMinimallyEncoded span nMaxNumSize) then Throw scriptnum_minencode_error
  else
    match span with
    | [] => if big_int then b ← bint_of_int 0; Ok (Big b) else Ok (Small 0)
    | _ =>
        if big_int then b ← bint_deserialize span; Ok (Big b)
        else match deserialize span with Some v => Ok (Small v) | None => Abort end
    end.

(** An [int64_t] result: signed overflow is undefined. *)

Definition in_i64 (z : Z) : bool := (- 2 ^ 63 <=? z) && (z <? 2 ^ 63).

Definition small (z : Z) : outcome exn CScriptNum := if in_i64 z then Ok (Small z) else Abort.

Definition snum_and (a b : CScriptNum) : outcome exn CScriptNum :=
  match a, b with
  | Small x, Small y => Ok (Small (Z.land x y))
  | Big x, Big y => r ← bint_and x y; Ok (Big r)
  | _, _ => Abort
  end.

Definition snum_and_i64 (a : CScriptNum) (other : Z) : outcome exn CScriptNum :=
  match a with
  | Small x => Ok (Small (Z.land x other))
  | Big x => o ← bint_of_i64 other; r ← bint_and x o; Ok (Big r)
  end.

Definition snum_eq (a b : CScriptNum) : outcome exn bool :=
  match a, b with
  | Small x, Small y => Ok (x =? y)
  | Big x, Big y => Ok (bint_eq x y)
  | Big x, Small y => b ← bint_of_i64 y; Ok (bint_eq x b)
  | Small x, Big y => a ← bint_of_i64 x; Ok (bint_eq a y)
  end.

Definition snum_lt (a b : CScriptNum) : outcome exn bool :=
  match a, b with
  | Small x, Small y => Ok (x <? y)
  | Big x, Big y => Ok (bint_lt x y)
  | Big x, Small y => b ← bint_of_i64 y; Ok (bint_lt x b)
  | Small x, Big y => a ← bint_of_i64 x; Ok (bint_lt a y)
  end.

(** The overflow assertions of [operator+=] and [operator-=] are those of the result's range. *)

Definition snum_add (a b : CScriptNum) : outcome exn CScriptNum :=
  match a, b with
  | Small x, Small y =>
      _ ← assert_ ((y =? 0) || ((0 <? y) && (x <=? 2 ^ 63 - 1 - y)) || ((y <? 0) && (- 2 ^ 63 - y <=? x)));
      Ok (Small (x + y))
  | Big x, Big y => r ← bint_add x y; Ok (Big r)
  | _, _ => Abort
  end.

Definition snum_sub (a b : CScriptNum) : outcome exn CScriptNum :=
  match a, b with
  | Small x, Small y =>
      _ ← assert_ ((y =? 0) || ((0 <? y) && (- 2 ^ 63 + y <=? x)) || ((y <? 0) && (x <=? 2 ^ 63 - 1 + y)));
      Ok (Small (x - y))
  | Big x, Big y => r ← bint_sub x y; Ok (Big r)
  | _, _ => Abort
  end.

Definition snum_mul (a b : CScriptNum) : outcome exn CScriptNum :=
  match a, b with
  | Small x, Small y => small (x * y)
  | Big x, Big y => r ← bint_mul x y; Ok (Big r)
  | _, _ => Abort
  end.

Definition snum_div (a b : CScriptNum) : outcome exn CScriptNum :=
  match a, b with
  | Small x, Small y => if y =? 0 then Abort else small (Z.quot x y)
  | Big x, Big y => r ← bint_div x y; Ok (Big r)
  | _, _ => Abort
  end.

Definition snum_mod (a b : CScriptNum) : outcome exn CScriptNum :=
  match a, b with
  | Small x, Small y =>
      if y =? 0 then Abort else if in_i64 (Z.quot x y) then Ok (Small (Z.rem x y)) else Abort
  | Big x, Big y => r ← bint_mod x y; Ok (Big r)
  | _, _ => Abort
  end.

Definition snum_neg (a : CScriptNum) : outcome exn CScriptNum :=
  match a with
  | Small x => small (- x)
  | Big x => r ← bint_neg x; Ok (Big r)
  end.

Definition INT_MAX : Z := 2 ^ 31 - 1.

Definition INT_MIN : Z := - 2 ^ 31.

Definition getint (a : CScriptNum) : outcome exn Z :=
  match a with
  | Small n => Ok (if INT_MAX <? n then INT_MAX else if n <? INT_MIN then INT_MIN else n)
  | Big n =>
      bn_int_min ← bint_of_int INT_MIN;
      bn_int_max ← bint_of_int INT_MAX;
      if bint_lt bn_int_max n then Ok INT_MAX
      else if bint_lt n bn_int_min then Ok INT_MIN
      else v ← to_long n; Ok (i32 v)
  end.

Definition snum_to_size_t_limited (a : CScriptNum) : outcome exn Z :=
  match a with
  | Small n => _ ← assert_ ((0 <=? n) && (n <=? INT_MAX)); Ok n
  | Big n =>
      zero ← bint_of_int 0;
      max ← bint_of_int INT_MAX;
      _ ← assert_ (negb (bint_lt n zero) && negb (bint_lt max n));
      to_size_t_limited n
  end.

Definition getvch (a : CScriptNum) : list Z :=
  match a with
  | Small n => serialize n
  | Big n => bint_serialize n
  end.

End CScriptNum.

(** ** Correctness *)

Section snum_laws.
Context `{BN_Laws}.

Definition snum_val (a : CScriptNum) : Z := match a with Small n => n | Big n => toZ n end.

Definition is_big (a : CScriptNum) : bool := match a with Small _ => false | Big _ => true end.

(** The operands of a numeric opcode: a small number came from at most four bytes. *)

Definition operand (a : CScriptNum) : Prop := match a with Small n => - 2 ^ 31 < n < 2 ^ 31 | Big _ => True end.

Definition in_range (a : CScriptNum) : Prop := match a with Small n => - 2 ^ 63 <= n < 2 ^ 63 | Big _ => True end.

Lemma getvch_spec a : in_range a -> bytes (getvch a) /\ num_val (getvch a) = snum_val a /\ minimal (getvch a).
Proof. destruct a; [apply serialize_spec | intros _; apply bint_serialize_spec]. Qed.

Context `{!BN_Total}.

Lemma bint_of_signed_total min i : - 2 ^ 63 <= min <= i -> i < 2 ^ 63 -> exists b, bint_of_signed min i = Ok b /\ toZ b = i.
Proof.
  intros Hm Hi. assert (exists b, bint_of_signed min i = Ok b) as [b Hb].
  { unfold bint_of_signed, u64. destruct BN_new_total as [v ->]. cbn.
    destruct (Z.leb_spec 0 i) as [?|?].
    { destruct (BN_set_word_total v (i mod 2 ^ 64)) as [w ->]; [apply Z.mod_pos_bound; lia | by eexists]. }
    destruct (min <? i).
    - destruct (BN_set_word_total v ((- i) mod 2 ^ 64)) as [w ->]; [apply Z.mod_pos_bound; lia | by eexists].
    - destruct (BN_set_word_total v ((- (i + 1)) mod 2 ^ 64)) as [w ->]; [apply Z.mod_pos_bound; lia|]. cbn.
      destruct (BN_sub_total (BN_set_negative w true) BN_value_one) as [x ->]. by eexists. }
  exists b. split; [done|]. by eapply bint_of_signed_spec.
Qed.

Lemma bint_of_int_total i : - 2 ^ 31 <= i < 2 ^ 31 -> exists b, bint_of_int i = Ok b /\ toZ b = i.
Proof. intros. apply bint_of_signed_total; lia. Qed.

Lemma bint_of_i64_total i : - 2 ^ 63 <= i < 2 ^ 63 -> exists b, bint_of_i64 i = Ok b /\ toZ b = i.
Proof. intros. apply bint_of_signed_total; lia. Qed.

Lemma CScriptNum_of_bytes_spec span fRequireMinimal nMaxNumSize big_int :
  bytes span -> Z.of_nat (length span) < 2 ^ 31 -> (big_int = false -> nMaxNumSize <= 8) ->
  if nMaxNumSize <? Z.of_nat (length span) then
    CScriptNum_of_bytes span fRequireMinimal nMaxNumSize big_int = Throw scriptnum_overflow_error
  else if fRequireMinimal && negb (IsMinimallyEncoded span nMaxNumSize) then
    CScriptNum_of_bytes span fRequireMinimal nMaxNumSize big_int = Throw scriptnum_minencode_error
  else exists n, CScriptNum_of_bytes span fRequireMinimal nMaxNumSize big_int = Ok n /\
    snum_val n = num_val span /\ is_big n = big_int /\ (fRequireMinimal = true -> getvch n = span).
Proof.
  intros Hs Hlen Hsmall. unfold CScriptNum_of_bytes.
  destruct (Z.ltb_spec nMaxNumSize (Z.of_nat (length span))) as [|Hle]; [done|].
  destruct (fRequireMinimal && negb (IsMinimallyEncoded span nMaxNumSize)) eqn:Em; [done|].
  assert (forall n, in_range n -> snum_val n = num_val span -> fRequireMinimal = true -> getvch n = span) as Hvch.
  { intros n Hr Hv ->. destruct (getvch_spec n Hr) as (G1 & G2 & G3). cbn [andb] in Em. apply negb_false_iff in Em.
    apply IsMinimallyEncoded_spec in Em as [_ Em]; [|done]. apply minimal_unique; [done..|]. by rewrite G2. }
  destruct span as [|b span].
  - destruct big_int.
    + destruct (bint_of_int_total 0 ltac:(lia)) as (z & Ez & Vz). rewrite Ez. cbn. exists (Big z). by split_and!; [..|apply Hvch].
    + exists (Small 0). split_and!; [done.. | by apply Hvch].
  - destruct big_int.
    + unfold bint_deserialize. rewrite size_header, <- (length_rev (b :: span)).
      destruct (BN_mpi2bn_total (rev (b :: span))) as [z Ez]; [auto with bytes | by rewrite length_rev |].
      rewrite Ez. cbn. exists (Big z). assert (toZ z = num_val (b :: span)) as Vz.
      { apply BN_mpi2bn_law in Ez; [|auto with bytes]. rewrite Ez, mpi_num_val, rev_involutive by auto with bytes. done. }
      split_and!; [done.. | by apply Hvch].
    + rewrite deserialize_spec; [|done..|specialize (Hsmall eq_refl); lia]. exists (Small (num_val (b :: span))).
      split_and!; [done.. |]. apply Hvch; [|done]. cbn [in_range].
      destruct (num_val_bound (b :: span) Hs) as [Hb|]; [|done].
      specialize (Hsmall eq_refl).
      pose proof (Z.pow_le_mono_r 2 (8 * Z.of_nat (length (b :: span))) 64 ltac:(lia) ltac:(lia)). lia.
Qed.

(** Decoding an operand: the constructor of [CScriptNum] throws the overflow error exactly on
    strings longer than the limit, the minimal-encoding error exactly on a non-minimal string when
    minimality is required, and otherwise gives the number the string denotes, as an [int64_t] or as
    a big integer as requested. *)
Theorem CScriptNum_decodes span fRequireMinimal nMaxNumSize big_int :
  bytes span -> Z.of_nat (length span) < 2 ^ 31 -> (big_int = false -> nMaxNumSize <= 8) ->
  if nMaxNumSize <? Z.of_nat (length span) then
    CScriptNum_of_bytes span fRequireMinimal nMaxNumSize big_int = Throw scriptnum_overflow_error
  else if fRequireMinimal && negb (IsMinimallyEncoded span nMaxNumSize) then
    CScriptNum_of_bytes span fRequireMinimal nMaxNumSize big_int = Throw scriptnum_minencode_error
  else exists n, CScriptNum_of_bytes span fRequireMinimal nMaxNumSize big_int = Ok n /\
    snum_val n = num_val span /\ is_big n = big_int /\ (fRequireMinimal = true -> getvch n = span).
Proof. apply CScriptNum_of_bytes_spec. Qed.

Lemma or_throw_total {A} (o : option A) : is_Some o -> exists a, or_throw o = Ok a /\ o = Some a.
Proof. intros [a ->]. by exists a. Qed.

Lemma in_i64_true z : - 2 ^ 63 <= z < 2 ^ 63 -> in_i64 z = true.
Proof. intros. unfold in_i64. by rewrite (proj2 (Z.leb_le _ _)), (proj2 (Z.ltb_lt _ _)) by lia. Qed.

Lemma quot_abs_le x y : y <> 0 -> Z.abs (Z.quot x y) <= Z.abs x.
Proof.
  intros Hy. rewrite <- Z.quot_abs, Z.quot_div_nonneg by lia. apply Z.div_le_upper_bound; [lia|]. nia.
Qed.

(** Lifts a total, law-abiding big-integer operation. *)

Lemma big_op (o : option BIGNUM) v : is_Some o -> (forall c, o = Some c -> toZ c = v) ->
  exists c, (r ← or_throw o; Ok (Big r)) = Ok c /\ snum_val c = v /\ is_big c = true.
Proof. intros [c ->] Hv. exists (Big c). split_and!; [done | by apply Hv | done]. Qed.

Lemma snum_mul_spec a b : is_big a = is_big b -> operand a -> operand b ->
  exists c, snum_mul a b = Ok c /\ snum_val c = snum_val a * snum_val b /\ is_big c = is_big a.
Proof.
  destruct a as [x|x], b as [y|y]; intros E Ha Hb; try done; cbn [snum_mul snum_val is_big operand] in *.
  - unfold small. rewrite in_i64_true by nia. by exists (Small (x * y)).
  - apply big_op; [apply BN_mul_total | apply BN_mul_law].
Qed.

Lemma snum_div_spec a b : is_big a = is_big b -> operand a -> operand b -> snum_val b <> 0 ->
  exists c, snum_div a b = Ok c /\ snum_val c = Z.quot (snum_val a) (snum_val b) /\ is_big c = is_big a.
Proof.
  destruct a as [x|x], b as [y|y]; intros E Ha Hb Hn; try done; cbn [snum_div snum_val is_big operand] in *.
  - rewrite (proj2 (Z.eqb_neq _ _)) by done. unfold small.
    pose proof (quot_abs_le x y Hn).
    rewrite in_i64_true by lia. by exists (Small (Z.quot x y)).
  - apply big_op; [by apply BN_div_total | apply BN_div_law].
Qed.

Lemma snum_mod_spec a b : is_big a = is_big b -> operand a -> operand b -> snum_val b <> 0 ->
  exists c, snum_mod a b = Ok c /\ snum_val c = Z.rem (snum_val a) (snum_val b) /\ is_big c = is_big a.
Proof.
  destruct a as [x|x], b as [y|y]; intros E Ha Hb Hn; try done; cbn [snum_mod snum_val is_big operand] in *.
  - rewrite (proj2 (Z.eqb_neq _ _)) by done. pose proof (quot_abs_le x y Hn).
    rewrite in_i64_true by lia. by exists (Small (Z.rem x y)).
  - apply big_op; [by apply BN_mod_total | apply BN_mod_law].
Qed.

Lemma snum_add_spec a b : is_big a = is_big b -> operand a -> operand b ->
  exists c, snum_add a b = Ok c /\ snum_val c = snum_val a + snum_val b /\ is_big c = is_big a.
Proof.
  destruct a as [x|x], b as [y|y]; intros E Ha Hb; try done; cbn [snum_add snum_val is_big operand] in *.
  - exists (Small (x + y)). split; [|done]. unfold assert_. replace (_ || _) with true; [done|].
    symmetry. rewrite !orb_true_iff, !andb_true_iff, Z.eqb_eq, !Z.ltb_lt, !Z.leb_le. lia.
  - apply big_op; [apply BN_add_total | apply BN_add_law].
Qed.

Lemma snum_sub_spec a b : is_big a = is_big b -> operand a -> operand b ->
  exists c, snum_sub a b = Ok c /\ snum_val c = snum_val a - snum_val b /\ is_big c = is_big a.
Proof.
  destruct a as [x|x], b as [y|y]; intros E Ha Hb; try done; cbn [snum_sub snum_val is_big operand] in *.
  - exists (Small (x - y)). split; [|done]. unfold assert_. replace (_ || _) with true; [done|].
    symmetry. rewrite !orb_true_iff, !andb_true_iff, Z.eqb_eq, !Z.ltb_lt, !Z.leb_le. lia.
  - apply big_op; [apply BN_sub_total | apply BN_sub_law].
Qed.

Lemma snum_neg_spec a : operand a -> exists c, snum_neg a = Ok c /\ snum_val c = - snum_val a /\ is_big c = is_big a.
Proof.
  destruct a as [x|x]; intros Ha; cbn [snum_neg snum_val is_big operand] in *.
  - unfold small. rewrite in_i64_true by lia. by exists (Small (- x)).
  - unfold bint_neg, bint_copy. destruct (BN_copy_total x) as [y Hy]. rewrite Hy. cbn. eexists. split; [done|].
    cbn [snum_val is_big]. by rewrite negate_spec, (BN_copy_law x y).
Qed.

Lemma snum_lt_spec a b : in_range a -> in_range b -> snum_lt a b = Ok (snum_val a <? snum_val b).
Proof.
  destruct a as [x|x], b as [y|y]; intros Ha Hb; cbn [snum_lt snum_val in_range] in *; [done | | | by rewrite bint_lt_spec].
  - destruct (bint_of_i64_total x Ha) as (z & -> & Vz). cbn. by rewrite bint_lt_spec, Vz.
  - destruct (bint_of_i64_total y Hb) as (z & -> & Vz). cbn. by rewrite bint_lt_spec, Vz.
Qed.

Lemma snum_eq_spec a b : in_range a -> in_range b -> snum_eq a b = Ok (snum_val a =? snum_val b).
Proof.
  destruct a as [x|x], b as [y|y]; intros Ha Hb; cbn [snum_eq snum_val in_range] in *; [done | | | by rewrite bint_eq_spec].
  - destruct (bint_of_i64_total x Ha) as (z & -> & Vz). cbn. by rewrite bint_eq_spec, Vz.
  - destruct (bint_of_i64_total y Hb) as (z & -> & Vz). cbn. by rewrite bint_eq_spec, Vz.
Qed.

(** [getint] saturates at the bounds of [int]. *)

Lemma getint_spec a : in_range a -> getint a = Ok (Z.max INT_MIN (Z.min INT_MAX (snum_val a))).
Proof.
  unfold getint. destruct a as [x|x]; cbn [snum_val in_range]; intros Ha.
  - destruct (Z.ltb_spec INT_MAX x), (Z.ltb_spec x INT_MIN); f_equal; unfold INT_MAX, INT_MIN in *; lia.
  - destruct (bint_of_int_total INT_MIN ltac:(unfold INT_MIN; lia)) as (mn & -> & Vmn).
    destruct (bint_of_int_total INT_MAX ltac:(unfold INT_MAX; lia)) as (mx & -> & Vmx). cbn [mbind outcome_bind].
    rewrite !bint_lt_spec, Vmn, Vmx. unfold INT_MAX, INT_MIN in *.
    destruct (Z.ltb_spec (2 ^ 31 - 1) (toZ x)); [f_equal; lia|]. destruct (Z.ltb_spec (toZ x) (- 2 ^ 31)); [f_equal; lia|].
    unfold to_long. destruct (BN_to_long_total x) as [v Ev]. rewrite Ev. cbn. apply BN_to_long_law in Ev; [|lia].
    subst v. f_equal. unfold i32. rewrite Z.mod_small; lia.
Qed.

(** Script arithmetic: on operands of the same kind (an [int64_t] from at most four bytes, or a
    big integer) addition, subtraction, multiplication and negation are those of the integers,
    division and remainder truncate towards zero and are defined for every non-zero divisor,
    comparison orders the values also between kinds, and [getint] saturates; no assertion fails and
    no signed overflow occurs. *)
Theorem script_arithmetic a b :
  is_big a = is_big b -> operand a -> operand b ->
  (exists c, snum_add a b = Ok c /\ snum_val c = snum_val a + snum_val b /\ is_big c = is_big a) /\
  (exists c, snum_sub a b = Ok c /\ snum_val c = snum_val a - snum_val b /\ is_big c = is_big a) /\
  (exists c, snum_mul a b = Ok c /\ snum_val c = snum_val a * snum_val b /\ is_big c = is_big a) /\
  (exists c, snum_neg a = Ok c /\ snum_val c = - snum_val a /\ is_big c = is_big a) /\
  (snum_val b <> 0 ->
     (exists c, snum_div a b = Ok c /\ snum_val c = Z.quot (snum_val a) (snum_val b) /\ is_big c = is_big a) /\
     (exists c, snum_mod a b = Ok c /\ snum_val c = Z.rem (snum_val a) (snum_val b) /\ is_big c = is_big a)) /\
  snum_lt a b = Ok (snum_val a <? snum_val b) /\ snum_eq a b = Ok (snum_val a =? snum_val b) /\
  getint a = Ok (Z.max INT_MIN (Z.min INT_MAX (snum_val a))).
Proof.
  intros E Ha Hb.
  assert (forall n, operand n -> in_range n) as Hr by (intros [n|n]; cbn; [lia | done]).
  split_and!; [by apply snum_add_spec | by apply snum_sub_spec | by apply snum_mul_spec | by apply snum_neg_spec |
    intros Hn; split; [by apply snum_div_spec | by apply snum_mod_spec] |
    apply snum_lt_spec; auto | apply snum_eq_spec; auto | apply getint_spec; auto].
Qed.

End snum_laws.

(** Witnesses at the executable big integers. *)

Lemma CScriptNum_decodes_witness : exists n,
  CScriptNum_of_bytes [0xff; 0xff; 0xff; 0xff; 0x80] true 520 true = Ok n /\ snum_val n = - 4294967295.
Proof.
  destruct (CScriptNum_decodes [0xff; 0xff; 0xff; 0xff; 0x80] true 520 true) as (n & E & V & _);
    [by repeat constructor | done | done |].
  exists n. split; [exact E|]. rewrite V. reflexivity.
Defined.

Lemma script_arithmetic_witness : exists q r,
  snum_div (Small (-7)) (Small 2) = Ok q /\ snum_val q = -3 /\ snum_mod (Small (-7)) (Small 2) = Ok r /\ snum_val r = -1.
Proof.
  destruct (script_arithmetic (Small (-7)) (Small 2)) as (_ & _ & _ & _ & H & _); [done | cbn; lia | cbn; lia |].
  destruct H as [(q & Eq & Vq & _) (r & Er & Vr & _)]; [cbn; lia|]. exists q, r. auto.
Defined.
