(* ===== verification/Stack.v ===== *)
(** * The script stacks

    [src/script/limitedstack.h] and [limitedstack.cpp]: the main stack of the interpreter and its
    child, the alt stack, share one memory budget.  An element remembers the stack it was created on;
    every size change is charged to the root of that stack, so both stacks of a run charge the
    counters of the root and the model keeps them in one record.  Vectors are lists, bottom first. *)

From S2P Require Import Prelude IntSer.
From stdpp Require Import list relations.
#[local] Open Scope Z_scope.

(** Which of the two stacks: the root ([parentStack == nullptr]) or its child. *)

Inductive who := Root | Child.

#[export] Instance who_eq_dec : EqDecision who.
Proof. solve_decision. Defined.

Record LimitedVector := { stackElement : list Z; vstack : who }.

Record LimitedStack := {
  combinedStackSize : Z;
  maxStackSize : Z;
  root : list LimitedVector;
  child : list LimitedVector
}.

Definition ELEMENT_OVERHEAD : Z := 32.

Definition vsize (v : LimitedVector) : Z := Z.of_nat (length (stackElement v)).

Definition elements (s : LimitedStack) (w : who) : list LimitedVector :=
  match w with Root => root s | Child => child s end.

Definition set_elements (s : LimitedStack) (w : who) (l : list LimitedVector) : LimitedStack :=
  match w with
  | Root => {| combinedStackSize := combinedStackSize s; maxStackSize := maxStackSize s; root := l; child := child s |}
  | Child => {| combinedStackSize := combinedStackSize s; maxStackSize := maxStackSize s; root := root s; child := l |}
  end.

Definition set_combined (s : LimitedStack) (n : Z) : LimitedStack :=
  {| combinedStackSize := n; maxStackSize := maxStackSize s; root := root s; child := child s |}.

Definition size (s : LimitedStack) (w : who) : nat := length (elements s w).

Definition empty (s : LimitedStack) (w : who) : bool := (size s w =? 0)%nat.

(** ** Charging *)

(** A child forwards to its parent, the root. *)

Definition getCombinedStackSize (s : LimitedStack) (w : who) : Z :=
  match w with Root => combinedStackSize s | Child => combinedStackSize s end.

Definition decreaseCombinedStackSize (s : LimitedStack) (w : who) (additionalSize : Z) : LimitedStack :=
  set_combined s (u64 (getCombinedStackSize s w - additionalSize)).

Definition increaseCombinedStackSize (s : LimitedStack) (w : who) (additionalSize : Z) : outcome exn LimitedStack :=
  if maxStackSize s <? u64 (getCombinedStackSize s w + additionalSize) then Throw stack_overflow_error
  else Ok (set_combined s (u64 (getCombinedStackSize s w + additionalSize))).

(** ** Operations of [LimitedStack] *)

Definition new_stack (maxStackSizeIn : Z) : LimitedStack :=
  {| combinedStackSize := 0; maxStackSize := maxStackSizeIn; root := []; child := [] |}.

(** [makeChildStack]: a run of the interpreter starts with an empty alt stack. *)

Definition makeChildStack (s : LimitedStack) : LimitedStack := set_elements s Child [].

(** [stack.at(stack.size() + index)] for a negative [index]. *)

Definition at_top (s : LimitedStack) (w : who) (index : Z) : outcome exn nat :=
  let i := u64 (Z.of_nat (size s w) + u64 index) in
  if Z.of_nat (size s w) <=? i then Throw out_of_range else Ok (Z.to_nat i).

Definition at_ (s : LimitedStack) (w : who) (i : nat) : outcome exn LimitedVector :=
  match elements s w !! i with Some v => Ok v | None => Throw out_of_range end.

Definition stacktop (s : LimitedStack) (w : who) (index : Z) : outcome exn LimitedVector :=
  if 0 <=? index then Throw invalid_argument
  else i ← at_top s w index; at_ s w i.

Definition pop_back (s : LimitedStack) (w : who) : outcome exn LimitedStack :=
  if empty s w then Throw runtime_error
  else
    v ← stacktop s w (-1);
    let s := decreaseCombinedStackSize s w (vsize v + ELEMENT_OVERHEAD) in
    Ok (set_elements s w (removelast (elements s w))).

Definition push_back_vector (s : LimitedStack) (w : who) (element : LimitedVector) : outcome exn LimitedStack :=
  if negb (bool_decide (vstack element = w)) then Throw invalid_argument
  else
    s ← increaseCombinedStackSize s w (vsize element + ELEMENT_OVERHEAD);
    Ok (set_elements s w (elements s w ++ [element])).

(** [push_back(const valtype&)]; a [std::vector] has fewer than 2^63 bytes, its constructor throws
    otherwise. *)

Definition push_back (s : LimitedStack) (w : who) (element : list Z) : outcome exn LimitedStack :=
  if 2 ^ 63 - ELEMENT_OVERHEAD <=? Z.of_nat (length element) then Throw length_error
  else
    s ← increaseCombinedStackSize s w (Z.of_nat (length element) + ELEMENT_OVERHEAD);
    Ok (set_elements s w (elements s w ++ [{| stackElement := element; vstack := w |}])).

(** [stack.end() + index]: outside the vector the iterator is undefined. *)

Definition end_plus (s : LimitedStack) (w : who) (index : Z) : outcome exn nat :=
  let i := Z.of_nat (size s w) + index in
  if (i <? 0) || (Z.of_nat (size s w) <? i) then Abort else Ok (Z.to_nat i).

Fixpoint decrease_each (s : LimitedStack) (w : who) (l : list LimitedVector) : LimitedStack :=
  match l with
  | [] => s
  | v :: t => decrease_each (decreaseCombinedStackSize s w (vsize v + ELEMENT_OVERHEAD)) w t
  end.

Definition erase_range (s : LimitedStack) (w : who) (first last : Z) : outcome exn LimitedStack :=
  if (0 <=? last) || (last <=? first) then Throw invalid_argument
  else
    f ← end_plus s w first;
    l ← end_plus s w last;
    let removed := take (l - f) (drop f (elements s w)) in
    Ok (set_elements (decrease_each s w removed) w (take f (elements s w) ++ drop l (elements s w))).

Definition erase (s : LimitedStack) (w : who) (index : Z) : outcome exn LimitedStack :=
  if 0 <=? index then Throw invalid_argument
  else
    i ← at_top s w index;
    v ← at_ s w i;
    let s := decreaseCombinedStackSize s w (vsize v + ELEMENT_OVERHEAD) in
    Ok (set_elements s w (delete i (elements s w))).

Definition insert (s : LimitedStack) (w : who) (position : Z) (element : LimitedVector) : outcome exn LimitedStack :=
  if negb (bool_decide (vstack element = w)) then Throw invalid_argument
  else if 0 <=? position then Throw invalid_argument
  else
    s ← increaseCombinedStackSize s w (vsize element + ELEMENT_OVERHEAD);
    i ← end_plus s w position;
    Ok (set_elements s w (take i (elements s w) ++ element :: drop i (elements s w))).

Definition swapElements (s : LimitedStack) (w : who) (index1 index2 : nat) : outcome exn LimitedStack :=
  v1 ← at_ s w index1;
  v2 ← at_ s w index2;
  Ok (set_elements s w (<[index2 := v1]> (<[index1 := v2]> (elements s w)))).

Definition other (w : who) : who := match w with Root => Child | Child => Root end.

(** [this->moveTopToStack(otherStack)]: from the other stack of the pair to [w]. *)

Definition moveTopToStack (s : LimitedStack) (w : who) : outcome exn LimitedStack :=
  v ← stacktop s (other w) (-1);
  let s := set_elements s w (elements s w ++ [v]) in
  Ok (set_elements s (other w) (removelast (elements s (other w)))).

Definition MoveToValtypes (s : LimitedStack) (w : who) : LimitedStack * list (list Z) :=
  (set_elements (decrease_each s w (elements s w)) w [], map stackElement (elements s w)).

(** ** Operations of [LimitedVector] on the element at position [i] of stack [w] *)

Definition set_element (s : LimitedStack) (w : who) (i : nat) (data : list Z) : LimitedStack :=
  set_elements s w (alter (fun v => {| stackElement := data; vstack := vstack v |}) i (elements s w)).

Definition vec_push_back (s : LimitedStack) (w : who) (i : nat) (element : Z) : outcome exn LimitedStack :=
  v ← at_ s w i;
  s ← increaseCombinedStackSize s (vstack v) 1;
  Ok (set_element s w i (stackElement v ++ [element])).

Definition vec_append (s : LimitedStack) (w : who) (i : nat) (second : LimitedVector) : outcome exn LimitedStack :=
  v ← at_ s w i;
  s ← increaseCombinedStackSize s (vstack v) (vsize second);
  Ok (set_element s w i (stackElement v ++ stackElement second)).

Definition vec_padRight (s : LimitedStack) (w : who) (i : nat) (size : Z) (signbit : Z) : outcome exn LimitedStack :=
  v ← at_ s w i;
  if vsize v <? size then
    let sizeDifference := size - vsize v in
    s ← increaseCombinedStackSize s (vstack v) sizeDifference;
    let resized := stackElement v ++ replicate (Z.to_nat sizeDifference) 0 in
    Ok (set_element s w i (removelast resized ++ [signbit]))
  else Ok s.

(** Returns also whether the element changed. *)

Definition vec_MinimallyEncode (s : LimitedStack) (w : who) (i : nat) : outcome exn (bool * LimitedStack) :=
  v ← at_ s w i;
  let s := decreaseCombinedStackSize s (vstack v) (vsize v) in
  let '(successfulEncoding, data) := MinimallyEncode (stackElement v) in
  let s := set_element s w i data in
  s ← increaseCombinedStackSize s (vstack v) (Z.of_nat (length data));
  Ok (successfulEncoding, s).

(** Writing a byte through [operator[]], [back()] or an iterator leaves the size unchanged. *)

Definition vec_set (s : LimitedStack) (w : who) (i : nat) (pos : nat) (b : Z) : outcome exn LimitedStack :=
  v ← at_ s w i;
  if (length (stackElement v) <=? pos)%nat then Abort
  else Ok (set_element s w i (<[pos := b]> (stackElement v))).

(** ** Invariant: the counter is the memory of both stacks *)

Definition charge (l : list LimitedVector) : Z := foldr (fun v n => vsize v + ELEMENT_OVERHEAD + n) 0 l.

Definition element_ok (v : LimitedVector) : Prop := vstack v = Root /\ bytes (stackElement v).

(** [leak] is the memory of elements an earlier script left on its alt stack: the alt stack is
    destroyed without reducing the counter of its parent. *)

Record stack_ok (leak : Z) (s : LimitedStack) : Prop := {
  ok_combined : combinedStackSize s = charge (root s) + charge (child s) + leak;
  ok_leak : 0 <= leak;
  ok_bound : combinedStackSize s <= maxStackSize s;
  ok_max : maxStackSize s < 2 ^ 63;
  ok_root : Forall element_ok (root s);
  ok_child : Forall element_ok (child s)
}.

(** ** Safe outcomes: a result that satisfies [Q], or an exception of the script code that the
    interpreter reports as a script error *)

Definition expected (e : exn) : Prop :=
  match e with
  | scriptnum_overflow_error | scriptnum_minencode_error | stack_overflow_error | big_int_error | length_error => True
  | _ => False
  end.

Definition safe {A} (Q : A -> Prop) (o : outcome exn A) : Prop :=
  match o with Ok a => Q a | Throw e => expected e | Abort => False end.

Lemma safe_bind {A B} (Q : B -> Prop) (o : outcome exn A) (k : A -> outcome exn B) :
  safe (fun a => safe Q (k a)) o -> safe Q (o ≫= k).
Proof. by destruct o. Qed.

Lemma safe_mono {A} (P Q : A -> Prop) (o : outcome exn A) : safe P o -> (forall a, P a -> Q a) -> safe Q o.
Proof. destruct o; cbn; auto. Qed.

Lemma safe_Ok {A} (Q : A -> Prop) a : Q a -> safe Q (Ok a).
Proof. done. Qed.

(** ** Memory of a list of elements *)

Lemma vsize_nonneg v : 0 <= vsize v.
Proof. unfold vsize. lia. Qed.

Lemma charge_app l1 l2 : charge (l1 ++ l2) = charge l1 + charge l2.
Proof. induction l1 as [|v l1 IH]; cbn; [done|]. unfold charge in *. lia. Qed.

Lemma charge_cons v l : charge (v :: l) = vsize v + ELEMENT_OVERHEAD + charge l.
Proof. done. Qed.

Lemma charge_length l : ELEMENT_OVERHEAD * Z.of_nat (length l) <= charge l.
Proof.
  induction l as [|v l IH]; [done|]. rewrite charge_cons. cbn [length]. pose proof (vsize_nonneg v). unfold ELEMENT_OVERHEAD in *. lia.
Qed.

Lemma charge_nonneg l : 0 <= charge l.
Proof. pose proof (charge_length l). unfold ELEMENT_OVERHEAD in *. lia. Qed.

Lemma charge_split l i v : l !! i = Some v ->
  charge l = charge (take i l) + (vsize v + ELEMENT_OVERHEAD) + charge (drop (S i) l).
Proof. intros Hi. rewrite <- (take_drop_middle l i v Hi) at 1. rewrite charge_app, charge_cons. lia. Qed.

Lemma charge_lookup l i v : l !! i = Some v -> vsize v + ELEMENT_OVERHEAD <= charge l.
Proof.
  intros Hi. rewrite (charge_split l i v Hi). pose proof (charge_nonneg (take i l)). pose proof (charge_nonneg (drop (S i) l)). lia.
Qed.

Lemma charge_delete l i v : l !! i = Some v -> charge (delete i l) = charge l - (vsize v + ELEMENT_OVERHEAD).
Proof. intros Hi. rewrite (charge_split l i v Hi), delete_take_drop, charge_app. lia. Qed.

Lemma charge_insert l i v u : l !! i = Some v -> charge (<[i := u]> l) = charge l - vsize v + vsize u.
Proof.
  intros Hi. rewrite (charge_split l i v Hi). rewrite insert_take_drop by (by eapply lookup_lt_Some).
  rewrite charge_app, charge_cons. lia.
Qed.

Lemma alter_insert_list {A} (f : A -> A) (l : list A) (i : nat) (v : A) : l !! i = Some v -> alter f i l = <[i := f v]> l.
Proof. intros Hi. apply list_eq. intros j. destruct (decide (i = j)) as [->|].
  - rewrite list_lookup_alter_eq, list_lookup_insert_eq, Hi by (by eapply lookup_lt_Some). done.
  - by rewrite list_lookup_alter_ne, list_lookup_insert_ne.
Qed.

(** ** Bookkeeping *)

Definition total (s : LimitedStack) : Z := charge (root s) + charge (child s).

Lemma total_set s w l : total (set_elements s w l) = total s - charge (elements s w) + charge l.
Proof. unfold total. destruct w; cbn [set_elements root child elements]; lia. Qed.

Lemma total_ge s w : charge (elements s w) <= total s.
Proof. unfold total. pose proof (charge_nonneg (root s)). pose proof (charge_nonneg (child s)). destruct w; cbn [elements]; lia. Qed.

Lemma elements_set s w l : elements (set_elements s w l) w = l.
Proof. by destruct w. Qed.

Lemma elements_set_other s w l : elements (set_elements s w l) (other w) = elements s (other w).
Proof. by destruct w. Qed.

Lemma elements_combined s n w : elements (set_combined s n) w = elements s w.
Proof. by destruct w. Qed.

Lemma elements_ok leak s w : stack_ok leak s -> Forall element_ok (elements s w).
Proof. intros []. by destruct w. Qed.

Lemma combined_total leak s : stack_ok leak s -> combinedStackSize s = total s + leak.
Proof. intros []. unfold total. lia. Qed.

Lemma size_bound leak s w : stack_ok leak s -> Z.of_nat (size s w) < 2 ^ 58.
Proof.
  intros Hok. pose proof (combined_total leak s Hok) as E. destruct Hok as [_ H1 H2 H3 _ _].
  pose proof (total_ge s w). pose proof (charge_length (elements s w)). unfold size, ELEMENT_OVERHEAD in *. lia.
Qed.

(** Rebuilding the invariant after new elements [l] on stack [w] and a new counter. *)

Lemma stack_ok_set leak s w l n : stack_ok leak s -> Forall element_ok l ->
  n = combinedStackSize s - charge (elements s w) + charge l -> n <= maxStackSize s ->
  stack_ok leak (set_elements (set_combined s n) w l).
Proof.
  intros Hok Hl En Hn. pose proof (combined_total leak s Hok) as E. destruct Hok as [H0 H1 H2 H3 H4 H5].
  unfold total in E. destruct w; split; cbn [set_elements set_combined root child elements combinedStackSize maxStackSize] in *; try done; lia.
Qed.

(** What a stack operation leaves alone: the limit and the other stack. *)

Definition frame (s s' : LimitedStack) (w : who) : Prop :=
  maxStackSize s' = maxStackSize s /\ elements s' (other w) = elements s (other w).

Lemma increase_spec leak s w n : stack_ok leak s -> 0 <= n < 2 ^ 63 ->
  safe (fun s' => s' = set_combined s (combinedStackSize s + n) /\ combinedStackSize s + n <= maxStackSize s)
    (increaseCombinedStackSize s w n).
Proof.
  intros Hok Hn. unfold increaseCombinedStackSize. pose proof (combined_total leak s Hok) as E.
  destruct Hok as [_ H1 H2 H3 _ _].
  pose proof (total_ge s Root). pose proof (charge_nonneg (elements s Root)).
  replace (getCombinedStackSize s w) with (combinedStackSize s) by (by destruct w).
  unfold u64. rewrite Z.mod_small by lia. destruct (Z.ltb_spec (maxStackSize s) (combinedStackSize s + n)); [done|].
  split; [done | lia].
Qed.

Lemma decrease_eq leak s w n : stack_ok leak s -> 0 <= n <= combinedStackSize s ->
  decreaseCombinedStackSize s w n = set_combined s (combinedStackSize s - n).
Proof.
  intros [_ _ H2 H3 _ _] Hn. unfold decreaseCombinedStackSize.
  replace (getCombinedStackSize s w) with (combinedStackSize s) by (by destruct w).
  unfold u64. by rewrite Z.mod_small by lia.
Qed.

Lemma at_top_spec leak s w index : stack_ok leak s -> - Z.of_nat (size s w) <= index < 0 ->
  at_top s w index = Ok (Z.to_nat (Z.of_nat (size s w) + index)).
Proof.
  intros Hok Hi. pose proof (size_bound leak s w Hok). unfold at_top, u64.
  assert ((Z.of_nat (size s w) + index mod 2 ^ 64) mod 2 ^ 64 = Z.of_nat (size s w) + index) as ->.
  { rewrite Zplus_mod_idemp_r. apply Z.mod_small. lia. }
  by rewrite (proj2 (Z.leb_gt _ _)) by lia.
Qed.

Lemma at_spec leak s w i : stack_ok leak s -> (i < size s w)%nat ->
  exists v, at_ s w i = Ok v /\ elements s w !! i = Some v /\ element_ok v /\ vsize v + ELEMENT_OVERHEAD <= combinedStackSize s.
Proof.
  intros Hok Hi. destruct (lookup_lt_is_Some_2 (elements s w) i Hi) as [v Hv]. exists v. unfold at_. rewrite Hv.
  split_and!; [done | done | |].
  - by apply (Forall_lookup_1 _ _ _ _ (elements_ok leak s w Hok) Hv).
  - pose proof (combined_total leak s Hok). pose proof (total_ge s w). pose proof (charge_lookup _ _ _ Hv).
    destruct Hok as [_ ? _ _ _ _]. lia.
Qed.

Lemma stacktop_spec leak s w index : stack_ok leak s -> - Z.of_nat (size s w) <= index < 0 ->
  exists v, stacktop s w index = Ok v /\ elements s w !! Z.to_nat (Z.of_nat (size s w) + index) = Some v /\
    element_ok v /\ vsize v + ELEMENT_OVERHEAD <= combinedStackSize s.
Proof.
  intros Hok Hi. unfold stacktop. rewrite (proj2 (Z.leb_gt _ _)) by lia.
  rewrite (at_top_spec leak) by done. apply (at_spec leak); [done | lia].
Qed.

(** Changing stack [w] to [l] with the counter adjusted by the difference. *)

Lemma replace_ok leak s s' w l : stack_ok leak s ->
  s' = set_elements (set_combined s (combinedStackSize s - charge (elements s w) + charge l)) w l ->
  Forall element_ok l -> combinedStackSize s - charge (elements s w) + charge l <= maxStackSize s ->
  stack_ok leak s' /\ elements s' w = l /\ frame s s' w.
Proof.
  intros Hok -> Hl Hle. split_and!; [by apply stack_ok_set | apply elements_set | split; by destruct w].
Qed.

Lemma removelast_lookup {A} (l : list A) v : l !! (length l - 1)%nat = Some v -> l = removelast l ++ [v].
Proof.
  intros Hl. destruct l as [|x l _] using rev_ind; [done|]. rewrite length_app in Hl. cbn [length] in Hl.
  rewrite removelast_last. rewrite lookup_app_r in Hl by lia. replace (_ - _ - _)%nat with 0%nat in Hl by lia.
  by injection Hl as ->.
Qed.

Lemma pop_back_spec leak s w : stack_ok leak s -> (0 < size s w)%nat ->
  exists s', pop_back s w = Ok s' /\ stack_ok leak s' /\ elements s' w = removelast (elements s w) /\ frame s s' w.
Proof.
  intros Hok Hn. unfold pop_back, empty. rewrite (proj2 (Nat.eqb_neq _ _)) by lia.
  destruct (stacktop_spec leak s w (-1) Hok ltac:(lia)) as (v & Ev & Hv & [Hv1 Hv2] & Hle). rewrite Ev.
  cbn [mbind outcome_bind]. eexists. split; [done|]. pose proof (vsize_nonneg v).
  rewrite (decrease_eq leak) by (done || (unfold ELEMENT_OVERHEAD in *; lia)).
  replace (Z.to_nat _) with (length (elements s w) - 1)%nat in Hv by (unfold size in *; lia).
  pose proof (removelast_lookup _ _ Hv) as El. rewrite elements_combined.
  assert (charge (elements s w) = charge (removelast (elements s w)) + (vsize v + ELEMENT_OVERHEAD)) as Ec.
  { rewrite El at 1. rewrite charge_app, charge_cons. cbn. lia. }
  apply replace_ok; [done | | |].
  - do 2 f_equal. lia.
  - pose proof (elements_ok leak s w Hok) as Hf. rewrite El in Hf. by apply Forall_app in Hf as [Hf _].
  - destruct Hok as [_ _ ? _ _ _]. unfold ELEMENT_OVERHEAD in *. lia.
Qed.

Lemma push_spec leak s w v : stack_ok leak s -> element_ok v -> vsize v + ELEMENT_OVERHEAD < 2 ^ 63 ->
  safe (fun s' => stack_ok leak s' /\ elements s' w = elements s w ++ [v] /\ frame s s' w)
    (s ← increaseCombinedStackSize s w (vsize v + ELEMENT_OVERHEAD); Ok (set_elements s w (elements s w ++ [v]))).
Proof.
  intros Hok Hv Hn. pose proof (vsize_nonneg v). apply safe_bind.
  eapply safe_mono; [apply (increase_spec leak); [done | unfold ELEMENT_OVERHEAD in *; lia]|].
  cbn beta. intros s1 [-> Hle]. rewrite elements_combined. cbn [safe].
  assert (charge (elements s w ++ [v]) = charge (elements s w) + (vsize v + ELEMENT_OVERHEAD)) as Ec.
  { rewrite charge_app, charge_cons. cbn. lia. }
  apply replace_ok; [done | do 2 f_equal; lia | | lia].
  apply Forall_app_2; [by apply (elements_ok leak) | by constructor].
Qed.

Lemma push_back_spec leak s data : stack_ok leak s -> bytes data ->
  safe (fun s' => stack_ok leak s' /\ elements s' Root = elements s Root ++ [{| stackElement := data; vstack := Root |}] /\ frame s s' Root)
    (push_back s Root data).
Proof.
  intros Hok Hd. unfold push_back. destruct (Z.leb_spec (2 ^ 63 - ELEMENT_OVERHEAD) (Z.of_nat (length data))); [done|].
  apply (push_spec leak s Root {| stackElement := data; vstack := Root |}); [done | done | cbn; unfold vsize; cbn; lia].
Qed.

Lemma element_small leak s v : stack_ok leak s -> vsize v + ELEMENT_OVERHEAD <= combinedStackSize s ->
  vsize v + ELEMENT_OVERHEAD < 2 ^ 63.
Proof. intros [_ _ ? ? _ _] ?. lia. Qed.

Lemma push_back_vector_spec leak s v : stack_ok leak s -> element_ok v -> vsize v + ELEMENT_OVERHEAD < 2 ^ 63 ->
  safe (fun s' => stack_ok leak s' /\ elements s' Root = elements s Root ++ [v] /\ frame s s' Root)
    (push_back_vector s Root v).
Proof.
  intros Hok Hv Hn. unfold push_back_vector. rewrite bool_decide_true by apply Hv. by apply (push_spec leak).
Qed.

Lemma erase_spec leak s w index : stack_ok leak s -> - Z.of_nat (size s w) <= index < 0 ->
  exists s', erase s w index = Ok s' /\ stack_ok leak s' /\ frame s s' w /\
    elements s' w = delete (Z.to_nat (Z.of_nat (size s w) + index)) (elements s w).
Proof.
  intros Hok Hi. unfold erase. rewrite (proj2 (Z.leb_gt _ _)) by lia. rewrite (at_top_spec leak) by done.
  cbn [mbind outcome_bind]. destruct (at_spec leak s w (Z.to_nat (Z.of_nat (size s w) + index)) Hok) as (v & Ev & Hv & _ & Hle); [lia|].
  rewrite Ev. cbn [mbind outcome_bind]. eexists. split; [done|]. pose proof (vsize_nonneg v).
  rewrite (decrease_eq leak) by (done || (unfold ELEMENT_OVERHEAD in *; lia)). rewrite elements_combined.
  set (i := Z.to_nat _) in *. pose proof (charge_delete _ _ _ Hv) as Ec.
  destruct (replace_ok leak s _ w (delete i (elements s w)) Hok eq_refl) as (R1 & R2 & R3).
  - rewrite delete_take_drop. pose proof (elements_ok leak s w Hok). auto with bytes.
  - destruct Hok as [_ _ ? _ _ _]. unfold ELEMENT_OVERHEAD in *. lia.
  - replace (combinedStackSize s - (vsize v + ELEMENT_OVERHEAD))
      with (combinedStackSize s - charge (elements s w) + charge (delete i (elements s w))) by lia. done.
Qed.

Lemma decrease_each_eq leak s w l : stack_ok leak s -> charge l <= combinedStackSize s ->
  decrease_each s w l = set_combined s (combinedStackSize s - charge l).
Proof.
  intros Hok. pose proof (combined_total leak s Hok) as Et. assert (0 <= combinedStackSize s <= maxStackSize s /\ maxStackSize s < 2 ^ 63) as Hr.
  { destruct Hok as [_ ? ? ? _ _]. pose proof (total_ge s Root). pose proof (charge_nonneg (elements s Root)). lia. }
  clear Hok Et. revert s Hr. induction l as [|v l IH]; intros s Hr Hc.
  { cbn. rewrite Z.sub_0_r. by destruct s. }
  rewrite charge_cons in *. pose proof (charge_nonneg l). pose proof (vsize_nonneg v). cbn [decrease_each].
  assert (decreaseCombinedStackSize s w (vsize v + ELEMENT_OVERHEAD) = set_combined s (combinedStackSize s - (vsize v + ELEMENT_OVERHEAD))) as ->.
  { unfold decreaseCombinedStackSize, u64. replace (getCombinedStackSize s w) with (combinedStackSize s) by (by destruct w).
    rewrite Z.mod_small; [done|]. unfold ELEMENT_OVERHEAD in *. lia. }
  rewrite IH; cbn [combinedStackSize maxStackSize set_combined]; [| unfold ELEMENT_OVERHEAD in *; lia..].
  unfold set_combined. cbn. f_equal. lia.
Qed.

Lemma end_plus_spec s w index : - Z.of_nat (size s w) <= index <= 0 ->
  end_plus s w index = Ok (Z.to_nat (Z.of_nat (size s w) + index)).
Proof. intros. unfold end_plus. by rewrite (proj2 (Z.ltb_ge _ 0)), (proj2 (Z.ltb_ge _ (_ + _))) by lia. Qed.

Lemma erase_range_spec leak s w first last : stack_ok leak s -> - Z.of_nat (size s w) <= first -> first < last < 0 ->
  exists s', erase_range s w first last = Ok s' /\ stack_ok leak s' /\ frame s s' w /\
    elements s' w = take (Z.to_nat (Z.of_nat (size s w) + first)) (elements s w) ++
                    drop (Z.to_nat (Z.of_nat (size s w) + last)) (elements s w).
Proof.
  intros Hok Hf Hl. unfold erase_range.
  rewrite (proj2 (Z.leb_gt 0 _)), (proj2 (Z.leb_gt _ first)) by lia. cbn [orb].
  rewrite !end_plus_spec by lia. cbn [mbind outcome_bind].
  set (f := Z.to_nat (_ + first)). set (l := Z.to_nat (_ + last)). eexists. split; [done|].
  set (E := elements s w) in *. assert (f <= l)%nat as Hfl by lia.
  assert (charge E = charge (take f E) + charge (take (l - f) (drop f E)) + charge (drop l E)) as Ec.
  { rewrite <- (take_drop f E) at 1. rewrite charge_app. rewrite <- (take_drop (l - f) (drop f E)) at 1.
    rewrite charge_app, drop_drop. replace (f + (l - f))%nat with l by lia. lia. }
  pose proof (charge_nonneg (take f E)). pose proof (charge_nonneg (drop l E)). pose proof (charge_nonneg (take (l - f) (drop f E))).
  rewrite (decrease_each_eq leak); [|done|].
  2:{ pose proof (combined_total leak s Hok). pose proof (total_ge s w) as Hge. fold E in Hge. destruct Hok as [_ ? _ _ _ _]. lia. }
  destruct (replace_ok leak s _ w (take f E ++ drop l E) Hok eq_refl) as (R1 & R2 & R3).
  - pose proof (elements_ok leak s w Hok). apply Forall_app_2; [by apply Forall_take | by apply Forall_drop].
  - fold E. rewrite charge_app. destruct Hok as [_ _ ? _ _ _]. lia.
  - fold E in R1, R2, R3. rewrite charge_app in *.
    replace (combinedStackSize s - charge (take (l - f) (drop f E)))
      with (combinedStackSize s - charge E + (charge (take f E) + charge (drop l E))) by lia. done.
Qed.

Lemma insert_spec leak s position v : stack_ok leak s -> element_ok v -> vsize v + ELEMENT_OVERHEAD < 2 ^ 63 ->
  - Z.of_nat (size s Root) <= position < 0 ->
  safe (fun s' => stack_ok leak s' /\ frame s s' Root /\
      let i := Z.to_nat (Z.of_nat (size s Root) + position) in
      elements s' Root = take i (elements s Root) ++ v :: drop i (elements s Root)) (insert s Root position v).
Proof.
  intros Hok Hv Hn Hp. pose proof (vsize_nonneg v). unfold insert. rewrite bool_decide_true by apply Hv. cbn [negb].
  rewrite (proj2 (Z.leb_gt _ _)) by lia. apply safe_bind.
  eapply safe_mono; [apply (increase_spec leak); [done | unfold ELEMENT_OVERHEAD in *; lia]|].
  cbn beta. intros s1 [-> Hle]. rewrite end_plus_spec by (unfold size in *; rewrite elements_combined; lia).
  cbn [mbind outcome_bind safe]. rewrite elements_combined. set (i := Z.to_nat _). set (E := elements s Root) in *.
  assert (charge (take i E ++ v :: drop i E) = charge E + (vsize v + ELEMENT_OVERHEAD)) as Ec.
  { rewrite charge_app, charge_cons. rewrite <- (take_drop i E) at 3. rewrite charge_app. lia. }
  destruct (replace_ok leak s _ Root (take i E ++ v :: drop i E) Hok eq_refl) as (R1 & R2 & R3).
  - pose proof (elements_ok leak s Root Hok). apply Forall_app_2; [by apply Forall_take | constructor; [done | by apply Forall_drop]].
  - fold E. lia.
  - fold E in R1, R2, R3. replace (combinedStackSize s + (vsize v + ELEMENT_OVERHEAD))
      with (combinedStackSize s - charge E + charge (take i E ++ v :: drop i E)) by lia.
    split_and!; [done | done |]. cbn zeta. rewrite R2. done.
Qed.

Lemma set_element_ok leak s w i v data : stack_ok leak s -> elements s w !! i = Some v -> bytes data ->
  combinedStackSize s - vsize v + Z.of_nat (length data) <= maxStackSize s ->
  let s' := set_element (set_combined s (combinedStackSize s - vsize v + Z.of_nat (length data))) w i data in
  stack_ok leak s' /\ frame s s' w /\ size s' w = size s w /\
  elements s' w = <[i := {| stackElement := data; vstack := vstack v |}]> (elements s w).
Proof.
  intros Hok Hv Hd Hle. cbn zeta. unfold set_element. rewrite elements_combined.
  pose proof (elements_ok leak s w Hok) as Hf. pose proof (Forall_lookup_1 _ _ _ _ Hf Hv) as [Hv1 Hv2].
  rewrite (alter_insert_list _ (elements s w) i v) by done. set (u := Build_LimitedVector data (vstack v)).
  pose proof (charge_insert (elements s w) i v u Hv) as Ec. change (vsize u) with (Z.of_nat (length data)) in Ec.
  destruct (replace_ok leak s _ w (<[i := u]> (elements s w)) Hok eq_refl) as (R1 & R2 & R3); [| lia |].
  { apply Forall_insert; [done|]. by split. }
  replace (combinedStackSize s - vsize v + Z.of_nat (length data))
    with (combinedStackSize s - charge (elements s w) + charge (<[i:=u]> (elements s w))) by lia.
  split_and!; [done | done | | done]. unfold size. by rewrite R2, length_insert.
Qed.

Lemma swapElements_spec leak s w i j : stack_ok leak s -> (i < size s w)%nat -> (j < size s w)%nat -> i <> j ->
  exists s' v1 v2, swapElements s w i j = Ok s' /\ stack_ok leak s' /\ frame s s' w /\
    elements s w !! i = Some v1 /\ elements s w !! j = Some v2 /\ elements s' w = <[j:=v1]> (<[i:=v2]> (elements s w)).
Proof.
  intros Hok Hi Hj Hne. unfold swapElements.
  destruct (at_spec leak s w i Hok Hi) as (v1 & E1 & H1 & O1 & _). rewrite E1. cbn [mbind outcome_bind].
  destruct (at_spec leak s w j Hok Hj) as (v2 & E2 & H2 & O2 & _). rewrite E2. cbn [mbind outcome_bind].
  eexists _, v1, v2. split; [done|]. set (l := <[j:=v1]> (<[i:=v2]> (elements s w))).
  assert (charge l = charge (elements s w)) as Ec.
  { unfold l. rewrite (charge_insert _ j v2) by (by rewrite list_lookup_insert_ne). rewrite (charge_insert _ i v1) by done. lia. }
  destruct (replace_ok leak s (set_elements s w l) w l Hok) as (R1 & R2 & R3).
  - rewrite Ec, Z.sub_add. by destruct s.
  - unfold l. apply Forall_insert; [|done]. apply Forall_insert; [|done]. by apply (elements_ok leak).
  - destruct Hok as [_ _ ? _ _ _]. lia.
  - split_and!; done.
Qed.

Lemma elements_other_set s w l : elements (set_elements s (other w) l) w = elements s w.
Proof. by destruct w. Qed.

Lemma moveTopToStack_spec leak s w : stack_ok leak s -> (0 < size s (other w))%nat ->
  exists s' v, moveTopToStack s w = Ok s' /\ stack_ok leak s' /\ maxStackSize s' = maxStackSize s /\
    combinedStackSize s' = combinedStackSize s /\
    elements s (other w) = elements s' (other w) ++ [v] /\ elements s' w = elements s w ++ [v].
Proof.
  intros Hok Hn. unfold moveTopToStack.
  destruct (stacktop_spec leak s (other w) (-1) Hok ltac:(lia)) as (v & Ev & Hv & Ov & _). rewrite Ev.
  replace (Z.to_nat _) with (length (elements s (other w)) - 1)%nat in Hv by (unfold size in *; lia).
  cbn [mbind outcome_bind]. rewrite elements_set_other. set (E := elements s (other w)) in *.
  pose proof (removelast_lookup _ _ Hv) as El. eexists _, v. split; [done|].
  assert (charge E = charge (removelast E) + (vsize v + ELEMENT_OVERHEAD)) as Ec.
  { rewrite El at 1. rewrite charge_app, charge_cons. cbn. lia. }
  pose proof (elements_ok leak s w Hok) as Fw. pose proof (elements_ok leak s (other w) Hok) as Fo. fold E in Fo.
  rewrite El in Fo. apply Forall_app in Fo as [Fo _].
  assert (Forall element_ok (elements s w ++ [v])) as Fw' by (apply Forall_app_2; [done | by constructor]).
  assert (charge (elements s w ++ [v]) = charge (elements s w) + (vsize v + ELEMENT_OVERHEAD)) as Ec'.
  { rewrite charge_app, charge_cons. cbn. lia. }
  split_and!; [| by destruct w | by destruct w | by destruct w; cbn | by destruct w].
  destruct Hok as [H0 H1 H2 H3 _ _].
  destruct w; split; cbn [set_elements other root child elements combinedStackSize maxStackSize] in *; try done; subst E; lia.
Qed.

(** Growing an element in place. *)

Lemma grow_spec leak s w i v data : stack_ok leak s -> elements s w !! i = Some v -> bytes data ->
  0 <= Z.of_nat (length data) - vsize v < 2 ^ 63 ->
  safe (fun s' => stack_ok leak s' /\ frame s s' w /\ size s' w = size s w /\
      elements s' w = <[i := {| stackElement := data; vstack := vstack v |}]> (elements s w))
    (s ← increaseCombinedStackSize s (vstack v) (Z.of_nat (length data) - vsize v); Ok (set_element s w i data)).
Proof.
  intros Hok Hv Hd Hn. apply safe_bind. eapply safe_mono; [by apply (increase_spec leak)|].
  cbn beta. intros s1 [-> Hle]. cbn [safe].
  destruct (set_element_ok leak s w i v data) as (R1 & R2 & R3 & R4); [done.. | lia |].
  replace (combinedStackSize s + (Z.of_nat (length data) - vsize v))
    with (combinedStackSize s - vsize v + Z.of_nat (length data)) by lia. done.
Qed.

Lemma vec_append_spec leak s w i v second : stack_ok leak s -> elements s w !! i = Some v -> element_ok second ->
  vsize second < 2 ^ 63 ->
  safe (fun s' => stack_ok leak s' /\ frame s s' w /\ size s' w = size s w /\
      elements s' w = <[i := {| stackElement := stackElement v ++ stackElement second; vstack := vstack v |}]> (elements s w))
    (vec_append s w i second).
Proof.
  intros Hok Hv [_ Hs] Hn. unfold vec_append, at_. rewrite Hv. cbn [mbind outcome_bind].
  pose proof (Forall_lookup_1 _ _ _ _ (elements_ok leak s w Hok) Hv) as [_ Hb]. pose proof (vsize_nonneg second).
  pose proof (grow_spec leak s w i v (stackElement v ++ stackElement second) Hok Hv) as G.
  rewrite length_app, Nat2Z.inj_add in G. fold (vsize v) (vsize second) in G.
  replace (vsize v + vsize second - vsize v) with (vsize second) in G by lia. apply G; [auto with bytes | lia].
Qed.

Lemma vec_padRight_spec leak s w i v n signbit : stack_ok leak s -> elements s w !! i = Some v -> is_byte signbit ->
  n < 2 ^ 63 ->
  safe (fun s' => stack_ok leak s' /\ frame s s' w /\
      elements s' w = (if vsize v <? n then
        <[i := {| stackElement := removelast (stackElement v ++ replicate (Z.to_nat (n - vsize v)) 0) ++ [signbit]; vstack := vstack v |}]>
          (elements s w) else elements s w))
    (vec_padRight s w i n signbit).
Proof.
  intros Hok Hv Hs Hn. unfold vec_padRight, at_. rewrite Hv. cbn [mbind outcome_bind].
  pose proof (Forall_lookup_1 _ _ _ _ (elements_ok leak s w Hok) Hv) as [_ Hb]. pose proof (vsize_nonneg v).
  destruct (Z.ltb_spec (vsize v) n) as [Hlt|]; [|done].
  set (r := removelast (stackElement v ++ replicate (Z.to_nat (n - vsize v)) 0) ++ [signbit]).
  assert (Z.of_nat (length r) = n) as Er.
  { unfold r. rewrite length_app, removelast_firstn_len, length_take, length_app, length_replicate. cbn [length]. unfold vsize in *. lia. }
  assert (bytes r) as Br.
  { unfold r. apply Forall_app_2; [|by constructor].
    assert (bytes (stackElement v ++ replicate (Z.to_nat (n - vsize v)) 0)) as Hf
      by (apply Forall_app_2; [done | by apply Forall_replicate]).
    rewrite removelast_firstn_len. by apply Forall_take. }
  pose proof (grow_spec leak s w i v r Hok Hv Br) as G. rewrite Er in G.
  eapply safe_mono; [apply G; lia|]. cbn beta. tauto.
Qed.

Lemma vec_MinimallyEncode_spec leak s w i v : stack_ok leak s -> elements s w !! i = Some v ->
  safe (fun r => stack_ok leak (snd r) /\ frame s (snd r) w /\ size (snd r) w = size s w /\
      elements (snd r) w = <[i := {| stackElement := snd (MinimallyEncode (stackElement v)); vstack := vstack v |}]> (elements s w))
    (vec_MinimallyEncode s w i).
Proof.
  intros Hok Hv. unfold vec_MinimallyEncode.
  destruct (at_spec leak s w i Hok) as (v' & Ev & Hv' & [Ov Bv] & Hle); [by eapply lookup_lt_Some|].
  rewrite Hv in Hv'. injection Hv' as <-. rewrite Ev. cbn [mbind outcome_bind].
  pose proof (MinimallyEncode_spec _ Bv) as HM. destruct (MinimallyEncode (stackElement v)) as [ch data].
  destruct HM as (Bd & _ & _ & Hlen & _). cbn [snd]. pose proof (vsize_nonneg v).
  rewrite (decrease_eq leak) by (done || (unfold ELEMENT_OVERHEAD in *; lia)). rewrite Ov.
  destruct (set_element_ok leak s w i v data) as (R1 & R2 & R3 & R4); [done.. | |].
  { destruct Hok as [_ _ ? _ _ _]. unfold vsize in *. lia. }
  pose proof Hok as [_ _ ? ? _ _]. unfold increaseCombinedStackSize. cbn [getCombinedStackSize].
  replace (combinedStackSize (set_element (set_combined s (combinedStackSize s - vsize v)) w i data))
    with (combinedStackSize s - vsize v) by (by destruct w).
  replace (maxStackSize (set_element (set_combined s (combinedStackSize s - vsize v)) w i data))
    with (maxStackSize s) by (by destruct w).
  unfold u64. rewrite Z.mod_small by (unfold vsize, ELEMENT_OVERHEAD in *; lia).
  rewrite (proj2 (Z.ltb_ge _ _)) by (unfold vsize in *; lia). cbn [mbind outcome_bind safe snd].
  replace (set_combined (set_element (set_combined s (combinedStackSize s - vsize v)) w i data)
    (combinedStackSize s - vsize v + Z.of_nat (length data)))
    with (set_element (set_combined s (combinedStackSize s - vsize v + Z.of_nat (length data))) w i data); [by rewrite Ov in *|].
  by destruct w.
Qed.

(** Writing bytes in place. *)

Lemma set_same_length_spec leak s w i v data : stack_ok leak s -> elements s w !! i = Some v -> bytes data ->
  length data = length (stackElement v) ->
  stack_ok leak (set_element s w i data) /\ frame s (set_element s w i data) w /\
  elements (set_element s w i data) w = <[i := {| stackElement := data; vstack := vstack v |}]> (elements s w).
Proof.
  intros Hok Hv Hd Hl. destruct (set_element_ok leak s w i v data) as (R1 & R2 & R3 & R4); [done.. | |].
  - unfold vsize. destruct Hok as [_ _ ? _ _ _]. lia.
  - unfold vsize in *. rewrite Hl in *. rewrite Z.sub_add in *.
    replace (set_combined s (combinedStackSize s)) with s in * by (by destruct s). done.
Qed.

(** ** Every sequence of operations *)

Definition is_int (i : Z) : Prop := - 2 ^ 31 <= i < 2 ^ 31.

Inductive stack_step : LimitedStack -> LimitedStack -> Prop :=
| step_push s s' data : bytes data -> push_back s Root data = Ok s' -> stack_step s s'
| step_push_copy s s' i v : is_int i -> stacktop s Root i = Ok v -> push_back_vector s Root v = Ok s' -> stack_step s s'
| step_pop s s' w : pop_back s w = Ok s' -> stack_step s s'
| step_erase s s' w i : is_int i -> erase s w i = Ok s' -> stack_step s s'
| step_erase_range s s' w i j : is_int i -> erase_range s w i j = Ok s' -> stack_step s s'
| step_insert s s' i j v : is_int j -> stacktop s Root j = Ok v -> insert s Root i v = Ok s' -> stack_step s s'
| step_swap s s' w i j : i <> j -> swapElements s w i j = Ok s' -> stack_step s s'
| step_move s s' w : moveTopToStack s w = Ok s' -> stack_step s s'
| step_append s s' i j v : is_int j -> stacktop s Root j = Ok v -> vec_append s Root i v = Ok s' -> stack_step s s'
| step_pad s s' i n b : n < 2 ^ 31 -> is_byte b -> vec_padRight s Root i n b = Ok s' -> stack_step s s'
| step_minimal s s' i b : vec_MinimallyEncode s Root i = Ok (b, s') -> stack_step s s'.

Lemma at_top_Ok leak s w index i : stack_ok leak s -> - 2 ^ 31 <= index < 0 -> at_top s w index = Ok i ->
  - Z.of_nat (size s w) <= index.
Proof.
  intros Hok Hi E. pose proof (size_bound leak s w Hok). destruct (decide (- Z.of_nat (size s w) <= index)) as [|Hn]; [done|exfalso].
  revert E. unfold at_top, u64. rewrite Zplus_mod_idemp_r.
  replace ((Z.of_nat (size s w) + index) mod 2 ^ 64) with (Z.of_nat (size s w) + index + 2 ^ 64)
    by (apply (Z.mod_unique_pos _ _ (-1)); lia).
  rewrite (proj2 (Z.leb_le _ _)) by lia. done.
Qed.

Lemma stacktop_Ok leak s w index v : stack_ok leak s -> is_int index -> stacktop s w index = Ok v ->
  - Z.of_nat (size s w) <= index < 0.
Proof.
  intros Hok [Hi1 Hi2] E. unfold stacktop in E. destruct (Z.leb_spec 0 index); [done|].
  destruct (at_top s w index) as [i| |] eqn:Ea; [|done..]. split; [|done]. by apply (at_top_Ok leak s w index i).
Qed.

Lemma stacktop_element leak s w index v : stack_ok leak s -> is_int index -> stacktop s w index = Ok v ->
  element_ok v /\ vsize v + ELEMENT_OVERHEAD < 2 ^ 63.
Proof.
  intros Hok Hi E. destruct (stacktop_spec leak s w index Hok) as (v' & E' & _ & Ov & Hle); [by eapply stacktop_Ok|].
  rewrite E in E'. injection E' as <-. split; [done|]. by apply (element_small leak s).
Qed.

Lemma safe_get {A} (Q : A -> Prop) o a : safe Q o -> o = Ok a -> Q a.
Proof. by intros H ->. Qed.

Lemma at_Ok s w i v : at_ s w i = Ok v -> elements s w !! i = Some v.
Proof. unfold at_. destruct (elements s w !! i); intros; by simplify_eq. Qed.

Lemma end_plus_Ok s w index i : end_plus s w index = Ok i -> - Z.of_nat (size s w) <= index <= 0.
Proof. unfold end_plus. destruct (_ || _) eqn:E; [done|]. apply orb_false_iff in E as [E1%Z.ltb_ge E2%Z.ltb_ge]. lia. Qed.

Lemma outcome_bind_Ok {A B} (o : outcome exn A) (k : A -> outcome exn B) b : o ≫= k = Ok b -> exists a, o = Ok a /\ k a = Ok b.
Proof. destruct o; cbn; intros; [eauto | done..]. Qed.

Ltac same_ok E E' := rewrite E in E'; injection E' as ->.

Lemma stack_step_ok leak s s' : stack_ok leak s -> stack_step s s' -> stack_ok leak s' /\ maxStackSize s' = maxStackSize s.
Proof.
  intros Hok Hs. destruct Hs as [s s' data Hd E|s s' i v Hi Ev E|s s' w E|s s' w i Hi E|s s' w i j Hi E|s s' i j v Hj Ev E
    |s s' w i j Hne E|s s' w E|s s' i j v Hj Ev E|s s' i n b Hn Hb E|s s' i b E].
  - by destruct (safe_get _ _ _ (push_back_spec leak s data Hok Hd) E) as (? & _ & [? _]).
  - destruct (stacktop_element leak s Root i v Hok Hi Ev) as [Ov Hv].
    by destruct (safe_get _ _ _ (push_back_vector_spec leak s v Hok Ov Hv) E) as (? & _ & [? _]).
  - destruct (pop_back_spec leak s w Hok) as (s1 & E1 & ? & _ & [? _]).
    { unfold pop_back, empty in E. destruct (Nat.eqb_spec (size s w) 0); [done | lia]. }
    by same_ok E E1.
  - unfold is_int in Hi. destruct (erase_spec leak s w i Hok) as (s1 & E1 & ? & [? _] & _); [|by same_ok E E1].
    unfold erase in E. destruct (Z.leb_spec 0 i); [done|]. apply outcome_bind_Ok in E as (k & Ek & _).
    split; [|done]. apply (at_top_Ok leak s w i k); [done | lia | done].
  - destruct (erase_range_spec leak s w i j Hok) as (s1 & E1 & ? & [? _] & _); [..|by same_ok E E1].
    + unfold erase_range in E. destruct (_ || _); [done|]. apply outcome_bind_Ok in E as (k & Ek & _).
      by apply end_plus_Ok in Ek as [? _].
    + unfold erase_range in E. destruct (_ || _) eqn:Eb; [done|].
      apply orb_false_iff in Eb as [E1%Z.leb_gt E2%Z.leb_gt]. lia.
  - destruct (stacktop_element leak s Root j v Hok Hj Ev) as [Ov Hv].
    pose proof E as E'. unfold insert in E'. destruct (negb _); [done|]. destruct (Z.leb_spec 0 i); [done|].
    apply outcome_bind_Ok in E' as (s1 & E1 & E'). apply outcome_bind_Ok in E' as (k & Ek & _).
    apply end_plus_Ok in Ek. assert (size s1 Root = size s Root) as Es.
    { unfold increaseCombinedStackSize in E1. destruct (_ <? _); [done|]. by injection E1 as <-. }
    by destruct (safe_get _ _ _ (insert_spec leak s i v Hok Ov Hv ltac:(lia)) E) as (? & [? _] & _).
  - pose proof E as E'. unfold swapElements in E'. apply outcome_bind_Ok in E' as (v1 & E1%at_Ok%lookup_lt_Some & E').
    apply outcome_bind_Ok in E' as (v2 & E2%at_Ok%lookup_lt_Some & _).
    destruct (swapElements_spec leak s w i j Hok E1 E2 Hne) as (s1 & ? & ? & E3 & ? & [? _] & _). by same_ok E E3.
  - pose proof E as E'. unfold moveTopToStack in E'. apply outcome_bind_Ok in E' as (v & Ev & _).
    apply (stacktop_Ok leak) in Ev; [|done | unfold is_int; lia].
    destruct (moveTopToStack_spec leak s w Hok ltac:(lia)) as (s1 & ? & E3 & ? & ? & _). by same_ok E E3.
  - destruct (stacktop_element leak s Root j v Hok Hj Ev) as [Ov Hv].
    pose proof E as E'. unfold vec_append in E'. apply outcome_bind_Ok in E' as (u & Eu%at_Ok & _).
    destruct (safe_get _ _ _ (vec_append_spec leak s Root i u v Hok Eu Ov ltac:(unfold ELEMENT_OVERHEAD in *; lia)) E) as (? & [? _] & _). done.
  - pose proof E as E'. unfold vec_padRight in E'. apply outcome_bind_Ok in E' as (u & Eu%at_Ok & _).
    destruct (safe_get _ _ _ (vec_padRight_spec leak s Root i u n b Hok Eu Hb ltac:(lia)) E) as (? & [? _] & _). done.
  - pose proof E as E'. unfold vec_MinimallyEncode in E'. apply outcome_bind_Ok in E' as (u & Eu%at_Ok & _).
    destruct (safe_get _ _ _ (vec_MinimallyEncode_spec leak s Root i u Hok Eu) E) as (? & [? _] & _). done.
Qed.

(** Memory accounting of the script stacks: after any sequence of stack operations the shared
    counter is exactly the number of bytes on the main and the alt stack plus 32 per element, it
    never exceeds the limit, and every element belongs to the main stack (so no push is refused for
    its owner). *)
Theorem limited_stack_accounting max s :
  0 <= max < 2 ^ 63 -> rtc stack_step (new_stack max) s ->
  combinedStackSize s = charge (root s) + charge (child s) /\ combinedStackSize s <= max /\
  Forall element_ok (root s) /\ Forall element_ok (child s).
Proof.
  intros Hm Hs. assert (forall t, rtc stack_step t s -> stack_ok 0 t -> stack_ok 0 s /\ maxStackSize s = maxStackSize t) as Hrun.
  { induction 1 as [t|t t' t'' Ht _ IH]; intros Hok; [done|]. destruct (stack_step_ok 0 t t' Hok Ht) as [Hok' E].
    rewrite <- E. by apply IH. }
  destruct (Hrun _ Hs) as [[H0 H1 H2 H3 H4 H5] E]; [split; cbn; lia || done|].
  cbn in E. rewrite E in *. split_and!; [lia | lia | done | done].
Qed.

Lemma limited_stack_accounting_witness :
  let s := {| combinedStackSize := 67; maxStackSize := 100;
              root := [{| stackElement := [7]; vstack := Root |}];
              child := [{| stackElement := [8; 9]; vstack := Root |}] |} in
  combinedStackSize s = charge (root s) + charge (child s).
Proof.
  intros s. destruct (limited_stack_accounting 100 s ltac:(lia)) as [H _]; [|exact H].
  apply (rtc_l _ _ {| combinedStackSize := 33; maxStackSize := 100;
    root := [{| stackElement := [7]; vstack := Root |}]; child := [] |}).
  { apply (step_push _ _ [7]); [by repeat constructor | reflexivity]. }
  apply (rtc_l _ _ {| combinedStackSize := 67; maxStackSize := 100;
    root := [{| stackElement := [7]; vstack := Root |}; {| stackElement := [8; 9]; vstack := Root |}]; child := [] |}).
  { apply (step_push _ _ [8; 9]); [by repeat constructor | reflexivity]. }
  apply rtc_once. apply (step_move _ _ Child). reflexivity.
Defined.
