(* ===== verification/Script.v ===== *)
(** * Scripts

    [src/script/opcodes.h], [script.h], [script.cpp], [instruction.h] and [instruction_iterator.h]:
    the opcodes, the reader and the writer of scripts, the instruction iterator, and the predicates
    and counts on scripts that consensus and policy use.  A position in a script is the rest of the
    script from there; a script has fewer than 2^32 bytes ([prevector] sizes are 32 bits). *)

From S2P Require Import Prelude Common IntSer BigInt ScriptNum.
From stdpp Require Import list.
#[local] Open Scope Z_scope.

(** ** Opcodes *)

Inductive opcodetype :=
| OP_0 | OP_PUSHDATA1 | OP_PUSHDATA2 | OP_PUSHDATA4 | OP_1NEGATE | OP_RESERVED | OP_1 | OP_2 | OP_3
| OP_4 | OP_5 | OP_6 | OP_7 | OP_8 | OP_9 | OP_10 | OP_11 | OP_12 | OP_13 | OP_14 | OP_15 | OP_16
| OP_NOP | OP_VER | OP_IF | OP_NOTIF | OP_VERIF | OP_VERNOTIF | OP_ELSE | OP_ENDIF | OP_VERIFY
| OP_RETURN | OP_TOALTSTACK | OP_FROMALTSTACK | OP_2DROP | OP_2DUP | OP_3DUP | OP_2OVER | OP_2ROT
| OP_2SWAP | OP_IFDUP | OP_DEPTH | OP_DROP | OP_DUP | OP_NIP | OP_OVER | OP_PICK | OP_ROLL | OP_ROT
| OP_SWAP | OP_TUCK | OP_CAT | OP_SPLIT | OP_NUM2BIN | OP_BIN2NUM | OP_SIZE | OP_INVERT | OP_AND
| OP_OR | OP_XOR | OP_EQUAL | OP_EQUALVERIFY | OP_RESERVED1 | OP_RESERVED2 | OP_1ADD | OP_1SUB
| OP_2MUL | OP_2DIV | OP_NEGATE | OP_ABS | OP_NOT | OP_0NOTEQUAL | OP_ADD | OP_SUB | OP_MUL
| OP_DIV | OP_MOD | OP_LSHIFT | OP_RSHIFT | OP_BOOLAND | OP_BOOLOR | OP_NUMEQUAL
| OP_NUMEQUALVERIFY | OP_NUMNOTEQUAL | OP_LESSTHAN | OP_GREATERTHAN | OP_LESSTHANOREQUAL
| OP_GREATERTHANOREQUAL | OP_MIN | OP_MAX | OP_WITHIN | OP_RIPEMD160 | OP_SHA1 | OP_SHA256
| OP_HASH160 | OP_HASH256 | OP_CODESEPARATOR | OP_CHECKSIG | OP_CHECKSIGVERIFY | OP_CHECKMULTISIG
| OP_CHECKMULTISIGVERIFY | OP_NOP1 | OP_CHECKLOCKTIMEVERIFY | OP_CHECKSEQUENCEVERIFY | OP_NOP4
| OP_NOP5 | OP_NOP6 | OP_NOP7 | OP_NOP8 | OP_NOP9 | OP_NOP10 | OP_SMALLINTEGER | OP_PUBKEYS
| OP_PUBKEYHASH | OP_PUBKEY | OP_INVALIDOPCODE.

#[export] Instance opcodetype_eq_dec : EqDecision opcodetype.
Proof. solve_decision. Defined.

Definition code (op : opcodetype) : Z :=
  match op with
  | OP_0 => 0x00
  | OP_PUSHDATA1 => 0x4c
  | OP_PUSHDATA2 => 0x4d
  | OP_PUSHDATA4 => 0x4e
  | OP_1NEGATE => 0x4f
  | OP_RESERVED => 0x50
  | OP_1 => 0x51
  | OP_2 => 0x52
  | OP_3 => 0x53
  | OP_4 => 0x54
  | OP_5 => 0x55
  | OP_6 => 0x56
  | OP_7 => 0x57
  | OP_8 => 0x58
  | OP_9 => 0x59
  | OP_10 => 0x5a
  | OP_11 => 0x5b
  | OP_12 => 0x5c
  | OP_13 => 0x5d
  | OP_14 => 0x5e
  | OP_15 => 0x5f
  | OP_16 => 0x60
  | OP_NOP => 0x61
  | OP_VER => 0x62
  | OP_IF => 0x63
  | OP_NOTIF => 0x64
  | OP_VERIF => 0x65
  | OP_VERNOTIF => 0x66
  | OP_ELSE => 0x67
  | OP_ENDIF => 0x68
  | OP_VERIFY => 0x69
  | OP_RETURN => 0x6a
  | OP_TOALTSTACK => 0x6b
  | OP_FROMALTSTACK => 0x6c
  | OP_2DROP => 0x6d
  | OP_2DUP => 0x6e
  | OP_3DUP => 0x6f
  | OP_2OVER => 0x70
  | OP_2ROT => 0x71
  | OP_2SWAP => 0x72
  | OP_IFDUP => 0x73
  | OP_DEPTH => 0x74
  | OP_DROP => 0x75
  | OP_DUP => 0x76
  | OP_NIP => 0x77
  | OP_OVER => 0x78
  | OP_PICK => 0x79
  | OP_ROLL => 0x7a
  | OP_ROT => 0x7b
  | OP_SWAP => 0x7c
  | OP_TUCK => 0x7d
  | OP_CAT => 0x7e
  | OP_SPLIT => 0x7f
  | OP_NUM2BIN => 0x80
  | OP_BIN2NUM => 0x81
  | OP_SIZE => 0x82
  | OP_INVERT => 0x83
  | OP_AND => 0x84
  | OP_OR => 0x85
  | OP_XOR => 0x86
  | OP_EQUAL => 0x87
  | OP_EQUALVERIFY => 0x88
  | OP_RESERVED1 => 0x89
  | OP_RESERVED2 => 0x8a
  | OP_1ADD => 0x8b
  | OP_1SUB => 0x8c
  | OP_2MUL => 0x8d
  | OP_2DIV => 0x8e
  | OP_NEGATE => 0x8f
  | OP_ABS => 0x90
  | OP_NOT => 0x91
  | OP_0NOTEQUAL => 0x92
  | OP_ADD => 0x93
  | OP_SUB => 0x94
  | OP_MUL => 0x95
  | OP_DIV => 0x96
  | OP_MOD => 0x97
  | OP_LSHIFT => 0x98
  | OP_RSHIFT => 0x99
  | OP_BOOLAND => 0x9a
  | OP_BOOLOR => 0x9b
  | OP_NUMEQUAL => 0x9c
  | OP_NUMEQUALVERIFY => 0x9d
  | OP_NUMNOTEQUAL => 0x9e
  | OP_LESSTHAN => 0x9f
  | OP_GREATERTHAN => 0xa0
  | OP_LESSTHANOREQUAL => 0xa1
  | OP_GREATERTHANOREQUAL => 0xa2
  | OP_MIN => 0xa3
  | OP_MAX => 0xa4
  | OP_WITHIN => 0xa5
  | OP_RIPEMD160 => 0xa6
  | OP_SHA1 => 0xa7
  | OP_SHA256 => 0xa8
  | OP_HASH160 => 0xa9
  | OP_HASH256 => 0xaa
  | OP_CODESEPARATOR => 0xab
  | OP_CHECKSIG => 0xac
  | OP_CHECKSIGVERIFY => 0xad
  | OP_CHECKMULTISIG => 0xae
  | OP_CHECKMULTISIGVERIFY => 0xaf
  | OP_NOP1 => 0xb0
  | OP_CHECKLOCKTIMEVERIFY => 0xb1
  | OP_CHECKSEQUENCEVERIFY => 0xb2
  | OP_NOP4 => 0xb3
  | OP_NOP5 => 0xb4
  | OP_NOP6 => 0xb5
  | OP_NOP7 => 0xb6
  | OP_NOP8 => 0xb7
  | OP_NOP9 => 0xb8
  | OP_NOP10 => 0xb9
  | OP_SMALLINTEGER => 0xfa
  | OP_PUBKEYS => 0xfb
  | OP_PUBKEYHASH => 0xfd
  | OP_PUBKEY => 0xfe
  | OP_INVALIDOPCODE => 0xff
  end.

Definition OP_FALSE : opcodetype := OP_0.

Definition OP_TRUE : opcodetype := OP_1.

Definition OP_NOP2 : opcodetype := OP_CHECKLOCKTIMEVERIFY.

Definition OP_NOP3 : opcodetype := OP_CHECKSEQUENCEVERIFY.

Definition FIRST_UNDEFINED_OP_VALUE : Z := code OP_NOP10 + 1.

(** The enumerators a byte can have; other bytes are values of [opcodetype] without a name. *)

Definition all_opcodes : list opcodetype :=
  [OP_0; OP_PUSHDATA1; OP_PUSHDATA2; OP_PUSHDATA4; OP_1NEGATE; OP_RESERVED; OP_1; OP_2; OP_3; OP_4;
   OP_5; OP_6; OP_7; OP_8; OP_9; OP_10; OP_11; OP_12; OP_13; OP_14; OP_15; OP_16; OP_NOP; OP_VER;
   OP_IF; OP_NOTIF; OP_VERIF; OP_VERNOTIF; OP_ELSE; OP_ENDIF; OP_VERIFY; OP_RETURN; OP_TOALTSTACK;
   OP_FROMALTSTACK; OP_2DROP; OP_2DUP; OP_3DUP; OP_2OVER; OP_2ROT; OP_2SWAP; OP_IFDUP; OP_DEPTH;
   OP_DROP; OP_DUP; OP_NIP; OP_OVER; OP_PICK; OP_ROLL; OP_ROT; OP_SWAP; OP_TUCK; OP_CAT; OP_SPLIT;
   OP_NUM2BIN; OP_BIN2NUM; OP_SIZE; OP_INVERT; OP_AND; OP_OR; OP_XOR; OP_EQUAL; OP_EQUALVERIFY;
   OP_RESERVED1; OP_RESERVED2; OP_1ADD; OP_1SUB; OP_2MUL; OP_2DIV; OP_NEGATE; OP_ABS; OP_NOT;
   OP_0NOTEQUAL; OP_ADD; OP_SUB; OP_MUL; OP_DIV; OP_MOD; OP_LSHIFT; OP_RSHIFT; OP_BOOLAND;
   OP_BOOLOR; OP_NUMEQUAL; OP_NUMEQUALVERIFY; OP_NUMNOTEQUAL; OP_LESSTHAN; OP_GREATERTHAN;
   OP_LESSTHANOREQUAL; OP_GREATERTHANOREQUAL; OP_MIN; OP_MAX; OP_WITHIN; OP_RIPEMD160; OP_SHA1;
   OP_SHA256; OP_HASH160; OP_HASH256; OP_CODESEPARATOR; OP_CHECKSIG; OP_CHECKSIGVERIFY;
   OP_CHECKMULTISIG; OP_CHECKMULTISIGVERIFY; OP_NOP1; OP_CHECKLOCKTIMEVERIFY;
   OP_CHECKSEQUENCEVERIFY; OP_NOP4; OP_NOP5; OP_NOP6; OP_NOP7; OP_NOP8; OP_NOP9; OP_NOP10;
   OP_SMALLINTEGER; OP_PUBKEYS; OP_PUBKEYHASH; OP_PUBKEY; OP_INVALIDOPCODE].

Definition opcode_of (b : Z) : option opcodetype := List.find (fun op => code op =? b) all_opcodes.
(** ** Limits ([consensus/consensus.h], [script.h]) *)

Definition MAX_SCRIPT_ELEMENT_SIZE_BEFORE_GENESIS : Z := 520.

Definition MAX_STACK_ELEMENTS_BEFORE_GENESIS : Z := 1000.

Definition LOCKTIME_THRESHOLD : Z := 500000000.

Definition MAX_PUBKEYS_PER_MULTISIG_BEFORE_GENESIS : Z := 20.

Definition MAX_SCRIPT_SIZE_BEFORE_GENESIS : Z := 10000.

(** ** Reading *)

Definition script_size (s : list Z) : Z := Z.of_nat (length s).

(** [GetOp2] at the position whose rest is [pc]: the opcode, its operand and the new position. *)

Definition GetOp2 (pc : list Z) : option (Z * list Z * list Z) :=
  match pc with
  | [] => None
  | opcode :: pc =>
      if opcode <=? code OP_PUSHDATA4 then
        let header :=
          if opcode <? code OP_PUSHDATA1 then Some (opcode, pc)
          else if opcode =? code OP_PUSHDATA1 then
            match pc with [] => None | n :: pc => Some (n, pc) end
          else if opcode =? code OP_PUSHDATA2 then
            if script_size pc <? 2 then None else Some (ReadLE16 pc, drop 2 pc)
          else if script_size pc <? 4 then None else Some (ReadLE32 pc, drop 4 pc) in
        '(nSize, pc) ← header;
        if u32 (script_size pc) <? nSize then None
        else Some (opcode, take (Z.to_nat nSize) pc, drop (Z.to_nat nSize) pc)
      else Some (opcode, [], pc)
  end.

(** ** Writing *)

(** [operator<<(const std::vector<uint8_t>&)]: the bytes appended to the script. *)

Definition push_data (b : list Z) : list Z :=
  let n := script_size b in
  (if n <? code OP_PUSHDATA1 then [u8 n]
   else if n <=? 0xff then [code OP_PUSHDATA1; u8 n]
   else if n <=? 0xffff then code OP_PUSHDATA2 :: WriteLE16 n
   else code OP_PUSHDATA4 :: WriteLE32 n) ++ b.

Definition push_int64 (n : Z) : list Z :=
  if (n =? -1) || ((1 <=? n) && (n <=? 16)) then [u8 (n + (code OP_1 - 1))]
  else if n =? 0 then [code OP_0]
  else push_data (serialize n).

(** [DecodeOP_N] and [EncodeOP_N]; [None] is a failed assertion. *)

Definition DecodeOP_N (opcode : Z) : option Z :=
  if opcode =? code OP_0 then Some 0
  else if (code OP_1 <=? opcode) && (opcode <=? code OP_16) then Some (opcode - (code OP_1 - 1))
  else None.

Definition EncodeOP_N (n : Z) : option Z :=
  if (0 <=? n) && (n <=? 16) then Some (if n =? 0 then code OP_0 else code OP_1 + n - 1) else None.

(** ** [FindAndDelete] *)

(** [std::equal(b.begin(), b.end(), pc)] with enough bytes left. *)

Definition starts_with (b pc : list Z) : bool :=
  (length b <=? length pc)%nat && bool_decide (take (length b) pc = b).

(** The inner loop skips copies of [b] at [pc]. *)

Fixpoint skip_copies (fuel : nat) (b pc : list Z) (nFound : Z) : list Z * Z :=
  match fuel with
  | O => (pc, nFound)
  | S n => if starts_with b pc then skip_copies n b (drop (length b) pc) (nFound + 1) else (pc, nFound)
  end.

(** The outer loop; [result] is what was copied, [pc2] the start of what was not. *)

Fixpoint delete_loop (fuel : nat) (b result pc2 pc : list Z) (nFound : Z) : list Z * Z :=
  match fuel with
  | O => (result ++ pc2, nFound)
  | S n =>
      let result := result ++ take (length pc2 - length pc) pc2 in
      let '(pc, nFound) := skip_copies (length pc) b pc nFound in
      match GetOp2 pc with
      | Some (_, _, next) => delete_loop n b result pc next nFound
      | None => (result ++ pc, nFound)
      end
  end.

Definition FindAndDelete (script b : list Z) : list Z * Z :=
  if (length b =? 0)%nat then (script, 0)
  else
    let '(result, nFound) := delete_loop (S (length script)) b [] script script 0 in
    if 0 <? nFound then (result, nFound) else (script, nFound).

(** ** Instructions *)

Record instruction := { inst_opcode : Z; inst_offset : nat; inst_operand : list Z }.

(** Opcode, offset to the operand, length of the operand. *)

Definition decode_instruction (s : list Z) : Z * nat * nat :=
  let invalid := (code OP_INVALIDOPCODE, 0%nat, 0%nat) in
  match s with
  | [] => invalid
  | opcode :: s =>
      if (code OP_PUSHDATA4 <? opcode) || (opcode =? 0) then (opcode, 0%nat, 0%nat)
      else
        match s with
        | [] => invalid
        | s0 :: _ =>
            if opcode <? code OP_PUSHDATA1 then
              if opcode <=? script_size s then (opcode, 0%nat, Z.to_nat opcode) else invalid
            else if opcode =? code OP_PUSHDATA1 then
              if script_size s - 1 <? s0 then invalid else (opcode, 1%nat, Z.to_nat s0)
            else if opcode =? code OP_PUSHDATA2 then
              if script_size s <? 2 then invalid
              else if script_size s - 2 <? ReadLE16 s then invalid
              else (opcode, 2%nat, Z.to_nat (ReadLE16 s))
            else if opcode =? code OP_PUSHDATA4 then
              if script_size s <? 4 then invalid
              else if script_size s - 4 <? ReadLE32 s then invalid
              else (opcode, 4%nat, Z.to_nat (ReadLE32 s))
            else (opcode, 0%nat, 0%nat)
        end
  end.

Definition next_instruction (s : list Z) : instruction :=
  let '(opcode, offset, len) := decode_instruction s in
  {| inst_opcode := opcode; inst_offset := offset; inst_operand := take len (drop (1 + offset) s) |}.

(** [operator++]: the rest of the script after the instruction at its head. *)

Definition advance (s : list Z) : list Z :=
  let i := next_instruction s in
  if inst_opcode i =? code OP_INVALIDOPCODE then []
  else drop (1 + inst_offset i + length (inst_operand i)) s.

(** The range [begin_instructions()], [end_instructions()]: an iterator equals the end iterator when
    nothing is left.  Every step consumes a byte. *)

Fixpoint instructions_loop (fuel : nat) (s : list Z) : list instruction :=
  match fuel, s with
  | S n, _ :: _ => next_instruction s :: instructions_loop n (advance s)
  | _, _ => []
  end.

Definition instructions (s : list Z) : list instruction := instructions_loop (length s) s.

Definition CountOp (s : list Z) (opcode : Z) : nat :=
  length (filter (fun i => inst_opcode i = opcode) (instructions s)).

(** ** Predicates on scripts *)

Definition sbyte (s : list Z) (i : nat) : Z := nth i s 0.

Definition IsP2SH (script : list Z) : bool :=
  (script_size script =? 23) && (sbyte script 0 =? code OP_HASH160) && (sbyte script 1 =? 0x14) &&
  (sbyte script 22 =? code OP_EQUAL).

Definition IsDSNotification (script : list Z) : bool :=
  (11 <=? script_size script) && (sbyte script 0 =? code OP_FALSE) && (sbyte script 1 =? code OP_RETURN) &&
  (sbyte script 2 =? 0x04) && (sbyte script 3 =? 0x64) && (sbyte script 4 =? 0x73) && (sbyte script 5 =? 0x6e) &&
  (sbyte script 6 =? 0x74).

Definition dust_return : list Z := [0x00; 0x6a; 0x04; 0x64; 0x75; 0x73; 0x74].

Definition IsDustReturnScript (script : list Z) : bool :=
  if negb (script_size script =? script_size dust_return) then false else bool_decide (script = dust_return).

Fixpoint push_only_loop (fuel : nat) (pc : list Z) : bool :=
  match fuel, pc with
  | S n, _ :: _ =>
      match GetOp2 pc with
      | None => false
      | Some (opcode, _, pc) => if code OP_16 <? opcode then false else push_only_loop n pc
      end
  | _, _ => true
  end.

Definition IsPushOnly (script : list Z) : bool := push_only_loop (length script) script.

Definition IsUnspendable (script : list Z) (isGenesisEnabled : bool) : bool :=
  if isGenesisEnabled then
    (1 <? script_size script) && (sbyte script 0 =? code OP_FALSE) && (sbyte script 1 =? code OP_RETURN)
  else
    ((0 <? script_size script) && (sbyte script 0 =? code OP_RETURN)) ||
    ((1 <? script_size script) && (sbyte script 0 =? code OP_FALSE) && (sbyte script 1 =? code OP_RETURN)) ||
    (MAX_SCRIPT_SIZE_BEFORE_GENESIS <? script_size script).

Definition IsKnownOpReturn (script : list Z) : bool :=
  ((0 <? script_size script) && (sbyte script 0 =? code OP_RETURN)) ||
  ((1 <? script_size script) && (sbyte script 0 =? code OP_FALSE) && (sbyte script 1 =? code OP_RETURN)).

(** ** Signature operations *)

Section sigops.
Context `{BN_API}.

(** The body of the loop of [GetSigOpCount]: the count and the error flag after one instruction. *)

Definition sigops_step (fAccurate isGenesisEnabled : bool) (last i : instruction) (n : Z) : outcome exn (option Z) :=
  let opcode := inst_opcode i in
  let lastOpcode := inst_opcode last in
  if (opcode =? code OP_CHECKSIG) || (opcode =? code OP_CHECKSIGVERIFY) then Ok (Some (u64 (n + 1)))
  else if (opcode =? code OP_CHECKMULTISIG) || (opcode =? code OP_CHECKMULTISIGVERIFY) then
    if (fAccurate || isGenesisEnabled) && (code OP_1 <=? lastOpcode) && (lastOpcode <=? code OP_16) then
      match DecodeOP_N lastOpcode with Some k => Ok (Some (u64 (n + k))) | None => Abort end
    else if isGenesisEnabled then
      if lastOpcode =? code OP_0 then Ok (Some n)
      else if MAXIMUM_ELEMENT_SIZE <? script_size (inst_operand last) then Ok None
      else if negb (IsMinimallyEncoded (inst_operand last) MAXIMUM_ELEMENT_SIZE) then Ok None
      else
        sn ← CScriptNum_of_bytes (inst_operand last) true MAXIMUM_ELEMENT_SIZE false;
        numSigs ← getint sn;
        Ok (if numSigs <? 0 then None else Some (u64 (n + numSigs)))
    else Ok (Some (u64 (n + MAX_PUBKEYS_PER_MULTISIG_BEFORE_GENESIS)))
  else Ok (Some n).

Fixpoint sigops_loop (fAccurate isGenesisEnabled : bool) (l : list instruction) (last : instruction) (n : Z) :
    outcome exn (Z * bool) :=
  match l with
  | [] => Ok (n, false)
  | i :: t =>
      if inst_opcode i =? code OP_INVALIDOPCODE then Ok (n, false)
      else
        r ← sigops_step fAccurate isGenesisEnabled last i n;
        match r with
        | None => Ok (0, true)
        | Some n => sigops_loop fAccurate isGenesisEnabled t i n
        end
  end.

Definition no_instruction : instruction := {| inst_opcode := code OP_INVALIDOPCODE; inst_offset := 0; inst_operand := [] |}.

(** The count and [sigOpCountError]. *)

Definition GetSigOpCount (script : list Z) (fAccurate isGenesisEnabled : bool) : outcome exn (Z * bool) :=
  sigops_loop fAccurate isGenesisEnabled (instructions script) no_instruction 0.

(** The [all_of] over the instructions of [scriptSig]: the operand of the last one, if every opcode is
    a push. *)

Fixpoint last_push (l : list instruction) (data : list Z) : option (list Z) :=
  match l with
  | [] => Some data
  | i :: t =>
      if (code OP_16 <? inst_opcode i) || (inst_opcode i =? code OP_INVALIDOPCODE) then None
      else last_push t (inst_operand i)
  end.

Definition GetSigOpCount_P2SH (script scriptSig : list Z) (isGenesisEnabled : bool) : outcome exn (Z * bool) :=
  if negb (IsP2SH script) then GetSigOpCount script true isGenesisEnabled
  else
    match last_push (instructions scriptSig) [] with
    | None => Ok (0, false)
    | Some data => if isGenesisEnabled then Ok (0, false) else GetSigOpCount data true isGenesisEnabled
    end.

End sigops.

(** ** The two readers agree *)

Ltac opcode_simpl := cbn [code] in *.

Lemma script_size_cons b s : script_size (b :: s) = script_size s + 1.
Proof. unfold script_size. cbn [length]. lia. Qed.

Lemma script_size_drop n s : script_size (drop n s) = Z.max 0 (script_size s - Z.of_nat n).
Proof. unfold script_size. rewrite length_drop. lia. Qed.

Lemma script_size_nonneg s : 0 <= script_size s.
Proof. unfold script_size. lia. Qed.

Lemma ReadLE16_range s : bytes s -> 0 <= ReadLE16 s < 2 ^ 16.
Proof.
  intros Hs. unfold ReadLE16. pose proof (le_val_bound (take 2 s) ltac:(auto with bytes)) as B. split; [lia|].
  eapply Z.lt_le_trans; [apply B|]. apply Z.pow_le_mono_r; [lia|]. rewrite length_take. lia.
Qed.

Lemma ReadLE32_range s : bytes s -> 0 <= ReadLE32 s < 2 ^ 32.
Proof.
  intros Hs. unfold ReadLE32. pose proof (le_val_bound (take 4 s) ltac:(auto with bytes)) as B. split; [lia|].
  eapply Z.lt_le_trans; [apply B|]. apply Z.pow_le_mono_r; [lia|]. rewrite length_take. lia.
Qed.

(** What [GetOp2] returns, in terms of the offset and the length of the operand. *)

Lemma GetOp2_decode s : bytes s -> script_size s < 2 ^ 32 ->
  GetOp2 s =
    let '(op, off, len) := decode_instruction s in
    match s with
    | [] => None
    | b :: _ =>
        if (op =? code OP_INVALIDOPCODE) && negb (b =? code OP_INVALIDOPCODE) then None
        else Some (op, take len (drop (1 + off) s), drop (1 + off + len) s)
    end.
Proof.
  intros Hs Hsz. destruct s as [|b s]; [done|]. apply Forall_cons_1 in Hs as [Hb Hs]. rewrite script_size_cons in Hsz.
  pose proof (script_size_nonneg s) as H0. unfold is_byte in Hb. unfold GetOp2, decode_instruction. opcode_simpl.
  destruct (Z.leb_spec b 0x4e) as [Hp|Hp].
  2:{ rewrite (proj2 (Z.ltb_lt _ _)) by lia. cbn [orb]. destruct (b =? 0xff); done. }
  rewrite (proj2 (Z.ltb_ge _ b)) by lia. cbn [orb]. rewrite (proj2 (Z.eqb_neq b 0xff)) by lia. cbn [negb].
  assert (forall n (t : list Z), Z.of_nat n <= script_size s -> u32 (script_size (drop n s)) = script_size s - Z.of_nat n) as Hu.
  { intros n _ Hn. rewrite script_size_drop. unfold u32. rewrite Z.mod_small; lia. }
  destruct (Z.eqb_spec b 0) as [->|Hb0].
  { cbn. unfold u32. rewrite Z.mod_small by lia. by rewrite (proj2 (Z.ltb_ge _ _)) by lia. }
  destruct s as [|s0 s'] eqn:Es; [|rewrite <- Es in *].
  { destruct (Z.ltb_spec b 0x4c); [|by destruct (b =? 0x4c), (b =? 0x4d)].
    bind_simpl. change (u32 (script_size [])) with 0. by rewrite (proj2 (Z.ltb_lt 0 b)) by lia. }
  destruct (Z.ltb_spec b 0x4c) as [H1|H1].
  { bind_simpl. specialize (Hu 0%nat [] ltac:(lia)). rewrite drop_0 in Hu. rewrite Hu, Z.sub_0_r.
    destruct (Z.ltb_spec (script_size s) b); [rewrite (proj2 (Z.leb_gt _ _)) by lia; done|].
    rewrite (proj2 (Z.leb_le _ _)) by lia. by rewrite (proj2 (Z.eqb_neq b 0xff)) by lia. }
  destruct (Z.eqb_spec b 0x4c) as [->|H2].
  { subst s. bind_simpl. rewrite script_size_cons in *. specialize (Hu 1%nat [] ltac:(pose proof (script_size_nonneg s'); lia)).
    change (drop 1 (s0 :: s')) with s' in Hu. rewrite Hu. change (Z.of_nat 1) with 1. destruct (_ <? s0); done. }
  destruct (Z.eqb_spec b 0x4d) as [->|H3].
  { destruct (Z.ltb_spec (script_size s) 2); [done|]. bind_simpl. rewrite (Hu 2%nat []) by lia.
    change (Z.of_nat 2) with 2. destruct (_ <? ReadLE16 s); [done|]. cbn [andb Z.eqb]. by rewrite drop_drop. }
  assert (b = 0x4e) as -> by lia. destruct (Z.ltb_spec (script_size s) 4); [done|]. bind_simpl.
  rewrite (Hu 4%nat []) by lia. change (Z.of_nat 4) with 4. destruct (_ <? ReadLE32 s); [done|]. cbn [andb Z.eqb Pos.eqb].
  by rewrite drop_drop.
Qed.

(** [GetOp2] consumes the opcode and its operand. *)

Lemma GetOp2_suffix s op d r : GetOp2 s = Some (op, d, r) ->
  hd_error s = Some op /\ exists n m k, r = drop (S n) s /\ d = take m (drop k s).
Proof.
  destruct s as [|b s]; [done|]. unfold GetOp2. destruct (b <=? _).
  2:{ intros [= <- <- <-]. split; [done|]. by exists 0%nat, 0%nat, 0%nat. }
  intros H.
  assert (forall n k, (if u32 (script_size (drop k s)) <? n then None
    else Some (b, take (Z.to_nat n) (drop k s), drop (Z.to_nat n) (drop k s))) = Some (op, d, r) ->
    hd_error (b :: s) = Some op /\ exists n m k, r = drop (S n) (b :: s) /\ d = take m (drop k (b :: s))) as Hget.
  { clear H. intros n k. destruct (_ <? n); [done|]. intros [= <- <- <-]. split; [done|].
    exists (k + Z.to_nat n)%nat, (Z.to_nat n), (S k). split; [|done]. cbn [drop]. by rewrite drop_drop. }
  destruct (b <? _); [by apply (Hget b 0%nat)|]. destruct (b =? _).
  { destruct s as [|n s]; [done|]. by apply (Hget n 1%nat). }
  destruct (b =? _).
  { destruct (_ <? 2); [done|]. by apply (Hget (ReadLE16 s) 2%nat). }
  destruct (_ <? 4); [done|]. by apply (Hget (ReadLE32 s) 4%nat).
Qed.

Lemma GetOp2_length s op d r : GetOp2 s = Some (op, d, r) -> (length r < length s)%nat.
Proof.
  intros H. destruct s as [|b s]; [done|]. apply GetOp2_suffix in H as (_ & n & m & k & -> & _).
  cbn [drop length]. rewrite length_drop. lia.
Qed.

Lemma GetOp2_bytes s op d r : bytes s -> GetOp2 s = Some (op, d, r) -> is_byte op /\ bytes d /\ bytes r.
Proof.
  intros Hs H. apply GetOp2_suffix in H as (Hh & n & m & k & -> & ->).
  split_and!; [|auto with bytes..]. destruct s; [done|]. injection Hh as <-. by apply Forall_cons_1 in Hs as [? _].
Qed.

(** [GetOp2] and the instruction iterator, step by step. *)

Lemma next_instruction_GetOp2 s : bytes s -> script_size s < 2 ^ 32 -> s <> [] ->
  match GetOp2 s with
  | Some (op, d, r) =>
      inst_opcode (next_instruction s) = op /\ inst_operand (next_instruction s) = d /\
      (op <> code OP_INVALIDOPCODE -> advance s = r)
  | None => inst_opcode (next_instruction s) = code OP_INVALIDOPCODE /\ advance s = []
  end.
Proof.
  intros Hs Hsz Hne. rewrite GetOp2_decode by done. unfold advance, next_instruction.
  destruct (decode_instruction s) as [[op off] len] eqn:E. cbn [inst_opcode inst_operand inst_offset].
  destruct s as [|b s']; [done|]. clear Hne.
  destruct ((op =? code OP_INVALIDOPCODE) && negb (b =? code OP_INVALIDOPCODE)) eqn:Ei.
  { apply andb_true_iff in Ei as [Ei%Z.eqb_eq _]. subst op. rewrite Z.eqb_refl. done. }
  split_and!; [done..|]. intros Hop. rewrite (proj2 (Z.eqb_neq _ _)) by done.
  assert (1 + off + len <= length (b :: s'))%nat as Hlen.
  { clear Ei. revert E. unfold decode_instruction. apply Forall_cons_1 in Hs as [Hb Hs]. unfold is_byte in Hb.
    destruct (_ || _); [intros E; simplify_eq; cbn; lia|]. destruct s' as [|s0 s'']; [intros E; simplify_eq; cbn; lia|].
    apply Forall_cons_1 in Hs as Hs0. destruct Hs0 as [Hs0 _]. unfold is_byte in Hs0.
    pose proof (ReadLE16_range _ Hs). pose proof (ReadLE32_range _ Hs). unfold script_size.
    destruct (b <? _); [destruct (Z.leb_spec b (Z.of_nat (length (s0 :: s'')))); intros E; simplify_eq; cbn [length] in *; lia|].
    destruct (b =? code OP_PUSHDATA1); [destruct (Z.ltb_spec (Z.of_nat (length (s0 :: s'')) - 1) s0); intros E; simplify_eq; cbn [length] in *; lia|].
    destruct (b =? code OP_PUSHDATA2).
    { destruct (Z.ltb_spec (Z.of_nat (length (s0 :: s''))) 2); [intros E; simplify_eq; cbn; lia|].
      destruct (Z.ltb_spec (Z.of_nat (length (s0 :: s'')) - 2) (ReadLE16 (s0 :: s''))); intros E; simplify_eq; cbn [length] in *; lia. }
    destruct (b =? code OP_PUSHDATA4); [|intros E; simplify_eq; cbn; lia].
    destruct (Z.ltb_spec (Z.of_nat (length (s0 :: s''))) 4); [intros E; simplify_eq; cbn; lia|].
    destruct (Z.ltb_spec (Z.of_nat (length (s0 :: s'')) - 4) (ReadLE32 (s0 :: s''))); intros E; simplify_eq; cbn [length] in *; lia. }
  rewrite length_take, length_drop. by replace (_ `min` _)%nat with len by lia.
Qed.

Lemma instructions_loop_fuel n s : (length s <= n)%nat -> instructions_loop n s = instructions s.
Proof.
  unfold instructions. enough (forall n m s, (length s <= n)%nat -> (length s <= m)%nat ->
    instructions_loop n s = instructions_loop m s) as H by (intros; apply H; lia).
  clear n s. induction n as [|n IH]; intros m s Hn Hm.
  { by destruct s, m; cbn in *; try lia. }
  destruct s as [|b s]; [by destruct m|]. destruct m as [|m]; [cbn in Hm; lia|]. cbn [instructions_loop]. f_equal.
  assert (length (advance (b :: s)) <= length s)%nat.
  { unfold advance. destruct (_ =? _); [cbn; lia|]. cbn [drop Nat.add]. rewrite length_drop. lia. }
  cbn [length] in *. apply IH; lia.
Qed.

Lemma advance_length b s : (length (advance (b :: s)) <= length s)%nat.
Proof. unfold advance. destruct (_ =? _); [cbn; lia|]. cbn [drop Nat.add]. rewrite length_drop. lia. Qed.

Lemma instructions_cons b s : instructions (b :: s) = next_instruction (b :: s) :: instructions (advance (b :: s)).
Proof.
  unfold instructions at 1. cbn [length instructions_loop]. f_equal. apply instructions_loop_fuel, advance_length.
Qed.

Lemma advance_bytes s : bytes s -> bytes (advance s).
Proof. intros. unfold advance. destruct (_ =? _); auto with bytes. Qed.

(** Induction along the instructions of a script. *)

Lemma script_ind (P : list Z -> Prop) : P [] -> (forall b s, P (advance (b :: s)) -> P (b :: s)) -> forall s, P s.
Proof.
  intros H0 Hstep s. remember (length s) as n eqn:E. assert (length s <= n)%nat as Hn by lia. clear E. revert s Hn.
  induction n as [|n IH]; intros [|b s] Hn; try done; cbn [length] in Hn; [lia|].
  apply Hstep, IH. pose proof (advance_length b s). lia.
Qed.

Lemma push_only_loop_spec n s : bytes s -> script_size s < 2 ^ 32 -> (length s <= n)%nat ->
  push_only_loop n s = forallb (fun i => inst_opcode i <=? code OP_16) (instructions s).
Proof.
  revert s. induction n as [|n IH]; intros s Hs Hsz Hn.
  { by destruct s; cbn in *; [|lia]. }
  destruct s as [|b s]; [done|]. rewrite instructions_cons. cbn [push_only_loop forallb].
  pose proof (next_instruction_GetOp2 (b :: s) Hs Hsz ltac:(done)) as HG.
  destruct (GetOp2 (b :: s)) as [[[op d] r]|] eqn:E.
  - destruct HG as (-> & _ & Hadv). destruct (Z.ltb_spec (code OP_16) op) as [Hgt|Hle].
    { by rewrite (proj2 (Z.leb_gt _ _)). }
    rewrite (proj2 (Z.leb_le _ _)) by done. cbn [andb]. rewrite Hadv by (opcode_simpl; lia).
    pose proof (GetOp2_length _ _ _ _ E). apply GetOp2_bytes in E as (_ & _ & Hr); [|done].
    apply IH; [done | | cbn [length] in *; lia]. unfold script_size in *. cbn [length] in *. lia.
  - destruct HG as [-> _]. done.
Qed.

(** The two script readers agree: on every script, at every position, [GetOp] and the
    instruction iterator see the same opcode, operand and next position; the iterator shows an
    instruction [GetOp] cannot read as [OP_INVALIDOPCODE] and ends there; and [IsPushOnly], which
    uses [GetOp], is the test that every instruction of the iterator is a push. *)
Theorem script_readers_agree s :
  bytes s -> script_size s < 2 ^ 32 ->
  (s <> [] ->
   match GetOp2 s with
   | Some (op, d, r) =>
       inst_opcode (next_instruction s) = op /\ inst_operand (next_instruction s) = d /\
       (op <> code OP_INVALIDOPCODE -> advance s = r)
   | None => inst_opcode (next_instruction s) = code OP_INVALIDOPCODE /\ advance s = []
   end) /\
  IsPushOnly s = forallb (fun i => inst_opcode i <=? code OP_16) (instructions s).
Proof. intros Hs Hsz. split; [by apply next_instruction_GetOp2 | by apply push_only_loop_spec]. Qed.

Lemma script_readers_agree_witness :
  IsPushOnly [0x4c; 0x02; 0xaa; 0xbb; 0x51] = true /\
  map inst_operand (instructions [0x4c; 0x02; 0xaa; 0xbb; 0x51]) = [[0xaa; 0xbb]; []].
Proof.
  destruct (script_readers_agree [0x4c; 0x02; 0xaa; 0xbb; 0x51]) as [_ H]; [by repeat constructor | done |].
  split; [rewrite H; reflexivity | reflexivity].
Defined.

(** ** What is pushed is read back *)

Lemma take_drop_prefix (b rest : list Z) :
  take (Z.to_nat (script_size b)) (b ++ rest) = b /\ drop (Z.to_nat (script_size b)) (b ++ rest) = rest.
Proof. unfold script_size. rewrite Nat2Z.id. split; [apply take_app_length | apply drop_app_length]. Qed.

Lemma ReadLE_prefix k n rest : 0 <= n < 2 ^ (8 * Z.of_nat k) ->
  le_val (take k (le_bytes k n ++ rest)) = n /\ drop k (le_bytes k n ++ rest) = rest.
Proof.
  intros Hn. pose proof (length_le_bytes k n) as Hl. split.
  - rewrite take_app_le, take_ge by lia. rewrite le_val_le_bytes. by apply Z.mod_small.
  - rewrite drop_app_ge, Hl, Nat.sub_diag by lia. done.
Qed.

Lemma push_data_read b rest : script_size (push_data b ++ rest) < 2 ^ 32 ->
  exists op, GetOp2 (push_data b ++ rest) = Some (op, b, rest) /\ 0 <= op <= code OP_PUSHDATA4.
Proof.
  intros Hsz. pose proof (script_size_nonneg b) as Hb0. pose proof (script_size_nonneg rest) as Hr0.
  destruct (take_drop_prefix b rest) as [Et Ed].
  assert (script_size (b ++ rest) = script_size b + script_size rest) as Esz by (unfold script_size; rewrite length_app; lia).
  assert (script_size (b ++ rest) < 2 ^ 32) as Hsz'.
  { unfold push_data in Hsz. rewrite <- app_assoc in Hsz. unfold script_size in *. rewrite length_app in Hsz. lia. }
  unfold push_data, u8. opcode_simpl. set (n := script_size b) in *.
  assert ((u32 (script_size (b ++ rest)) <? n) = false) as Hlt.
  { unfold u32. rewrite Z.mod_small by lia. apply Z.ltb_ge. lia. }
  destruct (Z.ltb_spec n 0x4c).
  { rewrite Z.mod_small by lia. exists n. cbn [app]. unfold GetOp2. opcode_simpl.
    rewrite (proj2 (Z.leb_le _ _)), (proj2 (Z.ltb_lt _ _)) by lia. bind_simpl. rewrite Hlt, Et, Ed. split; [done | lia]. }
  destruct (Z.leb_spec n 0xff).
  { rewrite Z.mod_small by lia. exists 0x4c. cbn. rewrite Hlt, Et, Ed. split; [done | lia]. }
  destruct (Z.leb_spec n 0xffff).
  - exists 0x4d. destruct (ReadLE_prefix 2 n (b ++ rest) ltac:(lia)) as [E1 E2].
    cbn [app]. rewrite <- app_assoc. unfold GetOp2. cbn [code Z.leb Z.ltb Z.eqb Z.compare Pos.compare Pos.compare_cont Pos.eqb].
    unfold ReadLE16, WriteLE16. rewrite E1, E2.
    rewrite (proj2 (Z.ltb_ge _ _)) by (unfold script_size; rewrite length_app, length_le_bytes; lia).
    bind_simpl. rewrite Hlt, Et, Ed. split; [done | lia].
  - exists 0x4e. destruct (ReadLE_prefix 4 n (b ++ rest) ltac:(lia)) as [E1 E2].
    cbn [app]. rewrite <- app_assoc. unfold GetOp2. cbn [code Z.leb Z.ltb Z.eqb Z.compare Pos.compare Pos.compare_cont Pos.eqb].
    unfold ReadLE32, WriteLE32. rewrite E1, E2.
    rewrite (proj2 (Z.ltb_ge _ _)) by (unfold script_size; rewrite length_app, length_le_bytes; lia).
    bind_simpl. rewrite Hlt, Et, Ed. split; [done | lia].
Qed.

(** The number an instruction pushes. *)

Definition pushed_number (op : Z) (d : list Z) : option Z :=
  if op <=? code OP_PUSHDATA4 then Some (num_val d)
  else if op =? code OP_1NEGATE then Some (-1)
  else DecodeOP_N op.

Lemma GetOp2_zero rest : script_size (0 :: rest) < 2 ^ 32 -> GetOp2 (0 :: rest) = Some (0, [], rest).
Proof.
  rewrite script_size_cons. intros Hsz. pose proof (script_size_nonneg rest). unfold GetOp2, u32. opcode_simpl.
  cbn [Z.leb Z.ltb Z.compare]. bind_simpl. rewrite Z.mod_small by lia. by rewrite (proj2 (Z.ltb_ge _ _)) by lia.
Qed.

Lemma push_int64_read n rest : - 2 ^ 63 <= n < 2 ^ 63 -> script_size (push_int64 n ++ rest) < 2 ^ 32 ->
  exists op d, GetOp2 (push_int64 n ++ rest) = Some (op, d, rest) /\ pushed_number op d = Some n.
Proof.
  intros Hn. unfold push_int64. destruct ((n =? -1) || ((1 <=? n) && (n <=? 16))) eqn:Es.
  - intros _. assert (n = -1 \/ 1 <= n <= 16) as Hs.
    { apply orb_true_iff in Es as [->%Z.eqb_eq|Es]; [by left|right].
      apply andb_true_iff in Es as [?%Z.leb_le ?%Z.leb_le]. lia. }
    opcode_simpl. exists (n + 0x50), []. unfold u8. rewrite Z.mod_small by lia. cbn [app].
    unfold GetOp2, pushed_number, DecodeOP_N. opcode_simpl. rewrite !(proj2 (Z.leb_gt _ 0x4e)) by lia. split; [done|].
    destruct (Z.eqb_spec (n + 0x50) 0x4f); [f_equal; lia|].
    rewrite (proj2 (Z.eqb_neq _ _)), (proj2 (Z.leb_le 0x51 _)), (proj2 (Z.leb_le _ 0x60)) by lia. cbn [andb]. f_equal. lia.
  - destruct (Z.eqb_spec n 0) as [->|Hn0]; intros Hi.
    + exists 0, []. split; [by apply GetOp2_zero | done].
    + destruct (push_data_read (serialize n) rest Hi) as (op & E & Hop). exists op, (serialize n). split; [done|].
      unfold pushed_number. rewrite (proj2 (Z.leb_le _ _)) by lia. f_equal. by apply serialize_spec.
Qed.

(** Writing and reading scripts: a byte string appended with [operator<<] is read back as one
    push with exactly that operand, followed by the rest of the script, in each of the four length
    encodings; an integer appended with [push_int64] is read back as one instruction that pushes that
    number. *)
Theorem script_push_roundtrip b n rest :
  - 2 ^ 63 <= n < 2 ^ 63 ->
  script_size (push_data b ++ rest) < 2 ^ 32 -> script_size (push_int64 n ++ rest) < 2 ^ 32 ->
  (exists op, GetOp2 (push_data b ++ rest) = Some (op, b, rest) /\ 0 <= op <= code OP_PUSHDATA4) /\
  (exists op d, GetOp2 (push_int64 n ++ rest) = Some (op, d, rest) /\ pushed_number op d = Some n).
Proof.
  intros Hn Hb Hi. split; [by apply push_data_read | by apply push_int64_read].
Qed.

Lemma script_push_roundtrip_witness :
  (exists op, GetOp2 (push_data (replicate 300 7) ++ [0xac]) = Some (op, replicate 300 7, [0xac]) /\ 0 <= op <= 0x4e) /\
  (exists op d, GetOp2 (push_int64 (-1000) ++ [0xac]) = Some (op, d, [0xac]) /\ pushed_number op d = Some (-1000)).
Proof. apply (script_push_roundtrip (replicate 300 7) (-1000) [0xac]); [lia | reflexivity | reflexivity]. Defined.

(** ** Signature operation counts *)

Section sigops_spec.
Context `{BN_API}.

Lemma instruction_operand_bytes s : bytes s -> Forall (fun i => bytes (inst_operand i)) (instructions s).
Proof.
  revert s. apply (script_ind (fun s => bytes s -> Forall (fun i => bytes (inst_operand i)) (instructions s))); [by constructor|].
  intros b s IH Hs. rewrite instructions_cons. constructor; [|by apply IH, advance_bytes].
  unfold next_instruction. destruct (decode_instruction (b :: s)) as [[op off] len]. cbn [inst_operand]. auto with bytes.
Qed.

Lemma sigops_step_total a g last i n : bytes (inst_operand last) -> exists r, sigops_step a g last i n = Ok r.
Proof.
  intros Hb. unfold sigops_step. destruct (_ || _); [by eexists|]. destruct (_ || _); [|by eexists].
  destruct (_ && (_ <=? code OP_16)) eqn:El.
  { apply andb_true_iff in El as [[_ E1]%andb_true_iff E2]. unfold DecodeOP_N. rewrite E1, E2.
    destruct (_ =? code OP_0); by eexists. }
  destruct g; [|by eexists]. destruct (_ =? code OP_0); [by eexists|].
  destruct (Z.ltb_spec MAXIMUM_ELEMENT_SIZE (script_size (inst_operand last))) as [|Hle]; [by eexists|].
  destruct (IsMinimallyEncoded (inst_operand last) MAXIMUM_ELEMENT_SIZE) eqn:Em; cbn [negb]; [|by eexists].
  unfold CScriptNum_of_bytes. rewrite (proj2 (Z.ltb_ge _ _)) by done. rewrite Em. cbn [negb andb].
  destruct (inst_operand last) as [|x l] eqn:Eo; [by eexists|]. rewrite <- Eo in *.
  unfold MAXIMUM_ELEMENT_SIZE, script_size in Hle.
  rewrite deserialize_spec; [by eexists | done | by rewrite Eo | lia].
Qed.

Lemma sigops_loop_total a g l last n : Forall (fun i => bytes (inst_operand i)) l -> bytes (inst_operand last) ->
  exists r, sigops_loop a g l last n = Ok r.
Proof.
  intros Hl. revert last n. induction Hl as [|i l Hi Hl IH]; intros last n Hlast; cbn [sigops_loop]; [by eexists|].
  destruct (_ =? _); [by eexists|]. destruct (sigops_step_total a g last i n Hlast) as [r ->].
  cbn [mbind outcome_bind]. destruct r; [by apply IH | by eexists].
Qed.

(** How many of the instructions of [l] have one of the two opcodes. *)

Definition count_ops (l : list instruction) (op1 op2 : Z) : Z :=
  Z.of_nat (length (filter (fun i => inst_opcode i = op1 \/ inst_opcode i = op2) l)).

Lemma count_ops_cons i l op1 op2 : count_ops (i :: l) op1 op2 =
  (if (inst_opcode i =? op1) || (inst_opcode i =? op2) then 1 else 0) + count_ops l op1 op2.
Proof.
  unfold count_ops. rewrite filter_cons.
  destruct (decide (inst_opcode i = op1 \/ inst_opcode i = op2)) as [Hd|Hd].
  - replace (_ || _) with true; [cbn [length]; lia|]. symmetry. apply orb_true_iff. by rewrite !Z.eqb_eq.
  - replace (_ || _) with false; [lia|]. symmetry. apply orb_false_iff. rewrite !Z.eqb_neq. tauto.
Qed.

Lemma count_ops_nil op1 op2 : count_ops [] op1 op2 = 0.
Proof. done. Qed.

(** An [OP_INVALIDOPCODE] instruction is the last one. *)

Definition invalid_last (l : list instruction) : Prop :=
  forall i t l', l = l' ++ i :: t -> inst_opcode i = code OP_INVALIDOPCODE -> t = [].

Lemma instructions_invalid_last s : invalid_last (instructions s).
Proof.
  revert s. apply script_ind; [intros i t l' E; by destruct l'|]. intros b s IH i t l' E Hi.
  rewrite instructions_cons in E. destruct l' as [|j l']; injection E as <- E; [|by apply (IH i t l')].
  assert (advance (b :: s) = []) as Ha by (unfold advance; by rewrite Hi, Z.eqb_refl). by rewrite Ha in E.
Qed.

Lemma legacy_sigops_loop l last n : invalid_last l -> 0 <= n -> n + 20 * Z.of_nat (length l) < 2 ^ 64 ->
  sigops_loop false false l last n =
  Ok (n + count_ops l (code OP_CHECKSIG) (code OP_CHECKSIGVERIFY) +
      20 * count_ops l (code OP_CHECKMULTISIG) (code OP_CHECKMULTISIGVERIFY), false).
Proof.
  revert last n. induction l as [|i l IH]; intros last n Hinv Hn Hb; cbn [sigops_loop].
  { rewrite !count_ops_nil. do 2 f_equal. lia. }
  rewrite !count_ops_cons. cbn [length] in Hb. destruct (Z.eqb_spec (inst_opcode i) (code OP_INVALIDOPCODE)) as [Ei|Ei].
  { rewrite (Hinv i l [] eq_refl Ei), Ei, !count_ops_nil. opcode_simpl. cbn [Z.eqb Pos.eqb orb]. do 2 f_equal. lia. }
  assert (invalid_last l) as Hinv' by (intros j t l' ->; by apply (Hinv j t (i :: l'))).
  unfold sigops_step, u64, MAX_PUBKEYS_PER_MULTISIG_BEFORE_GENESIS. cbn [orb andb].
  destruct ((inst_opcode i =? code OP_CHECKSIG) || (inst_opcode i =? code OP_CHECKSIGVERIFY)) eqn:E1.
  - assert ((inst_opcode i =? code OP_CHECKMULTISIG) || (inst_opcode i =? code OP_CHECKMULTISIGVERIFY) = false) as ->.
    { apply orb_true_iff in E1 as [->%Z.eqb_eq| ->%Z.eqb_eq]; done. }
    cbn [mbind outcome_bind]. rewrite Z.mod_small by lia. rewrite IH by (done || lia). do 2 f_equal. lia.
  - destruct ((inst_opcode i =? code OP_CHECKMULTISIG) || _); cbn [mbind outcome_bind].
    + rewrite Z.mod_small by lia. rewrite IH by (done || lia). do 2 f_equal. lia.
    + rewrite IH by (done || lia). do 2 f_equal.
Qed.

Lemma instructions_length s : (length (instructions s) <= length s)%nat.
Proof.
  revert s. apply script_ind; [done|]. intros b s IH. rewrite instructions_cons. cbn [length].
  pose proof (advance_length b s). lia.
Qed.

(** Counting signature operations never throws and never fails its assertions, for every script
    and both rule sets; without accurate counting the count is the number of [OP_CHECKSIG] and
    [OP_CHECKSIGVERIFY] instructions plus twenty for each multisig instruction. *)
Theorem sigop_count s fAccurate isGenesisEnabled :
  bytes s -> script_size s < 2 ^ 32 ->
  (exists r, GetSigOpCount s fAccurate isGenesisEnabled = Ok r) /\
  GetSigOpCount s false false =
    Ok (count_ops (instructions s) (code OP_CHECKSIG) (code OP_CHECKSIGVERIFY) +
        20 * count_ops (instructions s) (code OP_CHECKMULTISIG) (code OP_CHECKMULTISIGVERIFY), false).
Proof.
  intros Hs Hsz. unfold GetSigOpCount. split.
  - apply sigops_loop_total; [by apply instruction_operand_bytes | by constructor].
  - rewrite legacy_sigops_loop; [done | apply instructions_invalid_last | lia |].
    pose proof (instructions_length s). unfold script_size in Hsz. lia.
Qed.

End sigops_spec.

Lemma sigop_count_witness :
  GetSigOpCount [0x01; 0xac; 0xac; 0x52; 0xae] false false = Ok (21, false) /\
  exists r, GetSigOpCount [0x01; 0xac; 0xac; 0x52; 0xae] true true = Ok r.
Proof.
  destruct (sigop_count [0x01; 0xac; 0xac; 0x52; 0xae] true true) as [H1 H2]; [by repeat constructor | done |].
  split; [rewrite H2; reflexivity | exact H1].
Defined.

(** ** [FindAndDelete] *)

Lemma starts_with_spec b pc : starts_with b pc = true <-> exists t, pc = b ++ t.
Proof.
  unfold starts_with. rewrite andb_true_iff, Nat.leb_le, bool_decide_eq_true. split.
  - intros [_ E]. exists (drop (length b) pc). by rewrite <- E at 1; rewrite take_drop.
  - intros [t ->]. rewrite length_app, take_app_length. split; [lia | done].
Qed.

(** [k] copies of [b]. *)

Fixpoint copies (k : nat) (b : list Z) : list Z := match k with O => [] | S n => b ++ copies n b end.

Lemma copies_snoc k b : copies (S k) b = copies k b ++ b.
Proof. induction k as [|k IH]; cbn [copies]; [by rewrite app_nil_r|]. rewrite <- app_assoc, <- IH. done. Qed.

Lemma skip_copies_spec fuel b pc n : b <> [] -> (length pc <= fuel)%nat ->
  exists k pc', skip_copies fuel b pc n = (pc', n + Z.of_nat k) /\ pc = copies k b ++ pc' /\ starts_with b pc' = false.
Proof.
  intros Hb. revert pc n. induction fuel as [|fuel IH]; intros pc n Hf.
  { destruct pc; [|cbn in Hf; lia]. exists 0%nat, []. rewrite Z.add_0_r. split_and!; [done | done |].
    unfold starts_with. destruct b; [done|]. done. }
  cbn [skip_copies]. destruct (starts_with b pc) eqn:E.
  - apply starts_with_spec in E as [t ->]. rewrite drop_app_length, length_app in *.
    destruct (IH t (n + 1)) as (k & pc' & E1 & E2 & E3); [destruct b; [done | cbn [length] in *; lia]|].
    exists (S k), pc'. rewrite E1. split_and!; [f_equal; lia | | done]. cbn [copies]. by rewrite <- app_assoc, <- E2.
  - exists 0%nat, pc. rewrite Z.add_0_r. done.
Qed.

(** What [FindAndDelete] means: at every instruction boundary all copies of [b] that follow are
    dropped, then one instruction is kept; what cannot be read as an instruction is kept. *)

Inductive deleted (b : list Z) : list Z -> list Z -> nat -> Prop :=
| deleted_end k s : starts_with b s = false -> GetOp2 s = None -> deleted b (copies k b ++ s) s k
| deleted_op k h next op d r j : starts_with b (h ++ next) = false -> GetOp2 (h ++ next) = Some (op, d, next) ->
    deleted b next r j -> deleted b (copies k b ++ h ++ next) (h ++ r) (k + j).

Lemma GetOp2_split s op d r : GetOp2 s = Some (op, d, r) -> exists h, s = h ++ r.
Proof. intros H. apply GetOp2_suffix in H as (_ & n & m & k & -> & _). exists (take (S n) s). by rewrite take_drop. Qed.

Lemma delete_loop_spec fuel b result mid pc n : b <> [] -> (length pc < fuel)%nat ->
  exists r k, delete_loop fuel b result (mid ++ pc) pc n = (result ++ mid ++ r, n + Z.of_nat k) /\ deleted b pc r k.
Proof.
  intros Hb. revert result mid pc n. induction fuel as [|fuel IH]; intros result mid pc n Hf; [lia|].
  cbn [delete_loop]. rewrite length_app, Nat.add_sub, take_app_length.
  destruct (skip_copies_spec (length pc) b pc n Hb ltac:(lia)) as (k & pc' & E1 & E2 & E3). rewrite E1.
  destruct (GetOp2 pc') as [[[op d] next]|] eqn:EG.
  - pose proof (GetOp2_length _ _ _ _ EG) as Hl. destruct (GetOp2_split _ _ _ _ EG) as [h Eh]. rewrite Eh.
    destruct (IH (result ++ mid) h next (n + Z.of_nat k)) as (r & j & E4 & E5).
    { rewrite E2, length_app in Hf. lia. }
    exists (h ++ r), (k + j)%nat. rewrite E4, <- !app_assoc. split; [f_equal; lia|].
    rewrite E2, Eh. apply (deleted_op b k h next op d r j); [by rewrite <- Eh.. | done].
  - exists pc', k. rewrite <- app_assoc. split; [done|]. rewrite E2. by apply deleted_end.
Qed.

Lemma deleted_zero b s r : deleted b s r 0 -> r = s.
Proof.
  intros H. remember 0%nat as z eqn:Ez. induction H as [k s|k h next op d r j _ _ _ IH]; [by subst k|].
  assert (k = 0%nat) as -> by lia. rewrite IH by lia. done.
Qed.

(** [FindAndDelete] removes exactly the copies of the pattern that start at an instruction
    boundary (consecutive copies included), keeps everything else in order, and returns how many it
    removed; the empty pattern removes nothing. *)
Theorem FindAndDelete_correct s b :
  let '(r, n) := FindAndDelete s b in
  if (length b =? 0)%nat then r = s /\ n = 0 else exists k, n = Z.of_nat k /\ deleted b s r k.
Proof.
  unfold FindAndDelete. destruct (Nat.eqb_spec (length b) 0) as [|Hb]; [done|].
  destruct (delete_loop_spec (S (length s)) b [] [] s 0) as (r & k & E & Hd); [by destruct b | lia |].
  cbn [app] in E. rewrite E, Z.add_0_l. destruct (Z.ltb_spec 0 (Z.of_nat k)); cbv beta iota.
  - exists k. split; [lia | done].
  - assert (k = 0%nat) as -> by lia. exists 0%nat. split; [done|]. by rewrite <- (deleted_zero b s r Hd) at 2.
Qed.
