(* ===== verification/Hasher.v ===== *)
(** * Buffered hashers

    The classes [CSHA256], [CSHA1], [CRIPEMD160] and [CSHA512] of [src/crypto] share one shape: a chaining
    state, a buffer of one chunk and a byte counter; [Write] fills the buffer and runs the compression
    function on full chunks, [Finalize] writes the padding and the length.  This file models that shape
    once, over the compression function, and proves that feeding a message in pieces is hashing it at
    once: the state depends only on the bytes written. *)

From S2P Require Import Prelude.

Section hasher.
Context {St : Type} (B : nat) (Transform : St -> list Z -> St).

(** [s], [buf] and [bytes] of the class. *)

Record hasher := Hasher { h_s : St; h_buf : list Z; h_bytes : Z }.

(** [Transform(s, chunk, blocks)]. *)

Fixpoint Transform_blocks (s : St) (chunk : list Z) (blocks : nat) : St :=
  match blocks with
  | O => s
  | S k => Transform_blocks (Transform s (take B chunk)) (drop B chunk) k
  end.

(** The two ways the classes process the full chunks of [data]: all at once ([CSHA256]), *)

Definition consume_blocks (s : St) (nbytes : Z) (data : list Z) : St * Z * list Z :=
  if (B <=? length data)%nat then
    let blocks := (length data / B)%nat in
    (Transform_blocks s data blocks, u64 (nbytes + Z.of_nat (B * blocks)), drop (B * blocks) data)
  else (s, nbytes, data).

(** or one by one, in [while (end >= data + B)]; a round consumes [B] bytes, so the length of [data]
    bounds the rounds. *)

Fixpoint chunk_loop (fuel : nat) (s : St) (nbytes : Z) (data : list Z) : St * Z * list Z :=
  match fuel with
  | O => (s, nbytes, data)
  | S k =>
      if (B <=? length data)%nat
      then chunk_loop k (Transform s (take B data)) (u64 (nbytes + Z.of_nat B)) (drop B data)
      else (s, nbytes, data)
  end.

Definition consume_loop (s : St) (nbytes : Z) (data : list Z) : St * Z * list Z :=
  chunk_loop (length data) s nbytes data.

(** [memcpy(buf + off, data, n)]. *)

Definition memcpy (buf : list Z) (off : nat) (data : list Z) : list Z :=
  take off buf ++ data ++ drop (off + length data) buf.

(** [Write] and [Finalize], over one of the two. *)

Context (consume : St -> Z -> list Z -> St * Z * list Z).

Definition Write_rest (s : St) (buf : list Z) (nbytes : Z) (data : list Z) (bufsize : nat) : hasher :=
  let '(s, nbytes, data) := consume s nbytes data in
  if (0 <? length data)%nat
  then Hasher s (memcpy buf bufsize data) (u64 (nbytes + Z.of_nat (length data)))
  else Hasher s buf nbytes.

Definition Write (h : hasher) (data : list Z) : hasher :=
  if (length data =? 0)%nat then h
  else
    let bufsize := Z.to_nat (h_bytes h mod Z.of_nat B) in
    if (0 <? bufsize)%nat && (B <=? bufsize + length data)%nat then
      let buf := memcpy (h_buf h) bufsize (take (B - bufsize) data) in
      let nbytes := u64 (h_bytes h + Z.of_nat (B - bufsize)) in
      Write_rest (Transform (h_s h) buf) buf nbytes (drop (B - bufsize) data) 0
    else Write_rest (h_s h) (h_buf h) (h_bytes h) data bufsize.

(** [Finalize] up to the output of the state: [L] bytes of length, written by [sizedesc]; the pad
    count is [1 + ((2B - 1 - L - bytes % B) % B)]. *)

Context (L : nat) (sizedesc : Z -> list Z).

Definition pad : list Z := 0x80 :: replicate (B - 1) 0.

Definition finish (h : hasher) : hasher :=
  let size := sizedesc (u64 (Z.shiftl (h_bytes h) 3)) in
  let h := Write h (take (Z.to_nat (1 + (Z.of_nat (2 * B - 1 - L) - h_bytes h mod Z.of_nat B) mod Z.of_nat B)) pad) in
  Write h size.

(** ** The message a hasher has seen *)

Context (init : St) (HB : (0 < B)%nat).

Definition hasher_ok (m : list Z) (h : hasher) : Prop :=
  h_bytes h = Z.of_nat (length m) /\ length (h_buf h) = B /\
  h_s h = Transform_blocks init m (length m / B) /\
  take (length m mod B) (h_buf h) = drop (B * (length m / B)) m.

(** What both ways of consuming do. *)

Definition consume_law : Prop := forall s n data,
  0 <= n -> n + Z.of_nat (length data) < 2 ^ 64 ->
  consume s n data =
    (Transform_blocks s data (length data / B), n + Z.of_nat (B * (length data / B)), drop (B * (length data / B)) data).

Lemma Transform_blocks_app s x y n : length x = (B * n)%nat -> forall k,
  Transform_blocks s (x ++ y) (n + k) = Transform_blocks (Transform_blocks s x n) y k.
Proof.
  revert s x. induction n as [|n IH]; intros s x Hx k.
  - rewrite Nat.mul_0_r in Hx. by apply nil_length_inv in Hx as ->.
  - cbn [Transform_blocks Nat.add]. rewrite take_app_le, drop_app_le by lia. apply IH. rewrite length_drop. lia.
Qed.

Lemma Transform_blocks_prefix s x y n : (B * n <= length x)%nat -> Transform_blocks s (x ++ y) n = Transform_blocks s x n.
Proof.
  revert s x. induction n as [|n IH]; intros s x Hx; [done|].
  cbn [Transform_blocks]. rewrite take_app_le, drop_app_le by lia. apply IH. rewrite length_drop. lia.
Qed.

Lemma length_memcpy buf off data : (off + length data <= length buf)%nat -> length (memcpy buf off data) = length buf.
Proof. intros. unfold memcpy. rewrite !length_app, length_take, length_drop. lia. Qed.

Lemma div_mod_split x : x = (B * (x / B) + x mod B)%nat.
Proof. apply Nat.div_mod. lia. Qed.

Lemma fill_chunk m x q : (B * q <= length m)%nat -> (length m + length x = B * (q + 1))%nat ->
  Transform (Transform_blocks init m q) (drop (B * q) m ++ x) = Transform_blocks init (m ++ x) (q + 1).
Proof.
  intros Hm Hx. rewrite <- (take_drop (B * q) m) at 3. rewrite <- app_assoc, Transform_blocks_app by (rewrite length_take; lia).
  cbn [Transform_blocks]. rewrite (take_ge (drop (B * q) m ++ _)) by (rewrite length_app, length_drop; lia).
  f_equal. rewrite <- (take_drop (B * q) m) at 1. by rewrite Transform_blocks_prefix by (rewrite length_take; lia).
Qed.

Context (Hconsume : consume_law).

(** The tail of [Write], from a chunk boundary. *)

Lemma Write_rest_aligned m q buf data :
  length m = (B * q)%nat -> length buf = B -> Z.of_nat (length (m ++ data)) < 2 ^ 64 ->
  hasher_ok (m ++ data) (Write_rest (Transform_blocks init m q) buf (Z.of_nat (length m)) data 0).
Proof.
  intros Hm Hbuf Hlen. rewrite length_app in Hlen. unfold Write_rest. rewrite Hconsume by lia.
  assert (length (m ++ data) / B = q + length data / B)%nat as Eq.
  { rewrite length_app, Hm, (Nat.add_comm (B * q)), Nat.mul_comm, Nat.div_add by lia. lia. }
  assert (length (m ++ data) mod B = length data mod B)%nat as Er.
  { rewrite length_app, Hm, (Nat.add_comm (B * q)), Nat.mul_comm, Nat.Div0.mod_add. done. }
  pose proof (div_mod_split (length data)) as Hd. pose proof (Nat.mod_upper_bound (length data) B ltac:(lia)) as Hr.
  set (k := (length data / B)%nat) in *.
  assert (length (drop (B * k) data) = length data mod B)%nat as El by (rewrite length_drop; lia).
  unfold hasher_ok. rewrite Eq, Er, Transform_blocks_app by done.
  assert (drop (B * (q + k)) (m ++ data) = drop (B * k) data) as ->.
  { rewrite drop_app_ge by lia. f_equal. lia. }
  rewrite length_app, El. destruct (Nat.ltb_spec 0 (length data mod B)) as [Hp|Hp]; cbn [h_bytes h_buf h_s].
  - rewrite length_memcpy by (rewrite El; lia). unfold u64. rewrite Z.mod_small by lia.
    split_and!; [lia | done | done |]. unfold memcpy. rewrite take_0. cbn [app]. rewrite take_app_le by (by rewrite El).
    by rewrite take_ge by (by rewrite El).
  - split_and!; [lia | done | done |]. assert (length data mod B = 0)%nat as -> by lia.
    rewrite take_0. symmetry. apply nil_length_inv. lia.
Qed.

Lemma Write_ok m h data : hasher_ok m h -> Z.of_nat (length (m ++ data)) < 2 ^ 64 -> hasher_ok (m ++ data) (Write h data).
Proof.
  intros (Hn & Hb & Hs & Ht) Hlen. unfold Write.
  destruct (Nat.eqb_spec (length data) 0) as [Hd|Hd].
  { apply nil_length_inv in Hd as ->. by rewrite app_nil_r. }
  pose proof (div_mod_split (length m)) as Hm. pose proof (Nat.mod_upper_bound (length m) B ltac:(lia)) as Hr.
  rewrite length_app in Hlen.
  assert (Z.to_nat (h_bytes h mod Z.of_nat B) = length m mod B)%nat as Ebs.
  { rewrite Hn, <- Nat2Z.inj_mod. apply Nat2Z.id. }
  cbv zeta. rewrite Ebs, Hn, Hs. set (q := (length m / B)%nat) in *. set (r := (length m mod B)%nat) in *.
  destruct (Nat.ltb_spec 0 r) as [Hr0|Hr0]; cbn [andb].
  2:{ assert (r = 0)%nat as -> by lia. apply Write_rest_aligned; [lia | done | rewrite length_app; lia]. }
  destruct (Nat.leb_spec B (r + length data)) as [Hfull|Hpart].
  - assert (memcpy (h_buf h) r (take (B - r) data) = drop (B * q) m ++ take (B - r) data) as ->.
    { unfold memcpy. rewrite Ht, (drop_ge (h_buf h)) by (rewrite length_take; lia). by rewrite app_nil_r. }
    set (m1 := m ++ take (B - r) data).
    assert (length m1 = B * (q + 1))%nat as Hm1 by (unfold m1; rewrite length_app, length_take; lia).
    replace (Transform _ _) with (Transform_blocks init m1 (q + 1)).
    2:{ symmetry. apply fill_chunk; [lia | rewrite length_take; lia]. }
    unfold u64. rewrite Z.mod_small by lia.
    replace (Z.of_nat (length m) + Z.of_nat (B - r)) with (Z.of_nat (length m1))
      by (unfold m1; rewrite length_app, length_take; lia).
    replace (m ++ data) with (m1 ++ drop (B - r) data) by (unfold m1; by rewrite <- app_assoc, take_drop).
    apply Write_rest_aligned; [done | | unfold m1; rewrite <- app_assoc, take_drop, length_app; lia].
    rewrite length_app, length_drop, length_take. lia.
  - unfold Write_rest. rewrite Hconsume by lia. rewrite (Nat.div_small (length data)) by lia.
    rewrite Nat.mul_0_r, drop_0. cbn [Transform_blocks]. rewrite (proj2 (Nat.ltb_lt 0 (length data))) by lia.
    assert ((length (m ++ data) / B = q) /\ (length (m ++ data) mod B = r + length data))%nat as [Eq Er].
    { rewrite length_app. assert (length m + length data = B * q + (r + length data))%nat as -> by lia. split.
      - symmetry. by apply (Nat.div_unique _ _ _ (r + length data)).
      - symmetry. by apply (Nat.mod_unique _ _ q). }
    unfold hasher_ok, u64. cbn [h_bytes h_buf h_s]. rewrite Eq, Er, length_memcpy by lia.
    rewrite Z.mod_small by lia. split_and!; [rewrite length_app; lia | done | by rewrite Transform_blocks_prefix by lia |].
    unfold memcpy. rewrite Ht, drop_app_le by lia. rewrite app_assoc, take_app_le by (rewrite length_app, length_drop; lia).
    by rewrite take_ge by (rewrite length_app, length_drop; lia).
Qed.

Lemma Writes_ok pieces m h : hasher_ok m h -> Z.of_nat (length (m ++ concat pieces)) < 2 ^ 64 ->
  hasher_ok (m ++ concat pieces) (foldl Write h pieces).
Proof.
  revert m h. induction pieces as [|x pieces IH]; intros m h Hok Hlen; cbn [concat foldl] in *.
  - by rewrite app_nil_r.
  - rewrite app_assoc in *. apply IH; [|done]. apply Write_ok; [done|]. rewrite length_app in Hlen. lia.
Qed.

(** A fresh or reset hasher has seen nothing. *)

Lemma fresh_ok buf : length buf = B -> hasher_ok [] (Hasher init buf 0).
Proof. intros. unfold hasher_ok. cbn [length h_bytes h_buf h_s]. by rewrite Nat.Div0.div_0_l, Nat.Div0.mod_0_l, Nat.mul_0_r. Qed.

(** ** Padding

    The padded message: a one bit, the fewest zero bytes that align the length field, the length in
    bits. *)

Definition padded (m : list Z) : list Z :=
  m ++ 0x80 :: replicate (Z.to_nat ((- Z.of_nat (length m + 1 + L)) mod Z.of_nat B)) 0 ++ sizedesc (8 * Z.of_nat (length m)).

Context (HL : (L < B)%nat) (Hsize : forall n, length (sizedesc n) = L).

Lemma pad_count n : 0 <= n ->
  (Z.of_nat (2 * B - 1 - L) - n mod Z.of_nat B) mod Z.of_nat B = (- (n + 1 + Z.of_nat L)) mod Z.of_nat B.
Proof.
  intros Hn. replace (Z.of_nat (2 * B - 1 - L)) with (- (1 + Z.of_nat L) + 2 * Z.of_nat B) by lia.
  rewrite (Z.mod_eq n) by lia.
  replace (_ - _) with (- (n + 1 + Z.of_nat L) + (2 + n / Z.of_nat B) * Z.of_nat B) by lia.
  apply Z.mod_add. lia.
Qed.

Lemma length_padded m : (length (padded m) mod B = 0)%nat /\ (length (padded m) <= length m + B + L)%nat.
Proof.
  unfold padded. rewrite length_app. cbn [length]. rewrite length_app, length_replicate, Hsize.
  pose proof (Z.mod_pos_bound (- Z.of_nat (length m + 1 + L)) (Z.of_nat B) ltac:(lia)) as Hk.
  pose proof (Z.div_mod (- Z.of_nat (length m + 1 + L)) (Z.of_nat B) ltac:(lia)) as Hd.
  split; [|lia]. apply Nat2Z.inj. rewrite Nat2Z.inj_mod. change (Z.of_nat 0) with 0.
  set (z := - Z.of_nat (length m + 1 + L)) in *.
  replace (Z.of_nat _) with (0 + - (z / Z.of_nat B) * Z.of_nat B) by lia. rewrite Z.mod_add by lia. apply Z.mod_0_l. lia.
Qed.

Lemma finish_ok m h : hasher_ok m h -> Z.of_nat (length m) < 2 ^ 61 -> Z.of_nat B < 2 ^ 61 ->
  hasher_ok (padded m) (finish h).
Proof.
  intros Hok Hm HB'. pose proof (length_padded m) as [_ Hlen]. unfold finish.
  pose proof Hok as (Hn & _). rewrite Hn, pad_count by lia.
  set (k := Z.to_nat ((- Z.of_nat (length m + 1 + L)) mod Z.of_nat B)).
  assert (k < B)%nat as Hk by (pose proof (Z.mod_pos_bound (- Z.of_nat (length m + 1 + L)) (Z.of_nat B) ltac:(lia)); lia).
  replace (take _ pad) with (0x80 :: replicate k 0).
  2:{ replace (Z.to_nat _) with (S k).
      - unfold pad. cbn [take firstn]. f_equal. rewrite take_replicate. f_equal. lia.
      - unfold k. rewrite !Nat2Z.inj_add. change (Z.of_nat 1) with 1.
        pose proof (Z.mod_pos_bound (- (Z.of_nat (length m) + 1 + Z.of_nat L)) (Z.of_nat B) ltac:(lia)). lia. }
  replace (u64 _) with (8 * Z.of_nat (length m))
    by (unfold u64; rewrite Z.shiftl_mul_pow2 by lia; rewrite Z.mod_small by lia; lia).
  assert (padded m = (m ++ 0x80 :: replicate k 0) ++ sizedesc (8 * Z.of_nat (length m))) as E
    by (unfold padded; by rewrite <- app_assoc).
  rewrite E in *. rewrite length_app in Hlen.
  apply Write_ok; [|rewrite length_app; lia]. apply Write_ok; [done | lia].
Qed.

End hasher.

Lemma Transform_blocks_ext {St} B (f g : St -> list Z -> St) s l n : (forall s c, f s c = g s c) ->
  Transform_blocks B f s l n = Transform_blocks B g s l n.
Proof. intros E. revert s l. induction n as [|n IH]; intros s l; [done|]. cbn [Transform_blocks]. by rewrite E, IH. Qed.

(** Both ways of consuming are lawful. *)

Section consume.
Context {St : Type} (B : nat) (Transform : St -> list Z -> St) (HB : (0 < B)%nat).

Lemma consume_blocks_law : consume_law B Transform (consume_blocks B Transform).
Proof.
  intros s n data Hn Hd. unfold consume_blocks. destruct (Nat.leb_spec B (length data)) as [Hl|Hl].
  - pose proof (div_mod_split B HB (length data)) as Hdm.
    assert (B * (length data / B) <= length data)%nat by lia. unfold u64. by rewrite Z.mod_small by lia.
  - rewrite Nat.div_small by done. cbn [Transform_blocks]. by rewrite Nat.mul_0_r, drop_0, Z.add_0_r.
Qed.

Lemma consume_loop_law : consume_law B Transform (consume_loop B Transform).
Proof.
  intros s n data Hn Hd. unfold consume_loop.
  assert (forall fuel, (length data <= fuel)%nat -> chunk_loop B Transform fuel s n data =
    (Transform_blocks B Transform s data (length data / B), n + Z.of_nat (B * (length data / B)), drop (B * (length data / B)) data))
    as H; [|by apply H].
  intros fuel. revert s n data Hn Hd. induction fuel as [|fuel IH]; intros s n data Hn Hd Hf; cbn [chunk_loop].
  - rewrite Nat.div_small by lia. cbn [Transform_blocks]. by rewrite Nat.mul_0_r, drop_0, Z.add_0_r.
  - destruct (Nat.leb_spec B (length data)) as [Hl|Hl].
    + unfold u64. rewrite Z.mod_small, IH by (rewrite ?length_drop; lia). rewrite length_drop.
      assert (length data / B = S ((length data - B) / B))%nat as ->.
      { replace (length data) with ((length data - B) + 1 * B)%nat at 1 by lia. rewrite Nat.div_add by lia. lia. }
      cbn [Transform_blocks]. rewrite drop_drop, Nat.mul_succ_r. f_equal; [f_equal; lia | f_equal; lia].
    + rewrite Nat.div_small by done. cbn [Transform_blocks]. by rewrite Nat.mul_0_r, drop_0, Z.add_0_r.
Qed.

End consume.

Arguments hasher : clear implicits.
