(* ===== verification/Sha2.v ===== *)
(** * SHA-256 and SHA-512

    [src/crypto/sha256.cpp] and [src/crypto/sha512.cpp]: the compression functions, unrolled as in the
    source with the registers renamed instead of moved and the message schedule kept in sixteen words,
    and the classes [CSHA256] and [CSHA512] as buffered hashers.  The reference is the standard (FIPS
    180-4): the full message schedule, the shifting registers, and the constants as the fractional parts
    of roots of primes.  The SSE4 assembly variant is not modelled. *)

From S2P Require Import Prelude Common Hasher.

Notation regs := (Z * Z * Z * Z * Z * Z * Z * Z)%type.

Notation words := (Z * Z * Z * Z * Z * Z * Z * Z * Z * Z * Z * Z * Z * Z * Z * Z)%type.

(** ** [src/crypto/sha256.cpp] *)

Module sha256.

Definition Ch (x y z : Z) : Z := Z.lxor z (Z.land x (Z.lxor y z)).

Definition Maj (x y z : Z) : Z := Z.lor (Z.land x y) (Z.land z (Z.lor x y)).

Definition Sigma0 (x : Z) : Z :=
  Z.lxor (Z.lxor (Z.lor (Z.shiftr x 2) (u32 (Z.shiftl x 30))) (Z.lor (Z.shiftr x 13) (u32 (Z.shiftl x 19)))) (Z.lor (Z.shiftr x 22) (u32 (Z.shiftl x 10))).

Definition Sigma1 (x : Z) : Z :=
  Z.lxor (Z.lxor (Z.lor (Z.shiftr x 6) (u32 (Z.shiftl x 26))) (Z.lor (Z.shiftr x 11) (u32 (Z.shiftl x 21)))) (Z.lor (Z.shiftr x 25) (u32 (Z.shiftl x 7))).

Definition sigma0 (x : Z) : Z :=
  Z.lxor (Z.lxor (Z.lor (Z.shiftr x 7) (u32 (Z.shiftl x 25))) (Z.lor (Z.shiftr x 18) (u32 (Z.shiftl x 14)))) (Z.shiftr x 3).

Definition sigma1 (x : Z) : Z :=
  Z.lxor (Z.lxor (Z.lor (Z.shiftr x 17) (u32 (Z.shiftl x 15))) (Z.lor (Z.shiftr x 19) (u32 (Z.shiftl x 13)))) (Z.shiftr x 10).

(** One round: the new [d] and [h]. *)

Definition Round (a b c d e f g h k w : Z) : Z * Z :=
  let t1 := u32 (h + Sigma1 e + Ch e f g + k + w) in
  let t2 := u32 (Sigma0 a + Maj a b c) in
  (u32 (d + t1), u32 (t1 + t2)).

Definition Initialize : regs :=
  (0x6a09e667, 0xbb67ae85, 0x3c6ef372, 0xa54ff53a, 0x510e527f, 0x9b05688c, 0x1f83d9ab, 0x5be0cd19).

(** The update [w += sigma1(x) + y + sigma0(z)] of a schedule word. *)

Definition sched (w x y z : Z) : Z := u32 (w + sigma1 x + y + sigma0 z).

(** The unrolled rounds of [Transform], sixteen at a time. *)

Definition rounds_0 (r : regs) (chunk : list Z) : regs * words :=
  let '(a, b, c, d, e, f, g, h) := r in
  let w0 := ReadBE32 (drop 0 chunk) in
  let '(d, h) := Round a b c d e f g h 0x428a2f98 w0 in
  let w1 := ReadBE32 (drop 4 chunk) in
  let '(c, g) := Round h a b c d e f g 0x71374491 w1 in
  let w2 := ReadBE32 (drop 8 chunk) in
  let '(b, f) := Round g h a b c d e f 0xb5c0fbcf w2 in
  let w3 := ReadBE32 (drop 12 chunk) in
  let '(a, e) := Round f g h a b c d e 0xe9b5dba5 w3 in
  let w4 := ReadBE32 (drop 16 chunk) in
  let '(h, d) := Round e f g h a b c d 0x3956c25b w4 in
  let w5 := ReadBE32 (drop 20 chunk) in
  let '(g, c) := Round d e f g h a b c 0x59f111f1 w5 in
  let w6 := ReadBE32 (drop 24 chunk) in
  let '(f, b) := Round c d e f g h a b 0x923f82a4 w6 in
  let w7 := ReadBE32 (drop 28 chunk) in
  let '(e, a) := Round b c d e f g h a 0xab1c5ed5 w7 in
  let w8 := ReadBE32 (drop 32 chunk) in
  let '(d, h) := Round a b c d e f g h 0xd807aa98 w8 in
  let w9 := ReadBE32 (drop 36 chunk) in
  let '(c, g) := Round h a b c d e f g 0x12835b01 w9 in
  let w10 := ReadBE32 (drop 40 chunk) in
  let '(b, f) := Round g h a b c d e f 0x243185be w10 in
  let w11 := ReadBE32 (drop 44 chunk) in
  let '(a, e) := Round f g h a b c d e 0x550c7dc3 w11 in
  let w12 := ReadBE32 (drop 48 chunk) in
  let '(h, d) := Round e f g h a b c d 0x72be5d74 w12 in
  let w13 := ReadBE32 (drop 52 chunk) in
  let '(g, c) := Round d e f g h a b c 0x80deb1fe w13 in
  let w14 := ReadBE32 (drop 56 chunk) in
  let '(f, b) := Round c d e f g h a b 0x9bdc06a7 w14 in
  let w15 := ReadBE32 (drop 60 chunk) in
  let '(e, a) := Round b c d e f g h a 0xc19bf174 w15 in
  ((a, b, c, d, e, f, g, h), (w0, w1, w2, w3, w4, w5, w6, w7, w8, w9, w10, w11, w12, w13, w14, w15)).

Definition rounds_16 (r : regs) (w : words) : regs * words :=
  let '(a, b, c, d, e, f, g, h) := r in
  let '(w0, w1, w2, w3, w4, w5, w6, w7, w8, w9, w10, w11, w12, w13, w14, w15) := w in
  let w0 := sched w0 w14 w9 w1 in
  let '(d, h) := Round a b c d e f g h 0xe49b69c1 w0 in
  let w1 := sched w1 w15 w10 w2 in
  let '(c, g) := Round h a b c d e f g 0xefbe4786 w1 in
  let w2 := sched w2 w0 w11 w3 in
  let '(b, f) := Round g h a b c d e f 0x0fc19dc6 w2 in
  let w3 := sched w3 w1 w12 w4 in
  let '(a, e) := Round f g h a b c d e 0x240ca1cc w3 in
  let w4 := sched w4 w2 w13 w5 in
  let '(h, d) := Round e f g h a b c d 0x2de92c6f w4 in
  let w5 := sched w5 w3 w14 w6 in
  let '(g, c) := Round d e f g h a b c 0x4a7484aa w5 in
  let w6 := sched w6 w4 w15 w7 in
  let '(f, b) := Round c d e f g h a b 0x5cb0a9dc w6 in
  let w7 := sched w7 w5 w0 w8 in
  let '(e, a) := Round b c d e f g h a 0x76f988da w7 in
  let w8 := sched w8 w6 w1 w9 in
  let '(d, h) := Round a b c d e f g h 0x983e5152 w8 in
  let w9 := sched w9 w7 w2 w10 in
  let '(c, g) := Round h a b c d e f g 0xa831c66d w9 in
  let w10 := sched w10 w8 w3 w11 in
  let '(b, f) := Round g h a b c d e f 0xb00327c8 w10 in
  let w11 := sched w11 w9 w4 w12 in
  let '(a, e) := Round f g h a b c d e 0xbf597fc7 w11 in
  let w12 := sched w12 w10 w5 w13 in
  let '(h, d) := Round e f g h a b c d 0xc6e00bf3 w12 in
  let w13 := sched w13 w11 w6 w14 in
  let '(g, c) := Round d e f g h a b c 0xd5a79147 w13 in
  let w14 := sched w14 w12 w7 w15 in
  let '(f, b) := Round c d e f g h a b 0x06ca6351 w14 in
  let w15 := sched w15 w13 w8 w0 in
  let '(e, a) := Round b c d e f g h a 0x14292967 w15 in
  ((a, b, c, d, e, f, g, h), (w0, w1, w2, w3, w4, w5, w6, w7, w8, w9, w10, w11, w12, w13, w14, w15)).

Definition rounds_32 (r : regs) (w : words) : regs * words :=
  let '(a, b, c, d, e, f, g, h) := r in
  let '(w0, w1, w2, w3, w4, w5, w6, w7, w8, w9, w10, w11, w12, w13, w14, w15) := w in
  let w0 := sched w0 w14 w9 w1 in
  let '(d, h) := Round a b c d e f g h 0x27b70a85 w0 in
  let w1 := sched w1 w15 w10 w2 in
  let '(c, g) := Round h a b c d e f g 0x2e1b2138 w1 in
  let w2 := sched w2 w0 w11 w3 in
  let '(b, f) := Round g h a b c d e f 0x4d2c6dfc w2 in
  let w3 := sched w3 w1 w12 w4 in
  let '(a, e) := Round f g h a b c d e 0x53380d13 w3 in
  let w4 := sched w4 w2 w13 w5 in
  let '(h, d) := Round e f g h a b c d 0x650a7354 w4 in
  let w5 := sched w5 w3 w14 w6 in
  let '(g, c) := Round d e f g h a b c 0x766a0abb w5 in
  let w6 := sched w6 w4 w15 w7 in
  let '(f, b) := Round c d e f g h a b 0x81c2c92e w6 in
  let w7 := sched w7 w5 w0 w8 in
  let '(e, a) := Round b c d e f g h a 0x92722c85 w7 in
  let w8 := sched w8 w6 w1 w9 in
  let '(d, h) := Round a b c d e f g h 0xa2bfe8a1 w8 in
  let w9 := sched w9 w7 w2 w10 in
  let '(c, g) := Round h a b c d e f g 0xa81a664b w9 in
  let w10 := sched w10 w8 w3 w11 in
  let '(b, f) := Round g h a b c d e f 0xc24b8b70 w10 in
  let w11 := sched w11 w9 w4 w12 in
  let '(a, e) := Round f g h a b c d e 0xc76c51a3 w11 in
  let w12 := sched w12 w10 w5 w13 in
  let '(h, d) := Round e f g h a b c d 0xd192e819 w12 in
  let w13 := sched w13 w11 w6 w14 in
  let '(g, c) := Round d e f g h a b c 0xd6990624 w13 in
  let w14 := sched w14 w12 w7 w15 in
  let '(f, b) := Round c d e f g h a b 0xf40e3585 w14 in
  let w15 := sched w15 w13 w8 w0 in
  let '(e, a) := Round b c d e f g h a 0x106aa070 w15 in
  ((a, b, c, d, e, f, g, h), (w0, w1, w2, w3, w4, w5, w6, w7, w8, w9, w10, w11, w12, w13, w14, w15)).

Definition rounds_48 (r : regs) (w : words) : regs :=
  let '(a, b, c, d, e, f, g, h) := r in
  let '(w0, w1, w2, w3, w4, w5, w6, w7, w8, w9, w10, w11, w12, w13, w14, w15) := w in
  let w0 := sched w0 w14 w9 w1 in
  let '(d, h) := Round a b c d e f g h 0x19a4c116 w0 in
  let w1 := sched w1 w15 w10 w2 in
  let '(c, g) := Round h a b c d e f g 0x1e376c08 w1 in
  let w2 := sched w2 w0 w11 w3 in
  let '(b, f) := Round g h a b c d e f 0x2748774c w2 in
  let w3 := sched w3 w1 w12 w4 in
  let '(a, e) := Round f g h a b c d e 0x34b0bcb5 w3 in
  let w4 := sched w4 w2 w13 w5 in
  let '(h, d) := Round e f g h a b c d 0x391c0cb3 w4 in
  let w5 := sched w5 w3 w14 w6 in
  let '(g, c) := Round d e f g h a b c 0x4ed8aa4a w5 in
  let w6 := sched w6 w4 w15 w7 in
  let '(f, b) := Round c d e f g h a b 0x5b9cca4f w6 in
  let w7 := sched w7 w5 w0 w8 in
  let '(e, a) := Round b c d e f g h a 0x682e6ff3 w7 in
  let w8 := sched w8 w6 w1 w9 in
  let '(d, h) := Round a b c d e f g h 0x748f82ee w8 in
  let w9 := sched w9 w7 w2 w10 in
  let '(c, g) := Round h a b c d e f g 0x78a5636f w9 in
  let w10 := sched w10 w8 w3 w11 in
  let '(b, f) := Round g h a b c d e f 0x84c87814 w10 in
  let w11 := sched w11 w9 w4 w12 in
  let '(a, e) := Round f g h a b c d e 0x8cc70208 w11 in
  let w12 := sched w12 w10 w5 w13 in
  let '(h, d) := Round e f g h a b c d 0x90befffa w12 in
  let w13 := sched w13 w11 w6 w14 in
  let '(g, c) := Round d e f g h a b c 0xa4506ceb w13 in
  let '(f, b) := Round c d e f g h a b 0xbef9a3f7 (sched w14 w12 w7 w15) in
  let '(e, a) := Round b c d e f g h a 0xc67178f2 (sched w15 w13 w8 w0) in
  (a, b, c, d, e, f, g, h).

Definition add_regs (s r : regs) : regs :=
  let '(s0, s1, s2, s3, s4, s5, s6, s7) := s in
  let '(a, b, c, d, e, f, g, h) := r in
  (u32 (s0 + a), u32 (s1 + b), u32 (s2 + c), u32 (s3 + d), u32 (s4 + e), u32 (s5 + f), u32 (s6 + g), u32 (s7 + h)).

Definition Transform (s : regs) (chunk : list Z) : regs :=
  let '(r, w) := rounds_0 s chunk in
  let '(r, w) := rounds_16 r w in
  let '(r, w) := rounds_32 r w in
  add_regs s (rounds_48 r w).

(** The class [CSHA256]: the buffer is not initialised by the constructor; its contents are never read
    before they are written, any will do. *)

Notation CSHA256 := (hasher regs).

Definition new_CSHA256 : CSHA256 := Hasher Initialize (replicate 64 0) 0.

Definition Write (h : CSHA256) (data : list Z) : CSHA256 :=
  Hasher.Write 64 Transform (consume_blocks 64 Transform) h data.

Definition Finalize (h : CSHA256) : list Z * CSHA256 :=
  let h := finish 64 Transform (consume_blocks 64 Transform) 8 WriteBE64 h in
  let '(s0, s1, s2, s3, s4, s5, s6, s7) := h_s h in
  (WriteBE32 s0 ++ WriteBE32 s1 ++ WriteBE32 s2 ++ WriteBE32 s3 ++ WriteBE32 s4 ++ WriteBE32 s5 ++
   WriteBE32 s6 ++ WriteBE32 s7, h).

Definition Reset (h : CSHA256) : CSHA256 := Hasher Initialize (h_buf h) 0.

(** [SelfTest] of a compression function over blocks. *)

Definition SelfTest (tr : regs -> list Z -> nat -> regs) : bool :=
  let in1 := 0 :: 0x80 :: replicate 63 0 in
  let in2 := 0 :: replicate 64 32 ++ 0x80 :: replicate 61 0 ++ [2; 0] in
  let init := (0x6a09e667, 0xbb67ae85, 0x3c6ef372, 0xa54ff53a, 0x510e527f, 0x9b05688c, 0x1f83d9ab, 0x5be0cd19) in
  let out1 := (0xe3b0c442, 0x98fc1c14, 0x9afbf4c8, 0x996fb924, 0x27ae41e4, 0x649b934c, 0xa495991b, 0x7852b855) in
  let out2 := (0xce4153b0, 0x147c2a86, 0x3ed4298e, 0xe0676bc8, 0x79fc77a1, 0x2abe1f49, 0xb2b055df, 0x1069523e) in
  let buf := tr init [] 0%nat in
  if negb (bool_decide (buf = init)) then false
  else
    let buf := tr buf (drop 1 in1) 1%nat in
    if negb (bool_decide (buf = out1)) then false
    else
      let buf := tr init (drop 1 in2) 2%nat in
      if negb (bool_decide (buf = out2)) then false
      else true.

End sha256.

(** ** [src/crypto/sha512.cpp] *)

Module sha512.

Definition Ch (x y z : Z) : Z := Z.lxor z (Z.land x (Z.lxor y z)).

Definition Maj (x y z : Z) : Z := Z.lor (Z.land x y) (Z.land z (Z.lor x y)).

Definition Sigma0 (x : Z) : Z :=
  Z.lxor (Z.lxor (Z.lor (Z.shiftr x 28) (u64 (Z.shiftl x 36))) (Z.lor (Z.shiftr x 34) (u64 (Z.shiftl x 30)))) (Z.lor (Z.shiftr x 39) (u64 (Z.shiftl x 25))).

Definition Sigma1 (x : Z) : Z :=
  Z.lxor (Z.lxor (Z.lor (Z.shiftr x 14) (u64 (Z.shiftl x 50))) (Z.lor (Z.shiftr x 18) (u64 (Z.shiftl x 46)))) (Z.lor (Z.shiftr x 41) (u64 (Z.shiftl x 23))).

Definition sigma0 (x : Z) : Z :=
  Z.lxor (Z.lxor (Z.lor (Z.shiftr x 1) (u64 (Z.shiftl x 63))) (Z.lor (Z.shiftr x 8) (u64 (Z.shiftl x 56)))) (Z.shiftr x 7).

Definition sigma1 (x : Z) : Z :=
  Z.lxor (Z.lxor (Z.lor (Z.shiftr x 19) (u64 (Z.shiftl x 45))) (Z.lor (Z.shiftr x 61) (u64 (Z.shiftl x 3)))) (Z.shiftr x 6).

(** One round: the new [d] and [h]. *)

Definition Round (a b c d e f g h k w : Z) : Z * Z :=
  let t1 := u64 (h + Sigma1 e + Ch e f g + k + w) in
  let t2 := u64 (Sigma0 a + Maj a b c) in
  (u64 (d + t1), u64 (t1 + t2)).

Definition Initialize : regs :=
  (0x6a09e667f3bcc908, 0xbb67ae8584caa73b, 0x3c6ef372fe94f82b, 0xa54ff53a5f1d36f1, 0x510e527fade682d1, 0x9b05688c2b3e6c1f, 0x1f83d9abfb41bd6b, 0x5be0cd19137e2179).

(** The update [w += sigma1(x) + y + sigma0(z)] of a schedule word. *)

Definition sched (w x y z : Z) : Z := u64 (w + sigma1 x + y + sigma0 z).

(** The unrolled rounds of [Transform], sixteen at a time. *)

Definition rounds_0 (r : regs) (chunk : list Z) : regs * words :=
  let '(a, b, c, d, e, f, g, h) := r in
  let w0 := ReadBE64 (drop 0 chunk) in
  let '(d, h) := Round a b c d e f g h 0x428a2f98d728ae22 w0 in
  let w1 := ReadBE64 (drop 8 chunk) in
  let '(c, g) := Round h a b c d e f g 0x7137449123ef65cd w1 in
  let w2 := ReadBE64 (drop 16 chunk) in
  let '(b, f) := Round g h a b c d e f 0xb5c0fbcfec4d3b2f w2 in
  let w3 := ReadBE64 (drop 24 chunk) in
  let '(a, e) := Round f g h a b c d e 0xe9b5dba58189dbbc w3 in
  let w4 := ReadBE64 (drop 32 chunk) in
  let '(h, d) := Round e f g h a b c d 0x3956c25bf348b538 w4 in
  let w5 := ReadBE64 (drop 40 chunk) in
  let '(g, c) := Round d e f g h a b c 0x59f111f1b605d019 w5 in
  let w6 := ReadBE64 (drop 48 chunk) in
  let '(f, b) := Round c d e f g h a b 0x923f82a4af194f9b w6 in
  let w7 := ReadBE64 (drop 56 chunk) in
  let '(e, a) := Round b c d e f g h a 0xab1c5ed5da6d8118 w7 in
  let w8 := ReadBE64 (drop 64 chunk) in
  let '(d, h) := Round a b c d e f g h 0xd807aa98a3030242 w8 in
  let w9 := ReadBE64 (drop 72 chunk) in
  let '(c, g) := Round h a b c d e f g 0x12835b0145706fbe w9 in
  let w10 := ReadBE64 (drop 80 chunk) in
  let '(b, f) := Round g h a b c d e f 0x243185be4ee4b28c w10 in
  let w11 := ReadBE64 (drop 88 chunk) in
  let '(a, e) := Round f g h a b c d e 0x550c7dc3d5ffb4e2 w11 in
  let w12 := ReadBE64 (drop 96 chunk) in
  let '(h, d) := Round e f g h a b c d 0x72be5d74f27b896f w12 in
  let w13 := ReadBE64 (drop 104 chunk) in
  let '(g, c) := Round d e f g h a b c 0x80deb1fe3b1696b1 w13 in
  let w14 := ReadBE64 (drop 112 chunk) in
  let '(f, b) := Round c d e f g h a b 0x9bdc06a725c71235 w14 in
  let w15 := ReadBE64 (drop 120 chunk) in
  let '(e, a) := Round b c d e f g h a 0xc19bf174cf692694 w15 in
  ((a, b, c, d, e, f, g, h), (w0, w1, w2, w3, w4, w5, w6, w7, w8, w9, w10, w11, w12, w13, w14, w15)).

Definition rounds_16 (r : regs) (w : words) : regs * words :=
  let '(a, b, c, d, e, f, g, h) := r in
  let '(w0, w1, w2, w3, w4, w5, w6, w7, w8, w9, w10, w11, w12, w13, w14, w15) := w in
  let w0 := sched w0 w14 w9 w1 in
  let '(d, h) := Round a b c d e f g h 0xe49b69c19ef14ad2 w0 in
  let w1 := sched w1 w15 w10 w2 in
  let '(c, g) := Round h a b c d e f g 0xefbe4786384f25e3 w1 in
  let w2 := sched w2 w0 w11 w3 in
  let '(b, f) := Round g h a b c d e f 0x0fc19dc68b8cd5b5 w2 in
  let w3 := sched w3 w1 w12 w4 in
  let '(a, e) := Round f g h a b c d e 0x240ca1cc77ac9c65 w3 in
  let w4 := sched w4 w2 w13 w5 in
  let '(h, d) := Round e f g h a b c d 0x2de92c6f592b0275 w4 in
  let w5 := sched w5 w3 w14 w6 in
  let '(g, c) := Round d e f g h a b c 0x4a7484aa6ea6e483 w5 in
  let w6 := sched w6 w4 w15 w7 in
  let '(f, b) := Round c d e f g h a b 0x5cb0a9dcbd41fbd4 w6 in
  let w7 := sched w7 w5 w0 w8 in
  let '(e, a) := Round b c d e f g h a 0x76f988da831153b5 w7 in
  let w8 := sched w8 w6 w1 w9 in
  let '(d, h) := Round a b c d e f g h 0x983e5152ee66dfab w8 in
  let w9 := sched w9 w7 w2 w10 in
  let '(c, g) := Round h a b c d e f g 0xa831c66d2db43210 w9 in
  let w10 := sched w10 w8 w3 w11 in
  let '(b, f) := Round g h a b c d e f 0xb00327c898fb213f w10 in
  let w11 := sched w11 w9 w4 w12 in
  let '(a, e) := Round f g h a b c d e 0xbf597fc7beef0ee4 w11 in
  let w12 := sched w12 w10 w5 w13 in
  let '(h, d) := Round e f g h a b c d 0xc6e00bf33da88fc2 w12 in
  let w13 := sched w13 w11 w6 w14 in
  let '(g, c) := Round d e f g h a b c 0xd5a79147930aa725 w13 in
  let w14 := sched w14 w12 w7 w15 in
  let '(f, b) := Round c d e f g h a b 0x06ca6351e003826f w14 in
  let w15 := sched w15 w13 w8 w0 in
  let '(e, a) := Round b c d e f g h a 0x142929670a0e6e70 w15 in
  ((a, b, c, d, e, f, g, h), (w0, w1, w2, w3, w4, w5, w6, w7, w8, w9, w10, w11, w12, w13, w14, w15)).

Definition rounds_32 (r : regs) (w : words) : regs * words :=
  let '(a, b, c, d, e, f, g, h) := r in
  let '(w0, w1, w2, w3, w4, w5, w6, w7, w8, w9, w10, w11, w12, w13, w14, w15) := w in
  let w0 := sched w0 w14 w9 w1 in
  let '(d, h) := Round a b c d e f g h 0x27b70a8546d22ffc w0 in
  let w1 := sched w1 w15 w10 w2 in
  let '(c, g) := Round h a b c d e f g 0x2e1b21385c26c926 w1 in
  let w2 := sched w2 w0 w11 w3 in
  let '(b, f) := Round g h a b c d e f 0x4d2c6dfc5ac42aed w2 in
  let w3 := sched w3 w1 w12 w4 in
  let '(a, e) := Round f g h a b c d e 0x53380d139d95b3df w3 in
  let w4 := sched w4 w2 w13 w5 in
  let '(h, d) := Round e f g h a b c d 0x650a73548baf63de w4 in
  let w5 := sched w5 w3 w14 w6 in
  let '(g, c) := Round d e f g h a b c 0x766a0abb3c77b2a8 w5 in
  let w6 := sched w6 w4 w15 w7 in
  let '(f, b) := Round c d e f g h a b 0x81c2c92e47edaee6 w6 in
  let w7 := sched w7 w5 w0 w8 in
  let '(e, a) := Round b c d e f g h a 0x92722c851482353b w7 in
  let w8 := sched w8 w6 w1 w9 in
  let '(d, h) := Round a b c d e f g h 0xa2bfe8a14cf10364 w8 in
  let w9 := sched w9 w7 w2 w10 in
  let '(c, g) := Round h a b c d e f g 0xa81a664bbc423001 w9 in
  let w10 := sched w10 w8 w3 w11 in
  let '(b, f) := Round g h a b c d e f 0xc24b8b70d0f89791 w10 in
  let w11 := sched w11 w9 w4 w12 in
  let '(a, e) := Round f g h a b c d e 0xc76c51a30654be30 w11 in
  let w12 := sched w12 w10 w5 w13 in
  let '(h, d) := Round e f g h a b c d 0xd192e819d6ef5218 w12 in
  let w13 := sched w13 w11 w6 w14 in
  let '(g, c) := Round d e f g h a b c 0xd69906245565a910 w13 in
  let w14 := sched w14 w12 w7 w15 in
  let '(f, b) := Round c d e f g h a b 0xf40e35855771202a w14 in
  let w15 := sched w15 w13 w8 w0 in
  let '(e, a) := Round b c d e f g h a 0x106aa07032bbd1b8 w15 in
  ((a, b, c, d, e, f, g, h), (w0, w1, w2, w3, w4, w5, w6, w7, w8, w9, w10, w11, w12, w13, w14, w15)).

Definition rounds_48 (r : regs) (w : words) : regs * words :=
  let '(a, b, c, d, e, f, g, h) := r in
  let '(w0, w1, w2, w3, w4, w5, w6, w7, w8, w9, w10, w11, w12, w13, w14, w15) := w in
  let w0 := sched w0 w14 w9 w1 in
  let '(d, h) := Round a b c d e f g h 0x19a4c116b8d2d0c8 w0 in
  let w1 := sched w1 w15 w10 w2 in
  let '(c, g) := Round h a b c d e f g 0x1e376c085141ab53 w1 in
  let w2 := sched w2 w0 w11 w3 in
  let '(b, f) := Round g h a b c d e f 0x2748774cdf8eeb99 w2 in
  let w3 := sched w3 w1 w12 w4 in
  let '(a, e) := Round f g h a b c d e 0x34b0bcb5e19b48a8 w3 in
  let w4 := sched w4 w2 w13 w5 in
  let '(h, d) := Round e f g h a b c d 0x391c0cb3c5c95a63 w4 in
  let w5 := sched w5 w3 w14 w6 in
  let '(g, c) := Round d e f g h a b c 0x4ed8aa4ae3418acb w5 in
  let w6 := sched w6 w4 w15 w7 in
  let '(f, b) := Round c d e f g h a b 0x5b9cca4f7763e373 w6 in
  let w7 := sched w7 w5 w0 w8 in
  let '(e, a) := Round b c d e f g h a 0x682e6ff3d6b2b8a3 w7 in
  let w8 := sched w8 w6 w1 w9 in
  let '(d, h) := Round a b c d e f g h 0x748f82ee5defb2fc w8 in
  let w9 := sched w9 w7 w2 w10 in
  let '(c, g) := Round h a b c d e f g 0x78a5636f43172f60 w9 in
  let w10 := sched w10 w8 w3 w11 in
  let '(b, f) := Round g h a b c d e f 0x84c87814a1f0ab72 w10 in
  let w11 := sched w11 w9 w4 w12 in
  let '(a, e) := Round f g h a b c d e 0x8cc702081a6439ec w11 in
  let w12 := sched w12 w10 w5 w13 in
  let '(h, d) := Round e f g h a b c d 0x90befffa23631e28 w12 in
  let w13 := sched w13 w11 w6 w14 in
  let '(g, c) := Round d e f g h a b c 0xa4506cebde82bde9 w13 in
  let w14 := sched w14 w12 w7 w15 in
  let '(f, b) := Round c d e f g h a b 0xbef9a3f7b2c67915 w14 in
  let w15 := sched w15 w13 w8 w0 in
  let '(e, a) := Round b c d e f g h a 0xc67178f2e372532b w15 in
  ((a, b, c, d, e, f, g, h), (w0, w1, w2, w3, w4, w5, w6, w7, w8, w9, w10, w11, w12, w13, w14, w15)).

Definition rounds_64 (r : regs) (w : words) : regs :=
  let '(a, b, c, d, e, f, g, h) := r in
  let '(w0, w1, w2, w3, w4, w5, w6, w7, w8, w9, w10, w11, w12, w13, w14, w15) := w in
  let w0 := sched w0 w14 w9 w1 in
  let '(d, h) := Round a b c d e f g h 0xca273eceea26619c w0 in
  let w1 := sched w1 w15 w10 w2 in
  let '(c, g) := Round h a b c d e f g 0xd186b8c721c0c207 w1 in
  let w2 := sched w2 w0 w11 w3 in
  let '(b, f) := Round g h a b c d e f 0xeada7dd6cde0eb1e w2 in
  let w3 := sched w3 w1 w12 w4 in
  let '(a, e) := Round f g h a b c d e 0xf57d4f7fee6ed178 w3 in
  let w4 := sched w4 w2 w13 w5 in
  let '(h, d) := Round e f g h a b c d 0x06f067aa72176fba w4 in
  let w5 := sched w5 w3 w14 w6 in
  let '(g, c) := Round d e f g h a b c 0x0a637dc5a2c898a6 w5 in
  let w6 := sched w6 w4 w15 w7 in
  let '(f, b) := Round c d e f g h a b 0x113f9804bef90dae w6 in
  let w7 := sched w7 w5 w0 w8 in
  let '(e, a) := Round b c d e f g h a 0x1b710b35131c471b w7 in
  let w8 := sched w8 w6 w1 w9 in
  let '(d, h) := Round a b c d e f g h 0x28db77f523047d84 w8 in
  let w9 := sched w9 w7 w2 w10 in
  let '(c, g) := Round h a b c d e f g 0x32caab7b40c72493 w9 in
  let w10 := sched w10 w8 w3 w11 in
  let '(b, f) := Round g h a b c d e f 0x3c9ebe0a15c9bebc w10 in
  let w11 := sched w11 w9 w4 w12 in
  let '(a, e) := Round f g h a b c d e 0x431d67c49c100d4c w11 in
  let w12 := sched w12 w10 w5 w13 in
  let '(h, d) := Round e f g h a b c d 0x4cc5d4becb3e42b6 w12 in
  let w13 := sched w13 w11 w6 w14 in
  let '(g, c) := Round d e f g h a b c 0x597f299cfc657e2a w13 in
  let '(f, b) := Round c d e f g h a b 0x5fcb6fab3ad6faec (sched w14 w12 w7 w15) in
  let '(e, a) := Round b c d e f g h a 0x6c44198c4a475817 (sched w15 w13 w8 w0) in
  (a, b, c, d, e, f, g, h).

Definition add_regs (s r : regs) : regs :=
  let '(s0, s1, s2, s3, s4, s5, s6, s7) := s in
  let '(a, b, c, d, e, f, g, h) := r in
  (u64 (s0 + a), u64 (s1 + b), u64 (s2 + c), u64 (s3 + d), u64 (s4 + e), u64 (s5 + f), u64 (s6 + g), u64 (s7 + h)).

Definition Transform (s : regs) (chunk : list Z) : regs :=
  let '(r, w) := rounds_0 s chunk in
  let '(r, w) := rounds_16 r w in
  let '(r, w) := rounds_32 r w in
  let '(r, w) := rounds_48 r w in
  add_regs s (rounds_64 r w).

Notation CSHA512 := (hasher regs).

Definition new_CSHA512 : CSHA512 := Hasher Initialize (replicate 128 0) 0.

Definition Write (h : CSHA512) (data : list Z) : CSHA512 :=
  Hasher.Write 128 Transform (consume_loop 128 Transform) h data.

Definition sizedesc (size : Z) : list Z := replicate 8 0 ++ WriteBE64 size.

Definition Finalize (h : CSHA512) : list Z * CSHA512 :=
  let h := finish 128 Transform (consume_loop 128 Transform) 16 sizedesc h in
  let '(s0, s1, s2, s3, s4, s5, s6, s7) := h_s h in
  (WriteBE64 s0 ++ WriteBE64 s1 ++ WriteBE64 s2 ++ WriteBE64 s3 ++ WriteBE64 s4 ++ WriteBE64 s5 ++
   WriteBE64 s6 ++ WriteBE64 s7, h).

Definition Reset (h : CSHA512) : CSHA512 := Hasher Initialize (h_buf h) 0.

End sha512.

(** ** The standard *)

(** The constants are the first [w] bits of the fractional parts of the cube roots of the first primes: the
    root scaled by [2 ^ w] is built bit by bit from the top, and its integral part (below 16) cut off. *)

Definition is_prime (p : Z) : bool := forallb (fun d => (p <=? d) || negb (p mod d =? 0)) (seqZ 2 20).

Definition primes (n : nat) : list Z := take n (List.filter is_prime (seqZ 2 420)).

Definition root_bits (w e p : Z) : Z :=
  foldl (fun r i => if (r + 2 ^ i) ^ e <=? p * 2 ^ (e * w) then r + 2 ^ i else r) 0 (rev (seqZ 0 (w + 4))) mod 2 ^ w.

Definition K256 : list Z := Eval vm_compute in map (root_bits 32 3) (primes 64).

Definition K512 : list Z := Eval vm_compute in map (root_bits 64 3) (primes 80).

(** [k] is the first [w] bits of the fractional part of the [e]-th root of [p]. *)

Definition root_frac (w e p k : Z) : bool :=
  match List.find (fun i => p <? (i + 1) ^ e) (seqZ 1 8) with
  | Some i => let r := i * 2 ^ w + k in (0 <=? k) && (k <? 2 ^ w) && (r ^ e <=? p * 2 ^ (e * w)) && (p * 2 ^ (e * w) <? (r + 1) ^ e)
  | None => false
  end.

Section sha2.
Context (w : Z) (Sigma0 Sigma1 sigma0 sigma1 : Z -> Z).

Definition fips_Ch (x y z : Z) : Z := Z.lxor (Z.land x y) (Z.land (Z.lnot x) z).

Definition fips_Maj (x y z : Z) : Z := Z.lxor (Z.lxor (Z.land x y) (Z.land x z)) (Z.land y z).

Definition fips_step (r : regs) (kw : Z * Z) : regs :=
  let '(a, b, c, d, e, f, g, h) := r in
  let T1 := wrap w (h + Sigma1 e + fips_Ch e f g + kw.1 + kw.2) in
  let T2 := wrap w (Sigma0 a + fips_Maj a b c) in
  (wrap w (T1 + T2), a, b, c, wrap w (d + T1), e, f, g).

Fixpoint fips_rounds (l : list (Z * Z)) (r : regs) : regs :=
  match l with
  | [] => r
  | kw :: l => fips_rounds l (fips_step r kw)
  end.

(** The message schedule, latest word first. *)

Definition fips_extend (W : list Z) : list Z :=
  wrap w (sigma1 (nth 1 W 0) + nth 6 W 0 + sigma0 (nth 14 W 0) + nth 15 W 0) :: W.

Definition fips_schedule (n : nat) (M : list Z) : list Z := rev (Nat.iter n fips_extend (rev M)).

Definition fips_compress (n : nat) (K : list Z) (H : regs) (M : list Z) : regs :=
  let '(a, b, c, d, e, f, g, h) := fips_rounds (zip K (fips_schedule n M)) H in
  let '(h0, h1, h2, h3, h4, h5, h6, h7) := H in
  (wrap w (a + h0), wrap w (b + h1), wrap w (c + h2), wrap w (d + h3), wrap w (e + h4), wrap w (f + h5),
   wrap w (g + h6), wrap w (h + h7)).

End sha2.

Definition ROTR (w n x : Z) : Z := Z.lor (Z.shiftr x n) (wrap w (Z.shiftl x (w - n))).

(** The hash of a message, over the chunks of its padding. *)

Definition fips_words (n : nat) (chunk : list Z) : list Z := map (fun i => be_val (take n (drop (n * i) chunk))) (seq 0 16).

Definition fips256_compress (H : regs) (chunk : list Z) : regs :=
  fips_compress 32
    (fun x => Z.lxor (Z.lxor (ROTR 32 2 x) (ROTR 32 13 x)) (ROTR 32 22 x))
    (fun x => Z.lxor (Z.lxor (ROTR 32 6 x) (ROTR 32 11 x)) (ROTR 32 25 x))
    (fun x => Z.lxor (Z.lxor (ROTR 32 7 x) (ROTR 32 18 x)) (Z.shiftr x 3))
    (fun x => Z.lxor (Z.lxor (ROTR 32 17 x) (ROTR 32 19 x)) (Z.shiftr x 10))
    48 K256 H (fips_words 4 chunk).

Definition fips512_compress (H : regs) (chunk : list Z) : regs :=
  fips_compress 64
    (fun x => Z.lxor (Z.lxor (ROTR 64 28 x) (ROTR 64 34 x)) (ROTR 64 39 x))
    (fun x => Z.lxor (Z.lxor (ROTR 64 14 x) (ROTR 64 18 x)) (ROTR 64 41 x))
    (fun x => Z.lxor (Z.lxor (ROTR 64 1 x) (ROTR 64 8 x)) (Z.shiftr x 7))
    (fun x => Z.lxor (Z.lxor (ROTR 64 19 x) (ROTR 64 61 x)) (Z.shiftr x 6))
    64 K512 H (fips_words 8 chunk).

Definition regs_list (r : regs) : list Z := let '(a, b, c, d, e, f, g, h) := r in [a; b; c; d; e; f; g; h].

Definition fips_sha256 (m : list Z) : list Z :=
  let p := padded 64 8 (be_bytes 8) m in
  let H := Transform_blocks 64 fips256_compress sha256.Initialize p (length p / 64) in
  concat (map (be_bytes 4) (regs_list H)).

Definition fips_sha512 (m : list Z) : list Z :=
  let p := padded 128 16 (be_bytes 16) m in
  let H := Transform_blocks 128 fips512_compress sha512.Initialize p (length p / 128) in
  concat (map (be_bytes 8) (regs_list H)).

(** ** The unrolled code computes the standard's rounds *)

Lemma Ch_fips x y z : Z.lxor z (Z.land x (Z.lxor y z)) = fips_Ch x y z.
Proof. unfold fips_Ch. apply Z.bits_inj'. intros i Hi. rewrite ?Z.lxor_spec, ?Z.land_spec, ?Z.lxor_spec, ?Z.lnot_spec by done.
  by destruct (Z.testbit x i), (Z.testbit y i), (Z.testbit z i). Qed.

Lemma Maj_fips x y z : Z.lor (Z.land x y) (Z.land z (Z.lor x y)) = fips_Maj x y z.
Proof. unfold fips_Maj. apply Z.bits_inj'. intros i Hi. rewrite !Z.lxor_spec, !Z.lor_spec, !Z.land_spec, !Z.lor_spec.
  by destruct (Z.testbit x i), (Z.testbit y i), (Z.testbit z i). Qed.

Definition words_list (ws : words) : list Z :=
  let '(w0, w1, w2, w3, w4, w5, w6, w7, w8, w9, w10, w11, w12, w13, w14, w15) := ws in
  [w0; w1; w2; w3; w4; w5; w6; w7; w8; w9; w10; w11; w12; w13; w14; w15].

Lemma fips_rounds_app w S0 S1 l1 l2 r : fips_rounds w S0 S1 (l1 ++ l2) r = fips_rounds w S0 S1 l2 (fips_rounds w S0 S1 l1 r).
Proof. revert r. induction l1 as [|kw l1 IH]; intros r; [done | apply IH]. Qed.

Definition words_of (l : list Z) : words :=
  (nth 0 l 0, nth 1 l 0, nth 2 l 0, nth 3 l 0, nth 4 l 0, nth 5 l 0, nth 6 l 0, nth 7 l 0,
   nth 8 l 0, nth 9 l 0, nth 10 l 0, nth 11 l 0, nth 12 l 0, nth 13 l 0, nth 14 l 0, nth 15 l 0).

Lemma fips_words_list n chunk : fips_words n chunk = words_list (words_of (fips_words n chunk)).
Proof. reflexivity. Qed.

(** Sixteen words of the schedule from the sixteen before. *)

Section schedule.
Context (word : Z -> Z -> Z -> Z -> Z) (w : Z) (s0 s1 : Z -> Z).

Definition next (ws : words) : words :=
  let '(w0, w1, w2, w3, w4, w5, w6, w7, w8, w9, w10, w11, w12, w13, w14, w15) := ws in
  let w0 := word w0 w14 w9 w1 in
  let w1 := word w1 w15 w10 w2 in
  let w2 := word w2 w0 w11 w3 in
  let w3 := word w3 w1 w12 w4 in
  let w4 := word w4 w2 w13 w5 in
  let w5 := word w5 w3 w14 w6 in
  let w6 := word w6 w4 w15 w7 in
  let w7 := word w7 w5 w0 w8 in
  let w8 := word w8 w6 w1 w9 in
  let w9 := word w9 w7 w2 w10 in
  let w10 := word w10 w8 w3 w11 in
  let w11 := word w11 w9 w4 w12 in
  let w12 := word w12 w10 w5 w13 in
  let w13 := word w13 w11 w6 w14 in
  let w14 := word w14 w12 w7 w15 in
  let w15 := word w15 w13 w8 w0 in
  (w0, w1, w2, w3, w4, w5, w6, w7, w8, w9, w10, w11, w12, w13, w14, w15).

Context (Hword : forall x y z t, word x y z t = wrap w (x + s1 y + z + s0 t)).

Lemma extend_word x0 x1 x2 x3 x4 x5 x6 x7 x8 x9 x10 x11 x12 x13 x14 x15 P :
  fips_extend w s0 s1 (x0 :: x1 :: x2 :: x3 :: x4 :: x5 :: x6 :: x7 :: x8 :: x9 :: x10 :: x11 :: x12 :: x13 :: x14 :: x15 :: P) = word x15 x1 x6 x14 :: x0 :: x1 :: x2 :: x3 :: x4 :: x5 :: x6 :: x7 :: x8 :: x9 :: x10 :: x11 :: x12 :: x13 :: x14 :: x15 :: P.
Proof. unfold fips_extend. rewrite Hword. cbn [nth]. do 2 f_equal. lia. Qed.

Lemma extend_next ws P :
  Nat.iter 16 (fips_extend w s0 s1) (rev (words_list ws) ++ P) = rev (words_list (next ws)) ++ rev (words_list ws) ++ P.
Proof.
  destruct ws as [[[[[[[[[[[[[[[? ?] ?] ?] ?] ?] ?] ?] ?] ?] ?] ?] ?] ?] ?] ?].
  cbn [words_list rev app Nat.iter nat_rect]. do 16 (rewrite extend_word). reflexivity.
Qed.

Lemma schedule_next k ws : fips_schedule w s0 s1 (16 * k) (words_list ws) =
  concat (map (fun i => words_list (Nat.iter i next ws)) (seq 0 (S k))).
Proof.
  unfold fips_schedule.
  assert (exists P, Nat.iter (16 * k) (fips_extend w s0 s1) (rev (words_list ws)) = rev (words_list (Nat.iter k next ws)) ++ P /\
    rev P = concat (map (fun i => words_list (Nat.iter i next ws)) (seq 0 k))) as (P & -> & HP).
  - induction k as [|k IH]; [exists []; by rewrite app_nil_r|]. destruct IH as (P & E & HP).
    replace (16 * S k)%nat with (16 + 16 * k)%nat by lia. rewrite Nat.iter_add, E, extend_next.
    eexists. split; [reflexivity|]. rewrite seq_S, map_app, concat_app, rev_app_distr, rev_involutive, HP. cbn. by rewrite app_nil_r.
  - rewrite rev_app_distr, rev_involutive, HP, seq_S, map_app, concat_app. cbn. by rewrite app_nil_r.
Qed.

End schedule.

(** [literal l] evaluates a closed list in the goal. *)

Ltac literal l := let k := eval vm_compute in l in change l with k.

Ltac start_quarter r ws K rounds :=
  destruct r as [[[[[[[? ?] ?] ?] ?] ?] ?] ?], ws as [[[[[[[[[[[[[[[? ?] ?] ?] ?] ?] ?] ?] ?] ?] ?] ?] ?] ?] ?] ?];
  literal K; unfold next, rounds; cbv zeta; cbn [words_list zip zip_with].

Lemma length_words_list ws : length (words_list ws) = 16%nat.
Proof. by destruct ws as [[[[[[[[[[[[[[[? ?] ?] ?] ?] ?] ?] ?] ?] ?] ?] ?] ?] ?] ?] ?]. Qed.

Lemma zip_quarters (K : list Z) (f : nat -> words) n i : length K = (16 * n)%nat ->
  zip K (concat (map (fun j => words_list (f j)) (seq i n))) =
  concat (map (fun j => zip (take 16 (drop (16 * j)%nat K)) (words_list (f (i + j)%nat))) (seq 0 n)).
Proof.
  revert K i. induction n as [|n IH]; intros K i HK; [by destruct K|].
  cbn [seq map concat]. rewrite <- (take_drop 16 K) at 1. rewrite zip_with_app by (rewrite length_take, length_words_list; lia).
  rewrite IH by (rewrite length_drop; lia). rewrite Nat.mul_0_r, drop_0, Nat.add_0_r. f_equal. f_equal.
  rewrite <- (seq_shift n 0), map_map. apply map_ext. intros j. rewrite drop_drop. f_equal; [f_equal; f_equal; lia|].
  do 2 f_equal. lia.
Qed.

Section unrolled256.

Notation rounds := (fips_rounds 32 sha256.Sigma0 sha256.Sigma1).
Notation next' := (next sha256.sched).

Lemma Round256 k x l a b c d e f g h :
  rounds ((k, x) :: l) (a, b, c, d, e, f, g, h) =
  let '(d', h') := sha256.Round a b c d e f g h k x in rounds l (h', a, b, c, d', e, f, g).
Proof. cbn [fips_rounds fips_step fst snd]. unfold sha256.Round, sha256.Ch, sha256.Maj. by rewrite Ch_fips, Maj_fips. Qed.

Ltac unrolled := repeat (rewrite Round256; destruct (sha256.Round _ _ _ _ _ _ _ _ _ _)); reflexivity.

Lemma rounds_0_spec256 r chunk :
  sha256.rounds_0 r chunk = (rounds (zip (take 16 K256) (fips_words 4 chunk)) r, words_of (fips_words 4 chunk)).
Proof.
  destruct r as [[[[[[[a b] c] d] e] f] g] h]. literal (take 16 K256).
  cbn [fips_words seq map zip zip_with Nat.mul Nat.add words_of nth]. unfold sha256.rounds_0, ReadBE32. cbv zeta. unrolled.
Qed.

Lemma rounds_16_spec256 r ws :
  sha256.rounds_16 r ws = (rounds (zip (take 16 (drop 16 K256)) (words_list (next' ws))) r, next' ws).
Proof. start_quarter r ws (take 16 (drop 16 K256)) sha256.rounds_16. unrolled. Qed.

Lemma rounds_32_spec256 r ws :
  sha256.rounds_32 r ws = (rounds (zip (take 16 (drop 32 K256)) (words_list (next' ws))) r, next' ws).
Proof. start_quarter r ws (take 16 (drop 32 K256)) sha256.rounds_32. unrolled. Qed.

Lemma rounds_48_spec256 r ws :
  sha256.rounds_48 r ws = rounds (zip (take 16 (drop 48 K256)) (words_list (next' ws))) r.
Proof. start_quarter r ws (take 16 (drop 48 K256)) sha256.rounds_48. unrolled. Qed.

Lemma zip_schedule256 ws : zip K256 (fips_schedule 32 sha256.sigma0 sha256.sigma1 48 (words_list ws)) =
  zip (take 16 (drop 0 K256)) (words_list ws) ++ zip (take 16 (drop 16 K256)) (words_list (next' ws)) ++ zip (take 16 (drop 32 K256)) (words_list (next' (next' ws))) ++ zip (take 16 (drop 48 K256)) (words_list (next' (next' (next' ws)))).
Proof.
  rewrite (schedule_next sha256.sched 32 _ _ ltac:(reflexivity) 3), zip_quarters by reflexivity.
  cbn [seq map concat Nat.iter nat_rect]. by rewrite app_nil_r.
Qed.

Lemma Transform256_fips s chunk : sha256.Transform s chunk = fips256_compress s chunk.
Proof.
  unfold sha256.Transform. rewrite rounds_0_spec256, rounds_16_spec256, rounds_32_spec256, rounds_48_spec256. cbv beta iota.
  unfold fips256_compress, fips_compress.
  pose proof (fips_words_list 4 chunk) as E. set (ws := words_of (fips_words 4 chunk)) in *. rewrite E.
  change (fips_schedule _ _ _) with (fips_schedule 32 sha256.sigma0 sha256.sigma1).
  change (fips_rounds _ _ _) with rounds. rewrite zip_schedule256, !fips_rounds_app, drop_0.
  unfold sha256.add_regs, wrap, u32. destruct (rounds _ _) as [[[[[[[? ?] ?] ?] ?] ?] ?] ?], s as [[[[[[[? ?] ?] ?] ?] ?] ?] ?].
  repeat (f_equal; [|rewrite Z.add_comm; reflexivity]). by rewrite Z.add_comm.
Qed.

End unrolled256.

Section unrolled512.

Notation rounds := (fips_rounds 64 sha512.Sigma0 sha512.Sigma1).
Notation next' := (next sha512.sched).

Lemma Round512 k x l a b c d e f g h :
  rounds ((k, x) :: l) (a, b, c, d, e, f, g, h) =
  let '(d', h') := sha512.Round a b c d e f g h k x in rounds l (h', a, b, c, d', e, f, g).
Proof. cbn [fips_rounds fips_step fst snd]. unfold sha512.Round, sha512.Ch, sha512.Maj. by rewrite Ch_fips, Maj_fips. Qed.

Ltac unrolled := repeat (rewrite Round512; destruct (sha512.Round _ _ _ _ _ _ _ _ _ _)); reflexivity.

Lemma rounds_0_spec512 r chunk :
  sha512.rounds_0 r chunk = (rounds (zip (take 16 K512) (fips_words 8 chunk)) r, words_of (fips_words 8 chunk)).
Proof.
  destruct r as [[[[[[[a b] c] d] e] f] g] h]. literal (take 16 K512).
  cbn [fips_words seq map zip zip_with Nat.mul Nat.add words_of nth]. unfold sha512.rounds_0, ReadBE64. cbv zeta. unrolled.
Qed.

Lemma rounds_16_spec512 r ws :
  sha512.rounds_16 r ws = (rounds (zip (take 16 (drop 16 K512)) (words_list (next' ws))) r, next' ws).
Proof. start_quarter r ws (take 16 (drop 16 K512)) sha512.rounds_16. unrolled. Qed.

Lemma rounds_32_spec512 r ws :
  sha512.rounds_32 r ws = (rounds (zip (take 16 (drop 32 K512)) (words_list (next' ws))) r, next' ws).
Proof. start_quarter r ws (take 16 (drop 32 K512)) sha512.rounds_32. unrolled. Qed.

Lemma rounds_48_spec512 r ws :
  sha512.rounds_48 r ws = (rounds (zip (take 16 (drop 48 K512)) (words_list (next' ws))) r, next' ws).
Proof. start_quarter r ws (take 16 (drop 48 K512)) sha512.rounds_48. unrolled. Qed.

Lemma rounds_64_spec512 r ws :
  sha512.rounds_64 r ws = rounds (zip (take 16 (drop 64 K512)) (words_list (next' ws))) r.
Proof. start_quarter r ws (take 16 (drop 64 K512)) sha512.rounds_64. unrolled. Qed.

Lemma zip_schedule512 ws : zip K512 (fips_schedule 64 sha512.sigma0 sha512.sigma1 64 (words_list ws)) =
  zip (take 16 (drop 0 K512)) (words_list ws) ++ zip (take 16 (drop 16 K512)) (words_list (next' ws)) ++ zip (take 16 (drop 32 K512)) (words_list (next' (next' ws))) ++ zip (take 16 (drop 48 K512)) (words_list (next' (next' (next' ws)))) ++ zip (take 16 (drop 64 K512)) (words_list (next' (next' (next' (next' ws))))).
Proof.
  rewrite (schedule_next sha512.sched 64 _ _ ltac:(reflexivity) 4), zip_quarters by reflexivity.
  cbn [seq map concat Nat.iter nat_rect]. by rewrite app_nil_r.
Qed.

Lemma Transform512_fips s chunk : sha512.Transform s chunk = fips512_compress s chunk.
Proof.
  unfold sha512.Transform. rewrite rounds_0_spec512, rounds_16_spec512, rounds_32_spec512, rounds_48_spec512, rounds_64_spec512. cbv beta iota.
  unfold fips512_compress, fips_compress.
  pose proof (fips_words_list 8 chunk) as E. set (ws := words_of (fips_words 8 chunk)) in *. rewrite E.
  change (fips_schedule _ _ _) with (fips_schedule 64 sha512.sigma0 sha512.sigma1).
  change (fips_rounds _ _ _) with rounds. rewrite zip_schedule512, !fips_rounds_app, drop_0.
  unfold sha512.add_regs, wrap, u64. destruct (rounds _ _) as [[[[[[[? ?] ?] ?] ?] ?] ?] ?], s as [[[[[[[? ?] ?] ?] ?] ?] ?] ?].
  repeat (f_equal; [|rewrite Z.add_comm; reflexivity]). by rewrite Z.add_comm.
Qed.

End unrolled512.

(** ** The classes *)

Notation ok256 := (hasher_ok 64 sha256.Transform sha256.Initialize).

Notation ok512 := (hasher_ok 128 sha512.Transform sha512.Initialize).

Lemma Writes256_ok pieces m h : ok256 m h -> Z.of_nat (length (m ++ concat pieces)) < 2 ^ 64 ->
  ok256 (m ++ concat pieces) (foldl sha256.Write h pieces).
Proof. apply Writes_ok; [lia | apply consume_blocks_law; lia]. Qed.

Lemma Writes512_ok pieces m h : ok512 m h -> Z.of_nat (length (m ++ concat pieces)) < 2 ^ 64 ->
  ok512 (m ++ concat pieces) (foldl sha512.Write h pieces).
Proof. apply Writes_ok; [lia | apply consume_loop_law; lia]. Qed.

Lemma finish256_ok m h : ok256 m h -> Z.of_nat (length m) < 2 ^ 61 ->
  ok256 (padded 64 8 WriteBE64 m) (finish 64 sha256.Transform (consume_blocks 64 sha256.Transform) 8 WriteBE64 h).
Proof.
  intros Hok Hm. apply finish_ok; [lia | by apply consume_blocks_law; lia | lia | | done | done | lia].
  intros. unfold WriteBE64, be_bytes. by rewrite length_rev, length_le_bytes.
Qed.

Lemma finish512_ok m h : ok512 m h -> Z.of_nat (length m) < 2 ^ 61 ->
  ok512 (padded 128 16 sha512.sizedesc m) (finish 128 sha512.Transform (consume_loop 128 sha512.Transform) 16 sha512.sizedesc h).
Proof.
  intros Hok Hm. apply finish_ok; [lia | by apply consume_loop_law; lia | lia | | done | done | lia].
  intros. unfold sha512.sizedesc, WriteBE64, be_bytes. by rewrite length_app, length_rev, length_le_bytes.
Qed.

Lemma Finalize256_spec m h : ok256 m h -> Z.of_nat (length m) < 2 ^ 61 ->
  (sha256.Finalize h).1 = fips_sha256 m /\ ok256 [] (sha256.Reset (sha256.Finalize h).2).
Proof.
  intros Hok Hm. unfold sha256.Finalize, fips_sha256.
  destruct (finish256_ok m h Hok Hm) as (_ & Hb & Hs & _). set (f := finish _ _ _ _ _ h) in *.
  destruct (h_s f) as [[[[[[[? ?] ?] ?] ?] ?] ?] ?]. cbn [fst snd]. split; [|by apply fresh_ok].
  change (be_bytes 8) with WriteBE64.
  rewrite <- (Transform_blocks_ext 64 sha256.Transform fips256_compress), <- Hs by apply Transform256_fips.
  cbn [regs_list map concat]. by rewrite app_nil_r.
Qed.

Lemma Finalize512_spec m h : ok512 m h -> Z.of_nat (length m) < 2 ^ 61 ->
  (sha512.Finalize h).1 = fips_sha512 m /\ ok512 [] (sha512.Reset (sha512.Finalize h).2).
Proof.
  intros Hok Hm. unfold sha512.Finalize, fips_sha512.
  assert (padded 128 16 (be_bytes 16) m = padded 128 16 sha512.sizedesc m) as ->.
  { unfold padded, sha512.sizedesc. by rewrite (be_bytes_pad 8 8) by lia. }
  destruct (finish512_ok m h Hok Hm) as (_ & Hb & Hs & _). set (f := finish _ _ _ _ _ h) in *.
  destruct (h_s f) as [[[[[[[? ?] ?] ?] ?] ?] ?] ?]. cbn [fst snd]. split; [|by apply fresh_ok].
  rewrite <- (Transform_blocks_ext 128 sha512.Transform fips512_compress), <- Hs by apply Transform512_fips.
  cbn [regs_list map concat]. by rewrite app_nil_r.
Qed.

Lemma new256_ok : ok256 [] sha256.new_CSHA256.
Proof. by apply fresh_ok. Qed.

Lemma new512_ok : ok512 [] sha512.new_CSHA512.
Proof. by apply fresh_ok. Qed.

Lemma length_fips_sha256 m : length (fips_sha256 m) = 32%nat.
Proof.
  unfold fips_sha256. destruct (Transform_blocks _ _ _ _ _) as [[[[[[[? ?] ?] ?] ?] ?] ?] ?].
  unfold be_bytes. cbn [regs_list map concat]. by rewrite !length_app, !length_rev, !length_le_bytes.
Qed.

Lemma fips_sha256_bytes m : bytes (fips_sha256 m).
Proof.
  unfold fips_sha256. destruct (Transform_blocks _ _ _ _ _) as [[[[[[[? ?] ?] ?] ?] ?] ?] ?].
  unfold be_bytes. cbn [regs_list map concat]. auto 12 with bytes.
Qed.


