(* ===== verification/Ripemd160.v ===== *)
(** * RIPEMD-160

    [src/crypto/ripemd160.cpp]: the compression function, its two lines interleaved and unrolled with
    renamed registers as in the source, and the class [CRIPEMD160] as a buffered hasher.  The reference
    is the published algorithm: the two lines as loops over the tables of message words and rotations,
    with shifting registers. *)

From S2P Require Import Prelude Common Hasher.

Notation regs := (Z * Z * Z * Z * Z)%type.

Notation words := (Z * Z * Z * Z * Z * Z * Z * Z * Z * Z * Z * Z * Z * Z * Z * Z)%type.

Module ripemd160.

(** [~x] on 32 bits. *)

Definition not32 (x : Z) : Z := u32 (Z.lnot x).

Definition f1 (x y z : Z) : Z := Z.lxor (Z.lxor x y) z.

Definition f2 (x y z : Z) : Z := Z.lor (Z.land x y) (Z.land (not32 x) z).

Definition f3 (x y z : Z) : Z := Z.lxor (Z.lor x (not32 y)) z.

Definition f4 (x y z : Z) : Z := Z.lor (Z.land x z) (Z.land y (not32 z)).

Definition f5 (x y z : Z) : Z := Z.lxor x (Z.lor y (not32 z)).

Definition Initialize : regs := (0x67452301, 0xEFCDAB89, 0x98BADCFE, 0x10325476, 0xC3D2E1F0).

Definition rol (x i : Z) : Z := Z.lor (u32 (Z.shiftl x i)) (Z.shiftr x (32 - i)).

(** One round: the new [a] and [c]. *)

Definition Round (a b c d e f x k r : Z) : Z * Z := (u32 (rol (u32 (a + f + x + k)) r + e), rol c 10).

Definition R11 (a b c d e x r : Z) : Z * Z := Round a b c d e (f1 b c d) x 0 r.

Definition R21 (a b c d e x r : Z) : Z * Z := Round a b c d e (f2 b c d) x 0x5A827999 r.

Definition R31 (a b c d e x r : Z) : Z * Z := Round a b c d e (f3 b c d) x 0x6ED9EBA1 r.

Definition R41 (a b c d e x r : Z) : Z * Z := Round a b c d e (f4 b c d) x 0x8F1BBCDC r.

Definition R51 (a b c d e x r : Z) : Z * Z := Round a b c d e (f5 b c d) x 0xA953FD4E r.

Definition R12 (a b c d e x r : Z) : Z * Z := Round a b c d e (f5 b c d) x 0x50A28BE6 r.

Definition R22 (a b c d e x r : Z) : Z * Z := Round a b c d e (f4 b c d) x 0x5C4DD124 r.

Definition R32 (a b c d e x r : Z) : Z * Z := Round a b c d e (f3 b c d) x 0x6D703EF3 r.

Definition R42 (a b c d e x r : Z) : Z * Z := Round a b c d e (f2 b c d) x 0x7A6D76E9 r.

Definition R52 (a b c d e x r : Z) : Z * Z := Round a b c d e (f1 b c d) x 0 r.

(** The unrolled rounds of [Transform], in the source's five groups. *)

Definition group_1 (r : regs * regs) (w : words) : regs * regs :=
  let '((a1, b1, c1, d1, e1), (a2, b2, c2, d2, e2)) := r in
  let '(w0, w1, w2, w3, w4, w5, w6, w7, w8, w9, w10, w11, w12, w13, w14, w15) := w in
  let '(a1, c1) := R11 a1 b1 c1 d1 e1 w0 11 in
  let '(a2, c2) := R12 a2 b2 c2 d2 e2 w5 8 in
  let '(e1, b1) := R11 e1 a1 b1 c1 d1 w1 14 in
  let '(e2, b2) := R12 e2 a2 b2 c2 d2 w14 9 in
  let '(d1, a1) := R11 d1 e1 a1 b1 c1 w2 15 in
  let '(d2, a2) := R12 d2 e2 a2 b2 c2 w7 9 in
  let '(c1, e1) := R11 c1 d1 e1 a1 b1 w3 12 in
  let '(c2, e2) := R12 c2 d2 e2 a2 b2 w0 11 in
  let '(b1, d1) := R11 b1 c1 d1 e1 a1 w4 5 in
  let '(b2, d2) := R12 b2 c2 d2 e2 a2 w9 13 in
  let '(a1, c1) := R11 a1 b1 c1 d1 e1 w5 8 in
  let '(a2, c2) := R12 a2 b2 c2 d2 e2 w2 15 in
  let '(e1, b1) := R11 e1 a1 b1 c1 d1 w6 7 in
  let '(e2, b2) := R12 e2 a2 b2 c2 d2 w11 15 in
  let '(d1, a1) := R11 d1 e1 a1 b1 c1 w7 9 in
  let '(d2, a2) := R12 d2 e2 a2 b2 c2 w4 5 in
  let '(c1, e1) := R11 c1 d1 e1 a1 b1 w8 11 in
  let '(c2, e2) := R12 c2 d2 e2 a2 b2 w13 7 in
  let '(b1, d1) := R11 b1 c1 d1 e1 a1 w9 13 in
  let '(b2, d2) := R12 b2 c2 d2 e2 a2 w6 7 in
  let '(a1, c1) := R11 a1 b1 c1 d1 e1 w10 14 in
  let '(a2, c2) := R12 a2 b2 c2 d2 e2 w15 8 in
  let '(e1, b1) := R11 e1 a1 b1 c1 d1 w11 15 in
  let '(e2, b2) := R12 e2 a2 b2 c2 d2 w8 11 in
  let '(d1, a1) := R11 d1 e1 a1 b1 c1 w12 6 in
  let '(d2, a2) := R12 d2 e2 a2 b2 c2 w1 14 in
  let '(c1, e1) := R11 c1 d1 e1 a1 b1 w13 7 in
  let '(c2, e2) := R12 c2 d2 e2 a2 b2 w10 14 in
  let '(b1, d1) := R11 b1 c1 d1 e1 a1 w14 9 in
  let '(b2, d2) := R12 b2 c2 d2 e2 a2 w3 12 in
  let '(a1, c1) := R11 a1 b1 c1 d1 e1 w15 8 in
  let '(a2, c2) := R12 a2 b2 c2 d2 e2 w12 6 in
  ((a1, b1, c1, d1, e1), (a2, b2, c2, d2, e2)).

Definition group_2 (r : regs * regs) (w : words) : regs * regs :=
  let '((a1, b1, c1, d1, e1), (a2, b2, c2, d2, e2)) := r in
  let '(w0, w1, w2, w3, w4, w5, w6, w7, w8, w9, w10, w11, w12, w13, w14, w15) := w in
  let '(e1, b1) := R21 e1 a1 b1 c1 d1 w7 7 in
  let '(e2, b2) := R22 e2 a2 b2 c2 d2 w6 9 in
  let '(d1, a1) := R21 d1 e1 a1 b1 c1 w4 6 in
  let '(d2, a2) := R22 d2 e2 a2 b2 c2 w11 13 in
  let '(c1, e1) := R21 c1 d1 e1 a1 b1 w13 8 in
  let '(c2, e2) := R22 c2 d2 e2 a2 b2 w3 15 in
  let '(b1, d1) := R21 b1 c1 d1 e1 a1 w1 13 in
  let '(b2, d2) := R22 b2 c2 d2 e2 a2 w7 7 in
  let '(a1, c1) := R21 a1 b1 c1 d1 e1 w10 11 in
  let '(a2, c2) := R22 a2 b2 c2 d2 e2 w0 12 in
  let '(e1, b1) := R21 e1 a1 b1 c1 d1 w6 9 in
  let '(e2, b2) := R22 e2 a2 b2 c2 d2 w13 8 in
  let '(d1, a1) := R21 d1 e1 a1 b1 c1 w15 7 in
  let '(d2, a2) := R22 d2 e2 a2 b2 c2 w5 9 in
  let '(c1, e1) := R21 c1 d1 e1 a1 b1 w3 15 in
  let '(c2, e2) := R22 c2 d2 e2 a2 b2 w10 11 in
  let '(b1, d1) := R21 b1 c1 d1 e1 a1 w12 7 in
  let '(b2, d2) := R22 b2 c2 d2 e2 a2 w14 7 in
  let '(a1, c1) := R21 a1 b1 c1 d1 e1 w0 12 in
  let '(a2, c2) := R22 a2 b2 c2 d2 e2 w15 7 in
  let '(e1, b1) := R21 e1 a1 b1 c1 d1 w9 15 in
  let '(e2, b2) := R22 e2 a2 b2 c2 d2 w8 12 in
  let '(d1, a1) := R21 d1 e1 a1 b1 c1 w5 9 in
  let '(d2, a2) := R22 d2 e2 a2 b2 c2 w12 7 in
  let '(c1, e1) := R21 c1 d1 e1 a1 b1 w2 11 in
  let '(c2, e2) := R22 c2 d2 e2 a2 b2 w4 6 in
  let '(b1, d1) := R21 b1 c1 d1 e1 a1 w14 7 in
  let '(b2, d2) := R22 b2 c2 d2 e2 a2 w9 15 in
  let '(a1, c1) := R21 a1 b1 c1 d1 e1 w11 13 in
  let '(a2, c2) := R22 a2 b2 c2 d2 e2 w1 13 in
  let '(e1, b1) := R21 e1 a1 b1 c1 d1 w8 12 in
  let '(e2, b2) := R22 e2 a2 b2 c2 d2 w2 11 in
  ((a1, b1, c1, d1, e1), (a2, b2, c2, d2, e2)).

Definition group_3 (r : regs * regs) (w : words) : regs * regs :=
  let '((a1, b1, c1, d1, e1), (a2, b2, c2, d2, e2)) := r in
  let '(w0, w1, w2, w3, w4, w5, w6, w7, w8, w9, w10, w11, w12, w13, w14, w15) := w in
  let '(d1, a1) := R31 d1 e1 a1 b1 c1 w3 11 in
  let '(d2, a2) := R32 d2 e2 a2 b2 c2 w15 9 in
  let '(c1, e1) := R31 c1 d1 e1 a1 b1 w10 13 in
  let '(c2, e2) := R32 c2 d2 e2 a2 b2 w5 7 in
  let '(b1, d1) := R31 b1 c1 d1 e1 a1 w14 6 in
  let '(b2, d2) := R32 b2 c2 d2 e2 a2 w1 15 in
  let '(a1, c1) := R31 a1 b1 c1 d1 e1 w4 7 in
  let '(a2, c2) := R32 a2 b2 c2 d2 e2 w3 11 in
  let '(e1, b1) := R31 e1 a1 b1 c1 d1 w9 14 in
  let '(e2, b2) := R32 e2 a2 b2 c2 d2 w7 8 in
  let '(d1, a1) := R31 d1 e1 a1 b1 c1 w15 9 in
  let '(d2, a2) := R32 d2 e2 a2 b2 c2 w14 6 in
  let '(c1, e1) := R31 c1 d1 e1 a1 b1 w8 13 in
  let '(c2, e2) := R32 c2 d2 e2 a2 b2 w6 6 in
  let '(b1, d1) := R31 b1 c1 d1 e1 a1 w1 15 in
  let '(b2, d2) := R32 b2 c2 d2 e2 a2 w9 14 in
  let '(a1, c1) := R31 a1 b1 c1 d1 e1 w2 14 in
  let '(a2, c2) := R32 a2 b2 c2 d2 e2 w11 12 in
  let '(e1, b1) := R31 e1 a1 b1 c1 d1 w7 8 in
  let '(e2, b2) := R32 e2 a2 b2 c2 d2 w8 13 in
  let '(d1, a1) := R31 d1 e1 a1 b1 c1 w0 13 in
  let '(d2, a2) := R32 d2 e2 a2 b2 c2 w12 5 in
  let '(c1, e1) := R31 c1 d1 e1 a1 b1 w6 6 in
  let '(c2, e2) := R32 c2 d2 e2 a2 b2 w2 14 in
  let '(b1, d1) := R31 b1 c1 d1 e1 a1 w13 5 in
  let '(b2, d2) := R32 b2 c2 d2 e2 a2 w10 13 in
  let '(a1, c1) := R31 a1 b1 c1 d1 e1 w11 12 in
  let '(a2, c2) := R32 a2 b2 c2 d2 e2 w0 13 in
  let '(e1, b1) := R31 e1 a1 b1 c1 d1 w5 7 in
  let '(e2, b2) := R32 e2 a2 b2 c2 d2 w4 7 in
  let '(d1, a1) := R31 d1 e1 a1 b1 c1 w12 5 in
  let '(d2, a2) := R32 d2 e2 a2 b2 c2 w13 5 in
  ((a1, b1, c1, d1, e1), (a2, b2, c2, d2, e2)).

Definition group_4 (r : regs * regs) (w : words) : regs * regs :=
  let '((a1, b1, c1, d1, e1), (a2, b2, c2, d2, e2)) := r in
  let '(w0, w1, w2, w3, w4, w5, w6, w7, w8, w9, w10, w11, w12, w13, w14, w15) := w in
  let '(c1, e1) := R41 c1 d1 e1 a1 b1 w1 11 in
  let '(c2, e2) := R42 c2 d2 e2 a2 b2 w8 15 in
  let '(b1, d1) := R41 b1 c1 d1 e1 a1 w9 12 in
  let '(b2, d2) := R42 b2 c2 d2 e2 a2 w6 5 in
  let '(a1, c1) := R41 a1 b1 c1 d1 e1 w11 14 in
  let '(a2, c2) := R42 a2 b2 c2 d2 e2 w4 8 in
  let '(e1, b1) := R41 e1 a1 b1 c1 d1 w10 15 in
  let '(e2, b2) := R42 e2 a2 b2 c2 d2 w1 11 in
  let '(d1, a1) := R41 d1 e1 a1 b1 c1 w0 14 in
  let '(d2, a2) := R42 d2 e2 a2 b2 c2 w3 14 in
  let '(c1, e1) := R41 c1 d1 e1 a1 b1 w8 15 in
  let '(c2, e2) := R42 c2 d2 e2 a2 b2 w11 14 in
  let '(b1, d1) := R41 b1 c1 d1 e1 a1 w12 9 in
  let '(b2, d2) := R42 b2 c2 d2 e2 a2 w15 6 in
  let '(a1, c1) := R41 a1 b1 c1 d1 e1 w4 8 in
  let '(a2, c2) := R42 a2 b2 c2 d2 e2 w0 14 in
  let '(e1, b1) := R41 e1 a1 b1 c1 d1 w13 9 in
  let '(e2, b2) := R42 e2 a2 b2 c2 d2 w5 6 in
  let '(d1, a1) := R41 d1 e1 a1 b1 c1 w3 14 in
  let '(d2, a2) := R42 d2 e2 a2 b2 c2 w12 9 in
  let '(c1, e1) := R41 c1 d1 e1 a1 b1 w7 5 in
  let '(c2, e2) := R42 c2 d2 e2 a2 b2 w2 12 in
  let '(b1, d1) := R41 b1 c1 d1 e1 a1 w15 6 in
  let '(b2, d2) := R42 b2 c2 d2 e2 a2 w13 9 in
  let '(a1, c1) := R41 a1 b1 c1 d1 e1 w14 8 in
  let '(a2, c2) := R42 a2 b2 c2 d2 e2 w9 12 in
  let '(e1, b1) := R41 e1 a1 b1 c1 d1 w5 6 in
  let '(e2, b2) := R42 e2 a2 b2 c2 d2 w7 5 in
  let '(d1, a1) := R41 d1 e1 a1 b1 c1 w6 5 in
  let '(d2, a2) := R42 d2 e2 a2 b2 c2 w10 15 in
  let '(c1, e1) := R41 c1 d1 e1 a1 b1 w2 12 in
  let '(c2, e2) := R42 c2 d2 e2 a2 b2 w14 8 in
  ((a1, b1, c1, d1, e1), (a2, b2, c2, d2, e2)).

Definition group_5 (r : regs * regs) (w : words) : regs * regs :=
  let '((a1, b1, c1, d1, e1), (a2, b2, c2, d2, e2)) := r in
  let '(w0, w1, w2, w3, w4, w5, w6, w7, w8, w9, w10, w11, w12, w13, w14, w15) := w in
  let '(b1, d1) := R51 b1 c1 d1 e1 a1 w4 9 in
  let '(b2, d2) := R52 b2 c2 d2 e2 a2 w12 8 in
  let '(a1, c1) := R51 a1 b1 c1 d1 e1 w0 15 in
  let '(a2, c2) := R52 a2 b2 c2 d2 e2 w15 5 in
  let '(e1, b1) := R51 e1 a1 b1 c1 d1 w5 5 in
  let '(e2, b2) := R52 e2 a2 b2 c2 d2 w10 12 in
  let '(d1, a1) := R51 d1 e1 a1 b1 c1 w9 11 in
  let '(d2, a2) := R52 d2 e2 a2 b2 c2 w4 9 in
  let '(c1, e1) := R51 c1 d1 e1 a1 b1 w7 6 in
  let '(c2, e2) := R52 c2 d2 e2 a2 b2 w1 12 in
  let '(b1, d1) := R51 b1 c1 d1 e1 a1 w12 8 in
  let '(b2, d2) := R52 b2 c2 d2 e2 a2 w5 5 in
  let '(a1, c1) := R51 a1 b1 c1 d1 e1 w2 13 in
  let '(a2, c2) := R52 a2 b2 c2 d2 e2 w8 14 in
  let '(e1, b1) := R51 e1 a1 b1 c1 d1 w10 12 in
  let '(e2, b2) := R52 e2 a2 b2 c2 d2 w7 6 in
  let '(d1, a1) := R51 d1 e1 a1 b1 c1 w14 5 in
  let '(d2, a2) := R52 d2 e2 a2 b2 c2 w6 8 in
  let '(c1, e1) := R51 c1 d1 e1 a1 b1 w1 12 in
  let '(c2, e2) := R52 c2 d2 e2 a2 b2 w2 13 in
  let '(b1, d1) := R51 b1 c1 d1 e1 a1 w3 13 in
  let '(b2, d2) := R52 b2 c2 d2 e2 a2 w13 6 in
  let '(a1, c1) := R51 a1 b1 c1 d1 e1 w8 14 in
  let '(a2, c2) := R52 a2 b2 c2 d2 e2 w14 5 in
  let '(e1, b1) := R51 e1 a1 b1 c1 d1 w11 11 in
  let '(e2, b2) := R52 e2 a2 b2 c2 d2 w0 15 in
  let '(d1, a1) := R51 d1 e1 a1 b1 c1 w6 8 in
  let '(d2, a2) := R52 d2 e2 a2 b2 c2 w3 13 in
  let '(c1, e1) := R51 c1 d1 e1 a1 b1 w15 5 in
  let '(c2, e2) := R52 c2 d2 e2 a2 b2 w9 11 in
  let '(b1, d1) := R51 b1 c1 d1 e1 a1 w13 6 in
  let '(b2, d2) := R52 b2 c2 d2 e2 a2 w11 11 in
  ((a1, b1, c1, d1, e1), (a2, b2, c2, d2, e2)).

Definition load (chunk : list Z) : words :=
  (ReadLE32 (drop 0 chunk), ReadLE32 (drop 4 chunk), ReadLE32 (drop 8 chunk), ReadLE32 (drop 12 chunk),
   ReadLE32 (drop 16 chunk), ReadLE32 (drop 20 chunk), ReadLE32 (drop 24 chunk), ReadLE32 (drop 28 chunk),
   ReadLE32 (drop 32 chunk), ReadLE32 (drop 36 chunk), ReadLE32 (drop 40 chunk), ReadLE32 (drop 44 chunk),
   ReadLE32 (drop 48 chunk), ReadLE32 (drop 52 chunk), ReadLE32 (drop 56 chunk), ReadLE32 (drop 60 chunk)).

Definition Transform (s : regs) (chunk : list Z) : regs :=
  let w := load chunk in
  let r := group_5 (group_4 (group_3 (group_2 (group_1 (s, s) w) w) w) w) w in
  let '((a1, b1, c1, d1, e1), (a2, b2, c2, d2, e2)) := r in
  let '(s0, s1, s2, s3, s4) := s in
  (u32 (s1 + c1 + d2), u32 (s2 + d1 + e2), u32 (s3 + e1 + a2), u32 (s4 + a1 + b2), u32 (s0 + b1 + c2)).

Notation CRIPEMD160 := (hasher regs).

Definition new_CRIPEMD160 : CRIPEMD160 := Hasher Initialize (replicate 64 0) 0.

Definition Write (h : CRIPEMD160) (data : list Z) : CRIPEMD160 :=
  Hasher.Write 64 Transform (consume_loop 64 Transform) h data.

Definition Finalize (h : CRIPEMD160) : list Z * CRIPEMD160 :=
  let h := finish 64 Transform (consume_loop 64 Transform) 8 WriteLE64 h in
  let '(s0, s1, s2, s3, s4) := h_s h in
  (WriteLE32 s0 ++ WriteLE32 s1 ++ WriteLE32 s2 ++ WriteLE32 s3 ++ WriteLE32 s4, h).

Definition Reset (h : CRIPEMD160) : CRIPEMD160 := Hasher Initialize (h_buf h) 0.

End ripemd160.

(** ** The published algorithm *)

(** Message words and rotations of the two lines. *)

Definition rmd_r : list nat :=
  [0; 1; 2; 3; 4; 5; 6; 7; 8; 9; 10; 11; 12; 13; 14; 15;
   7; 4; 13; 1; 10; 6; 15; 3; 12; 0; 9; 5; 2; 14; 11; 8;
   3; 10; 14; 4; 9; 15; 8; 1; 2; 7; 0; 6; 13; 11; 5; 12;
   1; 9; 11; 10; 0; 8; 12; 4; 13; 3; 7; 15; 14; 5; 6; 2;
   4; 0; 5; 9; 7; 12; 2; 10; 14; 1; 3; 8; 11; 6; 15; 13]%nat.

Definition rmd_r' : list nat :=
  [5; 14; 7; 0; 9; 2; 11; 4; 13; 6; 15; 8; 1; 10; 3; 12;
   6; 11; 3; 7; 0; 13; 5; 10; 14; 15; 8; 12; 4; 9; 1; 2;
   15; 5; 1; 3; 7; 14; 6; 9; 11; 8; 12; 2; 10; 0; 4; 13;
   8; 6; 4; 1; 3; 11; 15; 0; 5; 12; 2; 13; 9; 7; 10; 14;
   12; 15; 10; 4; 1; 5; 8; 7; 6; 2; 13; 14; 0; 3; 9; 11]%nat.

Definition rmd_s : list Z :=
  [11; 14; 15; 12; 5; 8; 7; 9; 11; 13; 14; 15; 6; 7; 9; 8;
   7; 6; 8; 13; 11; 9; 7; 15; 7; 12; 15; 9; 11; 7; 13; 12;
   11; 13; 6; 7; 14; 9; 13; 15; 14; 8; 13; 6; 5; 12; 7; 5;
   11; 12; 14; 15; 14; 15; 9; 8; 9; 14; 5; 6; 8; 6; 5; 12;
   9; 15; 5; 11; 6; 8; 13; 12; 5; 12; 13; 14; 11; 8; 5; 6].

Definition rmd_s' : list Z :=
  [8; 9; 9; 11; 13; 15; 15; 5; 7; 7; 8; 11; 14; 14; 12; 6;
   9; 13; 15; 7; 12; 8; 9; 11; 7; 7; 12; 7; 6; 15; 13; 11;
   9; 7; 15; 11; 8; 6; 6; 14; 12; 13; 5; 14; 13; 13; 7; 5;
   15; 5; 8; 11; 14; 14; 6; 14; 6; 9; 12; 9; 12; 5; 15; 8;
   8; 5; 12; 9; 12; 5; 14; 6; 8; 13; 6; 5; 15; 13; 11; 11].

(** Added constants: [2^30] times the square (cube) roots of the first primes. *)

Definition rmd_K : list Z := 0 :: map (fun p => Z.sqrt (p * 2 ^ 60)) [2; 3; 5; 7].

Definition rmd_K' : list Z := [0x50A28BE6; 0x5C4DD124; 0x6D703EF3; 0x7A6D76E9; 0].

Definition cube_root_ok (p k : Z) : bool := (k ^ 3 <=? p * 2 ^ 90) && (p * 2 ^ 90 <? (k + 1) ^ 3).

Definition rmd_f : list (Z -> Z -> Z -> Z) := [ripemd160.f1; ripemd160.f2; ripemd160.f3; ripemd160.f4; ripemd160.f5].

Record rmd_op := RmdOp { op_f : Z -> Z -> Z -> Z; op_k : Z; op_x : Z; op_s : Z }.

Definition rmd_step (r : regs) (o : rmd_op) : regs :=
  let '(A, B, C, D, E) := r in
  let T := u32 (ripemd160.rol (u32 (A + op_f o B C D + op_x o + op_k o)) (op_s o) + E) in
  (E, T, B, ripemd160.rol C 10, D).

Fixpoint rmd_rounds (l : list rmd_op) (r : regs) : regs :=
  match l with
  | [] => r
  | o :: l => rmd_rounds l (rmd_step r o)
  end.

(** Sixteen steps of a line: [j] counts the groups. *)

Definition rmd_group (f : Z -> Z -> Z -> Z) (k : Z) (r : list nat) (s : list Z) (X : list Z) (j : nat) : list rmd_op :=
  zip_with (fun i s => RmdOp f k (nth i X 0) s) (take 16 (drop (16 * j) r)) (take 16 (drop (16 * j) s)).

Definition rmd_line (fs : list (Z -> Z -> Z -> Z)) (ks : list Z) (r : list nat) (s X : list Z) : list rmd_op :=
  concat (map (fun j => rmd_group (nth j fs ripemd160.f1) (nth j ks 0) r s X j) (seq 0 5)).

Definition rmd_compress (H : regs) (chunk : list Z) : regs :=
  let X := map (fun i => le_val (take 4 (drop (4 * i) chunk))) (seq 0 16) in
  let '(A, B, C, D, E) := rmd_rounds (rmd_line rmd_f rmd_K rmd_r rmd_s X) H in
  let '(A', B', C', D', E') := rmd_rounds (rmd_line (rev rmd_f) rmd_K' rmd_r' rmd_s' X) H in
  let '(h0, h1, h2, h3, h4) := H in
  (u32 (h1 + C + D'), u32 (h2 + D + E'), u32 (h3 + E + A'), u32 (h4 + A + B'), u32 (h0 + B + C')).

Definition rmd160 (m : list Z) : list Z :=
  let p := padded 64 8 (le_bytes 8) m in
  let '(h0, h1, h2, h3, h4) := Transform_blocks 64 rmd_compress ripemd160.Initialize p (length p / 64) in
  concat (map (le_bytes 4) [h0; h1; h2; h3; h4]).

(** ** The unrolled code computes the published rounds *)

(** The registers of the code are those of the algorithm, rotated once per round. *)

Definition rot (r : regs) : regs := let '(a, b, c, d, e) := r in (e, a, b, c, d).

Definition rot2 (n : nat) (r : regs * regs) : regs * regs := (Nat.iter n rot r.1, Nat.iter n rot r.2).

Definition words_list (ws : words) : list Z :=
  let '(w0, w1, w2, w3, w4, w5, w6, w7, w8, w9, w10, w11, w12, w13, w14, w15) := ws in
  [w0; w1; w2; w3; w4; w5; w6; w7; w8; w9; w10; w11; w12; w13; w14; w15].

Lemma Round_step160 f k x s l a b c d e :
  rmd_rounds (RmdOp f k x s :: l) (a, b, c, d, e) =
  let '(a', c') := ripemd160.Round a b c d e (f b c d) x k s in rmd_rounds l (e, a', b, c', d).
Proof. reflexivity. Qed.

Definition both (j : nat) (X : list Z) (r : regs * regs) : regs * regs :=
  (rmd_rounds (rmd_group (nth j rmd_f ripemd160.f1) (nth j rmd_K 0) rmd_r rmd_s X j) r.1,
   rmd_rounds (rmd_group (nth j (rev rmd_f) ripemd160.f1) (nth j rmd_K' 0) rmd_r' rmd_s' X j) r.2).

Ltac start_group r w :=
  destruct r as [[[[[? ?] ?] ?] ?] [[[[? ?] ?] ?] ?]], w as [[[[[[[[[[[[[[[? ?] ?] ?] ?] ?] ?] ?] ?] ?] ?] ?] ?] ?] ?] ?];
  unfold both, rmd_group;
  repeat match goal with |- context [take 16 (drop ?n ?l)] =>
    let v := eval vm_compute in (take 16 (drop n l)) in change (take 16 (drop n l)) with v end;
  repeat match goal with |- context [nth ?j rmd_K 0] =>
    let v := eval vm_compute in (nth j rmd_K 0) in replace (nth j rmd_K 0) with v by (vm_compute; reflexivity) end;
  cbn [nth rmd_f rev app rmd_K' words_list zip_with fst snd Nat.iter nat_rect rot].

Ltac unrolled := repeat first [rewrite Round_step160 | destruct (ripemd160.Round _ _ _ _ _ _ _ _ _)]; reflexivity.

Lemma group_1_spec r w : rot2 1 (ripemd160.group_1 r w) = both 0 (words_list w) r.
Proof. start_group r w. unfold ripemd160.group_1, ripemd160.R11, ripemd160.R12. unrolled. Qed.

Lemma group_2_spec r w : rot2 2 (ripemd160.group_2 r w) = both 1 (words_list w) (Nat.iter 1 rot r.1, Nat.iter 1 rot r.2).
Proof. start_group r w. unfold ripemd160.group_2, ripemd160.R21, ripemd160.R22. unrolled. Qed.

Lemma group_3_spec r w : rot2 3 (ripemd160.group_3 r w) = both 2 (words_list w) (Nat.iter 2 rot r.1, Nat.iter 2 rot r.2).
Proof. start_group r w. unfold ripemd160.group_3, ripemd160.R31, ripemd160.R32. unrolled. Qed.

Lemma group_4_spec r w : rot2 4 (ripemd160.group_4 r w) = both 3 (words_list w) (Nat.iter 3 rot r.1, Nat.iter 3 rot r.2).
Proof. start_group r w. unfold ripemd160.group_4, ripemd160.R41, ripemd160.R42. unrolled. Qed.

Lemma group_5_spec r w : rot2 5 (ripemd160.group_5 r w) = both 4 (words_list w) (Nat.iter 4 rot r.1, Nat.iter 4 rot r.2).
Proof. start_group r w. unfold ripemd160.group_5, ripemd160.R51, ripemd160.R52. unrolled. Qed.

Lemma rmd_rounds_app l1 l2 r : rmd_rounds (l1 ++ l2) r = rmd_rounds l2 (rmd_rounds l1 r).
Proof. revert r. induction l1 as [|o l1 IH]; intros r; [done | apply IH]. Qed.

Lemma rot2_5 r : rot2 5 r = r.
Proof. by destruct r as [[[[[? ?] ?] ?] ?] [[[[? ?] ?] ?] ?]]. Qed.

Lemma groups_spec s w :
  ripemd160.group_5 (ripemd160.group_4 (ripemd160.group_3 (ripemd160.group_2 (ripemd160.group_1 (s, s) w) w) w) w) w =
  (rmd_rounds (rmd_line rmd_f rmd_K rmd_r rmd_s (words_list w)) s,
   rmd_rounds (rmd_line (rev rmd_f) rmd_K' rmd_r' rmd_s' (words_list w)) s).
Proof.
  rewrite <- (rot2_5 (ripemd160.group_5 _ w)), group_5_spec. fold (rot2 4 (ripemd160.group_4 (ripemd160.group_3
    (ripemd160.group_2 (ripemd160.group_1 (s, s) w) w) w) w)).
  rewrite group_4_spec. fold (rot2 3 (ripemd160.group_3 (ripemd160.group_2 (ripemd160.group_1 (s, s) w) w) w)).
  rewrite group_3_spec. fold (rot2 2 (ripemd160.group_2 (ripemd160.group_1 (s, s) w) w)).
  rewrite group_2_spec. fold (rot2 1 (ripemd160.group_1 (s, s) w)). rewrite group_1_spec.
  unfold rmd_line. cbn [seq map concat]. rewrite !rmd_rounds_app. reflexivity.
Qed.

#[local] Opaque rmd_rounds rmd_line.

Lemma Transform_rmd s chunk : ripemd160.Transform s chunk = rmd_compress s chunk.
Proof.
  unfold ripemd160.Transform. rewrite groups_spec. unfold rmd_compress.
  change (words_list (ripemd160.load chunk)) with (map (fun i => le_val (take 4 (drop (4 * i) chunk))) (seq 0 16)).
  destruct (rmd_rounds _ s) as [[[[? ?] ?] ?] ?], (rmd_rounds _ s) as [[[[? ?] ?] ?] ?]. reflexivity.
Qed.

(** ** The class *)

Notation ok160 := (hasher_ok 64 ripemd160.Transform ripemd160.Initialize).

Lemma Writes160_ok pieces m h : ok160 m h -> Z.of_nat (length (m ++ concat pieces)) < 2 ^ 64 ->
  ok160 (m ++ concat pieces) (foldl ripemd160.Write h pieces).
Proof. apply Writes_ok; [lia | apply consume_loop_law; lia]. Qed.

Lemma finish160_ok m h : ok160 m h -> Z.of_nat (length m) < 2 ^ 61 ->
  ok160 (padded 64 8 WriteLE64 m) (finish 64 ripemd160.Transform (consume_loop 64 ripemd160.Transform) 8 WriteLE64 h).
Proof.
  intros Hok Hm. apply finish_ok; [lia | by apply consume_loop_law; lia | lia | | done | done | lia].
  intros. apply length_le_bytes.
Qed.

Lemma Finalize160_spec m h : ok160 m h -> Z.of_nat (length m) < 2 ^ 61 ->
  (ripemd160.Finalize h).1 = rmd160 m /\ ok160 [] (ripemd160.Reset (ripemd160.Finalize h).2).
Proof.
  intros Hok Hm. unfold ripemd160.Finalize, rmd160.
  destruct (finish160_ok m h Hok Hm) as (_ & Hb & Hs & _). set (f := finish _ _ _ _ _ h) in *.
  change (le_bytes 8) with WriteLE64.
  rewrite <- (Transform_blocks_ext 64 ripemd160.Transform rmd_compress), <- Hs by apply Transform_rmd.
  destruct (h_s f) as [[[[? ?] ?] ?] ?]. cbn [fst snd]. split; [|by apply fresh_ok].
  cbn [map concat]. by rewrite app_nil_r.
Qed.

Lemma new160_ok : ok160 [] ripemd160.new_CRIPEMD160.
Proof. by apply fresh_ok. Qed.

Lemma length_rmd160 m : length (rmd160 m) = 20%nat.
Proof.
  unfold rmd160. destruct (Transform_blocks _ _ _ _ _) as [[[[? ?] ?] ?] ?].
  cbn [map concat]. by rewrite !length_app, !length_le_bytes.
Qed.

Lemma rmd160_bytes m : bytes (rmd160 m).
Proof.
  unfold rmd160. destruct (Transform_blocks _ _ _ _ _) as [[[[? ?] ?] ?] ?]. cbn [map concat]. auto 10 with bytes.
Qed.

(** [CRIPEMD160] computes RIPEMD-160: whatever pieces a message is written in, [Finalize] gives
    the published hash of their concatenation, also when the hasher was used before and [Reset]; the
    constants of the second line are the scaled cube roots of the first primes. *)
Theorem ripemd160_correct old pieces :
  Z.of_nat (length (concat old)) < 2 ^ 61 -> Z.of_nat (length (concat pieces)) < 2 ^ 61 ->
  let used := (ripemd160.Finalize (foldl ripemd160.Write ripemd160.new_CRIPEMD160 old)).2 in
  (ripemd160.Finalize (foldl ripemd160.Write ripemd160.new_CRIPEMD160 pieces)).1 = rmd160 (concat pieces) /\
  (ripemd160.Finalize (foldl ripemd160.Write (ripemd160.Reset used) pieces)).1 = rmd160 (concat pieces) /\
  forallb (fun '(p, k) => cube_root_ok p k) (zip [2; 3; 5; 7] rmd_K') = true.
Proof.
  intros Ho Hp used. assert (forall h, ok160 [] h ->
    (ripemd160.Finalize (foldl ripemd160.Write h pieces)).1 = rmd160 (concat pieces)) as H.
  { intros h Hh. apply (Finalize160_spec _ _ (Writes160_ok pieces [] h Hh ltac:(cbn; lia))). done. }
  split_and!; [apply H, new160_ok | | vm_compute; reflexivity].
  apply H. by apply (Finalize160_spec _ _ (Writes160_ok old [] _ new160_ok ltac:(cbn; lia))).
Qed.

Lemma ripemd160_correct_witness :
  (ripemd160.Finalize (foldl ripemd160.Write ripemd160.new_CRIPEMD160 [[97; 98]; []; [99]])).1 = rmd160 [97; 98; 99].
Proof. apply (ripemd160_correct [] [[97; 98]; []; [99]]); reflexivity. Defined.
