(* ===== verification/Sha1.v ===== *)
(** * SHA-1

    [src/crypto/sha1.cpp]: the compression function, unrolled with renamed registers and a schedule of
    sixteen words as in the source, and the class [CSHA1] as a buffered hasher.  The reference is the
    standard (FIPS 180-4). *)

From S2P Require Import Prelude Common Hasher.

Notation regs := (Z * Z * Z * Z * Z)%type.

Notation words := (Z * Z * Z * Z * Z * Z * Z * Z * Z * Z * Z * Z * Z * Z * Z * Z)%type.

Module sha1.

(** One round: the new [b] and [e]. *)

Definition Round (a b c d e f k w : Z) : Z * Z :=
  (Z.lor (u32 (Z.shiftl b 30)) (Z.shiftr b 2),
   u32 (e + (Z.lor (u32 (Z.shiftl a 5)) (Z.shiftr a 27) + f + k + w))).

Definition f1 (b c d : Z) : Z := Z.lxor d (Z.land b (Z.lxor c d)).

Definition f2 (b c d : Z) : Z := Z.lxor (Z.lxor b c) d.

Definition f3 (b c d : Z) : Z := Z.lor (Z.land b c) (Z.land d (Z.lor b c)).

Definition left (x : Z) : Z := Z.lor (u32 (Z.shiftl x 1)) (Z.shiftr x 31).

Definition Initialize : regs := (0x67452301, 0xEFCDAB89, 0x98BADCFE, 0x10325476, 0xC3D2E1F0).

Definition k1 : Z := 0x5A827999.

Definition k2 : Z := 0x6ED9EBA1.

Definition k3 : Z := 0x8F1BBCDC.

Definition k4 : Z := 0xCA62C1D6.

Definition xor4 (a b c d : Z) : Z := Z.lxor (Z.lxor (Z.lxor a b) c) d.

(** The unrolled rounds of [Transform], sixteen at a time. *)

Definition rounds_0 (r : regs) (chunk : list Z) : regs * words :=
  let '(a, b, c, d, e) := r in
  let w0 := ReadBE32 (drop 0 chunk) in
  let '(b, e) := Round a b c d e (f1 b c d) k1 w0 in
  let w1 := ReadBE32 (drop 4 chunk) in
  let '(a, d) := Round e a b c d (f1 a b c) k1 w1 in
  let w2 := ReadBE32 (drop 8 chunk) in
  let '(e, c) := Round d e a b c (f1 e a b) k1 w2 in
  let w3 := ReadBE32 (drop 12 chunk) in
  let '(d, b) := Round c d e a b (f1 d e a) k1 w3 in
  let w4 := ReadBE32 (drop 16 chunk) in
  let '(c, a) := Round b c d e a (f1 c d e) k1 w4 in
  let w5 := ReadBE32 (drop 20 chunk) in
  let '(b, e) := Round a b c d e (f1 b c d) k1 w5 in
  let w6 := ReadBE32 (drop 24 chunk) in
  let '(a, d) := Round e a b c d (f1 a b c) k1 w6 in
  let w7 := ReadBE32 (drop 28 chunk) in
  let '(e, c) := Round d e a b c (f1 e a b) k1 w7 in
  let w8 := ReadBE32 (drop 32 chunk) in
  let '(d, b) := Round c d e a b (f1 d e a) k1 w8 in
  let w9 := ReadBE32 (drop 36 chunk) in
  let '(c, a) := Round b c d e a (f1 c d e) k1 w9 in
  let w10 := ReadBE32 (drop 40 chunk) in
  let '(b, e) := Round a b c d e (f1 b c d) k1 w10 in
  let w11 := ReadBE32 (drop 44 chunk) in
  let '(a, d) := Round e a b c d (f1 a b c) k1 w11 in
  let w12 := ReadBE32 (drop 48 chunk) in
  let '(e, c) := Round d e a b c (f1 e a b) k1 w12 in
  let w13 := ReadBE32 (drop 52 chunk) in
  let '(d, b) := Round c d e a b (f1 d e a) k1 w13 in
  let w14 := ReadBE32 (drop 56 chunk) in
  let '(c, a) := Round b c d e a (f1 c d e) k1 w14 in
  let w15 := ReadBE32 (drop 60 chunk) in
  let '(b, e) := Round a b c d e (f1 b c d) k1 w15 in
  ((a, b, c, d, e), (w0, w1, w2, w3, w4, w5, w6, w7, w8, w9, w10, w11, w12, w13, w14, w15)).

Definition rounds_16 (r : regs) (w : words) : regs * words :=
  let '(a, b, c, d, e) := r in
  let '(w0, w1, w2, w3, w4, w5, w6, w7, w8, w9, w10, w11, w12, w13, w14, w15) := w in
  let w0 := left (xor4 w0 w13 w8 w2) in
  let '(a, d) := Round e a b c d (f1 a b c) k1 w0 in
  let w1 := left (xor4 w1 w14 w9 w3) in
  let '(e, c) := Round d e a b c (f1 e a b) k1 w1 in
  let w2 := left (xor4 w2 w15 w10 w4) in
  let '(d, b) := Round c d e a b (f1 d e a) k1 w2 in
  let w3 := left (xor4 w3 w0 w11 w5) in
  let '(c, a) := Round b c d e a (f1 c d e) k1 w3 in
  let w4 := left (xor4 w4 w1 w12 w6) in
  let '(b, e) := Round a b c d e (f2 b c d) k2 w4 in
  let w5 := left (xor4 w5 w2 w13 w7) in
  let '(a, d) := Round e a b c d (f2 a b c) k2 w5 in
  let w6 := left (xor4 w6 w3 w14 w8) in
  let '(e, c) := Round d e a b c (f2 e a b) k2 w6 in
  let w7 := left (xor4 w7 w4 w15 w9) in
  let '(d, b) := Round c d e a b (f2 d e a) k2 w7 in
  let w8 := left (xor4 w8 w5 w0 w10) in
  let '(c, a) := Round b c d e a (f2 c d e) k2 w8 in
  let w9 := left (xor4 w9 w6 w1 w11) in
  let '(b, e) := Round a b c d e (f2 b c d) k2 w9 in
  let w10 := left (xor4 w10 w7 w2 w12) in
  let '(a, d) := Round e a b c d (f2 a b c) k2 w10 in
  let w11 := left (xor4 w11 w8 w3 w13) in
  let '(e, c) := Round d e a b c (f2 e a b) k2 w11 in
  let w12 := left (xor4 w12 w9 w4 w14) in
  let '(d, b) := Round c d e a b (f2 d e a) k2 w12 in
  let w13 := left (xor4 w13 w10 w5 w15) in
  let '(c, a) := Round b c d e a (f2 c d e) k2 w13 in
  let w14 := left (xor4 w14 w11 w6 w0) in
  let '(b, e) := Round a b c d e (f2 b c d) k2 w14 in
  let w15 := left (xor4 w15 w12 w7 w1) in
  let '(a, d) := Round e a b c d (f2 a b c) k2 w15 in
  ((a, b, c, d, e), (w0, w1, w2, w3, w4, w5, w6, w7, w8, w9, w10, w11, w12, w13, w14, w15)).

Definition rounds_32 (r : regs) (w : words) : regs * words :=
  let '(a, b, c, d, e) := r in
  let '(w0, w1, w2, w3, w4, w5, w6, w7, w8, w9, w10, w11, w12, w13, w14, w15) := w in
  let w0 := left (xor4 w0 w13 w8 w2) in
  let '(e, c) := Round d e a b c (f2 e a b) k2 w0 in
  let w1 := left (xor4 w1 w14 w9 w3) in
  let '(d, b) := Round c d e a b (f2 d e a) k2 w1 in
  let w2 := left (xor4 w2 w15 w10 w4) in
  let '(c, a) := Round b c d e a (f2 c d e) k2 w2 in
  let w3 := left (xor4 w3 w0 w11 w5) in
  let '(b, e) := Round a b c d e (f2 b c d) k2 w3 in
  let w4 := left (xor4 w4 w1 w12 w6) in
  let '(a, d) := Round e a b c d (f2 a b c) k2 w4 in
  let w5 := left (xor4 w5 w2 w13 w7) in
  let '(e, c) := Round d e a b c (f2 e a b) k2 w5 in
  let w6 := left (xor4 w6 w3 w14 w8) in
  let '(d, b) := Round c d e a b (f2 d e a) k2 w6 in
  let w7 := left (xor4 w7 w4 w15 w9) in
  let '(c, a) := Round b c d e a (f2 c d e) k2 w7 in
  let w8 := left (xor4 w8 w5 w0 w10) in
  let '(b, e) := Round a b c d e (f3 b c d) k3 w8 in
  let w9 := left (xor4 w9 w6 w1 w11) in
  let '(a, d) := Round e a b c d (f3 a b c) k3 w9 in
  let w10 := left (xor4 w10 w7 w2 w12) in
  let '(e, c) := Round d e a b c (f3 e a b) k3 w10 in
  let w11 := left (xor4 w11 w8 w3 w13) in
  let '(d, b) := Round c d e a b (f3 d e a) k3 w11 in
  let w12 := left (xor4 w12 w9 w4 w14) in
  let '(c, a) := Round b c d e a (f3 c d e) k3 w12 in
  let w13 := left (xor4 w13 w10 w5 w15) in
  let '(b, e) := Round a b c d e (f3 b c d) k3 w13 in
  let w14 := left (xor4 w14 w11 w6 w0) in
  let '(a, d) := Round e a b c d (f3 a b c) k3 w14 in
  let w15 := left (xor4 w15 w12 w7 w1) in
  let '(e, c) := Round d e a b c (f3 e a b) k3 w15 in
  ((a, b, c, d, e), (w0, w1, w2, w3, w4, w5, w6, w7, w8, w9, w10, w11, w12, w13, w14, w15)).

Definition rounds_48 (r : regs) (w : words) : regs * words :=
  let '(a, b, c, d, e) := r in
  let '(w0, w1, w2, w3, w4, w5, w6, w7, w8, w9, w10, w11, w12, w13, w14, w15) := w in
  let w0 := left (xor4 w0 w13 w8 w2) in
  let '(d, b) := Round c d e a b (f3 d e a) k3 w0 in
  let w1 := left (xor4 w1 w14 w9 w3) in
  let '(c, a) := Round b c d e a (f3 c d e) k3 w1 in
  let w2 := left (xor4 w2 w15 w10 w4) in
  let '(b, e) := Round a b c d e (f3 b c d) k3 w2 in
  let w3 := left (xor4 w3 w0 w11 w5) in
  let '(a, d) := Round e a b c d (f3 a b c) k3 w3 in
  let w4 := left (xor4 w4 w1 w12 w6) in
  let '(e, c) := Round d e a b c (f3 e a b) k3 w4 in
  let w5 := left (xor4 w5 w2 w13 w7) in
  let '(d, b) := Round c d e a b (f3 d e a) k3 w5 in
  let w6 := left (xor4 w6 w3 w14 w8) in
  let '(c, a) := Round b c d e a (f3 c d e) k3 w6 in
  let w7 := left (xor4 w7 w4 w15 w9) in
  let '(b, e) := Round a b c d e (f3 b c d) k3 w7 in
  let w8 := left (xor4 w8 w5 w0 w10) in
  let '(a, d) := Round e a b c d (f3 a b c) k3 w8 in
  let w9 := left (xor4 w9 w6 w1 w11) in
  let '(e, c) := Round d e a b c (f3 e a b) k3 w9 in
  let w10 := left (xor4 w10 w7 w2 w12) in
  let '(d, b) := Round c d e a b (f3 d e a) k3 w10 in
  let w11 := left (xor4 w11 w8 w3 w13) in
  let '(c, a) := Round b c d e a (f3 c d e) k3 w11 in
  let w12 := left (xor4 w12 w9 w4 w14) in
  let '(b, e) := Round a b c d e (f2 b c d) k4 w12 in
  let w13 := left (xor4 w13 w10 w5 w15) in
  let '(a, d) := Round e a b c d (f2 a b c) k4 w13 in
  let w14 := left (xor4 w14 w11 w6 w0) in
  let '(e, c) := Round d e a b c (f2 e a b) k4 w14 in
  let w15 := left (xor4 w15 w12 w7 w1) in
  let '(d, b) := Round c d e a b (f2 d e a) k4 w15 in
  ((a, b, c, d, e), (w0, w1, w2, w3, w4, w5, w6, w7, w8, w9, w10, w11, w12, w13, w14, w15)).

Definition rounds_64 (r : regs) (w : words) : regs :=
  let '(a, b, c, d, e) := r in
  let '(w0, w1, w2, w3, w4, w5, w6, w7, w8, w9, w10, w11, w12, w13, w14, w15) := w in
  let w0 := left (xor4 w0 w13 w8 w2) in
  let '(c, a) := Round b c d e a (f2 c d e) k4 w0 in
  let w1 := left (xor4 w1 w14 w9 w3) in
  let '(b, e) := Round a b c d e (f2 b c d) k4 w1 in
  let w2 := left (xor4 w2 w15 w10 w4) in
  let '(a, d) := Round e a b c d (f2 a b c) k4 w2 in
  let w3 := left (xor4 w3 w0 w11 w5) in
  let '(e, c) := Round d e a b c (f2 e a b) k4 w3 in
  let w4 := left (xor4 w4 w1 w12 w6) in
  let '(d, b) := Round c d e a b (f2 d e a) k4 w4 in
  let w5 := left (xor4 w5 w2 w13 w7) in
  let '(c, a) := Round b c d e a (f2 c d e) k4 w5 in
  let w6 := left (xor4 w6 w3 w14 w8) in
  let '(b, e) := Round a b c d e (f2 b c d) k4 w6 in
  let w7 := left (xor4 w7 w4 w15 w9) in
  let '(a, d) := Round e a b c d (f2 a b c) k4 w7 in
  let w8 := left (xor4 w8 w5 w0 w10) in
  let '(e, c) := Round d e a b c (f2 e a b) k4 w8 in
  let w9 := left (xor4 w9 w6 w1 w11) in
  let '(d, b) := Round c d e a b (f2 d e a) k4 w9 in
  let w10 := left (xor4 w10 w7 w2 w12) in
  let '(c, a) := Round b c d e a (f2 c d e) k4 w10 in
  let w11 := left (xor4 w11 w8 w3 w13) in
  let '(b, e) := Round a b c d e (f2 b c d) k4 w11 in
  let w12 := left (xor4 w12 w9 w4 w14) in
  let '(a, d) := Round e a b c d (f2 a b c) k4 w12 in
  let '(e, c) := Round d e a b c (f2 e a b) k4 (left (xor4 w13 w10 w5 w15)) in
  let '(d, b) := Round c d e a b (f2 d e a) k4 (left (xor4 w14 w11 w6 w0)) in
  let '(c, a) := Round b c d e a (f2 c d e) k4 (left (xor4 w15 w12 w7 w1)) in
  (a, b, c, d, e).

Definition Transform (s : regs) (chunk : list Z) : regs :=
  let '(r, w) := rounds_0 s chunk in
  let '(r, w) := rounds_16 r w in
  let '(r, w) := rounds_32 r w in
  let '(r, w) := rounds_48 r w in
  let '(a, b, c, d, e) := rounds_64 r w in
  let '(s0, s1, s2, s3, s4) := s in
  (u32 (s0 + a), u32 (s1 + b), u32 (s2 + c), u32 (s3 + d), u32 (s4 + e)).

Notation CSHA1 := (hasher regs).

Definition new_CSHA1 : CSHA1 := Hasher Initialize (replicate 64 0) 0.

Definition Write (h : CSHA1) (data : list Z) : CSHA1 :=
  Hasher.Write 64 Transform (consume_loop 64 Transform) h data.

Definition Finalize (h : CSHA1) : list Z * CSHA1 :=
  let h := finish 64 Transform (consume_loop 64 Transform) 8 WriteBE64 h in
  let '(s0, s1, s2, s3, s4) := h_s h in
  (WriteBE32 s0 ++ WriteBE32 s1 ++ WriteBE32 s2 ++ WriteBE32 s3 ++ WriteBE32 s4, h).

Definition Reset (h : CSHA1) : CSHA1 := Hasher Initialize (h_buf h) 0.

End sha1.

(** ** The standard *)

Definition ROTL (n x : Z) : Z := Z.lor (u32 (Z.shiftl x n)) (Z.shiftr x (32 - n)).

Definition fips_f (t : nat) (x y z : Z) : Z :=
  if (t <? 20)%nat then Z.lxor (Z.land x y) (Z.land (Z.lnot x) z)
  else if (t <? 40)%nat then Z.lxor (Z.lxor x y) z
  else if (t <? 60)%nat then Z.lxor (Z.lxor (Z.land x y) (Z.land x z)) (Z.land y z)
  else Z.lxor (Z.lxor x y) z.

(** [2^30] times the square roots of 2, 3, 5 and 10. *)

Definition fips_K (t : nat) : Z := Z.sqrt (nth (t / 20) [2; 3; 5; 10] 0 * 2 ^ 60).

Definition fips_step (r : regs) (tw : nat * Z) : regs :=
  let '(a, b, c, d, e) := r in
  let T := u32 (ROTL 5 a + fips_f tw.1 b c d + e + fips_K tw.1 + tw.2) in
  (T, a, ROTL 30 b, c, d).

Fixpoint fips_rounds (l : list (nat * Z)) (r : regs) : regs :=
  match l with
  | [] => r
  | tw :: l => fips_rounds l (fips_step r tw)
  end.

(** The message schedule, latest word first. *)

Definition fips_extend (W : list Z) : list Z :=
  ROTL 1 (Z.lxor (Z.lxor (Z.lxor (nth 2 W 0) (nth 7 W 0)) (nth 13 W 0)) (nth 15 W 0)) :: W.

Definition fips_schedule (M : list Z) : list Z := rev (Nat.iter 64 fips_extend (rev M)).

Definition fips_words (chunk : list Z) : list Z := map (fun i => be_val (take 4 (drop (4 * i) chunk))) (seq 0 16).

Definition fips_compress (H : regs) (chunk : list Z) : regs :=
  let '(a, b, c, d, e) := fips_rounds (zip (seq 0 80) (fips_schedule (fips_words chunk))) H in
  let '(h0, h1, h2, h3, h4) := H in
  (u32 (a + h0), u32 (b + h1), u32 (c + h2), u32 (d + h3), u32 (e + h4)).

Definition fips_sha1 (m : list Z) : list Z :=
  let p := padded 64 8 (be_bytes 8) m in
  let '(h0, h1, h2, h3, h4) := Transform_blocks 64 fips_compress sha1.Initialize p (length p / 64) in
  concat (map (be_bytes 4) [h0; h1; h2; h3; h4]).

(** ** The unrolled code computes the standard's rounds *)

Definition words_list (ws : words) : list Z :=
  let '(w0, w1, w2, w3, w4, w5, w6, w7, w8, w9, w10, w11, w12, w13, w14, w15) := ws in
  [w0; w1; w2; w3; w4; w5; w6; w7; w8; w9; w10; w11; w12; w13; w14; w15].

Definition words_of (l : list Z) : words :=
  (nth 0 l 0, nth 1 l 0, nth 2 l 0, nth 3 l 0, nth 4 l 0, nth 5 l 0, nth 6 l 0, nth 7 l 0,
   nth 8 l 0, nth 9 l 0, nth 10 l 0, nth 11 l 0, nth 12 l 0, nth 13 l 0, nth 14 l 0, nth 15 l 0).

Definition next (ws : words) : words :=
  let '(w0, w1, w2, w3, w4, w5, w6, w7, w8, w9, w10, w11, w12, w13, w14, w15) := ws in
  let w0 := sha1.left (sha1.xor4 w0 w13 w8 w2) in
  let w1 := sha1.left (sha1.xor4 w1 w14 w9 w3) in
  let w2 := sha1.left (sha1.xor4 w2 w15 w10 w4) in
  let w3 := sha1.left (sha1.xor4 w3 w0 w11 w5) in
  let w4 := sha1.left (sha1.xor4 w4 w1 w12 w6) in
  let w5 := sha1.left (sha1.xor4 w5 w2 w13 w7) in
  let w6 := sha1.left (sha1.xor4 w6 w3 w14 w8) in
  let w7 := sha1.left (sha1.xor4 w7 w4 w15 w9) in
  let w8 := sha1.left (sha1.xor4 w8 w5 w0 w10) in
  let w9 := sha1.left (sha1.xor4 w9 w6 w1 w11) in
  let w10 := sha1.left (sha1.xor4 w10 w7 w2 w12) in
  let w11 := sha1.left (sha1.xor4 w11 w8 w3 w13) in
  let w12 := sha1.left (sha1.xor4 w12 w9 w4 w14) in
  let w13 := sha1.left (sha1.xor4 w13 w10 w5 w15) in
  let w14 := sha1.left (sha1.xor4 w14 w11 w6 w0) in
  let w15 := sha1.left (sha1.xor4 w15 w12 w7 w1) in
  (w0, w1, w2, w3, w4, w5, w6, w7, w8, w9, w10, w11, w12, w13, w14, w15).

Lemma lxor4_rev a b c d : Z.lxor (Z.lxor (Z.lxor a b) c) d = sha1.xor4 d a b c.
Proof. unfold sha1.xor4. by rewrite (Z.lxor_comm d a), !Z.lxor_assoc, (Z.lxor_comm d), !Z.lxor_assoc. Qed.

Lemma extend_word1 x0 x1 x2 x3 x4 x5 x6 x7 x8 x9 x10 x11 x12 x13 x14 x15 P :
  fips_extend (x0 :: x1 :: x2 :: x3 :: x4 :: x5 :: x6 :: x7 :: x8 :: x9 :: x10 :: x11 :: x12 :: x13 :: x14 :: x15 :: P) = sha1.left (sha1.xor4 x15 x2 x7 x13) :: x0 :: x1 :: x2 :: x3 :: x4 :: x5 :: x6 :: x7 :: x8 :: x9 :: x10 :: x11 :: x12 :: x13 :: x14 :: x15 :: P.
Proof. unfold fips_extend. cbn [nth]. by rewrite lxor4_rev. Qed.

Lemma extend_next1 ws P :
  Nat.iter 16 fips_extend (rev (words_list ws) ++ P) = rev (words_list (next ws)) ++ rev (words_list ws) ++ P.
Proof.
  destruct ws as [[[[[[[[[[[[[[[? ?] ?] ?] ?] ?] ?] ?] ?] ?] ?] ?] ?] ?] ?] ?].
  cbn [words_list rev app Nat.iter nat_rect]. do 16 (rewrite extend_word1). reflexivity.
Qed.

#[local] Opaque fips_extend next words_list.

Lemma schedule_next1 ws : fips_schedule (words_list ws) =
  words_list ws ++ words_list (next ws) ++ words_list (next (next ws)) ++ words_list (next (next (next ws))) ++
  words_list (next (next (next (next ws)))).
Proof.
  unfold fips_schedule. change 64%nat with (16 + (16 + (16 + 16)))%nat. rewrite !Nat.iter_add.
  rewrite <- (app_nil_r (rev (words_list ws))), !extend_next1, !rev_app_distr, !rev_involutive.
  cbn [rev app]. by rewrite <- !app_assoc.
Qed.

#[local] Transparent fips_extend next words_list.

Lemma length_words_list1 ws : length (words_list ws) = 16%nat.
Proof. by destruct ws as [[[[[[[[[[[[[[[? ?] ?] ?] ?] ?] ?] ?] ?] ?] ?] ?] ?] ?] ?] ?]. Qed.

(** The registers of the code are those of the standard, rotated once per round. *)

Definition rot (r : regs) : regs := let '(a, b, c, d, e) := r in (e, a, b, c, d).

(** The function and constant of a round as the code names them. *)

Definition code_f (t : nat) : Z -> Z -> Z -> Z :=
  if (t <? 20)%nat then sha1.f1 else if (t <? 40)%nat then sha1.f2 else if (t <? 60)%nat then sha1.f3 else sha1.f2.

Definition code_k (t : nat) : Z :=
  if (t <? 20)%nat then sha1.k1 else if (t <? 40)%nat then sha1.k2 else if (t <? 60)%nat then sha1.k3 else sha1.k4.

Lemma f_fips t x y z : fips_f t x y z = code_f t x y z.
Proof.
  unfold fips_f, code_f. destruct (t <? 20)%nat, (t <? 40)%nat, (t <? 60)%nat; try done;
    unfold sha1.f1, sha1.f3; apply Z.bits_inj'; intros i Hi;
    rewrite !Z.lxor_spec, ?Z.lor_spec, !Z.land_spec, ?Z.lor_spec, ?Z.lxor_spec, ?Z.lnot_spec by done;
    by destruct (Z.testbit x i), (Z.testbit y i), (Z.testbit z i).
Qed.

Lemma K_fips t : (t < 80)%nat -> fips_K t = code_k t.
Proof.
  intros Ht. apply Z.eqb_eq. assert (forallb (fun t => fips_K t =? code_k t) (seq 0 80) = true) as H by (vm_compute; reflexivity).
  rewrite forallb_forall in H. apply H. apply in_seq. lia.
Qed.

Lemma Round_step1 t x l a b c d e : (t < 80)%nat ->
  fips_rounds ((t, x) :: l) (a, b, c, d, e) =
  let '(b', e') := sha1.Round a b c d e (code_f t b c d) (code_k t) x in fips_rounds l (e', a, b', c, d).
Proof.
  intros Ht. cbn [fips_rounds fips_step fst snd]. rewrite f_fips, K_fips by done. unfold sha1.Round, ROTL.
  replace (e + _) with (Z.lor (u32 (Z.shiftl a 5)) (Z.shiftr a (32 - 5)) + code_f t b c d + e + code_k t + x)
    by (change (32 - 5) with 27; lia).
  reflexivity.
Qed.

Ltac start_quarter r ws :=
  destruct r as [[[[? ?] ?] ?] ?], ws as [[[[[[[[[[[[[[[? ?] ?] ?] ?] ?] ?] ?] ?] ?] ?] ?] ?] ?] ?] ?];
  unfold next; cbv zeta; cbn [words_list zip zip_with seq Nat.iter nat_rect rot].

Ltac unrolled := repeat (rewrite Round_step1 by lia; cbn [code_f code_k Nat.ltb Nat.leb]; destruct (sha1.Round _ _ _ _ _ _ _ _)); reflexivity.

(** Sixteen rounds turn the registers once. *)

Definition turn {A} (n : nat) (x : regs * A) : regs * A := (Nat.iter n rot x.1, x.2).

Lemma rounds_0_spec r chunk :
  turn 1 (sha1.rounds_0 r chunk) = (fips_rounds (zip (seq 0 16) (fips_words chunk)) r, words_of (fips_words chunk)).
Proof.
  destruct r as [[[[? ?] ?] ?] ?].
  cbn [fips_words seq map zip zip_with Nat.mul Nat.add words_of nth]. unfold sha1.rounds_0, ReadBE32. cbv zeta. unrolled.
Qed.

Lemma rounds_16_spec r ws :
  turn 2 (sha1.rounds_16 r ws) = (fips_rounds (zip (seq 16 16) (words_list (next ws))) (Nat.iter 1 rot r), next ws).
Proof. start_quarter r ws. unfold sha1.rounds_16. cbv zeta. unrolled. Qed.

Lemma rounds_32_spec r ws :
  turn 3 (sha1.rounds_32 r ws) = (fips_rounds (zip (seq 32 16) (words_list (next ws))) (Nat.iter 2 rot r), next ws).
Proof. start_quarter r ws. unfold sha1.rounds_32. cbv zeta. unrolled. Qed.

Lemma rounds_48_spec r ws :
  turn 4 (sha1.rounds_48 r ws) = (fips_rounds (zip (seq 48 16) (words_list (next ws))) (Nat.iter 3 rot r), next ws).
Proof. start_quarter r ws. unfold sha1.rounds_48. cbv zeta. unrolled. Qed.

Lemma rounds_64_spec r ws :
  sha1.rounds_64 r ws = fips_rounds (zip (seq 64 16) (words_list (next ws))) (Nat.iter 4 rot r).
Proof. start_quarter r ws. unfold sha1.rounds_64. cbv zeta. unrolled. Qed.


Lemma fips_rounds_app1 l1 l2 r : fips_rounds (l1 ++ l2) r = fips_rounds l2 (fips_rounds l1 r).
Proof. revert r. induction l1 as [|o l1 IH]; intros r; [done | apply IH]. Qed.

Lemma zip_schedule ws : zip (seq 0 80) (fips_schedule (words_list ws)) =
  zip (seq 0 16) (words_list ws) ++ zip (seq 16 16) (words_list (next ws)) ++ zip (seq 32 16) (words_list (next (next ws))) ++
  zip (seq 48 16) (words_list (next (next (next ws)))) ++ zip (seq 64 16) (words_list (next (next (next (next ws))))).
Proof.
  rewrite schedule_next1. change (seq 0 80) with (seq 0 16 ++ seq 16 16 ++ seq 32 16 ++ seq 48 16 ++ seq 64 16).
  by rewrite !zip_with_app by (by rewrite length_words_list1, length_seq).
Qed.

#[local] Opaque next words_list fips_rounds seq.

Lemma quarters_spec s chunk :
  (let '(r, w) := sha1.rounds_0 s chunk in let '(r, w) := sha1.rounds_16 r w in let '(r, w) := sha1.rounds_32 r w in
   let '(r, w) := sha1.rounds_48 r w in sha1.rounds_64 r w) =
  fips_rounds (zip (seq 0 80) (fips_schedule (fips_words chunk))) s.
Proof.
  assert (fips_words chunk = words_list (words_of (fips_words chunk))) as Ew by (vm_compute; reflexivity).
  pose proof (rounds_0_spec s chunk) as H0. destruct (sha1.rounds_0 s chunk) as [r0 w0]. injection H0 as H0 ->.
  set (ws := words_of (fips_words chunk)) in *. rewrite Ew in H0. rewrite Ew. clear Ew. clearbody ws.
  pose proof (rounds_16_spec r0 ws) as H1. destruct (sha1.rounds_16 r0 ws) as [r1 w1]. injection H1 as H1 ->.
  pose proof (rounds_32_spec r1 (next ws)) as H2. destruct (sha1.rounds_32 r1 (next ws)) as [r2 w2]. injection H2 as H2 ->.
  pose proof (rounds_48_spec r2 (next (next ws))) as H3. destruct (sha1.rounds_48 r2 (next (next ws))) as [r3 w3].
  injection H3 as H3 ->. rewrite rounds_64_spec, zip_schedule, !fips_rounds_app1.
  cbn [turn fst Nat.iter nat_rect] in *. by rewrite H3, H2, H1, H0.
Qed.

Lemma Transform_fips s chunk : sha1.Transform s chunk = fips_compress s chunk.
Proof.
  unfold sha1.Transform, fips_compress. rewrite <- quarters_spec.
  destruct (sha1.rounds_0 s chunk) as [r0 w0], (sha1.rounds_16 r0 w0) as [r1 w1], (sha1.rounds_32 r1 w1) as [r2 w2],
    (sha1.rounds_48 r2 w2) as [r3 w3].
  destruct (sha1.rounds_64 r3 w3) as [[[[a b] c] d] e], s as [[[[s0 s1] s2] s3] s4].
  by rewrite (Z.add_comm s0), (Z.add_comm s1), (Z.add_comm s2), (Z.add_comm s3), (Z.add_comm s4).
Qed.

(** ** The class *)

Notation ok1 := (hasher_ok 64 sha1.Transform sha1.Initialize).

Lemma Writes1_ok pieces m h : ok1 m h -> Z.of_nat (length (m ++ concat pieces)) < 2 ^ 64 ->
  ok1 (m ++ concat pieces) (foldl sha1.Write h pieces).
Proof. apply Writes_ok; [lia | apply consume_loop_law; lia]. Qed.

Lemma finish1_ok m h : ok1 m h -> Z.of_nat (length m) < 2 ^ 61 ->
  ok1 (padded 64 8 WriteBE64 m) (finish 64 sha1.Transform (consume_loop 64 sha1.Transform) 8 WriteBE64 h).
Proof.
  intros Hok Hm. apply finish_ok; [lia | by apply consume_loop_law; lia | lia | | done | done | lia].
  intros. unfold WriteBE64, be_bytes. by rewrite length_rev, length_le_bytes.
Qed.

Lemma Finalize1_spec m h : ok1 m h -> Z.of_nat (length m) < 2 ^ 61 ->
  (sha1.Finalize h).1 = fips_sha1 m /\ ok1 [] (sha1.Reset (sha1.Finalize h).2).
Proof.
  intros Hok Hm. unfold sha1.Finalize, fips_sha1.
  destruct (finish1_ok m h Hok Hm) as (_ & Hb & Hs & _). set (f := finish _ _ _ _ _ h) in *.
  change (be_bytes 8) with WriteBE64.
  rewrite <- (Transform_blocks_ext 64 sha1.Transform fips_compress), <- Hs by apply Transform_fips.
  destruct (h_s f) as [[[[? ?] ?] ?] ?]. cbn [fst snd]. split; [|by apply fresh_ok].
  cbn [map concat]. by rewrite app_nil_r.
Qed.

Lemma new1_ok : ok1 [] sha1.new_CSHA1.
Proof. by apply fresh_ok. Qed.

Lemma length_fips_sha1 m : length (fips_sha1 m) = 20%nat.
Proof.
  unfold fips_sha1. destruct (Transform_blocks _ _ _ _ _) as [[[[? ?] ?] ?] ?].
  unfold be_bytes. cbn [map concat]. by rewrite !length_app, !length_rev, !length_le_bytes.
Qed.

Lemma fips_sha1_bytes m : bytes (fips_sha1 m).
Proof.
  unfold fips_sha1. destruct (Transform_blocks _ _ _ _ _) as [[[[? ?] ?] ?] ?]. unfold be_bytes. cbn [map concat].
  auto 10 with bytes.
Qed.

(** [CSHA1] computes SHA-1: whatever pieces a message is written in, [Finalize] gives the
    standard's hash of their concatenation, also when the hasher was used before and [Reset]. *)
Theorem sha1_correct old pieces :
  Z.of_nat (length (concat old)) < 2 ^ 61 -> Z.of_nat (length (concat pieces)) < 2 ^ 61 ->
  let used := (sha1.Finalize (foldl sha1.Write sha1.new_CSHA1 old)).2 in
  (sha1.Finalize (foldl sha1.Write sha1.new_CSHA1 pieces)).1 = fips_sha1 (concat pieces) /\
  (sha1.Finalize (foldl sha1.Write (sha1.Reset used) pieces)).1 = fips_sha1 (concat pieces).
Proof.
  intros Ho Hp used. assert (forall h, ok1 [] h ->
    (sha1.Finalize (foldl sha1.Write h pieces)).1 = fips_sha1 (concat pieces)) as H.
  { intros h Hh. apply (Finalize1_spec _ _ (Writes1_ok pieces [] h Hh ltac:(cbn; lia))). done. }
  split; [apply H, new1_ok|]. apply H. by apply (Finalize1_spec _ _ (Writes1_ok old [] _ new1_ok ltac:(cbn; lia))).
Qed.

Lemma sha1_correct_witness :
  (sha1.Finalize (foldl sha1.Write sha1.new_CSHA1 [[97; 98]; []; [99]])).1 = fips_sha1 [97; 98; 99].
Proof. apply (sha1_correct [] [[97; 98]; []; [99]]); reflexivity. Defined.
