(* ===== verification/Hash.v ===== *)
(** * Hashing helpers

    [src/hash.h] and [src/hash.cpp]: the double SHA-256 and the SHA-256/RIPEMD-160 hashers, the [Hash] and
    [Hash160] functions, [CHashWriter], MurmurHash3, SipHash with its specialised variants and the BIP32
    hash; and [src/crypto/hmac_sha256.cpp], [src/crypto/hmac_sha512.cpp]. *)

From S2P Require Import Prelude Common Hasher Sha2 Ripemd160.

(** ** Double hashes *)

Definition CHash256_Write (sha : hasher Sha2.regs) (data : list Z) : hasher Sha2.regs := sha256.Write sha data.

Definition CHash256_Finalize (sha : hasher Sha2.regs) : list Z * hasher Sha2.regs :=
  let '(buf, sha) := sha256.Finalize sha in
  sha256.Finalize (sha256.Write (sha256.Reset sha) buf).

Definition CHash160_Finalize (sha : hasher Sha2.regs) : list Z :=
  let '(buf, _) := sha256.Finalize sha in
  (ripemd160.Finalize (ripemd160.Write ripemd160.new_CRIPEMD160 buf)).1.

Definition Hash (p : list Z) : list Z := (CHash256_Finalize (CHash256_Write sha256.new_CSHA256 p)).1.

Definition Hash2 (p1 p2 : list Z) : list Z :=
  (CHash256_Finalize (CHash256_Write (CHash256_Write sha256.new_CSHA256 p1) p2)).1.

Definition Hash3 (p1 p2 p3 : list Z) : list Z :=
  (CHash256_Finalize (CHash256_Write (CHash256_Write (CHash256_Write sha256.new_CSHA256 p1) p2) p3)).1.

Definition Hash160 (vch : list Z) : list Z := CHash160_Finalize (sha256.Write sha256.new_CSHA256 vch).

(** [CHashWriter]: the chunks a serialization writes, then [GetHash]. *)

Definition GetHash (writes : list (list Z)) : list Z := (CHash256_Finalize (foldl CHash256_Write sha256.new_CSHA256 writes)).1.

(** ** HMAC *)

Record CHMAC_SHA256 := { outer256 : hasher Sha2.regs; inner256 : hasher Sha2.regs }.

Definition new_CHMAC_SHA256 (key : list Z) : CHMAC_SHA256 :=
  let rkey :=
    if (length key <=? 64)%nat then key ++ replicate (64 - length key) 0
    else (sha256.Finalize (sha256.Write sha256.new_CSHA256 key)).1 ++ replicate 32 0 in
  let rkey := map (fun b => Z.lxor b 0x5c) rkey in
  let outer := sha256.Write sha256.new_CSHA256 rkey in
  let rkey := map (fun b => Z.lxor b (Z.lxor 0x5c 0x36)) rkey in
  let inner := sha256.Write sha256.new_CSHA256 rkey in
  {| outer256 := outer; inner256 := inner |}.

Definition HMAC_SHA256_Write (h : CHMAC_SHA256) (data : list Z) : CHMAC_SHA256 :=
  {| outer256 := outer256 h; inner256 := sha256.Write (inner256 h) data |}.

Definition HMAC_SHA256_Finalize (h : CHMAC_SHA256) : list Z :=
  let '(temp, _) := sha256.Finalize (inner256 h) in
  (sha256.Finalize (sha256.Write (outer256 h) temp)).1.

Record CHMAC_SHA512 := { outer512 : hasher Sha2.regs; inner512 : hasher Sha2.regs }.

Definition new_CHMAC_SHA512 (key : list Z) : CHMAC_SHA512 :=
  let rkey :=
    if (length key <=? 128)%nat then key ++ replicate (128 - length key) 0
    else (sha512.Finalize (sha512.Write sha512.new_CSHA512 key)).1 ++ replicate 64 0 in
  let rkey := map (fun b => Z.lxor b 0x5c) rkey in
  let outer := sha512.Write sha512.new_CSHA512 rkey in
  let rkey := map (fun b => Z.lxor b (Z.lxor 0x5c 0x36)) rkey in
  let inner := sha512.Write sha512.new_CSHA512 rkey in
  {| outer512 := outer; inner512 := inner |}.

Definition HMAC_SHA512_Write (h : CHMAC_SHA512) (data : list Z) : CHMAC_SHA512 :=
  {| outer512 := outer512 h; inner512 := sha512.Write (inner512 h) data |}.

Definition HMAC_SHA512_Finalize (h : CHMAC_SHA512) : list Z :=
  let '(temp, _) := sha512.Finalize (inner512 h) in
  (sha512.Finalize (sha512.Write (outer512 h) temp)).1.

Definition BIP32Hash (chainCode : list Z) (nChild header : Z) (data : list Z) : list Z :=
  let num := [Z.land (Z.shiftr nChild 24) 0xff; Z.land (Z.shiftr nChild 16) 0xff; Z.land (Z.shiftr nChild 8) 0xff;
              Z.land (Z.shiftr nChild 0) 0xff] in
  HMAC_SHA512_Finalize (HMAC_SHA512_Write (HMAC_SHA512_Write (HMAC_SHA512_Write (new_CHMAC_SHA512 chainCode) [header]) data) num).

(** ** MurmurHash3 (x86, 32 bits) *)

Definition ROTL32 (x r : Z) : Z := Z.lor (u32 (Z.shiftl x r)) (Z.shiftr x (32 - r)).

Definition murmur_c1 : Z := 0xcc9e2d51.

Definition murmur_c2 : Z := 0x1b873593.

(** The body of the loop over the [nblocks] words of four bytes. *)

Fixpoint murmur_loop (nblocks : nat) (blocks : list Z) (h1 : Z) : Z :=
  match nblocks with
  | O => h1
  | S n =>
      let k1 := ReadLE32 blocks in
      let k1 := u32 (k1 * murmur_c1) in
      let k1 := ROTL32 k1 15 in
      let k1 := u32 (k1 * murmur_c2) in
      let h1 := Z.lxor h1 k1 in
      let h1 := ROTL32 h1 13 in
      let h1 := u32 (h1 * 5 + 0xe6546b64) in
      murmur_loop n (drop 4 blocks) h1
  end.

(** The fall-through [switch] on the remaining bytes. *)

Definition murmur_tail (tail : list Z) (h1 : Z) : Z :=
  let last k1 t0 :=
    let k1 := Z.lxor k1 t0 in
    let k1 := u32 (k1 * murmur_c1) in
    let k1 := ROTL32 k1 15 in
    let k1 := u32 (k1 * murmur_c2) in
    Z.lxor h1 k1 in
  match tail with
  | [t0; t1; t2] => last (Z.lxor (Z.lxor 0 (Z.shiftl t2 16)) (Z.shiftl t1 8)) t0
  | [t0; t1] => last (Z.lxor 0 (Z.shiftl t1 8)) t0
  | [t0] => last 0 t0
  | _ => h1
  end.

Definition MurmurHash3 (nHashSeed : Z) (vDataToHash : list Z) : Z :=
  let h1 := nHashSeed in
  let h1 :=
    if (0 <? length vDataToHash)%nat then
      let nblocks := (length vDataToHash / 4)%nat in
      murmur_tail (drop (nblocks * 4) vDataToHash) (murmur_loop nblocks vDataToHash h1)
    else h1 in
  let h1 := u32 (Z.lxor h1 (Z.of_nat (length vDataToHash))) in
  let h1 := Z.lxor h1 (Z.shiftr h1 16) in
  let h1 := u32 (h1 * 0x85ebca6b) in
  let h1 := Z.lxor h1 (Z.shiftr h1 13) in
  let h1 := u32 (h1 * 0xc2b2ae35) in
  Z.lxor h1 (Z.shiftr h1 16).

(** ** SipHash-2-4 *)

Notation sip := (Z * Z * Z * Z)%type.

Definition ROTL (x b : Z) : Z := u64 (Z.lor (u64 (Z.shiftl x b)) (Z.shiftr x (64 - b))).

Definition SIPROUND (v : sip) : sip :=
  let '(v0, v1, v2, v3) := v in
  let v0 := u64 (v0 + v1) in
  let v1 := ROTL v1 13 in
  let v1 := Z.lxor v1 v0 in
  let v0 := ROTL v0 32 in
  let v2 := u64 (v2 + v3) in
  let v3 := ROTL v3 16 in
  let v3 := Z.lxor v3 v2 in
  let v0 := u64 (v0 + v3) in
  let v3 := ROTL v3 21 in
  let v3 := Z.lxor v3 v0 in
  let v2 := u64 (v2 + v1) in
  let v1 := ROTL v1 17 in
  let v1 := Z.lxor v1 v2 in
  let v2 := ROTL v2 32 in
  (v0, v1, v2, v3).

(** [v3 ^= d; SIPROUND; SIPROUND; v0 ^= d]. *)

Definition sip_absorb (v : sip) (d : Z) : sip :=
  let '(v0, v1, v2, v3) := v in
  let v3 := Z.lxor v3 d in
  let '(v0, v1, v2, v3) := SIPROUND (SIPROUND (v0, v1, v2, v3)) in
  (Z.lxor v0 d, v1, v2, v3).

(** [v2 ^= 0xFF], four rounds and the result. *)

Definition sip_output (v : sip) : Z :=
  let '(v0, v1, v2, v3) := v in
  let v2 := Z.lxor v2 0xFF in
  let '(v0, v1, v2, v3) := SIPROUND (SIPROUND (SIPROUND (SIPROUND (v0, v1, v2, v3)))) in
  Z.lxor (Z.lxor (Z.lxor v0 v1) v2) v3.

Record CSipHasher := { sip_v : sip; sip_tmp : Z; sip_count : Z }.

Definition new_CSipHasher (k0 k1 : Z) : CSipHasher :=
  {| sip_v := (Z.lxor 0x736f6d6570736575 k0, Z.lxor 0x646f72616e646f6d k1, Z.lxor 0x6c7967656e657261 k0,
               Z.lxor 0x7465646279746573 k1);
     sip_tmp := 0; sip_count := 0 |}.

(** [Write(uint64_t)]; the assertion requires a multiple of eight bytes before. *)

Definition Sip_Write64 (h : CSipHasher) (data : Z) : option CSipHasher :=
  if negb (sip_count h mod 8 =? 0) then None
  else Some {| sip_v := sip_absorb (sip_v h) data; sip_tmp := sip_tmp h; sip_count := sip_count h + 8 |}.

(** One turn of the loop of [Write(const uint8_t *, size_t)]. *)

Definition sip_byte (h : CSipHasher) (b : Z) : CSipHasher :=
  let t := Z.lor (sip_tmp h) (u64 (Z.shiftl b (8 * (sip_count h mod 8)))) in
  let c := sip_count h + 1 in
  if Z.land c 7 =? 0 then {| sip_v := sip_absorb (sip_v h) t; sip_tmp := 0; sip_count := c |}
  else {| sip_v := sip_v h; sip_tmp := t; sip_count := c |}.

Definition Sip_Write (h : CSipHasher) (data : list Z) : CSipHasher := foldl sip_byte h data.

Definition Sip_Finalize (h : CSipHasher) : Z :=
  let t := Z.lor (sip_tmp h) (u64 (Z.shiftl (sip_count h) 56)) in
  sip_output (sip_absorb (sip_v h) t).

(** [val.GetUint64(i)]. *)

Definition GetUint64 (val : list Z) (i : nat) : Z := ReadLE64 (drop (i * 8) val).

Definition SipHashUint256 (k0 k1 : Z) (val : list Z) : Z :=
  let d := GetUint64 val 0 in
  let v0 := Z.lxor 0x736f6d6570736575 k0 in
  let v1 := Z.lxor 0x646f72616e646f6d k1 in
  let v2 := Z.lxor 0x6c7967656e657261 k0 in
  let v3 := Z.lxor (Z.lxor 0x7465646279746573 k1) d in
  let '(v0, v1, v2, v3) := SIPROUND (SIPROUND (v0, v1, v2, v3)) in
  let v0 := Z.lxor v0 d in
  let v := sip_absorb (v0, v1, v2, v3) (GetUint64 val 1) in
  let v := sip_absorb v (GetUint64 val 2) in
  let v := sip_absorb v (GetUint64 val 3) in
  let v := sip_absorb v (Z.shiftl 4 59) in
  sip_output v.

Definition SipHashUint256Extra (k0 k1 : Z) (val : list Z) (extra : Z) : Z :=
  let d := GetUint64 val 0 in
  let v0 := Z.lxor 0x736f6d6570736575 k0 in
  let v1 := Z.lxor 0x646f72616e646f6d k1 in
  let v2 := Z.lxor 0x6c7967656e657261 k0 in
  let v3 := Z.lxor (Z.lxor 0x7465646279746573 k1) d in
  let '(v0, v1, v2, v3) := SIPROUND (SIPROUND (v0, v1, v2, v3)) in
  let v0 := Z.lxor v0 d in
  let v := sip_absorb (v0, v1, v2, v3) (GetUint64 val 1) in
  let v := sip_absorb v (GetUint64 val 2) in
  let v := sip_absorb v (GetUint64 val 3) in
  let v := sip_absorb v (Z.lor (Z.shiftl 36 56) extra) in
  sip_output v.

(** ** What the double hashes compute *)

Lemma CHash256_spec pieces : Z.of_nat (length (concat pieces)) < 2 ^ 61 ->
  (CHash256_Finalize (foldl CHash256_Write sha256.new_CSHA256 pieces)).1 = fips_sha256 (fips_sha256 (concat pieces)).
Proof.
  intros Hlen. unfold CHash256_Finalize. change CHash256_Write with sha256.Write.
  pose proof (Finalize256_spec _ _ (Writes256_ok pieces [] _ new256_ok ltac:(cbn; lia)) Hlen) as [E Hok].
  destruct (sha256.Finalize _) as [buf sha]. cbn [fst snd] in *. subst buf. cbn [app] in *.
  pose proof (Writes256_ok [fips_sha256 (concat pieces)] [] _ Hok) as Hw. cbn [concat foldl app] in Hw.
  rewrite app_nil_r, length_fips_sha256 in Hw. apply (Finalize256_spec _ _ (Hw ltac:(lia))). rewrite length_fips_sha256. lia.
Qed.

Lemma CHash160_spec pieces : Z.of_nat (length (concat pieces)) < 2 ^ 61 ->
  CHash160_Finalize (foldl sha256.Write sha256.new_CSHA256 pieces) = rmd160 (fips_sha256 (concat pieces)).
Proof.
  intros Hlen. unfold CHash160_Finalize.
  pose proof (Finalize256_spec _ _ (Writes256_ok pieces [] _ new256_ok ltac:(cbn; lia)) Hlen) as [E Hok].
  destruct (sha256.Finalize _) as [buf sha]. cbn [fst snd] in *. subst buf. cbn [app] in *.
  pose proof (Writes160_ok [fips_sha256 (concat pieces)] [] _ new160_ok) as Hw. cbn [concat foldl app] in Hw.
  rewrite app_nil_r, length_fips_sha256 in Hw. apply (Finalize160_spec _ _ (Hw ltac:(lia))). rewrite length_fips_sha256. lia.
Qed.

(** The transaction and address hashes: [CHashWriter] and the one-, two- and three-argument [Hash]
    compute SHA-256 of SHA-256 of everything written, in order, and [Hash160] computes RIPEMD-160 of
    SHA-256. *)
Theorem double_hash_correct writes a b c :
  Z.of_nat (length (concat writes)) < 2 ^ 61 -> Z.of_nat (length (a ++ b ++ c)) < 2 ^ 61 ->
  GetHash writes = fips_sha256 (fips_sha256 (concat writes)) /\
  Hash a = fips_sha256 (fips_sha256 a) /\ Hash2 a b = fips_sha256 (fips_sha256 (a ++ b)) /\
  Hash3 a b c = fips_sha256 (fips_sha256 (a ++ b ++ c)) /\ Hash160 a = rmd160 (fips_sha256 a).
Proof.
  intros Hw Habc. rewrite !length_app in Habc. unfold Hash, Hash2, Hash3, Hash160.
  pose proof (CHash256_spec [a]) as H1. pose proof (CHash256_spec [a; b]) as H2.
  pose proof (CHash256_spec [a; b; c]) as H3. pose proof (CHash160_spec [a]) as H4.
  cbn [foldl concat] in H1, H2, H3, H4. rewrite !app_nil_r in *. rewrite !length_app in *.
  split_and!; [by apply CHash256_spec | apply H1 | apply H2 | apply H3 | apply H4]; lia.
Qed.

Lemma double_hash_correct_witness : Hash2 [1; 2] [3] = fips_sha256 (fips_sha256 ([1; 2] ++ [3])).
Proof. destruct (double_hash_correct [] [1; 2] [3] []) as (_ & _ & H & _); [reflexivity.. | exact H]. Defined.

(** ** HMAC

    The key, hashed when longer than a block and padded with zeroes; the hash of the outer key and the
    hash of the inner key and the message (RFC 2104). *)

Definition rfc_hmac (H : list Z -> list Z) (B : nat) (key m : list Z) : list Z :=
  let K := if (length key <=? B)%nat then key else H key in
  let K := K ++ replicate (B - length K) 0 in
  H (map (Z.lxor 0x5c) K ++ H (map (Z.lxor 0x36) K ++ m)).

Lemma ipad_key K : map (fun b => Z.lxor b (Z.lxor 0x5c 0x36)) (map (fun b => Z.lxor b 0x5c) K) = map (Z.lxor 0x36) K.
Proof.
  rewrite map_map. apply map_ext. intros b.
  by rewrite Z.lxor_assoc, <- (Z.lxor_assoc 0x5c 0x5c), Z.lxor_nilpotent, Z.lxor_0_l, Z.lxor_comm.
Qed.

Lemma opad_key K : map (fun b => Z.lxor b 0x5c) K = map (Z.lxor 0x5c) K.
Proof. apply map_ext. intros b. apply Z.lxor_comm. Qed.

(** Over any hasher. *)

Section hmac.
Context {St : Type} (new : St) (Wr : St -> list Z -> St) (Fin : St -> list Z) (ok : list Z -> St -> Prop).
Context (H : list Z -> list Z) (B D P : nat) (HB : (D + P = B /\ B < 256)%nat).
Context (new_ok : ok [] new).
Context (Wr_ok : forall pieces m h, ok m h -> Z.of_nat (length (m ++ concat pieces)) < 2 ^ 64 -> ok (m ++ concat pieces) (foldl Wr h pieces)).
Context (Fin_ok : forall m h, ok m h -> Z.of_nat (length m) < 2 ^ 61 -> Fin h = H m).
Context (length_H : forall m, length (H m) = D).

Lemma Wr_one m h x : ok m h -> Z.of_nat (length (m ++ x)) < 2 ^ 64 -> ok (m ++ x) (Wr h x).
Proof. intros Hok Hx. pose proof (Wr_ok [x] m h Hok) as E. cbn [concat foldl] in E. rewrite app_nil_r in E. by apply E. Qed.

Lemma hmac_key key : Z.of_nat (length key) < 2 ^ 61 ->
  let K := if (length key <=? B)%nat then key else H key in
  (if (length key <=? B)%nat then key ++ replicate (B - length key) 0 else Fin (Wr new key) ++ replicate P 0) =
    K ++ replicate (B - length K) 0 /\ length (K ++ replicate (B - length K) 0) = B.
Proof.
  intros Hk. cbv zeta. rewrite length_app, length_replicate. destruct (Nat.leb_spec (length key) B); [split; [done | lia]|].
  rewrite (Fin_ok key), length_H; [split; [do 2 f_equal; lia | lia] | | done]. apply (Wr_one []); [done | cbn; lia].
Qed.

Lemma hmac_body i o pieces : length i = B -> length o = B -> Z.of_nat (length (concat pieces)) < 2 ^ 61 - 256 ->
  Fin (Wr (Wr new o) (Fin (foldl Wr (Wr new i) pieces))) = H (o ++ H (i ++ concat pieces)).
Proof.
  intros Hi Ho Hp.
  assert (ok (i ++ concat pieces) (foldl Wr (Wr new i) pieces)) as Hok.
  { apply Wr_ok; [apply (Wr_one []); [done | cbn; lia] | rewrite length_app; lia]. }
  rewrite (Fin_ok _ _ Hok) by (rewrite length_app; lia). apply Fin_ok; [|rewrite length_app, length_H; lia].
  apply Wr_one; [apply (Wr_one []); [done | cbn; lia] | rewrite length_app, length_H; lia].
Qed.

End hmac.

Lemma foldl_HMAC256 h pieces : foldl HMAC_SHA256_Write h pieces =
  {| outer256 := outer256 h; inner256 := foldl sha256.Write (inner256 h) pieces |}.
Proof. revert h. induction pieces as [|x l IH]; intros h; [by destruct h|]. cbn [foldl]. by rewrite IH. Qed.

Lemma foldl_HMAC512 h pieces : foldl HMAC_SHA512_Write h pieces =
  {| outer512 := outer512 h; inner512 := foldl sha512.Write (inner512 h) pieces |}.
Proof. revert h. induction pieces as [|x l IH]; intros h; [by destruct h|]. cbn [foldl]. by rewrite IH. Qed.

Lemma length_fips_sha512 m : length (fips_sha512 m) = 64%nat.
Proof.
  unfold fips_sha512. destruct (Transform_blocks _ _ _ _ _) as [[[[[[[? ?] ?] ?] ?] ?] ?] ?].
  unfold be_bytes. cbn [regs_list map concat]. by rewrite !length_app, !length_rev, !length_le_bytes.
Qed.

(** [CHMAC_SHA256] and [CHMAC_SHA512] compute the HMAC of RFC 2104 with the standard hashes, for
    every key length and however the message is written; [BIP32Hash] is the SHA-512 one, keyed by the
    chain code, of the header byte, the data and the child number in big-endian. *)
Theorem hmac_correct key pieces nChild header data :
  Z.of_nat (length key) < 2 ^ 61 -> Z.of_nat (length (concat pieces)) < 2 ^ 61 - 256 -> length data = 32%nat ->
  HMAC_SHA256_Finalize (foldl HMAC_SHA256_Write (new_CHMAC_SHA256 key) pieces) = rfc_hmac fips_sha256 64 key (concat pieces) /\
  HMAC_SHA512_Finalize (foldl HMAC_SHA512_Write (new_CHMAC_SHA512 key) pieces) = rfc_hmac fips_sha512 128 key (concat pieces) /\
  BIP32Hash key nChild header data = rfc_hmac fips_sha512 128 key (header :: data ++ be_bytes 4 nChild).
Proof.
  intros Hk Hp Hd.
  assert (forall p, Z.of_nat (length (concat p)) < 2 ^ 61 - 256 ->
    HMAC_SHA512_Finalize (foldl HMAC_SHA512_Write (new_CHMAC_SHA512 key) p) = rfc_hmac fips_sha512 128 key (concat p)) as H512.
  { intros p Hp'. rewrite foldl_HMAC512. unfold rfc_hmac, new_CHMAC_SHA512, HMAC_SHA512_Finalize. cbn [outer512 inner512].
    rewrite ipad_key, opad_key.
    destruct (hmac_key sha512.new_CSHA512 sha512.Write (fun h => (sha512.Finalize h).1) ok512 fips_sha512 128 64 64 ltac:(lia)
      new512_ok Writes512_ok (fun m h a b => proj1 (Finalize512_spec m h a b)) length_fips_sha512 key Hk) as [-> Hl].
    rewrite <- (hmac_body sha512.new_CSHA512 sha512.Write (fun h => (sha512.Finalize h).1) ok512 fips_sha512 128 64 64 ltac:(lia)
      new512_ok Writes512_ok (fun m h a b => proj1 (Finalize512_spec m h a b)) length_fips_sha512); [|by rewrite length_map..|done].
    by destruct (sha512.Finalize (foldl _ _ _)). }
  split_and!; [|by apply H512|].
  - rewrite foldl_HMAC256. unfold rfc_hmac, new_CHMAC_SHA256, HMAC_SHA256_Finalize. cbn [outer256 inner256].
    rewrite ipad_key, opad_key.
    destruct (hmac_key sha256.new_CSHA256 sha256.Write (fun h => (sha256.Finalize h).1) ok256 fips_sha256 64 32 32 ltac:(lia)
      new256_ok Writes256_ok (fun m h a b => proj1 (Finalize256_spec m h a b)) length_fips_sha256 key Hk) as [-> Hl].
    rewrite <- (hmac_body sha256.new_CSHA256 sha256.Write (fun h => (sha256.Finalize h).1) ok256 fips_sha256 64 32 32 ltac:(lia)
      new256_ok Writes256_ok (fun m h a b => proj1 (Finalize256_spec m h a b)) length_fips_sha256); [|by rewrite length_map..|done].
    by destruct (sha256.Finalize (foldl _ _ _)).
  - unfold BIP32Hash. pose proof (H512 [[header]; data; be_bytes 4 nChild]) as E. cbn [foldl concat app] in E.
    rewrite app_nil_r in E. rewrite <- E, size_header; [done|]. cbn [length]. rewrite length_app, Hd.
    unfold be_bytes. rewrite length_rev, length_le_bytes. lia.
Qed.

Lemma hmac_correct_witness :
  HMAC_SHA256_Finalize (HMAC_SHA256_Write (HMAC_SHA256_Write (new_CHMAC_SHA256 [1; 2]) [3]) [4]) =
  rfc_hmac fips_sha256 64 [1; 2] (concat [[3]; [4]]).
Proof. destruct (hmac_correct [1; 2] [[3]; [4]] 0 0 (replicate 32 0)) as (H & _); [reflexivity.. | exact H]. Defined.

(** ** SipHash

    The definition over the whole message: its little-endian words of eight bytes, then the remaining
    bytes under the length modulo 256. *)

Fixpoint sip_words (n : nat) (m : list Z) (v : sip) : sip :=
  match n with
  | O => v
  | S k => sip_words k (drop 8 m) (sip_absorb v (le_val (take 8 m)))
  end.

Definition siphash24 (k0 k1 : Z) (m : list Z) : Z :=
  let v := sip_words (length m / 8) m (sip_v (new_CSipHasher k0 k1)) in
  let rest := drop (8 * (length m / 8)) m in
  sip_output (sip_absorb v (le_val rest + (Z.of_nat (length m) mod 256) * 2 ^ 56)).

#[local] Opaque sip_absorb sip_output SIPROUND.

Lemma sip_words_snoc n m v : (8 * n <= length m)%nat ->
  sip_words (S n) m v = sip_absorb (sip_words n m v) (le_val (take 8 (drop (8 * n) m))).
Proof.
  revert m v. induction n as [|n IH]; intros m v Hm; [done|].
  change (sip_words (S (S n)) m v) with (sip_words (S n) (drop 8 m) (sip_absorb v (le_val (take 8 m)))).
  rewrite IH by (rewrite length_drop; lia). rewrite drop_drop. replace (8 + 8 * n)%nat with (8 * S n)%nat by lia. done.
Qed.

Lemma sip_words_app n m x v : (8 * n <= length m)%nat -> sip_words n (m ++ x) v = sip_words n m v.
Proof.
  revert m v. induction n as [|n IH]; intros m v Hm; [done|]. cbn [sip_words].
  rewrite take_app_le, drop_app_le by lia. apply IH. rewrite length_drop. lia.
Qed.

(** What a hasher holds after the bytes [m]. *)

Definition sip_ok (k0 k1 : Z) (m : list Z) (h : CSipHasher) : Prop :=
  sip_count h = Z.of_nat (length m) /\
  sip_v h = sip_words (length m / 8) m (sip_v (new_CSipHasher k0 k1)) /\
  sip_tmp h = le_val (drop (8 * (length m / 8)) m).

Lemma rest_snoc (m : list Z) b : let q := (length m / 8)%nat in
  drop (8 * q) (m ++ [b]) = drop (8 * q) m ++ [b].
Proof. cbv zeta. pose proof (Nat.div_mod (length m) 8 ltac:(lia)). rewrite drop_app_le by lia. done. Qed.

Lemma or_byte rest b : bytes rest -> is_byte b -> (length rest < 8)%nat ->
  Z.lor (le_val rest) (u64 (Z.shiftl b (8 * Z.of_nat (length rest)))) = le_val (rest ++ [b]).
Proof.
  intros Hr Hb Hl. set (r := length rest) in *.
  rewrite le_val_app. cbn [le_val]. rewrite Z.mul_0_r, Z.add_0_r, Z.shiftl_mul_pow2 by lia. unfold u64, is_byte in *.
  pose proof (le_val_bound rest Hr) as Hle. fold r in Hle |- *.
  rewrite Z.mod_small; [rewrite lor_low_high by lia; lia|].
  split; [pose proof (pow2_pos (8 * Z.of_nat r)); nia|].
  replace (2 ^ 64) with (2 ^ (64 - 8 * Z.of_nat r) * 2 ^ (8 * Z.of_nat r)) by (rewrite <- Z.pow_add_r by lia; f_equal; lia).
  apply Z.mul_lt_mono_pos_r; [apply pow2_pos; lia|].
  pose proof (Z.pow_le_mono_r 2 8 (64 - 8 * Z.of_nat r) ltac:(lia) ltac:(lia)). lia.
Qed.

Lemma sip_byte_ok k0 k1 m h b : bytes m -> is_byte b -> sip_ok k0 k1 m h -> sip_ok k0 k1 (m ++ [b]) (sip_byte h b).
Proof.
  intros Hm Hb (Hc & Hv & Ht). unfold sip_byte. rewrite Hc, Hv, Ht.
  pose proof (Nat.div_mod (length m) 8 ltac:(lia)) as Hd. pose proof (Nat.mod_upper_bound (length m) 8 ltac:(lia)) as Hr.
  pose proof (rest_snoc m b) as Es. cbv zeta in Es. set (q := (length m / 8)%nat) in *.
  assert (length (drop (8 * q) m) = length m mod 8)%nat as Hlr by (rewrite length_drop; lia).
  assert (Z.of_nat (length m) mod 8 = Z.of_nat (length (drop (8 * q) m))) as -> by (rewrite Hlr; by rewrite Nat2Z.inj_mod).
  rewrite or_byte by (auto with bytes || lia). set (r := (length m mod 8)%nat) in *.
  change 7 with (Z.ones 3). rewrite Z.land_ones by lia. change (2 ^ 3) with 8.
  assert (length (m ++ [b]) = 8 * q + (r + 1))%nat as Hl by (rewrite length_app; cbn [length]; lia).
  unfold sip_ok. rewrite Hl. destruct (decide (r = 7%nat)) as [E7|E7].
  - assert ((8 * q + (r + 1)) / 8 = S q)%nat as -> by (rewrite E7; symmetry; apply (Nat.div_unique _ _ _ 0); lia).
    replace ((Z.of_nat (length m) + 1) mod 8) with 0 by (apply (Z.mod_unique_pos _ _ (Z.of_nat (S q))); lia).
    cbn [Z.eqb sip_v sip_tmp sip_count]. split_and!; [lia | | rewrite drop_ge by lia; done].
    rewrite sip_words_snoc, sip_words_app, Es by lia. rewrite take_ge by (rewrite length_app, Hlr; cbn [length]; lia). done.
  - assert ((8 * q + (r + 1)) / 8 = q)%nat as -> by (symmetry; apply (Nat.div_unique _ _ _ (r + 1)); lia).
    replace ((Z.of_nat (length m) + 1) mod 8) with (Z.of_nat (r + 1)) by (apply (Z.mod_unique_pos _ _ (Z.of_nat q)); lia).
    rewrite (proj2 (Z.eqb_neq (Z.of_nat (r + 1)) 0)) by lia.
    cbn [sip_v sip_tmp sip_count]. split_and!; [lia | by rewrite sip_words_app by lia | by rewrite Es].
Qed.

Lemma Sip_Write_ok k0 k1 m h x : bytes m -> bytes x -> sip_ok k0 k1 m h -> sip_ok k0 k1 (m ++ x) (Sip_Write h x).
Proof.
  revert m h. induction x as [|b x IH]; intros m h Hm Hx Hok; [by rewrite app_nil_r|].
  apply Forall_cons_1 in Hx as [Hb Hx]. cbn [Sip_Write foldl]. rewrite cons_middle, app_assoc.
  apply IH; [auto with bytes | done | by apply sip_byte_ok].
Qed.

Lemma last_word rest n : bytes rest -> (length rest < 8)%nat ->
  Z.lor (le_val rest) (u64 (Z.shiftl n 56)) = le_val rest + (n mod 256) * 2 ^ 56.
Proof.
  intros Hr Hl. unfold u64. rewrite Z.shiftl_mul_pow2 by lia. change (2 ^ 64) with (256 * 2 ^ 56).
  rewrite Z.mul_mod_distr_r by lia. apply lor_low_high; [lia|]. pose proof (le_val_bound rest Hr).
  pose proof (Z.pow_le_mono_r 2 (8 * Z.of_nat (length rest)) 56). lia.
Qed.

Lemma Sip_Finalize_spec k0 k1 m h : bytes m -> sip_ok k0 k1 m h -> Sip_Finalize h = siphash24 k0 k1 m.
Proof.
  intros Hm (Hc & Hv & Ht). unfold Sip_Finalize, siphash24. rewrite Hc, Hv, Ht, last_word; [done | auto with bytes |].
  rewrite length_drop. pose proof (Nat.div_mod (length m) 8 ltac:(lia)). pose proof (Nat.mod_upper_bound (length m) 8 ltac:(lia)). lia.
Qed.

Lemma new_sip_ok k0 k1 : sip_ok k0 k1 [] (new_CSipHasher k0 k1).
Proof. done. Qed.

(** Writing a 64-bit integer is writing its eight bytes. *)

Lemma Sip_Write64_ok k0 k1 m h x : bytes m -> 0 <= x < 2 ^ 64 -> (length m mod 8 = 0)%nat -> sip_ok k0 k1 m h ->
  exists h', Sip_Write64 h x = Some h' /\ sip_ok k0 k1 (m ++ le_bytes 8 x) h'.
Proof.
  intros Hm Hx Ha (Hc & Hv & Ht). pose proof (Nat.div_mod (length m) 8 ltac:(lia)) as Hd. unfold Sip_Write64.
  set (q := (length m / 8)%nat) in *.
  replace (sip_count h mod 8) with 0 by (rewrite Hc; apply (Z.mod_unique_pos _ _ (Z.of_nat q)); lia).
  cbn [Z.eqb negb]. eexists. split; [done|]. unfold sip_ok. cbn [sip_count sip_v sip_tmp].
  rewrite length_app, length_le_bytes. replace ((length m + 8) / 8)%nat with (S q).
  2:{ symmetry. replace (length m + 8)%nat with (8 * S q)%nat by lia. rewrite Nat.mul_comm. apply Nat.div_mul. lia. }
  split_and!; [lia | |].
  - rewrite sip_words_snoc, sip_words_app by (rewrite ?length_app; lia). rewrite Hv. f_equal.
    rewrite drop_app_ge by lia. replace (8 * q - length m)%nat with 0%nat by lia. rewrite drop_0, take_ge by (rewrite length_le_bytes; lia).
    by rewrite le_val_le_bytes, Z.mod_small.
  - rewrite Ht. fold q. rewrite !drop_ge by (rewrite ?length_app, ?length_le_bytes; lia). done.
Qed.

(** The specialised functions, from the words of a 32-byte value. *)

Lemma sip_words_256 k0 k1 val x : length val = 32%nat ->
  sip_words 4 (val ++ x) (sip_v (new_CSipHasher k0 k1)) =
  sip_absorb (sip_absorb (sip_absorb (sip_absorb (sip_v (new_CSipHasher k0 k1)) (GetUint64 val 0)) (GetUint64 val 1))
    (GetUint64 val 2)) (GetUint64 val 3).
Proof.
  intros Hl. rewrite sip_words_app by lia. cbn [sip_words]. rewrite !drop_drop. done.
Qed.

Lemma SipHashUint256_spec k0 k1 val : length val = 32%nat -> SipHashUint256 k0 k1 val = siphash24 k0 k1 val.
Proof.
  intros Hl. unfold siphash24. rewrite Hl. change (32 / 8)%nat with 4%nat. rewrite <- (app_nil_r val) at 2.
  rewrite sip_words_256, drop_ge by lia. cbn [le_val]. reflexivity.
Qed.

Lemma SipHashUint256Extra_spec k0 k1 val extra : length val = 32%nat -> 0 <= extra < 2 ^ 32 ->
  SipHashUint256Extra k0 k1 val extra = siphash24 k0 k1 (val ++ le_bytes 4 extra).
Proof.
  intros Hl He. unfold siphash24. rewrite length_app, length_le_bytes, Hl. change ((32 + 4) / 8)%nat with 4%nat.
  rewrite sip_words_256 by done. rewrite drop_app_ge by lia. rewrite Hl, drop_0.
  assert (Z.lor (Z.shiftl 36 56) extra = le_val (le_bytes 4 extra) + (Z.of_nat (32 + 4) mod 256) * 2 ^ 56) as E.
  { rewrite le_val_le_bytes, Z.mod_small by lia. rewrite Z.shiftl_mul_pow2 by lia. by rewrite lor_high_low by lia. }
  rewrite <- E. reflexivity.
Qed.

(** SipHash: however a message is written, [CSipHasher] computes SipHash-2-4 of its bytes; writing a
    64-bit integer at a multiple of eight bytes never fails the assertion and is writing its bytes; and
    the specialised [SipHashUint256] and [SipHashUint256Extra] equal the generic hasher on the same
    bytes, as their comment promises. *)
Theorem siphash_correct k0 k1 pieces val extra x :
  Forall bytes pieces -> bytes val -> length val = 32%nat -> 0 <= extra < 2 ^ 32 -> 0 <= x < 2 ^ 64 ->
  Sip_Finalize (foldl Sip_Write (new_CSipHasher k0 k1) pieces) = siphash24 k0 k1 (concat pieces) /\
  SipHashUint256 k0 k1 val = Sip_Finalize (Sip_Write (new_CSipHasher k0 k1) val) /\
  SipHashUint256Extra k0 k1 val extra = Sip_Finalize (Sip_Write (Sip_Write (new_CSipHasher k0 k1) val) (WriteLE32 extra)) /\
  (exists h', Sip_Write64 (Sip_Write (new_CSipHasher k0 k1) val) x = Some h' /\
     Sip_Finalize h' = siphash24 k0 k1 (val ++ WriteLE64 x)).
Proof.
  intros Hp Hv Hl He Hx.
  assert (forall m h, bytes m -> sip_ok k0 k1 m h -> sip_ok k0 k1 (m ++ concat pieces) (foldl Sip_Write h pieces)) as Hw.
  { induction Hp as [|y l Hy Hl' IH]; intros m h Hm Hok; [by rewrite app_nil_r|].
    cbn [foldl concat]. rewrite app_assoc. apply IH; [auto with bytes | by apply Sip_Write_ok]. }
  pose proof (Sip_Write_ok k0 k1 [] _ val ltac:(done) Hv (new_sip_ok k0 k1)) as Hval.
  split_and!.
  - apply Sip_Finalize_spec; [by apply Forall_concat | by apply (Hw [])].
  - rewrite SipHashUint256_spec by done. symmetry. by apply Sip_Finalize_spec.
  - rewrite SipHashUint256Extra_spec by done. symmetry. unfold WriteLE32. apply Sip_Finalize_spec; [auto with bytes|].
    apply Sip_Write_ok; [auto with bytes.. | done].
  - destruct (Sip_Write64_ok k0 k1 val _ x Hv Hx ltac:(by rewrite Hl) Hval) as (h' & E & Hok).
    exists h'. split; [done|]. apply Sip_Finalize_spec; [unfold WriteLE64; auto with bytes | done].
Qed.

Lemma siphash_correct_witness :
  SipHashUint256 1 2 (replicate 32 7) = Sip_Finalize (Sip_Write (new_CSipHasher 1 2) (replicate 32 7)).
Proof.
  destruct (siphash_correct 1 2 [[1]; [2; 3]] (replicate 32 7) 5 9) as (_ & H & _); [repeat constructor .. | exact H]; done.
Defined.
