(* ===== verification/Flags.v ===== *)
(** * Script errors, flags, signature hash types and limits

    [src/script/script_error.h], [src/script/script_flags.h], [src/script/sighashtype.h] and the interface
    [src/script_config.h]. *)

From S2P Require Import Prelude.

Inductive ScriptError :=
| SCRIPT_ERR_OK | SCRIPT_ERR_UNKNOWN_ERROR | SCRIPT_ERR_EVAL_FALSE | SCRIPT_ERR_OP_RETURN
| SCRIPT_ERR_SCRIPT_SIZE | SCRIPT_ERR_PUSH_SIZE | SCRIPT_ERR_OP_COUNT | SCRIPT_ERR_STACK_SIZE
| SCRIPT_ERR_SIG_COUNT | SCRIPT_ERR_PUBKEY_COUNT
| SCRIPT_ERR_INVALID_OPERAND_SIZE | SCRIPT_ERR_INVALID_NUMBER_RANGE | SCRIPT_ERR_IMPOSSIBLE_ENCODING
| SCRIPT_ERR_INVALID_SPLIT_RANGE | SCRIPT_ERR_SCRIPTNUM_OVERFLOW | SCRIPT_ERR_SCRIPTNUM_MINENCODE
| SCRIPT_ERR_VERIFY | SCRIPT_ERR_EQUALVERIFY | SCRIPT_ERR_CHECKMULTISIGVERIFY | SCRIPT_ERR_CHECKSIGVERIFY
| SCRIPT_ERR_NUMEQUALVERIFY
| SCRIPT_ERR_BAD_OPCODE | SCRIPT_ERR_DISABLED_OPCODE | SCRIPT_ERR_INVALID_STACK_OPERATION
| SCRIPT_ERR_INVALID_ALTSTACK_OPERATION | SCRIPT_ERR_UNBALANCED_CONDITIONAL
| SCRIPT_ERR_DIV_BY_ZERO | SCRIPT_ERR_MOD_BY_ZERO
| SCRIPT_ERR_NEGATIVE_LOCKTIME | SCRIPT_ERR_UNSATISFIED_LOCKTIME
| SCRIPT_ERR_SIG_HASHTYPE | SCRIPT_ERR_SIG_DER | SCRIPT_ERR_MINIMALDATA | SCRIPT_ERR_SIG_PUSHONLY
| SCRIPT_ERR_SIG_HIGH_S | SCRIPT_ERR_SIG_NULLDUMMY | SCRIPT_ERR_PUBKEYTYPE | SCRIPT_ERR_CLEANSTACK
| SCRIPT_ERR_MINIMALIF | SCRIPT_ERR_SIG_NULLFAIL
| SCRIPT_ERR_DISCOURAGE_UPGRADABLE_NOPS | SCRIPT_ERR_NONCOMPRESSED_PUBKEY
| SCRIPT_ERR_ILLEGAL_FORKID | SCRIPT_ERR_MUST_USE_FORKID | SCRIPT_ERR_BIG_INT | SCRIPT_ERR_ERROR_COUNT.

#[export] Instance ScriptError_eq_dec : EqDecision ScriptError.
Proof. solve_decision. Defined.

(** ** Verification flags *)

Definition SCRIPT_VERIFY_NONE : Z := 0.

Definition SCRIPT_VERIFY_P2SH : Z := Z.shiftl 1 0.

Definition SCRIPT_VERIFY_STRICTENC : Z := Z.shiftl 1 1.

Definition SCRIPT_VERIFY_DERSIG : Z := Z.shiftl 1 2.

Definition SCRIPT_VERIFY_LOW_S : Z := Z.shiftl 1 3.

Definition SCRIPT_VERIFY_NULLDUMMY : Z := Z.shiftl 1 4.

Definition SCRIPT_VERIFY_SIGPUSHONLY : Z := Z.shiftl 1 5.

Definition SCRIPT_VERIFY_MINIMALDATA : Z := Z.shiftl 1 6.

Definition SCRIPT_VERIFY_DISCOURAGE_UPGRADABLE_NOPS : Z := Z.shiftl 1 7.

Definition SCRIPT_VERIFY_CLEANSTACK : Z := Z.shiftl 1 8.

Definition SCRIPT_VERIFY_CHECKLOCKTIMEVERIFY : Z := Z.shiftl 1 9.

Definition SCRIPT_VERIFY_CHECKSEQUENCEVERIFY : Z := Z.shiftl 1 10.

Definition SCRIPT_VERIFY_MINIMALIF : Z := Z.shiftl 1 13.

Definition SCRIPT_VERIFY_NULLFAIL : Z := Z.shiftl 1 14.

Definition SCRIPT_VERIFY_COMPRESSED_PUBKEYTYPE : Z := Z.shiftl 1 15.

Definition SCRIPT_ENABLE_SIGHASH_FORKID : Z := Z.shiftl 1 16.

Definition SCRIPT_GENESIS : Z := Z.shiftl 1 18.

Definition SCRIPT_UTXO_AFTER_GENESIS : Z := Z.shiftl 1 19.

(** [flags & f], as a condition. *)

Definition has (flags f : Z) : bool := negb (Z.land flags f =? 0).

(** ** Signature hash types: a [uint32_t] *)

Definition SIGHASH_ALL : Z := 1.

Definition SIGHASH_NONE : Z := 2.

Definition SIGHASH_SINGLE : Z := 3.

Definition SIGHASH_FORKID : Z := 0x40.

Definition SIGHASH_ANYONECANPAY : Z := 0x80.

(** [BaseSigHashType] is a [uint8_t]; values outside the named ones occur. *)

Definition getBaseType (sigHash : Z) : Z := u8 (Z.land sigHash 0x1f).

Definition getForkValue (sigHash : Z) : Z := Z.shiftr sigHash 8.

Definition isDefined (sigHash : Z) : bool :=
  let baseType := u8 (Z.land sigHash (u32 (Z.lnot (Z.lor SIGHASH_FORKID SIGHASH_ANYONECANPAY)))) in
  (SIGHASH_ALL <=? baseType) && (baseType <=? SIGHASH_SINGLE).

Definition hasForkId (sigHash : Z) : bool := negb (Z.land sigHash SIGHASH_FORKID =? 0).

Definition hasAnyoneCanPay (sigHash : Z) : bool := negb (Z.land sigHash SIGHASH_ANYONECANPAY =? 0).

Definition withBaseType (sigHash base : Z) : Z := Z.lor (Z.land sigHash (u32 (Z.lnot 0x1f))) base.

Definition withForkValue (sigHash forkId : Z) : Z := Z.lor (u32 (Z.shiftl forkId 8)) (Z.land sigHash 0xff).

Definition withForkId (sigHash : Z) (forkId : bool) : Z :=
  Z.lor (Z.land sigHash (u32 (Z.lnot SIGHASH_FORKID))) (if forkId then SIGHASH_FORKID else 0).

Definition withAnyoneCanPay (sigHash : Z) (anyoneCanPay : bool) : Z :=
  Z.lor (Z.land sigHash (u32 (Z.lnot SIGHASH_ANYONECANPAY))) (if anyoneCanPay then SIGHASH_ANYONECANPAY else 0).

(** ** Limits: [CScriptConfig], by Genesis rules and consensus or policy *)

Record CScriptConfig := {
  GetMaxOpsPerScript : bool -> bool -> Z;
  GetMaxScriptNumLength : bool -> bool -> Z;
  GetMaxScriptSize : bool -> bool -> Z;
  GetMaxPubKeysPerMultiSig : bool -> bool -> Z;
  GetMaxStackMemoryUsage : bool -> bool -> Z
}.
