(* ===== verification/SigEnc.v ===== *)
(** * Encodings of signatures and public keys

    The encoding checks of [src/script/interpreter.cpp] ([IsValidSignatureEncoding] to
    [CheckPubKeyEncoding]) and [src/pubkey.cpp] with [src/pubkey.h]: [CPubKey], the lax DER parser,
    [Verify] and [CheckLowS].  The secp256k1 library is a parameter, the class [Secp256k1].  Reading a
    vector outside its bounds is undefined and gives [None]. *)

From S2P Require Import Prelude Flags.

(** ** The strict encoding (BIP66) *)

(** Whether a leading zero byte of an integer at [pos] of length [len] is excessive. *)

Definition excess_zero (sig : list Z) (pos len : nat) (first : Z) : option bool :=
  if (1 <? len)%nat && (first =? 0x00) then b ← sig !! (pos + 1)%nat; Some (Z.land b 0x80 =? 0)
  else Some false.

Definition IsValidSignatureEncoding (sig : list Z) : option bool :=
  if (length sig <? 9)%nat then Some false
  else if (73 <? length sig)%nat then Some false
  else
    b0 ← sig !! 0%nat;
    if negb (b0 =? 0x30) then Some false
    else
      b1 ← sig !! 1%nat;
      if negb (b1 =? Z.of_nat (length sig - 3)) then Some false
      else
        lenR ← sig !! 3%nat;
        let lenR := Z.to_nat lenR in
        if (length sig <=? 5 + lenR)%nat then Some false
        else
          lenS ← sig !! (5 + lenR)%nat;
          let lenS := Z.to_nat lenS in
          if negb (lenR + lenS + 7 =? length sig)%nat then Some false
          else
            b2 ← sig !! 2%nat;
            if negb (b2 =? 0x02) then Some false
            else if (lenR =? 0)%nat then Some false
            else
              b4 ← sig !! 4%nat;
              if negb (Z.land b4 0x80 =? 0) then Some false
              else
                bad ← excess_zero sig 4 lenR b4;
                if bad : bool then Some false
                else
                  c ← sig !! (lenR + 4)%nat;
                  if negb (c =? 0x02) then Some false
                  else if (lenS =? 0)%nat then Some false
                  else
                    d ← sig !! (lenR + 6)%nat;
                    if negb (Z.land d 0x80 =? 0) then Some false
                    else
                      bad ← excess_zero sig (lenR + 6) lenS d;
                      if bad : bool then Some false else Some true.

(** ** The lax parser *)

(** [while (lenbyte > 0 && input[pos] == 0)]: skips zero bytes of a length. *)

Fixpoint skip_zeros (lenbyte : nat) (input : list Z) (pos : nat) : option (nat * nat) :=
  match lenbyte with
  | O => Some (O, pos)
  | S n => b ← input !! pos; if b =? 0 then skip_zeros n input (S pos) else Some (lenbyte, pos)
  end.

(** [while (lenbyte > 0)]: reads a big-endian length. *)

Fixpoint read_length (lenbyte : nat) (input : list Z) (pos : nat) (rlen : Z) : option (Z * nat) :=
  match lenbyte with
  | O => Some (rlen, pos)
  | S n => b ← input !! pos; read_length n input (S pos) (u64 (Z.shiftl rlen 8 + b))
  end.

(** The integer [R] or [S] from its tag: position and length of its bytes and the position after them;
    the inner [None] is [return 0]. *)

Definition parse_integer (input : list Z) (pos : nat) : option (option (nat * nat * nat)) :=
  let inputlen := length input in
  if (pos =? inputlen)%nat then Some None
  else
    tag ← input !! pos;
    if negb (tag =? 0x02) then Some None
    else
      let pos := S pos in
      if (pos =? inputlen)%nat then Some None
      else
        lenbyte ← input !! pos;
        let pos := S pos in
        len ← (if negb (Z.land lenbyte 0x80 =? 0) then
          let lenbyte := Z.to_nat (lenbyte - 0x80) in
          if (inputlen <? pos + lenbyte)%nat then Some None
          else
            '(lenbyte, pos) ← skip_zeros lenbyte input pos;
            if (8 <=? lenbyte)%nat then Some None
            else '(rlen, pos) ← read_length lenbyte input pos 0; Some (Some (rlen, pos))
        else Some (Some (lenbyte, pos)));
        match len with
        | None => Some None
        | Some (rlen, pos) =>
            if Z.of_nat (inputlen - pos) <? rlen then Some None
            else Some (Some (pos, Z.to_nat rlen, (pos + Z.to_nat rlen)%nat))
        end.

(** [while (rlen > 0 && input[rpos] == 0)]: the integer without leading zeroes. *)

Fixpoint strip_zeros (l : list Z) : list Z :=
  match l with
  | [] => []
  | b :: t => if b =? 0 then strip_zeros t else l
  end.

(** Left-pads to 32 bytes, as [memcpy(tmpsig + 32 - rlen, ...)] into zeroes. *)

Definition pad32 (l : list Z) : list Z := replicate (32 - length l) 0 ++ l.

(** The 64 bytes handed to the library, [None] when the parser returns 0; [Some None] when an integer
    does not fit. *)

Definition parse_der_lax (input : list Z) : option (option (option (list Z))) :=
  let inputlen := length input in
  let pos := 0%nat in
  if (pos =? inputlen)%nat then Some None
  else
    tag ← input !! pos;
    if negb (tag =? 0x30) then Some None
    else
      let pos := S pos in
      if (pos =? inputlen)%nat then Some None
      else
        lenbyte ← input !! pos;
        let pos := S pos in
        let skipped :=
          if negb (Z.land lenbyte 0x80 =? 0) then
            let lenbyte := Z.to_nat (lenbyte - 0x80) in
            if (inputlen <? pos + lenbyte)%nat then None else Some (pos + lenbyte)%nat
          else Some pos in
        match skipped with
        | None => Some None
        | Some pos =>
            r ← parse_integer input pos;
            match r with
            | None => Some None
            | Some (rpos, rlen, pos) =>
                s ← parse_integer input pos;
                match s with
                | None => Some None
                | Some (spos, slen, pos) =>
                    let r := strip_zeros (take rlen (drop rpos input)) in
                    let s := strip_zeros (take slen (drop spos input)) in
                    if (32 <? length r)%nat || (32 <? length s)%nat then Some (Some None)
                    else Some (Some (Some (pad32 r ++ pad32 s)))
                end
            end
        end.

(** ** The secp256k1 library *)

(** [ecdsa_signature_parse_compact] gives its return value and the signature it stores,
    [ecdsa_signature_normalize] whether the signature was not normalized and the normalized one. *)

Class Secp256k1 := {
  secp_signature : Type;
  secp_pubkey : Type;
  ecdsa_signature_parse_compact : list Z -> bool * secp_signature;
  ecdsa_signature_normalize : secp_signature -> bool * secp_signature;
  ecdsa_verify : secp_signature -> list Z -> secp_pubkey -> bool;
  ec_pubkey_parse : list Z -> option secp_pubkey
}.

Section pubkey.
Context `{Secp256k1}.

Definition ecdsa_signature_parse_der_lax (input : list Z) : option (option secp_signature) :=
  let zero := (ecdsa_signature_parse_compact (replicate 64 0)).2 in
  p ← parse_der_lax input;
  match p with
  | None => Some None
  | Some None => Some (Some zero)
  | Some (Some tmpsig) =>
      let '(ok, sig) := ecdsa_signature_parse_compact tmpsig in
      Some (Some (if ok : bool then sig else zero))
  end.

(** ** [CPubKey]: its serialized bytes, empty when invalid *)

Definition GetLen (chHeader : Z) : nat :=
  if (chHeader =? 2) || (chHeader =? 3) then 33
  else if (chHeader =? 4) || (chHeader =? 6) || (chHeader =? 7) then 65
  else 0.

Definition new_CPubKey (vch : list Z) : list Z :=
  match vch with
  | [] => []
  | h :: _ => if negb (GetLen h =? 0)%nat && (GetLen h =? length vch)%nat then vch else []
  end.

Definition IsValid (key : list Z) : bool := (0 <? length key)%nat.

Definition IsCompressed (key : list Z) : bool := (length key =? 33)%nat.

Definition Verify (key hash vchSig : list Z) : option bool :=
  if negb (IsValid key) then Some false
  else
    match ec_pubkey_parse key with
    | None => Some false
    | Some pubkey =>
        if (length vchSig =? 0)%nat then Some false
        else
          p ← ecdsa_signature_parse_der_lax vchSig;
          match p with
          | None => Some false
          | Some sig =>
              let '(_, sig) := ecdsa_signature_normalize sig in
              Some (ecdsa_verify sig hash pubkey)
          end
    end.

Definition IsFullyValid (key : list Z) : bool :=
  if negb (IsValid key) then false
  else match ec_pubkey_parse key with Some _ => true | None => false end.

Definition CheckLowS (vchSig : list Z) : option bool :=
  p ← ecdsa_signature_parse_der_lax vchSig;
  match p with
  | None => Some false
  | Some sig => Some (negb (ecdsa_signature_normalize sig).1)
  end.

(** ** The checks of the interpreter: [None] is undefined, [Some SCRIPT_ERR_OK] is [true] *)

Definition IsCompressedOrUncompressedPubKey (vchPubKey : list Z) : bool :=
  match vchPubKey with
  | h :: _ =>
      if (length vchPubKey <? 33)%nat then false
      else if h =? 0x04 then (length vchPubKey =? 65)%nat
      else if (h =? 0x02) || (h =? 0x03) then (length vchPubKey =? 33)%nat
      else false
  | [] => false
  end.

Definition IsCompressedPubKey (vchPubKey : list Z) : bool :=
  match vchPubKey with
  | h :: _ =>
      if negb (length vchPubKey =? 33)%nat then false
      else if negb (h =? 0x02) && negb (h =? 0x03) then false
      else true
  | [] => false
  end.

Definition IsLowDERSignature (vchSig : list Z) : option ScriptError :=
  valid ← IsValidSignatureEncoding vchSig;
  if negb valid then Some SCRIPT_ERR_SIG_DER
  else
    low ← CheckLowS (removelast vchSig);
    if negb low then Some SCRIPT_ERR_SIG_HIGH_S else Some SCRIPT_ERR_OK.

Definition GetHashType (vchSig : list Z) : Z :=
  match list.last vchSig with None => 0 | Some b => b end.

(** The block under [SCRIPT_VERIFY_STRICTENC]. *)

Definition check_hash_type (vchSig : list Z) (flags : Z) : ScriptError :=
  if negb (isDefined (GetHashType vchSig)) then SCRIPT_ERR_SIG_HASHTYPE
  else
    let usesForkId := hasForkId (GetHashType vchSig) in
    let forkIdEnabled := has flags SCRIPT_ENABLE_SIGHASH_FORKID in
    if negb forkIdEnabled && usesForkId then SCRIPT_ERR_ILLEGAL_FORKID
    else if forkIdEnabled && negb usesForkId then SCRIPT_ERR_MUST_USE_FORKID
    else SCRIPT_ERR_OK.

Definition CheckSignatureEncoding (vchSig : list Z) (flags : Z) : option ScriptError :=
  if (length vchSig =? 0)%nat then Some SCRIPT_ERR_OK
  else
    der ← (if has flags (Z.lor (Z.lor SCRIPT_VERIFY_DERSIG SCRIPT_VERIFY_LOW_S) SCRIPT_VERIFY_STRICTENC)
           then IsValidSignatureEncoding vchSig else Some true);
    if negb der then Some SCRIPT_ERR_SIG_DER
    else
      low ← (if has flags SCRIPT_VERIFY_LOW_S then IsLowDERSignature vchSig else Some SCRIPT_ERR_OK);
      if negb (bool_decide (low = SCRIPT_ERR_OK)) then Some low
      else if has flags SCRIPT_VERIFY_STRICTENC then Some (check_hash_type vchSig flags)
      else Some SCRIPT_ERR_OK.

Definition CheckPubKeyEncoding (vchPubKey : list Z) (flags : Z) : ScriptError :=
  if has flags SCRIPT_VERIFY_STRICTENC && negb (IsCompressedOrUncompressedPubKey vchPubKey) then SCRIPT_ERR_PUBKEYTYPE
  else if has flags SCRIPT_VERIFY_COMPRESSED_PUBKEYTYPE && negb (IsCompressedPubKey vchPubKey)
  then SCRIPT_ERR_NONCOMPRESSED_PUBKEY
  else SCRIPT_ERR_OK.

End pubkey.

(** ** The strict encoding is the DER grammar *)

(** A DER integer that is positive: no sign bit, no needless leading zero. *)

Definition der_int (x : list Z) : bool :=
  match x with
  | [] => false
  | b :: t => (b <? 128) && match t with [] => true | c :: _ => negb (b =? 0) || (128 <=? c) end
  end.

Definition der_signature (R S : list Z) : list Z :=
  0x30 :: Z.of_nat (length R + length S + 4) :: 0x02 :: Z.of_nat (length R) :: R ++ 0x02 :: Z.of_nat (length S) :: S.

Definition strict_der (sig : list Z) : Prop :=
  exists R S hashtype, sig = der_signature R S ++ [hashtype] /\ der_int R = true /\ der_int S = true /\ (length sig <= 73)%nat.

Lemma der_int_nonempty x : der_int x = true -> (0 < length x)%nat.
Proof. destruct x; [done | cbn; lia]. Qed.

(** The sign and padding checks on the bytes [x] of an integer inside a signature. *)

Lemma integer_checks pre x post : bytes x -> (0 < length x)%nat -> exists b bad,
  (pre ++ x ++ post) !! length pre = Some b /\ excess_zero (pre ++ x ++ post) (length pre) (length x) b = Some bad /\
  der_int x = (Z.land b 0x80 =? 0) && negb bad.
Proof.
  intros Hx Hl. destruct x as [|b x]; [cbn in Hl; lia|]. apply Forall_cons_1 in Hx as [Hb Hx].
  exists b, ((1 <? length (b :: x))%nat && (b =? 0) && (match x with [] => false | c :: _ => c <? 128 end)).
  split; [by rewrite lookup_app_r, Nat.sub_diag by lia|]. unfold excess_zero. split.
  - destruct x as [|c x]; [by destruct (b =? 0)|]. destruct (b =? 0); [|by rewrite !andb_false_r]. cbn [length Nat.ltb Nat.leb andb].
    rewrite lookup_app_r by lia. replace (length pre + 1 - length pre)%nat with 1%nat by lia. cbn.
    apply Forall_cons_1 in Hx as [Hc _]. by rewrite byte_land_80.
  - rewrite byte_land_80 by done. cbn [der_int]. destruct (b <? 128); [|done]. cbn [andb].
    destruct x as [|c x]; [by rewrite andb_false_r|]. destruct (b =? 0); [|by rewrite andb_false_r].
    cbn [length Nat.ltb Nat.leb andb negb orb]. by rewrite Z.leb_antisym.
Qed.

(** The parts of a signature whose length bytes are consistent. *)

Lemma signature_parts (rest : list Z) lenR : (lenR + 1 < length rest)%nat ->
  exists R c l T, rest = R ++ c :: l :: T /\ length R = lenR.
Proof.
  intros Hl. exists (take lenR rest).
  destruct (drop lenR rest) as [|c [|l T]] eqn:E; try (apply (f_equal length) in E; rewrite length_drop in E; cbn in E; lia).
  exists c, l, T. split; [by rewrite <- E, take_drop | rewrite length_take; lia].
Qed.

Lemma length_der_signature R S ht : (length (der_signature R S ++ [ht]) = length R + length S + 7)%nat.
Proof. unfold der_signature. rewrite length_app. cbn [length]. rewrite length_app. cbn [length]. lia. Qed.

Ltac reject := exists false; split; [reflexivity|]; split; [done|]; intros (R' & S' & ht' & E' & HR' & HS' & HL').

Lemma strict_der_parts b1 b2 b3 R c l T : is_byte b3 -> length R = Z.to_nat b3 ->
  strict_der (0x30 :: b1 :: b2 :: b3 :: R ++ c :: l :: T) ->
  exists S ht, T = S ++ [ht] /\ b2 = 0x02 /\ c = 0x02 /\ l = Z.of_nat (length S) /\ der_int R = true /\ der_int S = true.
Proof.
  intros Hb HR (R' & S & ht & E & H1 & H2 & _). unfold der_signature in E. cbn [app] in E. injection E as _ -> E3 E.
  rewrite <- app_assoc in E. apply app_inj_1 in E as [<- E]; [|unfold is_byte in Hb; lia].
  injection E as -> -> ->. by exists S, ht.
Qed.

(** What the function does once the lengths are consistent. *)

Lemma IsValidSignatureEncoding_parts b1 b3 R l S ht b2 c :
  let sig := 0x30 :: b1 :: b2 :: b3 :: R ++ c :: l :: S ++ [ht] in
  bytes sig -> length R = Z.to_nat b3 -> length S = Z.to_nat l -> (9 <= length sig <= 73)%nat -> b1 = Z.of_nat (length sig - 3) ->
  IsValidSignatureEncoding sig = Some ((b2 =? 0x02) && der_int R && (c =? 0x02) && der_int S).
Proof.
  intros sig Hs HR HS Hl E1. unfold IsValidSignatureEncoding.
  assert (length sig = length R + length S + 7)%nat as Hlen by (unfold sig; cbn [length]; rewrite length_app; cbn [length]; rewrite length_app; cbn [length]; lia).
  rewrite (proj2 (Nat.ltb_ge (length sig) 9)), (proj2 (Nat.ltb_ge 73 (length sig))) by lia.
  change (sig !! 0%nat) with (Some 0x30). change (sig !! 1%nat) with (Some b1). change (sig !! 2%nat) with (Some b2).
  change (sig !! 3%nat) with (Some b3). bind_simpl. rewrite E1, !Z.eqb_refl. cbn [negb]. rewrite <- HR.
  rewrite (proj2 (Nat.leb_gt (length sig) (5 + length R))) by lia.
  assert (sig = [0x30; b1; b2; b3] ++ R ++ (c :: l :: S ++ [ht])) as EsR by done.
  assert (sig = ([0x30; b1; b2; b3] ++ R ++ [c; l]) ++ S ++ [ht]) as EsS by (rewrite EsR; by rewrite <- !app_assoc).
  assert (sig !! (5 + length R)%nat = Some l /\ sig !! (length R + 4)%nat = Some c) as [El Ec].
  { rewrite EsR. split; rewrite app_assoc, lookup_app_r by (rewrite length_app; cbn [length]; lia); rewrite length_app; cbn [length].
    - by replace (5 + length R - (4 + length R))%nat with 1%nat by lia.
    - by replace (length R + 4 - (4 + length R))%nat with 0%nat by lia. }
  rewrite El. bind_simpl. rewrite <- HS, (proj2 (Nat.eqb_eq _ _)) by lia. cbn [negb].
  destruct (b2 =? 2); [|done]. cbn [negb andb].
  assert (bytes R /\ bytes S) as [BR BS].
  { unfold sig in Hs. repeat (apply Forall_cons_1 in Hs as [_ Hs]). apply Forall_app in Hs as [BR Hs].
    repeat (apply Forall_cons_1 in Hs as [_ Hs]). by apply Forall_app in Hs as [BS _]. }
  destruct (Nat.eqb_spec (length R) 0) as [E0|E0]; [by apply nil_length_inv in E0 as ->|].
  destruct (integer_checks [0x30; b1; b2; b3] R (c :: l :: S ++ [ht]) BR ltac:(lia)) as (x & bad & Ex & Eb & ->).
  rewrite <- EsR in Ex, Eb. change (length [48; b1; b2; b3]) with 4%nat in Ex, Eb. rewrite Ex. bind_simpl.
  destruct (Z.land x 0x80 =? 0); [|done]. cbn [negb andb]. rewrite Eb. bind_simpl. destruct bad; [done|]. rewrite Ec. bind_simpl. cbn [andb negb].
  destruct (c =? 2); [|done]. cbn [negb andb].
  destruct (Nat.eqb_spec (length S) 0) as [E0'|E0']; [by apply nil_length_inv in E0' as ->|].
  destruct (integer_checks ([0x30; b1; b2; b3] ++ R ++ [c; l]) S [ht] BS ltac:(lia)) as (y & bad & Ey & Eb' & ->).
  rewrite <- EsS in Ey, Eb'. rewrite !length_app in Ey, Eb'. cbn [length] in Ey, Eb'.
  replace (4 + (length R + 2))%nat with (length R + 6)%nat in Ey, Eb' by lia. rewrite Ey. bind_simpl.
  destruct (Z.land y 0x80 =? 0); [|done]. cbn [negb andb]. rewrite Eb'. bind_simpl. by destruct bad.
Qed.

(** The checks before the second length byte, and that byte. *)

Lemma IsValidSignatureEncoding_header b0 b1 b2 b3 rest : let sig := b0 :: b1 :: b2 :: b3 :: rest in
  (9 <= length sig <= 73)%nat ->
  b0 <> 0x30 \/ b1 <> Z.of_nat (length sig - 3) \/ (length sig <= 5 + Z.to_nat b3)%nat ->
  IsValidSignatureEncoding sig = Some false.
Proof.
  intros sig Hl H. unfold IsValidSignatureEncoding. rewrite (proj2 (Nat.ltb_ge (length sig) 9)), (proj2 (Nat.ltb_ge 73 (length sig))) by lia.
  change (sig !! 0%nat) with (Some b0). change (sig !! 1%nat) with (Some b1). change (sig !! 3%nat) with (Some b3). bind_simpl.
  destruct (Z.eqb_spec b0 0x30); [|done]. cbn [negb]. destruct (Z.eqb_spec b1 (Z.of_nat (length sig - 3))); [|done]. cbn [negb].
  destruct (Nat.leb_spec (length sig) (5 + Z.to_nat b3)); [done|]. lia.
Qed.

Lemma IsValidSignatureEncoding_lengths b1 b2 b3 R c l T : let sig := 0x30 :: b1 :: b2 :: b3 :: R ++ c :: l :: T in
  (9 <= length sig <= 73)%nat -> b1 = Z.of_nat (length sig - 3) -> length R = Z.to_nat b3 -> length T <> (Z.to_nat l + 1)%nat ->
  IsValidSignatureEncoding sig = Some false.
Proof.
  intros sig Hl E1 HR HT. assert (length sig = length R + length T + 6)%nat as Hlen by (unfold sig; cbn [length]; rewrite length_app; cbn [length]; lia).
  unfold IsValidSignatureEncoding. rewrite (proj2 (Nat.ltb_ge (length sig) 9)), (proj2 (Nat.ltb_ge 73 (length sig))) by lia.
  change (sig !! 0%nat) with (Some 0x30). change (sig !! 1%nat) with (Some b1). change (sig !! 3%nat) with (Some b3). bind_simpl.
  rewrite E1, !Z.eqb_refl. cbn [negb]. rewrite <- HR. destruct (Nat.leb_spec (length sig) (5 + length R)) as [|Hgt]; [done|].
  assert (sig !! (5 + length R)%nat = Some l) as ->.
  { change sig with ([0x30; b1; b2; b3] ++ R ++ c :: l :: T). rewrite app_assoc, lookup_app_r by (rewrite length_app; cbn [length]; lia).
    rewrite length_app. cbn [length]. by replace (5 + length R - (4 + length R))%nat with 1%nat by lia. }
  bind_simpl. by rewrite (proj2 (Nat.eqb_neq _ _)) by lia.
Qed.

Lemma strict_der_header b0 b1 b2 b3 rest : let sig := b0 :: b1 :: b2 :: b3 :: rest in strict_der sig ->
  (9 <= length sig <= 73)%nat /\ b0 = 0x30 /\ b1 = Z.of_nat (length sig - 3) /\ (5 + Z.to_nat b3 < length sig)%nat.
Proof.
  intros sig (R & S & ht & E & HR & HS & Hl). pose proof (f_equal length E) as El. rewrite length_der_signature in El.
  apply der_int_nonempty in HR, HS. injection E as -> -> _ -> _. lia.
Qed.

Lemma strict_der_intro b1 b3 R l S ht : let sig := 0x30 :: b1 :: 0x02 :: b3 :: R ++ 0x02 :: l :: S ++ [ht] in
  0 <= b3 -> 0 <= l -> length R = Z.to_nat b3 -> length S = Z.to_nat l -> (length sig <= 73)%nat -> b1 = Z.of_nat (length sig - 3) ->
  der_int R = true -> der_int S = true -> strict_der sig.
Proof.
  intros sig Hb3 Hl HR HS Hs E1 DR DS. exists R, S, ht. split_and!; [|done..].
  assert (length sig = length R + length S + 7)%nat as Hlen by (unfold sig; cbn [length]; rewrite length_app; cbn [length]; rewrite length_app; cbn [length]; lia).
  unfold sig, der_signature. cbn [app]. rewrite <- app_assoc. cbn [app].
  replace b1 with (Z.of_nat (length R + length S + 4)) by lia.
  replace b3 with (Z.of_nat (length R)) by lia. by replace l with (Z.of_nat (length S)) by lia.
Qed.

Lemma IsValidSignatureEncoding_spec sig : bytes sig ->
  exists b, IsValidSignatureEncoding sig = Some b /\ (b = true <-> strict_der sig).
Proof.
  intros Hs. destruct (decide (9 <= length sig <= 73)%nat) as [Hl|Hl].
  2:{ exists false. unfold IsValidSignatureEncoding. split.
      - destruct (Nat.ltb_spec (length sig) 9); [done|]. destruct (Nat.ltb_spec 73 (length sig)); [done | lia].
      - split; [done|]. intros (R & S & ht & -> & HR & HS & HL). apply der_int_nonempty in HR, HS.
        rewrite length_der_signature in *. lia. }
  destruct sig as [|b0 [|b1 [|b2 [|b3 rest]]]]; [cbn in *; lia..|]. set (sig := b0 :: b1 :: b2 :: b3 :: rest) in *.
  destruct (decide (b0 = 0x30 /\ b1 = Z.of_nat (length sig - 3) /\ (5 + Z.to_nat b3 < length sig)%nat)) as [(E0 & E1 & Hr)|Hbad].
  2:{ exists false. split; [apply IsValidSignatureEncoding_header; [done|] | split; [done | intros Hd; by apply strict_der_header in Hd as [_ Hd]]].
      fold sig. destruct (decide (b0 = 48)); [|by left]. destruct (decide (b1 = Z.of_nat (length sig - 3))); [|by right; left].
      right. right. assert (~ (5 + Z.to_nat b3 < length sig)%nat) by tauto. lia. }
  destruct (signature_parts rest (Z.to_nat b3)) as (R & c & l & T & -> & HR); [unfold sig in Hr; cbn [length] in Hr; lia|].
  assert (0 <= b3 /\ 0 <= l) as [Hb3 Hl'].
  { unfold sig in Hs. do 3 apply Forall_cons_1 in Hs as [_ Hs]. apply Forall_cons_1 in Hs as [[? _] Hs]. apply Forall_app in Hs as [_ Hs].
    do 2 apply Forall_cons_1 in Hs as [? Hs]. unfold is_byte in *. lia. }
  assert (is_byte b3) as Hbb by (unfold sig in Hs; do 3 apply Forall_cons_1 in Hs as [_ Hs]; by apply Forall_cons_1 in Hs as [Hs _]).
  subst b0. destruct (decide (length T = Z.to_nat l + 1)%nat) as [HT|HT].
  - destruct (exists_last (l := T)) as (S & ht & ->); [intros ->; cbn in HT; lia|]. rewrite length_app in HT. cbn [length] in HT.
    eexists. split; [apply IsValidSignatureEncoding_parts; (done || lia)|]. split.
    + rewrite !andb_true_iff, !Z.eqb_eq. intros [[[-> H1] ->] H2]. apply strict_der_intro; [done.. | lia | apply Hl | exact E1 | done | done].
    + intros Hd. apply strict_der_parts in Hd as (S' & ht' & E & -> & -> & _ & -> & HS'); [|done | done].
      apply app_inj_tail in E as [<- _]. by rewrite HS'.
  - exists false. split; [by apply IsValidSignatureEncoding_lengths|].
    split; [done|]. intros Hd. apply strict_der_parts in Hd as (S & ht & -> & _ & _ & -> & _); [|done | done].
    rewrite length_app in HT. cbn [length] in HT. lia.
Qed.

(** ** The lax parser stays inside its input *)

Lemma lookup_some {A} (l : list A) i : (i < length l)%nat -> exists x, l !! i = Some x.
Proof. intros H. apply lookup_lt_is_Some_2 in H as [x Hx]. by exists x. Qed.

Lemma skip_zeros_total n input pos : (pos + n <= length input)%nat -> exists n' pos',
  skip_zeros n input pos = Some (n', pos') /\ (pos' + n' = pos + n)%nat.
Proof.
  revert pos. induction n as [|n IH]; intros pos H; cbn [skip_zeros]; [by exists 0%nat, pos|].
  destruct (lookup_some input pos ltac:(lia)) as [b ->]. bind_simpl. destruct (b =? 0); [|by exists (S n), pos].
  destruct (IH (S pos) ltac:(lia)) as (n' & pos' & -> & E). exists n', pos'. split; [done | lia].
Qed.

Lemma read_length_total n input pos r : (pos + n <= length input)%nat -> 0 <= r -> bytes input -> exists r',
  read_length n input pos r = Some (r', (pos + n)%nat) /\ 0 <= r'.
Proof.
  revert pos r. induction n as [|n IH]; intros pos r H Hr Hi; cbn [read_length]; [exists r; by rewrite Nat.add_0_r|].
  destruct (lookup_some input pos ltac:(lia)) as [b ->]. bind_simpl.
  destruct (IH (S pos) (u64 (Z.shiftl r 8 + b)) ltac:(lia)) as (r' & -> & Hr'); [apply Z.mod_pos_bound; lia | done |].
  exists r'. by rewrite Nat.add_succ_comm.
Qed.

Lemma parse_integer_total input pos : bytes input -> (pos <= length input)%nat -> exists r, parse_integer input pos = Some r /\
  match r with Some (rpos, rlen, pos') => (rpos + rlen = pos' /\ pos' <= length input)%nat | None => True end.
Proof.
  intros Hi Hp. unfold parse_integer. destruct (Nat.eqb_spec pos (length input)); [by exists None|].
  destruct (lookup_some input pos ltac:(lia)) as [tag ->]. bind_simpl. destruct (negb (tag =? 2)); [by exists None|].
  destruct (Nat.eqb_spec (S pos) (length input)); [by exists None|].
  destruct (lookup_some input (S pos) ltac:(lia)) as [lenbyte Elen]. rewrite Elen. bind_simpl.
  assert (is_byte lenbyte) as Hb by (by eapply (Forall_lookup_1 _ _ _ _ Hi Elen)). unfold is_byte in Hb.
  assert (forall rlen p, 0 <= rlen -> (p <= length input)%nat -> exists r,
    (if Z.of_nat (length input - p) <? rlen then Some None else Some (Some (p, Z.to_nat rlen, (p + Z.to_nat rlen)%nat))) = Some r /\
    match r with Some (rpos, rl, pos') => (rpos + rl = pos' /\ pos' <= length input)%nat | None => True end) as Hend.
  { intros rlen p H0 H1. destruct (Z.ltb_spec (Z.of_nat (length input - p)) rlen); [by exists None|]. eexists. split; [done|]. cbn. lia. }
  destruct (negb (Z.land lenbyte 0x80 =? 0)).
  - destruct (Nat.ltb_spec (length input) (S (S pos) + Z.to_nat (lenbyte - 128))); [by exists None|].
    destruct (skip_zeros_total (Z.to_nat (lenbyte - 128)) input (S (S pos)) ltac:(lia)) as (n' & pos' & -> & E). bind_simpl.
    destruct (8 <=? n')%nat; [by exists None|].
    destruct (read_length_total n' input pos' 0 ltac:(lia) ltac:(lia) Hi) as (r' & -> & Hr'). bind_simpl. apply Hend; lia.
  - bind_simpl. apply Hend; lia.
Qed.

Lemma parse_der_lax_total input : bytes input -> exists p, parse_der_lax input = Some p.
Proof.
  intros Hi. unfold parse_der_lax. destruct (Nat.eqb_spec 0 (length input)); [by exists None|].
  destruct (lookup_some input 0 ltac:(lia)) as [tag ->]. bind_simpl. destruct (negb (tag =? 48)); [by exists None|].
  destruct (Nat.eqb_spec 1 (length input)); [by exists None|].
  destruct (lookup_some input 1 ltac:(lia)) as [lenbyte ->]. bind_simpl.
  set (skipped := if negb _ then _ else _).
  assert (match skipped with Some p => (p <= length input)%nat | None => True end) as Hsk.
  { unfold skipped. destruct (negb _); [|lia]. destruct (Nat.ltb_spec (length input) (2 + Z.to_nat (lenbyte - 128))); [done | lia]. }
  destruct skipped as [pos|]; [|by exists None].
  destruct (parse_integer_total input pos Hi Hsk) as (r & -> & Hr). bind_simpl. destruct r as [[[rpos rlen] pos']|]; [|by exists None].
  destruct (parse_integer_total input pos' Hi ltac:(lia)) as (s & -> & Hs). bind_simpl. destruct s as [[[spos slen] pos'']|]; [|by exists None].
  destruct (_ || _); by eexists.
Qed.

(** ** It reads strict signatures exactly *)

Lemma parse_integer_der pre x post : (length x < 128)%nat ->
  parse_integer (pre ++ 0x02 :: Z.of_nat (length x) :: x ++ post) (length pre) =
  Some (Some ((length pre + 2)%nat, length x, (length pre + 2 + length x)%nat)).
Proof.
  intros Hx. unfold parse_integer.
  assert (length (pre ++ 2%Z :: Z.of_nat (length x) :: x ++ post) = length pre + (2 + (length x + length post)))%nat as Hl
    by (rewrite length_app; cbn [length]; rewrite length_app; done).
  set (input := pre ++ 2 :: Z.of_nat (length x) :: x ++ post) in *.
  assert (input !! length pre = Some 2 /\ input !! S (length pre) = Some (Z.of_nat (length x))) as [E0 E1].
  { unfold input. split; [by rewrite lookup_app_r, Nat.sub_diag by lia|].
    rewrite lookup_app_r by lia. by replace (S (length pre) - length pre)%nat with 1%nat by lia. }
  rewrite Hl, (proj2 (Nat.eqb_neq _ _)), E0 by lia. bind_simpl. cbn [Z.eqb Pos.eqb negb].
  rewrite (proj2 (Nat.eqb_neq _ _)), E1 by lia. bind_simpl.
  rewrite byte_land_80 by (unfold is_byte; lia). rewrite (proj2 (Z.ltb_lt _ _)) by lia. cbn [negb]. bind_simpl.
  rewrite (proj2 (Z.ltb_ge _ _)) by lia. rewrite Nat2Z.id. by replace (S (S (length pre))) with (length pre + 2)%nat by lia.
Qed.

Lemma parse_der_lax_der R S : (length R + length S < 124)%nat ->
  parse_der_lax (der_signature R S) =
  let r := strip_zeros R in let s := strip_zeros S in
  Some (Some (if (32 <? length r)%nat || (32 <? length s)%nat then None else Some (pad32 r ++ pad32 s))).
Proof.
  intros Hl. unfold parse_der_lax. set (input := der_signature R S).
  assert (length input = length R + length S + 6)%nat as Hlen by (unfold input, der_signature; cbn [length]; rewrite length_app; cbn [length]; lia).
  rewrite Hlen, (proj2 (Nat.eqb_neq _ _)) by lia. change (input !! 0%nat) with (Some 0x30). bind_simpl. cbn [Z.eqb Pos.eqb negb].
  rewrite (proj2 (Nat.eqb_neq _ _)) by lia. change (input !! 1%nat) with (Some (Z.of_nat (length R + length S + 4))). bind_simpl.
  rewrite byte_land_80 by (unfold is_byte; lia). rewrite (proj2 (Z.ltb_lt _ _)) by lia. cbn [negb].
  pose proof (parse_integer_der [48; Z.of_nat (length R + length S + 4)] R (2 :: Z.of_nat (length S) :: S) ltac:(lia)) as ER.
  change (_ ++ _) with input in ER. cbn [length] in ER. rewrite ER. bind_simpl.
  pose proof (parse_integer_der ([48; Z.of_nat (length R + length S + 4); 2; Z.of_nat (length R)] ++ R) S [] ltac:(lia)) as ES.
  rewrite app_nil_r in ES. rewrite <- app_assoc in ES. change (_ ++ R ++ _) with input in ES.
  rewrite length_app in ES. cbn [length] in ES. replace (2 + 2 + length R)%nat with (4 + length R)%nat by lia. rewrite ES. bind_simpl.
  replace (take (length R) (drop (2 + 2) input)) with R
    by (change (drop (2 + 2) input) with (R ++ 2 :: Z.of_nat (length S) :: S); by rewrite take_app_length).
  replace (take (length S) (drop (4 + length R + 2) input)) with S; [by destruct (_ || _)|].
  unfold input. replace (4 + length R + 2)%nat with (4 + (length R + 2))%nat by lia. rewrite <- drop_drop.
  change (drop 4 (der_signature R S)) with (R ++ 2 :: Z.of_nat (length S) :: S). rewrite <- drop_drop, drop_app_length.
  change (drop 2 (2 :: Z.of_nat (length S) :: S)) with S. by rewrite take_ge.
Qed.

Lemma strip_zeros_spec l : bytes l -> bytes (strip_zeros l) /\ be_val (strip_zeros l) = be_val l /\ hd 1 (strip_zeros l) <> 0.
Proof.
  induction 1 as [|b l Hb Hl IH]; [done|]. cbn [strip_zeros]. destruct (Z.eqb_spec b 0) as [->|].
  - by rewrite be_val_cons, Z.mul_0_l, Z.add_0_l.
  - split_and!; [by constructor | done | done].
Qed.

(** Stripping and padding an integer writes it in 32 bytes, when it fits. *)

Lemma pad32_spec l : bytes l ->
  (length (strip_zeros l) <= 32)%nat <-> be_val l < 2 ^ 256.
Proof.
  intros Hl. destruct (strip_zeros_spec l Hl) as (B & V & H0). rewrite <- V. pose proof (be_val_bound _ B) as Hb.
  split; intros H.
  - pose proof (Z.pow_le_mono_r 2 (8 * Z.of_nat (length (strip_zeros l))) 256). lia.
  - destruct (strip_zeros l) as [|b t]; [cbn; lia|]. cbn [hd] in H0. apply Forall_cons_1 in B as [Bb Bt].
    rewrite be_val_cons in H. pose proof (be_val_bound t Bt). unfold is_byte in Bb. cbn [length].
    destruct (decide (length t < 32)%nat) as [|Hge]; [lia|].
    pose proof (Z.pow_le_mono_r 2 256 (8 * Z.of_nat (length t)) ltac:(lia) ltac:(lia)). nia.
Qed.

Lemma pad32_bytes l : bytes l -> be_val l < 2 ^ 256 -> pad32 (strip_zeros l) = be_bytes 32 (be_val l).
Proof.
  intros Hl Hv. destruct (strip_zeros_spec l Hl) as (B & V & _). pose proof (proj2 (pad32_spec l Hl) Hv) as Hle.
  unfold pad32. rewrite <- (be_bytes_be_val (strip_zeros l) B) at 2. rewrite <- be_bytes_pad by (by apply be_val_bound).
  rewrite V. f_equal. lia.
Qed.

(** C39. Signature encodings: [IsValidSignatureEncoding] never reads outside the signature and accepts
    exactly the strict DER encodings of two positive integers followed by a hash type byte; the lax parser
    never reads outside its input, for any bytes; and on a strict signature it hands the library exactly
    the two integers, in 32 bytes each, or the zero signature when one needs more. *)
Theorem signature_encoding_correct sig :
  bytes sig ->
  (exists b, IsValidSignatureEncoding sig = Some b /\ (b = true <-> strict_der sig)) /\
  (exists p, parse_der_lax sig = Some p) /\
  (forall R S hashtype, sig = der_signature R S ++ [hashtype] -> strict_der sig ->
     parse_der_lax (removelast sig) = Some (Some
       (if (be_val R <? 2 ^ 256) && (be_val S <? 2 ^ 256) then Some (be_bytes 32 (be_val R) ++ be_bytes 32 (be_val S)) else None))).
Proof.
  intros Hs. split_and!; [by apply IsValidSignatureEncoding_spec | by apply parse_der_lax_total |].
  intros R S ht -> (_ & _ & _ & _ & _ & _ & Hl). rewrite length_der_signature in Hl.
  rewrite removelast_last, parse_der_lax_der by lia. cbv zeta. unfold der_signature in Hs. cbn [app] in Hs.
  do 4 apply Forall_cons_1 in Hs as [_ Hs]. rewrite <- app_assoc in Hs. apply Forall_app in Hs as [BR Hs]. cbn [app] in Hs.
  do 2 apply Forall_cons_1 in Hs as [_ Hs]. apply Forall_app in Hs as [BS _]. do 2 f_equal.
  assert (forall x, bytes x -> (32 <? length (strip_zeros x))%nat = negb (be_val x <? 2 ^ 256)) as Hfit.
  { intros x Hx. pose proof (pad32_spec x Hx). destruct (Nat.ltb_spec 32 (length (strip_zeros x))), (Z.ltb_spec (be_val x) (2 ^ 256)); (done || lia). }
  rewrite !Hfit by done. destruct (Z.ltb_spec (be_val R) (2 ^ 256)); [|done]. destruct (Z.ltb_spec (be_val S) (2 ^ 256)); [|done].
  cbn [negb orb andb]. by rewrite !pad32_bytes by done.
Qed.

Lemma signature_encoding_correct_witness :
  parse_der_lax (removelast (der_signature [7] [0; 200] ++ [0x41])) = Some (Some (Some (be_bytes 32 7 ++ be_bytes 32 200))).
Proof.
  destruct (signature_encoding_correct (der_signature [7] [0; 200] ++ [0x41])) as (_ & _ & H); [repeat constructor; done|].
  apply (H [7] [0; 200] 0x41); [reflexivity|]. exists [7], [0; 200], 0x41. split_and!; [reflexivity.. | cbn; lia].
Defined.
