(* ===== verification/Interp.v ===== *)
(** * The script interpreter

    [src/script/interpreter.cpp]: [EvalScript] and [VerifyScript], with the helpers they use.  Each group of
    opcodes of the big [switch] is a definition of its own; a handler ends normally, by an early [return]
    (a script error or success, or the empty result of a cancelled run), by an exception, or has no
    defined result ([Abort]: a failed assertion or undefined behaviour).

    The signature checker is a record of its three virtual functions, the cancellation token a function of
    the number of times it has been asked. *)

From S2P Require Import Prelude Common IntSer BigInt ScriptNum Stack Script Hasher Sha2 Ripemd160 Sha1 Hash Flags SigEnc.

(** ** State of a run

    [vfExec] and [vfElse] have their back first, [pc] and [pbegincodehash] are the rest of the script from
    there, [polls] counts the calls of [IsCanceled]. *)

Record exec_state := {
  es_stack : LimitedStack;
  es_vfExec : list bool;
  es_vfElse : list bool;
  es_pc : list Z;
  es_begincodehash : list Z;
  es_nOpCount : Z;
  es_nonTopLevelReturnAfterGenesis : bool;
  es_polls : nat;
  es_ipc : Z
}.

Definition set_stack (e : exec_state) (s : LimitedStack) : exec_state :=
  {| es_stack := s; es_vfExec := es_vfExec e; es_vfElse := es_vfElse e; es_pc := es_pc e;
     es_begincodehash := es_begincodehash e; es_nOpCount := es_nOpCount e;
     es_nonTopLevelReturnAfterGenesis := es_nonTopLevelReturnAfterGenesis e; es_polls := es_polls e; es_ipc := es_ipc e |}.

Definition set_branches (e : exec_state) (vfExec vfElse : list bool) : exec_state :=
  {| es_stack := es_stack e; es_vfExec := vfExec; es_vfElse := vfElse; es_pc := es_pc e;
     es_begincodehash := es_begincodehash e; es_nOpCount := es_nOpCount e;
     es_nonTopLevelReturnAfterGenesis := es_nonTopLevelReturnAfterGenesis e; es_polls := es_polls e; es_ipc := es_ipc e |}.

Definition set_return (e : exec_state) : exec_state :=
  {| es_stack := es_stack e; es_vfExec := es_vfExec e; es_vfElse := es_vfElse e; es_pc := es_pc e;
     es_begincodehash := es_begincodehash e; es_nOpCount := es_nOpCount e;
     es_nonTopLevelReturnAfterGenesis := true; es_polls := es_polls e; es_ipc := es_ipc e |}.

Definition set_begincodehash (e : exec_state) : exec_state :=
  {| es_stack := es_stack e; es_vfExec := es_vfExec e; es_vfElse := es_vfElse e; es_pc := es_pc e;
     es_begincodehash := es_pc e; es_nOpCount := es_nOpCount e;
     es_nonTopLevelReturnAfterGenesis := es_nonTopLevelReturnAfterGenesis e; es_polls := es_polls e; es_ipc := es_ipc e |}.

Definition set_count (e : exec_state) (n : Z) : exec_state :=
  {| es_stack := es_stack e; es_vfExec := es_vfExec e; es_vfElse := es_vfElse e; es_pc := es_pc e;
     es_begincodehash := es_begincodehash e; es_nOpCount := n;
     es_nonTopLevelReturnAfterGenesis := es_nonTopLevelReturnAfterGenesis e; es_polls := es_polls e; es_ipc := es_ipc e |}.

Definition set_polls (e : exec_state) (n : nat) : exec_state :=
  {| es_stack := es_stack e; es_vfExec := es_vfExec e; es_vfElse := es_vfElse e; es_pc := es_pc e;
     es_begincodehash := es_begincodehash e; es_nOpCount := es_nOpCount e;
     es_nonTopLevelReturnAfterGenesis := es_nonTopLevelReturnAfterGenesis e; es_polls := n; es_ipc := es_ipc e |}.

Definition set_pc (e : exec_state) (pc : list Z) (ipc : Z) : exec_state :=
  {| es_stack := es_stack e; es_vfExec := es_vfExec e; es_vfElse := es_vfElse e; es_pc := pc;
     es_begincodehash := es_begincodehash e; es_nOpCount := es_nOpCount e;
     es_nonTopLevelReturnAfterGenesis := es_nonTopLevelReturnAfterGenesis e; es_polls := es_polls e; es_ipc := ipc |}.

(** ** How a handler ends: by an exception, [return set_error], [return set_success] or [return {}] *)

Inductive exit :=
| Exn (e : exn)
| Return (err : ScriptError)
| Succeed (e : exec_state)
| Cancelled.

Definition lift {A} (o : outcome exn A) : outcome exit A :=
  match o with Ok a => Ok a | Throw e => Throw (Exn e) | Abort => Abort end.

Definition lift_option {A} (o : option A) : outcome exit A :=
  match o with Some a => Ok a | None => Abort end.

(** [if (!b) return set_error(serror, err)]. *)

Definition require (b : bool) (err : ScriptError) : outcome exit unit := if b then Ok tt else Throw (Return err).

Declare Scope interp_scope.
Delimit Scope interp_scope with interp.

(** [x <~ e; k]: a call that can throw. *)

Notation "x <~ e ; k" := (lift e ≫= (fun x => k)) (at level 20, e at level 100, k at level 200, right associativity) : interp_scope.

#[local] Open Scope interp_scope.

(** ** Bit shifts of byte strings *)

Definition make_rshift_mask (n : nat) : Z := nth n [0xFF; 0xFE; 0xFC; 0xF8; 0xF0; 0xE0; 0xC0; 0x80] 0.

Definition make_lshift_mask (n : nat) : Z := nth n [0xFF; 0x7F; 0x3F; 0x1F; 0x0F; 0x07; 0x03; 0x01] 0.

(** [result[k] |= val]. *)

Definition or_at (result : list Z) (k : nat) (val : Z) : list Z := <[k := Z.lor (nth k result 0) val]> result.

(** The body of the loop for index [i]. *)

Definition rshift_step (x : list Z) (bit_shift byte_shift : nat) (result : list Z) (i : nat) : list Z :=
  let mask := make_rshift_mask bit_shift in
  let overflow_mask := u8 (Z.lnot mask) in
  let k := (i + byte_shift)%nat in
  let result :=
    if (k <? length x)%nat then
      let val := Z.land (nth i x 0) mask in
      or_at result k (Z.shiftr val (Z.of_nat bit_shift))
    else result in
  if (k + 1 <? length x)%nat then
    let carryval := Z.land (nth i x 0) overflow_mask in
    or_at result (k + 1) (u8 (Z.shiftl carryval (8 - Z.of_nat bit_shift)))
  else result.

Definition RShift (x : list Z) (n : Z) : list Z :=
  let bit_shift := Z.to_nat (n mod 8) in
  let byte_shift := Z.to_nat (n / 8) in
  foldl (rshift_step x bit_shift byte_shift) (replicate (length x) 0x00) (seq 0 (length x)).

Definition lshift_step (x : list Z) (bit_shift byte_shift : nat) (result : list Z) (i : nat) : list Z :=
  let mask := make_lshift_mask bit_shift in
  let overflow_mask := u8 (Z.lnot mask) in
  if (byte_shift <=? i)%nat then
    let k := (i - byte_shift)%nat in
    let val := Z.land (nth i x 0) mask in
    let result := or_at result k (u8 (Z.shiftl val (Z.of_nat bit_shift))) in
    if (1 <=? k)%nat then
      let carryval := Z.land (nth i x 0) overflow_mask in
      or_at result (k - 1) (Z.shiftr carryval (8 - Z.of_nat bit_shift))
    else result
  else result.

Definition LShift (x : list Z) (n : Z) : list Z :=
  let bit_shift := Z.to_nat (n mod 8) in
  let byte_shift := Z.to_nat (n / 8) in
  foldl (lshift_step x bit_shift byte_shift) (replicate (length x) 0x00) (rev (seq 0 (length x))).

(** ** Small helpers *)

Fixpoint CastToBool (vch : list Z) : bool :=
  match vch with
  | [] => false
  | b :: t =>
      if negb (b =? 0) then
        (* can be negative zero *)
        if (length t =? 0)%nat && (b =? 0x80) then false else true
      else CastToBool t
  end.

Definition CheckMinimalPush (data : list Z) (opcode : Z) : bool :=
  let one := match data with [b] => Some b | _ => None end in
  if (length data =? 0)%nat then opcode =? code OP_0
  else if match one with Some b => (1 <=? b) && (b <=? 16) | None => false end
  then opcode =? code OP_1 + (match one with Some b => b | None => 0 end - 1)
  else if match one with Some b => b =? 0x81 | None => false end then opcode =? code OP_1NEGATE
  else if (length data <=? 75)%nat then opcode =? Z.of_nat (length data)
  else if (length data <=? 255)%nat then opcode =? code OP_PUSHDATA1
  else if Z.of_nat (length data) <=? 65535 then opcode =? code OP_PUSHDATA2
  else true.

Definition IsOpcodeDisabled (opcode : Z) : bool := (opcode =? code OP_2MUL) || (opcode =? code OP_2DIV).

Definition IsInvalidBranchingOpcode (opcode : Z) : bool := (opcode =? code OP_VERNOTIF) || (opcode =? code OP_VERIF).

Definition IsValidMaxOpsPerScript (nOpCount : Z) (config : CScriptConfig) (isGenesisEnabled consensus : bool) : bool :=
  nOpCount <=? GetMaxOpsPerScript config isGenesisEnabled consensus.

(** Drops the signature from the script when the fork id is not used. *)

Definition CleanupScriptCode (scriptCode vchSig : list Z) (flags : Z) : list Z :=
  let sigHashType := GetHashType vchSig in
  if negb (has flags SCRIPT_ENABLE_SIGHASH_FORKID) || negb (hasForkId sigHashType)
  then (FindAndDelete scriptCode (push_data vchSig)).1
  else scriptCode.

Definition vchFalse : list Z := [].

Definition vchTrue : list Z := [1].

Definition vch_of_bool (b : bool) : list Z := if b then vchTrue else vchFalse.

(** Byte-wise complement and combination of an element. *)

Definition invert_bytes (x : list Z) : list Z := map (fun b => u8 (Z.lnot b)) x.

Section interpreter.
Context `{BN_API} `{Secp256k1}.

(** ** The signature checker *)

Record BaseSignatureChecker := {
  CheckSig : list Z -> list Z -> list Z -> bool -> bool;
  CheckLockTime : CScriptNum -> outcome exn bool;
  CheckSequence : CScriptNum -> outcome exn bool
}.

Context (config : CScriptConfig) (consensus : bool) (flags : Z) (checker : BaseSignatureChecker) (token : nat -> bool).

Definition utxo_after_genesis : bool := has flags SCRIPT_UTXO_AFTER_GENESIS.

Definition fRequireMinimal : bool := has flags SCRIPT_VERIFY_MINIMALDATA.

Definition maxScriptNumLength : Z := GetMaxScriptNumLength config utxo_after_genesis consensus.

(** A script number from a stack element, and a small constant of the same kind. *)

Definition to_number (v : LimitedVector) : outcome exn CScriptNum :=
  CScriptNum_of_bytes (stackElement v) fRequireMinimal maxScriptNumLength utxo_after_genesis.

Definition number_of_int (n : Z) : outcome exn CScriptNum :=
  if utxo_after_genesis then b ← bint_of_int n; Ok (Big b) else Ok (Small n).

(** [token.IsCanceled()]: the run ends with an empty result. *)

Definition poll (polls : nat) : outcome exit nat := if token polls then Throw Cancelled else Ok (S polls).

(** [if (stack.size() < n) return set_error(serror, SCRIPT_ERR_INVALID_STACK_OPERATION)]. *)

Definition need (s : LimitedStack) (n : nat) : outcome exit unit :=
  require (n <=? size s Root)%nat SCRIPT_ERR_INVALID_STACK_OPERATION.

(** ** Push value *)

Definition op_push_number (opcode : Z) (s : LimitedStack) : outcome exit LimitedStack :=
  lift (push_back s Root (getvch (Small (opcode - (code OP_1 - 1))))).

(** ** Control *)

(** The disabled forms of the lock time opcodes, and the other upgradable no-ops. *)

Definition op_nop_upgradable : outcome exit unit :=
  require (negb (has flags SCRIPT_VERIFY_DISCOURAGE_UPGRADABLE_NOPS)) SCRIPT_ERR_DISCOURAGE_UPGRADABLE_NOPS.

Definition op_checklocktimeverify (s : LimitedStack) : outcome exit LimitedStack :=
  if negb (has flags SCRIPT_VERIFY_CHECKLOCKTIMEVERIFY) || utxo_after_genesis then
    _ ← op_nop_upgradable; Ok s
  else
    _ ← need s 1;
    v <~ stacktop s Root (-1);
    nLockTime <~ CScriptNum_of_bytes (stackElement v) fRequireMinimal 5 false;
    negative <~ snum_lt nLockTime (Small 0);
    _ ← require (negb negative) SCRIPT_ERR_NEGATIVE_LOCKTIME;
    ok <~ CheckLockTime checker nLockTime;
    _ ← require ok SCRIPT_ERR_UNSATISFIED_LOCKTIME;
    Ok s.

Definition SEQUENCE_LOCKTIME_DISABLE_FLAG : Z := Z.shiftl 1 31.

Definition op_checksequenceverify (s : LimitedStack) : outcome exit LimitedStack :=
  if negb (has flags SCRIPT_VERIFY_CHECKSEQUENCEVERIFY) || utxo_after_genesis then
    _ ← op_nop_upgradable; Ok s
  else
    _ ← need s 1;
    v <~ stacktop s Root (-1);
    nSequence <~ CScriptNum_of_bytes (stackElement v) fRequireMinimal 5 false;
    negative <~ snum_lt nSequence (Small 0);
    _ ← require (negb negative) SCRIPT_ERR_NEGATIVE_LOCKTIME;
    masked <~ snum_and_i64 nSequence SEQUENCE_LOCKTIME_DISABLE_FLAG;
    zero <~ snum_eq masked (Small 0);
    if negb zero then Ok s
    else
      ok <~ CheckSequence checker nSequence;
      _ ← require ok SCRIPT_ERR_UNSATISFIED_LOCKTIME;
      Ok s.

Definition op_if (opcode : Z) (fExec : bool) (e : exec_state) : outcome exit exec_state :=
  '(fValue, s) ← (if fExec then
      let s := es_stack e in
      _ ← require (1 <=? size s Root)%nat SCRIPT_ERR_UNBALANCED_CONDITIONAL;
      vch <~ stacktop s Root (-1);
      _ ← (if has flags SCRIPT_VERIFY_MINIMALIF then
             _ ← require (negb (1 <? vsize vch)) SCRIPT_ERR_MINIMALIF;
             require (negb ((vsize vch =? 1) && negb (nth 0 (stackElement vch) 0 =? 1))) SCRIPT_ERR_MINIMALIF
           else Ok tt);
      let fValue := CastToBool (stackElement vch) in
      let fValue := if opcode =? code OP_NOTIF then negb fValue else fValue in
      s <~ pop_back s Root;
      Ok (fValue, s)
    else Ok (false, es_stack e));
  Ok (set_branches (set_stack e s) (fValue :: es_vfExec e) (false :: es_vfElse e)).

(** [vfElse] has as many entries as [vfExec]; [back()] of an empty vector is undefined. *)

Definition op_else (e : exec_state) : outcome exit exec_state :=
  match es_vfExec e, es_vfElse e with
  | [], _ => Throw (Return SCRIPT_ERR_UNBALANCED_CONDITIONAL)
  | x :: xs, y :: ys =>
      if y && utxo_after_genesis then Throw (Return SCRIPT_ERR_UNBALANCED_CONDITIONAL)
      else Ok (set_branches e (negb x :: xs) (true :: ys))
  | _, _ => Abort
  end.

Definition op_endif (e : exec_state) : outcome exit exec_state :=
  match es_vfExec e, es_vfElse e with
  | [], _ => Throw (Return SCRIPT_ERR_UNBALANCED_CONDITIONAL)
  | _ :: xs, _ :: ys => Ok (set_branches e xs ys)
  | _, _ => Abort
  end.

Definition op_verify (s : LimitedStack) : outcome exit LimitedStack :=
  _ ← need s 1;
  v <~ stacktop s Root (-1);
  if CastToBool (stackElement v) then lift (pop_back s Root)
  else Throw (Return SCRIPT_ERR_VERIFY).

Definition op_return (e : exec_state) : outcome exit exec_state :=
  if utxo_after_genesis then
    match es_vfExec e with
    | [] => Throw (Succeed e)
    | _ => Ok (set_return e)
    end
  else Throw (Return SCRIPT_ERR_OP_RETURN).

(** ** Stack operations *)

Definition op_toaltstack (s : LimitedStack) : outcome exit LimitedStack :=
  _ ← need s 1;
  lift (moveTopToStack s Child).

Definition op_fromaltstack (s : LimitedStack) : outcome exit LimitedStack :=
  _ ← require (1 <=? size s Child)%nat SCRIPT_ERR_INVALID_ALTSTACK_OPERATION;
  lift (moveTopToStack s Root).

Definition op_2drop (s : LimitedStack) : outcome exit LimitedStack :=
  _ ← need s 2;
  s <~ pop_back s Root;
  lift (pop_back s Root).

Definition op_2dup (s : LimitedStack) : outcome exit LimitedStack :=
  _ ← need s 2;
  vch1 <~ stacktop s Root (-2);
  vch2 <~ stacktop s Root (-1);
  s <~ push_back_vector s Root vch1;
  lift (push_back_vector s Root vch2).

Definition op_3dup (s : LimitedStack) : outcome exit LimitedStack :=
  _ ← need s 3;
  vch1 <~ stacktop s Root (-3);
  vch2 <~ stacktop s Root (-2);
  vch3 <~ stacktop s Root (-1);
  s <~ push_back_vector s Root vch1;
  s <~ push_back_vector s Root vch2;
  lift (push_back_vector s Root vch3).

Definition op_2over (s : LimitedStack) : outcome exit LimitedStack :=
  _ ← need s 4;
  vch1 <~ stacktop s Root (-4);
  vch2 <~ stacktop s Root (-3);
  s <~ push_back_vector s Root vch1;
  lift (push_back_vector s Root vch2).

Definition op_2rot (s : LimitedStack) : outcome exit LimitedStack :=
  _ ← need s 6;
  vch1 <~ stacktop s Root (-6);
  vch2 <~ stacktop s Root (-5);
  s <~ erase_range s Root (-6) (-4);
  s <~ push_back_vector s Root vch1;
  lift (push_back_vector s Root vch2).

Definition op_2swap (s : LimitedStack) : outcome exit LimitedStack :=
  _ ← need s 4;
  s <~ swapElements s Root (size s Root - 4) (size s Root - 2);
  lift (swapElements s Root (size s Root - 3) (size s Root - 1)).

Definition op_ifdup (s : LimitedStack) : outcome exit LimitedStack :=
  _ ← need s 1;
  vch <~ stacktop s Root (-1);
  if CastToBool (stackElement vch) then lift (push_back_vector s Root vch) else Ok s.

Definition op_depth (s : LimitedStack) : outcome exit LimitedStack :=
  b <~ bint_of_size_t (Z.of_nat (size s Root));
  lift (push_back s Root (getvch (Big b))).

Definition op_drop (s : LimitedStack) : outcome exit LimitedStack :=
  _ ← need s 1;
  lift (pop_back s Root).

Definition op_dup (s : LimitedStack) : outcome exit LimitedStack :=
  _ ← need s 1;
  vch <~ stacktop s Root (-1);
  lift (push_back_vector s Root vch).

Definition op_nip (s : LimitedStack) : outcome exit LimitedStack :=
  _ ← need s 2;
  lift (erase s Root (-2)).

Definition op_over (s : LimitedStack) : outcome exit LimitedStack :=
  _ ← need s 2;
  vch <~ stacktop s Root (-2);
  lift (push_back_vector s Root vch).

(** [stack.stacktop(-n - 1)] with [n] a [size_t]: the argument is converted to [int]. *)

Definition op_pick_roll (opcode : Z) (s : LimitedStack) : outcome exit LimitedStack :=
  _ ← need s 2;
  top <~ stacktop s Root (-1);
  sn <~ to_number top;
  s <~ pop_back s Root;
  negative <~ snum_lt sn (Small 0);
  inside <~ (if negative : bool then Ok false else snum_lt sn (Small (i64 (Z.of_nat (size s Root)))));
  _ ← require inside SCRIPT_ERR_INVALID_STACK_OPERATION;
  n <~ snum_to_size_t_limited sn;
  vch <~ stacktop s Root (i32 (u64 (- n - 1)));
  s <~ (if opcode =? code OP_ROLL then erase s Root (i32 (u64 (- n - 1))) else Ok s);
  lift (push_back_vector s Root vch).

Definition op_rot (s : LimitedStack) : outcome exit LimitedStack :=
  _ ← need s 3;
  s <~ swapElements s Root (size s Root - 3) (size s Root - 2);
  lift (swapElements s Root (size s Root - 2) (size s Root - 1)).

Definition op_swap (s : LimitedStack) : outcome exit LimitedStack :=
  _ ← need s 2;
  lift (swapElements s Root (size s Root - 2) (size s Root - 1)).

Definition op_tuck (s : LimitedStack) : outcome exit LimitedStack :=
  _ ← need s 2;
  vch <~ stacktop s Root (-1);
  lift (insert s Root (-2) vch).

Definition op_size (s : LimitedStack) : outcome exit LimitedStack :=
  _ ← need s 1;
  v <~ stacktop s Root (-1);
  b <~ bint_of_size_t (vsize v);
  lift (push_back s Root (getvch (Big b))).

(** ** Bitwise logic *)

Definition bitwise (opcode : Z) : Z -> Z -> Z :=
  if opcode =? code OP_AND then Z.land else if opcode =? code OP_OR then Z.lor else Z.lxor.

(** The loops modify [vch1], the element below the top, in place. *)

Definition op_bitwise (opcode : Z) (s : LimitedStack) : outcome exit LimitedStack :=
  _ ← need s 2;
  vch1 <~ stacktop s Root (-2);
  vch2 <~ stacktop s Root (-1);
  _ ← require (vsize vch1 =? vsize vch2) SCRIPT_ERR_INVALID_OPERAND_SIZE;
  let s := set_element s Root (size s Root - 2) (zip_with (bitwise opcode) (stackElement vch1) (stackElement vch2)) in
  lift (pop_back s Root).

Definition op_invert (s : LimitedStack) : outcome exit LimitedStack :=
  _ ← need s 1;
  vch1 <~ stacktop s Root (-1);
  Ok (set_element s Root (size s Root - 1) (invert_bytes (stackElement vch1))).

(** The [do]/[while] of the shifts: each round shifts by at most [INT32_MAX] bits.  The fuel bounds the
    rounds by the number of bits of the element. *)

Fixpoint shift_loop (fuel : nat) (shift : list Z -> Z -> list Z) (values : list Z) (n : CScriptNum) (polls : nat) :
    outcome exit (list Z * nat) :=
  match fuel with
  | O => Abort
  | S fuel =>
      k <~ getint n;
      let values := shift values k in
      polls ← poll polls;
      max <~ number_of_int INT_MAX;
      n <~ snum_sub n max;
      more <~ snum_lt (Small 0) n;
      if more : bool then shift_loop fuel shift values n polls else Ok (values, polls)
  end.

Definition op_shift (shift : list Z -> Z -> list Z) (e : exec_state) : outcome exit exec_state :=
  let s := es_stack e in
  _ ← need s 2;
  vch1 <~ stacktop s Root (-2);
  top <~ stacktop s Root (-1);
  n <~ to_number top;
  negative <~ snum_lt n (Small 0);
  _ ← require (negb negative) SCRIPT_ERR_INVALID_NUMBER_RANGE;
  s <~ pop_back s Root;
  s <~ pop_back s Root;
  let values := stackElement vch1 in
  below <~ snum_lt n (Small (i64 (u64 (Z.of_nat (length values) * 8))));
  '(values, polls) ← (if negb below then Ok (replicate (length values) 0, es_polls e)
    else shift_loop (S (length values)) shift values n (es_polls e));
  s <~ push_back s Root values;
  Ok (set_stack (set_polls e polls) s).

Definition op_equal (opcode : Z) (s : LimitedStack) : outcome exit LimitedStack :=
  _ ← need s 2;
  vch1 <~ stacktop s Root (-2);
  vch2 <~ stacktop s Root (-1);
  let fEqual := bool_decide (stackElement vch1 = stackElement vch2) in
  s <~ pop_back s Root;
  s <~ pop_back s Root;
  s <~ push_back s Root (vch_of_bool fEqual);
  if opcode =? code OP_EQUALVERIFY then
    if fEqual then lift (pop_back s Root) else Throw (Return SCRIPT_ERR_EQUALVERIFY)
  else Ok s.

(** ** Numeric operations *)

Definition snum_of_bool (b : bool) : CScriptNum := Small (if b then 1 else 0).

Definition unary (opcode : Z) (bn : CScriptNum) : outcome exn CScriptNum :=
  if opcode =? code OP_1ADD then one ← number_of_int 1; snum_add bn one
  else if opcode =? code OP_1SUB then one ← number_of_int 1; snum_sub bn one
  else if opcode =? code OP_NEGATE then snum_neg bn
  else if opcode =? code OP_ABS then negative ← snum_lt bn (Small 0); if negative : bool then snum_neg bn else Ok bn
  else if opcode =? code OP_NOT then zero ← snum_eq bn (Small 0); Ok (snum_of_bool zero)
  else if opcode =? code OP_0NOTEQUAL then zero ← snum_eq bn (Small 0); Ok (snum_of_bool (negb zero))
  else Abort.

Definition op_unary (opcode : Z) (s : LimitedStack) : outcome exit LimitedStack :=
  _ ← need s 1;
  top <~ stacktop s Root (-1);
  bn <~ to_number top;
  bn <~ unary opcode bn;
  s <~ pop_back s Root;
  lift (push_back s Root (getvch bn)).

(** A comparison of [bn1] and [bn2]. *)

Definition compare_with (f : outcome exn bool) (g : bool -> bool) : outcome exit CScriptNum :=
  b <~ f; Ok (snum_of_bool (g b)).

Definition binary (opcode : Z) (bn1 bn2 : CScriptNum) : outcome exit CScriptNum :=
  if opcode =? code OP_ADD then lift (snum_add bn1 bn2)
  else if opcode =? code OP_SUB then lift (snum_sub bn1 bn2)
  else if opcode =? code OP_MUL then lift (snum_mul bn1 bn2)
  else if opcode =? code OP_DIV then
    zero <~ snum_eq bn2 (Small 0);
    _ ← require (negb zero) SCRIPT_ERR_DIV_BY_ZERO;
    lift (snum_div bn1 bn2)
  else if opcode =? code OP_MOD then
    zero <~ snum_eq bn2 (Small 0);
    _ ← require (negb zero) SCRIPT_ERR_MOD_BY_ZERO;
    lift (snum_mod bn1 bn2)
  else if opcode =? code OP_BOOLAND then
    zero1 <~ snum_eq bn1 (Small 0);
    if zero1 : bool then Ok (snum_of_bool false) else compare_with (snum_eq bn2 (Small 0)) negb
  else if opcode =? code OP_BOOLOR then
    zero1 <~ snum_eq bn1 (Small 0);
    if negb zero1 then Ok (snum_of_bool true) else compare_with (snum_eq bn2 (Small 0)) negb
  else if opcode =? code OP_NUMEQUAL then compare_with (snum_eq bn1 bn2) id
  else if opcode =? code OP_NUMEQUALVERIFY then compare_with (snum_eq bn1 bn2) id
  else if opcode =? code OP_NUMNOTEQUAL then compare_with (snum_eq bn1 bn2) negb
  else if opcode =? code OP_LESSTHAN then compare_with (snum_lt bn1 bn2) id
  else if opcode =? code OP_GREATERTHAN then compare_with (snum_lt bn2 bn1) id
  else if opcode =? code OP_LESSTHANOREQUAL then compare_with (snum_lt bn2 bn1) negb
  else if opcode =? code OP_GREATERTHANOREQUAL then compare_with (snum_lt bn1 bn2) negb
  else if opcode =? code OP_MIN then less <~ snum_lt bn1 bn2; Ok (if less : bool then bn1 else bn2)
  else if opcode =? code OP_MAX then more <~ snum_lt bn2 bn1; Ok (if more : bool then bn1 else bn2)
  else Abort.

Definition op_binary (opcode : Z) (s : LimitedStack) : outcome exit LimitedStack :=
  _ ← need s 2;
  arg_2 <~ stacktop s Root (-2);
  arg_1 <~ stacktop s Root (-1);
  bn1 <~ to_number arg_2;
  bn2 <~ to_number arg_1;
  bn ← binary opcode bn1 bn2;
  s <~ pop_back s Root;
  s <~ pop_back s Root;
  s <~ push_back s Root (getvch bn);
  if opcode =? code OP_NUMEQUALVERIFY then
    v <~ stacktop s Root (-1);
    if CastToBool (stackElement v) then lift (pop_back s Root) else Throw (Return SCRIPT_ERR_NUMEQUALVERIFY)
  else Ok s.

Definition op_within (s : LimitedStack) : outcome exit LimitedStack :=
  _ ← need s 3;
  top_3 <~ stacktop s Root (-3);
  bn1 <~ to_number top_3;
  top_2 <~ stacktop s Root (-2);
  bn2 <~ to_number top_2;
  top_1 <~ stacktop s Root (-1);
  bn3 <~ to_number top_1;
  below <~ snum_lt bn1 bn2;
  fValue <~ (if negb below then snum_lt bn1 bn3 else Ok false);
  s <~ pop_back s Root;
  s <~ pop_back s Root;
  s <~ pop_back s Root;
  lift (push_back s Root (vch_of_bool fValue)).

(** ** Crypto *)

Definition hash_element (opcode : Z) (vch : list Z) : list Z :=
  if opcode =? code OP_RIPEMD160 then (ripemd160.Finalize (ripemd160.Write ripemd160.new_CRIPEMD160 vch)).1
  else if opcode =? code OP_SHA1 then (sha1.Finalize (sha1.Write sha1.new_CSHA1 vch)).1
  else if opcode =? code OP_SHA256 then (sha256.Finalize (sha256.Write sha256.new_CSHA256 vch)).1
  else if opcode =? code OP_HASH160 then CHash160_Finalize (sha256.Write sha256.new_CSHA256 vch)
  else (CHash256_Finalize (CHash256_Write sha256.new_CSHA256 vch)).1.

Definition op_hash (opcode : Z) (s : LimitedStack) : outcome exit LimitedStack :=
  _ ← need s 1;
  vch <~ stacktop s Root (-1);
  let vchHash := hash_element opcode (stackElement vch) in
  s <~ pop_back s Root;
  lift (push_back s Root vchHash).

(** [CheckSignatureEncoding(...) && CheckPubKeyEncoding(...)], with the error of the first that fails. *)

Definition check_encodings (vchSig vchPubKey : list Z) : outcome exit unit :=
  err ← lift_option (CheckSignatureEncoding vchSig flags);
  _ ← require (bool_decide (err = SCRIPT_ERR_OK)) err;
  let err := CheckPubKeyEncoding vchPubKey flags in
  require (bool_decide (err = SCRIPT_ERR_OK)) err.

Definition op_checksig (opcode : Z) (begincodehash : list Z) (s : LimitedStack) : outcome exit LimitedStack :=
  _ ← need s 2;
  vchSig <~ stacktop s Root (-2);
  vchPubKey <~ stacktop s Root (-1);
  _ ← check_encodings (stackElement vchSig) (stackElement vchPubKey);
  let scriptCode := CleanupScriptCode begincodehash (stackElement vchSig) flags in
  let fSuccess := CheckSig checker (stackElement vchSig) (stackElement vchPubKey) scriptCode
                    (has flags SCRIPT_ENABLE_SIGHASH_FORKID) in
  _ ← require (negb (negb fSuccess && has flags SCRIPT_VERIFY_NULLFAIL && negb (vsize vchSig =? 0))) SCRIPT_ERR_SIG_NULLFAIL;
  s <~ pop_back s Root;
  s <~ pop_back s Root;
  s <~ push_back s Root (vch_of_bool fSuccess);
  if opcode =? code OP_CHECKSIGVERIFY then
    if fSuccess then lift (pop_back s Root) else Throw (Return SCRIPT_ERR_CHECKSIGVERIFY)
  else Ok s.

(** [CHECKMULTISIG]: an operand of at most four bytes. *)

Definition multisig_count (s : LimitedStack) (i : Z) : outcome exn Z :=
  v ← stacktop s Root (i32 (u64 (- i)));
  n ← CScriptNum_of_bytes (stackElement v) fRequireMinimal MAXIMUM_ELEMENT_SIZE false;
  getint n.

(** Removes the [n] signatures from [k] on from the script. *)

Fixpoint multisig_script_code (n : nat) (s : LimitedStack) (isig k : Z) (scriptCode : list Z) : outcome exn (list Z) :=
  match n with
  | O => Ok scriptCode
  | S n =>
      vchSig ← stacktop s Root (i32 (u64 (- isig - k)));
      multisig_script_code n s isig (k + 1) (CleanupScriptCode scriptCode (stackElement vchSig) flags)
  end.

(** The loop over signatures and keys: every round uses up a key, so one round more than keys suffices. *)

Fixpoint multisig_loop (fuel : nat) (s : LimitedStack) (scriptCode : list Z) (isig ikey nSigsCount nKeysCount : Z) (polls : nat) :
    outcome exit (bool * nat) :=
  if negb (0 <? nSigsCount) then Ok (true, polls)
  else
    match fuel with
    | O => Abort
    | S fuel =>
        polls ← poll polls;
        vchSig <~ stacktop s Root (i32 (u64 (- isig)));
        vchPubKey <~ stacktop s Root (i32 (u64 (- ikey)));
        _ ← check_encodings (stackElement vchSig) (stackElement vchPubKey);
        let fOk := CheckSig checker (stackElement vchSig) (stackElement vchPubKey) scriptCode
                     (has flags SCRIPT_ENABLE_SIGHASH_FORKID) in
        let isig := if fOk then isig + 1 else isig in
        let nSigsCount := if fOk then nSigsCount - 1 else nSigsCount in
        let ikey := ikey + 1 in
        let nKeysCount := nKeysCount - 1 in
        if nKeysCount <? nSigsCount then Ok (false, polls)
        else multisig_loop fuel s scriptCode isig ikey nSigsCount nKeysCount polls
    end.

(** [while (i-- > 1)]: pops the arguments. *)

Fixpoint multisig_pop (n : nat) (s : LimitedStack) (ikey2 : Z) (fSuccess : bool) : outcome exit LimitedStack :=
  match n with
  | O => Ok s
  | S n =>
      _ ← (if negb fSuccess && has flags SCRIPT_VERIFY_NULLFAIL && (ikey2 =? 0) then
             v <~ stacktop s Root (-1);
             require (vsize v =? 0) SCRIPT_ERR_SIG_NULLFAIL
           else Ok tt);
      let ikey2 := if 0 <? ikey2 then ikey2 - 1 else ikey2 in
      s <~ pop_back s Root;
      multisig_pop n s ikey2 fSuccess
  end.

Definition op_checkmultisig (opcode : Z) (e : exec_state) : outcome exit exec_state :=
  let s := es_stack e in
  let i := 1 in
  _ ← require (i <=? Z.of_nat (size s Root)) SCRIPT_ERR_INVALID_STACK_OPERATION;
  nKeysCount <~ multisig_count s i;
  _ ← require (0 <=? nKeysCount) SCRIPT_ERR_PUBKEY_COUNT;
  _ ← require (nKeysCount <=? GetMaxPubKeysPerMultiSig config utxo_after_genesis consensus) SCRIPT_ERR_PUBKEY_COUNT;
  let nOpCount := u64 (es_nOpCount e + nKeysCount) in
  _ ← require (IsValidMaxOpsPerScript nOpCount config utxo_after_genesis consensus) SCRIPT_ERR_OP_COUNT;
  let i := i + 1 in
  let ikey := i in
  let ikey2 := nKeysCount + 2 in
  let i := i + nKeysCount in
  _ ← require (i <=? Z.of_nat (size s Root)) SCRIPT_ERR_INVALID_STACK_OPERATION;
  nSigsCount <~ multisig_count s i;
  _ ← require (0 <=? nSigsCount) SCRIPT_ERR_SIG_COUNT;
  _ ← require (nSigsCount <=? nKeysCount) SCRIPT_ERR_SIG_COUNT;
  let i := i + 1 in
  let isig := i in
  let i := i + nSigsCount in
  _ ← require (i <=? Z.of_nat (size s Root)) SCRIPT_ERR_INVALID_STACK_OPERATION;
  scriptCode <~ multisig_script_code (Z.to_nat nSigsCount) s isig 0 (es_begincodehash e);
  '(fSuccess, polls) ← multisig_loop (S (Z.to_nat nKeysCount)) s scriptCode isig ikey nSigsCount nKeysCount (es_polls e);
  s ← multisig_pop (Z.to_nat (i - 1)) s ikey2 fSuccess;
  _ ← need s 1;
  dummy <~ stacktop s Root (-1);
  _ ← require (negb (has flags SCRIPT_VERIFY_NULLDUMMY && negb (vsize dummy =? 0))) SCRIPT_ERR_SIG_NULLDUMMY;
  s <~ pop_back s Root;
  s <~ push_back s Root (vch_of_bool fSuccess);
  s ← (if opcode =? code OP_CHECKMULTISIGVERIFY then
         if fSuccess : bool then lift (pop_back s Root) else Throw (Return SCRIPT_ERR_CHECKMULTISIGVERIFY)
       else Ok s);
  Ok (set_stack (set_polls (set_count e nOpCount) polls) s).

(** ** Byte string operations *)

(** [vch1] refers to the element below the top, which the pop leaves in place. *)

Definition op_cat (s : LimitedStack) : outcome exit LimitedStack :=
  _ ← need s 2;
  vch1 <~ stacktop s Root (-2);
  vch2 <~ stacktop s Root (-1);
  _ ← require (negb (negb utxo_after_genesis && (MAX_SCRIPT_ELEMENT_SIZE_BEFORE_GENESIS <? vsize vch1 + vsize vch2)))
        SCRIPT_ERR_PUSH_SIZE;
  let i := (size s Root - 2)%nat in
  s <~ pop_back s Root;
  lift (vec_append s Root i vch2).

Definition op_split (s : LimitedStack) : outcome exit LimitedStack :=
  _ ← need s 2;
  data <~ stacktop s Root (-2);
  top <~ stacktop s Root (-1);
  n <~ to_number top;
  negative <~ snum_lt n (Small 0);
  beyond <~ (if negative : bool then Ok true else snum_lt (Small (i64 (vsize data))) n);
  _ ← require (negb beyond) SCRIPT_ERR_INVALID_SPLIT_RANGE;
  position <~ snum_to_size_t_limited n;
  let n1 := take (Z.to_nat position) (stackElement data) in
  let n2 := drop (Z.to_nat position) (stackElement data) in
  s <~ pop_back s Root;
  s <~ pop_back s Root;
  s <~ push_back s Root n1;
  lift (push_back s Root n2).

(** ** Conversion operations *)

Definition op_num2bin (s : LimitedStack) : outcome exit LimitedStack :=
  _ ← need s 2;
  arg_1 <~ stacktop s Root (-1);
  n <~ to_number arg_1;
  negative <~ snum_lt n (Small 0);
  large <~ (if negative : bool then Ok true else snum_lt (Small INT_MAX) n);
  _ ← require (negb large) SCRIPT_ERR_PUSH_SIZE;
  size' <~ snum_to_size_t_limited n;
  _ ← require (negb (negb utxo_after_genesis && (MAX_SCRIPT_ELEMENT_SIZE_BEFORE_GENESIS <? size'))) SCRIPT_ERR_PUSH_SIZE;
  s <~ pop_back s Root;
  let i := (size s Root - 1)%nat in
  '(_, s) ← lift (vec_MinimallyEncode s Root i);
  rawnum <~ stacktop s Root (-1);
  _ ← require (negb (size' <? vsize rawnum)) SCRIPT_ERR_IMPOSSIBLE_ENCODING;
  if vsize rawnum =? size' then Ok s
  else
    '(signbit, s) ← lift (match list.last (stackElement rawnum) with
      | Some b => s ← vec_set s Root i (length (stackElement rawnum) - 1) (Z.land b 0x7f); Ok (Z.land b 0x80, s)
      | None => Ok (0, s)
      end);
    lift (vec_padRight s Root i size' signbit).

Definition op_bin2num (s : LimitedStack) : outcome exit LimitedStack :=
  _ ← need s 1;
  '(_, s) ← lift (vec_MinimallyEncode s Root (size s Root - 1));
  n <~ stacktop s Root (-1);
  _ ← require (IsMinimallyEncoded (stackElement n) maxScriptNumLength) SCRIPT_ERR_INVALID_NUMBER_RANGE;
  Ok s.

(** ** The [switch] *)

Definition on_stack (f : LimitedStack -> outcome exit LimitedStack) (e : exec_state) : outcome exit exec_state :=
  s ← f (es_stack e); Ok (set_stack e s).

Definition execute (opcode : Z) (fExec : bool) (e : exec_state) : outcome exit exec_state :=
  match opcode_of opcode with
  | Some (OP_1NEGATE | OP_1 | OP_2 | OP_3 | OP_4 | OP_5 | OP_6 | OP_7 | OP_8 | OP_9 | OP_10 | OP_11 | OP_12 | OP_13
         | OP_14 | OP_15 | OP_16) => on_stack (op_push_number opcode) e
  | Some OP_NOP => Ok e
  | Some OP_CHECKLOCKTIMEVERIFY => on_stack op_checklocktimeverify e
  | Some OP_CHECKSEQUENCEVERIFY => on_stack op_checksequenceverify e
  | Some (OP_NOP1 | OP_NOP4 | OP_NOP5 | OP_NOP6 | OP_NOP7 | OP_NOP8 | OP_NOP9 | OP_NOP10) => _ ← op_nop_upgradable; Ok e
  | Some (OP_IF | OP_NOTIF) => op_if opcode fExec e
  | Some OP_ELSE => op_else e
  | Some OP_ENDIF => op_endif e
  | Some OP_VERIFY => on_stack op_verify e
  | Some OP_RETURN => op_return e
  | Some OP_TOALTSTACK => on_stack op_toaltstack e
  | Some OP_FROMALTSTACK => on_stack op_fromaltstack e
  | Some OP_2DROP => on_stack op_2drop e
  | Some OP_2DUP => on_stack op_2dup e
  | Some OP_3DUP => on_stack op_3dup e
  | Some OP_2OVER => on_stack op_2over e
  | Some OP_2ROT => on_stack op_2rot e
  | Some OP_2SWAP => on_stack op_2swap e
  | Some OP_IFDUP => on_stack op_ifdup e
  | Some OP_DEPTH => on_stack op_depth e
  | Some OP_DROP => on_stack op_drop e
  | Some OP_DUP => on_stack op_dup e
  | Some OP_NIP => on_stack op_nip e
  | Some OP_OVER => on_stack op_over e
  | Some (OP_PICK | OP_ROLL) => on_stack (op_pick_roll opcode) e
  | Some OP_ROT => on_stack op_rot e
  | Some OP_SWAP => on_stack op_swap e
  | Some OP_TUCK => on_stack op_tuck e
  | Some OP_SIZE => on_stack op_size e
  | Some (OP_AND | OP_OR | OP_XOR) => on_stack (op_bitwise opcode) e
  | Some OP_INVERT => on_stack op_invert e
  | Some OP_LSHIFT => op_shift LShift e
  | Some OP_RSHIFT => op_shift RShift e
  | Some (OP_EQUAL | OP_EQUALVERIFY) => on_stack (op_equal opcode) e
  | Some (OP_1ADD | OP_1SUB | OP_NEGATE | OP_ABS | OP_NOT | OP_0NOTEQUAL) => on_stack (op_unary opcode) e
  | Some (OP_ADD | OP_SUB | OP_MUL | OP_DIV | OP_MOD | OP_BOOLAND | OP_BOOLOR | OP_NUMEQUAL | OP_NUMEQUALVERIFY
         | OP_NUMNOTEQUAL | OP_LESSTHAN | OP_GREATERTHAN | OP_LESSTHANOREQUAL | OP_GREATERTHANOREQUAL | OP_MIN | OP_MAX) =>
      on_stack (op_binary opcode) e
  | Some OP_WITHIN => on_stack op_within e
  | Some (OP_RIPEMD160 | OP_SHA1 | OP_SHA256 | OP_HASH160 | OP_HASH256) => on_stack (op_hash opcode) e
  | Some OP_CODESEPARATOR => Ok (set_begincodehash e)
  | Some (OP_CHECKSIG | OP_CHECKSIGVERIFY) => on_stack (op_checksig opcode (es_begincodehash e)) e
  | Some (OP_CHECKMULTISIG | OP_CHECKMULTISIGVERIFY) => op_checkmultisig opcode e
  | Some OP_CAT => on_stack op_cat e
  | Some OP_SPLIT => on_stack op_split e
  | Some OP_NUM2BIN => on_stack op_num2bin e
  | Some OP_BIN2NUM => on_stack op_bin2num e
  | _ =>
      if IsInvalidBranchingOpcode opcode && utxo_after_genesis && negb fExec then Ok e
      else Throw (Return SCRIPT_ERR_BAD_OPCODE)
  end.

(** ** One turn of the main loop, on a script of [len] bytes *)

Definition script_step (len : Z) (e : exec_state) : outcome exit exec_state :=
  polls ← poll (es_polls e);
  let e := set_polls e polls in
  match GetOp2 (es_pc e) with
  | None => Throw (Return SCRIPT_ERR_BAD_OPCODE)
  | Some (opcode, vchPushValue, pc) =>
      let e := set_pc e pc (len - script_size pc) in
      _ ← require (negb (negb utxo_after_genesis &&
                         (MAX_SCRIPT_ELEMENT_SIZE_BEFORE_GENESIS <? Z.of_nat (length vchPushValue)))) SCRIPT_ERR_PUSH_SIZE;
      let fExec := forallb id (es_vfExec e) && (negb (es_nonTopLevelReturnAfterGenesis e) || (opcode =? code OP_RETURN)) in
      e ← (if code OP_16 <? opcode then
             let nOpCount := u64 (es_nOpCount e + 1) in
             _ ← require (IsValidMaxOpsPerScript nOpCount config utxo_after_genesis consensus) SCRIPT_ERR_OP_COUNT;
             Ok (set_count e nOpCount)
           else Ok e);
      _ ← require (negb (IsOpcodeDisabled opcode && (negb utxo_after_genesis || fExec))) SCRIPT_ERR_DISABLED_OPCODE;
      e ← (if fExec && (0 <=? opcode) && (opcode <=? code OP_PUSHDATA4) then
             _ ← require (negb (fRequireMinimal && negb (CheckMinimalPush vchPushValue opcode))) SCRIPT_ERR_MINIMALDATA;
             s <~ push_back (es_stack e) Root vchPushValue;
             Ok (set_stack e s)
           else if fExec || ((code OP_IF <=? opcode) && (opcode <=? code OP_ENDIF)) then execute opcode fExec e
           else Ok e);
      _ ← require (negb (negb utxo_after_genesis &&
                         (MAX_STACK_ELEMENTS_BEFORE_GENESIS <? Z.of_nat (size (es_stack e) Root + size (es_stack e) Child))))
            SCRIPT_ERR_STACK_SIZE;
      Ok e
  end.

(** [while (pc < pend)]: every turn reads at least one byte, so the length of the script bounds them. *)

Fixpoint script_loop (fuel : nat) (len : Z) (e : exec_state) : outcome exit exec_state :=
  match es_pc e with
  | [] => Ok e
  | _ =>
      match fuel with
      | O => Abort
      | S fuel => e ← script_step len e; script_loop fuel len e
      end
  end.

(** ** [EvalScript] *)

Inductive eval_result :=
| EvalTrue (e : exec_state)
| EvalFalse (err : ScriptError)
| EvalCancelled
| EvalUndefined.

(** The [catch] clauses. *)

Definition error_of_exn (e : exn) : ScriptError :=
  match e with
  | scriptnum_overflow_error => SCRIPT_ERR_SCRIPTNUM_OVERFLOW
  | scriptnum_minencode_error => SCRIPT_ERR_SCRIPTNUM_MINENCODE
  | stack_overflow_error => SCRIPT_ERR_STACK_SIZE
  | big_int_error => SCRIPT_ERR_BIG_INT
  | _ => SCRIPT_ERR_UNKNOWN_ERROR
  end.

Definition EvalScript_from (script : list Z) (stacks : LimitedStack) (vfExec vfElse : list bool) (polls : nat) (ipc : Z) : eval_result :=
  if GetMaxScriptSize config utxo_after_genesis consensus <? script_size script then EvalFalse SCRIPT_ERR_SCRIPT_SIZE
  else
    let e := {| es_stack := stacks; es_vfExec := vfExec; es_vfElse := vfElse; es_pc := script; es_begincodehash := script;
                es_nOpCount := 0; es_nonTopLevelReturnAfterGenesis := false; es_polls := polls; es_ipc := ipc |} in
    match script_loop (length script) (script_size script) e with
    | Ok e => match es_vfExec e with [] => EvalTrue e | _ => EvalFalse SCRIPT_ERR_UNBALANCED_CONDITIONAL end
    | Throw (Succeed e) => EvalTrue e
    | Throw (Return err) => EvalFalse err
    | Throw (Exn x) => EvalFalse (error_of_exn x)
    | Throw Cancelled => EvalCancelled
    | Abort => EvalUndefined
    end.

Definition EvalScript (script : list Z) (stack : LimitedStack) (polls : nat) : eval_result :=
  EvalScript_from script (makeChildStack stack) [] [] polls 0.

End interpreter.

(** ** [VerifyScript] *)

Section verify.
Context `{BN_API} `{Secp256k1}.
Context (config : CScriptConfig) (consensus : bool) (checker : BaseSignatureChecker) (token : nat -> bool).

Inductive verify_result :=
| VerifyTrue
| VerifyFalse (err : ScriptError)
| VerifyCancelled
| VerifyUndefined.

(** [if (auto res = EvalScript(...); !res.has_value() || !res.value()) return res]. *)

Definition eval_then (r : eval_result) (k : exec_state -> verify_result) : verify_result :=
  match r with
  | EvalTrue e => k e
  | EvalFalse err => VerifyFalse err
  | EvalCancelled => VerifyCancelled
  | EvalUndefined => VerifyUndefined
  end.

(** [stack.empty() || !CastToBool(stack.back())] fails the script. *)

Definition top_is_true (s : LimitedStack) : bool :=
  match list.last (root s) with Some v => CastToBool (stackElement v) | None => false end.

Definition check_clean_stack (flags : Z) (s : LimitedStack) : verify_result :=
  if has flags SCRIPT_VERIFY_CLEANSTACK then
    if negb (has flags SCRIPT_VERIFY_P2SH) then VerifyUndefined
    else if negb (size s Root =? 1)%nat then VerifyFalse SCRIPT_ERR_CLEANSTACK
    else VerifyTrue
  else VerifyTrue.

(** The P2SH evaluation, from the copy of the stack after [scriptSig]. *)

Definition verify_p2sh (flags : Z) (scriptSig : list Z) (stackCopy : LimitedStack) (polls : nat) : verify_result :=
  if negb (IsPushOnly scriptSig) then VerifyFalse SCRIPT_ERR_SIG_PUSHONLY
  else
    match list.last (root stackCopy) with
    | None => VerifyUndefined
    | Some v =>
        let pubKey2 := stackElement v in
        match pop_back stackCopy Root with
        | Ok stack =>
            eval_then (EvalScript config consensus flags checker token pubKey2 stack polls) (fun e =>
              if negb (top_is_true (es_stack e)) then VerifyFalse SCRIPT_ERR_EVAL_FALSE
              else check_clean_stack flags (es_stack e))
        | _ => VerifyUndefined
        end
    end.

Definition VerifyScript (scriptSig scriptPubKey : list Z) (flags : Z) (polls : nat) : verify_result :=
  let flags := if has flags SCRIPT_ENABLE_SIGHASH_FORKID then Z.lor flags SCRIPT_VERIFY_STRICTENC else flags in
  if has flags SCRIPT_VERIFY_SIGPUSHONLY && negb (IsPushOnly scriptSig) then VerifyFalse SCRIPT_ERR_SIG_PUSHONLY
  else
    let stack := new_stack (GetMaxStackMemoryUsage config (has flags SCRIPT_UTXO_AFTER_GENESIS) consensus) in
    eval_then (EvalScript config consensus flags checker token scriptSig stack polls) (fun e1 =>
      let stackCopy := es_stack e1 in
      eval_then (EvalScript config consensus flags checker token scriptPubKey (es_stack e1) (es_polls e1)) (fun e2 =>
        if negb (top_is_true (es_stack e2)) then VerifyFalse SCRIPT_ERR_EVAL_FALSE
        else if has flags SCRIPT_VERIFY_P2SH && negb (has flags SCRIPT_UTXO_AFTER_GENESIS) && IsP2SH scriptPubKey
        then verify_p2sh flags scriptSig stackCopy (es_polls e2)
        else check_clean_stack flags (es_stack e2))).

End verify.
