(* ===== verification/Shift.v ===== *)
(** * Bit shifts of byte strings

    [RShift] and [LShift] of [src/script/interpreter.cpp] shift byte by byte with masks and carries; they
    compute the shifts of the big-endian number the string denotes, within its width. *)

From S2P Require Import Prelude Common IntSer BigInt ScriptNum Stack Script Hasher Sha2 Ripemd160 Sha1 Hash Flags SigEnc Interp.

(** ** Bytes of a big-endian number *)

Lemma nth_le_bytes n v k : (k < n)%nat -> nth k (le_bytes n v) 0 = (v / 2 ^ (8 * Z.of_nat k)) mod 256.
Proof.
  revert v k. induction n as [|n IH]; intros v k Hk; [lia|]. destruct k as [|k]; [by rewrite Z.div_1_r|].
  cbn [le_bytes nth]. rewrite IH by lia. f_equal. rewrite Z.div_div by (apply pow2_pos || lia; lia). f_equal.
  change 256 with (2 ^ 8). rewrite <- Z.pow_add_r by lia. f_equal. lia.
Qed.

Lemma nth_be_bytes n v k : (k < n)%nat -> nth k (be_bytes n v) 0 = (v / 2 ^ (8 * (Z.of_nat n - 1 - Z.of_nat k))) mod 256.
Proof.
  intros Hk. unfold be_bytes. rewrite rev_nth by (rewrite length_le_bytes; lia). rewrite length_le_bytes, nth_le_bytes by lia.
  do 3 f_equal. lia.
Qed.

(** The number the first [j] bytes denote. *)

Definition prefix (x : list Z) (j : nat) : Z := be_val (take j x).

Lemma prefix_S x j : (j < length x)%nat -> prefix x (S j) = 256 * prefix x j + nth j x 0.
Proof.
  intros Hj. unfold prefix. destruct (lookup_lt_is_Some_2 x j Hj) as [b Hb]. rewrite (take_S_r x j b) by done.
  rewrite (nth_lookup_Some x j 0 b) by done. unfold be_val. rewrite rev_app_distr. cbn [rev app le_val]. lia.
Qed.

Lemma be_val_app l1 l2 : be_val (l1 ++ l2) = be_val l1 * 2 ^ (8 * Z.of_nat (length l2)) + be_val l2.
Proof. unfold be_val. rewrite rev_app_distr, le_val_app, length_rev. lia. Qed.

Lemma prefix_div x j : bytes x -> (j <= length x)%nat -> be_val x / 2 ^ (8 * (Z.of_nat (length x) - Z.of_nat j)) = prefix x j.
Proof.
  intros Hx Hj. rewrite <- (take_drop j x) at 1. rewrite be_val_app, length_drop.
  pose proof (be_val_bound (drop j x) ltac:(auto with bytes)) as Hb. rewrite length_drop in Hb.
  replace (8 * (Z.of_nat (length x) - Z.of_nat j)) with (8 * Z.of_nat (length x - j)) by lia.
  rewrite Z.div_add_l, Z.div_small by lia. unfold prefix. lia.
Qed.

Lemma nth_byte x i : bytes x -> is_byte (nth i x 0).
Proof.
  intros Hx. destruct (nth_lookup_or_length x i 0) as [E | E]; [by apply (Forall_lookup_1 _ _ _ _ Hx E)|].
  rewrite nth_overflow by done. unfold is_byte. lia.
Qed.

(** ** One byte *)

Lemma byte_parts (b : nat) v : (b < 8)%nat -> is_byte v ->
  let m := make_rshift_mask b in let m' := make_lshift_mask b in
  Z.shiftr (Z.land v m) (Z.of_nat b) = v / 2 ^ Z.of_nat b /\
  u8 (Z.shiftl (Z.land v (u8 (Z.lnot m))) (8 - Z.of_nat b)) = (v * 2 ^ (8 - Z.of_nat b)) mod 256 /\
  u8 (Z.shiftl (Z.land v m') (Z.of_nat b)) = (v * 2 ^ Z.of_nat b) mod 256 /\
  Z.shiftr (Z.land v (u8 (Z.lnot m'))) (8 - Z.of_nat b) = v / 2 ^ (8 - Z.of_nat b).
Proof.
  intros Hb Hv. cbn zeta.
  do 8 (destruct b as [|b]; [split_and!; apply Z.eqb_eq; revert v Hv; refine (byte_forall (fun v => _ =? _) _); vm_compute; reflexivity|]).
  lia.
Qed.

(** A byte pair: the carried bits and the shifted ones do not overlap. *)

Lemma byte_pair (b : nat) v w : (b <= 8)%nat -> is_byte v -> is_byte w ->
  Z.lor (w / 2 ^ Z.of_nat b) ((v * 2 ^ (8 - Z.of_nat b)) mod 256) = ((256 * v + w) / 2 ^ Z.of_nat b) mod 256.
Proof.
  intros Hb Hv Hw. unfold is_byte in *. pose proof (pow2_pos (Z.of_nat b) ltac:(lia)) as Hp.
  assert (2 ^ (8 - Z.of_nat b) * 2 ^ Z.of_nat b = 256) as E by (rewrite <- Z.pow_add_r by lia; by replace (8 - Z.of_nat b + Z.of_nat b) with 8 by lia).
  pose proof (pow2_pos (8 - Z.of_nat b) ltac:(lia)) as Hq.
  assert ((v * 2 ^ (8 - Z.of_nat b)) mod 256 = (v mod 2 ^ Z.of_nat b) * 2 ^ (8 - Z.of_nat b)) as ->.
  { rewrite <- E at 1. rewrite (Z.mul_comm (2 ^ (8 - _)) (2 ^ Z.of_nat b)). by rewrite Zmult_mod_distr_r. }
  assert (0 <= w / 2 ^ Z.of_nat b < 2 ^ (8 - Z.of_nat b)) as Hr.
  { split; [apply Z.div_pos; lia | apply Z.div_lt_upper_bound; nia]. }
  rewrite lor_low_high by lia. replace (256 * v + w) with (w + (v * 2 ^ (8 - Z.of_nat b)) * 2 ^ Z.of_nat b) by nia.
  rewrite Z.div_add by lia. rewrite (Z.div_mod v (2 ^ Z.of_nat b)) at 2 by lia.
  pose proof (Z.mod_pos_bound v (2 ^ Z.of_nat b) ltac:(lia)).
  replace (w / 2 ^ Z.of_nat b + (2 ^ Z.of_nat b * (v / 2 ^ Z.of_nat b) + v mod 2 ^ Z.of_nat b) * 2 ^ (8 - Z.of_nat b))
    with (w / 2 ^ Z.of_nat b + v mod 2 ^ Z.of_nat b * 2 ^ (8 - Z.of_nat b) + (v / 2 ^ Z.of_nat b) * 256) by (rewrite <- E; ring).
  rewrite Z_mod_plus_full. symmetry. apply Z.mod_small. nia.
Qed.

(** ** The loops *)

Lemma nth_or_at r p v k : nth k (or_at r p v) 0 = if decide (k = p /\ (p < length r)%nat) then Z.lor (nth k r 0) v else nth k r 0.
Proof.
  unfold or_at. rewrite !nth_lookup. case_decide as Hd.
  - destruct Hd as [-> Hp]. rewrite list_lookup_insert_eq by done. done.
  - destruct (decide (k = p)) as [->|]; [|by rewrite list_lookup_insert_ne].
    rewrite list_insert_ge by lia. done.
Qed.

Lemma length_or_at r p v : length (or_at r p v) = length r.
Proof. apply length_insert. Qed.

Lemma length_rshift x b q l r : length (foldl (rshift_step x b q) r l) = length r.
Proof.
  revert r. induction l as [|i l IH]; intros r; [done|]. cbn [foldl]. rewrite IH. unfold rshift_step. cbn zeta.
  repeat case_match; by rewrite ?length_or_at.
Qed.

Lemma or_at_guard (c : nat) r p v : length r = c -> (if (p <? c)%nat then or_at r p v else r) = or_at r p v.
Proof. intros <-. destruct (Nat.ltb_spec p (length r)); [done|]. unfold or_at. by rewrite list_insert_ge by lia. Qed.

Lemma nth_zeros n k : nth k (replicate n 0) 0 = 0.
Proof. rewrite nth_lookup. destruct (replicate n 0 !! k) eqn:E; [|done]. by apply lookup_replicate in E as [-> _]. Qed.

(** What byte [i] contributes to the bytes [i + q] and [i + q + 1]. *)

Definition part (b : bool) (v : Z) : Z := if b then v else 0.

Lemma rshift_fold x b q m k : (b < 8)%nat -> bytes x -> (k < length x)%nat -> (m <= length x)%nat ->
  nth k (foldl (rshift_step x b q) (replicate (length x) 0) (seq 0 m)) 0 =
  Z.lor (part (bool_decide (q <= k < q + m)%nat) (nth (k - q) x 0 / 2 ^ Z.of_nat b))
        (part (bool_decide (S q <= k < S q + m)%nat) ((nth (k - S q) x 0 * 2 ^ (8 - Z.of_nat b)) mod 256)).
Proof.
  intros Hb Hx Hk. induction m as [|m IH]; intros Hm.
  { cbn [seq foldl]. by rewrite nth_zeros, !bool_decide_false by lia. }
  rewrite seq_S, foldl_app. cbn [foldl Nat.add]. set (r := foldl _ _ _) in *.
  assert (length r = length x) as Hr by (subst r; by rewrite length_rshift, length_replicate).
  destruct (byte_parts b (nth m x 0) Hb (nth_byte x m Hx)) as (P1 & P2 & _). cbn zeta in P1, P2.
  unfold rshift_step. cbn zeta. rewrite P1, P2. rewrite (or_at_guard (length x) r) by done. rewrite or_at_guard by (by rewrite length_or_at).
  rewrite !nth_or_at, length_or_at, Hr, IH by lia. unfold part. clear IH P1 P2.
  destruct (decide (k = m + q)%nat) as [->|]; [|destruct (decide (k = m + q + 1)%nat) as [->|]].
  - rewrite decide_False, decide_True by lia. rewrite (bool_decide_false (q <= _ < q + m)%nat), (bool_decide_true (q <= _ < q + S m)%nat) by lia.
    rewrite (bool_decide_ext (S q <= m + q < S q + S m)%nat (S q <= m + q < S q + m)%nat) by lia.
    rewrite Z.lor_0_l, Z.lor_comm. by replace (m + q - q)%nat with m by lia.
  - rewrite decide_True by lia. rewrite decide_False by lia. rewrite !(bool_decide_false (q <= _ < _)%nat) by lia.
    rewrite (bool_decide_false (S q <= _ < S q + m)%nat), bool_decide_true by lia.
    rewrite !Z.lor_0_l. by replace (m + q + 1 - S q)%nat with m by lia.
  - rewrite !decide_False by lia. rewrite (bool_decide_ext (q <= k < q + S m)%nat (q <= k < q + m)%nat) by lia.
    by rewrite (bool_decide_ext (S q <= k < S q + S m)%nat (S q <= k < S q + m)%nat) by lia.
Qed.

(** Byte [j] of the number shifted right by [b] bits, from the bytes [j - 1] and [j]. *)

Lemma window (b : nat) x j : (b <= 8)%nat -> bytes x -> (j < length x)%nat ->
  (prefix x (S j) / 2 ^ Z.of_nat b) mod 256 =
  Z.lor (nth j x 0 / 2 ^ Z.of_nat b) (part (bool_decide (0 < j)%nat) ((nth (j - 1) x 0 * 2 ^ (8 - Z.of_nat b)) mod 256)).
Proof.
  intros Hb Hx Hj. pose proof (nth_byte x j Hx) as Hw. pose proof (pow2_pos (Z.of_nat b) ltac:(lia)). rewrite prefix_S by done.
  destruct j as [|j].
  - rewrite bool_decide_false by lia. unfold part, prefix. cbn [take]. change (be_val []) with 0. rewrite Z.lor_0_r. unfold is_byte in Hw.
    cbn [Z.mul Z.add]. apply Z.mod_small. split; [apply Z.div_pos; lia | apply Z.div_lt_upper_bound; nia].
  - rewrite bool_decide_true by lia. unfold part. cbn [Nat.sub]. rewrite Nat.sub_0_r. rewrite byte_pair by (done || by apply nth_byte).
    rewrite prefix_S by lia.
    assert (2 ^ (8 - Z.of_nat b) * 2 ^ Z.of_nat b = 256) as E by (rewrite <- Z.pow_add_r by lia; by replace (8 - Z.of_nat b + Z.of_nat b) with 8 by lia).
    replace (256 * (256 * prefix x j + nth j x 0) + nth (S j) x 0)
      with (256 * nth j x 0 + nth (S j) x 0 + (prefix x j * 2 ^ (8 - Z.of_nat b) * 256) * 2 ^ Z.of_nat b)
      by (transitivity (256 * nth j x 0 + nth (S j) x 0 + prefix x j * 256 * (2 ^ (8 - Z.of_nat b) * 2 ^ Z.of_nat b)); [ring | rewrite E; ring]).
    rewrite Z.div_add by lia. apply Z_mod_plus_full.
Qed.

Lemma shift_split n : 0 <= n -> n = 8 * Z.of_nat (Z.to_nat (n / 8)) + Z.of_nat (Z.to_nat (n mod 8)) /\ (Z.to_nat (n mod 8) < 8)%nat.
Proof.
  intros Hn. pose proof (Z.div_mod n 8 ltac:(lia)). pose proof (Z.mod_pos_bound n 8 ltac:(lia)). pose proof (Z.div_pos n 8 ltac:(lia) ltac:(lia)). lia.
Qed.

Lemma RShift_spec x n : bytes x -> 0 <= n -> RShift x n = be_bytes (length x) (be_val x / 2 ^ n).
Proof.
  intros Hx Hn. unfold RShift. destruct (shift_split n Hn) as [E Hb]. set (q := Z.to_nat (n / 8)) in *. set (b := Z.to_nat (n mod 8)) in *.
  apply nth_ext with (d := 0) (d' := 0); [unfold be_bytes; by rewrite length_rshift, length_replicate, length_rev, length_le_bytes|].
  intros k Hk. rewrite length_rshift, length_replicate in Hk. rewrite rshift_fold, nth_be_bytes by (lia || done).
  rewrite Z.div_div, <- Z.pow_add_r by first [apply pow2_pos; lia | apply Z.pow_nonzero; lia | lia]. clearbody q b. subst n.
  destruct (Nat.leb_spec q k) as [Hqk|Hqk].
  - replace (8 * Z.of_nat q + Z.of_nat b + 8 * (Z.of_nat (length x) - 1 - Z.of_nat k))
      with (8 * (Z.of_nat (length x) - Z.of_nat (S (k - q))) + Z.of_nat b) by lia.
    rewrite Z.pow_add_r, <- Z.div_div, prefix_div, window by first [apply pow2_pos; lia | apply Z.pow_nonzero; lia | lia | done].
    rewrite (bool_decide_true (q <= k < _)%nat) by lia. unfold part at 1. f_equal.
    rewrite (bool_decide_ext (S q <= k < S q + length x)%nat (0 < k - q)%nat) by lia. by replace (k - q - 1)%nat with (k - S q)%nat by lia.
  - rewrite !bool_decide_false by lia. cbn [part Z.lor]. pose proof (be_val_bound x Hx) as Hv.
    rewrite Z.div_small; [done|]. split; [lia|]. eapply Z.lt_le_trans; [apply Hv|]. apply Z.pow_le_mono_r; lia.
Qed.

Lemma length_lshift x b q l r : length (foldr (fun i r => lshift_step x b q r i) r l) = length r.
Proof.
  induction l as [|i l IH]; [done|]. cbn [foldr]. unfold lshift_step at 1. cbn zeta. repeat case_match; by rewrite ?length_or_at.
Qed.

Lemma lshift_fold x b q i m k : (b < 8)%nat -> bytes x -> (k < length x)%nat ->
  nth k (foldr (fun i r => lshift_step x b q r i) (replicate (length x) 0) (seq i m)) 0 =
  Z.lor (part (bool_decide (i <= k + q < i + m)%nat) ((nth (k + q) x 0 * 2 ^ Z.of_nat b) mod 256))
        (part (bool_decide (i <= k + q + 1 < i + m)%nat) (nth (k + q + 1) x 0 / 2 ^ (8 - Z.of_nat b))).
Proof.
  intros Hb Hx Hk. revert i. induction m as [|m IH]; intros i.
  { cbn [seq foldr]. by rewrite nth_zeros, !bool_decide_false by lia. }
  cbn [seq foldr]. set (r := foldr _ _ _) in *. specialize (IH (S i)). fold r in IH.
  assert (length r = length x) as Hr by (subst r; by rewrite length_lshift, length_replicate).
  destruct (byte_parts b (nth i x 0) Hb (nth_byte x i Hx)) as (_ & _ & P1 & P2). cbn zeta in P1, P2.
  unfold lshift_step. cbn zeta. rewrite P1, P2. clearbody r. clear P1 P2. unfold part in *.
  destruct (decide (k + q = i)%nat) as [<-|]; [|destruct (decide (k + q + 1 = i)%nat) as [<-|]].
  - rewrite (proj2 (Nat.leb_le _ _)) by lia. replace (k + q - q)%nat with k by lia.
    assert (forall z, nth k (if (1 <=? k)%nat then or_at (or_at r k z) (k - 1) (nth (k + q) x 0 / 2 ^ (8 - Z.of_nat b)) else or_at r k z) 0
      = Z.lor (nth k r 0) z) as ->.
    { intros z. destruct (1 <=? k)%nat eqn:E1; [apply Nat.leb_le in E1; rewrite nth_or_at, decide_False by lia|];
        rewrite nth_or_at, decide_True by lia; done. }
    rewrite IH, bool_decide_false, (bool_decide_true (k + q <= k + q < _)%nat) by lia. rewrite Z.lor_0_l, Z.lor_comm. f_equal.
    by rewrite (bool_decide_ext (S (k + q) <= k + q + 1 < S (k + q) + m)%nat (k + q <= k + q + 1 < k + q + S m)%nat) by lia.
  - rewrite (proj2 (Nat.leb_le _ _)) by lia. rewrite (proj2 (Nat.leb_le 1 _)) by lia. replace (k + q + 1 - q - 1)%nat with k by lia.
    rewrite nth_or_at, decide_True by (rewrite length_or_at; lia). rewrite nth_or_at, decide_False by lia. rewrite IH.
    rewrite !bool_decide_false, bool_decide_true by lia. done.
  - transitivity (nth k r 0).
    + repeat (case_match; try done); rewrite ?Nat.leb_le in *; rewrite ?nth_or_at, ?decide_False by lia; done.
    + rewrite IH. rewrite (bool_decide_ext (S i <= k + q < S i + m)%nat (i <= k + q < i + S m)%nat) by lia.
      by rewrite (bool_decide_ext (S i <= k + q + 1 < S i + m)%nat (i <= k + q + 1 < i + S m)%nat) by lia.
Qed.

Lemma foldl_rev_foldr {A B} (f : A -> B -> A) r (l : list B) : foldl f r (rev l) = foldr (fun i r => f r i) r l.
Proof. induction l as [|i l IH]; [done|]. cbn [rev foldr]. by rewrite foldl_app, IH. Qed.

Lemma LShift_spec x n : bytes x -> 0 <= n -> LShift x n = be_bytes (length x) (be_val x * 2 ^ n).
Proof.
  intros Hx Hn. unfold LShift. destruct (shift_split n Hn) as [E Hb]. set (q := Z.to_nat (n / 8)) in *. set (b := Z.to_nat (n mod 8)) in *.
  rewrite foldl_rev_foldr.
  apply nth_ext with (d := 0) (d' := 0); [unfold be_bytes; by rewrite length_lshift, length_replicate, length_rev, length_le_bytes|].
  intros k Hk. rewrite length_lshift, length_replicate in Hk. rewrite lshift_fold, nth_be_bytes by (lia || done).
  clearbody q b. subst n. set (L := length x) in *. set (w := Z.of_nat L - 1 - Z.of_nat k).
  assert (0 <= w) by lia. pose proof (pow2_pos (8 * w) ltac:(lia)). cbn [Nat.add].
  destruct (lt_eq_lt_dec (k + q + 1) L) as [[Hlt|Heq]|Hgt].
  - rewrite !bool_decide_true by lia. unfold part.
    assert (be_val x * 2 ^ (8 * Z.of_nat q + Z.of_nat b) / 2 ^ (8 * w) = prefix x (S (k + q + 1)) / 2 ^ Z.of_nat (8 - b)) as ->.
    { rewrite <- (prefix_div x (S (k + q + 1)) Hx) by (fold L; lia). fold L.
      rewrite Z.div_div, <- Z.pow_add_r by first [apply pow2_pos; lia | apply Z.pow_nonzero; lia | lia].
      rewrite (pow2_split (8 * Z.of_nat q + Z.of_nat b) (8 * w)), (Z.mul_comm (be_val x)) by lia.
      rewrite Z.div_mul_cancel_l by (apply Z.pow_nonzero; lia). do 2 f_equal. lia. }
    rewrite window by (lia || done). rewrite bool_decide_true by lia. unfold part. rewrite Z.lor_comm.
    replace (Z.of_nat (8 - b)) with (8 - Z.of_nat b) by lia. replace (8 - (8 - Z.of_nat b)) with (Z.of_nat b) by lia.
    by replace (k + q + 1 - 1)%nat with (k + q)%nat by lia.
  - rewrite bool_decide_true, bool_decide_false by lia. unfold part. rewrite Z.lor_0_r.
    rewrite Z.pow_add_r, (Z.mul_comm (2 ^ _)), Z.mul_assoc by lia. replace (8 * w) with (8 * Z.of_nat q) by lia.
    rewrite Z.div_mul by (apply Z.pow_nonzero; lia).
    pose proof (prefix_S x (k + q) ltac:(fold L; lia)) as Ep. unfold prefix in Ep. rewrite take_ge in Ep by (fold L; lia). rewrite Ep.
    rewrite Z.mul_add_distr_r, <- Z.mul_assoc, (Z.mul_comm 256), Z.add_comm, Z_mod_plus_full. done.
  - rewrite !bool_decide_false by lia. cbn [part Z.lor].
    replace (8 * Z.of_nat q + Z.of_nat b) with (8 * (Z.of_nat q - w - 1) + Z.of_nat b + 8 + 8 * w) by lia.
    rewrite (Z.pow_add_r 2 _ (8 * w)), Z.mul_assoc, Z.div_mul by (lia || (apply Z.pow_nonzero; lia)).
    rewrite Z.pow_add_r, Z.mul_assoc by lia. change (2 ^ 8) with 256. by rewrite Z_mod_mult.
Qed.

(** The shifts of byte strings: OP_LSHIFT and OP_RSHIFT move the bits of a string as one big-endian
    number of its width, whatever the length of the string and the distance: bits shifted out are lost and
    zeros come in. *)
Theorem shift_correct x n : bytes x -> 0 <= n ->
  LShift x n = be_bytes (length x) (be_val x * 2 ^ n) /\ RShift x n = be_bytes (length x) (be_val x / 2 ^ n) /\
  be_val (LShift x n) = (be_val x * 2 ^ n) mod 2 ^ (8 * Z.of_nat (length x)) /\ be_val (RShift x n) = be_val x / 2 ^ n.
Proof.
  intros Hx Hn. rewrite LShift_spec, RShift_spec by done. split_and!; [done..| |]; unfold be_val at 1, be_bytes;
    rewrite rev_involutive, le_val_le_bytes; [done|]. apply Z.mod_small. pose proof (be_val_bound x Hx). pose proof (pow2_pos n Hn).
  split; [apply Z.div_pos; lia|]. apply Z.div_lt_upper_bound; nia.
Qed.

Lemma shift_correct_witness : LShift [0x80; 0x01] 9 = [0x02; 0x00] /\ RShift [0x80; 0x01] 9 = [0x00; 0x40].
Proof.
  destruct (shift_correct [0x80; 0x01] 9) as (-> & -> & _); [by repeat constructor | done | done].
Defined.
