(* ===== verification/ScriptSpec.v ===== *)
(** * What a script means

    An abstract machine for scripts, the contract [EvalScript] is held to: a stack is a list of byte
    strings, top first, numbers are integers, and there is no memory accounting, no machine arithmetic, no
    exception and no undefined behaviour.  Every opcode is given by what it does to the lists. *)

From S2P Require Import Prelude Common IntSer BigInt ScriptNum Stack Script Hasher Sha2 Ripemd160 Sha1 Hash Flags SigEnc Interp.

(** ** Results: a value, a script error, or an early successful end of the script *)

Notation items := (list (list Z)).

Record sstate := {
  ss_stack : items;
  ss_alt : items;
  ss_exec : list bool;
  ss_else : list bool;
  ss_pc : list Z;
  ss_code : list Z;
  ss_count : Z;
  ss_returned : bool
}.

Inductive spec (A : Type) :=
| Val (x : A)
| Fail (err : ScriptError)
| Stop (e : sstate).

Arguments Val {A} _.
Arguments Fail {A} _.
Arguments Stop {A} _.

#[export] Instance spec_ret : MRet spec := @Val.

#[export] Instance spec_bind : MBind spec :=
  fun _ _ k o => match o with Val x => k x | Fail err => Fail err | Stop e => Stop e end.

Definition low {A} : spec A := Fail SCRIPT_ERR_INVALID_STACK_OPERATION.

Definition guard_ (b : bool) (err : ScriptError) : spec unit := if b then Val tt else Fail err.

Definition with_stack (e : sstate) (st : items) : sstate :=
  {| ss_stack := st; ss_alt := ss_alt e; ss_exec := ss_exec e; ss_else := ss_else e; ss_pc := ss_pc e;
     ss_code := ss_code e; ss_count := ss_count e; ss_returned := ss_returned e |}.

Definition with_alt (e : sstate) (alt : items) : sstate :=
  {| ss_stack := ss_stack e; ss_alt := alt; ss_exec := ss_exec e; ss_else := ss_else e; ss_pc := ss_pc e;
     ss_code := ss_code e; ss_count := ss_count e; ss_returned := ss_returned e |}.

Definition with_branches (e : sstate) (ex el : list bool) : sstate :=
  {| ss_stack := ss_stack e; ss_alt := ss_alt e; ss_exec := ex; ss_else := el; ss_pc := ss_pc e;
     ss_code := ss_code e; ss_count := ss_count e; ss_returned := ss_returned e |}.

Definition with_pc (e : sstate) (pc : list Z) : sstate :=
  {| ss_stack := ss_stack e; ss_alt := ss_alt e; ss_exec := ss_exec e; ss_else := ss_else e; ss_pc := pc;
     ss_code := ss_code e; ss_count := ss_count e; ss_returned := ss_returned e |}.

Definition with_code (e : sstate) (c : list Z) : sstate :=
  {| ss_stack := ss_stack e; ss_alt := ss_alt e; ss_exec := ss_exec e; ss_else := ss_else e; ss_pc := ss_pc e;
     ss_code := c; ss_count := ss_count e; ss_returned := ss_returned e |}.

Definition with_count (e : sstate) (n : Z) : sstate :=
  {| ss_stack := ss_stack e; ss_alt := ss_alt e; ss_exec := ss_exec e; ss_else := ss_else e; ss_pc := ss_pc e;
     ss_code := ss_code e; ss_count := n; ss_returned := ss_returned e |}.

Definition with_returned (e : sstate) : sstate :=
  {| ss_stack := ss_stack e; ss_alt := ss_alt e; ss_exec := ss_exec e; ss_else := ss_else e; ss_pc := ss_pc e;
     ss_code := ss_code e; ss_count := ss_count e; ss_returned := true |}.

(** ** Byte strings as booleans and numbers *)

Definition truth (x : list Z) : bool := negb (num_val x =? 0).

(** The minimal encoding of an integer. *)

Definition enc (z : Z) : list Z := bint_serialize (H := Z_BN) z.

Definition of_bool (b : bool) : list Z := if b then [1] else [].

#[export] Instance minimal_dec l : Decision (minimal l).
Proof. unfold minimal. apply _. Defined.

(** ** Opcodes that move elements *)

Definition shuffle (o : opcodetype) (st : items) : spec items :=
  match o with
  | OP_2DROP => match st with _ :: _ :: r => Val r | _ => low end
  | OP_2DUP => match st with b :: a :: r => Val (b :: a :: b :: a :: r) | _ => low end
  | OP_3DUP => match st with c :: b :: a :: r => Val (c :: b :: a :: c :: b :: a :: r) | _ => low end
  | OP_2OVER => match st with d :: c :: b :: a :: r => Val (b :: a :: d :: c :: b :: a :: r) | _ => low end
  | OP_2ROT => match st with f :: e :: d :: c :: b :: a :: r => Val (b :: a :: f :: e :: d :: c :: r) | _ => low end
  | OP_2SWAP => match st with d :: c :: b :: a :: r => Val (b :: a :: d :: c :: r) | _ => low end
  | OP_IFDUP => match st with a :: r => Val (if truth a then a :: a :: r else a :: r) | _ => low end
  | OP_DEPTH => Val (enc (Z.of_nat (length st)) :: st)
  | OP_DROP => match st with _ :: r => Val r | _ => low end
  | OP_DUP => match st with a :: r => Val (a :: a :: r) | _ => low end
  | OP_NIP => match st with b :: _ :: r => Val (b :: r) | _ => low end
  | OP_OVER => match st with b :: a :: r => Val (a :: b :: a :: r) | _ => low end
  | OP_ROT => match st with c :: b :: a :: r => Val (a :: c :: b :: r) | _ => low end
  | OP_SWAP => match st with b :: a :: r => Val (a :: b :: r) | _ => low end
  | OP_TUCK => match st with b :: a :: r => Val (b :: a :: b :: r) | _ => low end
  | _ => match st with a :: r => Val (enc (Z.of_nat (length a)) :: a :: r) | _ => low end
  end.

Section machine.
Context `{Secp256k1}.
Context (config : CScriptConfig) (consensus : bool) (flags : Z).
Context (sig : list Z -> list Z -> list Z -> bool -> bool) (lock seqlock : Z -> bool).

Notation genesis := (utxo_after_genesis flags).

(** A number of at most [limit] bytes. *)

Definition numeral (limit : Z) (x : list Z) : spec Z :=
  if limit <? Z.of_nat (length x) then Fail SCRIPT_ERR_SCRIPTNUM_OVERFLOW
  else if fRequireMinimal flags && negb (bool_decide (minimal x)) then Fail SCRIPT_ERR_SCRIPTNUM_MINENCODE
  else Val (num_val x).

Definition operand_of (x : list Z) : spec Z := numeral (maxScriptNumLength config consensus flags) x.

(** ** Numeric opcodes *)

Definition unop (o : opcodetype) (n : Z) : Z :=
  match o with
  | OP_1ADD => n + 1
  | OP_1SUB => n - 1
  | OP_NEGATE => - n
  | OP_ABS => Z.abs n
  | OP_NOT => Z.b2z (n =? 0)
  | _ => Z.b2z (negb (n =? 0))
  end.

Definition binop (o : opcodetype) (a b : Z) : spec Z :=
  match o with
  | OP_ADD => Val (a + b)
  | OP_SUB => Val (a - b)
  | OP_MUL => Val (a * b)
  | OP_DIV => if b =? 0 then Fail SCRIPT_ERR_DIV_BY_ZERO else Val (Z.quot a b)
  | OP_MOD => if b =? 0 then Fail SCRIPT_ERR_MOD_BY_ZERO else Val (Z.rem a b)
  | OP_BOOLAND => Val (Z.b2z (negb (a =? 0) && negb (b =? 0)))
  | OP_BOOLOR => Val (Z.b2z (negb (a =? 0) || negb (b =? 0)))
  | OP_NUMEQUAL => Val (Z.b2z (a =? b))
  | OP_NUMNOTEQUAL => Val (Z.b2z (negb (a =? b)))
  | OP_LESSTHAN => Val (Z.b2z (a <? b))
  | OP_GREATERTHAN => Val (Z.b2z (b <? a))
  | OP_LESSTHANOREQUAL => Val (Z.b2z (a <=? b))
  | OP_GREATERTHANOREQUAL => Val (Z.b2z (b <=? a))
  | OP_MIN => Val (Z.min a b)
  | OP_MAX => Val (Z.max a b)
  | _ => if a =? b then Val 1 else Fail SCRIPT_ERR_NUMEQUALVERIFY
  end.

Definition s_unary (o : opcodetype) (st : items) : spec items :=
  match st with x :: r => n ← operand_of x; Val (enc (unop o n) :: r) | _ => low end.

Definition s_binary (o : opcodetype) (st : items) : spec items :=
  match st with
  | y :: x :: r =>
      a ← operand_of x;
      b ← operand_of y;
      n ← binop o a b;
      Val (match o with OP_NUMEQUALVERIFY => r | _ => enc n :: r end)
  | _ => low
  end.

Definition s_within (st : items) : spec items :=
  match st with
  | z :: y :: x :: r =>
      a ← operand_of x; lo ← operand_of y; hi ← operand_of z;
      Val (of_bool ((lo <=? a) && (a <? hi)) :: r)
  | _ => low
  end.

(** ** Copying from depth, byte strings, bits *)

Definition s_pick (roll : bool) (st : items) : spec items :=
  match st with
  | x :: r =>
      if (length r =? 0)%nat then low
      else
        n ← operand_of x;
        if (n <? 0) || (Z.of_nat (length r) <=? n) then low
        else Val (nth (Z.to_nat n) r [] :: if roll then delete (Z.to_nat n) r else r)
  | _ => low
  end.

Definition s_cat (st : items) : spec items :=
  match st with
  | y :: x :: r =>
      if negb genesis && (MAX_SCRIPT_ELEMENT_SIZE_BEFORE_GENESIS <? Z.of_nat (length x + length y)) then Fail SCRIPT_ERR_PUSH_SIZE
      else Val ((x ++ y) :: r)
  | _ => low
  end.

Definition s_split (st : items) : spec items :=
  match st with
  | y :: x :: r =>
      n ← operand_of y;
      if (n <? 0) || (Z.of_nat (length x) <? n) then Fail SCRIPT_ERR_INVALID_SPLIT_RANGE
      else Val (drop (Z.to_nat n) x :: take (Z.to_nat n) x :: r)
  | _ => low
  end.

(** The [k]-byte sign-magnitude representation of [z]. *)

Definition sign_magnitude (k : nat) (z : Z) : list Z :=
  le_bytes k (Z.abs z + if z <? 0 then 2 ^ (8 * Z.of_nat k - 1) else 0).

Definition s_num2bin (st : items) : spec items :=
  match st with
  | y :: x :: r =>
      n ← operand_of y;
      if (n <? 0) || (INT_MAX <? n) then Fail SCRIPT_ERR_PUSH_SIZE
      else if negb genesis && (MAX_SCRIPT_ELEMENT_SIZE_BEFORE_GENESIS <? n) then Fail SCRIPT_ERR_PUSH_SIZE
      else if n <? Z.of_nat (length (enc (num_val x))) then Fail SCRIPT_ERR_IMPOSSIBLE_ENCODING
      else Val (sign_magnitude (Z.to_nat n) (num_val x) :: r)
  | _ => low
  end.

Definition s_bin2num (st : items) : spec items :=
  match st with
  | x :: r =>
      let v := enc (num_val x) in
      if maxScriptNumLength config consensus flags <? Z.of_nat (length v) then Fail SCRIPT_ERR_INVALID_NUMBER_RANGE
      else Val (v :: r)
  | _ => low
  end.

Definition bitop (o : opcodetype) : Z -> Z -> Z :=
  match o with OP_AND => Z.land | OP_OR => Z.lor | _ => Z.lxor end.

Definition s_bitwise (o : opcodetype) (st : items) : spec items :=
  match st with
  | y :: x :: r =>
      if (length x =? length y)%nat then Val (zip_with (bitop o) x y :: r) else Fail SCRIPT_ERR_INVALID_OPERAND_SIZE
  | _ => low
  end.

Definition s_invert (st : items) : spec items :=
  match st with x :: r => Val (map (fun b => 255 - b) x :: r) | _ => low end.

(** Shifts are those of the big-endian number, within its width. *)

Definition s_shift (left : bool) (st : items) : spec items :=
  match st with
  | y :: x :: r =>
      n ← operand_of y;
      if n <? 0 then Fail SCRIPT_ERR_INVALID_NUMBER_RANGE
      else Val (be_bytes (length x) (if left then be_val x * 2 ^ n else be_val x / 2 ^ n) :: r)
  | _ => low
  end.

Definition s_equal (verify : bool) (st : items) : spec items :=
  match st with
  | y :: x :: r =>
      if verify then if bool_decide (x = y) then Val r else Fail SCRIPT_ERR_EQUALVERIFY
      else Val (of_bool (bool_decide (x = y)) :: r)
  | _ => low
  end.

Definition digest (o : opcodetype) (x : list Z) : list Z :=
  match o with
  | OP_RIPEMD160 => rmd160 x
  | OP_SHA1 => fips_sha1 x
  | OP_SHA256 => fips_sha256 x
  | OP_HASH160 => rmd160 (fips_sha256 x)
  | _ => fips_sha256 (fips_sha256 x)
  end.

Definition s_hash (o : opcodetype) (st : items) : spec items :=
  match st with x :: r => Val (digest o x :: r) | _ => low end.

(** ** Lock times *)

Definition s_locktime (f : Z) (unless : Z -> bool) (check : Z -> bool) (st : items) : spec items :=
  if negb (has flags f) || genesis then
    if has flags SCRIPT_VERIFY_DISCOURAGE_UPGRADABLE_NOPS then Fail SCRIPT_ERR_DISCOURAGE_UPGRADABLE_NOPS else Val st
  else
    match st with
    | x :: _ =>
        n ← numeral 5 x;
        if n <? 0 then Fail SCRIPT_ERR_NEGATIVE_LOCKTIME
        else if unless n || check n then Val st else Fail SCRIPT_ERR_UNSATISFIED_LOCKTIME
    | _ => low
    end.

(** ** Signatures *)

Definition encodings (sg key : list Z) : spec unit :=
  let err := default SCRIPT_ERR_UNKNOWN_ERROR (CheckSignatureEncoding sg flags) in
  _ ← guard_ (bool_decide (err = SCRIPT_ERR_OK)) err;
  let err := CheckPubKeyEncoding key flags in
  guard_ (bool_decide (err = SCRIPT_ERR_OK)) err.

Definition signed (sg key code : list Z) : bool := sig sg key code (has flags SCRIPT_ENABLE_SIGHASH_FORKID).

Definition verdict (verify ok : bool) (err : ScriptError) (r : items) : spec items :=
  if verify then if ok then Val r else Fail err else Val (of_bool ok :: r).

Definition s_checksig (verify : bool) (code : list Z) (st : items) : spec items :=
  match st with
  | key :: sg :: r =>
      _ ← encodings sg key;
      let ok := signed sg key (CleanupScriptCode code sg flags) in
      if negb ok && has flags SCRIPT_VERIFY_NULLFAIL && negb (bool_decide (sg = [])) then Fail SCRIPT_ERR_SIG_NULLFAIL
      else verdict verify ok SCRIPT_ERR_CHECKSIGVERIFY r
  | _ => low
  end.

(** Signatures and keys are matched in order, each key being tried once; the matching gives up as soon as
    there are more signatures than keys left. *)

Fixpoint match_signatures (code : list Z) (sigs keys : items) : spec bool :=
  match sigs, keys with
  | [], _ => Val true
  | _, [] => Val false
  | sg :: sigs', key :: keys' =>
      _ ← encodings sg key;
      let left := if signed sg key code then sigs' else sigs in
      if (length keys' <? length left)%nat then Val false else match_signatures code left keys'
  end.

Definition s_multisig_body (verify : bool) (code : list Z) (keys sigs : items) (rest : items) : spec items :=
  match rest with
  | dummy :: rest =>
      ok ← match_signatures (foldl (fun c sg => CleanupScriptCode c sg flags) code sigs) sigs keys;
      if negb ok && has flags SCRIPT_VERIFY_NULLFAIL && negb (forallb (fun sg => bool_decide (sg = [])) sigs)
      then Fail SCRIPT_ERR_SIG_NULLFAIL
      else if has flags SCRIPT_VERIFY_NULLDUMMY && negb (bool_decide (dummy = [])) then Fail SCRIPT_ERR_SIG_NULLDUMMY
      else verdict verify ok SCRIPT_ERR_CHECKMULTISIGVERIFY rest
  | [] => low
  end.

Definition s_multisig (verify : bool) (e : sstate) : spec sstate :=
  match ss_stack e with
  | x :: r =>
      n ← numeral 4 x;
      if (n <? 0) || (GetMaxPubKeysPerMultiSig config genesis consensus <? n) then Fail SCRIPT_ERR_PUBKEY_COUNT
      else
        let count := u64 (ss_count e + n) in
        if negb (IsValidMaxOpsPerScript count config genesis consensus) then Fail SCRIPT_ERR_OP_COUNT
        else
          match drop (Z.to_nat n) r with
          | y :: r' =>
              m ← numeral 4 y;
              if (m <? 0) || (n <? m) then Fail SCRIPT_ERR_SIG_COUNT
              else
                st ← s_multisig_body verify (ss_code e) (take (Z.to_nat n) r) (take (Z.to_nat m) r') (drop (Z.to_nat m) r');
                Val (with_stack (with_count e count) st)
          | [] => low
          end
  | [] => low
  end.

(** ** Control *)

Definition s_if (negate fExec : bool) (e : sstate) : spec sstate :=
  if fExec then
    match ss_stack e with
    | x :: r =>
        if has flags SCRIPT_VERIFY_MINIMALIF && negb (bool_decide (x = [] \/ x = [1])) then Fail SCRIPT_ERR_MINIMALIF
        else Val (with_branches (with_stack e r) (xorb negate (truth x) :: ss_exec e) (false :: ss_else e))
    | _ => Fail SCRIPT_ERR_UNBALANCED_CONDITIONAL
    end
  else Val (with_branches e (false :: ss_exec e) (false :: ss_else e)).

Definition s_else (e : sstate) : spec sstate :=
  match ss_exec e, ss_else e with
  | x :: xs, y :: ys =>
      if y && genesis then Fail SCRIPT_ERR_UNBALANCED_CONDITIONAL else Val (with_branches e (negb x :: xs) (true :: ys))
  | _, _ => Fail SCRIPT_ERR_UNBALANCED_CONDITIONAL
  end.

Definition s_endif (e : sstate) : spec sstate :=
  match ss_exec e, ss_else e with
  | _ :: xs, _ :: ys => Val (with_branches e xs ys)
  | _, _ => Fail SCRIPT_ERR_UNBALANCED_CONDITIONAL
  end.

Definition s_return (e : sstate) : spec sstate :=
  if negb genesis then Fail SCRIPT_ERR_OP_RETURN
  else match ss_exec e with [] => Stop e | _ => Val (with_returned e) end.

Definition s_verify (st : items) : spec items :=
  match st with x :: r => if truth x then Val r else Fail SCRIPT_ERR_VERIFY | _ => low end.

(** ** One instruction *)

Definition on_items (f : items -> spec items) (e : sstate) : spec sstate :=
  st ← f (ss_stack e); Val (with_stack e st).

Definition instr (o : option opcodetype) (fExec : bool) (e : sstate) : spec sstate :=
  match o with
  | Some ((OP_1NEGATE | OP_1 | OP_2 | OP_3 | OP_4 | OP_5 | OP_6 | OP_7 | OP_8 | OP_9 | OP_10 | OP_11 | OP_12 | OP_13
         | OP_14 | OP_15 | OP_16) as k) => Val (with_stack e (enc (code k - code OP_1 + 1) :: ss_stack e))
  | Some OP_NOP => Val e
  | Some OP_CHECKLOCKTIMEVERIFY => on_items (s_locktime SCRIPT_VERIFY_CHECKLOCKTIMEVERIFY (fun _ => false) lock) e
  | Some OP_CHECKSEQUENCEVERIFY =>
      on_items (s_locktime SCRIPT_VERIFY_CHECKSEQUENCEVERIFY (fun n => Z.testbit n 31) seqlock) e
  | Some (OP_NOP1 | OP_NOP4 | OP_NOP5 | OP_NOP6 | OP_NOP7 | OP_NOP8 | OP_NOP9 | OP_NOP10) =>
      if has flags SCRIPT_VERIFY_DISCOURAGE_UPGRADABLE_NOPS then Fail SCRIPT_ERR_DISCOURAGE_UPGRADABLE_NOPS else Val e
  | Some OP_IF => s_if false fExec e
  | Some OP_NOTIF => s_if true fExec e
  | Some OP_ELSE => s_else e
  | Some OP_ENDIF => s_endif e
  | Some OP_VERIFY => on_items s_verify e
  | Some OP_RETURN => s_return e
  | Some OP_TOALTSTACK => match ss_stack e with x :: r => Val (with_alt (with_stack e r) (x :: ss_alt e)) | _ => low end
  | Some OP_FROMALTSTACK =>
      match ss_alt e with
      | x :: r => Val (with_alt (with_stack e (x :: ss_stack e)) r)
      | _ => Fail SCRIPT_ERR_INVALID_ALTSTACK_OPERATION
      end
  | Some ((OP_2DROP | OP_2DUP | OP_3DUP | OP_2OVER | OP_2ROT | OP_2SWAP | OP_IFDUP | OP_DEPTH | OP_DROP | OP_DUP | OP_NIP
          | OP_OVER | OP_ROT | OP_SWAP | OP_TUCK | OP_SIZE) as k) => on_items (shuffle k) e
  | Some OP_PICK => on_items (s_pick false) e
  | Some OP_ROLL => on_items (s_pick true) e
  | Some ((OP_AND | OP_OR | OP_XOR) as k) => on_items (s_bitwise k) e
  | Some OP_INVERT => on_items s_invert e
  | Some OP_LSHIFT => on_items (s_shift true) e
  | Some OP_RSHIFT => on_items (s_shift false) e
  | Some OP_EQUAL => on_items (s_equal false) e
  | Some OP_EQUALVERIFY => on_items (s_equal true) e
  | Some ((OP_1ADD | OP_1SUB | OP_NEGATE | OP_ABS | OP_NOT | OP_0NOTEQUAL) as k) => on_items (s_unary k) e
  | Some ((OP_ADD | OP_SUB | OP_MUL | OP_DIV | OP_MOD | OP_BOOLAND | OP_BOOLOR | OP_NUMEQUAL | OP_NUMEQUALVERIFY
          | OP_NUMNOTEQUAL | OP_LESSTHAN | OP_GREATERTHAN | OP_LESSTHANOREQUAL | OP_GREATERTHANOREQUAL | OP_MIN | OP_MAX) as k) =>
      on_items (s_binary k) e
  | Some OP_WITHIN => on_items s_within e
  | Some ((OP_RIPEMD160 | OP_SHA1 | OP_SHA256 | OP_HASH160 | OP_HASH256) as k) => on_items (s_hash k) e
  | Some OP_CODESEPARATOR => Val (with_code e (ss_pc e))
  | Some OP_CHECKSIG => on_items (s_checksig false (ss_code e)) e
  | Some OP_CHECKSIGVERIFY => on_items (s_checksig true (ss_code e)) e
  | Some OP_CHECKMULTISIG => s_multisig false e
  | Some OP_CHECKMULTISIGVERIFY => s_multisig true e
  | Some OP_CAT => on_items s_cat e
  | Some OP_SPLIT => on_items s_split e
  | Some OP_NUM2BIN => on_items s_num2bin e
  | Some OP_BIN2NUM => on_items s_bin2num e
  | Some (OP_VERIF | OP_VERNOTIF) => if genesis && negb fExec then Val e else Fail SCRIPT_ERR_BAD_OPCODE
  | _ => Fail SCRIPT_ERR_BAD_OPCODE
  end.

(** ** Runs *)

(** Instructions are executed in the taken branches, and not after a nested OP_RETURN. *)

Definition executing (opcode : Z) (e : sstate) : bool :=
  forallb id (ss_exec e) && (negb (ss_returned e) || (opcode =? code OP_RETURN)).

Definition s_step (e : sstate) : spec sstate :=
  match GetOp2 (ss_pc e) with
  | None => Fail SCRIPT_ERR_BAD_OPCODE
  | Some (opcode, data, pc) =>
      let e := with_pc e pc in
      let fExec := executing opcode e in
      let count := if code OP_16 <? opcode then u64 (ss_count e + 1) else ss_count e in
      if negb genesis && (MAX_SCRIPT_ELEMENT_SIZE_BEFORE_GENESIS <? Z.of_nat (length data)) then Fail SCRIPT_ERR_PUSH_SIZE
      else if (code OP_16 <? opcode) && negb (IsValidMaxOpsPerScript count config genesis consensus) then Fail SCRIPT_ERR_OP_COUNT
      else if IsOpcodeDisabled opcode && (negb genesis || fExec) then Fail SCRIPT_ERR_DISABLED_OPCODE
      else
        let e := with_count e count in
        e ← (if fExec && (opcode <=? code OP_PUSHDATA4) then
               if fRequireMinimal flags && negb (CheckMinimalPush data opcode) then Fail SCRIPT_ERR_MINIMALDATA
               else Val (with_stack e (data :: ss_stack e))
             else if fExec || ((code OP_IF <=? opcode) && (opcode <=? code OP_ENDIF)) then instr (opcode_of opcode) fExec e
             else Val e);
        if negb genesis && (MAX_STACK_ELEMENTS_BEFORE_GENESIS <? Z.of_nat (length (ss_stack e) + length (ss_alt e)))
        then Fail SCRIPT_ERR_STACK_SIZE
        else Val e
  end.

(** Every instruction takes a byte of the script, so its length bounds the steps. *)

Fixpoint s_run (fuel : nat) (e : sstate) : spec sstate :=
  match ss_pc e, fuel with
  | [], _ => Val e
  | _, O => Fail SCRIPT_ERR_UNKNOWN_ERROR
  | _, S fuel => e ← s_step e; s_run fuel e
  end.

Definition s_start (script : list Z) (st : items) : sstate :=
  {| ss_stack := st; ss_alt := []; ss_exec := []; ss_else := []; ss_pc := script; ss_code := script;
     ss_count := 0; ss_returned := false |}.

(** The stack a script leaves, or the error it fails with. *)

Definition s_eval (script : list Z) (st : items) : items + ScriptError :=
  if GetMaxScriptSize config genesis consensus <? script_size script then inr SCRIPT_ERR_SCRIPT_SIZE
  else
    match s_run (length script) (s_start script st) with
    | Val e => match ss_exec e with [] => inl (ss_stack e) | _ => inr SCRIPT_ERR_UNBALANCED_CONDITIONAL end
    | Stop e => inl (ss_stack e)
    | Fail err => inr err
    end.

End machine.
