(* ===== verification/Simulation.v ===== *)
(** * Simulation of the abstract script machine

    The judgement that a handler of the interpreter does what the abstract machine says, its rules, and
    what the operations of the stacks do to the lists of byte strings they represent. *)

From stdpp Require Import list.
From S2P Require Import Prelude Common IntSer BigInt ScriptNum Stack Script Hasher Sha2 Ripemd160 Sha1 Hash Flags SigEnc Interp ScriptSpec.
#[local] Open Scope Z_scope.
#[local] Open Scope interp_scope.

(** ** Numbers *)

Lemma enc_spec z : bytes (enc z) /\ num_val (enc z) = z /\ minimal (enc z).
Proof. exact (bint_serialize_spec (H0 := Z_BN_laws) z). Qed.

Lemma enc_unique l z : bytes l -> minimal l -> num_val l = z -> l = enc z.
Proof. intros Hb Hm <-. destruct (enc_spec (num_val l)) as (? & ? & ?). by apply minimal_unique. Qed.

Lemma length_enc z k : 0 <= k -> Z.abs z < 2 ^ k -> 8 * Z.of_nat (length (enc z)) <= k + 8.
Proof.
  intros Hk Hz. destruct (enc_spec z) as (_ & Hv & [E|Hm]); [rewrite E; cbn; lia|]. rewrite Hv in Hm.
  assert (2 ^ (8 * Z.of_nat (length (enc z) - 1)) < 2 ^ (k + 1)) as Hlt by (rewrite Z.pow_add_r by lia; lia).
  apply Z.pow_lt_mono_r_iff in Hlt; lia.
Qed.

Lemma CastToBool_truth x : bytes x -> CastToBool x = truth x.
Proof.
  intros Hx. unfold truth. induction Hx as [|b x Hb Hx IH]; [done|]. cbn [CastToBool].
  assert (num_val (b :: x) = 0 <-> if decide (x = []) then b = 0 \/ b = 128 else b = 0 /\ num_val x = 0) as Hiff.
  { destruct x as [|c x _] using rev_ind; cbn [decide].
    - rewrite decide_True by done. unfold num_val. cbn. unfold is_byte in Hb. destruct (Z.ltb_spec b 128); lia.
    - rewrite decide_False by (by destruct x). apply Forall_app in Hx as [Hx Hc]. rewrite Forall_singleton in Hc.
      rewrite (app_comm_cons x [c] b), !num_val_snoc by done. cbn [le_val length].
      pose proof (le_val_bound x Hx). pose proof (pow2_pos (8 * Z.of_nat (length x)) ltac:(lia)).
      replace (8 * Z.of_nat (S (length x))) with (8 + 8 * Z.of_nat (length x)) by lia. rewrite Z.pow_add_r by lia.
      unfold is_byte in *. destruct (Z.ltb_spec c 128); nia. }
  destruct (Z.eqb_spec b 0) as [->|Hb0].
  - rewrite IH. f_equal. apply eq_true_iff_eq. rewrite !Z.eqb_eq, Hiff. case_decide; subst; [done|]. tauto.
  - destruct (Z.eqb_spec (num_val (b :: x)) 0) as [E|E].
    + apply Hiff in E. case_decide; [|lia]. destruct E as [?| ->]; [lia|]. by subst x.
    + destruct x; [|done]. destruct (Z.eqb_spec b 128) as [->|]; [|done]. destruct E. apply Hiff. rewrite decide_True by done. by right.
Qed.

Lemma rev_reverse {A} (l : list A) : rev l = reverse l.
Proof. apply rev_alt. Qed.

Lemma spec_bind_assoc {A B C} (a : spec A) (f : A -> spec B) (g : B -> spec C) :
  (a ≫= fun x => f x ≫= g) = ((a ≫= f) ≫= g).
Proof. by destruct a. Qed.

Lemma spec_bind_ret {A} (a : spec A) : a ≫= Val = a.
Proof. by destruct a. Qed.

Lemma outcome_bind_assoc {E A B C} (o : outcome E A) (f : A -> outcome E B) (g : B -> outcome E C) :
  (o ≫= fun x => f x ≫= g) = ((o ≫= f) ≫= g).
Proof. by destruct o. Qed.

Section simulation.
Context `{BN_Total}.
Context (token : nat -> bool).

(** ** What a pair of stacks represents *)

Definition vec (x : list Z) : LimitedVector := {| stackElement := x; vstack := Root |}.

(** The memory [leak] is charged for no element; [M] is the limit. *)

Context (leak M : Z) (HM : M < 2 ^ 31).

Record rep (s : LimitedStack) (st alt : items) : Prop := {
  rep_ok : stack_ok leak s;
  rep_max : maxStackSize s = M;
  rep_root : root s = rev (map vec st);
  rep_child : child s = rev (map vec alt)
}.

(** An element on the stack. *)

Definition held (x : list Z) : Prop := bytes x /\ Z.of_nat (length x) + 32 <= M.

Lemma rep_size s st alt : rep s st alt -> size s Root = length st.
Proof. intros [_ _ E _]. unfold size. cbn. by rewrite E, length_rev, length_map. Qed.

Lemma rep_size_alt s st alt : rep s st alt -> size s Child = length alt.
Proof. intros [_ _ _ E]. unfold size. cbn. by rewrite E, length_rev, length_map. Qed.

Lemma rep_length s st alt : rep s st alt -> 32 * Z.of_nat (length st) <= M.
Proof.
  intros Hr. rewrite <- (rep_size s st alt Hr). destruct Hr as [Hok Hmax _ _]. pose proof (combined_total leak s Hok) as E.
  destruct Hok as [_ ? ? ? _ _]. pose proof (total_ge s Root). pose proof (charge_length (elements s Root)).
  unfold size, ELEMENT_OVERHEAD in *. lia.
Qed.

Lemma lookup_rev_map (st : items) k x : st !! k = Some x -> rev (map vec st) !! (length st - S k)%nat = Some (vec x).
Proof.
  intros Hk. pose proof (lookup_lt_Some _ _ _ Hk). rewrite rev_reverse, reverse_lookup by (rewrite length_map; lia).
  rewrite length_map. replace (length st - S (length st - S k))%nat with k by lia.
  rewrite list_lookup_fmap, Hk. done.
Qed.

Lemma rep_element s st alt k x : rep s st alt -> st !! k = Some x ->
  elements s Root !! (length st - S k)%nat = Some (vec x).
Proof. intros [_ _ E _] Hk. cbn [elements]. rewrite E. by apply lookup_rev_map. Qed.

Lemma rep_held s st alt k x : rep s st alt -> st !! k = Some x -> held x.
Proof.
  intros Hr Hk. pose proof (rep_element s st alt k x Hr Hk) as El. destruct Hr as [Hok Hmax _ _].
  destruct (at_spec leak s Root (length st - S k) Hok) as (v & _ & Ev & [_ Hb] & Hle); [by eapply lookup_lt_Some|].
  rewrite El in Ev. injection Ev as <-. split; [done|]. unfold vsize, ELEMENT_OVERHEAD in Hle. cbn in Hle.
  destruct Hok as [_ _ ? _ _ _]. lia.
Qed.

Lemma rep_held_cons s x st alt : rep s (x :: st) alt -> held x.
Proof. intros Hr. by apply (rep_held s (x :: st) alt 0 x). Qed.

Lemma rep_set s st alt s' st' : rep s st alt -> stack_ok leak s' -> frame s s' Root ->
  elements s' Root = rev (map vec st') -> rep s' st' alt.
Proof. intros [_ Hmax _ Ec] Hok [Hm Hc] He. split; [done | by rewrite Hm | done | by rewrite <- Ec]. Qed.

(** Changing the element at depth [k]. *)

Lemma rev_map_insert (st : items) k x : (k < length st)%nat ->
  <[(length st - S k)%nat := vec x]> (rev (map vec st)) = rev (map vec (<[k := x]> st)).
Proof.
  intros Hk. apply list_eq. intros i. destruct (decide (i < length st)%nat) as [Hi|Hi].
  - rewrite (rev_reverse (map vec (<[k:=x]> st))), reverse_lookup by (rewrite length_map, length_insert; lia).
    rewrite length_map, length_insert, list_lookup_fmap.
    destruct (decide (i = length st - S k)%nat) as [->|Hne].
    + rewrite list_lookup_insert_eq by (rewrite length_rev, length_map; lia).
      replace (length st - S (length st - S k))%nat with k by lia. by rewrite list_lookup_insert_eq.
    + rewrite !list_lookup_insert_ne by lia. rewrite rev_reverse, reverse_lookup by (rewrite length_map; lia).
      by rewrite length_map, list_lookup_fmap.
  - rewrite !lookup_ge_None_2; [done | rewrite length_rev, length_map, length_insert; lia |].
    rewrite length_insert, length_rev, length_map; lia.
Qed.

Lemma rev_map_delete (st : items) k : (k < length st)%nat ->
  delete (length st - S k)%nat (rev (map vec st)) = rev (map vec (delete k st)).
Proof.
  intros Hk. rewrite !delete_take_drop, map_app, rev_app_distr, !rev_reverse, take_reverse, drop_reverse, length_map.
  change (map vec) with (fmap (M:=list) vec). rewrite fmap_take, fmap_drop. f_equal; do 2 f_equal; lia.
Qed.
(** ** The judgement *)

(** The states of the two machines; the two lists of branches stay equally long. *)

Record state_rel (e : exec_state) (a : sstate) : Prop := {
  rel_stack : rep (es_stack e) (ss_stack a) (ss_alt a);
  rel_exec : es_vfExec e = ss_exec a;
  rel_else : es_vfElse e = ss_else a;
  rel_branches : length (ss_exec a) = length (ss_else a);
  rel_pc : es_pc e = ss_pc a;
  rel_code : es_begincodehash e = ss_code a;
  rel_count : es_nOpCount e = ss_count a;
  rel_returned : es_nonTopLevelReturnAfterGenesis e = ss_returned a;
  rel_pc_bytes : bytes (ss_pc a);
  rel_pc_length : script_size (ss_pc a) < 2 ^ 62
}.

(** A handler may exceed the memory limit or be cancelled where the abstract machine goes on; otherwise
    they end in the same way, and never without a defined result. *)

Definition sim {A B} (R : A -> B -> Prop) (o : outcome exit A) (a : spec B) : Prop :=
  match o with
  | Ok x => exists y, a = Val y /\ R x y
  | Throw (Exn stack_overflow_error) => True
  | Throw (Exn x) => a = Fail (error_of_exn x)
  | Throw (Return err) => a = Fail err
  | Throw (Succeed e) => exists e', a = Stop e' /\ state_rel e e'
  | Throw Cancelled => exists n, token n = true
  | Abort => False
  end.

Lemma sim_bind_eq {A B C D} (S : A -> B -> Prop) (R : C -> D -> Prop) (o : outcome exit A) (a : spec B) k k' :
  sim S o a -> (forall x y, a = Val y -> S x y -> sim R (k x) (k' y)) -> sim R (o ≫= k) (a ≫= k').
Proof.
  intros Ho Hk. destruct o as [x|[x| | |]|]; cbn [sim mbind outcome_bind] in *.
  - destruct Ho as (y & -> & Hy). by apply Hk.
  - destruct x; (done || by rewrite Ho).
  - by rewrite Ho.
  - destruct Ho as (e' & -> & He). by exists e'.
  - done.
  - done.
Qed.

Lemma sim_bind {A B C D} (S : A -> B -> Prop) (R : C -> D -> Prop) (o : outcome exit A) (a : spec B) k k' :
  sim S o a -> (forall x y, S x y -> sim R (k x) (k' y)) -> sim R (o ≫= k) (a ≫= k').
Proof. intros Ho Hk. eapply sim_bind_eq; eauto. Qed.

Lemma sim_mono {A B} (S R : A -> B -> Prop) (o : outcome exit A) (a : spec B) :
  sim S o a -> (forall x y, S x y -> R x y) -> sim R o a.
Proof.
  intros Ho Hk. destruct o as [x|[x| | |]|]; cbn [sim] in *; try done. destruct Ho as (y & -> & Hy). exists y. auto.
Qed.

Lemma sim_Ok {A B} (R : A -> B -> Prop) x y : R x y -> sim R (Ok x) (Val y).
Proof. intros. by exists y. Qed.

Lemma sim_get {A C D} (R : C -> D -> Prop) (o : outcome exn A) x k (a : spec D) :
  o = Ok x -> sim R (k x) a -> sim R (lift o ≫= k) a.
Proof. by intros ->. Qed.

(** A call in last position is one followed by [Ok]. *)

Lemma sim_tail {A B} (R : A -> B -> Prop) (o : outcome exit A) (a : spec B) : sim R (o ≫= Ok) a -> sim R o a.
Proof. by destruct o. Qed.

Lemma sim_require {C D} (R : C -> D -> Prop) b err k (a : spec D) :
  (b = false -> a = Fail err) -> (b = true -> sim R (k tt) a) -> sim R (require b err ≫= k) a.
Proof. destruct b; cbn; auto. Qed.

Lemma sim_poll {C D} (R : C -> D -> Prop) n k (a : spec D) :
  (forall m, sim R (k m) a) -> sim R (poll token n ≫= k) a.
Proof. intros Hk. unfold poll. destruct (token n) eqn:E; [by exists n | apply Hk]. Qed.

Lemma sim_need {C D} (R : C -> D -> Prop) s st alt n k (a : spec D) : rep s st alt ->
  ((length st < n)%nat -> a = low) -> ((n <= length st)%nat -> sim R (k tt) a) -> sim R (need s n ≫= k) a.
Proof.
  intros Hr Hlow Hk. unfold need. rewrite (rep_size s st alt Hr). apply sim_require; intros Hb; [apply Hlow | apply Hk].
  - by apply Nat.leb_gt.
  - by apply Nat.leb_le.
Qed.

(** ** Stack operations *)

Lemma top_eq s st alt (k : nat) index x : rep s st alt -> index = - Z.of_nat (S k) -> st !! k = Some x ->
  stacktop s Root index = Ok (vec x).
Proof.
  intros Hr -> Hk. pose proof (lookup_lt_Some _ _ _ Hk). pose proof (rep_size s st alt Hr) as Hsz.
  destruct (stacktop_spec leak s Root (- Z.of_nat (S k)) (rep_ok _ _ _ Hr)) as (v & Ev & Hv & _); [lia|].
  rewrite Ev. f_equal. replace (Z.to_nat _) with (length st - S k)%nat in Hv by lia.
  rewrite (rep_element s st alt k x Hr Hk) in Hv. congruence.
Qed.

Lemma sim_top {C D} (R : C -> D -> Prop) (i : nat) s st alt index x k (a : spec D) :
  rep s st alt -> index = - Z.of_nat (S i) -> st !! i = Some x -> (held x -> sim R (k (vec x)) a) ->
  sim R (lift (stacktop s Root index) ≫= k) a.
Proof. intros Hr Hi Hx Hk. rewrite (top_eq s st alt i index x) by done. apply Hk. by apply (rep_held s st alt i). Qed.

Lemma pop_eq s x st alt : rep s (x :: st) alt -> exists s', pop_back s Root = Ok s' /\ rep s' st alt.
Proof.
  intros Hr. pose proof (rep_size _ _ _ Hr) as Hsz. cbn [length] in Hsz.
  destruct (pop_back_spec leak s Root (rep_ok _ _ _ Hr)) as (s' & -> & Hok & He & Hf); [lia|]. exists s'. split; [done|].
  apply (rep_set s (x :: st) alt); [done..|]. rewrite He. cbn [elements]. rewrite (rep_root _ _ _ Hr). cbn [map rev].
  apply removelast_last.
Qed.

Lemma sim_pop {C D} (R : C -> D -> Prop) s x st alt k (a : spec D) :
  rep s (x :: st) alt -> (forall s', rep s' st alt -> sim R (k s') a) -> sim R (lift (pop_back s Root) ≫= k) a.
Proof. intros Hr Hk. destruct (pop_eq _ _ _ _ Hr) as (s' & -> & Hr'). by apply Hk. Qed.

Lemma push_throws s w d e : Z.of_nat (length d) < 2 ^ 62 -> push_back s w d = Throw e -> e = stack_overflow_error.
Proof.
  intros Hd. unfold push_back, increaseCombinedStackSize, ELEMENT_OVERHEAD. rewrite (proj2 (Z.leb_gt _ _)) by lia.
  case_match; cbn; congruence.
Qed.

Lemma sim_memory {C D} (R : C -> D -> Prop) (Q : LimitedStack -> Prop) (o : outcome exn LimitedStack) k (a : spec D) :
  safe Q o -> (forall e, o = Throw e -> e = stack_overflow_error) -> (forall s', Q s' -> sim R (k s') a) ->
  sim R (lift o ≫= k) a.
Proof. intros Hs He Hk. destruct o as [s'|e|]; cbn in *; [by apply Hk | by rewrite (He e) | done]. Qed.

Lemma sim_push {C D} (R : C -> D -> Prop) s st alt d k (a : spec D) :
  rep s st alt -> bytes d -> Z.of_nat (length d) < 2 ^ 62 -> (forall s', rep s' (d :: st) alt -> sim R (k s') a) ->
  sim R (lift (push_back s Root d) ≫= k) a.
Proof.
  intros Hr Hb Hd Hk. eapply sim_memory; [by apply (push_back_spec leak s d (rep_ok _ _ _ Hr)) | intros e; by apply push_throws |].
  cbn beta. intros s' (Hok & He & Hf). apply Hk. apply (rep_set s st alt); [done..|]. rewrite He. cbn [elements map rev].
  by rewrite (rep_root _ _ _ Hr).
Qed.

Lemma sim_push_vector {C D} (R : C -> D -> Prop) s st alt d k (a : spec D) :
  rep s st alt -> held d -> (forall s', rep s' (d :: st) alt -> sim R (k s') a) ->
  sim R (lift (push_back_vector s Root (vec d)) ≫= k) a.
Proof.
  intros Hr [Hb Hd] Hk. eapply sim_memory.
  - apply (push_back_vector_spec leak s (vec d) (rep_ok _ _ _ Hr)); [by split|]. unfold vsize, ELEMENT_OVERHEAD. cbn. lia.
  - intros e. unfold push_back_vector, increaseCombinedStackSize. cbn [vec vstack]. rewrite bool_decide_true by done.
    cbn [negb]. case_match; cbn; congruence.
  - cbn beta. intros s' (Hok & He & Hf). apply Hk. apply (rep_set s st alt); [done..|]. rewrite He. cbn [elements map rev].
    by rewrite (rep_root _ _ _ Hr).
Qed.

Lemma sim_erase {C D} (R : C -> D -> Prop) (i : nat) s st alt index k (a : spec D) :
  rep s st alt -> index = - Z.of_nat (S i) -> (i < length st)%nat ->
  (forall s', rep s' (delete i st) alt -> sim R (k s') a) -> sim R (lift (erase s Root index) ≫= k) a.
Proof.
  intros Hr -> Hi Hk. pose proof (rep_size _ _ _ Hr) as Hsz.
  destruct (erase_spec leak s Root (- Z.of_nat (S i)) (rep_ok _ _ _ Hr)) as (s' & -> & Hok & Hf & He); [lia|].
  apply Hk. apply (rep_set s st alt); [done..|]. rewrite He. cbn [elements]. rewrite (rep_root _ _ _ Hr).
  replace (Z.to_nat _) with (length st - S i)%nat by lia. by apply rev_map_delete.
Qed.

(** Swapping the elements at depths [i] and [j]. *)

Lemma sim_swap {C D} (R : C -> D -> Prop) (i j : nat) s st alt p q x y k (a : spec D) :
  rep s st alt -> st !! i = Some x -> st !! j = Some y -> i <> j ->
  p = (length st - S i)%nat -> q = (length st - S j)%nat ->
  (forall s', rep s' (<[j := x]> (<[i := y]> st)) alt -> sim R (k s') a) -> sim R (lift (swapElements s Root p q) ≫= k) a.
Proof.
  intros Hr Hx Hy Hij -> -> Hk. pose proof (rep_size _ _ _ Hr) as Hsz.
  pose proof (lookup_lt_Some _ _ _ Hx). pose proof (lookup_lt_Some _ _ _ Hy).
  destruct (swapElements_spec leak s Root (length st - S i) (length st - S j) (rep_ok _ _ _ Hr))
    as (s' & v1 & v2 & -> & Hok & Hf & E1 & E2 & He); [lia..|].
  apply Hk. apply (rep_set s st alt); [done..|]. rewrite He.
  rewrite (rep_element s st alt i x Hr Hx) in E1. rewrite (rep_element s st alt j y Hr Hy) in E2. simplify_eq.
  cbn [elements]. rewrite (rep_root _ _ _ Hr), rev_map_insert by done. rewrite <- (length_insert st i y).
  apply rev_map_insert. by rewrite length_insert.
Qed.

Lemma sim_insert {C D} (R : C -> D -> Prop) (i : nat) s st alt index d k (a : spec D) :
  rep s st alt -> index = - Z.of_nat (S i) -> (i < length st)%nat -> held d ->
  (forall s', rep s' (take (S i) st ++ d :: drop (S i) st) alt -> sim R (k s') a) ->
  sim R (lift (insert s Root index (vec d)) ≫= k) a.
Proof.
  intros Hr -> Hi [Hb Hd] Hk. pose proof (rep_size _ _ _ Hr) as Hsz. eapply sim_memory.
  - apply (insert_spec leak s (- Z.of_nat (S i)) (vec d) (rep_ok _ _ _ Hr)); [by split | unfold vsize, ELEMENT_OVERHEAD; cbn; lia | lia].
  - intros e. unfold insert. cbn [vec vstack]. rewrite bool_decide_true by done. cbn [negb].
    rewrite (proj2 (Z.leb_gt _ _)) by lia. unfold increaseCombinedStackSize. case_match; cbn [mbind outcome_bind]; [congruence|].
    rewrite end_plus_spec by (unfold size; rewrite elements_combined; unfold size in Hsz; lia). done.
  - cbn beta zeta. intros s' (Hok & Hf & He). apply Hk. apply (rep_set s st alt); [done..|]. rewrite He. cbn [elements].
    rewrite (rep_root _ _ _ Hr), map_app, rev_app_distr. cbn [map rev]. rewrite <- app_assoc. cbn [app].
    rewrite !rev_reverse, take_reverse, drop_reverse, length_map. change (map vec) with (fmap (M:=list) vec).
    rewrite fmap_take, fmap_drop. f_equal; [do 2 f_equal; lia|]. do 3 f_equal. lia.
Qed.

Lemma rep_set_element s st alt k x d : rep s st alt -> st !! k = Some x -> bytes d -> length d = length x ->
  rep (set_element s Root (length st - S k) d) (<[k := d]> st) alt.
Proof.
  intros Hr Hx Hb Hd. destruct (set_same_length_spec leak s Root _ (vec x) d (rep_ok _ _ _ Hr) (rep_element _ _ _ _ _ Hr Hx))
    as (Hok & Hf & He); [done..|].
  apply (rep_set s st alt); [done..|]. rewrite He. cbn [elements vec vstack]. rewrite (rep_root _ _ _ Hr).
  apply rev_map_insert. by eapply lookup_lt_Some.
Qed.

Lemma rep_top s x st alt : rep s (x :: st) alt -> elements s Root !! length st = Some (vec x).
Proof. intros Hr. pose proof (rep_element s (x :: st) alt 0 x Hr eq_refl) as E. cbn [length] in E. by rewrite Nat.sub_1_r in E. Qed.

Lemma rev_map_top (x y : list Z) st : <[length st := vec y]> (rev (map vec (x :: st))) = rev (map vec (y :: st)).
Proof. pose proof (rev_map_insert (x :: st) 0 y) as E. cbn [length] in E. rewrite Nat.sub_1_r in E. apply E. lia. Qed.

Lemma sim_append {C D} (R : C -> D -> Prop) s x y st alt i k (a : spec D) :
  rep s (x :: st) alt -> held y -> i = length st -> (forall s', rep s' ((x ++ y) :: st) alt -> sim R (k s') a) ->
  sim R (lift (vec_append s Root i (vec y)) ≫= k) a.
Proof.
  intros Hr [Hb Hy] -> Hk. pose proof (rep_top _ _ _ _ Hr) as Ht. eapply sim_memory.
  - apply (vec_append_spec leak s Root _ (vec x) (vec y) (rep_ok _ _ _ Hr) Ht); [by split | unfold vsize; cbn; lia].
  - intros e. unfold vec_append, at_. rewrite Ht. cbn. unfold increaseCombinedStackSize. case_match; cbn; congruence.
  - cbn beta. intros s' (Hok & Hf & _ & He). apply Hk. apply (rep_set s (x :: st) alt); [done..|]. rewrite He. cbn [elements].
    rewrite (rep_root _ _ _ Hr). apply rev_map_top.
Qed.

Lemma sim_MinimallyEncode {C D} (R : C -> D -> Prop) s x st alt i k (a : spec D) :
  rep s (x :: st) alt -> i = length st -> (forall b s', rep s' (enc (num_val x) :: st) alt -> sim R (k (b, s')) a) ->
  sim R (lift (vec_MinimallyEncode s Root i) ≫= k) a.
Proof.
  intros Hr -> Hk. pose proof (rep_top _ _ _ _ Hr) as Ht. destruct (rep_held_cons _ _ _ _ Hr) as [Hb _].
  pose proof (vec_MinimallyEncode_spec leak s Root _ (vec x) (rep_ok _ _ _ Hr) Ht) as Hs.
  destruct (vec_MinimallyEncode s Root (length st)) as [[b s']|e|] eqn:E; cbn [safe fst snd] in Hs; [|exfalso|done].
  - destruct Hs as (Hok & Hf & _ & He). apply Hk. apply (rep_set s (x :: st) alt); [done..|]. rewrite He. cbn [elements vec stackElement vstack].
    rewrite (rep_root _ _ _ Hr). pose proof (MinimallyEncode_spec x Hb) as HE. destruct (MinimallyEncode x) as [c d]. cbn [snd].
    destruct HE as (Bd & Vd & Md & _). rewrite (enc_unique d (num_val x)) by done. apply rev_map_top.
  - unfold vec_MinimallyEncode, at_ in E. rewrite Ht in E. cbn [mbind outcome_bind] in E.
    pose proof (MinimallyEncode_spec x Hb) as HE. change (stackElement (vec x)) with x in E. destruct (MinimallyEncode x) as [c d].
    unfold increaseCombinedStackSize in E. case_match eqn:Em; [|done]. apply Z.ltb_lt in Em. destruct HE as (_ & _ & _ & Hl & _).
    destruct (at_spec leak s Root (length st) (rep_ok _ _ _ Hr)) as (v & _ & Hv & _ & Hle); [by eapply lookup_lt_Some|].
    rewrite Ht in Hv. injection Hv as <-. unfold ELEMENT_OVERHEAD in Hle. pose proof (vsize_nonneg (vec x)).
    rewrite (decrease_eq leak) in Em by (try apply (rep_ok _ _ _ Hr); lia). cbn in Em.
    destruct (rep_ok _ _ _ Hr) as [_ _ ? ? _ _]. unfold u64, vsize in *. cbn in *. rewrite Z.mod_small in Em by lia. lia.
Qed.

Lemma sim_padRight {C D} (R : C -> D -> Prop) s x st alt i n b k (a : spec D) :
  rep s (x :: st) alt -> i = length st -> is_byte b -> Z.of_nat (length x) < n < 2 ^ 62 ->
  (forall s', rep s' ((removelast (x ++ replicate (Z.to_nat (n - Z.of_nat (length x))) 0) ++ [b]) :: st) alt -> sim R (k s') a) ->
  sim R (lift (vec_padRight s Root i n b) ≫= k) a.
Proof.
  intros Hr -> Hb Hn Hk. pose proof (rep_top _ _ _ _ Hr) as Ht. eapply sim_memory.
  - apply (vec_padRight_spec leak s Root _ (vec x) n b (rep_ok _ _ _ Hr) Ht Hb). lia.
  - intros e. unfold vec_padRight, at_. rewrite Ht. cbn. unfold increaseCombinedStackSize. repeat case_match; cbn; congruence.
  - cbn beta. intros s' (Hok & Hf & He). apply Hk. apply (rep_set s (x :: st) alt); [done..|]. rewrite He. cbn [elements].
    unfold vsize. cbn [vec stackElement vstack]. rewrite (proj2 (Z.ltb_lt _ _)) by lia.
    rewrite (rep_root _ _ _ Hr). apply rev_map_top.
Qed.

(** Between the stacks. *)

Lemma sim_to_alt {C D} (R : C -> D -> Prop) s x st alt k (a : spec D) :
  rep s (x :: st) alt -> (forall s', rep s' st (x :: alt) -> sim R (k s') a) -> sim R (lift (moveTopToStack s Child) ≫= k) a.
Proof.
  intros Hr Hk. pose proof (rep_size _ _ _ Hr) as Hsz. cbn [length] in Hsz.
  destruct (moveTopToStack_spec leak s Child (rep_ok _ _ _ Hr)) as (s' & v & -> & Hok & Hm & _ & E1 & E2); [cbn [other]; lia|].
  cbn [other elements] in E1, E2. rewrite (rep_root _ _ _ Hr) in E1. rewrite (rep_child _ _ _ Hr) in E2. cbn [map rev] in E1.
  apply app_inj_tail in E1 as [E1 <-]. apply Hk. split; [done | by rewrite Hm, (rep_max _ _ _ Hr) | done | done].
Qed.

Lemma sim_from_alt {C D} (R : C -> D -> Prop) s x st alt k (a : spec D) :
  rep s st (x :: alt) -> (forall s', rep s' (x :: st) alt -> sim R (k s') a) -> sim R (lift (moveTopToStack s Root) ≫= k) a.
Proof.
  intros Hr Hk. pose proof (rep_size_alt _ _ _ Hr) as Hsz. cbn [length] in Hsz.
  destruct (moveTopToStack_spec leak s Root (rep_ok _ _ _ Hr)) as (s' & v & -> & Hok & Hm & _ & E1 & E2); [cbn [other]; lia|].
  cbn [other elements] in E1, E2. rewrite (rep_root _ _ _ Hr) in E2. rewrite (rep_child _ _ _ Hr) in E1. cbn [map rev] in E1.
  apply app_inj_tail in E1 as [E1 <-]. apply Hk. split; [done | by rewrite Hm, (rep_max _ _ _ Hr) | done | done].
Qed.

(** ** Numbers *)

Lemma getvch_enc n : in_range n -> getvch n = enc (snum_val n).
Proof. intros Hn. destruct (getvch_spec n Hn) as (? & ? & ?). by apply enc_unique. Qed.

Context (config : CScriptConfig) (consensus : bool) (flags : Z).

(** Before genesis numbers have at most four bytes. *)

Context (Hnum : utxo_after_genesis flags = false -> maxScriptNumLength config consensus flags <= 4).

Lemma minimal_check x n : bytes x -> Z.of_nat (length x) <= n -> IsMinimallyEncoded x n = bool_decide (minimal x).
Proof.
  intros Hx Hn. apply eq_true_iff_eq. rewrite IsMinimallyEncoded_spec, bool_decide_eq_true by done. tauto.
Qed.

Lemma num_val_lt x k : bytes x -> Z.of_nat (length x) <= k -> Z.abs (num_val x) < 2 ^ (8 * k) /\ (0 < k -> 2 * Z.abs (num_val x) < 2 ^ (8 * k)).
Proof.
  intros Hx Hk. destruct (num_val_bound x Hx) as [Hb | ->]; [|cbn; pose proof (pow2_pos (8 * k)); lia].
  pose proof (Z.pow_le_mono_r 2 (8 * Z.of_nat (length x)) (8 * k) ltac:(lia) ltac:(lia)). lia.
Qed.

Lemma sim_CScriptNum {C D} (R : C -> D -> Prop) x limit big k (k' : Z -> spec D) :
  held x -> (big = false -> limit <= 5) ->
  (forall n, Z.of_nat (length x) <= limit -> snum_val n = num_val x -> is_big n = big -> in_range n -> sim R (k n) (k' (num_val x))) ->
  sim R (lift (CScriptNum_of_bytes x (fRequireMinimal flags) limit big) ≫= k) (numeral flags limit x ≫= k').
Proof.
  intros [Hx Hl] Hlim Hk. pose proof (CScriptNum_of_bytes_spec x (fRequireMinimal flags) limit big Hx) as Hs. unfold numeral.
  destruct (Z.ltb_spec limit (Z.of_nat (length x))) as [Hgt|Hle]; [rewrite Hs; [done | lia | intros Hb; specialize (Hlim Hb); lia]|].
  rewrite minimal_check in Hs by done.
  destruct (fRequireMinimal flags && negb (bool_decide (minimal x))); [rewrite Hs; [done | lia | intros Hb; specialize (Hlim Hb); lia]|].
  destruct Hs as (n & -> & Hv & Hbig & _); [lia | intros Hb; specialize (Hlim Hb); lia|]. cbn [lift mbind outcome_bind].
  apply Hk; [done..|]. destruct n as [n|n]; [|done]. cbn in *. specialize (Hlim (eq_sym Hbig)).
  pose proof (num_val_lt x 5 Hx ltac:(lia)). subst n. lia.
Qed.

Lemma sim_number {C D} (R : C -> D -> Prop) x k (k' : Z -> spec D) :
  held x ->
  (forall n, snum_val n = num_val x -> is_big n = utxo_after_genesis flags -> operand n -> in_range n -> sim R (k n) (k' (num_val x))) ->
  sim R (lift (to_number config consensus flags (vec x)) ≫= k) (operand_of config consensus flags x ≫= k').
Proof.
  intros Hx Hk. apply sim_CScriptNum; [done | intros Hg; specialize (Hnum Hg); lia |].
  intros n Hlen Hv Hb Hr. apply Hk; [done..| |done]. destruct n as [n|n]; [|done]. cbn [is_big snum_val operand in_range] in *. specialize (Hnum (eq_sym Hb)).
  cbn [vec stackElement] in *. pose proof (num_val_lt x 4 (proj1 Hx) ltac:(lia)). subst n. lia.
Qed.

End simulation.
