(* ===== verification/StackOps.v ===== *)
(** * The stack opcodes simulate the abstract machine

    One lemma per handler of [EvalScript] that only rearranges, compares or concatenates elements. *)

From S2P Require Import Prelude Common IntSer BigInt ScriptNum Stack Script Hasher Sha2 Ripemd160 Sha1 Hash Flags SigEnc Interp ScriptSpec Simulation.
#[local] Open Scope Z_scope.
#[local] Open Scope interp_scope.

(** ** Tactics: one call of a handler at a time *)

(** [need_items st n]: the size check; the short stacks fail alike, the others have [n] elements. *)

Tactic Notation "need_items" ident(st) integer(n) :=
  let Hl := fresh "Hl" in
  eapply sim_need; [eassumption | intros Hl; repeat (destruct st as [|? st]; [reflexivity | cbn [length] in Hl]); lia
    | intros Hl; do n (destruct st as [|?x st]; [cbn [length] in Hl; lia|]); clear Hl; cbv beta iota].

Ltac top_item :=
  match goal with
  | |- sim _ _ _ _ (lift (stacktop _ Root ?idx) ≫= _) _ =>
      let k := eval vm_compute in (Z.to_nat (- idx - 1)) in
      eapply sim_top with (i := k); [eassumption | reflexivity | reflexivity | intros ?Hx; cbv beta]
  end.

Ltac rep_step :=
  lazymatch goal with
  | |- sim _ _ _ _ (lift (stacktop _ _ _) ≫= _) _ => top_item
  | |- sim _ _ _ _ (lift (pop_back _ _) ≫= _) _ => eapply sim_pop; [eassumption | intros ?s ?Hr; cbv beta]
  | |- sim _ _ _ _ (lift (push_back_vector _ _ _) ≫= _) _ =>
      eapply sim_push_vector; [eassumption | eassumption | eassumption | intros ?s ?Hr; cbv beta]
  | |- sim _ _ _ _ (lift (push_back _ _ _) ≫= _) _ => eapply sim_push; [eassumption | | | intros ?s ?Hr; cbv beta]
  | |- sim _ _ _ _ (lift _) _ => apply sim_tail
  | |- sim _ _ _ _ (Ok _) (Val _) => apply sim_Ok; eassumption
  end.

Section stack_ops.
Context `{BN_Total} `{Secp256k1}.
Context (token : nat -> bool) (leak M : Z) (HM : M < 2 ^ 31).

Notation rep := (rep leak M).
Notation stack_sim alt := (sim token leak M (fun s' st' => rep s' st' alt)).

Lemma op_2drop_sim s st alt : rep s st alt -> stack_sim alt (op_2drop s) (shuffle OP_2DROP st).
Proof. intros Hr. unfold op_2drop, shuffle. need_items st 2. repeat rep_step. Qed.

Lemma op_2dup_sim s st alt : rep s st alt -> stack_sim alt (op_2dup s) (shuffle OP_2DUP st).
Proof. intros Hr. unfold op_2dup, shuffle. need_items st 2. repeat rep_step. Qed.

Lemma op_3dup_sim s st alt : rep s st alt -> stack_sim alt (op_3dup s) (shuffle OP_3DUP st).
Proof. intros Hr. unfold op_3dup, shuffle. need_items st 3. repeat rep_step. Qed.

Lemma op_2over_sim s st alt : rep s st alt -> stack_sim alt (op_2over s) (shuffle OP_2OVER st).
Proof. intros Hr. unfold op_2over, shuffle. need_items st 4. repeat rep_step. Qed.

Lemma sim_erase_range (R : LimitedStack -> items -> Prop) s st alt k (a : spec items) :
  rep s st alt -> (6 <= length st)%nat ->
  (forall s', rep s' (take 4 st ++ drop 6 st) alt -> sim token leak M R (k s') a) ->
  sim token leak M R (lift (erase_range s Root (-6) (-4)) ≫= k) a.
Proof.
  intros Hr Hl Hk. pose proof (rep_size _ _ _ _ _ Hr) as Hsz.
  destruct (erase_range_spec leak s Root (-6) (-4) (rep_ok _ _ _ _ _ Hr)) as (s' & -> & Hok & Hf & He); [lia | lia |].
  apply Hk. apply (rep_set leak M s st alt); [done..|]. rewrite He. cbn [elements].
  rewrite (rep_root _ _ _ _ _ Hr), map_app, rev_app_distr, !rev_reverse, take_reverse, drop_reverse, length_map.
  change (map vec) with (fmap (M:=list) vec). rewrite fmap_take, fmap_drop. f_equal; do 2 f_equal; lia.
Qed.

Lemma op_2rot_sim s st alt : rep s st alt -> stack_sim alt (op_2rot s) (shuffle OP_2ROT st).
Proof.
  intros Hr. unfold op_2rot, shuffle. need_items st 6. do 2 rep_step.
  eapply sim_erase_range; [eassumption | cbn; lia | intros s1 Hr1; cbn in Hr1]. repeat rep_step.
Qed.

Ltac swap_items i' j' :=
  eapply sim_swap with (i := i') (j := j');
    [eassumption | reflexivity | reflexivity | lia | (rewrite (rep_size _ _ _ _ _ ltac:(eassumption)); cbn [length]; lia)..
    | intros ?s ?Hr; cbn in Hr].

Lemma op_2swap_sim s st alt : rep s st alt -> stack_sim alt (op_2swap s) (shuffle OP_2SWAP st).
Proof.
  intros Hr. unfold op_2swap, shuffle. need_items st 4. swap_items 3%nat 1%nat. rep_step. swap_items 2%nat 0%nat. rep_step.
Qed.

Lemma op_rot_sim s st alt : rep s st alt -> stack_sim alt (op_rot s) (shuffle OP_ROT st).
Proof.
  intros Hr. unfold op_rot, shuffle. need_items st 3. swap_items 2%nat 1%nat. rep_step. swap_items 1%nat 0%nat. rep_step.
Qed.

Lemma op_swap_sim s st alt : rep s st alt -> stack_sim alt (op_swap s) (shuffle OP_SWAP st).
Proof. intros Hr. unfold op_swap, shuffle. need_items st 2. rep_step. swap_items 1%nat 0%nat. rep_step. Qed.

Lemma op_ifdup_sim s st alt : rep s st alt -> stack_sim alt (op_ifdup s) (shuffle OP_IFDUP st).
Proof.
  intros Hr. unfold op_ifdup, shuffle. need_items st 1. rep_step. cbn [vec stackElement].
  rewrite CastToBool_truth by apply Hx. destruct (truth x); repeat rep_step.
Qed.

(** Sizes as numbers. *)

Lemma size_number n : 0 <= n < 2 ^ 63 -> exists b, bint_of_size_t n = Ok b /\ getvch (Big b) = enc n.
Proof.
  intros Hn. assert (exists b, bint_of_size_t n = Ok b /\ toZ b = n) as (b & Eb & Vb).
  { unfold bint_of_size_t. destruct BN_new_total as [v Ev]. rewrite Ev. cbn [or_throw mbind outcome_bind].
    destruct (BN_set_word_total v n) as [w Ew]; [lia|]. rewrite Ew. exists w. split; [done|]. by apply (BN_set_word_law v n); [lia|]. }
  exists b. split; [done|]. by rewrite getvch_enc, <- Vb.
Qed.

Lemma length_enc_small n : 0 <= n < 2 ^ 63 -> Z.of_nat (length (enc n)) < 2 ^ 62.
Proof. intros Hn. pose proof (length_enc n 63 ltac:(lia) ltac:(lia)). lia. Qed.

Lemma op_depth_sim s st alt : rep s st alt -> stack_sim alt (op_depth s) (shuffle OP_DEPTH st).
Proof.
  intros Hr. unfold op_depth, shuffle. pose proof (rep_length _ _ _ _ _ Hr). rewrite (rep_size _ _ _ _ _ Hr).
  destruct (size_number (Z.of_nat (length st))) as (b & Eb & Vb); [lia|]. eapply sim_get; [exact Eb|]. rewrite Vb.
  rep_step. rep_step; [apply enc_spec | apply length_enc_small; lia | rep_step].
Qed.

Lemma op_size_sim s st alt : rep s st alt -> stack_sim alt (op_size s) (shuffle OP_SIZE st).
Proof.
  intros Hr. unfold op_size, shuffle. need_items st 1. rep_step. destruct Hx as [_ Hx]. unfold vsize. cbn [vec stackElement].
  destruct (size_number (Z.of_nat (length x))) as (b & Eb & Vb); [lia|]. eapply sim_get; [exact Eb|]. rewrite Vb.
  rep_step. rep_step; [apply enc_spec | apply length_enc_small; lia | rep_step].
Qed.

Lemma op_drop_sim s st alt : rep s st alt -> stack_sim alt (op_drop s) (shuffle OP_DROP st).
Proof. intros Hr. unfold op_drop, shuffle. need_items st 1. repeat rep_step. Qed.

Lemma op_dup_sim s st alt : rep s st alt -> stack_sim alt (op_dup s) (shuffle OP_DUP st).
Proof. intros Hr. unfold op_dup, shuffle. need_items st 1. repeat rep_step. Qed.

Lemma op_nip_sim s st alt : rep s st alt -> stack_sim alt (op_nip s) (shuffle OP_NIP st).
Proof.
  intros Hr. unfold op_nip, shuffle. need_items st 2. rep_step.
  eapply sim_erase with (i := 1%nat); [eassumption | done | cbn; lia | intros s1 Hr1; cbn in Hr1]. rep_step.
Qed.

Lemma op_over_sim s st alt : rep s st alt -> stack_sim alt (op_over s) (shuffle OP_OVER st).
Proof. intros Hr. unfold op_over, shuffle. need_items st 2. repeat rep_step. Qed.

Lemma op_tuck_sim s st alt : rep s st alt -> stack_sim alt (op_tuck s) (shuffle OP_TUCK st).
Proof.
  intros Hr. unfold op_tuck, shuffle. need_items st 2. rep_step. rep_step.
  eapply sim_insert with (i := 1%nat); [eassumption | eassumption | done | cbn; lia | done | intros s1 Hr1; cbn in Hr1]. rep_step.
Qed.

Lemma op_verify_sim s st alt : rep s st alt -> stack_sim alt (op_verify s) (s_verify st).
Proof.
  intros Hr. unfold op_verify, s_verify. need_items st 1. rep_step. cbn [vec stackElement].
  rewrite CastToBool_truth by apply Hx. destruct (truth x); [repeat rep_step | done].
Qed.

Lemma sim_bool_push (b : bool) s st alt k (a : spec items) (R : LimitedStack -> items -> Prop) : rep s st alt ->
  (forall s', rep s' (of_bool b :: st) alt -> sim token leak M R (k s') a) ->
  sim token leak M R (lift (push_back s Root (vch_of_bool b)) ≫= k) a.
Proof.
  intros Hr Hk. eapply sim_push; [exact Hr | by destruct b; repeat constructor | by destruct b | exact Hk].
Qed.

Lemma op_equal_sim o s st alt : rep s st alt -> o = OP_EQUAL \/ o = OP_EQUALVERIFY ->
  stack_sim alt (op_equal (code o) s) (s_equal (bool_decide (o = OP_EQUALVERIFY)) st).
Proof.
  intros Hr Ho. unfold op_equal, s_equal. need_items st 2. do 4 rep_step. cbn [vec stackElement].
  eapply sim_bool_push; [eassumption | intros s2 Hr2; cbv beta].
  destruct Ho as [-> | ->]; cbn [code Z.eqb Pos.eqb].
  - rewrite bool_decide_false by done. rep_step.
  - rewrite (bool_decide_true (OP_EQUALVERIFY = _)) by done. destruct (bool_decide (x0 = x)); [repeat rep_step | done].
Qed.

Context (config : CScriptConfig) (consensus : bool) (flags : Z).

Lemma op_cat_sim s st alt : rep s st alt -> stack_sim alt (op_cat flags s) (s_cat flags st).
Proof.
  intros Hr. unfold op_cat, s_cat. need_items st 2. do 2 rep_step.
  unfold vsize. cbn [vec stackElement]. rewrite <- Nat2Z.inj_add.
  apply sim_require; intros Hb; [apply negb_false_iff in Hb; by rewrite Hb | apply negb_true_iff in Hb; rewrite Hb].
  rewrite (rep_size _ _ _ _ _ Hr). rep_step. rep_step.
  eapply sim_append; [eassumption | eassumption | eassumption | cbn; lia | intros s1 Hr1; cbv beta]. rep_step.
Qed.

Lemma zip_with_bytes o (x y : list Z) : bytes x -> bytes y -> bytes (zip_with (bitop o) x y).
Proof.
  intros Hx. revert y. induction Hx as [|b x Hb Hx IH]; intros [|c y] Hy; cbn; [done..|]. inversion_clear Hy.
  constructor; [|by apply IH]. unfold bitop. destruct o; first [by apply (land_range 8) | by apply (lor_range 8) | by apply (lxor_range 8)].
Qed.

Lemma op_bitwise_sim o s st alt : rep s st alt -> o = OP_AND \/ o = OP_OR \/ o = OP_XOR ->
  stack_sim alt (op_bitwise (code o) s) (s_bitwise o st).
Proof.
  intros Hr Ho. unfold op_bitwise, s_bitwise. need_items st 2. do 2 rep_step. unfold vsize. cbn [vec stackElement].
  assert ((Z.of_nat (length x0) =? Z.of_nat (length x)) = (length x0 =? length x)%nat) as ->.
  { destruct (Nat.eqb_spec (length x0) (length x)) as [E|E]; [by rewrite E, Z.eqb_refl | by apply Z.eqb_neq; lia]. }
  apply sim_require; intros Hb; rewrite Hb; [done|]. apply Nat.eqb_eq in Hb.
  assert (bitwise (code o) = bitop o) as -> by (by destruct Ho as [-> | [-> | ->]]).
  rewrite (rep_size _ _ _ _ _ Hr). cbn zeta. rep_step.
  eapply sim_pop; [|intros s1 Hr1; cbv beta; rep_step].
  apply (rep_set_element leak M s (x :: x0 :: st) alt 1 x0); [done | done | |].
  - apply zip_with_bytes; [apply Hx | apply Hx0].
  - rewrite length_zip_with. lia.
Qed.

Lemma invert_bytes_eq x : bytes x -> invert_bytes x = map (fun b => 255 - b) x.
Proof.
  intros Hx. unfold invert_bytes. apply map_ext_in. intros b Hb.
  apply (proj1 (List.Forall_forall _ _) Hx) in Hb. unfold is_byte in Hb. unfold u8, Z.lnot.
  replace (Z.pred (- b)) with (255 - b + (-1) * 256) by lia. rewrite Z_mod_plus_full. apply Z.mod_small. lia.
Qed.

Lemma op_invert_sim s st alt : rep s st alt -> stack_sim alt (op_invert s) (s_invert st).
Proof.
  intros Hr. unfold op_invert, s_invert. need_items st 1. rep_step. cbn [vec stackElement].
  rewrite invert_bytes_eq by apply Hx. rewrite (rep_size _ _ _ _ _ Hr). apply sim_Ok.
  eapply (rep_set_element leak M s (x :: st) alt 0 x); [done | done | | by rewrite length_map].
  destruct Hx as [Hx _]. apply Forall_map. eapply Forall_impl; [|exact Hx]. unfold is_byte. cbn. lia.
Qed.

(** The hash classes compute the standard's digests of short enough elements. *)

Lemma hash_element_digest o x : Z.of_nat (length x) < 2 ^ 61 ->
  o = OP_RIPEMD160 \/ o = OP_SHA1 \/ o = OP_SHA256 \/ o = OP_HASH160 \/ o = OP_HASH256 ->
  hash_element (code o) x = digest o x.
Proof.
  intros Hx. assert (concat [x] = x) as Ec by (cbn; apply app_nil_r).
  intros [-> | [-> | [-> | [-> | ->]]]]; cbn [hash_element code Z.eqb Pos.eqb digest].
  - pose proof (Writes160_ok [x] [] _ new160_ok) as Hok. cbn [app] in Hok. rewrite Ec in Hok.
    apply (Finalize160_spec x); [apply Hok; lia | done].
  - pose proof (Writes1_ok [x] [] _ new1_ok) as Hok. cbn [app] in Hok. rewrite Ec in Hok.
    apply (Finalize1_spec x); [apply Hok; lia | done].
  - pose proof (Writes256_ok [x] [] _ new256_ok) as Hok. cbn [app] in Hok. rewrite Ec in Hok.
    apply (Finalize256_spec x); [apply Hok; lia | done].
  - pose proof (CHash160_spec [x]) as E. rewrite Ec in E. by apply E.
  - pose proof (CHash256_spec [x]) as E. rewrite Ec in E. by apply E.
Qed.

Lemma digest_bytes o x : bytes (digest o x) /\ (length (digest o x) <= 32)%nat.
Proof.
  unfold digest. destruct o; rewrite ?length_fips_sha256, ?length_rmd160, ?length_fips_sha1;
    (split; [first [apply fips_sha256_bytes | apply rmd160_bytes | apply fips_sha1_bytes] | lia]).
Qed.

Lemma op_hash_sim o s st alt : rep s st alt ->
  o = OP_RIPEMD160 \/ o = OP_SHA1 \/ o = OP_SHA256 \/ o = OP_HASH160 \/ o = OP_HASH256 ->
  stack_sim alt (op_hash (code o) s) (s_hash o st).
Proof.
  intros Hr Ho. unfold op_hash, s_hash. need_items st 1. rep_step. cbn [vec stackElement]. cbn zeta.
  rewrite hash_element_digest by (destruct Hx; lia || done). rep_step. rep_step.
  destruct (digest_bytes o x). rep_step; [done | lia | rep_step].
Qed.

End stack_ops.
