(* ===== verification/NumOps.v ===== *)
(** * The numeric opcodes simulate the abstract machine

    Arithmetic and comparisons, copying from a depth, conversions between numbers and byte strings, splitting
    and shifting: the handlers that read script numbers from the stack. *)

From S2P Require Import Prelude Common IntSer BigInt ScriptNum Stack Script Hasher Sha2 Ripemd160 Sha1 Hash Flags SigEnc Interp Shift ScriptSpec Simulation StackOps.
#[local] Open Scope Z_scope.
#[local] Open Scope interp_scope.

Section num_ops.
Context `{BN_Total} `{Secp256k1}.
Context (token : nat -> bool) (leak M : Z) (HM : M < 2 ^ 31).
Context (config : CScriptConfig) (consensus : bool) (flags : Z).
Context (Hnum : utxo_after_genesis flags = false -> maxScriptNumLength config consensus flags <= 4).

Notation rep := (rep leak M).
Notation stack_sim alt := (sim token leak M (fun s' st' => rep s' st' alt)).
Notation genesis := (utxo_after_genesis flags).

(** ** Values *)

Lemma in_range_value n : (is_big n = false -> - 2 ^ 63 <= snum_val n < 2 ^ 63) -> in_range n.
Proof. destruct n; cbn; auto. Qed.

Lemma operand_bound n : operand n -> is_big n = false -> Z.abs (snum_val n) < 2 ^ 31.
Proof. destruct n; cbn; [lia | done]. Qed.

Lemma number_of_int_spec n : - 2 ^ 31 < n < 2 ^ 31 ->
  exists c, number_of_int flags n = Ok c /\ snum_val c = n /\ is_big c = genesis /\ operand c /\ in_range c.
Proof.
  intros Hn. unfold number_of_int. destruct genesis.
  - destruct (bint_of_int_total n ltac:(lia)) as (b & -> & Vb). by exists (Big b).
  - exists (Small n). cbn. split_and!; (done || lia).
Qed.

(** The memory an encoded result needs. *)

Lemma length_enc_bound z k : 0 <= k < 2 ^ 40 -> Z.abs z < 2 ^ k -> Z.of_nat (length (enc z)) < 2 ^ 62.
Proof. intros Hk Hz. pose proof (length_enc z k ltac:(lia) Hz). lia. Qed.

Lemma held_bound x : held M x -> Z.abs (num_val x) < 2 ^ (8 * Z.of_nat (length x)) /\ Z.of_nat (length x) < 2 ^ 31.
Proof. intros [Hb Hl]. destruct (num_val_lt x (Z.of_nat (length x)) Hb ltac:(lia)). split; [done | lia]. Qed.

Lemma b2z_abs b : Z.abs (Z.b2z b) <= 1.
Proof. destruct b; cbn; lia. Qed.

Lemma snum_of_bool_spec b : snum_val (snum_of_bool b) = Z.b2z b /\ in_range (snum_of_bool b).
Proof. destruct b; cbn; (split; [done | lia]). Qed.

Lemma unary_spec o n :
  o = OP_1ADD \/ o = OP_1SUB \/ o = OP_NEGATE \/ o = OP_ABS \/ o = OP_NOT \/ o = OP_0NOTEQUAL ->
  is_big n = genesis -> operand n -> in_range n ->
  exists c, unary flags (code o) n = Ok c /\ snum_val c = unop o (snum_val n) /\ in_range c.
Proof.
  intros Ho Hbig Hop Hr. destruct (number_of_int_spec 1 ltac:(lia)) as (one & E1 & V1 & B1 & O1 & _).
  pose proof (operand_bound n Hop) as Hb. unfold unary.
  assert (forall c v, snum_val c = v -> is_big c = is_big n -> Z.abs v <= Z.abs (snum_val n) + 1 -> in_range c) as Hin.
  { intros c v <- Hc Hv. apply in_range_value. intros Hs. rewrite Hc in Hs. specialize (Hb Hs). lia. }
  destruct Ho as [-> | [-> | [-> | [-> | [-> | ->]]]]]; cbn [code Z.eqb Pos.eqb unop].
  - rewrite E1. cbn [mbind outcome_bind]. destruct (snum_add_spec n one) as (c & -> & Vc & Bc); [congruence | done..|].
    exists c. split_and!; [done | lia | eapply Hin; [exact Vc | done | lia]].
  - rewrite E1. cbn [mbind outcome_bind]. destruct (snum_sub_spec n one) as (c & -> & Vc & Bc); [congruence | done..|].
    exists c. split_and!; [done | lia | eapply Hin; [exact Vc | done | lia]].
  - destruct (snum_neg_spec n Hop) as (c & -> & Vc & Bc). exists c. split_and!; [done.. | eapply Hin; [exact Vc | done | lia]].
  - rewrite snum_lt_spec by (done || (cbn; lia)). cbn [mbind outcome_bind snum_val]. destruct (Z.ltb_spec (snum_val n) 0) as [Hlt|Hge].
    + destruct (snum_neg_spec n Hop) as (c & -> & Vc & Bc). exists c. split_and!; [done | lia | eapply Hin; [exact Vc | done | lia]].
    + exists n. split_and!; [done | lia | done].
  - rewrite snum_eq_spec by (done || (cbn; lia)). cbn [mbind outcome_bind snum_val]. eexists. split; [done|]. apply snum_of_bool_spec.
  - rewrite snum_eq_spec by (done || (cbn; lia)). cbn [mbind outcome_bind snum_val]. eexists. split; [done|]. apply snum_of_bool_spec.
Qed.

Lemma unop_abs o n : Z.abs (unop o n) <= Z.abs n + 1.
Proof. unfold unop. destruct o; try lia; match goal with |- context [Z.b2z ?b] => pose proof (b2z_abs b) end; lia. Qed.

Lemma op_unary_sim o s st alt : rep s st alt ->
  o = OP_1ADD \/ o = OP_1SUB \/ o = OP_NEGATE \/ o = OP_ABS \/ o = OP_NOT \/ o = OP_0NOTEQUAL ->
  stack_sim alt (op_unary config consensus flags (code o) s) (s_unary config consensus flags o st).
Proof.
  intros Hr Ho. unfold op_unary, s_unary. need_items st 1. rep_step.
  apply sim_number; [done..|]. intros n Vn Bn On Rn. destruct (unary_spec o n Ho Bn On Rn) as (c & Ec & Vc & Rc).
  eapply sim_get; [exact Ec|]. rewrite (getvch_enc c Rc), Vc, Vn. rep_step. rep_step.
  destruct (held_bound x Hx) as [Hb Hl]. pose proof (unop_abs o (num_val x)).
  rep_step; [apply enc_spec | apply (length_enc_bound _ (8 * Z.of_nat (length x) + 1)); [lia|] | rep_step].
  rewrite Z.pow_add_r by lia. pose proof (pow2_pos (8 * Z.of_nat (length x)) ltac:(lia)). lia.
Qed.

Definition num_rel (c : CScriptNum) (z : Z) : Prop := snum_val c = z /\ in_range c.

Definition binary_opcode (o : opcodetype) : bool :=
  match o with
  | OP_ADD | OP_SUB | OP_MUL | OP_DIV | OP_MOD | OP_BOOLAND | OP_BOOLOR | OP_NUMEQUAL | OP_NUMNOTEQUAL | OP_LESSTHAN
  | OP_GREATERTHAN | OP_LESSTHANOREQUAL | OP_GREATERTHANOREQUAL | OP_MIN | OP_MAX => true
  | _ => false
  end.

Lemma compare_with_sim (o : outcome exn bool) b g z : o = Ok b -> z = Z.b2z (g b) ->
  sim token leak M num_rel (compare_with o g) (Val z).
Proof. intros -> ->. apply sim_Ok. apply snum_of_bool_spec. Qed.

(** A result of the arithmetic lemmas of [ScriptNum]. *)

Lemma arith_sim (o : outcome exn CScriptNum) a z :
  (exists c, o = Ok c /\ snum_val c = z /\ is_big c = is_big a) -> (is_big a = false -> - 2 ^ 63 <= z < 2 ^ 63) ->
  sim token leak M num_rel (lift o) (Val z).
Proof.
  intros (c & -> & Vc & Bc) Hz. exists z. split; [done|]. split; [done|]. apply in_range_value. rewrite Bc, Vc. exact Hz.
Qed.

Lemma leb_not_ltb a b : (a <=? b) = negb (b <? a).
Proof. destruct (Z.leb_spec a b), (Z.ltb_spec b a); (done || lia). Qed.

Lemma binary_sim o a b : binary_opcode o = true -> is_big a = is_big b -> operand a -> operand b -> in_range a -> in_range b ->
  sim token leak M num_rel (binary (code o) a b) (binop o (snum_val a) (snum_val b)).
Proof.
  intros Ho Hab Oa Ob Ra Rb. unfold binary.
  pose proof (operand_bound a Oa) as Ba. pose proof (operand_bound b Ob) as Bb. rewrite <- Hab in Bb.
  assert (in_range (Small 0)) as R0 by (cbn; lia).
  destruct o; try discriminate Ho; cbn [code Z.eqb Pos.eqb binop].
  - eapply arith_sim; [by apply snum_add_spec|]. intros Hs. specialize (Ba Hs). specialize (Bb Hs). lia.
  - eapply arith_sim; [by apply snum_sub_spec|]. intros Hs. specialize (Ba Hs). specialize (Bb Hs). lia.
  - eapply arith_sim; [by apply snum_mul_spec|]. intros Hs. specialize (Ba Hs). specialize (Bb Hs). nia.
  - eapply sim_get; [by apply snum_eq_spec|]. cbn [snum_val]. apply sim_require; intros Hz.
    { apply negb_false_iff in Hz. by rewrite Hz. }
    apply negb_true_iff in Hz. rewrite Hz. apply Z.eqb_neq in Hz. eapply arith_sim; [by apply snum_div_spec|].
    intros Hs. specialize (Ba Hs). pose proof (quot_abs_le (snum_val a) (snum_val b) Hz). lia.
  - eapply sim_get; [by apply snum_eq_spec|]. cbn [snum_val]. apply sim_require; intros Hz.
    { apply negb_false_iff in Hz. by rewrite Hz. }
    apply negb_true_iff in Hz. rewrite Hz. apply Z.eqb_neq in Hz. eapply arith_sim; [by apply snum_mod_spec|].
    intros Hs. specialize (Bb Hs). pose proof (Z.rem_bound_abs (snum_val a) (snum_val b) Hz). lia.
  - eapply sim_get; [by apply snum_eq_spec|]. cbn [snum_val]. destruct (snum_val a =? 0); [by apply sim_Ok|].
    eapply compare_with_sim; [by apply snum_eq_spec | done].
  - eapply sim_get; [by apply snum_eq_spec|]. cbn [snum_val]. destruct (snum_val a =? 0); [|by apply sim_Ok].
    eapply compare_with_sim; [by apply snum_eq_spec | done].
  - eapply compare_with_sim; [by apply snum_eq_spec | done].
  - eapply compare_with_sim; [by apply snum_eq_spec | done].
  - eapply compare_with_sim; [by apply snum_lt_spec | done].
  - eapply compare_with_sim; [by apply snum_lt_spec | done].
  - eapply compare_with_sim; [by apply snum_lt_spec | by rewrite leb_not_ltb].
  - eapply compare_with_sim; [by apply snum_lt_spec | by rewrite leb_not_ltb].
  - eapply sim_get; [by apply snum_lt_spec|]. apply sim_Ok. destruct (Z.ltb_spec (snum_val a) (snum_val b)); (split; [lia | done]).
  - eapply sim_get; [by apply snum_lt_spec|]. apply sim_Ok. destruct (Z.ltb_spec (snum_val b) (snum_val a)); (split; [lia | done]).
Qed.

Lemma binop_abs o a b A B c : Z.abs a < A -> Z.abs b < B -> binop o a b = Val c -> Z.abs c < 2 * (A * B).
Proof.
  intros Ha Hb. assert (forall z, Z.abs z <= Z.abs a + Z.abs b \/ Z.abs z <= 1 \/ Z.abs z = Z.abs a * Z.abs b -> Z.abs z < 2 * (A * B)) as Hz by (intros; nia).
  assert (forall v : bool, Z.abs (Z.b2z v) < 2 * (A * B)) as Hv by (intros v; apply Hz; right; left; apply b2z_abs).
  unfold binop. destruct o; try (intros Ec; injection Ec as <-; (apply Hv || (apply Hz; lia) || (apply Hz; rewrite Z.abs_mul; tauto)));
    try (case_match; intros Ec; [injection Ec as <-; apply Hz; lia | discriminate]).
  - destruct (Z.eqb_spec b 0) as [|Hn]; intros Ec; [discriminate|]. injection Ec as <-. apply Hz. pose proof (quot_abs_le a b Hn). lia.
  - destruct (Z.eqb_spec b 0) as [|Hn]; intros Ec; [discriminate|]. injection Ec as <-. apply Hz. pose proof (Z.rem_bound_abs a b Hn). lia.
Qed.

Lemma binop_length o x y c : held M x -> held M y -> binop o (num_val x) (num_val y) = Val c -> Z.of_nat (length (enc c)) < 2 ^ 62.
Proof.
  intros Hx Hy Hc. destruct (held_bound x Hx) as [Bx Lx], (held_bound y Hy) as [By Ly].
  apply (length_enc_bound _ (8 * Z.of_nat (length x) + 8 * Z.of_nat (length y) + 1)); [lia|].
  rewrite !Z.pow_add_r, (Z.mul_comm _ (2 ^ 1)) by lia. by eapply binop_abs.
Qed.

Lemma op_binary_sim o s st alt : rep s st alt -> binary_opcode o = true ->
  stack_sim alt (op_binary config consensus flags (code o) s) (s_binary config consensus flags o st).
Proof.
  intros Hr Ho. unfold op_binary, s_binary. need_items st 2. do 2 rep_step.
  apply sim_number; [done..|]. intros a Va Ba Oa Ra. apply sim_number; [done..|]. intros b Vb Bb Ob Rb.
  pose proof (binary_sim o a b Ho ltac:(congruence) Oa Ob Ra Rb) as Hs. rewrite Va, Vb in Hs.
  eapply sim_bind_eq; [exact Hs|]. intros c z Ez [Vc Rc]. rewrite (getvch_enc c Rc), Vc. do 2 rep_step.
  rep_step; [apply enc_spec | eapply binop_length; [exact Hx | exact Hx0 | exact Ez] |].
  destruct o; try discriminate Ho; cbn [code Z.eqb Pos.eqb]; rep_step.
Qed.

Lemma op_numequalverify_sim s st alt : rep s st alt ->
  stack_sim alt (op_binary config consensus flags (code OP_NUMEQUALVERIFY) s) (s_binary config consensus flags OP_NUMEQUALVERIFY st).
Proof.
  intros Hr. unfold op_binary, s_binary. need_items st 2. do 2 rep_step.
  apply sim_number; [done..|]. intros a Va Ba Oa Ra. apply sim_number; [done..|]. intros b Vb Bb Ob Rb.
  unfold binary. cbn [code Z.eqb Pos.eqb binop]. unfold compare_with. rewrite snum_eq_spec, Va, Vb by done. cbn [lift mbind outcome_bind].
  unfold id. destruct (snum_of_bool_spec (num_val x0 =? num_val x)) as [Vc Rc]. rewrite (getvch_enc _ Rc), Vc.
  destruct (num_val x0 =? num_val x); cbn [Z.b2z mbind spec_bind].
  - do 2 rep_step. rep_step; [apply enc_spec | by vm_compute |]. rep_step. cbn [vec stackElement].
    change (CastToBool (enc 1)) with true. cbv iota. repeat rep_step.
  - do 2 rep_step. rep_step; [apply enc_spec | by vm_compute |]. rep_step. done.
Qed.

Lemma op_within_sim s st alt : rep s st alt ->
  stack_sim alt (op_within config consensus flags s) (s_within config consensus flags st).
Proof.
  intros Hr. unfold op_within, s_within. need_items st 3. rep_step.
  apply sim_number; [done..|]. intros a Va _ _ Ra. rep_step.
  apply sim_number; [done..|]. intros b Vb _ _ Rb. rep_step.
  apply sim_number; [done..|]. intros c Vc _ _ Rc.
  eapply sim_get; [by apply snum_lt_spec|]. rewrite Va, Vb. rewrite leb_not_ltb.
  eapply sim_get with (x := negb (num_val x1 <? num_val x0) && (num_val x1 <? num_val x)).
  { destruct (num_val x1 <? num_val x0); cbn [negb andb]; [done|]. rewrite snum_lt_spec by done. by rewrite Va, Vc. }
  do 3 rep_step. rep_step. eapply sim_bool_push; [eassumption | intros s3 Hr3; cbv beta]. rep_step.
Qed.

(** ** Positions *)

Lemma size_t_spec n : in_range n -> 0 <= snum_val n <= INT_MAX -> snum_to_size_t_limited n = Ok (snum_val n).
Proof.
  unfold snum_to_size_t_limited, INT_MAX. intros Hr Hn. destruct n as [n|n]; cbn [snum_val in_range] in *.
  - by rewrite (proj2 (Z.leb_le _ _)), (proj2 (Z.leb_le _ _)) by lia.
  - destruct (bint_of_int_total 0 ltac:(lia)) as (z & -> & Vz). destruct (bint_of_int_total (2 ^ 31 - 1) ltac:(lia)) as (m & -> & Vm).
    cbn [mbind outcome_bind]. rewrite !bint_lt_spec, Vz, Vm, !(proj2 (Z.ltb_ge _ _)) by lia. cbn [negb andb assert_ mbind outcome_bind].
    unfold to_size_t_limited, to_long. destruct (BN_to_long_total n) as [v Ev]. rewrite Ev. cbn.
    apply BN_to_long_law in Ev; [|lia]. subst v. unfold u64. by rewrite Z.mod_small by lia.
Qed.

Lemma index_eq v : 0 <= v < 2 ^ 31 -> i32 (u64 (- v - 1)) = - v - 1.
Proof.
  intros Hv. unfold i32, u64. assert (((- v - 1) mod 2 ^ 64 + 2 ^ 31) mod 2 ^ 32 = 2 ^ 31 - 1 - v) as Em; [|lia].
  symmetry. apply (Z.mod_unique_pos _ _ (2 ^ 32)); [lia|].
  assert ((- v - 1) mod 2 ^ 64 = 2 ^ 64 - 1 - v) as ->; [|lia].
  symmetry. apply (Z.mod_unique_pos _ _ (-1)); lia.
Qed.

Lemma i64_small z : - 2 ^ 63 <= z < 2 ^ 63 -> i64 z = z.
Proof. intros Hz. unfold i64. rewrite Z.mod_small; lia. Qed.

(** [n < 0 || n >= size], [n < 0 || n > size] as the code writes them. *)

Lemma lt_check n k : in_range n -> 0 <= k < 2 ^ 63 ->
  (negative ← snum_lt n (Small 0); (if negative : bool then Ok false else snum_lt n (Small k))) =
  Ok (negb ((snum_val n <? 0) || (k <=? snum_val n))).
Proof.
  intros Hn Hk. rewrite (snum_lt_spec n (Small 0)) by (done || (cbn; lia)). cbn [mbind outcome_bind snum_val].
  destruct (snum_val n <? 0); [done|]. rewrite snum_lt_spec by (done || (cbn; lia)). cbn. f_equal. by rewrite leb_not_ltb, negb_involutive.
Qed.

Lemma lift_bind {A B} (o : outcome exn A) (f : A -> outcome exn B) {C} (k : B -> outcome exit C) :
  (x <~ o; y <~ f x; k y) = (y <~ (x ← o; f x); k y).
Proof. by destruct o. Qed.

Lemma op_pick_roll_sim o s st alt : rep s st alt -> o = OP_PICK \/ o = OP_ROLL ->
  stack_sim alt (op_pick_roll config consensus flags (code o) s) (s_pick config consensus flags (bool_decide (o = OP_ROLL)) st).
Proof.
  intros Hr Ho. unfold op_pick_roll, s_pick. need_items st 2. rep_step. rewrite (proj2 (Nat.eqb_neq _ _)) by (cbn; lia).
  apply sim_number; [done..|]. intros n Vn _ _ Rn. rep_step. set (r := x0 :: st) in *.
  pose proof (rep_length _ _ _ _ _ Hr0) as Hlen. rewrite (rep_size _ _ _ _ _ Hr0), i64_small by lia.
  rewrite lift_bind. eapply sim_get; [apply lt_check; [done | lia]|]. rewrite Vn.
  apply sim_require; intros Hb; [apply negb_false_iff in Hb; by rewrite Hb | apply negb_true_iff in Hb; rewrite Hb].
  apply orb_false_iff in Hb as [H0n%Z.ltb_ge Hnl%Z.leb_gt]. unfold INT_MAX.
  eapply sim_get; [apply size_t_spec; [done | unfold INT_MAX; lia]|]. rewrite Vn, index_eq by lia.
  set (k := Z.to_nat (num_val x)). assert (k < length r)%nat as Hk by lia.
  destruct (lookup_lt_is_Some_2 r k Hk) as [y Hy]. rewrite (nth_lookup_Some r k [] y) by done.
  eapply sim_top with (i := k); [eassumption | lia | exact Hy | intros Hyh; cbv beta].
  destruct Ho as [-> | ->]; cbn [code Z.eqb Pos.eqb].
  - rewrite bool_decide_false by done. eapply sim_get; [done|]. rep_step. rep_step. rep_step.
  - rewrite bool_decide_true by done. eapply sim_erase with (i := k); [eassumption | lia | done | intros s2 Hr2; cbv beta].
    rep_step. rep_step. rep_step.
Qed.

Lemma op_split_sim s st alt : rep s st alt -> stack_sim alt (op_split config consensus flags s) (s_split config consensus flags st).
Proof.
  intros Hr. unfold op_split, s_split. need_items st 2. do 2 rep_step.
  apply sim_number; [done..|]. intros n Vn _ _ Rn. destruct Hx as [Bx Lx]. unfold vsize. cbn [vec stackElement].
  rewrite i64_small by lia. rewrite lift_bind.
  eapply sim_get with (x := (num_val x <? 0) || (Z.of_nat (length x0) <? num_val x)).
  { rewrite (snum_lt_spec n (Small 0)) by (done || (cbn; lia)). cbn [mbind outcome_bind snum_val]. rewrite Vn. destruct (num_val x <? 0); [done|].
    rewrite snum_lt_spec by (done || (cbn; lia)). cbn. by rewrite Vn. }
  apply sim_require; intros Hb; [apply negb_false_iff in Hb; by rewrite Hb | apply negb_true_iff in Hb; rewrite Hb].
  apply orb_false_iff in Hb as [H0n%Z.ltb_ge Hnl%Z.ltb_ge].
  eapply sim_get; [apply size_t_spec; [done | unfold INT_MAX; lia]|]. rewrite Vn. cbn zeta. do 2 rep_step.
  rep_step; [auto with bytes | rewrite length_take; lia |]. rep_step. rep_step; [auto with bytes | rewrite length_drop; lia |]. rep_step.
Qed.

(** ** Encodings *)

Lemma last_snoc_inv (l : list Z) : l = [] \/ exists l' b, l = l' ++ [b].
Proof. destruct l as [|b l _] using rev_ind; [by left | right; by exists l, b]. Qed.

(** The minimal encoding spread over [n] bytes: its last byte gives up the sign to the new last byte. *)

Lemma sign_magnitude_full z : sign_magnitude (length (enc z)) z = enc z.
Proof.
  destruct (enc_spec z) as (Hb & Hv & Hm). set (v := enc z) in *. clearbody v. unfold sign_magnitude.
  destruct (last_snoc_inv v) as [-> | (l & b & ->)]; [done|].
  apply Forall_app in Hb as [Hl Hbb]. rewrite Forall_singleton in Hbb. rewrite num_val_snoc in Hv by done. destruct Hm as [Hm|Hm]; [by destruct l|].
  rewrite num_val_snoc in Hm by done. rewrite length_app in *. cbn [length] in *. replace (length l + 1 - 1)%nat with (length l) in Hm by lia.
  pose proof (le_val_bound l Hl). set (P := 2 ^ (8 * Z.of_nat (length l))) in *.
  assert (2 ^ (8 * Z.of_nat (length l + 1) - 1) = 128 * P) as ->.
  { unfold P. change 128 with (2 ^ 7). rewrite <- Z.pow_add_r by lia. f_equal. lia. }
  rewrite <- (le_bytes_le_val (l ++ [b])) by (apply Forall_app_2; [done | by constructor]).
  rewrite length_app, le_val_app. cbn [length le_val]. f_equal. fold P. unfold is_byte in Hbb.
  destruct (Z.ltb_spec b 128), (Z.ltb_spec z 0); nia.
Qed.

Lemma sign_magnitude_pad z n l b : enc z = l ++ [b] -> (length (enc z) < n)%nat ->
  (l ++ [Z.land b 0x7f]) ++ replicate (n - length (enc z) - 1) 0 ++ [Z.land b 0x80] = sign_magnitude n z.
Proof.
  intros E Hn. destruct (enc_spec z) as (Hb & Hv & Hm). rewrite E in *. clear E. unfold sign_magnitude.
  apply Forall_app in Hb as [Hl Hbb]. rewrite Forall_singleton in Hbb. rewrite num_val_snoc in Hv by done. destruct Hm as [Hm|Hm]; [by destruct l|].
  rewrite num_val_snoc in Hm by done. rewrite length_app in *. cbn [length] in *. replace (length l + 1 - 1)%nat with (length l) in Hm by lia.
  rewrite byte_land_7f, byte_mod_128 by done. pose proof (le_val_bound l Hl) as Hlv.
  assert (Z.land b 0x80 = if b <? 128 then 0 else 128) as ->.
  { apply Z.eqb_eq. revert b Hbb Hv Hm. intros b Hbb _ _. by_byte (fun b => Z.land b 0x80 =? if b <? 128 then 0 else 128). }
  set (r := _ ++ _ ++ _). assert (length r = n) as Hr by (unfold r; rewrite !length_app, length_replicate; cbn; lia).
  assert (bytes r) as Br.
  { unfold is_byte in Hbb. unfold r. apply Forall_app_2; [apply Forall_app_2; [done|]|apply Forall_app_2; [by apply Forall_replicate|]];
      (constructor; [unfold is_byte; destruct (Z.ltb_spec b 128); lia | done]). }
  rewrite <- (le_bytes_le_val r Br), Hr. f_equal. unfold r. rewrite !le_val_app, !length_app, length_replicate. cbn [length le_val].
  assert (forall k, le_val (replicate k 0) = 0) as -> by (induction k as [|k IH]; [done | cbn; by rewrite IH]).
  set (P := 2 ^ (8 * Z.of_nat (length l))) in *.
  assert (2 ^ (8 * Z.of_nat n - 1) = 2 ^ (8 * Z.of_nat (length l + 1)) * (2 ^ (8 * Z.of_nat (n - (length l + 1) - 1)) * 128)) as ->.
  { change 128 with (2 ^ 7). rewrite <- !Z.pow_add_r by lia. f_equal. lia. }
  unfold is_byte in Hbb. destruct (Z.ltb_spec b 128), (Z.ltb_spec z 0); nia.
Qed.

Lemma removelast_zeros (l : list Z) k : (0 < k)%nat -> removelast (l ++ replicate k 0) = l ++ replicate (k - 1) 0.
Proof.
  intros Hk. destruct k as [|k]; [lia|]. rewrite replicate_S_end, app_assoc. cbn [Nat.sub]. rewrite Nat.sub_0_r. apply removelast_last.
Qed.

(** The end of OP_NUM2BIN: [rawnum], minimally encoded, is widened. *)

Lemma widen_sim s st alt z n : rep s (enc z :: st) alt -> Z.of_nat (length (enc z)) < n < 2 ^ 31 ->
  stack_sim alt
    ('(signbit, s) ← lift (match list.last (enc z) with
       | Some b => s ← vec_set s Root (length st) (length (enc z) - 1) (Z.land b 0x7f); Ok (Z.land b 0x80, s)
       | None => Ok (0, s)
       end);
     lift (vec_padRight s Root (length st) n signbit))
    (Val (sign_magnitude (Z.to_nat n) z :: st)).
Proof.
  intros Hr Hn. destruct (rep_held_cons _ _ _ _ _ _ Hr) as [Bz _]. pose proof (rep_top _ _ _ _ _ _ Hr) as Ht.
  destruct (last_snoc_inv (enc z)) as [E | (l & b & E)].
  - rewrite E in *. cbn [list.last]. eapply sim_get; [done|]. cbv beta iota. rep_step.
    eapply sim_padRight; [eassumption | done | unfold is_byte; lia | cbn; lia | intros s1 Hr1].
    rewrite removelast_zeros in Hr1 by (cbn; lia). cbn [app length] in Hr1. rewrite <- replicate_S_end in Hr1.
    assert (z = 0) as -> by (destruct (enc_spec z) as (_ & Hv & _); rewrite E in Hv; by cbn in Hv).
    replace (S (Z.to_nat (n - Z.of_nat 0) - 1)) with (Z.to_nat n) in Hr1 by lia.
    replace (sign_magnitude (Z.to_nat n) 0) with (replicate (Z.to_nat n) 0); [by apply sim_Ok|].
    unfold sign_magnitude. cbn [Z.abs Z.ltb Z.compare Z.add]. clear. induction (Z.to_nat n) as [|k IH]; [done|]. cbn. by rewrite IH.
  - pose proof (sign_magnitude_pad z (Z.to_nat n) l b E ltac:(lia)) as Hp. rewrite E, last_snoc in *. rewrite length_app in *. cbn [length] in *.
    apply Forall_app in Bz as [Bl Bb]. rewrite Forall_singleton in Bb.
    eapply sim_get.
    { unfold vec_set, at_. rewrite Ht. cbn [mbind outcome_bind vec stackElement]. rewrite length_app. cbn [length].
      rewrite (proj2 (Nat.leb_gt _ _)) by lia. cbn [mbind outcome_bind]. reflexivity. }
    cbv beta iota. rep_step. replace (length l + 1 - 1)%nat with (length l) in * by lia. rewrite insert_app_r_alt, Nat.sub_diag by lia. cbn [list_insert].
    pose proof (rep_set_element leak M s ((l ++ [b]) :: st) alt 0 (l ++ [b]) (l ++ [Z.land b 0x7f]) Hr eq_refl) as Hs.
    cbn [length insert list_insert] in Hs. rewrite Nat.sub_1_r in Hs. cbn [Nat.pred] in Hs.
    assert (is_byte (Z.land b 0x7f) /\ is_byte (Z.land b 0x80)) as [B7 B8] by (split; apply (land_range 8); (done || lia)).
    eapply sim_padRight; [apply Hs; [apply Forall_app_2; [done | by constructor] | by rewrite !length_app] | done | done | rewrite length_app; cbn; lia |].
    intros s1 Hr1. rewrite removelast_zeros in Hr1 by (rewrite length_app; cbn; lia). rewrite <- app_assoc in Hr1. rewrite length_app in Hr1. cbn [length] in Hr1.
    replace (Z.to_nat (n - Z.of_nat (length l + 1)) - 1)%nat with (Z.to_nat n - (length l + 1) - 1)%nat in Hr1 by lia.
    rewrite Hp in Hr1. by apply sim_Ok.
Qed.

Lemma op_num2bin_sim s st alt : rep s st alt ->
  stack_sim alt (op_num2bin config consensus flags s) (s_num2bin config consensus flags st).
Proof.
  intros Hr. unfold op_num2bin, s_num2bin. need_items st 2. rep_step.
  apply sim_number; [done..|]. intros n Vn _ _ Rn. rewrite lift_bind.
  eapply sim_get with (x := (num_val x <? 0) || (INT_MAX <? num_val x)).
  { rewrite (snum_lt_spec n (Small 0)) by (done || (cbn; lia)). cbn [mbind outcome_bind snum_val]. rewrite Vn. destruct (num_val x <? 0); [done|].
    rewrite snum_lt_spec by (done || (cbn; unfold INT_MAX; lia)). cbn [snum_val orb]. by rewrite Vn. }
  apply sim_require; intros Hb; [apply negb_false_iff in Hb; by rewrite Hb | apply negb_true_iff in Hb; rewrite Hb].
  apply orb_false_iff in Hb as [H0n%Z.ltb_ge Hnl%Z.ltb_ge].
  eapply sim_get; [apply size_t_spec; [done | lia]|]. rewrite Vn.
  apply sim_require; intros Hb; [apply negb_false_iff in Hb; by rewrite Hb | apply negb_true_iff in Hb; rewrite Hb]. clear Hb.
  rep_step. rewrite (rep_size _ _ _ _ _ Hr0). cbn [length]. rewrite Nat.sub_1_r. cbn [Nat.pred].
  eapply sim_MinimallyEncode; [eassumption | done | intros b s1 Hr1; cbv beta iota]. rep_step.
  unfold vsize. cbn [vec stackElement].
  apply sim_require; intros Hb; [apply negb_false_iff in Hb; by rewrite Hb | apply negb_true_iff in Hb; rewrite Hb; apply Z.ltb_ge in Hb].
  destruct (Z.eqb_spec (Z.of_nat (length (enc (num_val x0)))) (num_val x)) as [E|E].
  - rewrite <- E, Nat2Z.id, sign_magnitude_full. by apply sim_Ok.
  - apply widen_sim; [done|]. unfold INT_MAX in Hnl. lia.
Qed.

Lemma op_bin2num_sim s st alt : rep s st alt ->
  stack_sim alt (op_bin2num config consensus flags s) (s_bin2num config consensus flags st).
Proof.
  intros Hr. unfold op_bin2num, s_bin2num. need_items st 1. rewrite (rep_size _ _ _ _ _ Hr). cbn [length]. rewrite Nat.sub_1_r. cbn [Nat.pred].
  eapply sim_MinimallyEncode; [eassumption | done | intros b s1 Hr1; cbv beta iota]. rep_step. cbn [vec stackElement]. cbn zeta.
  destruct (enc_spec (num_val x)) as (Be & _ & Me).
  assert (IsMinimallyEncoded (enc (num_val x)) (maxScriptNumLength config consensus flags) =
    negb (maxScriptNumLength config consensus flags <? Z.of_nat (length (enc (num_val x))))) as ->.
  { apply eq_true_iff_eq. rewrite IsMinimallyEncoded_spec, negb_true_iff, Z.ltb_ge by done. tauto. }
  apply sim_require; intros Hb; [apply negb_false_iff in Hb; by rewrite Hb | apply negb_true_iff in Hb; rewrite Hb]. rep_step.
Qed.

(** ** Shifts *)

Definition shifted (left : bool) (x : list Z) (n : Z) : list Z :=
  be_bytes (length x) (if left then be_val x * 2 ^ n else be_val x / 2 ^ n).

Definition shift_of (left : bool) : list Z -> Z -> list Z := if left then LShift else RShift.

Lemma shift_of_spec left x n : bytes x -> 0 <= n -> shift_of left x n = shifted left x n.
Proof. destruct left; [apply LShift_spec | apply RShift_spec]. Qed.

Lemma shifted_ok left x n : bytes (shifted left x n) /\ length (shifted left x n) = length x.
Proof. unfold shifted. split; [apply be_bytes_bytes|]. unfold be_bytes. by rewrite length_rev, length_le_bytes. Qed.

Lemma be_bytes_mod k z : be_bytes k (z mod 2 ^ (8 * Z.of_nat k)) = be_bytes k z.
Proof.
  unfold be_bytes. f_equal. apply le_val_inj; [auto with bytes.. | by rewrite !length_le_bytes |].
  rewrite !le_val_le_bytes. apply Z.mod_mod. apply Z.pow_nonzero; lia.
Qed.

Lemma be_val_be_bytes k z : be_val (be_bytes k z) = z mod 2 ^ (8 * Z.of_nat k).
Proof. unfold be_val, be_bytes. by rewrite rev_involutive, le_val_le_bytes. Qed.

(** Two shifts in the same direction are one. *)

Lemma shifted_add left x a b : bytes x -> 0 <= a -> 0 <= b -> shifted left (shifted left x a) b = shifted left x (a + b).
Proof.
  intros Hx Ha Hb. pose proof (shifted_ok left x a) as [_ Hl]. unfold shifted at 1. rewrite Hl. unfold shifted. rewrite be_val_be_bytes.
  pose proof (pow2_pos a Ha). pose proof (pow2_pos b Hb). rewrite Z.pow_add_r by lia. destruct left.
  - rewrite <- be_bytes_mod, <- (be_bytes_mod _ (be_val x * (_ * _))). f_equal. rewrite Z.mul_mod_idemp_l by (apply Z.pow_nonzero; lia).
    f_equal. ring.
  - pose proof (be_val_bound x Hx). f_equal. rewrite Z.mod_small.
    + apply Z.div_div; lia.
    + split; [apply Z.div_pos; lia | apply Z.div_lt_upper_bound; nia].
Qed.

Lemma shifted_out left x n : bytes x -> Z.of_nat (length x) * 8 <= n -> shifted left x n = replicate (length x) 0.
Proof.
  intros Hx Hn. unfold shifted. rewrite <- be_bytes_mod. pose proof (be_val_bound x Hx) as Hv.
  replace ((if left then _ else _) mod _) with 0.
  - rewrite (be_bytes_pad (length x) 0 0 ltac:(cbn; lia)) || (replace (length x) with (length x + 0)%nat at 1 by lia;
      rewrite (be_bytes_pad (length x) 0 0) by (cbn; lia); apply app_nil_r).
  - destruct left.
    + rewrite (pow2_split (8 * Z.of_nat (length x)) n), Z.mul_assoc, (Z.mul_comm (be_val x)), <- Z.mul_assoc, Z.mul_comm by lia.
      symmetry. apply Z_mod_mult.
    + rewrite (Z.div_small (be_val x)); [done|]. split; [lia|]. eapply Z.lt_le_trans; [apply Hv|]. apply Z.pow_le_mono_r; lia.
Qed.

Lemma shift_loop_sim left fuel x n polls : bytes x -> is_big n = genesis -> operand n -> in_range n ->
  0 <= snum_val n -> (1 <= fuel)%nat -> snum_val n <= INT_MAX * Z.of_nat fuel ->
  sim token leak M (fun r y => r.1 = y) (shift_loop flags token fuel (shift_of left) x n polls) (Val (shifted left x (snum_val n))).
Proof.
  revert x n polls. induction fuel as [|fuel IH]; intros x n polls Hx Bn On Rn Hpos Hf Hn; [lia|]. cbn [shift_loop]. clear Hf.
  eapply sim_get; [by apply getint_spec|]. cbn zeta. apply sim_poll. intros p.
  destruct (number_of_int_spec INT_MAX ltac:(unfold INT_MAX; lia)) as (mx & Emx & Vmx & Bmx & Omx & Rmx).
  eapply sim_get; [exact Emx|]. destruct (snum_sub_spec n mx) as (d & Ed & Vd & Bd); [congruence | done..|].
  eapply sim_get; [exact Ed|]. rewrite Vmx in Vd.
  assert (operand d) as Od.
  { destruct d as [d|d], n as [n|n]; try done. cbn in *. subst d. unfold INT_MAX. lia. }
  assert (in_range d) as Rd by (destruct d; cbn in *; (lia || done)).
  eapply sim_get; [apply snum_lt_spec; [cbn; lia | done]|]. cbn [snum_val]. rewrite Vd.
  rewrite shift_of_spec by (done || (unfold INT_MAX, INT_MIN; lia)).
  replace (Z.max INT_MIN (Z.min INT_MAX (snum_val n))) with (Z.min INT_MAX (snum_val n)) by (unfold INT_MAX, INT_MIN; lia).
  destruct (Z.ltb_spec 0 (snum_val n - INT_MAX)) as [Hlt|Hge].
  - rewrite Z.min_l by lia. destruct (shifted_ok left x INT_MAX) as [Bs Ls].
    replace (snum_val n) with (INT_MAX + snum_val d) by lia. rewrite <- shifted_add by (done || (unfold INT_MAX; lia) || lia).
    apply IH; [done | congruence | done | done | lia | unfold INT_MAX in *; lia | lia].
  - rewrite Z.min_r by lia. by apply sim_Ok.
Qed.

Lemma state_rel_stack e a s st : state_rel leak M e a -> rep s st (ss_alt a) -> state_rel leak M (set_stack e s) (with_stack a st).
Proof. intros [] Hr. by split. Qed.

Lemma state_rel_polls e a n : state_rel leak M e a -> state_rel leak M (set_polls e n) a.
Proof. intros []. by split. Qed.

Notation state_sim := (sim token leak M (state_rel leak M)).

Lemma op_shift_sim left e a : state_rel leak M e a ->
  state_sim (op_shift config consensus flags token (shift_of left) e) (on_items (s_shift config consensus flags left) a).
Proof.
  intros He. pose proof (rel_stack _ _ _ _ He) as Hr. unfold op_shift, on_items, s_shift. cbn zeta.
  destruct a as [st alt ex el pc cd cnt ret]. cbn [ss_stack ss_alt] in Hr |- *. need_items st 2. do 2 rep_step.
  rewrite <- (spec_bind_assoc (operand_of config consensus flags x)).
  apply sim_number; [done..|]. intros n Vn Bn On Rn.
  eapply sim_get; [apply snum_lt_spec; [done | cbn; lia]|]. cbn [snum_val]. rewrite Vn.
  apply sim_require; intros Hb; [apply negb_false_iff in Hb; by rewrite Hb | apply negb_true_iff in Hb; rewrite Hb]. apply Z.ltb_ge in Hb.
  do 2 rep_step. destruct Hx as [Bx Lx]. cbn [vec stackElement].
  assert (i64 (u64 (Z.of_nat (length x0) * 8)) = Z.of_nat (length x0) * 8) as ->.
  { unfold u64. rewrite Z.mod_small by lia. apply i64_small. lia. }
  eapply sim_get; [apply snum_lt_spec; [done | cbn; lia]|]. cbn [snum_val]. rewrite Vn.
  eapply (sim_bind_eq _ _ _ (fun r y => r.1 = y) _ _ (Val (shifted left x0 (num_val x))) _
    (fun y => Val (with_stack {| ss_stack := x :: x0 :: st; ss_alt := alt; ss_exec := ex; ss_else := el; ss_pc := pc;
      ss_code := cd; ss_count := cnt; ss_returned := ret |} (y :: st)))).
  - destruct (Z.ltb_spec (num_val x) (Z.of_nat (length x0) * 8)) as [Hlt|Hge]; cbn [negb].
    + rewrite <- Vn. apply shift_loop_sim; (done || lia || (unfold INT_MAX; lia)).
    + exists (shifted left x0 (num_val x)). split; [done|]. cbn [fst]. symmetry. by apply shifted_out.
  - intros [v p] y Ey <-. cbn [fst] in Ey |- *. injection Ey as <-. destruct (shifted_ok left x0 (num_val x)) as [Bs Ls].
    eapply sim_push; [eassumption | done | rewrite Ls; lia | intros s2 Hr2; cbv beta]. apply sim_Ok.
    by apply (state_rel_stack _ {| ss_stack := _ |}); [apply state_rel_polls|].
Qed.

(** ** Constants *)

Lemma op_push_number_sim o s st alt : rep s st alt -> -1 <= code o - (code OP_1 - 1) <= 16 ->
  stack_sim alt (op_push_number (code o) s) (Val (enc (code o - code OP_1 + 1) :: st)).
Proof.
  intros Hr Ho. unfold op_push_number. rewrite getvch_enc by (cbn [in_range]; lia). cbn [snum_val].
  replace (code o - (code OP_1 - 1)) with (code o - code OP_1 + 1) by lia. rep_step.
  rep_step; [apply enc_spec | apply (length_enc_bound _ 10); cbn in *; lia | rep_step].
Qed.

(** ** Lock times *)

Context (checker : BaseSignatureChecker) (lock seqlock : Z -> bool).

(** What the checker is relied on for: it decides every five-byte number. *)

Context (Hlock : forall n, 0 <= n < 2 ^ 39 -> CheckLockTime checker (Small n) = Ok (lock n)).
Context (Hseq : forall n, 0 <= n < 2 ^ 39 -> CheckSequence checker (Small n) = Ok (seqlock n)).

Lemma small_number n x : is_big n = false -> snum_val n = num_val x -> n = Small (num_val x).
Proof. destruct n; [cbn; congruence | done]. Qed.

Lemma nop_upgradable_sim {A B} (R : A -> B -> Prop) x y : R x y ->
  sim token leak M R (_ ← op_nop_upgradable flags; Ok x)
    (if has flags SCRIPT_VERIFY_DISCOURAGE_UPGRADABLE_NOPS then Fail SCRIPT_ERR_DISCOURAGE_UPGRADABLE_NOPS else Val y).
Proof. intros HR. unfold op_nop_upgradable. destruct (has _ _); [done | by apply sim_Ok]. Qed.

Lemma op_checklocktimeverify_sim s st alt : rep s st alt ->
  stack_sim alt (op_checklocktimeverify flags checker s)
    (s_locktime flags SCRIPT_VERIFY_CHECKLOCKTIMEVERIFY (fun _ => false) lock st).
Proof.
  intros Hr. unfold op_checklocktimeverify, s_locktime. destruct (negb _ || _); [by apply nop_upgradable_sim|]. need_items st 1. rep_step.
  apply sim_CScriptNum; [done..|]. intros n Hl Vn Bn Rn. pose proof (small_number n x Bn Vn) as ->. cbn [vec stackElement] in *.
  eapply sim_get; [apply snum_lt_spec; [done | cbn; lia]|]. cbn [snum_val].
  apply sim_require; intros Hb; [apply negb_false_iff in Hb; by rewrite Hb | apply negb_true_iff in Hb; rewrite Hb]. apply Z.ltb_ge in Hb.
  destruct (num_val_lt x 5 (proj1 Hx) Hl) as [_ Hlt]. specialize (Hlt ltac:(lia)).
  eapply sim_get; [apply Hlock; lia|]. cbn [orb]. apply sim_require; intros ->; [done | by apply sim_Ok].
Qed.

Lemma op_checksequenceverify_sim s st alt : rep s st alt ->
  stack_sim alt (op_checksequenceverify flags checker s)
    (s_locktime flags SCRIPT_VERIFY_CHECKSEQUENCEVERIFY (fun n => Z.testbit n 31) seqlock st).
Proof.
  intros Hr. unfold op_checksequenceverify, s_locktime. destruct (negb _ || _); [by apply nop_upgradable_sim|]. need_items st 1. rep_step.
  apply sim_CScriptNum; [done..|]. intros n Hl Vn Bn Rn. pose proof (small_number n x Bn Vn) as ->. cbn [vec stackElement] in *.
  eapply sim_get; [apply snum_lt_spec; [done | cbn; lia]|]. cbn [snum_val].
  apply sim_require; intros Hb; [apply negb_false_iff in Hb; by rewrite Hb | apply negb_true_iff in Hb; rewrite Hb]. apply Z.ltb_ge in Hb.
  destruct (num_val_lt x 5 (proj1 Hx) Hl) as [_ Hlt]. specialize (Hlt ltac:(lia)).
  cbn [snum_and_i64]. eapply sim_get; [done|]. cbn [snum_eq]. eapply sim_get; [done|]. unfold SEQUENCE_LOCKTIME_DISABLE_FLAG.
  rewrite land_bit by lia. rewrite negb_involutive. destruct (Z.testbit (num_val x) 31); cbn [orb]; [by apply sim_Ok|].
  eapply sim_get; [apply Hseq; lia|]. apply sim_require; intros ->; [done | by apply sim_Ok].
Qed.

End num_ops.
