(* ===== verification/SigOps.v ===== *)
(** * The signature opcodes simulate the abstract machine *)

From S2P Require Import Prelude Common IntSer BigInt ScriptNum Stack Script Hasher Sha2 Ripemd160 Sha1 Hash Flags SigEnc Interp ScriptSpec Simulation StackOps NumOps.
#[local] Open Scope Z_scope.
#[local] Open Scope interp_scope.

Section encodings.
Context `{Secp256k1}.

Lemma parse_der_lax_library_total sig : bytes sig -> is_Some (ecdsa_signature_parse_der_lax sig).
Proof.
  intros Hs. unfold ecdsa_signature_parse_der_lax. destruct (parse_der_lax_total sig Hs) as [p ->]. cbn [mbind option_bind].
  destruct p as [[t|]|]; [destruct (ecdsa_signature_parse_compact t)| |]; by eexists.
Qed.

(** The encoding checks never read outside the signature. *)

Lemma CheckSignatureEncoding_total sig flags : bytes sig -> is_Some (CheckSignatureEncoding sig flags).
Proof.
  intros Hs. unfold CheckSignatureEncoding, IsLowDERSignature, CheckLowS. destruct (length sig =? 0)%nat; [by eexists|].
  destruct (IsValidSignatureEncoding_spec sig Hs) as (b & -> & _).
  destruct (parse_der_lax_library_total (removelast sig)) as [p ->]; [rewrite removelast_firstn_len; auto with bytes|].
  destruct (has flags _), b, (has flags SCRIPT_VERIFY_LOW_S), p; cbn [mbind option_bind negb]; repeat case_match; cbn [mbind option_bind];
    repeat case_match; by eexists.
Qed.

End encodings.

Section sig_ops.
Context `{BN_Total} `{Secp256k1}.
Context (token : nat -> bool) (leak M : Z) (HM : M < 2 ^ 31).
Context (config : CScriptConfig) (consensus : bool) (flags : Z) (checker : BaseSignatureChecker).

Notation rep := (rep leak M).
Notation stack_sim alt := (sim token leak M (fun s' st' => rep s' st' alt)).
Notation state_sim := (sim token leak M (state_rel leak M)).
Notation sig := (CheckSig checker).

Lemma check_encodings_sim {A B} (R : A -> B -> Prop) sg key k (k' : unit -> spec B) : bytes sg ->
  sim token leak M R (k tt) (k' tt) -> sim token leak M R (check_encodings flags sg key ≫= k) (encodings flags sg key ≫= k').
Proof.
  intros Hs Hk. unfold check_encodings, encodings. destruct (CheckSignatureEncoding_total sg flags Hs) as [err ->].
  cbn [lift_option mbind outcome_bind default from_option]. unfold require, guard_, id.
  destruct (bool_decide (err = SCRIPT_ERR_OK)); cbn [mbind outcome_bind spec_bind]; [|done].
  destruct (bool_decide (CheckPubKeyEncoding key flags = SCRIPT_ERR_OK)); cbn [mbind outcome_bind spec_bind]; [done|done].
Qed.

(** Pushing the verdict, or ending the script. *)

Lemma verdict_sim s st alt (verify ok : bool) err : rep s st alt ->
  stack_sim alt
    (s <~ push_back s Root (vch_of_bool ok);
     if verify : bool then if ok : bool then lift (pop_back s Root) else Throw (Return err) else Ok s)
    (verdict verify ok err st).
Proof.
  intros Hr. unfold verdict. eapply sim_bool_push; [eassumption | intros s1 Hr1; cbv beta].
  destruct verify, ok; [repeat rep_step | done | rep_step | rep_step].
Qed.

Lemma vsize_empty (x : list Z) : (vsize (vec x) =? 0) = bool_decide (x = []).
Proof. unfold vsize. cbn. destruct x as [|b x]; [done|]. rewrite bool_decide_false by done. apply Z.eqb_neq. cbn [length]. lia. Qed.

Lemma op_checksig_sim o cd s st alt : rep s st alt -> o = OP_CHECKSIG \/ o = OP_CHECKSIGVERIFY ->
  stack_sim alt (op_checksig flags checker (code o) cd s) (s_checksig flags sig (bool_decide (o = OP_CHECKSIGVERIFY)) cd st).
Proof.
  intros Hr Ho. unfold op_checksig, s_checksig. need_items st 2. do 2 rep_step. cbn [vec stackElement].
  apply check_encodings_sim; [apply Hx|]. cbn zeta. unfold signed. set (ok := sig _ _ _ _).
  rewrite vsize_empty. apply sim_require; intros Hb; [apply negb_false_iff in Hb; by rewrite Hb | apply negb_true_iff in Hb; rewrite Hb].
  do 2 rep_step. destruct Ho as [-> | ->]; cbn [code Z.eqb Pos.eqb].
  - rewrite bool_decide_false by done. by apply (verdict_sim _ _ _ false).
  - rewrite bool_decide_true by done. by apply (verdict_sim _ _ _ true).
Qed.

(** ** OP_CHECKMULTISIG *)

Lemma position_eq i : 0 < i < 2 ^ 31 -> i32 (u64 (- i)) = - i.
Proof. intros Hi. replace (- i) with (- (i - 1) - 1) by lia. apply index_eq. lia. Qed.

Lemma multisig_count_sim {A B} (R : A -> B -> Prop) s st alt i x k (k' : Z -> spec B) : rep s st alt -> st !! i = Some x ->
  (forall z, z = num_val x -> - 2 ^ 31 < z < 2 ^ 31 -> sim token leak M R (k z) (k' z)) ->
  sim token leak M R (lift (multisig_count flags s (Z.of_nat (S i))) ≫= k) (numeral flags 4 x ≫= k').
Proof.
  intros Hr Hx Hk. pose proof (lookup_lt_Some _ _ _ Hx). pose proof (rep_length _ _ _ _ _ Hr).
  destruct (rep_held _ _ _ _ _ _ _ Hr Hx) as [Bx Lx].
  unfold multisig_count. rewrite position_eq, (top_eq leak M s st alt i _ x) by (done || lia). cbn [mbind outcome_bind vec stackElement].
  pose proof (sim_CScriptNum token leak M HM flags R x 4 false (fun n => lift (getint n) ≫= k) k') as Hs.
  assert (forall o : outcome exn CScriptNum, lift (o ≫= getint) ≫= k = lift o ≫= (fun n => lift (getint n) ≫= k)) as -> by (by intros []).
  apply Hs; [done | done |]. intros n Hl Vn Bn Rn. destruct (num_val_lt x 4 Bx Hl) as [_ Hlt]. specialize (Hlt ltac:(lia)).
  eapply sim_get; [by apply getint_spec|]. rewrite Vn. unfold INT_MAX, INT_MIN.
  replace (Z.max _ _) with (num_val x) by lia. apply Hk; lia.
Qed.

Lemma multisig_script_code_eq n s st alt isig k cd : rep s st alt -> 0 < isig + k -> isig + k - 1 + Z.of_nat n <= Z.of_nat (length st) ->
  multisig_script_code flags n s isig k cd =
  Ok (foldl (fun c sg => CleanupScriptCode c sg flags) cd (take n (drop (Z.to_nat (isig + k - 1)) st))).
Proof.
  intros Hr. revert k cd. induction n as [|n IH]; intros k cd Hk Hl; [done|]. cbn [multisig_script_code].
  pose proof (rep_length _ _ _ _ _ Hr). replace (- isig - k) with (- (isig + k)) by lia. rewrite position_eq by lia.
  destruct (lookup_lt_is_Some_2 st (Z.to_nat (isig + k - 1))) as [x Hx]; [lia|].
  rewrite (top_eq leak M s st alt (Z.to_nat (isig + k - 1)) _ x) by (done || lia). cbn [mbind outcome_bind vec stackElement].
  rewrite IH by lia. rewrite (drop_S st x (Z.to_nat (isig + k - 1))) by done. cbn [take foldl]. do 3 f_equal. f_equal. lia.
Qed.

Lemma drop_cons {A} (l : list A) i x t : drop i l = x :: t -> l !! i = Some x /\ drop (S i) l = t.
Proof.
  intros E. assert (l !! i = Some x) as Hx by (rewrite <- (Nat.add_0_r i), <- lookup_drop, E; done).
  split; [done|]. rewrite (drop_S l x i Hx) in E. by injection E.
Qed.

Lemma multisig_loop_sim fuel s st alt cd isig ikey sigs keys t1 t2 polls : rep s st alt ->
  drop isig st = sigs ++ t1 -> drop ikey st = keys ++ t2 -> (length sigs <= length keys < fuel)%nat ->
  sim token leak M (fun r b => r.1 = b)
    (multisig_loop flags checker token fuel s cd (Z.of_nat (S isig)) (Z.of_nat (S ikey)) (Z.of_nat (length sigs)) (Z.of_nat (length keys)) polls)
    (match_signatures flags sig cd sigs keys).
Proof.
  intros Hr. pose proof (rep_length _ _ _ _ _ Hr) as Hlen. revert isig ikey sigs keys polls.
  induction fuel as [|fuel IH]; intros isig ikey sigs keys polls E1 E2 Hl; [lia|]. cbn [multisig_loop].
  destruct sigs as [|sg sigs].
  { cbn [length]. destruct keys; by apply sim_Ok. }
  rewrite (proj2 (Z.ltb_lt 0 _)) by (cbn [length]; lia). cbn [negb]. apply sim_poll. intros p.
  destruct keys as [|key keys]; [cbn [length] in Hl; lia|]. cbn [match_signatures app] in E1, E2 |- *.
  apply drop_cons in E1 as [Hsg E1]. apply drop_cons in E2 as [Hke E2].
  pose proof (lookup_lt_Some _ _ _ Hsg). pose proof (lookup_lt_Some _ _ _ Hke). rewrite !position_eq by lia.
  eapply sim_top with (i := isig); [eassumption | done | exact Hsg | intros Hs; cbv beta].
  eapply sim_top with (i := ikey); [eassumption | done | exact Hke | intros Hkey; cbv beta]. cbn [vec stackElement].
  apply check_encodings_sim; [apply Hs|]. cbn zeta. unfold signed. cbn [length] in Hl |- *.
  set (ok := sig sg key cd _). set (rest := if ok then sigs else sg :: sigs).
  assert ((if ok then Z.of_nat (S (length sigs)) - 1 else Z.of_nat (S (length sigs))) = Z.of_nat (length rest)) as ->
    by (unfold rest; destruct ok; cbn [length]; lia).
  replace (Z.of_nat (S (length keys)) - 1) with (Z.of_nat (length keys)) by lia.
  assert ((Z.of_nat (length keys) <? Z.of_nat (length rest)) = (length keys <? length rest)%nat) as ->.
  { destruct (Nat.ltb_spec (length keys) (length rest)); [apply Z.ltb_lt | apply Z.ltb_ge]; lia. }
  destruct (Nat.ltb_spec (length keys) (length rest)); [by apply sim_Ok|].
  replace (if ok then Z.of_nat (S isig) + 1 else Z.of_nat (S isig)) with (Z.of_nat (S (if ok then S isig else isig))) by (destruct ok; lia).
  replace (Z.of_nat (S ikey) + 1) with (Z.of_nat (S (S ikey))) by lia.
  apply IH; [unfold rest; destruct ok; [done|] | done | lia]. rewrite (drop_S st sg isig Hsg), E1. done.
Qed.

(** Popping the arguments: the keys and counts unchecked, then the signatures. *)

Lemma multisig_pop_sim (ok : bool) s l1 l2 r alt : rep s (l1 ++ l2 ++ r) alt ->
  stack_sim alt (multisig_pop flags (length l1 + length l2) s (Z.of_nat (length l1)) ok)
    (if negb ok && has flags SCRIPT_VERIFY_NULLFAIL && negb (forallb (fun sg => bool_decide (sg = [])) l2)
     then Fail SCRIPT_ERR_SIG_NULLFAIL else Val r).
Proof.
  revert s. induction l1 as [|x l1 IH]; intros s Hr; cbn [app length Nat.add] in *.
  - revert s Hr. induction l2 as [|x l2 IH]; intros s Hr; cbn [app length forallb multisig_pop Z.of_nat] in *.
    { rewrite andb_false_r. by apply sim_Ok. }
    rewrite Z.eqb_refl, andb_true_r. cbn [Z.ltb Z.compare].
    destruct (negb ok && has flags SCRIPT_VERIFY_NULLFAIL); cbn [andb] in *.
    + rewrite (top_eq leak M s (x :: l2 ++ r) alt 0 (-1) x) by done. cbn [lift mbind outcome_bind]. rewrite vsize_empty.
      apply sim_require; intros Hb; rewrite Hb; [done|]. cbn [andb]. rep_step. by apply IH.
    + cbn [mbind outcome_bind]. rep_step. by apply IH.
  - cbn [multisig_pop]. rewrite (proj2 (Z.eqb_neq _ 0)) by lia. rewrite andb_false_r. cbn [mbind outcome_bind].
    rewrite (proj2 (Z.ltb_lt 0 _)) by lia. replace (Z.of_nat (S (length l1)) - 1) with (Z.of_nat (length l1)) by lia.
    rep_step. by apply IH.
Qed.

Lemma drop_at {A} (l1 l2 : list A) n : n = length l1 -> drop n (l1 ++ l2) = l2.
Proof. intros ->. apply drop_app_length. Qed.

(** The handler from the script code on, on a stack with all the arguments. *)

Lemma multisig_body_sim {A B} (R : A -> B -> Prop) o s x keys y sigs dummy rest alt cd polls k (k' : items -> spec B) :
  o = OP_CHECKMULTISIG \/ o = OP_CHECKMULTISIGVERIFY -> (length sigs <= length keys)%nat ->
  rep s (x :: keys ++ y :: sigs ++ dummy :: rest) alt ->
  (forall s' st' p, rep s' st' alt -> sim token leak M R (k s' p) (k' st')) ->
  let n := Z.of_nat (length keys) in let m := Z.of_nat (length sigs) in
  sim token leak M R
    (scriptCode <~ multisig_script_code flags (Z.to_nat m) s (2 + n + 1) 0 cd;
     '(fSuccess, polls) ← multisig_loop flags checker token (S (Z.to_nat n)) s scriptCode (2 + n + 1) 2 m n polls;
     s ← multisig_pop flags (Z.to_nat (2 + n + 1 + m - 1)) s (n + 2) fSuccess;
     _ ← need s 1;
     dummy <~ stacktop s Root (-1);
     _ ← require (negb (has flags SCRIPT_VERIFY_NULLDUMMY && negb (vsize dummy =? 0))) SCRIPT_ERR_SIG_NULLDUMMY;
     s <~ pop_back s Root;
     s <~ push_back s Root (vch_of_bool fSuccess);
     s ← (if code o =? code OP_CHECKMULTISIGVERIFY then
            if fSuccess : bool then lift (pop_back s Root) else Throw (Return SCRIPT_ERR_CHECKMULTISIGVERIFY)
          else Ok s);
     k s polls)
    (s_multisig_body flags sig (bool_decide (o = OP_CHECKMULTISIGVERIFY)) cd keys sigs (dummy :: rest) ≫= k').
Proof.
  intros Ho Hle Hr Hk n m. set (st := x :: keys ++ y :: sigs ++ dummy :: rest) in *.
  assert (length st = length keys + length sigs + length rest + 3)%nat as Hst.
  { unfold st. cbn [length]. rewrite length_app. cbn [length]. rewrite length_app. cbn [length]. lia. }
  assert (drop (2 + length keys) st = sigs ++ dummy :: rest) as Ds.
  { unfold st. cbn [Nat.add drop]. rewrite cons_middle, app_assoc. apply drop_at. rewrite length_app. cbn. lia. }
  eapply sim_get; [apply (multisig_script_code_eq _ s st alt); [done | lia | lia]|].
  replace (Z.to_nat (2 + n + 1 + 0 - 1)) with (2 + length keys)%nat by lia. rewrite Ds. replace (Z.to_nat m) with (length sigs) by lia. rewrite take_app_length.
  unfold s_multisig_body. rewrite <- spec_bind_assoc. eapply sim_bind_eq.
  { pose proof (multisig_loop_sim (S (Z.to_nat n)) s st alt
      (foldl (fun c sg => CleanupScriptCode c sg flags) cd sigs) (2 + length keys) 1 sigs keys _ (y :: sigs ++ dummy :: rest) polls Hr Ds eq_refl) as Hl.
    replace (Z.of_nat (S (2 + length keys))) with (2 + n + 1) in Hl by lia. apply Hl. lia. }
  intros [ok p] b _ <-. cbn [fst]. clear Ds.
  match goal with |- context [(if negb ok && _ && _ then Fail ?f else ?t)] => set (o' := (if negb ok && _ && _ then Fail f else t)) end.
  assert (o' = (if negb ok && has flags SCRIPT_VERIFY_NULLFAIL && negb (forallb (fun sg => bool_decide (sg = [])) sigs)
     then Fail SCRIPT_ERR_SIG_NULLFAIL else Val (dummy :: rest)) ≫= fun _ => (if has flags SCRIPT_VERIFY_NULLDUMMY && negb (bool_decide (dummy = []))
       then Fail SCRIPT_ERR_SIG_NULLDUMMY else verdict (bool_decide (o = OP_CHECKMULTISIGVERIFY)) ok SCRIPT_ERR_CHECKMULTISIGVERIFY rest)) as ->.
  { unfold o'. by destruct (negb ok && _ && _). }
  replace (Z.to_nat (2 + n + 1 + m - 1)) with (length (x :: keys ++ [y]) + length sigs)%nat by (cbn [length]; rewrite length_app; cbn; lia).
  replace (n + 2) with (Z.of_nat (length (x :: keys ++ [y]))) by (cbn [length]; rewrite length_app; cbn; lia).
  rewrite <- spec_bind_assoc. eapply sim_bind_eq.
  { apply (multisig_pop_sim ok s (x :: keys ++ [y]) sigs (dummy :: rest) alt). unfold st in Hr. cbn [app]. by rewrite <- app_assoc. }
  intros s1 st1 E1 Hr1. assert (st1 = dummy :: rest) as -> by (destruct (negb ok && _ && _); congruence).
  eapply sim_need; [exact Hr1 | cbn; lia | intros _]. rep_step. rewrite vsize_empty.
  apply sim_require; intros Hb; [apply negb_false_iff in Hb; by rewrite Hb | apply negb_true_iff in Hb; rewrite Hb]. rep_step.
  pose proof (verdict_sim s0 rest alt (bool_decide (o = OP_CHECKMULTISIGVERIFY)) ok SCRIPT_ERR_CHECKMULTISIGVERIFY ltac:(eassumption)) as Hv.
  replace (code o =? code OP_CHECKMULTISIGVERIFY) with (bool_decide (o = OP_CHECKMULTISIGVERIFY)) by (by destruct Ho as [-> | ->]).
  rewrite outcome_bind_assoc. eapply sim_bind; [exact Hv|]. intros s2 st2 Hr2. by apply Hk.
Qed.

Lemma state_rel_count e a n : state_rel leak M e a -> state_rel leak M (set_count e n) (with_count a n).
Proof. intros []. by split. Qed.

Lemma op_checkmultisig_sim o e a : state_rel leak M e a -> o = OP_CHECKMULTISIG \/ o = OP_CHECKMULTISIGVERIFY ->
  state_sim (op_checkmultisig config consensus flags checker token (code o) e)
    (s_multisig config consensus flags sig (bool_decide (o = OP_CHECKMULTISIGVERIFY)) a).
Proof.
  intros He Ho. pose proof (rel_stack _ _ _ _ He) as Hr. unfold op_checkmultisig, s_multisig. cbn zeta.
  rewrite (rel_count _ _ _ _ He), (rel_code _ _ _ _ He), (rep_size _ _ _ _ _ Hr).
  pose proof (rep_length _ _ _ _ _ Hr) as Hlen.
  destruct (ss_stack a) as [|x r] eqn:Est; [done|]. apply sim_require; intros Hb; [apply Z.leb_gt in Hb; cbn [length] in Hb; lia|]. clear Hb.
  apply (multisig_count_sim _ _ (x :: r) (ss_alt a) 0 x); [done..|]. intros n En Bn. cbv beta.
  rewrite (Z.leb_antisym n 0), (Z.leb_antisym _ n).
  apply sim_require; intros Hb; [apply negb_false_iff in Hb; by rewrite Hb | apply negb_true_iff in Hb; rewrite Hb; apply Z.ltb_ge in Hb].
  apply sim_require; intros Hb1; [apply negb_false_iff in Hb1; by rewrite Hb1 | apply negb_true_iff in Hb1; rewrite Hb1; clear Hb1].
  cbn [orb]. apply sim_require; intros Hb1; rewrite Hb1; [done | clear Hb1]. cbn [negb]. change (1 + 1) with 2.
  cbn [length] in Hlen |- *. apply sim_require; intros Hb1; [apply Z.leb_gt in Hb1; by rewrite drop_ge by lia | apply Z.leb_le in Hb1].
  destruct (drop (Z.to_nat n) r) as [|y r'] eqn:Ed; [apply (f_equal length) in Ed; rewrite length_drop in Ed; cbn in Ed; lia|].
  pose proof (take_drop (Z.to_nat n) r) as Er. rewrite Ed in Er. set (keys := take (Z.to_nat n) r) in *.
  assert (Z.to_nat n = length keys) as Ek by (unfold keys; rewrite length_take; lia).
  replace (2 + n) with (Z.of_nat (S (S (length keys)))) by lia.
  apply (multisig_count_sim _ _ (x :: r) (ss_alt a) (S (length keys)) y); [done | |].
  { change ((x :: r) !! S (length keys)) with (r !! length keys). rewrite <- Er. by apply list_lookup_middle. }
  intros m Em Bm. cbv beta. rewrite (Z.leb_antisym m 0), (Z.leb_antisym n m).
  apply sim_require; intros Hb2; [apply negb_false_iff in Hb2; by rewrite Hb2 | apply negb_true_iff in Hb2; rewrite Hb2; apply Z.ltb_ge in Hb2].
  apply sim_require; intros Hb3; [apply negb_false_iff in Hb3; by rewrite Hb3 | apply negb_true_iff in Hb3; rewrite Hb3; apply Z.ltb_ge in Hb3].
  cbn [orb]. apply (f_equal length) in Er as Elr. rewrite length_app in Elr. cbn [length] in Elr.
  apply sim_require; intros Hb4; [apply Z.leb_gt in Hb4; by rewrite (drop_ge r') by lia | apply Z.leb_le in Hb4].
  destruct (drop (Z.to_nat m) r') as [|dummy rest] eqn:Ed'; [apply (f_equal length) in Ed'; rewrite length_drop in Ed'; cbn in Ed'; lia|].
  pose proof (take_drop (Z.to_nat m) r') as Er'. rewrite Ed' in Er'. set (sigs := take (Z.to_nat m) r') in *.
  assert (Z.to_nat m = length sigs) as Es by (unfold sigs; rewrite length_take; lia).
  pose proof (multisig_body_sim (state_rel leak M) o (es_stack e) x keys y sigs dummy rest (ss_alt a) (ss_code a) (es_polls e)
    (fun s p => Ok (set_stack (set_polls (set_count e (u64 (ss_count a + n))) p) s))
    (fun st => Val (with_stack (with_count a (u64 (ss_count a + n))) st)) Ho ltac:(lia)) as Hbody.
  rewrite Er', Er in Hbody. specialize (Hbody Hr). cbn zeta in Hbody.
  replace (Z.of_nat (length sigs)) with m in Hbody by lia. replace (Z.of_nat (S (S (length keys)))) with (2 + n) by lia.
  replace (Z.of_nat (length keys)) with n in Hbody by lia. 
  apply Hbody. intros s' st' p Hr'. apply sim_Ok.
  apply state_rel_stack; [apply state_rel_polls; by apply state_rel_count | exact Hr'].
Qed.

End sig_ops.
