(* ===== verification/EvalRef.v ===== *)
(** * [EvalScript] refines the abstract script machine

    The control opcodes, the big [switch], one turn of the main loop and whole runs. *)

From S2P Require Import Prelude Common IntSer BigInt ScriptNum Stack Script Hasher Sha2 Ripemd160 Sha1 Hash Flags SigEnc Interp Shift ScriptSpec Simulation StackOps NumOps SigOps.
#[local] Open Scope Z_scope.
#[local] Open Scope interp_scope.

Lemma opcode_of_code b o : opcode_of b = Some o -> b = code o.
Proof. intros E. apply List.find_some in E as [_ E]. by apply Z.eqb_eq in E. Qed.

Section eval.
Context `{BN_Total} `{Secp256k1}.
Context (config : CScriptConfig) (consensus : bool) (flags : Z) (checker : BaseSignatureChecker) (token : nat -> bool).
Context (lock seqlock : Z -> bool).

(** Before genesis numbers have at most four bytes; the checker decides every five-byte lock time. *)

Record eval_env : Prop := {
  env_num : utxo_after_genesis flags = false -> maxScriptNumLength config consensus flags <= 4;
  env_lock n : 0 <= n < 2 ^ 39 -> CheckLockTime checker (Small n) = Ok (lock n);
  env_seq n : 0 <= n < 2 ^ 39 -> CheckSequence checker (Small n) = Ok (seqlock n)
}.

Context (Henv : eval_env) (leak M : Z) (HM : M < 2 ^ 31).

Notation rep := (rep leak M).
Notation stack_sim alt := (sim token leak M (fun s' st' => rep s' st' alt)).
Notation state_sim := (sim token leak M (state_rel leak M)).
Notation genesis := (utxo_after_genesis flags).
Notation spec_instr := (instr config consensus flags (CheckSig checker) lock seqlock).

Lemma on_stack_sim f g e a : state_rel leak M e a ->
  (forall s st alt, rep s st alt -> stack_sim alt (f s) (g st)) -> state_sim (on_stack f e) (on_items g a).
Proof.
  intros He Hf. unfold on_stack, on_items. eapply sim_bind; [apply Hf; apply (rel_stack _ _ _ _ He)|].
  intros s st Hr. apply sim_Ok. by apply state_rel_stack.
Qed.

Lemma state_rel_branches e a ex el : state_rel leak M e a -> length ex = length el ->
  state_rel leak M (set_branches e ex el) (with_branches a ex el).
Proof. intros [] Hl. by split. Qed.

Lemma minimal_if (x : list Z) : (negb (1 <? vsize (vec x))) && negb ((vsize (vec x) =? 1) && negb (nth 0 x 0 =? 1)) = bool_decide (x = [] \/ x = [1]).
Proof.
  unfold vsize. cbn [vec stackElement]. destruct x as [|b [|c x]].
  - by rewrite bool_decide_true by auto.
  - cbn. destruct (Z.eqb_spec b 1) as [->|]; [by rewrite bool_decide_true by auto|]. symmetry. apply bool_decide_false. intros [?|?]; congruence.
  - rewrite (proj2 (Z.ltb_lt _ _)) by (cbn [length]; lia). symmetry. apply bool_decide_false. intros [?|?]; congruence.
Qed.

Lemma op_if_sim o fExec e a : state_rel leak M e a -> o = OP_IF \/ o = OP_NOTIF ->
  state_sim (op_if flags (code o) fExec e) (s_if flags (bool_decide (o = OP_NOTIF)) fExec a).
Proof.
  intros He Ho. pose proof (rel_stack _ _ _ _ He) as Hr. unfold op_if, s_if. cbn zeta.
  pose proof (rel_exec _ _ _ _ He) as Ex. pose proof (rel_else _ _ _ _ He) as El. pose proof (rel_branches _ _ _ _ He) as Hb.
  destruct fExec.
  2:{ cbn [mbind outcome_bind]. apply sim_Ok. rewrite Ex, El. apply (state_rel_branches (set_stack e (es_stack e))); [|cbn; lia].
      replace a with (with_stack a (ss_stack a)) by (by destruct a). by apply state_rel_stack. }
  rewrite (rep_size _ _ _ _ _ Hr). destruct (ss_stack a) as [|x st] eqn:Est; [done|]. cbn [length Nat.leb require mbind outcome_bind].
  rewrite (top_eq leak M _ (x :: st) (ss_alt a) 0 (-1) x) by done. cbn [lift mbind outcome_bind vec stackElement].
  pose proof (rep_held_cons _ _ _ _ _ _ Hr) as [Bx _]. pose proof (minimal_if x) as Em.
  destruct (pop_eq _ _ _ _ _ _ Hr) as (s' & Ep & Hr'). rewrite Ep, CastToBool_truth by done.
  assert ((if code o =? code OP_NOTIF then negb (truth x) else truth x) = xorb (bool_decide (o = OP_NOTIF)) (truth x)) as ->
    by (by destruct Ho as [-> | ->]; cbn; destruct (truth x)).
  unfold require. destruct (has flags SCRIPT_VERIFY_MINIMALIF); cbn [andb].
  - rewrite <- Em. destruct (negb (1 <? vsize (vec x))); cbn [mbind outcome_bind andb negb]; [|done].
    destruct (negb (_ && _)); cbn [lift mbind outcome_bind negb]; [|done].
    apply sim_Ok. rewrite Ex, El. apply state_rel_branches; [by apply state_rel_stack | cbn; lia].
  - cbn [lift mbind outcome_bind]. apply sim_Ok. rewrite Ex, El. apply state_rel_branches; [by apply state_rel_stack | cbn; lia].
Qed.

Lemma op_else_sim e a : state_rel leak M e a -> state_sim (op_else flags e) (s_else flags a).
Proof.
  intros He. pose proof (rel_branches _ _ _ _ He) as Hb. unfold op_else, s_else. rewrite (rel_exec _ _ _ _ He), (rel_else _ _ _ _ He).
  destruct (ss_exec a) as [|x xs], (ss_else a) as [|y ys]; try (cbn in Hb; lia); [done|].
  destruct (y && genesis); [done|]. apply sim_Ok. apply state_rel_branches; [done | cbn in *; lia].
Qed.

Lemma op_endif_sim e a : state_rel leak M e a -> state_sim (op_endif e) (s_endif a).
Proof.
  intros He. pose proof (rel_branches _ _ _ _ He) as Hb. unfold op_endif, s_endif. rewrite (rel_exec _ _ _ _ He), (rel_else _ _ _ _ He).
  destruct (ss_exec a) as [|x xs], (ss_else a) as [|y ys]; try (cbn in Hb; lia); [done|].
  apply sim_Ok. apply state_rel_branches; [done | cbn in *; lia].
Qed.

Lemma op_return_sim e a : state_rel leak M e a -> state_sim (op_return flags e) (s_return flags a).
Proof.
  intros He. unfold op_return, s_return. rewrite (rel_exec _ _ _ _ He). destruct genesis; cbn [negb]; [|done].
  destruct (ss_exec a) eqn:E; [by exists a|]. apply sim_Ok. destruct He. by split.
Qed.

Lemma op_toaltstack_sim e a : state_rel leak M e a ->
  state_sim (on_stack op_toaltstack e)
    (match ss_stack a with x :: r => Val (with_alt (with_stack a r) (x :: ss_alt a)) | _ => low end).
Proof.
  intros He. pose proof (rel_stack _ _ _ _ He) as Hr. unfold on_stack, op_toaltstack, need. rewrite (rep_size _ _ _ _ _ Hr).
  destruct (ss_stack a) as [|x st]; [done|]. cbn [length Nat.leb require mbind outcome_bind].
  eapply sim_to_alt; [exact Hr|]. intros s' Hr'. apply sim_Ok. destruct He. by split.
Qed.

Lemma op_fromaltstack_sim e a : state_rel leak M e a ->
  state_sim (on_stack op_fromaltstack e)
    (match ss_alt a with x :: r => Val (with_alt (with_stack a (x :: ss_stack a)) r) | _ => Fail SCRIPT_ERR_INVALID_ALTSTACK_OPERATION end).
Proof.
  intros He. pose proof (rel_stack _ _ _ _ He) as Hr. unfold on_stack, op_fromaltstack. rewrite (rep_size_alt _ _ _ _ _ Hr).
  destruct (ss_alt a) as [|x alt]; [done|]. cbn [length Nat.leb require mbind outcome_bind].
  eapply sim_from_alt; [exact Hr|]. intros s' Hr'. apply sim_Ok. destruct He. by split.
Qed.

Lemma set_begincodehash_rel e a : state_rel leak M e a -> state_rel leak M (set_begincodehash e) (with_code a (ss_pc a)).
Proof. intros []. by split. Qed.

Lemma default_sim opcode fExec e a : state_rel leak M e a ->
  state_sim (if IsInvalidBranchingOpcode opcode && genesis && negb fExec then Ok e else Throw (Return SCRIPT_ERR_BAD_OPCODE))
    (if IsInvalidBranchingOpcode opcode && genesis && negb fExec then Val a else Fail SCRIPT_ERR_BAD_OPCODE).
Proof. intros He. destruct (_ && _ && _); [by apply sim_Ok | done]. Qed.

(** ** The switch *)

(** The lemma of a handler is found by the handler's name. *)

Ltac head_of t := lazymatch t with ?f _ => head_of f | _ => t end.

Ltac stack_opcode :=
  lazymatch goal with
  | |- sim _ _ _ _ ?t _ =>
      let h := head_of t in
      lazymatch h with
      | @op_2drop => by apply op_2drop_sim
      | @op_2dup => by apply op_2dup_sim
      | @op_3dup => by apply op_3dup_sim
      | @op_2over => by apply op_2over_sim
      | @op_2rot => by apply op_2rot_sim
      | @op_2swap => by apply op_2swap_sim
      | @op_ifdup => by apply op_ifdup_sim
      | @op_depth => by apply op_depth_sim
      | @op_drop => by apply op_drop_sim
      | @op_dup => by apply op_dup_sim
      | @op_nip => by apply op_nip_sim
      | @op_over => by apply op_over_sim
      | @op_rot => by apply op_rot_sim
      | @op_swap => by apply op_swap_sim
      | @op_tuck => by apply op_tuck_sim
      | @op_size => by apply op_size_sim
      | @op_verify => by apply op_verify_sim
      | @op_cat => by apply op_cat_sim
      | @op_split => by apply op_split_sim
      | @op_num2bin => by apply op_num2bin_sim
      | @op_bin2num => by apply op_bin2num_sim
      | @op_invert => by apply op_invert_sim
      | @op_bitwise => apply op_bitwise_sim; first [done | tauto]
      | @op_within => by apply op_within_sim
      | @op_unary => apply op_unary_sim; first [done | tauto]
      | @op_binary => first [by apply op_binary_sim | by apply op_numequalverify_sim]
      | @op_hash => apply op_hash_sim; first [done | tauto]
      | @op_checklocktimeverify => by apply op_checklocktimeverify_sim
      | @op_checksequenceverify => by apply op_checksequenceverify_sim
      | @op_equal => lazymatch t with op_equal (code ?c) _ => apply op_equal_sim with (o := c); first [done | tauto] end
      | @op_pick_roll => lazymatch t with op_pick_roll _ _ _ (code ?c) _ => apply op_pick_roll_sim with (o := c); first [done | tauto] end
      | @op_checksig => lazymatch t with op_checksig _ _ (code ?c) _ _ => apply op_checksig_sim with (o := c); first [done | tauto] end
      end
  end.

Lemma execute_sim opcode fExec e a : state_rel leak M e a ->
  state_sim (execute config consensus flags checker token opcode fExec e) (spec_instr (opcode_of opcode) fExec a).
Proof.
  intros He. destruct Henv as [Hnum Hlock Hseq]. unfold execute. destruct (opcode_of opcode) as [o|] eqn:Eo.
  2:{ pose proof (default_sim opcode fExec e a He) as Hd. cbn [instr].
      assert (IsInvalidBranchingOpcode opcode = false) as E; [|by rewrite E in *].
      unfold IsInvalidBranchingOpcode. apply orb_false_iff. split; apply Z.eqb_neq; intros ->; vm_compute in Eo; congruence. }
  apply opcode_of_code in Eo as ->. destruct o; cbn [instr].
  all: lazymatch goal with
  | |- sim _ _ _ _ (on_stack (op_push_number (code ?o)) _) _ =>
      apply (on_stack_sim _ (fun st => Val (enc (code o - code OP_1 + 1) :: st)) e a He);
        intros s st alt Hr; apply op_push_number_sim; [done | cbn; lia]
  | |- sim _ _ _ _ (on_stack op_toaltstack _) _ => by apply op_toaltstack_sim
  | |- sim _ _ _ _ (on_stack op_fromaltstack _) _ => by apply op_fromaltstack_sim
  | |- sim _ _ _ _ (on_stack _ _) (on_items _ _) =>
      rewrite <- ?(rel_code _ _ _ _ He); apply on_stack_sim; [exact He | intros s st alt Hr; stack_opcode]
  | |- sim _ _ _ _ (Ok _) _ => apply sim_Ok; first [exact He | by apply set_begincodehash_rel]
  | |- sim _ _ _ _ (op_nop_upgradable _ ≫= _) _ => by apply nop_upgradable_sim
  | |- sim _ _ _ _ (op_if _ (code ?c) _ _) _ => apply op_if_sim with (o := c); first [done | tauto]
  | |- sim _ _ _ _ (op_else _ _) _ => by apply op_else_sim
  | |- sim _ _ _ _ (op_endif _) _ => by apply op_endif_sim
  | |- sim _ _ _ _ (op_return _ _) _ => by apply op_return_sim
  | |- sim _ _ _ _ (op_shift _ _ _ _ LShift _) _ => by apply op_shift_sim with (left := true)
  | |- sim _ _ _ _ (op_shift _ _ _ _ RShift _) _ => by apply op_shift_sim with (left := false)
  | |- sim _ _ _ _ (op_checkmultisig _ _ _ _ _ (code ?c) _) _ =>
      apply op_checkmultisig_sim with (o := c); first [done | tauto]
  | |- sim _ _ _ _ (if IsInvalidBranchingOpcode ?c && _ && _ then Ok _ else _) _ => exact (default_sim c fExec e a He)
  end.
Qed.

(** ** One turn of the loop *)

Lemma state_rel_pc e a pc n : state_rel leak M e a -> bytes pc -> script_size pc < 2 ^ 62 ->
  state_rel leak M (set_pc e pc n) (with_pc a pc).
Proof. intros [] Hb Hl. by split. Qed.

Lemma GetOp2_held s op d r : bytes s -> script_size s < 2 ^ 62 -> GetOp2 s = Some (op, d, r) ->
  0 <= op /\ bytes d /\ Z.of_nat (length d) < 2 ^ 62 /\ bytes r /\ script_size r < 2 ^ 62.
Proof.
  intros Hs Hl E. destruct (GetOp2_bytes _ _ _ _ Hs E) as (Hop & Hd & Hr). pose proof (GetOp2_length _ _ _ _ E) as Hlt.
  apply GetOp2_suffix in E as (_ & n & m & k & _ & ->). unfold script_size, is_byte in *.
  rewrite length_take, length_drop. split_and!; (done || lia).
Qed.

Notation spec_step := (s_step config consensus flags (CheckSig checker) lock seqlock).

(** The opcode is counted. *)

Lemma count_sim op e a k (l : spec sstate) : state_rel leak M e a ->
  let n := if code OP_16 <? op then u64 (ss_count a + 1) else ss_count a in
  (forall e', state_rel leak M e' (with_count a n) -> state_sim (k e') l) ->
  state_sim ((if code OP_16 <? op then
      _ ← require (IsValidMaxOpsPerScript (u64 (es_nOpCount e + 1)) config genesis consensus) SCRIPT_ERR_OP_COUNT;
      Ok (set_count e (u64 (es_nOpCount e + 1)))
    else Ok e) ≫= k)
    (if (code OP_16 <? op) && negb (IsValidMaxOpsPerScript n config genesis consensus) then Fail SCRIPT_ERR_OP_COUNT else l).
Proof.
  intros He n Hk. subst n. rewrite (rel_count _ _ _ _ He). destruct (code OP_16 <? op); cbn [andb] in *.
  - rewrite <- outcome_bind_assoc. apply sim_require; intros ->; [done|]. apply Hk. by apply state_rel_count.
  - apply Hk. by destruct a.
Qed.

(** A push, an instruction or a skipped instruction. *)

Lemma turn_sim op d fExec e a : state_rel leak M e a -> 0 <= op -> bytes d -> Z.of_nat (length d) < 2 ^ 62 ->
  state_sim
    (if fExec && (0 <=? op) && (op <=? code OP_PUSHDATA4) then
       _ ← require (negb (fRequireMinimal flags && negb (CheckMinimalPush d op))) SCRIPT_ERR_MINIMALDATA;
       s <~ push_back (es_stack e) Root d;
       Ok (set_stack e s)
     else if fExec || ((code OP_IF <=? op) && (op <=? code OP_ENDIF))
     then execute config consensus flags checker token op fExec e else Ok e)
    (if fExec && (op <=? code OP_PUSHDATA4) then
       if fRequireMinimal flags && negb (CheckMinimalPush d op) then Fail SCRIPT_ERR_MINIMALDATA
       else Val (with_stack a (d :: ss_stack a))
     else if fExec || ((code OP_IF <=? op) && (op <=? code OP_ENDIF)) then spec_instr (opcode_of op) fExec a else Val a).
Proof.
  intros He Hop Hd Ld. rewrite (proj2 (Z.leb_le 0 op) Hop), andb_true_r. destruct (fExec && _).
  - apply sim_require; intros Hp; [apply negb_false_iff in Hp; by rewrite Hp | apply negb_true_iff in Hp; rewrite Hp].
    eapply sim_push; [exact (rel_stack _ _ _ _ He) | done | done |]. intros s Hr. apply sim_Ok. by apply state_rel_stack.
  - destruct (fExec || _); [by apply execute_sim | by apply sim_Ok].
Qed.

Lemma script_step_sim len e a : state_rel leak M e a ->
  state_sim (script_step config consensus flags checker token len e) (spec_step a).
Proof.
  intros He. unfold script_step, s_step. apply sim_poll. intros n. cbn zeta.
  change (es_pc (set_polls e n)) with (es_pc e). rewrite (rel_pc _ _ _ _ He).
  destruct (GetOp2 (ss_pc a)) as [[[op d] pc]|] eqn:E; [|done].
  destruct (GetOp2_held _ _ _ _ (rel_pc_bytes _ _ _ _ He) (rel_pc_length _ _ _ _ He) E) as (Hop & Hd & Ld & Hpc & Lpc).
  set (e1 := set_pc _ _ _). set (a1 := with_pc a pc).
  assert (state_rel leak M e1 a1) as He1 by (apply state_rel_pc; [by apply state_rel_polls | done..]).
  clearbody e1 a1. clear He E.
  apply sim_require; intros Hp; [apply negb_false_iff in Hp; by rewrite Hp | apply negb_true_iff in Hp; rewrite Hp].
  unfold executing. rewrite <- (rel_exec _ _ _ _ He1), <- (rel_returned _ _ _ _ He1). set (fExec := forallb id _ && _).
  apply count_sim; [done|]. intros e2 He2.
  apply sim_require; intros Hx; [apply negb_false_iff in Hx; by rewrite Hx | apply negb_true_iff in Hx; rewrite Hx].
  eapply sim_bind; [by apply turn_sim|]. intros e3 a3 He3. pose proof (rel_stack _ _ _ _ He3) as Hr.
  rewrite (rep_size _ _ _ _ _ Hr), (rep_size_alt _ _ _ _ _ Hr).
  apply sim_require; intros Hz; [apply negb_false_iff in Hz; by rewrite Hz | apply negb_true_iff in Hz; rewrite Hz].
  by apply sim_Ok.
Qed.

(** ** Runs *)

Lemma on_items_pc f a a' : on_items f a = Val a' -> ss_pc a' = ss_pc a.
Proof. unfold on_items. destruct (f _); [intros [= <-]; done | done | done]. Qed.

Lemma multisig_pc v a a' : s_multisig config consensus flags (CheckSig checker) v a = Val a' -> ss_pc a' = ss_pc a.
Proof.
  unfold s_multisig. destruct (ss_stack a) as [|x r]; [done|]. destruct (numeral _ _ x) as [n| |]; [cbn [mbind spec_bind] | done..].
  destruct (_ || _); [done|]. cbn zeta. destruct (negb _); [done|]. destruct (drop _ r) as [|y r']; [done|].
  destruct (numeral _ _ y) as [m| |]; [cbn [mbind spec_bind] | done..]. destruct (_ || _); [done|].
  destruct (s_multisig_body _ _ _ _ _ _ _); [intros [= <-]; done | done..].
Qed.

Lemma instr_pc o fExec a a' : spec_instr o fExec a = Val a' -> ss_pc a' = ss_pc a.
Proof.
  destruct o as [o|]; [|done]. destruct o; cbn [instr].
  all: lazymatch goal with
  | |- on_items _ _ = _ -> _ => apply on_items_pc
  | |- s_multisig _ _ _ _ _ _ = _ -> _ => apply multisig_pc
  | |- _ => unfold s_if, s_else, s_endif, s_return, low; intros E; repeat case_match; simplify_eq; done
  end.
Qed.

Lemma s_step_pc a a' : spec_step a = Val a' -> (length (ss_pc a') < length (ss_pc a))%nat.
Proof.
  unfold s_step. destruct (GetOp2 (ss_pc a)) as [[[op d] pc]|] eqn:E; [|done]. apply GetOp2_length in E. cbn zeta.
  destruct (_ && _); [done|]. destruct (_ && _); [done|]. destruct (_ && _); [done|].
  set (a1 := with_count _ _). assert (ss_pc a1 = pc) as Hpc by done. clearbody a1. set (b := if _ && _ then _ else _).
  assert (forall x, b = Val x -> ss_pc x = pc) as Hb.
  { intros x. subst b. destruct (_ && _); [destruct (_ && _); [done | by intros [= <-]]|].
    destruct (_ || _); [intros Ex; by rewrite <- Hpc; apply (instr_pc _ _ _ _ Ex) | intros [= <-]; done]. }
  destruct b as [x| |]; [|done..]. cbn. destruct (_ && _); [done|]. intros [= <-]. by rewrite (Hb x).
Qed.

Notation spec_run := (s_run config consensus flags (CheckSig checker) lock seqlock).

Lemma script_loop_sim fuel len e a : state_rel leak M e a -> (length (ss_pc a) <= fuel)%nat ->
  state_sim (script_loop config consensus flags checker token fuel len e) (spec_run fuel a).
Proof.
  revert e a. induction fuel as [|fuel IH]; intros e a He Hf; cbn [script_loop s_run]; rewrite (rel_pc _ _ _ _ He).
  - destruct (ss_pc a); [by apply sim_Ok | cbn in Hf; lia].
  - destruct (ss_pc a) as [|b pc] eqn:E; [by apply sim_Ok|].
    eapply sim_bind_eq; [by apply script_step_sim|]. intros e' a' Ea He'. apply IH; [done|].
    apply s_step_pc in Ea. rewrite E in Ea. cbn in *. lia.
Qed.

(** The limit of the loop model is never reached: it ends within as many turns as the script has bytes,
    and more turns change nothing. *)

Lemma script_loop_fuel fuel len e a : state_rel leak M e a -> (length (ss_pc a) <= fuel)%nat ->
  script_loop config consensus flags checker token fuel len e =
  script_loop config consensus flags checker token (length (ss_pc a)) len e.
Proof.
  revert e a. induction fuel as [fuel IH] using lt_wf_ind. intros e a He Hf.
  destruct fuel as [|fuel], (ss_pc a) as [|b pc] eqn:E; try (cbn in *; lia); cbn [script_loop length] in *;
    rewrite (rel_pc _ _ _ _ He), E; [done..|].
  pose proof (script_step_sim len e a He) as Hs.
  destruct (script_step _ _ _ _ _ len e) as [e'| |]; [|done..]. cbn [mbind outcome_bind].
  destruct Hs as (a' & Ea & He'). apply s_step_pc in Ea. rewrite E in Ea. cbn in Ea.
  by rewrite (IH fuel ltac:(lia) e' a'), (IH (length pc) ltac:(lia) e' a') by (done || lia).
Qed.

End eval.

(** ** [EvalScript] *)

Section result.
Context `{BN_Total} `{Secp256k1}.
Context (config : CScriptConfig) (consensus : bool) (flags : Z) (checker : BaseSignatureChecker) (token : nat -> bool).
Context (lock seqlock : Z -> bool).

(** A stack of items, whatever an earlier script left on the alt stack. *)

Definition holds (M : Z) (s : LimitedStack) (st : items) : Prop := exists leak alt, rep leak M s st alt.

Lemma makeChildStack_rep leak M s st alt : rep leak M s st alt -> rep (leak + charge (child s)) M (makeChildStack s) st [].
Proof.
  intros [[] Hm Hr Hc]. pose proof (charge_nonneg (child s)). split; [|done..].
  split; cbn [makeChildStack set_elements combinedStackSize maxStackSize root child]; try done; [change (charge []) with 0|]; lia.
Qed.

Lemma EvalScript_sim M script s st polls :
  eval_env config consensus flags checker lock seqlock -> M < 2 ^ 31 -> holds M s st -> bytes script -> script_size script < 2 ^ 62 ->
  match EvalScript config consensus flags checker token script s polls with
  | EvalTrue e => exists st', s_eval config consensus flags (CheckSig checker) lock seqlock script st = inl st' /\ holds M (es_stack e) st'
  | EvalFalse err => s_eval config consensus flags (CheckSig checker) lock seqlock script st = inr err \/ err = SCRIPT_ERR_STACK_SIZE
  | EvalCancelled => exists n, token n = true
  | EvalUndefined => False
  end.
Proof.
  intros Henv HM (leak & alt & Hr) Hb Hl. apply makeChildStack_rep in Hr. set (leak' := leak + _) in Hr. clearbody leak'.
  unfold EvalScript, EvalScript_from, s_eval. destruct (_ <? _); [by left|]. cbn zeta. set (e0 := {| es_stack := _ |}).
  pose proof (script_loop_sim config consensus flags checker token lock seqlock Henv leak' M HM (length script) (script_size script)
    e0 (s_start script st) ltac:(by split) ltac:(done)) as Hs.
  destruct (script_loop _ _ _ _ _ _ _ _) as [e|[x|err|e|]|]; cbn [sim] in Hs.
  - destruct Hs as (a & -> & He). rewrite (rel_exec _ _ _ _ He). destruct (ss_exec a); [|by left].
    exists (ss_stack a). split; [done|]. exists leak', (ss_alt a). by apply He.
  - destruct x; try (left; by rewrite Hs). by right.
  - left. by rewrite Hs.
  - destruct Hs as (a & -> & He). exists (ss_stack a). split; [done|]. exists leak', (ss_alt a). by apply He.
  - done.
  - done.
Qed.

(** C1. Refinement: on every script, flags and stack of byte strings within a memory limit below 2^31,
    [EvalScript] and the abstract script machine agree.  When it returns true the abstract run succeeds and
    the stack holds exactly its result (and still accounts for its memory); when it returns false the abstract
    run fails with the same error, or the memory limit was hit; it is cancelled only by the token; and it always
    ends, with no failed assertion, out-of-range access or unexpected exception. *)
Theorem EvalScript_refines M script s st polls :
  eval_env config consensus flags checker lock seqlock -> M < 2 ^ 31 -> holds M s st -> bytes script -> script_size script < 2 ^ 62 ->
  match EvalScript config consensus flags checker token script s polls with
  | EvalTrue e => exists st', s_eval config consensus flags (CheckSig checker) lock seqlock script st = inl st' /\ holds M (es_stack e) st'
  | EvalFalse err => s_eval config consensus flags (CheckSig checker) lock seqlock script st = inr err \/ err = SCRIPT_ERR_STACK_SIZE
  | EvalCancelled => exists n, token n = true
  | EvalUndefined => False
  end.
Proof. apply EvalScript_sim. Qed.

(** C38. Termination: the main loop of [EvalScript] ends after at most as many turns as the script has bytes, from
    any consistent state: with that many turns it never runs out, and allowing more changes nothing. *)
Theorem script_loop_terminates leak M fuel len e a :
  eval_env config consensus flags checker lock seqlock -> M < 2 ^ 31 -> state_rel leak M e a -> (length (es_pc e) <= fuel)%nat ->
  script_loop config consensus flags checker token fuel len e =
    script_loop config consensus flags checker token (length (es_pc e)) len e /\
  script_loop config consensus flags checker token fuel len e <> Abort.
Proof.
  intros Henv HM He Hf. rewrite (rel_pc _ _ _ _ He) in *. split; [by apply (script_loop_fuel _ _ _ _ _ lock seqlock Henv leak M)|].
  intros E. pose proof (script_loop_sim config consensus flags checker token lock seqlock Henv leak M HM fuel len e a He Hf) as Hs.
  by rewrite E in Hs.
Qed.

End result.

(** ** A concrete run: [2 3 OP_ADD 5 OP_EQUAL] before genesis *)

Definition demo_config : CScriptConfig :=
  {| GetMaxOpsPerScript _ _ := 500; GetMaxScriptNumLength _ _ := 4; GetMaxScriptSize _ _ := 10000;
     GetMaxPubKeysPerMultiSig _ _ := 20; GetMaxStackMemoryUsage _ _ := 1000000 |}.

Definition demo_checker : BaseSignatureChecker :=
  {| CheckSig sig key code _ := bool_decide (sig = 0x30 :: key); CheckLockTime n := Ok (snum_val n <=? 500); CheckSequence n := Ok (snum_val n <=? 7) |}.

Definition demo_secp : Secp256k1 :=
  {| secp_signature := list Z; secp_pubkey := list Z; ecdsa_signature_parse_compact l := (true, l);
     ecdsa_signature_normalize l := (false, l); ecdsa_verify s h k := true; ec_pubkey_parse := Some |}.

Definition demo_stack : LimitedStack := new_stack 1000000.

Lemma demo_env : eval_env demo_config true 0 demo_checker (fun n => n <=? 500) (fun n => n <=? 7).
Proof. split; done. Qed.

Lemma demo_holds : holds 1000000 demo_stack [].
Proof. exists 0, []. repeat split; (done || cbn; lia || by constructor). Qed.

Lemma EvalScript_refines_witness :
  (exists e, EvalScript (H := Z_BN) (H0 := demo_secp) demo_config true 0 demo_checker (fun _ => false) [0x52; 0x53; 0x93; 0x55; 0x87] demo_stack 0 = EvalTrue e
     /\ holds 1000000 (es_stack e) [[1]]) /\
  s_eval (H := demo_secp) demo_config true 0 (CheckSig demo_checker) (fun n => n <=? 500) (fun n => n <=? 7) [0x52; 0x53; 0x93; 0x55; 0x87] [] = inl [[1]].
Proof.
  pose proof (EvalScript_refines (H := Z_BN) (H2 := demo_secp) demo_config true 0 demo_checker (fun _ => false) (fun n => n <=? 500) (fun n => n <=? 7)
    1000000 [0x52; 0x53; 0x93; 0x55; 0x87] demo_stack [] 0 demo_env ltac:(lia) demo_holds ltac:(repeat constructor; done) ltac:(done)) as Hw.
  split; [|vm_compute; reflexivity].
  destruct (EvalScript _ _ _ _ _ _ _ _) as [e| | |] eqn:E; [|vm_compute in E; discriminate E..].
  destruct Hw as (st & Hs & Hst). exists e. split; [done|].
  replace [[1]] with st; [done|]. vm_compute in Hs. by injection Hs as <-.
Defined.

Lemma script_loop_terminates_witness :
  script_loop (H := Z_BN) (H0 := demo_secp) demo_config true 0 demo_checker (fun _ => false) 7 1
    {| es_stack := demo_stack; es_vfExec := []; es_vfElse := []; es_pc := [0x52]; es_begincodehash := []; es_nOpCount := 0;
       es_nonTopLevelReturnAfterGenesis := false; es_polls := 0; es_ipc := 0 |} <> Abort.
Proof.
  eapply (script_loop_terminates (H := Z_BN) (H2 := demo_secp) demo_config true 0 demo_checker _ _ _ 0 1000000 7 1 _
    {| ss_stack := []; ss_alt := []; ss_exec := []; ss_else := []; ss_pc := [0x52]; ss_code := []; ss_count := 0; ss_returned := false |} demo_env).
  - lia.
  - repeat split; (done || cbn; lia || by repeat constructor).
  - cbn. lia.
Defined.
