(* ===== verification/VerifyRef.v ===== *)
(** * [VerifyScript] refines an abstract verifier

    The abstract verifier runs the unlocking script, the locking script and, for pay-to-script-hash outputs, the
    script the hash commits to, on the abstract machine of [ScriptSpec]. *)

From S2P Require Import Prelude Common IntSer BigInt ScriptNum Stack Script Hasher Sha2 Ripemd160 Sha1 Hash Flags SigEnc Interp ScriptSpec Simulation EvalRef.
#[local] Open Scope Z_scope.
#[local] Open Scope interp_scope.

Section spec_verifier.
Context `{Secp256k1}.
Context (config : CScriptConfig) (consensus : bool) (sig : list Z -> list Z -> list Z -> bool -> bool) (lock seqlock : Z -> bool).

(** Signatures with a fork id need strict encodings. *)

Definition effective_flags (flags : Z) : Z :=
  if has flags SCRIPT_ENABLE_SIGHASH_FORKID then Z.lor flags SCRIPT_VERIFY_STRICTENC else flags.

Definition accepting (st : items) : bool := match st with x :: _ => truth x | [] => false end.

Definition clean (flags : Z) (st : items) : option ScriptError :=
  if has flags SCRIPT_VERIFY_CLEANSTACK && negb (length st =? 1)%nat then Some SCRIPT_ERR_CLEANSTACK else None.

(** A script that leaves the right stack, or an error. *)

Definition s_accept (flags : Z) (script : list Z) (st : items) (k : items -> option ScriptError) : option ScriptError :=
  match s_eval config consensus flags sig lock seqlock script st with
  | inr err => Some err
  | inl st' => if accepting st' then k st' else Some SCRIPT_ERR_EVAL_FALSE
  end.

(** The error of an input, [None] when it may be spent. *)

Definition s_verify_script (scriptSig scriptPubKey : list Z) (flags : Z) : option ScriptError :=
  let flags := effective_flags flags in
  if has flags SCRIPT_VERIFY_SIGPUSHONLY && negb (IsPushOnly scriptSig) then Some SCRIPT_ERR_SIG_PUSHONLY
  else
    match s_eval config consensus flags sig lock seqlock scriptSig [] with
    | inr err => Some err
    | inl st1 =>
        s_accept flags scriptPubKey st1 (fun st2 =>
          if has flags SCRIPT_VERIFY_P2SH && negb (has flags SCRIPT_UTXO_AFTER_GENESIS) && IsP2SH scriptPubKey then
            if negb (IsPushOnly scriptSig) then Some SCRIPT_ERR_SIG_PUSHONLY
            else match st1 with redeem :: args => s_accept flags redeem args (clean flags) | [] => Some SCRIPT_ERR_EVAL_FALSE end
          else clean flags st2)
    end.

(** ** A pay-to-script-hash output fails on an empty stack *)

Lemma IsP2SH_head script : IsP2SH script = true -> exists rest, script = code OP_HASH160 :: rest.
Proof.
  unfold IsP2SH. destruct script as [|b r]; [done|]. intros E. repeat (apply andb_true_iff in E as [E ?]).
  exists r. f_equal. by apply Z.eqb_eq.
Qed.

Lemma p2sh_needs_item flags script : IsP2SH script = true ->
  exists err, s_eval config consensus flags sig lock seqlock script [] = inr err.
Proof.
  intros (rest & ->)%IsP2SH_head. unfold s_eval. destruct (_ <? _); [by eexists|]. cbn [length s_run].
  change (ss_pc (s_start (code OP_HASH160 :: rest) [])) with (code OP_HASH160 :: rest). cbv iota. unfold s_step.
  change (GetOp2 _) with (Some (code OP_HASH160, [] : list Z, rest)). cbn zeta. cbv iota.
  destruct (negb _ && _); [by eexists|]. destruct (_ && negb _); [by eexists|].
  destruct (IsOpcodeDisabled _ && _); [by eexists|]. by eexists.
Qed.

End spec_verifier.

Section verifier.
Context `{BN_Total} `{Secp256k1}.
Context (config : CScriptConfig) (consensus : bool) (checker : BaseSignatureChecker) (token : nat -> bool).
Context (lock seqlock : Z -> bool).

Notation spec_eval flags := (s_eval config consensus flags (CheckSig checker) lock seqlock).
Notation spec_accept flags := (s_accept config consensus (CheckSig checker) lock seqlock flags).

Definition agrees (r : verify_result) (a : option ScriptError) : Prop :=
  match r with
  | VerifyTrue => a = None
  | VerifyFalse err => a = Some err \/ err = SCRIPT_ERR_STACK_SIZE
  | VerifyCancelled => exists n, token n = true
  | VerifyUndefined => False
  end.

Lemma top_is_true_accepting M s st : holds M s st -> top_is_true s = accepting st.
Proof.
  intros (leak & alt & Hr). unfold top_is_true. rewrite (rep_root _ _ _ _ _ Hr).
  destruct st as [|x st]; [done|]. cbn [map rev]. rewrite last_snoc. cbn [vec stackElement accepting].
  apply CastToBool_truth. pose proof (rep_held_cons _ _ _ _ _ _ Hr) as Hx. apply Hx.
Qed.

Lemma check_clean_stack_agrees flags M s st : (has flags SCRIPT_VERIFY_CLEANSTACK = true -> has flags SCRIPT_VERIFY_P2SH = true) ->
  holds M s st -> agrees (check_clean_stack flags s) (clean flags st).
Proof.
  intros Hf (leak & alt & Hr). unfold check_clean_stack, clean. rewrite (rep_size _ _ _ _ _ Hr).
  destruct (has flags SCRIPT_VERIFY_CLEANSTACK); [rewrite Hf by done | done]. cbn. destruct (_ =? 1)%nat; cbn; auto.
Qed.

Section with_flags.
Context (flags M : Z) (Henv : eval_env config consensus flags checker lock seqlock) (HM : M < 2 ^ 31).

Lemma eval_agrees script s st polls k (k' : items -> option ScriptError) :
  holds M s st -> bytes script -> script_size script < 2 ^ 62 ->
  (forall e st', spec_eval flags script st = inl st' -> holds M (es_stack e) st' -> agrees (k e) (k' st')) ->
  agrees (eval_then (EvalScript config consensus flags checker token script s polls) k)
    (match spec_eval flags script st with inr err => Some err | inl st' => k' st' end).
Proof.
  intros Hs Hb Hl Hk. pose proof (EvalScript_sim config consensus flags checker token lock seqlock M script s st polls Henv HM Hs Hb Hl) as He.
  destruct (EvalScript _ _ _ _ _ _ _ _) as [e|err| |]; cbn [eval_then agrees] in *; [|destruct He as [He|He]; [rewrite He|]; auto | done | done].
  destruct He as (st' & E & Hst). rewrite E. auto.
Qed.

Lemma accept_agrees script s st polls k (k' : items -> option ScriptError) :
  holds M s st -> bytes script -> script_size script < 2 ^ 62 ->
  (forall e st', spec_eval flags script st = inl st' -> holds M (es_stack e) st' -> agrees (k e) (k' st')) ->
  agrees (eval_then (EvalScript config consensus flags checker token script s polls)
      (fun e => if negb (top_is_true (es_stack e)) then VerifyFalse SCRIPT_ERR_EVAL_FALSE else k e))
    (spec_accept flags script st k').
Proof.
  intros Hs Hb Hl Hk. apply eval_agrees; [done..|]. intros e st' E He. rewrite (top_is_true_accepting M _ st' He).
  destruct (accepting st'); cbn; auto.
Qed.

Context (Hclean : has flags SCRIPT_VERIFY_CLEANSTACK = true -> has flags SCRIPT_VERIFY_P2SH = true).

Lemma verify_p2sh_agrees scriptSig s redeem args polls : holds M s (redeem :: args) ->
  agrees (verify_p2sh config consensus checker token flags scriptSig s polls)
    (if negb (IsPushOnly scriptSig) then Some SCRIPT_ERR_SIG_PUSHONLY else spec_accept flags redeem args (clean flags)).
Proof.
  intros (leak & alt & Hr). unfold verify_p2sh. destruct (negb _); [by left|].
  destruct (rep_held_cons _ _ _ _ _ _ Hr) as [Hb Hl].
  destruct (pop_eq leak M s redeem args alt Hr) as (s' & Ep & Hr').
  rewrite (rep_root _ _ _ _ _ Hr). cbn [map rev]. rewrite last_snoc, Ep. cbn [vec stackElement].
  apply accept_agrees; [by exists leak, alt | done | unfold script_size; lia |].
  intros e st' _ He. by eapply check_clean_stack_agrees.
Qed.

End with_flags.

(** The stack [VerifyScript] starts with. *)

Lemma new_stack_holds M : 0 <= M < 2 ^ 63 -> holds M (new_stack M) [].
Proof. intros HM. exists 0, []. split; [|done..]. split; cbn; (by constructor) || lia. Qed.

Lemma VerifyScript_agrees scriptSig scriptPubKey flags polls :
  let flags' := effective_flags flags in
  eval_env config consensus flags' checker lock seqlock ->
  0 <= GetMaxStackMemoryUsage config (has flags' SCRIPT_UTXO_AFTER_GENESIS) consensus < 2 ^ 31 ->
  (has flags' SCRIPT_VERIFY_CLEANSTACK = true -> has flags' SCRIPT_VERIFY_P2SH = true) ->
  bytes scriptSig -> bytes scriptPubKey -> script_size scriptSig < 2 ^ 62 -> script_size scriptPubKey < 2 ^ 62 ->
  agrees (VerifyScript config consensus checker token scriptSig scriptPubKey flags polls)
    (s_verify_script config consensus (CheckSig checker) lock seqlock scriptSig scriptPubKey flags).
Proof.
  intros flags' Henv HM Hclean Bs Bk Ls Lk. unfold VerifyScript, s_verify_script. fold (effective_flags flags) flags'. cbn zeta.
  clearbody flags'. destruct (_ && _); [by left|]. set (M := GetMaxStackMemoryUsage _ _ _) in *.
  eapply eval_agrees; [done | exact (proj2 HM) | apply new_stack_holds; lia | done | done |]. intros e1 st1 E1 H1'.
  eapply accept_agrees; [done | exact (proj2 HM) | done | done | done |]. intros e2 st2 E2 H2'.
  destruct (_ && IsP2SH scriptPubKey) eqn:Ep; [|by eapply check_clean_stack_agrees].
  destruct st1 as [|redeem args].
  - apply andb_true_iff in Ep as [_ Ep].
    destruct (p2sh_needs_item config consensus (CheckSig checker) lock seqlock flags' scriptPubKey Ep). congruence.
  - eapply verify_p2sh_agrees; [done | exact (proj2 HM) | done | done].
Qed.


End verifier.

(** A pay-to-script-hash output whose script is [OP_1]. *)

Definition demo_p2sh : list Z := Eval vm_compute in [code OP_HASH160; 0x14] ++ rmd160 (fips_sha256 [0x51]) ++ [code OP_EQUAL].

