(* ===== verification/Standard.v ===== *)
(** * Standard outputs

    What the verifier accepts for pay-to-public-key-hash outputs and what [OP_CHECKMULTISIG] accepts, derived
    from the refinements of [EvalRef] and [VerifyRef]. *)

From S2P Require Import Prelude Common IntSer BigInt ScriptNum Stack Script Hasher Sha2 Ripemd160 Sha1 Hash Flags SigEnc Interp ScriptSpec Simulation StackOps NumOps SigOps EvalRef VerifyRef.
#[local] Open Scope Z_scope.
#[local] Open Scope interp_scope.

(** [OP_DUP OP_HASH160 <h> OP_EQUALVERIFY OP_CHECKSIG]. *)

Definition p2pkh (h : list Z) : list Z :=
  [code OP_DUP; code OP_HASH160] ++ push_data h ++ [code OP_EQUALVERIFY; code OP_CHECKSIG].

Section steps.
Context `{Secp256k1}.
Context (config : CScriptConfig) (consensus : bool) (flags : Z) (sig : list Z -> list Z -> list Z -> bool -> bool) (lock seqlock : Z -> bool).

Notation spec_step := (s_step config consensus flags sig lock seqlock).
Notation spec_run := (s_run config consensus flags sig lock seqlock).
Notation spec_instr := (instr config consensus flags sig lock seqlock).
Notation genesis := (utxo_after_genesis flags).

(** A state outside every branch. *)

Definition plain (st : items) (pc cd : list Z) (n : Z) : sstate :=
  {| ss_stack := st; ss_alt := []; ss_exec := []; ss_else := []; ss_pc := pc; ss_code := cd; ss_count := n; ss_returned := false |}.

Definition fits (st : items) : Prop := (length st <= 1000)%nat.

Lemma fits_check st : fits st -> negb genesis && (MAX_STACK_ELEMENTS_BEFORE_GENESIS <? Z.of_nat (length st + length ([] : items))) = false.
Proof.
  intros Hf. apply andb_false_iff. right. apply Z.ltb_ge. unfold fits, MAX_STACK_ELEMENTS_BEFORE_GENESIS in *. cbn. lia.
Qed.

Lemma push_data_short x rest : 2 <= Z.of_nat (length x) <= 75 ->
  push_data x ++ rest = Z.of_nat (length x) :: x ++ rest.
Proof.
  intros Hx. unfold push_data. cbn zeta. unfold script_size. rewrite (proj2 (Z.ltb_lt _ _)) by (cbn; lia).
  unfold u8. by rewrite Z.mod_small by lia.
Qed.

Lemma GetOp2_short x rest : 2 <= Z.of_nat (length x) <= 75 -> script_size (x ++ rest) < 2 ^ 32 ->
  GetOp2 (Z.of_nat (length x) :: x ++ rest) = Some (Z.of_nat (length x), x, rest).
Proof.
  intros Hx Hs. unfold GetOp2. rewrite (proj2 (Z.leb_le _ _)), (proj2 (Z.ltb_lt _ _)) by (cbn; lia). cbn [mbind option_bind].
  unfold u32. rewrite Z.mod_small by (unfold script_size in *; lia). rewrite (proj2 (Z.ltb_ge _ _)) by (unfold script_size; rewrite length_app; lia).
  by rewrite Nat2Z.id, take_app_length, drop_app_length.
Qed.

Lemma CheckMinimalPush_short x : 2 <= Z.of_nat (length x) <= 75 -> CheckMinimalPush x (Z.of_nat (length x)) = true.
Proof.
  intros Hx. unfold CheckMinimalPush. destruct x as [|a [|b x]]; cbn [length] in *; [lia..|]. cbn [Nat.eqb].
  rewrite (proj2 (Nat.leb_le _ _)) by lia. by apply Z.eqb_eq.
Qed.

Lemma step_push x rest st cd n : 2 <= Z.of_nat (length x) <= 75 -> script_size (x ++ rest) < 2 ^ 32 -> fits (x :: st) ->
  spec_step (plain st (push_data x ++ rest) cd n) = Val (plain (x :: st) rest cd n).
Proof.
  intros Hx Hs Hf. unfold s_step. cbn [plain ss_pc]. rewrite push_data_short, GetOp2_short by done. cbn zeta.
  rewrite (proj2 (Z.ltb_ge MAX_SCRIPT_ELEMENT_SIZE_BEFORE_GENESIS _)) by (unfold MAX_SCRIPT_ELEMENT_SIZE_BEFORE_GENESIS; lia).
  rewrite andb_false_r. rewrite (proj2 (Z.ltb_ge (code OP_16) _)) by (cbn; lia). cbn [andb].
  assert (IsOpcodeDisabled (Z.of_nat (length x)) = false) as ->.
  { unfold IsOpcodeDisabled. cbn [code]. apply orb_false_iff. split; apply Z.eqb_neq; lia. }
  cbn [andb executing forallb with_pc plain ss_exec ss_returned negb orb]. rewrite (proj2 (Z.leb_le _ (code OP_PUSHDATA4))) by (cbn; lia).
  rewrite CheckMinimalPush_short by done. rewrite andb_false_r. cbn [mbind spec_bind with_stack with_count with_pc ss_stack ss_alt plain].
  rewrite (fits_check (x :: st)); done.
Qed.

Lemma step_op (o : opcodetype) rest st cd n : code OP_16 < code o -> IsOpcodeDisabled (code o) = false -> opcode_of (code o) = Some o ->
  0 <= n < 2 ^ 32 -> n + 1 <= GetMaxOpsPerScript config genesis consensus ->
  spec_step (plain st (code o :: rest) cd n) =
  (a ← spec_instr (Some o) true (plain st rest cd (n + 1));
   if negb genesis && (MAX_STACK_ELEMENTS_BEFORE_GENESIS <? Z.of_nat (length (ss_stack a) + length (ss_alt a)))
   then Fail SCRIPT_ERR_STACK_SIZE else Val a).
Proof.
  intros Ho Hd Ec Hn Hm. unfold s_step. cbn [plain ss_pc]. unfold GetOp2.
  rewrite (proj2 (Z.leb_gt _ (code OP_PUSHDATA4))) by (cbn in *; lia). cbn zeta. change (MAX_SCRIPT_ELEMENT_SIZE_BEFORE_GENESIS <? Z.of_nat (length [])) with false.
  rewrite andb_false_r, (proj2 (Z.ltb_lt _ _) Ho), Hd, Ec. cbn [andb with_pc ss_count plain].
  unfold u64. rewrite Z.mod_small by lia. unfold IsValidMaxOpsPerScript. rewrite (proj2 (Z.leb_le _ _) Hm).
  cbn [andb negb executing forallb plain with_pc ss_exec ss_returned orb]. by rewrite (proj2 (Z.leb_gt _ (code OP_PUSHDATA4))) by (cbn in *; lia).
Qed.

Lemma run_step fuel a : ss_pc a <> [] -> (0 < fuel)%nat -> spec_run fuel a = (a' ← spec_step a; spec_run (pred fuel) a').
Proof. intros Ha Hf. destruct fuel as [|fuel]; [lia|]. cbn [s_run pred]. by destruct (ss_pc a). Qed.

Lemma run_done fuel a : ss_pc a = [] -> spec_run fuel a = Val a.
Proof. intros Ha. destruct fuel; cbn; by rewrite Ha. Qed.

(** ** The unlocking script *)

Definition unlock_p2pkh (sg key : list Z) : list Z := push_data sg ++ push_data key.

Definition short (x : list Z) : Prop := 2 <= Z.of_nat (length x) <= 75.

Lemma size_push_data x : short x -> script_size (push_data x) = Z.of_nat (length x) + 1.
Proof.
  intros Hx. rewrite <- (app_nil_r (push_data x)), push_data_short by done. unfold script_size. cbn [length]. rewrite length_app. cbn. lia.
Qed.

Lemma push_data_nonempty x rest : short x -> push_data x ++ rest <> [].
Proof. intros Hx. by rewrite push_data_short. Qed.

Lemma unlock_push_only sg key : short sg -> short key -> IsPushOnly (unlock_p2pkh sg key) = true.
Proof.
  intros Hs Hk. unfold IsPushOnly, unlock_p2pkh. rewrite <- (app_nil_r (push_data key)).
  pose proof Hs. pose proof Hk. unfold short in *.
  rewrite (push_data_short sg), (push_data_short key) by done. cbn [length push_only_loop].
  rewrite GetOp2_short by (done || unfold script_size; rewrite length_app; cbn [length]; rewrite length_app; cbn; lia).
  rewrite (proj2 (Z.ltb_ge (code OP_16) _)) by (cbn; lia). rewrite length_app. cbn [length].
  rewrite Nat.add_succ_r. cbn [push_only_loop]. rewrite GetOp2_short by (done || unfold script_size; rewrite length_app; cbn; lia).
  rewrite (proj2 (Z.ltb_ge (code OP_16) _)) by (cbn; lia). by destruct (length sg + _)%nat.
Qed.

Lemma unlock_eval sg key : short sg -> short key -> 200 <= GetMaxScriptSize config genesis consensus ->
  s_eval config consensus flags sig lock seqlock (unlock_p2pkh sg key) [] = inl [key; sg].
Proof.
  intros Hs Hk Hc. pose proof (size_push_data sg Hs) as Es. pose proof (size_push_data key Hk) as Ek. unfold short in *.
  unfold s_eval. rewrite (proj2 (Z.ltb_ge _ _)) by (unfold unlock_p2pkh, script_size in *; rewrite length_app; lia).
  set (n := length (unlock_p2pkh sg key)). assert (2 <= n)%nat as Hn by (subst n; unfold unlock_p2pkh, script_size in *; rewrite length_app; lia).
  set (cd := unlock_p2pkh sg key). change (s_start cd []) with (plain [] (push_data sg ++ push_data key) cd 0). clearbody n cd.
  rewrite run_step by (by apply push_data_nonempty || lia).
  rewrite step_push by (done || (unfold fits; cbn; lia) || (unfold script_size in *; rewrite length_app; lia)). cbn [mbind spec_bind].
  rewrite <- (app_nil_r (push_data key)), run_step by (by apply push_data_nonempty || lia).
  rewrite step_push by (done || (unfold fits; cbn; lia) || (unfold script_size in *; rewrite length_app; cbn; lia)). cbn [mbind spec_bind].
  by rewrite run_done.
Qed.

(** ** The locking script *)

(** One opcode of a state outside every branch, with its result [r]. *)

Lemma run_op fuel (o : opcodetype) rest st st' cd n : (0 < fuel)%nat ->
  code OP_16 < code o -> IsOpcodeDisabled (code o) = false -> opcode_of (code o) = Some o ->
  0 <= n < 2 ^ 32 -> n + 1 <= GetMaxOpsPerScript config genesis consensus ->
  spec_instr (Some o) true (plain st rest cd (n + 1)) = Val (plain st' rest cd (n + 1)) -> fits st' ->
  spec_run fuel (plain st (code o :: rest) cd n) = spec_run (pred fuel) (plain st' rest cd (n + 1)).
Proof.
  intros Hf Ho Hd Ec Hn Hm Hi Hs. rewrite run_step by done. rewrite step_op by done. rewrite Hi. cbn [mbind spec_bind plain ss_stack ss_alt].
  by rewrite fits_check.
Qed.

Lemma run_fail fuel (o : opcodetype) rest st cd n err : (0 < fuel)%nat ->
  code OP_16 < code o -> IsOpcodeDisabled (code o) = false -> opcode_of (code o) = Some o ->
  0 <= n < 2 ^ 32 -> n + 1 <= GetMaxOpsPerScript config genesis consensus ->
  spec_instr (Some o) true (plain st rest cd (n + 1)) = Fail err ->
  spec_run fuel (plain st (code o :: rest) cd n) = Fail err.
Proof. intros Hf Ho Hd Ec Hn Hm Hi. rewrite run_step by done. rewrite step_op by done. by rewrite Hi. Qed.

Definition unlocks (h sg key : list Z) : Prop :=
  rmd160 (fips_sha256 key) = h /\ encodings flags sg key = Val tt /\
  signed flags sig sg key (CleanupScriptCode (p2pkh h) sg flags) = true.

Lemma checksig_cases cd sg key r :
  (exists err, s_checksig flags sig false cd (key :: sg :: r) = Fail err /\
     (encodings flags sg key = Val tt -> signed flags sig sg key (CleanupScriptCode cd sg flags) = false)) \/
  (encodings flags sg key = Val tt /\
   s_checksig flags sig false cd (key :: sg :: r) = Val (of_bool (signed flags sig sg key (CleanupScriptCode cd sg flags)) :: r)).
Proof.
  cbn [s_checksig]. destruct (encodings flags sg key) as [[]|err|] eqn:E; cbn [mbind spec_bind].
  - destruct (signed _ _ _ _ _); cbn [negb andb verdict]; [by right|]. destruct (_ && _); [left; by eexists | by right].
  - left. by eexists.
  - unfold encodings, guard_ in E. repeat (case_match; cbn in E; try done).
Qed.

Lemma lock_run cd h sg key : short h -> 4 <= GetMaxOpsPerScript config genesis consensus ->
  (exists err, spec_run 25 (plain [key; sg] (p2pkh h) cd 0) = Fail err /\
     (rmd160 (fips_sha256 key) = h -> encodings flags sg key = Val tt -> signed flags sig sg key (CleanupScriptCode cd sg flags) = false)) \/
  (rmd160 (fips_sha256 key) = h /\ encodings flags sg key = Val tt /\
   spec_run 25 (plain [key; sg] (p2pkh h) cd 0) = Val (plain [of_bool (signed flags sig sg key (CleanupScriptCode cd sg flags))] [] cd 4)).
Proof.
  intros Hh Hm. unfold p2pkh. cbn [app].
  rewrite (run_op 25 OP_DUP _ _ [key; key; sg]) by (done || lia || (unfold fits; cbn; lia)). cbn [pred Z.add].
  rewrite (run_op 24 OP_HASH160 _ _ [rmd160 (fips_sha256 key); key; sg]) by (done || lia || (unfold fits; cbn; lia)). cbn [pred Z.add Pos.add Pos.succ].
  rewrite run_step by (by apply push_data_nonempty || lia).
  rewrite step_push by (done || (unfold fits; cbn; lia) || (unfold short, script_size in *; rewrite length_app; cbn; lia)). cbn [mbind spec_bind pred].
  destruct (decide (rmd160 (fips_sha256 key) = h)) as [E|E].
  - rewrite (run_op 22 OP_EQUALVERIFY _ _ [key; sg]) by (done || lia || (unfold fits; cbn; lia) || (cbn; by rewrite bool_decide_true)).
    cbn [pred Z.add Pos.add Pos.succ].
    destruct (checksig_cases cd sg key []) as [(err & Ec & Hn)|[En Ec]].
    + left. exists err. split; [|done]. apply (run_fail 21 OP_CHECKSIG); try (done || lia). cbn [instr]. unfold on_items. cbn [plain ss_stack ss_code]. by rewrite Ec.
    + right. split_and!; [done | done|]. erewrite (run_op 21 OP_CHECKSIG); try (done || lia); [|unfold fits; cbn; lia].
      cbn [instr]. unfold on_items. cbn [plain ss_stack ss_code]. by rewrite Ec.
  - left. exists SCRIPT_ERR_EQUALVERIFY. split; [|done]. apply (run_fail 22 OP_EQUALVERIFY); try (done || lia). cbn. by rewrite bool_decide_false.
Qed.

Lemma lock_eval h sg key : length h = 20%nat ->
  25 <= GetMaxScriptSize config genesis consensus -> 4 <= GetMaxOpsPerScript config genesis consensus ->
  (unlocks h sg key /\ s_eval config consensus flags sig lock seqlock (p2pkh h) [key; sg] = inl [[1]]) \/
  (~ unlocks h sg key /\ (s_eval config consensus flags sig lock seqlock (p2pkh h) [key; sg] = inl [[]] \/
     exists err, s_eval config consensus flags sig lock seqlock (p2pkh h) [key; sg] = inr err)).
Proof.
  intros Hh Hz Hm. assert (short h) as Sh by (unfold short; lia). pose proof (size_push_data h Sh) as Eh.
  assert (length (p2pkh h) = 25%nat) as Hl by (unfold p2pkh, script_size in *; rewrite !length_app; cbn [length]; lia).
  unfold s_eval. rewrite (proj2 (Z.ltb_ge _ _)) by (unfold script_size; lia). rewrite Hl.
  change (s_start (p2pkh h) [key; sg]) with (plain [key; sg] (p2pkh h) (p2pkh h) 0). unfold unlocks.
  destruct (lock_run (p2pkh h) h sg key Sh Hm) as [(err & -> & Hn)|(E & En & ->)].
  - right. split; [intros (? & ? & ?); rewrite Hn in *; done | right; by eexists].
  - cbn. destruct (signed _ _ _ _ _); [by left | right]. split; [by intros (? & ? & ?) | by left].
Qed.

(** ** Matching signatures with keys *)

(** The signatures are those of some of the keys, in their order. *)

Definition signed_by_some (cd : list Z) (sigs keys : items) : Prop :=
  exists keys', sublist keys' keys /\ Forall2 (fun sg key => signed flags sig sg key cd = true) sigs keys'.

Lemma signed_by_some_length cd sigs keys : signed_by_some cd sigs keys -> (length sigs <= length keys)%nat.
Proof. intros (keys' & Hs & Hf). apply Forall2_length in Hf. apply sublist_length in Hs. lia. Qed.

(** Matching the first signature with the first key it fits loses nothing. *)

Lemma signed_by_some_cons cd sg sigs key keys :
  signed_by_some cd (sg :: sigs) (key :: keys) <->
  signed_by_some cd (if signed flags sig sg key cd then sigs else sg :: sigs) keys.
Proof.
  destruct (signed flags sig sg key cd) eqn:E; split; intros (ks & Hs & Hf).
  - apply Forall2_cons_inv_l in Hf as (k & ks' & Hk & Hf & ->). exists ks'. split; [|done].
    inversion Hs; subst; [done|].
    etrans; [by apply sublist_cons|done].
  - exists (key :: ks). split; [by apply sublist_skip | by constructor].
  - apply Forall2_cons_inv_l in Hf as (k & ks' & Hk & Hf & ->). inversion Hs; subst; [congruence|].
    exists (k :: ks'). split; [done | by constructor].
  - exists ks. split; [by apply sublist_cons | done].
Qed.

Lemma match_signatures_spec cd sigs keys :
  (forall sg key, In sg sigs -> In key keys -> encodings flags sg key = Val tt) ->
  exists b, match_signatures flags sig cd sigs keys = Val b /\ (b = true <-> signed_by_some cd sigs keys).
Proof.
  revert sigs. induction keys as [|key keys IH]; intros sigs Henc.
  { destruct sigs as [|sg sigs]; [exists true | exists false]; (split; [done|]).
    - split; [intros _; by exists [] | done].
    - split; [done | intros Hs%signed_by_some_length; cbn in Hs; lia]. }
  destruct sigs as [|sg sigs]; [exists true; split; [done|]; split; [intros _; exists []; split; [apply sublist_nil_l | done] | done]|].
  cbn [match_signatures]. rewrite Henc by (by left). cbn [mbind spec_bind]. setoid_rewrite signed_by_some_cons.
  set (left := if signed _ _ _ _ _ then _ else _) in *. destruct (Nat.ltb_spec (length keys) (length left)) as [Hlt|Hle].
  - exists false. split; [done|]. split; [done | intros Hs%signed_by_some_length; lia].
  - apply IH. intros sg' key' Hsg Hkey. apply Henc; [|by right]. subst left. destruct (signed _ _ _ _ _); [by right | done].
Qed.

End steps.

Section standard.
Context `{BN_Total} `{Secp256k1}.
Context (config : CScriptConfig) (consensus : bool) (checker : BaseSignatureChecker) (token : nat -> bool).
Context (lock seqlock : Z -> bool).

Lemma unlock_not_p2sh h : length h = 20%nat -> IsP2SH (p2pkh h) = false.
Proof.
  intros Hh. assert (short h) as Sh by (unfold short; lia). unfold IsP2SH.
  replace (script_size (p2pkh h) =? 23) with false; [done|]. symmetry. apply Z.eqb_neq.
  pose proof (size_push_data h Sh). unfold p2pkh, script_size in *. rewrite !length_app. cbn [length]. lia.
Qed.

Lemma s_verify_p2pkh flags h sg key : let flags' := effective_flags flags in
  short sg -> short key -> length h = 20%nat ->
  200 <= GetMaxScriptSize config (utxo_after_genesis flags') consensus ->
  4 <= GetMaxOpsPerScript config (utxo_after_genesis flags') consensus ->
  s_verify_script config consensus (CheckSig checker) lock seqlock (unlock_p2pkh sg key) (p2pkh h) flags = None <->
  unlocks flags' (CheckSig checker) h sg key.
Proof.
  intros flags' Hs Hk Hh Hz Hm. unfold s_verify_script. fold flags'. cbn zeta. clearbody flags'.
  rewrite unlock_push_only, unlock_not_p2sh, !andb_false_r by done.
  rewrite unlock_eval by done. unfold s_accept.
  destruct (lock_eval config consensus flags' (CheckSig checker) lock seqlock h sg key Hh ltac:(lia) Hm)
    as [[Hu ->]|[Hu [->|(err & ->)]]]; [|done..].
  unfold clean. cbn. by rewrite andb_false_r.
Qed.

Lemma bytes_push_data x : bytes x -> short x -> bytes (push_data x).
Proof.
  intros Bx Sx. rewrite <- (app_nil_r (push_data x)), push_data_short, app_nil_r by done. constructor; [|done].
  unfold short, is_byte in *. lia.
Qed.

Lemma unlock_script sg key : bytes sg -> bytes key -> short sg -> short key ->
  bytes (unlock_p2pkh sg key) /\ script_size (unlock_p2pkh sg key) < 2 ^ 62.
Proof.
  intros Bs Bk Hs Hk. pose proof (size_push_data sg Hs). pose proof (size_push_data key Hk). unfold short, unlock_p2pkh, script_size in *.
  split; [apply Forall_app; split; by apply bytes_push_data | rewrite length_app; lia].
Qed.

Lemma lock_script h : bytes h -> length h = 20%nat -> bytes (p2pkh h) /\ script_size (p2pkh h) < 2 ^ 62.
Proof.
  intros Bh Hh. assert (short h) as Sh by (unfold short; lia). pose proof (size_push_data h Sh). unfold p2pkh, script_size in *.
  split; [|rewrite !length_app; cbn [length]; lia].
  apply Forall_app; split; [by repeat constructor|]. apply Forall_app; split; [by apply bytes_push_data | by repeat constructor].
Qed.

(** C36. Pay-to-public-key-hash: an output [OP_DUP OP_HASH160 <h> OP_EQUALVERIFY OP_CHECKSIG] is spent by a signature and
    a key exactly when the key hashes to [h], both encodings are acceptable under the flags and the checker
    accepts the signature for the script; a rejection for another reason is the memory limit. *)
Theorem VerifyScript_p2pkh flags h sg key polls : let flags' := effective_flags flags in
  eval_env config consensus flags' checker lock seqlock ->
  0 <= GetMaxStackMemoryUsage config (has flags' SCRIPT_UTXO_AFTER_GENESIS) consensus < 2 ^ 31 ->
  (has flags' SCRIPT_VERIFY_CLEANSTACK = true -> has flags' SCRIPT_VERIFY_P2SH = true) ->
  200 <= GetMaxScriptSize config (utxo_after_genesis flags') consensus ->
  4 <= GetMaxOpsPerScript config (utxo_after_genesis flags') consensus ->
  bytes sg -> bytes key -> bytes h -> short sg -> short key -> length h = 20%nat ->
  match VerifyScript config consensus checker token (unlock_p2pkh sg key) (p2pkh h) flags polls with
  | VerifyTrue => unlocks flags' (CheckSig checker) h sg key
  | VerifyFalse err => ~ unlocks flags' (CheckSig checker) h sg key \/ err = SCRIPT_ERR_STACK_SIZE
  | VerifyCancelled => exists n, token n = true
  | VerifyUndefined => False
  end.
Proof.
  intros flags' Henv HM Hc Hz Hm Bs Bk Bh Hs Hk Hh.
  pose proof (s_verify_p2pkh flags h sg key Hs Hk Hh Hz Hm) as Hv. fold flags' in Hv.
  destruct (unlock_script sg key Bs Bk Hs Hk) as [B1 L1]. destruct (lock_script h Bh Hh) as [B2 L2].
  pose proof (VerifyScript_agrees config consensus checker token lock seqlock _ _ flags polls Henv HM Hc B1 B2 L1 L2) as Ha.
  destruct (VerifyScript _ _ _ _ _ _ _ _) as [|err| |]; cbn [agrees] in Ha; [by apply Hv | | done | done].
  destruct Ha as [Ha|Ha]; [left | by right]. rewrite <- Hv. congruence.
Qed.

(** ** [OP_CHECKMULTISIG] *)

Lemma numeral_enc flags n : 0 <= n < 2 ^ 31 -> numeral flags 4 (enc n) = Val n.
Proof.
  intros Hn. destruct (enc_spec n) as (_ & Hv & Hmin). unfold numeral. rewrite (proj2 (Z.ltb_ge _ _)), bool_decide_true by (done || (pose proof (length_enc n 31); lia)).
  rewrite andb_false_r. by f_equal.
Qed.

Section multisig.
Context (flags leak M : Z) (HM : M < 2 ^ 31).

Notation sig := (CheckSig checker).

(** The script the signatures sign: without the signatures themselves when the fork id is not used. *)

Definition multisig_code (cd : list Z) (sigs : items) : list Z := foldl (fun c sg => CleanupScriptCode c sg flags) cd sigs.

Lemma s_multisig_spec a sigs keys rest :
  ss_stack a = enc (Z.of_nat (length keys)) :: keys ++ enc (Z.of_nat (length sigs)) :: sigs ++ [] :: rest ->
  Z.of_nat (length keys) < 2 ^ 31 -> (length sigs <= length keys)%nat ->
  Z.of_nat (length keys) <= GetMaxPubKeysPerMultiSig config (utxo_after_genesis flags) consensus ->
  IsValidMaxOpsPerScript (u64 (ss_count a + Z.of_nat (length keys))) config (utxo_after_genesis flags) consensus = true ->
  (forall sg key, In sg sigs -> In key keys -> encodings flags sg key = Val tt) ->
  exists b : bool, (b = true <-> signed_by_some flags sig (multisig_code (ss_code a) sigs) sigs keys) /\
    (s_multisig config consensus flags sig false a =
       Val (with_stack (with_count a (u64 (ss_count a + Z.of_nat (length keys)))) (of_bool b :: rest)) \/
     (b = false /\ s_multisig config consensus flags sig false a = Fail SCRIPT_ERR_SIG_NULLFAIL)).
Proof.
  intros Es Hn Hm Hk Ho Henc. unfold s_multisig. rewrite Es. rewrite numeral_enc by lia. cbn [mbind spec_bind].
  rewrite (proj2 (Z.ltb_ge _ 0)), (proj2 (Z.ltb_ge _ (Z.of_nat (length keys)))) by lia. cbn [orb]. cbn zeta. rewrite Ho. cbn [negb].
  rewrite Nat2Z.id, drop_app_length, numeral_enc by lia. cbn [mbind spec_bind].
  rewrite (proj2 (Z.ltb_ge _ 0)), (proj2 (Z.ltb_ge _ (Z.of_nat (length sigs)))) by lia. cbn [orb].
  rewrite Nat2Z.id, !take_app_length, drop_app_length. cbn [s_multisig_body].
  destruct (match_signatures_spec flags sig (multisig_code (ss_code a) sigs) sigs keys Henc) as (b & Eb & Hb).
  unfold multisig_code in Eb at 1. rewrite Eb. cbn [mbind spec_bind]. exists b. split; [done|].
  rewrite (bool_decide_true ([] = [])), andb_false_r by done. cbn [verdict].
  destruct b; cbn [negb andb]; [by left|]. destruct (_ && _); [right; by split | by left].
Qed.

(** C37. [OP_CHECKMULTISIG] accepts exactly the signatures that belong, in order, to some of the keys: on [n] keys,
    [m <= n] signatures and an empty dummy, all with acceptable encodings, it leaves true when the signatures
    can be assigned to a subsequence of the keys and false (or the NULLFAIL error) when they cannot.  Trying each
    key once, from the top, and giving up early therefore loses no valid spending. *)
Theorem op_checkmultisig_correct e a sigs keys rest :
  state_rel leak M e a ->
  ss_stack a = enc (Z.of_nat (length keys)) :: keys ++ enc (Z.of_nat (length sigs)) :: sigs ++ [] :: rest ->
  (length sigs <= length keys)%nat ->
  Z.of_nat (length keys) <= GetMaxPubKeysPerMultiSig config (utxo_after_genesis flags) consensus ->
  IsValidMaxOpsPerScript (u64 (ss_count a + Z.of_nat (length keys))) config (utxo_after_genesis flags) consensus = true ->
  (forall sg key, In sg sigs -> In key keys -> encodings flags sg key = Val tt) ->
  let valid := signed_by_some flags sig (multisig_code (ss_code a) sigs) sigs keys in
  match op_checkmultisig config consensus flags checker token (code OP_CHECKMULTISIG) e with
  | Ok e' => exists alt, (valid /\ rep leak M (es_stack e') ([1] :: rest) alt) \/ (~ valid /\ rep leak M (es_stack e') ([] :: rest) alt)
  | Throw (Return err) => ~ valid /\ err = SCRIPT_ERR_SIG_NULLFAIL
  | Throw (Exn x) => x = stack_overflow_error
  | Throw Cancelled => exists n, token n = true
  | Throw (Succeed _) | Abort => False
  end.
Proof.
  intros He Es Hm Hk Ho Henc valid. pose proof (rep_length _ _ _ _ _ (rel_stack _ _ _ _ He)) as Hlen.
  rewrite Es in Hlen. cbn [length] in Hlen. rewrite length_app in Hlen.
  destruct (s_multisig_spec a sigs keys rest Es ltac:(lia) Hm Hk Ho Henc) as (b & Hb & Hs). fold valid in Hb.
  pose proof (op_checkmultisig_sim token leak M HM config consensus flags checker OP_CHECKMULTISIG e a He ltac:(by left)) as Hsim.
  rewrite bool_decide_false in Hsim by done.
  destruct Hs as [Hs|[-> Hs]]; rewrite Hs in Hsim; destruct (op_checkmultisig _ _ _ _ _ _ e) as [e'|[x|err|e'|]|]; cbn [sim] in Hsim.
  - destruct Hsim as (a' & [= <-] & Hr). apply rel_stack in Hr. exists (ss_alt a). destruct b; [left | right]; (split; [|done]); [by apply Hb | by intros Hv%Hb].
  - by destruct x.
  - done.
  - by destruct Hsim as (? & ? & _).
  - done.
  - done.
  - by destruct Hsim as (? & ? & _).
  - destruct x; (done || by injection Hsim).
  - injection Hsim as ->. split; [by intros Hv%Hb | done].
  - by destruct Hsim as (? & ? & _).
  - done.
  - done.
Qed.

End multisig.

End standard.

(** ** A concrete output and a concrete pair of signatures *)

Definition demo_key : list Z := replicate 33 2.

Definition demo_hash : list Z := Eval vm_compute in rmd160 (fips_sha256 demo_key).

Lemma VerifyScript_p2pkh_witness :
  unlocks (H := demo_secp) 0 (CheckSig demo_checker) demo_hash (0x30 :: demo_key) demo_key /\
  VerifyScript (H := Z_BN) (H0 := demo_secp) demo_config true demo_checker (fun _ => false) (unlock_p2pkh (0x30 :: demo_key) demo_key) (p2pkh demo_hash) 0 0
    = VerifyTrue.
Proof.
  pose proof (VerifyScript_p2pkh (H := Z_BN) (H2 := demo_secp) demo_config true demo_checker (fun _ => false) (fun n => n <=? 500) (fun n => n <=? 7)
    0 demo_hash (0x30 :: demo_key) demo_key 0 demo_env ltac:(done) ltac:(done) ltac:(done) ltac:(done)
    ltac:(repeat constructor; done) ltac:(repeat constructor; done) ltac:(repeat constructor; done) ltac:(done) ltac:(done) ltac:(done)) as Hw.
  destruct (VerifyScript _ _ _ _ _ _ _ _) eqn:E in Hw; [by split | vm_compute in E; discriminate E..].
Defined.

Lemma op_checkmultisig_correct_witness :
  let keys := [[2; 2]; [3; 3]; [4; 4]] in
  let sigs := [[0x30; 2; 2]; [0x30; 4; 4]] in
  let st := enc 3 :: keys ++ enc 2 :: sigs ++ [[]] in
  let e := {| es_stack := {| combinedStackSize := 270; maxStackSize := 1000000; root := rev (map vec st); child := [] |};
              es_vfExec := []; es_vfElse := []; es_pc := []; es_begincodehash := []; es_nOpCount := 0;
              es_nonTopLevelReturnAfterGenesis := false; es_polls := 0; es_ipc := 0 |} in
  match op_checkmultisig (H := Z_BN) (H0 := demo_secp) demo_config true 0 demo_checker (fun _ => false) (code OP_CHECKMULTISIG) e with
  | Ok e' => exists alt, rep 0 1000000 (es_stack e') [[1]] alt
  | _ => False
  end.
Proof.
  intros keys sigs st e.
  assert (state_rel 0 1000000 e (s_start [] st)) as He.
  { split; try done. split; try done. split; try done; cbn; by repeat constructor. }
  pose proof (op_checkmultisig_correct (H := Z_BN) (H2 := demo_secp) demo_config true demo_checker (fun _ => false) 0 0 1000000 ltac:(lia)
    e (s_start [] st) sigs keys [] He ltac:(done) ltac:(cbn; lia) ltac:(done) ltac:(done)
    ltac:(intros ? ? [<-|[<-|[]]] [<-|[<-|[<-|[]]]]; reflexivity)) as Hw.
  assert (signed_by_some 0 (CheckSig demo_checker) (multisig_code 0 [] sigs) sigs keys) as Hv.
  { exists [[2; 2]; [4; 4]]. split; [by do 3 constructor | by repeat constructor]. }
  cbn zeta in Hw. destruct (op_checkmultisig _ _ _ _ _ _ e) as [e'|x|] eqn:E in Hw |- *; [|vm_compute in E; discriminate E..].
  destruct Hw as (alt & [[_ Hr]|[Hn _]]); [by exists alt | by destruct Hn].
Defined.
