(* ===== verification/Serialize.v ===== *)
(** * Serialization

    [src/serialize.h]: little-endian words, compact sizes, variable-length integers and vectors, with the
    reads of [CDataStream] ([src/streams.h]).  A writer gives the bytes it appends; a reader takes bytes
    off a stream.  Types are described by codecs, the pair of both directions that
    [SerializationOp] derives from one list of fields. *)

From S2P Require Import Prelude Common.
#[local] Open Scope Z_scope.

Inductive ser_exn :=
| end_of_data
| non_canonical_size
| size_too_large
| varint_error
| negative_ignore
| too_many_records.

Definition reader (A : Type) : Type := list Z -> outcome ser_exn (A * list Z).

Definition writer (A : Type) : Type := A -> outcome ser_exn (list Z).

(** ** Streams and words *)

(** [CDataStream::read]. *)

Definition stream_read (nSize : Z) : reader (list Z) := fun s =>
  if Z.of_nat (length s) <? nSize then Throw end_of_data else Ok (take (Z.to_nat nSize) s, drop (Z.to_nat nSize) s).

Definition ser_readdata8 : reader Z := fun s => '(b, s) ← stream_read 1 s; Ok (le_val b, s).

Definition ser_readdata16 : reader Z := fun s => '(b, s) ← stream_read 2 s; Ok (ReadLE16 b, s).

Definition ser_readdata32 : reader Z := fun s => '(b, s) ← stream_read 4 s; Ok (ReadLE32 b, s).

Definition ser_readdata64 : reader Z := fun s => '(b, s) ← stream_read 8 s; Ok (ReadLE64 b, s).

Definition ser_writedata8 (obj : Z) : list Z := le_bytes 1 (u8 obj).

Definition ser_writedata16 (obj : Z) : list Z := WriteLE16 (u16 obj).

Definition ser_writedata32 (obj : Z) : list Z := WriteLE32 (u32 obj).

Definition ser_writedata64 (obj : Z) : list Z := WriteLE64 (u64 obj).

(** ** Compact sizes *)

Definition MAX_SIZE : Z := 2 ^ 32 - 1.

Definition GetSizeOfCompactSize (nSize : Z) : Z :=
  if nSize <? 253 then 1 else if nSize <=? 2 ^ 16 - 1 then 1 + 2 else if nSize <=? 2 ^ 32 - 1 then 1 + 4 else 1 + 8.

Definition WriteCompactSize (nSize : Z) : outcome ser_exn (list Z) :=
  if MAX_SIZE <? nSize then Throw size_too_large
  else if nSize <? 253 then Ok (ser_writedata8 nSize)
  else if nSize <=? 2 ^ 16 - 1 then Ok (ser_writedata8 253 ++ ser_writedata16 nSize)
  else if nSize <=? 2 ^ 32 - 1 then Ok (ser_writedata8 254 ++ ser_writedata32 nSize)
  else Ok (ser_writedata8 255 ++ ser_writedata64 nSize).

Definition ReadCompactSize : reader Z := fun s =>
  '(chSize, s) ← ser_readdata8 s;
  '(nSizeRet, s) ←
    (if chSize <? 253 then Ok (chSize, s)
     else if chSize =? 253 then
       '(n, s) ← ser_readdata16 s; if n <? 253 then Throw non_canonical_size else Ok (n, s)
     else if chSize =? 254 then
       '(n, s) ← ser_readdata32 s; if n <? 0x10000 then Throw non_canonical_size else Ok (n, s)
     else
       '(n, s) ← ser_readdata64 s; if n <? 0x100000000 then Throw non_canonical_size else Ok (n, s));
  if MAX_SIZE <? nSizeRet then Throw size_too_large else Ok (nSizeRet, s).

(** ** Variable-length integers

    [bits] is the width of the value type [I]: 64 or 32 for the unsigned types, 63 or 31 for the signed ones. *)

Fixpoint size_of_varint_loop (fuel : nat) (n nRet : Z) : option Z :=
  match fuel with
  | O => None
  | S fuel => let nRet := nRet + 1 in if n <=? 0x7f then Some nRet else size_of_varint_loop fuel (Z.shiftr n 7 - 1) nRet
  end.

Definition GetSizeOfVarInt (n : Z) : option Z := size_of_varint_loop 10 n 0.

(** The bytes of [tmp], last digit first; writing past its end has no defined result. *)

Fixpoint varint_digits (room : nat) (first : bool) (n : Z) : outcome ser_exn (list Z) :=
  match room with
  | O => Abort
  | S room =>
      let d := Z.lor (Z.land n 0x7f) (if first then 0x00 else 0x80) in
      if n <=? 0x7f then Ok [d] else tmp ← varint_digits room false (Z.shiftr n 7 - 1); Ok (d :: tmp)
  end.

Definition varint_room (sizeof_n : Z) : nat := Z.to_nat ((sizeof_n * 8 + 6) / 7).

Definition WriteVarInt (sizeof_n : Z) (n : Z) : outcome ser_exn (list Z) :=
  tmp ← varint_digits (varint_room sizeof_n) true n; Ok (rev tmp).

Fixpoint read_varint_loop (turns : nat) (overflow n : Z) : reader Z := fun s =>
  match turns with
  | O => Throw varint_error
  | S turns =>
      if overflow <? n then Throw varint_error
      else
        '(chData, s) ← ser_readdata8 s;
        let n := Z.lor (u64 (Z.shiftl n 7)) (Z.land chData 0x7f) in
        if Z.land chData 0x80 =? 0 then Ok (n, s) else read_varint_loop turns overflow (u64 (n + 1)) s
  end.

Definition ReadVarInt (bits : Z) : reader Z := read_varint_loop (varint_room 8) (Z.shiftr (2 ^ bits - 1) 7) 0.

(** ** Codecs *)

Record codec (A : Type) := { Serialize : writer A; Unserialize : reader A; sizeof : Z }.

Arguments Serialize {A} _ _.
Arguments Unserialize {A} _ _.
Arguments sizeof {A} _.

Definition uint32_codec : codec Z :=
  {| Serialize a := Ok (ser_writedata32 a); Unserialize := ser_readdata32; sizeof := 4 |}.

Definition int32_codec : codec Z :=
  {| Serialize a := Ok (ser_writedata32 a); Unserialize s := '(n, s) ← ser_readdata32 s; Ok (i32 n, s); sizeof := 4 |}.

Definition int64_codec : codec Z :=
  {| Serialize a := Ok (ser_writedata64 a); Unserialize s := '(n, s) ← ser_readdata64 s; Ok (i64 n, s); sizeof := 8 |}.

(** [base_blob<256>]: its bytes. *)

Definition uint256_codec : codec (list Z) :=
  {| Serialize a := Ok a; Unserialize := stream_read 32; sizeof := 32 |}.

(** The fields of [SerializationOp], in order. *)

Definition codec_seq {A B} (c1 : codec A) (c2 : codec B) : codec (A * B) :=
  {| Serialize p := b1 ← Serialize c1 p.1; b2 ← Serialize c2 p.2; Ok (b1 ++ b2);
     Unserialize s := '(a, s) ← Unserialize c1 s; '(b, s) ← Unserialize c2 s; Ok ((a, b), s);
     sizeof := sizeof c1 + sizeof c2 |}.

(** A class with these fields, of which the compiler lays out [size] bytes. *)

Definition codec_class {A B} (fields : A -> B) (build : B -> A) (size : Z) (c : codec B) : codec A :=
  {| Serialize a := Serialize c (fields a);
     Unserialize s := '(b, s) ← Unserialize c s; Ok (build b, s);
     sizeof := size |}.

(** ** Vectors *)

Definition STARTING_CHUNK_SIZE : Z := 16000000.

Definition CHUNK_GROWTH_RATE : Z := 3.

(** [size_t(1 + (chunkSize - 1) / sizeof(T))]. *)

Definition chunk_items (chunkSize sizeofT : Z) : Z := u64 (1 + u64 (chunkSize - 1) / sizeofT).

(** Bytes are read chunk by chunk, each chunk three times the last. *)

Fixpoint read_byte_chunks (fuel : nat) (nSize i chunkSize : Z) (v : list Z) : reader (list Z) := fun s =>
  if i <? nSize then
    match fuel with
    | O => Abort
    | S fuel =>
        let blk := Z.min (nSize - i) (chunk_items chunkSize 1) in
        '(b, s) ← stream_read blk s;
        read_byte_chunks fuel nSize (i + blk) (u64 (chunkSize * CHUNK_GROWTH_RATE)) (v ++ b) s
    end
  else Ok (v, s).

(** Every chunk has at least a byte, so the rest of the stream bounds their number. *)

Definition bytes_codec : codec (list Z) :=
  {| Serialize v := n ← WriteCompactSize (Z.of_nat (length v)); Ok (n ++ v);
     Unserialize s := '(nSize, s) ← ReadCompactSize s; read_byte_chunks (S (length s)) nSize 0 STARTING_CHUNK_SIZE [] s;
     sizeof := 32 |}.

Section vector.
Context {A : Type} (c : codec A).

Fixpoint write_items (v : list A) : outcome ser_exn (list Z) :=
  match v with
  | [] => Ok []
  | a :: v => b ← Serialize c a; bs ← write_items v; Ok (b ++ bs)
  end.

(** [for (; i < nMid; i++) Unserialize(is, v[i])]. *)

Fixpoint read_items (n : nat) (v : list A) : reader (list A) := fun s =>
  match n with
  | O => Ok (v, s)
  | S n => '(a, s) ← Unserialize c s; read_items n (v ++ [a]) s
  end.

Fixpoint read_item_chunks (fuel : nat) (nSize nMid chunkSize : Z) (v : list A) : reader (list A) := fun s =>
  if nMid <? nSize then
    match fuel with
    | O => Abort
    | S fuel =>
        let i := nMid in
        let nMid := u64 (nMid + Z.min nSize (chunk_items chunkSize (sizeof c))) in
        let nMid := if nSize <? nMid then nSize else nMid in
        '(v, s) ← read_items (Z.to_nat (nMid - i)) v s;
        read_item_chunks fuel nSize nMid (u64 (chunkSize * CHUNK_GROWTH_RATE)) v s
    end
  else Ok (v, s).

Definition vector_codec : codec (list A) :=
  {| Serialize v := n ← WriteCompactSize (Z.of_nat (length v)); bs ← write_items v; Ok (n ++ bs);
     Unserialize s := '(nSize, s) ← ReadCompactSize s; read_item_chunks (S (length s)) nSize 0 STARTING_CHUNK_SIZE [] s;
     sizeof := 24 |}.

End vector.

(** ** What a codec promises

    On the values [P] it writes bytes, at least one; what it wrote it reads back; whatever it
    reads is the one encoding of a value of [P]; and reading never has an undefined result. *)

Class codec_ok {A} (c : codec A) (P : A -> Prop) := {
  codec_write a : P a -> exists b, Serialize c a = Ok b /\ bytes b /\ b <> [] /\
    forall rest, bytes rest -> Unserialize c (b ++ rest) = Ok (a, rest);
  codec_read s a rest : bytes s -> Unserialize c s = Ok (a, rest) -> P a /\ exists b, Serialize c a = Ok b /\ s = b ++ rest;
  codec_defined s : bytes s -> Unserialize c s <> Abort
}.

(** ** Words *)

Lemma stream_read_app b rest : stream_read (Z.of_nat (length b)) (b ++ rest) = Ok (b, rest).
Proof.
  unfold stream_read. rewrite (proj2 (Z.ltb_ge _ _)) by (rewrite length_app; lia).
  by rewrite Nat2Z.id, take_app_length, drop_app_length.
Qed.

Lemma stream_read_inv n s b rest : 0 <= n -> stream_read n s = Ok (b, rest) -> s = b ++ rest /\ Z.of_nat (length b) = n.
Proof.
  unfold stream_read. intros Hn. destruct (Z.ltb_spec (Z.of_nat (length s)) n); [done|]. intros [= <- <-].
  by rewrite take_drop, length_take, Nat.min_l, Z2Nat.id by lia.
Qed.

Lemma stream_read_defined n s : stream_read n s <> Abort.
Proof. unfold stream_read. by destruct (_ <? _). Qed.

Definition read_le (k : nat) : reader Z := fun s => '(b, s) ← stream_read (Z.of_nat k) s; Ok (le_val b, s).

Lemma read_le_take k s : read_le k s = ('(b, s) ← stream_read (Z.of_nat k) s; Ok (le_val (take k b), s)).
Proof.
  unfold read_le. destruct (stream_read _ s) as [[b r]| |] eqn:E; [|done..]. apply stream_read_inv in E as [_ Hl]; [|lia].
  cbn. by rewrite take_ge by lia.
Qed.

Lemma readdata16 s : ser_readdata16 s = read_le 2 s. Proof. symmetry. apply read_le_take. Qed.

Lemma readdata32 s : ser_readdata32 s = read_le 4 s. Proof. symmetry. apply read_le_take. Qed.

Lemma readdata64 s : ser_readdata64 s = read_le 8 s. Proof. symmetry. apply read_le_take. Qed.

Lemma readdata8 s : ser_readdata8 s = read_le 1 s. Proof. done. Qed.

Lemma read_le_write k n rest : 0 <= n < 2 ^ (8 * Z.of_nat k) -> read_le k (le_bytes k n ++ rest) = Ok (n, rest).
Proof.
  intros Hn. unfold read_le. rewrite <- (length_le_bytes k n) at 1. rewrite stream_read_app. cbn [mbind outcome_bind].
  by rewrite le_val_le_bytes, Z.mod_small.
Qed.

Lemma read_le_inv k s n rest : bytes s -> read_le k s = Ok (n, rest) -> 0 <= n < 2 ^ (8 * Z.of_nat k) /\ s = le_bytes k n ++ rest.
Proof.
  unfold read_le. intros Hs. destruct (stream_read _ s) as [[b r]| |] eqn:E; [|done..]. intros [= <- <-].
  apply stream_read_inv in E as [-> Hl]; [|lia]. apply Forall_app in Hs as [Hb _]. pose proof (le_val_bound b Hb) as Hv.
  rewrite Hl in Hv. split; [done|]. replace k with (length b) by lia. by rewrite le_bytes_le_val.
Qed.

Lemma read_le_defined k s : read_le k s <> Abort.
Proof. unfold read_le. pose proof (stream_read_defined (Z.of_nat k) s). by destruct (stream_read _ s) as [[]| |]. Qed.

Lemma read_le_shorter k s n rest : read_le (S k) s = Ok (n, rest) -> (length rest < length s)%nat.
Proof.
  unfold read_le. destruct (stream_read _ s) as [[b r]| |] eqn:E; [|done..]. intros [= _ <-].
  apply stream_read_inv in E as [-> Hl]; [|lia]. rewrite length_app. lia.
Qed.

(** ** Compact sizes *)

Ltac word_simpl := rewrite ?readdata8, ?readdata16, ?readdata32, ?readdata64.

Lemma WriteCompactSize_spec n : 0 <= n <= MAX_SIZE ->
  exists b, WriteCompactSize n = Ok b /\ bytes b /\ b <> [] /\ Z.of_nat (length b) = GetSizeOfCompactSize n /\
    forall rest, ReadCompactSize (b ++ rest) = Ok (n, rest).
Proof.
  unfold MAX_SIZE. intros Hn. unfold WriteCompactSize, GetSizeOfCompactSize, ReadCompactSize, MAX_SIZE.
  assert ((2 ^ 32 - 1 <? n) = false) as Emax by (apply Z.ltb_ge; lia). rewrite Emax.
  destruct (Z.ltb_spec n 253) as [H1|H1]; [|destruct (Z.leb_spec n (2 ^ 16 - 1)) as [H2|H2]; [|rewrite (proj2 (Z.leb_le n _)) by lia]].
  all: unfold ser_writedata8, ser_writedata16, ser_writedata32, WriteLE16, WriteLE32, u8, u16, u32;
    rewrite ?(Z.mod_small n), ?(Z.mod_small 253), ?(Z.mod_small 254) by lia; eexists; (split; [done|]).
  all: split; [eauto with bytes|]; split; [done|]; split; [by rewrite ?length_app, !length_le_bytes|].
  all: intros rest; rewrite <- ?app_assoc, readdata8, (read_le_write 1) by lia; cbn [mbind outcome_bind].
  - rewrite (proj2 (Z.ltb_lt n 253)) by lia. cbn. by rewrite Emax.
  - cbn [Z.ltb Z.compare Pos.compare Pos.compare_cont Z.eqb Pos.eqb]. rewrite readdata16, (read_le_write 2) by lia. cbn [mbind outcome_bind].
    rewrite (proj2 (Z.ltb_ge n 253)) by lia. cbn [mbind outcome_bind]. by rewrite Emax.
  - cbn [Z.ltb Z.compare Pos.compare Pos.compare_cont Z.eqb Pos.eqb]. rewrite readdata32, (read_le_write 4) by lia. cbn [mbind outcome_bind].
    rewrite (proj2 (Z.ltb_ge n 0x10000)) by lia. cbn [mbind outcome_bind]. by rewrite Emax.
Qed.

Lemma ReadCompactSize_inv s n rest : bytes s -> ReadCompactSize s = Ok (n, rest) ->
  0 <= n <= MAX_SIZE /\ exists b, WriteCompactSize n = Ok b /\ s = b ++ rest.
Proof.
  unfold ReadCompactSize, WriteCompactSize. intros Hs. rewrite readdata8.
  destruct (read_le 1 s) as [[ch s1]| |] eqn:E; [|done..]. apply read_le_inv in E as [Hc ->]; [|done].
  apply Forall_app in Hs as [_ Hs]. cbn [mbind outcome_bind].
  destruct (Z.ltb_spec ch 253) as [H1|H1].
  { cbn [mbind outcome_bind]. destruct (Z.ltb_spec MAX_SIZE ch); [done|]. intros [= <- <-]. split; [lia|].
    rewrite (proj2 (Z.ltb_ge MAX_SIZE ch)), (proj2 (Z.ltb_lt ch 253)) by lia. eexists. split; [done|]. unfold ser_writedata8, u8. by rewrite Z.mod_small by lia. }
  destruct (Z.eqb_spec ch 253) as [->|H2]; [|destruct (Z.eqb_spec ch 254) as [->|H3]]; word_simpl.
  - destruct (read_le 2 s1) as [[m s2]| |] eqn:E; [|done..]. apply read_le_inv in E as [Hm ->]; [|done]. cbn [mbind outcome_bind].
    destruct (Z.ltb_spec m 253); [done|]. cbn [mbind outcome_bind]. destruct (Z.ltb_spec MAX_SIZE m); [done|]. intros [= <- <-]. split; [lia|].
    rewrite (proj2 (Z.ltb_ge MAX_SIZE m)), (proj2 (Z.ltb_ge m 253)), (proj2 (Z.leb_le m _)) by lia. eexists. split; [done|].
    unfold ser_writedata16, u16. rewrite Z.mod_small by lia. by rewrite <- app_assoc.
  - destruct (read_le 4 s1) as [[m s2]| |] eqn:E; [|done..]. apply read_le_inv in E as [Hm ->]; [|done]. cbn [mbind outcome_bind].
    destruct (Z.ltb_spec m 0x10000); [done|]. cbn [mbind outcome_bind]. destruct (Z.ltb_spec MAX_SIZE m); [done|]. intros [= <- <-]. split; [lia|].
    rewrite (proj2 (Z.ltb_ge MAX_SIZE m)), (proj2 (Z.ltb_ge m 253)), (proj2 (Z.leb_gt m (2 ^ 16 - 1))), (proj2 (Z.leb_le m _)) by lia. eexists. split; [done|].
    unfold ser_writedata32, u32. rewrite Z.mod_small by lia. by rewrite <- app_assoc.
  - destruct (read_le 8 s1) as [[m s2]| |] eqn:E; [|done..]. cbn [mbind outcome_bind].
    destruct (Z.ltb_spec m 0x100000000); [done|]. cbn [mbind outcome_bind]. rewrite (proj2 (Z.ltb_lt MAX_SIZE m)) by (unfold MAX_SIZE; lia). done.
Qed.

Lemma bind_defined {A B} (o : outcome ser_exn A) (k : A -> outcome ser_exn B) :
  o <> Abort -> (forall a, o = Ok a -> k a <> Abort) -> (o ≫= k) <> Abort.
Proof. destruct o; cbn; auto; done. Qed.

Lemma ReadCompactSize_defined s : ReadCompactSize s <> Abort.
Proof.
  unfold ReadCompactSize. apply bind_defined; [exact (read_le_defined 1 s) | intros [ch s1] _]. word_simpl.
  apply bind_defined; [|intros [n s2] _; by destruct (_ <? _)].
  destruct (ch <? 253); [done|]. destruct (ch =? 253); [|destruct (ch =? 254)].
  all: apply bind_defined; [apply read_le_defined | intros [m s3] _; by destruct (_ <? _)].
Qed.

(** ** Variable-length integers *)

Lemma varint_digit n (first : bool) : 0 <= n -> Z.lor (Z.land n 0x7f) (if first then 0 else 0x80) = n mod 128 + (if first then 0 else 128).
Proof.
  intros Hn. change 0x7f with (Z.ones 7). rewrite Z.land_ones by lia. change (2 ^ 7) with 128.
  destruct first; [by rewrite Z.lor_0_r, Z.add_0_r|]. apply byte_lor_80; pose proof (Z.mod_pos_bound n 128); unfold is_byte; lia.
Qed.

(** [room] digits hold every number below [varint_limit room]. *)

Fixpoint varint_limit (room : nat) : Z :=
  match room with O => 0 | S room => 128 * (varint_limit room + 1) end.

Lemma varint_digits_spec room first n : 0 <= n < varint_limit room ->
  exists tmp, varint_digits room first n = Ok tmp /\ bytes tmp /\ tmp <> [] /\ (length tmp <= room)%nat.
Proof.
  revert first n. induction room as [|room IH]; intros first n Hn; [cbn in Hn; lia|]. cbn [varint_digits varint_limit] in *.
  rewrite varint_digit by lia. pose proof (Z.mod_pos_bound n 128 ltac:(lia)) as Hd.
  assert (is_byte (n mod 128 + (if first then 0 else 128))) as Hb by (unfold is_byte; destruct first; lia).
  destruct (Z.leb_spec n 0x7f).
  - eexists. split; [done|]. split_and!; [by apply Forall_singleton | done | cbn; lia].
  - rewrite Z.shiftr_div_pow2 by lia. change (2 ^ 7) with 128. pose proof (Z.div_le_lower_bound n 128 1 ltac:(lia) ltac:(lia)).
    pose proof (Z.div_lt_upper_bound n 128 (varint_limit room + 1) ltac:(lia) ltac:(lia)).
    destruct (IH false (n / 128 - 1)) as (tmp & -> & Ht & _ & Hl); [lia|]. cbn. eexists. split; [done|]. split_and!; [by constructor | done | cbn; lia].
Qed.

Lemma varint_digits_more room room' first n tmp : (room <= room')%nat ->
  varint_digits room first n = Ok tmp -> varint_digits room' first n = Ok tmp.
Proof.
  revert room' first n tmp. induction room as [|room IH]; intros room' first n tmp Hr; [done|].
  destruct room' as [|room']; [lia|]. cbn [varint_digits]. destruct (n <=? 0x7f); [done|].
  destruct (varint_digits room false _) as [t| |] eqn:E; [|done..]. by rewrite (IH room' _ _ t) by (done || lia).
Qed.

(** One byte of [ReadVarInt]. *)

Lemma read_varint_turn turns overflow acc d s : 0 <= acc <= overflow -> acc < 2 ^ 57 -> is_byte d ->
  read_varint_loop (S turns) overflow acc (d :: s) =
  (if d <? 128 then Ok (acc * 128 + d mod 128, s) else read_varint_loop turns overflow (u64 (acc * 128 + d mod 128 + 1)) s).
Proof.
  intros Ha Hlt Hd. cbn [read_varint_loop]. rewrite (proj2 (Z.ltb_ge _ _)) by lia. rewrite readdata8.
  assert (read_le 1 (d :: s) = Ok (d, s)) as ->.
  { pose proof (read_le_write 1 d s) as E. cbn [le_bytes app] in E. unfold is_byte in Hd. rewrite Z.mod_small in E by lia. apply E. lia. }
  cbn [mbind outcome_bind]. rewrite byte_land_80, byte_land_7f by done. rewrite Z.shiftl_mul_pow2 by lia.
  assert (u64 (acc * 2 ^ 7) = acc * 2 ^ 7) as -> by (unfold u64; rewrite Z.mod_small; lia). rewrite (lor_high_low (d mod 128) acc 7) by (try apply Z.mod_pos_bound; lia).
  change (2 ^ 7) with 128. by rewrite (Z.add_comm (d mod 128)).
Qed.

Section varint.
Context (bits : Z) (Hbits : 0 <= bits <= 64).

Notation overflow := (Z.shiftr (2 ^ bits - 1) 7).

Lemma varint_overflow n : 0 <= n < 2 ^ bits -> 0 <= n / 128 <= overflow /\ n / 128 < 2 ^ 57.
Proof.
  intros Hn. rewrite Z.shiftr_div_pow2 by lia. change (2 ^ 7) with 128. pose proof (Z.pow_le_mono_r 2 bits 64 ltac:(lia) ltac:(lia)).
  split; [split; [apply Z.div_pos; lia | apply Z.div_le_mono; lia] | apply Z.div_lt_upper_bound; lia].
Qed.

(** After the digits of [m] with their continuation bits, [m + 1] has been accumulated. *)

Lemma read_varint_prefix room m tmp k rest : 0 <= m -> m + 1 < 2 ^ 57 -> m < 2 ^ bits ->
  varint_digits room false m = Ok tmp ->
  read_varint_loop (length tmp + k) overflow 0 (rev tmp ++ rest) = read_varint_loop k overflow (m + 1) rest.
Proof.
  revert m tmp k rest. induction room as [|room IH]; intros m tmp k rest Hm Hlt Hb; [done|]. cbn [varint_digits].
  pose proof (varint_digit m false Hm) as Ed. cbv iota in Ed. rewrite Ed. pose proof (Z.mod_pos_bound m 128 ltac:(lia)) as Hd. pose proof (Z.div_mod m 128 ltac:(lia)) as Edm.
  destruct (varint_overflow m ltac:(lia)) as [Hov Hsm].
  assert ((m mod 128 + 128) mod 128 = m mod 128) as Emod by (rewrite <- (Z.mul_1_l 128) at 2; by rewrite Z.mod_add, Z.mod_mod by lia).
  assert (is_byte (m mod 128 + 128)) as Hbyte by (unfold is_byte; lia).
  assert ((m mod 128 + 128 <? 128) = false) as Ege by (apply Z.ltb_ge; lia).
  destruct (Z.leb_spec m 0x7f) as [Hle|Hgt].
  - intros [= <-]. cbn [length rev app Nat.add]. rewrite read_varint_turn by (try done; lia).
    rewrite Ege, Emod. rewrite Z.mod_small by lia. unfold u64. by rewrite Z.mod_small by lia.
  - destruct (varint_digits room false (Z.shiftr m 7 - 1)) as [t| |] eqn:E; [|done..]. intros [= <-].
    rewrite Z.shiftr_div_pow2 in E by lia. change (2 ^ 7) with 128 in E. cbn [length rev]. rewrite <- app_assoc. cbn [app].
    replace (S (length t) + k)%nat with (length t + S k)%nat by lia.
    rewrite (IH (m / 128 - 1)) by (try done; lia). rewrite Z.sub_add.
    rewrite read_varint_turn, Ege, Emod by (try done; lia). unfold u64. rewrite Z.mod_small by lia. f_equal. lia.
Qed.

Lemma WriteVarInt_spec sizeof_n n : 0 <= n < 2 ^ bits -> n < varint_limit (varint_room sizeof_n) -> (varint_room sizeof_n <= 10)%nat ->
  exists b, WriteVarInt sizeof_n n = Ok b /\ bytes b /\ b <> [] /\ forall rest, ReadVarInt bits (b ++ rest) = Ok (n, rest).
Proof.
  intros Hn Hl Hroom. unfold WriteVarInt, ReadVarInt. set (room := varint_room sizeof_n) in *. clearbody room.
  destruct (varint_digits_spec room true n ltac:(lia)) as (tmp & E & Hb & Hne & Hlen). rewrite E. cbn [mbind outcome_bind].
  exists (rev tmp). split_and!; [done | by apply Forall_rev | by intros E0%(f_equal (@rev Z)); rewrite rev_involutive in E0 |].
  intros rest. destruct room as [|room]; [done|]. cbn [varint_digits] in E.
  pose proof (varint_digit n true ltac:(lia)) as Ed. cbv iota in Ed. rewrite Ed, Z.add_0_r in E.
  pose proof (Z.mod_pos_bound n 128 ltac:(lia)) as Hd. pose proof (Z.div_mod n 128 ltac:(lia)) as Edm.
  destruct (varint_overflow n ltac:(lia)) as [Hov Hsm]. change (varint_room 8) with 10%nat.
  assert (is_byte (n mod 128)) as Hbyte by (unfold is_byte; lia).
  destruct (Z.leb_spec n 0x7f) as [Hle|Hgt].
  - injection E as <-. cbn [rev app]. rewrite read_varint_turn by (try done; lia).
    rewrite (proj2 (Z.ltb_lt _ _)), Z.mod_mod by lia. rewrite Z.mod_small by lia. done.
  - destruct (varint_digits room false (Z.shiftr n 7 - 1)) as [t| |] eqn:Et; [|done..]. injection E as <-.
    rewrite Z.shiftr_div_pow2 in Et by lia. change (2 ^ 7) with 128 in Et. cbn [length rev] in *. rewrite <- app_assoc. cbn [app].
    replace 10%nat with (length t + S (9 - length t))%nat by lia.
    rewrite (read_varint_prefix room (n / 128 - 1)) by (try done; lia). rewrite Z.sub_add.
    rewrite read_varint_turn, (proj2 (Z.ltb_lt _ _)), Z.mod_mod by (try done; lia). f_equal. f_equal. lia.
Qed.

(** Reading back: [p] are the bytes read so far and [acc] what they accumulated. *)

Definition varint_read (p : list Z) (acc : Z) : Prop :=
  (p = [] /\ acc = 0) \/ (1 <= acc <= varint_limit (length p) /\ varint_digits (length p) false (acc - 1) = Ok (rev p)).

Lemma varint_read_digit p acc d first : varint_read p acc -> 0 <= d < 128 ->
  varint_digits (S (length p)) first (acc * 128 + d) = Ok (d + (if first then 0 else 128) :: rev p) /\
  0 <= acc * 128 + d < varint_limit (S (length p)).
Proof.
  intros Hp Hd. assert ((acc * 128 + d) mod 128 = d) as Em by (by rewrite Z.add_comm, Z.mod_add, Z.mod_small by lia).
  destruct Hp as [[-> ->]|[Ha Hp]]; cbn [varint_digits varint_limit].
  - rewrite Z.mul_0_l, Z.add_0_l in *. rewrite varint_digit, Em by lia. rewrite (proj2 (Z.leb_le _ _)) by lia. split; [done | cbn; lia].
  - rewrite varint_digit, Em by lia. rewrite (proj2 (Z.leb_gt _ _)) by lia. split; [|lia].
    assert (Z.shiftr (acc * 128 + d) 7 = acc) as ->; [|by rewrite Hp].
    rewrite Z.shiftr_div_pow2 by lia. change (2 ^ 7) with 128. rewrite Z.div_add_l, Z.div_small by lia. lia.
Qed.

Lemma read_varint_inv turns p acc s n rest : 7 <= bits -> bytes s -> (turns + length p = 10)%nat -> varint_read p acc ->
  read_varint_loop turns overflow acc s = Ok (n, rest) ->
  0 <= n < 2 ^ bits /\ exists c, s = c ++ rest /\ c <> [] /\ (length (p ++ c) <= 10)%nat /\ varint_digits (length (p ++ c)) true n = Ok (rev (p ++ c)).
Proof.
  intros Hb7. revert p acc s. induction turns as [|turns IH]; intros p acc s Hs Ht Hp; [done|].
  assert (0 <= acc) as Ha by (destruct Hp as [[_ ->]|[? _]]; lia).
  destruct (Z.ltb_spec overflow acc) as [Hgt|Hle]; [cbn [read_varint_loop]; by rewrite (proj2 (Z.ltb_lt _ _))|].
  destruct s as [|d s]; [cbn [read_varint_loop]; by rewrite (proj2 (Z.ltb_ge _ _)) by lia|]. apply Forall_cons_1 in Hs as [Hd Hs].
  assert (overflow = 2 ^ (bits - 7) - 1) as Eov.
  { rewrite Z.shiftr_div_pow2 by lia. symmetry. apply (Z.div_unique _ _ _ (2 ^ 7 - 1)); [lia|]. rewrite (pow2_split 7 bits) by lia. lia. }
  pose proof (Z.pow_le_mono_r 2 (bits - 7) 57 ltac:(lia) ltac:(lia)) as H57. pose proof (pow2_split 7 bits ltac:(lia)) as Esp. change (2 ^ 7) with 128 in Esp.
  rewrite read_varint_turn by (done || lia). pose proof (Z.mod_pos_bound d 128 ltac:(lia)) as Hm.
  rewrite byte_mod_128 by done. unfold is_byte in Hd. destruct (Z.ltb_spec d 128) as [Hlo|Hhi].
  - intros [= <- <-]. split; [lia|]. exists [d]. destruct (varint_read_digit p acc d true Hp ltac:(lia)) as [E _].
    rewrite length_app, rev_app_distr. cbn [length rev app]. rewrite Nat.add_1_r, E, Z.add_0_r. split_and!; (done || lia).
  - destruct (varint_read_digit p acc (d - 128) false Hp ltac:(lia)) as [E Hlim]. intros Hr.
    destruct turns as [|turns]; [done|].
    assert (varint_limit (S (length p)) < 2 ^ 64) as Hl64.
    { assert (S (length p) <= 9)%nat as Hle9 by lia. clear -Hle9. do 9 (destruct p as [|? p]; [vm_compute; reflexivity|]). cbn in Hle9. lia. }
    unfold u64 in Hr. rewrite Z.mod_small in Hr by lia.
    destruct (IH (p ++ [d]) (acc * 128 + (d - 128) + 1) s) as (Hn & c & -> & Hc & Hlen & Ec); [done | rewrite length_app; cbn; lia | | exact Hr |].
    { right. rewrite length_app, rev_app_distr. cbn [length rev app]. rewrite Nat.add_1_r. split; [lia|]. rewrite Z.add_simpl_r, E. do 2 f_equal. lia. }
    split; [done|]. exists (d :: c). rewrite <- app_assoc in *. split_and!; done.
Qed.

Lemma ReadVarInt_inv sizeof_n s n rest : 7 <= bits -> bytes s -> ReadVarInt bits s = Ok (n, rest) ->
  2 ^ bits <= varint_limit (varint_room sizeof_n) ->
  0 <= n < 2 ^ bits /\ exists b, WriteVarInt sizeof_n n = Ok b /\ s = b ++ rest.
Proof.
  intros Hb Hs Hr Hl. destruct (read_varint_inv 10 [] 0 s n rest Hb Hs eq_refl ltac:(by left) Hr) as (Hn & c & -> & Hc & Hlen & E).
  split; [done|]. exists c. split; [|done]. unfold WriteVarInt. cbn [app] in E.
  destruct (varint_digits_spec (varint_room sizeof_n) true n ltac:(lia)) as (tmp & Et & _). rewrite Et.
  pose proof (varint_digits_more (varint_room sizeof_n) (varint_room sizeof_n `max` length c) _ _ _ ltac:(lia) Et) as E1.
  pose proof (varint_digits_more (length c) (varint_room sizeof_n `max` length c) _ _ _ ltac:(lia) E) as E2.
  rewrite E1 in E2. injection E2 as ->. cbn. by rewrite rev_involutive.
Qed.

End varint.

Lemma size_of_varint_spec room first n r tmp : varint_digits room first n = Ok tmp ->
  size_of_varint_loop room n r = Some (r + Z.of_nat (length tmp)).
Proof.
  revert first n r tmp. induction room as [|room IH]; intros first n r tmp; [done|]. cbn [varint_digits size_of_varint_loop].
  destruct (n <=? 0x7f); [by intros [= <-]|]. destruct (varint_digits room false _) as [t| |] eqn:E; [|done..]. intros [= <-].
  rewrite (IH _ _ _ _ E). cbn [length]. f_equal. lia.
Qed.

(** ** Codecs of words and blobs *)

Lemma i32_u32 a : - 2 ^ 31 <= a < 2 ^ 31 -> i32 (u32 a) = a.
Proof. intros Ha. unfold i32, u32. rewrite Z.add_mod_idemp_l by lia. rewrite Z.mod_small by lia. lia. Qed.

Lemma i64_u64 a : - 2 ^ 63 <= a < 2 ^ 63 -> i64 (u64 a) = a.
Proof. intros Ha. unfold i64, u64. rewrite Z.add_mod_idemp_l by lia. rewrite Z.mod_small by lia. lia. Qed.

Lemma u32_i32 n : 0 <= n < 2 ^ 32 -> - 2 ^ 31 <= i32 n < 2 ^ 31 /\ u32 (i32 n) = n.
Proof.
  intros Hn. unfold i32, u32. pose proof (Z.mod_pos_bound (n + 2 ^ 31) (2 ^ 32) ltac:(lia)). split; [lia|].
  rewrite Zminus_mod_idemp_l. rewrite Z.add_simpl_r. by apply Z.mod_small.
Qed.

Lemma u64_i64 n : 0 <= n < 2 ^ 64 -> - 2 ^ 63 <= i64 n < 2 ^ 63 /\ u64 (i64 n) = n.
Proof.
  intros Hn. unfold i64, u64. pose proof (Z.mod_pos_bound (n + 2 ^ 63) (2 ^ 64) ltac:(lia)). split; [lia|].
  rewrite Zminus_mod_idemp_l. rewrite Z.add_simpl_r. by apply Z.mod_small.
Qed.

(** A word of [k] bytes read and written through a conversion. *)

Lemma word_codec_ok (c : codec Z) (k : nat) (P : Z -> Prop) (to from : Z -> Z) :
  (0 < k)%nat ->
  (forall a, Serialize c a = Ok (le_bytes k (to a))) -> (forall s, Unserialize c s = ('(n, s) ← read_le k s; Ok (from n, s))) ->
  (forall a, P a -> 0 <= to a < 2 ^ (8 * Z.of_nat k) /\ from (to a) = a) ->
  (forall n, 0 <= n < 2 ^ (8 * Z.of_nat k) -> P (from n) /\ to (from n) = n) -> codec_ok c P.
Proof.
  intros Hk Hw Hr H1 H2. split.
  - intros a Ha. destruct (H1 a Ha) as [Hb Ef]. rewrite Hw. eexists. split; [done|].
    split; [apply le_bytes_bytes|]. split; [by destruct k; [lia|]|]. intros rest _. rewrite Hr, read_le_write by done. cbn. by rewrite Ef.
  - intros s a rest Hs. rewrite Hr. destruct (read_le k s) as [[n r]| |] eqn:E; [|done..]. intros [= <- <-].
    apply read_le_inv in E as [Hn ->]; [|done]. destruct (H2 n Hn) as [HP E]. split; [done|]. rewrite Hw, E. by eexists.
  - intros s _. rewrite Hr. apply bind_defined; [apply read_le_defined|]. by intros [].
Qed.

#[export] Instance uint32_codec_ok : codec_ok uint32_codec (fun a => 0 <= a < 2 ^ 32).
Proof.
  apply (word_codec_ok _ 4 _ u32 id); [lia | done | | |].
  - intros s. cbn. rewrite readdata32. by destruct (read_le 4 s) as [[]| |].
  - intros a Ha. unfold u32. by rewrite Z.mod_small.
  - intros n Hn. unfold u32. by rewrite Z.mod_small.
Qed.

#[export] Instance int32_codec_ok : codec_ok int32_codec (fun a => - 2 ^ 31 <= a < 2 ^ 31).
Proof.
  apply (word_codec_ok _ 4 _ u32 i32); [lia | done | intros s; cbn; by rewrite readdata32 | | apply u32_i32].
  intros a Ha. split; [apply Z.mod_pos_bound; lia | by apply i32_u32].
Qed.

#[export] Instance int64_codec_ok : codec_ok int64_codec (fun a => - 2 ^ 63 <= a < 2 ^ 63).
Proof.
  apply (word_codec_ok _ 8 _ u64 i64); [lia | done | intros s; cbn; by rewrite readdata64 | | apply u64_i64].
  intros a Ha. split; [apply Z.mod_pos_bound; lia | by apply i64_u64].
Qed.

Definition is_uint256 (a : list Z) : Prop := bytes a /\ length a = 32%nat.

#[export] Instance uint256_codec_ok : codec_ok uint256_codec is_uint256.
Proof.
  split; cbn.
  - intros a [Ha Hl]. exists a. split_and!; [done | done | by intros -> |]. intros rest _. rewrite <- (stream_read_app a rest). f_equal. lia.
  - intros s a rest Hs E. apply stream_read_inv in E as [-> Hl]; [|lia]. apply Forall_app in Hs as [Ha _]. split; [split; [done | lia]|]. by exists a.
  - intros s _. apply stream_read_defined.
Qed.

(** ** Fields *)

#[export] Instance codec_seq_ok {A B} (c1 : codec A) (c2 : codec B) P Q :
  codec_ok c1 P -> codec_ok c2 Q -> codec_ok (codec_seq c1 c2) (fun p => P p.1 /\ Q p.2).
Proof.
  intros H1 H2. split; cbn.
  - intros [a b] [Ha Hb]. cbn in *. destruct (codec_write a Ha) as (ba & -> & Ba & Na & Ra). destruct (codec_write b Hb) as (bb & -> & Bb & Nb & Rb).
    cbn. eexists. split; [done|]. split; [eauto with bytes|]. split; [by intros [? ?]%app_nil|].
    intros rest Br. rewrite <- app_assoc, Ra by eauto with bytes. cbn. by rewrite Rb.
  - intros s [a b] rest Hs. destruct (Unserialize c1 s) as [[a' s1]| |] eqn:E1; [|done..]. cbn.
    destruct (codec_read _ _ _ Hs E1) as (Ha & b1 & W1 & ->). apply Forall_app in Hs as [_ Hs].
    destruct (Unserialize c2 s1) as [[b' s2]| |] eqn:E2; [|done..]. cbn. intros [= <- <- <-].
    destruct (codec_read _ _ _ Hs E2) as (Hb & b2 & W2 & ->). split; [done|]. rewrite W1. cbn. rewrite W2. eexists. split; [done|]. by rewrite app_assoc.
  - intros s Hs. apply bind_defined; [by apply codec_defined|]. intros [a s1] E1. destruct (codec_read _ _ _ Hs E1) as (_ & b1 & _ & ->).
    apply Forall_app in Hs as [_ Hs]. apply bind_defined; [by apply codec_defined|]. by intros [].
Qed.

Lemma codec_class_ok {A B} (fields : A -> B) (build : B -> A) size (c : codec B) (P : A -> Prop) Q : codec_ok c Q ->
  (forall a, build (fields a) = a) -> (forall b, fields (build b) = b) -> (forall a, P a <-> Q (fields a)) ->
  codec_ok (codec_class fields build size c) P.
Proof.
  intros Hc Hbf Hfb HP. split; cbn.
  - intros a Ha%HP. destruct (codec_write _ Ha) as (b & -> & Bb & Nb & Rb). exists b. split_and!; [done..|].
    intros rest Br. rewrite Rb by done. cbn. by rewrite Hbf.
  - intros s a rest Hs. destruct (Unserialize c s) as [[b r]| |] eqn:E; [|done..]. intros [= <- <-].
    destruct (codec_read _ _ _ Hs E) as (Hb & w & W & ->). rewrite HP, Hfb. split; [done|]. by exists w.
  - intros s Hs. apply bind_defined; [by apply codec_defined|]. by intros [].
Qed.

(** ** Byte vectors *)

Lemma stream_read_split n m s : 0 <= n -> 0 <= m ->
  stream_read (n + m) s = ('(a, s) ← stream_read n s; '(b, s) ← stream_read m s; Ok (a ++ b, s)).
Proof.
  intros Hn Hm. unfold stream_read. destruct (Z.ltb_spec (Z.of_nat (length s)) n).
  { rewrite (proj2 (Z.ltb_lt _ _)) by lia. done. }
  cbn [mbind outcome_bind]. rewrite length_drop. destruct (Z.ltb_spec (Z.of_nat (length s)) (n + m)).
  - rewrite (proj2 (Z.ltb_lt _ _)) by lia. done.
  - rewrite (proj2 (Z.ltb_ge _ _)) by lia. cbn [mbind outcome_bind]. rewrite drop_drop, take_take_drop. rewrite <- Z2Nat.inj_add by lia. done.
Qed.

Lemma stream_read_0 s : stream_read 0 s = Ok ([], s).
Proof. unfold stream_read. rewrite (proj2 (Z.ltb_ge _ _)) by lia. done. Qed.

(** The size of the next chunk, while it is needed. *)

Definition chunk_ok (sizeofT done chunkSize : Z) : Prop :=
  STARTING_CHUNK_SIZE <= chunkSize <= CHUNK_GROWTH_RATE * (sizeofT * done + STARTING_CHUNK_SIZE).

Lemma chunk_items_spec sizeofT i chunkSize nSize : 1 <= sizeofT <= 2 ^ 20 -> 0 <= i < nSize -> nSize <= MAX_SIZE -> chunk_ok sizeofT i chunkSize ->
  1 <= chunk_items chunkSize sizeofT < 2 ^ 60 /\ chunkSize <= sizeofT * chunk_items chunkSize sizeofT.
Proof.
  unfold chunk_ok, STARTING_CHUNK_SIZE, CHUNK_GROWTH_RATE, MAX_SIZE, chunk_items. intros Hs Hi Hn Hc.
  assert (sizeofT * i <= 2 ^ 20 * 2 ^ 32) as Hm by (apply Z.mul_le_mono_nonneg; lia). assert (chunkSize < 2 ^ 58) as Hlt by lia.
  assert (u64 (chunkSize - 1) = chunkSize - 1) as -> by (unfold u64; apply Z.mod_small; lia).
  pose proof (Z.div_pos (chunkSize - 1) sizeofT ltac:(lia) ltac:(lia)). pose proof (Z.div_le_upper_bound (chunkSize - 1) sizeofT (2 ^ 58) ltac:(lia) ltac:(lia)).
  pose proof (Z.div_mod (chunkSize - 1) sizeofT ltac:(lia)). pose proof (Z.mod_pos_bound (chunkSize - 1) sizeofT ltac:(lia)).
  unfold u64. rewrite Z.mod_small by lia. split; [lia | nia].
Qed.

Lemma chunk_ok_next sizeofT i j chunkSize nSize : 1 <= sizeofT <= 2 ^ 20 -> 0 <= i < nSize -> nSize <= MAX_SIZE -> chunk_ok sizeofT i chunkSize ->
  chunkSize <= sizeofT * (j - i) -> chunk_ok sizeofT j (u64 (chunkSize * CHUNK_GROWTH_RATE)).
Proof.
  unfold chunk_ok, STARTING_CHUNK_SIZE, CHUNK_GROWTH_RATE, MAX_SIZE, u64. intros Hs Hi Hn Hc Hj.
  assert (sizeofT * i <= 2 ^ 20 * 2 ^ 32) by (apply Z.mul_le_mono_nonneg; lia). rewrite Z.mod_small by lia. lia.
Qed.

Lemma read_byte_chunks_done fuel nSize chunkSize v s : read_byte_chunks fuel nSize nSize chunkSize v s = Ok (v, s).
Proof. destruct fuel; cbn [read_byte_chunks]; by rewrite Z.ltb_irrefl. Qed.

Lemma read_byte_chunks_spec fuel nSize i chunkSize v s : 0 <= i <= nSize -> nSize <= MAX_SIZE -> chunk_ok 1 i chunkSize ->
  (length s < fuel)%nat ->
  read_byte_chunks fuel nSize i chunkSize v s = ('(b, r) ← stream_read (nSize - i) s; Ok (v ++ b, r)).
Proof.
  revert i chunkSize v s. induction fuel as [|fuel IH]; intros i chunkSize v s Hi Hn Hc Hf; [lia|].
  destruct (decide (i = nSize)) as [->|Hne].
  { rewrite read_byte_chunks_done, Z.sub_diag, stream_read_0. cbn. by rewrite app_nil_r. }
  cbn [read_byte_chunks]. rewrite (proj2 (Z.ltb_lt _ _)) by lia.
  destruct (chunk_items_spec 1 i chunkSize nSize ltac:(lia) ltac:(lia) Hn Hc) as [Hk1 Hk2].
  set (blk := Z.min _ _). replace (nSize - i) with (blk + (nSize - (i + blk))) by lia. rewrite stream_read_split by lia.
  destruct (stream_read blk s) as [[b r]| |] eqn:E; [|done..]. cbn [mbind outcome_bind].
  apply stream_read_inv in E as [-> Hl]; [|lia]. rewrite length_app in Hf.
  destruct (decide (i + blk = nSize)) as [E|Hlt].
  - rewrite E, read_byte_chunks_done, Z.sub_diag, stream_read_0. cbn. by rewrite app_nil_r.
  - rewrite IH; [|lia | done | apply (chunk_ok_next 1 i (i + blk) chunkSize nSize); (done || lia) | lia].
    destruct (stream_read _ r) as [[b' r']| |]; [|done..]. cbn. by rewrite app_assoc.
Qed.

Lemma read_byte_chunks_start n s : 0 <= n <= MAX_SIZE ->
  read_byte_chunks (S (length s)) n 0 STARTING_CHUNK_SIZE [] s = stream_read n s.
Proof.
  intros Hn. rewrite read_byte_chunks_spec by (done || lia || (unfold chunk_ok; cbn; lia)). rewrite Z.sub_0_r.
  by destruct (stream_read n s) as [[]| |].
Qed.

Definition is_bytes (v : list Z) : Prop := bytes v /\ Z.of_nat (length v) <= MAX_SIZE.

#[export] Instance bytes_codec_ok : codec_ok bytes_codec is_bytes.
Proof.
  split; cbn [bytes_codec Serialize Unserialize].
  - intros v [Hv Hl]. destruct (WriteCompactSize_spec (Z.of_nat (length v))) as (b & -> & Bb & Nb & _ & Rb); [lia|]. cbn [mbind outcome_bind].
    eexists. split; [done|]. split; [eauto with bytes|]. split; [by intros [? ?]%app_nil|].
    intros rest _. rewrite <- app_assoc, Rb. cbn [mbind outcome_bind]. rewrite read_byte_chunks_start by lia. apply stream_read_app.
  - intros s v rest Hs. destruct (ReadCompactSize s) as [[n s1]| |] eqn:E; [|done..]. cbn [mbind outcome_bind].
    destruct (ReadCompactSize_inv _ _ _ Hs E) as (Hn & b & Wb & ->). apply Forall_app in Hs as [_ Hs]. rewrite read_byte_chunks_start by lia.
    intros Er. apply stream_read_inv in Er as [-> Hl]; [|lia]. apply Forall_app in Hs as [Hv _]. split; [by split; [|lia]|].
    rewrite Hl, Wb. cbn [mbind outcome_bind]. eexists. split; [done|]. by rewrite app_assoc.
  - intros s Hs. apply bind_defined; [apply ReadCompactSize_defined|]. intros [n s1] E.
    destruct (ReadCompactSize_inv _ _ _ Hs E) as (Hn & _). rewrite read_byte_chunks_start by lia. apply stream_read_defined.
Qed.

(** ** Vectors of values *)

Section vector_laws.
Context {A : Type} (c : codec A) (P : A -> Prop) (Hc : codec_ok c P) (Hsize : 1 <= sizeof c <= 2 ^ 20).

Lemma codec_shorter s a rest : bytes s -> Unserialize c s = Ok (a, rest) -> (length rest < length s)%nat.
Proof.
  intros Hs E. destruct (codec_read _ _ _ Hs E) as (Ha & b & W & ->). destruct (codec_write a Ha) as (b' & W' & _ & Nb & _).
  assert (b' = b) as -> by congruence. rewrite length_app. destruct b; [done|]. cbn. lia.
Qed.

Lemma read_items_add n m v s : read_items c (n + m) v s = ('(v, s) ← read_items c n v s; read_items c m v s).
Proof.
  revert v s. induction n as [|n IH]; intros v s; [done|]. cbn [read_items Nat.add].
  destruct (Unserialize c s) as [[a s1]| |]; [|done..]. cbn [mbind outcome_bind]. apply IH.
Qed.

Lemma read_items_inv n pre s v rest : bytes s -> read_items c n pre s = Ok (v, rest) ->
  exists v', v = pre ++ v' /\ length v' = n /\ Forall P v' /\ (length rest + n <= length s)%nat /\
    exists bs, write_items c v' = Ok bs /\ s = bs ++ rest.
Proof.
  revert pre s. induction n as [|n IH]; intros pre s Hs; cbn [read_items].
  { intros [= <- <-]. exists []. rewrite app_nil_r. split_and!; [done..|lia|]. by exists []. }
  destruct (Unserialize c s) as [[a s1]| |] eqn:E; [|done..]. cbn [mbind outcome_bind]. intros Er.
  pose proof (codec_shorter _ _ _ Hs E) as Hlt. destruct (codec_read _ _ _ Hs E) as (Ha & b & W & ->). apply Forall_app in Hs as [_ Hs].
  destruct (IH _ _ Hs Er) as (v' & -> & <- & Hv & Hle & bs & Wv & ->). exists (a :: v').
  split_and!; [by rewrite <- app_assoc | done | by constructor | lia |]. cbn [write_items]. rewrite W. cbn. rewrite Wv. cbn.
  eexists. split; [done|]. by rewrite app_assoc.
Qed.

Lemma read_items_defined n pre s : bytes s -> read_items c n pre s <> Abort.
Proof.
  revert pre s. induction n as [|n IH]; intros pre s Hs; [done|]. cbn [read_items]. apply bind_defined; [by apply codec_defined|].
  intros [a s1] E. apply IH. destruct (codec_read _ _ _ Hs E) as (_ & b & _ & ->). by apply Forall_app in Hs as [_ ?].
Qed.

Lemma write_items_spec v : Forall P v -> exists bs, write_items c v = Ok bs /\ bytes bs /\
  forall pre rest, bytes rest -> read_items c (length v) pre (bs ++ rest) = Ok (pre ++ v, rest).
Proof.
  induction 1 as [|a v Ha Hv (bs & Ws & Bs & Rs)]; cbn [write_items].
  { exists []. split_and!; [done..|]. intros pre rest _. cbn. by rewrite app_nil_r. }
  destruct (codec_write a Ha) as (b & -> & Bb & _ & Rb). rewrite Ws. cbn. eexists. split; [done|]. split; [eauto with bytes|].
  intros pre rest Br. rewrite <- app_assoc, Rb by eauto with bytes. cbn. rewrite Rs by done. by rewrite <- app_assoc.
Qed.

Lemma read_item_chunks_done fuel nSize chunkSize v s : read_item_chunks c fuel nSize nSize chunkSize v s = Ok (v, s).
Proof. destruct fuel; cbn [read_item_chunks]; by rewrite Z.ltb_irrefl. Qed.

(** A turn of the loop reads at least one item. *)

Lemma read_item_chunks_step fuel nSize nMid chunkSize v s : 0 <= nMid < nSize -> nSize <= MAX_SIZE -> chunk_ok (sizeof c) nMid chunkSize ->
  exists next chunk', nMid < next <= nSize /\ (next = nSize \/ chunk_ok (sizeof c) next chunk') /\
    read_item_chunks c (S fuel) nSize nMid chunkSize v s =
      ('(v, s) ← read_items c (Z.to_nat (next - nMid)) v s; read_item_chunks c fuel nSize next chunk' v s).
Proof.
  intros Hi Hn Hk. cbn [read_item_chunks]. rewrite (proj2 (Z.ltb_lt _ _)) by lia.
  destruct (chunk_items_spec (sizeof c) nMid chunkSize nSize Hsize ltac:(lia) Hn Hk) as [Hk1 Hk2]. cbn zeta.
  set (mid := u64 (nMid + _)). assert (mid = nMid + Z.min nSize (chunk_items chunkSize (sizeof c))) as Em.
  { unfold mid, u64. apply Z.mod_small. unfold MAX_SIZE in Hn. lia. }
  set (next := if nSize <? mid then nSize else mid). assert (nMid < next <= nSize /\ (next = nSize \/ next = nMid + chunk_items chunkSize (sizeof c))) as [Hnext Hcase].
  { unfold next. destruct (Z.ltb_spec nSize mid); lia. }
  clearbody next mid. exists next, (u64 (chunkSize * CHUNK_GROWTH_RATE)). split_and!; [lia | lia | | done].
  destruct Hcase as [|Hcase]; [by left | right]. apply (chunk_ok_next (sizeof c) nMid next chunkSize nSize); (done || lia || nia).
Qed.

(** The loop reads the items one after the other, with a turn for each item or for each byte. *)

Lemma read_item_chunks_count fuel nSize nMid chunkSize v s : 0 <= nMid <= nSize -> nSize <= MAX_SIZE -> nMid = nSize \/ chunk_ok (sizeof c) nMid chunkSize ->
  (Z.to_nat (nSize - nMid) < fuel)%nat -> read_item_chunks c fuel nSize nMid chunkSize v s = read_items c (Z.to_nat (nSize - nMid)) v s.
Proof.
  revert nMid chunkSize v s. induction fuel as [|fuel IH]; intros nMid chunkSize v s Hi Hn Hk Hf; [lia|].
  destruct (decide (nMid = nSize)) as [->|Hne]; [by rewrite read_item_chunks_done, Z.sub_diag|]. destruct Hk as [|Hk]; [done|].
  destruct (read_item_chunks_step fuel nSize nMid chunkSize v s ltac:(lia) Hn Hk) as (next & chunk' & Hnext & Hk' & ->).
  replace (Z.to_nat (nSize - nMid)) with (Z.to_nat (next - nMid) + Z.to_nat (nSize - next))%nat by lia.
  rewrite read_items_add. destruct (read_items c (Z.to_nat (next - nMid)) v s) as [[v1 s1]| |]; [|done..]. cbn [mbind outcome_bind]. apply IH; (done || lia).
Qed.

Lemma read_item_chunks_spec fuel nSize nMid chunkSize v s : bytes s -> 0 <= nMid <= nSize -> nSize <= MAX_SIZE ->
  nMid = nSize \/ chunk_ok (sizeof c) nMid chunkSize -> (length s < fuel)%nat ->
  read_item_chunks c fuel nSize nMid chunkSize v s = read_items c (Z.to_nat (nSize - nMid)) v s.
Proof.
  revert nMid chunkSize v s. induction fuel as [|fuel IH]; intros nMid chunkSize v s Hs Hi Hn Hk Hf; [lia|].
  destruct (decide (nMid = nSize)) as [->|Hne]; [by rewrite read_item_chunks_done, Z.sub_diag|]. destruct Hk as [|Hk]; [done|].
  destruct (read_item_chunks_step fuel nSize nMid chunkSize v s ltac:(lia) Hn Hk) as (next & chunk' & Hnext & Hk' & ->).
  replace (Z.to_nat (nSize - nMid)) with (Z.to_nat (next - nMid) + Z.to_nat (nSize - next))%nat by lia.
  rewrite read_items_add. destruct (read_items c (Z.to_nat (next - nMid)) v s) as [[v1 s1]| |] eqn:E; [|done..]. cbn [mbind outcome_bind].
  destruct (read_items_inv _ _ _ _ _ Hs E) as (v' & _ & Hlen & _ & Hle & bs & _ & Es).
  apply IH; [rewrite Es in Hs; by apply Forall_app in Hs as [_ ?] | lia | done | done | lia].
Qed.

Lemma read_item_chunks_start n s : bytes s -> 0 <= n <= MAX_SIZE ->
  read_item_chunks c (S (length s)) n 0 STARTING_CHUNK_SIZE [] s = read_items c (Z.to_nat n) [] s.
Proof.
  intros Hs Hn. rewrite read_item_chunks_spec by (done || lia || (right; unfold chunk_ok, STARTING_CHUNK_SIZE, CHUNK_GROWTH_RATE; lia)).
  by rewrite Z.sub_0_r.
Qed.

#[export] Instance vector_codec_ok : codec_ok (vector_codec c) (fun v => Forall P v /\ Z.of_nat (length v) <= MAX_SIZE).
Proof.
  split; cbn [vector_codec Serialize Unserialize].
  - intros v [Hv Hl]. destruct (WriteCompactSize_spec (Z.of_nat (length v))) as (b & -> & Bb & Nb & _ & Rb); [lia|].
    destruct (write_items_spec v Hv) as (bs & -> & Bs & Rs). cbn [mbind outcome_bind]. eexists. split; [done|].
    split; [eauto with bytes|]. split; [by intros [? ?]%app_nil|]. intros rest Br. rewrite <- app_assoc, Rb. cbn [mbind outcome_bind].
    rewrite read_item_chunks_start by (eauto with bytes || lia). rewrite Nat2Z.id. by apply Rs.
  - intros s v rest Hs. destruct (ReadCompactSize s) as [[n s1]| |] eqn:E; [|done..]. cbn [mbind outcome_bind].
    destruct (ReadCompactSize_inv _ _ _ Hs E) as (Hn & b & Wb & ->). apply Forall_app in Hs as [_ Hs]. rewrite read_item_chunks_start by done.
    intros Er. destruct (read_items_inv _ _ _ _ _ Hs Er) as (v' & Ev & Hl & Hv & _ & bs & Wv & ->). cbn [app] in Ev. subst v'.
    split; [split; [done | lia]|]. replace (Z.of_nat (length v)) with n by lia. rewrite Wb, Wv. cbn [mbind outcome_bind].
    eexists. split; [done|]. by rewrite app_assoc.
  - intros s Hs. apply bind_defined; [apply ReadCompactSize_defined|]. intros [n s1] E.
    destruct (ReadCompactSize_inv _ _ _ Hs E) as (Hn & b & _ & ->). apply Forall_app in Hs as [_ Hs].
    rewrite read_item_chunks_start by done. by apply read_items_defined.
Qed.

End vector_laws.

(** The integer types the variable-length encoding is used at: width of the values and size in bytes. *)

Definition varint_type (bits sizeof_n : Z) : Prop :=
  (bits, sizeof_n) ∈ [(64, 8); (63, 8); (32, 4); (31, 4)].

Lemma varint_type_room bits sizeof_n : varint_type bits sizeof_n ->
  7 <= bits <= 64 /\ 2 ^ bits <= varint_limit (varint_room sizeof_n) /\ (varint_room sizeof_n <= 10)%nat.
Proof.
  unfold varint_type. rewrite !elem_of_cons, elem_of_nil. intros [[= -> ->]|[[= -> ->]|[[= -> ->]|[[= -> ->]|[]]]]].
  all: split_and!; first [lia | vm_compute; congruence | apply Nat.leb_le; vm_compute; reflexivity].
Qed.

(** Compact sizes and variable-length integers are bijective encodings: what is written is read back, in as many
    bytes as announced and never past the end of the buffer, and whatever can be read is exactly what
    would have been written, so no number has two encodings and nothing out of range is accepted. *)
Theorem size_encodings_bijective bits sizeof_n n s rest :
  varint_type bits sizeof_n -> bytes s ->
  (0 <= n <= MAX_SIZE -> exists b, WriteCompactSize n = Ok b /\ Z.of_nat (length b) = GetSizeOfCompactSize n /\
     ReadCompactSize (b ++ rest) = Ok (n, rest)) /\
  (ReadCompactSize s = Ok (n, rest) -> 0 <= n <= MAX_SIZE /\ exists b, WriteCompactSize n = Ok b /\ s = b ++ rest) /\
  (0 <= n < 2 ^ bits -> exists b, WriteVarInt sizeof_n n = Ok b /\ GetSizeOfVarInt n = Some (Z.of_nat (length b)) /\
     ReadVarInt bits (b ++ rest) = Ok (n, rest)) /\
  (ReadVarInt bits s = Ok (n, rest) -> 0 <= n < 2 ^ bits /\ exists b, WriteVarInt sizeof_n n = Ok b /\ s = b ++ rest).
Proof.
  intros Ht Hs. destruct (varint_type_room _ _ Ht) as (Hb & Hl & Hr). split_and!.
  - intros Hn. destruct (WriteCompactSize_spec n Hn) as (b & W & _ & _ & L & R). by exists b.
  - by apply ReadCompactSize_inv.
  - intros Hn. destruct (WriteVarInt_spec bits ltac:(lia) sizeof_n n Hn ltac:(lia) Hr) as (b & W & _ & _ & R). exists b. split_and!; [done | | apply R].
    unfold WriteVarInt in W. destruct (varint_digits _ true n) as [tmp| |] eqn:E; [|done..]. injection W as <-. rewrite length_rev.
    exact (size_of_varint_spec 10 true n 0 tmp (varint_digits_more _ _ _ _ _ Hr E)).
  - intros E. exact (ReadVarInt_inv bits ltac:(lia) sizeof_n s n rest ltac:(lia) Hs E Hl).
Qed.

Lemma size_encodings_bijective_witness :
  (exists b, WriteVarInt 4 65535 = Ok b /\ b = [0x82; 0xfe; 0x7f]) /\ ReadVarInt 32 [0x82; 0xfe; 0x7f; 1] = Ok (65535, [1]).
Proof.
  destruct (size_encodings_bijective 32 4 65535 [0x82; 0xfe; 0x7f; 1] [1]) as (_ & _ & Hw & Hr);
    [unfold varint_type; rewrite !elem_of_cons; auto | by repeat constructor |].
  split; [|vm_compute; reflexivity]. destruct Hw as (b & W & _ & _); [lia|]. exists b. split; [done|].
  destruct Hr as (_ & b' & W' & E); [vm_compute; reflexivity|]. assert (b' = b) as -> by congruence.
  change [0x82; 0xfe; 0x7f; 1] with ([0x82; 0xfe; 0x7f] ++ [1]) in E. by apply app_inv_tail in E.
Defined.
