(* ===== verification/Transaction.v ===== *)
(** * Transactions and blocks

    [src/primitives/transaction.h], [src/primitives/transaction.cpp], [src/primitives/block.h] and
    [src/amount.h]: the data, their serialization and the values of outputs. *)

From S2P Require Import Prelude Common BlockIndex Script Hasher Sha2 Hash Serialize.
#[local] Open Scope Z_scope.

(** ** Amounts: [int64_t], of which an overflow has no defined result *)

Definition is_int64 (z : Z) : Prop := - 2 ^ 63 <= z < 2 ^ 63.

#[export] Instance is_int64_dec z : Decision (is_int64 z).
Proof. unfold is_int64. apply _. Defined.

Definition int64_result {E} (z : Z) : outcome E Z := if decide (is_int64 z) then Ok z else Abort.

Definition amount_add {E} (a b : Z) : outcome E Z := int64_result (a + b).

Definition amount_neg {E} (a : Z) : outcome E Z := int64_result (- a).

(** [a + -b]. *)

Definition amount_sub {E} (a b : Z) : outcome E Z := b' ← amount_neg b; amount_add a b'.

Definition amount_mul {E} (a b : Z) : outcome E Z := int64_result (a * b).

Definition COIN : Z := 100000000.

Definition MAX_MONEY : Z := 21000000 * COIN.

Definition MoneyRange (nValue : Z) : bool := (0 <=? nValue) && (nValue <=? MAX_MONEY).

(** [CFeeRate]: satoshis per 1000 bytes. *)

Definition new_CFeeRate {E} (nFeePaid nBytes : Z) : outcome E Z :=
  _ ← assert_ (nBytes <=? 2 ^ 63 - 1);
  if 0 <? nBytes then n ← amount_mul 1000 nFeePaid; Ok (Z.quot n nBytes) else Ok 0.

Definition GetFee {E} (nSatoshisPerK nBytes : Z) : outcome E Z :=
  _ ← assert_ (nBytes <=? 2 ^ 63 - 1);
  n ← amount_mul nBytes nSatoshisPerK;
  let nFee := Z.quot n 1000 in
  if (nFee =? 0) && negb (nBytes =? 0) then
    let nFee := if 0 <? nSatoshisPerK then 1 else nFee in
    Ok (if nSatoshisPerK <? 0 then -1 else nFee)
  else Ok nFee.

(** ** Data *)

Record COutPoint := { outpoint_txid : list Z; outpoint_n : Z }.

Record CTxIn := { prevout : COutPoint; scriptSig : list Z; nSequence : Z }.

Record CTxOut := { nValue : Z; scriptPubKey : list Z }.

(** The cached hash is a function of the other members. *)

Record CTransaction := { tx_nVersion : Z; vin : list CTxIn; vout : list CTxOut; tx_nLockTime : Z }.

#[export] Instance COutPoint_eq_dec : EqDecision COutPoint.
Proof. solve_decision. Defined.

#[export] Instance CTxIn_eq_dec : EqDecision CTxIn.
Proof. solve_decision. Defined.

#[export] Instance CTxOut_eq_dec : EqDecision CTxOut.
Proof. solve_decision. Defined.

Definition SEQUENCE_FINAL : Z := 0xffffffff.

Definition SEQUENCE_LOCKTIME_DISABLE_FLAG : Z := 2 ^ 31.

Definition SEQUENCE_LOCKTIME_TYPE_FLAG : Z := 2 ^ 22.

Definition SEQUENCE_LOCKTIME_MASK : Z := 0x0000ffff.

Definition SEQUENCE_LOCKTIME_GRANULARITY : Z := 9.

Definition uint256_null : list Z := replicate 32 0.

Definition outpoint_IsNull (o : COutPoint) : bool :=
  bool_decide (outpoint_txid o = uint256_null) && (outpoint_n o =? 2 ^ 32 - 1).

Definition txout_null : CTxOut := {| nValue := -1; scriptPubKey := [] |}.

Definition txout_IsNull (o : CTxOut) : bool := nValue o =? -1.

Definition IsCoinBase (tx : CTransaction) : bool :=
  match vin tx with [i] => outpoint_IsNull (prevout i) | _ => false end.

(** The sum of the outputs; a value or a sum out of range throws. *)

Fixpoint value_out_loop (nValueOut : Z) (l : list CTxOut) : outcome exn Z :=
  match l with
  | [] => Ok nValueOut
  | o :: l =>
      nValueOut ← amount_add nValueOut (nValue o);
      if negb (MoneyRange (nValue o)) || negb (MoneyRange nValueOut) then Throw runtime_error
      else value_out_loop nValueOut l
  end.

Definition GetValueOut (tx : CTransaction) : outcome exn Z := value_out_loop 0 (vout tx).

(** ** Serialization

    The sizes the compiler gives the classes only matter for how many elements are read at a time. *)

Record layout := { sizeof_CTxIn : Z; sizeof_CTxOut : Z; sizeof_CTransactionRef : Z }.

Definition layout_ok (l : layout) : Prop :=
  1 <= sizeof_CTxIn l <= 2 ^ 20 /\ 1 <= sizeof_CTxOut l <= 2 ^ 20 /\ 1 <= sizeof_CTransactionRef l <= 2 ^ 20.

Definition COutPoint_codec : codec COutPoint :=
  codec_class (fun o => (outpoint_txid o, outpoint_n o)) (fun '(t, n) => {| outpoint_txid := t; outpoint_n := n |}) 36
    (codec_seq uint256_codec uint32_codec).

Section codecs.
Context (l : layout).

Definition CTxIn_codec : codec CTxIn :=
  codec_class (fun i => (prevout i, (scriptSig i, nSequence i)))
    (fun '(p, (s, n)) => {| prevout := p; scriptSig := s; nSequence := n |}) (sizeof_CTxIn l)
    (codec_seq COutPoint_codec (codec_seq bytes_codec uint32_codec)).

Definition CTxOut_codec : codec CTxOut :=
  codec_class (fun o => (nValue o, scriptPubKey o)) (fun '(v, s) => {| nValue := v; scriptPubKey := s |}) (sizeof_CTxOut l)
    (codec_seq int64_codec bytes_codec).

Definition CTransaction_codec : codec CTransaction :=
  codec_class (fun tx => (tx_nVersion tx, (vin tx, (vout tx, tx_nLockTime tx))))
    (fun '(v, (i, (o, t))) => {| tx_nVersion := v; vin := i; vout := o; tx_nLockTime := t |}) (sizeof_CTransactionRef l)
    (codec_seq int32_codec (codec_seq (vector_codec CTxIn_codec) (codec_seq (vector_codec CTxOut_codec) uint32_codec))).

Definition CBlockHeader_codec : codec CBlockHeader :=
  codec_class (fun h => (hdr_nVersion h, (hdr_hashPrevBlock h, (hdr_hashMerkleRoot h, (hdr_nTime h, (hdr_nBits h, hdr_nNonce h))))))
    (fun '(v, (p, (m, (t, (b, n))))) => {| hdr_nVersion := v; hdr_hashPrevBlock := p; hdr_hashMerkleRoot := m; hdr_nTime := t; hdr_nBits := b; hdr_nNonce := n |}) 80
    (codec_seq int32_codec (codec_seq uint256_codec (codec_seq uint256_codec (codec_seq uint32_codec (codec_seq uint32_codec uint32_codec))))).

Record CBlock := { block_header : CBlockHeader; vtx : list CTransaction }.

Definition CBlock_codec : codec CBlock :=
  codec_class (fun b => (block_header b, vtx b)) (fun '(h, v) => {| block_header := h; vtx := v |}) 112
    (codec_seq CBlockHeader_codec (vector_codec CTransaction_codec)).

End codecs.

(** [SerializeHash]: the double hash of what is written; a size that cannot be written throws. *)

Definition SerializeHash {A} (c : codec A) (a : A) : outcome ser_exn (list Z) := b ← Serialize c a; Ok (GetHash [b]).

Definition GetId (l : layout) (tx : CTransaction) : outcome ser_exn (list Z) := SerializeHash (CTransaction_codec l) tx.

Definition GetBlockHash (h : CBlockHeader) : outcome ser_exn (list Z) := SerializeHash CBlockHeader_codec h.

(** ** Values that fit their types *)

Definition outpoint_ok (o : COutPoint) : Prop := is_uint256 (outpoint_txid o) /\ 0 <= outpoint_n o < 2 ^ 32.

Definition txin_ok (i : CTxIn) : Prop := outpoint_ok (prevout i) /\ is_bytes (scriptSig i) /\ 0 <= nSequence i < 2 ^ 32.

Definition txout_ok (o : CTxOut) : Prop := is_int64 (nValue o) /\ is_bytes (scriptPubKey o).

Definition tx_ok (tx : CTransaction) : Prop :=
  - 2 ^ 31 <= tx_nVersion tx < 2 ^ 31 /\ (Forall txin_ok (vin tx) /\ Z.of_nat (length (vin tx)) <= MAX_SIZE) /\
  (Forall txout_ok (vout tx) /\ Z.of_nat (length (vout tx)) <= MAX_SIZE) /\ 0 <= tx_nLockTime tx < 2 ^ 32.

Definition header_ok (h : CBlockHeader) : Prop :=
  - 2 ^ 31 <= hdr_nVersion h < 2 ^ 31 /\ is_uint256 (hdr_hashPrevBlock h) /\ is_uint256 (hdr_hashMerkleRoot h) /\
  0 <= hdr_nTime h < 2 ^ 32 /\ 0 <= hdr_nBits h < 2 ^ 32 /\ 0 <= hdr_nNonce h < 2 ^ 32.

Definition block_ok (b : CBlock) : Prop :=
  header_ok (block_header b) /\ Forall tx_ok (vtx b) /\ Z.of_nat (length (vtx b)) <= MAX_SIZE.

#[export] Instance COutPoint_codec_ok : codec_ok COutPoint_codec outpoint_ok.
Proof. eapply codec_class_ok; [apply _ | by intros [] | by intros [] | done]. Qed.

#[export] Instance CBlockHeader_codec_ok : codec_ok CBlockHeader_codec header_ok.
Proof. eapply codec_class_ok; [apply _ | by intros [] | by intros (? & ? & ? & ? & ? & ?) | intros a; reflexivity]. Qed.

Section codec_laws.
Context (l : layout) (Hl : layout_ok l).

#[export] Instance CTxIn_codec_ok : codec_ok (CTxIn_codec l) txin_ok.
Proof. eapply codec_class_ok; [apply _ | by intros [] | by intros (? & ? & ?) | done]. Qed.

#[export] Instance CTxOut_codec_ok : codec_ok (CTxOut_codec l) txout_ok.
Proof. eapply codec_class_ok; [apply _ | by intros [] | by intros [] | done]. Qed.

#[export] Instance CTransaction_codec_ok : codec_ok (CTransaction_codec l) tx_ok.
Proof.
  destruct Hl as (H1 & H2 & H3). eapply codec_class_ok.
  - apply codec_seq_ok; [apply _|]. apply codec_seq_ok; [by apply vector_codec_ok; [apply _|]|].
    apply codec_seq_ok; [by apply vector_codec_ok; [apply _|] | apply _].
  - by intros [].
  - by intros (? & ? & ? & ?).
  - done.
Qed.

#[export] Instance CBlock_codec_ok : codec_ok (CBlock_codec l) block_ok.
Proof.
  destruct Hl as (H1 & H2 & H3). eapply codec_class_ok.
  - apply codec_seq_ok; [apply _ | by apply vector_codec_ok; [apply _|]].
  - by intros [].
  - by intros [].
  - done.
Qed.

(** C21. Serialization of blocks and transactions is a bijection: a block whose members fit their types is written
    and read back exactly, with the rest of the stream untouched; any bytes that can be read as a block are
    the one serialization of a well-formed block, so that hashes commit to content; and reading
    arbitrary bytes ends in a value or an exception, however large the announced sizes. *)
Theorem block_serialization_bijective (b : CBlock) s rest :
  bytes s -> bytes rest ->
  (block_ok b -> exists w, Serialize (CBlock_codec l) b = Ok w /\ Unserialize (CBlock_codec l) (w ++ rest) = Ok (b, rest)) /\
  (Unserialize (CBlock_codec l) s = Ok (b, rest) -> block_ok b /\ exists w, Serialize (CBlock_codec l) b = Ok w /\ s = w ++ rest) /\
  Unserialize (CBlock_codec l) s <> Abort.
Proof.
  intros Hs Hr. split_and!.
  - intros Hb. destruct (codec_write b Hb) as (w & W & _ & _ & R). exists w. auto.
  - intros E. by apply codec_read.
  - by apply codec_defined.
Qed.

End codec_laws.

(** ** The value of the outputs *)

Lemma MoneyRange_spec n : MoneyRange n = true <-> 0 <= n <= MAX_MONEY.
Proof. unfold MoneyRange. rewrite andb_true_iff, !Z.leb_le. done. Qed.

Lemma int64_result_spec {E} z : is_int64 z -> int64_result (E := E) z = Ok z.
Proof. intros Hz. unfold int64_result. by rewrite decide_True. Qed.

Definition sum_out (l : list CTxOut) : Z := foldr (fun o n => nValue o + n) 0 l.

Lemma sum_out_nonneg l : Forall (fun o => 0 <= nValue o <= MAX_MONEY) l -> 0 <= sum_out l.
Proof. induction 1 as [|o l Ho Hl IH]; cbn; [done|]. unfold sum_out in *. lia. Qed.

Lemma value_out_loop_spec acc l : 0 <= acc <= MAX_MONEY -> Forall (fun o => 0 <= nValue o <= MAX_MONEY) l -> acc + sum_out l <= MAX_MONEY ->
  value_out_loop acc l = Ok (acc + sum_out l).
Proof.
  intros Ha Hl. revert acc Ha. induction Hl as [|o l Ho Hl IH]; intros acc Ha Hs; cbn [value_out_loop sum_out foldr] in *; [by rewrite Z.add_0_r|].
  pose proof (sum_out_nonneg l Hl) as Hp. fold (sum_out l) in *.
  unfold amount_add. unfold MAX_MONEY, COIN in *. rewrite int64_result_spec by (unfold is_int64; lia). cbn [mbind outcome_bind].
  rewrite (proj2 (MoneyRange_spec _)), (proj2 (MoneyRange_spec _)) by (unfold MAX_MONEY, COIN; lia). cbn [negb orb].
  rewrite IH by lia. f_equal. lia.
Qed.

(** The witness of the bijection: a block with one transaction. *)

Definition demo_layout : layout := {| sizeof_CTxIn := 80; sizeof_CTxOut := 40; sizeof_CTransactionRef := 16 |}.

Definition demo_tx : CTransaction :=
  {| tx_nVersion := 1;
     vin := [{| prevout := {| outpoint_txid := uint256_null; outpoint_n := 0 |}; scriptSig := [1; 2]; nSequence := SEQUENCE_FINAL |}];
     vout := [{| nValue := 50 * COIN; scriptPubKey := [0x51] |}];
     tx_nLockTime := 0 |}.

Lemma demo_tx_ok : tx_ok demo_tx.
Proof. repeat split; try done; repeat constructor; done. Qed.

Definition demo_block : CBlock :=
  {| block_header := {| hdr_nVersion := 1; hdr_hashPrevBlock := uint256_null; hdr_hashMerkleRoot := uint256_null; hdr_nTime := 7; hdr_nBits := 8; hdr_nNonce := 9 |};
     vtx := [demo_tx] |}.

Lemma block_serialization_bijective_witness :
  exists w, Serialize (CBlock_codec demo_layout) demo_block = Ok w /\ Unserialize (CBlock_codec demo_layout) (w ++ [1; 2; 3]) = Ok (demo_block, [1; 2; 3]).
Proof.
  destruct (block_serialization_bijective demo_layout ltac:(repeat split; done) demo_block [] [1; 2; 3]) as (Hw & _ & _);
    [done | by repeat constructor |].
  apply Hw. repeat split; try done; repeat constructor; done.
Defined.
