(* ===== verification/Sighash.v ===== *)
(** * Signature hashes and the transaction signature checker

    [src/script/interpreter.cpp]: [CTransactionSignatureSerializer], [SignatureHash] and
    [TransactionSignatureChecker]. *)

From S2P Require Import Prelude Common BlockIndex IntSer BigInt ScriptNum Stack Script Hasher Sha2 Hash Flags SigEnc Interp Serialize Transaction.
#[local] Open Scope Z_scope.

(** ** The script being signed *)

(** Where a failing [GetOp2] leaves the position. *)

Definition GetOp2_failed (pc : list Z) : list Z :=
  match pc with
  | [] => []
  | opcode :: pc =>
      if opcode <? code OP_PUSHDATA1 then pc
      else if opcode =? code OP_PUSHDATA1 then tail pc
      else if opcode =? code OP_PUSHDATA2 then if script_size pc <? 2 then pc else drop 2 pc
      else if script_size pc <? 4 then pc else drop 4 pc
  end.

(** [while (scriptCode.GetOp(it, opcode)) if (opcode == OP_CODESEPARATOR) nCodeSeparators++]. *)

Fixpoint count_separators (fuel : nat) (it : list Z) (nCodeSeparators : Z) : Z :=
  match fuel, GetOp2 it with
  | S fuel, Some (opcode, _, it) =>
      count_separators fuel it (if opcode =? code OP_CODESEPARATOR then u32 (nCodeSeparators + 1) else nCodeSeparators)
  | _, _ => nCodeSeparators
  end.

(** The second pass: what is written between two positions, each given by the rest of the script. *)

Definition script_range (from to : list Z) (less : nat) : list Z := take (length from - length to - less) from.

Fixpoint copy_script (fuel : nat) (itBegin it : list Z) : list Z :=
  match fuel, GetOp2 it with
  | S fuel, Some (opcode, _, it) =>
      if opcode =? code OP_CODESEPARATOR then script_range itBegin it 1 ++ copy_script fuel it it
      else copy_script fuel itBegin it
  | _, _ => match itBegin with [] => [] | _ => script_range itBegin (GetOp2_failed it) 0 end
  end.

Definition SerializeScriptCode (scriptCode : list Z) : outcome ser_exn (list Z) :=
  let nCodeSeparators := count_separators (length scriptCode) scriptCode 0 in
  n ← WriteCompactSize (u64 (script_size scriptCode - nCodeSeparators));
  Ok (n ++ copy_script (length scriptCode) scriptCode scriptCode).

(** ** The modified transaction, serialized in place *)

Section serializer.
Context (l : layout) (txTo : CTransaction) (scriptCode : list Z) (nIn : Z) (sigHashType : Z).

Definition single_or_none : bool := (getBaseType sigHashType =? SIGHASH_SINGLE) || (getBaseType sigHashType =? SIGHASH_NONE).

Definition input_at (n : Z) : outcome ser_exn CTxIn := match vin txTo !! Z.to_nat n with Some i => Ok i | None => Abort end.

Definition SerializeInput (nInput : Z) : outcome ser_exn (list Z) :=
  let nInput := if hasAnyoneCanPay sigHashType then nIn else nInput in
  i ← input_at nInput;
  p ← Serialize COutPoint_codec (prevout i);
  s ← (if negb (nInput =? nIn) then Serialize bytes_codec [] else SerializeScriptCode scriptCode);
  q ← (if negb (nInput =? nIn) && single_or_none then Serialize int32_codec 0 else Serialize uint32_codec (nSequence i));
  Ok (p ++ s ++ q).

Definition SerializeOutput (nOutput : Z) : outcome ser_exn (list Z) :=
  if (getBaseType sigHashType =? SIGHASH_SINGLE) && negb (nOutput =? nIn) then Serialize (CTxOut_codec l) txout_null
  else match vout txTo !! Z.to_nat nOutput with Some o => Serialize (CTxOut_codec l) o | None => Abort end.

(** [for (unsigned int n = 0; n < count; n++) f(n)]. *)

Fixpoint write_range (f : Z -> outcome ser_exn (list Z)) (count : nat) (n : Z) : outcome ser_exn (list Z) :=
  match count with
  | O => Ok []
  | S count => b ← f n; bs ← write_range f count (n + 1); Ok (b ++ bs)
  end.

Definition SerializeSigned : outcome ser_exn (list Z) :=
  v ← Serialize int32_codec (tx_nVersion txTo);
  let nInputs := if hasAnyoneCanPay sigHashType then 1 else u32 (Z.of_nat (length (vin txTo))) in
  ni ← WriteCompactSize nInputs;
  i ← write_range SerializeInput (Z.to_nat nInputs) 0;
  let nOutputs :=
    if getBaseType sigHashType =? SIGHASH_NONE then 0
    else if getBaseType sigHashType =? SIGHASH_SINGLE then u32 (nIn + 1) else u32 (Z.of_nat (length (vout txTo))) in
  no ← WriteCompactSize nOutputs;
  o ← write_range SerializeOutput (Z.to_nat nOutputs) 0;
  t ← Serialize uint32_codec (tx_nLockTime txTo);
  Ok (v ++ ni ++ i ++ no ++ o ++ t).

End serializer.

(** ** Hashes over all inputs and outputs *)

Record PrecomputedTransactionData := { hashPrevouts : list Z; hashSequence : list Z; hashOutputs : list Z }.

Section hashes.
Context (l : layout).

Definition GetPrevoutHash (txTo : CTransaction) : outcome ser_exn (list Z) :=
  b ← write_items COutPoint_codec (map prevout (vin txTo)); Ok (GetHash [b]).

Definition GetSequenceHash (txTo : CTransaction) : outcome ser_exn (list Z) :=
  b ← write_items uint32_codec (map nSequence (vin txTo)); Ok (GetHash [b]).

Definition GetOutputsHash (txTo : CTransaction) : outcome ser_exn (list Z) :=
  b ← write_items (CTxOut_codec l) (vout txTo); Ok (GetHash [b]).

Definition new_PrecomputedTransactionData (txTo : CTransaction) : outcome ser_exn PrecomputedTransactionData :=
  p ← GetPrevoutHash txTo;
  s ← GetSequenceHash txTo;
  o ← GetOutputsHash txTo;
  Ok {| hashPrevouts := p; hashSequence := s; hashOutputs := o |}.

(** [uint256S("00...01")]. *)

Definition uint256_one : list Z := 1 :: replicate 31 0.

Definition SignatureHash (scriptCode : list Z) (txTo : CTransaction) (nIn sigHashType amount : Z)
    (cache : option PrecomputedTransactionData) (enabledSighashForkid : bool) : outcome ser_exn (list Z) :=
  let base := getBaseType sigHashType in
  if hasForkId sigHashType && enabledSighashForkid then
    hashPrevouts ← (if negb (hasAnyoneCanPay sigHashType)
                    then match cache with Some c => Ok (hashPrevouts c) | None => GetPrevoutHash txTo end else Ok uint256_null);
    hashSequence ← (if negb (hasAnyoneCanPay sigHashType) && negb (base =? SIGHASH_SINGLE) && negb (base =? SIGHASH_NONE)
                    then match cache with Some c => Ok (hashSequence c) | None => GetSequenceHash txTo end else Ok uint256_null);
    hashOutputs ← (if negb (base =? SIGHASH_SINGLE) && negb (base =? SIGHASH_NONE)
                   then match cache with Some c => Ok (hashOutputs c) | None => GetOutputsHash txTo end
                   else if (base =? SIGHASH_SINGLE) && (nIn <? Z.of_nat (length (vout txTo))) then
                     match vout txTo !! Z.to_nat nIn with Some o => SerializeHash (CTxOut_codec l) o | None => Abort end
                   else Ok uint256_null);
    v ← Serialize int32_codec (tx_nVersion txTo);
    i ← input_at txTo nIn;
    p ← Serialize COutPoint_codec (prevout i);
    s ← Serialize bytes_codec scriptCode;
    a ← Serialize int64_codec amount;
    q ← Serialize uint32_codec (nSequence i);
    t ← Serialize uint32_codec (tx_nLockTime txTo);
    h ← Serialize uint32_codec sigHashType;
    Ok (GetHash [v; hashPrevouts; hashSequence; p; s; a; q; hashOutputs; t; h])
  else if Z.of_nat (length (vin txTo)) <=? nIn then Ok uint256_one
  else if (base =? SIGHASH_SINGLE) && (Z.of_nat (length (vout txTo)) <=? nIn) then Ok uint256_one
  else
    b ← SerializeSigned l txTo scriptCode nIn sigHashType;
    h ← Serialize uint32_codec sigHashType;
    Ok (GetHash [b; h]).

End hashes.

(** ** [TransactionSignatureChecker] *)

Section checker.
Context `{BN_API} `{Secp256k1}.
Context (l : layout) (txTo : CTransaction) (nIn amount : Z) (txdata : option PrecomputedTransactionData).

Definition tx_CheckSig (vchSigIn vchPubKey scriptCode : list Z) (enabledSighashForkid : bool) : outcome ser_exn bool :=
  if negb (IsValid (new_CPubKey vchPubKey)) then Ok false
  else if bool_decide (vchSigIn = []) then Ok false
  else
    let sigHashType := GetHashType vchSigIn in
    let vchSig := removelast vchSigIn in
    sighash ← SignatureHash l scriptCode txTo nIn sigHashType amount txdata enabledSighashForkid;
    match Verify (new_CPubKey vchPubKey) sighash vchSig with Some b => Ok b | None => Abort end.

(** [b] is tested only when [a] holds. *)

Definition and_then (a b : outcome exn bool) : outcome exn bool := x ← a; if (x : bool) then b else Ok false.

Definition or_else (a b : outcome exn bool) : outcome exn bool := x ← a; if (x : bool) then Ok true else b.

Definition snum_ge (a b : CScriptNum) : outcome exn bool := x ← snum_lt a b; Ok (negb x).

Definition sequence_of : outcome exn Z := match vin txTo !! Z.to_nat nIn with Some i => Ok (nSequence i) | None => Abort end.

(** Both times are heights, or both are times of day. *)

Definition same_kind (txTime : Z) (time : CScriptNum) (threshold : Z) : outcome exn bool :=
  or_else (and_then (Ok (txTime <? threshold)) (snum_lt time (Small threshold)))
    (and_then (Ok (threshold <=? txTime)) (snum_ge time (Small threshold))).

Definition tx_CheckLockTime (nLockTime : CScriptNum) : outcome exn bool :=
  same ← same_kind (tx_nLockTime txTo) nLockTime LOCKTIME_THRESHOLD;
  if negb same then Ok false
  else
    later ← snum_lt (Small (tx_nLockTime txTo)) nLockTime;
    if (later : bool) then Ok false
    else
      seq ← sequence_of;
      Ok (negb (SEQUENCE_FINAL =? seq)).

Definition tx_CheckSequence (nSequence : CScriptNum) : outcome exn bool :=
  txToSequence ← sequence_of;
  if u32 (tx_nVersion txTo) <? 2 then Ok false
  else if negb (Z.land txToSequence SEQUENCE_LOCKTIME_DISABLE_FLAG =? 0) then Ok false
  else
    let nLockTimeMask := Z.lor SEQUENCE_LOCKTIME_TYPE_FLAG SEQUENCE_LOCKTIME_MASK in
    let txToSequenceMasked := Z.land txToSequence nLockTimeMask in
    nSequenceMasked ← snum_and_i64 nSequence nLockTimeMask;
    same ← same_kind txToSequenceMasked nSequenceMasked SEQUENCE_LOCKTIME_TYPE_FLAG;
    if negb same then Ok false
    else later ← snum_lt (Small txToSequenceMasked) nSequenceMasked; Ok (negb later).

End checker.

(** ** The signed script without its separators *)

Fixpoint parses (fuel : nat) (it : list Z) : bool :=
  match it, fuel with
  | [], _ => true
  | _, O => false
  | _, S fuel => match GetOp2 it with Some (_, _, it) => parses fuel it | None => false end
  end.

Definition well_formed (script : list Z) : bool := parses (length script) script.

Fixpoint strip_loop (fuel : nat) (it : list Z) : list Z :=
  match fuel, GetOp2 it with
  | S fuel, Some (opcode, _, it') =>
      (if opcode =? code OP_CODESEPARATOR then [] else take (length it - length it') it) ++ strip_loop fuel it'
  | _, _ => []
  end.

Definition strip_separators (script : list Z) : list Z := strip_loop (length script) script.

Lemma GetOp2_consumes it op d it' : GetOp2 it = Some (op, d, it') -> exists ins, it = ins ++ it' /\ ins <> [].
Proof.
  intros E. pose proof (GetOp2_length _ _ _ _ E) as Hl. apply GetOp2_suffix in E as (_ & n & m & k & -> & _).
  exists (take (S n) it). split; [by rewrite take_drop|]. destruct it; [cbn in Hl; lia | done].
Qed.

Lemma GetOp2_separator it d it' : GetOp2 it = Some (code OP_CODESEPARATOR, d, it') -> it = code OP_CODESEPARATOR :: it'.
Proof.
  intros E. pose proof (GetOp2_suffix _ _ _ _ E) as (Hh & _). destruct it as [|b it]; [done|]. cbn in Hh. injection Hh as ->.
  cbn in E. by injection E as <- <-.
Qed.

Lemma script_range_all s : script_range s [] 0 = s.
Proof. unfold script_range. cbn [length]. rewrite !Nat.sub_0_r. apply firstn_all. Qed.

Lemma copy_script_spec fuel pre it : parses fuel it = true -> copy_script fuel (pre ++ it) it = pre ++ strip_loop fuel it.
Proof.
  revert pre it. induction fuel as [|fuel IH]; intros pre it Hp.
  { destruct it; [|done]. cbn. rewrite !app_nil_r. destruct pre; [done | apply script_range_all]. }
  cbn [copy_script strip_loop parses] in *. destruct it as [|b it].
  { cbn. rewrite !app_nil_r. destruct pre; [done | apply script_range_all]. }
  destruct (GetOp2 (b :: it)) as [[[op d] it']|] eqn:E; [|done]. destruct (Z.eqb_spec op (code OP_CODESEPARATOR)) as [->|Hne].
  - apply GetOp2_separator in E as [= -> ->]. pose proof (IH [] it' Hp) as E0. cbn [app] in E0 |- *. rewrite E0. f_equal. unfold script_range.
    rewrite length_app. cbn [length]. replace (length pre + S (length it') - length it' - 1)%nat with (length pre) by lia. apply take_app_length.
  - apply GetOp2_consumes in E as (ins & E & _). rewrite E, app_assoc, IH by done. rewrite <- app_assoc. do 2 f_equal.
    rewrite length_app, Nat.add_sub. by rewrite take_app_length.
Qed.

Lemma count_separators_spec fuel it n : parses fuel it = true -> 0 <= n -> n + script_size it < 2 ^ 32 ->
  count_separators fuel it n = n + script_size it - script_size (strip_loop fuel it).
Proof.
  revert it n. induction fuel as [|fuel IH]; intros it n Hp Hn Hl.
  { destruct it; [|done]. cbn. unfold script_size. cbn. lia. }
  cbn [count_separators strip_loop parses] in *. destruct it as [|b it]; [cbn; unfold script_size; cbn; lia|].
  destruct (GetOp2 (b :: it)) as [[[op d] it']|] eqn:E; [|done]. destruct (Z.eqb_spec op (code OP_CODESEPARATOR)) as [->|Hne].
  - apply GetOp2_separator in E as [= -> ->]. unfold script_size in *. cbn [length app] in *. unfold u32. rewrite Z.mod_small by lia.
    rewrite IH by (done || lia). lia.
  - apply GetOp2_consumes in E as (ins & E & _). rewrite E in *. unfold script_size in *. rewrite length_app, Nat.add_sub, take_app_length in *.
    rewrite IH by (done || lia). rewrite length_app. lia.
Qed.

Lemma strip_loop_size fuel it : (length (strip_loop fuel it) <= length it)%nat.
Proof.
  revert it. induction fuel as [|fuel IH]; intros it; [cbn; lia|]. cbn [strip_loop].
  destruct (GetOp2 it) as [[[op d] it']|] eqn:E; [|cbn; lia]. apply GetOp2_consumes in E as (ins & -> & _). specialize (IH it').
  rewrite length_app. destruct (_ =? _); [cbn; rewrite length_app; lia|]. rewrite length_take, !length_app. lia.
Qed.

Lemma SerializeScriptCode_spec scriptCode : well_formed scriptCode = true -> script_size scriptCode < 2 ^ 32 ->
  SerializeScriptCode scriptCode = Serialize bytes_codec (strip_separators scriptCode).
Proof.
  intros Hw Hl. unfold SerializeScriptCode, strip_separators. cbn [bytes_codec Serialize].
  pose proof (copy_script_spec _ [] scriptCode Hw) as E0. cbn [app] in E0. rewrite E0, count_separators_spec by (done || lia).
  pose proof (strip_loop_size (length scriptCode) scriptCode). unfold script_size in *. unfold u64. rewrite Z.mod_small by lia.
  f_equal. f_equal. lia.
Qed.

(** ** The in-place serializer serializes a modified transaction *)

Section legacy.
Context (l : layout) (txTo : CTransaction) (scriptCode : list Z) (nIn : Z) (sigHashType : Z).

Definition signed_input (k : nat) (i : CTxIn) : CTxIn :=
  if Z.of_nat k =? nIn then {| prevout := prevout i; scriptSig := strip_separators scriptCode; nSequence := nSequence i |}
  else {| prevout := prevout i; scriptSig := []; nSequence := if single_or_none sigHashType then 0 else nSequence i |}.

(** The transaction a signature commits to. *)

Definition signed_tx : CTransaction :=
  {| tx_nVersion := tx_nVersion txTo;
     vin := if hasAnyoneCanPay sigHashType then map (signed_input (Z.to_nat nIn)) (option_list (vin txTo !! Z.to_nat nIn))
            else imap signed_input (vin txTo);
     vout := if getBaseType sigHashType =? SIGHASH_NONE then []
             else if getBaseType sigHashType =? SIGHASH_SINGLE then replicate (Z.to_nat nIn) txout_null ++ option_list (vout txTo !! Z.to_nat nIn)
             else vout txTo;
     tx_nLockTime := tx_nLockTime txTo |}.

Lemma write_range_items {A} (c : codec A) f L n :
  (forall k a, L !! k = Some a -> f (n + Z.of_nat k) = Serialize c a) -> write_range f (length L) n = write_items c L.
Proof.
  revert n. induction L as [|a L IH]; intros n Hf; [done|]. cbn [length write_range write_items].
  rewrite <- (Hf 0%nat a eq_refl), Z.add_0_r. destruct (f n); [cbn [mbind outcome_bind] | done..]. rewrite (IH (n + 1)); [done|].
  intros k a' Hk. rewrite <- (Hf (S k) a' Hk). f_equal. lia.
Qed.

Context (Hcode : well_formed scriptCode = true) (Hsize : script_size scriptCode < 2 ^ 32).

Lemma SerializeInput_spec k i : vin txTo !! (if hasAnyoneCanPay sigHashType then Z.to_nat nIn else k) = Some i -> 0 <= nIn ->
  SerializeInput txTo scriptCode nIn sigHashType (Z.of_nat k) =
  Serialize (CTxIn_codec l) (signed_input (if hasAnyoneCanPay sigHashType then Z.to_nat nIn else k) i).
Proof.
  intros Hi Hn. unfold SerializeInput, input_at, signed_input. rewrite SerializeScriptCode_spec by done.
  assert ((if hasAnyoneCanPay sigHashType then nIn else Z.of_nat k) = Z.of_nat (if hasAnyoneCanPay sigHashType then Z.to_nat nIn else k)) as ->
    by (destruct (hasAnyoneCanPay _); lia).
  set (j := if hasAnyoneCanPay _ then _ else k) in *. cbn zeta. rewrite Nat2Z.id, Hi. cbn [mbind outcome_bind].
  destruct (Z.of_nat j =? nIn); cbn [negb andb CTxIn_codec codec_class codec_seq Serialize prevout scriptSig nSequence fst snd].
  - destruct (Serialize COutPoint_codec _); [|done..]. cbn [mbind outcome_bind]. destruct (Serialize bytes_codec _); done.
  - destruct (Serialize COutPoint_codec _); [|done..]. cbn [mbind outcome_bind]. destruct (Serialize bytes_codec _); [|done..]. by destruct (single_or_none _).
Qed.

Lemma SerializeOutput_spec k o : (if getBaseType sigHashType =? SIGHASH_SINGLE then replicate (Z.to_nat nIn) txout_null ++ option_list (vout txTo !! Z.to_nat nIn)
    else vout txTo) !! k = Some o -> 0 <= nIn ->
  SerializeOutput l txTo nIn sigHashType (Z.of_nat k) = Serialize (CTxOut_codec l) o.
Proof.
  intros Ho Hn. unfold SerializeOutput. rewrite Nat2Z.id. destruct (getBaseType sigHashType =? SIGHASH_SINGLE); cbn [andb]; [|by rewrite Ho].
  destruct (decide (k < Z.to_nat nIn)%nat).
  - rewrite lookup_app_l, lookup_replicate_2 in Ho by (rewrite ?length_replicate; lia). injection Ho as <-.
    rewrite (proj2 (Z.eqb_neq _ _)) by lia. done.
  - rewrite lookup_app_r, length_replicate in Ho by (rewrite length_replicate; lia).
    destruct (vout txTo !! Z.to_nat nIn) as [o'|] eqn:E; [|done]. cbn in Ho. destruct (k - Z.to_nat nIn)%nat as [|j] eqn:Ek; [|done].
    injection Ho as <-. rewrite (proj2 (Z.eqb_eq _ _)) by lia. cbn [negb]. replace k with (Z.to_nat nIn) by lia. by rewrite E.
Qed.

Context (Hvin : Z.of_nat (length (vin txTo)) <= MAX_SIZE) (Hvout : Z.of_nat (length (vout txTo)) <= MAX_SIZE).
Context (Hin : 0 <= nIn < Z.of_nat (length (vin txTo))).
Context (Hsingle : getBaseType sigHashType = SIGHASH_SINGLE -> nIn < Z.of_nat (length (vout txTo))).

Lemma signed_inputs :
  let nInputs := if hasAnyoneCanPay sigHashType then 1 else u32 (Z.of_nat (length (vin txTo))) in
  nInputs = Z.of_nat (length (vin signed_tx)) /\
  write_range (SerializeInput txTo scriptCode nIn sigHashType) (Z.to_nat nInputs) 0 = write_items (CTxIn_codec l) (vin signed_tx).
Proof.
  cbn zeta. cbn [signed_tx vin]. unfold MAX_SIZE in *.
  assert ((if hasAnyoneCanPay sigHashType then 1 else u32 (Z.of_nat (length (vin txTo)))) =
    Z.of_nat (length (vin signed_tx))) as E.
  { cbn [signed_tx vin]. destruct (hasAnyoneCanPay _).
    - destruct (lookup_lt_is_Some_2 (vin txTo) (Z.to_nat nIn)) as [i Hi]; [lia|]. by rewrite Hi.
    - rewrite length_imap. unfold u32. by rewrite Z.mod_small by lia. }
  rewrite E, Nat2Z.id. cbn [signed_tx vin]. split; [done|]. apply write_range_items. intros k i. rewrite Z.add_0_l. intros Hk.
  pose proof (SerializeInput_spec k) as Hs. destruct (hasAnyoneCanPay sigHashType).
  - destruct (vin txTo !! Z.to_nat nIn) as [i'|]; [|done]. cbn in Hk. destruct k as [|k]; [|done]. injection Hk as <-. apply Hs; [done | lia].
  - rewrite list_lookup_imap in Hk. destruct (vin txTo !! k) as [i'|]; [|done]. cbn in Hk. injection Hk as <-. apply Hs; [done | lia].
Qed.

Lemma signed_outputs :
  let nOutputs := if getBaseType sigHashType =? SIGHASH_NONE then 0
    else if getBaseType sigHashType =? SIGHASH_SINGLE then u32 (nIn + 1) else u32 (Z.of_nat (length (vout txTo))) in
  nOutputs = Z.of_nat (length (vout signed_tx)) /\
  write_range (SerializeOutput l txTo nIn sigHashType) (Z.to_nat nOutputs) 0 = write_items (CTxOut_codec l) (vout signed_tx).
Proof.
  cbn zeta. cbn [signed_tx vout]. unfold MAX_SIZE, u32 in *. destruct (Z.eqb_spec (getBaseType sigHashType) SIGHASH_NONE); [done|].
  pose proof SerializeOutput_spec as Hs. destruct (Z.eqb_spec (getBaseType sigHashType) SIGHASH_SINGLE) as [E|E].
  - specialize (Hsingle E). destruct (lookup_lt_is_Some_2 (vout txTo) (Z.to_nat nIn)) as [o Ho]; [lia|]. rewrite Ho in *. change (option_list (Some o)) with [o] in *.
    assert (length (replicate (Z.to_nat nIn) txout_null ++ [o]) = Z.to_nat (nIn + 1)) as Hlen
      by (rewrite length_app, length_replicate; cbn; lia).
    rewrite Z.mod_small, Hlen by lia. split; [lia|]. rewrite <- Hlen. apply write_range_items. intros k o' Hk. rewrite Z.add_0_l. apply Hs; [done | lia].
  - rewrite Z.mod_small, Nat2Z.id by lia. split; [done|]. apply write_range_items. intros k o' Hk. rewrite Z.add_0_l. apply Hs; [done | lia].
Qed.

Lemma SerializeSigned_spec : SerializeSigned l txTo scriptCode nIn sigHashType = Serialize (CTransaction_codec l) signed_tx.
Proof.
  unfold SerializeSigned. destruct signed_inputs as [E1 W1], signed_outputs as [E2 W2]. cbn zeta in *. rewrite W1, W2, E1, E2.
  cbn [CTransaction_codec codec_class codec_seq vector_codec Serialize fst snd int32_codec uint32_codec mbind outcome_bind].
  change (tx_nVersion signed_tx) with (tx_nVersion txTo). change (tx_nLockTime signed_tx) with (tx_nLockTime txTo).
  destruct (WriteCompactSize (Z.of_nat (length (vin _)))); [cbn [mbind outcome_bind] | done..]. destruct (write_items _ (vin _)); [cbn [mbind outcome_bind] | done..].
  destruct (WriteCompactSize (Z.of_nat (length (vout _)))); [cbn [mbind outcome_bind] | done..]. destruct (write_items _ (vout _)); [cbn [mbind outcome_bind] | done..].
  by rewrite <- !app_assoc.
Qed.

End legacy.

(** ** What a signature hash commits to *)

Lemma SignatureHash_cache l scriptCode txTo nIn sigHashType amount forkid d : new_PrecomputedTransactionData l txTo = Ok d ->
  SignatureHash l scriptCode txTo nIn sigHashType amount (Some d) forkid = SignatureHash l scriptCode txTo nIn sigHashType amount None forkid.
Proof.
  unfold new_PrecomputedTransactionData, SignatureHash. intros E.
  destruct (GetPrevoutHash txTo) as [p| |]; [|done..]. destruct (GetSequenceHash txTo) as [s| |]; [|done..].
  destruct (GetOutputsHash l txTo) as [o| |]; [|done..]. injection E as <-. done.
Qed.

Lemma strip_separators_bytes script : bytes script -> bytes (strip_separators script).
Proof.
  unfold strip_separators. generalize (length script). intros fuel. revert script. induction fuel as [|fuel IH]; intros it Hit; [constructor|].
  cbn [strip_loop]. destruct (GetOp2 it) as [[[op d] it']|] eqn:E; [|constructor]. apply GetOp2_consumes in E as (ins & E & _).
  apply Forall_app. split; [destruct (_ =? _); [constructor | by apply Forall_take]|].
  apply IH. rewrite E in Hit. by apply Forall_app in Hit as [_ ?].
Qed.

Section commitment.
Context (l : layout) (Hl : layout_ok l) (txTo : CTransaction) (scriptCode : list Z) (nIn sigHashType : Z).
Context (Htx : tx_ok txTo) (Hcode : is_bytes scriptCode).

Lemma signed_input_ok k i : txin_ok i -> txin_ok (signed_input scriptCode nIn sigHashType k i).
Proof.
  intros (Hp & Hs & Hn). unfold signed_input. destruct (_ =? _).
  - split; [done|]. split; [|done]. destruct Hcode as [Hb Hz]. split; [by apply strip_separators_bytes|].
    pose proof (strip_loop_size (length scriptCode) scriptCode). cbn [scriptSig]. unfold strip_separators. lia.
  - split; [done|]. cbn. split; [split; [constructor | unfold MAX_SIZE; cbn; lia]|]. destruct (single_or_none _); [lia | done].
Qed.

Lemma signed_tx_ok : 0 <= nIn < 2 ^ 32 - 1 -> tx_ok (signed_tx txTo scriptCode nIn sigHashType).
Proof.
  destruct Htx as (Hv & [Hi Li] & [Ho Lo] & Ht). intros Hn. unfold MAX_SIZE in *.
  split; [done|]. split; [|split; [|done]]; cbn [signed_tx vin vout].
  - destruct (hasAnyoneCanPay _); [|split; [|by rewrite length_imap]].
    + destruct (vin txTo !! Z.to_nat nIn) as [i|] eqn:E; cbn; [|split; [constructor | unfold MAX_SIZE; lia]]. split; [|unfold MAX_SIZE; lia].
      apply Forall_singleton, signed_input_ok. by eapply Forall_lookup_1.
    + apply Forall_lookup. intros k i Hk. rewrite list_lookup_imap in Hk. destruct (vin txTo !! k) as [i'|] eqn:E; [|done].
      injection Hk as <-. apply signed_input_ok. by eapply Forall_lookup_1.
  - destruct (_ =? SIGHASH_NONE); [split; [constructor | unfold MAX_SIZE; cbn; lia]|]. destruct (_ =? SIGHASH_SINGLE); [|done].
    split; [|rewrite length_app, length_replicate; destruct (vout txTo !! _); unfold MAX_SIZE; cbn; lia].
    apply Forall_app. split.
    + apply Forall_replicate. split; [unfold is_int64; cbn; lia | split; [constructor | unfold MAX_SIZE; cbn; lia]].
    + destruct (vout txTo !! _) as [o|] eqn:E; cbn; [|constructor]. apply Forall_singleton. by eapply Forall_lookup_1.
Qed.

(** C20. The signature hash without fork id: for an input that exists the digest is the double SHA-256 of the
    serialization of a transaction, the spending one with the other inputs' scripts blanked, the signed
    script without its code separators in place, and the inputs and outputs the hash type leaves out
    removed, followed by the hash type; that preimage decodes back to exactly this transaction and type,
    so the signature commits to all of it.  An input out of range, or SIGHASH_SINGLE without a
    matching output, is hashed as the number one.  Precomputed hashes never change a digest. *)
Theorem SignatureHash_commits amount cache :
  well_formed scriptCode = true -> 0 <= nIn < 2 ^ 32 - 1 -> 0 <= sigHashType < 2 ^ 32 ->
  (forall d forkid, new_PrecomputedTransactionData l txTo = Ok d ->
     SignatureHash l scriptCode txTo nIn sigHashType amount (Some d) forkid = SignatureHash l scriptCode txTo nIn sigHashType amount None forkid) /\
  let signed := (signed_tx txTo scriptCode nIn sigHashType, sigHashType) in
  let c := codec_seq (CTransaction_codec l) uint32_codec in
  if (Z.of_nat (length (vin txTo)) <=? nIn) || ((getBaseType sigHashType =? SIGHASH_SINGLE) && (Z.of_nat (length (vout txTo)) <=? nIn))
  then SignatureHash l scriptCode txTo nIn sigHashType amount cache false = Ok uint256_one
  else exists m, Serialize c signed = Ok m /\ Unserialize c m = Ok (signed, []) /\
    (Z.of_nat (length m) < 2 ^ 61 ->
     SignatureHash l scriptCode txTo nIn sigHashType amount cache false = Ok (fips_sha256 (fips_sha256 m))).
Proof.
  intros Hw Hn Hs. split; [intros d forkid; apply SignatureHash_cache|]. cbn zeta.
  unfold SignatureHash. rewrite andb_false_r. destruct (Z.leb_spec (Z.of_nat (length (vin txTo))) nIn) as [|Hin]; [done|]. cbn [orb].
  destruct ((getBaseType sigHashType =? SIGHASH_SINGLE) && _) eqn:E1; [done|].
  pose proof (codec_seq_ok _ _ _ _ (CTransaction_codec_ok l Hl) uint32_codec_ok) as Hc.
  destruct (codec_write (signed_tx txTo scriptCode nIn sigHashType, sigHashType)) as (m & W & _ & _ & R).
  { split; [by apply signed_tx_ok | done]. }
  exists m. split; [done|]. split; [rewrite <- (app_nil_r m) at 1; apply R; constructor|]. intros Hm.
  destruct Htx as (_ & [_ Li] & [_ Lo] & _). destruct Hcode as [_ Lc]. unfold MAX_SIZE in *.
  rewrite SerializeSigned_spec; [|done | unfold script_size; lia | done | done | lia |].
  2:{ intros E. rewrite E, Z.eqb_refl in E1. cbn in E1. by apply Z.leb_gt in E1. }
  cbn [codec_seq Serialize fst snd uint32_codec] in W |- *. destruct (Serialize (CTransaction_codec l) _) as [b| |]; [|done..].
  cbn [mbind outcome_bind] in *. injection W as <-. unfold GetHash. rewrite CHash256_spec; [|cbn [concat]; by rewrite app_nil_r]. cbn [concat]. by rewrite app_nil_r.
Qed.

End commitment.

(** ** Lock times *)

Section lock_times.
Context `{BN_API} `{Secp256k1}.
Context (txTo : CTransaction) (nIn : Z) (input : CTxIn).

(** The lock time of the transaction is of the same kind and not before [n], and the input is not final. *)

Definition locktime_reached (n : Z) : bool :=
  eqb (tx_nLockTime txTo <? LOCKTIME_THRESHOLD) (n <? LOCKTIME_THRESHOLD) && (n <=? tx_nLockTime txTo) &&
  negb (nSequence input =? SEQUENCE_FINAL).

(** A sequence number as a relative lock time: its kind and value. *)

Definition relative_lock (n : Z) : Z := Z.land n (Z.lor SEQUENCE_LOCKTIME_TYPE_FLAG SEQUENCE_LOCKTIME_MASK).

Definition sequence_reached (n : Z) : bool :=
  (2 <=? u32 (tx_nVersion txTo)) && negb (Z.testbit (nSequence input) 31) &&
  eqb (Z.testbit (nSequence input) 22) (Z.testbit n 22) && (relative_lock n <=? relative_lock (nSequence input)).

Lemma same_kind_spec t n threshold : same_kind t (Small n) threshold = Ok (eqb (t <? threshold) (n <? threshold)).
Proof.
  unfold same_kind, and_then, or_else, snum_ge. cbn. rewrite Z.leb_antisym. destruct (t <? threshold), (n <? threshold); done.
Qed.

Context (Hi : vin txTo !! Z.to_nat nIn = Some input).

Lemma tx_CheckLockTime_spec n : tx_CheckLockTime txTo nIn (Small n) = Ok (locktime_reached n).
Proof.
  unfold tx_CheckLockTime, locktime_reached, sequence_of. rewrite same_kind_spec, Hi. cbn [mbind outcome_bind snum_lt]. rewrite Z.leb_antisym.
  destruct (eqb _ _); [cbn [negb andb] | done]. destruct (_ <? n); [done|]. cbn. by rewrite Z.eqb_sym.
Qed.

Lemma relative_lock_bit n : (relative_lock n <? SEQUENCE_LOCKTIME_TYPE_FLAG) = negb (Z.testbit n 22).
Proof.
  assert (0 <= relative_lock n < 2 ^ 23) as Hr.
  { unfold relative_lock. split; [apply Z.land_nonneg; right; done|].
    replace (Z.land n _) with (Z.land (n mod 2 ^ 23) (Z.lor SEQUENCE_LOCKTIME_TYPE_FLAG SEQUENCE_LOCKTIME_MASK)).
    - apply land_range; [lia | apply Z.mod_pos_bound; lia | vm_compute; split; congruence].
    - rewrite <- Z.land_ones by lia. rewrite <- Z.land_assoc. done. }
  pose proof (testbit_top (relative_lock n) 22 ltac:(lia) Hr) as Ht. unfold relative_lock in Ht at 1. rewrite Z.land_spec in Ht.
  change (Z.testbit (Z.lor _ _) 22) with true in Ht. rewrite andb_true_r in Ht. unfold SEQUENCE_LOCKTIME_TYPE_FLAG. rewrite Ht, Z.ltb_antisym. done.
Qed.

Lemma tx_CheckSequence_spec n : 0 <= nSequence input -> tx_CheckSequence txTo nIn (Small n) = Ok (sequence_reached n).
Proof.
  intros Hs. unfold tx_CheckSequence, sequence_reached, sequence_of. rewrite Hi. cbn [mbind outcome_bind snum_and_i64].
  rewrite (Z.leb_antisym _ 2). destruct (_ <? 2); [done|]. cbn [negb andb].
  change SEQUENCE_LOCKTIME_DISABLE_FLAG with (Z.shiftl 1 31). rewrite land_bit by lia. rewrite negb_involutive.
  destruct (Z.testbit (nSequence input) 31); [done|]. cbn [negb andb]. cbn zeta. rewrite same_kind_spec. cbn [mbind outcome_bind].
  fold (relative_lock (nSequence input)) (relative_lock n). rewrite !relative_lock_bit.
  replace (eqb (negb _) (negb _)) with (eqb (Z.testbit (nSequence input) 22) (Z.testbit n 22)) by (by destruct (Z.testbit _ 22), (Z.testbit _ 22)).
  destruct (eqb _ _); [cbn [negb andb] | done]. cbn. by rewrite Z.leb_antisym.
Qed.

End lock_times.

Lemma SignatureHash_commits_witness :
  exists m, Unserialize (codec_seq (CTransaction_codec demo_layout) uint32_codec) m = Ok ((signed_tx demo_tx [0x51; 0xab; 0xac] 0 SIGHASH_ALL, SIGHASH_ALL), []) /\
    SignatureHash demo_layout [0x51; 0xab; 0xac] demo_tx 0 SIGHASH_ALL 5 None false = Ok (fips_sha256 (fips_sha256 m)).
Proof.
  destruct (SignatureHash_commits demo_layout ltac:(repeat split; done) demo_tx [0x51; 0xab; 0xac] 0 SIGHASH_ALL demo_tx_ok
    ltac:(split; [by repeat constructor | done]) 5 None ltac:(vm_compute; reflexivity) ltac:(done) ltac:(done)) as [_ Hw].
  cbn zeta in Hw.
  assert ((Z.of_nat (length (vin demo_tx)) <=? 0) || ((getBaseType SIGHASH_ALL =? SIGHASH_SINGLE) && (Z.of_nat (length (vout demo_tx)) <=? 0)) = false) as E
    by (vm_compute; reflexivity).
  rewrite E in Hw. destruct Hw as (m & W & R & D). exists m. split; [done|]. apply D. vm_compute in W. injection W as <-. done.
Defined.
