(* ===== verification/TxVerify.v ===== *)
(** * Verifying an input of a transaction

    [VerifyScript] with [TransactionSignatureChecker]: the checker always decides, and the whole is the
    abstract verifier with the lock time rules of BIP 65 and BIP 112. *)

From S2P Require Import Prelude Common BlockIndex IntSer BigInt ScriptNum Stack Script Hasher Sha2 Ripemd160 Sha1 Hash Flags SigEnc Interp Serialize Transaction Sighash ScriptSpec Simulation EvalRef VerifyRef.
#[local] Open Scope Z_scope.

Section input.
Context `{BN_Total} `{Secp256k1}.
Context (l : layout) (txTo : CTransaction) (nIn amount : Z) (txdata : option PrecomputedTransactionData).

(** The checker as the interpreter calls it; [tx_CheckSig_total] shows that the last case does not arise. *)

Definition TransactionSignatureChecker : BaseSignatureChecker :=
  {| CheckSig vchSig vchPubKey scriptCode forkid :=
       match tx_CheckSig l txTo nIn amount txdata vchSig vchPubKey scriptCode forkid with Ok b => b | _ => false end;
     CheckLockTime := tx_CheckLockTime txTo nIn;
     CheckSequence := tx_CheckSequence txTo nIn |}.

Context (Htx : tx_ok txTo) (Hin : 0 <= nIn < Z.of_nat (length (vin txTo))).
Context (Hcache : txdata = None \/ exists d, new_PrecomputedTransactionData l txTo = Ok d /\ txdata = Some d).

(** ** The checker always decides *)

Lemma write_range_total f count n : (forall k, (k < count)%nat -> exists b, f (n + Z.of_nat k) = Ok b) ->
  exists b, write_range f count n = Ok b.
Proof.
  revert n. induction count as [|count IH]; intros n Hf; [by eexists|]. cbn [write_range].
  destruct (Hf 0%nat) as [b Eb]; [lia|]. rewrite Z.add_0_r in Eb. rewrite Eb. cbn.
  destruct (IH (n + 1)) as [bs ->]; [|by eexists]. intros k Hk. destruct (Hf (S k)) as [b' Eb']; [lia|]. exists b'. rewrite <- Eb'. f_equal. lia.
Qed.

Lemma count_separators_bound fuel it n : 0 <= n -> n + script_size it < 2 ^ 32 -> 0 <= count_separators fuel it n <= n + script_size it.
Proof.
  revert it n. induction fuel as [|fuel IH]; intros it n Hn Hs; cbn [count_separators]; [unfold script_size; lia|].
  destruct (GetOp2 it) as [[[op d] it']|] eqn:E; [|unfold script_size; lia]. apply GetOp2_length in E. unfold script_size in *.
  assert (u32 (n + 1) = n + 1) as Eu by (unfold u32; apply Z.mod_small; lia).
  destruct (_ =? _); [rewrite Eu; pose proof (IH it' (n + 1) ltac:(lia) ltac:(lia)) | pose proof (IH it' n ltac:(lia) ltac:(lia))]; lia.
Qed.

Lemma SerializeScriptCode_total scriptCode : is_bytes scriptCode -> exists b, SerializeScriptCode scriptCode = Ok b.
Proof.
  intros [Hb Hs]. unfold SerializeScriptCode, MAX_SIZE in *. cbn zeta.
  pose proof (count_separators_bound (length scriptCode) scriptCode 0 ltac:(lia) ltac:(unfold script_size; lia)) as Hc. unfold script_size in *.
  destruct (WriteCompactSize_spec (u64 (Z.of_nat (length scriptCode) - count_separators (length scriptCode) scriptCode 0))) as (b & -> & _).
  { unfold u64, MAX_SIZE. rewrite Z.mod_small; lia. }
  by eexists.
Qed.

Lemma input_exists : exists i, vin txTo !! Z.to_nat nIn = Some i /\ txin_ok i.
Proof.
  destruct (lookup_lt_is_Some_2 (vin txTo) (Z.to_nat nIn)) as [i Hi]; [lia|]. exists i. split; [done|].
  destruct Htx as (_ & [Hf _] & _). by eapply Forall_lookup_1.
Qed.

Lemma codec_total {A} (c : codec A) P (Hc : codec_ok c P) a : P a -> exists b, Serialize c a = Ok b.
Proof. intros Ha. destruct (codec_write a Ha) as (b & E & _). by exists b. Qed.

Lemma items_total {A} (c : codec A) P (Hc : codec_ok c P) v : Forall P v -> exists b, write_items c v = Ok b.
Proof. intros Hv. destruct (write_items_spec c P Hc v Hv) as (b & E & _). by exists b. Qed.

Lemma SerializeInput_total scriptCode sigHashType k : is_bytes scriptCode -> (k < length (vin txTo))%nat ->
  exists b, SerializeInput txTo scriptCode nIn sigHashType (Z.of_nat k) = Ok b.
Proof.
  intros Hc Hk. unfold SerializeInput, input_at. cbn zeta. set (n := if hasAnyoneCanPay sigHashType then nIn else Z.of_nat k).
  destruct (lookup_lt_is_Some_2 (vin txTo) (Z.to_nat n)) as [i Hi]; [unfold n; destruct (hasAnyoneCanPay _); lia|]. rewrite Hi. cbn [mbind outcome_bind].
  destruct (SerializeScriptCode_total scriptCode Hc) as [s ->]. destruct (negb _), (single_or_none _); cbn; by eexists.
Qed.

Lemma SerializeOutput_total sigHashType k : (k < length (vout txTo))%nat \/ (getBaseType sigHashType = SIGHASH_SINGLE /\ Z.of_nat k <> nIn) ->
  exists b, SerializeOutput l txTo nIn sigHashType (Z.of_nat k) = Ok b.
Proof.
  intros Hk. unfold SerializeOutput. rewrite Nat2Z.id. destruct (_ && _) eqn:E; [by eexists|].
  destruct Hk as [Hk|[Hs Hk]]; [|by rewrite Hs, Z.eqb_refl, (proj2 (Z.eqb_neq _ _)) in E].
  destruct (lookup_lt_is_Some_2 (vout txTo) k Hk) as [o Ho]. rewrite Ho. destruct Htx as (_ & _ & [Hf _] & _).
  eapply codec_total; [apply _ | by eapply Forall_lookup_1].
Qed.

Lemma SerializeSigned_total scriptCode sigHashType : is_bytes scriptCode ->
  (getBaseType sigHashType = SIGHASH_SINGLE -> nIn < Z.of_nat (length (vout txTo))) ->
  exists b, SerializeSigned l txTo scriptCode nIn sigHashType = Ok b.
Proof.
  intros Hc Hs. destruct Htx as (_ & [_ Li] & [_ Lo] & _). unfold SerializeSigned, MAX_SIZE in *. cbn [Serialize int32_codec uint32_codec mbind outcome_bind]. cbn zeta.
  set (ni := if hasAnyoneCanPay sigHashType then 1 else u32 _). assert (0 <= ni <= Z.of_nat (length (vin txTo))) as Hni.
  { unfold ni. destruct (hasAnyoneCanPay _); [lia|]. unfold u32. rewrite Z.mod_small by lia. lia. }
  destruct (WriteCompactSize_spec ni) as (b1 & -> & _); [unfold MAX_SIZE; lia|]. cbn [mbind outcome_bind].
  destruct (write_range_total (SerializeInput txTo scriptCode nIn sigHashType) (Z.to_nat ni) 0) as [b2 ->].
  { intros k Hk. rewrite Z.add_0_l. apply SerializeInput_total; [done | lia]. }
  cbn [mbind outcome_bind]. set (no := if getBaseType sigHashType =? SIGHASH_NONE then 0 else _).
  assert (0 <= no < 2 ^ 32 /\ (no <= Z.of_nat (length (vout txTo)))) as [Hno Hno'].
  { unfold no, u32. destruct (_ =? SIGHASH_NONE); [lia|]. destruct (Z.eqb_spec (getBaseType sigHashType) SIGHASH_SINGLE) as [E|]; [specialize (Hs E)|]; rewrite Z.mod_small; lia. }
  destruct (WriteCompactSize_spec no) as (b3 & -> & _); [unfold MAX_SIZE; lia|]. cbn [mbind outcome_bind].
  destruct (write_range_total (SerializeOutput l txTo nIn sigHashType) (Z.to_nat no) 0) as [b4 ->]; [|by eexists].
  intros k Hk. rewrite Z.add_0_l. apply SerializeOutput_total. left. lia.
Qed.

Lemma SignatureHash_uncached scriptCode sigHashType forkid :
  SignatureHash l scriptCode txTo nIn sigHashType amount txdata forkid = SignatureHash l scriptCode txTo nIn sigHashType amount None forkid.
Proof. destruct Hcache as [->|(d & E & ->)]; [done | by apply SignatureHash_cache]. Qed.

Lemma SignatureHash_total scriptCode sigHashType forkid : is_bytes scriptCode ->
  exists h, SignatureHash l scriptCode txTo nIn sigHashType amount txdata forkid = Ok h.
Proof.
  intros Hc. rewrite SignatureHash_uncached. destruct input_exists as (i & Hi & Hp & _ & _).
  pose proof Htx as (_ & [Hf Li] & [Ho Lo] & _). unfold SignatureHash. destruct (_ && _).
  - assert (exists b, write_items COutPoint_codec (map prevout (vin txTo)) = Ok b) as [b1 E1].
    { apply (items_total _ outpoint_ok _). apply Forall_map. eapply Forall_impl; [|exact Hf]. by intros ? (? & _ & _). }
    assert (exists b, write_items uint32_codec (map nSequence (vin txTo)) = Ok b) as [b2 E2].
    { apply (items_total _ _ uint32_codec_ok). apply Forall_map. eapply Forall_impl; [|exact Hf]. by intros ? (_ & _ & ?). }
    destruct (items_total (CTxOut_codec l) _ _ (vout txTo) Ho) as [b3 E3].
    unfold GetPrevoutHash, GetSequenceHash, GetOutputsHash. rewrite E1, E2, E3. cbn zeta.
    unfold input_at. rewrite Hi. destruct (codec_total bytes_codec _ _ scriptCode Hc) as [b4 E4].
    rewrite E4. cbn [Serialize int32_codec int64_codec uint32_codec COutPoint_codec codec_class codec_seq uint256_codec fst snd].
    destruct (negb (hasAnyoneCanPay _)), (getBaseType sigHashType =? SIGHASH_SINGLE), (getBaseType sigHashType =? SIGHASH_NONE);
      cbn [negb andb mbind outcome_bind]; try by eexists.
    all: destruct (Z.ltb_spec nIn (Z.of_nat (length (vout txTo)))) as [Hlt|]; [|by eexists].
    all: destruct (lookup_lt_is_Some_2 (vout txTo) (Z.to_nat nIn)) as [o Eo]; [lia|]; rewrite Eo.
    all: destruct (codec_total (CTxOut_codec l) _ _ o ltac:(by eapply Forall_lookup_1)) as [bo Ebo]; unfold SerializeHash; rewrite Ebo; by eexists.
  - destruct (_ <=? nIn); [by eexists|]. destruct (_ && _) eqn:E; [by eexists|].
    destruct (SerializeSigned_total scriptCode sigHashType Hc) as [b ->]; [|by eexists].
    intros Es. rewrite Es, Z.eqb_refl in E. by apply Z.leb_gt in E.
Qed.

Lemma Verify_total key h vchSig : bytes vchSig -> exists b, Verify key h vchSig = Some b.
Proof.
  intros Hs. unfold Verify. destruct (negb _); [by eexists|]. destruct (ec_pubkey_parse _); [|by eexists]. destruct (_ =? 0)%nat; [by eexists|].
  unfold ecdsa_signature_parse_der_lax. destruct (parse_der_lax_total vchSig Hs) as [p ->]. cbn zeta.
  destruct p as [[c|]|]; cbn [mbind option_bind].
  - destruct (ecdsa_signature_parse_compact c) as [ok s0]. cbn [mbind option_bind]. destruct (ecdsa_signature_normalize _). by eexists.
  - destruct (ecdsa_signature_normalize _). by eexists.
  - by eexists.
Qed.

Lemma tx_CheckSig_total vchSig vchPubKey scriptCode forkid : bytes vchSig -> is_bytes scriptCode ->
  exists b, tx_CheckSig l txTo nIn amount txdata vchSig vchPubKey scriptCode forkid = Ok b.
Proof.
  intros Hs Hc. unfold tx_CheckSig. destruct (negb _); [by eexists|]. destruct (bool_decide _); [by eexists|]. cbn zeta.
  destruct (SignatureHash_total scriptCode (GetHashType vchSig) forkid Hc) as [h ->]. cbn [mbind outcome_bind].
  destruct (Verify_total (new_CPubKey vchPubKey) h (removelast vchSig)) as [b ->]; [|by eexists].
  rewrite removelast_firstn_len. by apply Forall_take.
Qed.

(** ** Whole inputs *)

Context (config : CScriptConfig) (consensus : bool) (token : nat -> bool).

Lemma tx_env flags input : vin txTo !! Z.to_nat nIn = Some input ->
  (utxo_after_genesis flags = false -> maxScriptNumLength config consensus flags <= 4) ->
  eval_env config consensus flags TransactionSignatureChecker (locktime_reached txTo input) (sequence_reached txTo input).
Proof.
  intros Hi Hn. split; [done | |]; intros n _.
  - by apply tx_CheckLockTime_spec.
  - apply tx_CheckSequence_spec; [done|]. destruct Htx as (_ & [Hf _] & _). pose proof (Forall_lookup_1 _ _ _ _ Hf Hi) as (_ & _ & ?). lia.
Qed.


End input.

