(* ===== verification/Merkle.v ===== *)
(** * Merkle trees

    [src/consensus/merkle.cpp]: the constant-space computation of the root and of the branch of a leaf. *)

From S2P Require Import Prelude Common BlockIndex Script Hasher Sha2 Hash Serialize Transaction.
#[local] Open Scope Z_scope.

(** [CHash256().Write(a, 32).Write(b, 32).Finalize(h)]. *)

Definition hash_pair (a b : list Z) : list Z := (CHash256_Finalize (CHash256_Write (CHash256_Write sha256.new_CSHA256 a) b)).1.

(** The variables of the loops.  [branch] is [None] when [pbranch] is null; [inner] has 32 entries, and an
    access outside it, like a shift by 32, has no defined result. *)

Record merkle_state := {
  mk_inner : list (list Z);
  mk_mutated : bool;
  mk_matchlevel : Z;
  mk_branch : option (list (list Z))
}.

Definition push_branch (b : option (list (list Z))) (x : list Z) : option (list (list Z)) :=
  match b with Some l => Some (l ++ [x]) | None => None end.

(** What a level adds to the branch: the left sibling if the matching leaf is below [h], [h] if it is on the
    left.  Nothing happens without a branch. *)

Definition match_step (st : merkle_state) (level : nat) (x h : list Z) (matchh : bool) : option (list (list Z)) * bool :=
  match mk_branch st with
  | None => (None, matchh)
  | Some b =>
      if matchh then (Some (b ++ [x]), true)
      else if mk_matchlevel st =? Z.of_nat level then (Some (b ++ [h]), true)
      else (Some b, false)
  end.

(** [for (level = 0; !(count & (1 << level)); level++)], then the result is stored. *)

Fixpoint add_leaf (fuel : nat) (count : Z) (level : nat) (h : list Z) (matchh : bool) (st : merkle_state) : option merkle_state :=
  match fuel with
  | O => None
  | S fuel =>
      if negb (Z.land count (Z.shiftl 1 (Z.of_nat level)) =? 0) then
        Some {| mk_inner := <[level := h]> (mk_inner st); mk_mutated := mk_mutated st;
                mk_matchlevel := if matchh then Z.of_nat level else mk_matchlevel st; mk_branch := mk_branch st |}
      else
        match mk_inner st !! level with
        | None => None
        | Some x =>
            let '(branch, matchh) := match_step st level x h matchh in
            add_leaf fuel count (S level) (hash_pair x h) matchh
              {| mk_inner := mk_inner st; mk_mutated := mk_mutated st || bool_decide (x = h);
                 mk_matchlevel := mk_matchlevel st; mk_branch := branch |}
        end
  end.

(** [while (count < leaves.size())]. *)

Fixpoint add_leaves (leaves : list (list Z)) (count branchpos : Z) (st : merkle_state) : option (Z * merkle_state) :=
  match leaves with
  | [] => Some (count, st)
  | h :: leaves =>
      let matchh := count =? branchpos in
      let count := u32 (count + 1) in
      st ← add_leaf 32 count 0 h matchh st;
      add_leaves leaves count branchpos st
  end.

(** [while (!(count & (1 << level))) level++]. *)

Fixpoint lowest_bit (fuel : nat) (count : Z) (level : nat) : option nat :=
  match fuel with
  | O => None
  | S fuel => if negb (Z.land count (Z.shiftl 1 (Z.of_nat level)) =? 0) then Some level else lowest_bit fuel count (S level)
  end.

(** [while (!(count & (1 << level)))] of the sweep: the result is propagated upwards. *)

Fixpoint sweep_up (fuel : nat) (count : Z) (level : nat) (h : list Z) (matchh : bool) (st : merkle_state)
    : option (nat * list Z * bool * merkle_state) :=
  match fuel with
  | O => None
  | S fuel =>
      if negb (Z.land count (Z.shiftl 1 (Z.of_nat level)) =? 0) then Some (level, h, matchh, st)
      else
        match mk_inner st !! level with
        | None => None
        | Some x =>
            let '(branch, matchh) := match_step st level x h matchh in
            sweep_up fuel count (S level) (hash_pair x h) matchh
              {| mk_inner := mk_inner st; mk_mutated := mk_mutated st; mk_matchlevel := mk_matchlevel st; mk_branch := branch |}
        end
  end.

(** [while (count != (1 << level))]. *)

Fixpoint sweep (fuel : nat) (count : Z) (level : nat) (h : list Z) (matchh : bool) (st : merkle_state)
    : option (list Z * merkle_state) :=
  if count =? u32 (Z.shiftl 1 (Z.of_nat level)) then Some (h, st)
  else
    match fuel with
    | O => None
    | S fuel =>
        let st := {| mk_inner := mk_inner st; mk_mutated := mk_mutated st; mk_matchlevel := mk_matchlevel st;
                     mk_branch := if matchh then push_branch (mk_branch st) h else mk_branch st |} in
        let h := hash_pair h h in
        let count := u32 (count + u32 (Z.shiftl 1 (Z.of_nat level))) in
        '(level, h, matchh, st) ← sweep_up 32 count (S level) h matchh st;
        sweep fuel count level h matchh st
    end.

(** The root, the mutation flag and the branch. *)

Definition MerkleComputation (leaves : list (list Z)) (branchpos : Z) (with_branch : bool)
    : option (list Z * bool * option (list (list Z))) :=
  let pbranch := if with_branch then Some [] else None in
  match leaves with
  | [] => Some (uint256_null, false, pbranch)
  | _ =>
      let st := {| mk_inner := replicate 32 uint256_null; mk_mutated := false; mk_matchlevel := -1; mk_branch := pbranch |} in
      '(count, st) ← add_leaves leaves 0 branchpos st;
      level ← lowest_bit 32 count 0;
      h ← mk_inner st !! level;
      '(h, st) ← sweep 32 count level h (mk_matchlevel st =? Z.of_nat level) st;
      Some (h, mk_mutated st, mk_branch st)
  end.

Definition ComputeMerkleRoot (leaves : list (list Z)) : option (list Z * bool) :=
  '(h, mutated, _) ← MerkleComputation leaves (2 ^ 32 - 1) false; Some (h, mutated).

Definition ComputeMerkleBranch (leaves : list (list Z)) (position : Z) : option (list (list Z)) :=
  '(_, _, b) ← MerkleComputation leaves position true; b.

Definition ComputeMerkleRootFromBranch (leaf : list Z) (vMerkleBranch : list (list Z)) (nIndex : Z) : list Z :=
  (foldl (fun '(hash, nIndex) it =>
     (if bool_decide (it = uint256_null) then Hash2 hash hash
      else if negb (Z.land nIndex 1 =? 0) then Hash2 it hash else Hash2 hash it, Z.shiftr nIndex 1))
    (leaf, nIndex) vMerkleBranch).1.

(** The leaves of a block are the ids of its transactions. *)

Definition block_leaves (l : layout) (vtx : list CTransaction) : outcome ser_exn (list (list Z)) :=
  foldr (fun tx r => h ← GetId l tx; hs ← r; Ok (h :: hs)) (Ok []) vtx.

Definition BlockMerkleRoot (l : layout) (block : CBlock) : outcome ser_exn (list Z * bool) :=
  leaves ← block_leaves l (vtx block); match ComputeMerkleRoot leaves with Some r => Ok r | None => Abort end.

Definition BlockMerkleBranch (l : layout) (block : CBlock) (position : Z) : outcome ser_exn (list (list Z)) :=
  leaves ← block_leaves l (vtx block); match ComputeMerkleBranch leaves position with Some r => Ok r | None => Abort end.

(** ** The reference: level by level *)

(** One level up; the last node of an odd level is paired with itself. *)

Fixpoint pairs_up (l : list (list Z)) : list (list Z) :=
  match l with
  | a :: b :: t => hash_pair a b :: pairs_up t
  | [a] => [hash_pair a a]
  | [] => []
  end.

Definition up (k : nat) (l : list (list Z)) : list (list Z) := Nat.iter k pairs_up l.

Fixpoint root_by_levels (fuel : nat) (l : list (list Z)) : list Z :=
  match l, fuel with
  | [], _ => uint256_null
  | [x], _ => x
  | _, O => uint256_null
  | _, S fuel => root_by_levels fuel (pairs_up l)
  end.

Definition merkle_root (l : list (list Z)) : list Z := root_by_levels (length l) l.

Lemma list_ind2 {A} (P : list A -> Prop) : P [] -> (forall a, P [a]) -> (forall a b t, P t -> P (a :: b :: t)) -> forall l, P l.
Proof. intros H0 H1 H2. refine (fix f l := match l with [] => H0 | [a] => H1 a | a :: b :: t => H2 a b t (f t) end). Qed.

Lemma length_pairs_up l : length (pairs_up l) = Nat.div2 (S (length l)).
Proof. induction l as [| |a b t IH] using list_ind2; [done..|]. cbn [pairs_up length]. by rewrite IH. Qed.

Lemma pairs_up_app m p q : length p = (2 * m)%nat -> pairs_up (p ++ q) = pairs_up p ++ pairs_up q.
Proof.
  revert p. induction m as [|m IH]; intros p Hp; [by destruct p|]. destruct p as [|a [|b p]]; cbn [length] in Hp; [lia..|].
  cbn [app pairs_up]. rewrite IH by lia. done.
Qed.

Lemma up_S k l : up (S k) l = pairs_up (up k l).
Proof. done. Qed.

Lemma up_pairs k l : up k (pairs_up l) = up (S k) l.
Proof. symmetry. apply Nat.iter_succ_r. Qed.

(** Node [i] of level [k]. *)

Definition node (l : list (list Z)) (k : nat) (i : Z) : option (list Z) := up k l !! Z.to_nat i.

Lemma pairs_up_lookup l m : pairs_up l !! m =
  match l !! (2 * m)%nat, l !! (2 * m + 1)%nat with
  | Some a, Some b => Some (hash_pair a b)
  | Some a, None => Some (hash_pair a a)
  | None, _ => None
  end.
Proof.
  revert m. induction l as [| |a b t IH] using list_ind2; intros m; [done | by destruct m|].
  destruct m as [|m]; [done|]. cbn [pairs_up]. replace (2 * S m)%nat with (S (S (2 * m))) by lia.
  replace (S (S (2 * m)) + 1)%nat with (S (S (2 * m + 1))) by lia. cbn [lookup list_lookup]. apply IH.
Qed.

Lemma node_S l k i : 0 <= i -> node l (S k) i =
  match node l k (2 * i), node l k (2 * i + 1) with
  | Some a, Some b => Some (hash_pair a b)
  | Some a, None => Some (hash_pair a a)
  | None, _ => None
  end.
Proof.
  intros Hi. unfold node. rewrite up_S, pairs_up_lookup. replace (Z.to_nat (2 * i)) with (2 * Z.to_nat i)%nat by lia.
  by replace (Z.to_nat (2 * i + 1)) with (2 * Z.to_nat i + 1)%nat by lia.
Qed.

(** Level [k] of [n] leaves has [level_size k n] nodes. *)

Definition level_size (k : nat) (n : Z) : Z := (n + 2 ^ Z.of_nat k - 1) / 2 ^ Z.of_nat k.

Lemma level_size_S k n : level_size (S k) n = (level_size k n + 1) / 2.
Proof.
  unfold level_size. pose proof (pow2_pos (Z.of_nat k) ltac:(lia)) as Hp. set (P := 2 ^ Z.of_nat k) in *.
  replace (2 ^ Z.of_nat (S k)) with (P * 2) by (unfold P; rewrite Nat2Z.inj_succ, Z.pow_succ_r by lia; lia).
  rewrite <- Z.div_div by lia. f_equal. replace (n + P * 2 - 1) with (n + P - 1 + 1 * P) by lia. by rewrite Z.div_add by lia.
Qed.

Lemma length_up k l : Z.of_nat (length (up k l)) = level_size k (Z.of_nat (length l)).
Proof.
  induction k as [|k IH]; [cbn; unfold level_size; rewrite Z.div_1_r; cbn; lia|].
  rewrite up_S, length_pairs_up, level_size_S, <- IH. rewrite Nat.div2_div, Nat2Z.inj_div. f_equal; lia.
Qed.

Lemma node_some l k i : 0 <= i < level_size k (Z.of_nat (length l)) -> exists x, node l k i = Some x.
Proof. intros Hi. rewrite <- length_up in Hi. apply lookup_lt_is_Some_2. lia. Qed.

Lemma node_none l k i : level_size k (Z.of_nat (length l)) <= i -> node l k i = None.
Proof. intros Hi. rewrite <- length_up in Hi. apply lookup_ge_None_2. lia. Qed.

(** The sibling of the node above leaf [b] at level [k], and the siblings below a level. *)

Definition sibling (l : list (list Z)) (b : Z) (k : nat) : list Z :=
  let i := b / 2 ^ Z.of_nat k in
  default [] (if Z.odd i then node l k (i - 1) else match node l k (i + 1) with Some x => Some x | None => node l k i end).

Definition siblings (l : list (list Z)) (b : Z) (k : nat) : list (list Z) := map (sibling l b) (seq 0 k).

Lemma siblings_S l b k : siblings l b (S k) = siblings l b k ++ [sibling l b k].
Proof. unfold siblings. by rewrite seq_S, map_app. Qed.

(** ** Counters *)

Notation at_level c k := (c / 2 ^ Z.of_nat k).

Lemma at_level_S c k : at_level c (S k) = at_level c k / 2.
Proof. rewrite Nat2Z.inj_succ, Z.pow_succ_r, Z.mul_comm, Z.div_div by lia. done. Qed.

Lemma bit_test c k : negb (Z.land c (Z.shiftl 1 (Z.of_nat k)) =? 0) = Z.odd (at_level c k).
Proof. rewrite land_bit, negb_involutive, Z.testbit_odd, Z.shiftr_div_pow2 by lia. done. Qed.

Lemma odd_cases x : (Z.odd x = true /\ x mod 2 = 1) \/ (Z.odd x = false /\ x mod 2 = 0).
Proof. rewrite !Zmod_odd. destruct (Z.odd x); auto. Qed.

(** A counter [c + 1] that is a multiple of [2 ^ k]. *)

Definition aligned (c' : Z) (k : nat) : Prop := c' = 2 ^ Z.of_nat k * at_level c' k.

Lemma aligned_prev c k : aligned (c + 1) k -> at_level c k = at_level (c + 1) k - 1.
Proof.
  unfold aligned. intros Ha. pose proof (pow2_pos (Z.of_nat k) ltac:(lia)). symmetry.
  apply (Z.div_unique _ _ _ (2 ^ Z.of_nat k - 1)); [lia|]. lia.
Qed.

Lemma aligned_S c k : aligned c k -> Z.odd (at_level c k) = false -> aligned c (S k).
Proof.
  unfold aligned. intros Ha Ho. rewrite at_level_S, Nat2Z.inj_succ, Z.pow_succ_r by lia.
  destruct (odd_cases (at_level c k)) as [[? _]|[_ Hm]]; [congruence|]. rewrite Ha at 1. pose proof (Z.div_mod (at_level c k) 2 ltac:(lia)). nia.
Qed.

Lemma aligned_above c k j : aligned (c + 1) k -> Z.odd (at_level (c + 1) k) = true -> (k < j)%nat -> at_level c j = at_level (c + 1) j.
Proof.
  intros Ha Ho Hj. replace j with (S k + (j - S k))%nat by lia. set (d := (j - S k)%nat). clearbody d. clear Hj.
  induction d as [|d IH].
  - rewrite Nat.add_0_r, !at_level_S, aligned_prev by done. destruct (odd_cases (at_level (c + 1) k)) as [[_ Hm]|[? _]]; [|congruence].
    pose proof (Z.div_mod (at_level (c + 1) k) 2 ltac:(lia)). symmetry. apply (Z.div_unique _ _ _ 0); lia.
  - rewrite Nat.add_succ_r, !at_level_S, IH. done.
Qed.

Lemma aligned_below c k j : aligned c k -> (j < k)%nat -> Z.odd (at_level c j) = false.
Proof.
  intros Ha Hj. assert (at_level c j = at_level c k * 2 ^ Z.of_nat (k - j)) as ->.
  { unfold aligned in Ha. rewrite Ha at 1. replace (Z.of_nat k) with (Z.of_nat (k - j) + Z.of_nat j) at 1 by lia.
    rewrite Z.pow_add_r by lia. pose proof (pow2_pos (Z.of_nat j) ltac:(lia)).
    replace (2 ^ Z.of_nat (k - j) * 2 ^ Z.of_nat j * at_level c k) with (at_level c k * 2 ^ Z.of_nat (k - j) * 2 ^ Z.of_nat j) by lia.
    by rewrite Z.div_mul by lia. }
  rewrite Z.odd_mul. replace (k - j)%nat with (S (k - j - 1)) by lia. rewrite Nat2Z.inj_succ, Z.pow_succ_r by lia.
  rewrite Z.odd_mul. cbn. apply andb_false_r.
Qed.

(** ** Adding leaves *)

Section computation.
Context (L : list (list Z)) (b : Z) (wb : bool).
Notation n := (Z.of_nat (length L)).
Context (Hn : n <= 2 ^ 31) (Hb : 0 <= b).

(** [inner] holds, for every bit of the counter, the last complete node of that level. *)

Definition inner_ok (c : Z) (inner : list (list Z)) : Prop :=
  length inner = 32%nat /\ forall j, Z.odd (at_level c j) = true -> inner !! j = node L j (at_level c j - 1).

(** Two equal siblings that are both complete, among the first [c] leaves. *)

Definition equal_siblings (c : Z) : Prop :=
  exists k m x, 0 <= m /\ 2 ^ Z.of_nat k * (2 * m + 2) <= c /\ node L k (2 * m) = Some x /\ node L k (2 * m + 1) = Some x.

(** The branch has the siblings below the entry the leaf [b] is in. *)

Definition match_ok (c : Z) (st : merkle_state) : Prop :=
  match mk_branch st with
  | None => wb = false
  | Some br =>
      (c <= b /\ br = [] /\ mk_matchlevel st = -1) \/
      (exists j, mk_matchlevel st = Z.of_nat j /\ Z.odd (at_level c j) = true /\ at_level b j = at_level c j - 1 /\ br = siblings L b j)
  end.

(** Inside the loop, at level [k] of the counter [c + 1]. *)

Definition match_inside (c : Z) (k : nat) (matchh : bool) (st : merkle_state) : Prop :=
  match mk_branch st with
  | None => wb = false
  | Some br =>
      if matchh then at_level b k = at_level (c + 1) k - 1 /\ br = siblings L b k
      else (c + 1 <= b /\ br = [] /\ mk_matchlevel st = -1) \/
           (exists j, (k <= j)%nat /\ mk_matchlevel st = Z.of_nat j /\ Z.odd (at_level c j) = true /\
              at_level b j = at_level c j - 1 /\ br = siblings L b j)
  end.

Lemma match_step_ok c k matchh st x h : aligned (c + 1) k -> Z.odd (at_level (c + 1) k) = false ->
  node L k (at_level (c + 1) k - 2) = Some x -> node L k (at_level (c + 1) k - 1) = Some h ->
  match_inside c k matchh st ->
  let '(br, m) := match_step st k x h matchh in
  match_inside c (S k) m {| mk_inner := mk_inner st; mk_mutated := mk_mutated st || bool_decide (x = h);
    mk_matchlevel := mk_matchlevel st; mk_branch := br |}.
Proof.
  intros Ha Ho Hx Hh Hm. pose proof (aligned_prev c k Ha) as Hc. destruct (odd_cases (at_level (c + 1) k)) as [[? _]|[_ Hmod]]; [congruence|].
  unfold match_step, match_inside in *. destruct (mk_branch st) as [br|] eqn:Eb; [|done].
  rewrite !at_level_S. set (X := at_level (c + 1) k) in *. pose proof (Z.div_mod X 2 ltac:(lia)) as HX.
  destruct matchh; cbn [mk_branch mk_matchlevel].
  - destruct Hm as [Hbk ->]. rewrite Hbk. split; [symmetry; apply (Z.div_unique _ _ _ 1); lia|]. rewrite siblings_S. do 2 f_equal.
    unfold sibling. cbn zeta. rewrite Hbk. destruct (odd_cases (X - 1)) as [[-> _]|[_ Hm]]; [|rewrite Zminus_mod, Hmod in Hm; done].
    replace (X - 1 - 1) with (X - 2) by lia. by rewrite Hx.
  - destruct (Z.eqb_spec (mk_matchlevel st) (Z.of_nat k)) as [Ek|Ek].
    + destruct Hm as [(_ & _ & E)|(j & _ & Ej & _ & Hbj & ->)]; [lia|]. assert (j = k) as -> by lia. rewrite Hbj, Hc.
      split; [symmetry; apply (Z.div_unique _ _ _ 0); lia|]. rewrite siblings_S. do 2 f_equal. unfold sibling. cbn zeta. rewrite Hbj, Hc.
      destruct (odd_cases (X - 1 - 1)) as [[_ Hm]|[-> _]]; [replace (X - 1 - 1) with (X + (-1) * 2) in Hm by lia; rewrite Z.mod_add, Hmod in Hm by lia; done|].
      replace (X - 1 - 1 + 1) with (X - 1) by lia. by rewrite Hh.
    + destruct Hm as [Hm|(j & Hj & Ej & Hm)]; [by left | right]. exists j. split; [|done]. destruct (decide (j = k)); [congruence | lia].
Qed.

Lemma match_store_ok c k matchh st inner mut : aligned (c + 1) k -> Z.odd (at_level (c + 1) k) = true -> match_inside c k matchh st ->
  match_ok (c + 1) {| mk_inner := inner; mk_mutated := mut; mk_matchlevel := if matchh then Z.of_nat k else mk_matchlevel st; mk_branch := mk_branch st |}.
Proof.
  intros Ha Ho Hm. unfold match_ok, match_inside in *. cbn [mk_branch mk_matchlevel]. destruct (mk_branch st) as [br|]; [|done].
  destruct matchh; [right; exists k; by destruct Hm|]. destruct Hm as [Hm|(j & Hj & Ej & Hoj & Hm)]; [by left | right].
  destruct (decide (j = k)) as [->|Hne].
  - rewrite (aligned_prev c k Ha) in Hoj. rewrite Z.odd_sub, Ho in Hoj. done.
  - rewrite (aligned_above c k j Ha Ho ltac:(lia)) in *. by exists j.
Qed.

Lemma inner_store_ok c k h inner : (k < 32)%nat -> aligned (c + 1) k -> Z.odd (at_level (c + 1) k) = true ->
  node L k (at_level (c + 1) k - 1) = Some h -> inner_ok c inner -> inner_ok (c + 1) (<[k := h]> inner).
Proof.
  intros Hk Ha Ho Hh [Hlen Hin]. split; [by rewrite length_insert|]. intros j Hj.
  destruct (decide (j < k)%nat); [by rewrite (aligned_below _ _ _ Ha) in Hj|].
  destruct (decide (j = k)) as [->|Hne]; [rewrite list_lookup_insert_eq by lia; by rewrite Hh|].
  rewrite list_lookup_insert_ne by done. rewrite <- (aligned_above c k j Ha Ho ltac:(lia)) in *. by apply Hin.
Qed.

(** Equal siblings that end exactly at the counter, from level [k] upwards. *)

Definition equal_at (c' : Z) (k : nat) : Prop :=
  exists j x, (k <= j)%nat /\ aligned c' (S j) /\ node L j (at_level c' j - 2) = Some x /\ node L j (at_level c' j - 1) = Some x.

Lemma add_leaf_spec fuel k c h matchh st :
  (k + fuel = 32)%nat -> 0 <= c < n -> aligned (c + 1) k -> node L k (at_level (c + 1) k - 1) = Some h ->
  inner_ok c (mk_inner st) -> match_inside c k matchh st ->
  exists st', add_leaf fuel (c + 1) k h matchh st = Some st' /\ inner_ok (c + 1) (mk_inner st') /\ match_ok (c + 1) st' /\
    (mk_mutated st' = true <-> mk_mutated st = true \/ equal_at (c + 1) k).
Proof.
  revert k h matchh st. induction fuel as [|fuel IH]; intros k h matchh st Hk Hc Ha Hh Hin Hm.
  { exfalso. replace k with 32%nat in Ha by lia. unfold aligned in Ha. change (Z.of_nat 32) with 32 in Ha.
    rewrite (Z.div_small (c + 1)) in Ha by lia. lia. }
  cbn [add_leaf]. rewrite bit_test. destruct (Z.odd (at_level (c + 1) k)) eqn:Ho.
  - eexists. split; [done|]. split; [by apply inner_store_ok; [lia|..]|]. split; [by apply match_store_ok|]. cbn [mk_mutated].
    split; [by left|]. intros [?|(j & x & Hj & Hal & _)]; [done|]. exfalso. pose proof (aligned_below _ _ k Hal ltac:(lia)). congruence.
  - pose proof (aligned_prev c k Ha) as Hp. set (X := at_level (c + 1) k) in *.
    assert (Z.odd (at_level c k) = true) as Hoc by (rewrite Hp, Z.odd_sub, Ho; done).
    assert (2 <= X) as HX.
    { destruct (odd_cases X) as [[? _]|[_ Hm2]]; [congruence|]. pose proof (pow2_pos (Z.of_nat k) ltac:(lia)) as HP.
      assert (c + 1 = 2 ^ Z.of_nat k * X) as Ha' by exact Ha. pose proof (Z.div_mod X 2 ltac:(lia)).
      assert (0 < X) by (apply (Z.mul_pos_cancel_l (2 ^ Z.of_nat k)); lia). lia. }
    destruct Hin as [Hlen Hin]. rewrite (Hin k Hoc), Hp. replace (X - 1 - 1) with (X - 2) by lia.
    destruct (node L k (X - 2)) as [x|] eqn:Hx.
    2:{ exfalso. pose proof (Hin k Hoc) as E. rewrite Hp in E. replace (X - 1 - 1) with (X - 2) in E by lia. rewrite Hx in E.
        apply lookup_ge_None_1 in E. lia. }
    pose proof (match_step_ok c k matchh st x h Ha Ho Hx Hh Hm) as Hms. destruct (match_step st k x h matchh) as [br m].
    destruct (IH (S k) (hash_pair x h) m {| mk_inner := mk_inner st; mk_mutated := mk_mutated st || bool_decide (x = h);
      mk_matchlevel := mk_matchlevel st; mk_branch := br |}) as (st' & E & Hin' & Hm' & Hmut); [lia | done | by apply aligned_S | | done | done |].
    { rewrite at_level_S. fold X. destruct (odd_cases X) as [[? _]|[_ Hm2]]; [congruence|]. pose proof (Z.div_mod X 2 ltac:(lia)).
      rewrite node_S by lia. replace (2 * (X / 2 - 1)) with (X - 2) by lia. replace (X - 2 + 1) with (X - 1) by lia. by rewrite Hx, Hh. }
    exists st'. split_and!; [done..|]. rewrite Hmut. cbn [mk_mutated]. rewrite orb_true_iff, bool_decide_eq_true. unfold equal_at. split.
    + intros [[?| ->]|(j & y & Hj & Hy)]; [by left | |]; right.
      * exists k, h. split_and!; [lia | by apply aligned_S | done | done].
      * exists j, y. split; [lia | done].
    + intros [?|(j & y & Hj & Hal & E1 & E2)]; [by left; left|]. destruct (decide (j = k)) as [->|]; [left; right; fold X in E1, E2; congruence|].
      right. exists j, y. split; [lia | done].
Qed.

Lemma equal_siblings_S c : 0 <= c -> equal_siblings (c + 1) <-> equal_siblings c \/ equal_at (c + 1) 0.
Proof.
  intros Hc. unfold equal_siblings, equal_at. split.
  - intros (k & m & x & Hm & Hle & E1 & E2). destruct (decide (2 ^ Z.of_nat k * (2 * m + 2) <= c)) as [|Hgt]; [left; by exists k, m, x|].
    right. exists k, x. assert (c + 1 = 2 ^ Z.of_nat k * (2 * m + 2)) as Ec by lia. pose proof (pow2_pos (Z.of_nat k) ltac:(lia)).
    assert (at_level (c + 1) k = 2 * m + 2) as E by (rewrite Ec, Z.mul_comm, Z.div_mul by lia; done).
    split_and!; [lia | | by rewrite E; replace (2 * m + 2 - 2) with (2 * m) by lia | by rewrite E; replace (2 * m + 2 - 1) with (2 * m + 1) by lia].
    unfold aligned. rewrite at_level_S, E, Nat2Z.inj_succ, Z.pow_succ_r by lia. replace (2 * m + 2) with ((m + 1) * 2) by lia. rewrite Z.div_mul by lia. lia.
  - intros [(k & m & x & Hm & Hle & E)|(j & x & _ & Ha & E1 & E2)]; [exists k, m, x; split; [done|]; split; [lia | done]|].
    unfold aligned in Ha. rewrite at_level_S, Nat2Z.inj_succ, Z.pow_succ_r in Ha by lia. pose proof (pow2_pos (Z.of_nat j) ltac:(lia)) as Hp.
    set (X := at_level (c + 1) j) in *. set (P := 2 ^ Z.of_nat j) in *. assert (X = 2 * (X / 2)) as EX.
    { unfold X at 1. rewrite Ha. replace (2 * P * (X / 2)) with (2 * (X / 2) * P) by lia. by rewrite Z.div_mul by lia. }
    assert (0 < X / 2) by (apply (Z.mul_pos_cancel_l (2 * P)); lia).
    exists j, (X / 2 - 1), x. split; [lia|]. split; [fold P; lia|]. replace (2 * (X / 2 - 1)) with (X - 2) by lia. split; [done|].
    by replace (X - 2 + 1) with (X - 1) by lia.
Qed.

Lemma match_enter c st : 0 <= c -> match_ok c st -> match_inside c 0 (c =? b) st.
Proof.
  intros Hc. unfold match_ok, match_inside. destruct (mk_branch st) as [br|]; [|done]. rewrite !Z.div_1_r.
  destruct (Z.eqb_spec c b) as [->|Hne].
  - intros [(_ & -> & _)|(j & _ & _ & E & _)]; [split; [lia | done] | lia].
  - intros [(? & ? & ?)|(j & ?)]; [left; split; [lia | done] | right; exists j; split; [lia | done]].
Qed.

Definition computed (c : Z) (st : merkle_state) : Prop :=
  inner_ok c (mk_inner st) /\ match_ok c st /\ (mk_mutated st = true <-> equal_siblings c).

Lemma add_leaves_spec rest p st : L = p ++ rest -> computed (Z.of_nat (length p)) st ->
  exists st', add_leaves rest (Z.of_nat (length p)) b st = Some (n, st') /\ computed n st'.
Proof.
  revert p st. induction rest as [|h rest IH]; intros p st EL Hst.
  { exists st. rewrite EL, app_nil_r. done. }
  cbn [add_leaves]. destruct Hst as (Hin & Hm & Hmut). set (c := Z.of_nat (length p)) in *.
  assert (0 <= c < n) as Hc by (unfold c; rewrite EL, length_app; cbn [length]; lia).
  assert (u32 (c + 1) = c + 1) as -> by (unfold u32; apply Z.mod_small; lia).
  destruct (add_leaf_spec 32 0 c h (c =? b) st) as (st1 & -> & Hin1 & Hm1 & Hmut1); [done | done | | | done | by apply match_enter; [lia|] |].
  { unfold aligned. rewrite Z.div_1_r. cbn. lia. }
  { unfold node. rewrite Z.div_1_r. cbn [up Nat.iter nat_rect]. replace (Z.to_nat (c + 1 - 1)) with (length p) by lia.
    rewrite EL, lookup_app_r, Nat.sub_diag by lia. done. }
  cbn [mbind option_bind]. replace (c + 1) with (Z.of_nat (length (p ++ [h]))) in * by (rewrite length_app; unfold c; cbn; lia).
  apply IH; [by rewrite <- app_assoc|]. split; [done|]. split; [done|]. rewrite Hmut1, Hmut.
  replace (Z.of_nat (length (p ++ [h]))) with (c + 1) by (rewrite length_app; unfold c; cbn; lia). symmetry. apply equal_siblings_S. lia.
Qed.

(** ** The final sweep *)

Definition size_at (k : nat) : Z := level_size k n.

(** At level [k] the branch has the siblings below the last node, if the leaf is under it. *)

Definition match_sweep (k : nat) (matchh : bool) (st : merkle_state) : Prop :=
  match mk_branch st with
  | None => wb = false
  | Some br =>
      if matchh then at_level b k = size_at k - 1 /\ br = siblings L b k
      else (n <= b /\ mk_matchlevel st = -1) \/
           (exists j, (k <= j)%nat /\ mk_matchlevel st = Z.of_nat j /\ Z.odd (at_level n j) = true /\
              at_level b j = at_level n j - 1 /\ br = siblings L b j)
  end.

Lemma size_at_S k : size_at (S k) = (size_at k + 1) / 2.
Proof. apply level_size_S. Qed.

Lemma size_at_31 : 0 < n -> size_at 31 = 1.
Proof. intros Hpos. unfold size_at, level_size. change (Z.of_nat 31) with 31. symmetry. apply (Z.div_unique _ _ _ (n - 1)); lia. Qed.

Lemma size_at_cover k : (k <= 31)%nat -> 0 < n -> 1 <= size_at k /\ 2 ^ Z.of_nat k * size_at k <= 2 ^ 31.
Proof.
  intros Hk Hpos. unfold size_at, level_size. pose proof (pow2_pos (Z.of_nat k) ltac:(lia)) as Hp.
  pose proof (pow2_split (Z.of_nat k) 31 ltac:(lia)) as Hs. set (P := 2 ^ Z.of_nat k) in *. set (Q := 2 ^ (31 - Z.of_nat k)) in *.
  split; [apply Z.div_le_lower_bound; lia|]. rewrite Hs. apply Z.mul_le_mono_nonneg_l; [lia|].
  apply Z.lt_succ_r, Z.div_lt_upper_bound; lia.
Qed.

Lemma at_count k : at_level (2 ^ Z.of_nat k * size_at k) k = size_at k.
Proof. rewrite Z.mul_comm. apply Z.div_mul. pose proof (pow2_pos (Z.of_nat k) ltac:(lia)). lia. Qed.

Lemma count_S k : Z.odd (size_at k) = false -> 2 ^ Z.of_nat k * size_at k = 2 ^ Z.of_nat (S k) * size_at (S k).
Proof.
  intros Ho. destruct (odd_cases (size_at k)) as [[? _]|[_ Hm]]; [congruence|]. rewrite size_at_S, Nat2Z.inj_succ, Z.pow_succ_r by lia.
  assert (size_at k = 2 * ((size_at k + 1) / 2)) as E; [|rewrite E at 1; lia].
  pose proof (Z.div_mod (size_at k) 2 ltac:(lia)). assert ((size_at k + 1) / 2 = size_at k / 2) as ->; [|lia].
  symmetry. apply (Z.div_unique _ _ _ 1); lia.
Qed.

Lemma size_even k : Z.odd (size_at k) = false -> 1 <= size_at k -> 2 <= size_at k /\ size_at (S k) = size_at k / 2 /\ size_at k = 2 * (size_at k / 2).
Proof.
  intros Ho Hpos. destruct (odd_cases (size_at k)) as [[? _]|[_ Hm]]; [congruence|]. rewrite size_at_S.
  pose proof (Z.div_mod (size_at k) 2 ltac:(lia)). split_and!; [lia | symmetry; apply (Z.div_unique _ _ _ 1); lia | lia].
Qed.

Lemma size_odd k : Z.odd (size_at k) = true -> size_at (S k) = size_at k / 2 + 1 /\ size_at k = 2 * (size_at k / 2) + 1.
Proof.
  intros Ho. destruct (odd_cases (size_at k)) as [[_ Hm]|[? _]]; [|congruence]. rewrite size_at_S.
  pose proof (Z.div_mod (size_at k) 2 ltac:(lia)). split; [symmetry; apply (Z.div_unique _ _ _ 0); lia | lia].
Qed.

Lemma sweep_match_step k matchh st x h : at_level n k = size_at k - 1 -> 1 <= size_at k -> Z.odd (size_at k) = false ->
  node L k (size_at k - 2) = Some x -> node L k (size_at k - 1) = Some h -> match_sweep k matchh st ->
  let '(br, m) := match_step st k x h matchh in
  match_sweep (S k) m {| mk_inner := mk_inner st; mk_mutated := mk_mutated st; mk_matchlevel := mk_matchlevel st; mk_branch := br |}.
Proof.
  intros Hd Hpos Ho Hx Hh Hm. destruct (size_even k Ho Hpos) as (H2 & ES & EX).
  unfold match_step, match_sweep in *. destruct (mk_branch st) as [br|]; [|done]. rewrite ES. set (X := size_at k) in *.
  destruct matchh; cbn [mk_branch mk_matchlevel].
  - destruct Hm as [Hbk ->]. rewrite at_level_S, Hbk. split; [symmetry; apply (Z.div_unique _ _ _ 1); lia|]. rewrite siblings_S. do 2 f_equal.
    unfold sibling. cbn zeta. rewrite Hbk, Z.odd_sub, Ho. cbn [xorb Z.odd]. replace (X - 1 - 1) with (X - 2) by lia. by rewrite Hx.
  - destruct (Z.eqb_spec (mk_matchlevel st) (Z.of_nat k)) as [Ek|Ek].
    + destruct Hm as [[_ E]|(j & _ & Ej & _ & Hbj & ->)]; [lia|]. assert (j = k) as -> by lia. rewrite at_level_S, Hbj, Hd.
      split; [symmetry; apply (Z.div_unique _ _ _ 0); lia|]. rewrite siblings_S. do 2 f_equal. unfold sibling. cbn zeta. rewrite Hbj, Hd.
      rewrite !Z.odd_sub, Ho. cbn [xorb Z.odd]. replace (X - 1 - 1 + 1) with (X - 1) by lia. by rewrite Hh.
    + destruct Hm as [Hm|(j & Hj & Ej & Hm)]; [by left | right]. exists j. split; [|done]. destruct (decide (j = k)); [congruence | lia].
Qed.

(** Two nodes of an even level combine into the last node of the next. *)

Lemma sweep_pair k x h : 1 <= size_at k -> Z.odd (size_at k) = false ->
  node L k (size_at k - 2) = Some x -> node L k (size_at k - 1) = Some h -> node L (S k) (size_at (S k) - 1) = Some (hash_pair x h).
Proof.
  intros Hpos Ho Hx Hh. destruct (size_even k Ho Hpos) as (H2 & ES & EX). rewrite ES, node_S by lia.
  replace (2 * (size_at k / 2 - 1)) with (size_at k - 2) by lia. replace (size_at k - 2 + 1) with (size_at k - 1) by lia. by rewrite Hx, Hh.
Qed.

(** The last node of an odd level is paired with itself. *)

Lemma sweep_alone k h : Z.odd (size_at k) = true -> 1 <= size_at k ->
  node L k (size_at k - 1) = Some h -> node L (S k) (size_at (S k) - 1) = Some (hash_pair h h).
Proof.
  intros Ho Hpos Hh. destruct (size_odd k Ho) as (ES & EX). rewrite ES, node_S by lia.
  replace (2 * (size_at k / 2 + 1 - 1)) with (size_at k - 1) by lia. rewrite Hh. replace (size_at k - 1 + 1) with (size_at k) by lia.
  by rewrite (node_none L k (size_at k)) by (unfold size_at; lia).
Qed.

Definition deepest (k : nat) : Prop := k = 0%nat \/ (2 <= size_at (k - 1)).

(** The state of the sweep at level [k]: [count] covers the level, [h] is its last node. *)

Record sweeping (count : Z) (k : nat) (h : list Z) (matchh : bool) (st : merkle_state) : Prop := {
  sw_level : (k <= 31)%nat;
  sw_count : count = 2 ^ Z.of_nat k * size_at k;
  sw_node : node L k (size_at k - 1) = Some h;
  sw_inner : inner_ok n (mk_inner st);
  sw_match : match_sweep k matchh st;
  sw_deepest : deepest k }.

Lemma sweep_up_spec fuel : forall count k h matchh st, 0 < n -> (32 <= fuel + k)%nat -> at_level n k = size_at k - 1 ->
  sweeping count k h matchh st -> exists k' h' m' st', sweep_up fuel count k h matchh st = Some (k', h', m', st') /\
    (k <= k')%nat /\ Z.odd (size_at k') = true /\ at_level n k' = size_at k' - 1 /\ sweeping count k' h' m' st' /\ mk_mutated st' = mk_mutated st.
Proof.
  induction fuel as [|fuel IH]; intros count k h matchh st Hpos Hf Hd [Hk Hc Hh Hin Hm Hdp]; [lia|].
  destruct (size_at_cover k Hk Hpos) as [Hs Hcov]. cbn [sweep_up]. rewrite bit_test, Hc, at_count.
  destruct (Z.odd (size_at k)) eqn:Ho; [by exists k, h, matchh, st|].
  assert (k <> 31%nat) as Hne by (intros ->; rewrite (size_at_31 Hpos) in Ho; done).
  destruct (size_even k Ho Hs) as (H2 & ES & EX).
  destruct Hin as [Hl Hi]. assert (mk_inner st !! k = node L k (size_at k - 2)) as ->.
  { rewrite Hi, Hd by (rewrite Hd, Z.odd_sub, Ho; done). f_equal. lia. }
  destruct (node_some L k (size_at k - 2)) as [x Hx]; [unfold size_at in *; lia|]. rewrite Hx.
  pose proof (sweep_match_step k matchh st x h Hd Hs Ho Hx Hh Hm) as Hms. destruct (match_step st k x h matchh) as [br m].
  rewrite (count_S k Ho). edestruct (IH (2 ^ Z.of_nat (S k) * size_at (S k)) (S k)) as (k' & h' & m' & st' & -> & Hk' & Hrest);
    [done | lia | | split; [lia | done | by apply sweep_pair | done | exact Hms | right; rewrite Nat.sub_1_r; exact H2] |].
  { rewrite at_level_S, Hd, ES. symmetry. apply (Z.div_unique _ _ _ 1); lia. }
  exists k', h', m', st'. split_and!; [done | lia | apply Hrest..].
Qed.

(** A duplicated last node is its own sibling. *)

Lemma sweep_match_alone k matchh st h : Z.odd (size_at k) = true -> (at_level n k = size_at k \/ at_level n k = size_at k - 1) ->
  (matchh = false -> mk_branch st <> None -> mk_matchlevel st <> Z.of_nat k) -> node L k (size_at k - 1) = Some h -> match_sweep k matchh st ->
  match_sweep (S k) matchh {| mk_inner := mk_inner st; mk_mutated := mk_mutated st; mk_matchlevel := mk_matchlevel st;
                              mk_branch := if matchh then push_branch (mk_branch st) h else mk_branch st |}.
Proof.
  intros Ho Hd Hml Hh Hm. destruct (size_odd k Ho) as (ES & EX). unfold match_sweep in *.
  destruct matchh, (mk_branch st) as [br|]; cbn [mk_branch mk_matchlevel push_branch]; try done.
  - destruct Hm as [Hbk ->]. rewrite at_level_S, Hbk, ES. split; [symmetry; apply (Z.div_unique _ _ _ 0); lia|]. rewrite siblings_S. do 2 f_equal.
    unfold sibling. cbn zeta. rewrite Hbk, Z.odd_sub, Ho. cbn [xorb Z.odd]. replace (size_at k - 1 + 1) with (size_at k) by lia.
    by rewrite (node_none L k (size_at k)), Hh by (unfold size_at; lia).
  - destruct Hm as [Hm|(j & Hj & Ej & Hm)]; [by left | right]. exists j. split; [|done].
    assert (j <> k) by (intros ->; by apply Hml). lia.
Qed.

Lemma matchlevel_above k st : Z.odd (size_at k) = true -> at_level n k = size_at k - 1 -> match_sweep k false st ->
  mk_branch st <> None -> mk_matchlevel st <> Z.of_nat k.
Proof.
  unfold match_sweep. intros Ho Hd Hm Hne. destruct (mk_branch st) as [br|]; [|done].
  destruct Hm as [[_ ->]|(j & _ & -> & Hj & _)]; [lia|]. intros E. assert (j = k) as -> by lia. rewrite Hd, Z.odd_sub, Ho in Hj. done.
Qed.

Lemma pow2_le_31 k : (k <= 31)%nat -> u32 (Z.shiftl 1 (Z.of_nat k)) = 2 ^ Z.of_nat k /\ 1 <= 2 ^ Z.of_nat k <= 2 ^ 31.
Proof.
  intros Hk. rewrite Z.shiftl_1_l. pose proof (pow2_pos (Z.of_nat k) ltac:(lia)). pose proof (Z.pow_le_mono_r 2 (Z.of_nat k) 31 ltac:(lia) ltac:(lia)).
  split; [|lia]. unfold u32. apply Z.mod_small. lia.
Qed.

(** The sweep ends at the root. *)

Lemma sweep_spec fuel : forall count k h matchh st, 0 < n -> (32 <= fuel + k)%nat -> Z.odd (size_at k) = true ->
  (at_level n k = size_at k \/ at_level n k = size_at k - 1) -> (matchh = false -> mk_branch st <> None -> mk_matchlevel st <> Z.of_nat k) ->
  sweeping count k h matchh st -> exists k' h' m' st', sweep fuel count k h matchh st = Some (h', st') /\
    size_at k' = 1 /\ sweeping (2 ^ Z.of_nat k') k' h' m' st' /\ mk_mutated st' = mk_mutated st /\ (m' = false -> mk_branch st' <> None -> mk_matchlevel st' <> Z.of_nat k').
Proof.
  induction fuel as [|fuel IH]; intros count k h matchh st Hpos Hf Ho Hd Hml Hsw; pose proof Hsw as [Hk Hc Hh Hin Hm Hdp]; [lia|].
  destruct (size_at_cover k Hk Hpos) as [Hs Hcov]. destruct (pow2_le_31 k Hk) as [Eu Hu]. cbn [sweep]. rewrite Eu.
  destruct (Z.eqb_spec count (2 ^ Z.of_nat k)) as [Ec|Ec].
  { assert (size_at k = 1) as E1 by nia. exists k, h, matchh, st. rewrite <- Ec. done. }
  assert (size_at k <> 1) as Hs1 by (intros E; rewrite E in Hc; lia). destruct (size_odd k Ho) as (ES & EX).
  assert (k <> 31%nat) as Hne by (intros ->; rewrite (size_at_31 Hpos) in Hs1; done).
  assert (2 ^ Z.of_nat (S k) * size_at (S k) = count + 2 ^ Z.of_nat k) as Ec' by (rewrite Hc, ES, Nat2Z.inj_succ, Z.pow_succ_r by lia; nia).
  destruct (size_at_cover (S k) ltac:(lia) Hpos) as [_ Hcov'].
  assert (u32 (count + 2 ^ Z.of_nat k) = count + 2 ^ Z.of_nat k) as -> by (unfold u32; apply Z.mod_small; lia).
  assert (at_level n (S k) = size_at (S k) - 1) as Hd'.
  { rewrite at_level_S, ES. destruct Hd as [-> | ->]; [lia|]. symmetry. apply (Z.div_unique _ _ _ 0); lia. }
  edestruct (sweep_up_spec 32 (count + 2 ^ Z.of_nat k) (S k) (hash_pair h h) matchh) as (k' & h' & m' & st' & -> & Hk' & Ho' & Hd2 & Hsw' & Hmu);
    [done | lia | done | |].
  { split; [lia | lia | by apply sweep_alone | | by apply sweep_match_alone | right; rewrite Nat.sub_1_r; cbn; lia]. done. }
  destruct (IH (count + 2 ^ Z.of_nat k) k' h' m' st') as (k2 & h2 & m2 & st2 & E2 & H1 & Hsw2 & Hmu2 & Hml2);
    [done | lia | done | by right | | done |].
  { intros ->. apply matchlevel_above; [done..|apply Hsw']. }
  exists k2, h2, m2, st2. cbn [mk_mutated] in Hmu. split_and!; [exact E2 | done | done | congruence | done].
Qed.

Lemma lowest_bit_spec fuel : forall k, 0 < n -> (32 <= fuel + k)%nat -> aligned n k -> (k <= 31)%nat ->
  exists j, lowest_bit fuel n k = Some j /\ aligned n j /\ Z.odd (at_level n j) = true /\ (j <= 31)%nat.
Proof.
  induction fuel as [|fuel IH]; intros k Hpos Hf Ha Hk; [lia|]. cbn [lowest_bit]. rewrite bit_test.
  destruct (Z.odd (at_level n k)) eqn:Ho; [by exists k|]. pose proof (aligned_S n k Ha Ho) as Ha'.
  apply IH; [done | lia | done|]. destruct (decide (k = 31%nat)) as [->|]; [|lia]. unfold aligned in Ha'.
  change (Z.of_nat 32) with 32 in Ha'. rewrite Z.div_small in Ha' by lia. lia.
Qed.

Lemma aligned_size k : aligned n k -> size_at k = at_level n k.
Proof.
  unfold aligned, size_at, level_size. intros Ha. pose proof (pow2_pos (Z.of_nat k) ltac:(lia)). symmetry.
  apply (Z.div_unique _ _ _ (2 ^ Z.of_nat k - 1)); lia.
Qed.

Lemma aligned_deepest k : 0 < n -> aligned n k -> deepest k.
Proof.
  intros Hpos Ha. destruct k as [|k]; [by left|]. right. rewrite Nat.sub_1_r. cbn [Nat.pred]. unfold size_at, level_size.
  unfold aligned in Ha. rewrite Nat2Z.inj_succ, Z.pow_succ_r in Ha by lia. pose proof (pow2_pos (Z.of_nat k) ltac:(lia)) as Hp.
  set (P := 2 ^ Z.of_nat k) in *. set (q := n / (2 * P)) in *. apply Z.div_le_lower_bound; [lia|]. assert (1 <= q) by nia. nia.
Qed.

Lemma above_root K j : 0 < n -> size_at K = 1 -> (K < j)%nat -> at_level n j = 0.
Proof.
  intros Hpos H1 Hj. apply Z.div_small. split; [lia|]. unfold size_at, level_size in H1. pose proof (pow2_pos (Z.of_nat K) ltac:(lia)) as Hp.
  pose proof (Z.mul_succ_div_gt (n + 2 ^ Z.of_nat K - 1) _ Hp) as Hg. rewrite H1 in Hg.
  pose proof (Z.pow_lt_mono_r 2 (Z.of_nat K) (Z.of_nat j) ltac:(lia) ltac:(lia) ltac:(lia)). lia.
Qed.

(** The computation: the root of the tree of depth [K], the mutation flag, the siblings of leaf [b]. *)

Lemma computed_start : computed 0 {| mk_inner := replicate 32 uint256_null; mk_mutated := false; mk_matchlevel := -1;
  mk_branch := if wb then Some [] else None |}.
Proof.
  split_and!; cbn [mk_inner mk_mutated].
  - split; [done|]. intros j Hj. by rewrite Z.div_0_l in Hj by (apply Z.pow_nonzero; lia).
  - unfold match_ok. cbn [mk_branch mk_matchlevel]. destruct wb; [left; done | done].
  - split; [done|]. intros (k & m & x & Hm & Hle & _). pose proof (pow2_pos (Z.of_nat k) ltac:(lia)). nia.
Qed.

Lemma computed_sweeping k st h : 0 < n -> computed n st -> aligned n k -> Z.odd (at_level n k) = true -> (k <= 31)%nat ->
  mk_inner st !! k = Some h -> sweeping n k h (mk_matchlevel st =? Z.of_nat k) st.
Proof.
  intros Hpos (Hin & Hm & _) Ha Ho Hk Hh. pose proof (aligned_size k Ha) as Es. split; [done | | | done | | by apply aligned_deepest].
  - rewrite Es. exact Ha.
  - destruct Hin as [_ Hi]. rewrite Es, <- Hi; done.
  - unfold match_ok, match_sweep in *. destruct (mk_branch st) as [br|]; [|done]. rewrite Es.
    destruct (Z.eqb_spec (mk_matchlevel st) (Z.of_nat k)) as [E|E].
    + destruct Hm as [(_ & _ & E')|(j & Ej & _ & Hbj & ->)]; [lia|]. by assert (j = k) as -> by lia.
    + destruct Hm as [(? & _ & ?)|(j & Ej & Hoj & Hm)]; [by left|]. right. exists j. split; [|done].
      destruct (decide (j < k)%nat) as [Hlt|]; [|lia]. rewrite (aligned_below n k j Ha Hlt) in Hoj. done.
Qed.

Lemma MerkleComputation_spec : 0 < n -> exists K h m br, MerkleComputation L b wb = Some (h, m, br) /\
  size_at K = 1 /\ deepest K /\ node L K 0 = Some h /\ (m = true <-> equal_siblings n) /\
  (wb = true -> b < n -> br = Some (siblings L b K)).
Proof.
  intros Hpos. destruct (add_leaves_spec L [] _ eq_refl computed_start) as (st & Ea & Hst). cbn [length] in Ea. change (Z.of_nat 0) with 0 in Ea.
  destruct (lowest_bit_spec 32 0 Hpos) as (k & El & Ha & Ho & Hk); [lia | unfold aligned; rewrite Z.div_1_r; cbn; lia | lia |].
  pose proof (aligned_size k Ha) as Es. destruct (size_at_cover k Hk Hpos) as [Hs _].
  destruct (node_some L k (at_level n k - 1)) as [h Hh]; [unfold size_at in *; lia|].
  assert (mk_inner st !! k = Some h) as Ei by (destruct Hst as ([_ Hi] & _); rewrite Hi; done).
  destruct (sweep_spec 32 n k h (mk_matchlevel st =? Z.of_nat k) st) as (K & h' & m & st' & Esw & H1 & Hsw & Hmu & Hml);
    [done | lia | by rewrite Es | by left | intros E _; by apply Z.eqb_neq in E | by apply computed_sweeping |].
  exists K, h', (mk_mutated st'), (mk_branch st'). unfold MerkleComputation.
  assert (forall {A} (x y : A), match L with [] => x | _ => y end = y) as -> by (intros; revert Hpos; destruct L; [cbn; lia | done]).
  rewrite Ea. cbn [mbind option_bind]. rewrite El. cbn [mbind option_bind]. rewrite Ei. cbn [mbind option_bind]. rewrite Esw.
  cbn [mbind option_bind]. destruct Hsw as [HK _ HhK _ HmK Hdp]. rewrite H1 in HhK. split_and!; [done..| |].
  - rewrite Hmu. apply Hst.
  - intros Hw Hlt. unfold match_sweep in HmK. destruct (mk_branch st') as [br|]; [|congruence]. destruct m; [by destruct HmK as [_ ->]|].
    destruct HmK as [[? _]|(j & Hj & Ej & Hoj & _ & _)]; [lia|].
    destruct (decide (j = K)) as [->|]; [by destruct (Hml eq_refl)|]. rewrite (above_root K j) in Hoj by (done || lia). done.
Qed.

End computation.

(** ** The root by levels *)

Lemma length_pairs_up_lt l : (2 <= length l)%nat -> (length (pairs_up l) < length l)%nat.
Proof. intros Hl. rewrite length_pairs_up, Nat.div2_div. apply Nat.Div0.div_lt_upper_bound. lia. Qed.

Lemma up_small k l : (length l <= 1)%nat -> (length (up k l) <= 1)%nat.
Proof.
  intros Hl. induction k as [|k IH]; [done|]. rewrite up_S, length_pairs_up. destruct (length (up k l)) as [|[|?]]; cbn; lia.
Qed.

Lemma up_length k l : (2 <= length (up k l))%nat -> (k + 2 <= length l)%nat.
Proof.
  revert l. induction k as [|k IH]; intros l Hl; [exact Hl|]. rewrite <- up_pairs in Hl. apply IH in Hl.
  destruct (decide (2 <= length l)%nat) as [H2|H2]; [pose proof (length_pairs_up_lt l H2); lia|].
  pose proof (up_small 1 l ltac:(lia)) as Hs. cbn in Hs. lia.
Qed.

Lemma root_by_levels_up k : forall fuel l h, (k <= fuel)%nat -> up k l = [h] -> (k = 0%nat \/ (2 <= length (up (k - 1) l))%nat) ->
  root_by_levels fuel l = h.
Proof.
  induction k as [|k IH]; intros fuel l h Hf Hl Hd; [cbn in Hl; subst l; by destruct fuel|].
  destruct Hd as [?|Hd]; [done|]. rewrite Nat.sub_1_r in Hd. cbn [Nat.pred] in Hd. pose proof (up_length k l Hd) as Hlen.
  destruct l as [|x [|y t]]; cbn [length] in Hlen; [lia..|]. destruct fuel as [|fuel]; [lia|].
  change (root_by_levels (S fuel) (x :: y :: t)) with (root_by_levels fuel (pairs_up (x :: y :: t))).
  apply IH; [lia | by rewrite up_pairs|]. destruct k as [|k]; [by left|]. right. rewrite up_pairs, Nat.sub_1_r. exact Hd.
Qed.

(** The depth of the tree: the first level with one node. *)

Definition depth_of (l : list (list Z)) (K : nat) : Prop :=
  level_size K (Z.of_nat (length l)) = 1 /\ (K = 0%nat \/ 2 <= level_size (K - 1) (Z.of_nat (length l))).

Lemma depth_root l K h : depth_of l K -> node l K 0 = Some h -> merkle_root l = h.
Proof.
  intros [H1 Hd] Hh. rewrite <- !length_up in *. assert (up K l = [h]) as Eu.
  { unfold node in Hh. destruct (up K l) as [|x [|? ?]]; cbn [length] in H1; [lia | by injection Hh as -> | lia]. }
  apply (root_by_levels_up K); [|done | destruct Hd; [by left | right; lia]].
  destruct Hd as [-> | Hd]; [lia|]. pose proof (up_length (K - 1) l ltac:(lia)). lia.
Qed.

Lemma one_node n K : level_size K n = 1 -> n <= 2 ^ Z.of_nat K.
Proof.
  unfold level_size. intros H1. pose proof (pow2_pos (Z.of_nat K) ltac:(lia)) as Hp. pose proof (Z.mul_succ_div_gt (n + 2 ^ Z.of_nat K - 1) _ Hp). lia.
Qed.

Lemma depth_log2 l K : depth_of l K -> l <> [] -> Z.of_nat K = Z.log2_up (Z.of_nat (length l)).
Proof.
  intros [H1 Hd] Hne. assert (0 < Z.of_nat (length l)) as Hpos by (destruct l; [done | cbn; lia]). set (n := Z.of_nat (length l)) in *.
  pose proof (one_node n K H1) as Hle.
  destruct Hd as [-> | Hd]; [change (2 ^ Z.of_nat 0) with 1 in Hle; by assert (n = 1) as -> by lia|].
  destruct K as [|K]; [rewrite Nat.sub_0_l in Hd; lia|]. rewrite Nat.sub_1_r in Hd. cbn [Nat.pred] in Hd. symmetry.
  apply Z.log2_up_unique; [lia|]. split; [|done]. rewrite Nat2Z.inj_succ, Z.pred_succ. unfold level_size in Hd.
  pose proof (pow2_pos (Z.of_nat K) ltac:(lia)) as Hp. pose proof (Z.mul_div_le (n + 2 ^ Z.of_nat K - 1) _ Hp). nia.
Qed.

Lemma ComputeMerkleRoot_spec l : Z.of_nat (length l) <= 2 ^ 31 -> exists m, ComputeMerkleRoot l = Some (merkle_root l, m) /\
  (m = true <-> equal_siblings l (Z.of_nat (length l))).
Proof.
  intros Hl. destruct (decide (l = [])) as [-> |Hne].
  { exists false. split; [done|]. split; [done|]. intros (k & m & x & Hm & Hle & _). pose proof (pow2_pos (Z.of_nat k) ltac:(lia)). cbn [length] in Hle. nia. }
  destruct (MerkleComputation_spec l (2 ^ 32 - 1) false Hl) as (K & h & m & br & E & H1 & Hd & Hh & Hm & _); [lia | destruct l; [done | cbn; lia]|].
  exists m. unfold ComputeMerkleRoot. rewrite E. cbn [mbind option_bind]. by rewrite (depth_root l K h).
Qed.

(** ** The branch of a leaf leads to the root *)

Definition branch_step : list Z * Z -> list Z -> list Z * Z := fun '(hash, nIndex) it =>
  (if bool_decide (it = uint256_null) then Hash2 hash hash
   else if negb (Z.land nIndex 1 =? 0) then Hash2 it hash else Hash2 hash it, Z.shiftr nIndex 1).

Lemma branch_climb l pos leaf k : 0 <= pos -> node l 0 pos = Some leaf -> Forall (fun x => x <> uint256_null) (siblings l pos k) ->
  exists h, node l k (at_level pos k) = Some h /\ foldl branch_step (leaf, pos) (siblings l pos k) = (h, at_level pos k).
Proof.
  intros Hpos Hleaf. induction k as [|k IH]; intros Hnn; [exists leaf; by rewrite Z.div_1_r|].
  rewrite siblings_S in *. apply Forall_app in Hnn as [Hnn Hs]. pose proof (Forall_inv Hs) as Hs1. destruct (IH Hnn) as (h & Hh & Ef). rewrite foldl_app, Ef. cbn [foldl].
  pose proof (pow2_pos (Z.of_nat k) ltac:(lia)). assert (0 <= at_level pos k) as H0 by (apply Z.div_pos; lia).
  unfold branch_step. rewrite bool_decide_eq_false_2 by exact Hs1. change (Z.land (at_level pos k) 1) with (Z.land (at_level pos k) (Z.shiftl 1 (Z.of_nat 0))).
  rewrite bit_test, Z.div_1_r, at_level_S, Z.shiftr_div_pow2, Z.pow_1_r by lia. pose proof (Z.div_mod (at_level pos k) 2 ltac:(lia)) as Hdm.
  set (i := at_level pos k) in *. rewrite node_S by (apply Z.div_pos; lia). unfold sibling. cbn zeta. fold i.
  destruct (odd_cases i) as [[-> Hm]|[-> Hm]].
  - replace (2 * (i / 2)) with (i - 1) by lia. replace (i - 1 + 1) with i by lia. rewrite Hh.
    destruct (node_some l k (i - 1)) as [x Hx]; [|rewrite Hx; by exists (hash_pair x h)].
    apply lookup_lt_Some in Hh. rewrite <- length_up. lia.
  - replace (2 * (i / 2)) with i by lia. rewrite Hh. destruct (node l k (i + 1)) as [y|] eqn:Ey; cbn [default]; eauto.
Qed.

(** ** What a root binds *)

(** A perfect tree of hashes, and the one a list of leaves describes: a short list is completed by repeating its
    subtree. *)

Inductive htree :=
| HLeaf (x : list Z)
| HNode (a b : htree).

Fixpoint hash_of (t : htree) : list Z :=
  match t with HLeaf x => x | HNode a b => hash_pair (hash_of a) (hash_of b) end.

Fixpoint build (K : nat) (l : list (list Z)) : htree :=
  match K with
  | O => HLeaf (default [] (head l))
  | S K =>
      if decide (length l <= 2 ^ K)%nat then HNode (build K l) (build K l)
      else HNode (build K (take (2 ^ K) l)) (build K (drop (2 ^ K) l))
  end.

(** A complete subtree that repeats its left sibling. *)

Fixpoint repeated (K : nat) (l : list (list Z)) : Prop :=
  match K with
  | O => False
  | S K =>
      if decide (length l <= 2 ^ K)%nat then repeated K l
      else repeated K (take (2 ^ K) l) \/ repeated K (drop (2 ^ K) l) \/ take (2 ^ K) l = drop (2 ^ K) l
  end.

(** Without repetition the tree determines the leaves. *)

Lemma build_inj K : forall l1 l2, (1 <= length l1 <= 2 ^ K)%nat -> (1 <= length l2 <= 2 ^ K)%nat -> ~ repeated K l1 -> ~ repeated K l2 ->
  build K l1 = build K l2 -> l1 = l2.
Proof.
  induction K as [|K IH]; intros l1 l2 H1 H2 R1 R2 E.
  - destruct l1 as [|x [|? ?]], l2 as [|y [|? ?]]; cbn [length Nat.pow] in H1, H2; try lia. by injection E as ->.
  - cbn [build repeated] in *. pose proof (Nat.pow_succ_r' 2 K) as Hp.
    assert (forall l : list (list Z), (1 <= length l <= 2 ^ S K)%nat -> ~ (length l <= 2 ^ K)%nat ->
      (1 <= length (take (2 ^ K) l) <= 2 ^ K)%nat /\ (1 <= length (drop (2 ^ K) l) <= 2 ^ K)%nat) as Hs
      by (intros l ? ?; rewrite length_take, length_drop; lia).
    destruct (decide (length l1 <= 2 ^ K)%nat) as [L1|L1], (decide (length l2 <= 2 ^ K)%nat) as [L2|L2]; injection E as E1 E2.
    + by apply IH; [lia | lia | ..].
    + destruct (Hs l2 H2 L2). exfalso. apply R2. right; right. transitivity l1; [symmetry|]; apply IH; (lia || done || (intros ?; apply R2; eauto)).
    + destruct (Hs l1 H1 L1). exfalso. apply R1. right; right. transitivity l2; [|symmetry]; apply IH; (lia || done || (intros ?; apply R1; eauto)).
    + destruct (Hs l1 H1 L1), (Hs l2 H2 L2). rewrite <- (take_drop (2 ^ K) l1), <- (take_drop (2 ^ K) l2). f_equal; apply IH; try lia; try done; intros ?; solve [apply R1; eauto | apply R2; eauto].
Qed.

(** The inputs of the hash at a level, of a list and of a tree of depth [K]. *)

Fixpoint pair_inputs (l : list (list Z)) : list (list Z) :=
  match l with
  | a :: b :: t => (a ++ b) :: pair_inputs t
  | [a] => [a ++ a]
  | [] => []
  end.

Fixpoint inputs_at (k K : nat) (t : htree) : list (list Z) :=
  match K, t with
  | S K, HNode a b => if decide (k = K) then [hash_of a ++ hash_of b] else inputs_at k K a ++ inputs_at k K b
  | _, _ => []
  end.

(** Two lists have a collision at some level: inputs that differ and have the same double SHA-256. *)

Definition collide (at1 at2 : nat -> list (list Z)) : Prop :=
  exists k x y, x ∈ at1 k /\ y ∈ at2 k /\ x <> y /\ Hash x = Hash y.

Definition collision (l1 l2 : list (list Z)) : Prop := collide (fun k => pair_inputs (up k l1)) (fun k => pair_inputs (up k l2)).

(** Hashes of perfect trees of one depth agree only for equal trees, or exhibit a collision of the hash. *)

Fixpoint perfect (K : nat) (t : htree) : Prop :=
  match K, t with
  | O, HLeaf x => length x = 32%nat
  | S K, HNode a b => perfect K a /\ perfect K b
  | _, _ => False
  end.

Lemma hash_pair_Hash a b : Z.of_nat (length (a ++ b)) < 2 ^ 61 -> hash_pair a b = Hash (a ++ b) /\ length (hash_pair a b) = 32%nat.
Proof.
  intros Hl. pose proof (CHash256_spec [a; b]) as H2. pose proof (CHash256_spec [a ++ b]) as H1. cbn [concat foldl] in H1, H2. rewrite app_nil_r in H1, H2.
  unfold hash_pair, Hash. rewrite H1, H2 by done. by rewrite length_fips_sha256.
Qed.

Lemma perfect_hash K t : perfect K t -> length (hash_of t) = 32%nat.
Proof.
  revert t. induction K as [|K IH]; intros [x|a b] Ht; try done. destruct Ht as [Ha Hb]. cbn [hash_of].
  apply hash_pair_Hash. rewrite length_app, (IH a), (IH b) by done. lia.
Qed.

Lemma collide_mono f g f' g' K : (forall k, (k < K)%nat -> f k ⊆ f' k) -> (forall k, (k < K)%nat -> g k ⊆ g' k) -> (forall k, (K <= k)%nat -> f k = []) ->
  collide f g -> collide f' g'.
Proof.
  intros Hf Hg Hz (k & x & y & Hx & Hy & Hxy). destruct (decide (k < K)%nat) as [Hk|Hk]; [|rewrite Hz in Hx by lia; by apply not_elem_of_nil in Hx].
  exists k, x, y. split_and!; [by apply Hf | by apply Hg | apply Hxy..].
Qed.

Lemma inputs_above k K t : (K <= k)%nat -> inputs_at k K t = [].
Proof.
  revert t. induction K as [|K IH]; intros [x|a b] Hk; cbn [inputs_at]; [done..|]. rewrite decide_False, !IH by lia. done.
Qed.

Lemma inputs_child k K a b : (k < K)%nat -> inputs_at k (S K) (HNode a b) = inputs_at k K a ++ inputs_at k K b.
Proof. intros Hk. cbn [inputs_at]. by rewrite decide_False by lia. Qed.

Lemma collide_child K a b c d : collide (fun k => inputs_at k K a) (fun k => inputs_at k K c) \/ collide (fun k => inputs_at k K b) (fun k => inputs_at k K d) ->
  collide (fun k => inputs_at k (S K) (HNode a b)) (fun k => inputs_at k (S K) (HNode c d)).
Proof.
  intros [Hc|Hc]; (eapply (collide_mono _ _ _ _ K); [| |intros; by apply inputs_above | exact Hc]); intros k Hk; rewrite inputs_child by done;
    intros x Hx; apply elem_of_app; auto.
Qed.

Lemma hash_of_inj K : forall s t, perfect K s -> perfect K t -> hash_of s = hash_of t ->
  s = t \/ collide (fun k => inputs_at k K s) (fun k => inputs_at k K t).
Proof.
  induction K as [|K IH]; intros [x|a b] [y|c d] Hs Ht E; try done; [by left; cbn in E; subst|].
  destruct Hs as [Ha Hb], Ht as [Hc Hd]. cbn [hash_of] in E. pose proof (perfect_hash K a Ha) as la. pose proof (perfect_hash K b Hb) as lb.
  pose proof (perfect_hash K c Hc) as lc. pose proof (perfect_hash K d Hd) as ld.
  destruct (hash_pair_Hash (hash_of a) (hash_of b)) as [E1 _]; [rewrite length_app; lia|].
  destruct (hash_pair_Hash (hash_of c) (hash_of d)) as [E2 _]; [rewrite length_app; lia|].
  destruct (decide (hash_of a ++ hash_of b = hash_of c ++ hash_of d)) as [Eapp|Ne].
  - apply app_inj_1 in Eapp as [Eac Ebd]; [|congruence]. destruct (IH a c Ha Hc Eac) as [-> |]; [|right; apply collide_child; by left].
    destruct (IH b d Hb Hd Ebd) as [-> |]; [by left | right; apply collide_child; by right].
  - right. exists K, (hash_of a ++ hash_of b), (hash_of c ++ hash_of d). cbn [inputs_at]. rewrite !decide_True by done.
    split_and!; [by apply list_elem_of_singleton.. | done | congruence].
Qed.

Lemma build_perfect K : forall l, (1 <= length l <= 2 ^ K)%nat -> Forall (fun x => length x = 32%nat) l -> perfect K (build K l).
Proof.
  induction K as [|K IH]; intros l Hl Hf.
  - destruct l as [|x l]; cbn [length] in Hl; [lia|]. exact (Forall_inv Hf).
  - pose proof (Nat.pow_succ_r' 2 K). cbn [build]. destruct (decide (length l <= 2 ^ K)%nat); [split; apply IH; (done || lia)|].
    split; apply IH; [rewrite length_take; lia | by apply Forall_take | rewrite length_drop; lia | by apply Forall_drop].
Qed.

(** Levels of a list split at a multiple of the width of a subtree. *)

Lemma up_app k : forall p q c, length p = (2 ^ k * c)%nat -> up k (p ++ q) = up k p ++ up k q /\ length (up k p) = c.
Proof.
  induction k as [|k IH]; intros p q c Hp; [cbn in Hp; split; [done | cbn; lia]|].
  rewrite Nat.pow_succ_r' in Hp. destruct (IH p q (2 * c)%nat) as [E El]; [lia|]. rewrite !up_S, E, (pairs_up_app c) by done.
  split; [done|]. rewrite length_pairs_up, El, Nat.div2_div. symmetry. apply (Nat.div_unique _ _ _ 1); lia.
Qed.

Lemma build_root K : forall l, (1 <= length l <= 2 ^ K)%nat -> up K l = [hash_of (build K l)].
Proof.
  induction K as [|K IH]; intros l Hl.
  - destruct l as [|x [|? ?]]; cbn [length Nat.pow] in Hl; (lia || done).
  - rewrite up_S. pose proof (Nat.pow_succ_r' 2 K). cbn [build]. destruct (decide (length l <= 2 ^ K)%nat).
    + rewrite (IH l) by lia. done.
    + rewrite <- (take_drop (2 ^ K) l) at 1. destruct (up_app K (take (2 ^ K) l) (drop (2 ^ K) l) 1) as [-> _]; [rewrite length_take; lia|].
      rewrite (IH (take _ l)) by (rewrite length_take; lia). rewrite (IH (drop _ l)) by (rewrite length_drop; lia). done.
Qed.

Lemma pair_inputs_app m p q : length p = (2 * m)%nat -> pair_inputs (p ++ q) = pair_inputs p ++ pair_inputs q.
Proof.
  revert p. induction m as [|m IH]; intros p Hp; [by destruct p|]. destruct p as [|a [|b p]]; cbn [length] in Hp; [lia..|].
  cbn [app pair_inputs]. rewrite IH by lia. done.
Qed.

Lemma inputs_build k K : forall l, (k < K)%nat -> (1 <= length l <= 2 ^ K)%nat -> inputs_at k K (build K l) ⊆ pair_inputs (up k l).
Proof.
  induction K as [|K IH]; intros l Hk Hl; [lia|]. pose proof (Nat.pow_succ_r' 2 K). cbn [build].
  destruct (decide (length l <= 2 ^ K)%nat) as [Hs|Hs]; (destruct (decide (k = K)) as [-> |Hne]; [cbn [inputs_at]; rewrite decide_True by done | rewrite inputs_child by lia]).
  - rewrite (build_root K l) by lia. done.
  - intros x [Hx|Hx]%elem_of_app; (eapply IH; [lia | lia | exact Hx]).
  - rewrite <- (take_drop (2 ^ K) l) at 3. destruct (up_app K (take (2 ^ K) l) (drop (2 ^ K) l) 1) as [-> _]; [rewrite length_take; lia|].
    rewrite (build_root K (take _ l)) by (rewrite length_take; lia). rewrite (build_root K (drop _ l)) by (rewrite length_drop; lia). done.
  - rewrite <- (take_drop (2 ^ K) l) at 3. assert (2 ^ K = 2 ^ k * (2 * 2 ^ (K - k - 1)))%nat as Hp.
    { rewrite <- Nat.pow_succ_r', <- Nat.pow_add_r. f_equal. lia. }
    destruct (up_app k (take (2 ^ K) l) (drop (2 ^ K) l) (2 * 2 ^ (K - k - 1))) as [-> El]; [rewrite length_take; lia|].
    rewrite (pair_inputs_app (2 ^ (K - k - 1))) by done. intros x [Hx|Hx]%elem_of_app; apply elem_of_app; [left | right];
      (eapply IH; [lia | | exact Hx]); rewrite ?length_take, ?length_drop; lia.
Qed.

Lemma width_below k m c K : 0 <= m -> 2 ^ Z.of_nat k * (2 * m + 2) <= c -> c <= 2 ^ Z.of_nat K -> (k < K)%nat.
Proof.
  intros Hm Hc HcK. destruct (decide (k < K)%nat) as [|Hge]; [done|].
  pose proof (Z.pow_le_mono_r 2 (Z.of_nat K) (Z.of_nat k) ltac:(lia) ltac:(lia)). pose proof (pow2_pos (Z.of_nat K) ltac:(lia)). nia.
Qed.

Lemma nodes_app K p q k : length p = (2 ^ K)%nat -> (k <= K)%nat -> forall i x, 0 <= i ->
  (node p k i = Some x -> node (p ++ q) k i = Some x) /\ (node q k i = Some x -> node (p ++ q) k (i + Z.of_nat (2 ^ (K - k))) = Some x).
Proof.
  intros Hp Hk i x Hi. unfold node. destruct (up_app k p q (2 ^ (K - k))) as [-> Hl]; [rewrite <- Nat.pow_add_r, Hp; f_equal; lia|].
  split; [apply lookup_app_l_Some|]. intros E. rewrite lookup_app_r by lia. rewrite <- E. f_equal. lia.
Qed.

Lemma of_nat_pow2 k : Z.of_nat (2 ^ k) = 2 ^ Z.of_nat k.
Proof. by rewrite Nat2Z.inj_pow. Qed.

Lemma equal_siblings_app K p q : length p = (2 ^ K)%nat -> (length q <= 2 ^ K)%nat ->
  equal_siblings p (Z.of_nat (length p)) \/ equal_siblings q (Z.of_nat (length q)) ->
  equal_siblings (p ++ q) (Z.of_nat (length (p ++ q))).
Proof.
  intros Hp Hq. rewrite length_app. intros [(k & m & x & Hm & Hle & E1 & E2)|(k & m & x & Hm & Hle & E1 & E2)].
  - assert (k < K)%nat as Hk by (apply (width_below k m _ K Hm Hle); rewrite Hp, of_nat_pow2; lia).
    exists k, m, x. split_and!; [done | lia | eapply nodes_app; eauto; lia..].
  - assert (k < K)%nat as Hk by (apply (width_below k m _ K Hm Hle); rewrite <- of_nat_pow2; lia).
    assert (2 ^ (K - k) = 2 * 2 ^ (K - k - 1))%nat as Hw by (rewrite <- Nat.pow_succ_r'; f_equal; lia).
    assert (2 ^ Z.of_nat k * (2 * 2 ^ Z.of_nat (K - k - 1)) = 2 ^ Z.of_nat K) as Hpw.
    { rewrite <- Z.pow_succ_r, <- Z.pow_add_r by lia. f_equal. lia. }
    exists k, (m + Z.of_nat (2 ^ (K - k - 1))), x.
    replace (2 * (m + Z.of_nat (2 ^ (K - k - 1)))) with (2 * m + Z.of_nat (2 ^ (K - k))) by lia.
    replace (2 * m + Z.of_nat (2 ^ (K - k)) + 1) with (2 * m + 1 + Z.of_nat (2 ^ (K - k))) by lia.
    split_and!; [lia | rewrite Nat2Z.inj_add, Hp, Hw, Nat2Z.inj_mul, !of_nat_pow2; nia | ..];
      (eapply nodes_app; [done | lia | lia | done]).
Qed.

Lemma repeated_equal K : forall l, (1 <= length l <= 2 ^ K)%nat -> repeated K l -> equal_siblings l (Z.of_nat (length l)).
Proof.
  induction K as [|K IH]; intros l Hl; [done|]. pose proof (Nat.pow_succ_r' 2 K). cbn [repeated].
  destruct (decide (length l <= 2 ^ K)%nat); [apply IH; lia|]. intros HR. rewrite <- (take_drop (2 ^ K) l).
  assert (length (take (2 ^ K) l) = 2 ^ K)%nat as Ht by (rewrite length_take; lia).
  assert (1 <= length (drop (2 ^ K) l) <= 2 ^ K)%nat as Hd by (rewrite length_drop; lia).
  destruct HR as [R|[R|R]].
  - apply (equal_siblings_app K); [done | lia | left; apply IH; [lia | done]].
  - apply (equal_siblings_app K); [done | lia | right; by apply IH].
  - rewrite <- R. set (p := take (2 ^ K) l) in *. destruct (node_some p K 0) as [x Hx].
    { rewrite <- length_up, build_root by lia. done. }
    exists K, 0, x. split_and!; [done | rewrite length_app, Nat2Z.inj_add, Ht, of_nat_pow2; lia | by eapply nodes_app|].
    destruct (nodes_app K p p K Ht ltac:(lia) 0 x ltac:(lia)) as [_ E]. rewrite Nat.sub_diag in E. by apply E.
Qed.

Lemma unmutated_tree l r : Z.of_nat (length l) <= 2 ^ 31 -> l <> [] -> ComputeMerkleRoot l = Some (r, false) ->
  let K := Z.to_nat (Z.log2_up (Z.of_nat (length l))) in (1 <= length l <= 2 ^ K)%nat /\ r = hash_of (build K l) /\ ~ repeated K l.
Proof.
  intros Hl Hne E. assert (1 <= length l)%nat as H1l by (destruct l; [done | cbn; lia]).
  destruct (MerkleComputation_spec l (2 ^ 32 - 1) false Hl) as (K & h & m & br & Ec & H1 & Hd & Hh & Hm & _); [lia | lia|].
  assert (depth_of l K) as HK by done. rewrite <- (depth_log2 l K HK Hne), Nat2Z.id. cbn zeta.
  unfold ComputeMerkleRoot in E. rewrite Ec in E. cbn [mbind option_bind] in E. injection E as -> ->.
  assert (1 <= length l <= 2 ^ K)%nat as Hlen by (pose proof (one_node _ K H1); rewrite <- of_nat_pow2 in *; lia).
  split_and!; [lia | lia | |].
  - unfold node in Hh. rewrite (build_root K l Hlen) in Hh. by injection Hh.
  - intros R. apply repeated_equal in R; [|done]. apply Hm in R. done.
Qed.

(** ** Properties *)

(** C22. For up to [2^31] leaves the constant-space computation returns the root computed level by level, and
    reports a mutation exactly when two complete sibling subtrees are equal. *)

Theorem ComputeMerkleRoot_correct l : Z.of_nat (length l) <= 2 ^ 31 ->
  exists mutated, ComputeMerkleRoot l = Some (merkle_root l, mutated) /\
    (mutated = true <-> equal_siblings l (Z.of_nat (length l))).
Proof. apply ComputeMerkleRoot_spec. Qed.

Lemma ComputeMerkleRoot_correct_witness : exists mutated,
  ComputeMerkleRoot [[1]; [2]; [3]; [2]; [2]] = Some (merkle_root [[1]; [2]; [3]; [2]; [2]], mutated) /\
  (mutated = true <-> equal_siblings [[1]; [2]; [3]; [2]; [2]] 5).
Proof. apply (ComputeMerkleRoot_correct [[1]; [2]; [3]; [2]; [2]]). vm_compute. discriminate. Defined.

(** The branch of a leaf has one hash per level of the tree and, if none of them is the null hash that marks
    a missing sibling, hashing the leaf along it gives the root. *)

Theorem ComputeMerkleBranch_verifies l position leaf : Z.of_nat (length l) <= 2 ^ 31 -> 0 <= position ->
  l !! Z.to_nat position = Some leaf ->
  exists branch, ComputeMerkleBranch l position = Some branch /\ Z.of_nat (length branch) = Z.log2_up (Z.of_nat (length l)) /\
    (Forall (fun x => x <> uint256_null) branch -> ComputeMerkleRootFromBranch leaf branch position = merkle_root l).
Proof.
  intros Hl Hp Hleaf. pose proof (lookup_lt_Some _ _ _ Hleaf) as Hlt.
  destruct (MerkleComputation_spec l position true Hl Hp) as (K & h & m & br & E & H1 & Hd & Hh & _ & Hbr); [lia|].
  exists (siblings l position K). unfold ComputeMerkleBranch. rewrite E. cbn [mbind option_bind]. split; [apply Hbr; [done | lia]|].
  assert (depth_of l K) as HK by done. split.
  { unfold siblings. rewrite length_map, length_seq. apply depth_log2; [done|]. intros ->. cbn in Hlt. lia. }
  intros Hnn. destruct (branch_climb l position leaf K Hp Hleaf Hnn) as (h' & Hh' & Ef). unfold ComputeMerkleRootFromBranch.
  change (foldl _ (leaf, position) _) with (foldl branch_step (leaf, position) (siblings l position K)). rewrite Ef. cbn [fst].
  symmetry. apply (depth_root l K); [done|]. rewrite <- Hh'. f_equal. symmetry. apply Z.div_small. split; [done|].
  pose proof (one_node _ K (proj1 HK)). lia.
Qed.

Definition demo_leaves : list (list Z) := map (replicate 32) [1; 2; 3; 4; 5; 6].

Lemma ComputeMerkleBranch_verifies_witness : exists branch, ComputeMerkleBranch demo_leaves 4 = Some branch /\ Z.of_nat (length branch) = 3 /\
  ComputeMerkleRootFromBranch (replicate 32 5) branch 4 = merkle_root demo_leaves.
Proof.
  destruct (ComputeMerkleBranch_verifies demo_leaves 4 (replicate 32 5)) as (branch & E & Hl & H); [vm_compute; discriminate | lia | done |].
  exists branch. split_and!; [done | done|]. apply H. vm_compute in E. injection E as <-. repeat (constructor; [vm_compute; discriminate|]). constructor.
Defined.

(** C23. Two lists of leaves whose trees have one depth, that have the same root and that are both reported as
    not mutated, are equal, or at some level of the two trees inputs of the hash collide. *)

Theorem unmutated_root_binds l1 l2 r : Z.of_nat (length l1) <= 2 ^ 31 -> Z.of_nat (length l2) <= 2 ^ 31 ->
  Forall (fun x => length x = 32%nat) l1 -> Forall (fun x => length x = 32%nat) l2 -> l1 <> [] -> l2 <> [] ->
  Z.log2_up (Z.of_nat (length l1)) = Z.log2_up (Z.of_nat (length l2)) ->
  ComputeMerkleRoot l1 = Some (r, false) -> ComputeMerkleRoot l2 = Some (r, false) -> l1 = l2 \/ collision l1 l2.
Proof.
  intros Hl1 Hl2 F1 F2 N1 N2 HK E1 E2. destruct (unmutated_tree l1 r Hl1 N1 E1) as (W1 & R1 & U1). destruct (unmutated_tree l2 r Hl2 N2 E2) as (W2 & R2 & U2).
  rewrite HK in W1, R1, U1. rewrite R1 in R2. set (K := Z.to_nat _) in *.
  destruct (hash_of_inj K (build K l1) (build K l2)) as [Et|Hc]; [by apply build_perfect.. | done | left; by eapply build_inj | right].
  eapply (collide_mono _ _ _ _ K); [intros k Hk; by apply inputs_build.. | intros; by apply inputs_above | exact Hc].
Qed.

Lemma unmutated_root_binds_witness : demo_leaves = demo_leaves \/ collision demo_leaves demo_leaves.
Proof.
  apply (unmutated_root_binds demo_leaves demo_leaves (merkle_root demo_leaves));
    [vm_compute; discriminate | vm_compute; discriminate | repeat (constructor; [done|]); constructor | repeat (constructor; [done|]); constructor
    | discriminate | discriminate | done | vm_compute; done | vm_compute; done].
Defined.
