(* ===== verification/PartialMerkle.v ===== *)
(** * Partial Merkle trees

    [CPartialMerkleTree] and [CMerkleBlock] of [src/merkleblock.h], [.cpp]: the proof that some transactions belong to a block,
    as a depth-first list of bits and hashes, its construction, its serialization and its verification.

    [partial] below is the abstract form of such a proof: the tree of a partial tree, without positions in arrays.  The
    traversal of the verifier accepts exactly what [partial] derives, and the builder makes a derivation. *)

From S2P Require Import Prelude Common BlockIndex Script Hasher Sha2 Hash Serialize Transaction Merkle.
#[local] Open Scope Z_scope.

Record CPartialMerkleTree := {
  nTransactions : Z;
  vBits : list bool;
  vHash : list (list Z);
  fBad : bool }.

(** ** The tree *)

(** [(nTransactions + (1 << height) - 1) >> height], on 32 bits. *)

Definition CalcTreeWidth (n : Z) (height : nat) : Z :=
  Z.shiftr (u32 (u32 (n + u32 (Z.shiftl 1 (Z.of_nat height))) - 1)) (Z.of_nat height).

(** [while (CalcTreeWidth(nHeight) > 1) nHeight++]. *)

Fixpoint tree_height (n : Z) (fuel : nat) (nHeight : nat) : option nat :=
  if 1 <? CalcTreeWidth n nHeight then match fuel with O => None | S fuel => tree_height n fuel (S nHeight) end else Some nHeight.

Fixpoint CalcHash (n : Z) (height : nat) (pos : Z) (vTxid : list (list Z)) : option (list Z) :=
  match height with
  | O => vTxid !! Z.to_nat pos
  | S height =>
      left ← CalcHash n height (u32 (pos * 2)) vTxid;
      right ← (if u32 (u32 (pos * 2) + 1) <? CalcTreeWidth n height then CalcHash n height (u32 (u32 (pos * 2) + 1)) vTxid else Some left);
      Some (Hash2 left right)
  end.

(** ** Construction *)

(** [for (p = pos << height; p < (pos + 1) << height && p < nTransactions; p++) fParentOfMatch |= vMatch[p]]. *)

Fixpoint parent_of_match (fuel : nat) (n p last : Z) (vMatch : list bool) (fParentOfMatch : bool) : option bool :=
  if (p <? last) && (p <? n) then
    match fuel with
    | O => None
    | S fuel => m ← vMatch !! Z.to_nat p; parent_of_match fuel n (u32 (p + 1)) last vMatch (fParentOfMatch || m)
    end
  else Some fParentOfMatch.

Fixpoint TraverseAndBuild (n : Z) (height : nat) (pos : Z) (vTxid : list (list Z)) (vMatch : list bool) (st : list bool * list (list Z)) : option (list bool * list (list Z)) :=
  fParentOfMatch ← parent_of_match (length vMatch) n (u32 (Z.shiftl pos (Z.of_nat height))) (u32 (Z.shiftl (u32 (pos + 1)) (Z.of_nat height))) vMatch false;
  let st := (st.1 ++ [fParentOfMatch], st.2) in
  match height with
  | S height =>
      if (fParentOfMatch : bool) then
        st ← TraverseAndBuild n height (u32 (pos * 2)) vTxid vMatch st;
        if u32 (u32 (pos * 2) + 1) <? CalcTreeWidth n height then TraverseAndBuild n height (u32 (u32 (pos * 2) + 1)) vTxid vMatch st else Some st
      else h ← CalcHash n (S height) pos vTxid; Some (st.1, st.2 ++ [h])
  | O => h ← CalcHash n 0 pos vTxid; Some (st.1, st.2 ++ [h])
  end.

Definition new_CPartialMerkleTree (vTxid : list (list Z)) (vMatch : list bool) : option CPartialMerkleTree :=
  let n := u32 (Z.of_nat (length vTxid)) in
  nHeight ← tree_height n 32 0;
  st ← TraverseAndBuild n nHeight 0 vTxid vMatch ([], []);
  Some {| nTransactions := n; vBits := st.1; vHash := st.2; fBad := false |}.

(** ** Verification *)

(** The reference arguments and the flag of the traversal. *)

Record extraction := {
  nBitsUsed : Z;
  nHashUsed : Z;
  xMatch : list (list Z);
  vnIndex : list Z;
  xBad : bool }.

Definition with_used (x : extraction) (bits hashes : Z) : extraction :=
  {| nBitsUsed := bits; nHashUsed := hashes; xMatch := xMatch x; vnIndex := vnIndex x; xBad := xBad x |}.

Definition set_bad (x : extraction) : extraction :=
  {| nBitsUsed := nBitsUsed x; nHashUsed := nHashUsed x; xMatch := xMatch x; vnIndex := vnIndex x; xBad := true |}.

Definition push_match (x : extraction) (hash : list Z) (pos : Z) : extraction :=
  {| nBitsUsed := nBitsUsed x; nHashUsed := nHashUsed x; xMatch := xMatch x ++ [hash]; vnIndex := vnIndex x ++ [pos]; xBad := xBad x |}.

(** A stored hash is used. *)

Definition use_hash (t : CPartialMerkleTree) (matched : bool) (pos : Z) (x : extraction) : list Z * extraction :=
  match vHash t !! Z.to_nat (nHashUsed x) with
  | None => (uint256_null, set_bad x)
  | Some hash =>
      let x := with_used x (nBitsUsed x) (u32 (nHashUsed x + 1)) in
      (hash, if matched then push_match x hash pos else x)
  end.

Fixpoint TraverseAndExtract (t : CPartialMerkleTree) (height : nat) (pos : Z) (x : extraction) : list Z * extraction :=
  match vBits t !! Z.to_nat (nBitsUsed x) with
  | None => (uint256_null, set_bad x)
  | Some fParentOfMatch =>
      let x := with_used x (u32 (nBitsUsed x + 1)) (nHashUsed x) in
      match height with
      | O => use_hash t fParentOfMatch pos x
      | S height =>
          if (fParentOfMatch : bool) then
            let '(hl, x) := TraverseAndExtract t height (u32 (pos * 2)) x in
            let '(hr, x) :=
              if u32 (u32 (pos * 2) + 1) <? CalcTreeWidth (nTransactions t) height then
                let '(hr, x) := TraverseAndExtract t height (u32 (u32 (pos * 2) + 1)) x in
                (hr, if bool_decide (hr = hl) then set_bad x else x)
              else (hl, x) in
            (Hash2 hl hr, x)
          else use_hash t false pos x
      end
  end.

(** The null hash is a failure.  [fBad] is a member: it stays set.  [vnIndex] is not cleared, only appended to. *)

Definition ExtractMatches (t : CPartialMerkleTree) (index : list Z) : option (list Z * list (list Z) * list Z * CPartialMerkleTree) :=
  if nTransactions t =? 0 then Some (uint256_null, [], index, t)
  else if nTransactions t <? Z.of_nat (length (vHash t)) then Some (uint256_null, [], index, t)
  else if (length (vBits t) <? length (vHash t))%nat then Some (uint256_null, [], index, t)
  else
    nHeight ← tree_height (nTransactions t) 32 0;
    let '(hashMerkleRoot, x) := TraverseAndExtract t nHeight 0 {| nBitsUsed := 0; nHashUsed := 0; xMatch := []; vnIndex := index; xBad := fBad t |} in
    let t' := {| nTransactions := nTransactions t; vBits := vBits t; vHash := vHash t; fBad := xBad x |} in
    let bad := xBad x || negb (u32 (nBitsUsed x + 7) / 8 =? (Z.of_nat (length (vBits t)) + 7) / 8) || negb (nHashUsed x =? Z.of_nat (length (vHash t))) in
    Some (if bad then uint256_null else hashMerkleRoot, xMatch x, vnIndex x, t').

(** ** Serialization *)

(** [vBytes[p / 8] |= vBits[p] << (p % 8)]. *)

Fixpoint pack_loop (p : nat) (bits : list bool) (vBytes : list Z) : list Z :=
  match bits with
  | [] => vBytes
  | b :: bits => pack_loop (S p) bits (alter (fun x => Z.lor x (Z.shiftl (Z.b2z b) (Z.of_nat (p mod 8)))) (p / 8)%nat vBytes)
  end.

Definition pack_bits (bits : list bool) : list Z := pack_loop 0 bits (replicate ((length bits + 7) / 8) 0).

(** [vBits[p] = (vBytes[p / 8] & (1 << (p % 8))) != 0]. *)

Definition unpack_bits (vBytes : list Z) : list bool :=
  (fun p => negb (Z.land (default 0 (vBytes !! (p / 8)%nat)) (Z.shiftl 1 (Z.of_nat (p mod 8))) =? 0)) <$> (seq 0 (8 * length vBytes)).

Definition partial_codec : codec CPartialMerkleTree :=
  codec_class (fun t => (nTransactions t, (vHash t, pack_bits (vBits t))))
    (fun '(n, (hashes, bytes)) => {| nTransactions := n; vHash := hashes; vBits := unpack_bits bytes; fBad := false |}) 80
    (codec_seq uint32_codec (codec_seq (vector_codec uint256_codec) bytes_codec)).

(** ** Merkle blocks *)

Record CMerkleBlock := { mb_header : CBlockHeader; mb_txn : CPartialMerkleTree }.

(** Which transactions are in the set [txids], and how many. *)

Definition match_txids (txids : list (list Z)) (vHashes : list (list Z)) : list bool := (fun id => bool_decide (id ∈ txids)) <$> vHashes.

Inductive merkle_block_exn := NotAllExpectedTransactionsFound.

(** The constructor that reads a block and matches a set of ids; [txids] has no duplicates. *)

Definition new_CMerkleBlock (header : CBlockHeader) (vHashes : list (list Z)) (txids : list (list Z)) : outcome merkle_block_exn CMerkleBlock :=
  let vMatch := match_txids txids vHashes in
  if (length txids =? length (filter (fun m => m = true) vMatch))%nat then
    match new_CPartialMerkleTree vHashes vMatch with Some t => Ok {| mb_header := header; mb_txn := t |} | None => Abort end
  else Throw NotAllExpectedTransactionsFound.

(** ** The shape of the tree *)

Section width.
Context (n : Z) (Hn : 0 < n <= 2 ^ 31).

Lemma CalcTreeWidth_spec k : (k <= 31)%nat -> CalcTreeWidth n k = level_size k n.
Proof.
  intros Hk. assert (1 <= 2 ^ Z.of_nat k <= 2 ^ 31) as Hp by (split; [change 1 with (2 ^ 0) | ]; apply Z.pow_le_mono_r; lia).
  assert (u32 (Z.shiftl 1 (Z.of_nat k)) = 2 ^ Z.of_nat k) as E by (unfold u32; rewrite Z.shiftl_1_l; apply Z.mod_small; lia). unfold CalcTreeWidth, level_size. rewrite E, Z.shiftr_div_pow2 by lia. f_equal. unfold u32.
  rewrite Zminus_mod_idemp_l. apply Z.mod_small. lia.
Qed.

Lemma level_size_pos k : 1 <= level_size k n <= n.
Proof.
  unfold level_size. pose proof (pow2_pos (Z.of_nat k) ltac:(lia)) as Hp. split; [apply Z.div_le_lower_bound; lia|]. apply Z.div_le_upper_bound; [lia|]. nia.
Qed.

Lemma tree_height_spec : exists K, tree_height n 32 0 = Some K /\ (K <= 31)%nat /\ level_size K n = 1 /\ (K = 0%nat \/ 2 <= level_size (K - 1) n).
Proof.
  assert (level_size 31 n = 1) as H31 by (pose proof (level_size_pos 31); unfold level_size in *; change (2 ^ Z.of_nat 31) with (2 ^ 31) in *; symmetry; apply Z.div_unique with (n - 1); lia).
  assert (forall d k, (k + d = 31)%nat -> (k = 0%nat \/ 2 <= level_size (k - 1) n) -> forall fuel, (d <= fuel)%nat -> exists K, tree_height n fuel k = Some K /\ (K <= 31)%nat /\ level_size K n = 1 /\ (K = 0%nat \/ 2 <= level_size (K - 1) n)) as Hgo.
  { induction d as [|d IH]; intros k Hk Hprev fuel Hf; pose proof (level_size_pos k).
    - assert (k = 31%nat) as -> by lia. exists 31%nat. destruct fuel; cbn [tree_height]; rewrite CalcTreeWidth_spec, H31 by lia; split_and!; done || lia || (by right; destruct Hprev).
    - destruct fuel as [|fuel]; [lia|]. cbn [tree_height]. rewrite CalcTreeWidth_spec by lia. destruct (Z.ltb_spec 1 (level_size k n)).
      + apply IH; [lia | right; replace (S k - 1)%nat with k by lia; lia | lia].
      + exists k. split_and!; [done | lia | lia | done]. }
  apply (Hgo 31%nat 0%nat); [lia | by left | lia].
Qed.

(** The children of a node, and that their positions fit. *)

Lemma child_pos k pos : (k <= 30)%nat -> 0 <= pos < level_size (S k) n -> 0 <= 2 * pos < level_size k n /\ u32 (pos * 2) = 2 * pos /\ u32 (u32 (pos * 2) + 1) = 2 * pos + 1.
Proof.
  intros Hk Hpos. pose proof (level_size_pos k). rewrite level_size_S in Hpos. assert (2 * pos < level_size k n) by (pose proof (Z.mul_div_le (level_size k n + 1) 2); lia).
  unfold u32. rewrite !Z.mod_small; rewrite ?Z.mod_small; lia.
Qed.

(** The leaves below a node. *)

Definition first_leaf (k : nat) (pos : Z) : Z := pos * 2 ^ Z.of_nat k.
Definition last_leaf (k : nat) (pos : Z) : Z := Z.min ((pos + 1) * 2 ^ Z.of_nat k) n.

Lemma leaves_below k pos : 0 <= pos < level_size k n -> 0 <= first_leaf k pos < last_leaf k pos /\ last_leaf k pos <= n.
Proof.
  unfold first_leaf, last_leaf, level_size. intros Hpos. pose proof (pow2_pos (Z.of_nat k) ltac:(lia)) as Hp. pose proof (Z.mul_div_le (n + 2 ^ Z.of_nat k - 1) (2 ^ Z.of_nat k) ltac:(lia)). nia.
Qed.

Lemma leaves_split k pos : 0 <= pos < level_size (S k) n -> first_leaf (S k) pos = first_leaf k (2 * pos) /\
  (2 * pos + 1 < level_size k n -> last_leaf k (2 * pos) = first_leaf k (2 * pos + 1) /\ last_leaf k (2 * pos + 1) = last_leaf (S k) pos) /\
  (level_size k n <= 2 * pos + 1 -> last_leaf k (2 * pos) = last_leaf (S k) pos).
Proof.
  intros Hpos. pose proof (pow2_pos (Z.of_nat k) ltac:(lia)) as Hp. unfold first_leaf, last_leaf. rewrite Nat2Z.inj_succ, Z.pow_succ_r by lia. set (P := 2 ^ Z.of_nat k) in *. split; [lia|]. split.
  - intros H1. destruct (leaves_below k (2 * pos + 1)) as [H2 _]; [lia|]. unfold first_leaf, last_leaf in H2. fold P in H2. lia.
  - unfold level_size. fold P. intros H1. pose proof (Z.mul_succ_div_gt (n + P - 1) P ltac:(lia)). assert (n <= (2 * pos + 1) * P) by nia. nia.
Qed.

End width.

(** ** Proofs as trees *)

(** [partial n k pos bits hashes root matches inputs]: the bits and hashes describe the part of a tree of [n] leaves below
    node [pos] of level [k]; the node has the hash [root], the matched leaves are [matches], and [inputs] is what was hashed. *)

Inductive partial (n : Z) : nat -> Z -> list bool -> list (list Z) -> list Z -> list (Z * list Z) -> list (list Z) -> Prop :=
| partial_leaf pos (b : bool) h : partial n 0 pos [b] [h] h (if b then [(pos, h)] else []) []
| partial_pruned k pos h : partial n (S k) pos [false] [h] h [] []
| partial_pair k pos bits1 bits2 hs1 hs2 a b ms1 ms2 is1 is2 :
    2 * pos + 1 < level_size k n -> partial n k (2 * pos) bits1 hs1 a ms1 is1 -> partial n k (2 * pos + 1) bits2 hs2 b ms2 is2 -> b <> a ->
    partial n (S k) pos (true :: bits1 ++ bits2) (hs1 ++ hs2) (Hash2 a b) (ms1 ++ ms2) ((a ++ b) :: is1 ++ is2)
| partial_alone k pos bits hs a ms ins :
    level_size k n <= 2 * pos + 1 -> partial n k (2 * pos) bits hs a ms ins -> partial n (S k) pos (true :: bits) hs (Hash2 a a) ms ((a ++ a) :: ins).

(** The traversal behind a prefix of the bits and hashes. *)

Definition advance (x : extraction) (bits : list bool) (hs : list (list Z)) (ms : list (Z * list Z)) : extraction :=
  {| nBitsUsed := nBitsUsed x + Z.of_nat (length bits); nHashUsed := nHashUsed x + Z.of_nat (length hs);
     xMatch := xMatch x ++ (snd <$> ms); vnIndex := vnIndex x ++ (fst <$> ms); xBad := xBad x |}.

Lemma advance_app x bits1 hs1 ms1 bits2 hs2 ms2 : advance (advance x bits1 hs1 ms1) bits2 hs2 ms2 = advance x (bits1 ++ bits2) (hs1 ++ hs2) (ms1 ++ ms2).
Proof. unfold advance. cbn. rewrite !length_app, !fmap_app, !app_assoc. f_equal; lia. Qed.

Record at_place (t : CPartialMerkleTree) (x : extraction) (bits : list bool) (hs : list (list Z)) : Prop := {
  ap_bits : exists pre post, vBits t = pre ++ bits ++ post /\ nBitsUsed x = Z.of_nat (length pre);
  ap_hashes : exists pre post, vHash t = pre ++ hs ++ post /\ nHashUsed x = Z.of_nat (length pre) }.

Lemma at_place_app t x bits1 bits2 hs1 hs2 ms : at_place t x (bits1 ++ bits2) (hs1 ++ hs2) -> at_place t x bits1 hs1 /\ at_place t (advance x bits1 hs1 ms) bits2 hs2.
Proof.
  intros [(p & q & E1 & E2) (r & s & E3 & E4)]. split; split.
  - exists p, (bits2 ++ q). by rewrite E1, <- !app_assoc.
  - exists r, (hs2 ++ s). by rewrite E3, <- !app_assoc.
  - exists (p ++ bits1), q. rewrite E1, <- !app_assoc. split; [done|]. cbn. rewrite length_app. lia.
  - exists (r ++ hs1), s. rewrite E3, <- !app_assoc. split; [done|]. cbn. rewrite length_app. lia.
Qed.

Definition counters_fit (t : CPartialMerkleTree) : Prop := Z.of_nat (length (vBits t)) < 2 ^ 32 /\ Z.of_nat (length (vHash t)) < 2 ^ 32.

Lemma next_bit t x b bits hs : counters_fit t -> at_place t x (b :: bits) hs ->
  vBits t !! Z.to_nat (nBitsUsed x) = Some b /\ with_used x (u32 (nBitsUsed x + 1)) (nHashUsed x) = advance x [b] [] [].
Proof.
  intros [Hf _] [(p & q & E1 & E2) _]. cbn [app] in E1. rewrite E1, E2, Nat2Z.id, list_lookup_middle by done. split; [done|]. rewrite E1, length_app in Hf. cbn in Hf.
  unfold with_used, advance. cbn. rewrite !app_nil_r. f_equal; [rewrite E2; unfold u32; apply Z.mod_small; lia | lia].
Qed.

Lemma use_hash_spec t x h hs matched pos : counters_fit t -> at_place t x [] (h :: hs) ->
  use_hash t matched pos x = (h, advance x [] [h] (if matched then [(pos, h)] else [])).
Proof.
  intros [_ Hf] [_ (p & q & E1 & E2)]. cbn [app] in E1. unfold use_hash. rewrite E1, E2, Nat2Z.id, list_lookup_middle by done. rewrite E1, length_app in Hf. cbn in Hf. f_equal.
  assert (u32 (nHashUsed x + 1) = nHashUsed x + 1) as E by (unfold u32; apply Z.mod_small; lia). rewrite E2 in E. rewrite E.
  destruct matched; unfold push_match, with_used, advance; cbn; rewrite ?app_nil_r; f_equal; lia.
Qed.

Lemma extract_complete t k pos bits hs r ms ins : 0 < nTransactions t <= 2 ^ 31 -> counters_fit t -> partial (nTransactions t) k pos bits hs r ms ins -> (k <= 31)%nat -> 0 <= pos < level_size k (nTransactions t) ->
  forall x, at_place t x bits hs -> TraverseAndExtract t k pos x = (r, advance x bits hs ms).
Proof.
  intros Hn Hf Hp. induction Hp as [pos b h|k pos h|k pos bits1 bits2 hs1 hs2 a b ms1 ms2 is1 is2 Hw H1 IH1 H2 IH2 Hne|k pos bits hs a ms ins Hw H1 IH1]; intros Hk Hpos x Hx; cbn [TraverseAndExtract].
  - destruct (next_bit t x b [] [h] Hf Hx) as [-> ->]. destruct (at_place_app t x [b] [] [] [h] [] Hx) as [_ Hx']. rewrite (use_hash_spec t _ h [] b pos Hf Hx'). by rewrite advance_app.
  - destruct (next_bit t x false [] [h] Hf Hx) as [-> ->]. destruct (at_place_app t x [false] [] [] [h] [] Hx) as [_ Hx']. rewrite (use_hash_spec t _ h [] false pos Hf Hx'). by rewrite advance_app.
  - destruct (next_bit t x true _ _ Hf Hx) as [-> ->]. destruct (child_pos _ Hn k pos ltac:(lia) Hpos) as (Hc & E1 & E2). rewrite E2, E1.
    destruct (at_place_app t x [true] (bits1 ++ bits2) [] (hs1 ++ hs2) [] Hx) as [_ Hx1]. destruct (at_place_app t _ bits1 bits2 hs1 hs2 ms1 Hx1) as [Hx2 Hx3].
    rewrite (IH1 ltac:(lia) Hc _ Hx2), (CalcTreeWidth_spec _ Hn) by lia. rewrite (proj2 (Z.ltb_lt _ _)) by done. rewrite (IH2 ltac:(lia) ltac:(lia) _ Hx3), bool_decide_false by done. by rewrite !advance_app.
  - destruct (next_bit t x true _ _ Hf Hx) as [-> ->]. destruct (child_pos _ Hn k pos ltac:(lia) Hpos) as (Hc & E1 & E2). rewrite E2, E1.
    destruct (at_place_app t x [true] bits [] hs [] Hx) as [_ Hx1]. rewrite (IH1 ltac:(lia) Hc _ Hx1), (CalcTreeWidth_spec _ Hn) by lia.
    rewrite (proj2 (Z.ltb_ge _ _)) by done. by rewrite !advance_app.
Qed.

Lemma prefix_join {A} (v p1 b1 q1 p2 b2 q2 : list A) : v = p1 ++ b1 ++ q1 -> v = p2 ++ b2 ++ q2 -> length p2 = (length p1 + length b1)%nat -> v = p1 ++ (b1 ++ b2) ++ q2.
Proof.
  intros E1 E2 El. rewrite E1 in E2. rewrite app_assoc in E2. apply app_inj_1 in E2 as [<- Eq]; [|rewrite length_app; lia]. by rewrite E1, Eq, <- !app_assoc.
Qed.

Lemma at_place_join t x bits1 bits2 hs1 hs2 ms : at_place t x bits1 hs1 -> at_place t (advance x bits1 hs1 ms) bits2 hs2 -> at_place t x (bits1 ++ bits2) (hs1 ++ hs2).
Proof.
  intros [(p & q & E1 & E2) (r & s & E3 & E4)] [(p' & q' & E1' & E2') (r' & s' & E3' & E4')]. cbn in E2', E4'. split.
  - exists p, q'. split; [|done]. apply (prefix_join _ p bits1 q p' bits2 q' E1 E1'). lia.
  - exists r, s'. split; [|done]. apply (prefix_join _ r hs1 s r' hs2 s' E3 E3'). lia.
Qed.

Lemma at_place_end t x bits hs ms : at_place t x bits hs -> at_place t (advance x bits hs ms) [] [].
Proof. intros H. apply (at_place_app t x bits [] hs [] ms). by rewrite !app_nil_r. Qed.

Lemma bad_stays t k : forall pos x, xBad x = true -> xBad (TraverseAndExtract t k pos x).2 = true.
Proof.
  assert (forall m pos x, xBad x = true -> xBad (use_hash t m pos x).2 = true) as Hu by (intros m pos x Hx; unfold use_hash; destruct (vHash t !! _); [by destruct m | done]).
  induction k as [|k IH]; intros pos x Hx; cbn [TraverseAndExtract]; (destruct (vBits t !! _) as [b|]; [|done]); [by apply Hu|]. destruct b; [|by apply Hu].
  pose proof (IH (u32 (pos * 2)) (with_used x (u32 (nBitsUsed x + 1)) (nHashUsed x)) Hx) as H1. destruct (TraverseAndExtract t k _ _) as [hl x1]. cbn in H1.
  destruct (_ <? _); [|done]. pose proof (IH (u32 (u32 (pos * 2) + 1)) x1 H1) as H2. destruct (TraverseAndExtract t k _ x1) as [hr x2]. cbn in *. by destruct (bool_decide _).
Qed.

Lemma use_hash_sound t x matched pos r x' : counters_fit t -> at_place t x [] [] -> use_hash t matched pos x = (r, x') -> xBad x' = false ->
  at_place t x [] [r] /\ x' = advance x [] [r] (if matched then [(pos, r)] else []).
Proof.
  intros Hf Hx E Hb. assert (at_place t x [] [r]) as Hx'.
  { destruct Hx as [Hx (p & q & E1 & E2)]. split; [done|]. unfold use_hash in E. rewrite E1, E2, Nat2Z.id in E. cbn [app] in E. rewrite lookup_app_r in E by lia. rewrite Nat.sub_diag in E.
    destruct q as [|h q]; cbn in E; injection E as <- <-; [done|]. exists p, q. by rewrite E1. }
  split; [done|]. rewrite (use_hash_spec t x r [] matched pos Hf Hx') in E. by injection E.
Qed.

Lemma bit_sound t x b : counters_fit t -> at_place t x [] [] -> vBits t !! Z.to_nat (nBitsUsed x) = Some b ->
  at_place t x [b] [] /\ with_used x (u32 (nBitsUsed x + 1)) (nHashUsed x) = advance x [b] [] [].
Proof.
  intros Hf [(p & q & E1 & E2) Hh] Hb. assert (at_place t x [b] []) as Hx.
  { split; [|done]. rewrite E1, E2, Nat2Z.id in Hb. cbn [app] in Hb. rewrite lookup_app_r in Hb by lia. rewrite Nat.sub_diag in Hb. destruct q as [|b' q]; [done|]. injection Hb as ->. exists p, q. by rewrite E1. }
  split; [done|]. by apply (next_bit t x b [] [] Hf Hx).
Qed.

Lemma extract_sound t k : 0 < nTransactions t <= 2 ^ 31 -> counters_fit t -> (k <= 31)%nat -> forall pos x r x', 0 <= pos < level_size k (nTransactions t) -> at_place t x [] [] ->
  TraverseAndExtract t k pos x = (r, x') -> xBad x' = false -> exists bits hs ms ins, partial (nTransactions t) k pos bits hs r ms ins /\ at_place t x bits hs /\ x' = advance x bits hs ms.
Proof.
  intros Hn Hf. induction k as [|k IH]; intros Hk pos x r x' Hpos Hx E Hb; cbn [TraverseAndExtract] in E; (destruct (vBits t !! Z.to_nat (nBitsUsed x)) as [b|] eqn:Eb; [|injection E as <- <-; done]);
    destruct (bit_sound t x b Hf Hx Eb) as [Hx1 Ex1]; rewrite Ex1 in E; pose proof (at_place_end t x [b] [] [] Hx1) as Hx2.
  - destruct (use_hash_sound t _ b pos r x' Hf Hx2 E Hb) as [Hx3 ->]. eexists [b], [r], _, _. split; [apply partial_leaf|]. split; [by apply (at_place_join t x [b] [] [] [r] [])|]. by rewrite advance_app.
  - destruct b; [|destruct (use_hash_sound t _ false pos r x' Hf Hx2 E Hb) as [Hx3 ->]; eexists [false], [r], _, _; split; [apply partial_pruned|]; split; [by apply (at_place_join t x [false] [] [] [r] []) | by rewrite advance_app]].
    destruct (child_pos _ Hn k pos ltac:(lia) Hpos) as (Hc & E1 & E2). rewrite E2, E1, (CalcTreeWidth_spec _ Hn) in E by lia.
    destruct (TraverseAndExtract t k (2 * pos) _) as [hl xl] eqn:El. destruct (Z.ltb_spec (2 * pos + 1) (level_size k (nTransactions t))) as [Hw|Hw].
    + destruct (TraverseAndExtract t k (2 * pos + 1) xl) as [hr xr] eqn:Er. injection E as <- <-. destruct (bool_decide (hr = hl)) eqn:Eq; [done|]. apply bool_decide_eq_false_1 in Eq.
      assert (xBad xl = false) as Hbl by (destruct (xBad xl) eqn:Ebl; [|done]; pose proof (bad_stays t k (2 * pos + 1) xl Ebl) as H; rewrite Er in H; cbn in H; congruence).
      destruct (IH ltac:(lia) _ _ _ _ Hc Hx2 El Hbl) as (bits1 & hs1 & ms1 & is1 & P1 & A1 & ->). destruct (IH ltac:(lia) (2 * pos + 1) _ _ _ ltac:(lia) (at_place_end _ _ _ _ _ A1) Er Hb) as (bits2 & hs2 & ms2 & is2 & P2 & A2 & ->).
      eexists _, _, _, _. split; [by apply (partial_pair _ k pos bits1 bits2 hs1 hs2 hl hr ms1 ms2 is1 is2)|]. rewrite !advance_app. split; [|done].
      apply (at_place_join t x [true] (bits1 ++ bits2) [] (hs1 ++ hs2) [] Hx1). by apply (at_place_join t _ bits1 bits2 hs1 hs2 ms1).
    + injection E as <- <-. destruct (IH ltac:(lia) _ _ _ _ Hc Hx2 El Hb) as (bits1 & hs1 & ms1 & is1 & P1 & A1 & ->).
      eexists _, _, _, _. split; [by apply (partial_alone _ k pos bits1 hs1 hl ms1 is1)|]. rewrite !advance_app. split; [|done]. by apply (at_place_join t x [true] bits1 [] hs1 [] Hx1).
Qed.

(** ** What the builder makes *)

Lemma CalcHash_spec l k pos : 0 < Z.of_nat (length l) <= 2 ^ 31 -> (k <= 31)%nat -> 0 <= pos < level_size k (Z.of_nat (length l)) ->
  CalcHash (Z.of_nat (length l)) k pos l = node l k pos.
Proof.
  intros Hn. revert pos. induction k as [|k IH]; intros pos Hk Hpos; [done|]. cbn [CalcHash]. destruct (child_pos _ Hn k pos ltac:(lia) Hpos) as (Hc & E1 & E2).
  rewrite E2, E1, (CalcTreeWidth_spec _ Hn), (IH (2 * pos)), node_S by lia. destruct (node_some l k (2 * pos) Hc) as [a ->]. cbn [mbind option_bind].
  destruct (Z.ltb_spec (2 * pos + 1) (level_size k (Z.of_nat (length l)))) as [Hw|Hw].
  - rewrite IH by lia. by destruct (node_some l k (2 * pos + 1) ltac:(lia)) as [b ->].
  - by rewrite (node_none l k (2 * pos + 1)).
Qed.

(** The matched leaves from [lo] up to [hi], with their positions. *)

Definition matches_in (l : list (list Z)) (m : list bool) (lo hi : Z) : list (Z * list Z) :=
  omap (fun i => b ← m !! Z.to_nat i; if (b : bool) then h ← l !! Z.to_nat i; Some (i, h) else None) (seqZ lo (hi - lo)).

Lemma matches_in_app l m lo mid hi : lo <= mid <= hi -> matches_in l m lo hi = matches_in l m lo mid ++ matches_in l m mid hi.
Proof. intros H. unfold matches_in. rewrite <- omap_app. f_equal. replace (hi - lo) with ((mid - lo) + (hi - mid)) by lia. rewrite seqZ_app by lia. do 2 f_equal. lia. Qed.

Lemma elem_of_matches_in l m lo hi i h : 0 <= lo -> (i, h) ∈ matches_in l m lo hi <-> lo <= i < hi /\ m !! Z.to_nat i = Some true /\ l !! Z.to_nat i = Some h.
Proof.
  intros Hlo. unfold matches_in. rewrite list_elem_of_omap. setoid_rewrite elem_of_seqZ. split.
  - intros (j & Hj & E). destruct (m !! Z.to_nat j) as [[]|] eqn:Em; cbn in E; [|done..]. destruct (l !! Z.to_nat j) eqn:El; cbn in E; [|done]. injection E as <- <-. split_and!; try done; lia.
  - intros (Hi & Em & El). exists i. split; [lia|]. by rewrite Em; cbn; rewrite El.
Qed.

Lemma matches_in_nil l m lo hi : 0 <= lo -> (forall i, lo <= i < hi -> m !! Z.to_nat i <> Some true) -> matches_in l m lo hi = [].
Proof.
  intros Hlo H. destruct (matches_in l m lo hi) as [|[i h] ms] eqn:E; [done|]. assert ((i, h) ∈ matches_in l m lo hi) as Hin by (rewrite E; left).
  apply elem_of_matches_in in Hin as (Hi & Hm & _); [|done]. by destruct (H i Hi).
Qed.

Lemma matches_in_one l m i h (b : bool) : 0 <= i -> l !! Z.to_nat i = Some h -> m !! Z.to_nat i = Some b -> matches_in l m i (i + 1) = if b then [(i, h)] else [].
Proof.
  intros Hi El Em. unfold matches_in. replace (i + 1 - i) with 1 by lia. rewrite seqZ_cons, seqZ_nil by lia. cbn [omap list_omap]. rewrite Em. cbn [mbind option_bind]. destruct b; [by rewrite El | done].
Qed.

Lemma parent_of_match_spec m last : last < 2 ^ 32 -> Z.of_nat (length m) <= 2 ^ 31 -> forall fuel p acc, 0 <= p -> Z.of_nat (length m) - p <= Z.of_nat fuel ->
  exists b, parent_of_match fuel (Z.of_nat (length m)) p last m acc = Some (acc || b) /\ (b = true <-> exists i, p <= i < Z.min last (Z.of_nat (length m)) /\ m !! Z.to_nat i = Some true).
Proof.
  intros Hlast Hm. induction fuel as [|fuel IH]; intros p acc Hp Hf; cbn [parent_of_match]; destruct ((p <? last) && (p <? Z.of_nat (length m))) eqn:Ec.
  - apply andb_true_iff in Ec as [_ Ec%Z.ltb_lt]. lia.
  - exists false. rewrite orb_false_r. split; [done|]. split; [done|]. intros (i & Hi & _). lia.
  - apply andb_true_iff in Ec as [E1%Z.ltb_lt E2%Z.ltb_lt]. destruct (lookup_lt_is_Some_2 m (Z.to_nat p)) as [c Hc]; [lia|]. rewrite Hc. cbn [mbind option_bind].
    assert (u32 (p + 1) = p + 1) as -> by (unfold u32; apply Z.mod_small; lia). destruct (IH (p + 1) (acc || c)) as (b & -> & Hb); [lia | lia |].
    exists (c || b). rewrite orb_assoc. split; [done|]. rewrite orb_true_iff, Hb. split.
    + intros [-> | (i & Hi & Ei)]; [exists p | exists i]; (split; [lia | done]).
    + intros (i & Hi & Ei). destruct (decide (i = p)) as [-> |]; [left; congruence | right; exists i; split; [lia | done]].
  - exists false. rewrite orb_false_r. split; [done|]. split; [done|]. intros (i & Hi & _). apply andb_false_iff in Ec as [Ec%Z.ltb_ge | Ec%Z.ltb_ge]; lia.
Qed.

(** The bit of a node: whether a leaf below it is matched. *)

Lemma node_bit m k pos : let n := Z.of_nat (length m) in 0 < n <= 2 ^ 31 -> (k <= 31)%nat -> 0 <= pos < level_size k n ->
  exists b, parent_of_match (length m) n (u32 (Z.shiftl pos (Z.of_nat k))) (u32 (Z.shiftl (u32 (pos + 1)) (Z.of_nat k))) m false = Some b /\
    (b = true <-> exists i, first_leaf k pos <= i < last_leaf n k pos /\ m !! Z.to_nat i = Some true).
Proof.
  intros n Hn Hk Hpos. destruct (leaves_below n Hn k pos Hpos) as [H1 H2]. unfold first_leaf, last_leaf in *. pose proof (level_size_pos n Hn k) as Hs.
  assert (1 <= 2 ^ Z.of_nat k <= 2 ^ 31) as Hp by (split; [change 1 with (2 ^ 0) | ]; apply Z.pow_le_mono_r; lia).
  assert (u32 (pos + 1) = pos + 1) as -> by (unfold u32; apply Z.mod_small; lia). rewrite !Z.shiftl_mul_pow2 by lia.
  assert ((pos + 1) * 2 ^ Z.of_nat k < 2 ^ 32) as Hl by nia. unfold u32. rewrite !Z.mod_small by lia.
  destruct (parent_of_match_spec m _ Hl ltac:(lia) (length m) (pos * 2 ^ Z.of_nat k) false) as (b & E & Hb); [lia | lia |]. exists b. done.
Qed.

(** No node of the tree is equal to its sibling. *)

Definition distinct_siblings (l : list (list Z)) : Prop := forall k i x, 0 <= i -> node l k (2 * i) = Some x -> node l k (2 * i + 1) <> Some x.

Lemma build_partial l m k : let n := Z.of_nat (length l) in 0 < n <= 2 ^ 31 -> length m = length l -> distinct_siblings l -> (k <= 31)%nat -> forall pos st, 0 <= pos < level_size k n ->
  exists bits hs r ins, TraverseAndBuild n k pos l m st = Some (st.1 ++ bits, st.2 ++ hs) /\ node l k pos = Some r /\
    partial n k pos bits hs r (matches_in l m (first_leaf k pos) (last_leaf n k pos)) ins /\ Forall (fun h => exists k i, 0 <= i /\ node l k i = Some h) hs.
Proof.
  intros n Hn Hm Hd. induction k as [|k IH]; intros Hk pos st Hpos; cbn [TraverseAndBuild]; destruct (node_bit m _ pos ltac:(lia) Hk ltac:(by rewrite Hm)) as (b & Eb & Hb);
    rewrite Hm in Eb, Hb; fold n in Eb, Hb; rewrite Hm, Eb; cbn [mbind option_bind]; destruct (leaves_below n Hn _ pos Hpos) as [Hl1 Hl2]; destruct (node_some l _ pos Hpos) as [r Er].
  - rewrite (CalcHash_spec l 0 pos Hn Hk Hpos : CalcHash n 0 pos l = _), Er. cbn [mbind option_bind fst snd]. eexists [b], [r], r, _. split; [done|]. split; [done|].
    assert (first_leaf 0 pos = pos /\ last_leaf n 0 pos = pos + 1) as [E1 E2] by (unfold first_leaf, last_leaf in *; change (2 ^ Z.of_nat 0) with 1 in *; lia). rewrite E1, E2 in *.
    destruct (lookup_lt_is_Some_2 m (Z.to_nat pos)) as [c Hc]; [lia|]. rewrite (matches_in_one l m pos r c) by (done || lia).
    assert (b = c) as <- by (destruct b, c; try done; [destruct Hb as [(i & Hi & Ei) _]; [done|]; replace i with pos in Ei by lia; congruence | apply Hb; exists pos; split; [lia | done]]).
    split; [apply partial_leaf|]. apply list.Forall_singleton. exists 0%nat, pos. split; [lia | done].
  - destruct b.
    + destruct (child_pos n Hn k pos ltac:(lia) Hpos) as (Hc & E1 & E2). rewrite E2, E1, (CalcTreeWidth_spec _ Hn) by lia. destruct (leaves_split n Hn k pos Hpos) as (F1 & F2 & F3). rewrite F1.
      destruct (IH ltac:(lia) (2 * pos) (st.1 ++ [true], st.2) Hc) as (bits1 & hs1 & a & is1 & -> & Ea & Pa & Na). cbn [mbind option_bind fst snd]. rewrite node_S, Ea in * by lia.
      destruct (Z.ltb_spec (2 * pos + 1) (level_size k n)) as [Hw|Hw].
      * destruct (IH ltac:(lia) (2 * pos + 1) ((st.1 ++ [true]) ++ bits1, st.2 ++ hs1) ltac:(lia)) as (bits2 & hs2 & c & is2 & -> & Ec & Pc & Nc). rewrite Ec in *. injection Er as <-. cbn [fst snd].
        destruct (F2 Hw) as [G1 G2]. destruct (leaves_below n Hn k (2 * pos) Hc) as [K1 _]. destruct (leaves_below n Hn k (2 * pos + 1) ltac:(lia)) as [K2 _].
        rewrite (matches_in_app l m _ (last_leaf n k (2 * pos))) by lia. rewrite G1, <- G2 in *. eexists (true :: bits1 ++ bits2), (hs1 ++ hs2), _, _. rewrite <- !app_assoc. split; [done|]. split; [done|].
        split; [|by apply Forall_app]. apply partial_pair; [done | done | done |]. intros ->. by apply (Hd k pos a ltac:(lia)).
      * rewrite (node_none l k (2 * pos + 1) Hw) in *. injection Er as <-. rewrite (F3 Hw) in Pa. eexists (true :: bits1), hs1, _, _. rewrite <- !app_assoc. split; [done|]. split; [done|]. split; [by apply partial_alone | done].
    + rewrite (CalcHash_spec l (S k) pos Hn Hk Hpos : CalcHash n (S k) pos l = _), Er. cbn [mbind option_bind fst snd]. eexists [false], [r], r, _. split; [done|]. split; [done|].
      split; [|apply list.Forall_singleton; exists (S k), pos; split; [lia | done]]. rewrite matches_in_nil; [apply partial_pruned | lia |]. intros i Hi Ei. assert (false = true); [|done]. apply Hb. eauto.
Qed.

(** The sizes of a proof: no more hashes than leaves or bits, and no more bits than nodes. *)

Lemma partial_size n k pos bits hs r ms ins : 0 < n <= 2 ^ 31 -> partial n k pos bits hs r ms ins -> (k <= 31)%nat -> 0 <= pos < level_size k n ->
  Z.of_nat (length hs) <= last_leaf n k pos - first_leaf k pos /\ (length hs <= length bits)%nat /\ Z.of_nat (length bits) < 2 ^ (Z.of_nat k + 1).
Proof.
  intros Hn Hp. induction Hp as [pos b h|k pos h|k pos bits1 bits2 hs1 hs2 a b ms1 ms2 is1 is2 Hw H1 IH1 H2 IH2 Hne|k pos bits hs a ms ins Hw H1 IH1]; intros Hk Hpos;
    destruct (leaves_below n Hn _ pos Hpos) as [Hl1 Hl2].
  - cbn. lia.
  - cbn [length]. pose proof (pow2_pos (Z.of_nat (S k)) ltac:(lia)). rewrite Z.pow_add_r by lia. lia.
  - destruct (child_pos n Hn k pos ltac:(lia) Hpos) as (Hc & _). destruct (leaves_split n Hn k pos Hpos) as (F1 & F2 & _). destruct (F2 Hw) as [F3 F4].
    destruct (IH1 ltac:(lia) Hc) as (A1 & A2 & A3). destruct (IH2 ltac:(lia) ltac:(lia)) as (B1 & B2 & B3). cbn [length]. rewrite !length_app. replace (Z.of_nat (S k) + 1) with (Z.succ (Z.of_nat k + 1)) by lia. rewrite Z.pow_succ_r by lia. lia.
  - destruct (child_pos n Hn k pos ltac:(lia) Hpos) as (Hc & _). destruct (leaves_split n Hn k pos Hpos) as (F1 & _ & F2). specialize (F2 Hw).
    destruct (IH1 ltac:(lia) Hc) as (A1 & A2 & A3). cbn [length]. replace (Z.of_nat (S k) + 1) with (Z.succ (Z.of_nat k + 1)) by lia. rewrite Z.pow_succ_r by lia. lia.
Qed.

(** ** What a proof proves *)

Lemma pair_inputs_lookup l m : pair_inputs l !! m =
  match l !! (2 * m)%nat, l !! (2 * m + 1)%nat with
  | Some a, Some b => Some (a ++ b)
  | Some a, None => Some (a ++ a)
  | None, _ => None
  end.
Proof.
  revert m. induction l as [| |a b t IH] using list_ind2; intros m; [done | by destruct m|].
  destruct m as [|m]; [done|]. cbn [pair_inputs]. replace (2 * S m)%nat with (S (S (2 * m))) by lia.
  replace (S (S (2 * m)) + 1)%nat with (S (S (2 * m + 1))) by lia. cbn [lookup list_lookup]. apply IH.
Qed.

(** Inclusion of lists given by concatenation. *)

#[local] Ltac in_more := let z := fresh in intros z; rewrite ?elem_of_cons, ?elem_of_app, ?elem_of_nil; tauto.

(** An input of the tree that hashes as another one. *)

Definition collides_with (ins : list (list Z)) (l : list (list Z)) : Prop :=
  exists x y k, x ∈ ins /\ y ∈ pair_inputs (up k l) /\ x <> y /\ Hash x = Hash y.

Definition uint256s (hs : list (list Z)) : Prop := Forall (fun h => length h = 32%nat) hs.

Lemma length_Hash2 a b : length a = 32%nat -> length b = 32%nat -> length (Hash2 a b) = 32%nat.
Proof. intros Ha Hb. apply (hash_pair_Hash a b). rewrite length_app. lia. Qed.

Lemma node_length l k : uint256s l -> forall pos x, 0 <= pos -> node l k pos = Some x -> length x = 32%nat.
Proof.
  intros Hl. induction k as [|k IH]; intros pos x Hpos E; [by apply (Forall_lookup_1 _ _ _ _ Hl E)|]. rewrite node_S in E by done.
  destruct (node l k (2 * pos)) as [a|] eqn:Ea; [|done]. apply IH in Ea; [|lia]. destruct (node l k (2 * pos + 1)) as [b|] eqn:Eb; [apply IH in Eb; [|lia]|]; injection E as <-; by apply length_Hash2.
Qed.

Lemma partial_length n k pos bits hs r ms ins : partial n k pos bits hs r ms ins -> uint256s hs -> length r = 32%nat.
Proof.
  induction 1 as [| |k pos bits1 bits2 hs1 hs2 a b ms1 ms2 is1 is2 Hw H1 IH1 H2 IH2 Hne|]; intros Hu; [exact (Forall_inv Hu).. | |].
  - apply Forall_app in Hu as [U1 U2]. apply length_Hash2; auto.
  - apply length_Hash2; auto.
Qed.

(** Equal hashes of two pairs: the pairs are equal, or their concatenations collide. *)

Lemma pair_binds l k pos a b x : uint256s l -> 0 <= pos -> length a = 32%nat -> length b = 32%nat -> node l (S k) pos = Some (Hash2 a b) -> pair_inputs (up k l) !! Z.to_nat pos = Some x ->
  a ++ b = x \/ collides_with [a ++ b] l.
Proof.
  intros Hl Hpos La Lb E Ex. destruct (decide (a ++ b = x)) as [|Hne]; [by left | right]. exists (a ++ b), x, k. split_and!; [by left | by eapply list_elem_of_lookup_2 | done |].
  assert (Hash x = Hash2 a b) as ->; [|symmetry; apply (hash_pair_Hash a b); rewrite length_app; lia].
  rewrite pair_inputs_lookup in Ex. rewrite node_S in E by done. unfold node in E. replace (Z.to_nat (2 * pos)) with (2 * Z.to_nat pos)%nat in E by lia. replace (Z.to_nat (2 * pos + 1)) with (2 * Z.to_nat pos + 1)%nat in E by lia.
  destruct (up k l !! (2 * Z.to_nat pos)%nat) as [c|] eqn:Ec; [|done]. assert (length c = 32%nat) as Lc by (apply (node_length l k Hl (2 * pos)); [lia|]; unfold node; by replace (Z.to_nat (2 * pos)) with (2 * Z.to_nat pos)%nat by lia).
  destruct (up k l !! (2 * Z.to_nat pos + 1)%nat) as [d|] eqn:Ed; injection Ex as <-; injection E as <-; symmetry; apply hash_pair_Hash; rewrite length_app; [|lia].
  assert (length d = 32%nat) by (apply (node_length l k Hl (2 * pos + 1)); [lia|]; unfold node; by replace (Z.to_nat (2 * pos + 1)) with (2 * Z.to_nat pos + 1)%nat by lia). lia.
Qed.

Lemma collides_mono ins ins' l : ins ⊆ ins' -> collides_with ins l -> collides_with ins' l.
Proof. intros Hs (x & y & k & Hx & H). exists x, y, k. split; [by apply Hs | done]. Qed.

Lemma node_inputs l k pos a : 0 <= pos -> node l k (2 * pos) = Some a -> pair_inputs (up k l) !! Z.to_nat pos = Some (a ++ default a (node l k (2 * pos + 1))).
Proof.
  intros Hpos Ea. rewrite pair_inputs_lookup. unfold node in *. replace (Z.to_nat (2 * pos)) with (2 * Z.to_nat pos)%nat in Ea by lia. replace (Z.to_nat (2 * pos + 1)) with (2 * Z.to_nat pos + 1)%nat by lia.
  rewrite Ea. by destruct (up k l !! (2 * Z.to_nat pos + 1)%nat).
Qed.

Lemma partial_sound l k pos bits hs r ms ins : uint256s l -> uint256s hs -> partial (Z.of_nat (length l)) k pos bits hs r ms ins -> 0 <= pos < level_size k (Z.of_nat (length l)) -> 0 < Z.of_nat (length l) <= 2 ^ 31 -> (k <= 31)%nat -> node l k pos = Some r ->
  (forall i h, (i, h) ∈ ms -> 0 <= i /\ l !! Z.to_nat i = Some h) \/ collides_with ins l.
Proof.
  intros Hl Hu Hp. induction Hp as [pos b h|k pos h|k pos bits1 bits2 hs1 hs2 a b ms1 ms2 is1 is2 Hw H1 IH1 H2 IH2 Hne|k pos bits hs a ms ins Hw H1 IH1]; intros Hpos Hn Hk E.
  - left. destruct b; [|by intros ? ? ?%not_elem_of_nil]. intros i h' [= -> ->]%list_elem_of_singleton. split; [lia | done].
  - left. by intros ? ? ?%not_elem_of_nil.
  - apply Forall_app in Hu as [U1 U2]. pose proof (partial_length _ _ _ _ _ _ _ _ H1 U1) as La. pose proof (partial_length _ _ _ _ _ _ _ _ H2 U2) as Lb.
    destruct (child_pos _ Hn k pos ltac:(lia) Hpos) as (Hc & _). destruct (node_some l k (2 * pos) Hc) as [c Ec]. destruct (node_some l k (2 * pos + 1) ltac:(lia)) as [d Ed].
    pose proof (node_inputs l k pos c ltac:(lia) Ec) as Ei. rewrite Ed in Ei. cbn in Ei.
    destruct (pair_binds l k pos a b _ Hl ltac:(lia) La Lb E Ei) as [Eq|Hx]; [|right; eapply collides_mono; [|exact Hx]; in_more].
    apply app_inj_1 in Eq as [<- <-]; [|rewrite La; symmetry; apply (node_length l k Hl (2 * pos)); [lia | done]].
    destruct (IH1 U1 Hc Hn ltac:(lia) Ec) as [M1|C1]; [|right; eapply collides_mono; [|exact C1]; in_more].
    destruct (IH2 U2 ltac:(lia) Hn ltac:(lia) Ed) as [M2|C2]; [|right; eapply collides_mono; [|exact C2]; in_more].
    left. intros i h [Hi|Hi]%elem_of_app; auto.
  - pose proof (partial_length _ _ _ _ _ _ _ _ H1 Hu) as La. destruct (child_pos _ Hn k pos ltac:(lia) Hpos) as (Hc & _). destruct (node_some l k (2 * pos) Hc) as [c Ec].
    pose proof (node_inputs l k pos c ltac:(lia) Ec) as Ei. rewrite (node_none l k (2 * pos + 1) Hw) in Ei. cbn in Ei.
    destruct (pair_binds l k pos a a _ Hl ltac:(lia) La La E Ei) as [Eq|Hx]; [|right; eapply collides_mono; [|exact Hx]; in_more].
    apply app_inj_1 in Eq as [<- _]; [|rewrite La; symmetry; apply (node_length l k Hl (2 * pos)); [lia | done]].
    destruct (IH1 Hu Hc Hn ltac:(lia) Ec) as [M1|C1]; [by left | right; eapply collides_mono; [|exact C1]; in_more].
Qed.

(** The inputs the verifier of a partial tree hashes. *)

Definition hashed_by (t : CPartialMerkleTree) (ins : list (list Z)) : Prop :=
  exists K bits post r ms, tree_height (nTransactions t) 32 0 = Some K /\ vBits t = bits ++ post /\ partial (nTransactions t) K 0 bits (vHash t) r ms ins.

Definition start (t : CPartialMerkleTree) (index : list Z) : extraction := {| nBitsUsed := 0; nHashUsed := 0; xMatch := []; vnIndex := index; xBad := fBad t |}.

Lemma at_start t index bits post hs post' : vBits t = bits ++ post -> vHash t = hs ++ post' -> at_place t (start t index) bits hs.
Proof. intros E1 E2. split; [exists [], post | exists [], post']; done. Qed.

Lemma from_start t index bits hs : at_place t (start t index) bits hs -> exists post post', vBits t = bits ++ post /\ vHash t = hs ++ post'.
Proof. intros [(p & q & E1 & E2) (r & s & E3 & E4)]. destruct p; [|done]. destruct r; [|done]. exists q, s. by rewrite E1, E3. Qed.

(** A root that is not null is the root of a derivation that uses all hashes. *)

Lemma ExtractMatches_inv t index root matches positions t' : 0 < nTransactions t <= 2 ^ 31 -> Z.of_nat (length (vBits t)) < 2 ^ 32 -> root <> uint256_null ->
  ExtractMatches t index = Some (root, matches, positions, t') ->
  exists K bits post ms ins, tree_height (nTransactions t) 32 0 = Some K /\ (K <= 31)%nat /\ level_size K (nTransactions t) = 1 /\ (K = 0%nat \/ 2 <= level_size (K - 1) (nTransactions t)) /\
    vBits t = bits ++ post /\ partial (nTransactions t) K 0 bits (vHash t) root ms ins /\ matches = ms.*2 /\ positions = index ++ ms.*1 /\ fBad t = false.
Proof.
  intros Hn Hb Hr E. unfold ExtractMatches in E. fold (start t index) in E. destruct (nTransactions t =? 0); [injection E; congruence|]. destruct (Z.ltb_spec (nTransactions t) (Z.of_nat (length (vHash t)))) as [|Hh]; [injection E; congruence|].
  destruct (_ <? _)%nat; [injection E; congruence|]. destruct (tree_height_spec _ Hn) as (K & EK & HK & H1 & Hd). rewrite EK in E. cbn [mbind option_bind] in E.
  destruct (TraverseAndExtract t K 0 _) as [r x] eqn:Ex. destruct (xBad x) eqn:Ebad; [injection E; congruence|]. cbn [orb] in E. destruct (negb (_ / 8 =? _)); [injection E; congruence|]. cbn [orb] in E.
  destruct (Z.eqb_spec (nHashUsed x) (Z.of_nat (length (vHash t)))) as [Eu|]; [|injection E; congruence]. injection E as <- <- <- <-.
  destruct (extract_sound t K Hn ltac:(split; lia) HK 0 _ r x ltac:(lia) (at_start t index [] (vBits t) [] (vHash t) eq_refl eq_refl) Ex Ebad) as (bits & hs & ms & ins & Hp & Ha & ->).
  destruct (from_start _ _ _ _ Ha) as (post & post' & E1 & E2). cbn in Eu. rewrite E2, length_app in Eu. destruct post'; [|cbn in Eu; lia]. rewrite app_nil_r in E2.
  exists K, bits, post, ms, ins. rewrite E2. split_and!; done.
Qed.

(** A derivation that uses all hashes, and all bits but some of the last byte, is accepted. *)

Lemma ExtractMatches_complete t index K bits post r ms ins : 0 < nTransactions t <= 2 ^ 31 -> Z.of_nat (length (vBits t)) < 2 ^ 32 - 7 -> fBad t = false ->
  tree_height (nTransactions t) 32 0 = Some K -> vBits t = bits ++ post -> (Z.of_nat (length bits) + 7) / 8 = (Z.of_nat (length (vBits t)) + 7) / 8 ->
  partial (nTransactions t) K 0 bits (vHash t) r ms ins -> ExtractMatches t index = Some (r, ms.*2, index ++ ms.*1, t).
Proof.
  intros Hn Hb Hf EK Eb E8 Hp. destruct (tree_height_spec _ Hn) as (K' & EK' & HK & H1 & _). rewrite EK in EK'. injection EK' as <-.
  destruct (partial_size _ _ _ _ _ _ _ _ Hn Hp HK ltac:(lia)) as (S1 & S2 & S3). destruct (leaves_below _ Hn K 0 ltac:(lia)) as [L1 L2]. unfold ExtractMatches. fold (start t index).
  rewrite (proj2 (Z.eqb_neq _ _)), (proj2 (Z.ltb_ge _ _)) by lia. rewrite (proj2 (Nat.ltb_ge _ _)) by (rewrite Eb, length_app; lia). rewrite EK. cbn [mbind option_bind].
  rewrite (extract_complete t K 0 bits (vHash t) r ms ins Hn ltac:(split; lia) Hp HK ltac:(lia) (start t index)) by (eapply at_start; [done | by rewrite app_nil_r]).
  assert (length bits <= length (vBits t))%nat as Hle by (rewrite Eb, length_app; lia).
  unfold advance. cbn [start nBitsUsed nHashUsed xMatch vnIndex xBad]. rewrite Hf. change (0 + ?x) with x. assert (u32 (Z.of_nat (length bits) + 7) = Z.of_nat (length bits) + 7) as -> by (unfold u32; apply Z.mod_small; lia).
  rewrite E8, !Z.eqb_refl. cbn [orb negb app]. do 2 f_equal. destruct t; cbn in *; congruence.
Qed.

(** ** Packed bits *)

Definition bit_at (v : list Z) (q : nat) : bool := match v !! (q / 8)%nat with Some x => Z.testbit x (Z.of_nat (q mod 8)) | None => false end.

Lemma bit_at_alter v p q (b : bool) : (p < 8 * length v)%nat ->
  bit_at (alter (fun x => Z.lor x (Z.shiftl (Z.b2z b) (Z.of_nat (p mod 8)))) (p / 8)%nat v) q = bit_at v q || (b && bool_decide (q = p)).
Proof.
  intros Hp. pose proof (Nat.div_mod_eq p 8). pose proof (Nat.div_mod_eq q 8). pose proof (Nat.mod_upper_bound p 8 ltac:(lia)). pose proof (Nat.mod_upper_bound q 8 ltac:(lia)). unfold bit_at.
  destruct (decide (q / 8 = p / 8)%nat) as [Eq|Hne]; [|rewrite list_lookup_alter_ne by congruence; rewrite bool_decide_false, andb_false_r, orb_false_r by congruence; done].
  rewrite Eq, list_lookup_alter_eq. destruct (lookup_lt_is_Some_2 v (p / 8)) as [x ->]; [apply Nat.Div0.div_lt_upper_bound; lia|]. cbn [fmap option_fmap option_map]. rewrite Z.lor_spec. f_equal.
  destruct b; [|by rewrite Z.shiftl_0_l, Z.bits_0]. cbn [Z.b2z andb]. rewrite Z.shiftl_1_l, Z.pow2_bits_eqb by lia. apply eq_iff_eq_true. rewrite Z.eqb_eq, bool_decide_eq_true. lia.
Qed.

Lemma pack_loop_spec bits : forall p v, (p + length bits <= 8 * length v)%nat -> bytes v ->
  length (pack_loop p bits v) = length v /\ bytes (pack_loop p bits v) /\ forall q, bit_at (pack_loop p bits v) q = bit_at v q || (bool_decide (p <= q)%nat && default false (bits !! (q - p)%nat)).
Proof.
  induction bits as [|b bits IH]; intros p v Hp Hv; cbn [pack_loop length] in *; [split_and!; [done.. | intros q; by rewrite andb_false_r, orb_false_r]|].
  destruct (IH (S p) (alter (fun x => Z.lor x (Z.shiftl (Z.b2z b) (Z.of_nat (p mod 8)))) (p / 8)%nat v)) as (IH1 & IH2 & IH3).
  - rewrite length_alter. lia.
  - apply Forall_alter; [done|]. intros x _ Hx. pose proof (Nat.mod_upper_bound p 8 ltac:(lia)). apply (lor_range 8); [lia | apply Hx |]. rewrite Z.shiftl_mul_pow2 by lia.
    assert (1 <= 2 ^ Z.of_nat (p mod 8) < 2 ^ 8) by (split; [change 1 with (2 ^ 0); apply Z.pow_le_mono_r | apply Z.pow_lt_mono_r]; lia). destruct b; cbn [Z.b2z]; lia.
  - rewrite length_alter in IH1. split_and!; [done | done |]. intros q. rewrite IH3, bit_at_alter, <- orb_assoc by lia. f_equal. destruct (decide (q = p)) as [-> |Hq].
    + rewrite (bool_decide_true (p = p)), (bool_decide_false (S p <= p)%nat), (bool_decide_true (p <= p)%nat), Nat.sub_diag by lia. by destruct b.
    + rewrite (bool_decide_false (q = p)), andb_false_r by done. cbn [orb]. destruct (decide (p <= q)%nat); [|by rewrite !bool_decide_false by lia]. rewrite !bool_decide_true by lia. replace (q - p)%nat with (S (q - S p)) by lia. done.
Qed.

Lemma pack_bits_spec bits : length (pack_bits bits) = ((length bits + 7) / 8)%nat /\ bytes (pack_bits bits) /\ forall q, bit_at (pack_bits bits) q = default false (bits !! q).
Proof.
  pose proof (Nat.div_mod_eq (length bits + 7) 8). pose proof (Nat.mod_upper_bound (length bits + 7) 8 ltac:(lia)).
  destruct (pack_loop_spec bits 0 (replicate ((length bits + 7) / 8) 0)) as (H1 & H2 & H3); [rewrite length_replicate; lia | apply Forall_replicate; done |].
  rewrite length_replicate in H1. split_and!; [done..|]. intros q. unfold pack_bits. rewrite H3, Nat.sub_0_r. rewrite bool_decide_true by lia. unfold bit_at at 1.
  destruct (replicate _ 0 !! (q / 8)%nat) as [x|] eqn:E; [|done]. apply lookup_replicate in E as [-> _]. by rewrite Z.bits_0.
Qed.

Lemma unpack_pack bits : unpack_bits (pack_bits bits) = bits ++ replicate (8 * ((length bits + 7) / 8) - length bits) false.
Proof.
  destruct (pack_bits_spec bits) as (H1 & _ & H3). unfold unpack_bits. rewrite H1. pose proof (Nat.div_mod_eq (length bits + 7) 8). pose proof (Nat.mod_upper_bound (length bits + 7) 8 ltac:(lia)). set (N := (8 * ((length bits + 7) / 8))%nat) in *.
  apply list_eq. intros q. rewrite list_lookup_fmap. destruct (decide (q < N)%nat) as [Hq|Hq].
  - rewrite lookup_seq_lt by done. cbn [fmap option_fmap option_map Nat.add]. rewrite land_bit, negb_involutive by lia. specialize (H3 q). unfold bit_at in H3.
    destruct (lookup_lt_is_Some_2 (pack_bits bits) (q / 8)) as [x Ex]; [rewrite H1; apply Nat.Div0.div_lt_upper_bound; lia|]. rewrite Ex in *. cbn [default from_option id]. rewrite H3.
    destruct (bits !! q) as [b|] eqn:Eb; [rewrite lookup_app_l by (by eapply lookup_lt_Some); by rewrite Eb|]. apply lookup_ge_None in Eb. rewrite lookup_app_r, lookup_replicate_2 by lia. done.
  - rewrite lookup_seq_ge by lia. symmetry. apply lookup_ge_None_2. rewrite length_app, length_replicate. lia.
Qed.

(** ** Theorems *)

Lemma node_uint256 l k : Forall is_uint256 l -> forall pos x, 0 <= pos -> node l k pos = Some x -> is_uint256 x.
Proof.
  intros Hl. assert (forall a b, is_uint256 a -> is_uint256 b -> is_uint256 (hash_pair a b)) as Hh.
  { intros a b [_ La] [_ Lb]. assert (Z.of_nat (length (a ++ b)) < 2 ^ 61) as Hab by (rewrite length_app; lia). destruct (hash_pair_Hash a b Hab) as [_ L]. split; [|done]. unfold hash_pair. pose proof (CHash256_spec [a; b]) as H2.
    cbn [concat foldl] in H2. rewrite app_nil_r in H2. rewrite H2 by done. apply fips_sha256_bytes. }
  induction k as [|k IH]; intros pos x Hpos E; [by apply (Forall_lookup_1 _ _ _ _ Hl E)|]. rewrite node_S in E by done.
  destruct (node l k (2 * pos)) as [a|] eqn:Ea; [|done]. apply IH in Ea; [|lia]. destruct (node l k (2 * pos + 1)) as [b|] eqn:Eb; [apply IH in Eb; [|lia]|]; injection E as <-; by apply Hh.
Qed.

(** The tree built from a list: a derivation for its root and its matched leaves. *)

Lemma new_CPartialMerkleTree_spec l m : 0 < Z.of_nat (length l) <= 2 ^ 30 -> length m = length l -> distinct_siblings l ->
  exists t K ins, new_CPartialMerkleTree l m = Some t /\ nTransactions t = Z.of_nat (length l) /\ fBad t = false /\ tree_height (nTransactions t) 32 0 = Some K /\
    partial (nTransactions t) K 0 (vBits t) (vHash t) (merkle_root l) (matches_in l m 0 (Z.of_nat (length l))) ins /\
    Z.of_nat (length (vBits t)) < 2 ^ 31 /\ Z.of_nat (length (vHash t)) <= 2 ^ 30 /\ Forall (fun h => exists k i, 0 <= i /\ node l k i = Some h) (vHash t).
Proof.
  intros Hn Hm Hd. unfold new_CPartialMerkleTree. assert (u32 (Z.of_nat (length l)) = Z.of_nat (length l)) as -> by (unfold u32; apply Z.mod_small; lia).
  assert (0 < Z.of_nat (length l) <= 2 ^ 31) as Hn' by lia. destruct (tree_height_spec _ Hn') as (K & EK & HK & H1 & HK1). rewrite EK. cbn [mbind option_bind].
  destruct (build_partial l m K Hn' Hm Hd HK 0 ([], []) ltac:(lia)) as (bits & hs & r & ins & -> & Er & Hp & Hf). cbn [mbind option_bind fst snd app].
  destruct (leaves_below _ Hn' K 0 ltac:(lia)) as [L1 L2]. pose proof (one_node _ _ H1) as HK2.
  assert (first_leaf K 0 = 0 /\ last_leaf (Z.of_nat (length l)) K 0 = Z.of_nat (length l)) as [E1 E2] by (unfold first_leaf, last_leaf; lia). rewrite E1, E2 in Hp.
  assert (merkle_root l = r) as <- by (apply (depth_root l K); [by split | done]).
  destruct (partial_size _ _ _ _ _ _ _ _ Hn' Hp HK ltac:(lia)) as (S1 & S2 & S3). rewrite E1, E2 in S1.
  assert (K <= 30)%nat as HK3. { destruct (decide (K <= 30)%nat); [done|]. assert (K = 31%nat) as -> by lia. destruct HK1 as [|HK1]; [done|]. exfalso. revert HK1. unfold level_size. intros H. change (Z.of_nat (31 - 1)) with 30 in H.
    assert ((Z.of_nat (length l) + 2 ^ 30 - 1) / 2 ^ 30 < 2); [|lia]. apply Z.div_lt_upper_bound; lia. }
  assert (2 ^ (Z.of_nat K + 1) <= 2 ^ 31) by (apply Z.pow_le_mono_r; lia).
  eexists _, K, ins. split; [done|]. cbn. split_and!; done || lia.
Qed.

#[local] Instance partial_fields_ok : codec_ok (codec_seq uint32_codec (codec_seq (vector_codec uint256_codec) bytes_codec))
  (fun p => 0 <= p.1 < 2 ^ 32 /\ (Forall is_uint256 p.2.1 /\ Z.of_nat (length p.2.1) <= MAX_SIZE) /\ is_bytes p.2.2).
Proof. assert (1 <= sizeof uint256_codec <= 2 ^ 20) as Hs by done. exact (codec_seq_ok _ _ _ _ uint32_codec_ok (codec_seq_ok _ _ _ _ (vector_codec_ok _ _ uint256_codec_ok Hs) bytes_codec_ok)). Qed.

Lemma partial_codec_write t : 0 <= nTransactions t < 2 ^ 32 -> Forall is_uint256 (vHash t) -> Z.of_nat (length (vHash t)) <= 2 ^ 30 -> Z.of_nat (length (vBits t)) < 2 ^ 31 ->
  exists b, Serialize partial_codec t = Ok b /\ forall rest, bytes rest ->
    Unserialize partial_codec (b ++ rest) = Ok ({| nTransactions := nTransactions t; vHash := vHash t; vBits := unpack_bits (pack_bits (vBits t)); fBad := false |}, rest).
Proof.
  intros Hn Hu Hh Hb. destruct (pack_bits_spec (vBits t)) as (Lp & Bp & _). assert (length (pack_bits (vBits t)) <= length (vBits t) + 7)%nat by (rewrite Lp; apply Nat.Div0.div_le_upper_bound; lia).
  destruct (codec_write (nTransactions t, (vHash t, pack_bits (vBits t)))) as (b & E & _ & _ & R); [unfold is_bytes, MAX_SIZE; cbn [fst snd]; split_and!; done || lia|].
  exists b. split; [exact E|]. intros rest Hr. unfold partial_codec. cbn [codec_class Unserialize]. by rewrite R.
Qed.

(** C25. A partial tree built for a list of transaction ids and the matched ones, written, sent and read back, is accepted:
    the verifier computes the Merkle root of the list, and extracts exactly the matched ids with their positions. *)

Theorem partial_tree_round_trip l m : 0 < Z.of_nat (length l) <= 2 ^ 30 -> length m = length l -> Forall is_uint256 l -> distinct_siblings l ->
  exists t b t', new_CPartialMerkleTree l m = Some t /\ Serialize partial_codec t = Ok b /\ Unserialize partial_codec b = Ok (t', []) /\
    ExtractMatches t' [] = Some (merkle_root l, (matches_in l m 0 (Z.of_nat (length l))).*2, (matches_in l m 0 (Z.of_nat (length l))).*1, t').
Proof.
  intros Hn Hm Hu Hd. destruct (new_CPartialMerkleTree_spec l m Hn Hm Hd) as (t & K & ins & Et & En & Ef & EK & Hp & Hb & Hh & Hf).
  destruct (partial_codec_write t) as (b & Eb & Rb); [lia | | done | done |].
  { eapply list.Forall_impl; [exact Hf|]. intros h (k & i & Hi & E). by apply (node_uint256 l k Hu i). }
  exists t, b, {| nTransactions := nTransactions t; vHash := vHash t; vBits := unpack_bits (pack_bits (vBits t)); fBad := false |}. split; [done|]. split; [done|].
  split; [rewrite <- (app_nil_r b); apply Rb; constructor|]. rewrite unpack_pack.
  pose proof (Nat.div_mod_eq (length (vBits t) + 7) 8). pose proof (Nat.mod_upper_bound (length (vBits t) + 7) 8 ltac:(lia)).
  eapply (ExtractMatches_complete _ [] K (vBits t) _ _ _ ins); cbn [nTransactions vBits vHash fBad]; [lia | rewrite length_app, length_replicate; lia | done | done | done | | done].
  rewrite length_app, length_replicate. assert (Z.of_nat ((length (vBits t) + 7) / 8) = (Z.of_nat (length (vBits t)) + 7) / 8) as <- by (rewrite Nat2Z.inj_div; f_equal; lia).
  apply Z.div_unique with (r := 7); lia.
Qed.

Lemma matches_filter txids : forall l pre, let n := Z.of_nat (length pre) in
  (matches_in (pre ++ l) (match_txids txids (pre ++ l)) n (n + Z.of_nat (length l))).*2 = filter (fun id => id ∈ txids) l.
Proof.
  induction l as [|x l IH]; intros pre n; [cbn [length]; by rewrite Z.add_0_r; unfold matches_in; rewrite Z.sub_diag|].
  rewrite (matches_in_app _ _ _ (n + 1)) by (cbn [length]; lia). assert ((pre ++ x :: l) !! Z.to_nat n = Some x) as Ex by (unfold n; rewrite Nat2Z.id; by apply list_lookup_middle).
  rewrite (matches_in_one _ _ n x (bool_decide (x ∈ txids)) ltac:(lia) Ex) by (unfold match_txids; by rewrite list_lookup_fmap, Ex). rewrite fmap_app.
  specialize (IH (pre ++ [x])). rewrite <- app_assoc in IH. cbn [app] in IH. rewrite length_app in IH. cbn [length] in IH |- *. replace (Z.of_nat (length pre + 1)) with (n + 1) in IH by lia.
  replace (n + 1 + Z.of_nat (length l)) with (n + Z.of_nat (S (length l))) in IH by lia. rewrite IH. case_bool_decide; [by rewrite filter_cons_True | by rewrite filter_cons_False].
Qed.

Lemma count_matches txids l : length (filter (fun m => m = true) (match_txids txids l)) = length (filter (fun id => id ∈ txids) l).
Proof.
  induction l as [|x l IH]; [done|]. unfold match_txids in *. rewrite fmap_cons. destruct (decide (x ∈ txids)) as [H|H].
  - rewrite bool_decide_true, filter_cons_True, filter_cons_True by done. cbn [length]. by rewrite IH.
  - by rewrite bool_decide_false, filter_cons_False, filter_cons_False by done.
Qed.

(** All of a set are found in a list without duplicates iff as many are found. *)

Lemma all_found (txids l : list (list Z)) : NoDup txids -> NoDup l -> txids ⊆ l <-> length txids = length (filter (fun id => id ∈ txids) l).
Proof.
  intros Nt Nl. assert (NoDup (filter (fun id => id ∈ txids) l)) as Nf by by apply list.NoDup_filter. assert (filter (fun id => id ∈ txids) l ⊆ txids) as Hs by (intros x [Hx _]%list_elem_of_filter; done). split.
  - intros H. apply Permutation_length, list.NoDup_Permutation; [done | done |]. intros x. rewrite list_elem_of_filter. split; [|tauto]. intros Hx. split; [done | by apply H].
  - intros E x Hx. assert (txids ⊆+ filter (fun id => id ∈ txids) l) as Hp.
    { apply Permutation_submseteq. symmetry. apply submseteq_length_Permutation; [|lia]. by apply list.NoDup_submseteq. }
    eapply elem_of_submseteq in Hp; [|exact Hx]. by apply list_elem_of_filter in Hp as [_ ?].
Qed.

(** A Merkle block for a set of transaction ids is made iff the block has all of them; otherwise the missing one is
    reported.  The proof in it verifies to the Merkle root of the block and to the requested ids in the order of the block. *)

Theorem merkle_block_correct header l txids : 0 < Z.of_nat (length l) <= 2 ^ 30 -> distinct_siblings l -> NoDup l -> NoDup txids ->
  (txids ⊆ l -> exists mb positions, new_CMerkleBlock header l txids = Ok mb /\ mb_header mb = header /\ ExtractMatches (mb_txn mb) [] = Some (merkle_root l, filter (fun id => id ∈ txids) l, positions, mb_txn mb)) /\
  (~ txids ⊆ l -> new_CMerkleBlock header l txids = Throw NotAllExpectedTransactionsFound).
Proof.
  intros Hn Hd Nl Nt. pose proof (all_found txids l Nt Nl) as Ha. unfold new_CMerkleBlock. rewrite count_matches. split; intros Hs.
  - rewrite (proj2 (Nat.eqb_eq _ _)) by (by apply Ha). destruct (new_CPartialMerkleTree_spec l (match_txids txids l) Hn ltac:(apply length_fmap) Hd) as (t & K & ins & -> & En & Ef & EK & Hp & Hb & _ & _).
    eexists _, _. split; [done|]. split; [done|]. cbn [mb_txn]. rewrite (ExtractMatches_complete t [] K (vBits t) [] _ _ ins) by (try done; try lia; by rewrite app_nil_r).
    do 4 f_equal. apply (matches_filter txids l []).
  - rewrite (proj2 (Nat.eqb_neq _ _)); [done|]. intros E. by apply Hs, Ha.
Qed.

(** C24. A partial tree that verifies to the Merkle root of a block proves what it claims: every extracted id is the id of the
    transaction of the block at the extracted position, or an input the verifier hashed collides with an input of the block's tree. *)

Theorem ExtractMatches_sound t l index matches positions t' : 0 < Z.of_nat (length l) <= 2 ^ 31 -> nTransactions t = Z.of_nat (length l) -> uint256s l -> uint256s (vHash t) ->
  Z.of_nat (length (vBits t)) < 2 ^ 32 -> merkle_root l <> uint256_null -> ExtractMatches t index = Some (merkle_root l, matches, positions, t') ->
  (exists new, positions = index ++ new /\ Forall2 (fun i h => 0 <= i /\ l !! Z.to_nat i = Some h) new matches) \/ exists ins, hashed_by t ins /\ collides_with ins l.
Proof.
  intros Hn En Ul Ut Hb Hr E. destruct (ExtractMatches_inv t index _ _ _ _ ltac:(lia) Hb Hr E) as (K & bits & post & ms & ins & EK & HK & H1 & Hd & Eb & Hp & -> & -> & _).
  destruct (node_some l K 0) as [r Er]; [rewrite En in H1; lia|]. rewrite En in Hd, H1. rewrite (depth_root l K r) in Hp by done. pose proof Hp as Hp'. rewrite En in Hp'.
  destruct (partial_sound l K 0 bits (vHash t) r ms ins Ul Ut Hp' ltac:(lia) Hn HK Er) as [Hm|Hc]; [left | right].
  - exists ms.*1. split; [done|]. clear -Hm. induction ms as [|[i h] ms IH]; [constructor|]. constructor; [apply Hm; left|]. apply IH. intros i' h' Hi. apply Hm. by right.
  - exists ins. split; [|done]. exists K, bits, post, r, ms. done.
Qed.

(** The addition of [CalcTreeWidth] wraps: with this number of transactions the tree seems to have one node at height 1. *)

Lemma tree_width_wraps : tree_height (2 ^ 32 - 1) 32 0 = Some 1%nat /\ CalcTreeWidth (2 ^ 32 - 1) 0 = 2 ^ 32 - 1 /\ CalcTreeWidth (2 ^ 32 - 1) 1 = 0.
Proof. by vm_compute. Qed.

(** ** Examples *)

Definition demo_match : list bool := [false; true; false; false; false; true].

Lemma demo_distinct : distinct_siblings demo_leaves.
Proof.
  intros k i x Hi E1 E2. assert (2 * i + 1 < level_size k 6) as H by (destruct (decide (2 * i + 1 < level_size k 6)); [done|]; rewrite (node_none demo_leaves k (2 * i + 1)) in E2 by (change (Z.of_nat (length demo_leaves)) with 6; lia); done).
  destruct (decide (3 <= k)%nat) as [Hk|Hk].
  - assert (2 ^ 3 <= 2 ^ Z.of_nat k) by (apply Z.pow_le_mono_r; lia). assert (level_size k 6 < 2) by (apply Z.div_lt_upper_bound; lia). lia.
  - destruct k as [|[|[|k]]]; [| | |lia].
    + change (level_size 0 6) with 6 in H. assert (i = 0 \/ i = 1 \/ i = 2) as [-> | [-> | ->]] by lia; rewrite <- E2 in E1; vm_compute in E1; discriminate E1.
    + change (level_size 1 6) with 3 in H. assert (i = 0) as -> by lia. rewrite <- E2 in E1. vm_compute in E1. discriminate E1.
    + change (level_size 2 6) with 2 in H. assert (i = 0) as -> by lia. rewrite <- E2 in E1. vm_compute in E1. discriminate E1.
Qed.

Lemma demo_uint256 : Forall is_uint256 demo_leaves.
Proof. repeat (constructor; [split; [by repeat constructor | done]|]). constructor. Qed.

Lemma partial_tree_round_trip_witness : exists t b t', new_CPartialMerkleTree demo_leaves demo_match = Some t /\ Serialize partial_codec t = Ok b /\ Unserialize partial_codec b = Ok (t', []) /\
  ExtractMatches t' [] = Some (merkle_root demo_leaves, [replicate 32 2; replicate 32 6], [1; 5], t').
Proof. apply (partial_tree_round_trip demo_leaves demo_match); [split; [done | vm_compute; discriminate] | done | apply demo_uint256 | apply demo_distinct]. Defined.

Definition demo_header : CBlockHeader := {| hdr_nVersion := 1; hdr_hashPrevBlock := replicate 32 0; hdr_hashMerkleRoot := replicate 32 7; hdr_nTime := 0; hdr_nBits := 0; hdr_nNonce := 0 |}.

Lemma merkle_block_correct_witness : exists mb positions, new_CMerkleBlock demo_header demo_leaves [replicate 32 6; replicate 32 2] = Ok mb /\ mb_header mb = demo_header /\
  ExtractMatches (mb_txn mb) [] = Some (merkle_root demo_leaves, [replicate 32 2; replicate 32 6], positions, mb_txn mb).
Proof.
  apply (merkle_block_correct demo_header demo_leaves [replicate 32 6; replicate 32 2]); [split; [done | vm_compute; discriminate] | apply demo_distinct | by apply (bool_decide_unpack _); vm_compute | by apply (bool_decide_unpack _); vm_compute |].
  intros x [-> | [-> | []%not_elem_of_nil]%elem_of_cons]%elem_of_cons; by apply (bool_decide_unpack _); vm_compute.
Defined.

Definition demo_tree : CPartialMerkleTree := default {| nTransactions := 0; vBits := []; vHash := []; fBad := true |} (new_CPartialMerkleTree demo_leaves demo_match).

Lemma demo_tree_shape : nTransactions demo_tree = 6 /\ length (vBits demo_tree) = 10%nat /\ uint256s (vHash demo_tree) /\ ExtractMatches demo_tree [] = Some (merkle_root demo_leaves, [replicate 32 2; replicate 32 6], [1; 5], demo_tree).
Proof. split_and!; [by vm_compute | by vm_compute | by repeat (constructor; [by vm_compute|]); constructor | by vm_compute]. Qed.

Lemma ExtractMatches_sound_witness : (exists new, [1; 5] = [] ++ new /\ Forall2 (fun i h => 0 <= i /\ demo_leaves !! Z.to_nat i = Some h) new [replicate 32 2; replicate 32 6]) \/ exists ins, hashed_by demo_tree ins /\ collides_with ins demo_leaves.
Proof.
  destruct demo_tree_shape as (H1 & H2 & H3 & H4). apply (ExtractMatches_sound demo_tree demo_leaves [] [replicate 32 2; replicate 32 6] [1; 5] demo_tree);
    [split; [done | vm_compute; discriminate] | done | by repeat constructor | done | rewrite H2; done | vm_compute; discriminate | done].
Defined.
