(* ===== verification/Coins.v ===== *)
(** * The coins cache

    [src/coins.h] and [src/coins.cpp]: coins with and without their script, the store of cache entries with its
    DIRTY and FRESH flags, and the cached view over another view.  The last sections show that the cache is
    transparent: every operation acts on the set of unspent outputs as a plain map would. *)

From stdpp Require Import gmap.
From S2P Require Import Prelude Common BlockIndex Script Hasher Sha2 Hash Serialize Transaction.
#[local] Open Scope Z_scope.

#[export] Instance COutPoint_countable : Countable COutPoint.
Proof.
  apply (inj_countable' (fun o => (outpoint_txid o, outpoint_n o)) (fun p => {| outpoint_txid := p.1; outpoint_n := p.2 |})).
  by intros [].
Defined.

(** ** Coins

    [out] is the output the coin owns ([coin_owner]) or points to; what it points to does not change while the coin
    lives, so that the pointer is its target.  [coin_code] is [nHeightAndIsCoinBase]. *)

Record CoinImpl := { coin_out : CTxOut; coin_owner : bool; coin_code : Z; mScriptSize : Z }.

Definition height_code (nHeight : Z) (IsCoinbase : bool) : Z :=
  Z.lor (u32 (Z.shiftl (u32 nHeight) 1)) (if IsCoinbase then 1 else 0).

Definition new_CoinImpl : CoinImpl := {| coin_out := txout_null; coin_owner := true; coin_code := 0; mScriptSize := 0 |}.

(** The constructor that leaves the script out. *)

Definition coin_without_script (amount scriptSize nHeight : Z) (IsCoinbase : bool) : CoinImpl :=
  {| coin_out := {| nValue := amount; scriptPubKey := [] |}; coin_owner := true;
     coin_code := height_code nHeight IsCoinbase; mScriptSize := scriptSize |}.

Definition coin_owning (out : CTxOut) (scriptSize nHeight : Z) (IsCoinbase : bool) : CoinImpl :=
  {| coin_out := out; coin_owner := true; coin_code := height_code nHeight IsCoinbase; mScriptSize := scriptSize |}.

Definition coin_pointing (out : CTxOut) (scriptSize nHeight : Z) (IsCoinbase : bool) : CoinImpl :=
  {| coin_out := out; coin_owner := false; coin_code := height_code nHeight IsCoinbase; mScriptSize := scriptSize |}.

Definition coin_GetHeight (c : CoinImpl) : Z := i32 (Z.shiftr (coin_code c) 1).

Definition coin_IsCoinBase (c : CoinImpl) : bool := negb (Z.land (coin_code c) 1 =? 0).

Definition coin_IsSpent (c : CoinImpl) : bool := nValue (coin_out c) =? -1.

Definition HasScript (c : CoinImpl) : bool := mScriptSize c =? script_size (scriptPubKey (coin_out c)).

Definition MakeOwning (c : CoinImpl) : CoinImpl := coin_owning (coin_out c) (mScriptSize c) (coin_GetHeight c) (coin_IsCoinBase c).

Definition MakeNonOwning (c : CoinImpl) : CoinImpl := coin_pointing (coin_out c) (mScriptSize c) (coin_GetHeight c) (coin_IsCoinBase c).

Definition strip_script (c : CoinImpl) : CoinImpl :=
  coin_without_script (nValue (coin_out c)) (mScriptSize c) (coin_GetHeight c) (coin_IsCoinBase c).

(** [CoinWithScript::MakeOwning(CTxOut&&, ...)]. *)

Definition coin_with_script (out : CTxOut) (nHeight : Z) (IsCoinbase : bool) : CoinImpl :=
  coin_owning out (script_size (scriptPubKey out)) nHeight IsCoinbase.

(** The memory of a script and of a map with so many entries, as the allocator reports it. *)

Class MemUsage := { script_usage : list Z -> Z; map_usage : nat -> Z; script_usage_nil : script_usage [] = 0 }.

(** ** The store *)

(** What the code that works on coins throws: the store's own errors, those of the code it calls, and the cancellations. *)

Inductive coins_exn :=
| replaces_non_pruned
| fresh_misapplied
| script_exn (e : exn)
| stream_exn (e : ser_exn)
| validation_cancelled
| attachment_cancelled.

Definition of_script {A} (o : outcome exn A) : outcome coins_exn A :=
  match o with Ok a => Ok a | Throw e => Throw (script_exn e) | Abort => Abort end.

Definition of_stream {A} (o : outcome ser_exn A) : outcome coins_exn A :=
  match o with Ok a => Ok a | Throw e => Throw (stream_exn e) | Abort => Abort end.

(** The two bits of [flags]. *)

Record CCoinsCacheEntry := { entry_coin : CoinImpl; DIRTY : bool; FRESH : bool }.

Definition new_entry : CCoinsCacheEntry := {| entry_coin := new_CoinImpl; DIRTY := false; FRESH := false |}.

Record CoinsStore := { cacheCoins : gmap COutPoint CCoinsCacheEntry; cachedCoinsUsage : Z }.

Section store.
Context `{MemUsage}.

Definition coin_usage (c : CoinImpl) : Z := if HasScript c && coin_owner c then script_usage (scriptPubKey (coin_out c)) else 0.

Definition entry_usage (e : CCoinsCacheEntry) : Z := coin_usage (entry_coin e).

Definition store_DynamicMemoryUsage (s : CoinsStore) : Z := u64 (map_usage (size (cacheCoins s)) + cachedCoinsUsage s).

Definition FetchCoin (s : CoinsStore) (o : COutPoint) : option CoinImpl :=
  match cacheCoins s !! o with
  | Some e => Some (if HasScript (entry_coin e) then MakeNonOwning (entry_coin e) else MakeOwning (entry_coin e))
  | None => None
  end.

Definition MoveOutCoins (s : CoinsStore) : gmap COutPoint CCoinsCacheEntry * CoinsStore :=
  (cacheCoins s, {| cacheCoins := ∅; cachedCoinsUsage := 0 |}).

(** [AddCoin(outpoint, CoinImpl&&)]: a coin read from the parent. *)

Definition store_cache_coin (s : CoinsStore) (o : COutPoint) (c : CoinImpl) : outcome coins_exn CoinsStore :=
  match cacheCoins s !! o with
  | Some _ => Abort
  | None =>
      let e := {| entry_coin := c; DIRTY := false; FRESH := coin_IsSpent c |} in
      Ok {| cacheCoins := <[o := e]> (cacheCoins s); cachedCoinsUsage := u64 (cachedCoinsUsage s + entry_usage e) |}
  end.

(** [AddCoin(outpoint, CoinWithScript&&, possible_overwrite, ...)]: a new coin. *)

Definition store_AddCoin (s : CoinsStore) (o : COutPoint) (c : CoinImpl) (possible_overwrite : bool) : outcome coins_exn CoinsStore :=
  let e := default new_entry (cacheCoins s !! o) in
  if negb possible_overwrite && negb (coin_IsSpent (entry_coin e)) then Throw replaces_non_pruned
  else
    let fresh := negb possible_overwrite && negb (DIRTY e) in
    let usage := match cacheCoins s !! o with Some e => u64 (cachedCoinsUsage s - entry_usage e) | None => cachedCoinsUsage s end in
    let e := {| entry_coin := c; DIRTY := true; FRESH := FRESH e || fresh |} in
    Ok {| cacheCoins := <[o := e]> (cacheCoins s); cachedCoinsUsage := u64 (usage + entry_usage e) |}.

Definition store_SpendCoin (s : CoinsStore) (o : COutPoint) : bool * CoinsStore :=
  match cacheCoins s !! o with
  | None => (false, s)
  | Some e =>
      let usage := u64 (cachedCoinsUsage s - entry_usage e) in
      (true,
       if FRESH e then {| cacheCoins := delete o (cacheCoins s); cachedCoinsUsage := usage |}
       else {| cacheCoins := <[o := {| entry_coin := new_CoinImpl; DIRTY := true; FRESH := FRESH e |}]> (cacheCoins s);
               cachedCoinsUsage := usage |})
  end.

Definition AddEntry (s : CoinsStore) (o : COutPoint) (e : CCoinsCacheEntry) : CoinsStore :=
  {| cacheCoins := <[o := {| entry_coin := entry_coin e; DIRTY := true; FRESH := FRESH e |}]> (cacheCoins s);
     cachedCoinsUsage := u64 (cachedCoinsUsage s + entry_usage e) |}.

Definition UpdateEntry (s : CoinsStore) (o : COutPoint) (us e : CCoinsCacheEntry) : CoinsStore :=
  {| cacheCoins := <[o := {| entry_coin := entry_coin e; DIRTY := true; FRESH := FRESH us |}]> (cacheCoins s);
     cachedCoinsUsage := u64 (u64 (cachedCoinsUsage s - entry_usage us) + entry_usage e) |}.

Definition EraseCoin (s : CoinsStore) (o : COutPoint) (us : CCoinsCacheEntry) : CoinsStore :=
  {| cacheCoins := delete o (cacheCoins s); cachedCoinsUsage := u64 (cachedCoinsUsage s - entry_usage us) |}.

Definition Uncache (s : CoinsStore) (vOutpoints : list COutPoint) : CoinsStore :=
  foldl (fun s o =>
    match cacheCoins s !! o with
    | Some e => if negb (DIRTY e) && negb (FRESH e) then EraseCoin s o e else s
    | None => s
    end) s vOutpoints.

(** One turn of [BatchWrite], on an entry of the child. *)

Definition batch_entry (s : CoinsStore) (o : COutPoint) (e : CCoinsCacheEntry) : outcome coins_exn CoinsStore :=
  if negb (DIRTY e) then Ok s
  else
    match cacheCoins s !! o with
    | None => if FRESH e && coin_IsSpent (entry_coin e) then Ok s else Ok (AddEntry s o e)
    | Some us =>
        if FRESH e && negb (coin_IsSpent (entry_coin us)) then Throw fresh_misapplied
        else if FRESH us && coin_IsSpent (entry_coin e) then Ok (EraseCoin s o us)
        else Ok (UpdateEntry s o us e)
    end.

(** The entries in the order of the iteration, which the hash map does not fix. *)

Fixpoint BatchWrite (s : CoinsStore) (mapCoins : list (COutPoint * CCoinsCacheEntry)) : outcome coins_exn CoinsStore :=
  match mapCoins with
  | [] => Ok s
  | (o, e) :: mapCoins => s ← batch_entry s o e; BatchWrite s mapCoins
  end.

Definition ReplaceWithCoinWithScript (s : CoinsStore) (o : COutPoint) (c : CoinImpl) : outcome coins_exn CoinsStore :=
  match cacheCoins s !! o with
  | None => Abort
  | Some e =>
      _ ← assert_ (negb (HasScript (entry_coin e)));
      _ ← assert_ (HasScript c);
      let e := {| entry_coin := c; DIRTY := DIRTY e; FRESH := FRESH e |} in
      Ok {| cacheCoins := <[o := e]> (cacheCoins s); cachedCoinsUsage := u64 (cachedCoinsUsage s + entry_usage e) |}
  end.

End store.

(** ** The cached view *)

(** A view that coins are read from.  Reading may fill a cache of its own. *)

Class ICoinsView (V : Type) := {
  view_GetCoin : V -> COutPoint -> Z -> outcome coins_exn (option CoinImpl * V);
  view_GetBestBlock : V -> list Z * V
}.

(** [CCoinsViewEmpty]. *)

Definition CCoinsViewEmpty : Type := unit.

#[export] Instance empty_view : ICoinsView CCoinsViewEmpty := {|
  view_GetCoin v _ _ := Ok (None, v);
  view_GetBestBlock v := (uint256_null, v)
|}.

(** [attached]: whether [mView] is the source view or the empty one. *)

Record CCoinsViewCache (V : Type) := { source : V; hashBlock : list Z; mCache : CoinsStore; attached : bool }.

Arguments source {V} _.
Arguments hashBlock {V} _.
Arguments mCache {V} _.
Arguments attached {V} _.

Section view.
Context `{MemUsage} {V : Type} `{ICoinsView V}.

Definition new_CCoinsViewCache (v : V) : CCoinsViewCache V :=
  {| source := v; hashBlock := uint256_null; mCache := {| cacheCoins := ∅; cachedCoinsUsage := 0 |}; attached := true |}.

Definition with_cache (vc : CCoinsViewCache V) (s : CoinsStore) : CCoinsViewCache V :=
  {| source := source vc; hashBlock := hashBlock vc; mCache := s; attached := attached vc |}.

Definition with_source (vc : CCoinsViewCache V) (v : V) : CCoinsViewCache V :=
  {| source := v; hashBlock := hashBlock vc; mCache := mCache vc; attached := attached vc |}.

Definition with_attached (vc : CCoinsViewCache V) (b : bool) : CCoinsViewCache V :=
  {| source := source vc; hashBlock := hashBlock vc; mCache := mCache vc; attached := b |}.

(** Code that reads and changes a view. *)

Definition cached (A : Type) : Type := CCoinsViewCache V -> outcome coins_exn (A * CCoinsViewCache V).

#[global] Instance cached_ret : MRet cached := fun _ a vc => Ok (a, vc).

#[global] Instance cached_bind : MBind cached := fun _ _ k m vc => match m vc with Ok (a, vc) => k a vc | Throw e => Throw e | Abort => Abort end.

Definition lift {A} (o : outcome coins_exn A) : cached A := fun vc => match o with Ok a => Ok (a, vc) | Throw e => Throw e | Abort => Abort end.

Definition get_cache : cached CoinsStore := fun vc => Ok (mCache vc, vc).

Definition put_cache (s : CoinsStore) : cached unit := fun vc => Ok (tt, with_cache vc s).

(** [mView->GetCoin]. *)

Definition parent_GetCoin (o : COutPoint) (maxScriptSize : Z) : cached (option CoinImpl) := fun vc =>
  if attached vc then
    match view_GetCoin (source vc) o maxScriptSize with
    | Ok (r, v) => Ok (r, with_source vc v)
    | Throw e => Throw e
    | Abort => Abort
    end
  else Ok (None, vc).

Definition GetCoin (o : COutPoint) (requiresScript : bool) : cached (option CoinImpl) :=
  s ← get_cache;
  let coinFromCache := FetchCoin s o in
  let from_view :=
    coinFromView ← parent_GetCoin o (if requiresScript then 2 ^ 64 - 1 else 0);
    match coinFromView, coinFromCache with
    | Some c, None =>
        s ← lift (store_cache_coin s o (if coin_owner c then strip_script c else MakeNonOwning c));
        _ ← put_cache s;
        mret (Some c)
    | r, _ => mret r
    end in
  match coinFromCache with
  | Some c =>
      if coin_IsSpent c || HasScript c then mret (Some c)
      else if negb requiresScript then mret (Some (strip_script c))
      else from_view
  | None => from_view
  end.

(** [GetCoinWithScript]. *)

Definition GetCoinWithScript (o : COutPoint) : cached (option CoinImpl) :=
  coinData ← GetCoin o true;
  match coinData with
  | Some c => _ ← lift (assert_ (HasScript c)); mret (Some c)
  | None => mret None
  end.

Definition AddCoin (o : COutPoint) (c : CoinImpl) (possible_overwrite : bool) (genesisActivationHeight : Z) : cached unit :=
  _ ← lift (assert_ (negb (coin_IsSpent c)));
  if IsUnspendable (scriptPubKey (coin_out c)) (genesisActivationHeight <=? coin_GetHeight c) then mret tt
  else s ← get_cache; s ← lift (store_AddCoin s o c possible_overwrite); put_cache s.

Definition HaveCoin (o : COutPoint) : cached bool :=
  coin ← GetCoin o false; mret (match coin with Some c => negb (coin_IsSpent c) | None => false end).

(** [SpendCoin(outpoint, moveout)]; the coin moved out, if [moveout] is not null. *)

Definition SpendCoin (o : COutPoint) (moveout : bool) : cached (bool * option CoinImpl) :=
  coin ← GetCoin o moveout;
  match coin with
  | None => mret (false, None)
  | Some c =>
      s ← get_cache;
      let '(b, s) := store_SpendCoin s o in
      _ ← put_cache s;
      mret (b, if moveout then Some (MakeOwning c) else None)
  end.

(** [AddCoins]; the transaction id is given. *)

Fixpoint add_coins_loop (txid : list Z) (fCoinbase : bool) (nHeight genesisActivationHeight : Z) (check : bool) (i : nat)
    (vout : list CTxOut) : cached unit :=
  match vout with
  | [] => mret tt
  | out :: vout =>
      let outpoint := {| outpoint_txid := txid; outpoint_n := u32 (Z.of_nat i) |} in
      overwrite ← (if check then HaveCoin outpoint else mret fCoinbase);
      _ ← AddCoin outpoint (coin_with_script out nHeight fCoinbase) overwrite genesisActivationHeight;
      add_coins_loop txid fCoinbase nHeight genesisActivationHeight check (S i) vout
  end.

Definition AddCoins (tx : CTransaction) (txid : list Z) (nHeight genesisActivationHeight : Z) (check : bool) : cached unit :=
  add_coins_loop txid (IsCoinBase tx) nHeight genesisActivationHeight check 0 (vout tx).

Definition GetBestBlock : cached (list Z) := fun vc =>
  if bool_decide (hashBlock vc = uint256_null) then
    let '(h, v) := if attached vc then view_GetBestBlock (source vc) else (uint256_null, source vc) in
    Ok (h, {| source := v; hashBlock := h; mCache := mCache vc; attached := attached vc |})
  else Ok (hashBlock vc, vc).

Definition SetBestBlock (h : list Z) : cached unit := fun vc =>
  Ok (tt, {| source := source vc; hashBlock := h; mCache := mCache vc; attached := attached vc |}).

Fixpoint value_in_loop (nResult : Z) (inputs : list CTxIn) : cached Z :=
  match inputs with
  | [] => mret nResult
  | i :: inputs =>
      coin ← GetCoin (prevout i) false;
      match coin with
      | Some c =>
          _ ← lift (assert_ (negb (coin_IsSpent c)));
          nResult ← lift (amount_add nResult (nValue (coin_out c)));
          value_in_loop nResult inputs
      | None => lift Abort
      end
  end.

Definition GetValueIn (tx : CTransaction) : cached Z := if IsCoinBase tx then mret 0 else value_in_loop 0 (vin tx).

Fixpoint have_inputs_loop (inputs : list CTxIn) : cached bool :=
  match inputs with
  | [] => mret true
  | i :: inputs => b ← HaveCoin (prevout i); if (b : bool) then have_inputs_loop inputs else mret false
  end.

Definition HaveInputs (tx : CTransaction) : cached bool := if IsCoinBase tx then mret true else have_inputs_loop (vin tx).

(** The source returns [nullopt] when the scripts would take too much memory. *)

Fixpoint limited_loop (maxCachedCoinsUsage usage : Z) (inputs : list CTxIn) : cached (option bool) :=
  match inputs with
  | [] => mret (Some true)
  | i :: inputs =>
      coin ← GetCoin (prevout i) false;
      match coin with
      | None => mret (Some false)
      | Some c =>
          let usage := u64 (usage + mScriptSize c) in
          if (0 <? maxCachedCoinsUsage) && (maxCachedCoinsUsage <=? usage) then mret None
          else limited_loop maxCachedCoinsUsage usage inputs
      end
  end.

Definition HaveInputsLimited (tx : CTransaction) (maxCachedCoinsUsage : Z) : cached (option bool) :=
  if IsCoinBase tx then mret (Some true) else limited_loop maxCachedCoinsUsage 0 (vin tx).

Definition ForceDetach : cached unit := fun vc =>
  if attached vc then
    match GetBestBlock vc with Ok (_, vc) => Ok (tt, with_attached vc false) | Throw e => Throw e | Abort => Abort end
  else Ok (tt, vc).

Definition TryReattach : cached bool := fun vc =>
  if attached vc then Ok (true, vc)
  else
    let '(h, v) := view_GetBestBlock (source vc) in
    match GetBestBlock (with_source vc v) with
    | Ok (mine, vc) =>
        if bool_decide (h = mine) then Ok (true, with_attached vc true)
        else Ok (false, vc)
    | Throw e => Throw e
    | Abort => Abort
    end.

End view.

(** ** The abstract coin set *)

Record utxo := { u_value : Z; u_script : list Z; u_height : Z; u_coinbase : bool }.

Definition utxo_ok (u : utxo) : Prop := u_value u <> -1 /\ script_size (u_script u) < 2 ^ 64.

Definition utxo_of (c : CoinImpl) : utxo :=
  {| u_value := nValue (coin_out c); u_script := scriptPubKey (coin_out c); u_height := coin_GetHeight c; u_coinbase := coin_IsCoinBase c |}.

(** A coin, with or without its script, of an unspent output. *)

Record represents (c : CoinImpl) (u : utxo) : Prop := {
  rep_value : nValue (coin_out c) = u_value u;
  rep_height : coin_GetHeight c = u_height u;
  rep_coinbase : coin_IsCoinBase c = u_coinbase u;
  rep_size : mScriptSize c = script_size (u_script u);
  rep_script : HasScript c = true -> scriptPubKey (coin_out c) = u_script u }.

Definition code_ok (c : CoinImpl) : Prop := 0 <= coin_code c < 2 ^ 32.

(** An answer of [GetCoin] about an output, when a script of at most [m] bytes has to be loaded. *)

Definition answers (m : Z) (u : option utxo) (r : option CoinImpl) : Prop :=
  match r with
  | None => u = None
  | Some c =>
      code_ok c /\
      if coin_IsSpent c then u = None
      else exists x, u = Some x /\ represents c x /\ (script_size (u_script x) <= m -> HasScript c = true)
  end.

(** What a view promises to a cache on top of it. *)

Class CoinsViewLaws (V : Type) `{ICoinsView V} (I : V -> Prop) (A : V -> gmap COutPoint utxo) := {
  view_valid v : I v -> map_Forall (fun _ u => utxo_ok u) (A v);
  view_coin v o m : I v -> 0 <= m -> exists r v', view_GetCoin v o m = Ok (r, v') /\ I v' /\ A v' = A v /\ answers m (A v !! o) r;
  view_best v : I v -> I (view_GetBestBlock v).2 /\ A (view_GetBestBlock v).2 = A v
}.

#[export] Instance empty_view_laws : CoinsViewLaws CCoinsViewEmpty (fun _ => True) (fun _ => ∅).
Proof.
  split; [intros v _ o u Hu; by rewrite lookup_empty in Hu | | done].
  intros v o m _ _. exists None, v. split_and!; [done..|]. cbn. by rewrite lookup_empty.
Qed.

(** The coin set a store shows over a parent. *)

Definition entry_view (e : option CCoinsCacheEntry) (p : option utxo) : option utxo :=
  match e with
  | Some e => if coin_IsSpent (entry_coin e) then None else if HasScript (entry_coin e) then Some (utxo_of (entry_coin e)) else p
  | None => p
  end.

Definition overlay (m : gmap COutPoint CCoinsCacheEntry) (P : gmap COutPoint utxo) : gmap COutPoint utxo := merge entry_view m P.

Lemma lookup_overlay m P o : overlay m P !! o = entry_view (m !! o) (P !! o).
Proof. unfold overlay. rewrite lookup_merge. by destruct (m !! o), (P !! o). Qed.

(** An entry is consistent with its flags and the parent. *)

Record entry_ok (p : option utxo) (e : CCoinsCacheEntry) : Prop := {
  eo_code : code_ok (entry_coin e);
  eo_size : coin_IsSpent (entry_coin e) = false -> HasScript (entry_coin e) = true -> script_size (scriptPubKey (coin_out (entry_coin e))) < 2 ^ 64;
  eo_fresh : FRESH e = true -> p = None;
  eo_spent : coin_IsSpent (entry_coin e) = true -> DIRTY e = false -> p = None;
  eo_dirty : coin_IsSpent (entry_coin e) = false -> DIRTY e = true -> HasScript (entry_coin e) = true;
  eo_clean : coin_IsSpent (entry_coin e) = false -> DIRTY e = false -> exists u, p = Some u /\ represents (entry_coin e) u }.

Definition entries_ok (P : gmap COutPoint utxo) (m : gmap COutPoint CCoinsCacheEntry) : Prop := map_Forall (fun o e => entry_ok (P !! o) e) m.

Lemma entries_ok_insert P m o e : entries_ok P m -> entry_ok (P !! o) e -> entries_ok P (<[o := e]> m).
Proof. intros Hm He. by apply map_Forall_insert_2. Qed.

Lemma entries_ok_delete P m o : entries_ok P m -> entries_ok P (delete o m).
Proof. apply map_Forall_delete. Qed.

Lemma overlay_insert m P o e x : entry_view (Some e) (P !! o) = Some x -> overlay (<[o := e]> m) P = <[o := x]> (overlay m P).
Proof.
  intros Hx. apply map_eq. intros o'. rewrite lookup_overlay. destruct (decide (o' = o)) as [->|Hne].
  - by rewrite !lookup_insert_eq.
  - rewrite !lookup_insert_ne by done. by rewrite lookup_overlay.
Qed.

Lemma overlay_same m m' P o : (forall o', o' <> o -> m' !! o' = m !! o') -> entry_view (m' !! o) (P !! o) = entry_view (m !! o) (P !! o) ->
  overlay m' P = overlay m P.
Proof.
  intros Hne Ho. apply map_eq. intros o'. rewrite !lookup_overlay. destruct (decide (o' = o)) as [->|]; [done|]. by rewrite Hne.
Qed.

Lemma overlay_delete m m' P o : (forall o', o' <> o -> m' !! o' = m !! o') -> entry_view (m' !! o) (P !! o) = None ->
  overlay m' P = delete o (overlay m P).
Proof.
  intros Hne Ho. apply map_eq. intros o'. rewrite lookup_overlay. destruct (decide (o' = o)) as [->|Hd].
  - by rewrite lookup_delete_eq.
  - rewrite lookup_delete_ne by done. rewrite lookup_overlay. by rewrite Hne.
Qed.

(** ** Coins: what the constructors keep *)

Lemma height_code_eq h cb : height_code h cb = 2 * (h mod 2 ^ 31) + (if cb then 1 else 0).
Proof.
  assert (u32 (Z.shiftl (u32 h) 1) = 2 * (h mod 2 ^ 31)) as E.
  { unfold u32. rewrite Z.shiftl_mul_pow2, Z.pow_1_r by lia. rewrite Z.mul_comm. change (2 ^ 32) with (2 * 2 ^ 31).
    rewrite Z.mul_mod_distr_l by lia. f_equal. rewrite (Z.mul_comm 2). apply Z.mod_mod_divide. by exists 2. }
  unfold height_code. rewrite E, Z.mul_comm. change 2 with (2 ^ 1) at 2. rewrite lor_high_low by (destruct cb; lia). lia.
Qed.

Lemma land_one y : Z.land y 1 = y mod 2.
Proof. change 1 with (Z.ones 1). by rewrite Z.land_ones by lia. Qed.

Lemma code_parts x (cb : bool) : 0 <= x < 2 ^ 31 -> i32 (Z.shiftr (2 * x + (if cb then 1 else 0)) 1) = x /\
  negb (Z.land (2 * x + (if cb then 1 else 0)) 1 =? 0) = cb.
Proof.
  intros Hx. rewrite Z.shiftr_div_pow2, Z.pow_1_r by lia. rewrite land_one. split.
  - assert ((2 * x + (if cb then 1 else 0)) / 2 = x) as -> by (symmetry; apply (Z.div_unique _ _ _ (if cb then 1 else 0)); destruct cb; lia).
    unfold i32. rewrite Z.mod_small; lia.
  - rewrite Z.mul_comm, Z.add_comm, Z.mod_add by lia. by destruct cb.
Qed.

Lemma height_code_ok h cb : 0 <= height_code h cb < 2 ^ 32.
Proof. rewrite height_code_eq. pose proof (Z.mod_pos_bound h (2 ^ 31) ltac:(lia)). destruct cb; lia. Qed.

Lemma code_of_parts c : code_ok c -> height_code (coin_GetHeight c) (coin_IsCoinBase c) = coin_code c.
Proof.
  unfold code_ok. intros Hc. rewrite height_code_eq. set (x := coin_code c / 2).
  assert (coin_code c = 2 * x + (if coin_IsCoinBase c then 1 else 0)) as E.
  { unfold coin_IsCoinBase. rewrite land_one.
    pose proof (Z.div_mod (coin_code c) 2 ltac:(lia)). pose proof (Z.mod_pos_bound (coin_code c) 2 ltac:(lia)).
    destruct (Z.eqb_spec (coin_code c mod 2) 0); cbn [negb]; unfold x; lia. }
  assert (0 <= x < 2 ^ 31) as Hx by (unfold x; split; [apply Z.div_pos; lia | apply Z.div_lt_upper_bound; lia]).
  assert (coin_GetHeight c = x) as ->.
  { unfold coin_GetHeight. rewrite E. by apply code_parts. }
  rewrite Z.mod_small by lia. lia.
Qed.

Lemma made_parts c : code_ok c -> forall b out n, let c' := {| coin_out := out; coin_owner := b;
    coin_code := height_code (coin_GetHeight c) (coin_IsCoinBase c); mScriptSize := n |} in
  code_ok c' /\ coin_GetHeight c' = coin_GetHeight c /\ coin_IsCoinBase c' = coin_IsCoinBase c.
Proof. intros Hc b out n. cbn zeta. rewrite (code_of_parts c Hc). done. Qed.

(** A coin derived from another represents what that one does. *)

Lemma strip_represents c u : code_ok c -> represents c u -> represents (strip_script c) u.
Proof.
  intros Hc [Hv Hh Hb Hs Hsc]. destruct (made_parts c Hc true {| nValue := nValue (coin_out c); scriptPubKey := [] |} (mScriptSize c)) as (_ & Eh & Eb).
  split; unfold strip_script, coin_without_script; [done | by rewrite Eh | by rewrite Eb | done|].
  unfold HasScript. cbn [mScriptSize coin_out scriptPubKey]. rewrite Hs. unfold script_size. intros E%Z.eqb_eq. cbn in E.
  by destruct (u_script u).
Qed.

Lemma remake_represents (b : bool) c u : code_ok c -> represents c u -> represents (if b then MakeOwning c else MakeNonOwning c) u.
Proof.
  intros Hc [Hv Hh Hb Hs Hsc]. destruct (made_parts c Hc b (coin_out c) (mScriptSize c)) as (_ & Eh & Eb).
  destruct b; (split; [done | unfold MakeOwning, MakeNonOwning, coin_owning, coin_pointing; by rewrite Eh
    | unfold MakeOwning, MakeNonOwning, coin_owning, coin_pointing; by rewrite Eb | done | exact Hsc]).
Qed.

Lemma remake_code (b : bool) c : code_ok c -> code_ok (if b then MakeOwning c else MakeNonOwning c) /\ code_ok (strip_script c).
Proof. intros _. split; [destruct b|]; apply height_code_ok. Qed.

Lemma remake_utxo (b : bool) c : code_ok c -> utxo_of (if b then MakeOwning c else MakeNonOwning c) = utxo_of c.
Proof.
  intros Hc. destruct (made_parts c Hc b (coin_out c) (mScriptSize c)) as (_ & Eh & Eb). unfold utxo_of.
  destruct b; unfold MakeOwning, MakeNonOwning, coin_owning, coin_pointing; by rewrite Eh, Eb.
Qed.

Lemma represents_self c : HasScript c = true -> represents c (utxo_of c).
Proof. intros Hs. split; [done..| |done]. by apply Z.eqb_eq in Hs. Qed.

Lemma represents_utxo c u : represents c u -> HasScript c = true -> utxo_of c = u.
Proof. intros [Hv Hh Hb Hs Hsc] H. specialize (Hsc H). destruct u. unfold utxo_of. cbn in *. congruence. Qed.

Lemma represents_unspent c u : represents c u -> utxo_ok u -> coin_IsSpent c = false.
Proof. intros [Hv _ _ _ _] [Hu _]. unfold coin_IsSpent. rewrite Hv. by apply Z.eqb_neq. Qed.

(** ** The operations act on the coin set *)

Section transparent.
Context `{MemUsage} {V : Type} `{HV : ICoinsView V} (I : V -> Prop) (A : V -> gmap COutPoint utxo) `{HL : !CoinsViewLaws V I A}.

Record view_ok (vc : CCoinsViewCache V) : Prop := {
  vo_attached : attached vc = true;
  vo_source : I (source vc);
  vo_entries : entries_ok (A (source vc)) (cacheCoins (mCache vc)) }.

(** The coin set a view shows. *)

Definition shows (vc : CCoinsViewCache V) : gmap COutPoint utxo := overlay (cacheCoins (mCache vc)) (A (source vc)).

(** Code run on a view that shows [U] has a result, and leaves a view that shows a set as [Q] says. *)

Definition acts {B} (m : cached B) (U : gmap COutPoint utxo) (Q : B -> gmap COutPoint utxo -> Prop) : Prop :=
  forall vc, view_ok vc -> shows vc = U -> exists b vc', m vc = Ok (b, vc') /\ view_ok vc' /\ Q b (shows vc').

Lemma acts_ret {B} (b : B) U Q : Q b U -> acts (mret b) U Q.
Proof. intros HQ vc Hvc <-. by exists b, vc. Qed.

Lemma acts_bind {B C} (m : cached B) (k : B -> cached C) U R Q :
  acts m U R -> (forall b U', R b U' -> acts (k b) U' Q) -> acts (m ≫= k) U Q.
Proof.
  intros Hm Hk vc Hvc HU. destruct (Hm vc Hvc HU) as (b & vc' & E & Hvc' & HR). destruct (Hk b _ HR vc' Hvc' eq_refl) as (c & vc'' & E' & Hrest).
  exists c, vc''. split; [|done]. unfold mbind, cached_bind. by rewrite E.
Qed.

Lemma acts_mono {B} (m : cached B) U (R Q : B -> gmap COutPoint utxo -> Prop) : acts m U R -> (forall b U', R b U' -> Q b U') -> acts m U Q.
Proof. intros Hm HQ vc Hvc HU. destruct (Hm vc Hvc HU) as (b & vc' & E & Hvc' & HR). exists b, vc'. split_and!; [done | done | by apply HQ]. Qed.

Lemma acts_assert (b : bool) U : b = true -> acts (lift (assert_ b)) U (fun _ U' => U' = U).
Proof. intros -> vc Hvc HU. by exists tt, vc. Qed.

Lemma shows_valid vc : view_ok vc -> map_Forall (fun _ u => utxo_ok u) (shows vc).
Proof.
  intros [_ Hs He] o u. unfold shows. rewrite lookup_overlay. pose proof (view_valid _ Hs o) as Hp. unfold entry_view.
  destruct (cacheCoins (mCache vc) !! o) as [e|] eqn:Ee; [|apply Hp]. destruct (He o e Ee) as [_ Hsz _ _ _ _].
  destruct (coin_IsSpent (entry_coin e)) eqn:Esp; [done|]. destruct (HasScript (entry_coin e)); [|apply Hp].
  intros [= <-]. split; [by apply Z.eqb_neq in Esp | by apply Hsz].
Qed.

Lemma acts_parent o m U : 0 <= m -> forall vc, view_ok vc -> shows vc = U -> exists r vc', parent_GetCoin o m vc = Ok (r, vc') /\ view_ok vc' /\
  shows vc' = U /\ mCache vc' = mCache vc /\ A (source vc') = A (source vc) /\ answers m (A (source vc) !! o) r.
Proof.
  intros Hm vc [Ha Hs He] HU. destruct (view_coin (source vc) o m Hs Hm) as (r & v' & E & Hv' & EA & Hr).
  exists r, (with_source vc v'). unfold parent_GetCoin. rewrite Ha, E. cbn [source mCache with_source]. split_and!; [done | | | done | done | done].
  - split; cbn; [done | done | by rewrite EA].
  - rewrite <- HU. unfold shows. cbn. by rewrite EA.
Qed.

(** Caching what the parent answered changes nothing. *)

Definition kept (c : CoinImpl) : CoinImpl := if coin_owner c then strip_script c else MakeNonOwning c.

Lemma kept_entry m p c : answers m p (Some c) -> (forall u, p = Some u -> utxo_ok u) ->
  entry_ok p {| entry_coin := kept c; DIRTY := false; FRESH := coin_IsSpent (kept c) |} /\
  entry_view (Some {| entry_coin := kept c; DIRTY := false; FRESH := coin_IsSpent (kept c) |}) p = p.
Proof.
  intros [Hc Ha] Hu. assert (coin_IsSpent (kept c) = coin_IsSpent c) as Es by (unfold kept; by destruct (coin_owner c)).
  assert (code_ok (kept c)) as Hk by (unfold kept; destruct (coin_owner c); [apply (remake_code true c Hc) | apply (remake_code false c Hc)]).
  unfold entry_view. cbn [entry_coin]. rewrite Es. destruct (coin_IsSpent c) eqn:Esp.
  { split; [|done]. split; cbn [entry_coin FRESH DIRTY]; rewrite ?Es; done. }
  destruct Ha as (u & -> & Hr & _). assert (represents (kept c) u) as Hrk.
  { unfold kept. destruct (coin_owner c); [by apply strip_represents | by apply (remake_represents false)]. }
  split; [split; cbn [entry_coin FRESH DIRTY]; rewrite ?Es; try done; [|by eauto] | destruct (HasScript (kept c)) eqn:Eh; [|done]; by rewrite (represents_utxo _ u)].
  intros _ Hh. rewrite (rep_script _ _ Hrk Hh). by apply Hu.
Qed.

(** What the store has of an output. *)

Lemma fetch_answers P s o e : entries_ok P (cacheCoins s) -> cacheCoins s !! o = Some e -> exists c, FetchCoin s o = Some c /\
  code_ok c /\ coin_IsSpent c = coin_IsSpent (entry_coin e) /\ HasScript c = HasScript (entry_coin e) /\
  (coin_IsSpent (entry_coin e) || HasScript (entry_coin e) = true -> answers (2 ^ 64 - 1) (entry_view (Some e) (P !! o)) (Some c)) /\
  (coin_IsSpent (entry_coin e) || HasScript (entry_coin e) = false -> exists u, P !! o = Some u /\ represents c u).
Proof.
  intros Hok Ee. destruct (Hok o e Ee) as [Hc Hsz Hf Hsp Hd Hcl]. unfold FetchCoin. rewrite Ee. set (c := entry_coin e) in *.
  exists (if HasScript c then MakeNonOwning c else MakeOwning c). destruct (HasScript c) eqn:Eh.
  - split_and!; [done | by apply (remake_code false c) | done | exact Eh | | by rewrite orb_true_r].
    intros _. split; [by apply (remake_code false c)|]. change (coin_IsSpent (MakeNonOwning c)) with (coin_IsSpent c). unfold entry_view. fold c.
    destruct (coin_IsSpent c); [done|]. rewrite Eh. exists (utxo_of c). split_and!; [done | | done..].
    apply (remake_represents false); [done | by apply represents_self].
  - split_and!; [done | by apply (remake_code true c) | done | exact Eh | |]; rewrite orb_false_r.
    + intros Es. split; [by apply (remake_code true c)|]. change (coin_IsSpent (MakeOwning c)) with (coin_IsSpent c). unfold entry_view. fold c. by rewrite Es.
    + intros Es. destruct (DIRTY e) eqn:Ed; [by specialize (Hd Es eq_refl)|]. destruct (Hcl Es eq_refl) as (u & Hu & Hr).
      exists u. split; [done|]. by apply (remake_represents true).
Qed.

Lemma answers_mono m m' u r : m' <= m -> answers m u r -> answers m' u r.
Proof.
  intros Hm. destruct r as [c|]; [|done]. intros [Hc Ha]. split; [done|]. destruct (coin_IsSpent c); [done|].
  destruct Ha as (x & Hx & Hr & Hs). exists x. split_and!; [done | done | intros ?; apply Hs; lia].
Qed.

Lemma GetCoin_spec o rs U vc : view_ok vc -> shows vc = U -> exists r vc', GetCoin o rs vc = Ok (r, vc') /\ view_ok vc' /\ shows vc' = U /\
  answers (if rs then 2 ^ 64 - 1 else 0) (U !! o) r /\ (is_Some r -> is_Some (cacheCoins (mCache vc') !! o)).
Proof.
  intros Hvc HU. pose proof (vo_entries _ Hvc) as Hok. unfold GetCoin, mbind at 1, cached_bind at 1, get_cache.
  destruct (cacheCoins (mCache vc) !! o) as [e|] eqn:Ee.
  - destruct (fetch_answers _ _ o e Hok Ee) as (c & -> & Hc & Es & Eh & Hans & Hrep). rewrite Es, Eh.
    assert (U !! o = entry_view (Some e) (A (source vc) !! o)) as EU by (rewrite <- HU; unfold shows; by rewrite lookup_overlay, Ee).
    destruct (coin_IsSpent (entry_coin e) || HasScript (entry_coin e)) eqn:Eor.
    { exists (Some c), vc. split_and!; [done | done | done| |by rewrite Ee]. rewrite EU. eapply answers_mono; [|by apply Hans]. destruct rs; lia. }
    apply orb_false_elim in Eor as [Es' Eh']. destruct (Hrep eq_refl) as (u & Hu & Hr). unfold entry_view in EU. rewrite Es', Eh' in EU.
    destruct rs; cbn [negb].
    + destruct (acts_parent o (2 ^ 64 - 1) U ltac:(lia) vc Hvc HU) as (r & vc' & E & Hvc' & HU' & EC & _ & Hr').
      exists r, vc'. unfold mbind, cached_bind. rewrite E. split_and!; [by destruct r | done | done | by rewrite EU | by rewrite EC, Ee].
    + exists (Some (strip_script c)), vc. split_and!; [done | done | done | | by rewrite Ee]. rewrite EU, Hu. split; [by apply (remake_code true c)|].
      change (coin_IsSpent (strip_script c)) with (coin_IsSpent c). rewrite Es, Es'. exists u. split_and!; [done | by apply strip_represents |].
      intros Hz. unfold HasScript, strip_script. cbn. rewrite (rep_size _ _ Hr). apply Z.eqb_eq. unfold script_size in *. cbn. lia.
  - assert (U !! o = A (source vc) !! o) as EU by (rewrite <- HU; unfold shows; by rewrite lookup_overlay, Ee).
    assert (FetchCoin (mCache vc) o = None) as -> by (unfold FetchCoin; by rewrite Ee).
    destruct (acts_parent o (if rs then 2 ^ 64 - 1 else 0) U ltac:(destruct rs; lia) vc Hvc HU) as (r & vc' & E & Hvc' & HU' & EC & EA & Hr).
    rewrite EU. unfold mbind at 1, cached_bind at 1. rewrite E. destruct r as [c|]; [|exists None, vc'; split_and!; [done.. | by intros []]].
    destruct (kept_entry _ _ c Hr) as [Hent Hview]; [intros u Hu; by apply (view_valid _ (vo_source _ Hvc) o u)|].
    unfold store_cache_coin. rewrite Ee. fold (kept c). eexists (Some c), _. split; [done|].
    assert (forall usage s, s = {| cacheCoins := <[o:={| entry_coin := kept c; DIRTY := false; FRESH := coin_IsSpent (kept c) |}]> (cacheCoins (mCache vc));
      cachedCoinsUsage := usage |} -> shows (with_cache vc' s) = U) as Hshow.
    { intros usage s ->. rewrite <- HU. unfold shows. cbn. rewrite EA. apply (overlay_same _ _ _ o); [intros o' Ho'; by rewrite lookup_insert_ne|].
      rewrite lookup_insert_eq, Ee. exact Hview. }
    split; [|split_and!; [eapply Hshow; done | done | cbn; by rewrite lookup_insert_eq]]. destruct Hvc' as [Hat Hsrc Hent']. split; cbn; [done | done|].
    rewrite EA. by apply entries_ok_insert.
Qed.

Lemma GetCoin_acts o rs U : acts (GetCoin o rs) U (fun r U' => U' = U /\ answers (if rs then 2 ^ 64 - 1 else 0) (U !! o) r).
Proof. intros vc Hvc HU. destruct (GetCoin_spec o rs U vc Hvc HU) as (r & vc' & E & Hvc' & HU' & Hr & _). by exists r, vc'. Qed.

Lemma HaveCoin_acts o U : acts (HaveCoin o) U (fun b U' => U' = U /\ b = bool_decide (is_Some (U !! o))).
Proof.
  eapply acts_bind; [apply GetCoin_acts|]. intros r U' [-> Hr]. apply acts_ret. split; [done|]. symmetry. destruct r as [c|]; cbn in Hr.
  - destruct Hr as [_ Hr]. destruct (coin_IsSpent c); [rewrite Hr; done|]. by destruct Hr as (x & -> & _).
  - by rewrite Hr.
Qed.

(** With the script required the answer is the whole output, unless the view has spent it. *)

Lemma answers_whole u r : answers (2 ^ 64 - 1) u r -> (forall x, u = Some x -> utxo_ok x) ->
  match r with
  | None => u = None
  | Some c => code_ok c /\ if coin_IsSpent c then u = None else u = Some (utxo_of c) /\ HasScript c = true
  end.
Proof.
  intros Ha Hu. destruct r as [c|]; [|done]. destruct Ha as [Hc Ha]. split; [done|]. destruct (coin_IsSpent c); [done|].
  destruct Ha as (x & -> & Hr & Hs). assert (HasScript c = true) as Hh by (apply Hs; destruct (Hu x eq_refl); lia).
  split; [|done]. by rewrite (represents_utxo c x).
Qed.

Lemma SpendCoin_acts o mv U : acts (SpendCoin o mv) U (fun '(b, r) U' => U' = delete o U /\
  (forall u, U !! o = Some u -> b = true /\ if mv then exists c, r = Some c /\ utxo_of c = u /\ code_ok c /\ HasScript c = true /\ coin_owner c = true
                                           else r = None)).
Proof.
  intros vc Hvc HU. destruct (GetCoin_spec o mv U vc Hvc HU) as (r & vc' & E & Hvc' & HU' & Hr & Hin).
  unfold SpendCoin, mbind at 1, cached_bind at 1. rewrite E. pose proof (shows_valid vc Hvc o) as Hval. rewrite HU in Hval.
  destruct r as [c|].
  - destruct (Hin (mk_is_Some _ _ eq_refl)) as [e Ee]. unfold mbind, cached_bind, get_cache, put_cache, store_SpendCoin. rewrite Ee.
    eexists _, _. split; [done|]. destruct Hvc' as [Hat Hsrc Hent]. destruct (Hent o e Ee) as [_ _ Hf _ _ _].
    assert (forall m', (forall o', o' <> o -> m' !! o' = cacheCoins (mCache vc') !! o') -> entry_view (m' !! o) (A (source vc') !! o) = None ->
      overlay m' (A (source vc')) = delete o U) as Hov by (intros m' H1 H2; rewrite <- HU'; by apply overlay_delete).
    split; [split; cbn [attached source mCache with_cache]; [done | done|] | split].
    + destruct (FRESH e) eqn:Ef; cbn [cacheCoins]; [by apply entries_ok_delete|]. apply entries_ok_insert; [done|]. by split.
    + unfold shows. cbn [source mCache with_cache]. destruct (FRESH e) eqn:Ef; cbn [cacheCoins]; apply Hov.
      * intros o' Ho'. by rewrite lookup_delete_ne.
      * rewrite lookup_delete_eq. by apply Hf.
      * intros o' Ho'. by rewrite lookup_insert_ne.
      * by rewrite lookup_insert_eq.
    + intros u Hu. split; [done|]. rewrite Hu in Hr. destruct mv; [|done].
      destruct (answers_whole _ _ Hr) as [Hc Hw]; [intros x [= <-]; by apply Hval|].
      destruct (coin_IsSpent c); [done|]. destruct Hw as [[= ->] Hh]. exists (MakeOwning c). split_and!; [done | by apply (remake_utxo true) | by apply (remake_code true c) | done | done].
  - cbn in Hr. exists (false, None), vc'. split_and!; [done | done | | rewrite Hr; done]. by rewrite HU', delete_id.
Qed.

(** The entry a new coin replaces. *)

Lemma old_entry p me : (forall e, me = Some e -> entry_ok p e) -> let e := default new_entry me in
  (FRESH e = true -> p = None) /\ (entry_view me p = None -> coin_IsSpent (entry_coin e) = true) /\
  (DIRTY e = false -> entry_view me p = None -> p = None).
Proof.
  intros Hok. destruct me as [e|]; cbn [default]; [|done]. destruct (Hok e eq_refl) as [_ _ Hf Hsp Hd Hcl]. unfold entry_view.
  destruct (coin_IsSpent (entry_coin e)) eqn:Es; [split_and!; [done | done | intros; by apply Hsp]|]. split; [done|].
  destruct (HasScript (entry_coin e)) eqn:Eh; [done|]. destruct (DIRTY e) eqn:Ed; [by specialize (Hd eq_refl eq_refl)|].
  destruct (Hcl eq_refl eq_refl) as (u & -> & _). done.
Qed.

(** A coin that can be added: it has its script and is not spent. *)

Definition addable (c : CoinImpl) : Prop :=
  code_ok c /\ coin_IsSpent c = false /\ HasScript c = true /\ script_size (scriptPubKey (coin_out c)) < 2 ^ 64.

Definition added (o : COutPoint) (u : utxo) (genesisActivationHeight : Z) (U : gmap COutPoint utxo) : gmap COutPoint utxo :=
  if IsUnspendable (u_script u) (genesisActivationHeight <=? u_height u) then U else <[o := u]> U.

Lemma AddCoin_acts o c ow g U : addable c -> (ow = false -> U !! o = None) -> acts (AddCoin o c ow g) U (fun _ U' => U' = added o (utxo_of c) g U).
Proof.
  intros (Hc & Hns & Hh & Hsz) How. eapply acts_bind; [apply acts_assert; by rewrite Hns|]. intros _ U' ->. unfold added. cbn [utxo_of u_script u_height].
  destruct (IsUnspendable _ _); [by apply acts_ret|]. intros vc Hvc HU. unfold mbind, cached_bind, get_cache, put_cache, lift, store_AddCoin.
  destruct Hvc as [Hat Hsrc Hent]. set (m := cacheCoins (mCache vc)) in *.
  assert (U !! o = entry_view (m !! o) (A (source vc) !! o)) as EU by (rewrite <- HU; unfold shows; by rewrite lookup_overlay).
  destruct (old_entry (A (source vc) !! o) (m !! o)) as (Hf & Hsp & Hdf); [intros e Ee; by apply Hent|].
  set (e := default new_entry (m !! o)) in *.
  assert (negb ow && negb (coin_IsSpent (entry_coin e)) = false) as ->.
  { destruct ow; [done|]. rewrite Hsp; [done|]. rewrite <- EU. by apply How. }
  eexists tt, _. split; [done|]. split; [split; cbn [attached source mCache with_cache cacheCoins]; [done | done|] | unfold shows; cbn [source mCache with_cache cacheCoins]].
  - apply entries_ok_insert; [done|]. split; cbn [entry_coin DIRTY FRESH]; try done.
    intros [?|[How' Hnd]%andb_prop]%orb_prop; [by apply Hf|]. destruct ow; [done|]. apply Hdf; [by apply negb_true_iff|]. rewrite <- EU. by apply How.
  - rewrite <- HU. apply overlay_insert. unfold entry_view. cbn [entry_coin]. by rewrite Hns, Hh.
Qed.

(** The outputs of a transaction, as coins. *)

Definition output_coin (out : CTxOut) (nHeight : Z) (cb : bool) : utxo := utxo_of (coin_with_script out nHeight cb).

Definition output_ok (out : CTxOut) : Prop := nValue out <> -1 /\ script_size (scriptPubKey out) < 2 ^ 64.

Definition outpoint_at (txid : list Z) (i : nat) : COutPoint := {| outpoint_txid := txid; outpoint_n := u32 (Z.of_nat i) |}.

Fixpoint add_outputs (txid : list Z) (cb : bool) (nHeight g : Z) (i : nat) (vout : list CTxOut) (U : gmap COutPoint utxo) : gmap COutPoint utxo :=
  match vout with
  | [] => U
  | out :: vout => add_outputs txid cb nHeight g (S i) vout (added (outpoint_at txid i) (output_coin out nHeight cb) g U)
  end.

Lemma output_addable out nHeight cb : output_ok out -> addable (coin_with_script out nHeight cb).
Proof.
  intros [Hv Hs]. split_and!; [apply height_code_ok | by apply Z.eqb_neq | by apply Z.eqb_refl | done].
Qed.

(** The outputs from the [i]-th on are not there yet. *)

Definition outputs_absent (txid : list Z) (i n : nat) (U : gmap COutPoint utxo) : Prop :=
  forall j, (i <= j < i + n)%nat -> U !! outpoint_at txid j = None.

Lemma outpoint_at_inj txid i j : Z.of_nat i < 2 ^ 32 -> Z.of_nat j < 2 ^ 32 -> outpoint_at txid i = outpoint_at txid j -> i = j.
Proof. intros Hi Hj [= E]. unfold u32 in E. rewrite !Z.mod_small in E by lia. lia. Qed.

Lemma added_other o u g U o' : o' <> o -> added o u g U !! o' = U !! o'.
Proof. intros Hne. unfold added. destruct (IsUnspendable _ _); [done | by rewrite lookup_insert_ne]. Qed.

Lemma add_coins_acts txid cb nHeight g check vout : forall i U, (Z.of_nat (i + length vout) <= 2 ^ 32) -> Forall output_ok vout ->
  (check = true \/ cb = true \/ outputs_absent txid i (length vout) U) ->
  acts (add_coins_loop txid cb nHeight g check i vout) U (fun _ U' => U' = add_outputs txid cb nHeight g i vout U).
Proof.
  induction vout as [|out vout IH]; intros i U Hlen Hok Hab; [by apply acts_ret|]. apply Forall_cons_1 in Hok as [Hout Hok]. cbn [add_coins_loop add_outputs length] in *.
  fold (outpoint_at txid i). set (o := outpoint_at txid i).
  eapply (acts_bind _ _ _ (fun ow U' => U' = U /\ (ow = false -> U !! o = None))).
  { destruct check.
    - eapply acts_mono; [apply HaveCoin_acts|]. intros b U' [-> ->]. split; [done|]. intros Hb%bool_decide_eq_false. by apply eq_None_not_Some.
    - apply acts_ret. split; [done|]. intros ->. destruct Hab as [?|[?|Hab]]; [done..|]. apply Hab. lia. }
  intros ow U' [-> How]. eapply acts_bind; [apply AddCoin_acts; [by apply output_addable | exact How]|]. intros _ U' ->. apply IH; [lia | done|].
  destruct Hab as [?|[?|Hab]]; [by left | by right; left | right; right]. intros j Hj. rewrite added_other; [apply Hab; lia|].
  intros E%outpoint_at_inj; lia.
Qed.

Lemma AddCoins_acts tx txid nHeight g check U : Z.of_nat (length (vout tx)) <= 2 ^ 32 -> Forall output_ok (vout tx) ->
  (check = true \/ IsCoinBase tx = true \/ outputs_absent txid 0 (length (vout tx)) U) ->
  acts (AddCoins tx txid nHeight g check) U (fun _ U' => U' = add_outputs txid (IsCoinBase tx) nHeight g 0 (vout tx) U).
Proof.
  intros Hlen Hok Hab. by apply add_coins_acts.
Qed.

Lemma have_inputs_acts inputs U : acts (have_inputs_loop inputs) U (fun b U' => U' = U /\ b = forallb (fun i => bool_decide (is_Some (U !! prevout i))) inputs).
Proof.
  induction inputs as [|i inputs IH]; [by apply acts_ret|]. cbn [have_inputs_loop forallb]. eapply acts_bind; [apply HaveCoin_acts|].
  intros b U' [-> ->]. destruct (bool_decide (is_Some (U !! prevout i))); [apply IH | by apply acts_ret].
Qed.

Lemma HaveInputs_acts tx U : acts (HaveInputs tx) U (fun b U' => U' = U /\
  b = IsCoinBase tx || forallb (fun i => bool_decide (is_Some (U !! prevout i))) (vin tx)).
Proof. unfold HaveInputs. destruct (IsCoinBase tx); [by apply acts_ret | apply have_inputs_acts]. Qed.

(** The value of the inputs, when they are unspent and the sum fits. *)

Definition input_value (U : gmap COutPoint utxo) (i : CTxIn) : Z := match U !! prevout i with Some u => u_value u | None => 0 end.

Definition inputs_value (U : gmap COutPoint utxo) (inputs : list CTxIn) : Z := foldr (fun i n => input_value U i + n) 0 inputs.

Lemma GetCoin_value o U : acts (GetCoin o false) U (fun r U' => U' = U /\ forall u, U !! o = Some u ->
  exists c, r = Some c /\ coin_IsSpent c = false /\ represents c u).
Proof.
  eapply acts_mono; [apply GetCoin_acts|]. intros r U' [-> Hr]. split; [done|]. intros u Hu. rewrite Hu in Hr. destruct r as [c|]; [|done].
  destruct Hr as [_ Hr]. destruct (coin_IsSpent c) eqn:E; [done|]. destruct Hr as (x & [= ->] & Hr & _). by exists c.
Qed.

Lemma value_in_acts inputs U acc : Forall (fun i => is_Some (U !! prevout i) /\ 0 <= input_value U i) inputs -> 0 <= acc -> acc + inputs_value U inputs < 2 ^ 63 ->
  acts (value_in_loop acc inputs) U (fun n U' => U' = U /\ n = acc + inputs_value U inputs).
Proof.
  revert acc. induction inputs as [|i inputs IH]; intros acc Hok Hacc Hsum; cbn [value_in_loop inputs_value foldr] in *; [apply acts_ret; split; [done | lia]|].
  apply Forall_cons_1 in Hok as [[[u Hu] Hv] Hok]. assert (0 <= inputs_value U inputs) as Hpos.
  { clear -Hok. induction Hok as [|i l [_ Hi] _ IH]; cbn [inputs_value foldr]; [lia|]. unfold inputs_value in IH. lia. }
  eapply acts_bind; [apply GetCoin_value|]. intros r U' [-> Hr]. destruct (Hr u Hu) as (c & -> & Hns & Hrep).
  eapply acts_bind; [apply acts_assert; by rewrite Hns|]. intros _ U' ->. rewrite (rep_value _ _ Hrep).
  assert (input_value U i = u_value u) as Ei by (unfold input_value; by rewrite Hu). fold (inputs_value U inputs) in *.
  eapply (acts_bind _ _ _ (fun n U' => U' = U /\ n = acc + u_value u)).
  { unfold amount_add, int64_result. rewrite decide_True by (unfold is_int64; lia). intros vc Hvc HU. by exists (acc + u_value u), vc. }
  intros n U' [-> ->]. eapply acts_mono; [apply IH; [done | lia | lia]|]. cbn. intros n U' [-> ->]. split; [done | lia].
Qed.

End transparent.

(** ** Runs of operations

    What clients do to a view, as data: the client sees the replies only. *)

Inductive coin_op :=
| op_get (o : COutPoint) (requiresScript : bool)
| op_have (o : COutPoint)
| op_spend (o : COutPoint) (moveout : bool)
| op_add (o : COutPoint) (c : CoinImpl) (possible_overwrite : bool) (genesisActivationHeight : Z)
| op_inputs (tx : CTransaction).

Inductive coin_reply :=
| reply_coin (r : option CoinImpl)
| reply_bool (b : bool)
| reply_spent (b : bool) (r : option CoinImpl)
| reply_done.

(** The specification: a plain set of unspent outputs. *)

Definition op_set (p : coin_op) (U : gmap COutPoint utxo) : gmap COutPoint utxo :=
  match p with
  | op_spend o _ => delete o U
  | op_add o c _ g => added o (utxo_of c) g U
  | _ => U
  end.

Definition op_reply (p : coin_op) (U : gmap COutPoint utxo) (r : coin_reply) : Prop :=
  match p, r with
  | op_get o rs, reply_coin r => answers (if rs then 2 ^ 64 - 1 else 0) (U !! o) r
  | op_have o, reply_bool b => b = bool_decide (is_Some (U !! o))
  | op_spend o mv, reply_spent b r =>
      forall u, U !! o = Some u -> b = true /\
        if mv then exists c, r = Some c /\ utxo_of c = u /\ code_ok c /\ HasScript c = true /\ coin_owner c = true else r = None
  | op_add _ _ _ _, reply_done => True
  | op_inputs tx, reply_bool b => b = IsCoinBase tx || forallb (fun i => bool_decide (is_Some (U !! prevout i))) (vin tx)
  | _, _ => False
  end.

(** The callers' side: a coin is added with its script, and over another only when an overwrite is expected. *)

Definition op_legal (p : coin_op) (U : gmap COutPoint utxo) : Prop :=
  match p with
  | op_add o c ow _ => addable c /\ (ow = false -> U !! o = None)
  | _ => True
  end.

Fixpoint legal_run (ops : list coin_op) (U : gmap COutPoint utxo) : Prop :=
  match ops with [] => True | p :: ops => op_legal p U /\ legal_run ops (op_set p U) end.

Fixpoint reply_run (ops : list coin_op) (U : gmap COutPoint utxo) (rs : list coin_reply) : Prop :=
  match ops, rs with
  | [], [] => True
  | p :: ops, r :: rs => op_reply p U r /\ reply_run ops (op_set p U) rs
  | _, _ => False
  end.

Definition set_run (ops : list coin_op) (U : gmap COutPoint utxo) : gmap COutPoint utxo := foldl (fun U p => op_set p U) U ops.

Section run.
Context `{MemUsage} {V : Type} `{HV : ICoinsView V}.

Definition run_op (p : coin_op) : cached coin_reply :=
  match p with
  | op_get o rs => r ← GetCoin o rs; mret (reply_coin r)
  | op_have o => b ← HaveCoin o; mret (reply_bool b)
  | op_spend o mv => br ← SpendCoin o mv; mret (reply_spent br.1 br.2)
  | op_add o c ow g => _ ← AddCoin o c ow g; mret reply_done
  | op_inputs tx => b ← HaveInputs tx; mret (reply_bool b)
  end.

Fixpoint run_ops (ops : list coin_op) : cached (list coin_reply) :=
  match ops with
  | [] => mret []
  | p :: ops => r ← run_op p; rs ← run_ops ops; mret (r :: rs)
  end.

Context (I : V -> Prop) (A : V -> gmap COutPoint utxo) `{HL : !CoinsViewLaws V I A}.

Lemma run_op_acts p U : op_legal p U -> acts I A (run_op p) U (fun r U' => U' = op_set p U /\ op_reply p U r).
Proof.
  destruct p as [o rs|o|o mv|o c ow g|tx]; intros Hl; cbn [run_op].
  - eapply acts_bind; [apply (GetCoin_acts I A)|]. intros r U' [-> Hr]. by apply acts_ret.
  - eapply acts_bind; [apply (HaveCoin_acts I A)|]. intros r U' [-> Hr]. by apply acts_ret.
  - eapply acts_bind; [apply (SpendCoin_acts I A)|]. intros [b r] U' [-> Hr]. by apply acts_ret.
  - destruct Hl as [Hadd How]. eapply acts_bind; [by apply AddCoin_acts|]. intros _ U' ->. by apply acts_ret.
  - eapply acts_bind; [apply (HaveInputs_acts I A)|]. intros r U' [-> Hr]. by apply acts_ret.
Qed.

Lemma run_ops_acts ops : forall U, legal_run ops U -> acts I A (run_ops ops) U (fun rs U' => U' = set_run ops U /\ reply_run ops U rs).
Proof.
  induction ops as [|p ops IH]; intros U Hl; cbn [run_ops]; [by apply acts_ret|]. destruct Hl as [Hp Hl].
  eapply acts_bind; [by apply run_op_acts|]. intros r U' [-> Hr]. eapply acts_bind; [by apply IH|]. intros rs U' [-> Hrs]. by apply acts_ret.
Qed.

End run.

(** ** Writing a cache into the store below it *)

Section batch.
Context `{MemUsage} (G : gmap COutPoint utxo).

Lemma clean_view p e : entry_ok p e -> DIRTY e = false -> entry_view (Some e) p = p.
Proof.
  intros [_ _ _ Hsp _ Hcl] Hd. unfold entry_view. destruct (coin_IsSpent (entry_coin e)) eqn:Es; [by rewrite Hsp|].
  destruct (Hcl eq_refl Hd) as (u & -> & Hr). destruct (HasScript (entry_coin e)) eqn:Eh; [|done]. by rewrite (represents_utxo _ u).
Qed.

(** A dirty entry does not need its parent. *)

Lemma dirty_view p p' e : entry_ok p e -> DIRTY e = true -> entry_view (Some e) p = entry_view (Some e) p'.
Proof.
  intros [_ _ _ _ Hd _] Hdirty. unfold entry_view. destruct (coin_IsSpent (entry_coin e)); [done|]. by rewrite (Hd eq_refl Hdirty).
Qed.

Lemma overlay_alter m m' o e : (forall o', o' <> o -> m' !! o' = m !! o') ->
  entry_view (m' !! o) (G !! o) = entry_view (Some e) (overlay m G !! o) -> forall o', overlay m' G !! o' = entry_view (if decide (o' = o) then Some e else None) (overlay m G !! o').
Proof. intros Hne Ho o'. rewrite !lookup_overlay in *. destruct (decide (o' = o)) as [->|Hd]; [exact Ho|]. cbn. by rewrite Hne. Qed.

Lemma batch_entry_acts s o e : entries_ok G (cacheCoins s) -> entry_ok (overlay (cacheCoins s) G !! o) e -> exists s', batch_entry s o e = Ok s' /\
  entries_ok G (cacheCoins s') /\
  forall o', overlay (cacheCoins s') G !! o' = entry_view (if decide (o' = o) then Some e else None) (overlay (cacheCoins s) G !! o').
Proof.
  intros Hs He. pose proof He as [Hc Hsz Hf _ Hd _]. unfold batch_entry. set (m := cacheCoins s) in *.
  destruct (DIRTY e) eqn:Ed; cbn [negb].
  2: { exists s. split_and!; [done..|]. fold m. intros o'. destruct (decide (o' = o)) as [->|]; [|done]. by rewrite clean_view. }
  assert (forall f, (f = true -> G !! o = None) -> entry_ok (G !! o) {| entry_coin := entry_coin e; DIRTY := true; FRESH := f |}) as Hnew by (intros f Hfr; by split).
  assert (entry_view (Some e) (G !! o) = entry_view (Some e) (overlay m G !! o)) as Ev by (symmetry; by apply (dirty_view _ _ e He)).
  destruct (m !! o) as [us|] eqn:Eus.
  - assert (overlay m G !! o = entry_view (Some us) (G !! o)) as EU by (by rewrite lookup_overlay, Eus).
    destruct (old_entry (G !! o) (Some us)) as (Hfus & Hsus & _); [intros e' [= <-]; by apply Hs|]. change (default new_entry (Some us)) with us in *.
    destruct (FRESH e && negb (coin_IsSpent (entry_coin us))) eqn:Ebad.
    { apply andb_prop in Ebad as [Efr Eun]. rewrite Hsus in Eun; [done|]. rewrite <- EU. by apply Hf. }
    destruct (FRESH us && coin_IsSpent (entry_coin e)) eqn:Eer.
    + apply andb_prop in Eer as [Efr Esp]. eexists. split_and!; [done | by apply entries_ok_delete|]. cbn [EraseCoin cacheCoins].
      apply overlay_alter; [intros o' Ho'; by rewrite lookup_delete_ne|]. rewrite lookup_delete_eq, <- Ev. unfold entry_view. rewrite Esp. by apply Hfus.
    + eexists. split_and!; [done | by apply entries_ok_insert; [|apply Hnew]|]. cbn [UpdateEntry cacheCoins].
      apply overlay_alter; [intros o' Ho'; by rewrite lookup_insert_ne|]. by rewrite lookup_insert_eq, <- Ev.
  - assert (overlay m G !! o = G !! o) as EU by (by rewrite lookup_overlay, Eus). rewrite EU in *.
    destruct (FRESH e && coin_IsSpent (entry_coin e)) eqn:Efs.
    + apply andb_prop in Efs as [Efr Esp]. exists s. split_and!; [done..|]. fold m. intros o'. destruct (decide (o' = o)) as [->|]; [|done].
      rewrite EU. unfold entry_view. rewrite Esp. by apply Hf.
    + eexists. split_and!; [done | by apply entries_ok_insert; [|apply Hnew]|]. cbn [AddEntry cacheCoins].
      apply overlay_alter; [intros o' Ho'; by rewrite lookup_insert_ne|]. by rewrite lookup_insert_eq, EU.
Qed.

Lemma BatchWrite_acts l : forall s, NoDup l.*1 -> entries_ok G (cacheCoins s) ->
  (forall o e, (o, e) ∈ l -> entry_ok (overlay (cacheCoins s) G !! o) e) -> exists s', BatchWrite s l = Ok s' /\ entries_ok G (cacheCoins s') /\
    overlay (cacheCoins s') G = overlay (list_to_map l) (overlay (cacheCoins s) G).
Proof.
  induction l as [|[o e] l IH]; intros s Hnd Hs Hl.
  - exists s. split_and!; [done | done|]. apply map_eq. intros o'. cbn. by rewrite (lookup_overlay ∅), lookup_empty.
  - cbn in Hnd. inversion_clear Hnd as [|? ? Hnin Hnd']. destruct (batch_entry_acts s o e Hs) as (s1 & E1 & Hs1 & Ho1); [apply Hl; by left|].
    destruct (IH s1 Hnd' Hs1) as (s' & E' & Hs' & Ho').
    { intros o' e' Hin. rewrite Ho1. rewrite decide_False; [apply Hl; by right|]. intros ->. apply Hnin. by apply (list_elem_of_fmap_2 fst _ _ Hin). }
    exists s'. cbn [BatchWrite]. rewrite E1. cbn. split_and!; [done | done|]. rewrite Ho'. apply map_eq. intros o'. rewrite (lookup_overlay (list_to_map l)), (lookup_overlay (<[o := e]> (list_to_map l))), Ho1.
    destruct (decide (o' = o)) as [->|Hne].
    + rewrite (not_elem_of_list_to_map_1 l o) by done. by rewrite lookup_insert_eq.
    + by rewrite lookup_insert_ne.
Qed.

End batch.

(** ** The memory the store accounts for *)

Section usage.
Context `{MemUsage}.

Definition sum_usage (m : gmap COutPoint CCoinsCacheEntry) : Z := map_fold (fun _ e n => entry_usage e + n) 0 m.

Definition usage_ok (s : CoinsStore) : Prop := cachedCoinsUsage s = u64 (sum_usage (cacheCoins s)).

Lemma sum_insert m o e : m !! o = None -> sum_usage (<[o := e]> m) = entry_usage e + sum_usage m.
Proof. intros Ho. unfold sum_usage. rewrite map_fold_insert_L; [done | intros; lia | done]. Qed.

Lemma sum_delete m o e : m !! o = Some e -> sum_usage m = entry_usage e + sum_usage (delete o m).
Proof. intros Ho. rewrite <- (sum_insert (delete o m) o e) by apply lookup_delete_eq. by rewrite insert_delete_id. Qed.

Lemma sum_update m o e e' : m !! o = Some e -> sum_usage (<[o := e']> m) = sum_usage m - entry_usage e + entry_usage e'.
Proof. intros Ho. rewrite <- (insert_delete_eq m o e'), (sum_insert (delete o m)) by apply lookup_delete_eq. rewrite (sum_delete m o e Ho). lia. Qed.

Lemma u64_sub a b : u64 (u64 a - b) = u64 (a - b).
Proof. unfold u64. by rewrite Zminus_mod_idemp_l. Qed.

Lemma u64_add a b : u64 (u64 a + b) = u64 (a + b).
Proof. unfold u64. by rewrite Zplus_mod_idemp_l. Qed.

Lemma usage_cleared d f : entry_usage {| entry_coin := new_CoinImpl; DIRTY := d; FRESH := f |} = 0.
Proof. unfold entry_usage, coin_usage. cbn. apply script_usage_nil. Qed.

Lemma erase_usage s o e : usage_ok s -> cacheCoins s !! o = Some e -> usage_ok (EraseCoin s o e).
Proof.
  unfold usage_ok. intros Hs Ho. cbn [EraseCoin cacheCoins cachedCoinsUsage]. rewrite Hs, u64_sub, (sum_delete _ o e Ho). f_equal. lia.
Qed.

Lemma uncache_usage l : forall s, usage_ok s -> usage_ok (Uncache s l).
Proof.
  induction l as [|o l IH]; intros s Hs; [done|]. cbn [Uncache foldl]. apply IH. destruct (cacheCoins s !! o) as [e|] eqn:E; [|done].
  destruct (negb (DIRTY e) && negb (FRESH e)); [by apply erase_usage | done].
Qed.

Lemma batch_usage l : forall s s', usage_ok s -> BatchWrite s l = Ok s' -> usage_ok s'.
Proof.
  induction l as [|[o e] l IH]; intros s s' Hs E; cbn [BatchWrite] in E; [by injection E as <-|]. unfold batch_entry in E.
  destruct (negb (DIRTY e)); [by eapply IH|]. destruct (cacheCoins s !! o) as [us|] eqn:Eus.
  - destruct (FRESH e && _); [done|]. destruct (FRESH us && _); cbn in E; (eapply IH; [|exact E]); [by apply erase_usage|].
    unfold usage_ok. cbn [UpdateEntry cacheCoins cachedCoinsUsage]. rewrite Hs, u64_sub, u64_add, (sum_update _ o us) by done. done.
  - destruct (FRESH e && _); cbn in E; (eapply IH; [|exact E]); [done|].
    unfold usage_ok. cbn [AddEntry cacheCoins cachedCoinsUsage]. rewrite Hs, u64_add, sum_insert by done. f_equal. unfold entry_usage. cbn. lia.
Qed.

Lemma cache_usage s o c s' : usage_ok s -> store_cache_coin s o c = Ok s' -> usage_ok s'.
Proof.
  unfold store_cache_coin, usage_ok. intros Hs. destruct (cacheCoins s !! o) eqn:E; [done|]. intros [= <-]. cbn.
  rewrite Hs, u64_add, sum_insert by done. f_equal. lia.
Qed.

Lemma add_usage s o c ow s' : usage_ok s -> store_AddCoin s o c ow = Ok s' -> usage_ok s'.
Proof.
  unfold store_AddCoin, usage_ok. intros Hs. destruct (_ && _); [done|]. intros [= <-]. cbn [cacheCoins cachedCoinsUsage].
  destruct (cacheCoins s !! o) as [e|] eqn:E; rewrite Hs, ?u64_sub, u64_add.
  - by rewrite (sum_update _ o e).
  - rewrite sum_insert by done. f_equal. lia.
Qed.

Lemma spend_usage s o : usage_ok s -> usage_ok (store_SpendCoin s o).2.
Proof.
  unfold store_SpendCoin, usage_ok. intros Hs. destruct (cacheCoins s !! o) as [e|] eqn:E; [|done]. cbn [snd].
  destruct (FRESH e); cbn [cacheCoins cachedCoinsUsage]; rewrite Hs, u64_sub.
  - rewrite (sum_delete _ o e E). f_equal. lia.
  - rewrite (sum_update _ o e) by done. rewrite usage_cleared. f_equal. lia.
Qed.

(** A coin without script costs nothing. *)

Lemma replace_usage s o c s' : usage_ok s -> ReplaceWithCoinWithScript s o c = Ok s' -> usage_ok s'.
Proof.
  unfold ReplaceWithCoinWithScript, usage_ok. intros Hs. destruct (cacheCoins s !! o) as [e|] eqn:E; [|done].
  destruct (HasScript (entry_coin e)) eqn:Eh; [done|]. cbn [negb assert_ mbind]. destruct (HasScript c); [|done]. cbn. intros [= <-]. cbn [cacheCoins cachedCoinsUsage].
  assert (entry_usage e = 0) as He by (unfold entry_usage, coin_usage; by rewrite Eh).
  rewrite Hs, u64_add, (sum_update _ o e) by done. f_equal. lia.
Qed.

End usage.

(** ** Properties *)

(** The store as a state machine: what its owners do to it. *)

Inductive store_step `{MemUsage} : CoinsStore -> CoinsStore -> Prop :=
| step_cache s o c s' : store_cache_coin s o c = Ok s' -> store_step s s'
| step_add s o c ow s' : store_AddCoin s o c ow = Ok s' -> store_step s s'
| step_spend s o : store_step s (store_SpendCoin s o).2
| step_uncache s l : store_step s (Uncache s l)
| step_batch s l s' : BatchWrite s l = Ok s' -> store_step s s'
| step_replace s o c s' : ReplaceWithCoinWithScript s o c = Ok s' -> store_step s s'
| step_move s : store_step s (MoveOutCoins s).2.

Lemma step_usage `{MemUsage} s s' : store_step s s' -> usage_ok s -> usage_ok s'.
Proof.
  intros [] Hs; [by eapply cache_usage | by eapply add_usage | by apply spend_usage | by apply uncache_usage | by eapply batch_usage | by eapply replace_usage | done].
Qed.

(** C6. The coins cache implements a plain set of unspent outputs.  Let a view show a set [U], over any parent that
    keeps the promise of [CoinsViewLaws].  Every run of operations that is legal on [U] (a coin is added with its script,
    and over another only when an overwrite is allowed) returns: no assertion fails and nothing is thrown.  Each reply is
    the one the plain set gives, the view then shows the plain set after the run, and writing its entries, in any order,
    into the store that the parent shows makes that store show the same set. *)

Theorem cache_refines_coin_set `{MemUsage} {V : Type} `{ICoinsView V} (I : V -> Prop) (A : V -> gmap COutPoint utxo)
    `{!CoinsViewLaws V I A} (vc : CCoinsViewCache V) (ops : list coin_op) :
  view_ok I A vc -> legal_run ops (shows A vc) ->
  exists rs vc', run_ops ops vc = Ok (rs, vc') /\ reply_run ops (shows A vc) rs /\ view_ok I A vc' /\
    shows A vc' = set_run ops (shows A vc) /\
    forall s G l, A (source vc') = overlay (cacheCoins s) G -> entries_ok G (cacheCoins s) ->
      l ≡ₚ map_to_list (cacheCoins (mCache vc')) ->
      exists s', BatchWrite s l = Ok s' /\ entries_ok G (cacheCoins s') /\ overlay (cacheCoins s') G = set_run ops (shows A vc).
Proof.
  intros Hvc Hl. destruct (run_ops_acts I A ops _ Hl vc Hvc eq_refl) as (rs & vc' & E & Hvc' & Hset & Hr).
  exists rs, vc'. split_and!; [done..|]. intros s G l HA Hs Hperm.
  assert (NoDup l.*1) as Hnd by (rewrite Hperm; apply NoDup_fst_map_to_list).
  destruct (BatchWrite_acts G l s Hnd Hs) as (s' & Es & Hs' & Hov).
  { intros o e Hin. rewrite Hperm in Hin. apply elem_of_map_to_list in Hin. rewrite <- HA. by apply (vo_entries _ _ _ Hvc'). }
  exists s'. split_and!; [done | done|]. rewrite Hov, <- HA, <- Hset. unfold shows. f_equal.
  by rewrite <- (list_to_map_to_list (cacheCoins (mCache vc'))), (list_to_map_proper _ _ Hnd Hperm).
Qed.

#[local] Instance demo_usage : MemUsage := {| script_usage s := Z.of_nat (length s); map_usage n := Z.of_nat n; script_usage_nil := eq_refl |}.

Definition demo_outpoint : COutPoint := {| outpoint_txid := repeat 7 32; outpoint_n := 1 |}.

Definition demo_new_coin : CoinImpl := coin_with_script {| nValue := 5000; scriptPubKey := [81] |} 12 false.

Definition demo_ops : list coin_op := [op_add demo_outpoint demo_new_coin false 100; op_have demo_outpoint; op_spend demo_outpoint true; op_have demo_outpoint].

Lemma cache_refines_coin_set_witness : exists rs vc', run_ops demo_ops (new_CCoinsViewCache (tt : CCoinsViewEmpty)) = Ok (rs, vc') /\
  shows (fun _ => ∅) vc' = set_run demo_ops ∅.
Proof.
  destruct (cache_refines_coin_set (V := CCoinsViewEmpty) (fun _ => True) (fun _ => ∅) (new_CCoinsViewCache tt) demo_ops)
    as (rs & vc' & E & _ & _ & Hs & _).
  - split; [done | done | apply map_Forall_empty].
  - split_and!; [|done..]. split; [|by intros _]. split_and!; [split; vm_compute; [discriminate | done] | done | done | done].
  - exists rs, vc'. by split.
Defined.

(** The memory the cache accounts for is the memory of its entries.  Every store that is reached from the empty one by
    caching coins read from below, adding, spending and uncaching coins, writing a batch, loading a script and moving the
    entries out has [cachedCoinsUsage] equal, modulo 2^64, to the sum of what its entries use. *)

Theorem cachedCoinsUsage_exact `{MemUsage} (s : CoinsStore) :
  rtc store_step {| cacheCoins := ∅; cachedCoinsUsage := 0 |} s -> cachedCoinsUsage s = u64 (sum_usage (cacheCoins s)).
Proof.
  intros Hs. change (usage_ok s). assert (usage_ok {| cacheCoins := ∅; cachedCoinsUsage := 0 |}) as H0 by done. revert H0.
  induction Hs as [s|s s1 s2 Hstep _ IH]; [done|]. intros H0. apply IH. by eapply step_usage.
Qed.

Lemma cachedCoinsUsage_exact_witness :
  exists s, cachedCoinsUsage s = 1 /\ cachedCoinsUsage s = u64 (sum_usage (cacheCoins s)).
Proof.
  eexists. split; [|apply cachedCoinsUsage_exact].
  2: { eapply rtc_l; [|apply rtc_refl]. apply (step_add _ demo_outpoint demo_new_coin false). reflexivity. }
  reflexivity.
Defined.

(** [HaveInputsLimited] is documented to answer as [HaveInputs] does, but it takes a coin that this cache has spent for an
    input that is there. *)

Definition demo_spending : CTransaction :=
  {| tx_nVersion := 1; vin := [{| prevout := demo_outpoint; scriptSig := []; nSequence := 0 |}]; vout := []; tx_nLockTime := 0 |}.

Lemma HaveInputsLimited_counts_spent : exists vc : CCoinsViewCache CCoinsViewEmpty,
  (match HaveInputs demo_spending vc with Ok (b, _) => Some b | _ => None end) = Some false /\
  (match HaveInputsLimited demo_spending 0 vc with Ok (b, _) => b | _ => None end) = Some true.
Proof.
  exists {| source := tt; hashBlock := uint256_null; attached := true;
            mCache := {| cacheCoins := {[ demo_outpoint := {| entry_coin := new_CoinImpl; DIRTY := true; FRESH := false |} ]}; cachedCoinsUsage := 0 |} |}.
  split; vm_compute; reflexivity.
Qed.
