(* ===== verification/Compressor.v ===== *)
(** * Compressed outputs, coins and undo data

    [src/compressor.h], [src/compressor.cpp] and [src/undo.h]: the compact form of scripts and amounts in which
    coins are stored, and the records from which a block is undone. *)

From stdpp Require Import gmap.
From S2P Require Import Prelude Common BlockIndex Script Hasher Sha2 Hash SigEnc Serialize Transaction Coins.
#[local] Open Scope Z_scope.

(** ** Scripts *)

(** Bytes [a .. a + n) of a script. *)

Definition slice (script : list Z) (a n : nat) : list Z := take n (drop a script).

Definition IsToKeyID (script : list Z) : option (list Z) :=
  if (script_size script =? 25) && (sbyte script 0 =? code OP_DUP) && (sbyte script 1 =? code OP_HASH160) &&
     (sbyte script 2 =? 20) && (sbyte script 23 =? code OP_EQUALVERIFY) && (sbyte script 24 =? code OP_CHECKSIG)
  then Some (slice script 3 20) else None.

Definition IsToScriptID (script : list Z) : option (list Z) :=
  if (script_size script =? 23) && (sbyte script 0 =? code OP_HASH160) && (sbyte script 1 =? 20) && (sbyte script 22 =? code OP_EQUAL)
  then Some (slice script 2 20) else None.

(** [secp256k1_ec_pubkey_serialize] with [SECP256K1_EC_UNCOMPRESSED]. *)

Class SecpSerialize `{Secp256k1} := { ec_pubkey_serialize : secp_pubkey -> list Z }.

(** The library decompresses: the point with the abscissa and parity of a valid uncompressed key is that key. *)

Class SecpLaws `{SecpSerialize} := {
  secp_uncompressed x y : length x = 32%nat -> length y = 32%nat -> is_Some (ec_pubkey_parse (4 :: x ++ y)) ->
    exists p, ec_pubkey_parse ((2 + Z.land (sbyte y 31) 1) :: x) = Some p /\ ec_pubkey_serialize p = 4 :: x ++ y
}.

Section compressor.
Context `{SecpSerialize}.

Definition IsToPubKey (script : list Z) : option (list Z) :=
  if (script_size script =? 35) && (sbyte script 0 =? 33) && (sbyte script 34 =? code OP_CHECKSIG) &&
     ((sbyte script 1 =? 0x02) || (sbyte script 1 =? 0x03))
  then Some (new_CPubKey (slice script 1 33))
  else if (script_size script =? 67) && (sbyte script 0 =? 65) && (sbyte script 66 =? code OP_CHECKSIG) && (sbyte script 1 =? 0x04) then
    let pubkey := new_CPubKey (slice script 1 65) in
    if IsFullyValid pubkey then Some pubkey else None
  else None.

Definition Compress (script : list Z) : option (list Z) :=
  match IsToKeyID script with
  | Some keyID => Some (0x00 :: keyID)
  | None =>
      match IsToScriptID script with
      | Some scriptID => Some (0x01 :: scriptID)
      | None =>
          match IsToPubKey script with
          | Some pubkey =>
              if (sbyte pubkey 0 =? 0x02) || (sbyte pubkey 0 =? 0x03) then Some (sbyte pubkey 0 :: slice pubkey 1 32)
              else if sbyte pubkey 0 =? 0x04 then Some (Z.lor 0x04 (Z.land (sbyte pubkey 64) 0x01) :: slice pubkey 1 32)
              else None
          | None => None
          end
      end
  end.

Definition GetSpecialSize (nSize : Z) : Z :=
  if (nSize =? 0) || (nSize =? 1) then 20
  else if (nSize =? 2) || (nSize =? 3) || (nSize =? 4) || (nSize =? 5) then 32
  else 0.

(** [CPubKey::Decompress]. *)

Definition pubkey_Decompress (key : list Z) : option (list Z) :=
  if negb (IsValid key) then None
  else match ec_pubkey_parse key with Some p => Some (new_CPubKey (ec_pubkey_serialize p)) | None => None end.

(** The script, unchanged where the source returns false. *)

Definition Decompress (nSize : Z) (vin script : list Z) : outcome ser_exn (list Z) :=
  if nSize =? 0x00 then Ok ([code OP_DUP; code OP_HASH160; 20] ++ vin ++ [code OP_EQUALVERIFY; code OP_CHECKSIG])
  else if nSize =? 0x01 then Ok ([code OP_HASH160; 20] ++ vin ++ [code OP_EQUAL])
  else if (nSize =? 0x02) || (nSize =? 0x03) then Ok ([33; nSize] ++ vin ++ [code OP_CHECKSIG])
  else if (nSize =? 0x04) || (nSize =? 0x05) then
    match pubkey_Decompress (new_CPubKey ((nSize - 2) :: vin)) with
    | None => Ok script
    | Some pubkey => _ ← assert_ (length pubkey =? 65)%nat; Ok ([65] ++ pubkey ++ [code OP_CHECKSIG])
    end
  else Ok script.

Definition nSpecialScripts : Z := 6.

Definition MAX_SCRIPT_SIZE_AFTER_GENESIS : Z := 2 ^ 32 - 1.

(** [CDataStream::ignore]; its argument is an [int]. *)

Definition stream_ignore (nSize : Z) : reader unit := fun s =>
  if i32 nSize <? 0 then Throw negative_ignore else '(_, s) ← stream_read (i32 nSize) s; Ok (tt, s).

Definition script_Serialize (script : list Z) : outcome ser_exn (list Z) :=
  match Compress script with
  | Some compr => Ok compr
  | None => n ← WriteVarInt 4 (u32 (script_size script + nSpecialScripts)); Ok (n ++ script)
  end.

(** Into a new, empty script. *)

Definition script_Unserialize : reader (list Z) := fun s =>
  '(nSize, s) ← ReadVarInt 32 s;
  if nSize <? nSpecialScripts then
    '(vch, s) ← stream_read (GetSpecialSize nSize) s;
    script ← Decompress nSize vch [];
    Ok (script, s)
  else
    let nSize := nSize - nSpecialScripts in
    if MAX_SCRIPT_SIZE_AFTER_GENESIS <? nSize then
      '(_, s) ← stream_ignore nSize s; Ok ([code OP_FALSE; code OP_RETURN], s)
    else stream_read nSize s.

Definition CScriptCompressor : codec (list Z) :=
  {| Serialize := script_Serialize; Unserialize := script_Unserialize; sizeof := 8 |}.

End compressor.

(** ** Amounts *)

(** [while (((n % 10) == 0) && e < 9)]. *)

Fixpoint trailing_zeros (fuel : nat) (n e : Z) : Z * Z :=
  match fuel with
  | O => (n, e)
  | S fuel => if (n mod 10 =? 0) && (e <? 9) then trailing_zeros fuel (n / 10) (e + 1) else (n, e)
  end.

Definition CompressAmount (amt : Z) : outcome ser_exn Z :=
  let n := u64 amt in
  if n =? 0 then Ok 0
  else
    let '(n, e) := trailing_zeros 9 n 0 in
    if e <? 9 then
      let d := n mod 10 in
      _ ← assert_ ((1 <=? d) && (d <=? 9));
      let n := n / 10 in
      Ok (u64 (1 + u64 (u64 (n * 9) + d - 1) * 10 + e))
    else Ok (u64 (1 + u64 (n - 1) * 10 + 9)).

(** [while (e) { n *= 10; e--; }]. *)

Fixpoint times_ten (e : nat) (n : Z) : Z :=
  match e with O => n | S e => times_ten e (u64 (n * 10)) end.

Definition DecompressAmount (x : Z) : Z :=
  if x =? 0 then 0
  else
    let x := x - 1 in
    let e := x mod 10 in
    let x := x / 10 in
    let n :=
      if e <? 9 then
        let d := x mod 9 + 1 in
        let x := x / 9 in
        u64 (x * 10 + d)
      else u64 (x + 1) in
    i64 (times_ten (Z.to_nat e) n).

(** ** Outputs, coins and undo records *)

Section outputs.
Context `{SecpSerialize}.

Definition CTxOutCompressor : codec CTxOut :=
  {| Serialize out :=
       nVal ← CompressAmount (nValue out);
       v ← WriteVarInt 8 nVal;
       c ← Serialize CScriptCompressor (scriptPubKey out);
       Ok (v ++ c);
     Unserialize s :=
       '(nVal, s) ← ReadVarInt 64 s;
       '(script, s) ← Unserialize CScriptCompressor s;
       Ok ({| nValue := DecompressAmount nVal; scriptPubKey := script |}, s);
     sizeof := 8 |}.

Definition CoinImpl_codec : codec CoinImpl :=
  {| Serialize c :=
       _ ← assert_ (negb (coin_IsSpent c));
       _ ← assert_ (HasScript c);
       n ← WriteVarInt 4 (coin_code c);
       o ← Serialize CTxOutCompressor (coin_out c);
       Ok (n ++ o);
     Unserialize s :=
       '(n, s) ← ReadVarInt 32 s;
       '(out, s) ← Unserialize CTxOutCompressor s;
       Ok ({| coin_out := out; coin_owner := true; coin_code := n; mScriptSize := script_size (scriptPubKey out) |}, s);
     sizeof := 8 |}.

(** [TxInUndoSerializer] and [TxInUndoDeserializer]; the height is doubled as an [int]. *)

Definition TxInUndo_codec : codec CoinImpl :=
  {| Serialize c :=
       let n := coin_GetHeight c * 2 + (if coin_IsCoinBase c then 1 else 0) in
       _ ← assert_ (bool_decide (- 2 ^ 31 <= n < 2 ^ 31));
       h ← WriteVarInt 4 n;
       o ← Serialize CTxOutCompressor (coin_out c);
       Ok (h ++ (if 0 <? coin_GetHeight c then ser_writedata8 0 else []) ++ o);
     Unserialize s :=
       '(nCode, s) ← ReadVarInt 32 s;
       let nHeight := i32 (nCode / 2) in
       let fCoinBase := negb (Z.land nCode 1 =? 0) in
       '(_, s) ← (if 0 <? nHeight then ReadVarInt 31 s else Ok (0, s));
       '(txout, s) ← Unserialize CTxOutCompressor s;
       Ok (coin_with_script txout nHeight fCoinBase, s);
     sizeof := 8 |}.

(** The coins spent by the inputs; the object is one vector, of 24 bytes. *)

Definition CTxUndo : Type := list CoinImpl.

Definition MAX_TX_SIZE_CONSENSUS_AFTER_GENESIS : Z := 1000 * 1000 * 1000.

(** An empty input is serialized in 41 bytes. *)

Definition MAX_INPUTS_PER_TX : Z := MAX_TX_SIZE_CONSENSUS_AFTER_GENESIS / 41.

Definition CTxUndo_codec : codec CTxUndo :=
  {| Serialize u :=
       n ← WriteCompactSize (Z.of_nat (length u));
       l ← write_items TxInUndo_codec u;
       Ok (n ++ l);
     Unserialize s :=
       '(count, s) ← ReadCompactSize s;
       if MAX_INPUTS_PER_TX <? count then Throw too_many_records
       else read_items TxInUndo_codec (Z.to_nat count) [] s;
     sizeof := 24 |}.

Definition CBlockUndo : Type := list CTxUndo.

Definition CBlockUndo_codec : codec CBlockUndo := vector_codec CTxUndo_codec.

End outputs.

(** ** Amounts come back *)

Lemma trailing_zeros_spec fuel : forall n e, 0 < n -> 0 <= e -> e + Z.of_nat fuel = 9 ->
  let '(n', e') := trailing_zeros fuel n e in n = n' * 10 ^ (e' - e) /\ e <= e' <= 9 /\ 0 < n' /\ (e' < 9 -> n' mod 10 <> 0).
Proof.
  induction fuel as [|fuel IH]; intros n e Hn He Hf; cbn [trailing_zeros].
  - rewrite Z.sub_diag. split_and!; lia.
  - destruct (Z.eqb_spec (n mod 10) 0) as [E|E]; cbn [andb]; [|rewrite Z.sub_diag; split_and!; lia].
    destruct (Z.ltb_spec e 9) as [Hlt|]; [|lia]. pose proof (Z.div_mod n 10 ltac:(lia)) as Hdm.
    specialize (IH (n / 10) (e + 1) ltac:(lia) ltac:(lia) ltac:(lia)). destruct (trailing_zeros fuel (n / 10) (e + 1)) as [n' e'].
    destruct IH as (E1 & He' & Hn' & Hmod). split_and!; [|lia|lia|done|done].
    replace (e' - e) with (Z.succ (e' - (e + 1))) by lia. rewrite Z.pow_succ_r by lia. lia.
Qed.

Lemma times_ten_spec e : forall n, 0 <= n -> n * 10 ^ Z.of_nat e < 2 ^ 64 -> times_ten e n = n * 10 ^ Z.of_nat e.
Proof.
  induction e as [|e IH]; intros n Hn Hb; cbn [times_ten]; [rewrite Z.pow_0_r; lia|]. rewrite Nat2Z.inj_succ, Z.pow_succ_r in * by lia.
  pose proof (Z.pow_pos_nonneg 10 (Z.of_nat e) ltac:(lia) ltac:(lia)). assert (u64 (n * 10) = n * 10) as -> by (unfold u64; apply Z.mod_small; nia).
  rewrite IH by nia. lia.
Qed.

Lemma CompressAmount_spec n : 0 <= n <= MAX_MONEY -> exists x, CompressAmount n = Ok x /\ 0 <= x < 2 ^ 64 /\ DecompressAmount x = n.
Proof.
  intros Hn. change MAX_MONEY with 2100000000000000 in Hn. unfold CompressAmount. assert (u64 n = n) as -> by (unfold u64; apply Z.mod_small; lia).
  destruct (Z.eqb_spec n 0) as [->|Hne]; [by exists 0|]. pose proof (trailing_zeros_spec 9 n 0 ltac:(lia) ltac:(lia) ltac:(lia)) as Ht.
  destruct (trailing_zeros 9 n 0) as [n' e]. destruct Ht as (En & He & Hn' & Hmod). rewrite Z.sub_0_r in En.
  pose proof (Z.pow_pos_nonneg 10 e ltac:(lia) ltac:(lia)) as Hp. assert (n' <= n) as Hle by nia.
  pose proof (Z.div_mod n' 10 ltac:(lia)) as Hdm. pose proof (Z.mod_pos_bound n' 10 ltac:(lia)) as Hmb.
  assert (forall x, 0 <= x < 2 ^ 64 -> u64 x = x) as Hu by (intros x Hx; unfold u64; by apply Z.mod_small).
  assert (forall m, m = n' -> i64 (times_ten (Z.to_nat e) (u64 m)) = n) as Hend.
  { intros m ->. rewrite Hu by lia. rewrite times_ten_spec; rewrite ?Z2Nat.id by lia; [|lia|lia]. rewrite <- En. unfold i64. rewrite Z.mod_small; lia. }
  destruct (Z.ltb_spec e 9) as [Hlt|Hge].
  - specialize (Hmod Hlt). assert ((1 <=? n' mod 10) && (n' mod 10 <=? 9) = true) as -> by (apply andb_true_intro; split; apply Z.leb_le; lia).
    cbn [assert_ mbind outcome_bind]. set (q := n' / 10) in *. set (d := n' mod 10) in *.
    rewrite (Hu (q * 9)), (Hu (q * 9 + d - 1)), (Hu (1 + _ * 10 + e)) by lia. eexists. split; [done|]. split; [lia|].
    unfold DecompressAmount. destruct (Z.eqb_spec (1 + (q * 9 + d - 1) * 10 + e) 0); [lia|].
    assert ((1 + (q * 9 + d - 1) * 10 + e - 1) mod 10 = e) as -> by (symmetry; apply (Z.mod_unique _ _ (q * 9 + d - 1)); lia).
    assert ((1 + (q * 9 + d - 1) * 10 + e - 1) / 10 = q * 9 + (d - 1)) as -> by (symmetry; apply (Z.div_unique _ _ _ e); lia).
    destruct (Z.ltb_spec e 9); [|lia]. apply Hend.
    assert ((q * 9 + (d - 1)) / 9 = q) as -> by (symmetry; apply (Z.div_unique _ _ _ (d - 1)); lia).
    assert ((q * 9 + (d - 1)) mod 9 = d - 1) as -> by (symmetry; apply (Z.mod_unique _ _ q); lia). lia.
  - assert (e = 9) as -> by lia. rewrite (Hu (n' - 1)), (Hu (1 + _ * 10 + 9)) by lia. eexists. split; [done|]. split; [lia|].
    unfold DecompressAmount. destruct (Z.eqb_spec (1 + (n' - 1) * 10 + 9) 0); [lia|].
    assert ((1 + (n' - 1) * 10 + 9 - 1) mod 10 = 9) as -> by (symmetry; apply (Z.mod_unique _ _ (n' - 1)); lia).
    assert ((1 + (n' - 1) * 10 + 9 - 1) / 10 = n' - 1) as -> by (symmetry; apply (Z.div_unique _ _ _ 9); lia).
    cbn [Z.ltb Z.compare Pos.compare Pos.compare_cont]. apply Hend. lia.
Qed.

(** ** Scripts come back *)

Lemma slice_bytes s a n : (a + n <= length s)%nat -> slice s a n = map (sbyte s) (seq a n).
Proof.
  assert (forall x (l : list Z) b m, map (sbyte (x :: l)) (seq (S b) m) = map (sbyte l) (seq b m)) as Hshift by (intros; by rewrite <- seq_shift, map_map).
  revert s n. induction a as [|a IH]; intros s n Hl.
  - unfold slice. rewrite drop_0. revert s Hl. induction n as [|n IH]; intros [|x s] Hl; cbn [length] in Hl; [done | done | lia|].
    cbn [take seq map]. by rewrite Hshift, IH by lia.
  - destruct s as [|x s]; cbn [length] in Hl; [lia|]. rewrite Hshift. apply IH. lia.
Qed.

Lemma length_slice s a n : (a + n <= length s)%nat -> length (slice s a n) = n.
Proof. intros Hl. unfold slice. rewrite length_take, length_drop. lia. Qed.

Lemma split_script s a n c : length s = (a + n + c)%nat -> s = map (sbyte s) (seq 0 a) ++ slice s a n ++ map (sbyte s) (seq (a + n) c).
Proof.
  intros Hl. rewrite <- !slice_bytes by lia. unfold slice. rewrite drop_0.
  rewrite <- (take_drop a s) at 1. f_equal. rewrite <- (take_drop n (drop a s)) at 1. f_equal. rewrite drop_drop.
  rewrite firstn_all2; [done|]. rewrite length_drop. lia.
Qed.

Lemma sbyte_slice s a n i : (i < n)%nat -> (a + n <= length s)%nat -> sbyte (slice s a n) i = sbyte s (a + i).
Proof.
  intros Hi Hl. rewrite slice_bytes by done. unfold sbyte at 1. rewrite (nth_indep _ 0 (sbyte s 0)) by (rewrite length_map, length_seq; lia).
  rewrite map_nth, seq_nth by done. done.
Qed.

Lemma slice_slice s a n b m : (b + m <= n)%nat -> (a + n <= length s)%nat -> slice (slice s a n) b m = slice s (a + b) m.
Proof.
  intros Hb Hl. unfold slice. rewrite skipn_firstn_comm, firstn_firstn, drop_drop, Nat.min_l by lia. done.
Qed.

Lemma new_CPubKey_keeps h t : GetLen h = S (length t) -> new_CPubKey (h :: t) = h :: t.
Proof. intros Hl. unfold new_CPubKey. rewrite Hl. cbn [length]. by rewrite Nat.eqb_refl. Qed.

Lemma slice_cons s a n : (a + S n <= length s)%nat -> slice s a (S n) = sbyte s a :: slice s (S a) n.
Proof. intros Hl. by rewrite !slice_bytes by lia. Qed.

Lemma slice_app s a n m : slice s a (n + m) = slice s a n ++ slice s (a + n) m.
Proof. unfold slice. rewrite <- drop_drop. symmetry. apply take_take_drop. Qed.

Lemma bytes_slice s a n : bytes s -> bytes (slice s a n).
Proof. intros Hs. by apply Forall_take, Forall_drop. Qed.

Lemma sbyte_byte s i : bytes s -> (i < length s)%nat -> is_byte (sbyte s i).
Proof. intros Hs Hi. unfold sbyte. eapply Forall_forall; [exact Hs|]. by apply nth_In. Qed.

Ltac split_tests := repeat match goal with
  | H : _ && _ = true |- _ => apply andb_prop in H as [H ?]
  | H : (_ =? _) = true |- _ => apply Z.eqb_eq in H
  end.

Section scripts.
Context `{SecpLaws}.

Definition script_ok (s : list Z) : Prop := bytes s /\ script_size s <= 2 ^ 32 - 1 - nSpecialScripts.

(** What [Decompress] is given: a special first byte, as many bytes as it says, and the script comes back. *)

Definition decompresses (script compr : list Z) : Prop := exists k rest, compr = k :: rest /\ 0 <= k < nSpecialScripts /\
  Z.of_nat (length rest) = GetSpecialSize k /\ bytes rest /\ Decompress k rest [] = Ok script.

Lemma compressed_key script compr : bytes script -> length script = 35%nat -> sbyte script 0 = 33 -> sbyte script 34 = code OP_CHECKSIG ->
  sbyte script 1 = 2 \/ sbyte script 1 = 3 -> compr = sbyte script 1 :: slice script 2 32 -> decompresses script compr.
Proof.
  intros Hb Hl Hs0 H34 Hk ->. exists (sbyte script 1), (slice script 2 32). rewrite length_slice by lia. unfold nSpecialScripts.
  split_and!; [done | lia | lia | by destruct Hk as [-> | ->] | by apply bytes_slice|].
  transitivity (Ok (E := ser_exn) ([33; sbyte script 1] ++ slice script 2 32 ++ [code OP_CHECKSIG])); [unfold Decompress; by destruct Hk as [-> | ->]|].
  f_equal. rewrite (split_script script 2 32 1) at 3 by lia. cbn [seq map Nat.add]. congruence.
Qed.

Lemma parity_code b : Z.lor 4 (Z.land b 1) = 4 + Z.land b 1 /\ (Z.land b 1 = 0 \/ Z.land b 1 = 1).
Proof. rewrite land_one. pose proof (Z.mod_pos_bound b 2 ltac:(lia)). assert (b mod 2 = 0 \/ b mod 2 = 1) as [-> | ->] by lia; auto. Qed.

Lemma uncompressed_key script : bytes script -> length script = 67%nat -> sbyte script 0 = 65 -> sbyte script 66 = code OP_CHECKSIG ->
  sbyte script 1 = 4 -> IsFullyValid (4 :: slice script 2 64) = true ->
  decompresses script (Z.lor 4 (Z.land (sbyte script 65) 1) :: slice script 2 32).
Proof.
  intros Hb Hl Hs0 H66 Hs1 Hv. destruct (parity_code (sbyte script 65)) as [-> Hpar].
  pose proof (slice_app script 2 32 32) as Exy. cbn [Nat.add] in Exy. set (x := slice script 2 32) in *. set (y := slice script 34 32) in *.
  destruct (secp_uncompressed x y) as (p & Hp & Hs); [by apply length_slice; lia | by apply length_slice; lia | |].
  { unfold IsFullyValid in Hv. rewrite Exy in Hv. cbn [IsValid length Nat.ltb Nat.leb negb] in Hv. by destruct (ec_pubkey_parse (4 :: x ++ y)). }
  assert (sbyte y 31 = sbyte script 65) as Ey by (unfold y; by rewrite sbyte_slice by lia). rewrite Ey in Hp.
  exists (4 + Z.land (sbyte script 65) 1), x. assert (length x = 32%nat) as Hx by (apply length_slice; lia). assert (length y = 32%nat) as Hy by (apply length_slice; lia).
  rewrite Hx. unfold nSpecialScripts. split_and!; [done | lia | lia | by destruct Hpar as [-> | ->] | by apply bytes_slice|].
  assert (forall k, k = 0 \/ k = 1 -> Decompress (4 + k) x [] = match pubkey_Decompress (new_CPubKey ((2 + k) :: x)) with
    | None => Ok [] | Some pubkey => _ ← assert_ (length pubkey =? 65)%nat; Ok ([65] ++ pubkey ++ [code OP_CHECKSIG]) end) as HD by (intros k [-> | ->]; done).
  rewrite HD by done. rewrite new_CPubKey_keeps by (rewrite Hx; by destruct Hpar as [-> | ->]).
  unfold pubkey_Decompress. cbn [IsValid length Nat.ltb Nat.leb negb]. rewrite Hp, Hs.
  rewrite new_CPubKey_keeps by (rewrite length_app, Hx, Hy; done). cbn [length]. rewrite length_app, Hx, Hy. cbn [assert_ Nat.eqb Nat.add mbind outcome_bind].
  f_equal. rewrite (split_script script 2 64 1) by lia. cbn [seq map Nat.add]. rewrite <- Exy. cbn [app]. congruence.
Qed.

Lemma Compress_spec script compr : bytes script -> Compress script = Some compr -> decompresses script compr.
Proof.
  intros Hb. unfold Compress. destruct (IsToKeyID script) as [key|] eqn:E1.
  { unfold IsToKeyID in E1. destruct (_ && _) eqn:E in E1; [|done]. injection E1 as <-. split_tests. intros [= <-]. unfold script_size in *.
    exists 0, (slice script 3 20). rewrite length_slice by lia. split_and!; [done | done | done | done | by apply bytes_slice|].
    unfold Decompress. cbn [Z.eqb]. f_equal. rewrite (split_script script 3 20 2) at 2 by lia. cbn [seq map Nat.add]. congruence. }
  destruct (IsToScriptID script) as [sid|] eqn:E2.
  { unfold IsToScriptID in E2. destruct (_ && _) eqn:E in E2; [|done]. injection E2 as <-. split_tests. intros [= <-]. unfold script_size in *.
    exists 1, (slice script 2 20). rewrite length_slice by lia. split_and!; [done | done | done | done | by apply bytes_slice|].
    unfold Decompress. cbn [Z.eqb Pos.eqb]. f_equal. rewrite (split_script script 2 20 1) at 2 by lia. cbn [seq map Nat.add]. congruence. }
  clear E1 E2. destruct (IsToPubKey script) as [pk|] eqn:E3; [|done]. unfold IsToPubKey in E3. destruct (_ && _) eqn:E in E3.
  - injection E3 as <-. split_tests. unfold script_size in *. rewrite slice_cons by lia.
    assert (sbyte script 1 = 2 \/ sbyte script 1 = 3) as Hk by (match goal with H : _ || _ = true |- _ => apply orb_prop in H as [?|?] end; split_tests; auto).
    rewrite new_CPubKey_keeps by (rewrite length_slice by lia; by destruct Hk as [-> | ->]). change (sbyte (_ :: _) 0) with (sbyte script 1).
    change (slice (sbyte script 1 :: slice script 2 32) 1 32) with (take 32 (slice script 2 32)). rewrite firstn_all2 by (rewrite length_slice by lia; done).
    destruct (_ || _) eqn:Ek; [|by destruct Hk as [E1 | E1]; rewrite E1 in Ek]. intros [= <-]. apply compressed_key; (done || lia).
  - destruct (_ && _) eqn:E' in E3; [|done]. split_tests. unfold script_size in *. rewrite slice_cons in E3 by lia.
    match goal with H : sbyte script 1 = 4 |- _ => rewrite H in E3 end. rewrite new_CPubKey_keeps in E3 by (by rewrite length_slice by lia).
    destruct (IsFullyValid _) eqn:Ev; [|done]. injection E3 as <-. change (sbyte (4 :: _) 0) with 4. cbn [Z.eqb Pos.eqb orb].
    intros [= <-]. change (sbyte (4 :: slice script 2 64) 64) with (sbyte (slice script 2 64) 63). rewrite sbyte_slice by lia.
    change (slice (4 :: slice script 2 64) 1 32) with (slice (slice script 2 64) 0 32). rewrite slice_slice by lia. apply uncompressed_key; (done || lia).
Qed.

(** Writing and reading back, for codecs that do not fix one encoding of a value. *)

Definition round_trips {A} (c : codec A) (P : A -> Prop) : Prop := forall a, P a -> exists b, Serialize c a = Ok b /\ bytes b /\
  b <> [] /\ forall rest, bytes rest -> Unserialize c (b ++ rest) = Ok (a, rest).

Lemma varint_round bits sizeof_n n : varint_type bits sizeof_n -> 0 <= n < 2 ^ bits -> exists b, WriteVarInt sizeof_n n = Ok b /\ bytes b /\
  b <> [] /\ forall rest, ReadVarInt bits (b ++ rest) = Ok (n, rest).
Proof.
  intros Ht Hn. destruct (varint_type_room _ _ Ht) as (Hb & Hl & Hr).
  destruct (WriteVarInt_spec bits ltac:(lia) sizeof_n n Hn ltac:(lia) Hr) as (b & W & Bb & Nb & R). exists b. auto.
Qed.

Lemma script_round_trips : round_trips CScriptCompressor script_ok.
Proof.
  intros script [Hb Hsz]. cbn [Serialize Unserialize CScriptCompressor]. unfold script_Serialize. destruct (Compress script) as [compr|] eqn:Ec.
  - destruct (Compress_spec script compr Hb Ec) as (k & r & -> & Hk & Hl & Hr & HD). exists (k :: r). split; [done|].
    assert (is_byte k) as Hkb by (unfold is_byte, nSpecialScripts in *; lia). split; [by constructor|]. split; [done|]. intros rest _.
    unfold script_Unserialize. destruct (varint_round 32 4 k) as (b & W & _ & _ & R); [unfold varint_type; rewrite !elem_of_cons; auto | unfold nSpecialScripts in *; lia|].
    assert (WriteVarInt 4 k = Ok [k]) as W' by (unfold nSpecialScripts in Hk; assert (k = 0 \/ k = 1 \/ k = 2 \/ k = 3 \/ k = 4 \/ k = 5) as Hc by lia;
      destruct_or! Hc; subst k; done).
    rewrite W in W'. injection W' as ->. change ((k :: r) ++ rest) with ([k] ++ (r ++ rest)). rewrite R. cbn [mbind outcome_bind].
    destruct (Z.ltb_spec k nSpecialScripts); [|lia]. rewrite <- Hl, stream_read_app. cbn. by rewrite HD.
  - unfold script_ok, nSpecialScripts in *. unfold script_size in *. assert (u32 (Z.of_nat (length script) + 6) = Z.of_nat (length script) + 6) as -> by (unfold u32; apply Z.mod_small; lia).
    destruct (varint_round 32 4 (Z.of_nat (length script) + 6)) as (b & -> & Bb & Nb & R); [unfold varint_type; rewrite !elem_of_cons; auto | lia|].
    exists (b ++ script). split; [done|]. split; [by apply Forall_app|]. split; [by intros [? ?]%app_nil|]. intros rest _. unfold script_Unserialize. rewrite <- app_assoc, R. cbn [mbind outcome_bind].
    unfold nSpecialScripts. destruct (Z.ltb_spec (Z.of_nat (length script) + 6) 6); [lia|]. rewrite Z.add_simpl_r.
    destruct (Z.ltb_spec MAX_SCRIPT_SIZE_AFTER_GENESIS (Z.of_nat (length script))); [unfold MAX_SCRIPT_SIZE_AFTER_GENESIS in *; lia|]. apply stream_read_app.
Qed.

(** ** Outputs, coins and undo records come back *)

Definition compressible (out : CTxOut) : Prop := 0 <= nValue out <= MAX_MONEY /\ script_ok (scriptPubKey out).

Lemma txout_round_trips : round_trips CTxOutCompressor compressible.
Proof.
  intros out [Hv Hs]. cbn [Serialize Unserialize CTxOutCompressor]. destruct (CompressAmount_spec _ Hv) as (x & -> & Hx & Hd).
  destruct (varint_round 64 8 x) as (b & W & Bb & Nb & R); [unfold varint_type; rewrite !elem_of_cons; auto | lia|].
  destruct (script_round_trips _ Hs) as (c & Wc & Bc & _ & Rc). cbn [Serialize Unserialize] in *. cbn [mbind outcome_bind]. rewrite W. cbn [mbind outcome_bind].
  rewrite Wc. cbn [mbind outcome_bind]. exists (b ++ c). split; [done|]. split; [by apply Forall_app|]. split; [by intros [? ?]%app_nil|]. intros rest Br.
  rewrite <- app_assoc, R. cbn [mbind outcome_bind]. rewrite Rc by done. cbn. rewrite Hd. by destruct out.
Qed.

(** A coin that owns a whole, unspent output. *)

Definition storable (c : CoinImpl) : Prop :=
  compressible (coin_out c) /\ coin_owner c = true /\ code_ok c /\ HasScript c = true.

Lemma storable_unspent c : storable c -> coin_IsSpent c = false.
Proof. intros [[[Hv _] _] _]. unfold coin_IsSpent. apply Z.eqb_neq. lia. Qed.

Lemma coin_round_trips : round_trips CoinImpl_codec storable.
Proof.
  intros c Hc. pose proof (storable_unspent c Hc) as Hns. destruct Hc as (Ho & Hown & Hcode & Hh). cbn [Serialize Unserialize CoinImpl_codec].
  rewrite Hns, Hh. cbn [negb assert_ mbind outcome_bind].
  destruct (varint_round 32 4 (coin_code c)) as (b & W & Bb & Nb & R); [unfold varint_type; rewrite !elem_of_cons; auto | exact Hcode|].
  destruct (txout_round_trips _ Ho) as (o & Wo & Bo & _ & Ro). rewrite W. cbn [mbind outcome_bind]. rewrite Wo. cbn [mbind outcome_bind].
  exists (b ++ o). split; [done|]. split; [by apply Forall_app|]. split; [by intros [? ?]%app_nil|]. intros rest Br. rewrite <- app_assoc, R. cbn [mbind outcome_bind]. rewrite Ro by done. cbn.
  apply Z.eqb_eq in Hh. rewrite <- Hh. by destruct c; cbn in *; subst.
Qed.

(** An undo record keeps the coin, if the doubled height is an [int]. *)

Definition undoable (c : CoinImpl) : Prop := storable c /\ coin_GetHeight c < 2 ^ 30.

Lemma GetHeight_range c : code_ok c -> 0 <= coin_GetHeight c < 2 ^ 31 /\ coin_code c = 2 * coin_GetHeight c + (if coin_IsCoinBase c then 1 else 0).
Proof.
  unfold code_ok. intros Hc. pose proof (code_of_parts c Hc) as E. rewrite height_code_eq in E. set (x := coin_GetHeight c mod 2 ^ 31) in *.
  pose proof (Z.mod_pos_bound (coin_GetHeight c) (2 ^ 31) ltac:(lia)) as Hx. fold x in Hx.
  assert (coin_GetHeight c = x) as ->; [|done]. unfold coin_GetHeight. rewrite <- E. by apply code_parts.
Qed.

Lemma undo_round_trips : round_trips TxInUndo_codec undoable.
Proof.
  intros c [Hst Hlow]. pose proof Hst as (Ho & Hown & Hcode & Hh). destruct (GetHeight_range c Hcode) as [Hr Hcd]. cbn [Serialize Unserialize TxInUndo_codec].
  set (h := coin_GetHeight c) in *. set (cb := coin_IsCoinBase c) in *. replace (h * 2 + (if cb then 1 else 0)) with (2 * h + (if cb then 1 else 0)) by lia.
  rewrite bool_decide_eq_true_2 by (destruct cb; lia). cbn [assert_ mbind outcome_bind].
  destruct (varint_round 32 4 (2 * h + (if cb then 1 else 0))) as (b & -> & Bb & Nb & R); [unfold varint_type; rewrite !elem_of_cons; auto | destruct cb; lia|].
  destruct (txout_round_trips _ Ho) as (o & Wo & Bo & _ & Ro). cbn [mbind outcome_bind]. rewrite Wo. cbn [mbind outcome_bind].
  eexists. split; [done|]. split; [apply Forall_app; split; [done|]; apply Forall_app; split; [|done]; destruct (0 <? h); [by repeat constructor | constructor]|].
  split; [by intros [? ?]%app_nil|]. intros rest Br. rewrite <- !app_assoc, R. cbn [mbind outcome_bind]. destruct (code_parts h cb Hr) as [Ei Ecb].
  rewrite <- Z.div2_div, Z.div2_spec, Ei, Ecb.
  assert (exists s1, (if 0 <? h then ReadVarInt 31 ((if 0 <? h then ser_writedata8 0 else []) ++ o ++ rest) else Ok (0, (if 0 <? h then ser_writedata8 0 else []) ++ o ++ rest))
    = Ok (0, s1) /\ s1 = o ++ rest) as (s1 & -> & ->).
  { destruct (0 <? h); [|by exists (o ++ rest)]. destruct (varint_round 31 4 0) as (z & Wz & _ & _ & Rz); [unfold varint_type; rewrite !elem_of_cons; auto | lia|].
    assert (WriteVarInt 4 0 = Ok (ser_writedata8 0)) as Wz' by done. rewrite Wz in Wz'. injection Wz' as ->. exists (o ++ rest). by rewrite Rz. }
  cbn [mbind outcome_bind]. rewrite Ro by done. cbn. f_equal. f_equal. unfold coin_with_script, coin_owning. unfold h, cb. rewrite (code_of_parts c Hcode).
  apply Z.eqb_eq in Hh. rewrite <- Hh. clear -Hown. destruct c; cbn in *. by subst.
Qed.

(** Sequences of records. *)

Lemma items_round_trip {A} (c : codec A) P v : round_trips c P -> Forall P v -> exists b, write_items c v = Ok b /\ bytes b /\
  (length v <= length b)%nat /\ forall pre rest, bytes rest -> read_items c (length v) pre (b ++ rest) = Ok (pre ++ v, rest).
Proof.
  intros Hc Hv. induction Hv as [|a v Ha _ (bs & W & Bb & Lb & R)].
  - exists []. split; [done|]. split; [constructor|]. split; [done|]. intros pre rest _. cbn. by rewrite app_nil_r.
  - destruct (Hc a Ha) as (ba & Wa & Ba & Na & Ra). exists (ba ++ bs). cbn [write_items]. rewrite Wa. cbn. rewrite W. cbn. split; [done|]. split; [by apply Forall_app|].
    split; [rewrite length_app; destruct ba; [done | cbn; lia]|]. intros pre rest Br. cbn [length read_items]. rewrite <- app_assoc, Ra by (by apply Forall_app). cbn. rewrite R by done. by rewrite <- app_assoc.
Qed.

Lemma txundo_round_trips : round_trips CTxUndo_codec (fun u => Forall undoable u /\ Z.of_nat (length u) <= MAX_INPUTS_PER_TX).
Proof.
  intros u [Hu Hl]. cbn [Serialize Unserialize CTxUndo_codec]. change MAX_INPUTS_PER_TX with 24390243 in *.
  destruct (WriteCompactSize_spec (Z.of_nat (length u))) as (n & -> & Bn & Nn & _ & Rn); [unfold MAX_SIZE; lia|].
  destruct (items_round_trip _ _ u undo_round_trips Hu) as (bs & W & Bb & _ & R). cbn [mbind outcome_bind]. rewrite W. cbn [mbind outcome_bind].
  exists (n ++ bs). split; [done|]. split; [by apply Forall_app|]. split; [by intros [? ?]%app_nil|]. intros rest Br. rewrite <- app_assoc, Rn. cbn [mbind outcome_bind].
  destruct (Z.ltb_spec 24390243 (Z.of_nat (length u))); [lia|]. rewrite Nat2Z.id. by rewrite R.
Qed.

Lemma vector_round_trips {A} (c : codec A) P : round_trips c P -> 1 <= sizeof c <= 2 ^ 20 ->
  round_trips (vector_codec c) (fun v => Forall P v /\ Z.of_nat (length v) <= MAX_SIZE).
Proof.
  intros Hc Hsize v [Hv Hl]. cbn [Serialize Unserialize vector_codec].
  destruct (WriteCompactSize_spec (Z.of_nat (length v))) as (n & -> & Bn & Nn & _ & Rn); [lia|].
  destruct (items_round_trip c P v Hc Hv) as (bs & W & Bb & Lb & R). cbn [mbind outcome_bind]. rewrite W. cbn [mbind outcome_bind].
  exists (n ++ bs). split; [done|]. split; [by apply Forall_app|]. split; [by intros [? ?]%app_nil|]. intros rest Br. rewrite <- app_assoc, Rn. cbn [mbind outcome_bind].
  rewrite read_item_chunks_count; rewrite ?Z.sub_0_r, ?Nat2Z.id; [by apply R | done | lia | lia | right; unfold chunk_ok, STARTING_CHUNK_SIZE, CHUNK_GROWTH_RATE; lia | rewrite length_app; lia].
Qed.

Definition tx_undo_ok (u : CTxUndo) : Prop := Forall undoable u /\ Z.of_nat (length u) <= MAX_INPUTS_PER_TX.

Definition block_undo_ok (u : CBlockUndo) : Prop := Forall tx_undo_ok u /\ Z.of_nat (length u) <= MAX_SIZE.

End scripts.

(** ** Properties *)

(** C26. What is stored comes back: a coin whose amount is in the money range is read from its compact record exactly
    as it was written, whatever the script (the special forms included), and so is the undo data of a
    whole block, with the bytes that follow untouched. *)

Theorem coin_records_round_trip `{SecpLaws} c u rest : bytes rest -> storable c -> block_undo_ok u ->
  (exists b, Serialize CoinImpl_codec c = Ok b /\ Unserialize CoinImpl_codec (b ++ rest) = Ok (c, rest)) /\
  (exists b, Serialize CBlockUndo_codec u = Ok b /\ Unserialize CBlockUndo_codec (b ++ rest) = Ok (u, rest)).
Proof.
  intros Br Hc Hu. split.
  - destruct (coin_round_trips c Hc) as (b & W & _ & _ & R). exists b. auto.
  - destruct (vector_round_trips CTxUndo_codec _ txundo_round_trips ltac:(cbn; lia) u Hu) as (b & W & _ & _ & R). exists b. auto.
Qed.

(** A curve on which every abscissa has the ordinates 0 and 1, as an instance of the library's law. *)

Definition toy_parse (key : list Z) : option (list Z * Z) :=
  match key with
  | h :: t =>
      if (h =? 2) || (h =? 3) then if (length t =? 32)%nat then Some (t, h - 2) else None
      else if h =? 4 then
        if bool_decide (drop 32 t = replicate 31 0 ++ [0]) then Some (take 32 t, 0)
        else if bool_decide (drop 32 t = replicate 31 0 ++ [1]) then Some (take 32 t, 1) else None
      else None
  | [] => None
  end.

Definition toy_secp : Secp256k1 := {|
  secp_signature := unit; secp_pubkey := list Z * Z;
  ecdsa_signature_parse_compact := fun _ => (false, tt); ecdsa_signature_normalize := fun s => (false, s);
  ecdsa_verify := fun _ _ _ => false; ec_pubkey_parse := toy_parse |}.

Definition toy_serialize : SecpSerialize (H := toy_secp) :=
  {| ec_pubkey_serialize := (fun '(x, y) => 4 :: x ++ replicate 31 0 ++ [y]) : secp_pubkey (Secp256k1 := toy_secp) -> list Z |}.

Lemma toy_laws : SecpLaws (H := toy_secp) (H0 := toy_serialize).
Proof.
  split. intros x y Hx Hy. cbn [ec_pubkey_parse toy_secp toy_parse Z.eqb Pos.eqb orb]. rewrite skipn_app, firstn_app, Hx, Nat.sub_diag. cbn [drop take]. rewrite app_nil_r.
  rewrite firstn_all2, skipn_all2 by lia. cbn [app]. rewrite drop_0.
  destruct (bool_decide (y = replicate 31 0 ++ [0])) eqn:E0; [|destruct (bool_decide (y = replicate 31 0 ++ [1])) eqn:E1; [|by intros []]].
  - apply bool_decide_eq_true in E0 as ->. intros _. by exists (x, 0).
  - apply bool_decide_eq_true in E1 as ->. intros _. by exists (x, 1).
Qed.

Definition demo_coin : CoinImpl :=
  coin_with_script {| nValue := 5000000000; scriptPubKey := [65; 4] ++ replicate 32 7 ++ replicate 31 0 ++ [1; 0xac] |} 170 true.

Lemma coin_records_round_trip_witness :
  (exists b, Serialize (CoinImpl_codec (H := toy_secp) (H0 := toy_serialize)) demo_coin = Ok b /\
     Unserialize (CoinImpl_codec (H := toy_secp) (H0 := toy_serialize)) (b ++ [1; 2]) = Ok (demo_coin, [1; 2])) /\
  (exists b, Serialize (CBlockUndo_codec (H := toy_secp) (H0 := toy_serialize)) [[demo_coin]; []] = Ok b /\
     Unserialize (CBlockUndo_codec (H := toy_secp) (H0 := toy_serialize)) (b ++ [1; 2]) = Ok ([[demo_coin]; []], [1; 2])).
Proof.
  assert (storable demo_coin) as Hs.
  { split_and!; [split; [vm_compute; split; discriminate | split; [repeat (constructor; [split; vm_compute; congruence|]); constructor | vm_compute; congruence]]
      | done | vm_compute; split; congruence | done]. }
  apply (coin_records_round_trip (H1 := toy_laws)); [repeat (constructor; [split; vm_compute; congruence|]); constructor | exact Hs|].
  split; [|vm_compute; congruence]. constructor; [split; [constructor; [split; [exact Hs | vm_compute; congruence] | constructor] | vm_compute; congruence]|].
  constructor; [split; [constructor | vm_compute; congruence] | constructor].
Defined.
