(* ===== verification/DbWrapper.v ===== *)
(** * The database wrapper

    [src/dbwrapper.h], [.cpp]: batches of writes with their size estimate, the input stream that undoes the obfuscation
    while it reads, and reading and writing of serialized values.  LevelDB below it is a class with its documented laws:
    a sorted map from keys to values, whose batches are atomic. *)

From stdpp Require Import gmap.
From S2P Require Import Prelude Common Serialize.
#[local] Open Scope Z_scope.

(** ** LevelDB *)

Inductive batch_op :=
| Put (key value : list Z)
| Delete (key : list Z).

(** [leveldb::DB]: [Get], [Write] of a batch, and the entries an iterator passes from [SeekToFirst] on. *)

Class LevelDB (D : Type) := {
  ldb_Get : D -> list Z -> option (list Z);
  ldb_Write : D -> list batch_op -> D;
  ldb_entries : D -> list (list Z * list Z)
}.

(** What a batch leaves under a key: its last operation on the key decides. *)

Definition op_get (k : list Z) (old : option (list Z)) (op : batch_op) : option (list Z) :=
  match op with
  | Put k' v => if decide (k' = k) then Some v else old
  | Delete k' => if decide (k' = k) then None else old
  end.

Definition batch_get (b : list batch_op) (k : list Z) (old : option (list Z)) : option (list Z) := foldl (op_get k) old b.

Class LevelDBLaws (D : Type) `{LevelDB D} := {
  ldb_get_write d b k : ldb_Get (ldb_Write d b) k = batch_get b k (ldb_Get d k);
  ldb_entries_get d k v : (k, v) ∈ ldb_entries d <-> ldb_Get d k = Some v;
  ldb_entries_keys d : NoDup (ldb_entries d).*1
}.

(** A database in memory. *)

Definition apply_op (d : gmap (list Z) (list Z)) (op : batch_op) : gmap (list Z) (list Z) :=
  match op with Put k v => <[k := v]> d | Delete k => delete k d end.

#[export] Instance mem_db : LevelDB (gmap (list Z) (list Z)) := {|
  ldb_Get d k := d !! k;
  ldb_Write d b := foldl apply_op d b;
  ldb_entries d := map_to_list d
|}.

#[export] Instance mem_db_laws : LevelDBLaws (gmap (list Z) (list Z)).
Proof.
  split; cbn.
  - intros d b k. revert d. induction b as [|op b IH]; intros d; [done|]. cbn [foldl batch_get]. unfold batch_get in *. cbn [foldl]. rewrite IH. f_equal.
    destruct op as [k' v|k']; cbn; destruct (decide (k' = k)) as [->|]; rewrite ?lookup_insert_eq, ?lookup_insert_ne, ?lookup_delete_eq, ?lookup_delete_ne; done.
  - intros d k v. apply elem_of_map_to_list.
  - intros d. apply NoDup_fst_map_to_list.
Qed.

(** ** Obfuscation *)

(** The loop with its index into the key: [buf[i] ^= obfuscate_key[j++]; if (j == obfuscate_key.size()) j = 0]. *)

Fixpoint xor_loop (key : list Z) (j : nat) (s : list Z) : list Z :=
  match s with
  | [] => []
  | b :: s => Z.lxor b (default 0 (key !! j)) :: xor_loop key (if (S j =? length key)%nat then 0 else S j) s
  end.

(** [CDataStream::Xor]. *)

Definition Xor (key s : list Z) : list Z := if (length key =? 0)%nat then s else xor_loop key 0 s.

Definition XorBuf (key s : list Z) (readPos : Z) : list Z := if (length key =? 0)%nat then s else xor_loop key (Z.to_nat readPos mod length key) s.

(** ** The input stream *)

Record CDataStreamInput := { buf : list Z; obfuscate_key : list Z; nReadPos : Z }.

Definition memcpy (s : list Z) (pos nSize : Z) : outcome ser_exn (list Z) :=
  if Z.of_nat (length s) <? pos + nSize then Abort else Ok (take (Z.to_nat nSize) (drop (Z.to_nat pos) s)).

(** At the end of the buffer the view is reset. *)

Definition at_pos (st : CDataStreamInput) (next : Z) : CDataStreamInput :=
  if next =? Z.of_nat (length (buf st)) then {| buf := []; obfuscate_key := obfuscate_key st; nReadPos := 0 |}
  else {| buf := buf st; obfuscate_key := obfuscate_key st; nReadPos := next |}.

(** [nReadPosNext] is an [unsigned int], [nSize] a [size_t]. *)

Definition input_read (nSize : Z) (st : CDataStreamInput) : outcome ser_exn (list Z * CDataStreamInput) :=
  if nSize =? 0 then Ok ([], st)
  else
    let nReadPosNext := u32 (nReadPos st + nSize) in
    if Z.of_nat (length (buf st)) <? nReadPosNext then Throw end_of_data
    else
      pch ← memcpy (buf st) (nReadPos st) nSize;
      Ok (XorBuf (obfuscate_key st) pch (nReadPos st), at_pos st nReadPosNext).

Definition input_ignore (nSize : Z) (st : CDataStreamInput) : outcome ser_exn CDataStreamInput :=
  if nSize <? 0 then Throw negative_ignore
  else
    let nReadPosNext := u32 (nReadPos st + nSize) in
    if Z.of_nat (length (buf st)) <? nReadPosNext then Throw end_of_data else Ok (at_pos st nReadPosNext).

(** ** Batches *)

Record CDBBatch := { batch : list batch_op; size_estimate : Z }.

Definition new_CDBBatch : CDBBatch := {| batch := []; size_estimate := 0 |}.

Definition long (s : list Z) : Z := if 127 <? Z.of_nat (length s) then 1 else 0.

(** On a serialized key and value. *)

Definition batch_Write (obfuscate : list Z) (slKey value : list Z) (b : CDBBatch) : CDBBatch :=
  let slValue := Xor obfuscate value in
  {| batch := batch b ++ [Put slKey slValue];
     size_estimate := u64 (size_estimate b + (3 + long slKey + Z.of_nat (length slKey) + long slValue + Z.of_nat (length slValue))) |}.

Definition batch_Erase (slKey : list Z) (b : CDBBatch) : CDBBatch :=
  {| batch := batch b ++ [Delete slKey]; size_estimate := u64 (size_estimate b + (2 + long slKey + Z.of_nat (length slKey))) |}.

(** ** The wrapper *)

Record CDBWrapper (D : Type) := { pdb : D; db_key : list Z }.

Arguments pdb {D} _.
Arguments db_key {D} _.

Definition OBFUSCATE_KEY_KEY : list Z := [0; 111; 98; 102; 117; 115; 99; 97; 116; 101; 95; 107; 101; 121].

Definition OBFUSCATE_KEY_NUM_BYTES : nat := 8.

Section wrapper.
Context {D : Type} `{LevelDB D}.

(** What the stream reads is a function of the de-obfuscated value ([input_refines] below).  An exception of the
    deserialization is caught: the value counts as not found. *)

Definition Read {A} (r : reader A) (slKey : list Z) (w : CDBWrapper D) : outcome ser_exn (option A) :=
  match ldb_Get (pdb w) slKey with
  | None => Ok None
  | Some strValue => match r (Xor (db_key w) strValue) with Ok (a, _) => Ok (Some a) | Throw _ => Ok None | Abort => Abort end
  end.

Definition db_Exists (slKey : list Z) (w : CDBWrapper D) : bool := bool_decide (is_Some (ldb_Get (pdb w) slKey)).

Definition WriteBatch (b : CDBBatch) (w : CDBWrapper D) : CDBWrapper D := {| pdb := ldb_Write (pdb w) (batch b); db_key := db_key w |}.

Definition IsEmpty (w : CDBWrapper D) : bool := match ldb_entries (pdb w) with [] => true | _ => false end.

(** The constructor's part after the database is open; [random] are the bytes of [CreateObfuscateKey].  The key [string]
    is serialized with its length. *)

Definition open_wrapper (d : D) (obfuscate : bool) (random : list Z) : outcome ser_exn (CDBWrapper D) :=
  slKey ← Serialize bytes_codec OBFUSCATE_KEY_KEY;
  let w := {| pdb := d; db_key := replicate OBFUSCATE_KEY_NUM_BYTES 0 |} in
  found ← Read (Unserialize bytes_codec) slKey w;
  match found with
  | Some key => Ok {| pdb := d; db_key := key |}
  | None =>
      if obfuscate && IsEmpty w then
        value ← Serialize bytes_codec random;
        let w := WriteBatch (batch_Write (db_key w) slKey value new_CDBBatch) w in
        Ok {| pdb := pdb w; db_key := random |}
      else Ok w
  end.

End wrapper.

(** ** De-obfuscation *)

Section xor.
Context (key : list Z) (Hkey : key <> []).
Notation k := (length key).

Lemma key_size : (0 < k)%nat.
Proof. destruct key; [done | cbn; lia]. Qed.

Lemma xor_loop_lookup s : forall j i, (j < k)%nat -> xor_loop key j s !! i = (fun b => Z.lxor b (default 0 (key !! ((j + i) mod k)%nat))) <$> s !! i.
Proof.
  pose proof key_size as Hk. induction s as [|b s IH]; intros j i Hj; [done|]. cbn [xor_loop]. destruct i as [|i].
  - cbn. by rewrite Nat.add_0_r, Nat.mod_small.
  - change ((b :: s) !! S i) with (s !! i). cbn [lookup list_lookup]. destruct (Nat.eqb_spec (S j) k) as [E|E].
    + rewrite IH by lia. do 3 f_equal. f_equal. rewrite Nat.add_0_l. replace (j + S i)%nat with (i + 1 * k)%nat by lia. by rewrite Nat.Div0.mod_add.
    + rewrite IH by lia. replace (S j + i)%nat with (j + S i)%nat by lia. done.
Qed.

Lemma length_xor_loop s : forall j, length (xor_loop key j s) = length s.
Proof. induction s as [|b s IH]; intros j; [done|]. cbn. by rewrite IH. Qed.

Lemma xor_loop_app s1 s2 j : (j < k)%nat -> xor_loop key j (s1 ++ s2) = xor_loop key j s1 ++ xor_loop key ((j + length s1) mod k) s2.
Proof.
  intros Hj. pose proof key_size as Hk. apply list_eq. intros i. rewrite xor_loop_lookup by done. destruct (decide (i < length s1)%nat).
  - rewrite !lookup_app_l by (rewrite ?length_xor_loop; lia). by rewrite xor_loop_lookup.
  - rewrite !lookup_app_r by (rewrite ?length_xor_loop; lia). rewrite length_xor_loop, xor_loop_lookup by (apply Nat.mod_upper_bound; lia).
    rewrite Nat.Div0.add_mod_idemp_l. replace (j + length s1 + (i - length s1))%nat with (j + i)%nat by lia. done.
Qed.

Lemma xor_loop_involutive s j : (j < k)%nat -> xor_loop key j (xor_loop key j s) = s.
Proof.
  intros Hj. apply list_eq. intros i. rewrite !xor_loop_lookup by done. destruct (s !! i) as [b|]; [|done]. cbn. f_equal.
  by rewrite Z.lxor_assoc, Z.lxor_nilpotent, Z.lxor_0_r.
Qed.

Lemma xor_loop_bytes s j : bytes key -> bytes s -> (j < k)%nat -> bytes (xor_loop key j s).
Proof.
  intros Bk Bs Hj. apply Forall_lookup_2. intros i x. rewrite xor_loop_lookup by done. destruct (s !! i) as [b|] eqn:E; [|done]. cbn. intros [= <-].
  pose proof (Forall_lookup_1 _ _ _ _ Bs E) as Hb. apply (lxor_range 8); [lia | exact Hb |]. destruct (key !! _) as [c|] eqn:Ec; [exact (Forall_lookup_1 _ _ _ _ Bk Ec) | cbn; lia].
Qed.

End xor.

Lemma Xor_involutive key s : Xor key (Xor key s) = s.
Proof. unfold Xor. destruct (Nat.eqb_spec (length key) 0); [done|]. apply xor_loop_involutive; [by intros -> | lia]. Qed.

Lemma length_Xor key s : length (Xor key s) = length s.
Proof. unfold Xor. destruct (length key =? 0)%nat; [done | apply length_xor_loop]. Qed.

(** What is left to read of a stream, in the clear. *)

Definition plain (st : CDataStreamInput) : list Z := XorBuf (obfuscate_key st) (drop (Z.to_nat (nReadPos st)) (buf st)) (nReadPos st).

Definition input_ok (st : CDataStreamInput) : Prop := 0 <= nReadPos st <= Z.of_nat (length (buf st)) /\ Z.of_nat (length (buf st)) < 2 ^ 32.

Lemma length_XorBuf key s p : length (XorBuf key s p) = length s.
Proof. unfold XorBuf. destruct (length key =? 0)%nat; [done | apply length_xor_loop]. Qed.

Lemma XorBuf_app key s1 s2 p : 0 <= p -> XorBuf key (s1 ++ s2) p = XorBuf key s1 p ++ XorBuf key s2 (p + Z.of_nat (length s1)).
Proof.
  intros Hp. unfold XorBuf. destruct (Nat.eqb_spec (length key) 0) as [|Hk]; [done|]. rewrite xor_loop_app by (by intros -> || (apply Nat.mod_upper_bound; lia)).
  rewrite Nat.Div0.add_mod_idemp_l. by replace (Z.to_nat (p + Z.of_nat (length s1))) with (Z.to_nat p + length s1)%nat by lia.
Qed.

Lemma plain_split st n : input_ok st -> 0 <= n -> nReadPos st + n <= Z.of_nat (length (buf st)) ->
  plain st = XorBuf (obfuscate_key st) (take (Z.to_nat n) (drop (Z.to_nat (nReadPos st)) (buf st))) (nReadPos st) ++ plain (at_pos st (nReadPos st + n)) /\
  length (take (Z.to_nat n) (drop (Z.to_nat (nReadPos st)) (buf st))) = Z.to_nat n /\ input_ok (at_pos st (nReadPos st + n)).
Proof.
  intros [Hp Hl] Hn Hle. set (s := drop (Z.to_nat (nReadPos st)) (buf st)). assert (length s = (length (buf st) - Z.to_nat (nReadPos st))%nat) as Ls by apply length_drop.
  assert (length (take (Z.to_nat n) s) = Z.to_nat n) as Lt by (rewrite length_take; lia). split; [|split; [done|]].
  - unfold plain at 1. fold s. rewrite <- (take_drop (Z.to_nat n) s) at 1. rewrite XorBuf_app, Lt, Z2Nat.id by lia. f_equal. unfold plain, at_pos, s. rewrite drop_drop.
    destruct (Z.eqb_spec (nReadPos st + n) (Z.of_nat (length (buf st)))) as [E|E]; cbn [buf nReadPos obfuscate_key].
    + rewrite !drop_ge by (cbn; lia). unfold XorBuf. by destruct (_ =? 0)%nat.
    + by replace (Z.to_nat (nReadPos st + n)) with (Z.to_nat (nReadPos st) + Z.to_nat n)%nat by lia.
  - unfold at_pos, input_ok. destruct (_ =? _); cbn; lia.
Qed.

Lemma length_plain st : input_ok st -> Z.of_nat (length (plain st)) = Z.of_nat (length (buf st)) - nReadPos st.
Proof. intros [Hp _]. unfold plain. rewrite length_XorBuf, length_drop. lia. Qed.

(** Reading and skipping on the obfuscated buffer is reading and skipping on the clear bytes. *)

Lemma input_refines n st : input_ok st -> 0 <= n -> nReadPos st + n < 2 ^ 32 ->
  match stream_read n (plain st) with
  | Ok (b, rest) => exists st', input_read n st = Ok (b, st') /\ input_ignore n st = Ok (at_pos st (nReadPos st + n)) /\ plain st' = rest /\ input_ok st' /\
      plain (at_pos st (nReadPos st + n)) = rest /\ input_ok (at_pos st (nReadPos st + n))
  | Throw e => input_read n st = Throw e /\ input_ignore n st = Throw e
  | Abort => False
  end.
Proof.
  intros Hok Hn Hw. pose proof Hok as [Hp Hl]. pose proof (length_plain st Hok) as Lp. unfold stream_read, input_read, input_ignore.
  assert (u32 (nReadPos st + n) = nReadPos st + n) as -> by (unfold u32; apply Z.mod_small; lia). rewrite (proj2 (Z.ltb_ge n 0)) by lia.
  destruct (Z.ltb_spec (Z.of_nat (length (plain st))) n) as [Hlt|Hge].
  - rewrite (proj2 (Z.eqb_neq n 0)), (proj2 (Z.ltb_lt (Z.of_nat (length (buf st))) (nReadPos st + n))) by lia. done.
  - rewrite (proj2 (Z.ltb_ge (Z.of_nat (length (buf st))) (nReadPos st + n))) by lia. destruct (plain_split st n Hok Hn ltac:(lia)) as (Es & Lt & Hok').
    assert (forall b, length b = Z.to_nat n -> plain st = b ++ plain (at_pos st (nReadPos st + n)) -> take (Z.to_nat n) (plain st) = b /\ drop (Z.to_nat n) (plain st) = plain (at_pos st (nReadPos st + n))) as Hcut
      by (intros b Lb ->; rewrite <- Lb; by rewrite take_app_length, drop_app_length).
    destruct (Hcut _ ltac:(by rewrite length_XorBuf) Es) as [-> Ed]. rewrite Ed. destruct (Z.eqb_spec n 0) as [->|Hne].
    + exists st. rewrite <- Ed. cbn [Z.to_nat take drop]. unfold XorBuf. split_and!; try done. by destruct (_ =? 0)%nat.
    + unfold memcpy. rewrite (proj2 (Z.ltb_ge _ _)) by lia. eexists. split; [done|]. done.
Qed.

(** A size that makes the 32-bit position wrap passes the test of the end: the copy then runs past the buffer. *)

Lemma input_read_wraps : input_read (2 ^ 32 - 1) {| buf := [1; 2; 3]; obfuscate_key := []; nReadPos := 2 |} = Abort.
Proof. done. Qed.

(** ** Reading what was written *)

Section stored.
Context {D : Type} `{LevelDBLaws D}.

Lemma batch_get_app b1 b2 k old : batch_get (b1 ++ b2) k old = batch_get b2 k (batch_get b1 k old).
Proof. apply foldl_app. Qed.

Definition op_key (op : batch_op) : list Z := match op with Put k _ => k | Delete k => k end.

Lemma batch_get_other b k old : k ∉ map op_key b -> batch_get b k old = old.
Proof.
  revert old. induction b as [|op b IH]; intros old Hk; [done|]. cbn [map] in Hk. apply not_elem_of_cons in Hk as [Hne Hk]. cbn [batch_get foldl]. unfold batch_get in IH. rewrite IH by done.
  destruct op; cbn in *; by rewrite decide_False.
Qed.

Lemma Read_WriteBatch {A} (r : reader A) k b w : k ∉ map op_key (batch b) -> Read r k (WriteBatch b w) = Read r k w.
Proof. intros Hk. unfold Read, WriteBatch. cbn [pdb db_key]. by rewrite ldb_get_write, batch_get_other. Qed.

(** An opened database finds its key again. *)

Theorem open_wrapper_again d obfuscate random w obfuscate' random' : bytes random -> length random = OBFUSCATE_KEY_NUM_BYTES ->
  open_wrapper d obfuscate random = Ok w -> open_wrapper (pdb w) obfuscate' random' = Ok w \/ (pdb w = d /\ db_key w = replicate OBFUSCATE_KEY_NUM_BYTES 0).
Proof.
  intros Br Lr. unfold open_wrapper. destruct (codec_write OBFUSCATE_KEY_KEY) as (slKey & -> & _); [split; [by repeat constructor | done]|]. cbn [mbind outcome_bind].
  set (w0 := {| pdb := d; db_key := replicate OBFUSCATE_KEY_NUM_BYTES 0 |}). destruct (Read (Unserialize bytes_codec) slKey w0) as [[key|]| |] eqn:Er; cbn [mbind outcome_bind]; [| |done..].
  - intros [= <-]. left. cbn [pdb]. fold w0. rewrite Er. done.
  - destruct (obfuscate && IsEmpty w0); [|by intros [= <-]; right]. destruct (codec_write random) as (value & -> & Bv & _ & Rv); [split; [done | rewrite Lr; done]|]. cbn [mbind outcome_bind]. intros [= <-]. left.
    unfold Read. cbn [pdb db_key WriteBatch batch_Write batch new_CDBBatch app]. rewrite ldb_get_write. unfold batch_get. cbn [foldl op_get]. rewrite decide_True by done.
    rewrite Xor_involutive. specialize (Rv [] ltac:(constructor)). rewrite app_nil_r in Rv. rewrite Rv. done.
Qed.

End stored.
