(* ===== verification/CoinsDB.v ===== *)
(** * The coins database

    [CoinsDB] and [CoinsDBSpan] of [src/txdb.h], [.cpp]: coins under their serialized keys in LevelDB, the cache of coins in
    front of it that many threads read, and the flush, which writes a sequence of batches and marks the database while it
    is between two tips.

    The database implements the view interface of Coins.v, any interleaving of readers gets the answers of the coin set,
    and a crash between two batches leaves coins of the old or of the new set under each key. *)

From stdpp Require Import gmap.
From S2P Require Import Prelude Common BlockIndex Script Hasher Sha2 Hash SigEnc Serialize Transaction Coins Compressor DbWrapper.
#[local] Open Scope Z_scope.

Definition DB_COIN : Z := 67.

Definition DB_BEST_BLOCK : Z := 66.

Definition DB_HEAD_BLOCKS : Z := 72.

(** The key of a single character. *)

Definition char_key (c : Z) : list Z := ser_writedata8 c.

Definition CoinEntry : codec COutPoint :=
  {| Serialize o := n ← WriteVarInt 4 (outpoint_n o); Ok (ser_writedata8 DB_COIN ++ outpoint_txid o ++ n);
     Unserialize s :=
       '(key, s) ← ser_readdata8 s;
       '(id, s) ← Unserialize uint256_codec s;
       '(n, s) ← ReadVarInt 32 s;
       Ok ({| outpoint_txid := id; outpoint_n := n |}, s);
     sizeof := 16 |}.

#[export] Instance outpoint_ok_dec o : Decision (outpoint_ok o).
Proof. unfold outpoint_ok, is_uint256, is_byte. apply _. Defined.

(** The key of a coin.  A record that is no [COutPoint], because its parts are too large for their types, has none. *)

Definition coin_key (o : COutPoint) : option (list Z) :=
  if decide (outpoint_ok o) then match Serialize CoinEntry o with Ok k => Some k | _ => None end else None.

(** ** Reading a coin *)

Section read.
Context `{SecpSerialize}.

(** [CScriptCompressor::Unserialize] from a [CDataStreamInput_NoScr]: a script above the limit is not read, and its size is
    returned. *)

Definition script_Unserialize_max (maxScriptSize : Z) : reader (list Z * option Z) := fun s =>
  '(nSize, s) ← ReadVarInt 32 s;
  if nSize <? nSpecialScripts then
    '(vch, s) ← stream_read (GetSpecialSize nSize) s;
    script ← Decompress nSize vch [];
    Ok ((script, None), s)
  else
    let nSize := nSize - nSpecialScripts in
    if MAX_SCRIPT_SIZE_AFTER_GENESIS <? nSize then
      '(_, s) ← stream_ignore nSize s; Ok (([code OP_FALSE; code OP_RETURN], None), s)
    else if maxScriptSize <? nSize then Ok (([], Some nSize), s)
    else '(script, s) ← stream_read nSize s; Ok ((script, None), s).

Definition coin_Unserialize_max (maxScriptSize : Z) : reader (CoinImpl * option Z) := fun s =>
  '(n, s) ← ReadVarInt 32 s;
  '(nVal, s) ← ReadVarInt 64 s;
  '((script, actualScriptSize), s) ← script_Unserialize_max maxScriptSize s;
  Ok (({| coin_out := {| nValue := DecompressAmount nVal; scriptPubKey := script |}; coin_owner := true; coin_code := n;
          mScriptSize := script_size script |}, actualScriptSize), s).

End read.

(** ** The database with its cache *)

Record CoinsDB (D : Type) := {
  db : CDBWrapper D;
  cdb_hashBlock : list Z;
  cdb_mCache : CoinsStore;
  mFetchingCoins : gset COutPoint;
  mCacheSizeThreshold : Z }.

Arguments db {D} _.
Arguments cdb_hashBlock {D} _.
Arguments cdb_mCache {D} _.
Arguments mFetchingCoins {D} _.
Arguments mCacheSizeThreshold {D} _.

(** What the first critical section of [GetCoin] decides. *)

Inductive fetch_start :=
| FetchReturn (r : option CoinImpl)
| FetchWait
| FetchLoad (coinFromCache : option CoinImpl) (maxScriptLoadingSize : Z).

Section database.
Context `{MemUsage} `{SecpSerialize} {D : Type} `{LevelDB D}.

Definition new_CoinsDB (w : CDBWrapper D) (cacheSizeThreshold : Z) : CoinsDB D :=
  {| db := w; cdb_hashBlock := uint256_null; cdb_mCache := {| cacheCoins := ∅; cachedCoinsUsage := 0 |}; mFetchingCoins := ∅; mCacheSizeThreshold := cacheSizeThreshold |}.

Definition with_fetching (v : CoinsDB D) (f : gset COutPoint) : CoinsDB D :=
  {| db := db v; cdb_hashBlock := cdb_hashBlock v; cdb_mCache := cdb_mCache v; mFetchingCoins := f; mCacheSizeThreshold := mCacheSizeThreshold v |}.

Definition with_store (v : CoinsDB D) (s : CoinsStore) : CoinsDB D :=
  {| db := db v; cdb_hashBlock := cdb_hashBlock v; cdb_mCache := s; mFetchingCoins := mFetchingCoins v; mCacheSizeThreshold := mCacheSizeThreshold v |}.

Definition with_tip (v : CoinsDB D) (h : list Z) : CoinsDB D :=
  {| db := db v; cdb_hashBlock := h; cdb_mCache := cdb_mCache v; mFetchingCoins := mFetchingCoins v; mCacheSizeThreshold := mCacheSizeThreshold v |}.

Definition DBGetCoin (o : COutPoint) (maxScriptSize : Z) (w : CDBWrapper D) : outcome coins_exn (option CoinImpl) :=
  match coin_key o with
  | None => Ok None
  | Some k =>
      res ← of_stream (Read (coin_Unserialize_max maxScriptSize) k w);
      Ok (match res with
          | None => None
          | Some (coin, Some actualScriptSize) => Some (coin_without_script (nValue (coin_out coin)) actualScriptSize (coin_GetHeight coin) (coin_IsCoinBase coin))
          | Some (coin, None) => Some coin
          end)
  end.

(** Reading these two types has a result on every value ([codec_defined]). *)

Definition DBGetBestBlock (w : CDBWrapper D) : list Z :=
  match Read (Unserialize uint256_codec) (char_key DB_BEST_BLOCK) w with Ok (Some h) => h | _ => uint256_null end.

Definition GetHeadBlocks (w : CDBWrapper D) : list (list Z) :=
  match Read (Unserialize (vector_codec uint256_codec)) (char_key DB_HEAD_BLOCKS) w with Ok (Some h) => h | _ => [] end.

(** ** The cache *)

Definition getMaxScriptLoadingSize (v : CoinsDB D) (requestedMaxScriptSize : Z) : Z :=
  if store_DynamicMemoryUsage (cdb_mCache v) <? mCacheSizeThreshold v then
    Z.max requestedMaxScriptSize (mCacheSizeThreshold v - store_DynamicMemoryUsage (cdb_mCache v))
  else requestedMaxScriptSize.

Definition hasSpaceForScript (v : CoinsDB D) (scriptSize : Z) : bool :=
  u64 (store_DynamicMemoryUsage (cdb_mCache v) + scriptSize) <=? mCacheSizeThreshold v.

(** One turn of the loop, under [mCoinsViewCacheMtx]. *)

Definition begin_fetch (o : COutPoint) (maxScriptSize : Z) (v : CoinsDB D) : fetch_start * CoinsDB D :=
  let coinFromCache := FetchCoin (cdb_mCache v) o in
  let load :=
    if decide (o ∈ mFetchingCoins v) then (FetchWait, v)
    else (FetchLoad coinFromCache (getMaxScriptLoadingSize v maxScriptSize), with_fetching v ({[ o ]} ∪ mFetchingCoins v)) in
  match coinFromCache with
  | Some c =>
      if coin_IsSpent c then (FetchReturn None, v)
      else if HasScript c then (FetchReturn (Some c), v)
      else if maxScriptSize <? mScriptSize c then (FetchReturn (Some (strip_script c)), v)
      else load
  | None => load
  end.

(** After the read from the database.  Without a coin only the guard runs, which erases the outpoint. *)

Definition end_fetch (o : COutPoint) (coinFromCache coinFromView : option CoinImpl) (v : CoinsDB D) : outcome coins_exn (option CoinImpl * CoinsDB D) :=
  let v := with_fetching v (mFetchingCoins v ∖ {[ o ]}) in
  match coinFromView with
  | None => Ok (None, v)
  | Some c =>
      match coinFromCache with
      | Some _ =>
          _ ← assert_ (HasScript c);
          if hasSpaceForScript v (mScriptSize c) then
            s ← ReplaceWithCoinWithScript (cdb_mCache v) o c; Ok (Some (MakeNonOwning c), with_store v s)
          else Ok (Some c, v)
      | None =>
          if negb (hasSpaceForScript v (mScriptSize c)) then
            s ← store_cache_coin (cdb_mCache v) o (strip_script c); Ok (Some c, with_store v s)
          else
            s ← store_cache_coin (cdb_mCache v) o c;
            _ ← assert_ (coin_owner c);
            Ok (Some (MakeNonOwning c), with_store v s)
      end
  end.

(** [GetCoin] of a thread that runs alone; it would wait for itself for ever. *)

Definition cdb_GetCoin (v : CoinsDB D) (o : COutPoint) (maxScriptSize : Z) : outcome coins_exn (option CoinImpl * CoinsDB D) :=
  match begin_fetch o maxScriptSize v with
  | (FetchReturn r, v) => Ok (r, v)
  | (FetchWait, _) => Abort
  | (FetchLoad coinFromCache m, v) => coinFromView ← DBGetCoin o m (db v); end_fetch o coinFromCache coinFromView v
  end.

Definition cdb_GetBestBlock (v : CoinsDB D) : list Z * CoinsDB D :=
  if bool_decide (cdb_hashBlock v = uint256_null) then let h := DBGetBestBlock (db v) in (h, with_tip v h) else (cdb_hashBlock v, v).

(** [CoinsDBView] hands these on. *)

#[export] Instance CoinsDBView : ICoinsView (CoinsDB D) := {| view_GetCoin := cdb_GetCoin; view_GetBestBlock := cdb_GetBestBlock |}.

Definition HaveCoinInCache (v : CoinsDB D) (o : COutPoint) : bool := bool_decide (is_Some (FetchCoin (cdb_mCache v) o)).

Definition cdb_Uncache (v : CoinsDB D) (vOutpoints : list COutPoint) : CoinsDB D := with_store v (Uncache (cdb_mCache v) vOutpoints).

(** With the write lock held; the entries in the order of the iteration. *)

Definition cdb_BatchWrite (v : CoinsDB D) (hashBlockIn : list Z) (mapCoins : list (COutPoint * CCoinsCacheEntry)) : outcome coins_exn (CoinsDB D) :=
  if bool_decide (hashBlockIn = uint256_null) then _ ← assert_ (length mapCoins =? 0)%nat; Ok v
  else s ← BatchWrite (cdb_mCache v) mapCoins; Ok (with_tip (with_store v s) hashBlockIn).

(** ** The flush *)

Definition write_entry (key : list Z) (oe : COutPoint * CCoinsCacheEntry) (b : CDBBatch) : outcome coins_exn CDBBatch :=
  if DIRTY oe.2 then
    match coin_key oe.1 with
    | None => Ok b
    | Some k =>
        if coin_IsSpent (entry_coin oe.2) then Ok (batch_Erase k b)
        else
          _ ← assert_ (HasScript (entry_coin oe.2));
          value ← of_stream (Serialize CoinImpl_codec (MakeNonOwning (entry_coin oe.2)));
          Ok (batch_Write key k value b)
    end
  else Ok b.

(** The loop, with the batches that are full. *)

Fixpoint flush_loop (key : list Z) (batch_size : Z) (l : list (COutPoint * CCoinsCacheEntry)) (b : CDBBatch) : outcome coins_exn (list CDBBatch * CDBBatch) :=
  match l with
  | [] => Ok ([], b)
  | oe :: l =>
      b ← write_entry key oe b;
      if batch_size <? size_estimate b then '(bs, b') ← flush_loop key batch_size l new_CDBBatch; Ok (b :: bs, b')
      else flush_loop key batch_size l b
  end.

(** The tip the database moves from. *)

Definition old_tip (w : CDBWrapper D) (hash : list Z) : outcome coins_exn (list Z) :=
  let old_tip := DBGetBestBlock w in
  if bool_decide (old_tip = uint256_null) then
    match GetHeadBlocks w with
    | [h0; h1] => _ ← assert_ (bool_decide (h0 = hash)); Ok h1
    | _ => Ok old_tip
    end
  else Ok old_tip.

(** [DBBatchWrite]: the batches it writes, one after the other. *)

Definition DBBatchWrite (batch_size : Z) (mapCoins : list (COutPoint * CCoinsCacheEntry)) (hash : list Z) (w : CDBWrapper D) : outcome coins_exn (list CDBBatch) :=
  _ ← assert_ (negb (bool_decide (hash = uint256_null)));
  tip ← old_tip w hash;
  heads ← of_stream (Serialize (vector_codec uint256_codec) [hash; tip]);
  let b := batch_Write (db_key w) (char_key DB_HEAD_BLOCKS) heads (batch_Erase (char_key DB_BEST_BLOCK) new_CDBBatch) in
  '(bs, b) ← flush_loop (db_key w) batch_size mapCoins b;
  best ← of_stream (Serialize uint256_codec hash);
  Ok (bs ++ [batch_Write (db_key w) (char_key DB_BEST_BLOCK) best (batch_Erase (char_key DB_HEAD_BLOCKS) b)]).

(** The database after some of the batches. *)

Definition write_batches (w : CDBWrapper D) (bs : list CDBBatch) : CDBWrapper D := foldl (fun w b => WriteBatch b w) w bs.

Definition Flush (batch_size : Z) (order : gmap COutPoint CCoinsCacheEntry -> list (COutPoint * CCoinsCacheEntry)) (v : CoinsDB D) : outcome coins_exn (CoinsDB D) :=
  if bool_decide (cdb_hashBlock v = uint256_null) then Ok v
  else
    let '(coins, s) := MoveOutCoins (cdb_mCache v) in
    bs ← DBBatchWrite batch_size (order coins) (cdb_hashBlock v) (db v);
    Ok {| db := write_batches (db v) bs; cdb_hashBlock := cdb_hashBlock v; cdb_mCache := s; mFetchingCoins := mFetchingCoins v;
          mCacheSizeThreshold := mCacheSizeThreshold v |}.

(** [CoinsDBSpan::TryFlush], when the write lock is free: the span's entries move to the database's cache. *)

Definition TryFlush (order : gmap COutPoint CCoinsCacheEntry -> list (COutPoint * CCoinsCacheEntry)) (span : CCoinsViewCache (CoinsDB D)) : outcome coins_exn (CCoinsViewCache (CoinsDB D)) :=
  let '(coins, s) := MoveOutCoins (mCache span) in
  v ← cdb_BatchWrite (source span) (hashBlock span) (order coins);
  Ok (with_source (with_cache span s) v).

End database.

(** ** Keys *)

Lemma varint_u32 n : 0 <= n < 2 ^ 32 -> exists b, WriteVarInt 4 n = Ok b /\ bytes b /\ b <> [] /\ forall rest, ReadVarInt 32 (b ++ rest) = Ok (n, rest).
Proof. intros Hn. apply varint_round; [unfold varint_type; rewrite !elem_of_cons; auto | done]. Qed.

Lemma coin_key_spec o k : coin_key o = Some k -> outpoint_ok o /\ Unserialize CoinEntry k = Ok (o, []) /\ exists r, k = DB_COIN :: r /\ r <> [].
Proof.
  unfold coin_key. destruct (decide (outpoint_ok o)) as [Ho|]; [|done]. destruct o as [id n]. pose proof Ho as [[Bi Li] Hn]. cbn [outpoint_txid outpoint_n] in *. cbn [Serialize CoinEntry outpoint_n outpoint_txid].
  destruct (varint_u32 n Hn) as (b & -> & Bb & Nb & R). cbn [mbind outcome_bind]. intros [= <-]. split; [done|]. split; [|exists (id ++ b); split; [done | by intros [? ?]%app_nil]].
  assert (ser_readdata8 (DB_COIN :: id ++ b) = Ok (DB_COIN, id ++ b)) as E1 by (pose proof (stream_read_app [DB_COIN] (id ++ b)) as Er; cbn [app] in Er; unfold ser_readdata8; change 1 with (Z.of_nat (length [DB_COIN])); by rewrite Er).
  assert (stream_read 32 (id ++ b) = Ok (id, b)) as E2 by (rewrite <- stream_read_app; f_equal; lia). specialize (R []). rewrite app_nil_r in R.
  change (Unserialize CoinEntry (DB_COIN :: id ++ b) = Ok ({| outpoint_txid := id; outpoint_n := n |}, [])). unfold CoinEntry. cbn [Unserialize uint256_codec].
  rewrite E1. cbn [mbind outcome_bind]. rewrite E2. cbn [mbind outcome_bind]. by rewrite R.
Qed.

Lemma coin_key_some o : outpoint_ok o -> exists k, coin_key o = Some k.
Proof.
  intros Ho. unfold coin_key. rewrite decide_True by done. destruct Ho as [_ Hn]. destruct (varint_u32 _ Hn) as (b & E & _). cbn [Serialize CoinEntry]. rewrite E. by eexists.
Qed.

Lemma coin_key_inj o o' k : coin_key o = Some k -> coin_key o' = Some k -> o = o'.
Proof. intros (_ & E & _)%coin_key_spec (_ & E' & _)%coin_key_spec. congruence. Qed.

(** The keys of coins are not those of the tips. *)

Lemma coin_key_other o k c : coin_key o = Some k -> char_key c <> k.
Proof. intros (_ & _ & r & -> & Hr)%coin_key_spec. unfold char_key. cbn. intros [= _ <-]. done. Qed.

Definition decode_key (k : list Z) : option COutPoint :=
  match Unserialize CoinEntry k with Ok (o, _) => if decide (coin_key o = Some k) then Some o else None | _ => None end.

Lemma decode_key_spec k o : decode_key k = Some o <-> coin_key o = Some k.
Proof.
  unfold decode_key. split.
  - destruct (Unserialize CoinEntry k) as [[o' ?]| |]; [|done..]. destruct (decide _); [|done]. by intros [= <-].
  - intros E. destruct (coin_key_spec o k E) as (_ & -> & _). by rewrite decide_True.
Qed.

(** ** Coins read with a limit on their script *)

Section limited.
Context `{SecpSerialize}.

Lemma stream_read_length n s b rest : 0 <= n -> stream_read n s = Ok (b, rest) -> Z.of_nat (length b) = n.
Proof. intros Hn. unfold stream_read. destruct (Z.ltb_spec (Z.of_nat (length s)) n); [done|]. intros [= <- _]. rewrite length_take. lia. Qed.

Lemma script_max m s x rest : script_Unserialize s = Ok (x, rest) ->
  script_Unserialize_max m s = Ok ((x, None), rest) \/ (m < script_size x /\ exists rest', script_Unserialize_max m s = Ok (([], Some (script_size x)), rest')).
Proof.
  unfold script_Unserialize, script_Unserialize_max. destruct (ReadVarInt 32 s) as [[nSize s1]| |]; cbn [mbind outcome_bind]; [|done..]. destruct (Z.ltb_spec nSize nSpecialScripts) as [|Hge].
  - destruct (stream_read _ s1) as [[vch s2]| |]; cbn [mbind outcome_bind]; [|done..]. destruct (Decompress nSize vch []); cbn [mbind outcome_bind]; [|done..]. intros [= <- <-]. by left.
  - destruct (MAX_SCRIPT_SIZE_AFTER_GENESIS <? nSize - nSpecialScripts).
    + destruct (stream_ignore _ s1) as [[? s2]| |]; cbn [mbind outcome_bind]; [|done..]. intros [= <- <-]. by left.
    + intros E. pose proof (stream_read_length (nSize - nSpecialScripts) s1 x rest ltac:(lia) E) as Lx. destruct (Z.ltb_spec m (nSize - nSpecialScripts)).
      * right. unfold script_size. rewrite Lx. split; [done|]. by eexists.
      * left. by rewrite E.
Qed.

Lemma coin_max m s c rest : Unserialize CoinImpl_codec s = Ok (c, rest) -> coin_Unserialize_max m s = Ok ((c, None), rest) \/
  (m < mScriptSize c /\ exists c' rest', coin_Unserialize_max m s = Ok ((c', Some (mScriptSize c)), rest') /\ nValue (coin_out c') = nValue (coin_out c) /\ coin_code c' = coin_code c).
Proof.
  cbn [Unserialize CoinImpl_codec CTxOutCompressor CScriptCompressor]. unfold coin_Unserialize_max. destruct (ReadVarInt 32 s) as [[n s1]| |]; cbn [mbind outcome_bind]; [|done..].
  destruct (ReadVarInt 64 s1) as [[nVal s2]| |]; cbn [mbind outcome_bind]; [|done..]. destruct (script_Unserialize s2) as [[x s3]| |] eqn:Es; cbn [mbind outcome_bind]; [|done..]. intros [= <- <-].
  destruct (script_max m s2 x s3 Es) as [-> | (Hm & rest' & ->)]; cbn [mbind outcome_bind]; [by left | right]. split; [done|]. by eexists _, _.
Qed.

End limited.

(** ** The coin set of the database *)

Section coin_set.
Context `{MemUsage} `{SecpLaws} {D : Type} `{LevelDBLaws D}.

Definition parse_coin (w : CDBWrapper D) (value : list Z) : option CoinImpl :=
  match Unserialize CoinImpl_codec (Xor (db_key w) value) with Ok (c, _) => Some c | _ => None end.

Definition db_coin (w : CDBWrapper D) (o : COutPoint) : option CoinImpl := k ← coin_key o; value ← ldb_Get (pdb w) k; parse_coin w value.

Definition db_coins (w : CDBWrapper D) : gmap COutPoint utxo :=
  list_to_map (omap (fun kv => o ← decode_key kv.1; c ← parse_coin w kv.2; Some (o, utxo_of c)) (ldb_entries (pdb w))).

Lemma lookup_db_coins w o : db_coins w !! o = utxo_of <$> db_coin w o.
Proof.
  unfold db_coins. set (f := fun kv => _). apply option_eq. intros u. rewrite <- elem_of_list_to_map.
  - rewrite list_elem_of_omap. unfold db_coin. split.
    + intros ([k v] & Hkv & E). unfold f in E. cbn in E. destruct (decode_key k) as [o'|] eqn:Ek; [|done]. cbn in E. destruct (parse_coin w v) as [c|] eqn:Ev; [|done]. cbn in E. injection E as <- <-.
      apply decode_key_spec in Ek. apply ldb_entries_get in Hkv. rewrite Ek. cbn. rewrite Hkv. cbn. by rewrite Ev.
    + destruct (coin_key o) as [k|] eqn:Ek; [|done]. cbn. destruct (ldb_Get (pdb w) k) as [v|] eqn:Ev; [|done]. cbn. destruct (parse_coin w v) as [c|] eqn:Ec; [|done]. cbn. intros [= <-].
      exists (k, v). split; [by apply ldb_entries_get|]. unfold f. cbn. apply decode_key_spec in Ek. rewrite Ek. cbn. by rewrite Ec.
  - pose proof (ldb_entries_keys (pdb w)) as Hnd. induction (ldb_entries (pdb w)) as [|[k v] l IH]; [constructor|]. cbn [fmap list_fmap] in Hnd. apply list.NoDup_cons in Hnd as [Hk Hnd]. cbn [omap list_omap].
    destruct (f (k, v)) as [[o' u']|] eqn:Ef; [|by apply IH]. cbn [fmap list_fmap fst]. apply list.NoDup_cons. split; [|by apply IH]. intros ([o2 u2] & -> & Hin)%list_elem_of_fmap. cbn in *.
    apply list_elem_of_omap in Hin as ([k2 v2] & Hin & E2). apply Hk. unfold f in Ef, E2. cbn in Ef, E2. destruct (decode_key k) as [oa|] eqn:Ea; [|done]. destruct (decode_key k2) as [ob|] eqn:Eb; [|done]. cbn in Ef, E2.
    destruct (parse_coin w v); [|done]. destruct (parse_coin w v2); [|done]. cbn in Ef, E2. simplify_eq. apply decode_key_spec in Ea, Eb. assert (k = k2) as -> by congruence. by apply (list_elem_of_fmap_2 fst _ _ Hin).
Qed.

(** What is stored under the key of a coin is a whole coin. *)

Definition db_ok (w : CDBWrapper D) : Prop := forall o k value, coin_key o = Some k -> ldb_Get (pdb w) k = Some value -> exists c rest, Unserialize CoinImpl_codec (Xor (db_key w) value) = Ok (c, rest) /\ storable c.

Lemma db_coin_cases w o : db_ok w -> (db_coin w o = None /\ forall m, DBGetCoin o m w = Ok None) \/
  (exists k value c rest, coin_key o = Some k /\ ldb_Get (pdb w) k = Some value /\ db_coin w o = Some c /\ storable c /\ Unserialize CoinImpl_codec (Xor (db_key w) value) = Ok (c, rest)).
Proof.
  intros Hw. unfold db_coin, DBGetCoin, Read. destruct (coin_key o) as [k|] eqn:Ek; [|by left]. cbn. destruct (ldb_Get (pdb w) k) as [value|] eqn:Ev; [|by left]. cbn.
  destruct (Hw o k value Ek Ev) as (c & rest & E & Hc). right. exists k, value, c, rest. unfold parse_coin. rewrite E. done.
Qed.

(** The answers of the database. *)

Lemma without_script_represents c : code_ok c -> HasScript c = true -> represents (coin_without_script (nValue (coin_out c)) (mScriptSize c) (coin_GetHeight c) (coin_IsCoinBase c)) (utxo_of c).
Proof. intros Hc Hs. apply (strip_represents c); [done | by apply represents_self]. Qed.

Lemma DBGetCoin_spec w o m : db_ok w -> 0 <= m -> exists r, DBGetCoin o m w = Ok r /\ answers m (db_coins w !! o) r /\
  (forall c, r = Some c -> coin_owner c = true /\ coin_IsSpent c = false /\ code_ok c /\ exists u, db_coins w !! o = Some u /\ represents c u /\ utxo_ok u /\ (script_size (u_script u) <= m -> HasScript c = true)).
Proof.
  intros Hw Hm. rewrite lookup_db_coins. destruct (db_coin_cases w o Hw) as [[-> E] | (k & value & c & rest & Ek & Ev & -> & Hst & E)]; [exists None; by rewrite E|].
  pose proof (storable_unspent c Hst) as Hns. pose proof Hst as ((Hv & Hscr & Hsz) & Hown & Hcode & Hh). assert (utxo_ok (utxo_of c)) as Hu by (unfold script_ok, nSpecialScripts, utxo_ok in *; cbn; lia).
  assert (exists r, DBGetCoin o m w = Ok (Some r) /\ coin_owner r = true /\ coin_IsSpent r = false /\ code_ok r /\ represents r (utxo_of c) /\ (mScriptSize c <= m -> HasScript r = true)) as (r & Er & R1 & R2 & R3 & R4 & R5).
  { unfold DBGetCoin, Read. rewrite Ek, Ev. destruct (coin_max m _ _ _ E) as [-> | (Hlt & c' & rest' & -> & Eval & Ecode)]; cbn [mbind outcome_bind of_stream].
    - exists c. split_and!; try done. by apply represents_self.
    - eexists. split; [done|]. assert (coin_GetHeight c' = coin_GetHeight c /\ coin_IsCoinBase c' = coin_IsCoinBase c) as [-> ->] by (unfold coin_GetHeight, coin_IsCoinBase; by rewrite Ecode). rewrite Eval.
      split_and!; [done | done | apply height_code_ok | by apply without_script_represents | lia]. }
  exists (Some r). assert (script_size (u_script (utxo_of c)) = mScriptSize c) as Es by (unfold HasScript in Hh; apply Z.eqb_eq in Hh; cbn; lia). cbn [fmap option_fmap option_map]. split; [done|]. split.
  - split; [done|]. rewrite R2. exists (utxo_of c). rewrite Es. done.
  - intros c0 [= <-]. split_and!; try done. exists (utxo_of c). rewrite Es. done.
Qed.

(** ** The invariant *)

Definition coins (v : CoinsDB D) : gmap COutPoint utxo := overlay (cacheCoins (cdb_mCache v)) (db_coins (db v)).

(** Outputs the database can store. *)

Definition keepable (u : utxo) : Prop := 0 <= u_value u <= MAX_MONEY /\ script_ok (u_script u).

Definition keepable_set (U : gmap COutPoint utxo) : Prop := map_Forall (fun o u => outpoint_ok o /\ keepable u) U.

Record cdb_ok (v : CoinsDB D) : Prop := {
  co_db : db_ok (db v);
  co_entries : entries_ok (db_coins (db v)) (cacheCoins (cdb_mCache v));
  co_kept : keepable_set (coins v) }.

Lemma keepable_ok u : keepable u -> utxo_ok u.
Proof. intros [Hv [_ Hs]]. unfold utxo_ok, nSpecialScripts in *. lia. Qed.

(** A clean entry made from an answer of the database changes nothing. *)

Lemma clean_entry p c u : p = Some u -> represents c u -> code_ok c -> coin_IsSpent c = false -> utxo_ok u ->
  entry_ok p {| entry_coin := c; DIRTY := false; FRESH := false |} /\ entry_view (Some {| entry_coin := c; DIRTY := false; FRESH := false |}) p = p.
Proof.
  intros -> Hr Hc Hns Hu. split.
  - split; cbn; [done | intros _ Hh; rewrite (rep_script _ _ Hr Hh); apply Hu | done | congruence | done | eauto].
  - unfold entry_view. cbn. rewrite Hns. destruct (HasScript c) eqn:Eh; [|done]. by rewrite (represents_utxo c u).
Qed.

Lemma cache_entry v o e : cdb_ok v -> entry_ok (db_coins (db v) !! o) e -> entry_view (Some e) (db_coins (db v) !! o) = coins v !! o -> forall s f,
  cacheCoins s = <[o := e]> (cacheCoins (cdb_mCache v)) -> cdb_ok (with_store (with_fetching v f) s) /\ coins (with_store (with_fetching v f) s) = coins v.
Proof.
  intros [Hdb He Hk] Hent Hview s f Es. assert (coins (with_store (with_fetching v f) s) = coins v) as Ec.
  { unfold coins. cbn. rewrite Es. apply (overlay_same _ _ _ o); [intros o' Ho'; by rewrite lookup_insert_ne|]. rewrite lookup_insert_eq, Hview. unfold coins. by rewrite lookup_overlay. }
  split; [|done]. split; cbn; [done | rewrite Es; by apply entries_ok_insert | by rewrite Ec].
Qed.

(** ** The two critical sections *)

(** What a thread that loads a coin relies on: the cache does not have the output, or has it without the script. *)

Definition awaits (v : CoinsDB D) (o : COutPoint) (coinFromCache : option CoinImpl) (maxScriptSize : Z) : Prop :=
  match coinFromCache with
  | None => cacheCoins (cdb_mCache v) !! o = None
  | Some _ => exists e u, cacheCoins (cdb_mCache v) !! o = Some e /\ coin_IsSpent (entry_coin e) = false /\ HasScript (entry_coin e) = false /\ DIRTY e = false /\ FRESH e = false /\
      db_coins (db v) !! o = Some u /\ script_size (u_script u) <= maxScriptSize
  end.

Lemma begin_fetch_spec v o m : cdb_ok v -> 0 <= m ->
  match begin_fetch o m v with
  | (FetchReturn r, v') => v' = v /\ answers m (coins v !! o) r
  | (FetchWait, v') => v' = v /\ o ∈ mFetchingCoins v
  | (FetchLoad c n, v') => v' = with_fetching v ({[ o ]} ∪ mFetchingCoins v) /\ (o ∉ mFetchingCoins v) /\ m <= n /\ awaits v o c m
  end.
Proof.
  intros Hv Hm. assert (m <= getMaxScriptLoadingSize v m) as Hn by (unfold getMaxScriptLoadingSize; destruct (_ <? _); lia). unfold begin_fetch. pose proof (co_entries _ Hv) as He.
  assert (coins v !! o = entry_view (cacheCoins (cdb_mCache v) !! o) (db_coins (db v) !! o)) as EU by apply lookup_overlay.
  destruct (cacheCoins (cdb_mCache v) !! o) as [e|] eqn:Ee.
  - destruct (fetch_answers _ _ o e He Ee) as (c & -> & Hc & Es & Eh & Hans & Hrep). unfold entry_view in EU. rewrite Es, Eh. destruct (coin_IsSpent (entry_coin e)) eqn:Esp; [by rewrite EU|].
    destruct (HasScript (entry_coin e)) eqn:Ehs; [split; [done|]; rewrite EU; destruct (Hans eq_refl) as [_ Ha]; split; [done|]; rewrite Es in *; unfold entry_view in Ha; rewrite Esp, Ehs in Ha;
      destruct Ha as (x & Hx & Hr & _); exists x; split_and!; [done | done | by rewrite Eh]|].
    destruct (Hrep eq_refl) as (u & Hu & Hr). rewrite Hu in EU. destruct (Z.ltb_spec m (mScriptSize c)) as [Hlt|Hle].
    + split; [done|]. rewrite EU. split; [by apply (remake_code true c)|]. change (coin_IsSpent (strip_script c)) with (coin_IsSpent c). rewrite Es. exists u.
      split_and!; [done | by apply strip_represents | rewrite (rep_size _ _ Hr) in Hlt; lia].
    + destruct (decide (o ∈ mFetchingCoins v)); [done|]. split_and!; [done | done | done |]. rewrite (rep_size _ _ Hr) in Hle. destruct (He o e Ee) as [_ _ Hf _ Hd _].
      exists e, u. split_and!; try done; [by destruct (DIRTY e); [specialize (Hd Esp eq_refl); congruence|] | destruct (FRESH e); [|done]; by specialize (Hf eq_refl); congruence].
  - assert (FetchCoin (cdb_mCache v) o = None) as -> by (unfold FetchCoin; by rewrite Ee). by destruct (decide (o ∈ mFetchingCoins v)).
Qed.

Lemma end_fetch_spec v o c m n : cdb_ok v -> 0 <= m <= n -> awaits v o c m -> exists cv r v', DBGetCoin o n (db v) = Ok cv /\ end_fetch o c cv v = Ok (r, v') /\ cdb_ok v' /\ coins v' = coins v /\
  answers m (coins v !! o) r /\ db v' = db v /\ mFetchingCoins v' = mFetchingCoins v ∖ {[ o ]} /\ (forall o', o' <> o -> cacheCoins (cdb_mCache v') !! o' = cacheCoins (cdb_mCache v) !! o').
Proof.
  intros Hv Hmn Haw. destruct (DBGetCoin_spec (db v) o n (co_db _ Hv) ltac:(lia)) as (cv & Ecv & Ha & Hcv). exists cv.
  assert (db_coins (db v) !! o = coins v !! o) as EU by (unfold coins; rewrite lookup_overlay; destruct c as [c|]; cbn in Haw; [destruct Haw as (e & u & -> & E1 & E2 & _ & _ & E3 & _); unfold entry_view; by rewrite E1, E2 | by rewrite Haw]).
  rewrite EU in Ha. set (v1 := with_fetching v (mFetchingCoins v ∖ {[ o ]})). assert (cdb_ok v1 /\ coins v1 = coins v) as [Hv1 Ev1] by (by destruct Hv).
  destruct cv as [cv|]; [|exists None, v1; cbn [end_fetch]; split_and!; [done | done | done | done | by apply answers_mono with n; [lia|] | done | done | done]].
  destruct (Hcv cv eq_refl) as (Hown & Hns & Hcode & u & Hu & Hr & Hok & Hs). assert (forall r, r = cv \/ r = MakeNonOwning cv -> answers m (coins v !! o) (Some r)) as Hans.
  { intros r Hor. assert (represents r u /\ code_ok r /\ coin_IsSpent r = false /\ (HasScript r = HasScript cv)) as (R1 & R2 & R3 & R4) by (destruct Hor as [-> | ->]; [done | split_and!; [by apply (remake_represents false) | by apply (remake_code false cv) | done | done]]).
    split; [done|]. rewrite R3. exists u. rewrite <- EU. split_and!; [done | done |]. rewrite R4. intros ?. apply Hs. lia. }
  assert (forall c', c' = cv \/ c' = strip_script cv -> entry_ok (db_coins (db v) !! o) {| entry_coin := c'; DIRTY := false; FRESH := false |} /\
    entry_view (Some {| entry_coin := c'; DIRTY := false; FRESH := false |}) (db_coins (db v) !! o) = coins v !! o) as Hent.
  { intros c' Hor. rewrite <- EU. apply (clean_entry _ c' u Hu); [| | | done]; destruct Hor as [-> | ->]; try done; [by apply strip_represents | by apply (remake_code true cv)]. }
  assert (forall e s, entry_ok (db_coins (db v) !! o) e /\ entry_view (Some e) (db_coins (db v) !! o) = coins v !! o -> cacheCoins s = <[o := e]> (cacheCoins (cdb_mCache v)) ->
    cdb_ok (with_store v1 s) /\ coins (with_store v1 s) = coins v /\ forall o', o' <> o -> cacheCoins (cdb_mCache (with_store v1 s)) !! o' = cacheCoins (cdb_mCache v) !! o') as Hst.
  { intros e s [E1 E2] Es. destruct (cache_entry v o e Hv E1 E2 s (mFetchingCoins v ∖ {[ o ]}) Es) as [Q1 Q2]. split_and!; [done | done |]. intros o' Ho'. cbn. by rewrite Es, lookup_insert_ne. }
  unfold end_fetch. fold v1. destruct c as [c|].
  - destruct Haw as (e & u' & Ee & E1 & E2 & E3 & E3' & E4 & E5). assert (u' = u) as -> by congruence. assert (HasScript cv = true) as Hh by (apply Hs; lia). rewrite Hh. cbn [assert_ mbind outcome_bind].
    destruct (hasSpaceForScript v1 (mScriptSize cv)); [|exists (Some cv), v1; split_and!; auto; done]. unfold ReplaceWithCoinWithScript. change (cdb_mCache v1) with (cdb_mCache v). rewrite Ee, E2, Hh. cbn [negb assert_ mbind outcome_bind].
    rewrite E3, E3'. eexists (Some (MakeNonOwning cv)), _. split_and!; [done | done | | | by auto | done | done |]; (eapply Hst; [by apply Hent; left | done]).
  - cbn in Haw. unfold store_cache_coin. change (cdb_mCache v1) with (cdb_mCache v). rewrite Haw. destruct (hasSpaceForScript v1 (mScriptSize cv)); cbn [negb mbind outcome_bind].
    + rewrite Hown. cbn [assert_ mbind outcome_bind]. rewrite Hns. eexists (Some (MakeNonOwning cv)), _. split_and!; [done | done | | | by auto | done | done |]; (eapply Hst; [by apply Hent; left | done]).
    + change (coin_IsSpent (strip_script cv)) with (coin_IsSpent cv). rewrite Hns. eexists (Some cv), _. split_and!; [done | done | | | by auto | done | done |]; (eapply Hst; [by apply Hent; right | done]).
Qed.

(** ** The view interface *)

Definition cdb_idle (v : CoinsDB D) : Prop := cdb_ok v /\ mFetchingCoins v = ∅.

(** The same with the stored data fixed: reading writes nothing to disk. *)

Definition cdb_over (w : CDBWrapper D) (v : CoinsDB D) : Prop := cdb_idle v /\ db v = w.

Lemma cdb_GetCoin_spec v o m : cdb_idle v -> 0 <= m -> exists r v', cdb_GetCoin v o m = Ok (r, v') /\ cdb_idle v' /\ coins v' = coins v /\ answers m (coins v !! o) r /\ db v' = db v.
Proof.
  intros [Hv Hf] Hm. unfold cdb_GetCoin. pose proof (begin_fetch_spec v o m Hv Hm) as Hb. destruct (begin_fetch o m v) as [[r| |c n] v'].
  - destruct Hb as [-> Ha]. by exists r, v.
  - destruct Hb as [_ Ho]. rewrite Hf in Ho. set_solver.
  - destruct Hb as (-> & Ho & Hn & Haw). set (v1 := with_fetching v _). assert (cdb_ok v1) as Hv1 by (by destruct Hv).
    destruct (end_fetch_spec v1 o c m n Hv1 ltac:(lia) Haw) as (cv & r & v' & E1 & E2 & Hv' & Ec & Ha & Ed & Ef & _). exists r, v'. rewrite E1. cbn [mbind outcome_bind]. rewrite E2.
    split_and!; [done | split; [done|] | done | done | done]. rewrite Ef. cbn. rewrite Hf. set_solver.
Qed.

Lemma cdb_GetBestBlock_spec v : cdb_idle v -> let v' := (cdb_GetBestBlock v).2 in cdb_idle v' /\ coins v' = coins v /\ db v' = db v.
Proof. intros Hv. unfold cdb_GetBestBlock. destruct (bool_decide _); [|done]. cbn. by destruct Hv as [[] ?]. Qed.

Lemma cdb_valid v : cdb_ok v -> map_Forall (fun _ u => utxo_ok u) (coins v).
Proof. intros Hv o u Hu. apply keepable_ok. by apply (co_kept _ Hv o u). Qed.

#[export] Instance CoinsDBView_laws : CoinsViewLaws (CoinsDB D) cdb_idle coins.
Proof.
  split; [intros v [Hv _]; by apply cdb_valid | | intros v Hv; by destruct (cdb_GetBestBlock_spec v Hv) as (? & ? & _)].
  intros v o m Hv Hm. destruct (cdb_GetCoin_spec v o m Hv Hm) as (r & v' & ? & ? & ? & ? & _). by exists r, v'.
Qed.

#[export] Instance CoinsDBView_laws_over w : CoinsViewLaws (CoinsDB D) (cdb_over w) coins.
Proof.
  split; [intros v [[Hv _] _]; by apply cdb_valid | | intros v [Hv <-]; by destruct (cdb_GetBestBlock_spec v Hv) as (? & ? & ?)].
  intros v o m [Hv <-] Hm. destruct (cdb_GetCoin_spec v o m Hv Hm) as (r & v' & ? & ? & ? & ? & ?). by exists r, v'.
Qed.

(** ** Writing to the cache *)

Lemma uncache_keeps v l : cdb_ok v -> cdb_ok (cdb_Uncache v l) /\ coins (cdb_Uncache v l) = coins v.
Proof.
  unfold cdb_Uncache, Uncache. revert v. induction l as [|o l IH]; intros v Hv; cbn [foldl]; [by destruct v, Hv|].
  destruct (cacheCoins (cdb_mCache v) !! o) as [e|] eqn:Ee; [|by apply IH]. destruct (DIRTY e) eqn:Ed; cbn [negb andb]; [by apply IH|]. destruct (FRESH e); cbn [negb]; [by apply IH|].
  pose proof Hv as [Hdb He Hk]. set (s := EraseCoin (cdb_mCache v) o e). assert (coins (with_store v s) = coins v) as Ec.
  { unfold coins. cbn. apply (overlay_same _ _ _ o); [intros o' Ho'; by rewrite lookup_delete_ne|]. rewrite lookup_delete_eq, Ee. symmetry. apply clean_view; [by apply He | done]. }
  destruct (IH (with_store v s)) as [IH1 IH2]; [split; [exact Hdb | by apply entries_ok_delete | by rewrite Ec]|]. split; [exact IH1 | etransitivity; [exact IH2 | exact Ec]].
Qed.

(** The entries of a view on top are merged into the cache. *)

Lemma cdb_BatchWrite_spec v hash m l : cdb_ok v -> hash <> uint256_null -> l ≡ₚ map_to_list m -> entries_ok (coins v) m -> keepable_set (overlay m (coins v)) ->
  exists v', cdb_BatchWrite v hash l = Ok v' /\ cdb_ok v' /\ coins v' = overlay m (coins v) /\ cdb_hashBlock v' = hash /\ db v' = db v /\ mFetchingCoins v' = mFetchingCoins v.
Proof.
  intros [Hdb He Hk] Hh Hl Hm Hkm. unfold cdb_BatchWrite. rewrite bool_decide_false by done. assert (NoDup l.*1) as Hnd by (rewrite Hl; apply NoDup_fst_map_to_list).
  destruct (BatchWrite_acts (db_coins (db v)) l (cdb_mCache v) Hnd He) as (s & E & Hs & Ho).
  { intros o e Hin. rewrite Hl in Hin. apply elem_of_map_to_list in Hin. by apply Hm. }
  rewrite (list_to_map_proper _ _ Hnd Hl), list_to_map_to_list in Ho. rewrite E. cbn [mbind outcome_bind]. eexists. split; [done|]. assert (coins (with_tip (with_store v s) hash) = overlay m (coins v)) as Ec by exact Ho.
  split_and!; [|done..]. split; cbn; [done | done |]. rewrite Ec. done.
Qed.

Lemma TryFlush_spec order span : (forall m, order m ≡ₚ map_to_list m) -> view_ok cdb_idle coins span -> hashBlock span <> uint256_null -> keepable_set (shows coins span) ->
  exists span', TryFlush order span = Ok span' /\ view_ok cdb_idle coins span' /\ coins (source span') = shows coins span /\ shows coins span' = shows coins span /\ cdb_hashBlock (source span') = hashBlock span /\ db (source span') = db (source span).
Proof.
  intros Hord [Ha [Hs Hf] He] Hh Hk. unfold TryFlush. cbn [MoveOutCoins]. destruct (cdb_BatchWrite_spec (source span) (hashBlock span) (cacheCoins (mCache span)) (order (cacheCoins (mCache span))) Hs Hh (Hord _) He Hk) as (v' & -> & Hv' & Ec & Eh & Edb & Ef).
  cbn [mbind outcome_bind]. eexists. split; [done|]. cbn. split_and!; [|done | | done | done].
  - split; cbn; [done | split; [done | by rewrite Ef] | apply map_Forall_empty].
  - unfold shows. cbn. rewrite Ec. apply map_eq. intros o. by rewrite lookup_overlay, lookup_empty.
Qed.

(** ** The batches of a flush *)

(** An operation on the coins that brings its key to the coin set [T]. *)

Definition moves_to (key : list Z) (T : gmap COutPoint utxo) (op : batch_op) : Prop :=
  exists o, coin_key o = Some (op_key op) /\
    match op with
    | Delete _ => T !! o = None
    | Put _ value => exists c rest, Unserialize CoinImpl_codec (Xor key value) = Ok (c, rest) /\ storable c /\ T !! o = Some (utxo_of c)
    end.

(** The coins a batch of such operations leaves. *)

Lemma moved_value key T o k ops : coin_key o = Some k -> Forall (moves_to key T) ops -> forall old, ((k ∉ map op_key ops) /\ batch_get ops k old = old) \/
  (k ∈ map op_key ops /\ match batch_get ops k old with
    | None => T !! o = None
    | Some value => exists c rest, Unserialize CoinImpl_codec (Xor key value) = Ok (c, rest) /\ storable c /\ T !! o = Some (utxo_of c)
    end).
Proof.
  intros Ek Hf. induction ops as [|op ops IH] using rev_ind; intros old; [left; split; [apply not_elem_of_nil | done]|]. apply Forall_app in Hf as [Hf Hop%Forall_inv]. rewrite map_app, batch_get_app. cbn [map].
  destruct (decide (op_key op = k)) as [E|Hne].
  - right. split; [apply elem_of_app; right; rewrite E; left|]. destruct Hop as (o' & Eo' & Hop). assert (o' = o) as -> by (apply (coin_key_inj o' o k); congruence).
    destruct op as [k' value|k']; cbn in E |- *; rewrite decide_True by done; done.
  - assert (batch_get [op] k (batch_get ops k old) = batch_get ops k old) as -> by (apply batch_get_other; cbn; by intros ?%list_elem_of_singleton).
    destruct (IH Hf old) as [[Hk E]|[Hk E]]; [left | right]; (split; [|done]); rewrite elem_of_app, list_elem_of_singleton; [intros [?|?]; [done | congruence] | by left].
Qed.

Lemma get_write_batches bs : forall w k, ldb_Get (pdb (write_batches w bs)) k = batch_get (concat (batch <$> bs)) k (ldb_Get (pdb w) k) /\ db_key (write_batches w bs) = db_key w.
Proof.
  induction bs as [|b bs IH]; intros w k; [done|]. cbn [write_batches foldl]. destruct (IH (WriteBatch b w) k) as [E1 E2]. unfold write_batches in *. rewrite E1, E2. cbn [fmap list_fmap concat WriteBatch pdb db_key]. by rewrite ldb_get_write, batch_get_app.
Qed.

(** Operations on other keys do not matter to the coins. *)

Definition is_meta (op : batch_op) : Prop := op_key op = char_key DB_BEST_BLOCK \/ op_key op = char_key DB_HEAD_BLOCKS.

Lemma written_coins w key T pre ops post bs : db_ok w -> key = db_key w -> Forall is_meta pre -> Forall (moves_to key T) ops -> Forall is_meta post -> concat (batch <$> bs) = pre ++ ops ++ post ->
  db_ok (write_batches w bs) /\ (forall o, db_coins (write_batches w bs) !! o = db_coins w !! o \/ db_coins (write_batches w bs) !! o = T !! o) /\
  (forall o k, coin_key o = Some k -> k ∈ map op_key ops -> db_coins (write_batches w bs) !! o = T !! o).
Proof.
  intros Hw -> Hpre Hops Hpost Ebs. assert (forall l k o old, coin_key o = Some k -> Forall is_meta l -> batch_get l k old = old) as Hmeta.
  { intros l k o old Ek Hl. apply batch_get_other. intros (op & -> & Hin)%list_elem_of_fmap. destruct (proj1 (list.Forall_forall _ _) Hl op Hin) as [E|E]; exact (coin_key_other o _ _ Ek (eq_sym E)). }
  assert (forall o k, coin_key o = Some k -> ldb_Get (pdb (write_batches w bs)) k = batch_get ops k (ldb_Get (pdb w) k)) as Hget.
  { intros o k Ek. rewrite (proj1 (get_write_batches bs w k)), Ebs, !batch_get_app. rewrite (Hmeta post k o) by done. by rewrite (Hmeta pre k o). }
  assert (db_key (write_batches w bs) = db_key w) as Ekey by apply (get_write_batches bs w []).
  assert (forall o k, coin_key o = Some k -> k ∈ map op_key ops -> db_coins (write_batches w bs) !! o = T !! o) as Hin.
  { intros o k Ek Hk. rewrite lookup_db_coins. unfold db_coin. rewrite Ek. cbn [mbind option_bind]. rewrite (Hget o k Ek). destruct (moved_value _ T o k ops Ek Hops (ldb_Get (pdb w) k)) as [[? _]|[_ Hv]]; [done|].
    destruct (batch_get ops k _) as [value|]; cbn; [|done]. destruct Hv as (c & rest & E & _ & ->). unfold parse_coin. by rewrite Ekey, E. }
  split_and!; [| |done].
  - intros o k value Ek. rewrite (Hget o k Ek), Ekey. destruct (moved_value _ T o k ops Ek Hops (ldb_Get (pdb w) k)) as [[_ ->]|[_ Hv]]; [by apply (Hw o)|]. intros E. rewrite E in Hv. destruct Hv as (c & rest & ? & ? & _). eauto.
  - intros o. destruct (coin_key o) as [k|] eqn:Ek; [|left; rewrite !lookup_db_coins; unfold db_coin; by rewrite Ek]. destruct (decide (k ∈ map op_key ops)) as [Hk|Hk]; [right; by apply (Hin o k)|]. left.
    rewrite !lookup_db_coins. unfold db_coin, parse_coin. rewrite Ek. cbn [mbind option_bind]. rewrite (Hget o k Ek), Ekey. by rewrite batch_get_other.
Qed.

(** Every dirty entry makes one operation. *)

Lemma write_entry_spec key T o e b p : entry_ok p e -> (forall u, entry_view (Some e) p = Some u -> outpoint_ok o /\ keepable u) -> T !! o = entry_view (Some e) p -> exists b' ops, write_entry key (o, e) b = Ok b' /\
  batch b' = batch b ++ ops /\ Forall (moves_to key T) ops /\ (DIRTY e = true -> forall k, coin_key o = Some k -> k ∈ map op_key ops).
Proof.
  intros [Hc _ _ _ Hd _] Hkeep HT. unfold write_entry. cbn [fst snd]. destruct (DIRTY e) eqn:Ed; [|exists b, []; rewrite app_nil_r; by split_and!]. unfold entry_view in Hkeep, HT.
  destruct (coin_key o) as [k|] eqn:Ek; [|exists b, []; rewrite app_nil_r; by split_and!]. destruct (coin_IsSpent (entry_coin e)) eqn:Esp.
  - eexists _, [Delete k]. split_and!; [done | done | | intros _ k' [= <-]; left]. apply list.Forall_singleton. by exists o.
  - pose proof (Hd eq_refl eq_refl) as Hh. rewrite Hh in *. cbn [assert_ mbind outcome_bind]. set (c := entry_coin e) in *. destruct (Hkeep _ eq_refl) as [Ho [Hv Hs]].
    assert (storable (MakeOwning c)) as Hst by (split_and!; [done | done | by apply (remake_code true c) | done]).
    destruct (coin_round_trips _ Hst) as (value & E & _ & _ & R). change (Serialize CoinImpl_codec (MakeNonOwning c)) with (Serialize CoinImpl_codec (MakeOwning c)). rewrite E. cbn [mbind outcome_bind of_stream].
    eexists _, [Put k (Xor key value)]. split_and!; [done | done | | intros _ k' [= <-]; left]. apply list.Forall_singleton. exists o. split; [done|]. exists (MakeOwning c), []. rewrite Xor_involutive.
    specialize (R [] ltac:(constructor)). rewrite app_nil_r in R. rewrite R. split_and!; [done | done |]. by rewrite (remake_utxo true c Hc).
Qed.

Lemma flush_loop_spec key batch_size T (P : gmap COutPoint utxo) l : (forall o e, (o, e) ∈ l -> entry_ok (P !! o) e /\ (forall u, entry_view (Some e) (P !! o) = Some u -> outpoint_ok o /\ keepable u) /\ T !! o = entry_view (Some e) (P !! o)) ->
  forall b, exists bs b' ops, flush_loop key batch_size l b = Ok (bs, b') /\ concat (batch <$> bs) ++ batch b' = batch b ++ ops /\ Forall (moves_to key T) ops /\
    (forall o e k, (o, e) ∈ l -> DIRTY e = true -> coin_key o = Some k -> k ∈ map op_key ops) /\ (forall b1 bs', bs = b1 :: bs' -> exists r, batch b1 = batch b ++ r).
Proof.
  induction l as [|[o e] l IH]; intros Hl b; cbn [flush_loop].
  { exists [], b, []. rewrite app_nil_r. split_and!; [done | done | constructor | by intros ? ? ? ?%not_elem_of_nil | done]. }
  destruct (Hl o e) as (He & Hk & HT); [left|]. destruct (write_entry_spec key T o e b _ He Hk HT) as (b1 & ops1 & -> & E1 & F1 & D1). cbn [mbind outcome_bind].
  specialize (IH ltac:(intros o' e' Hin; apply Hl; by right)). destruct (batch_size <? size_estimate b1).
  - destruct (IH new_CDBBatch) as (bs & b' & ops & -> & E & F & Dd & _). cbn [mbind outcome_bind]. exists (b1 :: bs), b', (ops1 ++ ops). cbn [new_CDBBatch batch] in E. split_and!; [done | | by apply Forall_app | |].
    + cbn [fmap list_fmap concat]. by rewrite <- app_assoc, E, E1, <- app_assoc.
    + intros o' e' k [[= -> ->]|Hin]%elem_of_cons Hd Ek; rewrite map_app, elem_of_app; [left; by apply D1 | right; by eapply Dd].
    + intros ? ? [= <- _]. by exists ops1.
  - destruct (IH b1) as (bs & b' & ops & -> & E & F & Dd & Hfst). exists bs, b', (ops1 ++ ops). rewrite E1 in E. split_and!; [done | by rewrite E, <- app_assoc | by apply Forall_app | |].
    + intros o' e' k [[= -> ->]|Hin]%elem_of_cons Hd Ek; rewrite map_app, elem_of_app; [left; by apply D1 | right; by eapply Dd].
    + intros b2 bs' Ebs. destruct (Hfst b2 bs' Ebs) as [r Er]. rewrite E1 in Er. exists (ops1 ++ r). by rewrite Er, app_assoc.
Qed.

(** ** Crashes *)

Lemma moves_meta key T c ops old : Forall (moves_to key T) ops -> batch_get ops (char_key c) old = old.
Proof.
  intros Hf. apply batch_get_other. intros (op & E & Hin)%list_elem_of_fmap. destruct (proj1 (list.Forall_forall _ _) Hf op Hin) as (o & Ek & _). exact (coin_key_other o _ _ Ek E).
Qed.

(** The marks in a database: the tip of its coins, or the two tips it is between. *)

Definition tip_of (w : CDBWrapper D) (hash : list Z) : Prop := DBGetBestBlock w = hash /\ GetHeadBlocks w = [].

Definition between_tips (w : CDBWrapper D) (new old : list Z) : Prop := DBGetBestBlock w = uint256_null /\ GetHeadBlocks w = [new; old].

Lemma heads_written new old : is_uint256 new -> is_uint256 old -> exists heads, Serialize (vector_codec uint256_codec) [new; old] = Ok heads /\ Unserialize (vector_codec uint256_codec) heads = Ok ([new; old], []).
Proof.
  intros Hn Ho. pose proof (vector_codec_ok uint256_codec is_uint256 uint256_codec_ok ltac:(done)) as Hc. destruct (codec_write [new; old]) as (b & E & _ & _ & R); [split; [by apply Forall_cons_2; [|apply Forall_cons_2; [|constructor]] | done]|].
  exists b. split; [done|]. specialize (R [] ltac:(constructor)). by rewrite app_nil_r in R.
Qed.

Lemma best_written hash : is_uint256 hash -> Unserialize uint256_codec hash = Ok (hash, []).
Proof. intros [_ Hl]. cbn [Unserialize uint256_codec]. rewrite <- (app_nil_r hash) at 1. rewrite <- stream_read_app. f_equal. lia. Qed.

Lemma marks_get w bs : let get c := batch_get (concat (batch <$> bs)) (char_key c) (ldb_Get (pdb w) (char_key c)) in
  (forall heads new old, get DB_BEST_BLOCK = None -> get DB_HEAD_BLOCKS = Some (Xor (db_key w) heads) -> Unserialize (vector_codec uint256_codec) heads = Ok ([new; old], []) -> between_tips (write_batches w bs) new old) /\
  (forall hash, is_uint256 hash -> get DB_BEST_BLOCK = Some (Xor (db_key w) hash) -> get DB_HEAD_BLOCKS = None -> tip_of (write_batches w bs) hash).
Proof.
  cbn zeta. destruct (get_write_batches bs w (char_key DB_BEST_BLOCK)) as [<- Ek]. destruct (get_write_batches bs w (char_key DB_HEAD_BLOCKS)) as [<- _]. unfold between_tips, tip_of, DBGetBestBlock, GetHeadBlocks, Read. rewrite Ek. split.
  - intros heads new old -> -> E. by rewrite Xor_involutive, E.
  - intros hash Hh -> ->. rewrite Xor_involutive, best_written by done. done.
Qed.

(** The trace of a flush: batches that together are the mark, the coins and the final mark; the first has the mark. *)

Lemma DBBatchWrite_trace batch_size v m l tip : cdb_ok v -> cdb_mCache v = m -> l ≡ₚ map_to_list (cacheCoins m) -> is_uint256 (cdb_hashBlock v) -> cdb_hashBlock v <> uint256_null -> old_tip (db v) (cdb_hashBlock v) = Ok tip -> is_uint256 tip ->
  exists bs last heads ops ops', DBBatchWrite batch_size l (cdb_hashBlock v) (db v) = Ok (bs ++ [last]) /\ Unserialize (vector_codec uint256_codec) heads = Ok ([cdb_hashBlock v; tip], []) /\
    let pre := [Delete (char_key DB_BEST_BLOCK); Put (char_key DB_HEAD_BLOCKS) (Xor (db_key (db v)) heads)] in
    let post := [Delete (char_key DB_HEAD_BLOCKS); Put (char_key DB_BEST_BLOCK) (Xor (db_key (db v)) (cdb_hashBlock v))] in
    concat (batch <$> bs) ++ ops' = pre ++ ops /\ concat (batch <$> bs ++ [last]) = pre ++ ops ++ post /\ Forall (moves_to (db_key (db v)) (coins v)) ops /\
    (forall o e k, cacheCoins m !! o = Some e -> DIRTY e = true -> coin_key o = Some k -> k ∈ map op_key ops) /\
    (forall b1 bs', bs = b1 :: bs' -> exists r, batch b1 = pre ++ r).
Proof.
  intros [Hdb He Hk] <- Hl Hh Hn Et Htip. unfold DBBatchWrite. rewrite bool_decide_false by done. cbn [negb assert_ mbind outcome_bind]. rewrite Et. cbn [mbind outcome_bind].
  destruct (heads_written _ _ Hh Htip) as (heads & -> & Rh). cbn [mbind outcome_bind of_stream]. set (b0 := batch_Write _ _ _ _).
  destruct (flush_loop_spec (db_key (db v)) batch_size (coins v) (db_coins (db v)) l) with (b := b0) as (bs & b' & ops & -> & E & F & Dd & Hfst).
  { intros o e Hin. rewrite Hl in Hin. apply elem_of_map_to_list in Hin. assert (coins v !! o = entry_view (Some e) (db_coins (db v) !! o)) as EU by (unfold coins; by rewrite lookup_overlay, Hin).
    split_and!; [by apply He | intros u Hu; apply (Hk o u); by rewrite EU | done]. }
  cbn [mbind outcome_bind Serialize uint256_codec of_stream]. eexists bs, _, heads, ops, (batch b'). split; [done|]. split; [done|]. cbn zeta.
  split_and!; [exact E | | done | | intros b1 bs' Ebs; by apply (Hfst b1 bs')].
  - rewrite fmap_app, concat_app. cbn [fmap list_fmap concat batch batch_Write batch_Erase]. rewrite app_nil_r, app_assoc, <- !app_assoc. rewrite (app_assoc (concat _)), E. cbn [b0 batch batch_Write batch_Erase new_CDBBatch app]. done.
  - intros o e k Ho. apply (Dd o e k). rewrite Hl. by apply elem_of_map_to_list.
Qed.

(** A part of the batches that has the first, but not the last: the marks and operations on coins. *)

Lemma partial_trace (bs : list CDBBatch) last pre ops ops' j : concat (batch <$> bs) ++ ops' = pre ++ ops -> (forall b1 bs', bs = b1 :: bs' -> exists r, batch b1 = pre ++ r) -> (0 < j < length (bs ++ [last]))%nat ->
  exists r rest, concat (batch <$> take j (bs ++ [last])) = pre ++ r /\ ops = r ++ rest.
Proof.
  intros E Hfst Hj. rewrite length_app in Hj. cbn [length] in Hj. rewrite take_app_le by lia. destruct bs as [|b1 bs]; [cbn in Hj; lia|]. destruct (Hfst b1 bs eq_refl) as [r Er]. destruct j as [|j]; [lia|].
  exists (r ++ concat (batch <$> take j bs)), (concat (batch <$> drop j bs) ++ ops'). cbn [take fmap list_fmap concat] in *. rewrite Er in *. split; [by rewrite <- app_assoc|].
  rewrite <- (take_drop j bs), fmap_app, concat_app, <- !app_assoc in E. apply app_inv_head in E. by rewrite <- E, <- !app_assoc.
Qed.

Lemma flushed_coins v w : cdb_ok v -> (forall o, db_coins w !! o = db_coins (db v) !! o \/ db_coins w !! o = coins v !! o) ->
  (forall o k, coin_key o = Some k -> (exists e, cacheCoins (cdb_mCache v) !! o = Some e /\ DIRTY e = true) -> db_coins w !! o = coins v !! o) -> db_coins w = coins v.
Proof.
  intros [Hdb He Hk] Hor Hin. apply map_eq. intros o. assert (coins v !! o = entry_view (cacheCoins (cdb_mCache v) !! o) (db_coins (db v) !! o)) as EU by apply lookup_overlay.
  assert (coins v !! o = db_coins (db v) !! o -> db_coins w !! o = coins v !! o) as Hsame by (intros E; destruct (Hor o) as [-> | ->]; [by rewrite E | done]).
  destruct (cacheCoins (cdb_mCache v) !! o) as [e|] eqn:Ee; [|by apply Hsame]. destruct (DIRTY e) eqn:Ed; [|apply Hsame; rewrite EU; apply clean_view; [by apply He | done]].
  destruct (coin_key o) as [k|] eqn:Ek; [by apply (Hin o k); eauto|]. rewrite lookup_db_coins. unfold db_coin. rewrite Ek. cbn.
  destruct (coins v !! o) as [u|] eqn:Eu; [|done]. destruct (Hk o u Eu) as [Ho _]. destruct (coin_key_some o Ho). congruence.
Qed.

(** Every part of the batches of a flush. *)

Lemma Flush_spec batch_size order v tip : (forall m, order m ≡ₚ map_to_list m) -> cdb_ok v -> is_uint256 (cdb_hashBlock v) -> cdb_hashBlock v <> uint256_null ->
  old_tip (db v) (cdb_hashBlock v) = Ok tip -> is_uint256 tip ->
  exists bs v', DBBatchWrite batch_size (order (cacheCoins (cdb_mCache v))) (cdb_hashBlock v) (db v) = Ok bs /\ Flush batch_size order v = Ok v' /\ db v' = write_batches (db v) bs /\ cdb_ok v' /\ coins v' = coins v /\
    forall j, let w := write_batches (db v) (take j bs) in db_ok w /\ (j = 0%nat -> w = db v) /\
      ((0 < j < length bs)%nat -> between_tips w (cdb_hashBlock v) tip /\ forall o, db_coins w !! o = db_coins (db v) !! o \/ db_coins w !! o = coins v !! o) /\
      ((length bs <= j)%nat -> tip_of w (cdb_hashBlock v) /\ db_coins w = coins v).
Proof.
  intros Hord Hv Hh Hn Et Htip. destruct (DBBatchWrite_trace batch_size v _ _ tip Hv eq_refl (Hord _) Hh Hn Et Htip) as (bs & last & heads & ops & ops' & E & Rh & Epart & Eall & F & Dd & Hfst).
  cbn zeta in *. set (pre := [Delete (char_key DB_BEST_BLOCK); _]) in *. set (post := [Delete (char_key DB_HEAD_BLOCKS); _]) in *. assert (Forall is_meta pre /\ Forall is_meta post) as [Hpre Hpost].
  { split; (apply Forall_cons_2; [|apply Forall_cons_2; [|constructor]]); unfold is_meta; cbn; auto. }
  assert (forall r, concat (batch <$> r) = pre ++ ops ++ post -> db_ok (write_batches (db v) r) /\ tip_of (write_batches (db v) r) (cdb_hashBlock v) /\ db_coins (write_batches (db v) r) = coins v) as Hfull.
  { intros r Er. destruct (written_coins (db v) _ (coins v) pre ops post r (co_db _ Hv) eq_refl Hpre F Hpost Er) as (W1 & W2 & W3). split; [done|]. split.
    - apply (marks_get (db v) r); [done | |]; rewrite Er, !batch_get_app, (moves_meta _ _ _ _ _ F); done.
    - apply flushed_coins; [done | done |]. intros o k Ek (e & Ee & Ed). apply (W3 o k Ek). by apply (Dd o e k). }
  eexists (bs ++ [last]), _. split; [done|]. split; [unfold Flush; rewrite bool_decide_false by done; cbn [MoveOutCoins]; rewrite E; done|]. split; [done|].
  destruct (Hfull (bs ++ [last]) Eall) as (Wok & Wtip & Wc). assert (forall v', db v' = write_batches (db v) (bs ++ [last]) -> cacheCoins (cdb_mCache v') = ∅ -> cdb_ok v' /\ coins v' = coins v) as Hv'.
  { intros v' E1 E2. assert (coins v' = coins v) as Ec by (unfold coins at 1; rewrite E1, E2, Wc; apply map_eq; intros o; by rewrite lookup_overlay, lookup_empty). split; [|done].
    split; [by rewrite E1 | rewrite E2; apply map_Forall_empty | rewrite Ec; apply Hv]. }
  split; [by apply Hv'|]. split; [by apply Hv'|]. intros j. cbn zeta. destruct (decide (j = 0%nat)) as [->|Hj0]; [split_and!; [apply Hv | done | lia | rewrite length_app; cbn; lia]|].
  destruct (decide (length (bs ++ [last]) <= j)%nat) as [Hj|Hj]; [rewrite take_ge by done; split_and!; [done | done | lia | done]|].
  destruct (partial_trace bs last pre ops ops' j Epart Hfst ltac:(lia)) as (r & rest & Er & ->). apply Forall_app in F as [Fr _].
  destruct (written_coins (db v) _ (coins v) pre r [] (take j (bs ++ [last])) (co_db _ Hv) eq_refl Hpre Fr ltac:(constructor) ltac:(by rewrite app_nil_r)) as (W1 & W2 & _).
  split_and!; [done | done | | lia]. intros _. split; [|done]. eapply (marks_get (db v)); [| |exact Rh]; rewrite Er, batch_get_app, (moves_meta _ _ _ _ _ Fr); done.
Qed.

(** C8. A crash during a flush loses nothing.  The flush writes a sequence of atomic batches.  Stopped before the first, the
    database is as it was.  Stopped between two, it is marked with the tip it moves to and the tip it moves from, and every
    output is stored as in the old or as in the new coin set.  After the last it has the new tip, no other mark, and exactly
    the coin set that the database and its cache showed before. *)

Theorem flush_crash_safe batch_size order v tip : (forall m, order m ≡ₚ map_to_list m) -> cdb_ok v -> is_uint256 (cdb_hashBlock v) -> cdb_hashBlock v <> uint256_null ->
  old_tip (db v) (cdb_hashBlock v) = Ok tip -> is_uint256 tip ->
  exists bs v', DBBatchWrite batch_size (order (cacheCoins (cdb_mCache v))) (cdb_hashBlock v) (db v) = Ok bs /\ Flush batch_size order v = Ok v' /\ db v' = write_batches (db v) bs /\ cdb_ok v' /\ coins v' = coins v /\
    forall j, let w := write_batches (db v) (take j bs) in db_ok w /\ (j = 0%nat -> w = db v) /\
      ((0 < j < length bs)%nat -> between_tips w (cdb_hashBlock v) tip /\ forall o, db_coins w !! o = db_coins (db v) !! o \/ db_coins w !! o = coins v !! o) /\
      ((length bs <= j)%nat -> tip_of w (cdb_hashBlock v) /\ db_coins w = coins v).
Proof. apply Flush_spec. Qed.

(** ** Concurrent readers

    Threads with read locks call [GetCoin] at the same time; writers wait until all of them have released their locks.  A
    thread takes a turn of the loop, reads from the database without the mutex, or runs its last critical section. *)

Inductive reader_thread :=
| Asking (o : COutPoint) (maxScriptSize : Z)
| Loading (o : COutPoint) (maxScriptSize : Z) (coinFromCache : option CoinImpl) (maxScriptLoadingSize : Z)
| Loaded (o : COutPoint) (maxScriptSize : Z) (coinFromCache coinFromView : option CoinImpl)
| Answered (o : COutPoint) (maxScriptSize : Z) (r : option CoinImpl).

Inductive reader_step : CoinsDB D * list reader_thread -> CoinsDB D * list reader_thread -> Prop :=
| reader_returns v ts i o m r v' : ts !! i = Some (Asking o m) -> begin_fetch o m v = (FetchReturn r, v') -> reader_step (v, ts) (v', <[i := Answered o m r]> ts)
| reader_yields v ts i o m v' : ts !! i = Some (Asking o m) -> begin_fetch o m v = (FetchWait, v') -> reader_step (v, ts) (v', ts)
| reader_starts v ts i o m c n v' : ts !! i = Some (Asking o m) -> begin_fetch o m v = (FetchLoad c n, v') -> reader_step (v, ts) (v', <[i := Loading o m c n]> ts)
| reader_reads v ts i o m c n cv : ts !! i = Some (Loading o m c n) -> DBGetCoin o n (db v) = Ok cv -> reader_step (v, ts) (v, <[i := Loaded o m c cv]> ts)
| reader_ends v ts i o m c cv r v' : ts !! i = Some (Loaded o m c cv) -> end_fetch o c cv v = Ok (r, v') -> reader_step (v, ts) (v', <[i := Answered o m r]> ts).

(** The output a thread is loading. *)

Definition busy_with (t : reader_thread) : option COutPoint := match t with Loading o _ _ _ | Loaded o _ _ _ => Some o | _ => None end.

Definition thread_ok (v : CoinsDB D) (t : reader_thread) : Prop :=
  match t with
  | Asking o m => 0 <= m
  | Loading o m c n => 0 <= m <= n /\ awaits v o c m
  | Loaded o m c cv => exists n, 0 <= m <= n /\ awaits v o c m /\ DBGetCoin o n (db v) = Ok cv
  | Answered o m r => answers m (coins v !! o) r
  end.

Record readers_ok (U : gmap COutPoint utxo) (s : CoinsDB D * list reader_thread) : Prop := {
  ro_db : cdb_ok s.1;
  ro_coins : coins s.1 = U;
  ro_threads : Forall (thread_ok s.1) s.2;
  ro_one : forall i j t t' o, s.2 !! i = Some t -> s.2 !! j = Some t' -> busy_with t = Some o -> busy_with t' = Some o -> i = j;
  ro_fetching : forall o, o ∈ mFetchingCoins s.1 <-> exists i t, s.2 !! i = Some t /\ busy_with t = Some o }.

Lemma awaits_keep v v' o c m : db v' = db v -> cacheCoins (cdb_mCache v') !! o = cacheCoins (cdb_mCache v) !! o -> awaits v o c m -> awaits v' o c m.
Proof. intros Edb Ec. unfold awaits. by rewrite Edb, Ec. Qed.

(** A step of thread [i] that does not touch what the others wait for. *)

Lemma readers_update U v ts i t t' v' : readers_ok U (v, ts) -> ts !! i = Some t -> cdb_ok v' -> coins v' = U -> db v' = db v -> thread_ok v' t' ->
  (forall o', busy_with t <> Some o' -> (exists j u, ts !! j = Some u /\ busy_with u = Some o') -> cacheCoins (cdb_mCache v') !! o' = cacheCoins (cdb_mCache v) !! o') ->
  (forall o, busy_with t' = Some o -> busy_with t = Some o \/ o ∉ mFetchingCoins v) ->
  (forall o, o ∈ mFetchingCoins v' <-> busy_with t' = Some o \/ (o ∈ mFetchingCoins v /\ busy_with t <> Some o)) -> readers_ok U (v', <[i := t']> ts).
Proof.
  intros [Hdb Hc Ht Hone Hf] Hi Hv' Hc' Edb Ht' Hcache Hnew Hfet. cbn [fst snd] in *. assert (i < length ts)%nat as Hlt by (by eapply lookup_lt_Some).
  assert (forall j u o, ts !! j = Some u -> busy_with u = Some o -> busy_with t = Some o -> j = i) as Hme by (intros j u o Hj Hu Hb; by apply (Hone j i u t o)).
  split; cbn [fst snd]; [done | done | | |].
  - apply Forall_lookup_2. intros j u Hu. apply list_lookup_insert_Some in Hu as [(-> & <- & _)|[Hne Hu]]; [done|]. pose proof (Forall_lookup_1 _ _ _ _ Ht Hu) as Hok.
    destruct u as [o m|o m c n|o m c cv|o m r]; cbn in *; [done | | |by rewrite Hc', <- Hc].
    + destruct Hok as [? Ha]. split; [done|]. eapply awaits_keep; [done | | done]. apply Hcache; [|by eexists j, _]. intros E. by apply Hne, eq_sym, (Hme j _ o Hu eq_refl).
    + destruct Hok as (n & ? & Ha & Eb). exists n. split; [done|]. split; [|by rewrite Edb]. eapply awaits_keep; [done | | done]. apply Hcache; [|by eexists j, _]. intros E. by apply Hne, eq_sym, (Hme j _ o Hu eq_refl).
  - assert (forall j u o, i <> j -> ts !! j = Some u -> busy_with u = Some o -> busy_with t' = Some o -> False) as Hno.
    { intros j u o Hne Hj Hu Hb. destruct (Hnew o Hb) as [Hb'|Hb']; [by apply Hne, eq_sym, (Hme j u o)|]. apply Hb', Hf. by exists j, u. }
    intros j1 j2 u1 u2 o H1' H2' B1 B2. apply list_lookup_insert_Some in H1' as [(-> & <- & _)|[Hn1 H1']]; apply list_lookup_insert_Some in H2' as [(<- & <- & _)|[Hn2 H2']]; [done | | |by apply (Hone j1 j2 u1 u2 o)]; exfalso; eauto.
  - intros o. rewrite Hfet. split.
    + intros [Hb|[Ho Hnb]]; [exists i, t'; by rewrite list_lookup_insert_eq|]. apply Hf in Ho as (j & u & Hj & Hu). exists j, u. split; [|done]. rewrite list_lookup_insert_ne; [done|]. intros ->. congruence.
    + intros (j & u & Hj & Hu). apply list_lookup_insert_Some in Hj as [(-> & <- & _)|[Hne Hj]]; [by left | right]. split; [apply Hf; by exists j, u|]. intros Hb. by apply Hne, eq_sym, (Hme j u o).
Qed.

Lemma reader_step_ok U s s' : readers_ok U s -> reader_step s s' -> readers_ok U s'.
Proof.
  intros Hs Hstep. destruct Hstep as [v ts i o m r v' Hi E|v ts i o m v' Hi E|v ts i o m c n v' Hi E|v ts i o m c n cv Hi E|v ts i o m c cv r v' Hi E]; pose proof (ro_db _ _ Hs) as Hv; pose proof (ro_coins _ _ Hs) as Hc; pose proof (Forall_lookup_1 _ _ _ _ (ro_threads _ _ Hs) Hi) as Ht; cbn [fst snd thread_ok] in *.
  - pose proof (begin_fetch_spec v o m Hv Ht) as Hb. rewrite E in Hb. destruct Hb as [-> Ha]. eapply readers_update; [done | done | done | done | done | done | done | done |]. intros o'. cbn. set_solver.
  - pose proof (begin_fetch_spec v o m Hv Ht) as Hb. rewrite E in Hb. by destruct Hb as [-> _].
  - pose proof (begin_fetch_spec v o m Hv Ht) as Hb. rewrite E in Hb. destruct Hb as (-> & Ho & Hmn & Ha). eapply readers_update; [done | done | by destruct Hv | done | done | done | done | |]; cbn; [intros o' [= <-]; by right | intros o'; set_solver].
  - destruct Ht as [Hmn Ha]. eapply readers_update; [done | done | done | done | done | by exists n | done | by left |]. intros o'. cbn. pose proof (ro_fetching _ _ Hs o') as Hf. cbn in Hf. split; [|intros [Hx|[? ?]]; [apply Hf; by exists i, (Loading o m c n) | done]].
    intros Ho'. destruct (decide (o = o')) as [->|]; [by left | right; split; [done | congruence]].
  - destruct Ht as (n & Hmn & Ha & Ecv). destruct (end_fetch_spec v o c m n Hv Hmn Ha) as (cv' & r' & v2 & E1 & E2 & Hv2 & Hc2 & Hans & Edb & Ef & Hoth). assert (cv' = cv) as -> by congruence. assert (r' = r /\ v2 = v') as [-> ->] by (rewrite E in E2; by injection E2).
    eapply readers_update; [done | done | done | by rewrite Hc2 | done | cbn; by rewrite Hc2 | | done |]; cbn; [intros o' Hne _; apply Hoth; congruence|]. intros o'. rewrite Ef, elem_of_difference, elem_of_singleton. split; [intros [? ?]; right; split; [done | congruence] | intros [?|[? Hne]]; [done | split; [done | congruence]]].
Qed.

Definition request_of (t : reader_thread) : COutPoint * Z := match t with Asking o m | Loading o m _ _ | Loaded o m _ _ | Answered o m _ => (o, m) end.

Lemma reader_step_requests s s' : reader_step s s' -> request_of <$> s'.2 = request_of <$> s.2.
Proof. intros []; cbn [snd]; rewrite ?list_fmap_insert; try done; apply list_insert_id; rewrite list_lookup_fmap; by match goal with E : _ !! _ = Some _ |- _ => rewrite E end. Qed.

Definition turns_left (t : reader_thread) : nat := match t with Asking _ _ => 3 | Loading _ _ _ _ => 2 | Loaded _ _ _ _ => 1 | Answered _ _ _ => 0 end.

Lemma turns_insert ts i t t' : ts !! i = Some t -> (turns_left t' < turns_left t)%nat -> (sum_list_with turns_left (<[i := t']> ts) < sum_list_with turns_left ts)%nat.
Proof.
  revert i. induction ts as [|u ts IH]; intros [|i] Hi Hlt; [done | done | |].
  - injection Hi as ->. change (turns_left t' + sum_list_with turns_left ts < turns_left t + sum_list_with turns_left ts)%nat. lia.
  - change (turns_left u + sum_list_with turns_left (<[i := t']> ts) < turns_left u + sum_list_with turns_left ts)%nat. specialize (IH i Hi Hlt). lia.
Qed.

Definition all_answered (ts : list reader_thread) : Prop := Forall (fun t => turns_left t = 0%nat) ts.

(** Some thread that has no answer can take a turn that brings it closer. *)

Lemma readers_progress U s : readers_ok U s -> all_answered s.2 \/ exists s', reader_step s s' /\ (sum_list_with turns_left s'.2 < sum_list_with turns_left s.2)%nat.
Proof.
  intros Hs. destruct s as [v ts]. pose proof (ro_db _ _ Hs) as Hv. pose proof (ro_threads _ _ Hs) as Ht. cbn [fst snd] in *.
  destruct (decide (Exists (fun t => is_Some (busy_with t)) ts)) as [Hb|Hb].
  - right. apply list.Exists_exists in Hb as (t & Hin & o' & Ho'). apply list_elem_of_lookup_1 in Hin as [i Hi]. pose proof (Forall_lookup_1 _ _ _ _ Ht Hi) as Hok. destruct t as [o m|o m c n|o m c cv|o m r]; [done | | |done]; cbn in Hok.
    + destruct Hok as [Hmn Ha]. destruct (DBGetCoin_spec (db v) o n (co_db _ Hv) ltac:(lia)) as (cv & E & _). eexists. split; [by eapply reader_reads|]. cbn. apply (turns_insert _ _ _ _ Hi). cbn. lia.
    + destruct Hok as (n & Hmn & Ha & Ecv). destruct (end_fetch_spec v o c m n Hv Hmn Ha) as (cv' & r & v' & E1 & E2 & _). assert (cv' = cv) as -> by congruence. eexists. split; [by eapply reader_ends|]. cbn. apply (turns_insert _ _ _ _ Hi). cbn. lia.
  - destruct (decide (Exists (fun t => turns_left t <> 0%nat) ts)) as [Ha|Ha]; [right | left; apply not_Exists_Forall in Ha; [|intros ?; apply _]].
    + apply list.Exists_exists in Ha as (t & Hin & Ht0). apply list_elem_of_lookup_1 in Hin as [i Hi]. assert (exists o m, t = Asking o m) as (o & m & ->).
      { destruct t as [o m|o m c n|o m c cv|o m r]; [by eauto | | |done]; exfalso; apply Hb, list.Exists_exists; (eexists; split; [by eapply list_elem_of_lookup_2 | by eexists]). }
      pose proof (Forall_lookup_1 _ _ _ _ Ht Hi) as Hm. cbn in Hm. pose proof (begin_fetch_spec v o m Hv Hm) as Hbf. destruct (begin_fetch o m v) as [[r| |c n] v'] eqn:E.
      * eexists. split; [by eapply reader_returns|]. apply (turns_insert _ _ _ _ Hi). cbn. lia.
      * exfalso. destruct Hbf as [_ Ho]. apply (ro_fetching _ _ Hs) in Ho as (j & u & Hj & Hu). apply Hb, list.Exists_exists. exists u. split; [by eapply list_elem_of_lookup_2 | by eexists].
      * eexists. split; [by eapply reader_starts|]. apply (turns_insert _ _ _ _ Hi). cbn. lia.
    + eapply list.Forall_impl; [exact Ha|]. cbn. intros t. lia.
Qed.

Lemma readers_finish U : forall n s, (sum_list_with turns_left s.2 <= n)%nat -> readers_ok U s -> exists s', rtc reader_step s s' /\ all_answered s'.2.
Proof.
  induction n as [|n IH]; intros s Hn Hs; (destruct (readers_progress U s Hs) as [Ha|(s1 & Hstep & Hlt)]; [by exists s; split; [apply rtc_refl|]|]); [lia|].
  destruct (IH s1 ltac:(lia) (reader_step_ok _ _ _ Hs Hstep)) as (s' & Hr & Ha). exists s'. split; [by eapply rtc_l | done].
Qed.

Lemma readers_reach U s s' : rtc reader_step s s' -> readers_ok U s -> readers_ok U s' /\ request_of <$> s'.2 = request_of <$> s.2.
Proof.
  induction 1 as [s|s s1 s' Hstep _ IH]; intros Hs; [done|]. destruct (IH (reader_step_ok _ _ _ Hs Hstep)) as [Hs' E]. split; [done|]. by rewrite E, (reader_step_requests _ _ Hstep).
Qed.

(** C9. Threads that read coins at the same time, interleaved in any way, do not disturb each other: the coin set stays as
    it is, every answer is the one the coin set gives, no assertion fails, and as long as a thread has no answer the threads
    can go on until all of them have theirs. *)

Theorem concurrent_reads_correct v requests s : cdb_idle v -> Forall (fun om => 0 <= om.2) requests -> rtc reader_step (v, (fun om => Asking om.1 om.2) <$> requests) s ->
  coins s.1 = coins v /\ request_of <$> s.2 = requests /\ (forall i o m r, s.2 !! i = Some (Answered o m r) -> answers m (coins v !! o) r) /\
  (forall i o m c cv, s.2 !! i = Some (Loaded o m c cv) -> exists r, end_fetch o c cv s.1 = Ok r) /\ exists s', rtc reader_step s s' /\ all_answered s'.2.
Proof.
  intros [Hv Hf] Hreq Hr. assert (readers_ok (coins v) (v, (fun om => Asking om.1 om.2) <$> requests)) as Hinit.
  { split; cbn [fst snd]; [done | done | by apply Forall_fmap | |].
    - intros i j t t' o Hi. apply list_lookup_fmap_Some in Hi as (om & -> & _). done.
    - intros o. rewrite Hf. split; [set_solver|]. intros (i & t & Hi & Hb). apply list_lookup_fmap_Some in Hi as (om & -> & _). done. }
  assert (request_of <$> (v, (fun om => Asking om.1 om.2) <$> requests).2 = requests) as E0 by (cbn [snd]; clear; induction requests as [|[] ? IH]; [done | cbn in *; by rewrite IH]).
  destruct (readers_reach _ _ _ Hr Hinit) as [Hs Es]. rewrite E0 in Es. split; [apply Hs|]. split; [done|]. split; [|split].
  - intros i o m r Hi. pose proof (Forall_lookup_1 _ _ _ _ (ro_threads _ _ Hs) Hi) as Ha. cbn in Ha. by rewrite (ro_coins _ _ Hs) in Ha.
  - intros i o m c cv Hi. destruct (Forall_lookup_1 _ _ _ _ (ro_threads _ _ Hs) Hi) as (n & Hmn & Ha & Ecv). destruct (end_fetch_spec s.1 o c m n (ro_db _ _ Hs) Hmn Ha) as (cv' & r & v' & E1 & E2 & _).
    assert (cv' = cv) as -> by congruence. eauto.
  - by eapply readers_finish.
Qed.

(** ** Evaluated databases *)

(** A coin that is only in the cache. *)

Definition unflushed (w : CDBWrapper D) (hash : list Z) (o : COutPoint) (c : CoinImpl) : CoinsDB D :=
  {| db := w; cdb_hashBlock := hash; cdb_mCache := {| cacheCoins := {[ o := {| entry_coin := c; DIRTY := true; FRESH := true |} ]}; cachedCoinsUsage := coin_usage c |};
     mFetchingCoins := ∅; mCacheSizeThreshold := 1000 |}.

Lemma unflushed_ok w hash o c : db_ok w -> db_coins w = ∅ -> outpoint_ok o -> storable c -> cdb_idle (unflushed w hash o c) /\ coins (unflushed w hash o c) = {[ o := utxo_of c ]}.
Proof.
  intros Hw Hc Ho Hs. pose proof (storable_unspent c Hs) as Hns. pose proof Hs as ((Hv & Hscr) & _ & Hcode & Hh). assert (coins (unflushed w hash o c) = {[ o := utxo_of c ]}) as E.
  { apply map_eq. intros o'. unfold coins. cbn [unflushed db cdb_mCache cacheCoins]. rewrite lookup_overlay, Hc, lookup_empty. destruct (decide (o = o')) as [->|Hne]; [rewrite !lookup_singleton_eq | by rewrite !lookup_singleton_ne]. cbn. by rewrite Hns, Hh. }
  split; [|done]. split; [|done]. split; [done | | rewrite E; by apply map_Forall_singleton]. apply map_Forall_singleton. cbn [unflushed db]. rewrite Hc, lookup_empty.
  split; cbn [entry_coin DIRTY FRESH]; [done | intros _ _; destruct Hscr as [_ Hsz]; unfold nSpecialScripts in Hsz; lia | done | congruence | done | done].
Qed.

Lemma no_coins_ok w : (forall k, ldb_Get (pdb w) k = None) -> db_ok w /\ db_coins w = ∅ /\ tip_of w uint256_null.
Proof.
  intros Hw. assert (db_ok w) as Hok by (intros o k value _; by rewrite Hw). split; [done|]. split.
  - apply map_eq. intros o. rewrite lookup_db_coins, lookup_empty. unfold db_coin. destruct (coin_key o); [|done]. cbn. by rewrite Hw.
  - unfold tip_of, DBGetBestBlock, GetHeadBlocks, Read. by rewrite !Hw.
Qed.

End coin_set.

Definition empty_db : CDBWrapper (gmap (list Z) (list Z)) := {| pdb := ∅; db_key := [17; 34; 51; 68; 85; 102; 119; 136] |}.

Definition demo_outpoint : COutPoint := {| outpoint_txid := le_bytes 32 5; outpoint_n := 1 |}.

#[local] Instance demo_memory : MemUsage := {| script_usage s := Z.of_nat (length s); map_usage n := Z.of_nat n; script_usage_nil := eq_refl |}.

#[local] Existing Instances toy_secp toy_serialize toy_laws.

Lemma empty_db_ok : db_ok empty_db /\ db_coins empty_db = ∅ /\ tip_of empty_db uint256_null.
Proof. apply no_coins_ok. intros k. apply lookup_empty. Qed.

Lemma demo_coin_ok : storable demo_coin.
Proof.
  split_and!; [split; [vm_compute; split; discriminate | split; [repeat (constructor; [split; vm_compute; congruence|]); constructor | vm_compute; congruence]]
    | done | vm_compute; split; congruence | done].
Qed.

Lemma demo_outpoint_ok : outpoint_ok demo_outpoint.
Proof. by apply (bool_decide_unpack _); vm_compute. Qed.

Definition demo_unflushed : CoinsDB (gmap (list Z) (list Z)) := unflushed empty_db (le_bytes 32 2) demo_outpoint demo_coin.

Lemma demo_unflushed_ok : cdb_idle demo_unflushed /\ coins demo_unflushed = {[ demo_outpoint := utxo_of demo_coin ]}.
Proof. destruct empty_db_ok as (H1 & H2 & _). by apply unflushed_ok; [| |apply demo_outpoint_ok | apply demo_coin_ok]. Qed.

Lemma demo_batches : exists b1 b2, DBBatchWrite 0 (map_to_list (cacheCoins (cdb_mCache demo_unflushed))) (cdb_hashBlock demo_unflushed) (db demo_unflushed) = Ok [b1; b2].
Proof. eexists _, _. vm_compute. reflexivity. Qed.

(** Stopped after the first of its two batches, the flush of a coin leaves the two marks. *)

Lemma flush_crash_safe_witness : exists b1 b2, DBBatchWrite 0 (map_to_list (cacheCoins (cdb_mCache demo_unflushed))) (cdb_hashBlock demo_unflushed) (db demo_unflushed) = Ok [b1; b2] /\
  between_tips (write_batches (db demo_unflushed) [b1]) (le_bytes 32 2) uint256_null /\ tip_of (write_batches (db demo_unflushed) [b1; b2]) (le_bytes 32 2).
Proof.
  destruct demo_batches as (b1 & b2 & E). exists b1, b2. split; [exact E|]. destruct demo_unflushed_ok as [[Hok _] _].
  destruct (flush_crash_safe 0 map_to_list demo_unflushed uint256_null) as (bs & v' & E' & _ & _ & _ & _ & Hj); [done | exact Hok | by apply (bool_decide_unpack _); vm_compute | discriminate | reflexivity | by apply (bool_decide_unpack _); vm_compute|].
  assert (bs = [b1; b2]) as -> by congruence. split; [apply (Hj 1%nat); cbn; lia | apply (Hj 2%nat); cbn; lia].
Defined.

(** Two threads ask for the same coin that is not in the database: the first looks for it, the second waits. *)

Lemma concurrent_reads_correct_witness : exists s, rtc reader_step (new_CoinsDB empty_db 1000, [Asking demo_outpoint 0; Asking demo_outpoint 0]) s /\ s.2 !! 1%nat = Some (Asking demo_outpoint 0) /\
  exists s', rtc reader_step s s' /\ all_answered s'.2.
Proof.
  set (start := (new_CoinsDB empty_db 1000, [Asking demo_outpoint 0; Asking demo_outpoint 0])).
  assert (exists s, rtc reader_step start s /\ s.2 !! 1%nat = Some (Asking demo_outpoint 0)) as (s & Hr & Hs).
  { eexists. split; [|shelve]. eapply rtc_l; [by eapply (reader_starts _ _ 0)|]. eapply rtc_l; [by eapply (reader_yields _ _ 1)|]. apply rtc_refl. Unshelve. reflexivity. }
  exists s. split; [exact Hr|]. split; [exact Hs|]. destruct empty_db_ok as (Hw & Hc & _).
  apply (concurrent_reads_correct (new_CoinsDB empty_db 1000) [(demo_outpoint, 0); (demo_outpoint, 0)] s); [|repeat constructor; cbn; lia | exact Hr].
  split; [|done]. split; [done | apply map_Forall_empty|]. unfold coins. cbn [new_CoinsDB db cdb_mCache cacheCoins]. rewrite Hc. intros o u Hu. by rewrite lookup_overlay, !lookup_empty in Hu.
Defined.
