(* ===== verification/TxCheck.v ===== *)
(** * Transactions on their own

    The checks of [src/validation.cpp] that need no coins: [CheckCoinbase], [CheckRegularTransaction], finality and
    relative lock times, the count of signature operations, and the block subsidy; with [CValidationState] of
    [src/consensus/validation.h].  The debug message of the state goes to logs only and is left out. *)

From stdpp Require Import gmap sorting.
From Stdlib Require Import String.
From S2P Require Import Prelude Common Uint256 BlockIndex Pow IntSer BigInt ScriptNum Script Hasher Sha2 Hash Serialize Transaction Coins.
#[local] Open Scope Z_scope.

(** ** The validation state *)

Definition REJECT_INVALID : Z := 0x10.

Definition REJECT_OBSOLETE : Z := 0x11.

Definition REJECT_SOFT_CONSENSUS_FREEZE : Z := 0x13.

Inductive mode_state := MODE_VALID | MODE_INVALID | MODE_ERROR.

#[export] Instance mode_state_eq_dec : EqDecision mode_state.
Proof. solve_decision. Defined.

Record CValidationState := { mode : mode_state; nDoS : Z; strRejectReason : string; chRejectCode : Z; corruptionPossible : bool; nonFinal : bool }.

Definition new_CValidationState : CValidationState :=
  {| mode := MODE_VALID; nDoS := 0; strRejectReason := EmptyString; chRejectCode := 0; corruptionPossible := false; nonFinal := false |}.

Definition DoS (level : Z) (ret : bool) (chRejectCodeIn : Z) (strRejectReasonIn : string) (st : CValidationState) : bool * CValidationState :=
  (ret,
   if decide (mode st = MODE_ERROR) then
     {| mode := mode st; nDoS := nDoS st; strRejectReason := strRejectReasonIn; chRejectCode := chRejectCodeIn;
        corruptionPossible := corruptionPossible st; nonFinal := nonFinal st |}
   else
     {| mode := MODE_INVALID; nDoS := nDoS st + level; strRejectReason := strRejectReasonIn; chRejectCode := chRejectCodeIn;
        corruptionPossible := corruptionPossible st; nonFinal := nonFinal st |}).

Definition SetCorruption (st : CValidationState) : CValidationState :=
  {| mode := mode st; nDoS := nDoS st; strRejectReason := strRejectReason st; chRejectCode := chRejectCode st;
     corruptionPossible := true; nonFinal := nonFinal st |}.

Definition CorruptionOrDoS (strRejectReasonIn : string) (st : CValidationState) : bool * CValidationState :=
  DoS 100 false REJECT_INVALID strRejectReasonIn (SetCorruption st).

Definition Invalid (ret : bool) (_chRejectCode : Z) (_strRejectReason : string) (st : CValidationState) : bool * CValidationState :=
  DoS 0 ret _chRejectCode _strRejectReason st.

Definition SetNonFinal (st : CValidationState) : CValidationState :=
  {| mode := mode st; nDoS := nDoS st; strRejectReason := strRejectReason st; chRejectCode := chRejectCode st;
     corruptionPossible := corruptionPossible st; nonFinal := true |}.

(** Code that checks something and records why it failed. *)

Definition checking : Type := CValidationState -> outcome coins_exn (bool * CValidationState).

Definition accept : checking := fun st => Ok (true, st).

Definition reject (level code : Z) (reason : string) : checking := fun st => Ok (DoS level false code reason st).

(** [if (!c) return false]: the rest runs when [c] accepts. *)

Definition and_then (c rest : checking) : checking := fun st => '(b, st) ← c st; if (b : bool) then rest st else Ok (false, st).

Definition with_outcome {A} (o : outcome coins_exn A) (k : A -> checking) : checking := fun st => a ← o; k a st.

(** ** Finality *)

Definition IsFinalTx (tx : CTransaction) (nBlockHeight nBlockTime : Z) : bool :=
  if tx_nLockTime tx =? 0 then true
  else
    let lockTime := tx_nLockTime tx in
    let lockTimeLimit := if lockTime <? LOCKTIME_THRESHOLD then nBlockHeight else nBlockTime in
    if lockTime <? lockTimeLimit then true
    else forallb (fun txin => nSequence txin =? SEQUENCE_FINAL) (vin tx).

(** ** Relative lock times *)

Definition LOCKTIME_VERIFY_SEQUENCE : Z := 1.

Definition LOCKTIME_MEDIAN_TIME_PAST : Z := 2.

(** The loop of [CalculateSequenceLocks]; the sums of 32-bit and 64-bit integers are checked for overflow, and an ancestor
    that is not there is a null dereference. *)

Definition int32_sum (z : Z) : outcome coins_exn Z := if (- 2 ^ 31 <=? z) && (z <? 2 ^ 31) then Ok z else Abort.

Definition coin_time (h : heap) (block : ptr) (nCoinHeight : Z) : outcome coins_exn Z :=
  match GetAncestor h block (Z.max (nCoinHeight - 1) 0) with
  | Some (Some p) => match GetMedianTimePast h p with Some t => Ok t | None => Abort end
  | _ => Abort
  end.

Fixpoint sequence_locks_loop (h : heap) (block : ptr) (l : list (CTxIn * Z)) (nMinHeight nMinTime : Z) : outcome coins_exn (Z * Z) :=
  match l with
  | [] => Ok (nMinHeight, nMinTime)
  | (txin, nCoinHeight) :: l =>
      if negb (Z.land (nSequence txin) SEQUENCE_LOCKTIME_DISABLE_FLAG =? 0) then sequence_locks_loop h block l nMinHeight nMinTime
      else
        let n := Z.land (nSequence txin) SEQUENCE_LOCKTIME_MASK in
        if negb (Z.land (nSequence txin) SEQUENCE_LOCKTIME_TYPE_FLAG =? 0) then
          _ ← int32_sum (nCoinHeight - 1);
          nCoinTime ← coin_time h block nCoinHeight;
          t ← int64_result (nCoinTime + Z.shiftl n SEQUENCE_LOCKTIME_GRANULARITY);
          t ← int64_result (t - 1);
          sequence_locks_loop h block l nMinHeight (Z.max nMinTime t)
        else
          k ← int32_sum (nCoinHeight + n);
          k ← int32_sum (k - 1);
          sequence_locks_loop h block l (Z.max nMinHeight k) nMinTime
  end.

(** The heights that the source clears in [prevHeights] are not read again. *)

Definition CalculateSequenceLocks (h : heap) (tx : CTransaction) (flags : Z) (prevHeights : list Z) (block : ptr) : outcome coins_exn (Z * Z) :=
  _ ← assert_ (List.length prevHeights =? List.length (vin tx))%nat;
  let fEnforceBIP68 := (2 <=? u32 (tx_nVersion tx)) && negb (Z.land flags LOCKTIME_VERIFY_SEQUENCE =? 0) in
  if negb fEnforceBIP68 then Ok (-1, -1) else sequence_locks_loop h block (zip (vin tx) prevHeights) (-1) (-1).

Definition EvaluateSequenceLocks (h : heap) (block : ptr) (lockPair : Z * Z) : outcome coins_exn bool :=
  match h !! block with
  | Some b =>
      match pprev b with
      | Some prev =>
          match GetMedianTimePast h prev with
          | Some nBlockTime => Ok (negb ((nHeight b <=? lockPair.1) || (nBlockTime <=? lockPair.2)))
          | None => Abort
          end
      | None => Abort
      end
  | None => Abort
  end.

Definition SequenceLocks (h : heap) (tx : CTransaction) (flags : Z) (prevHeights : list Z) (block : ptr) : outcome coins_exn bool :=
  lockPair ← CalculateSequenceLocks h tx flags prevHeights block;
  EvaluateSequenceLocks h block lockPair.

(** ** Subsidy *)

Definition GetBlockSubsidy (nHeight nSubsidyHalvingInterval : Z) : outcome coins_exn Z :=
  if nSubsidyHalvingInterval =? 0 then Abort
  else
    let halvings := Z.quot nHeight nSubsidyHalvingInterval in
    if 64 <=? halvings then Ok 0
    else if halvings <? 0 then Abort
    else Ok (Z.shiftr (50 * COIN) halvings).

(** ** Signature operations *)

Section checks.
Context `{BN_API} (l : layout).

Fixpoint sigops_sum (scripts : list (list Z)) (isGenesisEnabled : bool) (nSigOps : Z) : outcome exn (Z * bool) :=
  match scripts with
  | [] => Ok (nSigOps, false)
  | script :: scripts =>
      '(n, sigOpCountError) ← GetSigOpCount script false isGenesisEnabled;
      let nSigOps := u64 (nSigOps + n) in
      if (sigOpCountError : bool) then Ok (nSigOps, true) else sigops_sum scripts isGenesisEnabled nSigOps
  end.

(** The loop over the inputs, then the loop over the outputs. *)

Definition GetSigOpCountWithoutP2SH (tx : CTransaction) (isGenesisEnabled : bool) : outcome exn (Z * bool) :=
  '(nSigOps, sigOpCountError) ← sigops_sum (map scriptSig (vin tx)) isGenesisEnabled 0;
  if (sigOpCountError : bool) then Ok (nSigOps, true) else sigops_sum (map scriptPubKey (vout tx)) isGenesisEnabled nSigOps.

(** ** The transaction checks *)

(** [::GetSerializeSize]: what the serializer would write. *)

Definition GetSerializeSize {A} (c : codec A) (a : A) : outcome coins_exn Z := b ← of_stream (Serialize c a); Ok (u64 (Z.of_nat (List.length b))).

Fixpoint check_outputs (nValueOut : Z) (vout : list CTxOut) : checking :=
  match vout with
  | [] => accept
  | txout :: vout =>
      if nValue txout <? 0 then reject 100 REJECT_INVALID "bad-txns-vout-negative"
      else if MAX_MONEY <? nValue txout then reject 100 REJECT_INVALID "bad-txns-vout-toolarge"
      else with_outcome (amount_add nValueOut (nValue txout)) (fun nValueOut =>
        if negb (MoneyRange nValueOut) then reject 100 REJECT_INVALID "bad-txns-txouttotal-toolarge"
        else check_outputs nValueOut vout)
  end.

Context (maxTxSigOpsCountConsensusBeforeGenesis maxTxSizeConsensus : Z) (isGenesisEnabled : bool).

Definition CheckTransactionCommon (tx : CTransaction) : checking :=
  if bool_decide (vin tx = []) then reject 10 REJECT_INVALID "bad-txns-vin-empty"
  else if bool_decide (vout tx = []) then reject 10 REJECT_INVALID "bad-txns-vout-empty"
  else with_outcome (GetSerializeSize (CTransaction_codec l) tx) (fun size =>
    if maxTxSizeConsensus <? size then reject 100 REJECT_INVALID "bad-txns-oversize"
    else and_then (check_outputs 0 (vout tx))
      (if negb isGenesisEnabled then
         with_outcome (of_script (GetSigOpCountWithoutP2SH tx isGenesisEnabled)) (fun '(nSigOpCount, sigOpCountError) =>
           if sigOpCountError || (maxTxSigOpsCountConsensusBeforeGenesis <? nSigOpCount) then reject 100 REJECT_INVALID "bad-txn-sigops"
           else accept)
       else accept)).

Definition MAX_COINBASE_SCRIPTSIG_SIZE : Z := 100.

(** [tx.vin[0]]: there is one, because [CheckTransactionCommon] has accepted. *)

Definition CheckCoinbase (tx : CTransaction) : checking :=
  if negb (IsCoinBase tx) then reject 100 REJECT_INVALID "bad-cb-missing"
  else and_then (CheckTransactionCommon tx)
    (match vin tx with
     | txin :: _ =>
         if (script_size (scriptSig txin) <? 2) || (MAX_COINBASE_SCRIPTSIG_SIZE <? script_size (scriptSig txin))
         then reject 100 REJECT_INVALID "bad-cb-length" else accept
     | [] => fun _ => Abort
     end).

Fixpoint check_prevouts (inOutPoints : gset COutPoint) (vin : list CTxIn) : checking :=
  match vin with
  | [] => accept
  | txin :: vin =>
      if outpoint_IsNull (prevout txin) then reject 10 REJECT_INVALID "bad-txns-prevout-null"
      else if decide (prevout txin ∈ inOutPoints) then reject 100 REJECT_INVALID "bad-txns-inputs-duplicate"
      else check_prevouts ({[ prevout txin ]} ∪ inOutPoints) vin
  end.

Definition CheckRegularTransaction (tx : CTransaction) : checking :=
  if IsCoinBase tx then reject 100 REJECT_INVALID "bad-tx-coinbase"
  else and_then (CheckTransactionCommon tx)
    (if isGenesisEnabled && existsb (fun o => IsP2SH (scriptPubKey o)) (vout tx) then reject 100 REJECT_INVALID "bad-txns-vout-p2sh"
     else check_prevouts ∅ (vin tx)).

End checks.

(** ** Reasoning about checks

    A check decides a proposition: it always answers, leaves the state alone when it accepts, and otherwise marks it. *)

Definition rejected (st st' : CValidationState) : Prop := mode st' <> MODE_VALID /\ nDoS st <= nDoS st'.

Definition decides (c : checking) (P : Prop) : Prop :=
  forall st, exists (b : bool) st', c st = Ok (b, st') /\ if b then P /\ st' = st else ~ P /\ rejected st st'.

Lemma decides_accept (P : Prop) : P -> decides accept P.
Proof. intros HP st. by exists true, st. Qed.

Lemma decides_reject level code reason (P : Prop) : 0 <= level -> ~ P -> decides (reject level code reason) P.
Proof.
  intros Hl HP st. exists false. eexists. split; [done|]. split; [done|]. unfold rejected. destruct (decide (mode st = MODE_ERROR)) as [E|]; cbn; [|split; [done | lia]].
  split; [by rewrite E | lia].
Qed.

Lemma decides_and c r (P Q : Prop) : decides c P -> (P -> decides r Q) -> decides (and_then c r) (P /\ Q).
Proof.
  intros Hc Hr st. destruct (Hc st) as (b & st1 & E & Hb). unfold and_then. rewrite E. destruct b; cbn.
  - destruct Hb as [HP ->]. destruct (Hr HP st) as (b & st' & E' & Hb'). exists b, st'. split; [done|]. destruct b; tauto.
  - exists false, st1. split; [done|]. tauto.
Qed.

Lemma decides_iff c (P Q : Prop) : P <-> Q -> decides c P -> decides c Q.
Proof. intros HPQ Hc st. destruct (Hc st) as (b & st' & E & Hb). exists b, st'. split; [done|]. destruct b; tauto. Qed.

#[export] Instance decides_proper c : Proper (iff ==> iff) (decides c).
Proof. intros P Q HPQ. split; apply decides_iff; tauto. Qed.

Lemma decides_with {A} (o : outcome coins_exn A) k a P : o = Ok a -> decides (k a) P -> decides (with_outcome o k) P.
Proof. intros -> Hk st. exact (Hk st). Qed.

(** The rejection of a bad case, and the rest under its negation. *)

Lemma decides_unless (b : bool) level code reason c (P Q : Prop) : 0 <= level -> (b = true <-> ~ P) -> (b = false -> decides c Q) -> (b = false -> P) ->
  decides (if b then reject level code reason else c) (P /\ Q).
Proof.
  intros Hl Hb Hc Hp. destruct b.
  - apply decides_reject; [done|]. intros [HP _]. by apply Hb.
  - eapply decides_iff; [|by apply Hc]. split; [split; [by apply Hp | done] | tauto].
Qed.

(** ** What the checks decide *)

Lemma existsb_Forall {A} (f : A -> bool) l : existsb f l = false <-> Forall (fun x => f x = false) l.
Proof. induction l as [|x l IH]; cbn; [by split|]. rewrite orb_false_iff, list.Forall_cons, IH. done. Qed.

Section spec.
Context `{BN_API} (l : layout) (Hl : layout_ok l).
Context (maxSigOps maxSize : Z) (isGenesisEnabled : bool).

Definition amounts_ok (vout : list CTxOut) : Prop := Forall (fun o => 0 <= nValue o <= MAX_MONEY) vout /\ sum_out vout <= MAX_MONEY.

Record common_ok (tx : CTransaction) : Prop := {
  has_inputs : vin tx <> [];
  has_outputs : vout tx <> [];
  fits_size : exists size, GetSerializeSize (CTransaction_codec l) tx = Ok size /\ size <= maxSize;
  in_range : amounts_ok (vout tx);
  few_sigops : isGenesisEnabled = false -> exists n, GetSigOpCountWithoutP2SH tx false = Ok (n, false) /\ n <= maxSigOps }.

Definition coinbase_ok (tx : CTransaction) : Prop :=
  IsCoinBase tx = true /\ common_ok tx /\ Forall (fun i => 2 <= script_size (scriptSig i) <= 100) (vin tx).

Definition regular_ok (tx : CTransaction) : Prop :=
  IsCoinBase tx = false /\ common_ok tx /\ (isGenesisEnabled = true -> Forall (fun o => IsP2SH (scriptPubKey o) = false) (vout tx)) /\
  NoDup (map prevout (vin tx)) /\ Forall (fun i => outpoint_IsNull (prevout i) = false) (vin tx).

Lemma check_outputs_decides vout : forall acc, 0 <= acc <= MAX_MONEY ->
  decides (check_outputs acc vout) (Forall (fun o => 0 <= nValue o <= MAX_MONEY) vout /\ acc + sum_out vout <= MAX_MONEY).
Proof.
  induction vout as [|o vout IH]; intros acc Hacc; cbn [check_outputs].
  { apply decides_accept. split; [constructor | cbn; lia]. }
  assert (forall P, (P -> 0 <= nValue o <= MAX_MONEY /\ 0 <= acc + nValue o <= MAX_MONEY) ->
    P <-> 0 <= nValue o <= MAX_MONEY /\ 0 <= acc + nValue o <= MAX_MONEY /\ P) as Hsplit by tauto.
  eapply decides_iff; [symmetry; apply Hsplit|].
  { intros [Hf Hs]. pose proof (Forall_inv Hf) as Ho. cbn beta in Ho. pose proof (sum_out_nonneg vout (Forall_inv_tail Hf)). cbn in Hs. fold (sum_out vout) in Hs. lia. }
  destruct (Z.ltb_spec (nValue o) 0); [apply decides_reject; lia|]. destruct (Z.ltb_spec MAX_MONEY (nValue o)); [apply decides_reject; lia|].
  eapply decides_with; [apply int64_result_spec; unfold is_int64, MAX_MONEY, COIN in *; lia|].
  destruct (MoneyRange (acc + nValue o)) eqn:Em; cbn [negb].
  2: { apply decides_reject; [lia|]. intros (_ & Hr & _). by rewrite (proj2 (MoneyRange_spec _)) in Em. }
  apply MoneyRange_spec in Em. eapply decides_iff; [|by apply IH]. cbn [sum_out foldr]. fold (sum_out vout). rewrite list.Forall_cons. split.
  - intros [Hf Hs]. split_and!; first [done | lia].
  - intros (_ & _ & (_ & Hf) & Hs). split; [done | lia].
Qed.

Lemma sigops_sum_total scripts g n : Forall bytes scripts -> exists r, sigops_sum scripts g n = Ok r.
Proof.
  intros Hs. revert n. induction Hs as [|s scripts Hb _ IH]; intros n; cbn [sigops_sum]; [by eexists|].
  destruct (sigops_loop_total false g (instructions s) no_instruction 0 (instruction_operand_bytes s Hb) ltac:(constructor)) as [[m e] E].
  unfold GetSigOpCount. rewrite E. cbn. destruct e; [by eexists | apply IH].
Qed.

Lemma tx_scripts tx : tx_ok tx -> Forall bytes (map scriptSig (vin tx)) /\ Forall bytes (map scriptPubKey (vout tx)).
Proof.
  intros (_ & [Hi _] & [Ho _] & _). split; apply Forall_map.
  - eapply Forall_impl; [|exact Hi]. by intros i (_ & [? _] & _).
  - eapply Forall_impl; [|exact Ho]. by intros o (_ & [? _]).
Qed.

Lemma sigops_total tx g : tx_ok tx -> exists n e, GetSigOpCountWithoutP2SH tx g = Ok (n, e).
Proof.
  intros [Hi Ho]%tx_scripts. unfold GetSigOpCountWithoutP2SH. destruct (sigops_sum_total _ g 0 Hi) as [[n e] ->]. cbn.
  destruct e; [by eexists _, _|]. destruct (sigops_sum_total _ g n Ho) as [[n' e'] ->]. by eexists _, _.
Qed.

Lemma tx_size_total tx : tx_ok tx -> exists size, GetSerializeSize (CTransaction_codec l) tx = Ok size.
Proof. intros Htx. unfold GetSerializeSize. destruct (codec_write (codec_ok := CTransaction_codec_ok l Hl) tx Htx) as (b & -> & _). by eexists. Qed.

Lemma CheckTransactionCommon_decides tx : tx_ok tx -> decides (CheckTransactionCommon l maxSigOps maxSize isGenesisEnabled tx) (common_ok tx).
Proof.
  intros Htx. unfold CheckTransactionCommon. case_bool_decide as Hi; [by apply decides_reject; [|intros []]|].
  case_bool_decide as Ho; [by apply decides_reject; [|intros []]|]. destruct (tx_size_total tx Htx) as [size Es].
  eapply decides_with; [exact Es|]. destruct (Z.ltb_spec maxSize size).
  { apply decides_reject; [lia|]. intros [_ _ (size' & E & Hs) _ _]. rewrite Es in E. injection E as ->. lia. }
  eapply (decides_iff _ (amounts_ok (vout tx) /\ (isGenesisEnabled = false -> exists n, GetSigOpCountWithoutP2SH tx false = Ok (n, false) /\ n <= maxSigOps))).
  { split; [intros [Ha Hs]; split; eauto | by intros []]. }
  apply decides_and; [apply (check_outputs_decides (vout tx) 0); unfold MAX_MONEY, COIN; lia|]. intros _.
  destruct isGenesisEnabled; cbn [negb]; [by apply decides_accept|]. destruct (sigops_total tx false Htx) as (n & e & En). rewrite En.
  eapply decides_with; [reflexivity|]. cbn beta iota. destruct (e || (maxSigOps <? n)) eqn:Eb.
  - apply decides_reject; [lia|]. intros (n' & [= <- ->] & Hn); [done|]. cbn in Eb. by apply Z.ltb_lt, Zlt_not_le in Eb.
  - apply decides_accept. intros _. apply orb_false_elim in Eb as [-> Hn%Z.ltb_ge]. by exists n.
Qed.

Lemma check_prevouts_decides vin : forall seen, decides (check_prevouts seen vin)
  (NoDup (map prevout vin) /\ Forall (fun i => outpoint_IsNull (prevout i) = false) vin /\ forall o, o ∈ map prevout vin -> o ∉ seen).
Proof.
  induction vin as [|i vin IH]; intros seen; cbn [check_prevouts map].
  { apply decides_accept. split_and!; [constructor | constructor | intros o Ho; by apply not_elem_of_nil in Ho]. }
  destruct (outpoint_IsNull (prevout i)) eqn:En.
  { apply decides_reject; [lia|]. intros (_ & Hf & _). apply Forall_inv in Hf. congruence. }
  destruct (decide (prevout i ∈ seen)) as [Hin|Hin].
  { apply decides_reject; [lia|]. intros (_ & _ & Hs). by apply (Hs (prevout i)); [left|]. }
  eapply decides_iff; [|apply IH]. rewrite list.NoDup_cons, list.Forall_cons. split.
  - intros (Hn & Hf & Hs). split_and!; [|done..|].
    + intros Ho. apply (Hs _ Ho), elem_of_union_l, elem_of_singleton. done.
    + intros o [->|Ho]%elem_of_cons; [done|]. intros Hx. apply (Hs _ Ho), elem_of_union_r, Hx.
  - intros ([Hni Hn] & [_ Hf] & Hs). split_and!; [done..|]. intros o Ho. apply not_elem_of_union. split; [|apply Hs; by right].
    intros ->%elem_of_singleton. done.
Qed.

Lemma CheckRegularTransaction_decides tx : tx_ok tx -> decides (CheckRegularTransaction l maxSigOps maxSize isGenesisEnabled tx) (regular_ok tx).
Proof.
  intros Htx. unfold CheckRegularTransaction, regular_ok. destruct (IsCoinBase tx); [apply decides_reject; [lia | by intros [? _]]|].
  eapply decides_iff; [|apply decides_and; [by apply CheckTransactionCommon_decides|]; intros _;
    apply (decides_unless _ _ _ _ _ (isGenesisEnabled = true -> Forall (fun o => IsP2SH (scriptPubKey o) = false) (vout tx))); [lia | |
    intros _; apply check_prevouts_decides |]].
  - split; [intros (Hc & Hp & Hn & Hf & _); done | intros (_ & Hc & Hp & Hn & Hf)]. split_and!; [done..|]. intros o _. apply not_elem_of_empty.
  - destruct isGenesisEnabled; cbn [andb]; [|by split; [done | intros Hn; destruct Hn]]. rewrite <- existsb_Forall.
    destruct (existsb _ _); split; [by intros _ Hn; specialize (Hn eq_refl) | done | done | intros Hn; by destruct Hn].
  - intros Hb ->. by apply existsb_Forall.
Qed.

Lemma CheckCoinbase_decides tx : tx_ok tx -> decides (CheckCoinbase l maxSigOps maxSize isGenesisEnabled tx) (coinbase_ok tx).
Proof.
  intros Htx. unfold CheckCoinbase, coinbase_ok. destruct (IsCoinBase tx) eqn:Ecb; cbn [negb]; [|apply decides_reject; [lia | by intros [? _]]].
  eapply (decides_iff _ (common_ok tx /\ Forall (fun i => 2 <= script_size (scriptSig i) <= 100) (vin tx))).
  { split; [by intros [Hc Hs] | by intros (_ & Hc & Hs)]. }
  apply decides_and; [by apply CheckTransactionCommon_decides|]. intros _.
  unfold IsCoinBase in Ecb. destruct (vin tx) as [|i [|]]; [done | | done]. rewrite list.Forall_cons.
  destruct (_ || _) eqn:Eb; unfold MAX_COINBASE_SCRIPTSIG_SIZE in *.
  - apply decides_reject; [lia|]. intros [Hs _]. apply orb_prop in Eb as [?%Z.ltb_lt|?%Z.ltb_lt]; lia.
  - apply decides_accept. apply orb_false_elim in Eb as [?%Z.ltb_ge ?%Z.ltb_ge]. split; [lia | constructor].
Qed.

Lemma amounts_value_out tx : amounts_ok (vout tx) -> GetValueOut tx = Ok (sum_out (vout tx)) /\ 0 <= sum_out (vout tx) <= MAX_MONEY.
Proof.
  intros [Hf Hs]. pose proof (sum_out_nonneg _ Hf). split; [|lia]. apply (value_out_loop_spec 0); [unfold MAX_MONEY, COIN; lia | done | lia].
Qed.

End spec.

(** ** Relative lock times are those of BIP 68 *)

Section locks.
Context (h : heap) (Ht : block_tree h) (block prev : ptr) (b : CBlockIndex) (Hb : h !! block = Some b) (Hprev : pprev b = Some prev).

Lemma collect_times_range n p : Forall (fun t => 0 <= t < 2 ^ 32) (collect_times h n p).
Proof.
  revert p. induction n as [|n IH]; intros p; [constructor|]. cbn. destruct p as [p|]; [|constructor].
  destruct (h !! p) as [b'|] eqn:E; [|constructor]. constructor; [|apply IH]. by destruct (block_tree_work h Ht p b' E) as (_ & _ & ? & _).
Qed.

Lemma median_range p b' : h !! p = Some b' -> exists t, GetMedianTimePast h p = Some t /\ 0 <= t < 2 ^ 32.
Proof.
  intros Hp. unfold GetMedianTimePast. set (l := collect_times h nMedianTimeSpan (Some p)).
  assert (0 < List.length l)%nat as Hl by (unfold l, nMedianTimeSpan; cbn; rewrite Hp; cbn; lia).
  pose proof (merge_sort_Permutation Z.le l) as Hperm.
  destruct (lookup_lt_is_Some_2 (merge_sort Z.le l) (List.length l / 2)%nat) as [t Et].
  { rewrite Hperm. apply Nat.div_lt; lia. }
  exists t. split; [done|]. assert (t ∈ l) as Hin by (rewrite <- Hperm; by eapply list_elem_of_lookup_2).
  pose proof (collect_times_range nMedianTimeSpan (Some p)) as Hr. fold l in Hr. by apply (proj1 (list.Forall_forall _ _) Hr).
Qed.

(** When the lock of an input whose coin has height [nCoinHeight] is over, in the block. *)

Definition lock_over (nBlockTime : Z) (il : CTxIn * Z) : Prop :=
  let n := Z.land (nSequence il.1) SEQUENCE_LOCKTIME_MASK in
  Z.land (nSequence il.1) SEQUENCE_LOCKTIME_DISABLE_FLAG <> 0 \/
  if Z.land (nSequence il.1) SEQUENCE_LOCKTIME_TYPE_FLAG =? 0 then il.2 + n <= nHeight b
  else exists q t, walk h (Z.to_nat (nHeight b - Z.max (il.2 - 1) 0)) block = Some q /\ GetMedianTimePast h q = Some t /\ t + 512 * n <= nBlockTime.

Lemma coin_time_spec ch : 0 <= ch <= nHeight b -> exists q t, walk h (Z.to_nat (nHeight b - Z.max (ch - 1) 0)) block = Some q /\
  GetMedianTimePast h q = Some t /\ coin_time h block ch = Ok t /\ 0 <= t < 2 ^ 32.
Proof.
  intros Hch. destruct (GetAncestor_walk h block b (Z.max (ch - 1) 0) (block_tree_ok h Ht) Hb ltac:(lia)) as (q & bq & Ea & Ew & Eq & _).
  destruct (median_range q bq Eq) as (t & Em & Hr). exists q, t. split_and!; [done | done | | lia..]. unfold coin_time. by rewrite Ea, Em.
Qed.

Lemma sequence_locks_spec nBlockTime : nHeight b < 2 ^ 31 - 2 ^ 16 -> forall l mh mt, Forall (fun il => 0 <= il.2 <= nHeight b) l ->
  exists mh' mt', sequence_locks_loop h block l mh mt = Ok (mh', mt') /\
    (mh' < nHeight b /\ mt' < nBlockTime <-> (mh < nHeight b /\ mt < nBlockTime) /\ Forall (lock_over nBlockTime) l).
Proof.
  intros Hh. induction l as [|[txin ch] l IH]; intros mh mt Hl; cbn [sequence_locks_loop].
  { exists mh, mt. split; [done|]. split; [done | tauto]. }
  apply Forall_cons_1 in Hl as [Hch Hl]. cbn [snd] in Hch.
  pose proof (list.Forall_cons (lock_over nBlockTime) (txin, ch) l) as HF. unfold lock_over at 2 in HF. cbn [fst snd] in HF.
  set (n := Z.land (nSequence txin) SEQUENCE_LOCKTIME_MASK) in *.
  assert (0 <= n < 2 ^ 16) as Hn by (unfold n; change SEQUENCE_LOCKTIME_MASK with (Z.ones 16); rewrite Z.land_ones by lia; apply Z.mod_pos_bound; lia).
  destruct (Z.eqb_spec (Z.land (nSequence txin) SEQUENCE_LOCKTIME_DISABLE_FLAG) 0) as [Ed|Ed]; cbn [negb].
  2: { destruct (IH mh mt Hl) as (mh' & mt' & E & Hiff). exists mh', mt'. split; [done|]. rewrite Hiff, HF. tauto. }
  destruct (Z.eqb_spec (Z.land (nSequence txin) SEQUENCE_LOCKTIME_TYPE_FLAG) 0) as [Ety|Ety]; cbn [negb].
  - unfold int32_sum. rewrite !(proj2 (andb_true_iff _ _)) by (rewrite Z.leb_le, Z.ltb_lt; lia). cbn [mbind outcome_bind].
    rewrite !(proj2 (andb_true_iff _ _)) by (rewrite Z.leb_le, Z.ltb_lt; lia). cbn [mbind outcome_bind].
    destruct (IH (Z.max mh (ch + n - 1)) mt Hl) as (mh' & mt' & E & Hiff). exists mh', mt'. split; [done|]. rewrite Hiff, HF.
    split; [intros ((? & ?) & ?) | intros ((? & ?) & [?|?] & ?)]; [|done|]; split_and!; first [done | lia | by right; lia].
  - destruct (coin_time_spec ch Hch) as (q & t & Ew & Em & Ec & Hr). unfold int32_sum.
    rewrite (proj2 (andb_true_iff _ _)) by (rewrite Z.leb_le, Z.ltb_lt; lia). rewrite Ec. cbn [mbind outcome_bind].
    change SEQUENCE_LOCKTIME_GRANULARITY with 9. rewrite Z.shiftl_mul_pow2 by lia. change (2 ^ 9) with 512.
    rewrite int64_result_spec by (unfold is_int64; lia). cbn [mbind outcome_bind]. rewrite int64_result_spec by (unfold is_int64; lia). cbn [mbind outcome_bind].
    destruct (IH mh (Z.max mt (t + n * 512 - 1)) Hl) as (mh' & mt' & E & Hiff). exists mh', mt'. split; [done|]. rewrite Hiff, HF. split.
    + intros ((? & ?) & ?). split_and!; [done | lia | right; exists q, t; split_and!; [done..|lia] | done].
    + intros ((? & ?) & [?|(q' & t' & Ew' & Em' & Hle)] & ?); [done|]. rewrite Ew in Ew'. injection Ew' as <-. rewrite Em in Em'. injection Em' as <-.
      split_and!; [done | lia | done].
Qed.

End locks.

(** Finality is stable: a transaction that is final at some height and time stays so. *)

Lemma IsFinalTx_mono tx height time height' time' : height <= height' -> time <= time' -> IsFinalTx tx height time = true -> IsFinalTx tx height' time' = true.
Proof.
  intros Hh Ht. unfold IsFinalTx. destruct (_ =? 0); [done|]. destruct (tx_nLockTime tx <? LOCKTIME_THRESHOLD);
    destruct (Z.ltb_spec (tx_nLockTime tx) height), (Z.ltb_spec (tx_nLockTime tx) height'), (Z.ltb_spec (tx_nLockTime tx) time), (Z.ltb_spec (tx_nLockTime tx) time');
    done || lia.
Qed.

(** ** The sum of the subsidies *)

Lemma subsidy_spec nHeight interval : 0 <= nHeight -> 0 < interval -> GetBlockSubsidy nHeight interval = Ok (Z.shiftr (50 * COIN) (nHeight / interval)).
Proof.
  intros Hh Hi. unfold GetBlockSubsidy. rewrite (proj2 (Z.eqb_neq _ _)) by lia. rewrite Z.quot_div_nonneg by lia.
  assert (0 <= nHeight / interval) as Hq by (apply Z.div_pos; lia). destruct (Z.leb_spec 64 (nHeight / interval)) as [H64|].
  - f_equal. rewrite Z.shiftr_div_pow2 by done. symmetry. apply Z.div_small. unfold COIN. split; [lia|].
    apply (Z.lt_le_trans _ (2 ^ 64)); [lia | apply Z.pow_le_mono_r; lia].
  - by rewrite (proj2 (Z.ltb_ge _ _)).
Qed.

(** What the blocks below a height may have created. *)

Fixpoint issued (interval : Z) (n : nat) : Z :=
  match n with
  | O => 0
  | S n => issued interval n + match GetBlockSubsidy (Z.of_nat n) interval with Ok v => v | _ => 0 end
  end.

Lemma issued_bound interval n : 0 < interval ->
  let k := Z.of_nat n / interval in let r := Z.of_nat n mod interval in
  0 <= issued interval n /\ issued interval n + (2 * interval - r) * Z.shiftr (50 * COIN) k <= 2 * interval * (50 * COIN).
Proof.
  intros Hi. induction n as [|n [IH0 IH]]; cbn zeta in *.
  { cbn [issued]. change (Z.of_nat 0) with 0. rewrite Z.div_0_l, Z.mod_0_l, Z.shiftr_0_r by lia. lia. }
  cbn [issued]. rewrite subsidy_spec by lia. set (k := Z.of_nat n / interval) in *. set (r := Z.of_nat n mod interval) in *.
  pose proof (Z.mod_pos_bound (Z.of_nat n) interval Hi) as Hr. fold r in Hr. pose proof (Z.div_mod (Z.of_nat n) interval ltac:(lia)) as Hd. fold k r in Hd.
  assert (0 <= k) as Hk by (apply Z.div_pos; lia). assert (0 <= Z.shiftr (50 * COIN) k) as Hx by (apply Z.shiftr_nonneg; unfold COIN; lia).
  split; [lia|]. destruct (decide (r + 1 < interval)) as [Hlt|Hge].
  - replace (Z.of_nat (S n) / interval) with k by (apply (Z.div_unique _ _ _ (r + 1)); lia).
    replace (Z.of_nat (S n) mod interval) with (r + 1) by (apply (Z.mod_unique _ _ k); lia). lia.
  - replace (Z.of_nat (S n) / interval) with (k + 1) by (apply (Z.div_unique _ _ _ 0); lia).
    replace (Z.of_nat (S n) mod interval) with 0 by (apply (Z.mod_unique _ _ (k + 1)); lia).
    assert (2 * Z.shiftr (50 * COIN) (k + 1) <= Z.shiftr (50 * COIN) k) as Hhalf.
    { rewrite <- Z.shiftr_shiftr by lia. rewrite (Z.shiftr_div_pow2 _ 1), Z.pow_1_r by lia. apply Z.mul_div_le. lia. }
    nia.
Qed.

Lemma subsidy_range k : 0 <= k -> 0 <= Z.shiftr (50 * COIN) k <= 50 * COIN.
Proof.
  intros Hk. rewrite Z.shiftr_div_pow2 by done. pose proof (Z.pow_pos_nonneg 2 k ltac:(lia) Hk). unfold COIN. split; [apply Z.div_pos; lia|].
  apply Z.div_le_upper_bound; [done | nia].
Qed.

Lemma issued_max interval n : 0 < interval <= 210000 -> 0 <= issued interval n <= MAX_MONEY.
Proof.
  intros Hi. destruct (issued_bound interval n ltac:(lia)) as [H0 Hb]. cbn zeta in Hb.
  pose proof (Z.mod_pos_bound (Z.of_nat n) interval ltac:(lia)) as Hr. pose proof (subsidy_range (Z.of_nat n / interval) ltac:(apply Z.div_pos; lia)) as Hx.
  unfold MAX_MONEY, COIN in *. nia.
Qed.

(** ** Properties *)

(** C18. The stateless transaction checks decide what they are meant to.  [CheckRegularTransaction] accepts exactly the
    transactions that are no coinbase, have inputs and outputs, fit the size, have every amount and the total within
    [MAX_MONEY], do not exceed the signature operations allowed before Genesis, create no P2SH output after it, and name no
    output twice and no null one.  [CheckCoinbase] accepts exactly the coinbases with those amounts and sizes and an input
    script of 2 to 100 bytes.  Both always answer, leave the state alone when they accept and mark it invalid otherwise; on
    what they accept [GetValueOut] is the sum of the outputs, without exception or overflow. *)

Theorem CheckTransaction_correct `{BN_API} (l : layout) (maxSigOps maxSize : Z) (isGenesisEnabled : bool) (tx : CTransaction) :
  layout_ok l -> tx_ok tx ->
  decides (CheckRegularTransaction l maxSigOps maxSize isGenesisEnabled tx) (regular_ok l maxSigOps maxSize isGenesisEnabled tx) /\
  decides (CheckCoinbase l maxSigOps maxSize isGenesisEnabled tx) (coinbase_ok l maxSigOps maxSize isGenesisEnabled tx) /\
  (regular_ok l maxSigOps maxSize isGenesisEnabled tx \/ coinbase_ok l maxSigOps maxSize isGenesisEnabled tx ->
   GetValueOut tx = Ok (sum_out (vout tx)) /\ 0 <= sum_out (vout tx) <= MAX_MONEY).
Proof.
  intros Hl Htx. split_and!; [by apply CheckRegularTransaction_decides | by apply CheckCoinbase_decides|].
  intros [(_ & Hc & _)|(_ & Hc & _)]; by apply amounts_value_out, (in_range _ _ _ _ _ Hc).
Qed.

#[local] Instance demo_bn : BN_API := Z_BN.

Lemma demo_layout_ok : layout_ok demo_layout.
Proof. repeat split; done. Qed.

Lemma CheckTransaction_correct_witness :
  exists st, CheckRegularTransaction demo_layout 100 1000 true demo_tx new_CValidationState = Ok (true, st) /\ regular_ok demo_layout 100 1000 true demo_tx /\
    GetValueOut demo_tx = Ok (50 * COIN).
Proof.
  destruct (CheckTransaction_correct demo_layout 100 1000 true demo_tx demo_layout_ok demo_tx_ok) as (Hc & _ & Hv).
  destruct (Hc new_CValidationState) as (b & st & E & Hb). exists st. destruct b; [|vm_compute in E; discriminate E].
  split; [exact E|]. split; [exact (proj1 Hb)|]. exact (proj1 (Hv (or_introl (proj1 Hb)))).
Defined.

(** C19. Relative lock times are those of BIP 68.  In a tree the node has built, for a block that has a predecessor and for
    input heights within its chain, [SequenceLocks] answers (no assertion, null pointer or overflow), and it accepts exactly
    when the rules are off (version below 2 or flag unset) or every input's lock is over: the disable bit is set; or the
    block is at least the given number of blocks above the coin; or the median time past of the block's predecessor is at
    least the given number of 512-second units after that of the block before the coin's. *)

Theorem SequenceLocks_bip68 (h : heap) (block prev : ptr) (b : CBlockIndex) (tx : CTransaction) (flags : Z) (prevHeights : list Z) :
  block_tree h -> h !! block = Some b -> pprev b = Some prev -> nHeight b < 2 ^ 31 - 2 ^ 16 ->
  List.length prevHeights = List.length (vin tx) -> Forall (fun ch => 0 <= ch <= nHeight b) prevHeights ->
  exists ok nBlockTime, SequenceLocks h tx flags prevHeights block = Ok ok /\ GetMedianTimePast h prev = Some nBlockTime /\
    (ok = true <-> u32 (tx_nVersion tx) < 2 \/ Z.land flags LOCKTIME_VERIFY_SEQUENCE = 0 \/
                   Forall (lock_over h block b nBlockTime) (zip (vin tx) prevHeights)).
Proof.
  intros Ht Hb Hp Hh Hlen Hf. destruct (block_tree_ok h Ht block b Hb) as [H0 Hparent]. rewrite Hp in Hparent. destruct Hparent as (bp & Ep & Ehp & _).
  destruct (block_tree_ok h Ht prev bp Ep) as [Hp0 _]. destruct (median_range h Ht prev bp Ep) as (nBlockTime & Em & Hr).
  unfold SequenceLocks, CalculateSequenceLocks, EvaluateSequenceLocks. rewrite Hlen, Nat.eqb_refl, Hb, Hp, Em. cbn [assert_ mbind outcome_bind].
  assert (forall mh mt, negb ((nHeight b <=? mh) || (nBlockTime <=? mt)) = true <-> mh < nHeight b /\ mt < nBlockTime) as Hneg.
  { intros mh mt. rewrite negb_true_iff, orb_false_iff, !Z.leb_gt. done. }
  destruct (Z.leb_spec 2 (u32 (tx_nVersion tx))), (Z.eqb_spec (Z.land flags LOCKTIME_VERIFY_SEQUENCE) 0); cbn [negb andb];
    try (eexists _, nBlockTime; split_and!; [reflexivity | done|]; rewrite Hneg; cbn [fst snd]; split; [tauto | lia]).
  assert (Forall (fun il : CTxIn * Z => 0 <= il.2 <= nHeight b) (zip (vin tx) prevHeights)) as Hz.
  { apply List.Forall_forall. intros [i ch] Hin. apply in_combine_r in Hin. exact (proj1 (List.Forall_forall _ _) Hf ch Hin). }
  destruct (sequence_locks_spec h Ht block b Hb nBlockTime Hh _ (-1) (-1) Hz) as (mh & mt & -> & Hiff). cbn [mbind outcome_bind].
  eexists _, nBlockTime. split_and!; [reflexivity | done|]. rewrite Hneg, Hiff. split; [tauto|]. intros [?|[?|?]]; [lia | done | split; [lia | done]].
Qed.

Definition demo_locked : CTransaction :=
  {| tx_nVersion := 2; vin := [{| prevout := demo_outpoint; scriptSig := []; nSequence := 2 |}]; vout := []; tx_nLockTime := 0 |}.

Lemma SequenceLocks_bip68_witness : exists b ok nBlockTime, demo_tree !! 4%positive = Some b /\
  SequenceLocks demo_tree demo_locked 1 [1] 4%positive = Ok ok /\ (ok = true <-> u32 2 < 2 \/ Z.land 1 LOCKTIME_VERIFY_SEQUENCE = 0 \/
    Forall (lock_over demo_tree 4%positive b nBlockTime) (zip (vin demo_locked) [1])).
Proof.
  destruct (demo_tree !! 4%positive) as [b|] eqn:Eb; [|vm_compute in Eb; discriminate Eb].
  assert (nHeight b = 3 /\ pprev b = Some 3%positive) as [Eh Ep] by (vm_compute in Eb; injection Eb as <-; split; reflexivity).
  destruct (SequenceLocks_bip68 demo_tree 4%positive 3%positive b demo_locked 1 [1] demo_tree_ok Eb Ep) as (ok & t & E & _ & Hiff);
    [rewrite Eh; lia | reflexivity | repeat constructor; rewrite ?Eh; lia|].
  exists b, ok, t. split; [reflexivity|]. split; [exact E | exact Hiff].
Defined.

(** The supply is limited: whatever the height, the subsidies of all blocks up to it sum up to at most [MAX_MONEY] for
    every halving interval of up to 210000 blocks, and the subsidy of a block is defined at every height. *)

Theorem total_subsidy_bound (nSubsidyHalvingInterval : Z) (n : nat) : 0 < nSubsidyHalvingInterval <= 210000 ->
  0 <= issued nSubsidyHalvingInterval n <= MAX_MONEY /\
  exists v, GetBlockSubsidy (Z.of_nat n) nSubsidyHalvingInterval = Ok v /\ 0 <= v <= 50 * COIN.
Proof.
  intros Hi. split; [by apply issued_max|]. rewrite subsidy_spec by lia. eexists. split; [reflexivity|]. apply subsidy_range, Z.div_pos; lia.
Qed.

Lemma total_subsidy_bound_witness : 0 <= issued 210000 3 <= MAX_MONEY /\ issued 210000 3 = 150 * COIN.
Proof. split; [exact (proj1 (total_subsidy_bound 210000 3 ltac:(lia))) | reflexivity]. Defined.
