(* ===== verification/BlockCheck.v ===== *)
(** * Blocks on their own

    The checks of [src/validation.cpp] on a block that need no coins: [CheckBlock] with the header and the Merkle root, and
    the contextual checks of the header and of the lock times.  [Config] holds the settings the code reads.  The reason
    [bad-version] is given without the version number that the source appends. *)

From stdpp Require Import gmap.
From Stdlib Require Import String.
From S2P Require Import Prelude Common Uint256 BlockIndex Pow IntSer BigInt ScriptNum Script Hasher Sha2 Hash Flags Serialize Transaction Merkle Coins TxCheck.
#[local] Open Scope Z_scope.

(** ** Settings *)

Record ConsensusParams := {
  pow_params : Params;
  hashGenesisBlock : list Z;
  nSubsidyHalvingInterval : Z;
  BIP34Height : Z;
  BIP34Hash : list Z;
  BIP65Height : Z;
  BIP66Height : Z;
  CSVHeight : Z;
  uahfHeight : Z
}.

Record Config := {
  GetConsensus : ConsensusParams;
  script_config : CScriptConfig;
  GetGenesisActivationHeight : Z;
  GetMaxBlockSize : Z;
  GetMaxTxSize : bool -> bool -> Z;
  GetMaxTxSigOpsCountConsensusBeforeGenesis : Z;
  GetDisableBIP30Checks : bool
}.

Definition ONE_MEGABYTE : Z := 1000000.

Definition MAX_BLOCK_SIGOPS_PER_MB_BEFORE_GENESIS : Z := 20000.

Definition GetMaxBlockSigOpsConsensusBeforeGenesis (blockSize : Z) : Z :=
  let nMbRoundedUp := u64 (1 + u64 (blockSize - 1) / ONE_MEGABYTE) in u64 (nMbRoundedUp * MAX_BLOCK_SIGOPS_PER_MB_BEFORE_GENESIS).

Definition MEMPOOL_HEIGHT : Z := 0x7FFFFFFF.

Definition IsGenesisEnabled (config : Config) (nHeight : Z) : outcome coins_exn bool :=
  if nHeight =? MEMPOOL_HEIGHT then Throw (script_exn runtime_error) else Ok (GetGenesisActivationHeight config <=? nHeight).

Record BlockValidationOptions := { checkPoW : bool; checkMerkleRoot : bool; markChecked : bool; checkMaxBlockSize : bool }.

Definition new_BlockValidationOptions : BlockValidationOptions :=
  {| checkPoW := true; checkMerkleRoot := true; markChecked := false; checkMaxBlockSize := true |}.

(** ** [CheckBlock] *)

(** [state.Invalid(false, state.GetRejectCode(), state.GetRejectReason(), ...)] after a failure. *)

Definition or_mark (c : checking) : checking := fun st =>
  '(b, st) ← c st; if (b : bool) then Ok (true, st) else Ok (Invalid false (chRejectCode st) (strRejectReason st) st).

Section block.
Context `{BN_API} (l : layout) (config : Config).

Definition CheckBlockHeader (block : CBlockHeader) (options : BlockValidationOptions) : checking :=
  if checkPoW options then
    with_outcome (of_stream (GetBlockHash block)) (fun hash =>
      if negb (CheckProofOfWork hash (hdr_nBits block) (pow_params (GetConsensus config))) then reject 50 REJECT_INVALID "high-hash" else accept)
  else accept.

Definition check_merkle_root (block : CBlock) : checking :=
  with_outcome (of_stream (BlockMerkleRoot l block)) (fun '(hashMerkleRoot2, mutated) =>
    if negb (bool_decide (hdr_hashMerkleRoot (block_header block) = hashMerkleRoot2)) then fun st => Ok (CorruptionOrDoS "bad-txnmrklroot" st)
    else if (mutated : bool) then fun st => Ok (CorruptionOrDoS "bad-txns-duplicate" st)
    else accept).

Definition new_CTransaction : CTransaction := {| tx_nVersion := 2; vin := []; vout := []; tx_nLockTime := 0 |}.

Definition MIN_TRANSACTION_SIZE : outcome coins_exn Z := GetSerializeSize (CTransaction_codec l) new_CTransaction.

(** The loop over the transactions: [tx] has been checked, [rest] has not. *)

Fixpoint check_txs (maxSigOps maxTxSize : Z) (isGenesisEnabled : bool) (nMaxSigOps nSigOps : Z) (tx : CTransaction) (rest : list CTransaction) : checking :=
  let next nSigOps : checking :=
    match rest with
    | [] => accept
    | tx :: rest =>
        and_then (or_mark (CheckRegularTransaction l maxSigOps maxTxSize isGenesisEnabled tx))
          (check_txs maxSigOps maxTxSize isGenesisEnabled nMaxSigOps nSigOps tx rest)
    end in
  if negb isGenesisEnabled then
    with_outcome (of_script (GetSigOpCountWithoutP2SH tx false)) (fun '(n, sigOpCountError) =>
      let nSigOps := u64 (nSigOps + n) in
      if sigOpCountError || (nMaxSigOps <? nSigOps) then reject 100 REJECT_INVALID "bad-blk-sigops" else next nSigOps)
  else next nSigOps.

Definition CheckBlock_checks (block : CBlock) (blockHeight : Z) (options : BlockValidationOptions) : checking :=
  and_then (CheckBlockHeader (block_header block) options)
  (and_then (if checkMerkleRoot options then check_merkle_root block else accept)
  (match vtx block with
   | [] => reject 100 REJECT_INVALID "bad-cb-missing"
   | coinbase :: rest =>
       with_outcome MIN_TRANSACTION_SIZE (fun minSize =>
       if checkMaxBlockSize options && (0 <? minSize) && (GetMaxBlockSize config / minSize <? Z.of_nat (List.length (vtx block)))
       then reject 100 REJECT_INVALID "bad-blk-length"
       else with_outcome (GetSerializeSize (CBlock_codec l) block) (fun currentBlockSize =>
         if checkMaxBlockSize options && (GetMaxBlockSize config <? currentBlockSize) then reject 100 REJECT_INVALID "bad-blk-length"
         else with_outcome (IsGenesisEnabled config blockHeight) (fun isGenesisEnabled =>
           let maxSigOps := GetMaxTxSigOpsCountConsensusBeforeGenesis config in
           let maxTxSize := GetMaxTxSize config isGenesisEnabled true in
           and_then (or_mark (CheckCoinbase l maxSigOps maxTxSize isGenesisEnabled coinbase))
             (check_txs maxSigOps maxTxSize isGenesisEnabled (GetMaxBlockSigOpsConsensusBeforeGenesis currentBlockSize) 0 coinbase rest))))
   end)).

(** The answer and [block.fChecked] afterwards. *)

Definition CheckBlock (block : CBlock) (fChecked : bool) (blockHeight : Z) (options : BlockValidationOptions) (st : CValidationState) :
    outcome coins_exn (bool * bool * CValidationState) :=
  if fChecked then Ok (true, fChecked, st)
  else
    '(b, st) ← CheckBlock_checks block blockHeight options st;
    Ok (b, b && ((checkPoW options && checkMerkleRoot options) || markChecked options), st).

(** ** Checks in context *)

Definition MAX_FUTURE_BLOCK_TIME : Z := 2 * 60 * 60.

(** [mapBlockIndex.Get]. *)

Context (h : heap) (mapBlockIndex : list Z -> option ptr).

Definition height_of (p : ptr) : outcome coins_exn Z := match h !! p with Some b => Ok (nHeight b) | None => Abort end.

Definition median_of (p : ptr) : outcome coins_exn Z := match GetMedianTimePast h p with Some t => Ok t | None => Abort end.

(** [Checkpoints::CheckBlock] and [Checkpoints::GetLastCheckpoint]; the checkpoints are sorted by height. *)

Definition Checkpoints_CheckBlock (checkpoints : list (Z * list Z)) (nHeight : Z) (hash : list Z) : bool :=
  match List.find (fun c => c.1 =? nHeight) checkpoints with Some c => bool_decide (hash = c.2) | None => true end.

Fixpoint last_checkpoint (reversed : list (Z * list Z)) : option ptr :=
  match reversed with
  | [] => None
  | (_, hash) :: reversed => match mapBlockIndex hash with Some p => Some p | None => last_checkpoint reversed end
  end.

Definition GetLastCheckpoint (checkpoints : list (Z * list Z)) : option ptr := last_checkpoint (rev checkpoints).

Definition CheckIndexAgainstCheckpoint (pindexPrev : ptr) (checkpoints : list (Z * list Z)) (hash : list Z) : checking :=
  with_outcome (height_of pindexPrev) (fun prevHeight =>
  let nHeight := prevHeight + 1 in
  if negb (Checkpoints_CheckBlock checkpoints nHeight hash) then reject 100 0x43 "checkpoint mismatch"
  else
    match GetLastCheckpoint checkpoints with
    | Some pcheckpoint =>
        with_outcome (height_of pcheckpoint) (fun height =>
          if nHeight <? height then reject 100 0x43 "bad-fork-prior-to-checkpoint" else accept)
    | None => accept
    end).

(** The predecessor is dereferenced, so that there has to be one. *)

Definition ContextualCheckBlockHeader (block : CBlockHeader) (pindexPrev : option ptr) (nAdjustedTime : Z) : checking :=
  match pindexPrev with
  | None => fun _ => Abort
  | Some prev =>
      with_outcome (height_of prev) (fun prevHeight =>
      let nHeight := prevHeight + 1 in
      let params := GetConsensus config in
      match GetNextWorkRequired h pindexPrev block (pow_params params) with
      | None => fun _ => Abort
      | Some nextBits =>
          if negb (hdr_nBits block =? nextBits) then reject 100 REJECT_INVALID "bad-diffbits"
          else with_outcome (median_of prev) (fun nMedianTimePast =>
            if hdr_nTime block <=? nMedianTimePast then reject 0 REJECT_INVALID "time-too-old"
            else if nAdjustedTime + MAX_FUTURE_BLOCK_TIME <? hdr_nTime block then reject 0 REJECT_INVALID "time-too-new"
            else if ((hdr_nVersion block <? 2) && (BIP34Height params <=? nHeight)) ||
                    ((hdr_nVersion block <? 3) && (BIP66Height params <=? nHeight)) ||
                    ((hdr_nVersion block <? 4) && (BIP65Height params <=? nHeight)) then reject 0 REJECT_OBSOLETE "bad-version"
            else accept)
      end)
  end.

Definition ContextualCheckTransaction (tx : CTransaction) (nHeight nLockTimeCutoff : Z) (fromBlock : bool) : checking := fun st =>
  if negb (IsFinalTx tx nHeight nLockTimeCutoff) then
    let st := SetNonFinal st in
    enabled ← (if negb fromBlock then IsGenesisEnabled config nHeight else Ok false);
    if (enabled : bool) then Ok (false, st) else reject 10 REJECT_INVALID "bad-txns-nonfinal" st
  else Ok (true, st).

Fixpoint check_final (nHeight nLockTimeCutoff : Z) (vtx : list CTransaction) : checking :=
  match vtx with
  | [] => accept
  | tx :: vtx => and_then (ContextualCheckTransaction tx nHeight nLockTimeCutoff true) (check_final nHeight nLockTimeCutoff vtx)
  end.

(** The script of the coinbase's input; a block without one is an out of range access. *)

Definition ContextualCheckBlock (block : CBlock) (pindexPrev : option ptr) : checking :=
  with_outcome (match pindexPrev with None => Ok (0, 0) | Some p => n ← height_of p; t ← median_of p; Ok (n + 1, t) end) (fun '(nHeight, nMedianTimePast) =>
  let params := GetConsensus config in
  with_outcome (GetSerializeSize (CBlock_codec l) block) (fun currentBlockSize =>
  if GetMaxBlockSize config <? currentBlockSize then reject 100 REJECT_INVALID "bad-blk-length"
  else
    let nLockTimeCutoff := if CSVHeight params <=? nHeight then nMedianTimePast else hdr_nTime (block_header block) in
    and_then (check_final nHeight nLockTimeCutoff (vtx block))
      (if BIP34Height params <=? nHeight then
         match vtx block with
         | {| vin := txin :: _ |} :: _ =>
             if starts_with (push_int64 nHeight) (scriptSig txin) then accept else reject 100 REJECT_INVALID "bad-cb-height"
         | _ => fun _ => Abort
         end
       else accept))).

Definition ContextualCheckTransactionForCurrentBlock (tx : CTransaction) (nChainActiveHeight nMedianTimePast flags adjustedTime : Z) : checking :=
  let flags := Z.max flags 0 in
  ContextualCheckTransaction tx (nChainActiveHeight + 1)
    (if negb (Z.land flags LOCKTIME_MEDIAN_TIME_PAST =? 0) then nMedianTimePast else adjustedTime) false.

(** Topological order: no transaction after one that spends it. *)

Fixpoint ttor_loop (usedInputs : gset (list Z)) (vtx : list (list Z * CTransaction)) : bool :=
  match vtx with
  | [] => true
  | (txid, tx) :: vtx =>
      if decide (txid ∈ usedInputs) then false
      else ttor_loop (foldl (fun s i => if negb (outpoint_IsNull (prevout i)) then {[ outpoint_txid (prevout i) ]} ∪ s else s) usedInputs (vin tx)) vtx
  end.

Definition CheckBlockTTOROrder (block : CBlock) : outcome coins_exn bool :=
  ids ← of_stream (block_leaves l (vtx block)); Ok (ttor_loop ∅ (zip ids (vtx block))).

Definition P2SH_ACTIVATION_TIME : Z := 1333234914.

Definition IsUAHFenabled (nHeight : Z) : bool := uahfHeight (GetConsensus config) <=? nHeight.

Definition GetBlockScriptFlags (pChainTip : ptr) : outcome coins_exn Z :=
  let params := GetConsensus config in
  tipHeight ← height_of pChainTip;
  tipTime ← median_of pChainTip;
  isGenesisEnabled ← IsGenesisEnabled config (tipHeight + 1);
  let flag (b : bool) f flags := if b then Z.lor flags f else flags in
  Ok (flag isGenesisEnabled SCRIPT_VERIFY_SIGPUSHONLY (flag isGenesisEnabled SCRIPT_GENESIS
     (flag (IsDAAEnabled (pow_params params) tipHeight) SCRIPT_VERIFY_NULLFAIL (flag (IsDAAEnabled (pow_params params) tipHeight) SCRIPT_VERIFY_LOW_S
     (flag (IsUAHFenabled tipHeight) SCRIPT_ENABLE_SIGHASH_FORKID (flag (IsUAHFenabled tipHeight) SCRIPT_VERIFY_STRICTENC
     (flag (CSVHeight params <=? tipHeight + 1) SCRIPT_VERIFY_CHECKSEQUENCEVERIFY
     (flag (BIP65Height params <=? tipHeight + 1) SCRIPT_VERIFY_CHECKLOCKTIMEVERIFY
     (flag (BIP66Height params <=? tipHeight + 1) SCRIPT_VERIFY_DERSIG
     (flag (P2SH_ACTIVATION_TIME <=? tipTime) SCRIPT_VERIFY_P2SH SCRIPT_VERIFY_NONE)))))))))).

End block.

(** ** What [CheckBlock] decides *)

Lemma decides_mark c P : decides c P -> decides (or_mark c) P.
Proof.
  intros Hc st. destruct (Hc st) as (b & st1 & E & Hb). unfold or_mark. rewrite E. destruct b; cbn; [by exists true, st1|].
  destruct Hb as [HP [Hm Hd]]. eexists false, _. split; [reflexivity|]. split; [done|]. unfold rejected, Invalid, DoS. cbn.
  destruct (decide _); cbn; split; first [done | lia].
Qed.

Lemma decides_corruption reason (P : Prop) : ~ P -> decides (fun st => Ok (CorruptionOrDoS reason st)) P.
Proof.
  intros HP st. eexists false, _. split; [reflexivity|]. split; [done|]. unfold rejected, CorruptionOrDoS, DoS, SetCorruption. cbn.
  destruct (decide _) as [E|]; cbn; split; first [done | congruence | lia].
Qed.

(** A limit that is tested when [on]. *)

Lemma decides_limit (on : bool) x y level code reason c Q : 0 <= level -> decides c Q ->
  decides (if on && (y <? x) then reject level code reason else c) ((on = true -> x <= y) /\ Q).
Proof.
  intros Hl Hc. destruct on; cbn [andb].
  - destruct (Z.ltb_spec y x); [apply decides_reject; [done|]; intros [Hx _]; specialize (Hx eq_refl); lia|].
    eapply decides_iff; [|exact Hc]. split; [intros HQ; split; [lia | done] | tauto].
  - eapply decides_iff; [|exact Hc]. split; [by split | tauto].
Qed.

Section spec.
Context `{BN_API} (l : layout) (Hl : layout_ok l) (config : Config).

Fixpoint sigops_within (nMax n : Z) (txs : list CTransaction) : Prop :=
  match txs with
  | [] => True
  | tx :: txs => exists k, GetSigOpCountWithoutP2SH tx false = Ok (k, false) /\ u64 (n + k) <= nMax /\ sigops_within nMax (u64 (n + k)) txs
  end.

(** The identifiers of the transactions. *)

Lemma block_leaves_total vtx : Forall tx_ok vtx -> exists ids, block_leaves l vtx = Ok ids /\ List.length ids = List.length vtx /\
  Forall2 (fun tx id => GetId l tx = Ok id) vtx ids.
Proof.
  induction 1 as [|tx vtx Htx _ (ids & E & Hlen & Hf)]; [by exists []|]. unfold block_leaves in *. cbn [foldr].
  assert (exists id, GetId l tx = Ok id) as [id Eid].
  { unfold GetId, SerializeHash. destruct (codec_write (codec_ok := CTransaction_codec_ok l Hl) tx Htx) as (b & -> & _). by eexists. }
  rewrite Eid, E. cbn. eexists. split; [reflexivity|]. split; [cbn; lia | by constructor].
Qed.

Definition roots_match (block : CBlock) : Prop :=
  exists ids, block_leaves l (vtx block) = Ok ids /\ hdr_hashMerkleRoot (block_header block) = merkle_root ids /\
    ~ equal_siblings ids (Z.of_nat (List.length ids)).

Lemma check_merkle_root_decides block : Forall tx_ok (vtx block) -> Z.of_nat (List.length (vtx block)) <= 2 ^ 31 ->
  decides (check_merkle_root l block) (roots_match block).
Proof.
  intros Htx Hlen. destruct (block_leaves_total _ Htx) as (ids & E & Hids & _). unfold check_merkle_root, BlockMerkleRoot, roots_match. rewrite E. cbn [mbind outcome_bind].
  destruct (ComputeMerkleRoot_spec ids ltac:(rewrite Hids; lia)) as (m & -> & Hm). eapply decides_with; [reflexivity|]. cbn beta iota.
  case_bool_decide as Er; cbn [negb]; [|apply decides_corruption; intros (ids' & [= <-] & ? & _); done].
  destruct m; [apply decides_corruption; intros (ids' & [= <-] & _ & Hn); by apply Hn, Hm|].
  apply decides_accept. exists ids. split_and!; [done..|]. intros Hs. by apply Hm in Hs.
Qed.

Definition regulars_ok (maxSigOps maxTxSize : Z) (g : bool) (nMax n : Z) (tx : CTransaction) (rest : list CTransaction) : Prop :=
  Forall (regular_ok l maxSigOps maxTxSize g) rest /\ (g = false -> sigops_within nMax n (tx :: rest)).

Lemma check_txs_decides maxSigOps maxTxSize g nMax rest : Forall tx_ok rest -> forall n tx, tx_ok tx ->
  decides (check_txs l maxSigOps maxTxSize g nMax n tx rest) (regulars_ok maxSigOps maxTxSize g nMax n tx rest).
Proof.
  induction 1 as [|tx' rest Htx' Hrest IH]; intros n tx Htx; destruct (sigops_total tx false Htx) as (k & e & Ek); unfold regulars_ok; cbn [check_txs].
  - destruct g; cbn [negb]; [apply decides_accept; by split|]. rewrite Ek. eapply decides_with; [reflexivity|]. cbn beta iota.
    destruct (e || _) eqn:Eb.
    + apply decides_reject; [lia|]. intros [_ Hs]. destruct (Hs eq_refl) as (k' & E' & Hle & _). rewrite Ek in E'. injection E' as -> ->.
      apply Z.ltb_lt in Eb. lia.
    + apply orb_false_elim in Eb as [-> Hle%Z.ltb_ge]. apply decides_accept. split; [done|]. intros _. by exists k.
  - assert (forall m, decides (and_then (or_mark (CheckRegularTransaction l maxSigOps maxTxSize g tx')) (check_txs l maxSigOps maxTxSize g nMax m tx' rest))
      (Forall (regular_ok l maxSigOps maxTxSize g) (tx' :: rest) /\ (g = false -> sigops_within nMax m (tx' :: rest)))) as Hnext.
    { intros m. eapply decides_iff; [|apply decides_and; [by apply decides_mark, CheckRegularTransaction_decides | intros _; by apply IH]].
      unfold regulars_ok. rewrite list.Forall_cons. tauto. }
    destruct g; cbn [negb]; [eapply decides_iff; [|apply (Hnext n)]; split; intros [? ?]; split; done|]. rewrite Ek. eapply decides_with; [reflexivity|]. cbn beta iota.
    destruct (e || _) eqn:Eb.
    + apply decides_reject; [lia|]. intros [_ Hs]. destruct (Hs eq_refl) as (k' & E' & Hle & _). rewrite Ek in E'. injection E' as -> ->.
      apply Z.ltb_lt in Eb. lia.
    + apply orb_false_elim in Eb as [-> Hle%Z.ltb_ge]. eapply decides_iff; [|apply Hnext]. split.
      * intros [Hr Hs]. split; [done|]. intros _. exists k. split_and!; [done | done | by apply Hs].
      * intros [Hr Hs]. split; [done|]. intros _. destruct (Hs eq_refl) as (k' & E' & _ & Hw). rewrite Ek in E'. injection E' as <-. exact Hw.
Qed.

Definition pow_ok (block : CBlockHeader) : Prop :=
  exists hash, GetBlockHash block = Ok hash /\ CheckProofOfWork hash (hdr_nBits block) (pow_params (GetConsensus config)) = true.

Definition sizes_ok (block : CBlock) (size : Z) : Prop :=
  Z.of_nat (List.length (vtx block)) <= GetMaxBlockSize config / 10 /\ size <= GetMaxBlockSize config.

Definition txs_ok (size height : Z) (coinbase : CTransaction) (rest : list CTransaction) : Prop :=
  let g := GetGenesisActivationHeight config <=? height in
  let maxSigOps := GetMaxTxSigOpsCountConsensusBeforeGenesis config in
  let maxTxSize := GetMaxTxSize config g true in
  coinbase_ok l maxSigOps maxTxSize g coinbase /\ regulars_ok maxSigOps maxTxSize g (GetMaxBlockSigOpsConsensusBeforeGenesis size) 0 coinbase rest.

Definition block_valid (block : CBlock) (height : Z) (options : BlockValidationOptions) : Prop :=
  (checkPoW options = true -> pow_ok (block_header block)) /\
  (checkMerkleRoot options = true -> roots_match block) /\
  exists coinbase rest size, vtx block = coinbase :: rest /\ GetSerializeSize (CBlock_codec l) block = Ok size /\
    (checkMaxBlockSize options = true -> sizes_ok block size) /\ txs_ok size height coinbase rest.

Lemma CheckBlockHeader_decides block options : header_ok block ->
  decides (CheckBlockHeader config block options) (checkPoW options = true -> pow_ok block).
Proof.
  intros Hh. unfold CheckBlockHeader, pow_ok. destruct (checkPoW options); [|by apply decides_accept].
  unfold GetBlockHash, SerializeHash. destruct (codec_write (codec_ok := CBlockHeader_codec_ok) block Hh) as (b & -> & _). cbn [mbind outcome_bind].
  eapply decides_with; [reflexivity|]. cbn beta. destruct (CheckProofOfWork _ _ _) eqn:E; cbn [negb].
  - apply decides_accept. intros _. by eexists.
  - apply decides_reject; [lia|]. intros Hp. destruct (Hp eq_refl) as (hash & [= <-] & E'). congruence.
Qed.

Lemma genesis_enabled height : height <> MEMPOOL_HEIGHT -> IsGenesisEnabled config height = Ok (GetGenesisActivationHeight config <=? height).
Proof. intros Hh. unfold IsGenesisEnabled. by rewrite (proj2 (Z.eqb_neq _ _)). Qed.

Lemma min_size : MIN_TRANSACTION_SIZE l = Ok 10.
Proof. reflexivity. Qed.

Lemma CheckBlock_checks_decides block height options : Transaction.block_ok block -> Z.of_nat (List.length (vtx block)) <= 2 ^ 31 -> height <> MEMPOOL_HEIGHT ->
  decides (CheckBlock_checks l config block height options) (block_valid block height options).
Proof.
  intros Hok Hlen Hheight. pose proof Hok as (Hh & Htx & _). unfold CheckBlock_checks, block_valid.
  apply decides_and; [by apply CheckBlockHeader_decides|]. intros _. apply decides_and.
  { destruct (checkMerkleRoot options); [|by apply decides_accept]. eapply decides_iff; [|by apply check_merkle_root_decides]. tauto. }
  intros _. destruct (vtx block) as [|cb rest] eqn:Ev; [apply decides_reject; [lia | intros (? & ? & ? & [=] & _)]|].
  assert (exists size, GetSerializeSize (CBlock_codec l) block = Ok size) as [size Es].
  { unfold GetSerializeSize. destruct (codec_write (codec_ok := CBlock_codec_ok l Hl) block Hok) as (b & -> & _). by eexists. }
  apply (decides_iff _ ((checkMaxBlockSize options = true -> Z.of_nat (List.length (cb :: rest)) <= GetMaxBlockSize config / 10) /\
    (checkMaxBlockSize options = true -> size <= GetMaxBlockSize config) /\ txs_ok size height cb rest)).
  { unfold sizes_ok. rewrite Ev, Es. split; [intros (H1 & H2 & H3); exists cb, rest, size; tauto|].
    intros (? & ? & ? & [= <- <-] & [= <-] & H3 & H4). tauto. }
  eapply decides_with; [apply min_size|]. change (0 <? 10) with true. rewrite andb_true_r.
  apply decides_limit; [lia|]. eapply decides_with; [exact Es|]. apply decides_limit; [lia|].
  eapply decides_with; [by apply genesis_enabled|]. apply Forall_cons_1 in Htx as [Hcb Hrest]. apply decides_and; [by apply decides_mark, CheckCoinbase_decides|].
  intros _. by apply check_txs_decides.
Qed.

End spec.

(** ** Topological order *)

Definition spent_ids (tx : CTransaction) : list (list Z) := map (fun i => outpoint_txid (prevout i)) (filter (fun i => outpoint_IsNull (prevout i) = false) (vin tx)).

Lemma used_inputs_spec inputs : forall (s : gset (list Z)) id,
  id ∈ foldl (fun s i => if negb (outpoint_IsNull (prevout i)) then {[ outpoint_txid (prevout i) ]} ∪ s else s) s inputs <->
  id ∈ s \/ id ∈ map (fun i => outpoint_txid (prevout i)) (filter (fun i => outpoint_IsNull (prevout i) = false) inputs).
Proof.
  induction inputs as [|i inputs IH]; intros s id; cbn [foldl].
  - rewrite (filter_nil _). cbn. rewrite elem_of_nil. tauto.
  - rewrite IH, filter_cons. destruct (outpoint_IsNull (prevout i)) eqn:En; cbn [negb].
    + rewrite decide_False by done. done.
    + rewrite decide_True by done. cbn [map]. rewrite elem_of_cons, elem_of_union, elem_of_singleton. tauto.
Qed.

Lemma ttor_loop_spec vtx : forall used, ttor_loop used vtx = true <->
  (forall id tx, (id, tx) ∈ vtx -> id ∉ used) /\
  (forall i j id tx id' tx', (i < j)%nat -> vtx !! i = Some (id, tx) -> vtx !! j = Some (id', tx') -> id' ∉ spent_ids tx).
Proof.
  induction vtx as [|[id tx] vtx IH]; intros used; cbn [ttor_loop].
  { split; [intros _|done]. split; [intros ? ? Hin; by apply not_elem_of_nil in Hin | intros ? ? ? ? ? ? _ Hi; done]. }
  destruct (decide (id ∈ used)) as [Hu|Hu].
  { split; [done|]. intros [H1 _]. destruct (H1 id tx); [by left | done]. }
  rewrite IH. setoid_rewrite used_inputs_spec. fold (spent_ids tx). split.
  - intros [H1 H2]. split.
    + intros id' tx' [[= -> ->]|Hin]%elem_of_cons; [done|]. intros Hx. apply (H1 id' tx' Hin). by left.
    + intros [|i] [|j] ? ? id' tx' Hij Hi Hj; [lia | | lia |]; cbn in *.
      * injection Hi as <- <-. intros Hx. apply (H1 id' tx'); [by eapply list_elem_of_lookup_2 | by right].
      * eapply (H2 i j); [lia | done | done].
  - intros [H1 H2]. split.
    + intros id' tx' Hin [Hx|Hx]; [by apply (H1 id' tx'); [right|]|]. apply list_elem_of_lookup in Hin as [j Hj]. by apply (H2 0%nat (S j) id tx id' tx' ltac:(lia) eq_refl Hj).
    + intros i j ? ? ? ? Hij Hi Hj. by eapply (H2 (S i) (S j)); [lia | |].
Qed.

(** ** Properties *)

(** C17. [CheckBlock] decides the validity of a block on its own.  It always answers, and it accepts exactly when (as far as
    the options ask for it) the hash meets the claimed target, the Merkle root of the header is the level by level root of
    the transaction ids without equal siblings, and the block is not too large; when the first transaction is a valid
    coinbase and every other one a valid regular transaction; and when, before Genesis, the signature operations stay
    within the limit for the block size.  The state is marked when it rejects, and [fChecked] is set only by an acceptance. *)

Theorem CheckBlock_correct `{BN_API} (l : layout) (config : Config) (block : CBlock) (height : Z) (options : BlockValidationOptions) (st : CValidationState) :
  layout_ok l -> Transaction.block_ok block -> Z.of_nat (List.length (vtx block)) <= 2 ^ 31 -> height <> MEMPOOL_HEIGHT ->
  exists b fChecked st', CheckBlock l config block false height options st = Ok (b, fChecked, st') /\
    (b = true <-> block_valid l config block height options) /\ (if b then st' = st else rejected st st') /\ (fChecked = true -> b = true).
Proof.
  intros Hl Hok Hlen Hh. destruct (CheckBlock_checks_decides l Hl config block height options Hok Hlen Hh st) as (b & st' & E & Hb).
  unfold CheckBlock. rewrite E. cbn. eexists b, _, st'. split; [reflexivity|]. destruct b; destruct Hb as [Hb Hst]; (split_and!; [split; done | done | done]).
Qed.

Definition demo_consensus : ConsensusParams :=
  {| pow_params := {| daaHeight := 0; powLimit := replicate 32 255; fPowAllowMinDifficultyBlocks := false; fPowNoRetargeting := false;
                      nPowTargetSpacing := 600; nPowTargetTimespan := 1209600 |};
     hashGenesisBlock := uint256_null; nSubsidyHalvingInterval := 210000; BIP34Height := 0; BIP34Hash := uint256_null; BIP65Height := 0; BIP66Height := 0;
     CSVHeight := 0; uahfHeight := 0 |}.

Definition demo_limits : CScriptConfig :=
  {| GetMaxOpsPerScript _ _ := 500; GetMaxScriptNumLength _ _ := 4; GetMaxScriptSize _ _ := 10000; GetMaxPubKeysPerMultiSig _ _ := 20;
     GetMaxStackMemoryUsage _ _ := 100000 |}.

Definition demo_Config : Config :=
  {| GetConsensus := demo_consensus; script_config := demo_limits; GetGenesisActivationHeight := 100; GetMaxBlockSize := 1000000;
     GetMaxTxSize _ _ := 1000000; GetMaxTxSigOpsCountConsensusBeforeGenesis := 20000; GetDisableBIP30Checks := false |}.

(** A coinbase that pays to a script anyone can satisfy. *)

Definition demo_coinbase (n value : Z) : CTransaction :=
  {| tx_nVersion := 1;
     vin := [{| prevout := {| outpoint_txid := uint256_null; outpoint_n := 0xffffffff |}; scriptSig := [1; n]; nSequence := SEQUENCE_FINAL |}];
     vout := [{| nValue := value; scriptPubKey := [0x51] |}]; tx_nLockTime := 0 |}.

Definition demo_unmined (txs : list CTransaction) : CBlock :=
  {| block_header := {| hdr_nVersion := 4; hdr_hashPrevBlock := uint256_null; hdr_hashMerkleRoot := uint256_null; hdr_nTime := 7; hdr_nBits := 8; hdr_nNonce := 9 |};
     vtx := txs |}.

Definition demo_options : BlockValidationOptions := {| checkPoW := false; checkMerkleRoot := false; markChecked := false; checkMaxBlockSize := true |}.

Lemma demo_unmined_ok : Transaction.block_ok (demo_unmined [demo_coinbase 7 50]).
Proof. repeat split; try done; repeat constructor; done. Qed.

Lemma CheckBlock_correct_witness : exists b f st,
  CheckBlock (H := Z_BN) demo_layout demo_Config (demo_unmined [demo_coinbase 7 50]) false 5 demo_options new_CValidationState = Ok (b, f, st) /\ b = true /\
  block_valid (H := Z_BN) demo_layout demo_Config (demo_unmined [demo_coinbase 7 50]) 5 demo_options.
Proof.
  destruct (CheckBlock_correct (H := Z_BN) demo_layout demo_Config (demo_unmined [demo_coinbase 7 50]) 5 demo_options new_CValidationState)
    as (b & f & st & E & Hb & _); [apply demo_layout_ok | apply demo_unmined_ok | vm_compute; discriminate | discriminate|].
  exists b, f, st. destruct b; [|vm_compute in E; discriminate E]. split; [exact E|]. split; [reflexivity|]. by apply Hb.
Defined.
