(* ===== verification/Connect.v ===== *)
(** * Connecting and disconnecting blocks

    [UpdateCoins], [CheckTxInputs], [CheckInputs] and [BlockConnector] of [src/validation.cpp], and [ApplyBlockUndo] of
    [src/processing_block_index.cpp], on the cached view of [Coins].  Logging, timing and the publication of invalid
    transactions are left out. *)

From stdpp Require Import gmap.
From Stdlib Require Import String.
From S2P Require Import Prelude Common Uint256 BlockIndex Pow IntSer BigInt ScriptNum Script Hasher Sha2 Hash Flags SigEnc Serialize Transaction Merkle Coins Compressor TxCheck BlockCheck.
#[local] Open Scope Z_scope.

(** ** Spending and creating coins *)

Section update.
Context `{MemUsage} {V : Type} `{ICoinsView V}.

(** The loop that marks the inputs spent, with the coins moved to [txundo]. *)

Fixpoint spend_inputs (inputs : list CTxIn) : cached (list CoinImpl) :=
  match inputs with
  | [] => mret []
  | txin :: inputs =>
      '(is_spent, moved) ← SpendCoin (prevout txin) true;
      _ ← lift (assert_ is_spent);
      rest ← spend_inputs inputs;
      mret (default new_CoinImpl moved :: rest)
  end.

Definition UpdateCoins (tx : CTransaction) (txid : list Z) (nHeight genesisActivationHeight : Z) : cached CTxUndo :=
  vprevout ← (if negb (IsCoinBase tx) then spend_inputs (vin tx) else mret []);
  _ ← AddCoins tx txid nHeight genesisActivationHeight false;
  mret vprevout.

(** ** Undoing *)

Inductive DisconnectResult := DISCONNECT_OK | DISCONNECT_UNCLEAN | DISCONNECT_FAILED.

Definition UndoCoinSpend (undo : CoinImpl) (out : COutPoint) (genesisActivationHeight : Z) : cached DisconnectResult :=
  have ← HaveCoin out;
  let fClean := negb have in
  _ ← AddCoin out (MakeOwning undo) (negb fClean) genesisActivationHeight;
  mret (if fClean then DISCONNECT_OK else DISCONNECT_UNCLEAN).

(** The outputs of a transaction are spent; the result is [fClean]. *)

Fixpoint undo_outputs (txid : list Z) (isGenesisEnabled : bool) (o : nat) (vout : list CTxOut) (fClean : bool) : cached bool :=
  match vout with
  | [] => mret fClean
  | out :: vout =>
      if IsUnspendable (scriptPubKey out) isGenesisEnabled then undo_outputs txid isGenesisEnabled (S o) vout fClean
      else
        '(is_spent, coin) ← SpendCoin {| outpoint_txid := txid; outpoint_n := u32 (Z.of_nat o) |} true;
        let mismatch := negb is_spent || negb (bool_decide (out = coin_out (default new_CoinImpl coin))) in
        undo_outputs txid isGenesisEnabled (S o) vout (fClean && negb mismatch)
  end.

(** The inputs from the last to the first, each with its undo record; [None] is [DISCONNECT_FAILED]. *)

Fixpoint undo_inputs (l : list (CTxIn * CoinImpl)) (genesisActivationHeight : Z) (fClean : bool) : cached (option bool) :=
  match l with
  | [] => mret (Some fClean)
  | (txin, undo) :: l =>
      res ← UndoCoinSpend undo (prevout txin) genesisActivationHeight;
      match res with
      | DISCONNECT_FAILED => mret None
      | DISCONNECT_UNCLEAN => undo_inputs l genesisActivationHeight false
      | DISCONNECT_OK => undo_inputs l genesisActivationHeight fClean
      end
  end.

(** The transactions with their ids and undo records from the last to the first; the coinbase has none.  [shutdown] is
    the cancellation token as it is polled before each transaction. *)

Fixpoint undo_txs (shutdown : nat -> bool) (isGenesisEnabled : bool) (genesisActivationHeight : Z) (l : list (list Z * CTransaction * option CTxUndo)) (fClean : bool) : cached (option bool) :=
  match l with
  | [] => mret (Some fClean)
  | (txid, tx, undo) :: l =>
      if shutdown (List.length l) then mret None else
      fClean ← undo_outputs txid isGenesisEnabled 0 (vout tx) fClean;
      match undo with
      | None => undo_txs shutdown isGenesisEnabled genesisActivationHeight l fClean
      | Some txundo =>
          if negb (List.length txundo =? List.length (vin tx))%nat then mret None
          else
            res ← undo_inputs (rev (zip (vin tx) txundo)) genesisActivationHeight fClean;
            match res with
            | None => mret None
            | Some fClean => undo_txs shutdown isGenesisEnabled genesisActivationHeight l fClean
            end
      end
  end.

(** The block's transactions next to their undo records. *)

Definition with_undo (ids : list (list Z)) (vtx : list CTransaction) (vtxundo : list CTxUndo) : list (list Z * CTransaction * option CTxUndo) :=
  zip (zip ids vtx) (None :: map Some vtxundo).

Definition ApplyBlockUndo (shutdown : nat -> bool) (l : layout) (config : Config) (blockUndo : CBlockUndo) (block : CBlock) (nHeight : Z) : cached DisconnectResult :=
  if negb (List.length blockUndo + 1 =? List.length (vtx block))%nat then mret DISCONNECT_FAILED
  else
    ids ← lift (of_stream (block_leaves l (vtx block)));
    isGenesisEnabled ← lift (IsGenesisEnabled config nHeight);
    res ← undo_txs shutdown isGenesisEnabled (GetGenesisActivationHeight config) (rev (with_undo ids (vtx block) blockUndo)) true;
    match (res : option bool) with
    | None => mret DISCONNECT_FAILED
    | Some fClean =>
        _ ← SetBestBlock (hdr_hashPrevBlock (block_header block));
        mret (if fClean then DISCONNECT_OK else DISCONNECT_UNCLEAN)
    end.

End update.

(** ** Checking the inputs *)

(** The block index and the node's settings that the connection of a block reads. *)

Record node := {
  block_heap : heap;
  mapBlockIndex : list Z -> option ptr;
  hash_of : ptr -> list Z;
  best_header : ptr;
  active_height : Z;
  hashAssumeValid : list Z;
  nMinimumChainWork : list Z
}.

(** A script to be verified: what [CScriptCheck] holds. *)

Record CScriptCheck := { check_script : list Z; check_amount : Z; check_tx : CTransaction; check_input : nat; check_flags : Z }.

Section checks.
Context `{MemUsage} {V : Type} `{ICoinsView V} `{BN_API} (l : layout) (config : Config) (env : node).

(** [CFrozenTXOCheck::Check] and [IsKeyInScriptCache]. *)

Context (frozen_Check : COutPoint -> CTransaction -> bool) (in_script_cache : CTransaction -> Z -> bool).

Definition COINBASE_MATURITY : Z := 100.

Fixpoint check_inputs_loop (tx : CTransaction) (nSpendHeight : Z) (inputs : list CTxIn) (nValueIn : Z) (st : CValidationState) :
    cached (option Z * CValidationState) :=
  match inputs with
  | [] => mret (Some nValueIn, st)
  | txin :: inputs =>
      if negb (frozen_Check (prevout txin) tx) then mret (None, (Invalid false REJECT_SOFT_CONSENSUS_FREEZE "bad-txns-inputs-frozen" st).2)
      else
        coin ← GetCoin (prevout txin) false;
        match coin with
        | None => lift Abort
        | Some coin =>
            _ ← lift (assert_ (negb (coin_IsSpent coin)));
            depth ← lift (if coin_IsCoinBase coin then int32_sum (nSpendHeight - coin_GetHeight coin) else Ok COINBASE_MATURITY);
            if depth <? COINBASE_MATURITY then mret (None, (Invalid false REJECT_INVALID "bad-txns-premature-spend-of-coinbase" st).2)
            else
              nValueIn ← lift (amount_add nValueIn (nValue (coin_out coin)));
              if negb (MoneyRange (nValue (coin_out coin))) || negb (MoneyRange nValueIn)
              then mret (None, (DoS 100 false REJECT_INVALID "bad-txns-inputvalues-outofrange" st).2)
              else check_inputs_loop tx nSpendHeight inputs nValueIn st
        end
  end.

(** [Consensus::CheckTxInputs], for a block. *)

Definition CheckTxInputs (tx : CTransaction) (nSpendHeight : Z) (st : CValidationState) : cached (bool * CValidationState) :=
  have ← HaveInputs tx;
  if negb have then mret (Invalid false 0 EmptyString st)
  else
    '(r, st) ← check_inputs_loop tx nSpendHeight (vin tx) 0 st;
    match r with
    | None => mret (false, st)
    | Some nValueIn =>
        nValueOut ← lift (of_script (GetValueOut tx));
        if nValueIn <? nValueOut then mret (DoS 100 false REJECT_INVALID "bad-txns-in-belowout" st)
        else
          nTxFee ← lift (amount_sub nValueIn nValueOut);
          if nTxFee <? 0 then mret (DoS 100 false REJECT_INVALID "bad-txns-fee-negative" st)
          else
            nFees ← lift (amount_add 0 nTxFee);
            if negb (MoneyRange nFees) then mret (DoS 100 false REJECT_INVALID "bad-txns-fee-outofrange" st) else mret (true, st)
    end.

Definition GetInputScriptBlockHeight (coinHeight : Z) : Z := if coinHeight =? MEMPOOL_HEIGHT then active_height env + 1 else coinHeight.

(** The height part of [GetSpendHeightAndMTP]. *)

Definition GetSpendHeight : cached Z :=
  hash ← GetBestBlock;
  match mapBlockIndex env hash with
  | Some p => n ← lift (height_of (block_heap env) p); lift (int32_sum (n + 1))
  | None => lift Abort
  end.

(** [CheckInputScripts] when the check is put off. *)

Definition CheckInputScripts (scriptPubKey : list Z) (amount : Z) (tx : CTransaction) (input : nat) (coinHeight flags : Z) : outcome coins_exn CScriptCheck :=
  isGenesisEnabled ← IsGenesisEnabled config (GetInputScriptBlockHeight coinHeight);
  let perInputScriptFlags := if (isGenesisEnabled : bool) then SCRIPT_UTXO_AFTER_GENESIS else 0 in
  Ok {| check_script := scriptPubKey; check_amount := amount; check_tx := tx; check_input := input; check_flags := Z.lor flags perInputScriptFlags |}.

Fixpoint input_checks_loop (tx : CTransaction) (flags : Z) (i : nat) (inputs : list CTxIn) : cached (list CScriptCheck) :=
  match inputs with
  | [] => mret []
  | txin :: inputs =>
      coin ← GetCoinWithScript (prevout txin);
      match coin with
      | None => lift Abort
      | Some coin =>
          _ ← lift (assert_ (negb (coin_IsSpent coin)));
          check ← lift (CheckInputScripts (scriptPubKey (coin_out coin)) (nValue (coin_out coin)) tx i (coin_GetHeight coin) flags);
          checks ← input_checks_loop tx flags (S i) inputs;
          mret (check :: checks)
      end
  end.

(** [CheckInputs] as [BlockConnector] calls it: the scripts are collected, not run. *)

Definition CheckInputs (tx : CTransaction) (fScriptChecks : bool) (flags : Z) (st : CValidationState) : cached (bool * CValidationState * list CScriptCheck) :=
  _ ← lift (assert_ (negb (IsCoinBase tx)));
  spendHeight ← GetSpendHeight;
  '(ok, st) ← CheckTxInputs tx spendHeight st;
  if negb ok then mret (false, st, [])
  else if negb fScriptChecks then mret (true, st, [])
  else if in_script_cache tx flags then mret (true, st, [])
  else checks ← input_checks_loop tx flags 0 (vin tx); mret (true, st, checks).

(** ** Signature operations with P2SH *)

Fixpoint p2sh_sigops_loop (inputs : list CTxIn) (nSigOps : Z) : cached (Z * bool) :=
  match inputs with
  | [] => mret (nSigOps, false)
  | i :: inputs =>
      coin ← GetCoinWithScript (prevout i);
      match coin with
      | None => lift Abort
      | Some coin =>
          _ ← lift (assert_ (negb (coin_IsSpent coin)));
          genesisEnabled ← lift (if negb (coin_GetHeight coin =? MEMPOOL_HEIGHT) then IsGenesisEnabled config (coin_GetHeight coin) else Ok true);
          if (genesisEnabled : bool) then p2sh_sigops_loop inputs nSigOps
          else if IsP2SH (scriptPubKey (coin_out coin)) then
            '(n, sigOpCountError) ← lift (of_script (GetSigOpCount_P2SH (scriptPubKey (coin_out coin)) (scriptSig i) genesisEnabled));
            let nSigOps := u64 (nSigOps + n) in
            if (sigOpCountError : bool) then mret (nSigOps, true) else p2sh_sigops_loop inputs nSigOps
          else p2sh_sigops_loop inputs nSigOps
      end
  end.

Definition GetP2SHSigOpCount (tx : CTransaction) : cached (Z * bool) :=
  if IsCoinBase tx then mret (0, false) else p2sh_sigops_loop (vin tx) 0.

Definition GetTransactionSigOpCount (tx : CTransaction) (checkP2SH isGenesisEnabled : bool) : cached (Z * bool) :=
  '(nSigOps, sigOpCountError) ← lift (of_script (GetSigOpCountWithoutP2SH tx isGenesisEnabled));
  if (sigOpCountError : bool) then mret (nSigOps, true)
  else if IsCoinBase tx then mret (nSigOps, false)
  else if checkP2SH then '(n, sigOpCountError) ← GetP2SHSigOpCount tx; mret (u64 (nSigOps + n), sigOpCountError)
  else mret (nSigOps, false).

(** ** [BlockConnector] *)

Fixpoint prev_heights (inputs : list CTxIn) : cached (list Z) :=
  match inputs with
  | [] => mret []
  | i :: inputs =>
      coin ← GetCoin (prevout i) false;
      match coin with
      | None => lift Abort
      | Some coin => rest ← prev_heights inputs; mret (coin_GetHeight coin :: rest)
      end
  end.

(** What the loop over the transactions of a block carries along. *)

Record progress := { nSigOpsCount : Z; nFees : Z; vtxundo : list CTxUndo; vChecks : list CScriptCheck }.

(** What it reads. *)

Record connection := {
  conn_index : ptr;
  conn_height : Z;
  conn_genesis : bool;
  nLockTimeFlags : Z;
  conn_flags : Z;
  nMaxSigOps : Z;
  fScriptChecks : bool
}.

(** The inputs are there and their relative locks are over. *)

Definition check_available (cx : connection) (tx : CTransaction) (st : CValidationState) : cached (bool * CValidationState) :=
  if IsCoinBase tx then mret (true, st)
  else
    have ← HaveInputs tx;
    if negb have then mret (DoS 100 false REJECT_INVALID "bad-txns-inputs-missingorspent" st)
    else
      heights ← prev_heights (vin tx);
      ok ← lift (SequenceLocks (block_heap env) tx (nLockTimeFlags cx) heights (conn_index cx));
      if negb ok then mret (DoS 100 false REJECT_INVALID "bad-txns-nonfinal" st) else mret (true, st).

Definition check_sigops (cx : connection) (tx : CTransaction) (st : CValidationState) (nSigOpsCount : Z) : cached (bool * CValidationState * Z) :=
  if negb (conn_genesis cx) then
    '(txSigOpsCount, sigOpCountError) ← GetTransactionSigOpCount tx (negb (Z.land (conn_flags cx) SCRIPT_VERIFY_P2SH =? 0)) false;
    if sigOpCountError || (GetMaxTxSigOpsCountConsensusBeforeGenesis config <? txSigOpsCount)
    then mret (DoS 100 false REJECT_INVALID "bad-txn-sigops" st, nSigOpsCount)
    else
      let nSigOpsCount := u64 (nSigOpsCount + txSigOpsCount) in
      if nMaxSigOps cx <? nSigOpsCount then mret (DoS 100 false REJECT_INVALID "bad-blk-sigops" st, nSigOpsCount) else mret (true, st, nSigOpsCount)
  else mret (true, st, nSigOpsCount).

Definition check_spends (cx : connection) (tx : CTransaction) (st : CValidationState) (nFees : Z) : cached (bool * CValidationState * Z * list CScriptCheck) :=
  if IsCoinBase tx then mret (true, st, nFees, [])
  else
    nValueIn ← GetValueIn tx;
    nValueOut ← lift (of_script (GetValueOut tx));
    fee ← lift (amount_sub nValueIn nValueOut);
    nFees ← lift (amount_add nFees fee);
    '(ok, st, checks) ← CheckInputs tx (fScriptChecks cx) (conn_flags cx) st;
    mret (ok, st, nFees, checks).

(** One turn of the loop; [first] is [i == 0]. *)

Definition connect_tx (cx : connection) (first : bool) (tx : CTransaction) (st : CValidationState) (pr : progress) :
    cached (bool * CValidationState * progress) :=
  '(ok, st) ← check_available cx tx st;
  if negb ok then mret (false, st, pr)
  else
    '(ok, st, sigops) ← check_sigops cx tx st (nSigOpsCount pr);
    if negb ok then mret (false, st, pr)
    else
      '(ok, st, fees, checks) ← check_spends cx tx st (nFees pr);
      if negb ok then mret (false, st, pr)
      else
        txid ← lift (of_stream (GetId l tx));
        undo ← UpdateCoins tx txid (conn_height cx) (GetGenesisActivationHeight config);
        mret (true, st, {| nSigOpsCount := sigops; nFees := fees; vtxundo := if first then vtxundo pr else vtxundo pr ++ [undo];
                           vChecks := vChecks pr ++ checks |}).

Fixpoint connect_txs (cx : connection) (first : bool) (vtx : list CTransaction) (st : CValidationState) (pr : progress) :
    cached (bool * CValidationState * progress) :=
  match vtx with
  | [] => mret (true, st, pr)
  | tx :: vtx =>
      '(ok, st, pr) ← connect_tx cx first tx st pr;
      if negb ok then mret (false, st, pr) else connect_txs cx false vtx st pr
  end.

(** [StandardNonFinalVerifyFlags]. *)

Definition StandardNonFinalVerifyFlags (genesisEnabled : bool) : Z :=
  if negb genesisEnabled then Z.lor LOCKTIME_MEDIAN_TIME_PAST LOCKTIME_VERIFY_SEQUENCE else LOCKTIME_MEDIAN_TIME_PAST.

Definition GetBlockProofEquivalentTime (to from tip : CBlockIndex) (params : Params) : outcome coins_exn Z :=
  let greater := 0 <? arith_uint256.CompareTo (nChainWork to) (nChainWork from) in
  let r := if greater then arith_uint256.sub (nChainWork to) (nChainWork from) else arith_uint256.sub (nChainWork from) (nChainWork to) in
  let sign := if greater then 1 else -1 in
  match GetBlockProof (nBits tip) with
  | Some proof =>
      match arith_uint256.div (arith_uint256.mul r (arith_uint256.of_u64 (u64 (nPowTargetSpacing params)))) proof with
      | Some r => Ok (if 63 <? arith_uint256.bits r then sign * (2 ^ 63 - 1) else i64 (u64 (sign * arith_uint256.GetLow64 r)))
      | None => Abort
      end
  | None => Abort
  end.

(** Whether the scripts are checked: not under the block assumed to be valid. *)

Definition ancestor_is (p : ptr) (nHeight : Z) (q : ptr) : outcome coins_exn bool :=
  match GetAncestor (block_heap env) p nHeight with Some r => Ok (bool_decide (r = Some q)) | None => Abort end.

Definition script_checks_on (pindex : ptr) (index : CBlockIndex) : outcome coins_exn bool :=
  if bool_decide (hashAssumeValid env = uint256_null) then Ok true
  else
    match mapBlockIndex env (hashAssumeValid env) with
    | None => Ok true
    | Some assumed =>
        match block_heap env !! best_header env with
        | None => Abort
        | Some best =>
            below ← ancestor_is assumed (nHeight index) pindex;
            inbest ← ancestor_is (best_header env) (nHeight index) pindex;
            if below && inbest && (0 <=? arith_uint256.CompareTo (nChainWork best) (nMinimumChainWork env)) then
              t ← GetBlockProofEquivalentTime best index best (pow_params (GetConsensus config));
              Ok (t <=? 60 * 60 * 24 * 7 * 2)
            else Ok true
        end
    end.

(** [CScriptCheck::operator()], and [control.Wait]: [None] when a check was cancelled. *)

Context (run_check : CScriptCheck -> option bool).

Fixpoint control_Wait (checks : list CScriptCheck) : option bool :=
  match checks with
  | [] => Some true
  | c :: checks => match run_check c, control_Wait checks with Some a, Some b => Some (a && b) | _, _ => None end
  end.

Definition new_progress : progress := {| nSigOpsCount := 0; nFees := 0; vtxundo := []; vChecks := [] |}.

Definition checkScripts (parallelBlockValidation : bool) (block : CBlock) (pindex : ptr) (st : CValidationState) :
    cached (bool * CValidationState * CBlockUndo) :=
  match block_heap env !! pindex with
  | Some ({| pprev := Some prev |} as index) =>
      let params := GetConsensus config in
      isGenesisEnabled ← lift (IsGenesisEnabled config (nHeight index));
      let nLockTimeFlags := if CSVHeight params <=? nHeight index then StandardNonFinalVerifyFlags isGenesisEnabled else 0 in
      flags ← lift (GetBlockScriptFlags config (block_heap env) prev);
      currentBlockSize ← lift (GetSerializeSize (CBlock_codec l) block);
      fScriptChecks ← lift (script_checks_on pindex index);
      let cx := {| conn_index := pindex; conn_height := nHeight index; conn_genesis := isGenesisEnabled; nLockTimeFlags := nLockTimeFlags;
                   conn_flags := flags; nMaxSigOps := GetMaxBlockSigOpsConsensusBeforeGenesis currentBlockSize; fScriptChecks := fScriptChecks |} in
      '(ok, st, pr) ← connect_txs cx true (vtx block) st new_progress;
      if negb ok then mret (false, st, [])
      else
        _ ← (if parallelBlockValidation then ForceDetach else mret tt);
        subsidy ← lift (GetBlockSubsidy (nHeight index) (nSubsidyHalvingInterval params));
        blockReward ← lift (amount_add (nFees pr) subsidy);
        match vtx block with
        | [] => lift Abort
        | coinbase :: _ =>
            nValueOut ← lift (of_script (GetValueOut coinbase));
            if blockReward <? nValueOut then mret (DoS 100 false REJECT_INVALID "bad-cb-amount" st, [])
            else
              match control_Wait (vChecks pr) with
              | None => lift (Throw validation_cancelled)
              | Some false => mret (DoS 100 false REJECT_INVALID "blk-bad-inputs" st, [])
              | Some true => mret (true, st, vtxundo pr)
              end
        end
  | _ => lift Abort
  end.

(** ** [BlockConnector::Connect] *)

Definition bip30_exempt (nHeight : Z) (hash : list Z) : bool :=
  ((nHeight =? 91842) && bool_decide (hash = le_bytes 32 0x00000000000a4d0a398161ffc163c503763b1f4360639393e0e4c8e300e0caec)) ||
  ((nHeight =? 91880) && bool_decide (hash = le_bytes 32 0x00000000000743f190a18c5577a3c2d2a1f610ae9601ac046a38084ccb7cd721)).

Definition enforce_bip30 (pindex : ptr) (nHeight : Z) (prev : ptr) : outcome coins_exn bool :=
  let params := GetConsensus config in
  match GetAncestor (block_heap env) prev (BIP34Height params) with
  | None => Abort
  | Some pindexBIP34height =>
      let past_bip34 := match pindexBIP34height with Some q => bool_decide (hash_of env q = BIP34Hash params) | None => false end in
      Ok (negb (bip30_exempt nHeight (hash_of env pindex)) && negb past_bip34 && negb (GetDisableBIP30Checks config))
  end.

(** Whether an output of the block is there already. *)

Fixpoint have_outputs (txid : list Z) (o : nat) (vout : list CTxOut) : cached bool :=
  match vout with
  | [] => mret false
  | _ :: vout => have ← HaveCoin {| outpoint_txid := txid; outpoint_n := u32 (Z.of_nat o) |}; if (have : bool) then mret true else have_outputs txid (S o) vout
  end.

Fixpoint overwrites (vtx : list CTransaction) : cached bool :=
  match vtx with
  | [] => mret false
  | tx :: vtx =>
      txid ← lift (of_stream (GetId l tx));
      have ← have_outputs txid 0 (vout tx);
      if (have : bool) then mret true else overwrites vtx
  end.

Definition SetError (st : CValidationState) (reason : string) : CValidationState :=
  {| mode := MODE_ERROR; nDoS := nDoS st; strRejectReason := if decide (mode st = MODE_VALID) then reason else strRejectReason st;
     chRejectCode := chRejectCode st; corruptionPossible := corruptionPossible st; nonFinal := nonFinal st |}.

(** What other threads do to the view below while [cs_main] is released, and whether the undo data and the transaction
    index could be written. *)

Context (others : V -> V) (undo_written index_written : bool).

Definition interleave : cached unit := fun vc => Ok (tt, with_source vc (others (source vc))).

(** After the checks: write the undo data, come back to the view and move its best block. *)

Definition finish_connect (parallelBlockValidation : bool) (pindex : ptr) (undo : CBlockUndo) (st : CValidationState) :
    cached (bool * CValidationState * CBlockUndo) :=
  if negb undo_written then mret (false, SetError st "Failed to write undo data", [])
  else if negb index_written then mret (false, SetError st "Failed to write transaction index", [])
  else
    attached ← (if parallelBlockValidation then _ ← interleave; TryReattach else mret true);
    if negb attached then lift (Throw attachment_cancelled)
    else _ ← SetBestBlock (hash_of env pindex); mret (true, st, undo).

Definition Connect (parallelBlockValidation fJustCheck : bool) (block : CBlock) (fChecked : bool) (pindex : ptr) (st : CValidationState) :
    cached (bool * CValidationState * CBlockUndo) :=
  let params := GetConsensus config in
  match block_heap env !! pindex with
  | None => lift Abort
  | Some index =>
      let options := {| checkPoW := negb fJustCheck; checkMerkleRoot := negb fJustCheck; markChecked := false; checkMaxBlockSize := true |} in
      '(ok, _, st) ← lift (CheckBlock l config block fChecked (nHeight index) options st);
      if negb ok then mret (false, st, [])
      else
        let hashPrevBlock := match pprev index with None => uint256_null | Some prev => hash_of env prev end in
        best ← GetBestBlock;
        _ ← lift (assert_ (bool_decide (hashPrevBlock = best)));
        hash ← lift (of_stream (GetBlockHash (block_header block)));
        if bool_decide (hash = hashGenesisBlock params) then
          _ ← (if negb fJustCheck then SetBestBlock (hash_of env pindex) else mret tt); mret (true, st, [])
        else
          match pprev index with
          | None => lift Abort
          | Some prev =>
              fEnforceBIP30 ← lift (enforce_bip30 pindex (nHeight index) prev);
              exists_already ← (if (fEnforceBIP30 : bool) then overwrites (vtx block) else mret false);
              if (exists_already : bool) then mret (DoS 100 false REJECT_INVALID "bad-txns-BIP30" st, [])
              else
                '(ok, st, undo) ← checkScripts parallelBlockValidation block pindex st;
                if negb ok then mret (false, st, [])
                else if fJustCheck then mret (true, st, undo)
                else finish_connect parallelBlockValidation pindex undo st
          end
  end.

End checks.

(** ** What a transaction does to the coin set *)

Definition spend_all (inputs : list CTxIn) (U : gmap COutPoint utxo) : gmap COutPoint utxo := foldl (fun U i => delete (prevout i) U) U inputs.

Lemma spend_all_other inputs : forall U o, o ∉ map prevout inputs -> spend_all inputs U !! o = U !! o.
Proof.
  induction inputs as [|i inputs IH]; intros U o Ho; [done|]. cbn [spend_all foldl map] in *. apply not_elem_of_cons in Ho as [Hne Ho].
  etransitivity; [by apply IH|]. by rewrite lookup_delete_ne.
Qed.

Lemma spend_all_some inputs : forall U o u, spend_all inputs U !! o = Some u -> U !! o = Some u.
Proof. induction inputs as [|i inputs IH]; intros U o u Hu; [done|]. apply IH in Hu. by apply lookup_delete_Some in Hu as [_ Hu]. Qed.

Lemma spend_all_app l1 l2 U : spend_all (l1 ++ l2) U = spend_all l2 (spend_all l1 U).
Proof. apply foldl_app. Qed.

(** The coin moved out for an input. *)

Record moved (U : gmap COutPoint utxo) (i : CTxIn) (c : CoinImpl) : Prop := {
  moved_coin : U !! prevout i = Some (utxo_of c);
  moved_code : code_ok c;
  moved_script : HasScript c = true }.

Lemma moved_ext U U' i c : U' !! prevout i = U !! prevout i -> moved U i c -> moved U' i c.
Proof. intros E [Hu Hc Hs]. split; [by rewrite E | done | done]. Qed.

Lemma add_outputs_other txid cb nHeight g vout : forall i U o, (forall j, (i <= j < i + List.length vout)%nat -> o <> outpoint_at txid j) ->
  add_outputs txid cb nHeight g i vout U !! o = U !! o.
Proof.
  induction vout as [|out vout IH]; intros i U o Ho; [done|]. cbn [add_outputs]. rewrite IH by (intros j Hj; apply Ho; cbn; lia).
  apply added_other, Ho. cbn. lia.
Qed.

Lemma delete_added o o' u g U : o <> o' -> delete o (added o' u g U) = added o' u g (delete o U).
Proof. intros Hne. unfold added. destruct (IsUnspendable _ _); [done|]. by rewrite delete_insert_ne. Qed.

Lemma delete_add_outputs txid cb nHeight g vout : forall i U o, (forall j, (i <= j < i + List.length vout)%nat -> o <> outpoint_at txid j) ->
  delete o (add_outputs txid cb nHeight g i vout U) = add_outputs txid cb nHeight g i vout (delete o U).
Proof.
  induction vout as [|out vout IH]; intros i U o Ho; [done|]. cbn [add_outputs]. rewrite IH by (intros j Hj; apply Ho; cbn; lia).
  rewrite delete_added; [done|]. apply Ho. cbn. lia.
Qed.

(** A connected transaction: from [U] to [U'], with the coins it moved out. *)

Definition tx_connected (g nHeight : Z) (t : list Z * CTransaction * option CTxUndo) (U U' : gmap COutPoint utxo) : Prop :=
  let '(txid, tx, undo) := t in
  Z.of_nat (List.length (vout tx)) <= 2 ^ 32 /\ Forall output_ok (vout tx) /\ outputs_absent txid 0 (List.length (vout tx)) U /\
  match undo with
  | None => U' = add_outputs txid (IsCoinBase tx) nHeight g 0 (vout tx) U
  | Some coins => NoDup (map prevout (vin tx)) /\ Forall2 (moved U) (vin tx) coins /\
                  U' = add_outputs txid (IsCoinBase tx) nHeight g 0 (vout tx) (spend_all (vin tx) U)
  end.

Fixpoint connected (g nHeight : Z) (l : list (list Z * CTransaction * option CTxUndo)) (U U' : gmap COutPoint utxo) : Prop :=
  match l with
  | [] => U' = U
  | t :: l => exists U1, tx_connected g nHeight t U U1 /\ connected g nHeight l U1 U'
  end.

Lemma connected_app g nHeight l1 l2 U U' : connected g nHeight (l1 ++ l2) U U' <-> exists U1, connected g nHeight l1 U U1 /\ connected g nHeight l2 U1 U'.
Proof.
  revert U. induction l1 as [|t l1 IH]; intros U; cbn [app connected]; [split; [by exists U | by intros (U1 & -> & ?)]|].
  setoid_rewrite IH. split; [intros (U1 & H1 & U2 & H2 & H3); eauto 6 | intros (U2 & (U1 & H1 & H2) & H3); eauto 6].
Qed.

(** No coin of the set is one that [AddCoin] would drop. *)

Definition spendable (g : Z) (U : gmap COutPoint utxo) : Prop := map_Forall (fun _ u => IsUnspendable (u_script u) (g <=? u_height u) = false) U.

Lemma spendable_add g txid cb nHeight vout : forall i U, spendable g U -> spendable g (add_outputs txid cb nHeight g i vout U).
Proof.
  induction vout as [|out vout IH]; intros i U HU; [done|]. cbn [add_outputs]. apply IH. unfold added.
  destruct (IsUnspendable _ _) eqn:E; [done|]. by apply map_Forall_insert_2.
Qed.

Lemma spendable_spend g inputs U : spendable g U -> spendable g (spend_all inputs U).
Proof. intros HU o u Hu. apply (HU o). by eapply spend_all_some. Qed.

Lemma spendable_connected g nHeight l : forall U U', connected g nHeight l U U' -> spendable g U -> spendable g U'.
Proof.
  induction l as [|[[txid tx] undo] l IH]; intros U U'; [by intros ->|]. intros (U1 & (_ & _ & _ & Ht) & Hc) HU. apply (IH U1 U' Hc).
  destruct undo; [destruct Ht as (_ & _ & ->) | subst U1]; apply spendable_add; [by apply spendable_spend | done].
Qed.

Notation valid_coins := (map_Forall (fun _ u => utxo_ok u)).

Lemma valid_add txid cb nHeight g vout : Forall output_ok vout -> forall i U, valid_coins U -> valid_coins (add_outputs txid cb nHeight g i vout U).
Proof.
  induction 1 as [|out vout Ho _ IH]; intros i U HU; [done|]. cbn [add_outputs]. apply IH. unfold added.
  destruct (IsUnspendable _ _); [done|]. by apply map_Forall_insert_2.
Qed.

Lemma valid_spend inputs U : valid_coins U -> valid_coins (spend_all inputs U).
Proof. intros HU o u Hu. apply (HU o). by eapply spend_all_some. Qed.

Lemma valid_connected g nHeight l : forall U U', connected g nHeight l U U' -> valid_coins U -> valid_coins U'.
Proof.
  induction l as [|[[txid tx] undo] l IH]; intros U U'; [by intros ->|]. intros (U1 & (_ & Ho & _ & Ht) & Hc) HU. apply (IH U1 U' Hc).
  destruct undo; [destruct Ht as (_ & _ & ->) | subst U1]; apply valid_add; [done | by apply valid_spend | done | done].
Qed.

(** ** The operations on the view *)

Section effects.
Context `{MemUsage} {V : Type} `{HV : ICoinsView V} (I : V -> Prop) (A : V -> gmap COutPoint utxo) `{HL : !CoinsViewLaws V I A}.
Notation acts := (acts I A).

Lemma absent_delete inputs o (U : gmap COutPoint utxo) (P : CTxIn -> option utxo -> Prop) : o ∉ map prevout inputs -> Forall (fun i => P i (U !! prevout i)) inputs ->
  Forall (fun i => P i (delete o U !! prevout i)) inputs.
Proof.
  intros Ho Hf. apply list.Forall_forall. intros i Hi. rewrite lookup_delete_ne.
  - exact (proj1 (list.Forall_forall _ _) Hf i Hi).
  - intros ->. by apply Ho, list_elem_of_fmap_2.
Qed.

Lemma spend_inputs_acts inputs : forall U, NoDup (map prevout inputs) -> Forall (fun i => is_Some (U !! prevout i)) inputs ->
  acts (spend_inputs inputs) U (fun cs U' => U' = spend_all inputs U /\ Forall2 (moved U) inputs cs).
Proof.
  induction inputs as [|i inputs IH]; intros U Hnd Hin; cbn [spend_inputs]; [by apply acts_ret|].
  cbn [map] in Hnd. apply list.NoDup_cons in Hnd as [Hni Hnd]. apply Forall_cons_1 in Hin as [[u Hu] Hin].
  eapply acts_bind; [apply (SpendCoin_acts I A)|]. intros [b r] U' [-> Hr]. destruct (Hr u Hu) as [-> (c & -> & <- & Hc & Hs & _)].
  eapply acts_bind; [by apply acts_assert|]. intros _ U' ->.
  eapply acts_bind; [apply IH; [done | by apply (absent_delete inputs (prevout i) U (fun _ x => is_Some x))]|].
  intros cs U' [-> Hcs]. apply acts_ret. split; [done|]. constructor; [by split|].
  apply Forall2_same_length_lookup_2; [by eapply Forall2_length|]. intros k j c' Hj Hc'. apply (moved_ext (delete (prevout i) U)).
  - rewrite lookup_delete_ne; [done|]. intros E. apply Hni. rewrite E. apply list_elem_of_fmap_2. by eapply list_elem_of_lookup_2.
  - by eapply (Forall2_lookup_lr (moved (delete (prevout i) U))).
Qed.

Lemma outputs_absent_spend txid i n inputs U : outputs_absent txid i n U -> outputs_absent txid i n (spend_all inputs U).
Proof. intros Hab j Hj. destruct (spend_all inputs U !! _) eqn:E; [|done]. apply spend_all_some in E. by rewrite Hab in E. Qed.

(** [UpdateCoins] moves the spent coins to the undo data and adds the outputs. *)

Lemma UpdateCoins_acts tx txid nHeight g U : Z.of_nat (List.length (vout tx)) <= 2 ^ 32 -> Forall output_ok (vout tx) ->
  (IsCoinBase tx = false -> NoDup (map prevout (vin tx)) /\ Forall (fun i => is_Some (U !! prevout i)) (vin tx) /\
     outputs_absent txid 0 (List.length (vout tx)) U) ->
  acts (UpdateCoins tx txid nHeight g) U (fun cs U' =>
    if IsCoinBase tx then cs = [] /\ U' = add_outputs txid true nHeight g 0 (vout tx) U
    else Forall2 (moved U) (vin tx) cs /\ U' = add_outputs txid false nHeight g 0 (vout tx) (spend_all (vin tx) U)).
Proof.
  intros Hlen Hok Hreg. unfold UpdateCoins. destruct (IsCoinBase tx) eqn:Ecb; cbn [negb].
  - eapply acts_bind; [by apply (acts_ret I A [] U (fun cs U' => cs = [] /\ U' = U))|]. intros cs U' [-> ->].
    eapply acts_bind; [apply (AddCoins_acts I A); [done | done | by right; left]|]. intros _ U' ->. apply acts_ret. by rewrite Ecb.
  - destruct (Hreg eq_refl) as (Hnd & Hin & Hab). eapply acts_bind; [by apply spend_inputs_acts|]. intros cs U' [-> Hcs].
    eapply acts_bind; [apply (AddCoins_acts I A); [done | done | right; right; by apply outputs_absent_spend]|]. intros _ U' ->.
    apply acts_ret. by rewrite Ecb.
Qed.

(** ** Undoing brings the coin set back *)

Lemma coin_out_eq c out : coin_out c = out <-> u_value (utxo_of c) = nValue out /\ u_script (utxo_of c) = scriptPubKey out.
Proof. destruct c as [[v s] ? ? ?], out as [v' s']. cbn. split; [by intros [= -> ->] | by intros [-> ->]]. Qed.

Lemma output_height out nHeight cb : 0 <= nHeight < 2 ^ 31 -> u_height (output_coin out nHeight cb) = nHeight.
Proof.
  intros Hh. unfold output_coin, utxo_of, coin_with_script, coin_owning, coin_GetHeight. cbn [u_height coin_code]. rewrite height_code_eq.
  rewrite Z.mod_small by lia. by apply code_parts.
Qed.

Lemma undo_outputs_acts txid cb nHeight g vout : 0 <= nHeight < 2 ^ 31 -> forall i W fClean, Z.of_nat (i + List.length vout) <= 2 ^ 32 ->
  outputs_absent txid i (List.length vout) W ->
  acts (undo_outputs txid (g <=? nHeight) i vout fClean) (add_outputs txid cb nHeight g i vout W) (fun b U' => b = fClean /\ U' = W).
Proof.
  intros Hh. induction vout as [|out vout IH]; intros i W fClean Hlen Hab; cbn [undo_outputs add_outputs List.length] in *; [by apply acts_ret|].
  assert (outputs_absent txid (S i) (List.length vout) W) as Hab' by (intros j Hj; apply Hab; lia).
  unfold added. rewrite output_height by done. change (u_script (output_coin out nHeight cb)) with (scriptPubKey out).
  destruct (IsUnspendable (scriptPubKey out) (g <=? nHeight)); [apply IH; [lia | done]|]. fold (outpoint_at txid i). set (o := outpoint_at txid i).
  assert (forall j, (S i <= j < S i + List.length vout)%nat -> o <> outpoint_at txid j) as Hother by (intros j Hj E%outpoint_at_inj; lia).
  eapply acts_bind; [apply (SpendCoin_acts I A)|]. intros [b r] U' [-> Hr].
  destruct (Hr (output_coin out nHeight cb)) as [-> (c & -> & Hc & _)]; [rewrite add_outputs_other by done; apply lookup_insert_eq|].
  rewrite delete_add_outputs by done. rewrite delete_insert_id by (apply Hab; lia). cbn [negb orb default].
  assert (out = coin_out c) as Eo by (symmetry; apply coin_out_eq; by rewrite Hc).
  rewrite bool_decide_eq_true_2 by done. cbn [negb]. rewrite andb_true_r. apply IH; [lia | done].
Qed.

Lemma UndoCoinSpend_acts c o g U : addable c -> U !! o = None -> IsUnspendable (u_script (utxo_of c)) (g <=? u_height (utxo_of c)) = false ->
  acts (UndoCoinSpend c o g) U (fun r U' => r = DISCONNECT_OK /\ U' = <[o := utxo_of c]> U).
Proof.
  intros (Hc & Hns & Hs & Hsz) Ho Hsp. eapply acts_bind; [apply (HaveCoin_acts I A)|]. intros b U' [-> ->]. rewrite Ho. cbn [negb].
  rewrite bool_decide_eq_false_2 by (by intros [? ?]). cbn [negb].
  eapply acts_bind; [apply (AddCoin_acts I A) with (U := U); [split_and!; [by apply (remake_code true c) | done | done | done] | done]|].
  intros _ U' ->. apply acts_ret. split; [done|]. unfold added. rewrite (remake_utxo true c Hc). by rewrite Hsp.
Qed.

Lemma undo_inputs_acts g inputs : forall cs U fClean, NoDup (map prevout inputs) -> Forall2 (moved U) inputs cs -> spendable g U ->
  map_Forall (fun _ u => utxo_ok u) U ->
  acts (undo_inputs (rev (zip inputs cs)) g fClean) (spend_all inputs U) (fun r U' => r = Some fClean /\ U' = U).
Proof.
  induction inputs as [|i inputs IH] using rev_ind; intros cs U fClean Hnd Hm Hsp Hok.
  { inversion Hm; subst. by apply acts_ret. }
  apply Forall2_app_inv_l in Hm as (cs1 & cs2 & Hm1 & Hm2 & ->). inversion_clear Hm2 as [|? c ? ? [Hu Hc Hs] Hm3]. inversion_clear Hm3.
  rewrite map_app in Hnd. apply list.NoDup_app in Hnd as (Hnd & Hni & _). cbn [map] in Hni.
  assert (prevout i ∉ map prevout inputs) as Hi by (intros Hx; by apply (Hni _ Hx), list_elem_of_singleton).
  rewrite zip_with_app by (by eapply Forall2_length). cbn [zip_with]. rewrite rev_app_distr. cbn [rev app undo_inputs]. rewrite spend_all_app. cbn [spend_all foldl].
  assert (spend_all inputs U !! prevout i = Some (utxo_of c)) as Ei by (by rewrite spend_all_other).
  destruct (Hok _ _ Hu) as [Hv Hsz]. eapply acts_bind; [apply UndoCoinSpend_acts|].
  - split_and!; [done | by apply Z.eqb_neq | done | done].
  - apply lookup_delete_eq.
  - by apply (Hsp _ _ Hu).
  - intros r U' [-> ->]. rewrite insert_delete_id by done. by apply IH.
Qed.

Lemma undo_txs_acts shutdown g nHeight L : 0 <= nHeight < 2 ^ 31 -> (forall k, shutdown k = false) -> forall U U' fClean,
  connected g nHeight L U U' -> spendable g U -> valid_coins U ->
  acts (undo_txs shutdown (g <=? nHeight) g (rev L) fClean) U' (fun r W => r = Some fClean /\ W = U).
Proof.
  intros Hh Hsh. induction L as [|[[txid tx] undo] L IH] using rev_ind; intros U U' fClean Hc Hsp Hv.
  { cbn in Hc. subst U'. by apply acts_ret. }
  apply connected_app in Hc as (Um & Hc & U1 & (Hlen & Hok & Hab & Ht) & ->). rewrite rev_app_distr. cbn [rev app undo_txs]. rewrite Hsh.
  pose proof (spendable_connected _ _ _ _ _ Hc Hsp) as Hspm. pose proof (valid_connected _ _ _ _ _ Hc Hv) as Hvm.
  destruct undo as [coins|].
  - destruct Ht as (Hnd & Hm & ->). eapply acts_bind; [apply undo_outputs_acts; [done | done | by apply outputs_absent_spend]|].
    intros b W [-> ->]. rewrite (Forall2_length Hm), Nat.eqb_refl. cbn [negb].
    eapply acts_bind; [by apply undo_inputs_acts|]. intros r W [-> ->]. by apply IH.
  - subst U1. eapply acts_bind; [by apply undo_outputs_acts|]. intros b W [-> ->]. by apply IH.
Qed.

Lemma SetBestBlock_acts hash U : acts (SetBestBlock hash) U (fun _ U' => U' = U).
Proof. intros vc [Ha Hs He] HU. eexists tt, _. split; [reflexivity|]. split; [by split | exact HU]. Qed.

Lemma acts_lift {B} (o : outcome coins_exn B) b U : o = Ok b -> acts (lift o) U (fun b' U' => b' = b /\ U' = U).
Proof. intros -> vc Hvc HU. by exists b, vc. Qed.

End effects.

(** ** The best block does not change on the way *)

Section keeps.
Context `{MemUsage} {V : Type} `{ICoinsView V}.

(** Code that leaves the view's best block and its attachment alone. *)

Definition keeps {B} (m : cached (V := V) B) : Prop := forall vc b vc', m vc = Ok (b, vc') -> hashBlock vc' = hashBlock vc /\ attached vc' = attached vc.

Lemma keeps_ret {B} (b : B) : keeps (mret b : cached (V := V) B).
Proof. by intros vc b' vc' [= _ <-]. Qed.

Lemma keeps_bind {B C} (m : cached (V := V) B) (k : B -> cached (V := V) C) : keeps m -> (forall b, keeps (k b)) -> keeps (m ≫= k).
Proof.
  intros Hm Hk vc c vc'. unfold mbind, cached_bind. destruct (m vc) as [[b vc1]| |] eqn:E; [|done..]. intros E'.
  destruct (Hm _ _ _ E), (Hk _ _ _ _ E'). by split; etransitivity.
Qed.

Lemma keeps_lift {B} (o : outcome coins_exn B) : keeps (lift o : cached (V := V) B).
Proof. intros vc b vc'. unfold lift. by destruct o; [intros [= _ <-]|..]. Qed.

Lemma keeps_get : keeps (get_cache (V := V)).
Proof. by intros vc b vc' [= _ <-]. Qed.

Lemma keeps_put s : keeps (put_cache (V := V) s).
Proof. by intros vc b vc' [= _ <-]. Qed.

Lemma keeps_parent o m : keeps (parent_GetCoin o m).
Proof. intros vc b vc'. unfold parent_GetCoin. destruct (attached vc) eqn:Ea; [destruct (view_GetCoin _ _ _) as [[r v]| |]|]; try done; intros [= _ <-]; by split. Qed.

End keeps.

Create HintDb keeps.

#[export] Hint Resolve keeps_ret keeps_lift keeps_get keeps_put keeps_parent : keeps.

(** Follows the structure of the code; what it does not know is left to the hints. *)

Ltac keeps_step :=
  lazymatch goal with
  | |- keeps (_ ≫= _) => apply keeps_bind; [|intros ?]
  | |- keeps (match ?x with _ => _ end) => destruct x
  | |- keeps (let '(_, _) := ?x in _) => destruct x
  | |- _ => solve [auto with keeps]
  end.

Ltac keeps_all := repeat (cbn beta zeta; keeps_step).

Section keeps_coins.
Context `{MemUsage} {V : Type} `{ICoinsView V}.

Lemma keeps_GetCoin o rs : keeps (V := V) (GetCoin o rs).
Proof. unfold GetCoin. keeps_all. Qed.
#[local] Hint Resolve keeps_GetCoin : keeps.

Lemma keeps_GetCoinWithScript o : keeps (V := V) (GetCoinWithScript o).
Proof. unfold GetCoinWithScript. keeps_all. Qed.

Lemma keeps_HaveCoin o : keeps (V := V) (HaveCoin o).
Proof. unfold HaveCoin. keeps_all. Qed.
#[local] Hint Resolve keeps_HaveCoin : keeps.

Lemma keeps_SpendCoin o mv : keeps (V := V) (SpendCoin o mv).
Proof. unfold SpendCoin. keeps_all. Qed.

Lemma keeps_AddCoin o c ow g : keeps (V := V) (AddCoin o c ow g).
Proof. unfold AddCoin. keeps_all. Qed.
#[local] Hint Resolve keeps_SpendCoin keeps_AddCoin : keeps.

Lemma keeps_AddCoins tx txid nHeight g check : keeps (V := V) (AddCoins tx txid nHeight g check).
Proof. unfold AddCoins. generalize 0%nat. induction (vout tx); intros; cbn [add_coins_loop]; keeps_all. Qed.
#[local] Hint Resolve keeps_AddCoins : keeps.

Lemma keeps_HaveInputs tx : keeps (V := V) (HaveInputs tx).
Proof. unfold HaveInputs. destruct (IsCoinBase tx); [keeps_all|]. induction (vin tx); cbn [have_inputs_loop]; keeps_all. Qed.

Lemma keeps_GetValueIn tx : keeps (V := V) (GetValueIn tx).
Proof. unfold GetValueIn. destruct (IsCoinBase tx); [keeps_all|]. generalize 0. induction (vin tx); intros; cbn [value_in_loop]; keeps_all. Qed.

Lemma keeps_UpdateCoins tx txid nHeight g : keeps (V := V) (UpdateCoins tx txid nHeight g).
Proof.
  unfold UpdateCoins. assert (keeps (spend_inputs (vin tx))) by (induction (vin tx); cbn [spend_inputs]; keeps_all).
  keeps_all.
Qed.

End keeps_coins.

#[export] Hint Resolve keeps_GetCoin keeps_GetCoinWithScript keeps_HaveCoin keeps_SpendCoin keeps_AddCoin keeps_AddCoins keeps_HaveInputs keeps_GetValueIn keeps_UpdateCoins : keeps.

(** ** What an accepted block has done *)

Section sound.
Context `{MemUsage} {V : Type} `{HV : ICoinsView V} (I : V -> Prop) (A : V -> gmap COutPoint utxo) `{HL : !CoinsViewLaws V I A}.
Context `{BN_API} (l : layout) (config : Config) (env : node).
Context (frozen_Check : COutPoint -> CTransaction -> bool) (in_script_cache : CTransaction -> Z -> bool).
Context (hb : list Z) (Hhb : hb <> uint256_null).

(** A view that shows [U], with best block [hb]. *)

Record at_view (U : gmap COutPoint utxo) (vc : CCoinsViewCache V) : Prop := {
  av_ok : view_ok I A vc;
  av_shows : shows A vc = U;
  av_best : hashBlock vc = hb }.

(** When the code returns, it leaves such a view, with a set and a result as [Q] says. *)

Definition whenever {B} (m : cached B) (U : gmap COutPoint utxo) (Q : B -> gmap COutPoint utxo -> Prop) : Prop :=
  forall vc b vc', at_view U vc -> m vc = Ok (b, vc') -> exists U', at_view U' vc' /\ Q b U'.

Lemma whenever_acts {B} (m : cached B) U Q : acts I A m U Q -> keeps m -> whenever m U Q.
Proof.
  intros Ha Hk vc b vc' [Hok Hs Hb] E. destruct (Ha vc Hok Hs) as (b1 & vc1 & E1 & Hok1 & HQ). rewrite E in E1. injection E1 as <- <-.
  exists (shows A vc'). split; [|done]. split; [done | done|]. rewrite <- Hb. by apply (Hk _ _ _ E).
Qed.

Lemma whenever_ret {B} (b : B) U (Q : B -> gmap COutPoint utxo -> Prop) : Q b U -> whenever (mret b) U Q.
Proof. intros HQ vc b' vc' Hvc [= <- <-]. by exists U. Qed.

Lemma whenever_bind {B C} (m : cached B) (k : B -> cached C) U R Q : whenever m U R -> (forall b U', R b U' -> whenever (k b) U' Q) -> whenever (m ≫= k) U Q.
Proof.
  intros Hm Hk vc c vc' Hvc. unfold mbind, cached_bind. destruct (m vc) as [[b vc1]| |] eqn:E; [|done..]. intros E'.
  destruct (Hm _ _ _ Hvc E) as (U1 & Hvc1 & HR). by apply (Hk b U1 HR vc1).
Qed.

Lemma whenever_lift {B} (o : outcome coins_exn B) U : whenever (lift o) U (fun b U' => o = Ok b /\ U' = U).
Proof. intros vc b vc' Hvc. unfold lift. destruct o; [|done..]. intros [= <- <-]. by exists U. Qed.

Lemma whenever_mono {B} (m : cached B) U (R Q : B -> gmap COutPoint utxo -> Prop) : whenever m U R -> (forall b U', R b U' -> Q b U') -> whenever m U Q.
Proof. intros Hm HQ vc b vc' Hvc E. destruct (Hm _ _ _ Hvc E) as (U' & ? & ?). exists U'. auto. Qed.

Lemma whenever_abort {B} U (Q : B -> gmap COutPoint utxo -> Prop) : whenever (lift Abort) U Q.
Proof. by intros vc b vc' _ E. Qed.

Lemma whenever_GetBestBlock U : whenever GetBestBlock U (fun h U' => h = hb /\ U' = U).
Proof.
  intros vc b vc' Hvc. unfold GetBestBlock. rewrite (av_best _ _ Hvc), bool_decide_eq_false_2 by done. intros [= <- <-]. by exists U.
Qed.

Lemma whenever_GetCoin o U : whenever (GetCoin o false) U (fun r U' => U' = U /\
  forall c, r = Some c -> coin_IsSpent c = false -> exists u, U !! o = Some u /\ represents c u).
Proof.
  eapply whenever_mono; [apply whenever_acts; [apply (GetCoin_acts I A) | apply keeps_GetCoin]|]. intros r U' [-> Hr]. split; [done|].
  intros c -> Hns. destruct Hr as [_ Hr]. rewrite Hns in Hr. destruct Hr as (u & Hu & Hr & _). by exists u.
Qed.

Lemma whenever_GetCoinWithScript o U : whenever (GetCoinWithScript o) U (fun r U' => U' = U /\
  forall c, r = Some c -> coin_IsSpent c = false -> U !! o = Some (utxo_of c)).
Proof.
  eapply whenever_bind; [apply whenever_acts; [apply (GetCoin_acts I A) | apply keeps_GetCoin]|]. intros r U' [-> Hr].
  destruct r as [c|]; [|by apply whenever_ret]. eapply whenever_bind; [apply whenever_lift|]. intros ? U' [Ea ->]. apply whenever_ret. split; [done|].
  intros c' [= <-] Hns. destruct Hr as [_ Hr]. rewrite Hns in Hr. destruct Hr as (u & Hu & Hr & _). rewrite Hu. f_equal.
  symmetry. apply represents_utxo; [done|]. unfold assert_ in Ea. by destruct (HasScript c).
Qed.

(** An input that may be spent at a height. *)

Definition spend_ok (nSpendHeight : Z) (U : gmap COutPoint utxo) (tx : CTransaction) (i : CTxIn) : Prop :=
  frozen_Check (prevout i) tx = true /\ exists u, U !! prevout i = Some u /\ 0 <= u_value u <= MAX_MONEY /\
    (u_coinbase u = true -> COINBASE_MATURITY <= nSpendHeight - u_height u).

Lemma amount_add_ok {E} a b c : amount_add (E := E) a b = Ok c -> c = a + b.
Proof. unfold amount_add, int64_result. by destruct (decide _); [intros [= <-]|]. Qed.

Lemma amount_sub_ok {E} a b c : amount_sub (E := E) a b = Ok c -> c = a - b.
Proof. unfold amount_sub, amount_neg, int64_result. destruct (decide _); [|done]. cbn. intros ->%amount_add_ok. lia. Qed.

Lemma inputs_value_cons U i inputs : inputs_value U (i :: inputs) = input_value U i + inputs_value U inputs.
Proof. done. Qed.

Lemma input_value_found U i u : U !! prevout i = Some u -> input_value U i = u_value u.
Proof. intros E. unfold input_value. by rewrite E. Qed.

Lemma whenever_value_in inputs U : forall acc, whenever (value_in_loop acc inputs) U (fun n U' => U' = U /\ n = acc + inputs_value U inputs).
Proof.
  induction inputs as [|i inputs IH]; intros acc; cbn [value_in_loop]; [apply whenever_ret; split; [done | cbn; lia]|].
  eapply whenever_bind; [apply whenever_GetCoin|]. intros r U' [-> Hr]. destruct r as [c|]; [|apply whenever_abort].
  eapply whenever_bind; [apply whenever_lift|]. intros ? U' [Ea ->]. eapply whenever_bind; [apply whenever_lift|]. intros n U' [En%amount_add_ok ->].
  destruct (Hr c eq_refl) as (u & Hu & Hrep); [unfold assert_ in Ea; by destruct (coin_IsSpent c)|].
  eapply whenever_mono; [apply IH|]. intros m U' [-> ->]. split; [done|]. rewrite inputs_value_cons, (input_value_found _ _ _ Hu), En, (rep_value _ _ Hrep). lia.
Qed.

Lemma whenever_check_inputs tx nSpendHeight inputs U st : forall acc, whenever (check_inputs_loop frozen_Check tx nSpendHeight inputs acc st) U
  (fun '(r, st') U' => U' = U /\ forall n, r = Some n -> st' = st /\ n = acc + inputs_value U inputs /\ Forall (spend_ok nSpendHeight U tx) inputs).
Proof.
  induction inputs as [|i inputs IH]; intros acc; cbn [check_inputs_loop].
  { apply whenever_ret. split; [done|]. intros n [= <-]. split_and!; [done | cbn; lia | constructor]. }
  destruct (frozen_Check (prevout i) tx) eqn:Ef; cbn [negb]; [|by apply whenever_ret].
  eapply whenever_bind; [apply whenever_GetCoin|]. intros r U' [-> Hr]. destruct r as [c|]; [|apply whenever_abort].
  eapply whenever_bind; [apply whenever_lift|]. intros ? U' [Ea ->]. eapply whenever_bind; [apply whenever_lift|]. intros depth U' [Ed ->].
  destruct (Hr c eq_refl) as (u & Hu & Hrep); [unfold assert_ in Ea; by destruct (coin_IsSpent c)|].
  destruct (Z.ltb_spec depth COINBASE_MATURITY) as [|Hd]; [by apply whenever_ret|].
  eapply whenever_bind; [apply whenever_lift|]. intros n U' [En%amount_add_ok ->].
  destruct (MoneyRange (nValue (coin_out c))) eqn:Em; cbn [negb orb]; [|by apply whenever_ret]. destruct (MoneyRange n); cbn [negb]; [|by apply whenever_ret].
  apply MoneyRange_spec in Em. rewrite (rep_value _ _ Hrep) in *. eapply whenever_mono; [apply IH|]. intros [r st'] U' [-> Hn]. split; [done|].
  intros m Hm. destruct (Hn m Hm) as (-> & -> & Hf). split_and!; [done | rewrite inputs_value_cons, (input_value_found _ _ _ Hu); lia|].
  constructor; [|done]. split; [done|]. exists u. split_and!; [done | lia..|]. intros Hcb. rewrite (rep_coinbase _ _ Hrep), Hcb in Ed.
  unfold int32_sum in Ed. destruct (_ && _) in Ed; [|done]. injection Ed as <-. by rewrite (rep_height _ _ Hrep) in Hd.
Qed.

Lemma whenever_CheckTxInputs tx nSpendHeight st U : whenever (CheckTxInputs frozen_Check tx nSpendHeight st) U (fun '(ok, st') U' => U' = U /\
  (ok = true -> st' = st /\ Forall (spend_ok nSpendHeight U tx) (vin tx) /\ exists out, GetValueOut tx = Ok out /\ out <= inputs_value U (vin tx))).
Proof.
  eapply whenever_bind; [apply whenever_acts; [apply (HaveInputs_acts I A) | apply keeps_HaveInputs]|]. intros have U' [-> _].
  destruct have; cbn [negb]; [|by apply whenever_ret]. eapply whenever_bind; [apply whenever_check_inputs|]. intros [r st'] U' [-> Hr].
  destruct r as [n|]; [|by apply whenever_ret]. destruct (Hr n eq_refl) as (-> & -> & Hf). eapply whenever_bind; [apply whenever_lift|]. intros out U' [Eo ->].
  assert (GetValueOut tx = Ok out) as Eo' by (unfold of_script in Eo; destruct (GetValueOut tx); congruence).
  destruct (Z.ltb_spec (0 + inputs_value U (vin tx)) out); [by apply whenever_ret|]. eapply whenever_bind; [apply whenever_lift|]. intros fee U' [_ ->].
  destruct (fee <? 0); [by apply whenever_ret|]. eapply whenever_bind; [apply whenever_lift|]. intros fees U' [_ ->].
  destruct (MoneyRange fees); cbn [negb]; apply whenever_ret; [|done]. split; [done|]. intros _. split_and!; [done | done|]. exists out. split; [done | lia].
Qed.

(** ** The scripts of a transaction *)

(** The check of the [k]-th input, which spends [u]. *)

Definition script_check (flags : Z) (tx : CTransaction) (k : nat) (u : utxo) : CScriptCheck :=
  {| check_script := u_script u; check_amount := u_value u; check_tx := tx; check_input := k;
     check_flags := Z.lor flags (if GetGenesisActivationHeight config <=? GetInputScriptBlockHeight env (u_height u) then SCRIPT_UTXO_AFTER_GENESIS else 0) |}.

Definition script_checks (U : gmap COutPoint utxo) (flags : Z) (tx : CTransaction) (i : nat) (inputs : list CTxIn) (checks : list CScriptCheck) : Prop :=
  List.length checks = List.length inputs /\
  forall k txin c, inputs !! k = Some txin -> checks !! k = Some c -> exists u, U !! prevout txin = Some u /\ c = script_check flags tx (i + k) u.

Lemma whenever_input_checks tx flags U inputs : forall i, whenever (input_checks_loop config env tx flags i inputs) U
  (fun checks U' => U' = U /\ script_checks U flags tx i inputs checks).
Proof.
  induction inputs as [|txin inputs IH]; intros i; cbn [input_checks_loop]; [by apply whenever_ret|].
  eapply whenever_bind; [apply whenever_GetCoinWithScript|]. intros r U' [-> Hr]. destruct r as [c|]; [|apply whenever_abort].
  eapply whenever_bind; [apply whenever_lift|]. intros ? U' [Ea ->]. eapply whenever_bind; [apply whenever_lift|]. intros check U' [Ec ->].
  assert (U !! prevout txin = Some (utxo_of c)) as Hu by (apply Hr; [done|]; unfold assert_ in Ea; by destruct (coin_IsSpent c)).
  eapply whenever_bind; [apply IH|]. intros checks U' [-> [Hlen Hk]]. apply whenever_ret. split; [done|]. split; [cbn; lia|].
  intros [|k] txin' c'; cbn; [|rewrite Nat.add_succ_r; apply Hk]. intros [= <-] [= <-]. exists (utxo_of c). split; [done|]. rewrite Nat.add_0_r.
  unfold CheckInputScripts, IsGenesisEnabled in Ec. destruct (_ =? MEMPOOL_HEIGHT) in Ec; [done|]. cbn in Ec. injection Ec as <-. done.
Qed.

Lemma whenever_GetSpendHeight p b U : mapBlockIndex env hb = Some p -> block_heap env !! p = Some b ->
  whenever (GetSpendHeight env) U (fun n U' => U' = U /\ n = nHeight b + 1).
Proof.
  intros Hp Hb. eapply whenever_bind; [apply whenever_GetBestBlock|]. intros h U' [-> ->]. rewrite Hp.
  eapply whenever_bind; [apply whenever_lift|]. intros n U' [En ->]. unfold height_of in En. rewrite Hb in En. injection En as <-.
  eapply whenever_mono; [apply whenever_lift|]. intros n U' [En ->]. split; [done|]. unfold int32_sum in En. destruct (_ && _) in En; [by injection En as <- | done].
Qed.

Context (prev : ptr) (bprev : CBlockIndex) (Hprev : mapBlockIndex env hb = Some prev) (Hbprev : block_heap env !! prev = Some bprev).

Lemma whenever_CheckInputs tx (scripts : bool) flags st U : whenever (CheckInputs config env frozen_Check in_script_cache tx scripts flags st) U
  (fun '(ok, st', checks) U' => U' = U /\ (ok = true -> st' = st /\ Forall (spend_ok (nHeight bprev + 1) U tx) (vin tx) /\
     (exists out, GetValueOut tx = Ok out /\ out <= inputs_value U (vin tx)) /\
     if scripts && negb (in_script_cache tx flags) then script_checks U flags tx 0 (vin tx) checks else checks = [])).
Proof.
  eapply whenever_bind; [apply whenever_lift|]. intros ? U' [Ea ->]. eapply whenever_bind; [by apply (whenever_GetSpendHeight prev bprev)|]. intros n U' [-> ->].
  eapply whenever_bind; [apply whenever_CheckTxInputs|]. intros [ok st'] U' [-> Hok]. destruct ok; cbn [negb]; [|by apply whenever_ret].
  destruct (Hok eq_refl) as (-> & Hf & Hv). destruct scripts; cbn [negb andb]; [|by apply whenever_ret].
  destruct (in_script_cache tx flags); cbn [negb]; [by apply whenever_ret|].
  eapply whenever_bind; [apply whenever_input_checks|]. intros checks U' [-> Hc]. by apply whenever_ret.
Qed.

Lemma whenever_p2sh_sigops inputs U : forall n, whenever (p2sh_sigops_loop config inputs n) U (fun _ U' => U' = U).
Proof.
  induction inputs as [|i inputs IH]; intros n; cbn [p2sh_sigops_loop]; [by apply whenever_ret|].
  eapply whenever_bind; [apply whenever_GetCoinWithScript|]. intros r U' [-> _]. destruct r as [c|]; [|apply whenever_abort].
  eapply whenever_bind; [apply whenever_lift|]. intros ? U' [_ ->]. eapply whenever_bind; [apply whenever_lift|]. intros g U' [_ ->].
  destruct g; [apply IH|]. destruct (IsP2SH _); [|apply IH]. eapply whenever_bind; [apply whenever_lift|]. intros [k e] U' [_ ->].
  destruct e; [by apply whenever_ret | apply IH].
Qed.

Lemma whenever_sigops cx tx st n U : whenever (check_sigops config cx tx st n) U (fun '(ok, st', _) U' => U' = U /\ (ok = true -> st' = st)).
Proof.
  unfold check_sigops. destruct (negb (conn_genesis cx)); [|by apply whenever_ret].
  eapply (whenever_bind _ _ _ (fun _ U' => U' = U)).
  { eapply whenever_bind; [apply whenever_lift|]. intros [k e] U' [_ ->]. destruct e; [by apply whenever_ret|]. destruct (IsCoinBase tx) eqn:Ecb; [by apply whenever_ret|].
    destruct (negb _); [|by apply whenever_ret]. unfold GetP2SHSigOpCount. rewrite Ecb.
    eapply whenever_bind; [apply whenever_p2sh_sigops|]. intros [k' e'] U' ->. by apply whenever_ret. }
  intros [k e] U' ->. destruct (e || _); [by apply whenever_ret|]. destruct (_ <? _); by apply whenever_ret.
Qed.

(** The relative locks of a transaction that spends coins of [U]. *)

Definition locks_over (cx : connection) (U : gmap COutPoint utxo) (tx : CTransaction) : Prop :=
  exists heights, Forall2 (fun i n => exists u, U !! prevout i = Some u /\ u_height u = n) (vin tx) heights /\
    SequenceLocks (block_heap env) tx (nLockTimeFlags cx) heights (conn_index cx) = Ok true.

Lemma whenever_prev_heights inputs U : Forall (fun i => is_Some (U !! prevout i)) inputs -> whenever (prev_heights inputs) U (fun heights U' => U' = U /\
  Forall2 (fun i n => exists u, U !! prevout i = Some u /\ u_height u = n) inputs heights).
Proof.
  induction 1 as [|i inputs [u Hu] Hin IH]; cbn [prev_heights]; [by apply whenever_ret|].
  eapply whenever_bind; [apply whenever_acts; [apply (GetCoin_value I A) | apply keeps_GetCoin]|]. intros r U' [-> Hr].
  destruct (Hr u Hu) as (c & -> & _ & Hrep). eapply whenever_bind; [apply IH|]. intros heights U' [-> Hh]. apply whenever_ret. split; [done|].
  constructor; [|done]. exists u. split; [done|]. by rewrite (rep_height _ _ Hrep).
Qed.

Lemma whenever_available cx tx st U : whenever (check_available env cx tx st) U (fun '(ok, st') U' => U' = U /\ (ok = true -> st' = st /\
  (IsCoinBase tx = false -> Forall (fun i => is_Some (U !! prevout i)) (vin tx) /\ locks_over cx U tx))).
Proof.
  unfold check_available. destruct (IsCoinBase tx) eqn:Ecb; [by apply whenever_ret|].
  eapply whenever_bind; [apply whenever_acts; [apply (HaveInputs_acts I A) | apply keeps_HaveInputs]|]. intros have U' [-> Eh]. rewrite Ecb in Eh. cbn [orb] in Eh.
  destruct have; cbn [negb]; [|by apply whenever_ret].
  assert (Forall (fun i => is_Some (U !! prevout i)) (vin tx)) as Hin.
  { apply List.Forall_forall. intros i Hi. symmetry in Eh. apply (proj1 (forallb_forall _ _) Eh) in Hi. by apply bool_decide_eq_true in Hi. }
  eapply whenever_bind; [by apply whenever_prev_heights|]. intros heights U' [-> Hh]. eapply whenever_bind; [apply whenever_lift|]. intros ok U' [Eok ->].
  destruct ok; cbn [negb]; apply whenever_ret; [|done]. split; [done|]. intros _. split; [done|]. intros _. split; [done|]. by exists heights.
Qed.

(** ** One transaction, then all of them *)

Lemma value_out_loop_ok vout : forall acc n, value_out_loop acc vout = Ok n -> n = acc + sum_out vout.
Proof.
  induction vout as [|o vout IH]; intros acc n; cbn [value_out_loop]; [intros [= <-]; cbn; lia|].
  destruct (amount_add acc (nValue o)) as [m| |] eqn:Em; [|done..]. cbn [mbind outcome_bind]. apply amount_add_ok in Em. destruct (_ || _); [done|].
  intros ->%IH. cbn [sum_out foldr]. fold (sum_out vout). lia.
Qed.

(** What the acceptance of a transaction says of the coins it spends, the fee it pays and the scripts to be run. *)

Definition tx_accepted (cx : connection) (tx : CTransaction) (U : gmap COutPoint utxo) (fee : Z) (checks : list CScriptCheck) : Prop :=
  if IsCoinBase tx then fee = 0 /\ checks = []
  else Forall (spend_ok (nHeight bprev + 1) U tx) (vin tx) /\ locks_over cx U tx /\
       fee = inputs_value U (vin tx) - sum_out (vout tx) /\ 0 <= fee /\
       if fScriptChecks cx && negb (in_script_cache tx (conn_flags cx)) then script_checks U (conn_flags cx) tx 0 (vin tx) checks else checks = [].

Lemma whenever_spends cx tx st fees U : locks_over cx U tx \/ IsCoinBase tx = true ->
  whenever (check_spends config env frozen_Check in_script_cache cx tx st fees) U (fun '(ok, st', fees', checks) U' => U' = U /\
    (ok = true -> st' = st /\ tx_accepted cx tx U (fees' - fees) checks)).
Proof.
  intros Hlocks. unfold check_spends, tx_accepted. destruct (IsCoinBase tx) eqn:Ecb; [apply whenever_ret; split_and!; [done|]; intros _; split_and!; [done | lia | done]|].
  destruct Hlocks as [Hlocks|]; [|done]. unfold GetValueIn. rewrite Ecb. eapply whenever_bind; [apply whenever_value_in|]. intros n U' [-> ->].
  eapply whenever_bind; [apply whenever_lift|]. intros out U' [Eo ->]. eapply whenever_bind; [apply whenever_lift|]. intros fee U' [Ef%amount_sub_ok ->].
  eapply whenever_bind; [apply whenever_lift|]. intros fees' U' [Efs%amount_add_ok ->].
  eapply whenever_bind; [apply whenever_CheckInputs|]. intros [[ok st'] checks] U' [-> Hok]. apply whenever_ret. split; [done|]. intros Ht.
  destruct (Hok Ht) as (-> & Hf & (out' & Eo' & Hle) & Hc). assert (out' = out) as ->.
  { unfold of_script in Eo. destruct (GetValueOut tx); congruence. }
  apply (value_out_loop_ok _ 0) in Eo'. split_and!; [done..| lia | lia | done].
Qed.

(** A transaction as [CheckBlock] leaves it. *)

Record tx_shape (tx : CTransaction) : Prop := {
  few_outputs : Z.of_nat (List.length (vout tx)) <= 2 ^ 32;
  outputs_ok : Forall output_ok (vout tx);
  nonneg_outputs : Forall (fun o => 0 <= nValue o) (vout tx);
  distinct_inputs : IsCoinBase tx = false -> NoDup (map prevout (vin tx)) }.

Definition absent_from (tx : CTransaction) (U : gmap COutPoint utxo) : Prop := forall txid, GetId l tx = Ok txid -> outputs_absent txid 0 (List.length (vout tx)) U.

Lemma whenever_connect_tx cx first tx st pr U : tx_shape tx -> absent_from tx U ->
  whenever (connect_tx l config env frozen_Check in_script_cache cx first tx st pr) U (fun '(ok, st', pr') U' => ok = true -> st' = st /\
    exists txid undo fee checks, GetId l tx = Ok txid /\ tx_accepted cx tx U fee checks /\
      nFees pr' = nFees pr + fee /\ vChecks pr' = vChecks pr ++ checks /\ vtxundo pr' = (if first then vtxundo pr else vtxundo pr ++ [undo]) /\
      tx_connected (GetGenesisActivationHeight config) (conn_height cx) (txid, tx, if IsCoinBase tx then None else Some undo) U U').
Proof.
  intros [Hlen Hout _ Hnd] Hab. unfold connect_tx. eapply whenever_bind; [apply whenever_available|]. intros [ok st1] U' [-> Hok].
  destruct ok; cbn [negb]; [|by apply whenever_ret]. destruct (Hok eq_refl) as (-> & Hin). clear Hok.
  eapply whenever_bind; [apply whenever_sigops|]. intros [[ok st1] sigops] U' [-> Hok]. destruct ok; cbn [negb]; [|by apply whenever_ret]. rewrite (Hok eq_refl). clear Hok.
  eapply whenever_bind; [apply whenever_spends; destruct (IsCoinBase tx); [by right | by left; apply Hin]|]. intros [[[ok st1'] fees] checks] U' [-> Hok].
  destruct ok; cbn [negb]; [|by apply whenever_ret]. destruct (Hok eq_refl) as [-> Hacc]. clear Hok.
  eapply whenever_bind; [apply whenever_lift|]. intros txid U' [Eid ->].
  assert (GetId l tx = Ok txid) as Eid' by (unfold of_stream in Eid; destruct (GetId l tx); congruence). specialize (Hab txid Eid').
  eapply whenever_bind; [apply whenever_acts; [apply (UpdateCoins_acts I A); [done | done|] | apply keeps_UpdateCoins]|].
  { intros Ecb. split_and!; [by apply Hnd | by apply Hin | done]. }
  intros undo U' Hup. apply whenever_ret. intros _. split; [done|]. exists txid, undo, (fees - nFees pr), checks. cbn [nFees vChecks vtxundo].
  split_and!; [done | done | lia | done | done|]. unfold tx_connected. destruct (IsCoinBase tx) eqn:Ecb; destruct Hup as [Hup ->]; split_and!; try done.
  by apply Hnd.
Qed.

(** The transactions of a block in turn: the sets of coins they go through, their fees and their scripts. *)

Fixpoint accepted (cx : connection) (L : list (list Z * CTransaction * option CTxUndo)) (U : gmap COutPoint utxo) (fees : Z)
    (checks : list CScriptCheck) (U' : gmap COutPoint utxo) : Prop :=
  match L with
  | [] => U' = U /\ fees = 0 /\ checks = []
  | t :: L =>
      exists U1 fee fees' cs checks', GetId l t.1.2 = Ok t.1.1 /\ tx_accepted cx t.1.2 U fee cs /\
        tx_connected (GetGenesisActivationHeight config) (conn_height cx) t U U1 /\
        accepted cx L U1 fees' checks' U' /\ fees = fee + fees' /\ checks = cs ++ checks'
  end.

Lemma accepted_connected cx L : forall U fees checks U', accepted cx L U fees checks U' -> connected (GetGenesisActivationHeight config) (conn_height cx) L U U'.
Proof.
  induction L as [|t L IH]; intros U fees checks U'; [by intros (-> & _)|]. intros (U1 & fee & fees' & cs & checks' & _ & _ & Ht & Hr & _). exists U1. split; [done | by eapply IH].
Qed.

(** The other transactions stay absent. *)

Lemma absent_step g nHeight txid tx undo txid' n U U' : tx_connected g nHeight (txid, tx, undo) U U' -> txid' <> txid ->
  outputs_absent txid' 0 n U -> outputs_absent txid' 0 n U'.
Proof.
  intros (_ & _ & _ & Ht) Hne Hab j Hj. assert (forall W, W !! outpoint_at txid' j = None -> add_outputs txid (IsCoinBase tx) nHeight g 0 (vout tx) W !! outpoint_at txid' j = None) as Hadd.
  { intros W HW. rewrite add_outputs_other; [done|]. by intros k _ [= E]. }
  destruct undo; [destruct Ht as (_ & _ & ->) | subst U']; apply Hadd; [by apply (outputs_absent_spend _ 0 n) | by apply Hab].
Qed.

Definition fresh (ids : list (list Z)) (vtx : list CTransaction) (U : gmap COutPoint utxo) : Prop :=
  NoDup ids /\ Forall2 (fun id tx => GetId l tx = Ok id /\ outputs_absent id 0 (List.length (vout tx)) U) ids vtx.

Lemma fresh_step g nHeight id tx undo ids vtx U U' : fresh (id :: ids) (tx :: vtx) U -> tx_connected g nHeight (id, tx, undo) U U' -> fresh ids vtx U'.
Proof.
  intros [Hnd Hf] Ht. apply list.NoDup_cons in Hnd as [Hni Hnd]. inversion_clear Hf as [|? ? ? ? _ Hf']. split; [done|].
  apply Forall2_same_length_lookup_2; [by eapply Forall2_length|]. intros k id' tx' Hid Htx.
  destruct (Forall2_lookup_lr _ _ _ _ _ _ Hf' Hid Htx) as [Eid Hab]. split; [done|]. eapply absent_step; [exact Ht | | done].
  intros ->. apply Hni. by eapply list_elem_of_lookup_2.
Qed.

Lemma whenever_connect_rest cx vtx : forall ids st pr U, Forall tx_shape vtx -> Forall (fun tx => IsCoinBase tx = false) vtx -> fresh ids vtx U ->
  whenever (connect_txs l config env frozen_Check in_script_cache cx false vtx st pr) U (fun '(ok, st', pr') U' => ok = true -> st' = st /\
    exists undos fees checks, List.length undos = List.length vtx /\
      accepted cx (zip (zip ids vtx) (map Some undos)) U fees checks U' /\
      nFees pr' = nFees pr + fees /\ vChecks pr' = vChecks pr ++ checks /\ vtxundo pr' = vtxundo pr ++ undos).
Proof.
  induction vtx as [|tx vtx IH]; intros ids st pr U Hshape Hreg Hfr; cbn [connect_txs].
  { apply whenever_ret. intros _. split; [done|]. exists [], 0, []. destruct Hfr as [_ Hf]. inversion_clear Hf. rewrite !app_nil_r. split_and!; [done | done | lia | done..]. }
  apply Forall_cons_1 in Hshape as [Hs Hshape]. apply Forall_cons_1 in Hreg as [Hcb Hreg]. pose proof Hfr as [_ Hf].
  inversion Hf as [|id ? ids' ? [Eid Hab] _ Eids]; subst ids.
  eapply whenever_bind; [apply whenever_connect_tx; [done | intros txid E; by rewrite Eid in E; injection E as <-]|].
  intros [[ok st1] pr1] U1 Hok. destruct ok; cbn [negb]; [|by apply whenever_ret].
  destruct (Hok eq_refl) as (-> & txid & undo & fee & cs & Eid' & Hacc & Efee & Ech & Eundo & Hconn). rewrite Eid in Eid'. injection Eid' as <-. rewrite Hcb in Hconn.
  eapply whenever_mono; [apply (IH ids'); [done | done | by eapply fresh_step]|]. intros [[ok st2] pr2] U2 Hok2 Ht.
  destruct (Hok2 Ht) as (-> & undos & fees & checks & Hlen & Hacc2 & Efees & Echs & Eundos). split; [done|].
  exists (undo :: undos), (fee + fees), (cs ++ checks). split_and!; [cbn; lia | | lia | by rewrite Echs, Ech, app_assoc | by rewrite Eundos, Eundo, <- app_assoc].
  cbn [zip_with map]. exists U1, fee, fees, cs, checks. split_and!; done.
Qed.

(** The coinbase and then the rest. *)

Lemma whenever_connect_block cx coinbase rest ids st U : Forall tx_shape (coinbase :: rest) -> IsCoinBase coinbase = true ->
  Forall (fun tx => IsCoinBase tx = false) rest -> fresh ids (coinbase :: rest) U ->
  whenever (connect_txs l config env frozen_Check in_script_cache cx true (coinbase :: rest) st new_progress) U (fun '(ok, st', pr') U' => ok = true -> st' = st /\
    List.length (vtxundo pr') = List.length rest /\ accepted cx (with_undo ids (coinbase :: rest) (vtxundo pr')) U (nFees pr') (vChecks pr') U').
Proof.
  intros Hshape Hcb Hreg Hfr. apply Forall_cons_1 in Hshape as [Hs Hshape]. pose proof Hfr as [_ Hf]. inversion Hf as [|id ? ids' ? [Eid Hab] _ Eids]; subst ids.
  cbn [connect_txs]. eapply whenever_bind; [apply whenever_connect_tx; [done | intros txid E; by rewrite Eid in E; injection E as <-]|].
  intros [[ok st1] pr1] U1 Hok. destruct ok; cbn [negb]; [|by apply whenever_ret].
  destruct (Hok eq_refl) as (-> & txid & undo & fee & cs & Eid' & Hacc & Efee & Ech & Eundo & Hconn). rewrite Eid in Eid'. injection Eid' as <-. rewrite Hcb in Hconn.
  eapply whenever_mono; [apply (whenever_connect_rest cx rest ids'); [done | done | by eapply fresh_step]|]. intros [[ok st2] pr2] U2 Hok2 Ht.
  destruct (Hok2 Ht) as (-> & undos & fees & checks & Hlen & Hacc2 & Efees & Echs & Eundos). split; [done|]. rewrite Eundos, Eundo. cbn [new_progress vtxundo app].
  split; [done|]. unfold with_undo. cbn [zip_with]. exists U1, fee, fees, cs, checks. cbn [new_progress nFees vChecks app] in *.
  rewrite Efees, Efee, Echs, Ech. split_and!; done || lia.
Qed.

(** ** No money is made *)

Definition total (U : gmap COutPoint utxo) : Z := map_fold (fun _ u n => u_value u + n) 0 U.

Lemma total_insert U o u : U !! o = None -> total (<[o := u]> U) = u_value u + total U.
Proof. intros Ho. unfold total. rewrite map_fold_insert_L; [done | intros; lia | done]. Qed.

Lemma total_delete U o u : U !! o = Some u -> total (delete o U) = total U - u_value u.
Proof. intros Ho. rewrite <- (insert_delete_id U o u Ho) at 2. rewrite total_insert by apply lookup_delete_eq. lia. Qed.

Lemma inputs_value_delete inputs o U : o ∉ map prevout inputs -> inputs_value (delete o U) inputs = inputs_value U inputs.
Proof.
  induction inputs as [|i inputs IH]; intros Ho; [done|]. cbn [map] in Ho. apply not_elem_of_cons in Ho as [Hne Ho]. rewrite !inputs_value_cons, IH by done.
  unfold input_value. by rewrite lookup_delete_ne.
Qed.

Lemma total_spend inputs : forall U, NoDup (map prevout inputs) -> Forall (fun i => is_Some (U !! prevout i)) inputs ->
  total (spend_all inputs U) = total U - inputs_value U inputs.
Proof.
  induction inputs as [|i inputs IH]; intros U Hnd Hin; [cbn; lia|]. cbn [map] in Hnd. apply list.NoDup_cons in Hnd as [Hni Hnd]. apply Forall_cons_1 in Hin as [[u Hu] Hin].
  cbn [spend_all foldl]. fold (spend_all inputs (delete (prevout i) U)). rewrite IH; [|done|].
  - rewrite (total_delete U _ u Hu), inputs_value_delete by done. rewrite inputs_value_cons, (input_value_found _ _ _ Hu). lia.
  - by apply (absent_delete inputs (prevout i) U (fun _ x => is_Some x)).
Qed.

Lemma total_add txid cb nHeight g vout : Forall (fun o => 0 <= nValue o) vout -> forall i U, Z.of_nat (i + List.length vout) <= 2 ^ 32 ->
  outputs_absent txid i (List.length vout) U -> total (add_outputs txid cb nHeight g i vout U) <= total U + sum_out vout.
Proof.
  induction 1 as [|o vout Ho _ IH]; intros i U Hlen Hab; cbn [add_outputs sum_out foldr List.length] in *; [lia|]. fold (sum_out vout).
  etransitivity; [apply IH; [lia|]|].
  - intros j Hj. rewrite added_other; [apply Hab; lia | intros E%outpoint_at_inj; lia].
  - unfold added. destruct (IsUnspendable _ _); [lia|]. rewrite total_insert by (apply Hab; lia). cbn [output_coin utxo_of u_value coin_with_script coin_owning coin_out]. lia.
Qed.

Lemma total_regular cx t U U' fee cs coins : tx_connected (GetGenesisActivationHeight config) (conn_height cx) (t, Some coins) U U' -> tx_shape t.2 ->
  IsCoinBase t.2 = false -> tx_accepted cx t.2 U fee cs -> total U' + fee <= total U.
Proof.
  destruct t as [txid tx]. intros (Hlen & _ & Hab & Hnd & Hm & ->) [_ _ Hnn _] Hcb Hacc. cbn [snd] in *. unfold tx_accepted in Hacc. rewrite Hcb in Hacc.
  destruct Hacc as (_ & _ & -> & _). assert (Forall (fun i => is_Some (U !! prevout i)) (vin tx)) as Hin.
  { apply list.Forall_forall. intros i [k Hk]%list_elem_of_lookup. destruct (Forall2_lookup_l _ _ _ _ _ Hm Hk) as (c & _ & [Hu _ _]). by rewrite Hu. }
  pose proof (total_add txid (IsCoinBase tx) (conn_height cx) (GetGenesisActivationHeight config) (vout tx) Hnn 0%nat (spend_all (vin tx) U) ltac:(cbn; lia)
    ltac:(by apply outputs_absent_spend)) as Ha. rewrite total_spend in Ha by done. lia.
Qed.

Lemma total_rest cx L : Forall (fun t => tx_shape t.1.2 /\ IsCoinBase t.1.2 = false /\ is_Some t.2) L -> forall U fees checks U',
  accepted cx L U fees checks U' -> total U' + fees <= total U.
Proof.
  induction 1 as [|[t undo] L (Hs & Hcb & [coins Ec]) _ IH]; intros U fees checks U'; [intros (-> & -> & _); lia|]. cbn [fst snd] in *. subst undo.
  intros (U1 & fee & fees' & cs & checks' & _ & Hacc & Hconn & Hrest & -> & _). apply IH in Hrest. pose proof (total_regular cx t U U1 fee cs coins Hconn Hs Hcb Hacc). lia.
Qed.

Lemma total_block cx id coinbase L U fees checks U' : tx_shape coinbase -> IsCoinBase coinbase = true ->
  Forall (fun t => tx_shape t.1.2 /\ IsCoinBase t.1.2 = false /\ is_Some t.2) L -> accepted cx ((id, coinbase, None) :: L) U fees checks U' ->
  total U' + fees <= total U + sum_out (vout coinbase).
Proof.
  intros [Hlen _ Hnn _] Hcb HLs (U1 & fee & fees' & cs & checks' & _ & Hacc & (_ & _ & Hab & ->) & Hrest & -> & _).
  apply (total_rest cx L HLs) in Hrest. unfold tx_accepted in Hacc. cbn [fst snd] in Hacc. rewrite Hcb in Hacc. destruct Hacc as [-> _].
  pose proof (total_add id (IsCoinBase coinbase) (conn_height cx) (GetGenesisActivationHeight config) (vout coinbase) Hnn 0%nat U ltac:(cbn; lia) Hab). lia.
Qed.

(** ** The whole connection *)

Context (run_check : CScriptCheck -> option bool) (others : V -> V) (undo_written index_written : bool).

Lemma bind_inv {B C} (m : cached (V := V) B) (k : B -> cached (V := V) C) vc r : (m ≫= k) vc = Ok r -> exists b vc1, m vc = Ok (b, vc1) /\ k b vc1 = Ok r.
Proof. unfold mbind, cached_bind. destruct (m vc) as [[b vc1]| |]; [|done..]. intros E. by exists b, vc1. Qed.

Lemma lift_inv {B} (o : outcome coins_exn B) (vc : CCoinsViewCache V) b vc' : lift o vc = Ok (b, vc') -> o = Ok b /\ vc' = vc.
Proof. unfold lift. by destruct o; [intros [= -> ->]|..]. Qed.

Lemma wait_inv checks : control_Wait run_check checks = Some true -> Forall (fun c => run_check c = Some true) checks.
Proof.
  induction checks as [|c checks IH]; [by constructor|]. cbn. destruct (run_check c) as [[]|] eqn:E, (control_Wait run_check checks) as [[]|]; try done.
  intros _. constructor; [done | by apply IH].
Qed.

(** What it means that a block was accepted, from [U] to [U']. *)

Definition block_accepted (block : CBlock) (pindex : ptr) (index : CBlockIndex) (undo : CBlockUndo) (U U' : gmap COutPoint utxo) : Prop :=
  exists cx coinbase rest ids fees checks subsidy,
    vtx block = coinbase :: rest /\ conn_index cx = pindex /\ conn_height cx = nHeight index /\
    GetBlockScriptFlags config (block_heap env) prev = Ok (conn_flags cx) /\ script_checks_on config env pindex index = Ok (fScriptChecks cx) /\
    List.length undo = List.length rest /\ block_leaves l (vtx block) = Ok ids /\ accepted cx (with_undo ids (vtx block) undo) U fees checks U' /\
    GetBlockSubsidy (nHeight index) (nSubsidyHalvingInterval (GetConsensus config)) = Ok subsidy /\ sum_out (vout coinbase) <= fees + subsidy /\
    Forall (fun c => run_check c = Some true) checks.

Ltac invert_bind E := let b := fresh "b" in let vc1 := fresh "vc" in apply bind_inv in E as (b & vc1 & ?E & E).

Lemma ForceDetach_at U vc b vc' : at_view U vc -> ForceDetach vc = Ok (b, vc') -> with_attached vc' true = vc /\ attached vc' = false.
Proof.
  intros Hvc. unfold ForceDetach. rewrite (vo_attached _ _ _ (av_ok _ _ Hvc)). unfold GetBestBlock. rewrite (av_best _ _ Hvc), bool_decide_eq_false_2 by done.
  intros [= _ <-]. split; [|done]. destruct vc. unfold with_attached. cbn in *. f_equal. symmetry. exact (vo_attached _ _ _ (av_ok _ _ Hvc)).
Qed.

Lemma maybe_detach (parallel : bool) U vc b vc' : at_view U vc -> (if parallel then ForceDetach else mret tt) vc = Ok (b, vc') ->
  with_attached vc' true = vc /\ attached vc' = negb parallel.
Proof.
  intros Hvc. destruct parallel; [by apply (ForceDetach_at U)|]. intros [= _ <-]. pose proof (vo_attached _ _ _ (av_ok _ _ Hvc)) as Ha.
  split; [|done]. destruct vc. unfold with_attached. cbn in *. by rewrite Ha.
Qed.

Lemma checkScripts_sound parallel block pindex index coinbase rest ids st U vc st' undo vc' :
  block_heap env !! pindex = Some index -> pprev index = Some prev -> vtx block = coinbase :: rest -> Forall tx_shape (coinbase :: rest) ->
  IsCoinBase coinbase = true -> Forall (fun tx => IsCoinBase tx = false) rest -> block_leaves l (vtx block) = Ok ids -> fresh ids (coinbase :: rest) U ->
  at_view U vc -> checkScripts l config env frozen_Check in_script_cache run_check parallel block pindex st vc = Ok ((true, st', undo), vc') ->
  exists U', at_view U' (with_attached vc' true) /\ attached vc' = negb parallel /\ st' = st /\ block_accepted block pindex index undo U U'.
Proof.
  intros Hidx Hpp Hvtx Hshape Hcb Hreg Hids Hfr Hvc E. unfold checkScripts in E. rewrite Hidx in E. destruct index as [pp pskip0 height work status version root time bits nonce recv maxt soft fr frc txs chaintxs seq vtime].
  cbn [pprev] in Hpp. subst pp. cbn [nHeight] in *.
  invert_bind E. apply lift_inv in E0 as [Eg ->]. invert_bind E. apply lift_inv in E0 as [Eflags ->]. invert_bind E. apply lift_inv in E0 as [Esize ->].
  invert_bind E. apply lift_inv in E0 as [Esc ->]. set (cx := {| conn_index := pindex |}) in E. rewrite Hvtx in E. invert_bind E. destruct b3 as [[ok st1] pr].
  destruct (whenever_connect_block cx coinbase rest ids st U Hshape Hcb Hreg Hfr vc _ _ Hvc E0) as (U' & Hvc' & Hok). destruct ok; cbn [negb] in E; [|by injection E].
  destruct (Hok eq_refl) as (-> & Hlen & Hacc). invert_bind E. destruct (maybe_detach parallel U' _ _ _ Hvc' E1) as [Erest Eatt].
  invert_bind E. apply lift_inv in E2 as [Esub ->]. invert_bind E. apply lift_inv in E2 as [Erew%amount_add_ok ->]. invert_bind E. apply lift_inv in E2 as [Eout ->].
  assert (GetValueOut coinbase = Ok b6) as Eo by (unfold of_script in Eout; destruct (GetValueOut coinbase); congruence). apply (value_out_loop_ok _ 0) in Eo.
  destruct (Z.ltb_spec b5 b6); [by injection E|]. destruct (control_Wait run_check (vChecks pr)) as [[]|] eqn:Ew; [|by injection E|done].
  injection E as <- <- <-. exists U'. split_and!; [by rewrite Erest | done | done|].
  exists cx, coinbase, rest, ids, (nFees pr), (vChecks pr), b4. split_and!; try done; [by rewrite Hvtx | lia | by apply wait_inv].
Qed.

Lemma GetBestBlock_at vc h vc' : view_ok I A vc -> GetBestBlock vc = Ok (h, vc') -> h = hb -> at_view (shows A vc) vc'.
Proof.
  intros [Ha Hs He]. unfold GetBestBlock. rewrite Ha. destruct (view_best (source vc) Hs) as [Hi EA]. destruct (view_GetBestBlock (source vc)) as [h' v'] eqn:Ev.
  cbn [snd] in Hi, EA. case_bool_decide as Eb; intros [= Eh <-] Ehb.
  - split; cbn; [split; cbn; [done | done | by rewrite EA] | unfold shows; cbn; by rewrite EA | congruence].
  - split; [by split | done | congruence].
Qed.

Lemma whenever_have_outputs txid vout U : forall o, whenever (have_outputs txid o vout) U (fun b U' => U' = U /\ (b = false -> outputs_absent txid o (List.length vout) U)).
Proof.
  induction vout as [|out vout IH]; intros o; cbn [have_outputs]; [apply whenever_ret; split; [done|]; intros _ j Hj; cbn in Hj; lia|].
  eapply whenever_bind; [apply whenever_acts; [apply (HaveCoin_acts I A) | apply keeps_HaveCoin]|]. intros have U' [-> Eh]. destruct have; [by apply whenever_ret|].
  eapply whenever_mono; [apply IH|]. intros b U' [-> Hb]. split; [done|]. intros Hf j Hj. destruct (decide (j = o)) as [->|].
  - symmetry in Eh. apply bool_decide_eq_false in Eh. by apply eq_None_not_Some.
  - apply (Hb Hf). cbn in Hj. lia.
Qed.

Lemma whenever_overwrites vtx U : whenever (overwrites l vtx) U (fun b U' => U' = U /\ (b = false -> Forall (fun tx => absent_from tx U) vtx)).
Proof.
  induction vtx as [|tx vtx IH]; cbn [overwrites]; [by apply whenever_ret|]. eapply whenever_bind; [apply whenever_lift|]. intros txid U' [Eid ->].
  eapply whenever_bind; [apply whenever_have_outputs|]. intros have U' [-> Hh]. destruct have; [by apply whenever_ret|].
  eapply whenever_mono; [apply IH|]. intros b U' [-> Hb]. split; [done|]. intros Hf. constructor; [|by apply Hb].
  intros txid' Eid'. rewrite Eid' in Eid. injection Eid as <-. by apply Hh.
Qed.

Lemma fresh_of ids vtx U : Forall2 (fun tx id => GetId l tx = Ok id) vtx ids -> NoDup ids -> Forall (fun tx => absent_from tx U) vtx -> fresh ids vtx U.
Proof.
  intros Hids Hnd Hab. split; [done|]. apply Forall2_same_length_lookup_2; [symmetry; by eapply Forall2_length|]. intros k id tx Hid Htx.
  pose proof (Forall2_lookup_lr _ _ _ _ _ _ Hids Htx Hid) as E. split; [done|]. by apply (Forall_lookup_1 _ _ _ _ Hab Htx).
Qed.

Lemma tx_shape_of tx : tx_ok tx -> amounts_ok (vout tx) -> (IsCoinBase tx = false -> NoDup (map prevout (vin tx))) -> tx_shape tx.
Proof.
  intros (_ & _ & [Ho Hlen] & _) [Ha _] Hnd. unfold MAX_SIZE in Hlen. split; [lia | | |done].
  - apply list.Forall_forall. intros o Hin. pose proof (proj1 (list.Forall_forall _ _) Ha o Hin) as Hv. pose proof (proj1 (list.Forall_forall _ _) Ho o Hin) as [_ [_ Hs]].
    cbn beta in Hv. unfold MAX_SIZE in Hs. split; [lia | unfold script_size; lia].
  - eapply Forall_impl; [|exact Ha]. cbn. lia.
Qed.

Lemma block_shapes block height options coinbase rest : Transaction.block_ok block -> block_valid l config block height options -> vtx block = coinbase :: rest ->
  Forall tx_shape (coinbase :: rest) /\ IsCoinBase coinbase = true /\ Forall (fun tx => IsCoinBase tx = false) rest.
Proof.
  intros (_ & Htx & _) (_ & _ & cb & r & size & Ev & _ & _ & (Hcb1 & Hcb2 & _) & Hr & _) Evtx. rewrite Ev in Evtx. injection Evtx as -> ->. rewrite Ev in Htx.
  apply Forall_cons_1 in Htx as [Hc Htx]. split_and!; [constructor | done |].
  - apply tx_shape_of; [done | by apply (in_range _ _ _ _ _ Hcb2)|]. congruence.
  - apply list.Forall_forall. intros tx Hin. pose proof (proj1 (list.Forall_forall _ _) Hr tx Hin) as (_ & Hc2 & _ & Hnd & _).
    apply tx_shape_of; [by apply (proj1 (list.Forall_forall _ _) Htx) | by apply (in_range _ _ _ _ _ Hc2) | done].
  - eapply Forall_impl; [|exact Hr]. by intros tx (? & _).
Qed.

(** What the other threads do to the view below: it stays valid, and while its best block is [hb] its coins are the same. *)

Definition others_respect : Prop := forall v, I v -> I (others v) /\ ((view_GetBestBlock (others v)).1 = hb -> A (others v) = A v).

Lemma reattach_sound U vc vc' : others_respect -> at_view U (with_attached vc true) -> attached vc = false ->
  TryReattach (with_source vc (others (source vc))) = Ok (true, vc') -> at_view U vc'.
Proof.
  intros Ho [[_ Hs He] HU Hb] Ha. destruct vc as [src hash s att]. cbn [with_source with_attached source hashBlock mCache attached] in *. subst att hash.
  unfold TryReattach. cbn [attached source with_source]. destruct (Ho src Hs) as [Hi HA]. destruct (view_best (others src) Hi) as [Hi' EA].
  destruct (view_GetBestBlock (others src)) as [h v]. cbn [fst snd] in *. unfold GetBestBlock. cbn [hashBlock]. rewrite bool_decide_eq_false_2 by done.
  case_bool_decide as Eh; intros [= <-]. specialize (HA Eh). rewrite HA in EA. split; cbn [with_attached with_source hashBlock]; [|unfold shows in *; cbn in *; by rewrite EA | done].
  split; cbn; [done | done | by rewrite EA].
Qed.

Lemma finish_sound parallel pindex undo st st' undo' U vc vc' : others_respect -> at_view U (with_attached vc true) -> attached vc = negb parallel ->
  finish_connect env others undo_written index_written parallel pindex undo st vc = Ok ((true, st', undo'), vc') ->
  st' = st /\ undo' = undo /\ view_ok I A vc' /\ shows A vc' = U /\ hashBlock vc' = hash_of env pindex.
Proof.
  intros Ho Hvc Ha E. unfold finish_connect in E. destruct undo_written; cbn [negb] in E; [|by injection E]. destruct index_written; cbn [negb] in E; [|by injection E].
  invert_bind E. destruct b; cbn [negb] in E; [|done]. assert (at_view U vc0) as [[Ha1 Hs1 He1] HU1 _].
  { destruct parallel; cbn [negb] in Ha.
    - invert_bind E0. unfold interleave in E1. injection E1 as _ <-. by eapply reattach_sound.
    - injection E0 as <-. destruct vc. unfold with_attached in Hvc. cbn in *. by subst. }
  invert_bind E. unfold SetBestBlock in E1. injection E1 as _ <-. injection E as <- <- <-. split_and!; [done | done | by split | done | done].
Qed.

(** ** Accepted blocks *)

Lemma Connect_accepted parallel block fChecked pindex index ids st st' undo vc vc' :
  layout_ok l -> Transaction.block_ok block -> Z.of_nat (List.length (vtx block)) <= 2 ^ 31 -> nHeight index <> MEMPOOL_HEIGHT ->
  (fChecked = true -> exists options, block_valid l config block (nHeight index) options) ->
  block_heap env !! pindex = Some index -> pprev index = Some prev -> hash_of env prev = hb ->
  GetBlockHash (block_header block) <> Ok (hashGenesisBlock (GetConsensus config)) ->
  block_leaves l (vtx block) = Ok ids -> NoDup ids ->
  (enforce_bip30 config env pindex (nHeight index) prev = Ok true \/ Forall (fun tx => absent_from tx (shows A vc)) (vtx block)) ->
  others_respect -> view_ok I A vc ->
  Connect l config env frozen_Check in_script_cache run_check others undo_written index_written parallel false block fChecked pindex st vc = Ok ((true, st', undo), vc') ->
  st' = st /\ view_ok I A vc' /\ hashBlock vc' = hash_of env pindex /\ block_accepted block pindex index undo (shows A vc) (shows A vc') /\
  exists options, block_valid l config block (nHeight index) options.
Proof.
  intros Hl Hok Hlen Hh Hchk Hidx Hpp Hhash Hgen Hids Hnd Hbip Ho Hvc E. unfold Connect in E. rewrite Hidx in E. apply bind_inv in E as ([[ok fc] st1] & vc0 & E0 & E).
  apply lift_inv in E0 as [Ec ->]. destruct ok; cbn [negb] in E; [|by injection E]. pose proof Hok as (_ & Htx & _).
  assert (st1 = st /\ exists options, block_valid l config block (nHeight index) options) as [-> [options Hvalid]].
  { unfold CheckBlock in Ec. destruct fChecked; [injection Ec as _ <-; split; [done | by apply Hchk]|].
    set (o := {| checkPoW := negb false |}) in Ec.
    destruct (CheckBlock_checks_decides l Hl config block (nHeight index) o Hok Hlen Hh st) as (b & st2 & E2 & Hb).
    rewrite E2 in Ec. cbn in Ec. injection Ec as -> _ ->. destruct Hb as [Hb ->]. split; [done | by exists o]. }
  clear Ec. apply bind_inv in E as (best & vc0 & E0 & E). apply bind_inv in E as (? & ? & E1 & E). apply lift_inv in E1 as [Eas ->]. rewrite Hpp, Hhash in Eas. rewrite Hpp in E. unfold assert_ in Eas. case_bool_decide as Ebest; [|done].
  pose proof (GetBestBlock_at _ _ _ Hvc E0 (eq_sym Ebest)) as Hat. clear E0. apply bind_inv in E as (hash & ? & E0 & E). apply lift_inv in E0 as [Eh ->].
  rewrite bool_decide_eq_false_2 in E by (intros ->; apply Hgen; unfold of_stream in Eh; destruct (GetBlockHash _); congruence).
  apply bind_inv in E as (enforced & ? & E0 & E). apply lift_inv in E0 as [Ebip ->]. apply bind_inv in E as (already & vc1 & E0 & E).
  assert (exists U', at_view U' vc1 /\ U' = shows A vc /\ (already = false -> Forall (fun tx => absent_from tx (shows A vc)) (vtx block))) as (U' & Hat' & -> & Hab).
  { destruct enforced; [destruct (whenever_overwrites _ _ _ _ _ Hat E0) as (U' & ? & -> & ?); by exists (shows A vc)|].
    injection E0 as <- <-. exists (shows A vc). split_and!; [done | done|]. intros _. destruct Hbip as [Hbip|]; [congruence | done]. }
  destruct already; [by injection E|]. apply bind_inv in E as ([[ok st1] undo1] & vc2 & E1 & E). destruct ok; cbn [negb] in E; [|by injection E].
  destruct Hvalid as (Hv1 & Hv2 & coinbase & rest & Hv3). assert (vtx block = coinbase :: rest) as Hvtx by (by destruct Hv3 as (? & ? & _)).
  assert (block_valid l config block (nHeight index) options) as Hvalid by (by split_and!; [done | done | exists coinbase, rest]).
  destruct (block_shapes block (nHeight index) options coinbase rest Hok Hvalid Hvtx) as (Hshape & Hcb & Hreg).
  destruct (block_leaves_total l Hl (vtx block) Htx) as (ids' & Eids & _ & Hf2). rewrite Hids in Eids. injection Eids as <-. rewrite Hvtx in Hf2, Hab.
  destruct (checkScripts_sound parallel block pindex index coinbase rest ids st (shows A vc) vc1 st1 undo1 vc2) as (U' & Hat2 & Hatt & -> & Hacc);
    [done.. | apply fresh_of; [done | done | by apply Hab] | done | done|].
  destruct (finish_sound _ _ _ _ _ _ _ _ _ Ho Hat2 Hatt E) as (-> & -> & Hvok & HU & Hbest). subst U'. split_and!; [done..| by exists options].
Qed.

Lemma with_undo_rest coinbase rest ids undo : List.length ids = List.length (coinbase :: rest) -> List.length undo = List.length rest ->
  Forall tx_shape (coinbase :: rest) -> Forall (fun tx => IsCoinBase tx = false) rest ->
  exists id L, with_undo ids (coinbase :: rest) undo = (id, coinbase, None) :: L /\
    Forall (fun t => tx_shape t.1.2 /\ IsCoinBase t.1.2 = false /\ is_Some t.2) L.
Proof.
  intros Hids Hundo Hs Hr. destruct ids as [|id ids]; [done|]. unfold with_undo. cbn [zip_with]. eexists id, _. split; [reflexivity|].
  apply Forall_cons_1 in Hs as [_ Hs]. apply list.Forall_forall. intros [[id' tx] u] [k Hk]%list_elem_of_lookup.
  apply lookup_zip_with_Some in Hk as (p & u' & E & Hp & Hu). destruct p as [id2 tx2]. injection E as <- <- <-. apply lookup_zip_with_Some in Hp as (id3 & tx3 & E & _ & Htx). injection E as <- <-.
  rewrite list_lookup_fmap in Hu. cbn [fst snd]. split_and!; [by apply (Forall_lookup_1 _ _ _ _ Hs Htx) | by apply (Forall_lookup_1 _ _ _ _ Hr Htx)|].
  destruct (undo !! k); [by injection Hu as <- | done].
Qed.

(** A block adds at most its subsidy. *)

Lemma block_total block pindex index undo options U U' : layout_ok l -> Transaction.block_ok block -> block_valid l config block (nHeight index) options ->
  block_accepted block pindex index undo U U' ->
  exists subsidy, GetBlockSubsidy (nHeight index) (nSubsidyHalvingInterval (GetConsensus config)) = Ok subsidy /\ total U' <= total U + subsidy.
Proof.
  intros Hl Hok Hv (cx & coinbase & rest & ids & fees & checks & subsidy & Hvtx & _ & _ & _ & _ & Hlen & Hids & Hacc & Hsub & Hrew & _).
  exists subsidy. split; [done|]. destruct (block_shapes block _ options coinbase rest Hok Hv Hvtx) as (Hs & Hcb & Hr). destruct Hok as (_ & Htx & _).
  destruct (block_leaves_total l Hl _ Htx) as (ids' & E & Hl' & _). rewrite Hids in E. injection E as <-. rewrite Hvtx in *.
  destruct (with_undo_rest coinbase rest ids undo Hl' Hlen Hs Hr) as (id & L & E & HLs). rewrite E in Hacc.
  pose proof (total_block cx id coinbase L U fees checks U' (proj1 (Forall_cons_1 _ _ _ Hs)) Hcb HLs Hacc). lia.
Qed.

(** The undo data of a block takes the view back. *)

Lemma block_undone block pindex index undo U U' : block_accepted block pindex index undo U U' -> 0 <= nHeight index < 2 ^ 31 -> nHeight index <> MEMPOOL_HEIGHT ->
  spendable (GetGenesisActivationHeight config) U -> valid_coins U ->
  acts I A (ApplyBlockUndo (fun _ => false) l config undo block (nHeight index)) U' (fun r W => r = DISCONNECT_OK /\ W = U).
Proof.
  intros (cx & coinbase & rest & ids & fees & checks & subsidy & Hvtx & _ & Hh & _ & _ & Hlen & Hids & Hacc & _) Hheight Hmem Hsp Hv.
  apply accepted_connected in Hacc. rewrite Hh in Hacc. unfold ApplyBlockUndo. rewrite Hvtx at 1. cbn [List.length]. rewrite Hlen, Nat.add_1_r, Nat.eqb_refl. cbn [negb].
  eapply acts_bind; [apply (acts_lift I A _ ids); by rewrite Hids|]. intros b W [-> ->].
  eapply acts_bind; [by apply (acts_lift I A), genesis_enabled|]. intros b W [-> ->].
  eapply acts_bind; [by apply (undo_txs_acts I A _ _ _ _ Hheight ltac:(done) _ _ true Hacc Hsp Hv)|]. intros r W [-> ->]. cbn beta iota.
  eapply acts_bind; [apply (SetBestBlock_acts I A)|]. intros _ W ->. by apply acts_ret.
Qed.

End sound.

(** ** Properties *)

Section properties.
Context `{MemUsage} {V : Type} `{HV : ICoinsView V} (I : V -> Prop) (A : V -> gmap COutPoint utxo) `{HL : !CoinsViewLaws V I A}.
Context `{BN_API} (l : layout) (config : Config) (env : node).
Context (frozen_Check : COutPoint -> CTransaction -> bool) (in_script_cache : CTransaction -> Z -> bool) (run_check : CScriptCheck -> option bool).
Context (others : V -> V) (undo_written index_written : bool).

(** The situation in which a block is connected: a well-formed block on a predecessor of the index, on a view that keeps its
    promises.  The ids of its transactions are distinct, and either the rule of BIP 30 is enforced or no output of the
    block is there already.  A block marked as checked has been. *)

Record connecting (block : CBlock) (fChecked : bool) (pindex prev : ptr) (index bprev : CBlockIndex) (ids : list (list Z)) (vc : CCoinsViewCache V) : Prop := {
  cn_layout : layout_ok l;
  cn_block : Transaction.block_ok block;
  cn_size : Z.of_nat (List.length (vtx block)) <= 2 ^ 31;
  cn_height : 0 <= nHeight index < MEMPOOL_HEIGHT;
  cn_checked : fChecked = true -> exists options, block_valid l config block (nHeight index) options;
  cn_index : block_heap env !! pindex = Some index;
  cn_pprev : pprev index = Some prev;
  cn_prev : block_heap env !! prev = Some bprev;
  cn_map : mapBlockIndex env (hash_of env prev) = Some prev;
  cn_hash : hash_of env prev <> uint256_null;
  cn_not_genesis : GetBlockHash (block_header block) <> Ok (hashGenesisBlock (GetConsensus config));
  cn_ids : block_leaves l (vtx block) = Ok ids;
  cn_distinct : NoDup ids;
  cn_bip30 : enforce_bip30 config env pindex (nHeight index) prev = Ok true \/ Forall (fun tx => absent_from l tx (shows A vc)) (vtx block);
  cn_others : others_respect I A (hash_of env prev) others;
  cn_view : view_ok I A vc }.

(** [Connect] outside of a mere check. *)

Definition connect_block (parallel : bool) (block : CBlock) (fChecked : bool) (pindex : ptr) (st : CValidationState) : cached (bool * CValidationState * CBlockUndo) :=
  Connect l config env frozen_Check in_script_cache run_check others undo_written index_written parallel false block fChecked pindex st.

Lemma connect_facts parallel block fChecked pindex prev index bprev ids st st' undo vc vc' :
  connecting block fChecked pindex prev index bprev ids vc -> connect_block parallel block fChecked pindex st vc = Ok ((true, st', undo), vc') ->
  st' = st /\ view_ok I A vc' /\ hashBlock vc' = hash_of env pindex /\
  block_accepted l config env frozen_Check in_script_cache prev bprev run_check block pindex index undo (shows A vc) (shows A vc') /\
  exists options, block_valid l config block (nHeight index) options.
Proof.
  intros [? ? ? ? ? ? ? ? ? ? ? ? ? ? ? ?] E.
  eapply (Connect_accepted I A l config env frozen_Check in_script_cache (hash_of env prev)); try done. lia.
Qed.

(** C3. Soundness of the connection of blocks.  When [Connect] accepts a block on a view that shows [U] (with or without
    parallel validation), the validation state is unchanged, the view is consistent and its best block is this one; the
    block is valid on its own; and the transactions, in order, lead from [U] to the set the view shows now: each one that
    is no coinbase spends coins that are there, that are not frozen, in range and, if coinbases, 100 blocks deep, its
    relative locks are over and it pays no more than it spends; it then removes exactly those coins, which become its undo
    data, and adds its spendable outputs.  The coinbase pays at most the fees and the subsidy.  Unless the block is below
    the one assumed to be valid or the script cache has the transaction, the script of every input has been run, with the
    flags of the block, and has succeeded. *)

Theorem Connect_sound parallel block fChecked pindex prev index bprev ids st st' undo vc vc' :
  connecting block fChecked pindex prev index bprev ids vc -> connect_block parallel block fChecked pindex st vc = Ok ((true, st', undo), vc') ->
  st' = st /\ view_ok I A vc' /\ hashBlock vc' = hash_of env pindex /\
  (exists options, block_valid l config block (nHeight index) options) /\
  block_accepted l config env frozen_Check in_script_cache prev bprev run_check block pindex index undo (shows A vc) (shows A vc').
Proof. intros Hc E. destruct (connect_facts _ _ _ _ _ _ _ _ _ _ _ _ _ Hc E) as (? & ? & ? & ? & ?). done. Qed.

Lemma undo_best_block undo block nHeight vc vc' : ApplyBlockUndo (fun _ => false) l config undo block nHeight vc = Ok (DISCONNECT_OK, vc') ->
  hashBlock vc' = hdr_hashPrevBlock (block_header block).
Proof.
  unfold ApplyBlockUndo. destruct (negb _); [intros [=]|]. intros E. apply bind_inv in E as (ids & vc1 & _ & E). apply bind_inv in E as (g & vc2 & _ & E).
  apply bind_inv in E as (res & vc3 & _ & E). destruct res as [fClean|]; [|by injection E]. apply bind_inv in E as (? & vc4 & E1 & E).
  injection E as _ <-. by injection E1 as _ <-.
Qed.

(** C4. Disconnecting undoes connecting.  Let [Connect] have accepted a block on a view that shows [U], none of whose coins is
    unspendable.  Then [ApplyBlockUndo] with the undo data it made returns [DISCONNECT_OK] on the new view: no output is
    missing or different and no coin is overwritten.  Afterwards the view shows [U] again and its best block is the
    predecessor named in the header. *)

Theorem disconnect_undoes_connect parallel block fChecked pindex prev index bprev ids st st' undo vc vc' :
  connecting block fChecked pindex prev index bprev ids vc -> spendable (GetGenesisActivationHeight config) (shows A vc) ->
  connect_block parallel block fChecked pindex st vc = Ok ((true, st', undo), vc') ->
  exists vc'', ApplyBlockUndo (fun _ => false) l config undo block (nHeight index) vc' = Ok (DISCONNECT_OK, vc'') /\
    view_ok I A vc'' /\ shows A vc'' = shows A vc /\ hashBlock vc'' = hdr_hashPrevBlock (block_header block).
Proof.
  intros Hc Hsp E. destruct (connect_facts _ _ _ _ _ _ _ _ _ _ _ _ _ Hc E) as (_ & Hv & _ & Hacc & _). pose proof (cn_height _ _ _ _ _ _ _ _ Hc) as Hh. unfold MEMPOOL_HEIGHT in Hh.
  destruct (block_undone I A l config env frozen_Check in_script_cache prev bprev run_check block pindex index undo _ _ Hacc ltac:(lia)
    ltac:(unfold MEMPOOL_HEIGHT; lia) Hsp (shows_valid I A vc (cn_view _ _ _ _ _ _ _ _ Hc)) vc' Hv eq_refl) as (r & vc'' & Eu & Hv'' & -> & HW).
  exists vc''. split_and!; [done..|]. by eapply undo_best_block.
Qed.

End properties.

(** ** The supply of a chain *)

(** The coin sets a chain of connected blocks goes through; the genesis block leaves the set empty. *)

Inductive chain_coins `{MemUsage} {V : Type} `{ICoinsView V} `{BN_API} (I : V -> Prop) (A : V -> gmap COutPoint utxo) (l : layout) (config : Config) :
    nat -> gmap COutPoint utxo -> Prop :=
| chain_genesis : chain_coins I A l config 0 ∅
| chain_connect n U env frozen cache run others w1 w2 parallel block fChecked pindex prev index bprev ids st st' undo vc vc' :
    chain_coins I A l config n U -> connecting I A l config env others block fChecked pindex prev index bprev ids vc ->
    shows A vc = U -> nHeight index = Z.of_nat (S n) ->
    connect_block l config env frozen cache run others w1 w2 parallel block fChecked pindex st vc = Ok ((true, st', undo), vc') ->
    chain_coins I A l config (S n) (shows A vc').

(** C5. The money supply is bounded.  After any chain of [n] blocks that [Connect] accepted one after the other, from the empty
    coin set, whatever the index, the caches, the script checks and the other threads did, the unspent coins are worth at
    most the subsidies of the blocks up to height [n], hence at most [MAX_MONEY]. *)

Theorem supply_bounded `{MemUsage} {V : Type} `{ICoinsView V} `{BN_API} (I : V -> Prop) (A : V -> gmap COutPoint utxo) `{!CoinsViewLaws V I A}
    (l : layout) (config : Config) (n : nat) (U : gmap COutPoint utxo) :
  0 < nSubsidyHalvingInterval (GetConsensus config) <= 210000 -> chain_coins I A l config n U ->
  total U <= issued (nSubsidyHalvingInterval (GetConsensus config)) (S n) /\ total U <= MAX_MONEY.
Proof.
  intros Hi Hc. enough (total U <= issued (nSubsidyHalvingInterval (GetConsensus config)) (S n)) as Hle.
  { pose proof (issued_max _ (S n) Hi). lia. }
  induction Hc as [|n U env frozen cache run others w1 w2 parallel block fChecked pindex prev index bprev ids st st' undo vc vc' _ IH Hc HU Hh E].
  { pose proof (issued_max _ 1 Hi) as Hm. exact (proj1 Hm). }
  destruct (connect_facts I A _ _ _ _ _ _ _ _ _ _ _ _ _ _ _ _ _ _ _ _ _ _ Hc E) as (_ & _ & _ & Hacc & options & Hv).
  destruct (block_total _ _ _ _ _ _ _ _ _ _ _ _ _ _ _ (cn_layout _ _ _ _ _ _ _ _ _ _ _ _ _ _ Hc) (cn_block _ _ _ _ _ _ _ _ _ _ _ _ _ _ Hc) Hv Hacc) as (subsidy & Es & Ht).
  rewrite HU in Ht. change (issued ?i (S (S n))) with (issued i (S n) + match GetBlockSubsidy (Z.of_nat (S n)) i with Ok v => v | _ => 0 end).
  rewrite <- Hh, Es. lia.
Qed.

(** ** A connection evaluated *)

#[local] Instance demo_memory : MemUsage := {| script_usage s := Z.of_nat (List.length s); map_usage n := Z.of_nat n; script_usage_nil := eq_refl |}.

#[local] Instance demo_numbers : BN_API := Z_BN.

Definition demo_node : node :=
  {| block_heap := demo_tree; mapBlockIndex hash := if bool_decide (hash = le_bytes 32 1) then Some 1%positive else None; hash_of p := le_bytes 32 (Zpos p);
     best_header := 2%positive; active_height := 0; hashAssumeValid := uint256_null; nMinimumChainWork := uint256_null |}.

Definition demo_first : CBlock := demo_unmined [demo_coinbase 7 (50 * COIN)].

Definition demo_view : CCoinsViewCache CCoinsViewEmpty :=
  {| source := tt; hashBlock := le_bytes 32 1; mCache := {| cacheCoins := ∅; cachedCoinsUsage := 0 |}; attached := true |}.

Definition demo_ids : list (list Z) := Eval vm_compute in match block_leaves demo_layout (vtx demo_first) with Ok ids => ids | _ => [] end.

Notation demo_connecting := (connecting (V := CCoinsViewEmpty) (fun _ => True) (fun _ => ∅) demo_layout demo_Config demo_node (fun v => v)
  demo_first true 2%positive 1%positive (BlockIndex.demo_block 2%positive) (BlockIndex.demo_block 1%positive) demo_ids demo_view).

Lemma demo_first_valid : exists options, block_valid demo_layout demo_Config demo_first (nHeight (BlockIndex.demo_block 2%positive)) options.
Proof.
  assert (Transaction.block_ok demo_first) as Hok by (repeat split; try done; repeat constructor; done).
  destruct (CheckBlock_checks_decides demo_layout demo_layout_ok demo_Config demo_first 1 demo_options Hok) with (st := new_CValidationState)
    as (b & st & E & Hb); [vm_compute; discriminate | discriminate|].
  exists demo_options. replace (nHeight (BlockIndex.demo_block 2%positive)) with 1 by (vm_compute; reflexivity).
  destruct b; [exact (proj1 Hb) | vm_compute in E; discriminate E].
Qed.

Lemma demo_ready : demo_connecting.
Proof.
  split; [apply demo_layout_ok | repeat split; try done; repeat constructor; done | vm_compute; discriminate | vm_compute; split; [discriminate | reflexivity]
    | intros _; apply demo_first_valid | vm_compute; reflexivity | vm_compute; reflexivity | vm_compute; reflexivity | vm_compute; reflexivity
    | vm_compute; discriminate | vm_compute; discriminate | vm_compute; reflexivity | | left; vm_compute; reflexivity | done |].
  - apply NoDup_singleton.
  - split; [done | done | apply map_Forall_empty].
Qed.

Notation demo_connect := (connect_block (V := CCoinsViewEmpty) demo_layout demo_Config demo_node (fun _ _ => true) (fun _ _ => false) (fun _ => Some true) (fun v => v) true true
  false demo_first true 2%positive new_CValidationState demo_view).

Lemma demo_accepts : (match demo_connect with Ok ((ok, _, _), _) => ok | _ => false end) = true.
Proof. vm_compute. reflexivity. Qed.

Lemma demo_connects : exists st undo vc, demo_connect = Ok ((true, st, undo), vc).
Proof.
  pose proof demo_accepts as Ha. destruct demo_connect as [[[[ok st] undo] vc]| |]; [|discriminate Ha..]. exists st, undo, vc. by rewrite Ha.
Qed.

Lemma demo_view_empty : shows (fun _ => ∅) demo_view = ∅.
Proof. apply map_eq. intros o. unfold shows. cbn. by rewrite lookup_overlay, !lookup_empty. Qed.

Lemma Connect_sound_witness : exists st undo vc, demo_connect = Ok ((true, st, undo), vc) /\ hashBlock vc = le_bytes 32 2.
Proof.
  destruct demo_connects as (st & undo & vc & E). exists st, undo, vc. split; [exact E|].
  destruct (Connect_sound (fun _ => True) (fun _ => ∅) demo_layout demo_Config demo_node (fun _ _ => true) (fun _ _ => false) (fun _ => Some true) (fun v => v) true true
    false demo_first true 2%positive 1%positive (BlockIndex.demo_block 2%positive) (BlockIndex.demo_block 1%positive) demo_ids new_CValidationState st undo demo_view vc
    demo_ready E) as (_ & _ & Hb & _). exact Hb.
Defined.

Lemma disconnect_undoes_connect_witness : exists st undo vc vc', demo_connect = Ok ((true, st, undo), vc) /\
  ApplyBlockUndo (fun _ => false) demo_layout demo_Config undo demo_first (nHeight (BlockIndex.demo_block 2%positive)) vc = Ok (DISCONNECT_OK, vc') /\
  shows (V := CCoinsViewEmpty) (fun _ => ∅) vc' = ∅.
Proof.
  destruct demo_connects as (st & undo & vc & E).
  destruct (disconnect_undoes_connect (fun _ => True) (fun _ => ∅) demo_layout demo_Config demo_node (fun _ _ => true) (fun _ _ => false) (fun _ => Some true) (fun v => v) true true
    false demo_first true 2%positive 1%positive (BlockIndex.demo_block 2%positive) (BlockIndex.demo_block 1%positive) demo_ids new_CValidationState st undo demo_view vc
    demo_ready ltac:(rewrite demo_view_empty; apply map_Forall_empty) E) as (vc' & Eu & _ & Hs & _).
  exists st, undo, vc, vc'. split; [exact E|]. split; [exact Eu|]. rewrite Hs. apply demo_view_empty.
Defined.

Lemma supply_bounded_witness : exists vc, chain_coins (V := CCoinsViewEmpty) (fun _ => True) (fun _ => ∅) demo_layout demo_Config 1 (shows (V := CCoinsViewEmpty) (fun _ => ∅) vc) /\
  total (shows (V := CCoinsViewEmpty) (fun _ => ∅) vc) <= MAX_MONEY.
Proof.
  destruct demo_connects as (st & undo & vc & E). exists vc.
  assert (chain_coins (V := CCoinsViewEmpty) (fun _ => True) (fun _ => ∅) demo_layout demo_Config 1 (shows (V := CCoinsViewEmpty) (fun _ => ∅) vc)) as Hc.
  { eapply chain_connect; [apply chain_genesis | apply demo_ready | apply demo_view_empty | vm_compute; reflexivity | exact E]. }
  split; [exact Hc|]. refine (proj2 (supply_bounded (fun _ => True) (fun _ => ∅) demo_layout demo_Config 1 _ _ Hc)). vm_compute. split; [reflexivity | discriminate].
Defined.
