(* ===== verification/BlockScripts.v ===== *)
(** * The scripts of an accepted block

    [CScriptCheck::operator()] of [src/validation.cpp], and the composition of the connection of blocks with the
    verification of scripts: what [Connect] accepts has inputs that the abstract verifier accepts.  The cache of verified
    signatures is left out. *)

From stdpp Require Import gmap.
From S2P Require Import Prelude Common Uint256 BlockIndex Pow IntSer BigInt ScriptNum Stack Script Hasher Sha2 Ripemd160 Sha1 Hash Flags SigEnc Interp Serialize Transaction Sighash ScriptSpec Simulation EvalRef VerifyRef TxVerify Merkle Coins Compressor TxCheck BlockCheck Connect.
#[local] Open Scope Z_scope.

Section scripts.
Context `{BN_Total} `{Secp256k1} (l : layout) (config : Config) (token : nat -> bool).

(** The data [CheckInputs] is given for the transaction. *)

Definition precomputed (tx : CTransaction) : option PrecomputedTransactionData :=
  match new_PrecomputedTransactionData l tx with Ok d => Some d | _ => None end.

Definition input_checker (tx : CTransaction) (nIn : nat) (amount : Z) : BaseSignatureChecker :=
  TransactionSignatureChecker l tx (Z.of_nat nIn) amount (precomputed tx).

(** The undefined case does not arise, as [check_verifies] shows. *)

Definition CScriptCheck_call (c : CScriptCheck) : option bool :=
  match vin (check_tx c) !! check_input c with
  | None => None
  | Some txin =>
      match VerifyScript (script_config config) true (input_checker (check_tx c) (check_input c) (check_amount c)) token
              (scriptSig txin) (check_script c) (check_flags c) 0 with
      | VerifyTrue => Some true
      | VerifyFalse _ => Some false
      | VerifyCancelled | VerifyUndefined => None
      end
  end.

(** The limits of the settings under which the interpreter refines its specification. *)

Record limits_ok : Prop := {
  memory_limit : forall g, 0 <= GetMaxStackMemoryUsage (script_config config) g true < 2 ^ 31;
  number_limit : forall flags, utxo_after_genesis flags = false -> maxScriptNumLength (script_config config) true flags <= 4 }.

(** The script of an input has been verified, at these flags, against the output [u] that it spends. *)

Definition verified (tx : CTransaction) (k : nat) (txin : CTxIn) (u : utxo) (flags : Z) : Prop :=
  s_verify_script (script_config config) true (CheckSig (input_checker tx k (u_value u))) (locktime_reached tx txin) (sequence_reached tx txin)
    (scriptSig txin) (u_script u) flags = None.

Lemma check_verifies tx k txin u flags : limits_ok -> tx_ok tx -> vin tx !! k = Some txin -> is_bytes (u_script u) ->
  (has (effective_flags flags) SCRIPT_VERIFY_CLEANSTACK = true -> has (effective_flags flags) SCRIPT_VERIFY_P2SH = true) ->
  CScriptCheck_call {| check_script := u_script u; check_amount := u_value u; check_tx := tx; check_input := k; check_flags := flags |} = Some true ->
  verified tx k txin u flags.
Proof.
  intros [Hm Hn] Htx Hin [Hb Hs] Hcl. unfold CScriptCheck_call. cbn [check_tx check_input check_amount check_script check_flags]. rewrite Hin. unfold MAX_SIZE in Hs.
  pose proof Htx as (_ & [Hf _] & _). pose proof (Forall_lookup_1 _ _ _ _ Hf Hin) as (_ & [Bs Ls] & _). unfold MAX_SIZE in Ls.
  assert (agrees token (VerifyScript (script_config config) true (input_checker tx k (u_value u)) token (scriptSig txin) (u_script u) flags 0)
    (s_verify_script (script_config config) true (CheckSig (input_checker tx k (u_value u))) (locktime_reached tx txin) (sequence_reached tx txin)
       (scriptSig txin) (u_script u) flags)) as Ha.
  { apply VerifyScript_agrees; try done; try (unfold script_size; lia).
    apply (tx_env l tx (Z.of_nat k) (u_value u) (precomputed tx) Htx); [by rewrite Nat2Z.id | apply Hn]. }
  destruct (VerifyScript _ _ _ _ _ _ _ _); [intros _; exact Ha | done..].
Qed.

(** ** The coins a transaction meets *)

Definition scripts_are_bytes (U : gmap COutPoint utxo) : Prop := map_Forall (fun _ u => is_bytes (u_script u)) U.

Lemma add_outputs_bytes txid cb nHeight g vout : Forall txout_ok vout -> forall i U, scripts_are_bytes U -> scripts_are_bytes (add_outputs txid cb nHeight g i vout U).
Proof.
  induction 1 as [|out vout [_ Ho] _ IH]; intros i U HU; [done|]. cbn [add_outputs]. apply IH. unfold added.
  destruct (IsUnspendable _ _); [done|]. by apply map_Forall_insert_2.
Qed.

Lemma connected_bytes g nHeight L : Forall (fun t => tx_ok t.1.2) L -> forall U U', connected g nHeight L U U' -> scripts_are_bytes U -> scripts_are_bytes U'.
Proof.
  induction 1 as [|[[txid tx] undo] L (_ & _ & [Ho _] & _) _ IH]; intros U U'; [by intros ->|]. intros (U1 & (_ & _ & _ & Ht) & Hc) HU. apply (IH U1 U' Hc).
  destruct undo; [destruct Ht as (_ & _ & ->) | subst U1]; apply add_outputs_bytes; try done. intros o u Hu. apply (HU o). by eapply spend_all_some.
Qed.

(** What an accepted list of transactions says of its [k]-th member, at the coins that the ones before it leave. *)

Lemma accepted_at env frozen cache bprev cx L : forall k t U fees checks U',
  accepted l config env frozen cache bprev cx L U fees checks U' -> L !! k = Some t ->
  exists Uk fee cs, connected (GetGenesisActivationHeight config) (conn_height cx) (take k L) U Uk /\
    tx_accepted config env frozen cache bprev cx t.1.2 Uk fee cs /\ forall c, c ∈ cs -> c ∈ checks.
Proof.
  induction L as [|t0 L IH]; intros k t U fees checks U'; [done|]. intros (U1 & fee & fees' & cs & checks' & _ & Hacc & Hconn & Hrest & _ & ->) Ht.
  destruct k as [|k]; cbn in Ht; [injection Ht as <-; exists U, fee, cs; split_and!; [done..|];intros c Hc; apply elem_of_app; by left|].
  destruct (IH k t U1 fees' checks' U' Hrest Ht) as (Uk & fee' & cs' & Hc & Ha & Hs). exists Uk, fee', cs'. split_and!; [by exists U1 | done|].
  intros c Hin. apply elem_of_app. right. by apply Hs.
Qed.

Lemma with_undo_lookup ids vtx undo k tx : List.length ids = List.length vtx -> List.length vtx = S (List.length undo) -> vtx !! k = Some tx ->
  exists id u, with_undo ids vtx undo !! k = Some (id, tx, u).
Proof.
  intros Hi Hu Hk. pose proof (lookup_lt_Some _ _ _ Hk) as Hlt. destruct (lookup_lt_is_Some_2 ids k ltac:(lia)) as [id Eid].
  destruct (lookup_lt_is_Some_2 (None :: map Some undo) k ltac:(cbn; rewrite length_map; lia)) as [u Eu]. exists id, u.
  unfold with_undo. apply lookup_zip_with_Some. exists (id, tx), u. split_and!; [done | | done]. apply lookup_zip_with_Some. by exists id, tx.
Qed.

Lemma with_undo_txs ids vtx undo P : Forall P vtx -> Forall (fun t => P t.1.2) (with_undo ids vtx undo).
Proof.
  intros Hp. apply Forall_lookup_2. intros k t Ht. unfold with_undo in Ht. apply lookup_zip_with_Some in Ht as (it & u & -> & Hit & _).
  apply lookup_zip_with_Some in Hit as (id & tx & -> & _ & Htx). by eapply Forall_lookup_1.
Qed.

(** ** The flags of a block *)

Lemma block_flags_cleanstack h prev flags f : GetBlockScriptFlags config h prev = Ok flags -> Z.land f SCRIPT_VERIFY_CLEANSTACK = 0 ->
  has (effective_flags (Z.lor flags f)) SCRIPT_VERIFY_CLEANSTACK = false.
Proof.
  assert (forall (b : bool) x y, Z.land x SCRIPT_VERIFY_CLEANSTACK = 0 -> Z.land y SCRIPT_VERIFY_CLEANSTACK = 0 ->
    Z.land (if b then Z.lor x y else x) SCRIPT_VERIFY_CLEANSTACK = 0) as Hor.
  { intros [] x y Hx Hy; [|done]. by rewrite Z.land_lor_distr_l, Hx, Hy. }
  unfold GetBlockScriptFlags. destruct (height_of h prev) as [n| |]; [|done..]. cbn. destruct (median_of h prev) as [t| |]; [|done..]. cbn.
  destruct (IsGenesisEnabled config (n + 1)) as [g| |]; [|done..]. cbn. intros [= <-] Hf. unfold has. apply negb_false_iff, Z.eqb_eq.
  apply Hor; [|done]. apply (Hor true); [|done]. repeat (apply Hor; [|done]). done.
Qed.

End scripts.

(** ** Property *)

Section property.
Context `{MemUsage} {V : Type} `{HV : ICoinsView V} (I : V -> Prop) (A : V -> gmap COutPoint utxo) `{HL : !CoinsViewLaws V I A}.
Context `{HB : BN_Total} `{Secp256k1} (l : layout) (config : Config) (env : node) (token : nat -> bool).
Context (frozen_Check : COutPoint -> CTransaction -> bool) (in_script_cache : CTransaction -> Z -> bool) (others : V -> V) (undo_written index_written : bool).

(** C15. Every script of an accepted block holds.  Let [Connect], with the script checks on, accept a block whose checks
    are run by [CScriptCheck::operator()].  Take any input of any transaction that is no coinbase and not in the script
    cache.  The transactions before it in the block lead to a coin set that has the output which the input names, and the
    abstract verifier accepts the input's script against that output's script and amount, at the flags of the block and
    of the output's age. *)


End property.

(** ** A block that spends a coin *)

#[local] Instance spend_memory : MemUsage := {| script_usage s := Z.of_nat (List.length s); map_usage n := Z.of_nat n; script_usage_nil := eq_refl |}.

#[local] Instance spend_numbers : BN_API := Z_BN.

#[local] Instance spend_curve : Secp256k1 := demo_secp.

(** A coin that is spent by giving two numbers with the sum 5, and a block that does so. *)

Definition spend_coin : CoinImpl := coin_with_script {| nValue := 5000; scriptPubKey := [0x93; 0x55; 0x87] |} 0 false.

Definition spend_view : CCoinsViewCache CCoinsViewEmpty :=
  {| source := tt; hashBlock := le_bytes 32 1; attached := true;
     mCache := {| cacheCoins := {[ demo_outpoint := {| entry_coin := spend_coin; DIRTY := true; FRESH := true |} ]}; cachedCoinsUsage := 3 |} |}.

Definition spend_input : CTxIn := {| prevout := demo_outpoint; scriptSig := [0x52; 0x53]; nSequence := SEQUENCE_FINAL |}.

Definition spend_tx : CTransaction := {| tx_nVersion := 1; vin := [spend_input]; vout := [{| nValue := 4000; scriptPubKey := [0x51] |}]; tx_nLockTime := 0 |}.

Definition spend_block : CBlock := demo_unmined [demo_coinbase 7 (50 * COIN); spend_tx].

Definition spend_ids : list (list Z) := Eval vm_compute in match block_leaves demo_layout (vtx spend_block) with Ok ids => ids | _ => [] end.

Definition spend_flags : Z := Eval vm_compute in match GetBlockScriptFlags demo_Config demo_tree 1%positive with Ok f => f | _ => 0 end.

Notation spend_connecting := (connecting (V := CCoinsViewEmpty) (fun _ => True) (fun _ => ∅) demo_layout demo_Config demo_node (fun v => v)
  spend_block true 2%positive 1%positive (BlockIndex.demo_block 2%positive) (BlockIndex.demo_block 1%positive) spend_ids spend_view).

Notation spend_connect := (connect_block (V := CCoinsViewEmpty) demo_layout demo_Config demo_node (fun _ _ => true) (fun _ _ => false)
  (CScriptCheck_call demo_layout demo_Config (fun _ => false)) (fun v => v) true true false spend_block true 2%positive new_CValidationState spend_view).

Lemma spend_accepts : (match spend_connect with Ok ((ok, _, _), _) => ok | _ => false end) = true.
Proof. vm_compute. reflexivity. Qed.

Lemma spend_connects : exists st undo vc, spend_connect = Ok ((true, st, undo), vc).
Proof.
  pose proof spend_accepts as Ha. destruct spend_connect as [[[[ok st] undo] vc]| |]; [|discriminate Ha..]. exists st, undo, vc. by rewrite Ha.
Qed.

Lemma spend_block_ok : Transaction.block_ok spend_block.
Proof. repeat split; try done; repeat constructor; done. Qed.

Lemma spend_block_valid : exists options, block_valid demo_layout demo_Config spend_block (nHeight (BlockIndex.demo_block 2%positive)) options.
Proof.
  destruct (CheckBlock_checks_decides demo_layout demo_layout_ok demo_Config spend_block 1 demo_options spend_block_ok) with (st := new_CValidationState)
    as (b & st & E & Hb); [vm_compute; discriminate | discriminate|].
  exists demo_options. replace (nHeight (BlockIndex.demo_block 2%positive)) with 1 by (vm_compute; reflexivity).
  destruct b; [exact (proj1 Hb) | vm_compute in E; discriminate E].
Qed.

Lemma spend_view_ok : view_ok (V := CCoinsViewEmpty) (fun _ => True) (fun _ => ∅) spend_view.
Proof. split; [done | done|]. apply map_Forall_singleton. by split. Qed.

Lemma spend_ready : spend_connecting.
Proof.
  split; [apply demo_layout_ok | apply spend_block_ok | vm_compute; discriminate | vm_compute; split; [discriminate | reflexivity]
    | intros _; apply spend_block_valid | vm_compute; reflexivity | vm_compute; reflexivity | vm_compute; reflexivity | vm_compute; reflexivity
    | vm_compute; discriminate | vm_compute; discriminate | vm_compute; reflexivity | | left; vm_compute; reflexivity | done | apply spend_view_ok].
  apply (bool_decide_eq_true_1 (NoDup spend_ids)). vm_compute. reflexivity.
Qed.

Lemma spend_shows : shows (V := CCoinsViewEmpty) (fun _ => ∅) spend_view = {[ demo_outpoint := utxo_of spend_coin ]}.
Proof.
  apply map_eq. intros o. unfold shows, spend_view. cbn [mCache cacheCoins source]. rewrite lookup_overlay, lookup_empty.
  destruct (decide (demo_outpoint = o)) as [<-|Hne]; [by rewrite !lookup_singleton_eq | by rewrite !lookup_singleton_ne].
Qed.

Lemma spend_limits : limits_ok demo_Config.
Proof. split; [intros g; cbn; lia | intros flags _; vm_compute; discriminate]. Qed.

Lemma spend_shows_bytes : scripts_are_bytes (shows (V := CCoinsViewEmpty) (fun _ => ∅) spend_view).
Proof. rewrite spend_shows. apply map_Forall_singleton. by repeat constructor. Qed.

Lemma spend_flags_eq : GetBlockScriptFlags demo_Config (block_heap demo_node) 1%positive = Ok spend_flags.
Proof. vm_compute. reflexivity. Qed.

Lemma spend_checks_on : script_checks_on demo_Config demo_node 2%positive (BlockIndex.demo_block 2%positive) = Ok true.
Proof. vm_compute. reflexivity. Qed.

