(* ===== verification/Replay.v ===== *)
(** * Recovery after a crash

    [RollforwardBlock] and [ReplayBlocks] of [src/validation.cpp]: at start-up a database that a crash has left between two
    tips is brought to the new one, by undoing the blocks of the old branch and applying those of the new, whether or not
    their changes had been written.

    The effect of a block on the coins is a list of assignments to outputs, the same from every coin set.  Together with
    the crash theorem of CoinsDB.v this shows that the database recovers however often a flush or a recovery is cut off. *)

From stdpp Require Import gmap.
From S2P Require Import Prelude Common BlockIndex Script Hasher Sha2 Hash SigEnc Serialize Transaction Merkle Coins Compressor DbWrapper CoinsDB TxCheck BlockCheck Connect.
#[local] Open Scope Z_scope.

(** ** Assignments to outputs *)

Lemma elem_of_concat {A} (x : A) ls : x ∈ concat ls <-> exists l, x ∈ l /\ l ∈ ls.
Proof. rewrite list_elem_of_In, in_concat. setoid_rewrite list_elem_of_In. firstorder. Qed.

Lemma elem_of_rev {A} (x : A) l : x ∈ rev l <-> x ∈ l.
Proof. by rewrite !list_elem_of_In, <- in_rev. Qed.

Definition assign (U : gmap COutPoint utxo) (x : COutPoint * option utxo) : gmap COutPoint utxo :=
  match x.2 with Some u => <[x.1 := u]> U | None => delete x.1 U end.

Definition assigns (l : list (COutPoint * option utxo)) (U : gmap COutPoint utxo) : gmap COutPoint utxo := foldl assign U l.

Lemma assigns_app l1 l2 U : assigns (l1 ++ l2) U = assigns l2 (assigns l1 U).
Proof. apply foldl_app. Qed.

Lemma lookup_assign U x o : assign U x !! o = if decide (x.1 = o) then x.2 else U !! o.
Proof.
  destruct x as [o' [u|]]; cbn; destruct (decide (o' = o)) as [->|]; [apply lookup_insert_eq | by apply lookup_insert_ne | apply lookup_delete_eq | by apply lookup_delete_ne].
Qed.

Lemma assigns_other l U o : o ∉ l.*1 -> assigns l U !! o = U !! o.
Proof.
  revert U. induction l as [|x l IH]; intros U Ho; [done|]. cbn [fmap list_fmap] in Ho. apply not_elem_of_cons in Ho as [Hne Ho]. cbn [assigns foldl]. unfold assigns in IH. rewrite IH by done. rewrite lookup_assign. by rewrite decide_False.
Qed.

(** What is assigned does not depend on the coin set. *)

Lemma assigns_same l U W o : o ∈ l.*1 -> assigns l U !! o = assigns l W !! o.
Proof.
  induction l as [|x l IH] using rev_ind; intros Ho; [by apply not_elem_of_nil in Ho|]. rewrite !assigns_app. cbn [assigns foldl]. rewrite !lookup_assign. destruct (decide (x.1 = o)); [done|]. apply IH.
  rewrite fmap_app, elem_of_app in Ho. destruct Ho as [|Ho]; [done|]. cbn in Ho. apply list_elem_of_singleton in Ho. congruence.
Qed.

(** Assignments of the values of [U] lead to [U] from every set that agrees with it elsewhere. *)

Lemma assigns_to l W U : (forall x, x ∈ l -> x.2 = U !! x.1) -> (forall o, o ∉ l.*1 -> W !! o = U !! o) -> assigns l W = U.
Proof.
  intros Hl Hw. apply map_eq. intros o. destruct (decide (o ∈ l.*1)) as [Ho|Ho]; [|rewrite assigns_other by done; by apply Hw]. clear Hw. induction l as [|x l IH] using rev_ind; [by apply not_elem_of_nil in Ho|].
  rewrite assigns_app. cbn [assigns foldl]. rewrite lookup_assign. destruct (decide (x.1 = o)) as [<-|Hne]; [apply Hl, elem_of_app; right; left|]. apply IH; [intros y Hy; apply Hl, elem_of_app; by left|].
  rewrite fmap_app, elem_of_app in Ho. destruct Ho as [|Ho]; [done|]. cbn in Ho. apply list_elem_of_singleton in Ho. congruence.
Qed.

(** The heart of the recovery: from a mixture of two coin sets, undoing one branch and applying the other leads to the
    second, because every output that a branch touches gets its final value. *)

Lemma replay_mixture back forth F O N M : assigns back O = F -> assigns forth F = N -> (forall o, M !! o = O !! o \/ M !! o = N !! o) -> assigns forth (assigns back M) = N.
Proof.
  intros Eb Ef Hm. apply map_eq. intros o. destruct (decide (o ∈ forth.*1)) as [Ho|Ho]; [rewrite <- Ef; by apply assigns_same|]. rewrite assigns_other by done.
  assert (N !! o = F !! o) as EN by (rewrite <- Ef; by apply assigns_other). destruct (decide (o ∈ back.*1)) as [Hb|Hb]; [rewrite (assigns_same back M O) by done; by rewrite Eb, EN|].
  rewrite assigns_other by done. assert (F !! o = O !! o) as EF by (rewrite <- Eb; by apply assigns_other). destruct (Hm o) as [-> | ->]; congruence.
Qed.

(** ** The assignments of a transaction *)

Section effects.
Context (g nHeight : Z).

Definition put (o : COutPoint) (u : utxo) : list (COutPoint * option utxo) := if IsUnspendable (u_script u) (g <=? u_height u) then [] else [(o, Some u)].

Fixpoint put_outputs (txid : list Z) (cb : bool) (i : nat) (vout : list CTxOut) : list (COutPoint * option utxo) :=
  match vout with
  | [] => []
  | out :: vout => put (outpoint_at txid i) (output_coin out nHeight cb) ++ put_outputs txid cb (S i) vout
  end.

Definition take_inputs (inputs : list CTxIn) : list (COutPoint * option utxo) := (fun i => (prevout i, None)) <$> inputs.

Definition forth_tx (t : list Z * CTransaction) : list (COutPoint * option utxo) :=
  (if IsCoinBase t.2 then [] else take_inputs (vin t.2)) ++ put_outputs t.1 (IsCoinBase t.2) 0 (vout t.2).

Definition forth_txs (l : list (list Z * CTransaction)) : list (COutPoint * option utxo) := concat (forth_tx <$> l).

Fixpoint take_outputs (txid : list Z) (i : nat) (vout : list CTxOut) : list (COutPoint * option utxo) :=
  match vout with
  | [] => []
  | out :: vout => (if IsUnspendable (scriptPubKey out) (g <=? nHeight) then [] else [(outpoint_at txid i, None)]) ++ take_outputs txid (S i) vout
  end.

Definition put_inputs (l : list (CTxIn * CoinImpl)) : list (COutPoint * option utxo) := concat ((fun ic => put (prevout ic.1) (utxo_of ic.2)) <$> l).

Definition back_tx (t : list Z * CTransaction * option CTxUndo) : list (COutPoint * option utxo) :=
  take_outputs t.1.1 0 (vout t.1.2) ++ match t.2 with None => [] | Some cs => put_inputs (rev (zip (vin t.1.2) cs)) end.

Definition back_txs (L : list (list Z * CTransaction * option CTxUndo)) : list (COutPoint * option utxo) := concat (back_tx <$> rev L).

Lemma assigns_put o u U : assigns (put o u) U = added o u g U.
Proof. unfold put, added. by destruct (IsUnspendable _ _). Qed.

Lemma assigns_put_outputs txid cb vout : forall i U, assigns (put_outputs txid cb i vout) U = add_outputs txid cb nHeight g i vout U.
Proof. induction vout as [|out vout IH]; intros i U; [done|]. cbn [put_outputs add_outputs]. by rewrite assigns_app, assigns_put, IH. Qed.

Lemma assigns_take_inputs inputs : forall U, assigns (take_inputs inputs) U = spend_all inputs U.
Proof. induction inputs as [|i inputs IH]; intros U; [done|]. apply (IH (delete (prevout i) U)). Qed.

(** Coinbase transactions have no undo record, and only they. *)

Definition coinbase_shape (t : list Z * CTransaction * option CTxUndo) : Prop := if IsCoinBase t.1.2 then t.2 = None else is_Some t.2.

Lemma tx_forth t U U' : tx_connected g nHeight t U U' -> coinbase_shape t -> U' = assigns (forth_tx t.1) U.
Proof.
  destruct t as [[txid tx] undo]. unfold tx_connected, coinbase_shape, forth_tx. cbn [fst snd]. intros (_ & _ & _ & Ht). rewrite assigns_app, assigns_put_outputs. destruct (IsCoinBase tx).
  - by intros ->.
  - intros [cs ->]. destruct Ht as (_ & _ & ->). by rewrite assigns_take_inputs.
Qed.

Lemma txs_forth L : Forall coinbase_shape L -> forall U U', connected g nHeight L U U' -> U' = assigns (forth_txs L.*1) U.
Proof.
  induction 1 as [|t L Ht _ IH]; intros U U'; [by intros ->|]. intros (U1 & H1 & H2). unfold forth_txs in *. cbn [fmap list_fmap concat]. rewrite assigns_app, <- (tx_forth t U U1) by done. by apply IH.
Qed.

Lemma in_put_outputs txid cb vout : 0 <= nHeight < 2 ^ 31 -> forall i o, o ∈ (put_outputs txid cb i vout).*1 -> o ∈ (take_outputs txid i vout).*1.
Proof.
  intros Hh. induction vout as [|out vout IH]; intros i o; [done|]. cbn [put_outputs take_outputs]. rewrite !fmap_app, !elem_of_app. unfold put. rewrite output_height by done. change (u_script (output_coin out nHeight cb)) with (scriptPubKey out).
  destruct (IsUnspendable _ _); [intros [?%not_elem_of_nil|?]; [done | right; by apply IH]|]. intros [Hin|?]; [by left | right; by apply IH].
Qed.

Lemma in_take_outputs txid vout : forall i x, x ∈ take_outputs txid i vout -> x.2 = None /\ exists j, (i <= j < i + List.length vout)%nat /\ x.1 = outpoint_at txid j.
Proof.
  induction vout as [|out vout IH]; intros i x; [by intros ?%not_elem_of_nil|]. cbn [take_outputs]. rewrite elem_of_app. cbn [List.length]. intros [Hx|Hx].
  - destruct (IsUnspendable _ _); [by apply not_elem_of_nil in Hx|]. apply list_elem_of_singleton in Hx as ->. split; [done|]. exists i. split; [lia | done].
  - destruct (IH (S i) x Hx) as (E & j & Hj & Ej). split; [done|]. exists j. split; [lia | done].
Qed.

(** Undoing a transaction assigns the values before it. *)

Lemma tx_back t U U' : 0 <= nHeight < 2 ^ 31 -> tx_connected g nHeight t U U' -> coinbase_shape t -> spendable g U -> assigns (back_tx t) U' = U.
Proof.
  intros Hh Hc Hs Hsp. pose proof (tx_forth t U U' Hc Hs) as ->. destruct t as [[txid tx] undo]. unfold coinbase_shape in Hs. cbn [fst snd] in *. destruct Hc as (_ & _ & Hab & Ht). unfold back_tx, forth_tx. cbn [fst snd]. apply assigns_to.
  - intros x [Hx|Hx]%elem_of_app.
    + destruct (in_take_outputs _ _ _ _ Hx) as (-> & j & Hj & ->). symmetry. apply Hab. lia.
    + destruct undo as [cs|]; [|by apply not_elem_of_nil in Hx]. destruct Ht as (_ & Hm & _). unfold put_inputs in Hx. apply elem_of_concat in Hx as (l & Hx & Hl). apply list_elem_of_fmap in Hl as ([i c] & -> & Hic).
      rewrite elem_of_rev in Hic. unfold put in Hx. cbn [fst snd] in Hx. destruct (IsUnspendable _ _); [by apply not_elem_of_nil in Hx|]. apply list_elem_of_singleton in Hx as ->. cbn.
      apply list_elem_of_lookup_1 in Hic as [k Hk]. apply lookup_zip_Some in Hk as [Hi Hc]. destruct (Forall2_lookup_lr _ _ _ _ _ _ Hm Hi Hc) as [E _ _]. done.
  - intros o Ho. apply assigns_other. intros Hin. apply Ho. rewrite fmap_app, elem_of_app in Hin |- *. destruct Hin as [Hin|Hin]; [|left; by eapply in_put_outputs]. right. destruct (IsCoinBase tx); [by apply not_elem_of_nil in Hin|].
    destruct Hs as [cs ->]. destruct Ht as (_ & Hm & _). apply list_elem_of_fmap in Hin as (x & -> & Hx). apply list_elem_of_fmap in Hx as (i & -> & Hi). cbn. apply list_elem_of_lookup_1 in Hi as [k Hi]. destruct (Forall2_lookup_l _ _ _ _ _ Hm Hi) as (c & Hc & [E _ _]).
    apply list_elem_of_fmap. exists (prevout i, Some (utxo_of c)). split; [done|]. unfold put_inputs. apply elem_of_concat. eexists. split; [|apply list_elem_of_fmap; exists (i, c); split; [done|]].
    + unfold put. cbn [fst snd]. rewrite (Hsp _ _ E). left.
    + apply elem_of_rev. eapply list_elem_of_lookup_2. apply lookup_zip_Some. done.
Qed.

Lemma back_txs_snoc L t : back_txs (L ++ [t]) = back_tx t ++ back_txs L.
Proof. unfold back_txs. rewrite rev_app_distr. done. Qed.

Lemma txs_back L U U' : 0 <= nHeight < 2 ^ 31 -> Forall coinbase_shape L -> connected g nHeight L U U' -> spendable g U -> assigns (back_txs L) U' = U.
Proof.
  intros Hh Hs. revert U'. induction L as [|t L IH] using rev_ind; intros U' Hc Hsp; [cbn in Hc; by subst|]. apply Forall_app in Hs as [Hs Ht%Forall_inv]. apply connected_app in Hc as (Um & Hc & U1 & Hc1 & ->).
  rewrite back_txs_snoc, assigns_app, (tx_back t Um U1 Hh Hc1 Ht) by (by eapply spendable_connected). by apply IH.
Qed.

(** The undo records of connected transactions can be put back. *)

Definition undo_shape (t : list Z * CTransaction * option CTxUndo) : Prop := forall cs, t.2 = Some cs -> List.length cs = List.length (vin t.1.2) /\ Forall addable cs.

Lemma connected_undo L : forall U U', connected g nHeight L U U' -> map_Forall (fun _ u => utxo_ok u) U -> Forall undo_shape L.
Proof.
  induction L as [|t L IH]; intros U U' Hc Hv; [constructor|]. pose proof Hc as (U1 & Ht & Hc'). constructor; [|apply (IH U1 U' Hc'); apply (valid_connected g nHeight [t] U U1); [by exists U1 | done]].
  destruct t as [[txid tx] undo]. intros cs E. cbn in E. subst undo. destruct Ht as (_ & _ & _ & _ & Hm & _). split; [symmetry; by eapply Forall2_length|].
  apply Forall_lookup_2. intros k c Hk. destruct (Forall2_lookup_r _ _ _ _ _ Hm Hk) as (i & _ & [E Hcode Hs]). destruct (Hv _ _ E) as [Hval Hsz]. split_and!; [done | by apply Z.eqb_neq | done | done].
Qed.

End effects.

(** ** The code on an arbitrary coin set *)

Section code.
Context `{MemUsage} {V : Type} `{HV : ICoinsView V}.

(** The inner loop of [RollforwardBlock]; a transaction that can be read has an id. *)

Fixpoint spend_ignoring (inputs : list CTxIn) : cached (V := V) unit :=
  match inputs with
  | [] => mret tt
  | txin :: inputs => _ ← SpendCoin (prevout txin) false; spend_ignoring inputs
  end.

Fixpoint roll_txs (nHeight genesisActivationHeight : Z) (l : list (list Z * CTransaction)) : cached (V := V) unit :=
  match l with
  | [] => mret tt
  | (txid, tx) :: l =>
      _ ← (if negb (IsCoinBase tx) then spend_ignoring (vin tx) else mret tt);
      _ ← AddCoins tx txid nHeight genesisActivationHeight true;
      roll_txs nHeight genesisActivationHeight l
  end.

Context (I : V -> Prop) (A : V -> gmap COutPoint utxo) `{HL : !CoinsViewLaws V I A}.
Notation acts := (acts I A).

Lemma spend_ignoring_acts inputs : forall U, acts (spend_ignoring inputs) U (fun _ U' => U' = assigns (take_inputs inputs) U).
Proof.
  induction inputs as [|i inputs IH]; intros U; [by apply acts_ret|]. cbn [spend_ignoring]. eapply acts_bind; [apply (SpendCoin_acts I A)|]. intros [b r] U' [-> _]. apply IH.
Qed.

Definition outputs_shape (t : list Z * CTransaction) : Prop := Z.of_nat (List.length (vout t.2)) <= 2 ^ 32 /\ Forall output_ok (vout t.2).

Lemma roll_txs_acts nHeight g l : Forall outputs_shape l -> forall U, acts (roll_txs nHeight g l) U (fun _ U' => U' = assigns (forth_txs g nHeight l) U).
Proof.
  induction 1 as [|[txid tx] l [Hlen Hok] _ IH]; intros U; [by apply acts_ret|]. cbn [roll_txs]. cbn [fst snd] in *. eapply (acts_bind I A _ _ _ (fun _ U' => U' = assigns (if IsCoinBase tx then [] else take_inputs (vin tx)) U)).
  - destruct (IsCoinBase tx); cbn [negb]; [by apply acts_ret | apply spend_ignoring_acts].
  - intros _ U' ->. eapply acts_bind; [apply (AddCoins_acts I A); [done | done | by left]|]. intros _ U' ->. eapply acts_mono; [apply IH|]. intros _ U' ->. unfold forth_txs. cbn [fmap list_fmap concat]. rewrite assigns_app. f_equal.
    unfold forth_tx. cbn [fst snd]. by rewrite assigns_app, assigns_put_outputs.
Qed.

Lemma undo_outputs_any txid g nHeight vout : forall i U fClean, acts (undo_outputs txid (g <=? nHeight) i vout fClean) U (fun _ U' => U' = assigns (take_outputs g nHeight txid i vout) U).
Proof.
  induction vout as [|out vout IH]; intros i U fClean; [by apply acts_ret|]. cbn [undo_outputs take_outputs]. destruct (IsUnspendable (scriptPubKey out) (g <=? nHeight)); [apply IH|].
  eapply acts_bind; [apply (SpendCoin_acts I A)|]. intros [b r] U' [-> _]. eapply acts_mono; [apply IH|]. by intros _ U' ->.
Qed.

Lemma UndoCoinSpend_any c o g U : addable c -> acts (UndoCoinSpend c o g) U (fun r U' => r <> DISCONNECT_FAILED /\ U' = assigns (put g o (utxo_of c)) U).
Proof.
  intros (Hc & Hns & Hs & Hsz). eapply acts_bind; [apply (HaveCoin_acts I A)|]. intros b U' [-> ->]. eapply acts_bind; [apply (AddCoin_acts I A) with (U := U); [split_and!; [by apply (remake_code true c) | done | done | done]|]|].
  - rewrite negb_involutive. intros Hb%bool_decide_eq_false_1. destruct (U !! o); [|done]. by destruct Hb.
  - intros _ U' ->. apply acts_ret. split; [by destruct (bool_decide _)|]. by rewrite assigns_put, (remake_utxo true c Hc).
Qed.

Lemma undo_inputs_any g l : Forall (fun ic => addable ic.2) l -> forall U fClean, acts (undo_inputs l g fClean) U (fun r U' => is_Some r /\ U' = assigns (put_inputs g l) U).
Proof.
  induction 1 as [|[i c] l Hc _ IH]; intros U fClean; [by apply acts_ret|]. cbn [undo_inputs]. eapply acts_bind; [by apply UndoCoinSpend_any|]. intros r U' [Hr ->].
  unfold put_inputs. cbn [fmap list_fmap concat fst snd]. destruct r; [| |done]; (eapply acts_mono; [apply IH|]; intros r' U' [? ->]; split; [done | by rewrite assigns_app]).
Qed.

Lemma undo_txs_any shutdown g nHeight L : (forall k, shutdown k = false) -> Forall undo_shape L -> forall U fClean,
  acts (undo_txs shutdown (g <=? nHeight) g L fClean) U (fun r U' => is_Some r /\ U' = assigns (concat (back_tx g nHeight <$> L)) U).
Proof.
  intros Hsh. induction 1 as [|[[txid tx] undo] L Hu _ IH]; intros U fClean; [by apply acts_ret|]. cbn [undo_txs fmap list_fmap concat]. rewrite Hsh. eapply acts_bind; [apply undo_outputs_any|]. intros b U' ->. unfold back_tx at 1. cbn [fst snd].
  destruct undo as [cs|].
  - destruct (Hu cs eq_refl) as [Hl Ha]. cbn [fst snd] in Hl. rewrite Hl, Nat.eqb_refl. cbn [negb]. eapply acts_bind; [apply undo_inputs_any|].
    + apply list.Forall_forall. intros [i c]. rewrite elem_of_rev. intros Hic. apply list_elem_of_lookup_1 in Hic as [k [_ Hk]%lookup_zip_Some]. exact (Forall_lookup_1 _ _ _ _ Ha Hk).
    + intros r U' [[fc ->] ->]. eapply acts_mono; [apply IH|]. intros r' U' [? ->]. split; [done|]. by rewrite !assigns_app.
  - eapply acts_mono; [apply IH|]. intros r' U' [? ->]. split; [done|]. by rewrite app_nil_r, assigns_app.
Qed.

Lemma ApplyBlockUndo_any (l : layout) (config : Config) undo block nHeight ids U : let g := GetGenesisActivationHeight config in
  nHeight <> MEMPOOL_HEIGHT -> (List.length undo + 1)%nat = List.length (vtx block) -> block_leaves l (vtx block) = Ok ids -> Forall undo_shape (with_undo ids (vtx block) undo) ->
  acts (ApplyBlockUndo (fun _ => false) l config undo block nHeight) U (fun r U' => r <> DISCONNECT_FAILED /\ U' = assigns (back_txs g nHeight (with_undo ids (vtx block) undo)) U).
Proof.
  intros g Hh Hlen Hids Hu. unfold ApplyBlockUndo. rewrite Hlen, Nat.eqb_refl. cbn [negb]. eapply acts_bind; [apply (acts_lift I A _ ids); by rewrite Hids|]. intros b W [-> ->].
  eapply acts_bind; [by apply (acts_lift I A), genesis_enabled|]. intros b W [-> ->]. eapply acts_bind; [apply undo_txs_any; [done|]; apply list.Forall_forall; intros t; rewrite elem_of_rev; intros Ht; by apply (proj1 (list.Forall_forall _ _) Hu)|].
  intros r W [[fc ->] ->]. cbn beta iota. eapply acts_bind; [apply (SetBestBlock_acts I A)|]. intros _ W ->. apply acts_ret. split; [by destruct fc | done].
Qed.

End code.

(** ** The recovery *)

Section replay.
Context `{MemUsage} `{SecpSerialize} {D : Type} `{LevelDB D} (l : layout) (config : Config) (env : Connect.node).

(** The block and undo files. *)

Context (read_block : ptr -> option CBlock) (read_undo : ptr -> option CBlockUndo).

Notation span := (cached (V := CoinsDB D)).

Definition deref (p : ptr) : span CBlockIndex := lift (match block_heap env !! p with Some b => Ok b | None => Abort end).

Definition DisconnectBlock (p : ptr) (b : CBlockIndex) (block : CBlock) : span DisconnectResult :=
  match read_undo p with
  | None => mret DISCONNECT_FAILED
  | Some blockUndo => ApplyBlockUndo (fun _ => false) l config blockUndo block (nHeight b)
  end.

Definition RollforwardBlock (p : ptr) : span bool :=
  match read_block p with
  | None => mret false
  | Some block =>
      b ← deref p;
      ids ← lift (of_stream (block_leaves l (vtx block)));
      _ ← roll_txs (nHeight b) (GetGenesisActivationHeight config) (zip ids (vtx block));
      mret true
  end.

(** [while (pindexOld != pindexFork)]: at most once per height. *)

Fixpoint rollback (fuel : nat) (pindexOld pindexFork : option ptr) : span bool :=
  if bool_decide (pindexOld = pindexFork) then mret true
  else
    match fuel, pindexOld with
    | S fuel, Some p =>
        b ← deref p;
        if 0 <? nHeight b then
          match read_block p with
          | None => mret false
          | Some block =>
              res ← DisconnectBlock p b block;
              match res with
              | DISCONNECT_FAILED => mret false
              | _ => rollback fuel (pprev b) pindexFork
              end
          end
        else rollback fuel (pprev b) pindexFork
    | _, _ => lift Abort
    end.

(** [for (nHeight = nForkHeight + 1; nHeight <= pindexNew->GetHeight(); ++nHeight)]. *)

Fixpoint roll_forward (turns : nat) (nHeight : Z) (pindexNew : ptr) : span bool :=
  match turns with
  | O => mret true
  | S turns =>
      match GetAncestor (block_heap env) pindexNew nHeight with
      | Some (Some pindex) => ok ← RollforwardBlock pindex; if (ok : bool) then roll_forward turns (nHeight + 1) pindexNew else mret false
      | _ => lift Abort
      end
  end.

(** The height of a pointer that may be null. *)

Definition fork_height (p : option ptr) : Z := match p with Some p => match block_heap env !! p with Some b => nHeight b | None => 0 end | None => 0 end.

Definition replay (pindexOld pindexFork : option ptr) (pindexNew : ptr) : span bool :=
  ok ← rollback (Z.to_nat (fork_height pindexOld) + 1) pindexOld pindexFork;
  if (ok : bool) then
    ok ← roll_forward (Z.to_nat (fork_height (Some pindexNew) - fork_height pindexFork)) (fork_height pindexFork + 1) pindexNew;
    if (ok : bool) then _ ← SetBestBlock (hash_of env pindexNew); mret true else mret false
  else mret false.

Definition ReplayBlocks (order : gmap COutPoint CCoinsCacheEntry -> list (COutPoint * CCoinsCacheEntry)) (v : CoinsDB D) : outcome coins_exn (bool * CoinsDB D) :=
  match GetHeadBlocks (db v) with
  | [] => Ok (true, v)
  | [head0; head1] =>
      match mapBlockIndex env head0 with
      | None => Ok (false, v)
      | Some pindexNew =>
          let from (pindexOld pindexFork : option ptr) :=
            '(ok, cache) ← replay pindexOld pindexFork pindexNew (new_CCoinsViewCache v);
            if (ok : bool) then cache ← TryFlush order cache; Ok (true, source cache) else Ok (false, source cache) in
          if bool_decide (head1 = uint256_null) then from None None
          else
            match mapBlockIndex env head1 with
            | None => Ok (false, v)
            | Some pindexOld =>
                match LastCommonAncestor (block_heap env) pindexOld pindexNew with
                | Some (Some pindexFork) => from (Some pindexOld) (Some pindexFork)
                | _ => Abort
                end
            end
      end
  | _ => Ok (false, v)
  end.

End replay.

(** ** The coins of a chain *)

Section chain.
Context (l : layout) (config : Config) (env : Connect.node) (read_block : ptr -> option CBlock) (read_undo : ptr -> option CBlockUndo).
Notation g := (GetGenesisActivationHeight config).
Notation h := (block_heap env).

(** A block on disk, with the undo data its connection wrote, that leads from [U] to [U']. *)

Record stored (p : ptr) (b : CBlockIndex) (block : CBlock) (undo : CBlockUndo) (ids : list (list Z)) (U U' : gmap COutPoint utxo) : Prop := {
  st_block : read_block p = Some block;
  st_undo : read_undo p = Some undo;
  st_ids : block_leaves l (vtx block) = Ok ids;
  st_length : List.length ids = List.length (vtx block) /\ (List.length undo + 1)%nat = List.length (vtx block);
  st_height : 0 <= nHeight b < MEMPOOL_HEIGHT;
  st_coinbase : Forall coinbase_shape (with_undo ids (vtx block) undo);
  st_keep : Forall (fun t => is_uint256 t.1.1 /\ Forall compressible (vout t.1.2)) (with_undo ids (vtx block) undo);
  st_connected : connected g (nHeight b) (with_undo ids (vtx block) undo) U U' }.

(** The coin set of a block; the first block's outputs are not spendable. *)

Inductive coins_at : ptr -> gmap COutPoint utxo -> Prop :=
| coins_genesis p b : h !! p = Some b -> pprev b = None -> coins_at p ∅
| coins_step p b q U U' block undo ids : h !! p = Some b -> pprev b = Some q -> coins_at q U -> stored p b block undo ids U U' -> coins_at p U'.

Lemma connected_functional nHeight L : forall U U1 U2, connected g nHeight L U U1 -> connected g nHeight L U U2 -> U1 = U2.
Proof.
  induction L as [|[[txid tx] undo] L IH]; intros U U1 U2; cbn [connected]; [by intros -> ->|]. intros (W1 & (_ & _ & _ & T1) & C1) (W2 & (_ & _ & _ & T2) & C2). assert (W1 = W2) as ->; [|by eapply IH].
  destruct undo; [|congruence]. destruct T1 as (_ & _ & ->). by destruct T2 as (_ & _ & ->).
Qed.

Lemma coins_at_functional p U1 U2 : coins_at p U1 -> coins_at p U2 -> U1 = U2.
Proof.
  intros H1. revert U2. induction H1 as [p b Hp Hb|p b q U U' block undo ids Hp Hb _ IH Hs]; intros U2 H2; inversion H2 as [p' b' Hp' Hb'|p' b' q' W W' block' undo' ids' Hp' Hb' Hq' Hs']; subst; simplify_eq; [done|].
  apply IH in Hq' as <-. destruct Hs as [B1 U1 I1 _ _ _ _ C1], Hs' as [B2 U2' I2 _ _ _ _ C2]. assert (block' = block) as -> by congruence. assert (undo' = undo) as -> by congruence. assert (ids' = ids) as -> by congruence. by eapply connected_functional.
Qed.

Lemma coins_at_block p U : coins_at p U -> exists b, h !! p = Some b.
Proof. intros []; eauto. Qed.

Lemma put_keepable txid cb nHeight vout : is_uint256 txid -> Forall compressible vout -> forall i U, keepable_set U -> keepable_set (add_outputs txid cb nHeight g i vout U).
Proof.
  intros Hid. induction 1 as [|out vout Ho _ IH]; intros i U HU; [done|]. cbn [add_outputs]. apply IH. unfold added. destruct (IsUnspendable _ _); [done|]. apply map_Forall_insert_2; [|done]. split; [|exact Ho].
  split; [exact Hid|]. cbn. unfold u32. apply Z.mod_pos_bound. lia.
Qed.

Lemma connected_keepable nHeight L : Forall (fun t => is_uint256 t.1.1 /\ Forall compressible (vout t.1.2)) L -> forall U U', connected g nHeight L U U' -> keepable_set U -> keepable_set U'.
Proof.
  induction 1 as [|[[txid tx] undo] L [Hid Ho] _ IH]; intros U U'; [by intros ->|]. intros (U1 & (_ & _ & _ & Ht) & Hc) HU. apply (IH U1 U' Hc). cbn [fst snd] in *.
  destruct undo; [destruct Ht as (_ & _ & ->) | subst U1]; apply put_keepable; try done. intros o u Hu. apply (HU o). by eapply spend_all_some.
Qed.

Lemma coins_at_ok p U : coins_at p U -> spendable g U /\ keepable_set U.
Proof.
  induction 1 as [p b _ _|p b q U U' block undo ids _ _ _ [IH1 IH2] Hs]; [split; apply map_Forall_empty|]. split; [eapply spendable_connected; [apply Hs | done] | eapply connected_keepable; [apply Hs | apply Hs | done]].
Qed.

Lemma keepable_valid U : keepable_set U -> map_Forall (fun _ u => utxo_ok u) U.
Proof. intros HU o u Hu. by apply keepable_ok, (HU o u Hu). Qed.

Lemma with_undo_fst ids vtx undo : List.length ids = List.length vtx -> (List.length undo + 1)%nat = List.length vtx -> (with_undo ids vtx undo).*1 = zip ids vtx.
Proof. intros H1 H2. unfold with_undo. apply fst_zip. rewrite length_zip_with. cbn [List.length]. rewrite List.length_map. lia. Qed.

Lemma connected_outputs nHeight L : forall U U', connected g nHeight L U U' -> Forall outputs_shape L.*1.
Proof.
  induction L as [|[[txid tx] undo] L IH]; intros U U'; [constructor|]. intros (U1 & (H1 & H2 & _) & Hc). constructor; [by split | by eapply IH].
Qed.

(** ** Walking along the branches *)

Section walk.
Context `{MemUsage} `{SecpLaws} {D : Type} `{LevelDBLaws D} (w : CDBWrapper D) (Ht : tree_ok h).
Notation acts := (acts (cdb_over w) coins).
Notation RollforwardBlock := (RollforwardBlock (D := D) l config env read_block).
Notation rollback := (rollback (D := D) l config env read_block read_undo).
Notation roll_forward := (roll_forward (D := D) l config env read_block).

Lemma deref_acts p b U : h !! p = Some b -> acts (deref env p) U (fun b' U' => b' = b /\ U' = U).
Proof. intros Hp. apply (acts_lift _ _). by rewrite Hp. Qed.

Lemma RollforwardBlock_acts p b block undo ids U U' : h !! p = Some b -> stored p b block undo ids U U' -> exists forth, assigns forth U = U' /\ forall M, acts (RollforwardBlock p) M (fun r W => r = true /\ W = assigns forth M).
Proof.
  intros Hp [Eb Eu Ei [L1 L2] Hh Hcb Hk Hc]. exists (forth_txs g (nHeight b) (zip ids (vtx block))). rewrite <- (with_undo_fst ids (vtx block) undo) by done. split; [symmetry; by apply txs_forth|]. intros M. unfold Replay.RollforwardBlock. rewrite Eb.
  eapply acts_bind; [by apply deref_acts|]. intros b' W [-> ->]. eapply acts_bind; [apply (acts_lift _ _ _ ids); by rewrite Ei|]. intros ids' W [-> ->]. rewrite <- (with_undo_fst ids (vtx block) undo) by done.
  eapply acts_bind; [apply (roll_txs_acts _ _); by eapply connected_outputs|]. intros _ W ->. by apply acts_ret.
Qed.

Lemma DisconnectBlock_acts p b block undo ids U U' : stored p b block undo ids U U' -> spendable g U -> keepable_set U -> exists back, assigns back U' = U /\ forall M, acts (DisconnectBlock l config read_undo p b block) M (fun r W => r <> DISCONNECT_FAILED /\ W = assigns back M).
Proof.
  intros [Eb Eu Ei [L1 L2] Hh Hcb Hk Hc] Hsp Hkeep. exists (back_txs g (nHeight b) (with_undo ids (vtx block) undo)). unfold MEMPOOL_HEIGHT in Hh. split; [apply txs_back; [lia | done | done | done]|]. intros M. unfold DisconnectBlock. rewrite Eu.
  apply (ApplyBlockUndo_any _ _); [unfold MEMPOOL_HEIGHT; lia | done | done |]. eapply connected_undo; [done | by apply keepable_valid].
Qed.

(** Back from a block to an ancestor. *)

Lemma rollback_acts p U : coins_at p U -> forall q fuel, ancestor h q p -> fork_height env (Some p) < Z.of_nat fuel ->
  exists F back, coins_at q F /\ assigns back U = F /\ forall M, acts (rollback fuel (Some p) (Some q)) M (fun r W => r = true /\ W = assigns back M).
Proof.
  induction 1 as [p b Hp Hb|p b r U U' block undo ids Hp Hb Hr IH Hs]; intros q fuel Ha Hf; destruct (decide (q = p)) as [->|Hne].
  - exists ∅, []. split; [by eapply coins_genesis|]. split; [done|]. intros M. destruct fuel; cbn [Replay.rollback]; rewrite bool_decide_true by done; by apply acts_ret.
  - destruct (ancestor_inv h p b q Ht Hp Ha) as [|(r & Er & _)]; congruence.
  - exists U', []. split; [by eapply coins_step|]. split; [done|]. intros M. destruct fuel; cbn [Replay.rollback]; rewrite bool_decide_true by done; by apply acts_ret.
  - destruct (ancestor_inv h p b q Ht Hp Ha) as [|(r' & Er & Ha')]; [done|]. assert (r' = r) as -> by congruence. destruct (Ht p b Hp) as [H0' Hprev]. rewrite Hb in Hprev. destruct Hprev as (br & Hbr & Eh & _). pose proof (proj1 (Ht r br Hbr)) as Hr0.
    unfold fork_height in Hf, IH. rewrite Hp in Hf. rewrite Hbr in IH. destruct fuel as [|fuel]; [lia|]. destruct (IH q fuel Ha' ltac:(lia)) as (F & back & HF & EF & Hacts). destruct (coins_at_ok r U Hr) as [Hsp Hk].
    destruct (DisconnectBlock_acts p b block undo ids U U' Hs Hsp Hk) as (back1 & E1 & A1). exists F, (back1 ++ back). split; [done|]. split; [by rewrite assigns_app, E1|]. intros M. cbn [Replay.rollback]. rewrite bool_decide_false by congruence.
    eapply acts_bind; [by apply deref_acts|]. intros b' W [-> ->]. rewrite (proj2 (Z.ltb_lt _ _)) by lia. rewrite (st_block _ _ _ _ _ _ _ Hs). eapply acts_bind; [apply A1|]. intros res W [Hres ->]. rewrite Hb.
    destruct res; [| |done]; (eapply acts_mono; [apply Hacts|]; intros ok W [-> ->]; split; [done | by rewrite assigns_app]).
Qed.

Lemma coins_at_ancestor p U : coins_at p U -> forall q, ancestor h q p -> exists F, coins_at q F.
Proof.
  induction 1 as [p b Hp Hb|p b r U U' block undo ids Hp Hb Hr IH Hs]; intros q Ha; (destruct (ancestor_inv h p b q Ht Hp Ha) as [->|(r' & Er & Ha')]); [exists ∅; by eapply coins_genesis | congruence | exists U'; by eapply coins_step | assert (r' = r) as -> by congruence; by apply IH].
Qed.

(** Forth from an ancestor to a block. *)

Lemma roll_forward_acts p b U : h !! p = Some b -> coins_at p U -> forall turns q bq F, ancestor h q p -> h !! q = Some bq -> coins_at q F -> turns = Z.to_nat (nHeight b - nHeight bq) ->
  exists forth, assigns forth F = U /\ forall M, acts (roll_forward turns (nHeight bq + 1) p) M (fun r W => r = true /\ W = assigns forth M).
Proof.
  intros Hp HU. induction turns as [|turns IH]; intros q bq F Ha Hq HF Et; destruct (ancestor_height h p b q Ht Hp Ha) as (bq' & Hq' & Hle & Hw); assert (bq' = bq) as -> by congruence.
  - rewrite <- Et in Hw. injection Hw as ->. exists []. split; [by eapply coins_at_functional|]. intros M. by apply acts_ret.
  - destruct (GetAncestor_walk h p b (nHeight bq + 1) Ht Hp ltac:(lia)) as (r & br & EG & Hwr & Hr & Ehr). assert (ancestor h r p) as Har by (by eexists). destruct (coins_at_ancestor p U HU r Har) as [W HW].
    assert (pprev br = Some q) as Eprev.
    { pose proof (ancestor_at h p b q bq (nHeight bq + 1) r Ht Hp Ha Hq ltac:(lia) Hwr) as Haq. destruct (ancestor_height h r br q Ht Hr Haq) as (bq2 & Hq2 & _ & Hw2). assert (bq2 = bq) as -> by congruence.
      replace (Z.to_nat (nHeight br - nHeight bq)) with 1%nat in Hw2 by lia. cbn [walk] in Hw2. rewrite Hr in Hw2. destruct (pprev br); [by injection Hw2 as ->|done]. }
    inversion HW as [r' b' Hr' Hb'|r' b' q' F' W' block undo ids Hr' Hb' HF' Hs]; subst; simplify_eq. assert (F' = F) as -> by (by eapply coins_at_functional).
    destruct (RollforwardBlock_acts r br block undo ids F W Hr Hs) as (forth1 & E1 & A1). destruct (IH r br W Har Hr HW ltac:(lia)) as (forth & E2 & A2). exists (forth1 ++ forth). split; [by rewrite assigns_app, E1|]. intros M. cbn [Replay.roll_forward]. rewrite EG.
    eapply acts_bind; [apply A1|]. intros ok W0 [-> ->]. rewrite Ehr in A2. eapply acts_mono; [apply A2|]. intros ok W1 [-> ->]. split; [done | by rewrite assigns_app].
Qed.

End walk.

(** ** Recovery *)

(** The block index at start-up: one tree with one root, found by hash. *)

Record index_ok : Prop := {
  ix_tree : tree_ok h;
  ix_root : forall p q bp bq, h !! p = Some bp -> h !! q = Some bq -> pprev bp = None -> pprev bq = None -> p = q;
  ix_map : forall p b, h !! p = Some b -> is_uint256 (hash_of env p) /\ hash_of env p <> uint256_null /\ mapBlockIndex env (hash_of env p) = Some p }.

(** The coins that belong to a tip; before the first flush the tip is null. *)

Definition tip_coins (tip : list Z) (U : gmap COutPoint utxo) : Prop := (tip = uint256_null /\ U = ∅) \/ exists p, tip = hash_of env p /\ coins_at p U.

Lemma coins_at_root p U : coins_at p U -> exists r br, h !! r = Some br /\ pprev br = None /\ ancestor h r p.
Proof.
  induction 1 as [p b Hp Hb|p b q U U' block undo ids Hp Hb _ (r & br & Hr & Hn & Ha) _]; [exists p, b; eauto using ancestor_refl|].
  exists r, br. split_and!; [done | done |]. eapply ancestor_trans; [done|]. by eapply ancestor_step.
Qed.

Lemma common_ancestor p q U W : index_ok -> coins_at p U -> coins_at q W -> exists f, LastCommonAncestor h p q = Some (Some f) /\ ancestor h f p /\ ancestor h f q.
Proof.
  intros [Ht Hroot _] Hp Hq. destruct (coins_at_block p U Hp) as [bp Ep]. destruct (coins_at_block q W Hq) as [bq Eq]. destruct (LastCommonAncestor_spec h p q bp bq Ht Ep Eq) as ([f|] & E & Hf); [exists f; by destruct Hf as (? & ? & _)|].
  destruct (coins_at_root p U Hp) as (r & br & Hr & Hn & Ha). destruct (coins_at_root q W Hq) as (r' & br' & Hr' & Hn' & Ha'). assert (r' = r) as -> by (by eapply Hroot). by destruct (Hf r Ha Ha').
Qed.

(** Where [ReplayBlocks] goes back from and to. *)

Definition fork_of (pindexOld pindexFork : option ptr) (pindexNew : ptr) (O : gmap COutPoint utxo) : Prop :=
  match pindexFork with
  | Some f => exists p, pindexOld = Some p /\ coins_at p O /\ ancestor h f p /\ ancestor h f pindexNew
  | None => pindexOld = None /\ O = ∅
  end.

Section recovery.
Context `{MemUsage} `{SecpLaws} {D : Type} `{LevelDBLaws D} (Hix : index_ok).
Notation acts w := (acts (cdb_over (D := D) w) coins).
Notation rollback := (rollback (D := D) l config env read_block read_undo).
Notation roll_forward := (roll_forward (D := D) l config env read_block).
Notation replay := (replay (D := D) l config env read_block read_undo).
Notation ReplayBlocks := (ReplayBlocks (D := D) l config env read_block read_undo).

Lemma both_branches w pindexOld pindexFork pindexNew O N : fork_of pindexOld pindexFork pindexNew O -> coins_at pindexNew N -> exists back forth, assigns forth (assigns back O) = N /\
  (forall M, acts w (rollback (Z.to_nat (fork_height env pindexOld) + 1) pindexOld pindexFork) M (fun r W => r = true /\ W = assigns back M)) /\
  (forall M, acts w (roll_forward (Z.to_nat (fork_height env (Some pindexNew) - fork_height env pindexFork)) (fork_height env pindexFork + 1) pindexNew) M (fun r W => r = true /\ W = assigns forth M)).
Proof.
  intros Hf HN. pose proof (ix_tree Hix) as Ht. destruct (coins_at_block _ _ HN) as [bn En]. assert (fork_height env (Some pindexNew) = nHeight bn) as -> by (unfold fork_height; by rewrite En). destruct pindexFork as [f|].
  - destruct Hf as (p & -> & HO & Hfp & Hfn). destruct (coins_at_block _ _ HO) as [bp Ep]. pose proof (proj1 (Ht p bp Ep)). destruct (rollback_acts w Ht p O HO f (Z.to_nat (fork_height env (Some p)) + 1) Hfp) as (F & back & HF & EF & A1); [unfold fork_height; rewrite Ep; lia|].
    destruct (coins_at_block _ _ HF) as [bf Ef]. destruct (roll_forward_acts w Ht pindexNew bn N En HN _ f bf F Hfn Ef HF eq_refl) as (forth & EN & A2). exists back, forth. split; [by rewrite EF|]. split; [done|].
    assert (fork_height env (Some f) = nHeight bf) as -> by (unfold fork_height; by rewrite Ef). done.
  - destruct Hf as [-> ->]. destruct (coins_at_root _ _ HN) as (r & br & Er & Hr & Ha). destruct (Ht r br Er) as [_ H0']. rewrite Hr in H0'. destruct H0' as [H0' _].
    destruct (roll_forward_acts w Ht pindexNew bn N En HN _ r br ∅ Ha Er ltac:(by eapply coins_genesis) eq_refl) as (forth & EN & A2). rewrite H0' in A2. exists [], forth. split; [done|]. split; [|done].
    intros M. change (Z.to_nat (fork_height env None) + 1)%nat with 1%nat. cbn [Replay.rollback]. rewrite bool_decide_true by done. by apply acts_ret.
Qed.

Lemma replay_spec w pindexOld pindexFork pindexNew O N vc : fork_of pindexOld pindexFork pindexNew O -> coins_at pindexNew N -> view_ok (cdb_over w) coins vc -> (forall o, shows coins vc !! o = O !! o \/ shows coins vc !! o = N !! o) ->
  exists vc', replay pindexOld pindexFork pindexNew vc = Ok (true, vc') /\ view_ok (cdb_over w) coins vc' /\ shows coins vc' = N /\ hashBlock vc' = hash_of env pindexNew.
Proof.
  intros Hf HN Hvc Hmix. destruct (both_branches w _ _ _ _ _ Hf HN) as (back & forth & E & A1 & A2). destruct (A1 _ vc Hvc eq_refl) as (r1 & vc1 & E1 & Hvc1 & -> & S1). destruct (A2 _ vc1 Hvc1 eq_refl) as (r2 & vc2 & E2 & Hvc2 & -> & S2).
  unfold Replay.replay, mbind, cached_bind. rewrite E1. cbn [mbind outcome_bind]. rewrite E2. eexists. split; [done|]. split; [by destruct Hvc2; split|]. split; [|done].
  change (shows coins vc2 = N). rewrite S2, S1. by apply (replay_mixture back forth _ O N _ eq_refl E).
Qed.

Lemma ReplayBlocks_spec order v pn old O N : (forall m, order m ≡ₚ map_to_list m) -> cdb_idle v -> between_tips (db v) (hash_of env pn) old -> coins_at pn N -> tip_coins old O -> (forall o, coins v !! o = O !! o \/ coins v !! o = N !! o) ->
  exists v', ReplayBlocks order v = Ok (true, v') /\ cdb_idle v' /\ coins v' = N /\ cdb_hashBlock v' = hash_of env pn /\ db v' = db v.
Proof.
  intros Hord Hv [_ Hheads] HN HO Hmix. destruct (coins_at_block _ _ HN) as [bn En]. destruct (ix_map Hix _ _ En) as (_ & Hnn & Emap). unfold Replay.ReplayBlocks. rewrite Hheads, Emap. cbn zeta.
  assert (view_ok (cdb_over (db v)) coins (new_CCoinsViewCache v) /\ shows coins (new_CCoinsViewCache v) = coins v) as [Hvc Hshow].
  { split; [split; [done | done | apply map_Forall_empty]|]. apply map_eq. intros o. unfold shows. cbn. by rewrite lookup_overlay, lookup_empty. }
  assert (forall pindexOld pindexFork, fork_of pindexOld pindexFork pn O -> exists v',
    ('(ok, cache) ← replay pindexOld pindexFork pn (new_CCoinsViewCache v); if (ok : bool) then cache ← TryFlush order cache; Ok (true, source cache) else Ok (false, source cache)) = Ok (true, v') /\
    cdb_idle v' /\ coins v' = N /\ cdb_hashBlock v' = hash_of env pn /\ db v' = db v) as Hrun.
  { intros po pf Hf. destruct (replay_spec (db v) po pf pn O N _ Hf HN Hvc) as (vc & E & Hok & Hs & Hb); [by rewrite Hshow|]. rewrite E. cbn [mbind outcome_bind].
    assert (view_ok cdb_idle coins vc) as Hok' by (destruct Hok as [? [? _] ?]; by split). destruct (TryFlush_spec order vc Hord Hok') as (vc' & -> & Hv' & Ec & _ & Eh & Ed); [by rewrite Hb | rewrite Hs; by eapply coins_at_ok|].
    cbn [mbind outcome_bind]. exists (source vc'). split; [done|]. split; [apply Hv'|]. split; [by rewrite Ec|]. split; [by rewrite Eh|]. rewrite Ed. apply Hok. }
  destruct HO as [[-> ->] | (po & -> & HO)].
  - rewrite bool_decide_true by done. by apply Hrun.
  - destruct (coins_at_block _ _ HO) as [bo Eo]. destruct (ix_map Hix _ _ Eo) as (_ & Hno & Emo). rewrite bool_decide_false by done. rewrite Emo. destruct (common_ancestor po pn O N Hix HO HN) as (f & -> & Ha & Hb).
    apply Hrun. exists po. split_and!; done.
Qed.

(** ** Crashes *)

(** The database on disk with the tip of the last flush that began to write: a flush of a database that shows the coins of
    a block is cut off after [j] batches, or ends. *)

Inductive disk_step : CDBWrapper D * list Z -> CDBWrapper D * list Z -> Prop :=
| flush_stops batch_size order v p bs j t :
    (forall m, order m ≡ₚ map_to_list m) -> cdb_ok v -> coins_at p (coins v) -> cdb_hashBlock v = hash_of env p ->
    DBBatchWrite batch_size (order (cacheCoins (cdb_mCache v))) (cdb_hashBlock v) (db v) = Ok bs ->
    disk_step (db v, t) (write_batches (db v) (take j bs), if (j =? 0)%nat then t else hash_of env p).

Definition disk_coins (w : CDBWrapper D) (t : list Z) (U : gmap COutPoint utxo) : Prop :=
  (tip_of w t /\ db_coins w = U) \/
  exists old O, t <> uint256_null /\ between_tips w t old /\ tip_coins old O /\ forall o, db_coins w !! o = O !! o \/ db_coins w !! o = U !! o.

Definition disk_ok (s : CDBWrapper D * list Z) : Prop := db_ok s.1 /\ exists U, tip_coins s.2 U /\ disk_coins s.1 s.2 U.

Lemma tip_coins_functional t U W : tip_coins t U -> tip_coins t W -> U = W.
Proof.
  assert (forall p X, coins_at p X -> hash_of env p <> uint256_null /\ mapBlockIndex env (hash_of env p) = Some p) as Hmap by (intros p X Hp; destruct (coins_at_block _ _ Hp) as [b Hb]; by destruct (ix_map Hix _ _ Hb)).
  intros [[-> ->] | (p & -> & Hp)] [[E ->] | (q & E & Hq)]; [done | by destruct (Hmap q W Hq) as [[] _] | by destruct (Hmap p U Hp) as [[] _] |]. destruct (Hmap p U Hp) as [_ Em]. destruct (Hmap q W Hq) as [_ Em']. rewrite <- E in Em'. assert (q = p) as -> by congruence. by eapply coins_at_functional.
Qed.

Lemma tip_coins_hash t U : tip_coins t U -> is_uint256 t.
Proof. intros [[-> _] | (p & -> & Hp)]; [vm_compute; split; [repeat constructor; done | done]|]. destruct (coins_at_block _ _ Hp) as [b Hb]. by destruct (ix_map Hix _ _ Hb). Qed.

Lemma old_tip_at w t hash : tip_of w t -> old_tip w hash = Ok t.
Proof. intros [E1 E2]. unfold old_tip. rewrite E1, E2. by destruct (bool_decide _). Qed.

Lemma old_tip_between w t old hash : between_tips w t old -> old_tip w hash = if bool_decide (t = hash) then Ok old else Abort.
Proof. intros [E1 E2]. unfold old_tip. rewrite E1, E2, (bool_decide_true (uint256_null = _)) by done. by destruct (bool_decide (t = hash)). Qed.

Lemma DBBatchWrite_old_tip batch_size entries hash w bs : DBBatchWrite batch_size entries hash w = Ok bs -> exists tip, old_tip w hash = Ok tip.
Proof. unfold DBBatchWrite. destruct (negb _); [|done]. cbn [assert_ mbind outcome_bind]. destruct (old_tip w hash); [eauto | done | done]. Qed.

(** Any part of a flush keeps the tip of the last one, or has the new. *)

Lemma flush_disk_coins batch_size order v p bs t U : (forall m, order m ≡ₚ map_to_list m) -> cdb_ok v -> coins_at p (coins v) -> cdb_hashBlock v = hash_of env p -> tip_coins t U -> disk_coins (db v) t U ->
  DBBatchWrite batch_size (order (cacheCoins (cdb_mCache v))) (cdb_hashBlock v) (db v) = Ok bs -> forall j, let w := write_batches (db v) (take j bs) in
  db_ok w /\ (j = 0%nat -> w = db v) /\ (j <> 0%nat -> disk_coins w (hash_of env p) (coins v)) /\ ((length bs <= j)%nat -> tip_of w (hash_of env p) /\ db_coins w = coins v).
Proof.
  intros Hord Hv Hp Hh Ht Hd E j. destruct (coins_at_block _ _ Hp) as [b Hb]. destruct (ix_map Hix _ _ Hb) as (Hu & Hn & _). rewrite <- Hh in Hu, Hn. destruct (DBBatchWrite_old_tip _ _ _ _ _ E) as [tip Etip].
  assert (exists O, tip_coins tip O /\ forall o, db_coins (db v) !! o = O !! o \/ db_coins (db v) !! o = coins v !! o) as (O & HO & Hmix).
  { destruct Hd as [[Hd1 Hd2] | (old & O & _ & Hb' & HO & Hm)].
    - rewrite (old_tip_at _ _ _ Hd1) in Etip. injection Etip as <-. exists U. rewrite Hd2. auto.
    - rewrite (old_tip_between _ _ _ _ Hb') in Etip. case_bool_decide as Et; [|done]. injection Etip as <-. exists O. split; [done|].
      assert (U = coins v) as <- by (eapply tip_coins_functional; [done|]; right; exists p; split; [congruence | done]). done. }
  destruct (Flush_spec batch_size order v tip Hord Hv Hu Hn Etip (tip_coins_hash _ _ HO)) as (bs' & v' & E' & _ & _ & _ & _ & Hj). rewrite E in E'. injection E' as <-. specialize (Hj j). cbn zeta in Hj |- *. destruct Hj as (W1 & W2 & W3 & W4). rewrite Hh in *.
  split; [done|]. split; [done|]. split; [|done]. intros Hj0. destruct (decide (length bs <= j)%nat) as [Hl|Hl]; [left; by apply W4|]. right. destruct (W3 ltac:(lia)) as [Wb Wm]. exists tip, O.
  split_and!; [done | done | done |]. intros o. destruct (Wm o) as [-> | ->]; [apply Hmix | by right].
Qed.

Lemma disk_step_ok s s' : disk_step s s' -> disk_ok s -> disk_ok s'.
Proof.
  intros [batch_size order v p bs j t Hord Hv Hp Hh E] (_ & U & Ht & Hd). cbn [fst snd] in *. destruct (flush_disk_coins _ _ _ _ _ _ _ Hord Hv Hp Hh Ht Hd E j) as (W1 & W2 & W3 & _). split; [done|]. cbn [fst snd].
  destruct (Nat.eqb_spec j 0) as [->|Hj]; [exists U; by rewrite W2|]. exists (coins v). split; [right; eauto | by apply W3].
Qed.

Lemma disk_run_ok s s' : rtc disk_step s s' -> disk_ok s -> disk_ok s'.
Proof. induction 1 as [|s1 s2 s3 Hstep _ IH]; [done|]. intros Hs. by apply IH, (disk_step_ok s1). Qed.

Lemma tip_coins_keepable t U : tip_coins t U -> keepable_set U.
Proof. intros [[_ ->] | (p & _ & Hp)]; [apply map_Forall_empty | by eapply coins_at_ok]. Qed.

(** A database that is opened shows what is on disk. *)

Lemma open_idle w threshold U : db_ok w -> (exists O, keepable_set O /\ forall o, db_coins w !! o = O !! o \/ db_coins w !! o = U !! o) -> keepable_set U ->
  cdb_idle (new_CoinsDB w threshold) /\ coins (new_CoinsDB w threshold) = db_coins w.
Proof.
  intros Hw (O & HO & Hm) HU. assert (coins (new_CoinsDB w threshold) = db_coins w) as E by (apply map_eq; intros o; unfold coins; cbn; by rewrite lookup_overlay, lookup_empty).
  split; [|done]. split; [|done]. split; [done | apply map_Forall_empty |]. rewrite E. intros o u Hu. destruct (Hm o) as [E' | E']; rewrite Hu in E'; [by apply (HO o) | by apply (HU o)].
Qed.

(** C7. A crash loses no flushed block.  Let flushes be cut off between any two batches, any number of times, of databases
    that show the coins of a block of the tree.  Then the next start succeeds: [ReplayBlocks] returns true, and the database
    shows exactly the coins of the tip of the last flush that had written a batch, whether or not that flush was finished
    and whether or not the new branch continues the old one.  A flush at that point ends, and leaves a database with that tip,
    those coins and no mark.  Reading the blocks back writes nothing to disk, so that a start may be cut off as well. *)

Theorem crash_recovery batch_size order threshold w0 w t :
  (forall m, order m ≡ₚ map_to_list m) -> db_ok w0 -> tip_of w0 uint256_null -> db_coins w0 = ∅ -> rtc disk_step (w0, uint256_null) (w, t) ->
  exists U v v', tip_coins t U /\ ReplayBlocks order (new_CoinsDB w threshold) = Ok (true, v) /\ cdb_idle v /\ coins v = U /\ (cdb_GetBestBlock v).1 = t /\ db v = w /\
    Flush batch_size order v = Ok v' /\ tip_of (db v') t /\ db_coins (db v') = U.
Proof.
  intros Hord Hw0 Htip0 Hc0 Hsteps. assert (disk_ok (w, t)) as (Hw & U & Ht & Hd).
  { apply (disk_run_ok _ _ Hsteps). split; [done|]. exists ∅. split; left; done. }
  cbn [fst snd] in *. exists U. pose proof (tip_coins_keepable t U Ht) as HU. destruct Hd as [[Hd <-] | (old & O & Hn & Hb & HO & Hmix)].
  - destruct (open_idle w threshold (db_coins w) Hw ltac:(eauto) HU) as [Hi Hc]. eexists (new_CoinsDB w threshold), _. pose proof Hd as [Hd1 Hd2]. split; [done|]. unfold Replay.ReplayBlocks. cbn [db new_CoinsDB]. rewrite Hd2. done.
  - destruct (open_idle w threshold U Hw ltac:(eauto using tip_coins_keepable) HU) as [Hi Hc]. destruct Ht as [[? _] | (p & -> & Hp)]; [done|]. destruct (ReplayBlocks_spec order (new_CoinsDB w threshold) p old O U Hord Hi Hb Hp HO) as (v & -> & Hv & Hcv & Hh & Ed); [by rewrite Hc|].
    change (db (new_CoinsDB w threshold)) with w in Ed. destruct (coins_at_block _ _ Hp) as [b Eb]. destruct (ix_map Hix _ _ Eb) as (Hu256 & Hnn & _).
    destruct (Flush_spec batch_size order v old Hord (proj1 Hv)) as (bs & v' & _ & EF & Edb & _ & _ & Hj); [by rewrite Hh | by rewrite Hh | rewrite Ed, (old_tip_between w _ old) by done; by rewrite bool_decide_true by done | by eapply tip_coins_hash|].
    exists v, v'. destruct (Hj (length bs)) as (_ & _ & _ & Hj'). rewrite take_ge, Hh, Hcv, <- Edb in Hj' by done. destruct (Hj' ltac:(done)). split_and!; try done; [right; eauto|]. unfold cdb_GetBestBlock. by rewrite Hh, bool_decide_false by done.
Qed.

End recovery.

End chain.

(** ** A recovery evaluated *)

Definition recovery_first : CBlockIndex := Eval vm_compute in BlockIndex.demo_block 1%positive.

Definition recovery_second : CBlockIndex := Eval vm_compute in BlockIndex.demo_block 2%positive.

Definition recovery_tree : heap := {[ 1%positive := recovery_first; 2%positive := recovery_second ]}.

Definition recovery_node : Connect.node :=
  {| block_heap := recovery_tree; mapBlockIndex hash := if bool_decide (hash = le_bytes 32 1) then Some 1%positive else if bool_decide (hash = le_bytes 32 2) then Some 2%positive else None;
     hash_of p := le_bytes 32 (Zpos p); best_header := 2%positive; active_height := 0; hashAssumeValid := uint256_null; nMinimumChainWork := uint256_null |}.

Definition recovery_id : list Z := hd [] demo_ids.

Definition recovery_outpoint : COutPoint := {| outpoint_txid := recovery_id; outpoint_n := 0 |}.

Definition recovery_coin : CoinImpl := coin_with_script (hd {| nValue := 0; scriptPubKey := [] |} (vout (demo_coinbase 7 (50 * COIN)))) 1 true.

Definition recovery_block (p : ptr) : option CBlock := if bool_decide (p = 2%positive) then Some demo_first else None.

Definition recovery_undo (p : ptr) : option CBlockUndo := if bool_decide (p = 2%positive) then Some [] else None.

#[local] Instance recovery_memory : MemUsage := {| script_usage s := Z.of_nat (List.length s); map_usage n := Z.of_nat n; script_usage_nil := eq_refl |}.

#[local] Existing Instances toy_secp toy_serialize toy_laws.

Lemma recovery_blocks p b : recovery_tree !! p = Some b -> (p = 1%positive /\ b = recovery_first) \/ (p = 2%positive /\ b = recovery_second).
Proof. unfold recovery_tree. intros [[<- <-] | [_ [<- <-]%lookup_singleton_Some]]%lookup_insert_Some; auto. Qed.

Lemma recovery_index_ok : index_ok recovery_node.
Proof.
  split.
  - intros p b [[-> ->] | [-> ->]]%recovery_blocks; vm_compute; (split; [discriminate|]); [done|]. eexists. split_and!; [reflexivity | reflexivity |]. right. eexists. split; reflexivity.
  - intros p q bp bq [[-> ->] | [-> ->]]%recovery_blocks [[-> ->] | [-> ->]]%recovery_blocks; done.
  - intros p b [[-> ->] | [-> ->]]%recovery_blocks; (split_and!; [by apply (bool_decide_unpack _); vm_compute | discriminate | reflexivity]).
Qed.

Lemma recovery_with_undo : with_undo demo_ids (vtx demo_first) [] = [(recovery_id, demo_coinbase 7 (50 * COIN), None)].
Proof. reflexivity. Qed.

Lemma recovery_id_ok : is_uint256 recovery_id.
Proof. by apply (bool_decide_unpack _); vm_compute. Qed.

Lemma recovery_output_ok : compressible (coin_out recovery_coin).
Proof. split; [by vm_compute | split; [repeat constructor; done | by vm_compute]]. Qed.

Lemma recovery_coins : coins_at demo_layout demo_Config recovery_node recovery_block recovery_undo 2%positive {[ recovery_outpoint := utxo_of recovery_coin ]}.
Proof.
  eapply (coins_step _ _ _ _ _ 2%positive recovery_second 1%positive ∅ _ demo_first [] demo_ids); [reflexivity | reflexivity | by eapply coins_genesis|].
  split; rewrite ?recovery_with_undo; [done | done | vm_compute; reflexivity | done | by vm_compute | | |].
  - constructor; [done | constructor].
  - constructor; [split; [apply recovery_id_ok | constructor; [apply recovery_output_ok | constructor]] | constructor].
  - eexists. split; [|reflexivity]. split; [by vm_compute|]. split; [constructor; [by vm_compute | constructor]|]. split; [done|]. reflexivity.
Qed.

Definition recovery_unflushed : CoinsDB (gmap (list Z) (list Z)) := unflushed empty_db (le_bytes 32 2) recovery_outpoint recovery_coin.

Lemma recovery_unflushed_ok : cdb_idle recovery_unflushed /\ coins recovery_unflushed = {[ recovery_outpoint := utxo_of recovery_coin ]}.
Proof.
  destruct empty_db_ok as (Hw & Hc & _). apply unflushed_ok; [done | done | split; [apply recovery_id_ok | by vm_compute]|]. split; [apply recovery_output_ok|]. by vm_compute.
Qed.

Lemma recovery_batches : exists b1 b2, DBBatchWrite 0 (map_to_list (cacheCoins (cdb_mCache recovery_unflushed))) (cdb_hashBlock recovery_unflushed) (db recovery_unflushed) = Ok [b1; b2].
Proof. eexists _, _. vm_compute. reflexivity. Qed.

(** The first flush of a node is cut off after its first batch: the next start brings the database to the block. *)

Lemma crash_recovery_witness : exists w v v', rtc (disk_step demo_layout demo_Config recovery_node recovery_block recovery_undo) (empty_db, uint256_null) (w, le_bytes 32 2) /\
  between_tips w (le_bytes 32 2) uint256_null /\ ReplayBlocks demo_layout demo_Config recovery_node recovery_block recovery_undo map_to_list (new_CoinsDB w 1000) = Ok (true, v) /\
  coins v = {[ recovery_outpoint := utxo_of recovery_coin ]} /\ Flush 0 map_to_list v = Ok v' /\ tip_of (db v') (le_bytes 32 2).
Proof.
  destruct recovery_batches as (b1 & b2 & E). destruct recovery_unflushed_ok as [[Hok _] Hc]. destruct empty_db_ok as (Hw & Hc0 & Ht).
  pose proof (flush_stops demo_layout demo_Config recovery_node recovery_block recovery_undo 0 map_to_list recovery_unflushed 2%positive [b1; b2] 1 uint256_null ltac:(done) Hok ltac:(rewrite Hc; apply recovery_coins) eq_refl E) as Hstep.
  destruct (Flush_spec 0 map_to_list recovery_unflushed uint256_null) as (bs & _ & E' & _ & _ & _ & _ & Hj); [done | exact Hok | by apply (bool_decide_unpack _); vm_compute | discriminate | reflexivity | by apply (bool_decide_unpack _); vm_compute|].
  assert (bs = [b1; b2]) as -> by congruence. apply rtc_once in Hstep.
  destruct (crash_recovery demo_layout demo_Config recovery_node recovery_block recovery_undo recovery_index_ok 0 map_to_list 1000 empty_db _ _ ltac:(done) Hw Ht Hc0 Hstep)
    as (U & v & v' & HU & Er & _ & Hcv & _ & _ & Ef & Htip & _).
  exists (write_batches empty_db [b1]), v, v'. split; [exact Hstep|]. split; [apply (Hj 1%nat); cbn; lia|]. split; [exact Er|]. split; [|split; [exact Ef | exact Htip]].
  rewrite Hcv. eapply (tip_coins_functional _ _ _ _ _ recovery_index_ok); [exact HU|]. right. exists 2%positive. split; [reflexivity | apply recovery_coins].
Defined.
