(* ===== verification/ChainIndex.v ===== *)
(** * The candidates for the best chain

    The part of [src/validation.cpp] that keeps track of which chains the node could follow: the set of candidate tips with
    its order ([CBlockIndexWorkComparator] of [src/block_index.h]), the blocks that wait for their parents, the failure
    flags, the choice of the chain with the most work, and what happens to all of them when a block arrives, is found
    invalid, or is reconsidered.

    The globals of the source are the fields of a record.  [std::set] is a list in the order of its comparator, with the
    comparator read from the index at the time of the call, as in the source; [std::multimap] is a list of pairs in
    insertion order.  The result [None] is a failed assertion or a null pointer.  The dirty set, the safe mode and
    notifications are left out. *)

From stdpp Require Import gmap sorting.
From S2P Require Import Prelude Common Uint256 BlockIndex.
Import arith_uint256.

(** ** The changes of an index entry *)

Definition with_status (b : CBlockIndex) (status : Z) : CBlockIndex :=
  {| pprev := pprev b; pskip := pskip b; nHeight := nHeight b; nChainWork := nChainWork b; nStatus := status; nVersion := nVersion b;
     hashMerkleRoot := hashMerkleRoot b; nTime := nTime b; nBits := nBits b; nNonce := nNonce b; nTimeReceived := nTimeReceived b;
     nTimeMax := nTimeMax b; nSoftRejected := nSoftRejected b; mSoftConsensusFreezeForNBlocks := mSoftConsensusFreezeForNBlocks b;
     mSoftConsensusFreezeForNBlocksCumulative := mSoftConsensusFreezeForNBlocksCumulative b;
     nTx := nTx b; nChainTx := nChainTx b; nSequenceId := nSequenceId b; mValidationCompletionTime := mValidationCompletionTime b |}.

Definition with_transactions (b : CBlockIndex) (tx chainTx : Z) : CBlockIndex :=
  {| pprev := pprev b; pskip := pskip b; nHeight := nHeight b; nChainWork := nChainWork b; nStatus := nStatus b; nVersion := nVersion b;
     hashMerkleRoot := hashMerkleRoot b; nTime := nTime b; nBits := nBits b; nNonce := nNonce b; nTimeReceived := nTimeReceived b;
     nTimeMax := nTimeMax b; nSoftRejected := nSoftRejected b; mSoftConsensusFreezeForNBlocks := mSoftConsensusFreezeForNBlocks b;
     mSoftConsensusFreezeForNBlocksCumulative := mSoftConsensusFreezeForNBlocksCumulative b;
     nTx := tx; nChainTx := chainTx; nSequenceId := nSequenceId b; mValidationCompletionTime := mValidationCompletionTime b |}.

Definition with_rank (b : CBlockIndex) (id time : Z) : CBlockIndex :=
  {| pprev := pprev b; pskip := pskip b; nHeight := nHeight b; nChainWork := nChainWork b; nStatus := nStatus b; nVersion := nVersion b;
     hashMerkleRoot := hashMerkleRoot b; nTime := nTime b; nBits := nBits b; nNonce := nNonce b; nTimeReceived := nTimeReceived b;
     nTimeMax := nTimeMax b; nSoftRejected := nSoftRejected b; mSoftConsensusFreezeForNBlocks := mSoftConsensusFreezeForNBlocks b;
     mSoftConsensusFreezeForNBlocksCumulative := mSoftConsensusFreezeForNBlocksCumulative b;
     nTx := nTx b; nChainTx := nChainTx b; nSequenceId := id; mValidationCompletionTime := time |}.

Definition with_soft (b : CBlockIndex) (rejected freeze cumulative : Z) : CBlockIndex :=
  {| pprev := pprev b; pskip := pskip b; nHeight := nHeight b; nChainWork := nChainWork b; nStatus := nStatus b; nVersion := nVersion b;
     hashMerkleRoot := hashMerkleRoot b; nTime := nTime b; nBits := nBits b; nNonce := nNonce b; nTimeReceived := nTimeReceived b;
     nTimeMax := nTimeMax b; nSoftRejected := rejected; mSoftConsensusFreezeForNBlocks := freeze;
     mSoftConsensusFreezeForNBlocksCumulative := cumulative;
     nTx := nTx b; nChainTx := nChainTx b; nSequenceId := nSequenceId b; mValidationCompletionTime := mValidationCompletionTime b |}.

Definition ModifyStatusWithFailed (b : CBlockIndex) : CBlockIndex := with_status b (withFailed (nStatus b) true).

Definition ModifyStatusWithFailedParent (b : CBlockIndex) : CBlockIndex := with_status b (withFailedParent (nStatus b) true).

Definition ModifyStatusWithClearedFailedFlags (b : CBlockIndex) : CBlockIndex := with_status b (withClearedFailureFlags (nStatus b)).

(** [RaiseValidity], at the time [now] of the steady clock. *)

Definition RaiseValidity (b : CBlockIndex) (nUpTo : BlockValidity) (now : Z) : CBlockIndex :=
  let '(status, raised) := RaiseValidityNL (nStatus b) nUpTo in
  let b := with_status b status in
  if raised && (validity_code nUpTo =? validity_code SCRIPTS) && (mValidationCompletionTime b =? time_max)
  then with_rank b (nSequenceId b) now else b.

Definition IgnoreValidationTime (b : CBlockIndex) : CBlockIndex := with_rank b (nSequenceId b) time_min.

Definition SetSequenceId (b : CBlockIndex) (id : Z) : CBlockIndex := with_rank b id (mValidationCompletionTime b).

Definition SetChainTxAndSequenceId (b : CBlockIndex) (chainTx id : Z) : CBlockIndex :=
  with_rank (with_transactions b (nTx b) chainTx) id (mValidationCompletionTime b).

(** [SetDiskBlockData]; [meta] says that the metadata of the file are given. *)

Definition SetDiskBlockData (b : CBlockIndex) (transactionsCount : Z) (meta : bool) (now : Z) : CBlockIndex :=
  let b := with_transactions b (u32 transactionsCount) 0 in
  let b := RaiseValidity (with_status b (withData (nStatus b) true)) TRANSACTIONS now in
  if meta then with_status b (withDiskBlockMetaData (nStatus b) true) else b.

Definition hasData (status : Z) : bool := has_flag HAS_DATA_FLAG status.

Definition IsValid (b : CBlockIndex) (nUpTo : BlockValidity) : bool := isValid (nStatus b) nUpTo.

Definition IsSoftRejected (b : CBlockIndex) : bool := 0 <=? nSoftRejected b.

Definition IsInSoftConsensusFreeze (b : CBlockIndex) : bool := negb (mSoftConsensusFreezeForNBlocksCumulative b =? -1).

(** ** The order of the candidates *)

Definition CBlockIndexWorkComparator (h : heap) (pa pb : ptr) : bool :=
  match h !! pa, h !! pb with
  | Some a, Some b =>
      let work := CompareTo (nChainWork a) (nChainWork b) in
      if 0 <? work then false
      else if work <? 0 then true
      else if mValidationCompletionTime a <? mValidationCompletionTime b then false
      else if mValidationCompletionTime b <? mValidationCompletionTime a then true
      else if nSequenceId a <? nSequenceId b then false
      else if nSequenceId b <? nSequenceId a then true
      else (pb <? pa)%positive
  | _, _ => false
  end.

(** [insert] and [erase] of a [std::set] with the comparator [less]. *)

Fixpoint set_insert (less : ptr -> ptr -> bool) (p : ptr) (s : list ptr) : list ptr :=
  match s with
  | [] => [p]
  | q :: s' => if less q p then q :: set_insert less p s' else if less p q then p :: s else s
  end.

Fixpoint set_erase (less : ptr -> ptr -> bool) (p : ptr) (s : list ptr) : list ptr :=
  match s with
  | [] => []
  | q :: s' => if less q p then q :: set_erase less p s' else if less p q then s else s'
  end.

(** ** The globals *)

Record chainstate := {
  index : heap;
  setBlockIndexCandidates : list ptr;
  mapBlocksUnlinked : list (ptr * ptr);
  chainActive : CChain;
  pindexBestInvalid : option ptr;
  nBlockSequenceId : Z;
  nBlockReverseSequenceId : Z;
  nLastPreciousChainwork : base_uint
}.

Definition set_index (cs : chainstate) (h : heap) : chainstate :=
  {| index := h; setBlockIndexCandidates := setBlockIndexCandidates cs; mapBlocksUnlinked := mapBlocksUnlinked cs; chainActive := chainActive cs;
     pindexBestInvalid := pindexBestInvalid cs; nBlockSequenceId := nBlockSequenceId cs; nBlockReverseSequenceId := nBlockReverseSequenceId cs;
     nLastPreciousChainwork := nLastPreciousChainwork cs |}.

Definition set_candidates (cs : chainstate) (s : list ptr) : chainstate :=
  {| index := index cs; setBlockIndexCandidates := s; mapBlocksUnlinked := mapBlocksUnlinked cs; chainActive := chainActive cs;
     pindexBestInvalid := pindexBestInvalid cs; nBlockSequenceId := nBlockSequenceId cs; nBlockReverseSequenceId := nBlockReverseSequenceId cs;
     nLastPreciousChainwork := nLastPreciousChainwork cs |}.

Definition set_unlinked (cs : chainstate) (m : list (ptr * ptr)) : chainstate :=
  {| index := index cs; setBlockIndexCandidates := setBlockIndexCandidates cs; mapBlocksUnlinked := m; chainActive := chainActive cs;
     pindexBestInvalid := pindexBestInvalid cs; nBlockSequenceId := nBlockSequenceId cs; nBlockReverseSequenceId := nBlockReverseSequenceId cs;
     nLastPreciousChainwork := nLastPreciousChainwork cs |}.

Definition set_chain (cs : chainstate) (c : CChain) : chainstate :=
  {| index := index cs; setBlockIndexCandidates := setBlockIndexCandidates cs; mapBlocksUnlinked := mapBlocksUnlinked cs; chainActive := c;
     pindexBestInvalid := pindexBestInvalid cs; nBlockSequenceId := nBlockSequenceId cs; nBlockReverseSequenceId := nBlockReverseSequenceId cs;
     nLastPreciousChainwork := nLastPreciousChainwork cs |}.

Definition set_best_invalid (cs : chainstate) (p : option ptr) : chainstate :=
  {| index := index cs; setBlockIndexCandidates := setBlockIndexCandidates cs; mapBlocksUnlinked := mapBlocksUnlinked cs; chainActive := chainActive cs;
     pindexBestInvalid := p; nBlockSequenceId := nBlockSequenceId cs; nBlockReverseSequenceId := nBlockReverseSequenceId cs;
     nLastPreciousChainwork := nLastPreciousChainwork cs |}.

Definition set_counters (cs : chainstate) (id reverse : Z) (work : base_uint) : chainstate :=
  {| index := index cs; setBlockIndexCandidates := setBlockIndexCandidates cs; mapBlocksUnlinked := mapBlocksUnlinked cs; chainActive := chainActive cs;
     pindexBestInvalid := pindexBestInvalid cs; nBlockSequenceId := id; nBlockReverseSequenceId := reverse; nLastPreciousChainwork := work |}.

(** The globals of a node that has read nothing yet. *)

Definition new_chainstate : chainstate :=
  {| index := ∅; setBlockIndexCandidates := []; mapBlocksUnlinked := []; chainActive := {| vChain := []; mChainTip := None |};
     pindexBestInvalid := None; nBlockSequenceId := 1; nBlockReverseSequenceId := -1; nLastPreciousChainwork := of_u64 0 |}.

Definition modify (f : CBlockIndex -> CBlockIndex) (p : ptr) (cs : chainstate) : chainstate := set_index cs (alter f p (index cs)).

Definition less (cs : chainstate) : ptr -> ptr -> bool := CBlockIndexWorkComparator (index cs).

Definition insert_candidate (p : ptr) (cs : chainstate) : chainstate := set_candidates cs (set_insert (less cs) p (setBlockIndexCandidates cs)).

Definition erase_candidate (p : ptr) (cs : chainstate) : chainstate := set_candidates cs (set_erase (less cs) p (setBlockIndexCandidates cs)).

Definition in_chain (cs : chainstate) (p : ptr) : bool := Contains (index cs) (chainActive cs) p.

Definition tip (cs : chainstate) : option ptr := mChainTip (chainActive cs).

(** ** Failed chains *)

(** [pindexWalk->GetHeight() > height]: down to the block at [height]. *)

Fixpoint walk_down (h : heap) (fuel : nat) (height : Z) (p : ptr) : option ptr :=
  b ← h !! p;
  if nHeight b <=? height then Some p
  else match fuel with O => None | S n => q ← pprev b; walk_down h n height q end.

(** The blocks from [p] down to [stop], which is left out, have a failed parent. *)

Fixpoint fail_descendants (fuel : nat) (stop p : ptr) (cs : chainstate) : option chainstate :=
  if bool_decide (p = stop) then Some cs
  else
    match fuel with
    | O => None
    | S n =>
        b ← index cs !! p;
        q ← pprev b;
        fail_descendants n stop q (erase_candidate p (modify ModifyStatusWithFailedParent p cs))
    end.

Definition fail_tip (pindexNew : ptr) (height : Z) (t : ptr) (cs : chainstate) : option chainstate :=
  b ← index cs !! t;
  let fuel := Z.to_nat (nHeight b) in
  q ← walk_down (index cs) fuel height t;
  if bool_decide (q = pindexNew) then fail_descendants fuel pindexNew t cs else Some cs.

Fixpoint fail_tips (pindexNew : ptr) (height : Z) (tips : list ptr) (cs : chainstate) : option chainstate :=
  match tips with
  | [] => Some cs
  | t :: tips => cs ← fail_tip pindexNew height t cs; fail_tips pindexNew height tips cs
  end.

(** The tips of the chains that could contain the block. *)

Definition tip_candidates (cs : chainstate) (pindexNew : ptr) (height : Z) : gset ptr :=
  let isInvalidBlockOnActiveChain := in_chain cs pindexNew in
  dom (filter (fun '(p, b) => height < nHeight b /\ (isInvalidBlockOnActiveChain || negb (in_chain cs p)) = true) (index cs)).

Definition prevs_of (h : heap) (s : gset ptr) : gset ptr :=
  list_to_set (omap (fun p => get_prev h (Some p)) (elements s)).

Definition InvalidateChain (pindexNew : ptr) (cs : chainstate) : option chainstate :=
  b ← index cs !! pindexNew;
  if negb (isInvalid (nStatus b)) then None
  else
    let setTipCandidates := tip_candidates cs pindexNew (nHeight b) in
    let setTips := setTipCandidates ∖ prevs_of (index cs) setTipCandidates in
    fail_tips pindexNew (nHeight b) (elements setTips) cs.

(** [pindexBestInvalid] becomes [p] if it has more work. *)

Definition note_invalid (p : ptr) (cs : chainstate) : option chainstate :=
  b ← index cs !! p;
  match pindexBestInvalid cs with
  | None => Some (set_best_invalid cs (Some p))
  | Some q => bq ← index cs !! q; Some (if 0 <? CompareTo (nChainWork b) (nChainWork bq) then set_best_invalid cs (Some p) else cs)
  end.

Definition InvalidChainFound (pindexNew : ptr) (cs : chainstate) : option chainstate :=
  cs ← note_invalid pindexNew cs; _ ← tip cs; Some cs.

(** [freeze]: the reject code is that of a frozen output; [corruption]: the data may be corrupt. *)

Definition InvalidBlockFound (pindex : ptr) (freeze corruption : bool) (cs : chainstate) : option chainstate :=
  if freeze || corruption then Some cs
  else InvalidChainFound pindex (erase_candidate pindex (modify ModifyStatusWithFailed pindex cs)).

(** ** The chain with the most work *)

Fixpoint first_candidate (h : heap) (it : list ptr) : option (option ptr) :=
  match it with
  | [] => Some None
  | p :: it => b ← h !! p; if IsSoftRejected b || IsInSoftConsensusFreeze b then first_candidate h it else Some (Some p)
  end.

(** The first block on the way to the active chain that is invalid (then [true]) or has no data. *)

Fixpoint bad_ancestor (cs : chainstate) (fuel : nat) (pindexTest : option ptr) : option (option (ptr * bool)) :=
  match pindexTest with
  | None => Some None
  | Some p =>
      if in_chain cs p then Some None
      else
        b ← index cs !! p;
        if (nChainTx b =? 0) && negb (nHeight b =? 0) then None
        else if isInvalid (nStatus b) || negb (hasData (nStatus b)) then Some (Some (p, isInvalid (nStatus b)))
        else match fuel with O => None | S n => bad_ancestor cs n (pprev b) end
  end.

(** The blocks above the one without data wait for it. *)

Fixpoint unlink (fuel : nat) (stop p : ptr) (cs : chainstate) : option chainstate :=
  if bool_decide (p = stop) then Some cs
  else
    match fuel with
    | O => None
    | S n =>
        b ← index cs !! p;
        q ← pprev b;
        unlink n stop q (erase_candidate p (set_unlinked cs (mapBlocksUnlinked cs ++ [(q, p)])))
    end.

Fixpoint find_loop (fuel : nat) (cs : chainstate) : option (option ptr * chainstate) :=
  candidate ← first_candidate (index cs) (rev (setBlockIndexCandidates cs));
  match candidate with
  | None => Some (None, cs)
  | Some pindexNew =>
      b ← index cs !! pindexNew;
      let height := Z.to_nat (nHeight b) in
      bad ← bad_ancestor cs (S height) (Some pindexNew);
      match bad with
      | None => Some (Some pindexNew, cs)
      | Some (pindexTest, fInvalidChain) =>
          match fuel with
          | O => None
          | S n =>
              cs ← (if (fInvalidChain : bool) then cs ← note_invalid pindexNew cs; InvalidateChain pindexTest cs else unlink height pindexTest pindexNew cs);
              find_loop n (erase_candidate pindexTest cs)
          end
      end
  end.

Definition FindMostWorkChain (cs : chainstate) : option (option ptr * chainstate) := find_loop (length (setBlockIndexCandidates cs)) cs.

(** ** Worse candidates *)

Fixpoint prune_loop (cs : chainstate) (t : ptr) (rejected : bool) (it : list ptr) : option (list ptr) :=
  match it with
  | [] => Some []
  | p :: it' => b ← index cs !! p; if less cs p t && (negb rejected || IsSoftRejected b) then prune_loop cs t rejected it' else Some it
  end.

Definition PruneBlockIndexCandidates (cs : chainstate) : option chainstate :=
  t ← tip cs;
  b ← index cs !! t;
  if IsInSoftConsensusFreeze b then Some cs
  else
    s ← prune_loop cs t (IsSoftRejected b) (setBlockIndexCandidates cs);
    match s with [] => None | _ => Some (set_candidates cs s) end.

(** ** A block arrives *)

Definition MIN_TTOR_VALIDATION_DISTANCE : Z := 100.

(** A candidate is inserted unless it is worse than the tip. *)

Definition offer (p : ptr) (cs : chainstate) : chainstate :=
  match tip cs with
  | Some t => if less cs p t then cs else insert_candidate p cs
  | None => insert_candidate p cs
  end.

Definition link_block (p : ptr) (before : Z) (cs : chainstate) : chainstate :=
  let id := nBlockSequenceId cs in
  let cs := modify (fun b => SetChainTxAndSequenceId b (u32 (before + nTx b)) id) p cs in
  offer p (set_counters cs (id + 1) (nBlockReverseSequenceId cs) (nLastPreciousChainwork cs)).

(** The queue of blocks whose ancestors all have their transactions now; [nBlockSequenceId++] is a signed increment. *)

Fixpoint link_loop (fuel : nat) (queue : list ptr) (cs : chainstate) : option chainstate :=
  match queue with
  | [] => Some cs
  | p :: queue =>
      match fuel with
      | O => None
      | S n =>
          b ← index cs !! p;
          before ← match pprev b with None => Some 0 | Some q => nChainTx <$> index cs !! q end;
          if nBlockSequenceId cs =? 2 ^ 31 - 1 then None
          else
            let cs := link_block p before cs in
            let range := filter (fun e => e.1 = p) (mapBlocksUnlinked cs) in
            link_loop n (queue ++ map snd range) (set_unlinked cs (filter (fun e => e.1 <> p) (mapBlocksUnlinked cs)))
      end
  end.

(** [ReceivedBlockTransactions] for a block with [n] transactions; [ttor] is what [CheckBlockTTOROrder] says of it, which
    matters only far below the tip. *)

Definition ttor_checked (cs : chainstate) (b : CBlockIndex) : option bool :=
  match tip cs with None => Some false | Some t => tb ← index cs !! t; Some (MIN_TTOR_VALIDATION_DISTANCE <=? nHeight tb - nHeight b) end.

Definition ReceivedBlockTransactions (pindexNew : ptr) (n : Z) (ttor meta : bool) (now : Z) (cs : chainstate) : option (bool * chainstate) :=
  b ← index cs !! pindexNew;
  deep ← ttor_checked cs b;
  if deep && negb ttor then
    cs ← InvalidateChain pindexNew (erase_candidate pindexNew (modify ModifyStatusWithFailed pindexNew cs));
    cs ← InvalidChainFound pindexNew cs;
    Some (false, cs)
  else
    let cs := modify (fun b => SetDiskBlockData b n meta now) pindexNew cs in
    match pprev b with
    | None => cs ← link_loop (S (length (mapBlocksUnlinked cs))) [pindexNew] cs; Some (true, cs)
    | Some q =>
        bq ← index cs !! q;
        if negb (nChainTx bq =? 0) then cs ← link_loop (S (length (mapBlocksUnlinked cs))) [pindexNew] cs; Some (true, cs)
        else if IsValid bq TREE then Some (true, set_unlinked cs (mapBlocksUnlinked cs ++ [(q, pindexNew)]))
        else Some (true, cs)
    end.

(** ** A block is reconsidered *)

Definition reset_block (pindex : ptr) (height : Z) (p : ptr) (cs : chainstate) : option chainstate :=
  b ← index cs !! p;
  if IsValid b TRANSACTIONS then Some cs
  else
    a ← GetAncestor (index cs) p height;
    if negb (bool_decide (a = Some pindex)) then Some cs
    else
      let cs1 := modify ModifyStatusWithClearedFailedFlags p cs in
      cs2 ← (if IsValid (ModifyStatusWithClearedFailedFlags b) TRANSACTIONS && negb (nChainTx b =? 0)
             then t ← tip cs1; Some (if less cs1 t p then insert_candidate p cs1 else cs1)
             else Some cs1);
      Some (if bool_decide (pindexBestInvalid cs2 = Some p) then set_best_invalid cs2 None else cs2).

Fixpoint reset_blocks (pindex : ptr) (height : Z) (l : list ptr) (cs : chainstate) : option chainstate :=
  match l with [] => Some cs | p :: l => cs ← reset_block pindex height p cs; reset_blocks pindex height l cs end.

Fixpoint reset_ancestors (fuel : nat) (pindex : option ptr) (cs : chainstate) : option chainstate :=
  match pindex with
  | None => Some cs
  | Some p =>
      b ← index cs !! p;
      let cs := if isInvalid (nStatus b) then modify ModifyStatusWithClearedFailedFlags p cs else cs in
      match fuel with O => match pprev b with None => Some cs | Some _ => None end | S n => reset_ancestors n (pprev b) cs end
  end.

Definition ResetBlockFailureFlags (pindex : ptr) (cs : chainstate) : option chainstate :=
  b ← index cs !! pindex;
  cs ← reset_blocks pindex (nHeight b) (elements (dom (index cs))) cs;
  reset_ancestors (Z.to_nat (nHeight b)) (Some pindex) cs.

(** ** A block is preferred: the part of [PreciousBlock] under the lock *)

Definition PreciousBlock_mark (pindex : ptr) (cs : chainstate) : option chainstate :=
  b ← index cs !! pindex;
  t ← tip cs;
  tb ← index cs !! t;
  if CompareTo (nChainWork b) (nChainWork tb) <? 0 then Some cs
  else
    let reverse := if 0 <? CompareTo (nChainWork tb) (nLastPreciousChainwork cs) then -1 else nBlockReverseSequenceId cs in
    let cs := erase_candidate pindex (set_counters cs (nBlockSequenceId cs) reverse (nChainWork tb)) in
    let cs := modify (fun b => SetSequenceId (IgnoreValidationTime b) reverse) pindex cs in
    let cs := set_counters cs (nBlockSequenceId cs) (if - 2 ^ 31 <? reverse then reverse - 1 else reverse) (nLastPreciousChainwork cs) in
    if IsValid b TRANSACTIONS && negb (nChainTx b =? 0) then PruneBlockIndexCandidates (insert_candidate pindex cs) else Some cs.

(** ** What the changes leave alone *)

(** The place of an entry in the tree never changes. *)

Definition place (b : CBlockIndex) : option ptr * option ptr * Z * base_uint := (pprev b, pskip b, nHeight b, nChainWork b).

Definition same_tree (h h' : heap) : Prop := place <$> h = place <$> h'.

#[export] Instance same_tree_equiv : Equivalence same_tree.
Proof. split; [done | by intros h h' | intros h h' h'' E E'; unfold same_tree in *; congruence]. Qed.

Lemma same_tree_lookup h h' p b : same_tree h h' -> h !! p = Some b -> exists b', h' !! p = Some b' /\ place b' = place b.
Proof.
  intros E Hp. assert ((place <$> h') !! p = Some (place b)) as Hp' by (by rewrite <- E, lookup_fmap, Hp).
  rewrite lookup_fmap in Hp'. destruct (h' !! p) as [b'|]; [|done]. exists b'. split; [done|]. cbn in Hp'. congruence.
Qed.

Lemma same_tree_none h h' p : same_tree h h' -> h !! p = None -> h' !! p = None.
Proof.
  intros E Hp. assert ((place <$> h') !! p = None) as Hp' by (by rewrite <- E, lookup_fmap, Hp).
  rewrite lookup_fmap in Hp'. by destruct (h' !! p).
Qed.

Lemma same_tree_alter h p f : (forall b, place (f b) = place b) -> same_tree (alter f p h) h.
Proof.
  intros Hf. apply map_eq. intros q. rewrite !lookup_fmap. destruct (decide (p = q)) as [->|Hne]; [|by rewrite lookup_alter_ne].
  rewrite lookup_alter_eq. destruct (h !! q); [|done]. cbn. by rewrite Hf.
Qed.

#[export] Instance walk_proper : Proper (same_tree ==> eq ==> eq ==> eq) walk.
Proof.
  intros h h' E n ? <- p ? <-. revert p. induction n as [|n IH]; intros p; [done|]. cbn [walk].
  destruct (h !! p) as [b|] eqn:Hp; [|by rewrite (same_tree_none h h' p E Hp)].
  destruct (same_tree_lookup h h' p b E Hp) as (b' & -> & Eb). injection Eb as -> _ _ _. destruct (pprev b); [apply IH | done].
Qed.

#[export] Instance ancestor_proper : Proper (same_tree ==> eq ==> eq ==> iff) ancestor.
Proof. intros h h' E q ? <- p ? <-. unfold ancestor. by setoid_rewrite E. Qed.

Lemma tree_ok_same h h' : same_tree h h' -> tree_ok h -> tree_ok h'.
Proof.
  intros E Ht p b' Hp'. symmetry in E. destruct (same_tree_lookup h' h p b' E Hp') as (b & Hp & Eb). injection Eb as Ep Es Eh _.
  destruct (Ht p b Hp) as [H0 H1]. split; [by rewrite <- Eh|]. rewrite <- Ep, <- Es, <- Eh. destruct (pprev b) as [q|]; [|done].
  destruct H1 as (bq & Hq & Ehq & Hk). symmetry in E. destruct (same_tree_lookup h h' q bq E Hq) as (bq' & Hq' & Ebq). injection Ebq as _ _ Ehq' _.
  exists bq'. rewrite Ehq'. split_and!; [done | done|]. destruct Hk as [Hk|(s & Es' & Hw)]; [by left|]. right. exists s. by rewrite <- E.
Qed.

#[export] Instance tree_ok_proper : Proper (same_tree ==> iff) tree_ok.
Proof. intros h h' E. split; apply tree_ok_same; [done | by symmetry]. Qed.

#[export] Instance Contains_proper : Proper (same_tree ==> eq ==> eq ==> eq) Contains.
Proof.
  intros h h' E c ? <- p ? <-. unfold Contains. destruct (h !! p) as [b|] eqn:Hp; [|by rewrite (same_tree_none h h' p E Hp)].
  destruct (same_tree_lookup h h' p b E Hp) as (b' & -> & Eb). by injection Eb as _ _ -> _.
Qed.

Lemma chain_ok_same h h' c : same_tree h h' -> chain_ok h c -> chain_ok h' c.
Proof.
  intros E. unfold chain_ok. destruct (mChainTip c) as [p|]; [|done]. intros (b & Hp & Hl & Hi).
  destruct (same_tree_lookup h h' p b E Hp) as (b' & Hp' & Eb). injection Eb as _ _ Eh _. exists b'. rewrite Eh. split_and!; [done..|].
  intros i Hle. by rewrite <- E, Hi.
Qed.

#[export] Instance chain_ok_proper : Proper (same_tree ==> eq ==> iff) chain_ok.
Proof. intros h h' E c ? <-. split; apply chain_ok_same; [done | by symmetry]. Qed.

(** ** The comparator is a strict total order *)

Definition works_ok (h : heap) : Prop := map_Forall (fun _ b => wf (nChainWork b)) h.

Lemma works_ok_same h h' : same_tree h h' -> works_ok h -> works_ok h'.
Proof.
  intros E Hw p b' Hp'. symmetry in E. destruct (same_tree_lookup h' h p b' E Hp') as (b & Hp & Eb). injection Eb as _ _ _ <-. by apply (Hw p).
Qed.

#[export] Instance works_ok_proper : Proper (same_tree ==> iff) works_ok.
Proof. intros h h' E. split; apply works_ok_same; [done | by symmetry]. Qed.

(** The comparator reads the work, the time and the sequence number. *)

Definition rank (p : ptr) (b : CBlockIndex) : Z * Z * Z * Z := (val (nChainWork b), - mValidationCompletionTime b, - nSequenceId b, - Zpos p).

Definition before (x y : Z * Z * Z * Z) : Prop :=
  let '(x1, x2, x3, x4) := x in let '(y1, y2, y3, y4) := y in
  x1 < y1 \/ x1 = y1 /\ (x2 < y2 \/ x2 = y2 /\ (x3 < y3 \/ x3 = y3 /\ x4 < y4)).

Lemma comparator_spec h p q a b : works_ok h -> h !! p = Some a -> h !! q = Some b ->
  CBlockIndexWorkComparator h p q = true <-> before (rank p a) (rank q b).
Proof.
  intros Hw Hp Hq. unfold CBlockIndexWorkComparator. rewrite Hp, Hq, CompareTo_spec by (by eapply Hw). unfold before, rank.
  destruct (Z.compare_spec (val (nChainWork a)) (val (nChainWork b))) as [E|Hl|Hl]; cbn [sign_of].
  - rewrite E. change (0 <? 0) with false. cbn beta iota.
    destruct (Z.ltb_spec (mValidationCompletionTime a) (mValidationCompletionTime b)); [split; [done | lia]|].
    destruct (Z.ltb_spec (mValidationCompletionTime b) (mValidationCompletionTime a)); [split; [lia | done]|].
    destruct (Z.ltb_spec (nSequenceId a) (nSequenceId b)); [split; [done | lia]|].
    destruct (Z.ltb_spec (nSequenceId b) (nSequenceId a)); [split; [lia | done]|]. rewrite Pos.ltb_lt. lia.
  - change (0 <? -1) with false. change (-1 <? 0) with true. cbn beta iota. split; [lia | done].
  - change (0 <? 1) with true. cbn beta iota. split; [done | lia].
Qed.

Lemma comparator_irrefl h p : works_ok h -> CBlockIndexWorkComparator h p p = false.
Proof.
  intros Hw. destruct (h !! p) as [b|] eqn:Hp; [|unfold CBlockIndexWorkComparator; by rewrite Hp].
  apply not_true_iff_false. rewrite (comparator_spec h p p b b) by done. cbn. lia.
Qed.

Lemma comparator_total h p q : works_ok h -> is_Some (h !! p) -> is_Some (h !! q) -> p <> q ->
  CBlockIndexWorkComparator h p q = negb (CBlockIndexWorkComparator h q p).
Proof.
  intros Hw [a Hp] [b Hq] Hne. apply eq_true_iff_eq. rewrite negb_true_iff, <- not_true_iff_false.
  rewrite (comparator_spec h p q a b), (comparator_spec h q p b a) by done. cbn. assert (Zpos p <> Zpos q) by congruence. lia.
Qed.

Lemma comparator_trans h p q r : works_ok h -> CBlockIndexWorkComparator h p q = true -> CBlockIndexWorkComparator h q r = true ->
  CBlockIndexWorkComparator h p r = true.
Proof.
  intros Hw. destruct (h !! p) as [a|] eqn:Hp; [|by unfold CBlockIndexWorkComparator at 1; rewrite Hp].
  destruct (h !! q) as [b|] eqn:Hq; [|by unfold CBlockIndexWorkComparator at 1; rewrite Hp, Hq].
  destruct (h !! r) as [c|] eqn:Hr; [|by unfold CBlockIndexWorkComparator at 2; rewrite Hq, Hr].
  rewrite (comparator_spec h p q a b), (comparator_spec h q r b c), (comparator_spec h p r a c) by done. cbn. lia.
Qed.

(** ** Ordered sets of blocks *)

Lemma filter_all {A} (P : A -> Prop) `{!forall x, Decision (P x)} (s : list A) : (forall x, x ∈ s -> P x) -> filter P s = s.
Proof.
  induction s as [|x s IH]; intros Hs; [done|]. rewrite filter_cons, decide_True by (apply Hs; by left). f_equal. apply IH. intros y Hy. apply Hs. by right.
Qed.

Section ordered.
Context (h : heap) (Hw : works_ok h).
Notation lt := (CBlockIndexWorkComparator h).
Notation ordered := (StronglySorted (fun p q => lt p q = true)).
Notation blocks := (Forall (fun p => is_Some (h !! p))).

Lemma ordered_notin p s : ordered (p :: s) -> p ∉ s.
Proof.
  intros Hs Hin. apply StronglySorted_inv in Hs as [_ Hf]. pose proof (proj1 (list.Forall_forall _ _) Hf p Hin) as Hp. cbn in Hp.
  by rewrite comparator_irrefl in Hp.
Qed.

Lemma set_erase_filter p s : is_Some (h !! p) -> blocks s -> ordered s -> set_erase lt p s = filter (fun q => q <> p) s.
Proof.
  intros Hp. induction s as [|q s IH]; intros Hb Hs; [done|]. apply Forall_cons_1 in Hb as [Hq Hb]. pose proof (ordered_notin _ _ Hs) as Hn.
  apply StronglySorted_inv in Hs as [Hs Hf]. rewrite filter_cons. cbn [set_erase]. destruct (decide (q <> p)) as [Hne|Heq].
  - rewrite IH by done. destruct (lt q p) eqn:E; [done|]. rewrite (comparator_total h p q) by done. rewrite E. cbn [negb]. f_equal.
    symmetry. apply filter_all. intros r Hr ->. pose proof (proj1 (list.Forall_forall _ _) Hf p Hr) as Hqp. cbn in Hqp. congruence.
  - assert (q = p) as -> by (by destruct (decide (q = p))). rewrite comparator_irrefl by done. symmetry. apply filter_all. by intros r Hr ->.
Qed.

Lemma set_insert_elem p s q : is_Some (h !! p) -> blocks s -> q ∈ set_insert lt p s <-> q = p \/ q ∈ s.
Proof.
  intros Hp. induction s as [|r s IH]; intros Hb; cbn [set_insert]; [rewrite list_elem_of_singleton, elem_of_nil; tauto|].
  apply Forall_cons_1 in Hb as [Hr Hb]. destruct (lt r p) eqn:E.
  - rewrite !elem_of_cons, IH by done. tauto.
  - destruct (decide (r = p)) as [->|Hne]; [rewrite comparator_irrefl by done; rewrite elem_of_cons; tauto|].
    rewrite (comparator_total h p r), E by done. cbn [negb]. by rewrite elem_of_cons.
Qed.

Lemma set_insert_ordered p s : is_Some (h !! p) -> blocks s -> ordered s -> ordered (set_insert lt p s).
Proof.
  intros Hp. induction s as [|r s IH]; intros Hb Hs; cbn [set_insert]; [by repeat constructor|].
  apply Forall_cons_1 in Hb as [Hr Hb]. apply StronglySorted_inv in Hs as [Hs Hf]. destruct (lt r p) eqn:E.
  - constructor; [by apply IH|]. apply list.Forall_forall. intros q. rewrite set_insert_elem by done. intros [->|Hq]; [done|].
    by apply (proj1 (list.Forall_forall _ _) Hf).
  - destruct (lt p r) eqn:E'; [|by constructor]. constructor; [by constructor|]. constructor; [done|].
    eapply list.Forall_impl; [exact Hf|]. intros q Hq. by apply (comparator_trans h p r q).
Qed.

Lemma ordered_filter (P : ptr -> Prop) `{!forall p, Decision (P p)} s : ordered s -> ordered (filter P s).
Proof.
  induction 1 as [|p s Hs IH Hf]; [constructor|]. rewrite filter_cons. destruct (decide (P p)); [|done]. constructor; [done|].
  apply list.Forall_forall. intros q [_ Hq]%list_elem_of_filter. by apply (proj1 (list.Forall_forall _ _) Hf).
Qed.

Lemma ordered_NoDup s : ordered s -> NoDup s.
Proof. induction s as [|p s IH]; intros Hs; [constructor|]. constructor; [by apply ordered_notin | apply IH; by apply StronglySorted_inv in Hs as [? _]]. Qed.

End ordered.

(** ** Consistency of the globals *)

Record index_ok (cs : chainstate) : Prop := {
  io_tree : tree_ok (index cs);
  io_works : works_ok (index cs);
  io_chain : chain_ok (index cs) (chainActive cs);
  io_ordered : StronglySorted (fun p q => less cs p q = true) (setBlockIndexCandidates cs);
  io_linked p : p ∈ setBlockIndexCandidates cs -> exists b, index cs !! p = Some b /\ nChainTx b <> 0;
  io_parents p b q bq : index cs !! p = Some b -> nChainTx b <> 0 -> pprev b = Some q -> index cs !! q = Some bq -> nChainTx bq <> 0;
  io_invalid p : pindexBestInvalid cs = Some p -> is_Some (index cs !! p) }.

(** Changes of the status alone. *)

Definition same_but_status (h h' : heap) : Prop := (fun b => with_status b 0) <$> h = (fun b => with_status b 0) <$> h'.

#[export] Instance same_but_status_equiv : Equivalence same_but_status.
Proof. split; [done | by intros h h' | intros h h' h'' E E'; unfold same_but_status in *; congruence]. Qed.

Lemma same_but_status_lookup h h' p b : same_but_status h h' -> h !! p = Some b -> exists s, h' !! p = Some (with_status b s).
Proof.
  intros E Hp. assert (((fun b => with_status b 0) <$> h') !! p = Some (with_status b 0)) as Hp' by (by rewrite <- E, lookup_fmap, Hp).
  rewrite lookup_fmap in Hp'. destruct (h' !! p) as [b'|]; [|done]. apply (inj Some) in Hp'.
  exists (nStatus b'). f_equal. transitivity (with_status (with_status b' 0) (nStatus b')); [by destruct b' | by rewrite Hp'].
Qed.

Lemma same_but_status_tree h h' : same_but_status h h' -> same_tree h h'.
Proof.
  intros E. unfold same_tree. apply map_eq. intros p. rewrite !lookup_fmap. destruct (h !! p) as [b|] eqn:Hp.
  - destruct (same_but_status_lookup h h' p b E Hp) as [s ->]. done.
  - destruct (h' !! p) as [b'|] eqn:Hp'; [|done]. symmetry in E. destruct (same_but_status_lookup h' h p b' E Hp'). congruence.
Qed.

Lemma comparator_status h h' p q : same_but_status h h' -> CBlockIndexWorkComparator h' p q = CBlockIndexWorkComparator h p q.
Proof.
  intros E. unfold CBlockIndexWorkComparator.
  destruct (h !! p) as [a|] eqn:Hp; [|by rewrite (same_tree_none h h' p (same_but_status_tree _ _ E) Hp)].
  destruct (same_but_status_lookup h h' p a E Hp) as [s ->].
  destruct (h !! q) as [b|] eqn:Hq; [|by rewrite (same_tree_none h h' q (same_but_status_tree _ _ E) Hq)].
  by destruct (same_but_status_lookup h h' q b E Hq) as [s' ->].
Qed.

Lemma same_but_status_alter h p f : (forall b, with_status (f b) 0 = with_status b 0) -> same_but_status (alter f p h) h.
Proof.
  intros Hf. apply map_eq. intros q. rewrite !lookup_fmap. destruct (decide (p = q)) as [->|Hne]; [|by rewrite lookup_alter_ne].
  rewrite lookup_alter_eq. destruct (h !! q); [|done]. cbn. by rewrite Hf.
Qed.

Lemma ordered_status h h' s : same_but_status h h' -> StronglySorted (fun p q => CBlockIndexWorkComparator h p q = true) s ->
  StronglySorted (fun p q => CBlockIndexWorkComparator h' p q = true) s.
Proof.
  intros E. induction 1 as [|p s Hs IH Hf]; constructor; [done|]. eapply list.Forall_impl; [exact Hf|]. intros q. by rewrite (comparator_status _ _ p q E).
Qed.

(** Fewer candidates and other flags keep the globals consistent. *)

Lemma index_ok_status cs h (P : ptr -> Prop) `{!forall p, Decision (P p)} : index_ok cs -> same_but_status (index cs) h ->
  index_ok (set_candidates (set_index cs h) (filter P (setBlockIndexCandidates cs))).
Proof.
  intros [Ht Hw Hc Ho Hl Hp Hi] E. pose proof (same_but_status_tree _ _ E) as Et. split; cbn.
  - by rewrite <- Et.
  - by rewrite <- Et.
  - by rewrite <- Et.
  - unfold less. cbn. apply ordered_filter, (ordered_status _ _ _ E), Ho.
  - intros p [_ Hin]%list_elem_of_filter. destruct (Hl p Hin) as (b & Hb & Hn). destruct (same_but_status_lookup _ _ p b E Hb) as [s Hs]. by exists (with_status b s).
  - intros p b q bq Hb Hn Eq Hq. symmetry in E. destruct (same_but_status_lookup _ _ p b E Hb) as [s Hs]. destruct (same_but_status_lookup _ _ q bq E Hq) as [s' Hs'].
    by apply (Hp p (with_status b s) q (with_status bq s')).
  - intros p Ep. destruct (Hi p Ep) as [b Hb]. destruct (same_but_status_lookup _ _ p b E Hb) as [s Hs]. by eexists.
Qed.

(** ** Failing a whole chain *)

(** The state in which the blocks of [M] have a failed parent and are no candidates. *)

Definition fail_if (M : gset ptr) (p : ptr) (b : CBlockIndex) : CBlockIndex := if decide (p ∈ M) then ModifyStatusWithFailedParent b else b.

Definition marked (M : gset ptr) (cs : chainstate) : chainstate :=
  set_candidates (set_index cs (map_imap (fun p b => Some (fail_if M p b)) (index cs))) (filter (fun p => p ∉ M) (setBlockIndexCandidates cs)).

Lemma marked_lookup M cs p : index (marked M cs) !! p = fail_if M p <$> index cs !! p.
Proof. cbn. rewrite map_lookup_imap. by destruct (index cs !! p). Qed.

Lemma fail_if_status M p b : exists s, fail_if M p b = with_status b s.
Proof. unfold fail_if, ModifyStatusWithFailedParent. destruct (decide _); [by eexists|]. exists (nStatus b). by destruct b. Qed.

Lemma marked_status M cs : same_but_status (index cs) (index (marked M cs)).
Proof.
  apply map_eq. intros p. rewrite !lookup_fmap, marked_lookup. destruct (index cs !! p) as [b|]; [|done]. cbn. by destruct (fail_if_status M p b) as [s ->].
Qed.

Lemma marked_ok M cs : index_ok cs -> index_ok (marked M cs).
Proof. intros Hcs. apply (index_ok_status cs _ (fun p => p ∉ M) Hcs), marked_status. Qed.

Lemma marked_empty cs : marked ∅ cs = cs.
Proof.
  unfold marked. rewrite filter_all by set_solver. destruct cs as [h s u c bi n r w]. unfold set_candidates, set_index. cbn. f_equal.
  apply map_eq. intros p. rewrite map_lookup_imap. by destruct (h !! p).
Qed.

Lemma with_flag_twice flag status b : Z.land flag (u32 (Z.lnot flag)) = 0 -> with_flag flag (with_flag flag status b) b = with_flag flag status b.
Proof.
  intros E. unfold with_flag. rewrite Z.land_lor_distr_l, <- Z.land_assoc, Z.land_diag. destruct b; [by rewrite E, Z.lor_0_r | by rewrite Z.land_0_l, !Z.lor_0_r].
Qed.

Lemma failed_parent_twice b : ModifyStatusWithFailedParent (ModifyStatusWithFailedParent b) = ModifyStatusWithFailedParent b.
Proof.
  transitivity (with_status b (withFailedParent (withFailedParent (nStatus b) true) true)); [done|]. unfold withFailedParent. by rewrite with_flag_twice.
Qed.

Lemma candidates_blocks cs : index_ok cs -> Forall (fun p => is_Some (index cs !! p)) (setBlockIndexCandidates cs).
Proof. intros Hcs. apply list.Forall_forall. intros p Hp. destruct (io_linked _ Hcs p Hp) as (b & Hb & _). by exists b. Qed.

Lemma erase_filter p cs : index_ok cs -> is_Some (index cs !! p) ->
  erase_candidate p cs = set_candidates cs (filter (fun q => q <> p) (setBlockIndexCandidates cs)).
Proof.
  intros Hcs Hp. unfold erase_candidate. f_equal. apply (set_erase_filter (index cs)); [apply Hcs | done | by apply candidates_blocks | apply Hcs].
Qed.

Lemma chainstate_eq cs h s h' s' : h = h' -> s = s' -> set_candidates (set_index cs h) s = set_candidates (set_index cs h') s'.
Proof. by intros -> ->. Qed.

Lemma mark_one p M cs : index_ok cs -> is_Some (index cs !! p) ->
  erase_candidate p (modify ModifyStatusWithFailedParent p (marked M cs)) = marked ({[ p ]} ∪ M) cs.
Proof.
  intros Hcs Hp. assert (same_but_status (alter ModifyStatusWithFailedParent p (index (marked M cs))) (index (marked M cs))) as Es by (by apply same_but_status_alter).
  pose proof (index_ok_status (marked M cs) _ (fun _ => True) (marked_ok M cs Hcs) ltac:(symmetry; exact Es)) as Hok. rewrite filter_all in Hok by done.
  assert (set_candidates (set_index (marked M cs) (alter ModifyStatusWithFailedParent p (index (marked M cs)))) (setBlockIndexCandidates (marked M cs))
    = modify ModifyStatusWithFailedParent p (marked M cs)) as E by done. rewrite E in Hok. clear E.
  rewrite erase_filter; [|done|]. 2: { cbn -[marked]. rewrite lookup_alter_eq, marked_lookup. destruct Hp as [b ->]. by eexists. }
  transitivity (set_candidates (set_index cs (alter ModifyStatusWithFailedParent p (index (marked M cs))))
    (filter (fun q => q <> p) (filter (fun q => q ∉ M) (setBlockIndexCandidates cs)))); [done|]. apply chainstate_eq.
  - apply map_eq. intros q. destruct (decide (p = q)) as [<-|Hne].
    + rewrite lookup_alter_eq, marked_lookup, map_lookup_imap. destruct Hp as [b ->]. cbn. f_equal. unfold fail_if. rewrite (decide_True (P := p ∈ {[p]} ∪ M)) by (apply elem_of_union; left; by apply elem_of_singleton).
      destruct (decide (p ∈ M)); [apply failed_parent_twice | done].
    + rewrite lookup_alter_ne, marked_lookup, map_lookup_imap by done. destruct (index cs !! q); [|done]. cbn. f_equal. unfold fail_if.
      apply decide_ext. rewrite elem_of_union, elem_of_singleton. split; [by right | by intros [->|?]].
  - cbn. rewrite list_filter_filter. apply list_filter_iff. intros q. rewrite not_elem_of_union, not_elem_of_singleton. tauto.
Qed.

Lemma ancestor_level h p b q bq : tree_ok h -> h !! p = Some b -> ancestor h q p -> h !! q = Some bq -> nHeight b <= nHeight bq -> q = p.
Proof.
  intros Ht Hp Ha Hq Hh. destruct (ancestor_height h p b q Ht Hp Ha) as (bq' & Hq' & Hb & Hw). rewrite Hq in Hq'. injection Hq' as <-.
  replace (Z.to_nat (nHeight b - nHeight bq)) with 0%nat in Hw by lia. by injection Hw.
Qed.

Lemma ancestor_linear h p b x bx y b_y : tree_ok h -> h !! p = Some b -> ancestor h x p -> h !! x = Some bx -> ancestor h y p -> h !! y = Some b_y ->
  nHeight bx <= nHeight b_y -> ancestor h x y.
Proof.
  intros Ht Hp Hx Hbx Hy Hby Hh. destruct (ancestor_height h p b y Ht Hp Hy) as (b' & Hb' & Hr & Hw). rewrite Hby in Hb'. injection Hb' as <-.
  apply (ancestor_at h p b x bx (nHeight b_y) y); [done..|lia|done].
Qed.

(** Between a block and one of its ancestors, which is left out. *)

Definition above (h : heap) (stop p q : ptr) : Prop := ancestor h q p /\ ancestor h stop q /\ q <> stop.

Lemma above_step h stop bs p b r : tree_ok h -> h !! stop = Some bs -> h !! p = Some b -> ancestor h stop p -> p <> stop -> pprev b = Some r ->
  ancestor h stop r /\ forall q, above h stop p q <-> q = p \/ above h stop r q.
Proof.
  intros Ht Hs Hp Ha Hne Hr. assert (ancestor h stop r) as Hsr.
  { destruct (ancestor_inv h p b stop Ht Hp Ha) as [->|(r' & Er & Hr')]; [done | congruence]. }
  split; [done|]. intros q. split.
  - intros (Hq & Hs' & Hn). destruct (ancestor_inv h p b q Ht Hp Hq) as [->|(r' & Er & Hr')]; [by left|]. right. assert (r' = r) as -> by congruence. done.
  - intros [->|(Hq & Hs' & Hn)]; [by split_and!; [apply ancestor_refl|..]|]. split_and!; [|done..]. apply (ancestor_trans h q r p Hq). by apply (ancestor_step h p b).
Qed.

Lemma above_self h stop bs q : tree_ok h -> h !! stop = Some bs -> ~ above h stop stop q.
Proof.
  intros Ht Hs (Hq & Hs' & Hn). destruct (ancestor_height h stop bs q Ht Hs Hq) as (bq & Hbq & Hh & _).
  destruct (ancestor_height h q bq stop Ht Hbq Hs') as (bs' & Hbs & Hh' & _). rewrite Hs in Hbs. injection Hbs as <-.
  apply Hn. by apply (ancestor_level h stop bs q bq); [done..|lia].
Qed.

Lemma ancestor_antisym h p b q : tree_ok h -> h !! p = Some b -> ancestor h q p -> ancestor h p q -> q = p.
Proof. intros Ht Hp Hq Hpq. destruct (decide (q = p)) as [|Hne]; [done|]. destruct (above_self h p b q Ht Hp). by split_and!. Qed.

Lemma heights_bounded (h : heap) : exists B, forall p b, h !! p = Some b -> nHeight b <= B.
Proof.
  induction h as [|p b h Hp [B IH]] using map_ind; [exists 0; intros p b; by rewrite lookup_empty|]. exists (Z.max B (nHeight b)).
  intros q c. destruct (decide (p = q)) as [<-|Hne]; [rewrite lookup_insert_eq; intros [= <-]; lia|]. rewrite lookup_insert_ne by done.
  intros Hq. specialize (IH q c Hq). lia.
Qed.

Section invalidate.
Context (cs : chainstate) (Hcs : index_ok cs).
Notation h := (index cs).

Lemma marked_get M p b : h !! p = Some b -> exists s, index (marked M cs) !! p = Some (with_status b s).
Proof. intros Hp. rewrite marked_lookup, Hp. cbn. destruct (fail_if_status M p b) as [s ->]. by exists s. Qed.

Lemma fail_descendants_spec stop bs : h !! stop = Some bs -> forall fuel p b M, h !! p = Some b -> ancestor h stop p ->
  nHeight b - nHeight bs <= Z.of_nat fuel ->
  exists M', fail_descendants fuel stop p (marked M cs) = Some (marked M' cs) /\ forall q, q ∈ M' <-> q ∈ M \/ above h stop p q.
Proof.
  intros Hs. pose proof (io_tree _ Hcs) as Ht. induction fuel as [|fuel IH]; intros p b M Hp Ha Hf; cbn [fail_descendants];
    (destruct (decide (p = stop)) as [->|Hne]; [rewrite bool_decide_true by done; exists M; split; [done|]; intros q; pose proof (above_self h stop bs q Ht Hs); tauto|];
     rewrite bool_decide_false by done).
  { exfalso. apply Hne. symmetry. apply (ancestor_level h p b stop bs); [done..|lia]. }
  destruct (marked_get M p b Hp) as [s ->]. cbn [mbind option_bind pprev with_status].
  destruct (ancestor_inv h p b stop Ht Hp Ha) as [->|(r & Er & Hr)]; [done|]. rewrite Er. cbn [mbind option_bind].
  destruct (above_step h stop bs p b r Ht Hs Hp Ha Hne Er) as [_ Hab]. destruct (Ht p b Hp) as [_ H1]. rewrite Er in H1. destruct H1 as (br & Hbr & Eh & _).
  rewrite mark_one by (by try exists b). destruct (IH r br ({[p]} ∪ M) Hbr Hr ltac:(lia)) as (M' & E & HM). exists M'. split; [done|].
  intros q. rewrite HM, Hab, elem_of_union, elem_of_singleton. tauto.
Qed.

Lemma walk_down_spec M p b height : h !! p = Some b -> 0 <= height <= nHeight b -> forall fuel, nHeight b - height <= Z.of_nat fuel ->
  walk_down (index (marked M cs)) fuel height p = walk h (Z.to_nat (nHeight b - height)) p.
Proof.
  intros Hp Hh fuel. revert p b Hp Hh. pose proof (io_tree _ Hcs) as Ht. induction fuel as [|fuel IH]; intros p b Hp Hh Hf; cbn [walk_down];
    destruct (marked_get M p b Hp) as [s ->]; cbn [mbind option_bind nHeight pprev with_status];
    (destruct (Z.leb_spec (nHeight b) height); [by replace (Z.to_nat (nHeight b - height)) with 0%nat by lia|]); [lia|].
  destruct (Ht p b Hp) as [H0 H1]. destruct (pprev b) as [r|] eqn:Er; [|lia]. destruct H1 as (br & Hbr & Eh & _). cbn [mbind option_bind].
  rewrite (IH r br Hbr) by lia. replace (Z.to_nat (nHeight b - height)) with (S (Z.to_nat (nHeight br - height))) by lia. cbn [walk]. by rewrite Hp, Er.
Qed.

Lemma fail_tip_spec stop bs t b M : h !! stop = Some bs -> h !! t = Some b -> nHeight bs < nHeight b ->
  exists M', fail_tip stop (nHeight bs) t (marked M cs) = Some (marked M' cs) /\ forall q, q ∈ M' <-> q ∈ M \/ above h stop t q.
Proof.
  intros Hs Hp Hh. pose proof (io_tree _ Hcs) as Ht. pose proof (proj1 (Ht stop bs Hs)) as H0. unfold fail_tip.
  destruct (marked_get M t b Hp) as [s Eb]. rewrite Eb. cbn [mbind option_bind nHeight with_status]. rewrite (walk_down_spec M t b) by (done || lia).
  destruct (walk_height h t b (Z.to_nat (nHeight b - nHeight bs)) Ht Hp ltac:(lia)) as (r & br & Hw & Hbr & Ehr). rewrite Hw. cbn [mbind option_bind].
  case_bool_decide as E; [subst r; apply (fail_descendants_spec stop bs Hs _ t b); [done | by eexists | lia]|].
  exists M. split; [done|]. intros q. split; [by left|]. intros [Hq|(Hq & Hs' & Hn)]; [done|]. exfalso. apply E.
  assert (ancestor h stop t) as Ha by (by apply (ancestor_trans h stop q t)). destruct (ancestor_height h t b stop Ht Hp Ha) as (bs' & Hbs & _ & Hw').
  rewrite Hs in Hbs. injection Hbs as <-. congruence.
Qed.

Lemma fail_tips_spec stop bs tips : h !! stop = Some bs -> forall M, Forall (fun t => exists b, h !! t = Some b /\ nHeight bs < nHeight b) tips ->
  exists M', fail_tips stop (nHeight bs) tips (marked M cs) = Some (marked M' cs) /\ forall q, q ∈ M' <-> q ∈ M \/ exists t, t ∈ tips /\ above h stop t q.
Proof.
  intros Hs. induction tips as [|t tips IH]; intros M Hf; cbn [fail_tips].
  { exists M. split; [done|]. intros q. split; [by left | intros [?|(t & Ht & _)]; [done | by apply elem_of_nil in Ht]]. }
  apply Forall_cons_1 in Hf as [(b & Hb & Hh) Hf]. destruct (fail_tip_spec stop bs t b M Hs Hb Hh) as (M1 & -> & H1). cbn [mbind option_bind].
  destruct (IH M1 Hf) as (M2 & E & H2). exists M2. split; [done|]. intros q. rewrite H2, H1. split.
  - intros [[?|?]|(t' & Ht' & ?)]; [by left | right; exists t; split; [by left | done] | right; exists t'; split; [by right | done]].
  - intros [?|(t' & [->|Ht']%elem_of_cons & ?)]; [by left; left | by left; right | right; by exists t'].
Qed.

Lemma in_chain_ancestor p q b : h !! q = Some b -> ancestor h p q -> in_chain cs q = true -> in_chain cs p = true.
Proof.
  intros Hq Ha Hin. pose proof (io_tree _ Hcs) as Ht. pose proof (io_chain _ Hcs) as Hc. destruct (ancestor_height h q b p Ht Hq Ha) as (bp & Hp & _).
  unfold in_chain in *. destruct (mChainTip (chainActive cs)) as [t|] eqn:Et.
  2: { unfold chain_ok in Hc. rewrite Et in Hc. unfold Contains in Hin. rewrite Hq in Hin. apply bool_decide_eq_true in Hin.
       unfold chain_at in Hin. rewrite Hc in Hin. by destruct (_ || _) in Hin; [|rewrite lookup_nil in Hin]. }
  pose proof Hc as Hc'. unfold chain_ok in Hc'. rewrite Et in Hc'. destruct Hc' as (bt & Hbt & _).
  apply (Contains_ancestor h _ t bt q b) in Hin; [|done..]. apply (Contains_ancestor h _ t bt p bp); [done..|]. by apply (ancestor_trans h p q t).
Qed.

Lemma tip_candidates_elem p height x : x ∈ tip_candidates cs p height <->
  exists b, h !! x = Some b /\ height < nHeight b /\ (in_chain cs p || negb (in_chain cs x)) = true.
Proof.
  unfold tip_candidates. rewrite elem_of_dom. unfold is_Some. setoid_rewrite map_lookup_filter_Some. split; intros (b & Hb & H1 & H2); by exists b.
Qed.

Lemma prevs_of_elem (T : gset ptr) x : x ∈ prevs_of h T <-> exists e b, e ∈ T /\ h !! e = Some b /\ pprev b = Some x.
Proof.
  unfold prevs_of. rewrite elem_of_list_to_set, list_elem_of_omap. setoid_rewrite elem_of_elements. cbn [get_prev]. split.
  - intros (e & He & Hx). destruct (h !! e) as [b|] eqn:Hb; [|done]. by exists e, b.
  - intros (e & b & He & Hb & Hx). exists e. by rewrite Hb.
Qed.

Lemma descendant_has_tip stop bs d bd : h !! stop = Some bs -> h !! d = Some bd -> ancestor h stop d -> d <> stop ->
  exists t, t ∈ tip_candidates cs stop (nHeight bs) ∖ prevs_of h (tip_candidates cs stop (nHeight bs)) /\ ancestor h d t.
Proof.
  intros Hs. pose proof (io_tree _ Hcs) as Ht. destruct (heights_bounded h) as [B HB]. remember (Z.to_nat (B - nHeight bd)) as n eqn:En. revert d bd En.
  induction n as [n IH] using lt_wf_ind. intros d bd En Hd Ha Hne. set (T := tip_candidates cs stop (nHeight bs)).
  assert (d ∈ T) as HT.
  { apply tip_candidates_elem. exists bd. split; [done|]. split.
    - destruct (ancestor_height h d bd stop Ht Hd Ha) as (bs' & Hbs & Hh & _). rewrite Hs in Hbs. injection Hbs as <-.
      destruct (decide (nHeight bd <= nHeight bs)); [|lia]. exfalso. apply Hne. symmetry. by apply (ancestor_level h d bd stop bs).
    - destruct (in_chain cs d) eqn:Ed; [|apply orb_true_r]. by rewrite (in_chain_ancestor stop d bd Hd Ha Ed). }
  destruct (decide (d ∈ prevs_of h T)) as [Hin|Hni]; [|exists d; split; [by apply elem_of_difference | apply ancestor_refl]].
  apply prevs_of_elem in Hin as (e & be & He & Hbe & Hpe). destruct (Ht e be Hbe) as [_ H1]. rewrite Hpe in H1. destruct H1 as (bd' & Hbd & Eh & _).
  rewrite Hd in Hbd. injection Hbd as <-. pose proof (HB e be Hbe) as Hbound. assert (ancestor h d e) as Hde by (by apply (ancestor_step h e be)).
  destruct (IH (Z.to_nat (B - nHeight be)) ltac:(lia) e be eq_refl Hbe) as (t & Htt & Hta); [by apply (ancestor_trans h stop d e) | |].
  { intros ->. apply (above_self h stop bs d Ht Hs). by split_and!. }
  exists t. split; [done|]. by apply (ancestor_trans h d e t).
Qed.

(** Exactly the proper descendants of the block fail. *)

Lemma InvalidateChain_spec p b : h !! p = Some b -> isInvalid (nStatus b) = true ->
  exists M, InvalidateChain p cs = Some (marked M cs) /\ forall q, q ∈ M <-> is_Some (h !! q) /\ ancestor h p q /\ q <> p.
Proof.
  intros Hp Hi. pose proof (io_tree _ Hcs) as Ht. unfold InvalidateChain. rewrite Hp. cbn [mbind option_bind]. rewrite Hi. cbn [negb].
  set (T := tip_candidates cs p (nHeight b)). destruct (fail_tips_spec p b (elements (T ∖ prevs_of h T)) Hp ∅) as (M & E & HM).
  { apply list.Forall_forall. intros t [Hin _]%elem_of_elements%elem_of_difference. apply tip_candidates_elem in Hin as (bt & Hbt & Hh & _). by exists bt. }
  rewrite marked_empty in E. exists M. split; [done|]. intros q. rewrite HM. split.
  - intros [[]%not_elem_of_empty|(t & Hin & Hq & Ha & Hn)]. apply elem_of_elements, elem_of_difference in Hin as [Hin _].
    apply tip_candidates_elem in Hin as (bt & Hbt & _). destruct (ancestor_height h t bt q Ht Hbt Hq) as (bq & Hbq & _). split_and!; [by exists bq | done..].
  - intros ([bq Hbq] & Ha & Hn). right. destruct (descendant_has_tip p b q bq Hp Hbq Ha Hn) as (t & Hin & Hqt).
    exists t. split; [by apply elem_of_elements | by split_and!].
Qed.

End invalidate.

(** ** The best candidate *)

(** Every block on the way to the active chain is valid and has its data. *)

Definition usable (cs : chainstate) (p : ptr) : Prop := forall q b, ancestor (index cs) q p -> in_chain cs q = false -> index cs !! q = Some b ->
  isInvalid (nStatus b) = false /\ hasData (nStatus b) = true.

Definition eligible (b : CBlockIndex) : Prop := IsSoftRejected b = false /\ IsInSoftConsensusFreeze b = false.

Lemma first_candidate_spec h l : Forall (fun p => is_Some (h !! p)) l -> exists r, first_candidate h l = Some r /\
  match r with
  | None => forall p b, p ∈ l -> h !! p = Some b -> ~ eligible b
  | Some p => exists b l1 l2, h !! p = Some b /\ eligible b /\ l = l1 ++ p :: l2 /\ forall q bq, q ∈ l1 -> h !! q = Some bq -> ~ eligible bq
  end.
Proof.
  induction 1 as [|p l [b Hb] _ (r & E & Hr)]; cbn [first_candidate]; [exists None; split; [done|]; intros p b []%elem_of_nil|].
  rewrite Hb. cbn [mbind option_bind]. destruct (IsSoftRejected b || IsInSoftConsensusFreeze b) eqn:Ee.
  - assert (~ eligible b) as Hn by (intros [E1 E2]; by rewrite E1, E2 in Ee). exists r. split; [done|]. destruct r as [q|].
    + destruct Hr as (bq & l1 & l2 & Hq & Heq & -> & Hl). exists bq, (p :: l1), l2. split_and!; [done..|].
      intros r br [->|Hin]%elem_of_cons Hbr; [congruence | by apply (Hl r)].
    + intros q bq [->|Hin]%elem_of_cons Hbq; [congruence | by apply (Hr q)].
  - exists (Some p). split; [done|]. apply orb_false_iff in Ee. exists b, [], l. split_and!; [done..|]. intros q bq []%elem_of_nil.
Qed.

(** From the end of the set: the greatest candidate of those that may become the tip. *)

Lemma best_candidate cs : index_ok cs -> exists r, first_candidate (index cs) (rev (setBlockIndexCandidates cs)) = Some r /\
  match r with
  | None => forall p b, p ∈ setBlockIndexCandidates cs -> index cs !! p = Some b -> ~ eligible b
  | Some p => p ∈ setBlockIndexCandidates cs /\ (exists b, index cs !! p = Some b /\ eligible b) /\
              forall q bq, q ∈ setBlockIndexCandidates cs -> index cs !! q = Some bq -> eligible bq -> q = p \/ less cs q p = true
  end.
Proof.
  intros Hcs. pose proof (candidates_blocks cs Hcs) as Hb. pose proof (io_ordered _ Hcs) as Ho. set (l := setBlockIndexCandidates cs) in *.
  assert (forall p, p ∈ rev l <-> p ∈ l) as Hrev by (intros p; rewrite !list_elem_of_In; symmetry; apply in_rev).
  destruct (first_candidate_spec (index cs) (rev l)) as (r & E & Hr).
  { apply list.Forall_forall. intros p Hp%Hrev. by apply (proj1 (list.Forall_forall _ _) Hb). }
  exists r. split; [done|]. destruct r as [p|]; [|by intros p b Hp%Hrev; apply Hr].
  destruct Hr as (b & l1 & l2 & Hp & He & El & Hl1). assert (l = rev l2 ++ p :: rev l1) as El'.
  { rewrite <- (rev_involutive l), El, rev_app_distr. cbn. by rewrite <- app_assoc. }
  split_and!; [apply Hrev; rewrite El; apply elem_of_app; right; by left | by exists b|].
  intros q bq Hq Hbq Heq. rewrite El' in Hq, Ho. apply elem_of_app in Hq as [Hq|[->|Hq]%elem_of_cons]; [right | by left |].
  - apply (StronglySorted_app_1_elem_of _ _ _ q p Ho Hq). by left.
  - exfalso. apply (Hl1 q bq); [|done..]. rewrite list_elem_of_In in *. by apply in_rev.
Qed.

(** The walk from a candidate to the active chain. *)

Lemma bad_ancestor_spec cs : index_ok cs -> forall fuel p b, index cs !! p = Some b -> nChainTx b <> 0 -> nHeight b < Z.of_nat fuel ->
  exists r, bad_ancestor cs fuel (Some p) = Some r /\
    match r with
    | None => usable cs p
    | Some (t, inv) => exists bt, index cs !! t = Some bt /\ ancestor (index cs) t p /\ in_chain cs t = false /\ inv = isInvalid (nStatus bt) /\
                         (inv = true \/ hasData (nStatus bt) = false)
    end.
Proof.
  intros Hcs. pose proof (io_tree _ Hcs) as Ht. induction fuel as [|fuel IH]; intros p b Hp Hn Hf; [pose proof (proj1 (Ht p b Hp)); lia|]. cbn [bad_ancestor].
  destruct (in_chain cs p) eqn:Ec.
  { exists None. split; [done|]. intros q bq Hq Hin Hbq. pose proof (in_chain_ancestor cs Hcs q p b Hp Hq Ec). congruence. }
  rewrite Hp. cbn [mbind option_bind]. rewrite (proj2 (Z.eqb_neq _ _) Hn). cbn [andb].
  destruct (isInvalid (nStatus b) || negb (hasData (nStatus b))) eqn:Eb.
  { exists (Some (p, isInvalid (nStatus b))). split; [done|]. exists b. split_and!; [done | apply ancestor_refl | done | done|].
    apply orb_true_iff in Eb as [Eb|Eb%negb_true_iff]; [by left | by right]. }
  apply orb_false_iff in Eb as [Ei Ed%negb_false_iff]. destruct (Ht p b Hp) as [Hpos H1]. destruct (pprev b) as [q|] eqn:Eq.
  - destruct H1 as (bq & Hq & Eh & _). destruct (IH q bq Hq) as (r & E & Hr); [by apply (io_parents _ Hcs p b q bq) | lia|]. exists r. split; [done|].
    destruct r as [[t inv]|].
    + destruct Hr as (bt & Hbt & Ha & Hrest). exists bt. split_and!; [done | | apply Hrest..]. apply (ancestor_trans _ t q p Ha). by apply (ancestor_step _ p b).
    + intros x bx Hx Hin Hbx. destruct (ancestor_inv _ p b x Ht Hp Hx) as [->|(q' & Eq' & Hx')]; [by simplify_eq|].
      apply (Hr x bx); [by simplify_eq | done | done].
  - exists None. split; [by destruct fuel|]. intros x bx Hx Hin Hbx. destruct (ancestor_inv _ p b x Ht Hp Hx) as [->|(q' & Eq' & Hx')]; [by simplify_eq | congruence].
Qed.

(** Fewer candidates, and other blocks waiting. *)

Definition without (M : gset ptr) (u : list (ptr * ptr)) (cs : chainstate) : chainstate :=
  set_unlinked (set_candidates cs (filter (fun p => p ∉ M) (setBlockIndexCandidates cs))) u.

Lemma without_ok M u cs : index_ok cs -> index_ok (without M u cs).
Proof.
  intros Hcs. destruct (index_ok_status cs (index cs) (fun p => p ∉ M) Hcs ltac:(done)) as [Ht Hw Hc Ho Hl Hp Hi]. by split.
Qed.

Lemma erase_without p M u cs : index_ok cs -> is_Some (index cs !! p) -> erase_candidate p (without M u cs) = without ({[ p ]} ∪ M) u cs.
Proof.
  intros Hcs Hp. rewrite erase_filter by (done || by apply without_ok). unfold without, set_unlinked, set_candidates. cbn. f_equal.
  rewrite list_filter_filter. apply list_filter_iff. intros q. rewrite not_elem_of_union, not_elem_of_singleton. tauto.
Qed.

Lemma unlink_spec cs stop bs : index_ok cs -> index cs !! stop = Some bs -> forall fuel p b M u, index cs !! p = Some b -> ancestor (index cs) stop p ->
  nHeight b - nHeight bs <= Z.of_nat fuel ->
  exists M' u', unlink fuel stop p (without M u cs) = Some (without M' u' cs) /\ forall q, q ∈ M' <-> q ∈ M \/ above (index cs) stop p q.
Proof.
  intros Hcs Hs. pose proof (io_tree _ Hcs) as Ht. induction fuel as [|fuel IH]; intros p b M u Hp Ha Hf; cbn [unlink];
    (destruct (decide (p = stop)) as [->|Hne]; [rewrite bool_decide_true by done; exists M, u; split; [done|]; intros q; pose proof (above_self _ stop bs q Ht Hs); tauto|];
     rewrite bool_decide_false by done).
  { exfalso. apply Hne. symmetry. apply (ancestor_level (index cs) p b stop bs); [done..|lia]. }
  cbn [index without set_unlinked set_candidates]. rewrite Hp. cbn [mbind option_bind].
  destruct (ancestor_inv _ p b stop Ht Hp Ha) as [->|(r & Er & Hr)]; [done|]. rewrite Er. cbn [mbind option_bind].
  destruct (above_step _ stop bs p b r Ht Hs Hp Ha Hne Er) as [_ Hab]. destruct (Ht p b Hp) as [_ H1]. rewrite Er in H1. destruct H1 as (br & Hbr & Eh & _).
  change (set_unlinked (without M u cs) (mapBlocksUnlinked (without M u cs) ++ [(r, p)])) with (without M (u ++ [(r, p)]) cs).
  rewrite erase_without by (done || by exists b). destruct (IH r br ({[p]} ∪ M) (u ++ [(r, p)]) Hbr Hr ltac:(lia)) as (M' & u' & E & HM). exists M', u'. split; [done|].
  intros q. rewrite HM, Hab, elem_of_union, elem_of_singleton. tauto.
Qed.

(** The blocks of a node that does not prune have their data, once they are linked. *)

Definition data_ok (cs : chainstate) : Prop := forall p b, index cs !! p = Some b -> nChainTx b <> 0 -> hasData (nStatus b) = true.

Lemma linked_ancestor cs p b q bq : index_ok cs -> index cs !! p = Some b -> nChainTx b <> 0 -> ancestor (index cs) q p -> index cs !! q = Some bq -> nChainTx bq <> 0.
Proof.
  intros Hcs. pose proof (io_tree _ Hcs) as Ht. remember (Z.to_nat (nHeight b)) as n eqn:En. revert p b En. induction n as [n IH] using lt_wf_ind.
  intros p b En Hp Hn Ha Hq. destruct (ancestor_inv _ p b q Ht Hp Ha) as [->|(r & Er & Hr)]; [by simplify_eq|].
  destruct (Ht p b Hp) as [Hpos H1]. rewrite Er in H1. destruct H1 as (br & Hbr & Eh & _). pose proof (proj1 (Ht r br Hbr)).
  apply (IH (Z.to_nat (nHeight br)) ltac:(lia) r br eq_refl Hbr); [by apply (io_parents _ Hcs p b r br) | done..].
Qed.

(** The bits of the status that a flag leaves alone. *)

Lemma with_flag_mask mask flag status b : Z.land flag mask = 0 -> Z.land (u32 (Z.lnot flag)) mask = mask -> Z.land (with_flag flag status b) mask = Z.land status mask.
Proof. intros E E'. unfold with_flag. rewrite Z.land_lor_distr_l, <- Z.land_assoc, E'. destruct b; [by rewrite E, Z.lor_0_r | by rewrite Z.land_0_l, Z.lor_0_r]. Qed.

(** What the search for the best candidate may do on its way. *)

Record trimmed (cs cs' : chainstate) : Prop := {
  tr_ok : index_ok cs';
  tr_chain : chainActive cs' = chainActive cs;
  tr_none p : index cs !! p = None -> index cs' !! p = None;
  tr_status p b : index cs !! p = Some b -> index cs' !! p = Some b \/
    index cs' !! p = Some (ModifyStatusWithFailedParent b) /\
    exists a ba, ancestor (index cs) a p /\ a <> p /\ in_chain cs a = false /\ index cs !! a = Some ba /\ isInvalid (nStatus ba) = true;
  tr_fewer p : p ∈ setBlockIndexCandidates cs' -> p ∈ setBlockIndexCandidates cs;
  tr_dropped p : p ∈ setBlockIndexCandidates cs -> p ∉ setBlockIndexCandidates cs' -> ~ usable cs p;
  tr_unlinked : data_ok cs -> mapBlocksUnlinked cs' = mapBlocksUnlinked cs }.

Lemma trimmed_data cs cs' : trimmed cs cs' -> data_ok cs -> data_ok cs'.
Proof.
  intros Htr Hd p b Hp Hn. destruct (index cs !! p) as [c|] eqn:Hc; [|by rewrite (tr_none _ _ Htr p Hc) in Hp].
  destruct (tr_status _ _ Htr p c Hc) as [Hp'|[Hp' _]]; rewrite Hp in Hp'; injection Hp' as ->; [by apply (Hd p)|].
  pose proof (Hd p c Hc Hn) as Hd'. unfold hasData, has_flag in *. cbn [nStatus ModifyStatusWithFailedParent with_status]. unfold withFailedParent. by rewrite with_flag_mask.
Qed.

Lemma trimmed_same cs cs' : trimmed cs cs' -> same_but_status (index cs) (index cs').
Proof.
  intros Htr. apply map_eq. intros p. rewrite !lookup_fmap. destruct (index cs !! p) as [b|] eqn:Hp; [|by rewrite (tr_none _ _ Htr p Hp)].
  by destruct (tr_status _ _ Htr p b Hp) as [->|[-> _]].
Qed.

Lemma trimmed_in_chain cs cs' p : trimmed cs cs' -> in_chain cs' p = in_chain cs p.
Proof. intros Htr. unfold in_chain. rewrite (tr_chain _ _ Htr). by rewrite (same_but_status_tree _ _ (trimmed_same _ _ Htr)). Qed.

Lemma with_flag_has flag status : Z.land flag (u32 (Z.lnot flag)) = 0 -> flag <> 0 -> Z.land (with_flag flag status true) flag = flag.
Proof. intros E Hn. unfold with_flag. rewrite Z.land_lor_distr_l, <- Z.land_assoc, (Z.land_comm _ flag), E, Z.land_0_r, Z.lor_0_l. apply Z.land_diag. Qed.

Lemma failed_parent_invalid b : isInvalid (nStatus (ModifyStatusWithFailedParent b)) = true.
Proof.
  unfold isInvalid, has_flag. apply negb_true_iff, Z.eqb_neq. cbn [ModifyStatusWithFailedParent with_status nStatus]. unfold withFailedParent.
  intros E. assert (Z.land (Z.land (with_flag FAILED_PARENT_FLAG (nStatus b) true) INVALID_MASK) FAILED_PARENT_FLAG = 0) as E' by (by rewrite E).
  rewrite <- Z.land_assoc in E'. change (Z.land INVALID_MASK FAILED_PARENT_FLAG) with FAILED_PARENT_FLAG in E'. by rewrite with_flag_has in E'.
Qed.

Lemma trimmed_usable cs cs' p : trimmed cs cs' -> usable cs' p <-> usable cs p.
Proof.
  intros Htr. pose proof (same_but_status_tree _ _ (trimmed_same _ _ Htr)) as E. split; intros Hu q b Hq Hin Hb.
  - destruct (tr_status _ _ Htr q b Hb) as [Hb'|[Hb' _]].
    + apply (Hu q); [by rewrite <- E | by rewrite (trimmed_in_chain cs) | done].
    + destruct (Hu q _ ltac:(by rewrite <- E) ltac:(by rewrite (trimmed_in_chain cs)) Hb') as [Hi _]. by rewrite failed_parent_invalid in Hi.
  - rewrite <- E in Hq. rewrite (trimmed_in_chain cs) in Hin by done. destruct (index cs !! q) as [c|] eqn:Hc; [|by rewrite (tr_none _ _ Htr q Hc) in Hb].
    destruct (tr_status _ _ Htr q c Hc) as [Hb'|[_ (a & ba & Ha & _ & Hac & Hba & Hai)]]; [rewrite Hb in Hb'; injection Hb' as <-; by apply (Hu q)|].
    destruct (Hu a ba ltac:(by apply (ancestor_trans _ a q p)) Hac Hba) as [Hi _]. congruence.
Qed.

Lemma trimmed_refl cs : index_ok cs -> trimmed cs cs.
Proof. intros Hcs. split; [done | done | done | by left | done | done | done]. Qed.

Lemma trimmed_trans cs1 cs2 cs3 : trimmed cs1 cs2 -> trimmed cs2 cs3 -> trimmed cs1 cs3.
Proof.
  intros H1 H2. pose proof (same_but_status_tree _ _ (trimmed_same _ _ H1)) as E. split.
  - apply H2.
  - rewrite (tr_chain _ _ H2). apply H1.
  - intros p Hp. by apply (tr_none _ _ H2), (tr_none _ _ H1).
  - intros p b Hp. destruct (tr_status _ _ H1 p b Hp) as [Hp2|[Hp2 Ha]].
    + destruct (tr_status _ _ H2 p b Hp2) as [Hp3|[Hp3 (a & ba & Ha & Hne & Hac & Hba & Hai)]]; [by left|]. right. split; [done|].
      rewrite <- E in Ha. rewrite (trimmed_in_chain cs1) in Hac by done. destruct (index cs1 !! a) as [c|] eqn:Hc; [|by rewrite (tr_none _ _ H1 a Hc) in Hba].
      destruct (tr_status _ _ H1 a c Hc) as [Hb'|[_ (a' & ba' & Ha' & Hne' & Hrest)]]; [rewrite Hba in Hb'; injection Hb' as <-; by exists a, ba|].
      exists a', ba'. split; [by apply (ancestor_trans _ a' a p)|]. split; [|done]. intros ->. apply Hne. apply (ancestor_antisym (index cs1) p b); [|done..].
      rewrite E. apply H1.
    + right. split; [|done]. destruct (tr_status _ _ H2 p _ Hp2) as [Hp3|[Hp3 _]]; [done|]. by rewrite failed_parent_twice in Hp3.
  - intros p Hp. by apply (tr_fewer _ _ H1), (tr_fewer _ _ H2).
  - intros p Hp Hn. destruct (decide (p ∈ setBlockIndexCandidates cs2)) as [Hin|Hni]; [|by apply (tr_dropped _ _ H1)].
    rewrite <- (trimmed_usable cs1 cs2) by done. by apply (tr_dropped _ _ H2).
  - intros Hd. rewrite (tr_unlinked _ _ H2) by (by apply (trimmed_data cs1)). by apply (tr_unlinked _ _ H1).
Qed.

(** One round: a candidate above a bad block goes, with everything above that block. *)

Lemma note_invalid_spec p cs : index_ok cs -> is_Some (index cs !! p) -> exists q, note_invalid p cs = Some (set_best_invalid cs q) /\ index_ok (set_best_invalid cs q).
Proof.
  intros Hcs [b Hp]. assert (forall q, (forall x, q = Some x -> is_Some (index cs !! x)) -> index_ok (set_best_invalid cs q)) as Hset.
  { intros q Hq. destruct Hcs as [Ht Hw Hc Ho Hl Hpa Hi]. by split. }
  assert (index_ok (set_best_invalid cs (Some p))) as Hok by (apply Hset; intros x [= <-]; by exists b).
  unfold note_invalid. rewrite Hp. cbn [mbind option_bind]. destruct (pindexBestInvalid cs) as [q|] eqn:Eq; [|by exists (Some p)].
  destruct (io_invalid _ Hcs q Eq) as [bq ->]. cbn [mbind option_bind]. destruct (0 <? _); [by exists (Some p)|]. exists (Some q).
  split; [|apply Hset; intros x [= <-]; by apply (io_invalid _ Hcs)]. f_equal. destruct cs. cbn in *. unfold set_best_invalid. cbn. congruence.
Qed.

Lemma unusable_above cs t bt q : index_ok cs -> index cs !! t = Some bt -> in_chain cs t = false -> isInvalid (nStatus bt) = true \/ hasData (nStatus bt) = false ->
  ancestor (index cs) t q -> ~ usable cs q.
Proof. intros Hcs Ht Hc Hbad Ha Hu. destruct (Hu t bt Ha Hc Ht) as [H1 H2]. destruct Hbad; congruence. Qed.

Lemma round_invalid cs p b t bt : index_ok cs -> index cs !! p = Some b -> index cs !! t = Some bt -> ancestor (index cs) t p -> in_chain cs t = false ->
  isInvalid (nStatus bt) = true ->
  exists cs1, (cs ← note_invalid p cs; InvalidateChain t cs) = Some cs1 /\ trimmed cs (erase_candidate t cs1) /\ p ∉ setBlockIndexCandidates (erase_candidate t cs1).
Proof.
  intros Hcs Hp Ht Ha Hc Hi. destruct (note_invalid_spec p cs Hcs ltac:(by exists b)) as (q & -> & Hcs1). cbn [mbind option_bind]. set (cs1 := set_best_invalid cs q) in *.
  destruct (InvalidateChain_spec cs1 Hcs1 t bt Ht Hi) as (M & -> & HM). exists (marked M cs1). split; [done|].
  assert (is_Some (index (marked M cs1) !! t)) as Ht' by (rewrite marked_lookup; cbn; rewrite Ht; by eexists). pose proof (marked_ok M cs1 Hcs1) as Hok.
  rewrite erase_filter by done. cbn [setBlockIndexCandidates set_candidates].
  assert (forall x, x ∈ filter (fun q => q <> t) (setBlockIndexCandidates (marked M cs1)) <-> x ∈ setBlockIndexCandidates cs /\ (x ∉ M) /\ x <> t) as Hel.
  { intros x. cbn. rewrite !list_elem_of_filter. tauto. }
  split.
  - pose proof (index_ok_status (marked M cs1) (index (marked M cs1)) (fun q => q <> t) Hok ltac:(done)) as Hok'. split; [exact Hok' | done | | | | | done].
    + intros x Hx. cbn [index set_candidates]. rewrite marked_lookup. cbn. by rewrite Hx.
    + intros x bx Hx. cbn [index set_candidates]. rewrite marked_lookup. cbn. rewrite Hx. cbn. unfold fail_if. destruct (decide (x ∈ M)) as [Hin|]; [|by left]. right.
      split; [done|]. apply HM in Hin as (_ & Hax & Hne). exists t, bt. split_and!; [done | by intros -> | done..].
    + intros x Hx. by apply Hel in Hx as [].
    + intros x Hx Hn. apply (unusable_above cs t bt); [done..| by left|]. destruct (decide (x = t)) as [->|Hne]; [apply ancestor_refl|].
      destruct (decide (x ∈ M)) as [Hin|Hni]; [by apply HM in Hin as (_ & ? & _)|]. exfalso. apply Hn. cbn [setBlockIndexCandidates set_candidates]. by apply Hel.
  - intros Hin. apply Hel in Hin as (_ & HnM & Hne). apply HnM, HM. split_and!; [by exists b | done | done].
Qed.

Lemma round_missing cs p b t bt : index_ok cs -> index cs !! p = Some b -> index cs !! t = Some bt -> ancestor (index cs) t p -> in_chain cs t = false ->
  hasData (nStatus bt) = false -> nChainTx b <> 0 ->
  exists cs1, unlink (Z.to_nat (nHeight b)) t p cs = Some cs1 /\ trimmed cs (erase_candidate t cs1) /\ p ∉ setBlockIndexCandidates (erase_candidate t cs1).
Proof.
  intros Hcs Hp Ht Ha Hc Hd Hn. assert (without ∅ (mapBlocksUnlinked cs) cs = cs) as E0.
  { unfold without, set_unlinked, set_candidates. cbn. rewrite filter_all by (intros x _; apply not_elem_of_empty). by destruct cs. }
  pose proof (proj1 (io_tree _ Hcs p b Hp)). pose proof (proj1 (io_tree _ Hcs t bt Ht)).
  destruct (unlink_spec cs t bt Hcs Ht (Z.to_nat (nHeight b)) p b ∅ (mapBlocksUnlinked cs) Hp Ha ltac:(lia)) as (M & u & E & HM). rewrite E0 in E. rewrite E.
  exists (without M u cs). split; [done|]. rewrite erase_without by (done || by exists bt). set (M' := {[t]} ∪ M).
  assert (forall x, x ∈ setBlockIndexCandidates (without M' u cs) <-> x ∈ setBlockIndexCandidates cs /\ x ∉ M') as Hel by (intros x; cbn; rewrite list_elem_of_filter; tauto).
  assert (forall x, x ∈ M' -> ancestor (index cs) t x) as Hanc.
  { intros x. unfold M'. rewrite elem_of_union, elem_of_singleton, HM. intros [->|[[]%not_elem_of_empty|(_ & ? & _)]]; [apply ancestor_refl | done]. }
  split.
  - split; [by apply without_ok | done | done | by left | by intros x [? _]%Hel | |
      intros Hdata; rewrite (Hdata t bt Ht (linked_ancestor cs p b t bt Hcs Hp Hn Ha Ht)) in Hd; done]. intros x Hx Hnx. apply (unusable_above cs t bt); [done..| by right|].
    apply Hanc. destruct (decide (x ∈ M')); [done|]. exfalso. apply Hnx. by apply Hel.
  - intros [_ Hnx]%Hel. apply Hnx. unfold M'. rewrite elem_of_union, elem_of_singleton, HM. destruct (decide (p = t)) as [->|Hne]; [by left|]. right. right. by split_and!; [apply ancestor_refl|..].
Qed.

Lemma trimmed_block cs cs' p b : trimmed cs cs' -> index cs !! p = Some b -> exists s, index cs' !! p = Some (with_status b s).
Proof. intros Htr. by apply same_but_status_lookup, trimmed_same. Qed.

Lemma find_loop_spec cs : index_ok cs -> forall fuel cs1, trimmed cs cs1 -> (length (setBlockIndexCandidates cs1) <= fuel)%nat ->
  exists r cs', find_loop fuel cs1 = Some (r, cs') /\ trimmed cs cs' /\
    match r with
    | None => forall p b, p ∈ setBlockIndexCandidates cs' -> index cs' !! p = Some b -> ~ eligible b
    | Some p => p ∈ setBlockIndexCandidates cs' /\ usable cs' p /\ (exists b, index cs' !! p = Some b /\ eligible b) /\
                forall q bq, q ∈ setBlockIndexCandidates cs' -> index cs' !! q = Some bq -> eligible bq -> q = p \/ less cs' q p = true
    end.
Proof.
  intros Hcs. induction fuel as [|fuel IH]; intros cs1 Htr Hf; pose proof (tr_ok _ _ Htr) as Hcs1;
    destruct (best_candidate cs1 Hcs1) as (r & E & Hr); cbn [find_loop]; rewrite E; cbn [mbind option_bind];
    (destruct r as [p|]; [|by exists None, cs1]); destruct Hr as (Hin & (b & Hb & He) & Hmax).
  { destruct (setBlockIndexCandidates cs1); [by apply elem_of_nil in Hin | cbn in Hf; lia]. }
  rewrite Hb. cbn [mbind option_bind]. destruct (io_linked _ Hcs1 p Hin) as (b' & Hb' & Hn). rewrite Hb in Hb'. injection Hb' as <-.
  pose proof (proj1 (io_tree _ Hcs1 p b Hb)). destruct (bad_ancestor_spec cs1 Hcs1 (S (Z.to_nat (nHeight b))) p b Hb Hn ltac:(lia)) as (bad & -> & Hbad). cbn [mbind option_bind].
  destruct bad as [[t inv]|]; [|exists (Some p), cs1; split_and!; [done | done | done | done | by exists b | done]].
  destruct Hbad as (bt & Hbt & Ha & Hc & Hinv & Hor).
  assert (exists cs2, (if inv then cs ← note_invalid p cs1; InvalidateChain t cs else unlink (Z.to_nat (nHeight b)) t p cs1) = Some cs2 /\
    trimmed cs1 (erase_candidate t cs2) /\ p ∉ setBlockIndexCandidates (erase_candidate t cs2)) as (cs2 & -> & Htr2 & Hout).
  { destruct inv; [by apply (round_invalid cs1 p b t bt) | apply (round_missing cs1 p b t bt); try done; by destruct Hor]. }
  cbn [mbind option_bind]. apply IH; [by eapply trimmed_trans|].
  assert (NoDup (setBlockIndexCandidates (erase_candidate t cs2))) as Hnd by (apply (ordered_NoDup (index (erase_candidate t cs2))); apply Htr2).
  assert (p :: setBlockIndexCandidates (erase_candidate t cs2) ⊆+ setBlockIndexCandidates cs1) as Hsub.
  { apply NoDup_submseteq; [by constructor|]. intros x [->|Hx]%elem_of_cons; [done | by apply (tr_fewer _ _ Htr2)]. }
  apply submseteq_length in Hsub. cbn [length] in Hsub. lia.
Qed.
