(* ===== verification/ChainLinks.v ===== *)
(** * Blocks whose ancestors have all arrived

    The other half of the bookkeeping of [src/validation.cpp]: [ReceivedBlockTransactions] stores the number of
    transactions of a block and links every block whose ancestors now all have theirs, which makes it a candidate for the
    best chain.  The invariant of the waiting blocks ([mapBlocksUnlinked]) and of [nChainTx], that the blocks linked by one
    call are exactly those that can be, and a node's run over the index: headers, blocks, invalid blocks, the choice of the
    best chain. *)

From stdpp Require Import gmap sorting.
From S2P Require Import Prelude Common Uint256 BlockIndex ChainIndex.
Import arith_uint256.

(** ** Blocks linked to their ancestors *)

(** The number of transactions of a chain. *)

Fixpoint chain_txs (h : heap) (n : nat) (p : ptr) : Z :=
  match n, h !! p with
  | S m, Some b => nTx b + match pprev b with Some q => chain_txs h m q | None => 0 end
  | _, _ => 0
  end.

(** [nChainTx] is set only for blocks all of whose ancestors have their transactions, and counts them; the other blocks with
    transactions wait for their predecessor, but for those of [queue], which can be linked now, and for those that arrived
    after their predecessor had failed. *)

Definition parent_failed (h : heap) (b : CBlockIndex) : Prop := exists q bq, pprev b = Some q /\ h !! q = Some bq /\ isInvalid (nStatus bq) = true.

Record waiting (queue : list ptr) (cs : chainstate) : Prop := {
  lk_tree p b : index cs !! p = Some b -> validity_code TREE <= getValidity (nStatus b);
  lk_tx p b : index cs !! p = Some b -> 0 <= nTx b;
  lk_data p b : index cs !! p = Some b -> nTx b <> 0 -> hasData (nStatus b) = true;
  lk_sum p b : index cs !! p = Some b -> nChainTx b <> 0 -> nTx b <> 0 /\ nChainTx b = chain_txs (index cs) (S (Z.to_nat (nHeight b))) p;
  lk_nodup : NoDup (queue ++ map snd (mapBlocksUnlinked cs));
  lk_queue p : p ∈ queue -> exists b, index cs !! p = Some b /\ nTx b <> 0 /\ nChainTx b = 0 /\
    forall q bq, pprev b = Some q -> index cs !! q = Some bq -> nChainTx bq <> 0;
  lk_wait q p : (q, p) ∈ mapBlocksUnlinked cs ->
    exists b bq, index cs !! p = Some b /\ pprev b = Some q /\ index cs !! q = Some bq /\ nTx b <> 0 /\ nChainTx bq = 0;
  lk_all p b : index cs !! p = Some b -> nTx b <> 0 -> nChainTx b = 0 ->
    p ∈ queue \/ (exists q, pprev b = Some q /\ (q, p) ∈ mapBlocksUnlinked cs) \/ parent_failed (index cs) b;
  lk_tip t : tip cs = Some t -> exists b, index cs !! t = Some b /\ nChainTx b <> 0 }.

Definition links_ok : chainstate -> Prop := waiting [].

Lemma linked_complete queue cs p b : index_ok cs -> waiting queue cs -> index cs !! p = Some b -> nChainTx b <> 0 ->
  forall q bq, ancestor (index cs) q p -> index cs !! q = Some bq -> nTx bq <> 0.
Proof. intros Hcs Hl Hp Hn q bq Hq Hbq. apply (lk_sum _ _ Hl q bq Hbq), (linked_ancestor cs p b q bq Hcs Hp Hn Hq Hbq). Qed.

Lemma complete_linked cs p b : index_ok cs -> links_ok cs -> index cs !! p = Some b ->
  (forall q bq, ancestor (index cs) q p -> index cs !! q = Some bq -> nTx bq <> 0 /\ (q <> p -> isInvalid (nStatus bq) = false)) -> nChainTx b <> 0.
Proof.
  intros Hcs Hl. pose proof (io_tree _ Hcs) as Ht. remember (Z.to_nat (nHeight b)) as n eqn:En. revert p b En. induction n as [n IH] using lt_wf_ind. intros p b En Hp Hall Hz.
  destruct (Ht p b Hp) as [H0 H1]. assert (forall q, pprev b = Some q -> ancestor (index cs) q p /\ q <> p) as Hprev.
  { intros q Eq. split; [by apply (ancestor_step _ p b)|]. intros ->. rewrite Eq in H1. destruct H1 as (bq & Hq & Eh & _). rewrite Hp in Hq. injection Hq as <-. lia. }
  destruct (lk_all _ _ Hl p b Hp) as [Hq|[(q & Eq & Hw)|(q & bq & Eq & Hbq & Hi)]]; [apply (Hall p b); [apply ancestor_refl | done] | done | by apply elem_of_nil in Hq | |].
  - destruct (lk_wait _ _ Hl q p Hw) as (b' & bq & _ & _ & Hq & _ & Hzq). rewrite Eq in H1. destruct H1 as (bq' & Hq' & Eh & _). rewrite Hq in Hq'. injection Hq' as <-.
    pose proof (proj1 (Ht q bq Hq)). apply (IH (Z.to_nat (nHeight bq)) ltac:(lia) q bq eq_refl Hq); [|done]. intros r br Hr Hbr.
    destruct (Hprev q Eq) as [Hqp Hne]. destruct (Hall r br) as [Hr1 Hr2]; [by apply (ancestor_trans _ r q p) | done|]. split; [done|]. intros Hrq. apply Hr2. intros ->.
    apply Hne. by apply (ancestor_antisym (index cs) p b).
  - destruct (Hprev q Eq) as [Hqp Hne]. destruct (Hall q bq Hqp Hbq) as [_ Hv]. by rewrite Hv in Hi.
Qed.

(** Changing an entry that is no candidate. *)

Lemma comparator_alter h f p q r : q <> p -> r <> p -> CBlockIndexWorkComparator (alter f p h) q r = CBlockIndexWorkComparator h q r.
Proof. intros Hq Hr. unfold CBlockIndexWorkComparator. by rewrite !lookup_alter_ne by congruence. Qed.

Lemma ordered_alter h f p s : p ∉ s -> StronglySorted (fun p q => CBlockIndexWorkComparator h p q = true) s ->
  StronglySorted (fun q r => CBlockIndexWorkComparator (alter f p h) q r = true) s.
Proof.
  intros Hn. induction 1 as [|q s Hs IH Hf]; constructor.
  - apply IH. intros Hin. apply Hn. by right.
  - apply list.Forall_forall. intros r Hr. rewrite comparator_alter; [by apply (proj1 (list.Forall_forall _ _) Hf) | |]; intros ->; apply Hn; [by left | by right].
Qed.

Lemma index_ok_modify cs p b f : index_ok cs -> (p ∉ setBlockIndexCandidates cs) -> index cs !! p = Some b -> (forall b, place (f b) = place b) ->
  (nChainTx (f b) <> 0 -> forall q bq, pprev b = Some q -> index cs !! q = Some bq -> nChainTx bq <> 0) -> (nChainTx b <> 0 -> nChainTx (f b) <> 0) ->
  index_ok (modify f p cs).
Proof.
  intros [Ht Hw Hc Ho Hl Hpa Hi] Hn Hp Hf Hup Hdown. pose proof (same_tree_alter (index cs) p f Hf) as Et. split; cbn.
  - by rewrite Et.
  - by rewrite Et.
  - by rewrite Et.
  - by apply ordered_alter.
  - intros q Hq. destruct (Hl q Hq) as (bq & Hbq & Hz). exists bq. rewrite lookup_alter_ne by (intros ->; done). done.
  - intros q c r cr Hq Hz Er Hr. assert (forall x cx, alter f p (index cs) !! x = Some cx -> exists cx', index cs !! x = Some cx' /\ pprev cx = pprev cx' /\ (x <> p -> cx = cx')) as Hget.
    { intros x cx. destruct (decide (p = x)) as [<-|Hne]; [|rewrite lookup_alter_ne by done; intros E; by exists cx].
      rewrite lookup_alter_eq, Hp. cbn. intros [= <-]. exists b. split; [done|]. split; [|done]. by injection (Hf b). }
    destruct (Hget q c Hq) as (c' & Hc' & Ec & Hcn). destruct (Hget r cr Hr) as (cr' & Hcr' & _ & Hrn). rewrite Ec in Er.
    assert (nChainTx cr' <> 0 -> nChainTx cr <> 0) as Hgoal.
    { intros Hz'. destruct (decide (r = p)) as [->|Hne]; [|by rewrite Hrn]. rewrite lookup_alter_eq, Hp in Hr. injection Hr as <-. rewrite Hp in Hcr'. injection Hcr' as <-. by apply Hdown. }
    apply Hgoal. destruct (decide (q = p)) as [->|Hne].
    + rewrite lookup_alter_eq, Hp in Hq. injection Hq as <-. rewrite Hp in Hc'. injection Hc' as <-. by apply (Hup Hz r).
    + rewrite Hcn in Hz by done. by apply (Hpa q c' r).
  - intros q Eq. destruct (decide (p = q)) as [<-|Hne]; [rewrite lookup_alter_eq, Hp; by eexists | rewrite lookup_alter_ne by done; by apply Hi].
Qed.

Lemma index_ok_insert cs p b : index_ok cs -> index cs !! p = Some b -> nChainTx b <> 0 ->
  index_ok (insert_candidate p cs) /\ (forall q, q ∈ setBlockIndexCandidates (insert_candidate p cs) <-> q ∈ setBlockIndexCandidates cs \/ q = p).
Proof.
  intros Hcs Hp Hz. pose proof (candidates_blocks cs Hcs) as Hb. assert (is_Some (index cs !! p)) as Hsome by (by exists b). destruct Hcs as [Ht Hw Hc Ho Hl Hpa Hi]. split.
  - split; try done; cbn; [by apply set_insert_ordered|]. intros q Hq. apply set_insert_elem in Hq as [->|Hq]; [by exists b | by apply Hl | done..].
  - intros q. cbn. unfold less. rewrite set_insert_elem by done. tauto.
Qed.

Lemma index_ok_offer cs p b : index_ok cs -> index cs !! p = Some b -> nChainTx b <> 0 ->
  index_ok (offer p cs) /\ (forall q, q ∈ setBlockIndexCandidates (offer p cs) <-> q ∈ setBlockIndexCandidates cs \/ q = p /\ forall t, tip cs = Some t -> less cs p t = false).
Proof.
  intros Hcs Hp Hz. destruct (index_ok_insert cs p b Hcs Hp Hz) as [Hins Hel].
  unfold offer. destruct (tip cs) as [t|]; [destruct (less cs p t) eqn:E|].
  - split; [done|]. intros q. split; [by left|]. intros [? | [-> Ht]]; [done|]. rewrite (Ht t) in E by done. done.
  - split; [done|]. intros q. rewrite Hel. split; [intros [? | ->]; [by left | right; split; [done | by intros t' [= <-]]] | intros [? | [-> _]]; [by left | by right]].
  - split; [done|]. intros q. rewrite Hel. split; [intros [? | ->]; [by left | by right] | intros [? | [-> _]]; [by left | by right]].
Qed.

Lemma offer_fields p cs : index (offer p cs) = index cs /\ mapBlocksUnlinked (offer p cs) = mapBlocksUnlinked cs /\ chainActive (offer p cs) = chainActive cs /\
  nBlockSequenceId (offer p cs) = nBlockSequenceId cs.
Proof. unfold offer. destruct (tip cs); [destruct (less cs p _)|]; done. Qed.

Lemma alter_get {A} (f : A -> A) p (h : gmap ptr A) x c : alter f p h !! x = Some c -> exists c0, h !! x = Some c0 /\ c = if decide (x = p) then f c0 else c0.
Proof.
  destruct (decide (x = p)) as [->|Hne]; [rewrite lookup_alter_eq | rewrite lookup_alter_ne by done; by exists c].
  destruct (h !! p) as [c0|]; [|done]. intros [= <-]. by exists c0.
Qed.

(** The transactions of the chains depend on the links and on [nTx] alone. *)

Definition same_txs (h h' : heap) : Prop := (fun b => (pprev b, nTx b)) <$> h = (fun b => (pprev b, nTx b)) <$> h'.

#[export] Instance chain_txs_proper : Proper (same_txs ==> eq ==> eq ==> eq) chain_txs.
Proof.
  intros h h' E n ? <- p ? <-. revert p. induction n as [|n IH]; intros p; [done|]. cbn [chain_txs].
  assert ((fun b => (pprev b, nTx b)) <$> h !! p = (fun b => (pprev b, nTx b)) <$> h' !! p) as Ep by (rewrite <- !lookup_fmap; by rewrite E).
  destruct (h !! p) as [b|], (h' !! p) as [b'|]; try done. injection Ep as <- <-. destruct (pprev b); [by rewrite IH | done].
Qed.

Lemma same_txs_alter h p f : (forall b, pprev (f b) = pprev b /\ nTx (f b) = nTx b) -> same_txs (alter f p h) h.
Proof.
  intros Hf. apply map_eq. intros q. rewrite !lookup_fmap. destruct (decide (p = q)) as [->|Hne]; [|by rewrite lookup_alter_ne].
  rewrite lookup_alter_eq. destruct (h !! q) as [b|]; [|done]. cbn. by destruct (Hf b) as [-> ->].
Qed.

Lemma chain_txs_nonneg h : (forall p b, h !! p = Some b -> 0 <= nTx b) -> forall n p, 0 <= chain_txs h n p.
Proof.
  intros Hh. induction n as [|n IH]; intros p; [done|]. cbn [chain_txs]. destruct (h !! p) as [b|] eqn:Hp; [|done].
  pose proof (Hh p b Hp). destruct (pprev b) as [q|]; [pose proof (IH q)|]; lia.
Qed.

(** No chain of the index has [2 ^ 32] transactions. *)

Definition txs_bounded (h : heap) : Prop := forall p b, h !! p = Some b -> chain_txs h (S (Z.to_nat (nHeight b))) p < 2 ^ 32.

(** What the transactions before [p] and its own add up to. *)

Lemma link_count cs p queue : index_ok cs -> waiting (p :: queue) cs -> txs_bounded (index cs) -> exists b before, index cs !! p = Some b /\
  match pprev b with None => Some 0 | Some q => nChainTx <$> index cs !! q end = Some before /\
  u32 (before + nTx b) = chain_txs (index cs) (S (Z.to_nat (nHeight b))) p /\ chain_txs (index cs) (S (Z.to_nat (nHeight b))) p <> 0.
Proof.
  intros Hcs Hw Hb. destruct (lk_queue _ _ Hw p) as (b & Hp & Hn & Hz & Hpar); [by left|]. destruct (io_tree _ Hcs p b Hp) as [Hh Hq].
  pose proof (Hb p b Hp) as Hlt. pose proof (lk_tx _ _ Hw p b Hp) as H0. pose proof (chain_txs_nonneg _ (lk_tx _ _ Hw)) as Hnn.
  exists b. destruct (pprev b) as [q|] eqn:Eq.
  - destruct Hq as (bq & Hbq & Eh & _). exists (nChainTx bq). rewrite Hbq. split; [done|]. split; [done|].
    destruct (lk_sum _ _ Hw q bq Hbq (Hpar q bq eq_refl Hbq)) as [_ E]. pose proof (proj1 (io_tree _ Hcs q bq Hbq)).
    replace (Z.to_nat (nHeight b)) with (S (Z.to_nat (nHeight bq))) in * by lia. pose proof (Hnn (S (Z.to_nat (nHeight bq))) q).
    rewrite E. remember (S (Z.to_nat (nHeight bq))) as n. cbn [chain_txs] in *. rewrite Hp, Eq in *. unfold u32. rewrite Z.mod_small; lia.
  - exists 0. split; [done|]. split; [done|]. cbn [chain_txs] in *. rewrite Hp, Eq in *. unfold u32. rewrite Z.mod_small; lia.
Qed.

(** The state [cs'] has more blocks linked than [cs], and each of them is a candidate or worse than the tip. *)

Record grown (cs cs' : chainstate) : Prop := {
  gr_tree : same_tree (index cs) (index cs');
  gr_txs : same_txs (index cs) (index cs');
  gr_chain : chainActive cs' = chainActive cs;
  gr_keep x b : index cs !! x = Some b -> nChainTx b <> 0 -> index cs' !! x = Some b;
  gr_stay x : x ∈ setBlockIndexCandidates cs -> x ∈ setBlockIndexCandidates cs';
  gr_only x b : x ∈ setBlockIndexCandidates cs' -> index cs !! x = Some b -> x ∈ setBlockIndexCandidates cs \/ nChainTx b = 0;
  gr_new x b : index cs' !! x = Some b -> nChainTx b <> 0 -> index cs !! x = Some b \/ x ∈ setBlockIndexCandidates cs' \/
    exists t bt, tip cs' = Some t /\ index cs' !! t = Some bt /\ nChainTx bt <> 0 /\ less cs' x t = true }.

Lemma grown_refl cs : grown cs cs.
Proof. split; try done; intros; by left. Qed.

Lemma comparator_entries h h' p q a b : h !! p = Some a -> h' !! p = Some a -> h !! q = Some b -> h' !! q = Some b ->
  CBlockIndexWorkComparator h p q = CBlockIndexWorkComparator h' p q.
Proof. intros E1 E2 E3 E4. unfold CBlockIndexWorkComparator. by rewrite E1, E2, E3, E4. Qed.

Lemma grown_trans cs1 cs2 cs3 : grown cs1 cs2 -> grown cs2 cs3 -> grown cs1 cs3.
Proof.
  intros G G'. split.
  - transitivity (index cs2); [apply (gr_tree _ _ G) | apply (gr_tree _ _ G')].
  - unfold same_txs. transitivity ((fun b => (pprev b, nTx b)) <$> index cs2); [apply (gr_txs _ _ G) | apply (gr_txs _ _ G')].
  - by rewrite (gr_chain _ _ G'), (gr_chain _ _ G).
  - intros x b Hx Hn. apply (gr_keep _ _ G' x b); [by apply (gr_keep _ _ G) | done].
  - intros x Hx. by apply (gr_stay _ _ G'), (gr_stay _ _ G).
  - intros x b Hx Hb. destruct (decide (nChainTx b = 0)) as [|Hn]; [by right|].
    destruct (gr_only _ _ G' x b Hx (gr_keep _ _ G x b Hb Hn)) as [Hx'|]; [|done]. by apply (gr_only _ _ G x b).
  - intros x b Hx Hn. destruct (gr_new _ _ G' x b Hx Hn) as [Hx2|[|]]; [|by right; left | by right; right].
    destruct (gr_new _ _ G x b Hx2 Hn) as [|[Hin|(t & bt & Et & Ht & Hnt & Hl)]]; [by left | right; left; by apply (gr_stay _ _ G') | right; right].
    exists t, bt. pose proof (gr_keep _ _ G' t bt Ht Hnt) as Ht'. split; [unfold tip; by rewrite (gr_chain _ _ G')|]. split; [done|]. split; [done|].
    unfold less. by rewrite <- (comparator_entries (index cs2) (index cs3) x t b bt).
Qed.

Lemma link_fields p before cs : mapBlocksUnlinked (link_block p before cs) = mapBlocksUnlinked cs /\ chainActive (link_block p before cs) = chainActive cs /\
  nBlockSequenceId (link_block p before cs) = nBlockSequenceId cs + 1.
Proof. unfold link_block. destruct (offer_fields p (set_counters (modify (fun b => SetChainTxAndSequenceId b (u32 (before + nTx b)) (nBlockSequenceId cs)) p cs) (nBlockSequenceId cs + 1) (nBlockReverseSequenceId cs) (nLastPreciousChainwork cs))) as (_ & E1 & E2 & E3). done. Qed.

Section link.

Context (cs : chainstate) (p : ptr) (b : CBlockIndex) (before : Z).
Context (Hcs : index_ok cs) (Hp : index cs !! p = Some b) (Hz : nChainTx b = 0) (Hn : u32 (before + nTx b) <> 0).
Context (Hpar : forall q bq, pprev b = Some q -> index cs !! q = Some bq -> nChainTx bq <> 0).

Let f (b : CBlockIndex) : CBlockIndex := SetChainTxAndSequenceId b (u32 (before + nTx b)) (nBlockSequenceId cs).

Lemma link_not_candidate : p ∉ setBlockIndexCandidates cs.
Proof. intros Hin. destruct (io_linked _ Hcs p Hin) as (b' & Hb' & Hn'). congruence. Qed.

Lemma link_index : index (link_block p before cs) = alter f p (index cs).
Proof. unfold link_block. by rewrite (proj1 (offer_fields _ _)). Qed.

Lemma link_own : index (link_block p before cs) !! p = Some (f b).
Proof. by rewrite link_index, lookup_alter_eq, Hp. Qed.

Let cs1 : chainstate := set_counters (modify f p cs) (nBlockSequenceId cs + 1) (nBlockReverseSequenceId cs) (nLastPreciousChainwork cs).

Lemma link_ready : index_ok cs1.
Proof.
  destruct (index_ok_modify cs p b f Hcs link_not_candidate Hp) as [Ht Hw Hc Ho Hl Hpa Hi]; [done | by intros _ | by rewrite Hz|].
  by split.
Qed.

Lemma link_index_ok : index_ok (link_block p before cs).
Proof. apply (index_ok_offer cs1 p (f b)); [apply link_ready | cbn; by rewrite lookup_alter_eq, Hp | done]. Qed.

Lemma link_candidates q : q ∈ setBlockIndexCandidates (link_block p before cs) <->
  q ∈ setBlockIndexCandidates cs \/ q = p /\ forall t, tip cs = Some t -> less (link_block p before cs) p t = false.
Proof.
  destruct (index_ok_offer cs1 p (f b)) as [_ E]; [apply link_ready | cbn; by rewrite lookup_alter_eq, Hp | done|].
  unfold less. rewrite link_index. apply E.
Qed.

Lemma link_grown : (forall t, tip cs = Some t -> exists bt, index cs !! t = Some bt /\ nChainTx bt <> 0) -> grown cs (link_block p before cs).
Proof.
  intros Htip. split.
  - rewrite link_index. symmetry. by apply same_tree_alter.
  - rewrite link_index. unfold same_txs. symmetry. by apply same_txs_alter.
  - apply link_fields.
  - intros x c Hx Hnx. rewrite link_index, lookup_alter_ne; [done|]. intros ->. congruence.
  - intros x Hx. apply link_candidates. by left.
  - intros x c Hx Hc. apply link_candidates in Hx as [|[-> _]]; [by left | right; congruence].
  - intros x c Hx Hnx. destruct (decide (x = p)) as [->|Hne]; [|left; by rewrite link_index, lookup_alter_ne in Hx by congruence].
    right. destruct (tip cs) as [t|] eqn:Et; [destruct (less (link_block p before cs) p t) eqn:El|].
    + right. destruct (Htip t eq_refl) as (bt & Ht & Hnt). exists t, bt. split; [unfold tip; by rewrite (proj1 (proj2 (link_fields _ _ _)))|].
      rewrite link_index, lookup_alter_ne by (intros ->; congruence). done.
    + left. apply link_candidates. right. split; [done|]. intros t' Et'. by replace t' with t by congruence.
    + left. apply link_candidates. right. split; [done|]. congruence.
Qed.

End link.

Lemma index_ok_unlinked cs u : index_ok cs -> index_ok (set_unlinked cs u).
Proof. by intros [Ht Hw Hc Ho Hl Hpa Hi]; split. Qed.

Lemma grown_unlinked cs cs' u : grown cs cs' -> grown cs (set_unlinked cs' u).
Proof. by intros [Ht Hx Hc Hk Hs Ho Hn]; split. Qed.

Lemma range_permutes {A} (p : ptr) (u : list (ptr * A)) : map snd (filter (fun e => e.1 = p) u) ++ map snd (filter (fun e => e.1 <> p) u) ≡ₚ map snd u.
Proof.
  induction u as [|[q x] u IH]; [done|]. cbn [map]. destruct (decide (q = p)) as [->|Hne].
  - rewrite !filter_cons. rewrite decide_True by done. rewrite decide_False by (intros Hn; by apply Hn). cbn. by rewrite IH.
  - rewrite !filter_cons. rewrite decide_False by done. rewrite decide_True by done. cbn. by rewrite <- Permutation_middle, IH.
Qed.

(** Linking the first block of the queue adds the blocks that waited for it. *)

Lemma link_waiting cs p queue b before : index_ok cs -> waiting (p :: queue) cs -> index cs !! p = Some b ->
  u32 (before + nTx b) = chain_txs (index cs) (S (Z.to_nat (nHeight b))) p -> chain_txs (index cs) (S (Z.to_nat (nHeight b))) p <> 0 ->
  let cs' := link_block p before cs in
  waiting (queue ++ map snd (filter (fun e => e.1 = p) (mapBlocksUnlinked cs'))) (set_unlinked cs' (filter (fun e => e.1 <> p) (mapBlocksUnlinked cs'))).
Proof.
  intros Hcs [Htr Htx Hdata Hs Hnd Hq Hw Hall Htip] Hp E Hne cs'. assert (mapBlocksUnlinked cs' = mapBlocksUnlinked cs) as Eu by apply link_fields. rewrite Eu.
  destruct (Hq p) as (b' & Hp' & Htxp & Hzp & Hpar); [by left|]. rewrite Hp in Hp'. injection Hp' as <-.
  set (f := fun b => SetChainTxAndSequenceId b (u32 (before + nTx b)) (nBlockSequenceId cs)). assert (index cs' = alter f p (index cs)) as Ei by apply link_index.
  assert (same_txs (alter f p (index cs)) (index cs)) as Etx by (by apply same_txs_alter).
  assert (forall q, q ∈ queue -> q <> p) as Hqp by (intros q Hin ->; apply NoDup_cons_1_1 in Hnd; apply Hnd, elem_of_app; by left).
  assert (forall x c, index cs !! x = Some c -> exists c', alter f p (index cs) !! x = Some c' /\ pprev c' = pprev c /\ nTx c' = nTx c /\ (x <> p -> c' = c)) as Hset.
  { intros x c Hx. destruct (decide (x = p)) as [->|Hxp]; [rewrite lookup_alter_eq, Hx; by eexists | rewrite lookup_alter_ne by done; by exists c]. }
  split; cbn [index mapBlocksUnlinked set_unlinked].
  - rewrite Ei. intros x c (c0 & Hx & ->)%alter_get. destruct (decide (x = p)); by apply (Htr x c0).
  - rewrite Ei. intros x c (c0 & Hx & ->)%alter_get. destruct (decide (x = p)); by apply (Htx x c0).
  - rewrite Ei. intros x c (c0 & Hx & ->)%alter_get. destruct (decide (x = p)); by apply (Hdata x c0).
  - rewrite Ei. intros x c (c0 & Hx & ->)%alter_get. rewrite Etx. destruct (decide (x = p)) as [->|Hxp]; [|by apply Hs]. rewrite Hp in Hx. injection Hx as <-. done.
  - rewrite <- app_assoc, range_permutes. by apply NoDup_cons_1_2 in Hnd.
  - rewrite Ei. intros x [Hx|Hx]%elem_of_app.
    + destruct (Hq x) as (c & Hc & Htc & Hzc & Hpc); [by right|]. exists c. rewrite lookup_alter_ne by (symmetry; by apply Hqp). split; [done|]. split; [done|]. split; [done|].
      intros y cy Ey (c0 & Hy & ->)%alter_get. destruct (decide (y = p)) as [->|]; [|by apply (Hpc y)]. rewrite Hp in Hy. injection Hy as <-. cbn. by rewrite E.
    + apply list_elem_of_fmap in Hx as ([q x'] & -> & [Eq Hin]%list_elem_of_filter). cbn in Eq |- *. subst q.
      destruct (Hw p x' Hin) as (c & bq & Hc & Ec & Hbq & Htc & _). rewrite Hp in Hbq. injection Hbq as <-. assert (x' <> p) as Hxp.
      { intros ->. apply NoDup_cons_1_1 in Hnd. apply Hnd, elem_of_app. right. apply list_elem_of_fmap. by exists (p, p). }
      exists c. rewrite lookup_alter_ne by done. split; [done|]. split; [done|]. split.
      * destruct (decide (nChainTx c = 0)) as [|Hnc]; [done|]. exfalso. by apply (io_parents _ Hcs x' c p b Hc Hnc Ec Hp).
      * intros y cy Ey (c0 & Hy & ->)%alter_get. replace y with p in * by congruence. rewrite decide_True by done. rewrite Hp in Hy. injection Hy as <-. cbn. by rewrite E.
  - rewrite Ei. intros q x [Hqp' Hin]%list_elem_of_filter. cbn in Hqp'. destruct (Hw q x Hin) as (c & bq & Hc & Ec & Hbq & Htc & Hzq).
    destruct (Hset x c Hc) as (c' & Hc' & Ep & Et & _). exists c', bq. rewrite (lookup_alter_ne _ _ p q) by done. by rewrite Ep, Et.
  - rewrite Ei. intros x c (c0 & Hx & ->)%alter_get. destruct (decide (x = p)) as [->|Hxp].
    { rewrite Hp in Hx. injection Hx as <-. cbn. intros _. by rewrite E. }
    intros Htc Hzc. destruct (Hall x c0 Hx Htc Hzc) as [[->|Hin]%elem_of_cons|[(q & Eq & Hin)|(q & bq & Eq & Hbq & Hi)]]; [done | left; apply elem_of_app; by left | |].
    + destruct (decide (q = p)) as [->|Hqp']; [left; apply elem_of_app; right; apply list_elem_of_fmap; by exists (p, x); rewrite list_elem_of_filter|].
      right. left. exists q. by rewrite list_elem_of_filter.
    + right. right. destruct (decide (q = p)) as [->|Hqp']; [exists p, (f bq); by rewrite lookup_alter_eq, Hbq | exists q, bq; by rewrite lookup_alter_ne].
  - intros t Et. assert (tip cs = Some t) as Et' by (rewrite <- Et; unfold tip, cs'; cbn [chainActive set_unlinked]; by rewrite (proj1 (proj2 (link_fields _ _ _)))).
    destruct (Htip t Et') as (bt & Ht & Hnt). exists bt. rewrite Ei, lookup_alter_ne by (intros ->; congruence). done.
Qed.

Lemma link_loop_spec fuel : forall queue cs, index_ok cs -> waiting queue cs -> txs_bounded (index cs) ->
  (length queue + length (mapBlocksUnlinked cs) <= fuel)%nat -> nBlockSequenceId cs + Z.of_nat (length queue + length (mapBlocksUnlinked cs)) < 2 ^ 31 ->
  exists cs', link_loop fuel queue cs = Some cs' /\ index_ok cs' /\ links_ok cs' /\ grown cs cs'.
Proof.
  induction fuel as [|n IH]; intros [|p queue] cs Hcs Hw Hb Hf Hid; [by exists cs; pose proof (grown_refl cs) | cbn in Hf; lia | by exists cs; pose proof (grown_refl cs) |].
  destruct (link_count cs p queue Hcs Hw Hb) as (b & before & Hp & Ebefore & Ecount & Hne).
  destruct (lk_queue _ _ Hw p) as (b' & Hp' & _ & Hz & Hpar); [by left|]. rewrite Hp in Hp'. injection Hp' as <-.
  cbn [link_loop]. rewrite Hp. cbn [mbind option_bind]. rewrite Ebefore. cbn [mbind option_bind]. cbn [length] in Hf, Hid.
  destruct (Z.eqb_spec (nBlockSequenceId cs) (2 ^ 31 - 1)); [lia|]. pose proof (link_waiting cs p queue b before Hcs Hw Hp Ecount Hne) as Hw'. cbn zeta in Hw'.
  assert (u32 (before + nTx b) <> 0) as Hnz by (by rewrite Ecount).
  pose proof (link_index_ok cs p b before Hcs Hp Hz Hnz Hpar) as Hcs'. pose proof (link_grown cs p b before Hcs Hp Hz Hnz Hpar (lk_tip _ _ Hw)) as Hg.
  assert (mapBlocksUnlinked (link_block p before cs) = mapBlocksUnlinked cs) as Eu by apply link_fields. rewrite Eu in Hw' |- *.
  assert (nBlockSequenceId (link_block p before cs) = nBlockSequenceId cs + 1) as Eid by apply link_fields.
  pose proof (Permutation_length (range_permutes p (mapBlocksUnlinked cs))) as El. rewrite length_app, !length_map in El.
  edestruct IH as (cs' & E & Hcs2 & Hl2 & Hg2); [apply index_ok_unlinked, Hcs' | exact Hw' | | | | exists cs'; split; [exact E|]; split; [done|]; split; [done|]].
  - cbn. intros x c Hx. destruct (same_tree_lookup _ _ x c (symmetry (gr_tree _ _ Hg)) Hx) as (c' & Hx' & Ec). injection Ec as _ _ <- _.
    rewrite <- (chain_txs_proper _ _ (gr_txs _ _ Hg) _ _ eq_refl _ _ eq_refl). by apply Hb.
  - cbn. rewrite length_app, length_map. lia.
  - cbn. rewrite length_app, length_map. lia.
  - apply (grown_trans _ _ _ (grown_unlinked _ _ _ Hg) Hg2).
Qed.

(** The new entry of a block with its transactions. *)

Lemma withValidity_mask status v : getValidity (withValidity status v) = validity_code v.
Proof. unfold getValidity, withValidity. rewrite Z.land_lor_distr_l, <- Z.land_assoc. change (Z.land (u32 (Z.lnot VALIDITY_MASK)) VALIDITY_MASK) with 0. rewrite Z.land_0_r. by destruct v. Qed.

Lemma RaiseValidity_status b v now : nStatus (RaiseValidity b v now) = fst (RaiseValidityNL (nStatus b) v).
Proof. unfold RaiseValidity. destruct (RaiseValidityNL (nStatus b) v) as [s r]. by destruct (_ && _). Qed.

Lemma RaiseValidity_fields b v now : place (RaiseValidity b v now) = place b /\ nTx (RaiseValidity b v now) = nTx b /\ nChainTx (RaiseValidity b v now) = nChainTx b.
Proof. unfold RaiseValidity. destruct (RaiseValidityNL (nStatus b) v) as [s r]. by destruct (_ && _). Qed.

Lemma SetDiskBlockData_fields b n meta now : place (SetDiskBlockData b n meta now) = place b /\ nTx (SetDiskBlockData b n meta now) = u32 n /\
  nChainTx (SetDiskBlockData b n meta now) = 0.
Proof. unfold SetDiskBlockData. destruct (RaiseValidity_fields (with_status (with_transactions b (u32 n) 0) (withData (nStatus (with_transactions b (u32 n) 0)) true)) TRANSACTIONS now) as (E & E1 & E2). by destruct meta. Qed.

Lemma SetDiskBlockData_validity b n meta now : validity_code TREE <= getValidity (nStatus b) -> validity_code TREE <= getValidity (nStatus (SetDiskBlockData b n meta now)).
Proof.
  intros Hb. unfold SetDiskBlockData. set (b1 := RaiseValidity _ _ _). assert (validity_code TREE <= getValidity (nStatus b1)) as Hb1.
  { unfold b1. rewrite RaiseValidity_status. cbn [nStatus with_status with_transactions]. unfold RaiseValidityNL. set (s := withData _ _).
    assert (getValidity s = getValidity (nStatus b)) as E by (by apply with_flag_mask). destruct (isInvalid s); [cbn [fst]; by rewrite E|].
    destruct (_ <=? _); [cbn [fst]; by rewrite E|]. cbn [fst]. by rewrite withValidity_mask. }
  destruct meta; [|done]. cbn [nStatus with_status]. unfold withDiskBlockMetaData, getValidity in *. by rewrite with_flag_mask.
Qed.

Lemma SetDiskBlockData_invalid b n meta now : isInvalid (nStatus (SetDiskBlockData b n meta now)) = isInvalid (nStatus b).
Proof.
  unfold SetDiskBlockData. set (b1 := RaiseValidity _ _ _). assert (isInvalid (nStatus b1) = isInvalid (nStatus b)) as Hb1.
  { unfold b1. rewrite RaiseValidity_status. cbn [nStatus with_status with_transactions]. unfold RaiseValidityNL. set (s := withData _ _).
    assert (isInvalid s = isInvalid (nStatus b)) as E by (unfold isInvalid, has_flag, s, withData; by rewrite (with_flag_mask INVALID_MASK)). destruct (isInvalid s) eqn:Es; [cbn [fst]; by rewrite Es|].
    destruct (_ <=? _); cbn [fst]; [by rewrite Es|]. rewrite <- E, <- Es. unfold isInvalid, has_flag, withValidity. rewrite Z.land_lor_distr_l, <- Z.land_assoc.
    change (Z.land (u32 (Z.lnot VALIDITY_MASK)) INVALID_MASK) with INVALID_MASK. by rewrite Z.lor_0_r. }
  destruct meta; [|done]. rewrite <- Hb1. unfold isInvalid, has_flag. cbn [nStatus with_status]. unfold withDiskBlockMetaData. by rewrite with_flag_mask.
Qed.

Lemma SetDiskBlockData_data b n meta now : hasData (nStatus (SetDiskBlockData b n meta now)) = true.
Proof.
  unfold SetDiskBlockData. set (b1 := RaiseValidity _ _ _). assert (hasData (nStatus b1) = true) as Hb1.
  { unfold b1. rewrite RaiseValidity_status. cbn [nStatus with_status with_transactions]. unfold RaiseValidityNL, hasData, has_flag. set (s := withData _ _).
    assert (Z.land s HAS_DATA_FLAG = HAS_DATA_FLAG) as E by (by apply with_flag_has). destruct (isInvalid s); [cbn [fst]; by rewrite E|].
    destruct (_ <=? _); cbn [fst]; [by rewrite E|]. unfold withValidity. rewrite Z.land_lor_distr_l, <- Z.land_assoc.
    change (Z.land (u32 (Z.lnot VALIDITY_MASK)) HAS_DATA_FLAG) with HAS_DATA_FLAG. by rewrite E. }
  destruct meta; [|done]. unfold hasData, has_flag in *. cbn [nStatus with_status]. unfold withDiskBlockMetaData. by rewrite with_flag_mask.
Qed.

Lemma chain_txs_other h p f : (forall b, pprev (f b) = pprev b) -> forall n x, ~ ancestor h p x -> chain_txs (alter f p h) n x = chain_txs h n x.
Proof.
  intros Hf. induction n as [|n IH]; intros x Hx; [done|]. cbn [chain_txs]. rewrite lookup_alter_ne by (intros ->; apply Hx, ancestor_refl).
  destruct (h !! x) as [b|] eqn:Hb; [|done]. destruct (pprev b) as [q|] eqn:Eq; [|done]. rewrite IH; [done|].
  intros Hq. apply Hx. apply (ancestor_trans _ p q x Hq). by apply (ancestor_step _ x b).
Qed.

(** A block whose transactions arrive is put in the queue, or waits for its predecessor. *)

Section receive.

Context (cs : chainstate) (p : ptr) (b : CBlockIndex) (n : Z) (meta : bool) (now : Z).
Context (Hcs : index_ok cs) (Hl : links_ok cs) (Hp : index cs !! p = Some b) (Hb : nTx b = 0) (Hn : 0 < n < 2 ^ 32).

Let f (b : CBlockIndex) : CBlockIndex := SetDiskBlockData b n meta now.

Lemma receive_unlinked : nChainTx b = 0.
Proof. destruct (decide (nChainTx b = 0)) as [|Hz]; [done|]. by destruct (lk_sum _ _ Hl p b Hp Hz). Qed.

Lemma receive_ok : index_ok (modify f p cs).
Proof.
  apply (index_ok_modify cs p b f Hcs); [|done | intros b'; apply SetDiskBlockData_fields | unfold f; by rewrite (proj2 (proj2 (SetDiskBlockData_fields _ _ _ _))) |
    by rewrite receive_unlinked].
  intros Hin. destruct (io_linked _ Hcs p Hin) as (b' & Hb' & Hz). pose proof receive_unlinked. congruence.
Qed.

Lemma receive_waiting queue w : queue ++ map snd w = [p] \/ queue = [] /\ w = [] /\ parent_failed (index cs) b -> (p ∈ queue -> forall q bq, pprev b = Some q -> index cs !! q = Some bq -> nChainTx bq <> 0) ->
  (forall q x, (q, x) ∈ w -> pprev b = Some q /\ exists bq, index cs !! q = Some bq /\ nChainTx bq = 0) ->
  waiting queue (set_unlinked (modify f p cs) (mapBlocksUnlinked cs ++ w)).
Proof.
  intros E Hqueue Hw. destruct Hl as [Htr Htx Hdata Hs Hnd Hq Hwait Hall Htip]. pose proof receive_unlinked as Hz.
  assert (forall b, pprev (f b) = pprev b) as Hprev by (intros b'; by injection (proj1 (SetDiskBlockData_fields b' n meta now))).
  assert (forall b, nHeight (f b) = nHeight b) as Hheight by (intros b'; by injection (proj1 (SetDiskBlockData_fields b' n meta now))).
  assert (forall b, nTx (f b) = n) as Hntx by (intros b'; unfold f; rewrite (proj1 (proj2 (SetDiskBlockData_fields b' n meta now))); by apply Z.mod_small; lia).
  assert (forall b, nChainTx (f b) = 0) as Hnch by (intros b'; apply SetDiskBlockData_fields).
  assert (forall x, x ∈ queue \/ x ∈ map snd w -> x = p) as Hx.
  { intros x. rewrite <- elem_of_app. destruct E as [->|(-> & -> & _)]; [by rewrite list_elem_of_singleton | by intros []%elem_of_nil]. }
  assert (forall q bq, index cs !! q = Some bq -> isInvalid (nStatus bq) = true -> exists bq', alter f p (index cs) !! q = Some bq' /\ isInvalid (nStatus bq') = true) as Hfail.
  { intros q bq Hbq Hi. destruct (decide (q = p)) as [->|Hqp]; [exists (f bq); rewrite lookup_alter_eq, Hbq; split; [done | rewrite <- Hi; apply SetDiskBlockData_invalid] | exists bq; by rewrite lookup_alter_ne]. }
  split; cbn [index mapBlocksUnlinked set_unlinked modify set_index].
  - intros x c (c0 & Hc & ->)%alter_get. destruct (decide (x = p)); [apply SetDiskBlockData_validity|]; by apply (Htr x).
  - intros x c (c0 & Hc & ->)%alter_get. destruct (decide (x = p)); [rewrite Hntx; lia | by apply (Htx x)].
  - intros x c (c0 & Hc & ->)%alter_get. destruct (decide (x = p)); [intros _; apply SetDiskBlockData_data | by apply (Hdata x)].
  - intros x c (c0 & Hc & ->)%alter_get. destruct (decide (x = p)) as [->|Hne]; [by rewrite Hnch|]. intros Hc0.
    rewrite chain_txs_other; [by apply Hs | done|]. intros Ha. by apply (linked_complete [] cs x c0 Hcs Hl Hc Hc0 p b Ha Hp).
  - rewrite map_app, (Permutation_app_comm _ (map snd w)), app_assoc. destruct E as [->|(-> & -> & _)]; [|done]. cbn. constructor; [|done].
    intros ([q x] & -> & Hin)%list_elem_of_fmap. destruct (Hwait q x Hin) as (c & _ & Hc & _ & _ & Ht & _). cbn in Hp. congruence.
  - intros x Hin. assert (x = p) as -> by (apply Hx; by left). exists (f b). rewrite lookup_alter_eq, Hp, Hntx, Hnch, Hprev. split; [done|]. split; [lia|]. split; [done|].
    intros q bq Eq (c0 & Hc & ->)%alter_get. destruct (decide (q = p)) as [->|]; [|by apply (Hqueue Hin q c0)]. exfalso. rewrite Hp in Hc. injection Hc as <-. by apply (Hqueue Hin p b).
  - intros q x [Hin|Hin]%elem_of_app.
    + destruct (Hwait q x Hin) as (c & bq & Hc & Ec & Hbq & Ht & Hzq). exists c. assert (x <> p) as Hne by (intros ->; congruence). rewrite lookup_alter_ne by done.
      destruct (decide (q = p)) as [->|Hqp]; [exists (f bq); by rewrite lookup_alter_eq, Hbq | exists bq; by rewrite lookup_alter_ne].
    + destruct (Hw q x Hin) as (Eq & bq & Hbq & Hzq). assert (x = p) as -> by (apply Hx; right; apply list_elem_of_fmap; by exists (q, x)).
      exists (f b). rewrite lookup_alter_eq, Hp, Hprev, Hntx. destruct (decide (q = p)) as [->|Hqp]; [exists (f bq); rewrite lookup_alter_eq, Hbq | exists bq; rewrite lookup_alter_ne by done];
        (split; [done|]; split; [done|]; split; [done|]; split; [lia | done]).
  - intros x c (c0 & Hc & ->)%alter_get. destruct (decide (x = p)) as [->|Hne].
    + intros _ _. rewrite Hp in Hc. injection Hc as <-. unfold parent_failed. rewrite Hprev. destruct E as [E|(_ & _ & q & bq & Eq & Hbq & Hi)].
      * assert (p ∈ queue ++ map snd w) as [|Hin]%elem_of_app by (rewrite E; by left); [by left|]. right. left. apply list_elem_of_fmap in Hin as ([q x] & -> & Hin).
        exists q. split; [apply (Hw q x Hin) | apply elem_of_app; by right].
      * right. right. destruct (Hfail q bq Hbq Hi) as (bq' & Hbq' & Hi'). by exists q, bq'.
    + intros Ht Hzc. destruct (Hall x c0 Hc Ht Hzc) as [[]%elem_of_nil|[(q & Eq & Hin)|(q & bq & Eq & Hbq & Hi)]].
      * right. left. exists q. split; [done|]. apply elem_of_app. by left.
      * right. right. destruct (Hfail q bq Hbq Hi) as (bq' & Hbq' & Hi'). by exists q, bq'.
  - intros t Et. destruct (Htip t Et) as (bt & Ht & Hnt). exists bt. rewrite lookup_alter_ne by (intros ->; congruence). done.
Qed.

End receive.

(** ** The arrival of a block *)

Lemma ttor_checked_some cs queue b : waiting queue cs -> exists deep, ttor_checked cs b = Some deep.
Proof. intros Hw. unfold ttor_checked. destruct (tip cs) as [t|] eqn:Et; [|by exists false]. destruct (lk_tip _ _ Hw t Et) as (bt & -> & _). by eexists. Qed.

Lemma receive_links cs p b n ttor meta now : index_ok cs -> links_ok cs -> index cs !! p = Some b -> nTx b = 0 -> 0 < n < 2 ^ 32 ->
  (ttor = true \/ ttor_checked cs b = Some false) ->
  let cs1 := modify (fun b => SetDiskBlockData b n meta now) p cs in
  txs_bounded (index cs1) -> nBlockSequenceId cs + Z.of_nat (S (length (mapBlocksUnlinked cs))) < 2 ^ 31 ->
  exists cs', ReceivedBlockTransactions p n ttor meta now cs = Some (true, cs') /\ index_ok cs' /\ links_ok cs' /\ grown cs1 cs'.
Proof.
  intros Hcs Hl Hp Hb Hn Httor cs1 Hbound Hid. unfold ReceivedBlockTransactions. rewrite Hp. cbn [mbind option_bind].
  destruct (ttor_checked_some cs _ b Hl) as [deep Ed]. rewrite Ed. cbn [mbind option_bind].
  replace (deep && negb ttor) with false by (destruct Httor as [->|E]; [by rewrite andb_false_r | by replace deep with false by congruence]).
  pose proof (receive_ok cs p b n meta now Hcs Hl Hp Hb) as Hcs1. change (index_ok cs1) in Hcs1. cbn zeta. fold cs1.
  assert ((forall q bq, pprev b = Some q -> index cs !! q = Some bq -> nChainTx bq <> 0) ->
    exists cs', link_loop (S (length (mapBlocksUnlinked cs))) [p] cs1 = Some cs' /\ index_ok cs' /\ links_ok cs' /\ grown cs1 cs') as Hlink.
  { intros Hlinked. apply link_loop_spec; [done | | done | cbn; lia | cbn in *; lia].
    pose proof (receive_waiting cs p b n meta now Hcs Hl Hp Hb Hn [p] [] (or_introl eq_refl) (fun _ => Hlinked)) as Hw.
    rewrite app_nil_r in Hw. apply Hw. by intros q x ?%elem_of_nil. }
  destruct (pprev b) as [q|] eqn:Eq.
  - destruct (io_tree _ Hcs p b Hp) as [_ Hq]. rewrite Eq in Hq. destruct Hq as (bq & Hbq & Eh & _).
    assert (q <> p) as Hqp by (intros ->; rewrite Hp in Hbq; injection Hbq as <-; lia).
    cbn [index cs1 modify set_index]. rewrite lookup_alter_ne by done. rewrite Hbq. cbn [mbind option_bind]. destruct (Z.eqb_spec (nChainTx bq) 0) as [Hz|Hz]; cbn [negb].
    + destruct (IsValid bq TREE) eqn:Ev.
      * eexists. split; [done|]. split; [by apply index_ok_unlinked|]. split; [|apply grown_unlinked, grown_refl].
        apply (receive_waiting cs p b n meta now Hcs Hl Hp Hb Hn [] [(q, p)] (or_introl eq_refl)); [by intros ?%elem_of_nil|].
        intros x y [= -> ->]%list_elem_of_singleton. split; [done|]. by exists bq.
      * eexists. split; [done|]. split; [done|]. split; [|apply grown_refl]. assert (parent_failed (index cs) b) as Hf.
        { exists q, bq. split_and!; [done..|]. unfold IsValid, isValid in Ev. destruct (isInvalid (nStatus bq)); [done|]. apply Z.leb_gt in Ev. pose proof (lk_tree _ _ Hl q bq Hbq). lia. }
        pose proof (receive_waiting cs p b n meta now Hcs Hl Hp Hb Hn [] [] (or_intror (conj eq_refl (conj eq_refl Hf)))) as Hw. rewrite app_nil_r in Hw.
        apply Hw; [by intros ?%elem_of_nil | by intros x y ?%elem_of_nil].
    + destruct Hlink as (cs' & E & H); [intros x bx [= <-] Hx; congruence|]. change (mapBlocksUnlinked cs1) with (mapBlocksUnlinked cs). rewrite E. by exists cs'.
  - destruct Hlink as (cs' & E & H); [done|]. change (mapBlocksUnlinked cs1) with (mapBlocksUnlinked cs). rewrite E. by exists cs'.
Qed.

(** A node that has seen headers only. *)

Lemma new_block_header h block prev now b : new_CBlockIndex h block prev now = Some b ->
  nTx b = 0 /\ nChainTx b = 0 /\ validity_code TREE <= getValidity (nStatus b) /\ isInvalid (nStatus b) = false.
Proof.
  unfold new_CBlockIndex. destruct prev as [q|].
  - destruct (h !! q) as [p|]; [|done]. destruct (BuildSkipNL h (Some q) (nHeight p + 1)); [|done]. unfold SetSoftRejectedFromParentBaseNL.
    destruct (0 <? nSoftRejected p); (destruct (SetChainWorkNL _ _ _); [intros [= <-]; by vm_compute | done]).
  - destruct (SetChainWorkNL _ _ _); [intros [= <-]; by vm_compute | done].
Qed.

Lemma block_tree_headers h p b : block_tree h -> h !! p = Some b -> nTx b = 0 /\ nChainTx b = 0 /\ validity_code TREE <= getValidity (nStatus b) /\ isInvalid (nStatus b) = false.
Proof.
  intros Ht. revert p b. induction Ht as [|h block prev now q c Ht IH Hf Hr Hn]; intros p b; [by rewrite lookup_empty|].
  destruct (decide (q = p)) as [<-|Hne]; [|rewrite lookup_insert_ne by done; apply IH]. rewrite lookup_insert_eq. intros [= <-]. by apply (new_block_header h block prev now).
Qed.

Lemma headers_ok h : block_tree h -> index_ok (set_index new_chainstate h) /\ links_ok (set_index new_chainstate h).
Proof.
  intros Ht. pose proof (block_tree_headers h) as Hh. split.
  - split; cbn; [by apply block_tree_ok | intros p b Hp; by apply (block_tree_work h Ht p b) | done | constructor | by intros p []%elem_of_nil | | done].
    intros p b q bq Hp Hn. by destruct (Hh p b Ht Hp) as (_ & ? & _).
  - split; cbn; [| | | | apply NoDup_nil_2 | by intros p []%elem_of_nil | by intros q p []%elem_of_nil | | done];
      intros p b Hp; destruct (Hh p b Ht Hp) as (E1 & E2 & H1 & H2); [done | lia | done | done | done].
Qed.

(** ** Properties *)

(** C29. [FindMostWorkChain] ends, on every consistent state, without a failed assertion, and returns the best chain there
    is: of the candidates that are neither soft rejected nor frozen and whose blocks off the active chain are all valid and
    present, the greatest in the order of work, validation time, arrival and address; no candidate is returned exactly when
    none is of that kind.  On the way it removes only candidates that lead through an invalid or missing block, and
    marks only descendants of invalid blocks. *)

Theorem FindMostWorkChain_correct cs : index_ok cs -> exists r cs', FindMostWorkChain cs = Some (r, cs') /\ trimmed cs cs' /\
  match r with
  | None => forall p b, p ∈ setBlockIndexCandidates cs -> index cs !! p = Some b -> eligible b -> ~ usable cs p
  | Some p => p ∈ setBlockIndexCandidates cs' /\ usable cs p /\ (exists b, index cs !! p = Some b /\ eligible b) /\
              forall q bq, q ∈ setBlockIndexCandidates cs -> index cs !! q = Some bq -> eligible bq -> usable cs q -> q = p \/ less cs q p = true
  end.
Proof.
  intros Hcs. destruct (find_loop_spec cs Hcs _ cs (trimmed_refl cs Hcs) (le_n _)) as (r & cs' & E & Htr & Hr). exists r, cs'. split; [done|]. split; [done|].
  assert (forall p b, p ∈ setBlockIndexCandidates cs -> index cs !! p = Some b -> eligible b -> usable cs p ->
    p ∈ setBlockIndexCandidates cs' /\ exists b', index cs' !! p = Some b' /\ eligible b') as Hkeep.
  { intros p b Hp Hb He Hu. split; [destruct (decide (p ∈ setBlockIndexCandidates cs')); [done | by destruct (tr_dropped _ _ Htr p)]|].
    destruct (trimmed_block cs cs' p b Htr Hb) as [s Hs]. by exists (with_status b s). }
  destruct r as [p|].
  - destruct Hr as (Hin & Hu & (b & Hb & He) & Hmax). rewrite (trimmed_usable cs) in Hu by done. split_and!; [done | done | |].
    + pose proof (trimmed_same _ _ Htr) as Es. symmetry in Es. destruct (same_but_status_lookup _ _ p b Es Hb) as [s Hs]. by exists (with_status b s).
    + intros q bq Hq Hbq Heq Huq. destruct (Hkeep q bq Hq Hbq Heq Huq) as (Hq' & bq' & Hbq' & Heq').
      destruct (Hmax q bq' Hq' Hbq' Heq') as [->|Hl]; [by left|]. right. unfold less in *. by rewrite (comparator_status _ _ _ _ (trimmed_same _ _ Htr)) in Hl.
  - intros p b Hp Hb He Hu. destruct (Hkeep p b Hp Hb He Hu) as (Hp' & b' & Hb' & He'). by apply (Hr p b').
Qed.

(** C30. [ReceivedBlockTransactions] does its bookkeeping right: when the transactions of a block arrive for the first time,
    the call succeeds, and afterwards a block has a transaction count for its whole chain if all its ancestors and itself
    have their transactions and no ancestor has failed (also the blocks that had arrived before their parents), and only if
    they all have them; every block linked by the call
    is a candidate for the best chain unless it is worse than the tip, no candidate is lost, and the blocks that still wait
    are recorded under their parents. *)

Theorem ReceivedBlockTransactions_correct cs p b n ttor meta now : index_ok cs -> links_ok cs -> index cs !! p = Some b -> nTx b = 0 -> 0 < n < 2 ^ 32 ->
  (ttor = true \/ ttor_checked cs b = Some false) ->
  txs_bounded (index (modify (fun b => SetDiskBlockData b n meta now) p cs)) -> nBlockSequenceId cs + Z.of_nat (S (length (mapBlocksUnlinked cs))) < 2 ^ 31 ->
  exists cs', ReceivedBlockTransactions p n ttor meta now cs = Some (true, cs') /\ index_ok cs' /\ links_ok cs' /\
    grown (modify (fun b => SetDiskBlockData b n meta now) p cs) cs' /\
    forall x bx, index cs' !! x = Some bx ->
      (nChainTx bx <> 0 -> forall q bq, ancestor (index cs') q x -> index cs' !! q = Some bq -> nTx bq <> 0) /\
      ((forall q bq, ancestor (index cs') q x -> index cs' !! q = Some bq -> nTx bq <> 0 /\ (q <> x -> isInvalid (nStatus bq) = false)) -> nChainTx bx <> 0) /\
      (nChainTx bx <> 0 -> index cs !! x = Some bx \/ x ∈ setBlockIndexCandidates cs' \/ exists t, tip cs' = Some t /\ less cs' x t = true).
Proof.
  intros Hcs Hl Hp Hb Hn Httor Hbound Hid. destruct (receive_links cs p b n ttor meta now Hcs Hl Hp Hb Hn Httor Hbound Hid) as (cs' & E & Hcs' & Hl' & Hg).
  exists cs'. split_and!; [done..|]. intros x bx Hx. split; [by apply (linked_complete [])|]. split; [by apply complete_linked|]. intros Hnx. destruct (gr_new _ _ Hg x bx Hx Hnx) as [Hx'|[|(t & bt & Et & _ & _ & Hlt)]];
    [left | by right; left | right; right; by exists t].
  cbn in Hx'. apply alter_get in Hx' as (c & Hc & E'). destruct (decide (x = p)); [|by rewrite E']. by rewrite E', (proj2 (proj2 (SetDiskBlockData_fields _ _ _ _))) in Hnx.
Qed.

(** Marking the descendants of an invalid block is exact: [InvalidateChain] ends without a failed assertion, sets the
    failed-parent flag on precisely the blocks above the invalid one, on whichever branches they are, takes precisely
    those out of the candidates, and changes nothing else. *)

Theorem InvalidateChain_correct cs p b : index_ok cs -> index cs !! p = Some b -> isInvalid (nStatus b) = true ->
  exists cs', InvalidateChain p cs = Some cs' /\ index_ok cs' /\
    (forall q bq, index cs !! q = Some bq -> ancestor (index cs) p q /\ q <> p -> index cs' !! q = Some (ModifyStatusWithFailedParent bq)) /\
    (forall q bq, index cs !! q = Some bq -> ~ (ancestor (index cs) p q /\ q <> p) -> index cs' !! q = Some bq) /\
    (forall q, q ∈ setBlockIndexCandidates cs' <-> q ∈ setBlockIndexCandidates cs /\ ~ (ancestor (index cs) p q /\ q <> p)) /\
    chainActive cs' = chainActive cs /\ mapBlocksUnlinked cs' = mapBlocksUnlinked cs.
Proof.
  intros Hcs Hp Hi. destruct (InvalidateChain_spec cs Hcs p b Hp Hi) as (M & E & HM). exists (marked M cs). split; [done|]. split; [by apply marked_ok|].
  assert (forall q bq, index cs !! q = Some bq -> q ∈ M <-> ancestor (index cs) p q /\ q <> p) as HM'.
  { intros q bq Hq. rewrite HM. split; [tauto|]. intros H. split; [by exists bq | done]. }
  split_and!; [| | | done | done].
  - intros q bq Hq Ha. rewrite marked_lookup, Hq. cbn. unfold fail_if. by rewrite decide_True by (by apply (HM' q bq)).
  - intros q bq Hq Ha. rewrite marked_lookup, Hq. cbn. unfold fail_if. by rewrite decide_False by (by rewrite (HM' q bq)).
  - intros q. cbn. rewrite list_elem_of_filter. split; intros [H1 H2].
    + destruct (io_linked _ Hcs q H2) as (bq & Hq & _). by rewrite <- (HM' q bq).
    + destruct (io_linked _ Hcs q H1) as (bq & Hq & _). by rewrite (HM' q bq).
Qed.

(** ** Witnesses *)

(** The blocks of [demo_tree] arrive out of order, with one transaction each. *)

Definition demo_receive (p : ptr) (cs : chainstate) : chainstate :=
  match ReceivedBlockTransactions p 1 true false 0 cs with Some (true, cs') => cs' | _ => cs end.

Definition demo_expected (p : ptr) (cs : chainstate) : bool :=
  match index cs !! p with Some b => nTx b =? 0 | None => false end &&
  (let h := index (modify (fun b => SetDiskBlockData b 1 false 0) p cs) in bool_decide (map_Forall (fun p b => chain_txs h (S (Z.to_nat (nHeight b))) p < 2 ^ 32) h)) &&
  (nBlockSequenceId cs + Z.of_nat (S (length (mapBlocksUnlinked cs))) <? 2 ^ 31).

Lemma demo_expected_ready p cs : demo_expected p cs = true -> exists b, index cs !! p = Some b /\ nTx b = 0 /\
  txs_bounded (index (modify (fun b => SetDiskBlockData b 1 false 0) p cs)) /\ nBlockSequenceId cs + Z.of_nat (S (length (mapBlocksUnlinked cs))) < 2 ^ 31.
Proof.
  unfold demo_expected. intros [[E1 E3]%andb_prop E4]%andb_prop. destruct (index cs !! p) as [b|]; [|done]. exists b.
  apply Z.eqb_eq in E1. apply bool_decide_eq_true_1 in E3. apply Z.ltb_lt in E4. split_and!; [done | done | exact E3 | done].
Qed.

Lemma demo_receive_ok p cs : demo_expected p cs = true -> index_ok cs /\ links_ok cs -> index_ok (demo_receive p cs) /\ links_ok (demo_receive p cs).
Proof.
  intros (b & Hp & Hb & Hbound & Hid)%demo_expected_ready [Hcs Hl].
  destruct (receive_links cs p b 1 true false 0 Hcs Hl Hp Hb ltac:(lia) (or_introl eq_refl) Hbound Hid) as (cs' & E & Hcs' & Hl' & _). unfold demo_receive. by rewrite E.
Qed.

Definition demo_waiting : chainstate := Eval vm_compute in demo_receive 1%positive (demo_receive 3%positive (set_index new_chainstate demo_tree)).

Lemma demo_waiting_ok : index_ok demo_waiting /\ links_ok demo_waiting.
Proof.
  replace demo_waiting with (demo_receive 1%positive (demo_receive 3%positive (set_index new_chainstate demo_tree))) by (vm_compute; reflexivity).
  apply demo_receive_ok; [vm_compute; reflexivity|]. apply demo_receive_ok; [vm_compute; reflexivity|]. apply headers_ok, demo_tree_ok.
Qed.

Lemma ReceivedBlockTransactions_correct_witness : mapBlocksUnlinked demo_waiting = [(2, 3)%positive] /\ setBlockIndexCandidates demo_waiting = [1%positive] /\
  exists cs', ReceivedBlockTransactions 2%positive 1 true false 0 demo_waiting = Some (true, cs') /\ links_ok cs' /\ setBlockIndexCandidates cs' = [1; 2; 3]%positive.
Proof.
  split; [reflexivity|]. split; [reflexivity|]. destruct (demo_expected_ready 2%positive demo_waiting ltac:(vm_compute; reflexivity)) as (b & Hp & Hb & Hbound & Hid).
  destruct (ReceivedBlockTransactions_correct demo_waiting 2%positive b 1 true false 0 (proj1 demo_waiting_ok) (proj2 demo_waiting_ok) Hp Hb ltac:(lia) (or_introl eq_refl) Hbound Hid)
    as (cs' & E & _ & Hl & _). exists cs'. split; [exact E|]. split; [exact Hl|].
  assert ((fun r => setBlockIndexCandidates r.2) <$> ReceivedBlockTransactions 2%positive 1 true false 0 demo_waiting = Some [1; 2; 3]%positive) as E' by (vm_compute; reflexivity).
  rewrite E in E'. injection E' as E'. exact E'.
Defined.

Definition demo_linked : chainstate := Eval vm_compute in demo_receive 5%positive (demo_receive 2%positive demo_waiting).

Lemma demo_linked_ok : index_ok demo_linked.
Proof.
  replace demo_linked with (demo_receive 5%positive (demo_receive 2%positive demo_waiting)) by (vm_compute; reflexivity).
  apply demo_receive_ok; [vm_compute; reflexivity|]. apply demo_receive_ok; [vm_compute; reflexivity|]. apply demo_waiting_ok.
Qed.

Lemma FindMostWorkChain_correct_witness : setBlockIndexCandidates demo_linked = [1; 2; 5; 3]%positive /\ exists cs', FindMostWorkChain demo_linked = Some (Some 3%positive, cs') /\ usable demo_linked 3%positive.
Proof.
  split; [reflexivity|]. destruct (FindMostWorkChain_correct demo_linked demo_linked_ok) as (r & cs' & E & _ & Hr).
  assert (fst <$> FindMostWorkChain demo_linked = Some (Some 3%positive)) as E' by (vm_compute; reflexivity). rewrite E in E'. injection E' as E'.
  exists cs'. rewrite E' in E, Hr. split; [exact E | apply Hr].
Defined.

(** Block 2 of the demo fails. *)

Definition demo_failed : chainstate := Eval vm_compute in erase_candidate 2%positive (modify ModifyStatusWithFailed 2%positive demo_linked).

Lemma demo_failed_ok : index_ok demo_failed.
Proof.
  replace demo_failed with (set_candidates (set_index demo_linked (alter ModifyStatusWithFailed 2%positive (index demo_linked)))
    (filter (fun q => q <> 2%positive) (setBlockIndexCandidates demo_linked))) by (vm_compute; reflexivity).
  apply index_ok_status; [apply demo_linked_ok|]. symmetry. by apply same_but_status_alter.
Qed.

Lemma InvalidateChain_correct_witness : setBlockIndexCandidates demo_failed = [1; 5; 3]%positive /\
  exists b cs', index demo_failed !! 2%positive = Some b /\ InvalidateChain 2%positive demo_failed = Some cs' /\ index_ok cs' /\ setBlockIndexCandidates cs' = [1%positive].
Proof.
  split; [reflexivity|]. assert (isInvalid <$> (nStatus <$> index demo_failed !! 2%positive) = Some true) as Eb by (vm_compute; reflexivity).
  destruct (index demo_failed !! 2%positive) as [b|] eqn:Hb; [|discriminate Eb]. injection Eb as Eb.
  destruct (InvalidateChain_correct demo_failed 2%positive b demo_failed_ok Hb Eb) as (cs' & E & Hcs' & _). exists b, cs'. split; [exact eq_refl|]. split; [exact E|]. split; [exact Hcs'|].
  assert (setBlockIndexCandidates <$> InvalidateChain 2%positive demo_failed = Some [1%positive]) as E' by (vm_compute; reflexivity). rewrite E in E'. injection E' as E'. exact E'.
Defined.
