(* ===== verification/SoftReject.v ===== *)
(** * Soft rejection and soft consensus freeze

    A soft rejected block and a given number of its descendants are not to become the tip; a block that spends frozen
    outputs is treated alike.  Both are counters in the index entries ([src/block_index.h]) that are passed down from a
    block to its descendants, by a walk over the tree of descendants ([src/blockindex_with_descendants.h]), in
    [SoftRejectBlockNL], [AcceptSoftRejectedBlockNL] and [softConsensusFreeze] of [src/validation.cpp].

    The walk is iterative: each item has its children in an array and finds its successor by searching its parent's array.
    It is proved to be the recursive pre-order walk over exactly the descendants up to the maximal height.  The result
    [None] is a failed assertion or signed overflow. *)

From stdpp Require Import gmap.
From S2P Require Import Prelude Common Uint256 BlockIndex ChainIndex.
Import arith_uint256.

(** ** The tree of descendants *)

(** The array [blocks] of the constructor: the root and every entry above it up to the maximal height. *)

Definition height_between (h : heap) (low high : Z) (p : ptr) : bool :=
  match h !! p with Some b => (low <? nHeight b) && (nHeight b <=? high) | None => false end.

Definition tree_blocks (h : heap) (root : ptr) (maxHeight : Z) : list ptr :=
  match h !! root with
  | None => []
  | Some r => root :: filter (fun p => height_between h (nHeight r) maxHeight p = true) (elements (dom h))
  end.

(** [Item::Children] and [Item::Parent] once every item has been placed. *)

Definition Children (h : heap) (blocks : list ptr) (p : ptr) : list ptr := filter (fun q => get_prev h (Some q) = Some p) blocks.

Definition Parent (h : heap) (blocks : list ptr) (p : ptr) : option ptr :=
  match get_prev h (Some p) with Some q => if bool_decide (q ∈ blocks) then Some q else None | None => None end.

(** The element after [p], found by [std::find]; not to find [p] is a failed assertion. *)

Fixpoint next_child (p : ptr) (l : list ptr) : option (option ptr) :=
  match l with
  | [] => None
  | q :: l => if bool_decide (q = p) then Some (head l) else next_child p l
  end.

Fixpoint next_up (h : heap) (blocks : list ptr) (fuel : nat) (item : ptr) : option (option ptr) :=
  match Parent h blocks item with
  | None => Some None
  | Some p =>
      next ← next_child item (Children h blocks p);
      match next, fuel with
      | Some q, _ => Some (Some q)
      | None, O => None
      | None, S n => next_up h blocks n p
      end
  end.

Definition Item_Next (h : heap) (blocks : list ptr) (item : ptr) : option (option ptr) :=
  match Children h blocks item with
  | q :: _ => Some (Some q)
  | [] => next_up h blocks (match h !! item with Some b => Z.to_nat (nHeight b) | None => O end) item
  end.

(** The items from [item] on, in the order of [Next]. *)

Fixpoint items (h : heap) (blocks : list ptr) (fuel : nat) (item : option ptr) : option (list ptr) :=
  match item with
  | None => Some []
  | Some p =>
      match fuel with
      | O => None
      | S n => next ← Item_Next h blocks p; l ← items h blocks n next; Some (p :: l)
      end
  end.

(** The items the loops of the callers see: all but the root. *)

Definition items_after_root (h : heap) (root : ptr) (maxHeight : Z) : option (list ptr) :=
  let blocks := tree_blocks h root maxHeight in
  next ← Item_Next h blocks root;
  items h blocks (length blocks) next.

(** ** Soft rejection *)

Definition ShouldBeConsideredSoftRejectedBecauseOfParent (h : heap) (b : CBlockIndex) : option bool :=
  q ← pprev b; bq ← h !! q; Some (0 <? nSoftRejected bq).

Definition SetSoftRejectedFor (p : ptr) (numBlocks : Z) (h : heap) : option heap :=
  b ← h !! p;
  because ← ShouldBeConsideredSoftRejectedBecauseOfParent h b;
  if (numBlocks <? -1) || because then None
  else
    let b := with_soft b numBlocks (mSoftConsensusFreezeForNBlocks b) (mSoftConsensusFreezeForNBlocksCumulative b) in
    Some (<[p := with_status b (withDataForSoftRejection (nStatus b) (IsSoftRejected b))]> h).

Definition SetSoftRejectedFromParent (p : ptr) (h : heap) : option heap :=
  b ← h !! p;
  q ← pprev b;
  bq ← h !! q;
  let '(n, status) := SetSoftRejectedFromParentBaseNL bq (nStatus b) in
  Some (<[p := with_status (with_soft b n (mSoftConsensusFreezeForNBlocks b) (mSoftConsensusFreezeForNBlocksCumulative b)) status]> h).

Fixpoint each (f : ptr -> heap -> option heap) (l : list ptr) (h : heap) : option heap :=
  match l with [] => Some h | p :: l => h ← f p h; each f l h end.

Definition SetRootSoftRejectedForNL (root : ptr) (blocks : list ptr) (numBlocks : Z) (h : heap) : option heap :=
  h ← SetSoftRejectedFor root numBlocks h; each SetSoftRejectedFromParent blocks h.

(** A descendant that was soft rejected in its own right. *)

Fixpoint explicit_rejection (h : heap) (l : list ptr) : option bool :=
  match l with
  | [] => Some false
  | p :: l =>
      b ← h !! p;
      because ← ShouldBeConsideredSoftRejectedBecauseOfParent h b;
      if IsSoftRejected b && negb because then Some true else explicit_rejection h l
  end.

(** A block soft rejected because of its parent cannot be marked on its own, and the number of blocks can only grow. *)

Definition soft_reject_refused (h : heap) (b : CBlockIndex) (numBlocks : Z) : option bool :=
  if IsSoftRejected b then because ← ShouldBeConsideredSoftRejectedBecauseOfParent h b; Some (because || (numBlocks <=? nSoftRejected b))
  else Some false.

(** [SoftRejectBlockNL] up to the rewinding of the active chain; [false] is an error for the caller. *)

Definition soft_reject (pindex : ptr) (numBlocks : Z) (h : heap) : option (bool * heap) :=
  b ← h !! pindex;
  if numBlocks <? 0 then None
  else if nHeight b =? 0 then Some (false, h)
  else
    refused ← soft_reject_refused h b numBlocks;
    if (refused : bool) then Some (false, h)
    else
      let maxHeight := nHeight b + numBlocks in
      if 2 ^ 31 <=? maxHeight then None
      else
        l ← items_after_root h pindex maxHeight;
        explicit ← explicit_rejection h l;
        if (explicit : bool) then Some (false, h)
        else h ← SetRootSoftRejectedForNL pindex l numBlocks h; Some (true, h).

Definition AcceptSoftRejectedBlockNL (pindex : ptr) (numBlocks : Z) (h : heap) : option (bool * heap) :=
  b ← h !! pindex;
  if numBlocks <? -1 then None
  else if negb (IsSoftRejected b) then Some (false, h)
  else
    because ← ShouldBeConsideredSoftRejectedBecauseOfParent h b;
    if because || (nSoftRejected b <=? numBlocks) then Some (false, h)
    else
      let maxHeight := nHeight b + nSoftRejected b in
      if 2 ^ 31 <=? maxHeight then None
      else
        l ← items_after_root h pindex maxHeight;
        h ← SetRootSoftRejectedForNL pindex l numBlocks h;
        Some (true, h).

(** ** Soft consensus freeze *)

Definition SetSoftConsensusFreezeFor (p : ptr) (numberOfBlocks : Z) (h : heap) : option heap :=
  b ← h !! p;
  if (numberOfBlocks <? 0) || negb (mSoftConsensusFreezeForNBlocks b =? -1) then None
  else
    let b' := with_soft b (nSoftRejected b) numberOfBlocks (Z.max (mSoftConsensusFreezeForNBlocksCumulative b) numberOfBlocks) in
    Some (<[p := with_status b' (withDataForSoftConsensusFreeze (nStatus b') true)]> h).

Definition UpdateSoftConsensusFreezeFromParent (p : ptr) (h : heap) : option heap :=
  b ← h !! p;
  q ← pprev b;
  bq ← h !! q;
  Some (<[p := with_soft b (nSoftRejected b) (mSoftConsensusFreezeForNBlocks b) (UpdateSoftConsensusFreezeFromParentNL bq (mSoftConsensusFreezeForNBlocks b))]> h).

Definition softConsensusFreeze (index : ptr) (duration : Z) (h : heap) : option heap :=
  if duration <? 0 then None
  else
    h ← SetSoftConsensusFreezeFor index duration h;
    b ← h !! index;
    l ← items_after_root h index (if nHeight b <? 2 ^ 31 - 1 - duration then nHeight b + duration else duration);
    each UpdateSoftConsensusFreezeFromParent l h.

(** ** The walk is the recursive one *)

Fixpoint preorder (h : heap) (blocks : list ptr) (n : nat) (p : ptr) : list ptr :=
  match n with
  | O => [p]
  | S m => p :: flat_map (preorder h blocks m) (Children h blocks p)
  end.

Section walk.

Context (h : heap) (Ht : tree_ok h) (root : ptr) (r : CBlockIndex) (Hr : h !! root = Some r) (maxHeight : Z).

Notation blocks := (tree_blocks h root maxHeight).

Notation kids := (Children h blocks).

Lemma blocks_elem p : p ∈ blocks <-> p = root \/ exists b, h !! p = Some b /\ nHeight r < nHeight b <= maxHeight.
Proof.
  unfold tree_blocks. rewrite Hr, elem_of_cons, list_elem_of_filter, elem_of_elements, elem_of_dom. unfold height_between. split.
  - intros [->|[E [b Hb]]]; [by left|]. right. exists b. rewrite Hb in E. apply andb_prop in E as [E1%Z.ltb_lt E2%Z.leb_le]. done.
  - intros [->|(b & Hb & H1 & H2)]; [by left|]. right. rewrite Hb. split; [|by eexists]. apply andb_true_intro. split; [by apply Z.ltb_lt | by apply Z.leb_le].
Qed.

Lemma blocks_NoDup : NoDup blocks.
Proof.
  unfold tree_blocks. rewrite Hr. constructor; [|apply list.NoDup_filter, NoDup_elements]. intros [E _]%list_elem_of_filter.
  unfold height_between in E. rewrite Hr in E. apply andb_prop in E as [E%Z.ltb_lt _]. lia.
Qed.

Lemma kids_elem p q : q ∈ kids p <-> q ∈ blocks /\ exists b, h !! q = Some b /\ pprev b = Some p.
Proof.
  unfold Children. rewrite list_elem_of_filter. cbn. split.
  - intros [E Hq]. split; [done|]. destruct (h !! q) as [b|]; [by exists b | done].
  - intros (Hq & b & -> & E). done.
Qed.

Lemma kids_NoDup p : NoDup (kids p).
Proof. apply list.NoDup_filter, blocks_NoDup. Qed.

(** The items of the tree: the entries of [blocks] above the root. *)

Definition inside (p : ptr) : Prop := (p ∈ blocks) /\ ancestor h root p.

Lemma inside_root : inside root.
Proof. split; [apply blocks_elem; by left | apply ancestor_refl]. Qed.

Lemma inside_block p : inside p -> exists b, h !! p = Some b /\ nHeight r <= nHeight b /\ (p <> root -> nHeight r < nHeight b <= maxHeight).
Proof. intros [[->|(b & Hb & H)]%blocks_elem _]; [exists r | exists b]; split_and!; done || lia. Qed.

Lemma inside_kid p q : inside p -> q ∈ kids p -> inside q /\ q <> root /\ exists b bp, h !! q = Some b /\ pprev b = Some p /\ h !! p = Some bp /\ nHeight b = nHeight bp + 1.
Proof.
  intros Hp (Hq & b & Hb & Eb)%kids_elem. destruct (Ht q b Hb) as [_ H1]. rewrite Eb in H1. destruct H1 as (bp & Hbp & Eh & _).
  destruct (inside_block p Hp) as (bp' & Hbp' & Hle & _). rewrite Hbp in Hbp'. injection Hbp' as <-. split_and!.
  - split; [done|]. apply (ancestor_trans _ root p q); [apply Hp | by apply (ancestor_step _ q b)].
  - intros ->. rewrite Hr in Hb. injection Hb as <-. lia.
  - by exists b, bp.
Qed.

Lemma inside_parent q : inside q -> q <> root -> exists p, inside p /\ q ∈ kids p.
Proof.
  intros Hq Hne. destruct (inside_block q Hq) as (b & Hb & _ & Hh). specialize (Hh Hne). destruct (ancestor_inv _ q b root Ht Hb (proj2 Hq)) as [->|(p & Ep & Ha)]; [done|].
  destruct (Ht q b Hb) as [_ H1]. rewrite Ep in H1. destruct H1 as (bp & Hbp & Eh & _). exists p. split; [|apply kids_elem; split; [apply Hq | by exists b]].
  split; [|done]. apply blocks_elem. destruct (decide (root = p)) as [->|Hrp]; [by left|]. right. exists bp. split; [done|].
  destruct (decide (nHeight bp <= nHeight r)); [|lia]. exfalso. apply Hrp. by apply (ancestor_level h p bp root r).
Qed.

Lemma Parent_kid p q : inside p -> q ∈ kids p -> Parent h blocks q = Some p.
Proof. intros Hp (_ & b & Hb & Eb)%kids_elem. unfold Parent. cbn. rewrite Hb, Eb. by rewrite bool_decide_true by apply Hp. Qed.

Lemma Parent_root : Parent h blocks root = None.
Proof.
  unfold Parent. cbn. rewrite Hr. destruct (pprev r) as [q|] eqn:Eq; [|done]. rewrite bool_decide_false; [done|]. destruct (Ht root r Hr) as [_ H1]. rewrite Eq in H1.
  destruct H1 as (bq & Hq & Eh & _). intros [->|(b & Hb & H)]%blocks_elem; simplify_eq; lia.
Qed.

Lemma next_child_spec p l1 l2 : NoDup (l1 ++ p :: l2) -> next_child p (l1 ++ p :: l2) = Some (head l2).
Proof.
  induction l1 as [|q l1 IH]; cbn; [by rewrite bool_decide_true|]. intros [Hq Hn]%list.NoDup_cons. rewrite bool_decide_false; [by apply IH|].
  intros ->. apply Hq. apply elem_of_app. right. by left.
Qed.

(** The successor of a subtree. *)

Definition up (p : ptr) : option (option ptr) := next_up h blocks (match h !! p with Some b => Z.to_nat (nHeight b) | None => O end) p.

Lemma up_kid p l1 q l2 : inside p -> kids p = l1 ++ q :: l2 -> up q = match l2 with [] => up p | d :: _ => Some (Some d) end.
Proof.
  intros Hp E. assert (q ∈ kids p) as Hq by (rewrite E; apply elem_of_app; right; by left).
  destruct (inside_kid p q Hp Hq) as (_ & _ & b & bp & Hb & Eb & Hbp & Eh). pose proof (proj1 (Ht p bp Hbp)).
  unfold up. rewrite Hb, Hbp. replace (Z.to_nat (nHeight b)) with (S (Z.to_nat (nHeight bp))) by lia. cbn [next_up]. rewrite (Parent_kid p q Hp Hq), E.
  rewrite next_child_spec by (rewrite <- E; apply kids_NoDup). cbn [mbind option_bind]. by destruct l2.
Qed.

Lemma up_root : up root = Some None.
Proof. unfold up. rewrite Hr. by destruct (Z.to_nat (nHeight r)); cbn [next_up]; rewrite Parent_root. Qed.

Lemma up_total p : inside p -> exists y, up p = Some y.
Proof.
  intros Hp. destruct (inside_block p Hp) as (b & Hb & _). remember (Z.to_nat (nHeight b)) as n eqn:En. revert p b Hp Hb En. induction n as [n IH] using lt_wf_ind. intros p b Hp Hb En.
  destruct (decide (p = root)) as [->|Hne]; [rewrite up_root; by exists None|]. destruct (inside_parent p Hp Hne) as (q & Hq & Hk).
  destruct (inside_kid q p Hq Hk) as (_ & _ & b' & bq & Hb' & _ & Hbq & Eh). rewrite Hb in Hb'. injection Hb' as <-. pose proof (proj1 (Ht q bq Hbq)).
  destruct (list_elem_of_split (kids q) p Hk) as (l1 & l2 & E). rewrite (up_kid q l1 p l2 Hq E). destruct l2; [|by eexists].
  apply (IH (Z.to_nat (nHeight bq)) ltac:(lia) q bq Hq Hbq eq_refl).
Qed.

(** Walking from an item visits its subtree and then continues with its successor. *)

Lemma items_subtree n : forall p y k, inside p -> (forall b, h !! p = Some b -> maxHeight - nHeight b <= Z.of_nat n) -> up p = Some y ->
  items h blocks (length (preorder h blocks n p) + k) (Some p) = (l ← items h blocks k y; Some (preorder h blocks n p ++ l)).
Proof.
  induction n as [|n IH]; intros p y k Hp Hd Hy.
  - cbn. unfold Item_Next. destruct (kids p) as [|q l] eqn:Ek; [fold (up p); by rewrite Hy|]. exfalso.
    destruct (inside_kid p q Hp) as (Hq & Hne & b & bp & Hb & _ & Hbp & Eh); [rewrite Ek; by left|]. specialize (Hd bp Hbp).
    destruct (inside_block q Hq) as (b' & Hb' & _ & Hh). rewrite Hb in Hb'. injection Hb' as <-. specialize (Hh Hne). lia.
  - assert (forall l2 l1 q, kids p = l1 ++ q :: l2 -> items h blocks (length (flat_map (preorder h blocks n) (q :: l2)) + k) (Some q) =
      (l ← items h blocks k y; Some (flat_map (preorder h blocks n) (q :: l2) ++ l))) as Hkids.
    { induction l2 as [|d l2 IHl]; intros l1 q E; assert (q ∈ kids p) as Hq by (rewrite E; apply elem_of_app; right; by left);
        destruct (inside_kid p q Hp Hq) as (Hqi & _ & b & bp & Hb & _ & Hbp & Eh); pose proof (Hd bp Hbp) as Hdp;
        assert (forall b, h !! q = Some b -> maxHeight - nHeight b <= Z.of_nat n) as Hdq by (intros b' Hb'; simplify_eq; lia).
      - cbn [flat_map]. rewrite app_nil_r. apply (IH q y k Hqi Hdq). by rewrite (up_kid p l1 q [] Hp E).
      - change (flat_map (preorder h blocks n) (q :: d :: l2)) with (preorder h blocks n q ++ flat_map (preorder h blocks n) (d :: l2)).
        rewrite length_app, <- Nat.add_assoc. rewrite (IH q (Some d) _ Hqi Hdq) by (by rewrite (up_kid p l1 q (d :: l2) Hp E)).
        rewrite (IHl (l1 ++ [q]) d) by (by rewrite <- app_assoc). destruct (items h blocks k y); [|done]. cbn [mbind option_bind]. by rewrite <- app_assoc. }
    cbn [preorder length Nat.add items]. unfold Item_Next. destruct (kids p) as [|q l] eqn:Ek.
    + fold (up p). rewrite Hy. cbn. by destruct (items h blocks k y).
    + cbn [mbind option_bind]. rewrite (Hkids l [] q eq_refl). by destruct (items h blocks k y).
Qed.

(** What the recursive walk visits. *)

Definition deep (n : nat) (p : ptr) : Prop := forall b, h !! p = Some b -> maxHeight - nHeight b <= Z.of_nat n.

Lemma deep_kid n p q : inside p -> deep (S n) p -> q ∈ kids p -> inside q /\ deep n q.
Proof.
  intros Hp Hd Hq. destruct (inside_kid p q Hp Hq) as (Hqi & _ & b & bp & Hb & _ & Hbp & Eh). split; [done|]. intros b' Hb'. specialize (Hd bp Hbp). simplify_eq. lia.
Qed.

Lemma deep_leaf p q : inside p -> deep O p -> q ∉ kids p.
Proof.
  intros Hp Hd Hq. destruct (inside_kid p q Hp Hq) as (Hqi & Hne & b & bp & Hb & _ & Hbp & Eh). specialize (Hd bp Hbp).
  destruct (inside_block q Hqi) as (b' & Hb' & _ & Hh). specialize (Hh Hne). simplify_eq. lia.
Qed.

Lemma elem_of_flat_map {A B} (f : A -> list B) l y : y ∈ flat_map f l <-> exists x, x ∈ l /\ y ∈ f x.
Proof. setoid_rewrite list_elem_of_In. rewrite in_flat_map. done. Qed.

Lemma inside_above p y : inside p -> inside y -> ancestor h p y -> y = p \/ exists q, q ∈ kids p /\ ancestor h q y.
Proof.
  intros Hp Hy Ha. destruct (inside_block y Hy) as (b & Hb & _). remember (Z.to_nat (nHeight b)) as n eqn:En. revert y b Hy Ha Hb En. induction n as [n IH] using lt_wf_ind. intros y b Hy Ha Hb En.
  destruct (ancestor_inv _ y b p Ht Hb Ha) as [->|(q & Eq & Hq)]; [by left|]. right. destruct (decide (y = root)) as [->|Hne].
  { exfalso. destruct (inside_block p Hp) as (bp & Hbp & Hle & _). destruct (Ht root b Hb) as [_ H1]. rewrite Eq in H1. destruct H1 as (bq & Hbq & Eh & _).
    destruct (ancestor_height h q bq p Ht Hbq Hq) as (bp' & Hbp' & Hle' & _). simplify_eq. lia. }
  destruct (inside_parent y Hy Hne) as (q' & Hq' & Hk). destruct (inside_kid q' y Hq' Hk) as (_ & _ & b' & bq & Hb' & Eb' & Hbq & Eh). simplify_eq.
  pose proof (proj1 (Ht q bq Hbq)). destruct (IH (Z.to_nat (nHeight bq)) ltac:(lia) q bq Hq' Hq Hbq eq_refl) as [->|(c & Hc & Hca)].
  - exists y. split; [done | apply ancestor_refl].
  - exists c. split; [done|]. apply (ancestor_trans _ c q y Hca). by apply (ancestor_step _ y b).
Qed.

Lemma preorder_elem n : forall p y, inside p -> deep n p -> y ∈ preorder h blocks n p <-> inside y /\ ancestor h p y.
Proof.
  induction n as [|n IH]; intros p y Hp Hd; cbn [preorder].
  - rewrite list_elem_of_singleton. split; [intros ->; split; [done | apply ancestor_refl]|]. intros [Hy Ha].
    destruct (inside_above p y Hp Hy Ha) as [|(q & Hq & _)]; [done|]. by apply (deep_leaf p q) in Hq.
  - rewrite elem_of_cons, elem_of_flat_map. split.
    + intros [->|(q & Hq & Hy)]; [split; [done | apply ancestor_refl]|]. destruct (deep_kid n p q Hp Hd Hq) as [Hqi Hqd]. apply (IH q y Hqi Hqd) in Hy as [Hy Ha].
      split; [done|]. apply kids_elem in Hq as (_ & b & Hb & Eb). apply (ancestor_trans _ p q y); [by apply (ancestor_step _ q b) | done].
    + intros [Hy Ha]. destruct (inside_above p y Hp Hy Ha) as [|(q & Hq & Hqa)]; [by left|]. right. exists q. split; [done|].
      destruct (deep_kid n p q Hp Hd Hq) as [Hqi Hqd]. by apply (IH q y Hqi Hqd).
Qed.

Lemma preorder_NoDup n : forall p, inside p -> deep n p -> NoDup (preorder h blocks n p).
Proof.
  induction n as [|n IH]; intros p Hp Hd; cbn [preorder]; [apply NoDup_singleton|]. constructor.
  - rewrite elem_of_flat_map. intros (q & Hq & Hy). destruct (deep_kid n p q Hp Hd Hq) as [Hqi Hqd]. apply (preorder_elem n q p Hqi Hqd) in Hy as [_ Ha].
    destruct (inside_kid p q Hp Hq) as (_ & _ & b & bp & Hb & _ & Hbp & Eh). destruct (ancestor_height h p bp q Ht Hbp Ha) as (b' & Hb' & Hle & _). simplify_eq. lia.
  - assert (forall l, NoDup l -> (forall q, q ∈ l -> q ∈ kids p) -> NoDup (flat_map (preorder h blocks n) l)) as Hl; [|apply Hl; [apply kids_NoDup | done]].
    induction l as [|c l IHl]; intros Hnd Hsub; cbn [flat_map]; [apply NoDup_nil_2|]. apply list.NoDup_cons in Hnd as [Hc Hnd].
    destruct (deep_kid n p c Hp Hd (Hsub c (list_elem_of_here _ _))) as [Hci Hcd]. apply list.NoDup_app. split_and!; [by apply IH | | apply IHl; [done | intros q Hq; apply Hsub; by right]].
    intros y Hy1 (d & Hdl & Hy2)%elem_of_flat_map. destruct (deep_kid n p d Hp Hd (Hsub d (list_elem_of_further _ _ _ Hdl))) as [Hdi Hdd].
    apply (preorder_elem n c y Hci Hcd) in Hy1 as [Hyi Ha1]. apply (preorder_elem n d y Hdi Hdd) in Hy2 as [_ Ha2]. destruct (inside_block y Hyi) as (b & Hb & _).
    destruct (inside_kid p c Hp (Hsub c (list_elem_of_here _ _))) as (_ & _ & bc & bp & Hbc & _ & Hbp & E1).
    destruct (inside_kid p d Hp (Hsub d (list_elem_of_further _ _ _ Hdl))) as (_ & _ & bd & bp' & Hbd & _ & Hbp' & E2). simplify_eq.
    apply Hc. replace c with d; [done|]. apply (ancestor_level h c bc d bd); [done..| | done | lia].
    apply (ancestor_linear h y b d bd c bc); [done..|lia].
Qed.

(** Every item comes after its parent. *)

Fixpoint parents_first (seen l : list ptr) : Prop :=
  match l with
  | [] => True
  | y :: l => (exists b q, h !! y = Some b /\ pprev b = Some q /\ q ∈ seen) /\ parents_first (y :: seen) l
  end.

Lemma parents_first_mono l : forall seen seen', (forall x, x ∈ seen -> x ∈ seen') -> parents_first seen l -> parents_first seen' l.
Proof.
  induction l as [|y l IH]; intros seen seen' Hsub; [done|]. intros [(b & q & Hb & Eb & Hq) Hl]. split; [exists b, q; auto|].
  apply (IH (y :: seen)); [|done]. intros x [->|Hx]%elem_of_cons; [by left | right; auto].
Qed.

Lemma parents_first_app l1 : forall seen l2, parents_first seen l1 -> parents_first seen l2 -> parents_first seen (l1 ++ l2).
Proof.
  induction l1 as [|y l1 IH]; intros seen l2 H1 H2; [done|]. destruct H1 as [Hy Hl]. split; [done|]. apply IH; [done|].
  apply (parents_first_mono l2 seen); [|done]. intros x Hx. by right.
Qed.

Lemma preorder_parents_first n : forall p, inside p -> deep n p -> parents_first [p] (tail (preorder h blocks n p)).
Proof.
  induction n as [|n IH]; intros p Hp Hd; cbn [preorder tail]; [done|].
  assert (forall l, (forall q, q ∈ l -> q ∈ kids p) -> parents_first [p] (flat_map (preorder h blocks n) l)) as Hl; [|by apply Hl].
  induction l as [|c l IHl]; intros Hsub; [done|]. cbn [flat_map]. apply parents_first_app; [|apply IHl; intros q Hq; apply Hsub; by right].
  assert (c ∈ kids p) as Hc by (apply Hsub; by left). destruct (deep_kid n p c Hp Hd Hc) as [Hci Hcd]. pose proof (IH c Hci Hcd) as Hpf.
  assert (preorder h blocks n c = c :: tail (preorder h blocks n c)) as -> by (by destruct n). split.
  - apply kids_elem in Hc as (_ & b & Hb & Eb). exists b, p. split_and!; [done..|]. by left.
  - apply (parents_first_mono _ [c]); [|done]. intros x ->%list_elem_of_singleton. by left.
Qed.

Lemma items_spec : exists l, items_after_root h root maxHeight = Some l /\ l = tail (preorder h blocks (Z.to_nat (maxHeight - nHeight r)) root) /\
  NoDup l /\ parents_first [root] l /\ forall y b, h !! y = Some b -> y ∈ l <-> ancestor h root y /\ y <> root /\ nHeight b <= maxHeight.
Proof.
  set (n := Z.to_nat (maxHeight - nHeight r)). assert (deep n root) as Hd by (intros b Hb; simplify_eq; lia). pose proof inside_root as Hi.
  pose proof (preorder_NoDup n root Hi Hd) as Hnd. pose proof (preorder_elem n root) as Hel. set (P := preorder h blocks n root) in *.
  assert (P = root :: tail P) as EP by (unfold P; by destruct n). exists (tail P).
  assert ((length P <= length blocks)%nat) as Hlen by (apply submseteq_length, NoDup_submseteq; [done|]; intros y Hy; by apply (Hel y Hi Hd) in Hy as [[? _] _]).
  assert (items h blocks (S (length blocks)) (Some root) = Some P) as E.
  { replace (S (length blocks)) with (length P + (S (length blocks) - length P))%nat by lia. unfold P. rewrite (items_subtree n root None _ Hi Hd up_root). fold P.
    destruct (S (length blocks) - length P)%nat; cbn; by rewrite app_nil_r. }
  split_and!; [| done | rewrite EP in Hnd; by apply list.NoDup_cons in Hnd as [_ ?] | by apply preorder_parents_first|].
  - unfold items_after_root. cbn [items] in E. destruct (Item_Next h blocks root) as [next|]; [|done]. cbn [mbind option_bind] in E |- *.
    destruct (items h blocks (length blocks) next) as [l|]; [|done]. cbn [mbind option_bind] in E. injection E as E. by rewrite <- E.
  - intros y b Hb. split.
    + intros Hy. assert (y ∈ P) as [Hin Ha]%(Hel y Hi Hd) by (rewrite EP; by right). assert (y <> root) as Hne.
      { intros ->. rewrite EP in Hnd. by apply list.NoDup_cons in Hnd as [? _]. }
      split_and!; [done..|]. destruct (inside_block y Hin) as (b' & Hb' & _ & Hh). specialize (Hh Hne). simplify_eq. lia.
    + intros (Ha & Hne & Hh). assert (y ∈ P) as Hy; [|rewrite EP in Hy; by apply elem_of_cons in Hy as [|]]. apply (Hel y Hi Hd). split; [|done]. split; [|done].
      apply blocks_elem. right. exists b. split; [done|]. split; [|done]. destruct (decide (nHeight b <= nHeight r)); [|lia]. exfalso. apply Hne. symmetry. by apply (ancestor_level h y b root r).
Qed.

End walk.

(** ** Passing a value down the tree *)

Lemma parents_first_same h h' l : same_tree h h' -> forall seen, parents_first h seen l -> parents_first h' seen l.
Proof.
  intros E. induction l as [|y l IH]; intros seen; [done|]. intros [(b & q & Hb & Eb & Hq) Hl]. split; [|by apply IH].
  destruct (same_tree_lookup h h' y b E Hb) as (b' & Hb' & Ep). injection Ep as Ep _ _ _. exists b', q. split_and!; [done | congruence | done].
Qed.

Lemma same_tree_insert h p b b' : h !! p = Some b -> place b' = place b -> same_tree h (<[p := b']> h).
Proof.
  intros Hp E. apply map_eq. intros q. rewrite !lookup_fmap. destruct (decide (p = q)) as [<-|Hne]; [by rewrite lookup_insert_eq, Hp; cbn; rewrite E | by rewrite lookup_insert_ne].
Qed.

Section each.

Context (f : ptr -> heap -> option heap) (g : CBlockIndex -> CBlockIndex -> CBlockIndex).
Context (Hf : forall p h b q bq, h !! p = Some b -> pprev b = Some q -> h !! q = Some bq -> f p h = Some (<[p := g bq b]> h)).
Context (Hg : forall bq b, place (g bq b) = place b).

Lemma each_spec l : forall seen h, NoDup l -> parents_first h seen l -> (forall x, x ∈ seen -> x ∉ l) -> (forall x, x ∈ seen -> is_Some (h !! x)) ->
  exists h', each f l h = Some h' /\ same_tree h h' /\ (forall y, y ∉ l -> h' !! y = h !! y) /\
    forall y b q, y ∈ l -> h !! y = Some b -> pprev b = Some q -> exists bq, h' !! q = Some bq /\ h' !! y = Some (g bq b).
Proof.
  induction l as [|y l IH]; intros seen h Hnd Hpf Hdis Hsome; [exists h; split_and!; [done | done | done | by intros y b q []%elem_of_nil]|].
  apply list.NoDup_cons in Hnd as [Hy Hnd]. destruct Hpf as [(b & q & Hb & Eb & Hq) Hpf]. destruct (Hsome q Hq) as [bq Hbq]. cbn [each].
  rewrite (Hf y h b q bq Hb Eb Hbq). cbn [mbind option_bind]. pose proof (same_tree_insert h y b (g bq b) Hb (Hg bq b)) as Es.
  destruct (IH (y :: seen) (<[y := g bq b]> h) Hnd) as (h' & E & Es' & Hout & Hin).
  - by apply (parents_first_same h).
  - intros x [->|Hx]%elem_of_cons; [done|]. intros Hxl. apply (Hdis x Hx). by right.
  - intros x Hx. destruct (decide (y = x)) as [->|Hne]; [rewrite lookup_insert_eq; by eexists|]. rewrite lookup_insert_ne by done.
    apply elem_of_cons in Hx as [->|Hx]; [done | by apply Hsome].
  - exists h'. split_and!; [done | by transitivity (<[y := g bq b]> h) | |].
    + intros x Hx. rewrite Hout by (intros Hxl; apply Hx; by right). apply lookup_insert_ne. intros ->. apply Hx. by left.
    + intros x c p [->|Hx]%elem_of_cons Hc Ec.
      * simplify_eq. exists bq. assert (q ∉ y :: l) as Hp by (by apply Hdis). rewrite !Hout by (done || intros Hpl; apply Hp; by right). rewrite lookup_insert_eq.
        rewrite lookup_insert_ne by (intros ->; apply Hp; by left). done.
      * apply (Hin x c p Hx); [|done]. rewrite lookup_insert_ne by (by intros ->). done.
Qed.

End each.

(** ** What soft rejection does *)

Definition rejected_for (n : Z) (b : CBlockIndex) : CBlockIndex :=
  with_status (with_soft b n (mSoftConsensusFreezeForNBlocks b) (mSoftConsensusFreezeForNBlocksCumulative b)) (withDataForSoftRejection (nStatus b) (0 <=? n)).

(** The counters are those passed down by the parent, unless the parent passes nothing down. *)

Record soft_ok (h : heap) : Prop := {
  sr_range p b : h !! p = Some b -> -1 <= nSoftRejected b;
  sr_genesis p b : h !! p = Some b -> pprev b = None -> nSoftRejected b = -1;
  sr_parent p b q bq : h !! p = Some b -> pprev b = Some q -> h !! q = Some bq -> 0 < nSoftRejected bq -> nSoftRejected b = nSoftRejected bq - 1 }.

Lemma from_parent_spec p h b q bq : h !! p = Some b -> pprev b = Some q -> h !! q = Some bq ->
  SetSoftRejectedFromParent p h = Some (<[p := rejected_for (Z.max (-1) (nSoftRejected bq - 1)) b]> h).
Proof.
  intros Hb Eb Hq. unfold SetSoftRejectedFromParent. rewrite Hb. cbn [mbind option_bind]. rewrite Eb. cbn [mbind option_bind]. rewrite Hq. cbn [mbind option_bind].
  unfold SetSoftRejectedFromParentBaseNL, rejected_for. destruct (Z.ltb_spec 0 (nSoftRejected bq)).
  - rewrite Z.max_r by lia. by rewrite (proj2 (Z.leb_le _ _)) by lia.
  - destruct (decide (nSoftRejected bq = 0)) as [->|]; [done|]. rewrite Z.max_l by lia. done.
Qed.

Section root.

Context (h : heap) (Ht : tree_ok h) (root : ptr) (r : CBlockIndex) (Hr : h !! root = Some r).
Context (q0 : ptr) (b0 : CBlockIndex) (Hq0 : pprev r = Some q0) (Hb0 : h !! q0 = Some b0) (Hfree : nSoftRejected b0 <= 0).

Lemma touched_iff maxHeight l y b : items_after_root h root maxHeight = Some l -> h !! y = Some b ->
  y ∈ root :: l <-> ancestor h root y /\ (y = root \/ nHeight b <= maxHeight).
Proof.
  intros El Hb. destruct (items_spec h Ht root r Hr maxHeight) as (l' & El' & _ & _ & _ & Hin). rewrite El in El'. injection El' as <-. rewrite elem_of_cons, (Hin y b Hb). split.
  - intros [->|(Ha & _ & Hh)]; [split; [apply ancestor_refl | by left] | split; [done | by right]].
  - intros [Ha [->|Hh]]; [by left|]. destruct (decide (y = root)); [by left | by right].
Qed.

Lemma set_root_spec n maxHeight l : -1 <= n -> items_after_root h root maxHeight = Some l ->
  exists h', SetRootSoftRejectedForNL root l n h = Some h' /\ same_tree h h' /\
    forall y b, h !! y = Some b ->
      (y ∈ root :: l -> h' !! y = Some (rejected_for (Z.max (-1) (n - (nHeight b - nHeight r))) b)) /\ (y ∉ root :: l -> h' !! y = Some b).
Proof.
  intros Hn El. destruct (items_spec h Ht root r Hr maxHeight) as (l' & El' & _ & Hnd & Hpf & Hin). rewrite El in El'. injection El' as <-.
  assert (root ∉ l) as Hroot by (intros H; apply (Hin root r Hr) in H as (_ & ? & _); done).
  unfold SetRootSoftRejectedForNL, SetSoftRejectedFor, ShouldBeConsideredSoftRejectedBecauseOfParent. rewrite Hr. cbn [mbind option_bind]. rewrite Hq0. cbn [mbind option_bind]. rewrite Hb0. cbn [mbind option_bind].
  rewrite (proj2 (Z.ltb_ge n (-1))), (proj2 (Z.ltb_ge 0 _)) by lia. cbn [orb mbind option_bind]. fold (rejected_for n r).
  change (<[root := _]> h) with (<[root := rejected_for n r]> h). pose proof (same_tree_insert h root r (rejected_for n r) Hr eq_refl) as Es.
  destruct (each_spec SetSoftRejectedFromParent (fun bq b => rejected_for (Z.max (-1) (nSoftRejected bq - 1)) b) from_parent_spec ltac:(done) l [root] (<[root := rejected_for n r]> h) Hnd)
    as (h' & E & Es' & Hout & Hkid).
  - by apply (parents_first_same h).
  - by intros x ->%list_elem_of_singleton.
  - intros x ->%list_elem_of_singleton. rewrite lookup_insert_eq. by eexists.
  - exists h'. split; [done|]. split; [by transitivity (<[root := rejected_for n r]> h)|]. intros y b Hb. split.
    + remember (Z.to_nat (nHeight b)) as k eqn:Ek. revert y b Hb Ek. induction k as [k IH] using lt_wf_ind. intros y b Hb Ek Hy. destruct (decide (y = root)) as [->|Hne].
      { simplify_eq. rewrite Hout, lookup_insert_eq by done. do 2 f_equal. lia. }
      apply elem_of_cons in Hy as [|Hyl]; [done|]. destruct (proj1 (Hin y b Hb) Hyl) as (Ha & _ & Hy). destruct (ancestor_inv _ y b root Ht Hb Ha) as [->|(q & Eq & Haq)]; [done|].
      destruct (Ht y b Hb) as [Hpos H1]. rewrite Eq in H1. destruct H1 as (bq & Hbq & Eh & _). pose proof (proj1 (Ht q bq Hbq)).
      destruct (Hkid y b q Hyl) as (bq' & Hq' & Hy'); [by rewrite lookup_insert_ne | done|]. rewrite Hy'.
      rewrite (IH (Z.to_nat (nHeight bq)) ltac:(lia) q bq Hbq eq_refl) in Hq'; [injection Hq' as <-; cbn; do 2 f_equal; lia|].
      apply elem_of_cons. destruct (decide (q = root)); [by left | right]. apply (Hin q bq Hbq). split_and!; [done | done | lia].
    + intros Hn'. rewrite Hout by (intros H; apply Hn'; by right). rewrite lookup_insert_ne; [done|]. intros <-. apply Hn'. by left.
Qed.

Lemma set_root_ok n maxHeight l h' : soft_ok h -> -1 <= n <= maxHeight - nHeight r -> items_after_root h root maxHeight = Some l ->
  SetRootSoftRejectedForNL root l n h = Some h' -> soft_ok h'.
Proof.
  intros [Hrange Hgen Hpar] [Hn Hmax] El E. destruct (set_root_spec n maxHeight l Hn El) as (h1 & E1 & Es & Hval). rewrite E in E1. injection E1 as <-.
  assert (forall y c, h' !! y = Some c -> exists b, h !! y = Some b /\ pprev c = pprev b) as Hget.
  { intros y c Hc. symmetry in Es. destruct (same_tree_lookup h' h y c Es Hc) as (b & Hb & Ep). injection Ep as Ep _ _ _. by exists b. }
  split.
  - intros y c Hc. destruct (Hget y c Hc) as (b & Hb & _). destruct (Hval y b Hb) as [H1 H2]. destruct (decide (y ∈ root :: l)) as [Hy|Hy].
    + rewrite (H1 Hy) in Hc. injection Hc as <-. cbn. lia.
    + rewrite (H2 Hy) in Hc. injection Hc as <-. by apply (Hrange y).
  - intros y c Hc Ec. destruct (Hget y c Hc) as (b & Hb & Ep). rewrite Ep in Ec. destruct (Hval y b Hb) as [_ H2]. rewrite H2 in Hc; [injection Hc as <-; by apply (Hgen y)|].
    intros Hy. apply (touched_iff maxHeight l y b El Hb) in Hy as [Ha _]. destruct (ancestor_inv _ y b root Ht Hb Ha) as [->|(q & Eq & _)]; congruence.
  - intros y c q cq Hc Ec Hcq Hpos. destruct (Hget y c Hc) as (b & Hb & Ep). destruct (Hget q cq Hcq) as (bq & Hbq & _). rewrite Ep in Ec.
    destruct (Ht y b Hb) as [_ H0]. rewrite Ec in H0. destruct H0 as (bq' & Hbq' & Eh & _). rewrite Hbq in Hbq'. injection Hbq' as <-.
    destruct (Hval y b Hb) as [H1 H2]. destruct (Hval q bq Hbq) as [H3 H4]. destruct (decide (q ∈ root :: l)) as [Hq|Hq].
    + rewrite (H3 Hq) in Hcq. injection Hcq as <-. cbn in Hpos. destruct (decide (y ∈ root :: l)) as [Hy|Hy]; [rewrite (H1 Hy) in Hc; injection Hc as <-; cbn; lia|].
      exfalso. apply Hy, (touched_iff maxHeight l y b El Hb). apply (touched_iff maxHeight l q bq El Hbq) in Hq as [Ha _].
      split; [apply (ancestor_trans _ root q y Ha); by apply (ancestor_step _ y b) | right; lia].
    + rewrite (H4 Hq) in Hcq. injection Hcq as <-. destruct (decide (y ∈ root :: l)) as [Hy|Hy]; [|rewrite (H2 Hy) in Hc; injection Hc as <-; by apply (Hpar y b q)].
      exfalso. apply (touched_iff maxHeight l y b El Hb) in Hy as [Ha Hy]. destruct (ancestor_inv _ y b root Ht Hb Ha) as [->|(q' & Eq' & Ha')].
      * rewrite Hr in Hb. injection Hb as <-. replace q with q0 in Hbq by congruence. rewrite Hb0 in Hbq. injection Hbq as <-. lia.
      * assert (q' = q) as -> by congruence. apply Hq, (touched_iff maxHeight l q bq El Hbq). split; [done|]. destruct Hy as [->|Hy]; [|right; lia].
        rewrite Hr in Hb. injection Hb as <-. destruct (ancestor_height h q bq root Ht Hbq Ha') as (r' & Hr' & Hle & _). simplify_eq. lia.
Qed.

End root.

(** Blocks soft rejected in their own right, not because of their parent. *)

Definition own_rejection (h : heap) (b : CBlockIndex) : Prop := 0 <= nSoftRejected b /\ exists q bq, pprev b = Some q /\ h !! q = Some bq /\ nSoftRejected bq <= 0.

Lemma because_spec h p b : tree_ok h -> h !! p = Some b -> nHeight b <> 0 -> exists because, ShouldBeConsideredSoftRejectedBecauseOfParent h b = Some because /\
  (0 <= nSoftRejected b -> because = false <-> own_rejection h b) /\ (because = false -> exists q bq, pprev b = Some q /\ h !! q = Some bq /\ nSoftRejected bq <= 0) /\
  (because = true -> exists q bq, pprev b = Some q /\ h !! q = Some bq /\ 0 < nSoftRejected bq).
Proof.
  intros Ht Hp Hh. destruct (Ht p b Hp) as [Hpos H1]. unfold ShouldBeConsideredSoftRejectedBecauseOfParent. destruct (pprev b) as [q|] eqn:Eq; [|lia].
  destruct H1 as (bq & Hq & _). cbn [mbind option_bind]. rewrite Hq. cbn [mbind option_bind]. eexists. split; [done|]. destruct (Z.ltb_spec 0 (nSoftRejected bq)) as [Hlt|Hge]; split_and!.
  - intros _. split; [done|]. intros (_ & q' & bq' & Eq' & Hq' & Hle). simplify_eq. lia.
  - done.
  - intros _. by exists q, bq.
  - intros Hb. split; [|done]. intros _. split; [done|]. by exists q, bq.
  - intros _. by exists q, bq.
  - done.
Qed.

Lemma explicit_rejection_spec h l : tree_ok h -> (forall y, y ∈ l -> exists b, h !! y = Some b /\ nHeight b <> 0) ->
  exists e, explicit_rejection h l = Some e /\ (e = false <-> forall y b, y ∈ l -> h !! y = Some b -> ~ own_rejection h b).
Proof.
  intros Ht. induction l as [|y l IH]; intros Hl; cbn [explicit_rejection]; [exists false; split; [done|]; split; [intros _ y b []%elem_of_nil | done]|].
  destruct (Hl y) as (b & Hb & Hh); [by left|]. destruct (IH ltac:(intros z Hz; apply Hl; by right)) as (e & E & He). rewrite Hb. cbn [mbind option_bind].
  destruct (because_spec h y b Ht Hb Hh) as (because & -> & Hbec & _). cbn [mbind option_bind]. unfold IsSoftRejected. destruct (Z.leb_spec 0 (nSoftRejected b)) as [H0|H0].
  - specialize (Hbec H0). destruct because; cbn [andb negb].
    + exists e. split; [done|]. rewrite He. split; intros H z c; [intros [->|Hz]%elem_of_cons Hc; [|by apply (H z)] | intros Hz; apply H; by right].
      rewrite Hb in Hc. injection Hc as <-. intros Hown%Hbec. done.
    + exists true. split; [done|]. split; [done|]. intros H. exfalso. apply (H y b); [by left | done | by apply Hbec].
  - cbn [andb]. exists e. split; [done|]. rewrite He. split; intros H z c; [intros [->|Hz]%elem_of_cons Hc; [|by apply (H z)] | intros Hz; apply H; by right].
    rewrite Hb in Hc. injection Hc as <-. intros [? _]. lia.
Qed.

(** Changing the counters leaves the tree alone. *)

Lemma descendant_height h p b l maxHeight y : tree_ok h -> h !! p = Some b -> items_after_root h p maxHeight = Some l -> y ∈ l -> exists c, h !! y = Some c /\ nHeight c <> 0.
Proof.
  intros Ht Hp El Hy. destruct (items_spec h Ht p b Hp maxHeight) as (l' & El' & _ & _ & Hpf & Hin). rewrite El in El'. injection El' as <-.
  assert (forall seen, parents_first h seen l -> exists c q, h !! y = Some c /\ pprev c = Some q) as Hc.
  { clear -Hy. induction l as [|z l IH]; intros seen; [by apply elem_of_nil in Hy|]. intros [(c & q & Hc & Eq & _) Hpf]. apply elem_of_cons in Hy as [->|Hy]; [by exists c, q|]. by apply (IH Hy (z :: seen)). }
  destruct (Hc [p] Hpf) as (c & q & Hyc & Eq). exists c. split; [done|]. destruct (Ht y c Hyc) as [_ H1]. rewrite Eq in H1. destruct H1 as (bq & Hq & Eh & _).
  pose proof (proj1 (Ht q bq Hq)). lia.
Qed.

(** ** What a soft consensus freeze does *)

Notation frozen_for := mSoftConsensusFreezeForNBlocks.
Notation frozen_in_all := mSoftConsensusFreezeForNBlocksCumulative.

(** The cumulative counter is the maximum of the own one and what the parent passes down. *)

Record freeze_ok (h : heap) : Prop := {
  fz_range p b : h !! p = Some b -> -1 <= frozen_for b;
  fz_genesis p b : h !! p = Some b -> pprev b = None -> frozen_in_all b = frozen_for b;
  fz_parent p b q bq : h !! p = Some b -> pprev b = Some q -> h !! q = Some bq -> frozen_in_all b = UpdateSoftConsensusFreezeFromParentNL bq (frozen_for b) }.

Lemma frozen_in_all_range h p b : tree_ok h -> freeze_ok h -> h !! p = Some b -> -1 <= frozen_in_all b.
Proof.
  intros Ht Hf Hp. pose proof (fz_range _ Hf p b Hp). destruct (pprev b) as [q|] eqn:Eq; [|by rewrite (fz_genesis _ Hf p b Hp Eq)].
  destruct (Ht p b Hp) as [_ H1]. rewrite Eq in H1. destruct H1 as (bq & Hq & _). rewrite (fz_parent _ Hf p b q bq Hp Eq Hq). unfold UpdateSoftConsensusFreezeFromParentNL. destruct (negb _); lia.
Qed.

Definition update_freeze (bq b : CBlockIndex) : CBlockIndex := with_soft b (nSoftRejected b) (frozen_for b) (UpdateSoftConsensusFreezeFromParentNL bq (frozen_for b)).

Lemma update_freeze_spec p h b q bq : h !! p = Some b -> pprev b = Some q -> h !! q = Some bq -> UpdateSoftConsensusFreezeFromParent p h = Some (<[p := update_freeze bq b]> h).
Proof. intros Hb Eb Hq. unfold UpdateSoftConsensusFreezeFromParent. rewrite Hb. cbn [mbind option_bind]. rewrite Eb. cbn [mbind option_bind]. by rewrite Hq. Qed.

Definition freeze_root (d : Z) (b : CBlockIndex) : CBlockIndex :=
  let b' := with_soft b (nSoftRejected b) d (Z.max (frozen_in_all b) d) in with_status b' (withDataForSoftConsensusFreeze (nStatus b') true).

Section freeze.

Context (h : heap) (Ht : tree_ok h) (Hf : freeze_ok h) (p : ptr) (b : CBlockIndex) (Hp : h !! p = Some b) (d : Z) (Hd : 0 <= d).
Context (Hown : frozen_for b = -1) (Hmax : nHeight b < 2 ^ 31 - 1 - d).

Lemma same_tree_items h' root maxHeight r : h !! root = Some r -> same_tree h h' -> exists l, items_after_root h' root maxHeight = Some l /\ NoDup l /\ parents_first h' [root] l /\
  forall y c, h !! y = Some c -> y ∈ l <-> ancestor h root y /\ y <> root /\ nHeight c <= maxHeight.
Proof.
  intros Hr E. destruct (same_tree_lookup h h' root r E Hr) as (r' & Hr' & _). assert (tree_ok h') as Ht' by (by rewrite <- E).
  destruct (items_spec h' Ht' root r' Hr' maxHeight) as (l & El & _ & Hnd & Hpf & Hin). exists l. split_and!; [done..|].
  intros y c Hc. destruct (same_tree_lookup h h' y c E Hc) as (c' & Hc' & Ep). injection Ep as _ _ Eh _. rewrite (Hin y c' Hc'), Eh. by rewrite E.
Qed.

(** The index [h'] after the freeze, where [l] is the list of the blocks updated from their parents. *)

Record freeze_result (h' : heap) (l : list ptr) : Prop := {
  fr_tree : same_tree h h';
  fr_range y c : h !! y = Some c -> y ∈ l <-> ancestor h p y /\ y <> p /\ nHeight c <= nHeight b + d;
  fr_root : h' !! p = Some (freeze_root d b);
  fr_out y : y <> p -> y ∉ l -> h' !! y = h !! y;
  fr_kid y c q : y ∈ l -> h !! y = Some c -> pprev c = Some q -> exists cq, h' !! q = Some cq /\ h' !! y = Some (update_freeze cq c) }.

Lemma freeze_spec : exists h' l, softConsensusFreeze p d h = Some h' /\ freeze_result h' l.
Proof.
  unfold softConsensusFreeze, SetSoftConsensusFreezeFor. rewrite (proj2 (Z.ltb_ge d 0)) by lia. rewrite Hp. cbn [mbind option_bind]. rewrite Hown.
  change (negb (-1 =? -1)) with false. cbn [orb]. fold (freeze_root d b). change (<[p := _]> h) with (<[p := freeze_root d b]> h).
  pose proof (same_tree_insert h p b (freeze_root d b) Hp eq_refl) as Es. cbn [mbind option_bind]. rewrite lookup_insert_eq. cbn [mbind option_bind].
  change (nHeight (freeze_root d b)) with (nHeight b). rewrite (proj2 (Z.ltb_lt (nHeight b) _)) by lia.
  destruct (same_tree_items (<[p := freeze_root d b]> h) p (nHeight b + d) b Hp Es) as (l & -> & Hnd & Hpf & Hin). cbn [mbind option_bind].
  assert (p ∉ l) as Hpl by (intros H; apply (Hin p b Hp) in H as (_ & ? & _); done).
  destruct (each_spec UpdateSoftConsensusFreezeFromParent update_freeze update_freeze_spec ltac:(done) l [p] (<[p := freeze_root d b]> h) Hnd Hpf) as (h' & E & Es' & Hout & Hkid).
  - by intros x ->%list_elem_of_singleton.
  - intros x ->%list_elem_of_singleton. rewrite lookup_insert_eq. by eexists.
  - exists h', l. split; [done|]. split; [by transitivity (<[p := freeze_root d b]> h) | done | by rewrite Hout, lookup_insert_eq | |].
    + intros y Hne Hy. by rewrite Hout, lookup_insert_ne by done.
    + intros y c q Hy Hc Eq. apply (Hkid y c q Hy); [|done]. rewrite lookup_insert_ne; [done|]. by intros ->.
Qed.

(** The block and its descendants in range have at least what is left of the duration. *)

Lemma freeze_values h' l : freeze_result h' l -> forall y c, h !! y = Some c -> y ∈ p :: l ->
  exists c', h' !! y = Some c' /\ frozen_in_all c' = Z.max (frozen_in_all c) (d - (nHeight c - nHeight b)).
Proof.
  intros [Es Hin Hroot Hout Hkid] y c. remember (Z.to_nat (nHeight c)) as k eqn:Ek. revert y c Ek. induction k as [k IH] using lt_wf_ind. intros y c Ek Hc Hy.
  destruct (decide (y = p)) as [->|Hne]; [simplify_eq; eexists; split; [done|]; cbn; lia|]. apply elem_of_cons in Hy as [|Hy]; [done|].
  destruct (proj1 (Hin y c Hc) Hy) as (Ha & _ & Hh). destruct (ancestor_inv _ y c p Ht Hc Ha) as [->|(q & Eq & Haq)]; [done|].
  destruct (Ht y c Hc) as [Hpos H1]. rewrite Eq in H1. destruct H1 as (bq & Hbq & Eh & _). pose proof (proj1 (Ht q bq Hbq)).
  destruct (Hkid y c q Hy Hc Eq) as (cq & Hcq & Hyc). destruct (IH (Z.to_nat (nHeight bq)) ltac:(lia) q bq eq_refl Hbq) as (cq' & Hcq' & Ecq).
  { apply elem_of_cons. destruct (decide (q = p)); [by left | right]. apply (Hin q bq Hbq). split_and!; [done | done | lia]. }
  rewrite Hcq in Hcq'. injection Hcq' as <-. eexists. split; [done|]. cbn [update_freeze with_soft mSoftConsensusFreezeForNBlocksCumulative].
  rewrite (fz_parent _ Hf y c q bq Hc Eq Hbq). pose proof (frozen_in_all_range h q bq Ht Hf Hbq). pose proof (fz_range _ Hf y c Hc).
  destruct (ancestor_height h q bq p Ht Hbq Haq) as (b' & Hb' & Hle & _). simplify_eq. unfold UpdateSoftConsensusFreezeFromParentNL.
  destruct (Z.eqb_spec (frozen_in_all cq) (-1)), (Z.eqb_spec (frozen_in_all bq) (-1)); cbn [negb]; lia.
Qed.

Lemma freeze_touched h' l y c : freeze_result h' l -> h !! y = Some c -> y ∈ p :: l <-> ancestor h p y /\ nHeight c <= nHeight b + d.
Proof.
  intros R Hc. rewrite elem_of_cons, (fr_range _ _ R y c Hc). split; [intros [->|(? & _ & ?)]; [simplify_eq; split; [apply ancestor_refl | lia] | done]|].
  intros [Ha Hh]. destruct (decide (y = p)); [by left | by right].
Qed.

Lemma freeze_has_parent h' l y c : freeze_result h' l -> h !! y = Some c -> y ∈ l -> exists q, pprev c = Some q.
Proof. intros R Hc (Ha & Hne & _)%(fr_range _ _ R y c Hc). destruct (ancestor_inv _ y c p Ht Hc Ha) as [->|(q & Eq & _)]; [done | by exists q]. Qed.

(** A block above the updated ones is passed down what it was passed down before. *)

Lemma freeze_boundary h' l y c q cq cq' : freeze_result h' l -> h !! y = Some c -> pprev c = Some q -> h !! q = Some cq -> h' !! q = Some cq' -> (y ∉ l) -> y <> p ->
  UpdateSoftConsensusFreezeFromParentNL cq' (frozen_for c) = UpdateSoftConsensusFreezeFromParentNL cq (frozen_for c).
Proof.
  intros R Hc Ec Hcq Hcq' Hy Hyp. destruct (Ht y c Hc) as [_ H1]. rewrite Ec in H1. destruct H1 as (cq0 & Hcq0 & Eh & _). rewrite Hcq in Hcq0. injection Hcq0 as <-.
  destruct (decide (q ∈ p :: l)) as [Hq|Hq].
  - destruct (freeze_values h' l R q cq Hcq Hq) as (cq1 & Hcq1 & Ev). rewrite Hcq' in Hcq1. injection Hcq1 as <-. apply (freeze_touched h' l q cq R Hcq) in Hq as [Haq Hhq].
    assert (nHeight cq = nHeight b + d) as Ed.
    { destruct (decide (nHeight c <= nHeight b + d)); [|lia]. exfalso. apply Hy, (fr_range _ _ R y c Hc). split_and!; [|done..]. apply (ancestor_trans _ p q y Haq). by apply (ancestor_step _ y c). }
    pose proof (fz_range _ Hf y c Hc). pose proof (frozen_in_all_range h q cq Ht Hf Hcq). unfold UpdateSoftConsensusFreezeFromParentNL. rewrite Ev.
    destruct (Z.eqb_spec (frozen_in_all cq) (-1)), (Z.eqb_spec (Z.max (frozen_in_all cq) (d - (nHeight cq - nHeight b))) (-1)); cbn [negb]; lia.
  - rewrite not_elem_of_cons in Hq. rewrite (fr_out _ _ R) in Hcq' by tauto. congruence.
Qed.

Lemma freeze_keeps h' l : freeze_result h' l -> freeze_ok h'.
Proof.
  intros R. assert (forall y c', h' !! y = Some c' -> exists c, h !! y = Some c /\ pprev c' = pprev c) as Hget.
  { intros y c' Hc'. pose proof (fr_tree _ _ R) as Es. symmetry in Es. destruct (same_tree_lookup h' h y c' Es Hc') as (c & Hc & Ep). injection Ep as Ep _ _ _. by exists c. }
  assert (forall y c c', h !! y = Some c -> h' !! y = Some c' -> y = p /\ c = b /\ c' = freeze_root d b \/ y <> p /\ frozen_for c' = frozen_for c /\ (y ∉ l -> c' = c)) as Hcase.
  { intros y c c' Hc Hc'. destruct (decide (y = p)) as [->|Hne]; [left; rewrite (fr_root _ _ R) in Hc'; split_and!; congruence|]. right. split; [done|].
    destruct (decide (y ∈ l)) as [Hy|Hy]; [|rewrite (fr_out _ _ R) in Hc' by done; split; [congruence | intros _; congruence]].
    destruct (freeze_has_parent h' l y c R Hc Hy) as [q Eq]. destruct (fr_kid _ _ R y c q Hy Hc Eq) as (cq & _ & Hyc). rewrite Hyc in Hc'. by injection Hc' as <-. }
  split.
  - intros y c' Hc'. destruct (Hget y c' Hc') as (c & Hc & _). pose proof (fz_range _ Hf y c Hc). destruct (Hcase y c c' Hc Hc') as [(_ & _ & ->)|(_ & -> & _)]; cbn; lia.
  - intros y c' Hc' Ec'. destruct (Hget y c' Hc') as (c & Hc & Ep). rewrite Ep in Ec'. pose proof (fz_genesis _ Hf y c Hc Ec') as Eg.
    destruct (Hcase y c c' Hc Hc') as [(-> & -> & ->)|(Hne & _ & Hsame)]; [cbn; lia|]. rewrite Hsame; [done|]. intros Hy. destruct (freeze_has_parent h' l y c R Hc Hy). congruence.
  - intros y c' q cq' Hc' Ec' Hcq'. destruct (Hget y c' Hc') as (c & Hc & Ep). rewrite Ep in Ec'. destruct (Hget q cq' Hcq') as (cq & Hcq & _).
    pose proof (fz_parent _ Hf y c q cq Hc Ec' Hcq) as Epar. destruct (decide (y ∈ l)) as [Hy|Hy].
    { destruct (fr_kid _ _ R y c q Hy Hc Ec') as (cq1 & Hcq1 & Hyc). rewrite Hcq' in Hcq1. injection Hcq1 as <-. rewrite Hyc in Hc'. by injection Hc' as <-. }
    destruct (Hcase y c c' Hc Hc') as [(-> & -> & ->)|(Hne & _ & Hsame)].
    + assert (h' !! q = h !! q) as Eq.
      { apply (fr_out _ _ R); [intros ->|intros (Ha & _)%(fr_range _ _ R q cq Hcq)]; destruct (Ht p b Hp) as [_ H1]; rewrite Ec' in H1; destruct H1 as (cq0 & Hcq0 & Eh & _); simplify_eq; [lia|].
        destruct (ancestor_height h q cq p Ht Hcq Ha) as (b' & Hb' & Hle & _). simplify_eq. lia. }
      assert (cq' = cq) as -> by congruence. pose proof (frozen_in_all_range h q cq Ht Hf Hcq). cbn. rewrite Epar, Hown. unfold UpdateSoftConsensusFreezeFromParentNL.
      destruct (Z.eqb_spec (frozen_in_all cq) (-1)); cbn [negb]; lia.
    + rewrite (Hsame Hy), Epar. symmetry. by apply (freeze_boundary h' l y c q cq cq').
Qed.

End freeze.

(** *** Only the tree matters for the walk *)

Lemma height_same h h' p : same_tree h h' -> nHeight <$> h !! p = nHeight <$> h' !! p.
Proof.
  intros E. destruct (h !! p) as [b|] eqn:Hp; [|by rewrite (same_tree_none h h' p E Hp)]. destruct (same_tree_lookup h h' p b E Hp) as (b' & -> & Ep). cbn. injection Ep as _ _ -> _. done.
Qed.

#[export] Instance get_prev_proper : Proper (same_tree ==> eq ==> eq) get_prev.
Proof.
  intros h h' E p ? <-. destruct p as [p|]; [|done]. unfold get_prev. destruct (h !! p) as [b|] eqn:Hp; [|by rewrite (same_tree_none h h' p E Hp)].
  destruct (same_tree_lookup h h' p b E Hp) as (b' & -> & Ep). by injection Ep as -> _ _ _.
Qed.

#[export] Instance tree_blocks_proper : Proper (same_tree ==> eq ==> eq ==> eq) tree_blocks.
Proof.
  intros h h' E root ? <- m ? <-. unfold tree_blocks. pose proof (height_same h h' root E) as Er. destruct (h !! root) as [b|], (h' !! root) as [b'|]; try done. injection Er as Er.
  assert (dom h = dom h') as -> by (apply set_eq; intros x; rewrite !elem_of_dom, <- !(fmap_is_Some nHeight); by rewrite (height_same h h' x E)). f_equal. apply list_filter_iff. intros p. unfold height_between. rewrite Er.
  pose proof (height_same h h' p E) as Ep. destruct (h !! p), (h' !! p); try done. by injection Ep as ->.
Qed.

#[export] Instance Children_proper : Proper (same_tree ==> eq ==> eq ==> eq) Children.
Proof. intros h h' E l ? <- p ? <-. apply list_filter_iff. intros q. by rewrite E. Qed.

#[export] Instance Parent_proper : Proper (same_tree ==> eq ==> eq ==> eq) Parent.
Proof. intros h h' E l ? <- p ? <-. unfold Parent. by rewrite E. Qed.

#[export] Instance next_up_proper : Proper (same_tree ==> eq ==> eq ==> eq ==> eq) next_up.
Proof.
  intros h h' E l ? <- fuel ? <-. induction fuel as [|fuel IH]; intros p ? <-; cbn [next_up]; rewrite E; destruct (Parent h' l p) as [q|]; try done; rewrite E; [done|].
  destruct (next_child p (Children h' l q)) as [[r|]|]; cbn [mbind option_bind]; [done | by apply IH | done].
Qed.

#[export] Instance Item_Next_proper : Proper (same_tree ==> eq ==> eq ==> eq) Item_Next.
Proof.
  intros h h' E l ? <- p ? <-. unfold Item_Next. rewrite E. destruct (Children h' l p); [|done]. pose proof (height_same h h' p E) as Ep.
  apply next_up_proper; try done. destruct (h !! p), (h' !! p); try done. by injection Ep as ->.
Qed.

#[export] Instance items_after_root_proper : Proper (same_tree ==> eq ==> eq ==> eq) items_after_root.
Proof.
  intros h h' E p ? <- m ? <-. unfold items_after_root. rewrite (tree_blocks_proper h h' E p p eq_refl m m eq_refl). set (l := tree_blocks h' p m).
  assert (forall x, Item_Next h l x = Item_Next h' l x) as Enext by (intros x; by apply Item_Next_proper). rewrite Enext. destruct (Item_Next h' l p) as [x|]; [|done]. cbn [mbind option_bind].
  generalize (length l). intros fuel. revert x. induction fuel as [|fuel IH]; intros [x|]; cbn [items]; [done | done | | done]. rewrite Enext. destruct (Item_Next h' l x) as [y|]; [|done]. cbn [mbind option_bind]. by rewrite IH.
Qed.

(** *** What a block passes down *)

(** The counter of a descendant in range, none of them rejected on its own. *)

Lemma counter_passed_down h p b m : tree_ok h -> soft_ok h -> h !! p = Some b -> (forall y c, h !! y = Some c -> ancestor h p y -> y <> p -> nHeight c <= m -> ~ own_rejection h c) ->
  forall y c, h !! y = Some c -> ancestor h p y -> nHeight c <= m -> nSoftRejected c = Z.max (-1) (nSoftRejected b - (nHeight c - nHeight b)).
Proof.
  intros Ht Hs Hp Hno y c. remember (Z.to_nat (nHeight c)) as k eqn:Ek. revert y c Ek. induction k as [k IH] using lt_wf_ind. intros y c -> Hc Ha Hm.
  destruct (decide (y = p)) as [->|Hne]; [assert (c = b) as -> by congruence; pose proof (sr_range _ Hs p b Hp); lia|].
  destruct (ancestor_inv h y c p Ht Hc Ha) as [->|(q & Eq & Haq)]; [done|]. destruct (Ht y c Hc) as [Hpos H1]. rewrite Eq in H1. destruct H1 as (bq & Hq & Eh & _). pose proof (proj1 (Ht q bq Hq)).
  pose proof (IH (Z.to_nat (nHeight bq)) ltac:(lia) q bq eq_refl Hq Haq ltac:(lia)) as Hbq. pose proof (sr_range _ Hs y c Hc) as Hr. destruct (ancestor_height h q bq p Ht Hq Haq) as (b' & Hb' & Hle & _). simplify_eq.
  destruct (decide (0 < nSoftRejected bq)) as [Hlt|Hge]; [pose proof (sr_parent _ Hs y c q bq Hc Eq Hq Hlt); lia|].
  assert (~ 0 <= nSoftRejected c) by (intros H0; apply (Hno y c Hc Ha Hne Hm); split; [done|]; exists q, bq; split_and!; [done | done | lia]). lia.
Qed.

(** ** Properties *)

(** [BlockIndexWithDescendants] and the iterative [Next] walk a tree of blocks as the recursive pre-order walk does: the
    loop ends, sees every descendant of the root up to the maximal height exactly once and nothing else, and every block
    after its parent. *)

Theorem descendants_walk_correct h root r maxHeight : tree_ok h -> h !! root = Some r ->
  exists l, items_after_root h root maxHeight = Some l /\
    root :: l = preorder h (tree_blocks h root maxHeight) (Z.to_nat (maxHeight - nHeight r)) root /\ NoDup l /\
    (forall y b, h !! y = Some b -> y ∈ l <-> ancestor h root y /\ y <> root /\ nHeight b <= maxHeight) /\ parents_first h [root] l.
Proof.
  intros Ht Hr. destruct (items_spec h Ht root r Hr maxHeight) as (l & E & El & Hnd & Hpf & Hin). exists l. split_and!; [done | | done..].
  rewrite El. by destruct (Z.to_nat (maxHeight - nHeight r)).
Qed.

(** Marking a block as soft rejected for [n] blocks is refused without any change for the genesis block, for a block
    rejected because of its parent, for a number that is not larger than the present one, and when a descendant in range is
    rejected on its own; otherwise the block and its descendants up to [n] blocks above it get the number of blocks that
    are left, every other entry is unchanged, and the counters of all blocks stay consistent with their parents. *)

Theorem soft_reject_correct h p b n : tree_ok h -> soft_ok h -> h !! p = Some b -> 0 <= n -> nHeight b + n < 2 ^ 31 ->
  exists ok h', soft_reject p n h = Some (ok, h') /\ same_tree h h' /\ soft_ok h' /\
    (ok = true <-> nHeight b <> 0 /\ (0 <= nSoftRejected b -> own_rejection h b /\ nSoftRejected b < n) /\
                   forall y c, h !! y = Some c -> ancestor h p y -> y <> p -> nHeight c <= nHeight b + n -> ~ own_rejection h c) /\
    (ok = false -> h' = h) /\
    (ok = true -> forall y c, h !! y = Some c ->
       (ancestor h p y /\ nHeight c <= nHeight b + n -> h' !! y = Some (rejected_for (n - (nHeight c - nHeight b)) c)) /\
       (~ (ancestor h p y /\ nHeight c <= nHeight b + n) -> h' !! y = Some c)).
Proof.
  intros Ht Hs Hp Hn Hmax. unfold soft_reject. rewrite Hp. cbn [mbind option_bind]. rewrite (proj2 (Z.ltb_ge n 0)) by lia.
  destruct (Z.eqb_spec (nHeight b) 0) as [H0|H0]; [exists false, h; split_and!; try done; split; [done | intros (? & _); done]|].
  destruct (because_spec h p b Ht Hp H0) as (because & Eb & Hown & Hfalse & Htrue).
  assert (exists refused, soft_reject_refused h b n = Some refused /\ (refused = false <-> (0 <= nSoftRejected b -> own_rejection h b /\ nSoftRejected b < n)) /\ (refused = false -> because = false)) as (refused & -> & Href & Hbec).
  { unfold soft_reject_refused, IsSoftRejected. destruct (Z.leb_spec 0 (nSoftRejected b)) as [Hr|Hr].
    - rewrite Eb. cbn [mbind option_bind]. eexists. split; [done|]. specialize (Hown Hr). rewrite orb_false_iff, Z.leb_gt, Hown. tauto.
    - exists false. split; [done|]. split; [split; [lia | done]|]. intros _. destruct because; [|done]. destruct (Htrue eq_refl) as (q & bq & Eq & Hq & Hlt).
      pose proof (sr_parent _ Hs p b q bq Hp Eq Hq Hlt). pose proof (sr_range _ Hs p b Hp). lia. }
  cbn [mbind option_bind]. destruct refused; [exists false, h; split_and!; try done; split; [done | intros (_ & H & _); by apply Href in H]|].
  destruct (Hfalse (Hbec eq_refl)) as (q0 & b0 & Hq0 & Hb0 & Hfree). rewrite (proj2 (Z.leb_gt (2 ^ 31) _)) by lia.
  destruct (items_spec h Ht p b Hp (nHeight b + n)) as (l & El & _ & _ & _ & Hin). rewrite El. cbn [mbind option_bind].
  destruct (explicit_rejection_spec h l Ht) as (e & -> & He); [intros y; by apply (descendant_height h p b l (nHeight b + n))|]. cbn [mbind option_bind].
  assert (e = false <-> forall y c, h !! y = Some c -> ancestor h p y -> y <> p -> nHeight c <= nHeight b + n -> ~ own_rejection h c) as He'.
  { rewrite He. split; intros H y c; [intros Hc Ha Hne Hh; apply (H y c); [by apply (Hin y c Hc) | done] | intros Hy Hc; apply (Hin y c Hc) in Hy as (? & ? & ?); by apply (H y)]. }
  destruct e; [exists false, h; split_and!; try done; split; [done | intros (_ & _ & H); by apply He' in H]|].
  destruct (set_root_spec h Ht p b Hp q0 b0 Hq0 Hb0 Hfree n (nHeight b + n) l ltac:(lia) El) as (h' & E & Es & Hval).
  pose proof (set_root_ok h Ht p b Hp q0 b0 Hq0 Hb0 Hfree n (nHeight b + n) l h' Hs ltac:(lia) El E) as Hs'. rewrite E. exists true, h'.
  split_and!; [done | done | done | split; [intros _; split_and!; [done | by apply Href | by apply He'] | done] | done|].
  intros _ y c Hc. destruct (Hval y c Hc) as [H1 H2]. pose proof (touched_iff h Ht p b Hp (nHeight b + n) l y c El Hc) as Htc.
  assert (y ∈ p :: l <-> ancestor h p y /\ nHeight c <= nHeight b + n) as Htc'.
  { rewrite Htc. split; [intros [Ha [->|Hh]]; (split; [done|]); simplify_eq; lia | intros [Ha Hh]; split; [done | by right]]. }
  split; [intros Hy|by intros Hy; apply H2; rewrite Htc']. rewrite H1 by (by apply Htc'). do 2 f_equal. lia.
Qed.

(** Taking a soft rejection back, wholly ([n] is -1) or in part, is possible exactly for a block that is soft rejected on
    its own, with a smaller number than it has; then the block and the descendants that were rejected because of it get what
    is left of the new number, every other entry is unchanged, and the counters stay consistent. *)

Theorem AcceptSoftRejectedBlockNL_correct h p b n : tree_ok h -> soft_ok h -> h !! p = Some b -> -1 <= n -> nHeight b + nSoftRejected b < 2 ^ 31 ->
  exists ok h', AcceptSoftRejectedBlockNL p n h = Some (ok, h') /\ tree_ok h' /\ soft_ok h' /\
    (ok = true <-> own_rejection h b /\ n < nSoftRejected b) /\
    (ok = false -> h' = h) /\
    (ok = true -> forall y c, h !! y = Some c ->
       (ancestor h p y /\ nHeight c <= nHeight b + nSoftRejected b -> h' !! y = Some (rejected_for (Z.max (-1) (n - (nHeight c - nHeight b))) c)) /\
       (~ (ancestor h p y /\ nHeight c <= nHeight b + nSoftRejected b) -> h' !! y = Some c)).
Proof.
  intros Ht Hs Hp Hn Hmax. unfold AcceptSoftRejectedBlockNL, IsSoftRejected. rewrite Hp. cbn [mbind option_bind]. rewrite (proj2 (Z.ltb_ge n (-1))) by lia.
  destruct (Z.leb_spec 0 (nSoftRejected b)) as [Hr|Hr]; cbn [negb]; [|exists false, h; split_and!; try done; split; [done | intros [[? _] _]; lia]].
  assert (nHeight b <> 0) as H0.
  { intros H0. destruct (Ht p b Hp) as [_ H1]. destruct (pprev b) as [q|] eqn:Eq; [|pose proof (sr_genesis _ Hs p b Hp Eq); lia].
    destruct H1 as (bq & Hq & Eh & _). pose proof (proj1 (Ht q bq Hq)). lia. }
  destruct (because_spec h p b Ht Hp H0) as (because & -> & Hown & Hfalse & _). cbn [mbind option_bind]. specialize (Hown Hr).
  destruct (because || (nSoftRejected b <=? n)) eqn:Eref; [exists false, h; split_and!; try done; split; [done|]|].
  { intros [H1 H2]. apply Hown in H1. subst because. apply Z.leb_le in Eref. lia. }
  apply orb_false_iff in Eref as [-> Hlt%Z.leb_gt]. destruct (Hfalse eq_refl) as (q0 & b0 & Hq0 & Hb0 & Hfree). rewrite (proj2 (Z.leb_gt (2 ^ 31) _)) by lia.
  destruct (items_spec h Ht p b Hp (nHeight b + nSoftRejected b)) as (l & El & _ & _ & _ & Hin). rewrite El. cbn [mbind option_bind].
  destruct (set_root_spec h Ht p b Hp q0 b0 Hq0 Hb0 Hfree n (nHeight b + nSoftRejected b) l ltac:(lia) El) as (h' & E & Es & Hval).
  pose proof (set_root_ok h Ht p b Hp q0 b0 Hq0 Hb0 Hfree n (nHeight b + nSoftRejected b) l h' Hs ltac:(lia) El E) as Hs'. rewrite E. exists true, h'.
  split_and!; [done | by rewrite <- Es | done | split; [intros _; split; [by apply Hown | done] | done] | done|].
  intros _ y c Hc. destruct (Hval y c Hc) as [H1 H2]. assert (y ∈ p :: l <-> ancestor h p y /\ nHeight c <= nHeight b + nSoftRejected b) as Htc.
  { rewrite (touched_iff h Ht p b Hp _ l y c El Hc). split; [intros [Ha [->|Hh]]; (split; [done|]); simplify_eq; lia | intros [Ha Hh]; split; [done | by right]]. }
  split; intros Hy; [apply H1; by apply Htc | apply H2; by rewrite Htc].
Qed.

(** C32. A soft consensus freeze of a block that is not frozen on its own ends without a failed assertion: the block and its
    descendants for the duration are frozen at least for what is left of it, every other entry is unchanged, and every
    cumulative counter is again the maximum of the own counter and the one passed down by the parent. *)

Theorem softConsensusFreeze_correct h p b d : tree_ok h -> freeze_ok h -> h !! p = Some b -> 0 <= d -> frozen_for b = -1 -> nHeight b < 2 ^ 31 - 1 - d ->
  exists h', softConsensusFreeze p d h = Some h' /\ same_tree h h' /\ freeze_ok h' /\
    forall y c, h !! y = Some c ->
      (ancestor h p y /\ nHeight c <= nHeight b + d -> exists c', h' !! y = Some c' /\ frozen_in_all c' = Z.max (frozen_in_all c) (d - (nHeight c - nHeight b)) /\ IsInSoftConsensusFreeze c' = true) /\
      (~ (ancestor h p y /\ nHeight c <= nHeight b + d) -> h' !! y = Some c).
Proof.
  intros Ht Hf Hp Hd Hown Hmax. destruct (freeze_spec h Ht p b Hp d Hd Hown Hmax) as (h' & l & E & R). exists h'. split; [done|]. split; [apply R|].
  split; [by apply (freeze_keeps h Ht Hf p b Hp d Hd Hown h' l)|]. intros y c Hc. pose proof (freeze_touched h p b Hp d Hd h' l y c R Hc) as Htouched. split; intros Hy.
  - destruct (freeze_values h Ht Hf p b Hp d h' l R y c Hc (proj2 Htouched Hy)) as (c' & Hc' & Ev). exists c'. split_and!; [done..|].
    unfold IsInSoftConsensusFreeze. apply negb_true_iff, Z.eqb_neq. lia.
  - rewrite <- Htouched, elem_of_cons in Hy. rewrite (fr_out _ _ _ _ _ _ R); [done | tauto | tauto].
Qed.

(** ** Witnesses *)

(** The tree of five blocks: 1 - 2 - 3 - 4, and 5 on 2. *)

Lemma demo_tree_fine : tree_ok demo_tree.
Proof. apply block_tree_ok, demo_tree_ok. Qed.

Lemma demo_tree_counters : map_Forall (fun _ b => nSoftRejected b = -1 /\ mSoftConsensusFreezeForNBlocks b = -1 /\ mSoftConsensusFreezeForNBlocksCumulative b = -1) demo_tree.
Proof. apply (bool_decide_eq_true_1 _). vm_compute. reflexivity. Qed.

Lemma demo_tree_soft : soft_ok demo_tree.
Proof.
  pose proof demo_tree_counters as H. split.
  - intros p b Hp. destruct (H p b Hp) as [-> _]. lia.
  - intros p b Hp _. apply (H p b Hp).
  - intros p b q bq _ _ Hq. destruct (H q bq Hq) as [-> _]. lia.
Qed.

Lemma demo_tree_freeze : freeze_ok demo_tree.
Proof.
  pose proof demo_tree_counters as H. split.
  - intros p b Hp. destruct (H p b Hp) as (_ & -> & _). lia.
  - intros p b Hp _. destruct (H p b Hp) as (_ & -> & ->). done.
  - intros p b q bq Hp _ Hq. destruct (H p b Hp) as (_ & -> & ->). destruct (H q bq Hq) as (_ & _ & E). unfold UpdateSoftConsensusFreezeFromParentNL. by rewrite E.
Qed.

Lemma descendants_walk_correct_witness : exists l, items_after_root demo_tree 2%positive 10 = Some l /\ length l = 3%nat /\ NoDup l.
Proof.
  destruct (descendants_walk_correct demo_tree 2%positive (demo_block 2%positive) 10 demo_tree_fine ltac:(vm_compute; reflexivity)) as (l & E & _ & Hnd & _).
  exists l. split; [exact E|]. split; [|exact Hnd]. assert (length <$> items_after_root demo_tree 2%positive 10 = Some 3%nat) as E' by (vm_compute; reflexivity).
  rewrite E in E'. injection E' as E'. exact E'.
Defined.

Definition demo_rejected : heap := Eval vm_compute in match soft_reject 2%positive 1 demo_tree with Some (true, h) => h | _ => ∅ end.

Lemma demo_rejects : soft_reject 2%positive 1 demo_tree = Some (true, demo_rejected).
Proof. vm_compute. reflexivity. Qed.

Lemma soft_reject_correct_witness : soft_ok demo_rejected /\ nSoftRejected <$> demo_rejected !! 5%positive = Some 0 /\ nSoftRejected <$> demo_rejected !! 4%positive = Some (-1).
Proof.
  split; [|split; vm_compute; reflexivity].
  destruct (soft_reject_correct demo_tree 2%positive (demo_block 2%positive) 1 demo_tree_fine demo_tree_soft ltac:(vm_compute; reflexivity) ltac:(lia) ltac:(vm_compute; reflexivity))
    as (ok & h' & E & _ & Hs & _). rewrite demo_rejects in E. injection E as _ ->. exact Hs.
Defined.

Lemma demo_rejected_ok : tree_ok demo_rejected /\ soft_ok demo_rejected.
Proof.
  destruct (set_root_spec demo_tree demo_tree_fine 2%positive (demo_block 2%positive) ltac:(vm_compute; reflexivity) 1%positive (demo_block 1%positive) ltac:(vm_compute; reflexivity)
    ltac:(vm_compute; reflexivity) ltac:(vm_compute; discriminate) 1 2 [5; 3]%positive ltac:(lia) ltac:(vm_compute; reflexivity)) as (h' & E & Es & _).
  pose proof (set_root_ok demo_tree demo_tree_fine 2%positive (demo_block 2%positive) ltac:(vm_compute; reflexivity) 1%positive (demo_block 1%positive) ltac:(vm_compute; reflexivity)
    ltac:(vm_compute; reflexivity) ltac:(vm_compute; discriminate) 1 2 [5; 3]%positive h' demo_tree_soft ltac:(vm_compute; split; discriminate) ltac:(vm_compute; reflexivity) E) as Hs.
  assert (SetRootSoftRejectedForNL 2%positive [5; 3]%positive 1 demo_tree = Some demo_rejected) as E' by (vm_compute; reflexivity). rewrite E in E'. injection E' as ->.
  split; [|exact Hs]. rewrite <- Es. apply demo_tree_fine.
Qed.

Lemma AcceptSoftRejectedBlockNL_correct_witness : exists h', AcceptSoftRejectedBlockNL 2%positive (-1) demo_rejected = Some (true, h') /\ soft_ok h' /\ nSoftRejected <$> h' !! 5%positive = Some (-1).
Proof.
  destruct demo_rejected_ok as [Ht Hs]. destruct (demo_rejected !! 2%positive) as [b|] eqn:Hb; [|discriminate Hb].
  assert (nHeight b + nSoftRejected b = 2) as Eb by (injection Hb as <-; vm_compute; reflexivity).
  destruct (AcceptSoftRejectedBlockNL_correct demo_rejected 2%positive b (-1) Ht Hs Hb ltac:(lia) ltac:(rewrite Eb; vm_compute; reflexivity)) as (ok & h' & E & _ & Hs' & _).
  assert ((fun r => (r.1, nSoftRejected <$> r.2 !! 5%positive)) <$> AcceptSoftRejectedBlockNL 2%positive (-1) demo_rejected = Some (true, Some (-1))) as E' by (vm_compute; reflexivity).
  rewrite E in E'. injection E' as -> E'. exists h'. split; [exact E|]. split; [exact Hs' | exact E'].
Defined.

Lemma softConsensusFreeze_correct_witness : exists h', softConsensusFreeze 2%positive 1 demo_tree = Some h' /\ freeze_ok h' /\
  IsInSoftConsensusFreeze <$> h' !! 3%positive = Some true /\ IsInSoftConsensusFreeze <$> h' !! 4%positive = Some false.
Proof.
  destruct (softConsensusFreeze_correct demo_tree 2%positive (demo_block 2%positive) 1 demo_tree_fine demo_tree_freeze ltac:(vm_compute; reflexivity) ltac:(lia) ltac:(vm_compute; reflexivity)
    ltac:(vm_compute; reflexivity)) as (h' & E & _ & Hf & _). exists h'. split; [exact E|]. split; [exact Hf|].
  assert ((fun h => (IsInSoftConsensusFreeze <$> h !! 3%positive, IsInSoftConsensusFreeze <$> h !! 4%positive)) <$> softConsensusFreeze 2%positive 1 demo_tree = Some (Some true, Some false)) as E'
    by (vm_compute; reflexivity). rewrite E in E'. injection E' as E1 E2. split; [exact E1 | exact E2].
Defined.
