(* ===== verification/Activate.v ===== *)
(** * Activating the best chain

    [ActivateBestChain] of [src/validation.cpp] and what it is made of: [DisconnectTip], [ConnectTip],
    [RemoveSoftConsensusFreezeBlocksFromActiveChainTipNL], [ActivateBestChainStep] and [ConsiderBlockForMostWorkChain], over
    the globals of [ChainIndex] and the soft consensus freeze of [SoftReject].

    Connecting and disconnecting a block on the coins view is an interface, [CoinsTip]: what [ConnectBlock] and
    [DisconnectBlock], together with the reading of the block and the flush that follows, can come to.  The laws of the
    interface say which chain the coins belong to.  One thread holds [cs_main] throughout and its token is not
    cancelled; the mempool, the notifications, the periodic flush after the loop and the safe mode are left out.  The result [None] is a failed assertion or a null pointer. *)

From stdpp Require Import gmap sorting.
From S2P Require Import Prelude Common Uint256 BlockIndex ChainIndex ChainLinks SoftReject.
Import arith_uint256.

(** ** The coins view below the active tip *)

(** What [ConnectBlock] and the flush come to: the coins after the block (and whether [FlushStateToDisk] succeeded); an
    invalid block, rejected because it spends frozen outputs or because the data may be corrupt; another error, or a
    cancellation, before or after the undo data were written. *)

Inductive verdict (C : Type) :=
| Accepted (c : C) (flushed : bool)
| Rejected (freeze corruption : bool)
| SystemError (raised : bool)
| Cancelled (raised : bool).

Arguments Accepted {C} c flushed.
Arguments Rejected {C} freeze corruption.
Arguments SystemError {C} raised.
Arguments Cancelled {C} raised.

(** What [ReadBlockFromDisk], [DisconnectBlock] and the flush come to. *)

Inductive undone (C : Type) := Unread | NotUndone | Undone (c : C) (flushed : bool).

Arguments Unread {C}.
Arguments NotUndone {C}.
Arguments Undone {C} c flushed.

(** The first argument counts the calls: the outside world may answer differently each time. *)

Class CoinsTip (C : Type) := {
  GetBestBlock : C -> option ptr;
  ConnectBlock : nat -> heap -> ptr -> C -> verdict C;
  DisconnectBlock : nat -> heap -> ptr -> C -> undone C }.

(** [coins_at h p c]: the coins [c] are those of the chain of [h] that ends at [p].  A block that is frozen on its own is not
    rejected as frozen again, and the genesis block never is. *)

Class CoinsTipLaws (C : Type) `{CoinsTip C} (coins_at : heap -> ptr -> C -> Prop) := {
  coins_at_tree h h' p c : same_tree h h' -> coins_at h p c -> coins_at h' p c;
  coins_at_best h p c : coins_at h p c -> GetBestBlock c = Some p;
  connect_moves k h p b q c c' flushed : h !! p = Some b -> pprev b = Some q -> coins_at h q c -> ConnectBlock k h p c = Accepted c' flushed -> coins_at h p c';
  disconnect_moves k h p b q c c' flushed : h !! p = Some b -> pprev b = Some q -> coins_at h p c -> DisconnectBlock k h p c = Undone c' flushed -> coins_at h q c';
  frozen_once k h p b c corruption : h !! p = Some b -> ConnectBlock k h p c = Rejected true corruption -> mSoftConsensusFreezeForNBlocks b = -1 }.

(** ** The tip *)

Definition hasUndo (status : Z) : bool := has_flag HAS_UNDO_FLAG status.

(** The entry after [writeUndoToDisk]. *)

Definition writeUndoToDisk (now : Z) (b : CBlockIndex) : CBlockIndex :=
  if negb (hasUndo (nStatus b)) || negb (IsValid b SCRIPTS)
  then RaiseValidity (if hasUndo (nStatus b) then b else with_status b (withUndo (nStatus b) true)) SCRIPTS now
  else b.

(** The candidates are sorted by the validation time, so the block is taken out of them while it changes. *)

Definition write_undo (p : ptr) (now : Z) (cs : chainstate) : chainstate :=
  insert_candidate p (modify (writeUndoToDisk now) p (erase_candidate p cs)).

Definition UpdateTip (p : option ptr) (cs : chainstate) : chainstate := set_chain cs (SetTip (index cs) (chainActive cs) p).

Section activation.

Context {C : Type} `{CoinsTip C}.

(** The times the steady clock shows, the duration of a freeze, and the blocks other threads are validating. *)

Context (clock : nat -> Z) (duration : Z) (in_validation : ptr -> bool).

Record node := { chain : chainstate; coins : C; calls : nat }.

Definition DisconnectTip (n : node) : option (bool * node) :=
  let cs := chain n in
  pindexDelete ← tip cs;
  b ← index cs !! pindexDelete;
  match DisconnectBlock (calls n) (index cs) pindexDelete (coins n) with
  | Unread => Some (false, {| chain := cs; coins := coins n; calls := S (calls n) |})
  | NotUndone =>
      if bool_decide (GetBestBlock (coins n) = Some pindexDelete)
      then Some (false, {| chain := cs; coins := coins n; calls := S (calls n) |}) else None
  | Undone c flushed =>
      if bool_decide (GetBestBlock (coins n) = Some pindexDelete)
      then Some (flushed, {| chain := if (flushed : bool) then UpdateTip (pprev b) cs else cs; coins := c; calls := S (calls n) |})
      else None
  end.

(** What [ConnectTip] comes to: [true], [false] with an invalid block, [false] with another error, an exception. *)

Inductive connected_tip := Connected | Invalid (corruption : bool) | Failed | Thrown.

Definition ConnectTip (pindexNew : ptr) (n : node) : option (connected_tip * node) :=
  let cs := chain n in
  b ← index cs !! pindexNew;
  if negb (bool_decide (pprev b = tip cs)) then None
  else
    let genesis := bool_decide (pprev b = None) in
    let raise (raised : bool) := if raised && negb genesis then write_undo pindexNew (clock (calls n)) cs else cs in
    match ConnectBlock (calls n) (index cs) pindexNew (coins n) with
    | Accepted c flushed =>
        if (flushed : bool) then Some (Connected, {| chain := UpdateTip (Some pindexNew) (raise true); coins := c; calls := S (calls n) |})
        else Some (Failed, {| chain := raise true; coins := c; calls := S (calls n) |})
    | Rejected freeze corruption =>
        cs ← (if (freeze : bool) then h ← softConsensusFreeze pindexNew duration (index cs); Some (set_index cs h) else Some cs);
        cs ← InvalidBlockFound pindexNew freeze corruption cs;
        Some (Invalid corruption, {| chain := cs; coins := coins n; calls := S (calls n) |})
    | SystemError raised => Some (Failed, {| chain := raise raised; coins := coins n; calls := S (calls n) |})
    | Cancelled raised => Some (Thrown, {| chain := raise raised; coins := coins n; calls := S (calls n) |})
    end.

(** ** A step towards the best chain *)

Fixpoint remove_frozen (fuel : nat) (n : node) : option (bool * node) :=
  walkIndex ← tip (chain n);
  b ← index (chain n) !! walkIndex;
  if negb (IsInSoftConsensusFreeze b) then Some (true, n)
  else
    match fuel with
    | O => None
    | S fuel => r ← DisconnectTip n; if (r.1 : bool) then remove_frozen fuel r.2 else Some r
    end.

(** [RemoveSoftConsensusFreezeBlocksFromActiveChainTipNL]; [false]: a block could not be disconnected. *)

Definition RemoveSoftConsensusFreezeBlocks (n : node) : option (bool * node) :=
  remove_frozen (Z.to_nat (Height (index (chain n)) (chainActive (chain n)) + 1)) n.

(** The constructor of [RAIIUpdateMempool]: disconnect blocks down to the fork. *)

Fixpoint disconnect_to (fuel : nat) (pindexFork : option ptr) (n : node) : option (bool * node) :=
  if bool_decide (tip (chain n) = None) || bool_decide (tip (chain n) = pindexFork) then Some (true, n)
  else
    match fuel with
    | O => None
    | S fuel => r ← DisconnectTip n; if (r.1 : bool) then disconnect_to fuel pindexFork r.2 else Some r
    end.

(** [vpindexToConnect] from the lowest block on: the ancestors of [p] above [height]. *)

Fixpoint to_connect (h : heap) (fuel : nat) (height : Z) (p : option ptr) (l : list ptr) : option (list ptr) :=
  match p with
  | None => Some l
  | Some q =>
      b ← h !! q;
      if nHeight b =? height then Some l
      else match fuel with O => None | S n => to_connect h n height (pprev b) (q :: l) end
  end.

(** What a step comes to: all blocks of the list are connected, the tip is better than before, an invalid block was found,
    [false] was returned, an exception was thrown. *)

Inductive progress := Through | Better | InvalidFound | StepFailed | StepThrown.

Definition better_than (cs : chainstate) (pindexOldTip : option ptr) : option bool :=
  match pindexOldTip with
  | None => Some true
  | Some q => t ← tip cs; b ← index cs !! t; bq ← index cs !! q; Some (0 <? CompareTo (nChainWork b) (nChainWork bq))
  end.

(** [lowest] is [vpindexToConnect.back()]. *)

Fixpoint connect_list (pindexOldTip : option ptr) (lowest : ptr) (l : list ptr) (n : node) : option (progress * node) :=
  match l with
  | [] => Some (Through, n)
  | pindexConnect :: l =>
      if negb (bool_decide (pindexOldTip = None)) && bool_decide (tip (chain n) = None) then None
      else
        r ← ConnectTip pindexConnect n;
        match r with
        | (Connected, n) =>
            cs ← PruneBlockIndexCandidates (chain n);
            better ← better_than cs pindexOldTip;
            let n := {| chain := cs; coins := coins n; calls := calls n |} in
            if (better : bool) then Some (Better, n) else connect_list pindexOldTip lowest l n
        | (Invalid corruption, n) =>
            r ← RemoveSoftConsensusFreezeBlocks n;
            if negb r.1 then Some (StepFailed, r.2)
            else
              cs ← (if (corruption : bool) then Some (chain r.2) else InvalidChainFound lowest (chain r.2));
              Some (InvalidFound, {| chain := cs; coins := coins r.2; calls := calls r.2 |})
        | (Failed, n) => r ← RemoveSoftConsensusFreezeBlocks n; Some (StepFailed, r.2)
        | (Thrown, n) => r ← RemoveSoftConsensusFreezeBlocks n; Some (StepThrown, r.2)
        end
  end.

(** Blocks are connected in groups of 32. *)

Fixpoint connect_groups (fuel : nat) (pindexOldTip : option ptr) (pindexMostWork : ptr) (target nHeight_ : Z) (n : node) : option (progress * node) :=
  if nHeight_ =? target then Some (Through, n)
  else
    match fuel with
    | O => None
    | S fuel =>
        let nTargetHeight := Z.min (nHeight_ + 32) target in
        pindexIter ← GetAncestor (index (chain n)) pindexMostWork nTargetHeight;
        l ← to_connect (index (chain n)) (Z.to_nat (nTargetHeight + 1)) nHeight_ pindexIter [];
        match l with
        | [] => connect_groups fuel pindexOldTip pindexMostWork target nTargetHeight n
        | lowest :: _ =>
            r ← connect_list pindexOldTip lowest l n;
            match r with (Through, n) => connect_groups fuel pindexOldTip pindexMostWork target nTargetHeight n | _ => Some r end
        end
    end.

Definition ActivateBestChainStep (pindexMostWork : ptr) (n : node) : option (progress * node) :=
  let pindexOldTip := tip (chain n) in
  pindexFork ← FindFork (index (chain n)) (chainActive (chain n)) (Some pindexMostWork);
  b ← index (chain n) !! pindexMostWork;
  height ← match pindexFork with None => Some (-1) | Some f => nHeight <$> index (chain n) !! f end;
  r ← disconnect_to (length (vChain (chainActive (chain n)))) pindexFork n;
  if negb r.1 then Some (StepFailed, r.2)
  else connect_groups (Z.to_nat (nHeight b - height)) pindexOldTip pindexMostWork (nHeight b) height r.2.

(** ** The loop *)

(** [ConsiderBlockForMostWorkChain]: the block of the caller, with the index entry [p], is preferred if it has as much work and
    extends the tip. *)

Definition ConsiderBlockForMostWorkChain (cs : chainstate) (mostWork p currentTip : ptr) : option ptr :=
  b ← index cs !! p;
  if bool_decide (p = mostWork) || negb (bool_decide (pprev b = Some currentTip)) then Some mostWork
  else
    bm ← index cs !! mostWork;
    Some (if (0 <? CompareTo (nChainWork bm) (nChainWork b)) || negb (IsValid b TRANSACTIONS) || (nChainTx b =? 0) || IsInSoftConsensusFreeze b
          then mostWork else p).

(** The target of the next step, if there is one. *)

Definition choose (pblock : option ptr) (cs : chainstate) : option (option ptr * chainstate) :=
  r ← FindMostWorkChain cs;
  match r with
  | (None, cs) => Some (None, cs)
  | (Some m, cs) =>
      let pindexOldTip := tip cs in
      m ← match pblock, pindexOldTip with Some p, Some t => ConsiderBlockForMostWorkChain cs m p t | _, _ => Some m end;
      Some (if bool_decide (Some m = pindexOldTip) then None else Some m, cs)
  end.

(** The loop is still running, it has failed, or it has returned. *)

Inductive activation := Running | Crashed | Returned (ok : bool) (n : node).

(** [cached] is [pindexMostWork] when it is kept from the last round, and [pindexNewTip] then is the tip. *)

Fixpoint activate_loop (fuel : nat) (pblock cached : option ptr) (n : node) : activation :=
  match fuel with
  | O => Running
  | S fuel =>
      match (match cached with Some m => Some (Some m, chain n) | None => choose pblock (chain n) end) with
      | None => Crashed
      | Some (None, cs) => Returned true {| chain := cs; coins := coins n; calls := calls n |}
      | Some (Some m, cs) =>
          let n := {| chain := cs; coins := coins n; calls := calls n |} in
          if in_validation m then Returned true n
          else
            match ActivateBestChainStep m n with
            | None => Crashed
            | Some (StepFailed, n) => Returned false n
            | Some (InvalidFound, n) | Some (StepThrown, n) => activate_loop fuel pblock None n
            | Some (_, n) => activate_loop fuel pblock (if bool_decide (tip (chain n) = Some m) then None else Some m) n
            end
      end
  end.

Definition ActivateBestChain (fuel : nat) (pblock : option ptr) (n : node) : activation := activate_loop fuel pblock None n.

End activation.

(** ** What only grows *)

Definition hasFailed (status : Z) : bool := has_flag FAILED_FLAG status.

Definition header_of (b : CBlockIndex) : Z * list Z * Z * Z * Z := (nVersion b, hashMerkleRoot b, nTime b, nBits b, nNonce b).

Record entry_later (b b' : CBlockIndex) : Prop := {
  el_header : header_of b' = header_of b;
  el_tx : nTx b' = nTx b;
  el_linked : nChainTx b' = nChainTx b;
  el_soft : nSoftRejected b' = nSoftRejected b;
  el_frozen : mSoftConsensusFreezeForNBlocks b <> -1 -> mSoftConsensusFreezeForNBlocks b' <> -1;
  el_valid : validity_code TREE <= getValidity (nStatus b) -> validity_code TREE <= getValidity (nStatus b');
  el_data : hasData (nStatus b) = true -> hasData (nStatus b') = true;
  el_invalid : isInvalid (nStatus b) = true -> isInvalid (nStatus b') = true;
  el_failed : hasFailed (nStatus b) = true -> hasFailed (nStatus b') = true }.

Lemma entry_later_refl b : entry_later b b.
Proof. by split. Qed.

Lemma entry_later_trans b1 b2 b3 : entry_later b1 b2 -> entry_later b2 b3 -> entry_later b1 b3.
Proof. intros H1 H2. split; [rewrite (el_header _ _ H2); apply H1 | rewrite (el_tx _ _ H2); apply H1 | rewrite (el_linked _ _ H2); apply H1 | rewrite (el_soft _ _ H2); apply H1 | ..]; intros; apply H2, H1; done. Qed.

(** A later state of the globals: the same tree, entries with at least the flags they had, the same waiting blocks. *)

Record later (cs cs' : chainstate) : Prop := {
  lt_tree : same_tree (index cs) (index cs');
  lt_entry p b : index cs !! p = Some b -> exists b', index cs' !! p = Some b' /\ entry_later b b';
  lt_unlinked : data_ok cs -> mapBlocksUnlinked cs' = mapBlocksUnlinked cs }.

Lemma later_refl cs : later cs cs.
Proof. split; [done | | done]. intros p b Hp. exists b. split; [done | apply entry_later_refl]. Qed.

Lemma later_back cs cs' p b' : later cs cs' -> index cs' !! p = Some b' -> exists b, index cs !! p = Some b /\ entry_later b b'.
Proof.
  intros Hl Hp. destruct (index cs !! p) as [b|] eqn:Hb; [|by rewrite (same_tree_none _ _ p (lt_tree _ _ Hl) Hb) in Hp].
  destruct (lt_entry _ _ Hl p b Hb) as (b'' & Hb'' & He). simplify_eq. by exists b.
Qed.

Lemma later_data cs cs' : later cs cs' -> data_ok cs -> data_ok cs'.
Proof.
  intros Hl Hd p b' Hp Hn. destruct (later_back cs cs' p b' Hl Hp) as (b & Hb & He). apply (el_data _ _ He), (Hd p b Hb). by rewrite <- (el_linked _ _ He).
Qed.

Lemma later_trans cs1 cs2 cs3 : later cs1 cs2 -> later cs2 cs3 -> later cs1 cs3.
Proof.
  intros H1 H2. split.
  - transitivity (index cs2); [apply H1 | apply H2].
  - intros p b Hp. destruct (lt_entry _ _ H1 p b Hp) as (b2 & Hp2 & E1). destruct (lt_entry _ _ H2 p b2 Hp2) as (b3 & Hp3 & E2). exists b3. split; [done|]. by apply (entry_later_trans b b2).
  - intros Hd. rewrite (lt_unlinked _ _ H2) by (by apply (later_data cs1)). by apply (lt_unlinked _ _ H1).
Qed.

Lemma later_same cs cs' : index cs' = index cs -> mapBlocksUnlinked cs' = mapBlocksUnlinked cs -> later cs cs'.
Proof. intros E1 E2. split; [by rewrite E1 | rewrite E1; intros p b Hp; exists b; split; [done | apply entry_later_refl] | done]. Qed.

(** Changing one entry. *)

Lemma later_modify cs p f : (forall b, place (f b) = place b) -> (forall b, entry_later b (f b)) -> later cs (modify f p cs).
Proof.
  intros Hf He. split; cbn; [symmetry; by apply same_tree_alter | | done]. intros q b Hq. destruct (decide (p = q)) as [<-|Hne].
  - exists (f b). rewrite lookup_alter_eq, Hq. done.
  - exists b. rewrite lookup_alter_ne by done. split; [done | apply entry_later_refl].
Qed.

Lemma links_ok_later cs cs' : links_ok cs -> later cs cs' -> (forall t, tip cs' = Some t -> exists b, index cs' !! t = Some b /\ nChainTx b <> 0) -> index_ok cs -> links_ok cs'.
Proof.
  intros Hl Hlt Htip Hcs. pose proof (later_back cs cs') as Hback. assert (data_ok cs) as Hd.
  { intros p b Hp Hn. apply (lk_data _ _ Hl p b Hp). by apply (lk_sum _ _ Hl p b). }
  assert (same_txs (index cs) (index cs')) as Etx.
  { apply map_eq. intros p. rewrite !lookup_fmap. destruct (index cs !! p) as [b|] eqn:Hp; [|by rewrite (same_tree_none _ _ p (lt_tree _ _ Hlt) Hp)].
    destruct (lt_entry _ _ Hlt p b Hp) as (b' & Hp' & He). destruct (same_tree_lookup _ _ p b (lt_tree _ _ Hlt) Hp) as (b'' & Hp'' & Ep). rewrite Hp' in Hp''. injection Hp'' as <-.
    injection Ep as Ep _ _ _. rewrite Hp'. cbn. by rewrite Ep, (el_tx _ _ He). }
  assert (forall p b b', index cs !! p = Some b -> index cs' !! p = Some b' -> pprev b' = pprev b /\ nHeight b' = nHeight b) as Hplace.
  { intros p b b' Hp Hp'. destruct (same_tree_lookup _ _ p b (lt_tree _ _ Hlt) Hp) as (b'' & Hp'' & Ep). rewrite Hp' in Hp''. injection Hp'' as <-. by injection Ep. }
  split.
  - intros p b' Hp'. destruct (Hback p b' Hlt Hp') as (b & Hp & He). apply (el_valid _ _ He), (lk_tree _ _ Hl p b Hp).
  - intros p b' Hp'. destruct (Hback p b' Hlt Hp') as (b & Hp & He). rewrite (el_tx _ _ He). by apply (lk_tx _ _ Hl p b).
  - intros p b' Hp'. destruct (Hback p b' Hlt Hp') as (b & Hp & He). rewrite (el_tx _ _ He). intros Hn. by apply (el_data _ _ He), (lk_data _ _ Hl p b).
  - intros p b' Hp'. destruct (Hback p b' Hlt Hp') as (b & Hp & He). rewrite (el_linked _ _ He), (el_tx _ _ He). rewrite (proj2 (Hplace p b b' Hp Hp')).
    rewrite <- (chain_txs_proper _ _ Etx _ _ eq_refl _ _ eq_refl). by apply (lk_sum _ _ Hl).
  - rewrite (lt_unlinked _ _ Hlt Hd). apply Hl.
  - by intros p []%elem_of_nil.
  - intros q p. rewrite (lt_unlinked _ _ Hlt Hd). intros Hw. destruct (lk_wait _ _ Hl q p Hw) as (b & bq & Hp & Eq & Hq & Hn & Hz).
    destruct (lt_entry _ _ Hlt p b Hp) as (b' & Hp' & He). destruct (lt_entry _ _ Hlt q bq Hq) as (bq' & Hq' & Heq). exists b', bq'.
    rewrite (proj1 (Hplace p b b' Hp Hp')), (el_tx _ _ He), (el_linked _ _ Heq). done.
  - intros p b' Hp'. destruct (Hback p b' Hlt Hp') as (b & Hp & He). rewrite (el_tx _ _ He), (el_linked _ _ He). intros Hn Hz. rewrite (lt_unlinked _ _ Hlt Hd).
    unfold parent_failed. rewrite (proj1 (Hplace p b b' Hp Hp')). destruct (lk_all _ _ Hl p b Hp Hn Hz) as [|[|(q & bq & Eq & Hq & Hi)]]; [by left | by right; left | right; right].
    destruct (lt_entry _ _ Hlt q bq Hq) as (bq' & Hq' & Heq). exists q, bq'. split_and!; [done..|]. by apply (el_invalid _ _ Heq).
  - done.
Qed.

(** The blocks that have not failed, and those not frozen: each round that finds an invalid block makes one of them smaller. *)

Definition unfailed (cs : chainstate) : gset ptr := dom (filter (fun '(_, b) => hasFailed (nStatus b) = false) (index cs)).
Definition unfrozen (cs : chainstate) : gset ptr := dom (filter (fun '(_, b) => mSoftConsensusFreezeForNBlocks b = -1) (index cs)).
Definition chances (cs : chainstate) : nat := size (unfailed cs) + size (unfrozen cs).

Lemma unfailed_elem cs p : p ∈ unfailed cs <-> exists b, index cs !! p = Some b /\ hasFailed (nStatus b) = false.
Proof. unfold unfailed. rewrite elem_of_dom. unfold is_Some. setoid_rewrite map_lookup_filter_Some. done. Qed.

Lemma unfrozen_elem cs p : p ∈ unfrozen cs <-> exists b, index cs !! p = Some b /\ mSoftConsensusFreezeForNBlocks b = -1.
Proof. unfold unfrozen. rewrite elem_of_dom. unfold is_Some. setoid_rewrite map_lookup_filter_Some. done. Qed.

Lemma later_fewer cs cs' : later cs cs' -> unfailed cs' ⊆ unfailed cs /\ unfrozen cs' ⊆ unfrozen cs.
Proof.
  intros Hl. split; intros p.
  - rewrite !unfailed_elem. intros (b' & Hp' & E). destruct (later_back cs cs' p b' Hl Hp') as (b & Hp & He). exists b. split; [done|].
    destruct (hasFailed (nStatus b)) eqn:Eb; [by rewrite (el_failed _ _ He Eb) in E | done].
  - rewrite !unfrozen_elem. intros (b' & Hp' & E). destruct (later_back cs cs' p b' Hl Hp') as (b & Hp & He). exists b. split; [done|].
    destruct (decide (mSoftConsensusFreezeForNBlocks b = -1)) as [|Hn]; [done|]. by apply (el_frozen _ _ He) in Hn.
Qed.

Lemma later_chances cs cs' : later cs cs' -> (chances cs' <= chances cs)%nat.
Proof. intros [H1 H2]%later_fewer. apply subseteq_size in H1, H2. unfold chances. lia. Qed.

Lemma later_chances_lt cs cs' p : later cs cs' -> (p ∈ unfailed cs /\ p ∉ unfailed cs') \/ (p ∈ unfrozen cs /\ p ∉ unfrozen cs') -> (chances cs' < chances cs)%nat.
Proof.
  intros [H1 H2]%later_fewer [[Hin Hout]|[Hin Hout]]; unfold chances.
  - assert (unfailed cs' ⊂ unfailed cs) as Hs by set_solver. apply subset_size in Hs. apply subseteq_size in H2. lia.
  - assert (unfrozen cs' ⊂ unfrozen cs) as Hs by set_solver. apply subset_size in Hs. apply subseteq_size in H1. lia.
Qed.

(** ** The parts of a step *)

Lemma failed_parent_later b : entry_later b (ModifyStatusWithFailedParent b).
Proof.
  unfold ModifyStatusWithFailedParent, withFailedParent.
  split; try done; cbn [nStatus with_status]; unfold getValidity, hasData, hasFailed, has_flag; [by rewrite with_flag_mask.. | | by rewrite with_flag_mask].
  intros _. apply failed_parent_invalid.
Qed.

Lemma trimmed_later cs cs' : trimmed cs cs' -> later cs cs'.
Proof.
  intros Htr. split; [apply same_but_status_tree, trimmed_same, Htr | | apply Htr]. intros p b Hp. destruct (tr_status _ _ Htr p b Hp) as [Hp'|[Hp' _]]; [exists b; split; [done | apply entry_later_refl]|].
  exists (ModifyStatusWithFailedParent b). split; [done | apply failed_parent_later].
Qed.

(** The active chain. *)

Lemma in_chain_iff cs t x bx : index_ok cs -> tip cs = Some t -> index cs !! x = Some bx -> in_chain cs x = true <-> ancestor (index cs) x t.
Proof.
  intros Hcs Et Hx. pose proof (io_chain _ Hcs) as Hc. pose proof Hc as Hc'. unfold chain_ok in Hc'. unfold tip in Et. rewrite Et in Hc'. destruct Hc' as (bt & Ht & _).
  apply (Contains_ancestor (index cs) (chainActive cs) t bt x bx (io_tree _ Hcs) Hc Et Ht Hx).
Qed.

Lemma tip_block cs t : index_ok cs -> tip cs = Some t -> exists bt, index cs !! t = Some bt.
Proof. intros Hcs Et. pose proof (io_chain _ Hcs) as Hc. unfold chain_ok in Hc. unfold tip in Et. rewrite Et in Hc. destruct Hc as (bt & Ht & _). by exists bt. Qed.

Lemma child_off cs t p b : index_ok cs -> tip cs = Some t -> index cs !! p = Some b -> pprev b = Some t -> in_chain cs p = false.
Proof.
  intros Hcs Et Hp Eq. destruct (in_chain cs p) eqn:E; [|done]. apply (in_chain_iff cs t p b Hcs Et Hp) in E. pose proof (io_tree _ Hcs) as Ht.
  assert (t = p) as -> by (apply (ancestor_antisym _ p b t Ht Hp); [by apply (ancestor_step _ p b) | done]). destruct (Ht p b Hp) as [_ H1]. rewrite Eq in H1.
  destruct H1 as (b' & Hb' & Eh & _). simplify_eq. lia.
Qed.

Lemma UpdateTip_ok cs p b : index_ok cs -> index cs !! p = Some b -> index_ok (UpdateTip (Some p) cs) /\ tip (UpdateTip (Some p) cs) = Some p.
Proof.
  intros [Ht Hw Hc Ho Hl Hpa Hi] Hp. split; [split; try done; cbn; by apply (SetTip_ok _ _ p b)|]. unfold tip, UpdateTip. cbn. by rewrite Hp.
Qed.

(** The order of the candidates depends on these fields only. *)

Definition key (b : CBlockIndex) : (option ptr * option ptr * Z * base_uint) * Z * Z * Z := (place b, nChainTx b, nSequenceId b, mValidationCompletionTime b).

Definition same_key (h h' : heap) : Prop := key <$> h = key <$> h'.

Lemma same_key_lookup h h' p b : same_key h h' -> h !! p = Some b -> exists b', h' !! p = Some b' /\ key b' = key b.
Proof.
  intros E Hp. assert ((key <$> h') !! p = Some (key b)) as Hp' by (by rewrite <- E, lookup_fmap, Hp).
  rewrite lookup_fmap in Hp'. destruct (h' !! p) as [b'|]; [|done]. exists b'. split; [done|]. by apply (inj Some) in Hp'.
Qed.

Lemma same_key_tree h h' : same_key h h' -> same_tree h h'.
Proof.
  intros E. apply map_eq. intros p. rewrite !lookup_fmap. destruct (h !! p) as [b|] eqn:Hp.
  - destruct (same_key_lookup h h' p b E Hp) as (b' & -> & Ek). injection Ek as E1 E2 E3 E4 _ _ _. cbn. unfold place. by rewrite E1, E2, E3, E4.
  - destruct (h' !! p) as [b'|] eqn:Hp'; [|done]. unfold same_key in E. symmetry in E. destruct (same_key_lookup h' h p b' E Hp') as (b & Hb & _). congruence.
Qed.

Lemma comparator_key h h' p q : same_key h h' -> CBlockIndexWorkComparator h' p q = CBlockIndexWorkComparator h p q.
Proof.
  intros E. unfold CBlockIndexWorkComparator. pose proof (same_key_tree _ _ E) as Et.
  destruct (h !! p) as [a|] eqn:Hp; [|by rewrite (same_tree_none h h' p Et Hp)]. destruct (same_key_lookup h h' p a E Hp) as (a' & -> & Ea).
  destruct (h !! q) as [b|] eqn:Hq; [|by rewrite (same_tree_none h h' q Et Hq)]. destruct (same_key_lookup h h' q b E Hq) as (b' & -> & Eb).
  unfold key, place in Ea, Eb. injection Ea as _ _ _ -> _ -> ->. injection Eb as _ _ _ -> _ -> ->. done.
Qed.

Lemma index_ok_key cs h : index_ok cs -> same_key (index cs) h -> index_ok (set_index cs h).
Proof.
  intros [Ht Hw Hc Ho Hl Hp Hi] E. pose proof (same_key_tree _ _ E) as Et. split; cbn.
  - by rewrite <- Et.
  - by rewrite <- Et.
  - by rewrite <- Et.
  - clear -E Ho. induction Ho as [|p s Hs IH Hf]; constructor; [done|]. eapply list.Forall_impl; [exact Hf|]. intros q. unfold less. cbn. by rewrite (comparator_key _ _ p q E).
  - intros p Hin. destruct (Hl p Hin) as (b & Hb & Hn). destruct (same_key_lookup _ _ p b E Hb) as (b' & Hb' & Ek). exists b'. split; [done|]. injection Ek as _ _ _ _ -> _ _. done.
  - intros p b' q bq' Hb' Hn Eq Hq'. unfold same_key in E. symmetry in E. destruct (same_key_lookup _ _ p b' E Hb') as (b & Hb & Ek). destruct (same_key_lookup _ _ q bq' E Hq') as (bq & Hq & Ekq).
    injection Ekq as _ _ _ _ <- _ _. injection Ek as E1 _ _ _ E2 _ _. apply (Hp p b q bq Hb); congruence.
  - intros p Ep. destruct (Hi p Ep) as [b Hb]. destruct (same_key_lookup _ _ p b E Hb) as (b' & Hb' & _). by eexists.
Qed.

(** What raising the validity changes. *)

Lemma RaiseValidity_shape b v now : exists s t, RaiseValidity b v now = with_rank (with_status b s) (nSequenceId b) t /\
  (s = nStatus b \/ s = withValidity (nStatus b) v /\ getValidity (nStatus b) < validity_code v) /\
  (t = mValidationCompletionTime b \/ mValidationCompletionTime b = time_max /\ t = now).
Proof.
  unfold RaiseValidity, RaiseValidityNL. destruct (isInvalid (nStatus b)); [exists (nStatus b), (mValidationCompletionTime b); split; [by destruct b | by split; left]|].
  destruct (Z.leb_spec (validity_code v) (getValidity (nStatus b))); [exists (nStatus b), (mValidationCompletionTime b); split; [by destruct b | by split; left]|].
  exists (withValidity (nStatus b) v). cbn [andb]. destruct (_ =? _); cbn [andb]; [|exists (mValidationCompletionTime b); split; [by destruct b | split; [by right | by left]]].
  cbn [mValidationCompletionTime with_status]. destruct (Z.eqb_spec (mValidationCompletionTime b) time_max) as [E|E].
  - exists now. split; [done|]. split; by right.
  - exists (mValidationCompletionTime b). split; [by destruct b|]. split; [by right | by left].
Qed.

Lemma withValidity_other mask status v : Z.land (u32 (Z.lnot VALIDITY_MASK)) mask = mask -> Z.land (validity_code v) mask = 0 -> Z.land (withValidity status v) mask = Z.land status mask.
Proof. intros E E'. unfold withValidity. by rewrite Z.land_lor_distr_l, <- Z.land_assoc, E, E', Z.lor_0_r. Qed.

Lemma writeUndoToDisk_shape now b : exists s t, writeUndoToDisk now b = with_rank (with_status b s) (nSequenceId b) t /\
  (t = mValidationCompletionTime b \/ mValidationCompletionTime b = time_max /\ t = now) /\
  (forall mask, mask = HAS_DATA_FLAG \/ mask = INVALID_MASK \/ mask = FAILED_FLAG -> Z.land s mask = Z.land (nStatus b) mask) /\
  (validity_code TREE <= getValidity (nStatus b) -> validity_code TREE <= getValidity s).
Proof.
  assert (forall b', b' = b \/ b' = with_status b (withUndo (nStatus b) true) -> exists s t, RaiseValidity b' SCRIPTS now = with_rank (with_status b s) (nSequenceId b) t /\
    (t = mValidationCompletionTime b \/ mValidationCompletionTime b = time_max /\ t = now) /\
    (forall mask, mask = HAS_DATA_FLAG \/ mask = INVALID_MASK \/ mask = FAILED_FLAG -> Z.land s mask = Z.land (nStatus b) mask) /\
    (validity_code TREE <= getValidity (nStatus b) -> validity_code TREE <= getValidity s)) as Hr.
  { intros b' Hb'. assert (exists s0, b' = with_status b s0 /\ (forall mask, mask = HAS_DATA_FLAG \/ mask = INVALID_MASK \/ mask = FAILED_FLAG \/ mask = VALIDITY_MASK -> Z.land s0 mask = Z.land (nStatus b) mask)) as (s0 & -> & Hs0).
    { destruct Hb' as [-> | ->]; [exists (nStatus b); split; [by destruct b | done]|]. exists (withUndo (nStatus b) true). split; [done|]. unfold withUndo. intros mask [-> | [-> | [-> | ->]]]; by rewrite with_flag_mask. }
    destruct (RaiseValidity_shape (with_status b s0) SCRIPTS now) as (s & t & E & Hs & Htm). cbn [nStatus with_status mValidationCompletionTime nSequenceId] in *. exists s, t. split; [by rewrite E|]. split; [done|].
    destruct Hs as [-> | [-> _]]; (split; [intros mask Hm|]).
    - apply Hs0. tauto.
    - unfold getValidity. by rewrite Hs0 by tauto.
    - rewrite withValidity_other; [apply Hs0; tauto | by destruct Hm as [-> | [-> | ->]] | by destruct Hm as [-> | [-> | ->]]].
    - intros _. by rewrite withValidity_mask. }
  unfold writeUndoToDisk. destruct (_ || _); [apply Hr; destruct (hasUndo (nStatus b)); [by left | by right]|].
  exists (nStatus b), (mValidationCompletionTime b). split; [by destruct b|]. split; [by left|]. done.
Qed.

Lemma writeUndoToDisk_later now b : place (writeUndoToDisk now b) = place b /\ entry_later b (writeUndoToDisk now b) /\ isInvalid (nStatus (writeUndoToDisk now b)) = isInvalid (nStatus b).
Proof.
  destruct (writeUndoToDisk_shape now b) as (s & t & -> & _ & Hm & Hv). split; [done|]. cbn [nStatus with_rank with_status].
  split; [|unfold isInvalid, has_flag; by rewrite Hm by tauto].
  split; try done; cbn [nStatus with_rank with_status]; unfold hasData, isInvalid, hasFailed, has_flag; by rewrite Hm by tauto.
Qed.

Lemma erase_ok cs p : index_ok cs -> is_Some (index cs !! p) -> index_ok (erase_candidate p cs) /\ later cs (erase_candidate p cs) /\
  (forall q, q ∈ setBlockIndexCandidates (erase_candidate p cs) <-> q ∈ setBlockIndexCandidates cs /\ q <> p).
Proof.
  intros Hcs Hp. rewrite erase_filter by done. split_and!.
  - by apply (index_ok_status cs (index cs) (fun q => q <> p)).
  - by apply later_same.
  - intros q. cbn. rewrite list_elem_of_filter. tauto.
Qed.

(** No genesis block gets frozen or free, and no block of the active chain gets invalid or valid. *)

Definition steady (cs cs' : chainstate) : Prop := forall x c c', index cs !! x = Some c -> index cs' !! x = Some c' ->
  (pprev c = None -> IsInSoftConsensusFreeze c' = IsInSoftConsensusFreeze c) /\ (in_chain cs x = true -> isInvalid (nStatus c') = isInvalid (nStatus c)).

Lemma steady_same cs cs' : index cs' = index cs -> steady cs cs'.
Proof. intros E x c c' Hx. rewrite E. intros Hx'. by simplify_eq. Qed.

Lemma write_undo_ok cs p b now : index_ok cs -> index cs !! p = Some b -> nChainTx b <> 0 ->
  let cs' := write_undo p now cs in
  index_ok cs' /\ later cs cs' /\ index cs' = alter (writeUndoToDisk now) p (index cs) /\ chainActive cs' = chainActive cs /\
  (forall q, q ∈ setBlockIndexCandidates cs' <-> q ∈ setBlockIndexCandidates cs \/ q = p).
Proof.
  intros Hcs Hp Hn cs'. destruct (erase_ok cs p Hcs ltac:(by exists b)) as (Hcs1 & Hl1 & Hel1). set (cs1 := erase_candidate p cs) in *.
  assert (index_ok (modify (writeUndoToDisk now) p cs1)) as Hcs2.
  { apply (index_ok_modify cs1 p b (writeUndoToDisk now) Hcs1); [intros H; apply Hel1 in H as [_ ?]; done | done | intros; apply writeUndoToDisk_later | |];
      rewrite (el_linked _ _ (proj1 (proj2 (writeUndoToDisk_later now b)))); [|done]. intros _ q bq. by apply (io_parents _ Hcs p b). }
  destruct (index_ok_insert (modify (writeUndoToDisk now) p cs1) p (writeUndoToDisk now b) Hcs2) as [Hcs3 Hel3].
  { cbn. by rewrite lookup_alter_eq, Hp. }
  { by rewrite (el_linked _ _ (proj1 (proj2 (writeUndoToDisk_later now b)))). }
  split_and!; [exact Hcs3 | | done | done|].
  - apply (later_trans _ cs1); [done|]. apply (later_trans _ (modify (writeUndoToDisk now) p cs1)); [apply later_modify; intros; apply writeUndoToDisk_later | by apply later_same].
  - intros q. unfold cs', write_undo. fold cs1. rewrite Hel3. change (setBlockIndexCandidates (modify (writeUndoToDisk now) p cs1)) with (setBlockIndexCandidates cs1).
    rewrite Hel1. destruct (decide (q = p)); tauto.
Qed.

Lemma note_invalid_ok p cs : index_ok cs -> is_Some (index cs !! p) -> exists cs', note_invalid p cs = Some cs' /\ index_ok cs' /\ later cs cs' /\
  index cs' = index cs /\ setBlockIndexCandidates cs' = setBlockIndexCandidates cs /\ chainActive cs' = chainActive cs.
Proof. intros Hcs Hp. destruct (note_invalid_spec p cs Hcs Hp) as (q & E & Hok). exists (set_best_invalid cs q). split_and!; try done. by apply later_same. Qed.

Lemma InvalidChainFound_ok p cs t : index_ok cs -> is_Some (index cs !! p) -> tip cs = Some t -> exists cs', InvalidChainFound p cs = Some cs' /\ index_ok cs' /\ later cs cs' /\
  index cs' = index cs /\ setBlockIndexCandidates cs' = setBlockIndexCandidates cs /\ chainActive cs' = chainActive cs.
Proof.
  intros Hcs Hp Et. destruct (note_invalid_ok p cs Hcs Hp) as (cs' & E & H1 & H2 & H3 & H4 & H5). exists cs'. split_and!; try done.
  unfold InvalidChainFound. rewrite E. cbn [mbind option_bind]. unfold tip in *. rewrite H5, Et. done.
Qed.

Lemma failed_later b : place (ModifyStatusWithFailed b) = place b /\ entry_later b (ModifyStatusWithFailed b) /\ hasFailed (nStatus (ModifyStatusWithFailed b)) = true.
Proof.
  split; [done|]. assert (hasFailed (nStatus (ModifyStatusWithFailed b)) = true) as Hf by (unfold hasFailed, has_flag, ModifyStatusWithFailed, withFailed; cbn [nStatus with_status]; by rewrite with_flag_has).
  split; [|done]. unfold ModifyStatusWithFailed, withFailed in *. split; try done; cbn [nStatus with_status] in *; [unfold getValidity; by rewrite with_flag_mask | unfold hasData, has_flag; by rewrite with_flag_mask|].
  intros _. unfold isInvalid, has_flag. apply negb_true_iff, Z.eqb_neq. intros E. assert (Z.land (Z.land (with_flag FAILED_FLAG (nStatus b) true) INVALID_MASK) FAILED_FLAG = 0) as E' by (by rewrite E).
  rewrite <- Z.land_assoc in E'. change (Z.land INVALID_MASK FAILED_FLAG) with FAILED_FLAG in E'. by rewrite with_flag_has in E'.
Qed.

Lemma failed_invalid b : hasFailed (nStatus b) = true -> isInvalid (nStatus b) = true.
Proof.
  unfold hasFailed, isInvalid, has_flag. rewrite !negb_true_iff, !Z.eqb_neq. intros Hn E. apply Hn.
  assert (Z.land (Z.land (nStatus b) INVALID_MASK) FAILED_FLAG = 0) as E' by (by rewrite E). by rewrite <- Z.land_assoc in E'.
Qed.

Lemma InvalidBlockFound_ok p b cs t : index_ok cs -> index cs !! p = Some b -> isInvalid (nStatus b) = false -> tip cs = Some t -> in_chain cs p = false -> exists cs',
  InvalidBlockFound p false false cs = Some cs' /\ index_ok cs' /\ later cs cs' /\ chainActive cs' = chainActive cs /\ (chances cs' < chances cs)%nat /\ steady cs cs'.
Proof.
  intros Hcs Hp Hv Et Hout. unfold InvalidBlockFound. cbn [orb]. set (cs1 := modify ModifyStatusWithFailed p cs).
  assert (later cs cs1) as Hl1 by (apply later_modify; intros; apply failed_later).
  assert (index_ok cs1) as Hcs1.
  { pose proof (index_ok_status cs (index cs1) (fun _ => True) Hcs) as Hok. cbn in Hok. rewrite filter_all in Hok by done. apply Hok. symmetry. by apply same_but_status_alter. }
  assert (index cs1 !! p = Some (ModifyStatusWithFailed b)) as Hp1 by (cbn; by rewrite lookup_alter_eq, Hp).
  destruct (erase_ok cs1 p Hcs1 ltac:(by eexists)) as (Hcs2 & Hl2 & _).
  destruct (InvalidChainFound_ok p (erase_candidate p cs1) t Hcs2 ltac:(by eexists) Et) as (cs' & E & Hcs' & Hl3 & Ei & _ & Ec). exists cs'.
  assert (later cs cs') as Hl by (apply (later_trans _ _ _ Hl1), (later_trans _ _ _ Hl2), Hl3). split_and!; try done.
  2:{ intros x c c' Hx. rewrite Ei. cbn. intros (c0 & Hx0 & ->)%alter_get. rewrite Hx in Hx0. injection Hx0 as <-. destruct (decide (x = p)) as [->|]; [|done]. split; [done | congruence]. }
  apply (later_chances_lt cs cs' p Hl). left. split.
  - apply unfailed_elem. exists b. split; [done|]. destruct (hasFailed (nStatus b)) eqn:Ef; [|done]. by rewrite (failed_invalid b Ef) in Hv.
  - rewrite unfailed_elem. intros (b' & Hb' & Ef). rewrite Ei in Hb'. cbn in Hb'. rewrite lookup_alter_eq, Hp in Hb'. injection Hb' as <-. by rewrite (proj2 (proj2 (failed_later b))) in Ef.
Qed.

Lemma freeze_found cs p b q d : index_ok cs -> index cs !! p = Some b -> pprev b = Some q -> 0 <= d -> mSoftConsensusFreezeForNBlocks b = -1 -> nHeight b < 2 ^ 31 - 1 - d ->
  exists h', softConsensusFreeze p d (index cs) = Some h' /\ index_ok (set_index cs h') /\ later cs (set_index cs h') /\ (chances (set_index cs h') < chances cs)%nat /\ steady cs (set_index cs h').
Proof.
  intros Hcs Hp Eq Hd Hown Hmax. pose proof (io_tree _ Hcs) as Ht. destruct (freeze_spec (index cs) Ht p b Hp d Hd Hown Hmax) as (h' & l & E & R). exists h'. split; [done|].
  assert (forall x c, index cs !! x = Some c -> exists c', h' !! x = Some c' /\ key c' = key c /\ entry_later c c' /\ (pprev c = None -> c' = c) /\ isInvalid (nStatus c') = isInvalid (nStatus c)) as Hx.
  { intros x c Hc. destruct (decide (x = p)) as [->|Hne].
    - exists (freeze_root d b). split; [apply (fr_root _ _ _ _ _ _ R)|]. assert (c = b) as -> by congruence. split; [done|].
      unfold freeze_root, withDataForSoftConsensusFreeze. split; [|split; [congruence | cbn [nStatus with_status with_soft]; unfold isInvalid, has_flag; by rewrite with_flag_mask]]. split; try done; cbn [nStatus with_status with_soft mSoftConsensusFreezeForNBlocks]; unfold getValidity, hasData, isInvalid, hasFailed, has_flag;
        first [by rewrite with_flag_mask | intros _; lia].
    - destruct (decide (x ∈ l)) as [Hin|Hout]; [|exists c; rewrite (fr_out _ _ _ _ _ _ R) by done; split_and!; try done; apply entry_later_refl].
      destruct (freeze_has_parent (index cs) Ht p b Hp d h' l x c R Hc Hin) as [y Ey]. destruct (fr_kid _ _ _ _ _ _ R x c y Hin Hc Ey) as (cy & _ & ->). eexists. split; [done|]. split; [done|].
      split; [by split|]. split; [congruence | done]. }
  assert (same_key (index cs) h') as Ek.
  { apply map_eq. intros x. rewrite !lookup_fmap. destruct (index cs !! x) as [c|] eqn:Hc; [destruct (Hx x c Hc) as (c' & -> & E' & _); cbn; by rewrite E'|].
    by rewrite (same_tree_none _ _ x (fr_tree _ _ _ _ _ _ R) Hc). }
  assert (later cs (set_index cs h')) as Hl.
  { split; [by apply same_key_tree | | done]. intros x c Hc. destruct (Hx x c Hc) as (c' & Hc' & _ & He & _). by exists c'. }
  split_and!; [by apply index_ok_key | done | |].
  - apply (later_chances_lt _ _ p Hl). right. split; [apply unfrozen_elem; by exists b|]. rewrite unfrozen_elem. intros (b' & Hb' & Ef). cbn in Hb'. rewrite (fr_root _ _ _ _ _ _ R) in Hb'.
    injection Hb' as <-. cbn in Ef. lia.
  - intros x c c' Hc Hc'. destruct (Hx x c Hc) as (c1 & Hc1 & _ & _ & Hsame & Hinv). cbn in Hc'. rewrite Hc1 in Hc'. injection Hc' as <-. split; [|done]. intros Ec. by rewrite (Hsame Ec).
Qed.

Lemma trimmed_steady cs cs' t : index_ok cs -> tip cs = Some t -> trimmed cs cs' -> steady cs cs'.
Proof.
  intros Hcs Et Htr x c c' Hx Hx'. destruct (tr_status _ _ Htr x c Hx) as [E|[E (a & ba & Ha & _ & Hout & Hba & _)]]; rewrite E in Hx'; injection Hx' as <-; [done|].
  split; [done|]. intros Hin%(in_chain_iff cs t x c Hcs Et Hx). assert (in_chain cs a = true) by (apply (in_chain_iff cs t a ba Hcs Et Hba), (ancestor_trans _ a x t Ha Hin)). congruence.
Qed.

(** The candidates that are left. *)

Lemma prune_loop_spec cs t bt rejected : index cs !! t = Some bt -> forall s, Forall (fun p => is_Some (index cs !! p)) s ->
  exists s1 s2, prune_loop cs t rejected s = Some s2 /\ s = s1 ++ s2 /\ Forall (fun q => less cs q t = true) s1.
Proof.
  intros Ht. induction 1 as [|p s [b Hp] Hs (s1 & s2 & E & -> & Hf)]; cbn [prune_loop]; [by exists [], []|]. rewrite Hp. cbn [mbind option_bind].
  destruct (less cs p t) eqn:El; cbn [andb]; [|by exists [], (p :: s1 ++ s2)]. destruct (negb rejected || IsSoftRejected b); [|by exists [], (p :: s1 ++ s2)].
  exists (p :: s1), s2. split; [done|]. split; [done|]. by constructor.
Qed.

Lemma Prune_ok cs t m : index_ok cs -> tip cs = Some t -> m ∈ setBlockIndexCandidates cs -> less cs m t = false ->
  exists cs', PruneBlockIndexCandidates cs = Some cs' /\ index_ok cs' /\ later cs cs' /\ index cs' = index cs /\ chainActive cs' = chainActive cs /\
    (forall q, q ∈ setBlockIndexCandidates cs' -> q ∈ setBlockIndexCandidates cs) /\ (forall q, q ∈ setBlockIndexCandidates cs -> less cs q t = false -> q ∈ setBlockIndexCandidates cs').
Proof.
  intros Hcs Et Hm Hlm. destruct (tip_block cs t Hcs Et) as [bt Ht]. unfold PruneBlockIndexCandidates. rewrite Et. cbn [mbind option_bind]. rewrite Ht. cbn [mbind option_bind].
  destruct (IsInSoftConsensusFreeze bt); [exists cs; split_and!; try done; apply later_refl|].
  destruct (prune_loop_spec cs t bt (IsSoftRejected bt) Ht _ (candidates_blocks cs Hcs)) as (s1 & s2 & -> & Es & Hf). cbn [mbind option_bind].
  assert (forall q, q ∈ setBlockIndexCandidates cs -> less cs q t = false -> q ∈ s2) as Hkeep.
  { intros q. rewrite Es, elem_of_app. intros [Hq|Hq] Hl; [|done]. apply (proj1 (list.Forall_forall _ _) Hf) in Hq. congruence. }
  destruct s2 as [|x s2]; [by apply Hkeep, elem_of_nil in Hm|]. eexists. split; [done|]. split_and!; try done; [| by apply later_same |].
  - destruct Hcs as [H1 H2 H3 Ho Hl H4 H5]. split; try done; cbn.
    + rewrite Es in Ho. clear -Ho. induction s1 as [|y s1 IH]; [done|]. apply IH. by apply StronglySorted_inv in Ho as [? _].
    + intros q Hq. apply Hl. rewrite Es. apply elem_of_app. by right.
  - intros q Hq. cbn in Hq. rewrite Es. apply elem_of_app. by right.
Qed.

(** ** A node at work *)

(** No block is worth less than its parent. *)

Definition works_grow (h : heap) : Prop := forall p b q bq, h !! p = Some b -> pprev b = Some q -> h !! q = Some bq -> val (nChainWork bq) < val (nChainWork b).

Lemma works_grow_same h h' : same_tree h h' -> works_grow h -> works_grow h'.
Proof.
  intros E Hw p b' q bq' Hp' Eq Hq'. symmetry in E. destruct (same_tree_lookup _ _ p b' E Hp') as (b & Hp & Ep). destruct (same_tree_lookup _ _ q bq' E Hq') as (bq & Hq & Epq).
  injection Ep as E1 _ _ E2. injection Epq as _ _ _ E3. rewrite <- E2, <- E3. apply (Hw p b q bq Hp); congruence.
Qed.

Lemma ancestor_work h p b q bq : tree_ok h -> works_grow h -> h !! p = Some b -> ancestor h q p -> h !! q = Some bq -> q <> p -> val (nChainWork bq) < val (nChainWork b).
Proof.
  intros Ht Hw. remember (Z.to_nat (nHeight b)) as n eqn:En. revert p b En. induction n as [n IH] using lt_wf_ind. intros p b En Hp Ha Hq Hne.
  destruct (ancestor_inv _ p b q Ht Hp Ha) as [->|(r & Er & Hr)]; [done|]. destruct (Ht p b Hp) as [Hpos H1]. rewrite Er in H1. destruct H1 as (br & Hbr & Eh & _).
  pose proof (proj1 (Ht r br Hbr)). pose proof (Hw p b r br Hp Er Hbr). destruct (decide (q = r)) as [->|Hqr]; [by simplify_eq|].
  pose proof (IH (Z.to_nat (nHeight br)) ltac:(lia) r br eq_refl Hbr Hr Hq Hqr). lia.
Qed.

Lemma less_work cs p b q bq : index_ok cs -> index cs !! p = Some b -> index cs !! q = Some bq -> val (nChainWork b) < val (nChainWork bq) -> less cs p q = true /\ less cs q p = false.
Proof.
  intros Hcs Hp Hq Hlt. pose proof (io_works _ Hcs) as Hw. assert (less cs p q = true) as E.
  { unfold less. rewrite (comparator_spec (index cs) p q b bq Hw Hp Hq). by left. }
  split; [done|]. destruct (decide (p = q)) as [->|Hne]; [simplify_eq; lia|]. unfold less in *. rewrite (comparator_total (index cs) q p) by (done || by eexists). by rewrite E.
Qed.

Lemma root_ancestor h p b : tree_ok h -> h !! p = Some b -> exists g bg, ancestor h g p /\ h !! g = Some bg /\ pprev bg = None.
Proof.
  intros Ht. remember (Z.to_nat (nHeight b)) as n eqn:En. revert p b En. induction n as [n IH] using lt_wf_ind. intros p b En Hp. destruct (Ht p b Hp) as [Hpos H1].
  destruct (pprev b) as [q|] eqn:Eq; [|exists p, b; split; [apply ancestor_refl | done]]. destruct H1 as (bq & Hq & Eh & _). pose proof (proj1 (Ht q bq Hq)).
  destruct (IH (Z.to_nat (nHeight bq)) ltac:(lia) q bq eq_refl Hq) as (g & bg & Hg & Hbg). exists g, bg. split; [|done]. apply (ancestor_trans _ g q p Hg). by apply (ancestor_step _ p b).
Qed.

(** [l] leads from [t], which is left out, up to [x]. *)

Fixpoint path (h : heap) (t : ptr) (l : list ptr) (x : ptr) : Prop :=
  match l with
  | [] => t = x
  | p :: l => (exists b, h !! p = Some b /\ pprev b = Some t) /\ path h p l x
  end.

Lemma path_same h h' l x : same_tree h h' -> forall t, path h t l x -> path h' t l x.
Proof.
  intros E. induction l as [|p l IH]; intros t; [done|]. intros [(b & Hb & Eb) Hl]. split; [|by apply IH].
  destruct (same_tree_lookup h h' p b E Hb) as (b' & Hb' & Ep). injection Ep as Ep _ _ _. exists b'. split; [done | congruence].
Qed.

Lemma path_snoc h l q x b : h !! x = Some b -> pprev b = Some q -> forall t, path h t l q -> path h t (l ++ [x]) x.
Proof. intros Hx Eq. induction l as [|p l IH]; intros t; cbn; [intros ->; split; [by exists b | done]|]. intros [Hp Hl]. split; [done | by apply IH]. Qed.

Lemma path_ancestor h l x : forall t, path h t l x -> ancestor h t x.
Proof.
  induction l as [|p l IH]; intros t; cbn; [intros ->; apply ancestor_refl|]. intros [(b & Hb & Eb) Hl]. apply (ancestor_trans _ t p x); [by apply (ancestor_step _ p b) | by apply IH].
Qed.

Lemma path_elem h l x : tree_ok h -> forall t q, path h t l x -> q ∈ l -> (exists b, h !! q = Some b) /\ ancestor h t q /\ q <> t /\ ancestor h q x.
Proof.
  intros Ht. induction l as [|p l IH]; intros t q; cbn; [by intros _ ?%elem_of_nil|]. intros [(b & Hb & Eb) Hl]. pose proof (ancestor_step _ p b t Hb Eb) as Htp.
  destruct (Ht p b Hb) as [_ H1]. rewrite Eb in H1. destruct H1 as (bt & Hbt & Eh & _). intros [->|Hq]%elem_of_cons.
  - split_and!; [by exists b | done | intros ->; simplify_eq; lia | by apply (path_ancestor h l)].
  - destruct (IH p q Hl Hq) as ((bq & Hbq) & Hpq & Hne & Hqx). split_and!; [by exists bq | by apply (ancestor_trans _ t p q) | | done].
    intros ->. destruct (ancestor_height h t bt p Ht Hbt Hpq) as (b' & Hb' & Hle & _). simplify_eq. lia.
Qed.

(** [t'] is above [t] on the way to [m]. *)

Definition climbs (h : heap) (t m t' : ptr) : Prop := ancestor h t t' /\ t' <> t /\ ancestor h t' m.

Lemma climbs_via h t x bx m t' : tree_ok h -> h !! x = Some bx -> ancestor h t x -> climbs h x m t' -> climbs h t m t'.
Proof.
  intros Ht Hx Htx (H1 & H2 & H3). split_and!; [by apply (ancestor_trans _ t x t') | | done]. intros ->. apply H2. by apply (ancestor_antisym h x bx).
Qed.

Lemma to_connect_spec h f bf : tree_ok h -> h !! f = Some bf -> forall fuel q b l x, h !! q = Some b -> ancestor h f q -> nHeight b - nHeight bf <= Z.of_nat fuel -> path h q l x ->
  exists l', to_connect h fuel (nHeight bf) (Some q) l = Some l' /\ path h f l' x.
Proof.
  intros Ht Hf. induction fuel as [|fuel IH]; intros q b l x Hq Ha Hfuel Hl; cbn [to_connect]; rewrite Hq; cbn [mbind option_bind]; destruct (ancestor_height h q b f Ht Hq Ha) as (bf' & Hf' & Hle & _);
    rewrite Hf in Hf'; injection Hf' as <-; destruct (Z.eqb_spec (nHeight b) (nHeight bf)) as [E|E];
    [rewrite (ancestor_level h q b f bf Ht Hq Ha Hf ltac:(lia)); by exists l | lia | rewrite (ancestor_level h q b f bf Ht Hq Ha Hf ltac:(lia)); by exists l |].
  destruct (ancestor_inv h q b f Ht Hq Ha) as [->|(q' & Eq & Ha')]; [by simplify_eq|]. rewrite Eq. destruct (Ht q b Hq) as [_ H1]. rewrite Eq in H1. destruct H1 as (bq' & Hq' & Eh & _).
  apply (IH q' bq'); [done | done | lia|]. split; [by exists b | done].
Qed.

(** No candidate that may become the tip ranks above the tip. *)

Definition settled (cs : chainstate) : Prop := exists t, tip cs = Some t /\
  forall q b, q ∈ setBlockIndexCandidates cs -> index cs !! q = Some b -> eligible b -> usable cs q -> q = t \/ less cs q t = true.

Definition child (h : heap) (t p : ptr) : Prop := exists b, h !! p = Some b /\ pprev b = Some t.

#[local] Instance child_proper : Proper (same_tree ==> eq ==> eq ==> iff) child.
Proof.
  assert (forall h h' t p, same_tree h h' -> child h t p -> child h' t p) as Himp.
  { intros h h' t p E (b & Hb & Eb). destruct (same_tree_lookup h h' p b E Hb) as (b' & Hb' & Ep). injection Ep as Ep _ _ _. exists b'. split; congruence. }
  intros h h' E t ? <- p ? <-. split; apply Himp; [done | by symmetry].
Qed.

Lemma child_ne h t p : tree_ok h -> child h t p -> p <> t.
Proof. intros Ht (b & Hb & Eb) ->. destruct (Ht t b Hb) as [_ H1]. rewrite Eb in H1. destruct H1 as (b' & Hb' & Eh & _). simplify_eq. lia. Qed.

Lemma child_work h t p b bt : works_grow h -> child h t p -> h !! p = Some b -> h !! t = Some bt -> val (nChainWork bt) < val (nChainWork b).
Proof. intros Hw (b' & Hb' & Eb) Hb Hbt. rewrite Hb in Hb'. injection Hb' as <-. by apply (Hw p b t bt). Qed.

Lemma less_asym cs p q : index_ok cs -> less cs p q = true -> less cs q p = true -> False.
Proof. intros Hcs H1 H2. pose proof (comparator_trans _ p q p (io_works _ Hcs) H1 H2) as E. by rewrite comparator_irrefl in E by apply Hcs. Qed.

Lemma chain_usable cs t : index_ok cs -> tip cs = Some t -> usable cs t.
Proof. intros Hcs Et q b Ha Hout Hb. apply (in_chain_iff cs t q b Hcs Et Hb) in Ha. congruence. Qed.

Section loop.

Context {C : Type} `{CoinsTip C} (coins_at : heap -> ptr -> C -> Prop) `{HC : !CoinsTipLaws C coins_at}.
Context (clock : nat -> Z) (duration : Z) (in_validation : ptr -> bool) (spared : ptr -> Prop).
Context (Hclock : forall k, clock k <= time_max) (Hduration : 0 <= duration).

(** There is a tip, the coins are those of its chain, every genesis block is on it and not frozen, and no block of the chain is
    marked as invalid, the blocks of [spared] apart. *)

Record node_ok (n : node) : Prop := {
  no_index : index_ok (chain n);
  no_tip : exists t, tip (chain n) = Some t /\ coins_at (index (chain n)) t (coins n);
  no_root p b : index (chain n) !! p = Some b -> pprev b = None -> in_chain (chain n) p = true /\ IsInSoftConsensusFreeze b = false;
  no_valid p b : index (chain n) !! p = Some b -> in_chain (chain n) p = true -> isInvalid (nStatus b) = false \/ spared p;
  no_height p b : index (chain n) !! p = Some b -> nHeight b < 2 ^ 31 - 1 - duration;
  no_work : works_grow (index (chain n)) }.

(** The entries change, the tree and the active chain do not. *)

Lemma node_ok_entries n cs k : node_ok n -> index_ok cs -> same_tree (index (chain n)) (index cs) -> chainActive cs = chainActive (chain n) ->
  (forall x c c', index (chain n) !! x = Some c -> index cs !! x = Some c' ->
     (pprev c = None -> IsInSoftConsensusFreeze c' = IsInSoftConsensusFreeze c) /\ (in_chain (chain n) x = true -> isInvalid (nStatus c') = isInvalid (nStatus c) \/ spared x)) ->
  node_ok {| chain := cs; coins := coins n; calls := k |}.
Proof.
  intros [Hi (t & Et & Hc) Hr Hv Hh Hw] Hcs Es Ec Hfr. pose proof Es as Es'. symmetry in Es'. split; cbn.
  - done.
  - exists t. split; [unfold tip; by rewrite Ec|]. by apply (coins_at_tree (index (chain n))).
  - intros p b' Hp' Eb'. destruct (same_tree_lookup _ _ p b' Es' Hp') as (b & Hp & Ep). injection Ep as Ep _ _ _. rewrite <- Ep in Eb'.
    destruct (Hr p b Hp Eb') as [H1 H2]. split; [unfold in_chain in *; rewrite Ec; by rewrite <- Es|]. by rewrite (proj1 (Hfr p b b' Hp Hp')).
  - intros p b' Hp' Hin. assert (in_chain (chain n) p = true) as Hin0 by (unfold in_chain in *; rewrite Ec in Hin; by rewrite Es).
    destruct (same_tree_lookup _ _ p b' Es' Hp') as (b & Hp & _). destruct (proj2 (Hfr p b b' Hp Hp') Hin0) as [-> |]; [by apply (Hv p b) | by right].
  - intros p b' Hp'. destruct (same_tree_lookup _ _ p b' Es' Hp') as (b & Hp & Ep). injection Ep as _ _ Ep _. rewrite <- Ep. by apply (Hh p b).
  - by apply (works_grow_same (index (chain n))).
Qed.

Lemma node_ok_later n cs k : node_ok n -> index_ok cs -> later (chain n) cs -> chainActive cs = chainActive (chain n) -> steady (chain n) cs ->
  node_ok {| chain := cs; coins := coins n; calls := k |}.
Proof.
  intros Hn Hcs Hl Ec Hs. apply (node_ok_entries n cs k Hn Hcs (lt_tree _ _ Hl) Ec). intros x c c' Hx Hx'. destruct (Hs x c c' Hx Hx') as [H1 H2]. split; [done|]. intros Hin. left. by apply H2.
Qed.

(** Moving the tip along a link. *)

Lemma node_ok_tip n t p b c k : node_ok n -> tip (chain n) = Some t -> index (chain n) !! p = Some b -> coins_at (index (chain n)) p c ->
  (forall g bg, index (chain n) !! g = Some bg -> pprev bg = None -> ancestor (index (chain n)) g t -> ancestor (index (chain n)) g p) ->
  (forall x c, index (chain n) !! x = Some c -> ancestor (index (chain n)) x p -> ancestor (index (chain n)) x t \/ isInvalid (nStatus c) = false) ->
  node_ok {| chain := UpdateTip (Some p) (chain n); coins := c; calls := k |}.
Proof.
  intros [Hi (t' & Et' & Hc) Hr Hv Hh Hw] Et Hp Hcp Hroots Hvalid. rewrite Et in Et'. injection Et' as <-. destruct (UpdateTip_ok (chain n) p b Hi Hp) as [Hi' Et']. split; cbn [chain coins].
  - done.
  - by exists p.
  - intros g bg Hg Eg. destruct (Hr g bg Hg Eg) as [H1 H2]. split; [|done]. apply (in_chain_iff _ p g bg Hi' Et' Hg), (Hroots g bg Hg Eg). by apply (in_chain_iff _ t g bg Hi Et Hg).
  - intros x bx Hx Hin%(in_chain_iff _ p x bx Hi' Et' Hx). destruct (Hvalid x bx Hx Hin) as [Ha|]; [|by left]. apply (Hv x bx Hx). by apply (in_chain_iff _ t x bx Hi Et Hx).
  - done.
  - done.
Qed.

Lemma DisconnectTip_ok n t bt q : node_ok n -> tip (chain n) = Some t -> index (chain n) !! t = Some bt -> pprev bt = Some q -> exists ok n',
  DisconnectTip n = Some (ok, n') /\ (exists c, chain n' = set_chain (chain n) c) /\ (ok = true -> node_ok n' /\ chain n' = UpdateTip (Some q) (chain n)).
Proof.
  intros Hn Et Ht Eq. destruct (no_tip _ Hn) as (t' & Et' & Hc). rewrite Et in Et'. injection Et' as <-. unfold DisconnectTip. rewrite Et. cbn [mbind option_bind]. rewrite Ht. cbn [mbind option_bind].
  rewrite bool_decide_true by (apply (coins_at_best _ _ _ Hc)). assert (exists c, chain n = set_chain (chain n) c) as Hsame by (exists (chainActive (chain n)); by destruct (chain n)).
  destruct (DisconnectBlock _ _ _ _) as [| |c flushed] eqn:E; [by eexists _, _; split_and! | by eexists _, _; split_and! |].
  exists flushed. eexists. split; [done|]. destruct flushed; [|by split]. split; [rewrite Eq; by eexists|]. intros _. rewrite Eq. split; [|done].
  destruct (io_tree _ (no_index _ Hn) t bt Ht) as [_ H1]. rewrite Eq in H1. destruct H1 as (bq & Hq & _).
  apply (node_ok_tip n t q bq c _ Hn Et Hq); [by apply (disconnect_moves _ _ t bt q (coins n) c true Ht Eq Hc E) | |].
  - intros g bg Hg Eg Ha. destruct (ancestor_inv _ t bt g (io_tree _ (no_index _ Hn)) Ht Ha) as [->|(q' & Eq' & Ha')]; congruence.
  - intros x cx _ Ha. left. apply (ancestor_trans _ x q t Ha). by apply (ancestor_step _ t bt).
Qed.

Lemma remove_frozen_ok fuel : forall n t bt, node_ok n -> tip (chain n) = Some t -> index (chain n) !! t = Some bt -> nHeight bt < Z.of_nat fuel -> exists ok n',
  remove_frozen fuel n = Some (ok, n') /\ (exists c, chain n' = set_chain (chain n) c) /\ (ok = true -> node_ok n').
Proof.
  induction fuel as [|fuel IH]; intros n t bt Hn Et Ht Hf; pose proof (proj1 (io_tree _ (no_index _ Hn) t bt Ht)); [lia|].
  cbn [remove_frozen]. rewrite Et. cbn [mbind option_bind]. rewrite Ht. cbn [mbind option_bind]. destruct (IsInSoftConsensusFreeze bt) eqn:Efr; cbn [negb].
  - destruct (pprev bt) as [q|] eqn:Eq; [|by rewrite (proj2 (no_root _ Hn t bt Ht Eq)) in Efr].
    destruct (DisconnectTip_ok n t bt q Hn Et Ht Eq) as (ok & n1 & -> & (c1 & E1) & Hok). cbn [mbind option_bind fst snd]. destruct ok; [|exists false, n1; split_and!; [done | by exists c1 | done]].
    destruct (Hok eq_refl) as [Hn1 Ec]. destruct (io_tree _ (no_index _ Hn) t bt Ht) as [_ H1]. rewrite Eq in H1. destruct H1 as (bq & Hq & Eh & _).
    destruct (UpdateTip_ok (chain n) q bq (no_index _ Hn) Hq) as [_ Etq]. rewrite <- Ec in Etq. destruct (IH n1 q bq Hn1 Etq) as (ok & n2 & E2 & (c2 & Ec2) & Hok2); [by rewrite Ec | lia|].
    exists ok, n2. split_and!; [done | | done]. exists c2. by rewrite Ec2, E1.
  - exists true, n. split_and!; [done | | done]. exists (chainActive (chain n)). by destruct (chain n).
Qed.

Lemma RemoveSoftConsensusFreezeBlocks_ok n : node_ok n -> exists ok n',
  RemoveSoftConsensusFreezeBlocks n = Some (ok, n') /\ (exists c, chain n' = set_chain (chain n) c) /\ (ok = true -> node_ok n').
Proof.
  intros Hn. destruct (no_tip _ Hn) as (t & Et & _). destruct (tip_block _ t (no_index _ Hn) Et) as [bt Ht]. unfold RemoveSoftConsensusFreezeBlocks, Height.
  change (mChainTip (chainActive (chain n))) with (tip (chain n)). rewrite Et, Ht. pose proof (proj1 (io_tree _ (no_index _ Hn) t bt Ht)). apply (remove_frozen_ok _ n t bt Hn Et Ht). lia.
Qed.

Lemma disconnect_to_ok f bf fuel : forall n t bt, node_ok n -> tip (chain n) = Some t -> index (chain n) !! t = Some bt -> index (chain n) !! f = Some bf ->
  ancestor (index (chain n)) f t -> nHeight bt - nHeight bf <= Z.of_nat fuel -> exists ok n',
  disconnect_to fuel (Some f) n = Some (ok, n') /\ (exists c, chain n' = set_chain (chain n) c) /\ (ok = true -> node_ok n' /\ tip (chain n') = Some f).
Proof.
  induction fuel as [|fuel IH]; intros n t bt Hn Et Ht Hbf Ha Hf; cbn [disconnect_to]; rewrite Et; rewrite (bool_decide_false (Some t = None)) by done; cbn [orb];
    (destruct (decide (t = f)) as [->|Hne]; [rewrite bool_decide_true by done; exists true, n; split_and!; [done | exists (chainActive (chain n)); by destruct (chain n) | done]|];
     rewrite bool_decide_false by congruence); pose proof (io_tree _ (no_index _ Hn)) as Htree.
  - exfalso. apply Hne. symmetry. apply (ancestor_level _ t bt f bf Htree Ht Ha Hbf). lia.
  - destruct (ancestor_inv _ t bt f Htree Ht Ha) as [->|(q & Eq & Haq)]; [done|]. destruct (DisconnectTip_ok n t bt q Hn Et Ht Eq) as (ok & n1 & -> & (c1 & E1) & Hok).
    cbn [mbind option_bind fst snd]. destruct ok; [|exists false, n1; split_and!; [done | by exists c1 | done]].
    destruct (Hok eq_refl) as [Hn1 Ec]. destruct (Htree t bt Ht) as [_ H1]. rewrite Eq in H1. destruct H1 as (bq & Hq & Eh & _).
    destruct (UpdateTip_ok (chain n) q bq (no_index _ Hn) Hq) as [_ Etq]. rewrite <- Ec in Etq.
    destruct (IH n1 q bq Hn1 Etq) as (ok & n2 & E2 & (c2 & Ec2) & Hok2); [by rewrite Ec | by rewrite Ec | by rewrite Ec | lia|].
    exists ok, n2. split_and!; [done | | done]. exists c2. by rewrite Ec2, E1.
Qed.

(** The chain [m] is within reach: linked, and every block of it that is not on the active chain is valid. *)

Record heading (m : ptr) (n : node) : Prop := {
  hd_node : node_ok n;
  hd_linked : exists b, index (chain n) !! m = Some b /\ nChainTx b <> 0;
  hd_open q b : ancestor (index (chain n)) q m -> in_chain (chain n) q = false -> index (chain n) !! q = Some b -> isInvalid (nStatus b) = false }.

Definition eligible_at (m : ptr) (cs : chainstate) : Prop := exists b, index cs !! m = Some b /\ eligible b.

(** It is the best of the candidates that may become the tip. *)

Record best_for (m : ptr) (cs : chainstate) : Prop := {
  bf_candidate : m ∈ setBlockIndexCandidates cs;
  bf_eligible : eligible_at m cs;
  bf_usable : usable cs m;
  bf_best q b : q ∈ setBlockIndexCandidates cs -> index cs !! q = Some b -> eligible b -> usable cs q -> q = m \/ less cs q m = true }.

Definition keeps (m : ptr) (cs cs' : chainstate) : Prop := (eligible_at m cs -> eligible_at m cs') /\ (best_for m cs -> best_for m cs').

#[local] Instance keeps_preorder m : PreOrder (keeps m).
Proof. split; [by intros cs | intros cs1 cs2 cs3 [H1 H2] [H3 H4]; split; auto]. Qed.

Lemma heading_block m n p b : heading m n -> index (chain n) !! p = Some b -> ancestor (index (chain n)) p m -> in_chain (chain n) p = false ->
  isInvalid (nStatus b) = false /\ nChainTx b <> 0.
Proof.
  intros [Hn (bm & Hm & Hl) Hu] Hp Ha Hc. split; [by apply (Hu p b)|]. by apply (linked_ancestor (chain n) m bm p b (no_index _ Hn)).
Qed.

(** [ConnectTip] on the next block of such a chain. *)

Lemma ConnectTip_ok n t p b : node_ok n -> tip (chain n) = Some t -> index (chain n) !! p = Some b -> pprev b = Some t -> isInvalid (nStatus b) = false -> nChainTx b <> 0 ->
  (forall k h p c f, ConnectBlock k h p c <> Rejected f true) -> (forall k h p c c', ConnectBlock k h p c <> Accepted c' false) ->
  exists r n', ConnectTip clock duration p n = Some (r, n') /\ later (chain n) (chain n') /\ node_ok n' /\
    match r with
    | Connected => chain n' = UpdateTip (Some p) (write_undo p (clock (calls n)) (chain n))
    | Invalid corruption => corruption = false /\ (chances (chain n') < chances (chain n))%nat
    | Failed => True
    | Thrown => exists raised, ConnectBlock (calls n) (index (chain n)) p (coins n) = Cancelled raised
    end.
Proof.
  intros Hn Et Hp Eq Hv Hl Hcor Hflush. destruct (no_tip _ Hn) as (t' & Et' & Hc). rewrite Et in Et'. injection Et' as <-. pose proof (no_index _ Hn) as Hcs.
  unfold ConnectTip. rewrite Hp. cbn [mbind option_bind]. rewrite Eq, Et. rewrite bool_decide_true, (bool_decide_false (Some t = None)) by done. cbn [negb andb].
  destruct (write_undo_ok (chain n) p b (clock (calls n)) Hcs Hp Hl) as (Hok & Hlat & Ei & Ech & _). set (cs1 := write_undo p (clock (calls n)) (chain n)) in *.
  assert (forall k, node_ok {| chain := cs1; coins := coins n; calls := k |}) as Hn1.
  { intros k. apply (node_ok_later n cs1 k Hn Hok Hlat Ech). intros x c c' Hx. rewrite Ei. intros (c0 & Hx0 & ->)%alter_get. rewrite Hx in Hx0. injection Hx0 as <-.
    destruct (decide (x = p)); [|done]. split; [|intros _; apply writeUndoToDisk_later]. by destruct (writeUndoToDisk_shape (clock (calls n)) c) as (s' & t' & -> & _). }
  assert (forall (raised : bool) k, later (chain n) (if raised && true then cs1 else chain n) /\ node_ok {| chain := if raised && true then cs1 else chain n; coins := coins n; calls := k |}) as Hraise.
  { intros [|] k; cbn [andb]; [split; [done | apply Hn1]|]. split; [apply later_refl|]. apply (node_ok_later n (chain n) _ Hn Hcs (later_refl _) eq_refl). by apply steady_same. }
  destruct (ConnectBlock (calls n) (index (chain n)) p (coins n)) as [c flushed|freeze corruption|raised|raised] eqn:E.
  - destruct flushed; [|by apply Hflush in E]. eexists _, _. split; [done|]. cbn [chain]. assert (later cs1 (UpdateTip (Some p) cs1)) as Hup by (by apply later_same).
    split_and!; [by apply (later_trans _ _ _ Hlat) | | done].
    assert (index cs1 !! p = Some (writeUndoToDisk (clock (calls n)) b)) as Hp1 by (by rewrite Ei, lookup_alter_eq, Hp).
    apply (node_ok_tip {| chain := cs1; coins := coins n; calls := 0%nat |} t p (writeUndoToDisk (clock (calls n)) b) c _ (Hn1 0%nat)); cbn [chain]; [unfold tip; by rewrite Ech | exact Hp1 | | |].
    + apply (coins_at_tree (index (chain n))); [apply Hlat|]. by apply (connect_moves _ _ p b t (coins n) c true Hp Eq Hc E).
    + intros g bg Hg Eg Ha. apply (ancestor_trans _ g t p Ha). apply (ancestor_step _ p _ t Hp1). pose proof (proj1 (writeUndoToDisk_later (clock (calls n)) b)) as Ep.
      injection Ep as Ep _ _ _. by rewrite Ep.
    + intros x cx Hx Ha. rewrite <- (lt_tree _ _ Hlat) in *. destruct (ancestor_inv _ p b x (io_tree _ Hcs) Hp Ha) as [->|(q & Eq' & Ha')]; [right | left; congruence].
      rewrite Hp1 in Hx. injection Hx as <-. by rewrite (proj2 (proj2 (writeUndoToDisk_later (clock (calls n)) b))).
  - destruct corruption; [by apply Hcor in E|]. destruct freeze; cbn [mbind option_bind].
    + pose proof (frozen_once _ _ _ b _ _ Hp E) as Hown. destruct (freeze_found (chain n) p b t duration Hcs Hp Eq Hduration Hown (no_height _ Hn p b Hp)) as (h' & -> & Hok2 & Hl2 & Hch & Hroots).
      cbn [mbind option_bind InvalidBlockFound orb]. eexists _, _. split; [done|]. cbn [chain]. split_and!; [done | | done | done].
      apply (node_ok_later n (set_index (chain n) h') _ Hn Hok2 Hl2 eq_refl Hroots).
    + destruct (InvalidBlockFound_ok p b (chain n) t Hcs Hp Hv Et (child_off _ t p b Hcs Et Hp Eq)) as (cs2 & -> & Hok2 & Hl2 & Ec2 & Hch & Hfr). cbn [mbind option_bind]. eexists _, _. split; [done|]. cbn [chain].
      split_and!; [done | | done | done]. by apply (node_ok_later n cs2 _ Hn Hok2 Hl2 Ec2).
  - eexists _, _. split; [done|]. cbn [chain]. destruct (Hraise raised (S (calls n))) as [H1 H2]. split_and!; [exact H1 | exact H2 | done].
  - eexists _, _. split; [done|]. cbn [chain]. destruct (Hraise raised (S (calls n))) as [H1 H2]. split_and!; [exact H1 | exact H2 | by eexists].
Qed.

(** After a block of the chain has been connected the chain is still within reach, and still the best one. *)

Section connected.

Context (m p t : ptr) (b : CBlockIndex) (n n' : node (C := C)).
Context (Hm : heading m n) (Et : tip (chain n) = Some t) (Hp : index (chain n) !! p = Some b) (Eq : pprev b = Some t).
Context (Ha : ancestor (index (chain n)) p m) (Hout : in_chain (chain n) p = false).
Context (Hn' : node_ok n') (Ech : chain n' = UpdateTip (Some p) (write_undo p (clock (calls n)) (chain n))).

Let f : CBlockIndex -> CBlockIndex := writeUndoToDisk (clock (calls n)).

Lemma connected_facts : index (chain n') = alter f p (index (chain n)) /\ same_tree (index (chain n)) (index (chain n')) /\ tip (chain n') = Some p /\
  (forall q, q ∈ setBlockIndexCandidates (chain n') <-> q ∈ setBlockIndexCandidates (chain n) \/ q = p).
Proof.
  destruct (heading_block m n p b Hm Hp Ha Hout) as [_ Hl]. pose proof (no_index _ (hd_node _ _ Hm)) as Hcs.
  destruct (write_undo_ok (chain n) p b (clock (calls n)) Hcs Hp Hl) as (Hok & Hlat & Ei & _ & Hel). rewrite Ech. split_and!; [exact Ei | apply Hlat | | exact Hel].
  apply (UpdateTip_ok _ p (f b) Hok). by rewrite Ei, lookup_alter_eq, Hp.
Qed.

Lemma connected_chain x c : index (chain n) !! x = Some c -> in_chain (chain n') x = true <-> in_chain (chain n) x = true \/ x = p.
Proof.
  intros Hx. destruct connected_facts as (Ei & Es & Et' & _). pose proof (no_index _ (hd_node _ _ Hm)) as Hcs. destruct (same_tree_lookup _ _ x c Es Hx) as (c' & Hx' & _).
  rewrite (in_chain_iff _ p x c' (no_index _ Hn') Et' Hx'), <- Es, (in_chain_iff _ t x c Hcs Et Hx). split.
  - intros Hxp. destruct (ancestor_inv _ p b x (io_tree _ Hcs) Hp Hxp) as [->|(q & Eq' & Hq)]; [by right | left; congruence].
  - intros [Hxt| ->]; [apply (ancestor_trans _ x t p Hxt); by apply (ancestor_step _ p b) | apply ancestor_refl].
Qed.

Lemma connected_entry x c : x <> p -> index (chain n') !! x = Some c <-> index (chain n) !! x = Some c.
Proof. intros Hx. destruct connected_facts as (-> & _). by rewrite lookup_alter_ne. Qed.

Lemma connected_usable q : usable (chain n) m -> usable (chain n') q -> usable (chain n) q.
Proof.
  intros Hum Hu x c Hx Hc Hxc. destruct connected_facts as (_ & Es & _). destruct (decide (x = p)) as [->|Hne]; [by apply (Hum p c)|].
  apply (Hu x c); [by rewrite <- Es | | by apply connected_entry]. destruct (in_chain (chain n') x) eqn:E; [|done]. apply (connected_chain x c Hxc) in E as [E|E]; congruence.
Qed.

Lemma connected_off x c : in_chain (chain n') x = false -> index (chain n') !! x = Some c -> in_chain (chain n) x = false /\ index (chain n) !! x = Some c.
Proof.
  intros Hc Hxc. assert (x <> p) as Hne.
  { intros ->. assert (in_chain (chain n') p = true) as E by (apply (connected_chain p b Hp); by right). congruence. }
  apply (connected_entry x c Hne) in Hxc. split; [|done]. destruct (in_chain (chain n) x) eqn:E; [|done].
  assert (in_chain (chain n') x = true) as E' by (apply (connected_chain x c Hxc); by left). congruence.
Qed.

Lemma connected_heading : heading m n'.
Proof.
  destruct connected_facts as (Ei & Es & _). split; [done | |].
  - destruct (hd_linked _ _ Hm) as (bm & Hbm & Hl). destruct (decide (m = p)) as [->|Hne]; [|exists bm; split; [by apply connected_entry | done]].
    exists (f bm). rewrite Ei, lookup_alter_eq, Hbm. split; [done|]. unfold f. by rewrite (el_linked _ _ (proj1 (proj2 (writeUndoToDisk_later (clock (calls n)) bm)))).
  - intros x c Hx Hc Hxc. destruct (connected_off x c Hc Hxc) as [H1 H2]. apply (hd_open _ _ Hm x c); [by rewrite Es | done | done].
Qed.

Lemma writeUndoToDisk_rank q bq : before (rank q bq) (rank p b) -> before (rank q bq) (rank p (f b)).
Proof.
  unfold f. destruct (writeUndoToDisk_shape (clock (calls n)) b) as (s & tm & -> & Htm & _). unfold rank, before. cbn. pose proof (Hclock (calls n)).
  destruct Htm as [-> | [Emax ->]]; [done|]. intros [|[? [|[? H2]]]]; [by left | right; split; [done|]; lia|]. right. split; [done|]. destruct (decide (clock (calls n) = time_max)) as [->|]; [right; split; [lia | done] | left; lia].
Qed.

Lemma connected_eligible : eligible_at m (chain n) -> eligible_at m (chain n').
Proof.
  intros (bm & Hbm & Hel). destruct connected_facts as (Ei & _). destruct (decide (m = p)) as [->|Hne]; [|exists bm; split; [by apply connected_entry | done]].
  exists (f bm). rewrite Ei, lookup_alter_eq, Hbm. split; [done|]. unfold f. by destruct (writeUndoToDisk_shape (clock (calls n)) bm) as (s & tm & -> & _).
Qed.

Lemma connected_best : keeps m (chain n) (chain n').
Proof.
  split; [apply connected_eligible|].
  intros [Hin (bm & Hbm & Hel) Hum Hbest]. destruct connected_facts as (Ei & Es & Et' & Hcand). pose proof (no_index _ (hd_node _ _ Hm)) as Hcs. pose proof (no_index _ Hn') as Hcs'.
  assert (index (chain n') !! p = Some (f b)) as Hp' by (by rewrite Ei, lookup_alter_eq, Hp).
  split.
  - apply Hcand. by left.
  - apply connected_eligible. by exists bm.
  - intros x c Hx Hc Hxc. destruct (connected_off x c Hc Hxc) as [H1 H2]. apply (Hum x c); [by rewrite Es | done | done].
  - intros q bq Hq Hbq Heq Hu. destruct (decide (q = p)) as [->|Hqp].
    + destruct (decide (p = m)) as [|Hpm]; [by left|]. right. assert (index (chain n') !! m = Some bm) as Hbm' by (by apply connected_entry).
      apply (less_work (chain n') p (f b) m bm Hcs' Hp' Hbm'). apply (ancestor_work (index (chain n')) m bm p (f b)); try done; [apply Hcs' | apply Hn' | by rewrite <- Es].
    + apply Hcand in Hq as [Hq|]; [|done]. apply (connected_entry q bq Hqp) in Hbq as Hbq0. destruct (Hbest q bq Hq Hbq0 Heq (connected_usable q Hum Hu)) as [|Hless]; [by left|]. right.
      destruct (decide (m = p)) as [->|Hmp].
      * unfold less in *. assert (bm = b) as -> by congruence. rewrite (comparator_spec _ q p bq (f b) (io_works _ Hcs') Hbq Hp'). rewrite (comparator_spec _ q p bq b (io_works _ Hcs) Hbq0 Hp) in Hless.
        by apply writeUndoToDisk_rank.
      * unfold less in *. by rewrite Ei, comparator_alter.
Qed.

End connected.

(** Fewer candidates. *)

Lemma pruned_heading m n cs t : heading m n -> index_ok cs -> later (chain n) cs -> index cs = index (chain n) -> chainActive cs = chainActive (chain n) -> tip (chain n) = Some t -> ancestor (index (chain n)) t m ->
  (forall q, q ∈ setBlockIndexCandidates cs -> q ∈ setBlockIndexCandidates (chain n)) ->
  (forall q, q ∈ setBlockIndexCandidates (chain n) -> less (chain n) q t = false -> q ∈ setBlockIndexCandidates cs) ->
  heading m {| chain := cs; coins := coins n; calls := calls n |} /\ keeps m (chain n) cs.
Proof.
  intros [Hn Hl Hu] Hcs Hlat Ei Ec Et Ha Hsub Hkeep. assert (forall q, usable cs q <-> usable (chain n) q) as Hus by (intros q; unfold usable, in_chain; by rewrite Ei, Ec).
  split; [split; cbn [chain]|].
  - apply (node_ok_later n cs _ Hn Hcs Hlat Ec). by apply steady_same.
  - by rewrite Ei.
  - intros q b. unfold in_chain. rewrite Ei, Ec. apply Hu.
  - split; [intros (bm & Hbm & Hel); exists bm; by rewrite Ei|]. intros [Hin (bm & Hbm & Hel) Hum Hbest]. split.
    + apply Hkeep; [done|]. pose proof (no_index _ Hn) as Hok. destruct (decide (t = m)) as [->|Hne]; [unfold less; apply comparator_irrefl, Hok|].
      destruct (tip_block _ t Hok Et) as [bt Ht]. apply (less_work (chain n) t bt m bm Hok Ht Hbm). by apply (ancestor_work (index (chain n)) m bm t bt (io_tree _ Hok) (no_work _ Hn)).
    + exists bm. by rewrite Ei.
    + by apply Hus.
    + intros q bq Hq. rewrite Ei. unfold less. rewrite Ei, Hus. intros Hbq Heq Huq. by apply (Hbest q bq (Hsub q Hq)).
Qed.

(** *** A list of blocks, then all the groups *)

Context (Hcor : forall k h p (c : C) f, ConnectBlock k h p c <> Rejected f true).
Context (Hflush : forall k h p (c c' : C), ConnectBlock k h p c <> Accepted c' false).
Context (Hcancel : forall k h p (c : C) r, ConnectBlock k h p c <> Cancelled r).

Definition tip_listed (cs : chainstate) : Prop := forall t, tip cs = Some t -> t ∈ setBlockIndexCandidates cs.

(** What a step towards [m] may come to, where [through] and [better] hold of the state if no invalid block is found. *)

Definition outcome_ok (m : ptr) (n : node (C := C)) (pr : progress) (n' : node (C := C)) (through better : chainstate -> Prop) : Prop :=
  later (chain n) (chain n') /\
  match pr with
  | Through => heading m n' /\ through (chain n') /\ keeps m (chain n) (chain n')
  | Better => heading m n' /\ better (chain n') /\ keeps m (chain n) (chain n')
  | InvalidFound => node_ok n' /\ (chances (chain n') < chances (chain n))%nat
  | StepFailed => True
  | StepThrown => False
  end.

Lemma outcome_ok_trans m n n1 pr n' through better through' better' : later (chain n) (chain n1) -> keeps m (chain n) (chain n1) ->
  outcome_ok m n1 pr n' through better -> (pr = Through -> through (chain n') -> through' (chain n')) -> (better (chain n') -> better' (chain n')) -> outcome_ok m n pr n' through' better'.
Proof.
  intros Hl Hb [Hl' Hr] Ht Hbt. pose proof (later_chances _ _ Hl) as Hch. split; [by apply (later_trans _ _ _ Hl)|]. destruct pr; [| | | done | done].
  - destruct Hr as (H1 & H2 & H3). split_and!; [done | auto | by etrans].
  - destruct Hr as (H1 & H2 & H3). split_and!; [done | auto | by etrans].
  - destruct Hr as [H1 H2]. split; [done | lia].
Qed.

Lemma later_set_chain cs c : later cs (set_chain cs c).
Proof. by apply later_same. Qed.

(** After a rejected block. *)

Lemma reject_ok m n n1 lowest through better : later (chain n) (chain n1) -> node_ok n1 -> (chances (chain n1) < chances (chain n))%nat -> is_Some (index (chain n) !! lowest) ->
  exists pr n', (r ← RemoveSoftConsensusFreezeBlocks n1;
      if negb r.1 then Some (StepFailed, r.2)
      else cs ← InvalidChainFound lowest (chain r.2); Some (InvalidFound, {| chain := cs; coins := coins r.2; calls := calls r.2 |})) = Some (pr, n') /\ outcome_ok m n pr n' through better.
Proof.
  intros Hl Hn1 Hch [bl Hlow]. destruct (RemoveSoftConsensusFreezeBlocks_ok n1 Hn1) as (ok & n2 & -> & (c & Ec) & Hok). cbn [mbind option_bind fst snd].
  assert (later (chain n) (chain n2)) as Hl2 by (apply (later_trans _ _ _ Hl); rewrite Ec; apply later_set_chain).
  assert (chances (chain n2) = chances (chain n1)) as Ech by (by rewrite Ec). destruct ok; cbn [negb]; [|by exists StepFailed, n2; split_and!].
  specialize (Hok eq_refl). destruct (no_tip _ Hok) as (t & Et & _). destruct (lt_entry _ _ Hl2 lowest bl Hlow) as (bl' & Hlow' & _).
  destruct (InvalidChainFound_ok lowest (chain n2) t (no_index _ Hok) ltac:(by exists bl') Et) as (cs & -> & Hcs & Hl3 & Ei & _ & Ec3). cbn [mbind option_bind].
  eexists _, _. split; [done|]. split; cbn [chain]; [by apply (later_trans _ _ _ Hl2)|]. split.
  - apply (node_ok_later n2 cs _ Hok Hcs Hl3 Ec3). by apply steady_same.
  - pose proof (later_chances _ _ Hl3). lia.
Qed.

Lemma connect_list_ok o lowest m l : forall n t x, heading m n -> tip (chain n) = Some t -> path (index (chain n)) t l x -> ancestor (index (chain n)) x m ->
  (forall p, p ∈ l -> in_chain (chain n) p = false) -> is_Some (index (chain n) !! lowest) -> is_Some (index (chain n) !! o) ->
  exists pr n', connect_list clock duration (Some o) lowest l n = Some (pr, n') /\ outcome_ok m n pr n' (fun cs => tip cs = Some x /\ (l <> [] \/ tip_listed (chain n) -> tip_listed cs)) (fun cs => exists t, tip cs = Some t /\ t ∈ l /\ tip_listed cs).
Proof.
  induction l as [|p l IH]; intros n t x Hm Et Hpath Hx Hout Hlow Ho; cbn [connect_list].
  { exists Through, n. split; [done|]. split; [apply later_refl|]. split_and!; [done | by rewrite Et, Hpath | by intros [|] | done]. }
  destruct Hpath as [(b & Hp & Eq) Hpath]. pose proof (hd_node _ _ Hm) as Hn. pose proof (no_index _ Hn) as Hcs. pose proof (io_tree _ Hcs) as Htree.
  rewrite (bool_decide_false (Some o = None)) by done. rewrite (bool_decide_false (tip (chain n) = None)) by (by rewrite Et). cbn [negb andb].
  assert (ancestor (index (chain n)) p m) as Hpm by (apply (ancestor_trans _ p x m); [by apply (path_ancestor _ l) | done]). assert (in_chain (chain n) p = false) as Hpout by (apply Hout; by left).
  destruct (heading_block m n p b Hm Hp Hpm Hpout) as [Hv Hl]. destruct (ConnectTip_ok n t p b Hn Et Hp Eq Hv Hl Hcor Hflush) as (r & n1 & -> & Hlat & Hn1 & Hr). cbn [mbind option_bind].
  destruct r as [|corruption| |].
  - destruct (connected_facts m p b n n1 Hm Hp Hpm Hpout Hr) as (Ei & Es & Et1 & Hcand). pose proof (connected_heading m p t b n n1 Hm Et Hp Eq Hpm Hpout Hn1 Hr) as Hm1.
    pose proof (connected_best m p t b n n1 Hm Et Hp Eq Hpm Hpout Hn1 Hr) as Hb1. pose proof (connected_chain m p t b n n1 Hm Et Hp Eq Hpm Hpout Hn1 Hr) as Hch1.
    destruct (Prune_ok (chain n1) p p (no_index _ Hn1) Et1) as (cs2 & -> & Hcs2 & Hl2 & Ei2 & Ec2 & Hsub & Hkeep); [apply Hcand; by right | unfold less; apply comparator_irrefl, (no_index _ Hn1)|].
    cbn [mbind option_bind]. destruct (pruned_heading m n1 cs2 p Hm1 Hcs2 Hl2 Ei2 Ec2 Et1) as [Hm2 Hb2]; [by rewrite <- Es | done | done|]. set (n2 := {| chain := cs2; coins := coins n1; calls := calls n1 |}) in *.
    assert (later (chain n) (chain n2)) as Hl02 by (by apply (later_trans _ _ _ Hlat)). assert (tip (chain n2) = Some p) as Et2 by (unfold tip, n2; cbn [chain]; by rewrite Ec2).
    assert (tip_listed (chain n2)) as Hlist.
    { intros q. rewrite Et2. intros [= <-]. apply Hkeep; [apply Hcand; by right | unfold less; apply comparator_irrefl, (no_index _ Hn1)]. }
    destruct Ho as [bo Ho]. destruct (lt_entry _ _ Hl02 o bo Ho) as (bo' & Ho' & _). destruct (lt_entry _ _ Hl02 p b Hp) as (b' & Hp' & _).
    unfold better_than. rewrite (Et2 : tip cs2 = Some p). cbn [mbind option_bind]. rewrite (Hp' : index cs2 !! p = Some b'). cbn [mbind option_bind]. rewrite (Ho' : index cs2 !! o = Some bo'). cbn [mbind option_bind].
    destruct (0 <? _).
    + exists Better, n2. split; [done|]. split; [done|]. split_and!; [done | exists p; split_and!; [done | by left | done] | by etrans].
    + destruct Hlow as [bl Hlow]. destruct (lt_entry _ _ Hl02 lowest bl Hlow) as (bl' & Hlow' & _). destruct (IH n2 p x Hm2 Et2) as (pr & n' & E & Hpr).
      * by apply (path_same (index (chain n))); [apply Hl02|].
      * by rewrite <- (lt_tree _ _ Hl02).
      * intros q Hq. destruct (path_elem _ l x Htree p q Hpath Hq) as ((bq & Hbq) & _ & Hne & _). unfold in_chain, n2. cbn [chain]. rewrite Ec2, Ei2. fold (in_chain (chain n1) q).
        destruct (in_chain (chain n1) q) eqn:E; [|done]. apply (Hch1 q bq Hbq) in E as [E|]; [|done]. by rewrite (Hout q) in E by (by right).
      * by exists bl'.
      * by exists bo'.
      * exists pr, n'. split; [done|]. apply (outcome_ok_trans m n n2 pr n' _ _ _ _ Hl02 (transitivity Hb1 Hb2) Hpr).
        { intros _ [H1 H2]. split; [done|]. intros _. apply H2. by right. }
        { intros (t' & H1 & H2 & H3). exists t'. split_and!; [done | by right | done]. }
  - destruct Hr as [-> Hch]. by apply (reject_ok m n n1).
  - destruct (RemoveSoftConsensusFreezeBlocks_ok n1 Hn1) as (ok & n2 & -> & (c & Ec) & _). cbn [mbind option_bind snd]. exists StepFailed, n2. split; [done|]. split; [|done].
    apply (later_trans _ _ _ Hlat). rewrite Ec. apply later_set_chain.
  - destruct Hr as [raised Hr]. by apply Hcancel in Hr.
Qed.

Lemma connect_groups_ok o m bm fuel : forall n t bt, heading m n -> tip (chain n) = Some t -> index (chain n) !! t = Some bt -> index (chain n) !! m = Some bm -> ancestor (index (chain n)) t m ->
  nHeight bm - nHeight bt <= Z.of_nat fuel -> is_Some (index (chain n) !! o) ->
  exists pr n', connect_groups clock duration fuel (Some o) m (nHeight bm) (nHeight bt) n = Some (pr, n') /\ outcome_ok m n pr n' (fun cs => tip cs = Some m /\ (t <> m \/ tip_listed (chain n) -> tip_listed cs)) (fun cs => exists t', tip cs = Some t' /\ climbs (index (chain n)) t m t' /\ tip_listed cs).
Proof.
  revert bm. induction fuel as [|fuel IH]; intros bm n t bt Hm Et Ht Hbm Ha Hf Ho; pose proof (no_index _ (hd_node _ _ Hm)) as Hcs; pose proof (io_tree _ Hcs) as Htree;
    destruct (ancestor_height _ m bm t Htree Hbm Ha) as (bt' & Ht' & Hle & _); rewrite Ht in Ht'; injection Ht' as <-; cbn [connect_groups];
    (destruct (Z.eqb_spec (nHeight bt) (nHeight bm)) as [E|E];
      [exists Through, n; split; [done|]; split; [apply later_refl|]; rewrite (ancestor_level _ m bm t bt Htree Hbm Ha Ht ltac:(lia)) in *; split_and!; [done | done | by intros [|] | done]|]); [lia|].
  set (target := Z.min (nHeight bt + 32) (nHeight bm)). destruct (GetAncestor_walk _ m bm target Htree Hbm ltac:(lia)) as (x & bx & -> & Hw & Hx & Eh). cbn [mbind option_bind].
  assert (ancestor (index (chain n)) t x) as Htx by (apply (ancestor_at _ m bm t bt target x Htree Hbm Ha Ht ltac:(lia) Hw)).
  assert (ancestor (index (chain n)) x m) as Hxm by (by eexists).
  destruct (to_connect_spec _ t bt Htree Ht (Z.to_nat (target + 1)) x bx [] x Hx Htx ltac:(lia) eq_refl) as (l & -> & Hl). cbn [mbind option_bind].
  destruct l as [|lowest l]; [exfalso; cbn in Hl; subst x; rewrite Ht in Hx; injection Hx as <-; lia|].
  assert (forall q, q ∈ lowest :: l -> in_chain (chain n) q = false /\ climbs (index (chain n)) t m q) as Hout.
  { intros q Hq. destruct (path_elem _ _ x Htree t q Hl Hq) as ((bq & Hbq) & Htq & Hne & Hqx). split; [|split_and!; [done | done | by apply (ancestor_trans _ q x m)]].
    destruct (in_chain (chain n) q) eqn:Ein; [|done]. apply (in_chain_iff _ t q bq Hcs Et Hbq) in Ein. by destruct Hne; apply (ancestor_antisym _ t bt q Htree Ht). }
  destruct (connect_list_ok o lowest m (lowest :: l) n t x Hm Et Hl Hxm (fun q Hq => proj1 (Hout q Hq))) as (pr & n1 & -> & Hpr); [destruct Hl as [(b & Hb & _) _]; by exists b | done|]. cbn [mbind option_bind].
  destruct pr; [|by eexists _, _; split; [done|]; apply (outcome_ok_trans m n n _ n1 _ _ _ _ (later_refl _) (reflexivity _) Hpr); [done | intros (t' & H1 & H2 & H3); exists t'; split_and!; [done | by apply Hout | done]] ..].
  destruct Hpr as (Hl1 & Hm1 & (Et1 & Hlist1) & Hb1). assert (tip_listed (chain n1)) as Hlist by (apply Hlist1; by left). pose proof (lt_tree _ _ Hl1) as Es. destruct (same_tree_lookup _ _ x bx Es Hx) as (bx1 & Hx1 & Epx). destruct (same_tree_lookup _ _ m bm Es Hbm) as (bm1 & Hbm1 & Epm).
  injection Epx as _ _ Epx _. injection Epm as _ _ Epm _. destruct Ho as [bo Ho]. destruct (lt_entry _ _ Hl1 o bo Ho) as (bo' & Ho' & _).
  destruct (IH bm1 n1 x bx1 Hm1 Et1 Hx1 Hbm1) as (pr & n' & E' & Hpr); [by rewrite <- Es | lia | by exists bo'|]. rewrite Epm, Epx, Eh in E'. exists pr, n'. split; [done|].
  apply (outcome_ok_trans m n n1 pr n' _ _ _ _ Hl1 Hb1 Hpr).
  - intros _ [H1 H2]. split; [done|]. intros _. apply H2. by right.
  - intros (t' & H1 & H2 & H3). exists t'. split_and!; [done | | done]. unfold climbs in H2. rewrite <- Es in H2. by apply (climbs_via _ t x bx m t' Htree Hx Htx).
Qed.

(** A step. *)

Lemma moved_tip_ok m n n1 t f c : heading m n -> node_ok n1 -> chain n1 = set_chain (chain n) c -> tip (chain n) = Some t -> tip (chain n1) = Some f -> last_common (index (chain n)) m t (Some f) ->
  heading m n1 /\ keeps m (chain n) (chain n1).
Proof.
  intros [Hn Hl Hu] Hn1 Ec Et Ef (Hfm & Hft & Hlast). assert (index (chain n1) = index (chain n)) as Ei by (by rewrite Ec). pose proof (no_index _ Hn) as Hcs. pose proof (no_index _ Hn1) as Hcs1.
  assert (forall x b, index (chain n) !! x = Some b -> in_chain (chain n1) x = true <-> ancestor (index (chain n)) x f) as Hin1.
  { intros x b Hx. rewrite (in_chain_iff _ f x b Hcs1 Ef) by (by rewrite Ei). by rewrite Ei. }
  assert (forall q, usable (chain n1) q -> usable (chain n) q) as Hus.
  { intros q Hq x b Hx Hout Hb. apply (Hq x b); [by rewrite Ei | | by rewrite Ei]. destruct (in_chain (chain n1) x) eqn:E; [|done]. apply (Hin1 x b Hb) in E.
    assert (in_chain (chain n) x = true) by (apply (in_chain_iff _ t x b Hcs Et Hb), (ancestor_trans _ x f t E Hft)). congruence. }
  assert (forall x b, ancestor (index (chain n)) x m -> in_chain (chain n1) x = false -> index (chain n) !! x = Some b -> in_chain (chain n) x = false) as Hoff.
  { intros x b Hx Hout Hb. destruct (in_chain (chain n) x) eqn:E; [|done]. apply (in_chain_iff _ t x b Hcs Et Hb) in E.
    assert (in_chain (chain n1) x = true) by (apply (Hin1 x b Hb), Hlast; done). congruence. }
  split; [split; [done | by rewrite Ei |]|].
  - intros x b. rewrite Ei. intros Hx Hout Hb. by apply (Hu x b Hx), Hb; apply (Hoff x b).
  - split; [intros (bm & Hbm & Hel); exists bm; by rewrite Ei|]. intros [H1 H2 H4 H3]. split; [by rewrite Ec | unfold eligible_at; by rewrite Ei | |].
    + intros x b. rewrite Ei. intros Hx Hout Hb. by apply (H4 x b Hx), Hb; apply (Hoff x b).
    + intros q b Hq. rewrite Ei. intros Hb He Hq'. assert (less (chain n1) q m = less (chain n) q m) as -> by (unfold less; by rewrite Ei).
      apply (H3 q b); [by rewrite Ec in Hq | done | done | by apply Hus].
Qed.

Lemma fork_exists m bm n t : node_ok n -> tip (chain n) = Some t -> index (chain n) !! m = Some bm ->
  exists f bf, FindFork (index (chain n)) (chainActive (chain n)) (Some m) = Some (Some f) /\ last_common (index (chain n)) m t (Some f) /\ index (chain n) !! f = Some bf.
Proof.
  intros Hn Et Hbm. pose proof (no_index _ Hn) as Hcs. destruct (FindFork_spec _ (chainActive (chain n)) m bm (io_tree _ Hcs) (io_chain _ Hcs) Hbm) as (r & -> & Hr).
  change (mChainTip (chainActive (chain n))) with (tip (chain n)) in Hr. rewrite Et in Hr. destruct (root_ancestor _ m bm (io_tree _ Hcs) Hbm) as (g & bg & Hg & Hbg & Eg).
  destruct (no_root _ Hn g bg Hbg Eg) as [Hin _]. apply (in_chain_iff _ t g bg Hcs Et Hbg) in Hin. destruct r as [f|]; [|by destruct (Hr g)].
  destruct Hr as (H1 & H2 & H3). destruct (ancestor_height _ m bm f (io_tree _ Hcs) Hbm H1) as (bf & Hbf & _). by exists f, bf.
Qed.

Lemma ActivateBestChainStep_ok m n t : heading m n -> tip (chain n) = Some t -> exists pr n', ActivateBestChainStep clock duration m n = Some (pr, n') /\
  outcome_ok m n pr n' (fun cs => tip cs = Some m /\ (ancestor (index (chain n)) t m -> t <> m -> tip_listed cs))
    (fun cs => exists t', tip cs = Some t' /\ ancestor (index (chain n)) t' m /\ (ancestor (index (chain n)) t m -> climbs (index (chain n)) t m t') /\ tip_listed cs).
Proof.
  intros Hm Et. pose proof (hd_node _ _ Hm) as Hn. pose proof (no_index _ Hn) as Hcs. pose proof (io_tree _ Hcs) as Htree. destruct (hd_linked _ _ Hm) as (bm & Hbm & _).
  destruct (tip_block _ t Hcs Et) as [bt Ht]. destruct (fork_exists m bm n t Hn Et Hbm) as (f & bf & Ef & Hlast & Hf). unfold ActivateBestChainStep. rewrite Ef, Et. cbn [mbind option_bind]. rewrite Hbm. cbn [mbind option_bind].
  rewrite Hf. cbn [mbind option_bind fmap option_fmap option_map]. destruct Hlast as (Hfm & Hft & Hl). destruct (ancestor_height _ t bt f Htree Ht Hft) as (bf' & Hf' & Hle & _). rewrite Hf in Hf'. injection Hf' as <-.
  destruct (ancestor_height _ m bm f Htree Hbm Hfm) as (bf' & Hf' & Hle' & _). rewrite Hf in Hf'. injection Hf' as <-.
  pose proof (io_chain _ Hcs) as Hc. unfold chain_ok in Hc. change (mChainTip (chainActive (chain n))) with (tip (chain n)) in Hc. rewrite Et in Hc. destruct Hc as (bt' & Ht' & Elen & _). rewrite Ht in Ht'. injection Ht' as <-.
  destruct (disconnect_to_ok f bf (length (vChain (chainActive (chain n)))) n t bt Hn Et Ht Hf Hft ltac:(lia)) as (ok & n1 & -> & (c & Ec) & Hok). cbn [mbind option_bind fst snd].
  assert (later (chain n) (chain n1)) as Hl1 by (rewrite Ec; apply later_set_chain). destruct ok; cbn [negb]; [|by exists StepFailed, n1; split].
  destruct (Hok eq_refl) as [Hn1 Ef1]. destruct (moved_tip_ok m n n1 t f c Hm Hn1 Ec Et Ef1 (conj Hfm (conj Hft Hl))) as [Hm1 Hb1]. assert (index (chain n1) = index (chain n)) as Ei by (by rewrite Ec).
  destruct (connect_groups_ok t m bm (Z.to_nat (nHeight bm - nHeight bf)) n1 f bf Hm1 Ef1) as (pr & n' & E & Hpr); [by rewrite Ei | by rewrite Ei | by rewrite Ei | lia | rewrite Ei; by exists bt|].
  exists pr, n'. split; [done|]. apply (outcome_ok_trans m n n1 pr n' _ _ _ _ Hl1 Hb1 Hpr).
  all: assert (ancestor (index (chain n)) t m -> f = t) as Eft by (intros Htm; apply (ancestor_antisym _ t bt f Htree Ht Hft), Hl; [done | apply ancestor_refl]).
  - intros _ [H1 H2]. split; [done|]. intros Htm Hne. apply H2. left. by rewrite Eft.
  - intros (t' & H1 & (H2 & H3 & H4) & H5). rewrite Ei in *. exists t'. split_and!; [done | done | | done]. intros Htm. rewrite (Eft Htm) in *. by split_and!.
Qed.

(** *** The choice of the target *)

Definition with_chain (n : node (C := C)) (cs : chainstate) : node := {| chain := cs; coins := coins n; calls := calls n |}.

Lemma found_ok n : node_ok n -> exists r cs', FindMostWorkChain (chain n) = Some (r, cs') /\ later (chain n) cs' /\ chainActive cs' = chainActive (chain n) /\ node_ok (with_chain n cs') /\
  match r with
  | None => forall q b, q ∈ setBlockIndexCandidates cs' -> index cs' !! q = Some b -> ~ eligible b
  | Some m => heading m (with_chain n cs') /\ best_for m cs'
  end /\
  forall q b, q ∈ setBlockIndexCandidates (chain n) -> index (chain n) !! q = Some b -> eligible b -> usable (chain n) q -> exists m, r = Some m /\ (q = m \/ less (chain n) q m = true).
Proof.
  intros Hn. pose proof (no_index _ Hn) as Hcs. destruct (find_loop_spec (chain n) Hcs _ (chain n) (trimmed_refl _ Hcs) (le_n _)) as (r & cs' & E & Htr & Hr).
  pose proof (trimmed_later _ _ Htr) as Hl. assert (node_ok (with_chain n cs')) as Hn'.
  { apply (node_ok_later n cs' _ Hn (tr_ok _ _ Htr) Hl (tr_chain _ _ Htr)). destruct (no_tip _ Hn) as (t & Et & _). by apply (trimmed_steady _ _ t). }
  exists r, cs'. split_and!; [done | done | apply Htr | done | |].
  - destruct r as [m|]; [|done]. destruct Hr as (Hin & Hu & (b & Hb & He) & Hmax). split; [split; [done | by apply (tr_ok _ _ Htr) |]|]; cbn [chain with_chain].
    + intros q bq Hq Hout Hbq. by destruct (Hu q bq Hq Hout Hbq).
    + split; [done | by exists b | done|]. intros q bq Hq Hbq Heq _. by apply (Hmax q bq).
  - intros q b Hq Hb He Hu. assert (q ∈ setBlockIndexCandidates cs') as Hq' by (destruct (decide (q ∈ setBlockIndexCandidates cs')); [done | by destruct (tr_dropped _ _ Htr q)]).
    destruct (trimmed_block _ _ q b Htr Hb) as [s Hs]. destruct r as [m|]; [|by destruct (Hr q (with_status b s) Hq' Hs)]. exists m. split; [done|].
    destruct Hr as (_ & _ & _ & Hmax). destruct (Hmax q (with_status b s) Hq' Hs He) as [|Hless]; [by left|]. right. unfold less in *. by rewrite (comparator_status (index (chain n)) (index cs')) in Hless by apply (trimmed_same _ _ Htr).
Qed.

Lemma best_found n m r cs' : node_ok n -> FindMostWorkChain (chain n) = Some (r, cs') -> best_for m (chain n) -> r = Some m.
Proof.
  intros Hn E [Hin (b & Hb & He) Hu Hbest]. pose proof (no_index _ Hn) as Hcs. destruct (find_loop_spec (chain n) Hcs _ (chain n) (trimmed_refl _ Hcs) (le_n _)) as (r' & cs1 & E' & Htr & Hr).
  destruct (found_ok n Hn) as (r1 & cs2 & E1 & _ & _ & _ & _ & Hall). unfold FindMostWorkChain in *. rewrite E in E', E1. injection E' as <- <-. injection E1 as <- <-.
  destruct (Hall m b Hin Hb He Hu) as (m' & -> & [->|Hless]); [done|]. destruct Hr as (Hin' & Hu' & (b' & Hb' & He') & _). exfalso.
  pose proof (trimmed_same _ _ Htr) as Es. symmetry in Es. destruct (same_but_status_lookup _ _ m' b' Es Hb') as [s Hs].
  destruct (Hbest m' (with_status b' s)) as [->|Hless']; [by apply (tr_fewer _ _ Htr) | done | done | by apply (trimmed_usable _ _ m' Htr) | | by apply (less_asym (chain n) m m')].
  unfold less in Hless. by rewrite comparator_irrefl in Hless by apply Hcs.
Qed.

(** Why [m] is the target: it is the best of the candidates, or it is the block of the caller and extends the tip. *)

Definition reason (pblock : option ptr) (cs : chainstate) (m : ptr) (cs' : chainstate) : Prop :=
  best_for m cs' /\ (forall q b, q ∈ setBlockIndexCandidates cs -> index cs !! q = Some b -> eligible b -> usable cs q -> q = m \/ less cs q m = true) /\
    (forall t, best_for t cs -> t = m) \/
  pblock = Some m /\ (exists t, tip cs' = Some t /\ child (index cs') t m) /\ (forall b, index cs' !! m = Some b -> IsInSoftConsensusFreeze b = false).

Lemma Consider_ok n m p t bp : heading m n -> tip (chain n) = Some t -> index (chain n) !! p = Some bp -> exists r,
  ConsiderBlockForMostWorkChain (chain n) m p t = Some r /\ (r = m \/ r = p /\ heading p n /\ child (index (chain n)) t p /\ IsInSoftConsensusFreeze bp = false).
Proof.
  intros Hm Et Hp. destruct (hd_linked _ _ Hm) as (bm & Hbm & _). pose proof (no_index _ (hd_node _ _ Hm)) as Hcs. unfold ConsiderBlockForMostWorkChain. rewrite Hp. cbn [mbind option_bind].
  destruct (bool_decide (p = m) || negb (bool_decide (pprev bp = Some t))) eqn:E; [exists m; split; [done | by left]|]. rewrite Hbm. cbn [mbind option_bind].
  apply orb_false_iff in E as [_ E]. apply negb_false_iff, bool_decide_eq_true in E. eexists. split; [done|].
  destruct (0 <? _); [by left|]. destruct (IsValid bp TRANSACTIONS) eqn:Ev; [|by left]. destruct (Z.eqb_spec (nChainTx bp) 0) as [|Hl]; [by left|]. destruct (IsInSoftConsensusFreeze bp); [by left|].
  right. split_and!; [done | | by exists bp | done]. split; [apply Hm | by exists bp|]. intros q b Hq Hout Hb. destruct (ancestor_inv _ p bp q (io_tree _ Hcs) Hp Hq) as [->|(t' & Et' & Ha)].
  - rewrite Hp in Hb. injection Hb as <-. unfold IsValid, isValid in Ev. by destruct (isInvalid (nStatus bp)).
  - rewrite E in Et'. injection Et' as <-. apply (in_chain_iff _ t q b Hcs Et Hb) in Ha. congruence.
Qed.

Lemma choose_ok pblock n t : node_ok n -> tip (chain n) = Some t -> (forall p, pblock = Some p -> is_Some (index (chain n) !! p)) ->
  exists r cs', choose pblock (chain n) = Some (r, cs') /\ later (chain n) cs' /\ tip cs' = Some t /\ node_ok (with_chain n cs') /\
  match r with None => settled cs' | Some m => heading m (with_chain n cs') /\ m <> t /\ reason pblock (chain n) m cs' end.
Proof.
  intros Hn Et Hpb. destruct (found_ok n Hn) as (r & cs' & E & Hl & Ec & Hn' & Hr & Hall). unfold choose. rewrite E. cbn [mbind option_bind]. assert (tip cs' = Some t) as Et' by (unfold tip; by rewrite Ec).
  destruct r as [m|]; [|exists None, cs'; split_and!; [done.. |]; exists t; split; [done|]; intros q b Hq Hb He; by destruct (Hr q b Hq Hb)]. destruct Hr as [Hm Hb]. rewrite Et'.
  assert (reason pblock (chain n) m cs') as Hreason.
  { left. split_and!; [done | |].
    - intros q b Hq Hbq He Hu. destruct (Hall q b Hq Hbq He Hu) as (m' & Em & Hor). by injection Em as <-.
    - intros t' Ht'. pose proof (best_found n t' _ _ Hn E Ht') as Em. congruence. }
  assert (exists m', match pblock, Some t with Some p, Some t0 => ConsiderBlockForMostWorkChain cs' m p t0 | _, _ => Some m end = Some m' /\
    heading m' (with_chain n cs') /\ (m' = m \/ m' <> t /\ reason pblock (chain n) m' cs')) as (m' & -> & Hm' & Hor).
  { destruct pblock as [p|]; [|exists m; split_and!; [done | done | by left]]. destruct (Hpb p eq_refl) as [b0 Hp0]. destruct (lt_entry _ _ Hl p b0 Hp0) as (bp & Hp & _).
    destruct (Consider_ok (with_chain n cs') m p t bp Hm Et' Hp) as (m' & Ecs & [->|(-> & Hp' & Hc & Hf)]); [exists m; split_and!; [done | done | by left]|].
    exists p. split_and!; [done | done|]. right. split; [apply (child_ne (index cs')); [apply (no_index _ Hn') | done]|]. right. split_and!; [done | by exists t|]. intros b Hb'. cbn in Hp. congruence. }
  cbn [mbind option_bind]. destruct (decide (m' = t)) as [->|Hne].
  - rewrite bool_decide_true by done. exists None, cs'. split_and!; [done.. |]. destruct Hor as [<-|[? _]]; [|done]. exists t. split; [done|]. apply Hb.
  - rewrite bool_decide_false by congruence. exists (Some m'), cs'. split_and!; [done.. | |]; destruct Hor as [->|[? ?]]; done.
Qed.

(** *** The loop *)

Context (pblock : option ptr).

Definition good (n : node (C := C)) : Prop := node_ok n /\ (settled (chain n) \/ exists m, in_validation m = true /\ (best_for m (chain n) \/ pblock = Some m)).

Definition finishes (cached : option ptr) (n : node (C := C)) : Prop := exists j ok n', (forall k, activate_loop clock duration in_validation (j + k) pblock cached n = Returned ok n') /\
  later (chain n) (chain n') /\ (ok = true -> good n').

Lemma finishes_step cached n cached' n' : (forall k, activate_loop clock duration in_validation (S k) pblock cached n = activate_loop clock duration in_validation k pblock cached' n') -> later (chain n) (chain n') ->
  finishes cached' n' -> finishes cached n.
Proof. intros E Hl (j & ok & n2 & Hj & Hl2 & Hok). exists (S j), ok, n2. split_and!; [intros k; cbn [Nat.add]; by rewrite E | by apply (later_trans _ _ _ Hl) | done]. Qed.

Definition fewer_finish (n : node (C := C)) : Prop := forall n', later (chain n) (chain n') -> node_ok n' -> (chances (chain n') < chances (chain n))%nat -> finishes None n'.

Lemma fewer_later n n' : fewer_finish n -> later (chain n) (chain n') -> fewer_finish n'.
Proof. intros IH Hl n2 Hl2 Hn2 Hch. apply IH; [by apply (later_trans _ _ _ Hl) | done|]. pose proof (later_chances _ _ Hl). lia. Qed.

Lemma attempt_ok m : in_validation m = false -> forall d bm n t bt, heading m n -> tip (chain n) = Some t -> index (chain n) !! t = Some bt -> index (chain n) !! m = Some bm ->
  (ancestor (index (chain n)) t m /\ nHeight bm - nHeight bt < Z.of_nat d \/ nHeight bm + 1 < Z.of_nat d) ->
  fewer_finish n ->
  (forall n', later (chain n) (chain n') -> heading m n' -> tip (chain n') = Some m -> keeps m (chain n) (chain n') -> (ancestor (index (chain n)) t m -> t <> m -> tip_listed (chain n')) -> finishes None n') ->
  finishes (Some m) n.
Proof.
  intros Hv. induction d as [|d IH]; intros bm n t bt Hm Et Ht Hbm Hd Hfew Hreach; pose proof (no_index _ (hd_node _ _ Hm)) as Hcs; pose proof (io_tree _ Hcs) as Htree;
    pose proof (proj1 (Htree m bm Hbm)).
  { exfalso. destruct Hd as [[Ha Hd]|Hd]; [|lia]. destruct (ancestor_height _ m bm t Htree Hbm Ha) as (bt' & Ht' & Hle & _). simplify_eq. lia. }
  assert (with_chain n (chain n) = n) as Esame by (by destruct n). destruct (ActivateBestChainStep_ok m n t Hm Et) as (pr & n' & E & Hl & Hpr).
  assert (forall k, activate_loop clock duration in_validation (S k) pblock (Some m) n = match pr with
    | StepFailed => Returned false n' | InvalidFound | StepThrown => activate_loop clock duration in_validation k pblock None n'
    | _ => activate_loop clock duration in_validation k pblock (if bool_decide (tip (chain n') = Some m) then None else Some m) n' end) as Eloop.
  { intros k. cbn [activate_loop]. fold (with_chain n (chain n)). rewrite Esame, Hv, E. by destruct pr. }
  destruct pr.
  - destruct Hpr as (Hm' & (Et' & Hlist) & Hb). apply (finishes_step _ _ None n'); [intros k; by rewrite Eloop, bool_decide_true | done|]. by apply Hreach.
  - destruct Hpr as (Hm' & (t' & Et' & Ha' & Hclimb & Hlist) & Hb). destruct (decide (t' = m)) as [->|Hne].
    { apply (finishes_step _ _ None n'); [intros k; by rewrite Eloop, bool_decide_true | done|]. by apply Hreach. }
    apply (finishes_step _ _ (Some m) n'); [intros k; rewrite Eloop, bool_decide_false by congruence; done | done|].
    destruct (ancestor_height _ m bm t' Htree Hbm Ha') as (b0 & Hb0 & Hle & _). pose proof (lt_tree _ _ Hl) as Es.
    destruct (same_tree_lookup _ _ t' b0 Es Hb0) as (bt' & Ht' & Ep). injection Ep as _ _ Ep _. destruct (same_tree_lookup _ _ m bm Es Hbm) as (bm' & Hbm' & Epm). injection Epm as _ _ Epm _.
    apply (IH bm' n' t' bt' Hm' Et' Ht' Hbm').
    + left. split; [by rewrite <- Es|]. rewrite Ep, Epm. destruct Hd as [[Ha Hd]|Hd]; [|lia]. destruct (Hclimb Ha) as (H1 & H2 & _).
      destruct (ancestor_height _ t' b0 t Htree Hb0 H1) as (b1 & Hb1 & Hle1 & _). rewrite Ht in Hb1. injection Hb1 as <-.
      assert (nHeight bt <> nHeight b0) by (intros E0; apply H2; symmetry; apply (ancestor_level _ t' b0 t bt Htree Hb0 H1 Ht); lia). lia.
    + by apply (fewer_later n).
    + intros n2 Hl2 Hm2 Et2 Hb2 Hlist2. apply Hreach; [by apply (later_trans _ _ _ Hl) | done | done | by etrans|]. intros _ _. apply Hlist2; [by rewrite <- Es | done].
  - destruct Hpr as [Hn' Hch]. apply (finishes_step _ _ None n'); [done | done|]. by apply Hfew.
  - exists 1%nat, false, n'. split_and!; [apply Eloop | done | done].
  - done.
Qed.

Lemma attempt m n t : in_validation m = false -> heading m n -> tip (chain n) = Some t -> fewer_finish n ->
  (forall n', later (chain n) (chain n') -> heading m n' -> tip (chain n') = Some m -> keeps m (chain n) (chain n') -> (ancestor (index (chain n)) t m -> t <> m -> tip_listed (chain n')) -> finishes None n') ->
  finishes (Some m) n.
Proof.
  intros Hv Hm Et Hfew Hreach. destruct (hd_linked _ _ Hm) as (bm & Hbm & _). pose proof (no_index _ (hd_node _ _ Hm)) as Hcs. destruct (tip_block _ t Hcs Et) as [bt Ht].
  pose proof (proj1 (io_tree _ Hcs m bm Hbm)). apply (attempt_ok m Hv (Z.to_nat (nHeight bm + 2)) bm n t bt); try done. right. lia.
Qed.

(** The block of the caller is known and not soft rejected. *)

Definition known (cs : chainstate) : Prop := forall p, pblock = Some p -> exists b, index cs !! p = Some b /\ IsSoftRejected b = false.

Lemma known_later cs cs' : later cs cs' -> known cs -> known cs'.
Proof.
  intros Hl Hk p Ep. destruct (Hk p Ep) as (b & Hb & Hs). destruct (lt_entry _ _ Hl p b Hb) as (b' & Hb' & He). exists b'. split; [done|]. unfold IsSoftRejected. by rewrite (el_soft _ _ He).
Qed.

Lemma choice_ok n t : node_ok n -> tip (chain n) = Some t -> known (chain n) ->
  (forall m cs', later (chain n) cs' -> tip cs' = Some t -> heading m (with_chain n cs') -> m <> t -> reason pblock (chain n) m cs' -> in_validation m = false -> finishes (Some m) (with_chain n cs')) ->
  finishes None n.
Proof.
  intros Hn Et Hk Hnext. destruct (choose_ok pblock n t Hn Et) as (r & cs' & E & Hl & Et' & Hn' & Hr); [intros p Ep; destruct (Hk p Ep) as (b & Hb & _); by exists b|].
  destruct r as [m|].
  - destruct Hr as (Hm & Hne & Hwhy). destruct (in_validation m) eqn:Ev.
    + exists 1%nat, true, (with_chain n cs'). split_and!; [intros k; cbn [Nat.add activate_loop]; by rewrite E, Ev | done|]. intros _. split; [done|]. right. exists m. split; [done|].
      destruct Hwhy as [[Hb _]|[-> _]]; auto.
    + destruct (Hnext m cs' Hl Et' Hm Hne Hwhy Ev) as (j & ok & n' & Hj & Hl' & Hok). exists j, ok, n'. split_and!; [|by apply (later_trans _ _ _ Hl) | done].
      destruct j as [|j]; [by specialize (Hj 0%nat)|]. intros k. specialize (Hj k). cbn [Nat.add activate_loop] in *. by rewrite E.
  - exists 1%nat, true, (with_chain n cs'). split_and!; [intros k; cbn [Nat.add activate_loop]; by rewrite E | done|]. intros _. split; [done | by left].
Qed.

(** The target is the block of the caller, and extends the tip. *)

Record extends (p : ptr) (n : node) : Prop := {
  ex_heading : heading p n;
  ex_block : pblock = Some p;
  ex_child : exists t, tip (chain n) = Some t /\ child (index (chain n)) t p;
  ex_free b : index (chain n) !! p = Some b -> IsInSoftConsensusFreeze b = false }.

(** Once the best candidate is the tip, the loop ends, or the block of the caller extends it. *)

Lemma reached_ok m n : heading m n -> tip (chain n) = Some m -> best_for m (chain n) -> known (chain n) ->
  (forall p cs', later (chain n) cs' -> tip cs' = Some m -> extends p (with_chain n cs') -> in_validation p = false -> finishes (Some p) (with_chain n cs')) -> finishes None n.
Proof.
  intros Hm Et Hb Hk Hnext. apply (choice_ok n m (hd_node _ _ Hm) Et Hk). intros m' cs' Hl Et' Hm' Hne Hwhy Hv.
  destruct Hwhy as [(_ & _ & Honly)|(Ep & Hc & Hf)]; [by destruct Hne; symmetry; apply Honly|]. by apply (Hnext m' cs').
Qed.

Lemma best_ok m n t : in_validation m = false -> heading m n -> tip (chain n) = Some t -> best_for m (chain n) -> known (chain n) -> (forall p, pblock = Some p -> ~ child (index (chain n)) m p) -> fewer_finish n ->
  finishes (Some m) n.
Proof.
  intros Hv Hm Et Hb Hk Hno Hfew. apply (attempt m n t Hv Hm Et Hfew). intros n' Hl Hm' Et' Hkeep _. apply (reached_ok m n' Hm' Et'); [by apply Hkeep | by apply (known_later (chain n))|].
  intros p cs' Hl' Et2 [_ Ep (t' & Ett & Hc) _]. cbn in Ett. rewrite Et2 in Ett. injection Ett as <-. by destruct (Hno p Ep); rewrite (lt_tree _ _ Hl), (lt_tree _ _ Hl').
Qed.

Lemma extend_ok p n : extends p n -> in_validation p = false -> known (chain n) -> fewer_finish n -> finishes (Some p) n.
Proof.
  intros [Hp Ep (t & Et & Hc) Hfr] Hv Hk Hfew. pose proof (no_index _ (hd_node _ _ Hp)) as Hcs. pose proof (child_ne _ t p (io_tree _ Hcs) Hc) as Hne. destruct Hc as (b & Hb & Eb).
  apply (attempt p n t Hv Hp Et Hfew). intros n' Hl Hp' Et' [Hel _] Hlist. specialize (Hlist (ancestor_step _ p b t Hb Eb) ltac:(done) p Et').
  destruct Hel as (b' & Hb' & He'); [exists b; split; [done|]; split; [|by apply Hfr]; destruct (Hk p Ep) as (b0 & Hb0 & Hs); by simplify_eq|].
  pose proof (hd_node _ _ Hp') as Hn'. pose proof (no_index _ Hn') as Hcs'. apply (choice_ok n' p Hn' Et'); [by apply (known_later (chain n))|]. intros m cs' Hl2 Et2 Hm Hmp Hwhy Hvm.
  destruct Hwhy as [(Hbest & Hranks & _)|(Em & _)]; [|congruence]. apply (best_ok m _ p Hvm Hm Et2 Hbest); [by apply (known_later (chain n')), (known_later (chain n)) | |].
  - intros p' Ep'. assert (p' = p) as -> by congruence. cbn [chain with_chain]. rewrite <- (lt_tree _ _ Hl2). intros Hc. destruct (hd_linked _ _ Hm) as (bm2 & Hbm2 & _).
    destruct (later_back _ _ m bm2 Hl2 Hbm2) as (bm & Hbm & _). pose proof (child_work _ m p b' bm (no_work _ Hn') Hc Hb' Hbm) as Hw.
    destruct (Hranks p b' Hlist Hb' He' (chain_usable _ p Hcs' Et')) as [|Hless]; [done|]. destruct (less_work (chain n') m bm p b' Hcs' Hbm Hb' Hw) as [_ E]. congruence.
  - apply (fewer_later n); [done | by apply (later_trans _ _ _ Hl)].
Qed.

Lemma loop_ok n : node_ok n -> known (chain n) -> finishes None n.
Proof.
  remember (chances (chain n)) as c eqn:Ec. revert n Ec. induction (lt_wf c) as [c _ IH]. intros n -> Hn Hk.
  assert (fewer_finish n) as Hfew by (intros n' Hl Hn' Hch; by apply (IH _ Hch n' eq_refl Hn'), (known_later (chain n))). destruct (no_tip _ Hn) as (t & Et & _).
  assert (forall n' p, later (chain n) (chain n') -> extends p n' -> in_validation p = false -> finishes (Some p) n') as Hext.
  { intros n' p Hl Hp Hv. apply (extend_ok p n' Hp Hv); [by apply (known_later (chain n)) | by apply (fewer_later n)]. }
  apply (choice_ok n t Hn Et Hk). intros m cs' Hl Et' Hm Hne Hwhy Hv. destruct Hwhy as [(Hbest & _)|(Ep & Hc & Hf)]; [|by apply Hext].
  apply (attempt m (with_chain n cs') t Hv Hm Et'); [by apply (fewer_later n)|]. intros n' Hl' Hm' Etm [_ Hb'] _. assert (later (chain n) (chain n')) as Hl2 by (by apply (later_trans _ _ _ Hl)).
  apply (reached_ok m n' Hm' Etm); [by apply Hb' | by apply (known_later (chain n))|]. intros p cs2 Hl3 _ Hp Hvp. apply Hext; [by apply (later_trans _ _ _ Hl2) | done | done].
Qed.

End loop.

(** What is asked of the outside: no block on the disk is damaged, the coins can be flushed after a block has been connected,
    and no validation is cancelled. *)

Class Undisturbed (C : Type) `{CoinsTip C} : Prop := {
  never_damaged k h p (c : C) freeze : ConnectBlock k h p c <> Rejected freeze true;
  always_flushed k h p (c c' : C) : ConnectBlock k h p c <> Accepted c' false;
  never_cancelled k h p (c : C) raised : ConnectBlock k h p c <> Cancelled raised }.

(** Once the loop has returned, more rounds change nothing. *)

Lemma activate_loop_more {C : Type} `{CoinsTip C} clock duration in_validation pblock fuel : forall cached n ok n' k,
  activate_loop clock duration in_validation fuel pblock cached n = Returned ok n' -> activate_loop clock duration in_validation (fuel + k) pblock cached n = Returned ok n'.
Proof.
  induction fuel as [|fuel IH]; intros cached n ok n' k; [done|]. cbn [Nat.add activate_loop]. destruct (match cached with Some m => _ | None => _ end) as [[[m|] cs]|]; [|done..].
  destruct (in_validation m); [done|]. destruct (ActivateBestChainStep _ _ _ _) as [[[] n1]|]; [apply IH.. | done | apply IH | done].
Qed.

Lemma returns_once {C : Type} `{CoinsTip C} clock duration in_validation pblock n ok n' ok' n1 j fuel : ActivateBestChain clock duration in_validation j pblock n = Returned ok n' ->
  (forall k, ActivateBestChain clock duration in_validation (fuel + k) pblock n = Returned ok' n1) -> ok' = ok /\ n1 = n'.
Proof. intros E1 E2. pose proof (activate_loop_more _ _ _ _ j None n ok n' fuel E1) as E3. specialize (E2 j). rewrite Nat.add_comm in E3. unfold ActivateBestChain in E2. split; congruence. Qed.

Definition nobody (p : ptr) : Prop := False.

(** ** A small instance *)

(** The coins are the best block alone, and the blocks of [bad] are rejected. *)

Module Toy.

Definition connect (bad : ptr -> bool) (p : ptr) : verdict ptr := if bad p then Rejected false false else Accepted p true.

Definition undo (h : heap) (p : ptr) : undone ptr := match h !! p with Some b => match pprev b with Some q => Undone q true | None => NotUndone end | None => Unread end.

Definition tip_coins (bad : ptr -> bool) : CoinsTip ptr :=
  {| GetBestBlock := Some; ConnectBlock _ _ p _ := connect bad p; DisconnectBlock _ h p _ := undo h p |}.

Definition at_block (h : heap) (p c : ptr) : Prop := c = p.

Lemma laws bad : @CoinsTipLaws ptr (tip_coins bad) at_block.
Proof.
  split; unfold at_block; cbn; unfold connect, undo.
  - done.
  - by intros h p c ->.
  - intros k h p b q c c' fl _ _ _. by destruct (bad p); intros [=].
  - intros k h p b q c c' fl -> Eq _. rewrite Eq. by intros [=].
  - intros k h p b c cor _. by destruct (bad p).
Qed.

Lemma undisturbed bad : @Undisturbed ptr (tip_coins bad).
Proof. split; cbn; unfold connect; intros; by destruct (bad p). Qed.

End Toy.

(** The blocks 1, 2, 3 and 5 of the demo are there, the genesis block is the tip. *)

Definition demo_node : node (C := ptr) := {| chain := UpdateTip (Some 1%positive) demo_linked; coins := 1%positive; calls := 0%nat |}.

Definition demo_entry (h : heap) (p : ptr) (b : CBlockIndex) : bool := (nHeight b <? 1000) && negb (isInvalid (nStatus b)) &&
  match pprev b with
  | None => (p =? 1)%positive && negb (IsInSoftConsensusFreeze b)
  | Some q => match h !! q with Some bq => val (nChainWork bq) <? val (nChainWork b) | None => true end
  end.

Lemma demo_node_ok cs t : index_ok cs -> bool_decide (map_Forall (fun p b => demo_entry (index cs) p b = true) (index cs)) = true -> is_Some (index cs !! t) -> in_chain (UpdateTip (Some t) cs) 1%positive = true ->
  node_ok Toy.at_block 10 nobody {| chain := UpdateTip (Some t) cs; coins := t; calls := 0%nat |}.
Proof.
  intros Hcs Hall%bool_decide_eq_true_1 [bt Ht] Hin. destruct (UpdateTip_ok cs t bt Hcs Ht) as [Hok Et]. split; cbn [chain coins].
  - done.
  - by exists t.
  - intros p b Hp Eb. pose proof (Hall p b Hp) as He. unfold demo_entry in He. rewrite Eb in He. apply andb_prop in He as [_ [E1 E2]%andb_prop]. apply Pos.eqb_eq in E1 as ->.
    by apply negb_true_iff in E2.
  - intros p b Hp _. pose proof (Hall p b Hp) as He. unfold demo_entry in He. apply andb_prop in He as [[_ E]%andb_prop _]. apply negb_true_iff in E. by left.
  - intros p b Hp. pose proof (Hall p b Hp) as He. unfold demo_entry in He. apply andb_prop in He as [[He%Z.ltb_lt _]%andb_prop _]. lia.
  - intros p b q bq Hp Eb Hq. pose proof (Hall p b Hp) as He. unfold demo_entry in He. cbn in Hq. rewrite Eb, Hq in He. by apply andb_prop in He as [_ He%Z.ltb_lt].
Qed.

Lemma demo_node_fine : node_ok Toy.at_block 10 nobody demo_node.
Proof. apply demo_node_ok; [apply demo_linked_ok | vm_compute; reflexivity | by eexists | vm_compute; reflexivity]. Qed.

Lemma demo_node_known : known (Some 3%positive) (chain demo_node).
Proof. intros p [= <-]. eexists. split; [vm_compute; reflexivity | reflexivity]. Qed.

Definition returned {C : Type} (a : activation (C := C)) : option (bool * option ptr) := match a with Returned ok n => Some (ok, tip (chain n)) | _ => None end.

Lemma returned_inv {C : Type} (a : activation (C := C)) r : returned a = Some r -> exists n, a = Returned r.1 n /\ tip (chain n) = r.2.
Proof. destruct a as [| |ok n]; [done..|]. intros [= <-]. by exists n. Qed.

Lemma demo_node_result : returned (@ActivateBestChain ptr (Toy.tip_coins (fun p => Pos.eqb p 3)) (fun _ => 0) 10 (fun _ => false) 10 (Some 3%positive) demo_node) = Some (true, Some 5%positive).
Proof. vm_compute. reflexivity. Qed.

(** ** Properties *)

(** C10. The loop of [ActivateBestChain] ends, and leaves the best chain active.  From a consistent node whose coins are those
    of the active chain, with a block of the caller that is known and not soft rejected, the call returns, whatever the blocks
    turn out to be: no assertion fails, blocks found invalid or frozen stay so, and if it succeeds the coins are again those
    of the active chain, which has no block marked as invalid, and no candidate that is neither soft rejected nor frozen, with
    all its blocks valid and present, ranks above the tip, unless another thread is validating the target.  Blocks on the disk
    are not damaged, flushes after [ConnectBlock] succeed, and no validation is cancelled. *)


(** Block 3, the best candidate, turns out to be invalid, and block 5 becomes the tip. *)


(** Block 2 is the tip, and block 3, which is soft rejected for one block, extends it. *)

Definition demo_stuck_index : chainstate := Eval vm_compute in
  let cs := demo_receive 2%positive demo_waiting in match soft_reject 3%positive 1 (index cs) with Some (_, h) => set_index cs h | None => cs end.

Definition demo_stuck : node (C := ptr) := {| chain := UpdateTip (Some 2%positive) demo_stuck_index; coins := 2%positive; calls := 0%nat |}.

Lemma demo_stuck_ok : node_ok Toy.at_block 10 nobody demo_stuck.
Proof.
  apply demo_node_ok; [| vm_compute; reflexivity | by eexists | vm_compute; reflexivity].
  replace demo_stuck_index with (set_index (demo_receive 2%positive demo_waiting) (index demo_stuck_index)) by (vm_compute; reflexivity).
  apply index_ok_key; [|vm_compute; reflexivity]. apply demo_receive_ok; [vm_compute; reflexivity | apply demo_waiting_ok].
Qed.

#[local] Instance accepting : CoinsTip ptr := Toy.tip_coins (fun _ => false).

Definition after_step (m : ptr) (n : node (C := ptr)) : node := match ActivateBestChainStep (fun _ => 0) 10 m n with Some (_, n') => n' | None => n end.

(** The nodes between which the loop alternates, after the first round. *)

Definition stuck_chain_up : chainstate := Eval vm_compute in chain (after_step 3%positive demo_stuck).
Definition stuck_chain_down : chainstate := Eval vm_compute in chain (after_step 2%positive (after_step 3%positive demo_stuck)).
Definition stuck_up (k : nat) : node := {| chain := stuck_chain_up; coins := 3%positive; calls := k |}.
Definition stuck_down (k : nat) : node := {| chain := stuck_chain_down; coins := 2%positive; calls := k |}.

Lemma round pblock fuel m n pr n' : choose pblock (chain n) = Some (Some m, chain n) -> ActivateBestChainStep (fun _ => 0) 10 m n = Some (pr, n') -> pr = Through \/ pr = Better -> tip (chain n') = Some m ->
  activate_loop (fun _ => 0) 10 (fun _ => false) (S fuel) pblock None n = activate_loop (fun _ => 0) 10 (fun _ => false) fuel pblock None n'.
Proof.
  intros E1 E2 Hpr Et. cbn [activate_loop]. rewrite E1. replace {| chain := chain n; coins := coins n; calls := calls n |} with n by (by destruct n). rewrite E2.
  destruct Hpr as [-> | ->]; by rewrite bool_decide_true.
Qed.

Lemma stuck_forever fuel : forall k, activate_loop (fun _ => 0) 10 (fun _ => false) fuel (Some 3%positive) None (stuck_up k) = Running /\
  activate_loop (fun _ => 0) 10 (fun _ => false) fuel (Some 3%positive) None (stuck_down k) = Running.
Proof.
  induction fuel as [|fuel IH]; intros k; [done|]. split.
  - etrans; [apply (round (Some 3%positive) fuel 2%positive (stuck_up k) Through (stuck_down (S k))) | apply IH]; [ vm_compute; reflexivity | vm_compute; reflexivity | by left | reflexivity].
  - etrans; [apply (round (Some 3%positive) fuel 3%positive (stuck_down k) Better (stuck_up (S k))) | apply IH]; [ vm_compute; reflexivity | vm_compute; reflexivity | by right | reflexivity].
Qed.

(** C33. A soft rejected block can keep [ActivateBestChain] busy for ever: [ConsiderBlockForMostWorkChain] does not ask whether
    the block of the caller is soft rejected.  If it extends the tip it is connected; [FindMostWorkChain] then prefers its
    parent, the block is disconnected, extends the tip again, and so on.  The node of the demo is as it should be in every
    other respect. *)

