(* ===== verification/Rewind.v ===== *)
(** * Rewinding the active chain

    [InvalidateBlock], [SoftRejectBlockNL] and [PreciousBlock] of [src/validation.cpp] as a whole: they change the marks of a
    block, take blocks off the active chain, offer the blocks that may be the best ones now as candidates again, and activate
    the best chain.  The parts that only change marks are in [ChainIndex] and [SoftReject], the activation is in [Activate].

    [FlushStateToDisk] after the rewinding and the presence of a connection manager are parameters; the mempool and the
    notifications are left out. *)

From stdpp Require Import gmap sorting.
From S2P Require Import Prelude Common Uint256 BlockIndex ChainIndex ChainLinks SoftReject Activate.
Import arith_uint256.

(** ** The operations *)

(** The candidates are completed: every valid linked block that is not worse than the tip is one. *)

Definition offer_again (p : ptr) (cs : chainstate) : option chainstate :=
  b ← index cs !! p;
  if IsValid b TRANSACTIONS && negb (nChainTx b =? 0) then t ← tip cs; Some (if less cs p t then cs else insert_candidate p cs) else Some cs.

Fixpoint offer_all (l : list ptr) (cs : chainstate) : option chainstate :=
  match l with [] => Some cs | p :: l => cs ← offer_again p cs; offer_all l cs end.

Definition complete_candidates (cs : chainstate) : option chainstate := offer_all (elements (dom (index cs))) cs.

Section operations.

Context {C : Type} `{CoinsTip C}.
Context (clock : nat -> Z) (duration : Z) (in_validation : ptr -> bool).
Context (FlushStateToDisk : node (C := C) -> bool) (g_connman : bool).

(** [None] inside is an error of [DisconnectTip]. *)

Fixpoint disconnect_rejected (fuel : nat) (tip_disconnected : bool) (n : node) : option (option bool * node) :=
  t ← tip (chain n);
  b ← index (chain n) !! t;
  if negb (IsSoftRejected b) then Some (Some tip_disconnected, n)
  else
    match fuel with
    | O => None
    | S fuel => r ← DisconnectTip n; if (r.1 : bool) then disconnect_rejected fuel true r.2 else Some (None, r.2)
    end.

Definition tip_height (n : node (C := C)) : nat := Z.to_nat (Height (index (chain n)) (chainActive (chain n)) + 1).

Definition DisconnectSoftRejectedTipsNL (n : node) : option (option bool * node) := disconnect_rejected (tip_height n) false n.

(** The blocks of the active chain down to [pindex] have a failed parent, are no candidates, and are disconnected. *)

Fixpoint disconnect_invalid (fuel : nat) (pindex : ptr) (n : node) : option (bool * node) :=
  if negb (in_chain (chain n) pindex) then Some (true, n)
  else
    match fuel with
    | O => None
    | S fuel =>
        pindexWalk ← tip (chain n);
        let cs := erase_candidate pindexWalk (modify ModifyStatusWithFailedParent pindexWalk (chain n)) in
        r ← DisconnectTip {| chain := cs; coins := coins n; calls := calls n |};
        if (r.1 : bool) then disconnect_invalid fuel pindex r.2 else Some r
    end.

(** [InvalidateBlock] up to the flush. *)

Definition rewind (pindex : ptr) (n : node) : option (bool * node) :=
  let cs := erase_candidate pindex (modify ModifyStatusWithFailed pindex (chain n)) in
  let n := {| chain := cs; coins := coins n; calls := calls n |} in
  r ← (if in_chain cs pindex then
         r ← disconnect_invalid (tip_height n) pindex n;
         if negb r.1 then Some r
         else
           r ← DisconnectSoftRejectedTipsNL r.2;
           match r with
           | (None, n) => Some (false, n)
           | (Some _, n) => RemoveSoftConsensusFreezeBlocks n
           end
       else cs ← InvalidateChain pindex cs; Some (true, {| chain := cs; coins := coins n; calls := calls n |}));
  if negb r.1 then Some r
  else
    cs ← complete_candidates (chain r.2);
    cs ← InvalidChainFound pindex cs;
    Some (true, {| chain := cs; coins := coins r.2; calls := calls r.2 |}).

(** The activation at the end: whether it succeeds is not told to the caller. *)

Definition then_activate (fuel : nat) (n : node) : activation :=
  if g_connman then match ActivateBestChain clock duration in_validation fuel None n with Returned _ n => Returned true n | a => a end else Returned true n.

Definition InvalidateBlock (fuel : nat) (pindex : ptr) (n : node) : activation :=
  match rewind pindex n with
  | None => Crashed
  | Some (false, n) => Returned false n
  | Some (true, n) => if FlushStateToDisk n then then_activate fuel n else Returned false n
  end.

(** The old number of blocks is set again if a block cannot be disconnected. *)

Definition restore_rejection (pindex : ptr) (numBlocks : Z) (old : heap) (n : node (C := C)) : option (node (C := C)) :=
  b ← old !! pindex;
  l ← items_after_root old pindex (nHeight b + numBlocks);
  h ← SetRootSoftRejectedForNL pindex l (nSoftRejected b) (index (chain n));
  Some {| chain := set_index (chain n) h; coins := coins n; calls := calls n |}.

Definition SoftRejectBlockNL (fuel : nat) (pindex : ptr) (numBlocks : Z) (n : node) : activation :=
  match soft_reject pindex numBlocks (index (chain n)) with
  | None => Crashed
  | Some (false, _) => Returned false n
  | Some (true, h) =>
      match DisconnectSoftRejectedTipsNL {| chain := set_index (chain n) h; coins := coins n; calls := calls n |} with
      | None => Crashed
      | Some (None, n') => match restore_rejection pindex numBlocks (index (chain n)) n' with Some n' => Returned false n' | None => Crashed end
      | Some (Some false, n') => Returned true n'
      | Some (Some true, n') =>
          match complete_candidates (chain n') with
          | None => Crashed
          | Some cs => then_activate fuel {| chain := cs; coins := coins n'; calls := calls n' |}
          end
      end
  end.

(** The block has less work than the tip, and [PreciousBlock] has nothing to do. *)

Definition below_tip (pindex : ptr) (cs : chainstate) : option bool :=
  b ← index cs !! pindex; t ← tip cs; bt ← index cs !! t; Some (CompareTo (nChainWork b) (nChainWork bt) <? 0).

Definition PreciousBlock (fuel : nat) (pindex : ptr) (n : node) : activation :=
  match below_tip pindex (chain n), PreciousBlock_mark pindex (chain n) with
  | Some true, _ => Returned true n
  | Some false, Some cs => ActivateBestChain clock duration in_validation fuel None {| chain := cs; coins := coins n; calls := calls n |}
  | _, _ => Crashed
  end.

End operations.

(** ** The candidates *)

Definition tip_rival (cs : chainstate) (t x : ptr) : Prop := exists b, index cs !! x = Some b /\ IsValid b TRANSACTIONS = true /\ nChainTx b <> 0 /\ less cs x t = false.

Lemma offer_again_ok cs t p : index_ok cs -> tip cs = Some t -> is_Some (index cs !! p) -> exists cs', offer_again p cs = Some cs' /\ index_ok cs' /\ index cs' = index cs /\
  chainActive cs' = chainActive cs /\ mapBlocksUnlinked cs' = mapBlocksUnlinked cs /\
  forall q, q ∈ setBlockIndexCandidates cs' <-> q ∈ setBlockIndexCandidates cs \/ q = p /\ tip_rival cs t p.
Proof.
  intros Hcs Et [b Hp]. unfold offer_again. rewrite Hp. cbn [mbind option_bind].
  assert ((tip_rival cs t p -> False) -> exists cs', Some cs = Some cs' /\ index_ok cs' /\ index cs' = index cs /\ chainActive cs' = chainActive cs /\ mapBlocksUnlinked cs' = mapBlocksUnlinked cs /\
    forall q, q ∈ setBlockIndexCandidates cs' <-> q ∈ setBlockIndexCandidates cs \/ q = p /\ tip_rival cs t p) as Hno by (intros Hr; exists cs; split_and!; try done; tauto).
  destruct (IsValid b TRANSACTIONS) eqn:Ev; [|apply Hno; intros (b' & Hb' & E & _); congruence].
  destruct (Z.eqb_spec (nChainTx b) 0) as [Ez|Hz]; [apply Hno; intros (b' & Hb' & _ & E & _); congruence|]. cbn [andb negb]. rewrite Et. cbn [mbind option_bind].
  destruct (less cs p t) eqn:El; [apply Hno; intros (b' & Hb' & _ & _ & E); congruence|]. destruct (index_ok_insert cs p b Hcs Hp Hz) as [H1 H2].
  eexists. split; [done|]. split_and!; try done. intros q. rewrite H2. assert (tip_rival cs t p) by (by exists b). tauto.
Qed.

Lemma offer_all_ok t l : forall cs, index_ok cs -> tip cs = Some t -> Forall (fun p => is_Some (index cs !! p)) l -> exists cs', offer_all l cs = Some cs' /\ index_ok cs' /\ index cs' = index cs /\
  chainActive cs' = chainActive cs /\ mapBlocksUnlinked cs' = mapBlocksUnlinked cs /\
  forall q, q ∈ setBlockIndexCandidates cs' <-> q ∈ setBlockIndexCandidates cs \/ q ∈ l /\ tip_rival cs t q.
Proof.
  induction l as [|p l IH]; intros cs Hcs Et Hl; cbn [offer_all]; [exists cs; split_and!; try done; intros q; rewrite elem_of_nil; tauto|]. apply list.Forall_cons in Hl as [Hp Hl].
  destruct (offer_again_ok cs t p Hcs Et Hp) as (cs1 & -> & Hcs1 & Ei & Ec & Eu & Hel). cbn [mbind option_bind]. destruct (IH cs1 Hcs1) as (cs2 & -> & Hcs2 & Ei2 & Ec2 & Eu2 & Hel2); [unfold tip; by rewrite Ec | by rewrite Ei|].
  exists cs2. split_and!; [done | done | congruence.. |]. assert (forall q, tip_rival cs1 t q <-> tip_rival cs t q) as Hr by (intros q; unfold tip_rival, less; by rewrite Ei).
  intros q. rewrite Hel2, Hel, Hr, elem_of_cons. destruct (decide (q = p)) as [->|]; tauto.
Qed.

Lemma complete_ok cs t : index_ok cs -> tip cs = Some t -> exists cs', complete_candidates cs = Some cs' /\ index_ok cs' /\ later cs cs' /\ index cs' = index cs /\
  chainActive cs' = chainActive cs /\ forall q, q ∈ setBlockIndexCandidates cs' <-> q ∈ setBlockIndexCandidates cs \/ tip_rival cs t q.
Proof.
  intros Hcs Et. destruct (offer_all_ok t (elements (dom (index cs))) cs Hcs Et) as (cs' & E & H1 & H2 & H3 & H4 & H5).
  { apply list.Forall_forall. intros p Hp. by apply elem_of_elements, elem_of_dom in Hp. }
  exists cs'. split_and!; try done; [by apply later_same|]. intros q. rewrite H5, elem_of_elements, elem_of_dom.
  assert (tip_rival cs t q -> is_Some (index cs !! q)) by (intros (b & Hb & _); by exists b). tauto.
Qed.

(** ** Taking blocks off the chain *)

Lemma modify_erase_ok cs p b f : index_ok cs -> index cs !! p = Some b -> (forall b, with_status (f b) 0 = with_status b 0) -> (forall b, entry_later b (f b)) ->
  let cs' := erase_candidate p (modify f p cs) in
  index_ok cs' /\ later cs cs' /\ index cs' = alter f p (index cs) /\ chainActive cs' = chainActive cs /\ (forall q, q ∈ setBlockIndexCandidates cs' <-> q ∈ setBlockIndexCandidates cs /\ q <> p).
Proof.
  intros Hcs Hp Hf Hlat cs'. set (cs1 := modify f p cs) in *.
  assert (index_ok cs1) as Hcs1.
  { pose proof (index_ok_status cs (index cs1) (fun _ => True) Hcs) as Hok. cbn in Hok. rewrite filter_all in Hok by done. apply Hok. symmetry. by apply same_but_status_alter. }
  assert (index cs1 !! p = Some (f b)) as Hp1 by (cbn; by rewrite lookup_alter_eq, Hp). destruct (erase_ok cs1 p Hcs1 ltac:(by eexists)) as (Hcs2 & Hl2 & Hel).
  split_and!; try done. apply (later_trans _ cs1); [|done]. apply later_modify; [|done]. intros c. specialize (Hf c). unfold place. by injection Hf as -> -> -> ->.
Qed.

Section rewinding.

Context {C : Type} `{CoinsTip C} (coins_at : heap -> ptr -> C -> Prop) `{HC : !CoinsTipLaws C coins_at}.
Context (duration : Z) (spared : ptr -> Prop).

#[local] Notation node_ok := (node_ok coins_at duration spared).

(** A block that is spared, or off the chain, is marked and taken out of the candidates. *)

Lemma mark_ok n p b f : node_ok n -> index (chain n) !! p = Some b -> (forall b, with_status (f b) 0 = with_status b 0) -> (forall b, entry_later b (f b)) -> (in_chain (chain n) p = true -> spared p) ->
  node_ok {| chain := erase_candidate p (modify f p (chain n)); coins := coins n; calls := calls n |}.
Proof.
  intros Hn Hp Hf Hlat Hsp. destruct (modify_erase_ok (chain n) p b f (no_index _ _ _ _ Hn) Hp Hf Hlat) as (H1 & H2 & H3 & H4 & _).
  apply (node_ok_entries coins_at duration spared n _ _ Hn H1 (lt_tree _ _ H2) H4). intros x c c' Hx. rewrite H3. intros (c0 & Hc0 & ->)%alter_get. rewrite Hx in Hc0. injection Hc0 as <-.
  destruct (decide (x = p)) as [->|]; [|split; [done | by left]]. split; [|intros Hin; right; by apply Hsp]. specialize (Hf c). injection Hf. intros. unfold IsInSoftConsensusFreeze. congruence.
Qed.

(** Every genesis block stays in the chain and is not soft rejected. *)

Definition genesis_free (h : heap) : Prop := forall p b, h !! p = Some b -> pprev b = None -> IsSoftRejected b = false.

Lemma tip_has_parent n t bt p b q : node_ok n -> tip (chain n) = Some t -> index (chain n) !! t = Some bt -> index (chain n) !! p = Some b -> pprev b = Some q -> ancestor (index (chain n)) p t -> exists q', pprev bt = Some q'.
Proof.
  intros Hn Et Ht Hp Eq Ha. destruct (ancestor_inv _ t bt p (io_tree _ (no_index _ _ _ _ Hn)) Ht Ha) as [->|(q' & Eq' & _)]; [exists q; congruence | by exists q'].
Qed.

Lemma disconnect_invalid_ok p fuel : forall n t bt b q, node_ok n -> tip (chain n) = Some t -> index (chain n) !! t = Some bt -> index (chain n) !! p = Some b -> pprev b = Some q ->
  (forall x, ancestor (index (chain n)) p x -> spared x) -> nHeight bt - nHeight b < Z.of_nat fuel -> exists ok n',
  disconnect_invalid fuel p n = Some (ok, n') /\ later (chain n) (chain n') /\ (ok = true -> node_ok n' /\ in_chain (chain n') p = false).
Proof.
  induction fuel as [|fuel IH]; intros n t bt b q Hn Et Ht Hp Eq Hsp Hf; pose proof (no_index _ _ _ _ Hn) as Hcs; cbn [disconnect_invalid];
    (destruct (in_chain (chain n) p) eqn:Ein; cbn [negb]; [|exists true, n; split_and!; [done | apply later_refl | done]]);
    apply (in_chain_iff _ t p b Hcs Et Hp) in Ein; destruct (ancestor_height _ t bt p (io_tree _ Hcs) Ht Ein) as (b' & Hb' & Hle & _); rewrite Hp in Hb'; injection Hb' as <-; [lia|].
  rewrite Et. cbn [mbind option_bind]. destruct (modify_erase_ok (chain n) t bt ModifyStatusWithFailedParent Hcs Ht ltac:(done) failed_parent_later) as (_ & Hl1 & Ei1 & Ec1 & _).
  pose proof (mark_ok n t bt ModifyStatusWithFailedParent Hn Ht ltac:(done) failed_parent_later (fun _ => Hsp t Ein)) as Hn1. set (n1 := {| chain := erase_candidate t _ |}) in *.
  destruct (tip_has_parent n t bt p b q Hn Et Ht Hp Eq Ein) as [q' Eq']. assert (index (chain n1) !! t = Some (ModifyStatusWithFailedParent bt)) as Ht1 by (cbn; by rewrite lookup_alter_eq, Ht).
  destruct (DisconnectTip_ok coins_at duration spared n1 t _ q' Hn1 Et Ht1 Eq') as (ok & n2 & -> & (c & Ec) & Hok). cbn [mbind option_bind fst snd].
  assert (later (chain n) (chain n2)) as Hl2 by (apply (later_trans _ _ _ Hl1); rewrite Ec; apply later_set_chain). destruct ok; [|by exists false, n2].
  destruct (Hok eq_refl) as [Hn2 Ech]. destruct (io_tree _ Hcs t bt Ht) as [_ H1]. rewrite Eq' in H1. destruct H1 as (bq & Hq & Eh & _).
  destruct (lt_entry _ _ Hl1 q' bq Hq) as (bq1 & Hq1 & _). destruct (UpdateTip_ok (chain n1) q' bq1 (no_index _ _ _ _ Hn1) Hq1) as [_ Etq]. rewrite <- Ech in Etq.
  destruct (same_tree_lookup _ _ q' bq (lt_tree _ _ Hl2) Hq) as (bq2 & Hq2 & Epq). destruct (same_tree_lookup _ _ p b (lt_tree _ _ Hl2) Hp) as (b2 & Hp2 & Ep2). injection Epq as _ _ Epq _. injection Ep2 as Ep2 _ Eph _.
  destruct (IH n2 q' bq2 b2 q Hn2 Etq Hq2 Hp2) as (ok & n3 & -> & Hl3 & Hok3); [congruence | intros x; rewrite <- (lt_tree _ _ Hl2); apply Hsp | lia|].
  exists ok, n3. split_and!; [done | by apply (later_trans _ _ _ Hl2) | done].
Qed.

Lemma disconnect_rejected_ok fuel : forall d n t bt, node_ok n -> genesis_free (index (chain n)) -> tip (chain n) = Some t -> index (chain n) !! t = Some bt -> nHeight bt < Z.of_nat fuel -> exists ok n',
  disconnect_rejected fuel d n = Some (ok, n') /\ (exists c, chain n' = set_chain (chain n) c) /\ (ok = Some false -> d = false /\ n' = n) /\
  (forall r, ok = Some r -> node_ok n' /\ exists t' b', tip (chain n') = Some t' /\ ancestor (index (chain n)) t' t /\ index (chain n') !! t' = Some b' /\ IsSoftRejected b' = false).
Proof.
  induction fuel as [|fuel IH]; intros d n t bt Hn Hg Et Ht Hf; pose proof (proj1 (io_tree _ (no_index _ _ _ _ Hn) t bt Ht)); [lia|].
  cbn [disconnect_rejected]. rewrite Et. cbn [mbind option_bind]. rewrite Ht. cbn [mbind option_bind]. destruct (IsSoftRejected bt) eqn:Er; cbn [negb].
  - destruct (pprev bt) as [q|] eqn:Eq; [|by rewrite (Hg t bt Ht Eq) in Er].
    destruct (DisconnectTip_ok coins_at duration spared n t bt q Hn Et Ht Eq) as (ok & n1 & -> & (c1 & E1) & Hok). cbn [mbind option_bind fst snd].
    destruct ok; [|exists None, n1; split_and!; [done | by exists c1 | done | done]]. destruct (Hok eq_refl) as [Hn1 Ec].
    destruct (io_tree _ (no_index _ _ _ _ Hn) t bt Ht) as [_ H1]. rewrite Eq in H1. destruct H1 as (bq & Hq & Eh & _).
    destruct (UpdateTip_ok (chain n) q bq (no_index _ _ _ _ Hn) Hq) as [_ Etq]. rewrite <- Ec in Etq. assert (index (chain n1) = index (chain n)) as Ei by (by rewrite Ec).
    destruct (IH true n1 q bq Hn1) as (ok & n2 & -> & (c2 & Ec2) & Hf2 & Hok2); [by rewrite Ei | done | by rewrite Ei | lia|]. exists ok, n2. split_and!; [done | exists c2; by rewrite Ec2, E1 | intros E; by destruct (Hf2 E) |].
    intros r Hr. destruct (Hok2 r Hr) as (H1 & t' & b' & H2 & H3 & H4 & H5). split; [done|]. exists t', b'. rewrite Ei in H3. split_and!; [done | | done | done].
    apply (ancestor_trans _ t' q t H3). by apply (ancestor_step _ t bt).
  - exists (Some d), n. split_and!; [done | exists (chainActive (chain n)); by destruct (chain n) | by intros [= ->] |]. intros r _. split; [done|]. exists t, bt. split_and!; try done. apply ancestor_refl.
Qed.

Lemma tip_height_ok n t bt : node_ok n -> tip (chain n) = Some t -> index (chain n) !! t = Some bt -> Z.of_nat (tip_height n) = nHeight bt + 1.
Proof.
  intros Hn Et Ht. pose proof (proj1 (io_tree _ (no_index _ _ _ _ Hn) t bt Ht)). unfold tip_height, Height. change (mChainTip (chainActive (chain n))) with (tip (chain n)). rewrite Et, Ht. lia.
Qed.

Lemma DisconnectSoftRejectedTipsNL_ok n t : node_ok n -> genesis_free (index (chain n)) -> tip (chain n) = Some t -> exists ok n',
  DisconnectSoftRejectedTipsNL n = Some (ok, n') /\ (exists c, chain n' = set_chain (chain n) c) /\ (ok = Some false -> n' = n) /\
  (forall r, ok = Some r -> node_ok n' /\ exists t' b', tip (chain n') = Some t' /\ ancestor (index (chain n)) t' t /\ index (chain n') !! t' = Some b' /\ IsSoftRejected b' = false).
Proof.
  intros Hn Hg Et. destruct (tip_block _ t (no_index _ _ _ _ Hn) Et) as [bt Ht]. pose proof (tip_height_ok n t bt Hn Et Ht).
  destruct (disconnect_rejected_ok (tip_height n) false n t bt Hn Hg Et Ht ltac:(lia)) as (ok & n' & E & H1 & H2 & H3). exists ok, n'. split_and!; try done. intros E'. by apply H2.
Qed.

End rewinding.

(** More blocks are spared, or those that were spared are off the chain. *)

Lemma node_ok_spare {C} (coins_at : heap -> ptr -> C -> Prop) duration (P Q : ptr -> Prop) n : node_ok coins_at duration P n -> (forall x, in_chain (chain n) x = true -> P x -> Q x) -> node_ok coins_at duration Q n.
Proof. intros [H1 H2 H3 H4 H5 H6] HPQ. split; try done. intros p b Hp Hin. destruct (H4 p b Hp Hin) as [|]; [by left | right; by apply HPQ]. Qed.

Lemma genesis_free_later cs cs' : later cs cs' -> genesis_free (index cs) -> genesis_free (index cs').
Proof.
  intros Hl Hg p b' Hp' Eb. pose proof (lt_tree _ _ Hl) as Es. symmetry in Es. destruct (same_tree_lookup _ _ p b' Es Hp') as (b & Hp & Ep). injection Ep as Ep _ _ _.
  destruct (lt_entry _ _ Hl p b Hp) as (b1 & Hb1 & He). rewrite Hp' in Hb1. injection Hb1 as <-. unfold IsSoftRejected. rewrite (el_soft _ _ He). apply (Hg p b Hp). congruence.
Qed.

Lemma InvalidateChain_later cs p b : index_ok cs -> index cs !! p = Some b -> isInvalid (nStatus b) = true -> in_chain cs p = false -> (exists t, tip cs = Some t) ->
  exists cs', InvalidateChain p cs = Some cs' /\ index_ok cs' /\ later cs cs' /\ chainActive cs' = chainActive cs /\ steady cs cs'.
Proof.
  intros Hcs Hp Hi Hout [t Et]. destruct (InvalidateChain_spec cs Hcs p b Hp Hi) as (M & E & HM). exists (marked M cs). split; [done|]. split; [by apply marked_ok|]. split; [|split; [done|]].
  - split; [apply same_but_status_tree, marked_status | | done]. intros x c Hx. exists (fail_if M x c). rewrite marked_lookup, Hx. split; [done|]. unfold fail_if. destruct (decide _); [apply failed_parent_later | apply entry_later_refl].
  - intros x c c' Hx. rewrite marked_lookup, Hx. intros [= <-]. unfold fail_if. destruct (decide (x ∈ M)) as [Hin|]; [|done]. split; [done|]. intros Hc%(in_chain_iff cs t x c Hcs Et Hx).
    apply HM in Hin as (_ & Ha & _). assert (in_chain cs p = true) by (apply (in_chain_iff cs t p b Hcs Et Hp), (ancestor_trans _ p x t Ha Hc)). congruence.
Qed.

(** ** Soft rejection *)

Definition may_reject (h : heap) (p : ptr) (b : CBlockIndex) (m : Z) : Prop := nHeight b <> 0 /\ (0 <= nSoftRejected b -> own_rejection h b /\ nSoftRejected b < m) /\
  forall y c, h !! y = Some c -> ancestor h p y -> y <> p -> nHeight c <= nHeight b + m -> ~ own_rejection h c.

(** The entries after the rejection of [p] for [m] blocks. *)

Definition rejected_entries (h : heap) (p : ptr) (b : CBlockIndex) (m : Z) (h' : heap) : Prop := forall y c, h !! y = Some c ->
  (ancestor h p y /\ nHeight c <= nHeight b + m -> h' !! y = Some (rejected_for (m - (nHeight c - nHeight b)) c)) /\
  (~ (ancestor h p y /\ nHeight c <= nHeight b + m) -> h' !! y = Some c).

Lemma ancestor_or_not h p b y c : tree_ok h -> h !! p = Some b -> h !! y = Some c -> ancestor h p y \/ ~ ancestor h p y.
Proof.
  intros Ht Hp Hc. destruct (decide (walk h (Z.to_nat (nHeight c - nHeight b)) y = Some p)) as [E|E]; [left; by eexists|]. right. intros Ha. destruct (ancestor_height h y c p Ht Hc Ha) as (b' & Hb' & _ & Hw). by simplify_eq.
Qed.

Lemma rejected_entry h p b m h' y c : tree_ok h -> h !! p = Some b -> rejected_entries h p b m h' -> h !! y = Some c ->
  h' !! y = Some c /\ ~ (ancestor h p y /\ nHeight c <= nHeight b + m) \/ h' !! y = Some (rejected_for (m - (nHeight c - nHeight b)) c) /\ ancestor h p y /\ nHeight c <= nHeight b + m.
Proof.
  intros Ht Hp Hr Hc. destruct (Hr y c Hc) as [H1 H2]. destruct (ancestor_or_not h p b y c Ht Hp Hc) as [Ha|Ha]; [|left; split; [apply H2|]; tauto].
  destruct (decide (nHeight c <= nHeight b + m)); [right; split_and!; auto | left; split; [apply H2|]; tauto].
Qed.

Lemma rejected_for_shape k c : key (rejected_for k c) = key c /\ IsInSoftConsensusFreeze (rejected_for k c) = IsInSoftConsensusFreeze c /\ isInvalid (nStatus (rejected_for k c)) = isInvalid (nStatus c).
Proof. split_and!; [done | done|]. unfold rejected_for, withDataForSoftRejection. cbn [nStatus with_status with_soft]. unfold isInvalid, has_flag. by rewrite with_flag_mask. Qed.

Lemma soft_ok_genesis h : soft_ok h -> genesis_free h.
Proof. intros Hs p b Hp Eb. unfold IsSoftRejected. by rewrite (sr_genesis _ Hs p b Hp Eb). Qed.

(** The old counters come back. *)

Lemma restored_ok h p b m h' : tree_ok h -> soft_ok h -> h !! p = Some b -> 0 <= m -> may_reject h p b m -> rejected_entries h p b m h' -> same_tree h h' ->
  exists l h2, items_after_root h p (nHeight b + m) = Some l /\ SetRootSoftRejectedForNL p l (nSoftRejected b) h' = Some h2 /\ forall y, nSoftRejected <$> h2 !! y = nSoftRejected <$> h !! y.
Proof.
  intros Ht Hs Hp Hm (H0 & Hown & Hno) Hr Es. destruct (items_spec h Ht p b Hp (nHeight b + m)) as (l & El & _). exists l.
  destruct (Ht p b Hp) as [Hpos H1]. destruct (pprev b) as [q|] eqn:Eq; [|lia]. destruct H1 as (bq & Hq & Eh & _).
  assert (nSoftRejected bq <= 0) as Hfree.
  { destruct (decide (0 < nSoftRejected bq)) as [Hlt|]; [|lia]. pose proof (sr_parent _ Hs p b q bq Hp Eq Hq Hlt). destruct (Hown ltac:(lia)) as [(_ & q' & bq' & Eq' & Hq' & Hle) _]. simplify_eq. lia. }
  assert (h' !! q = Some bq) as Hq'.
  { apply (Hr q bq Hq). intros [Ha _]. destruct (ancestor_height h q bq p Ht Hq Ha) as (b' & Hb' & Hle & _). simplify_eq. lia. }
  assert (h' !! p = Some (rejected_for m b)) as Hp' by (rewrite (proj1 (Hr p b Hp)) by (split; [apply ancestor_refl | lia]); do 2 f_equal; lia).
  assert (tree_ok h') as Ht' by (by rewrite <- Es). assert (items_after_root h' p (nHeight b + m) = Some l) as El' by (by rewrite <- Es).
  destruct (set_root_spec h' Ht' p (rejected_for m b) Hp' q bq Eq Hq' Hfree (nSoftRejected b) (nHeight b + m) l (sr_range _ Hs p b Hp) El') as (h2 & E2 & Es2 & Hval). exists h2. split_and!; [done | done|].
  intros y. destruct (h !! y) as [c|] eqn:Hc; [|by rewrite (same_tree_none _ _ y Es2 (same_tree_none _ _ y Es Hc))].
  destruct (rejected_entry h p b m h' y c Ht Hp Hr Hc) as [[Hy Hout]|(Hy & Ha & Hle)]; pose proof (touched_iff h' Ht' p (rejected_for m b) Hp' (nHeight b + m) l y _ El' Hy) as Htc.
  - rewrite <- Es in Htc. rewrite (proj2 (Hval y c Hy)); [done|]. rewrite Htc. intros [Ha [->|Hle]]; [|by apply Hout]. apply Hout. simplify_eq. split; [done | lia].
  - rewrite <- Es in Htc. rewrite (proj1 (Hval y _ Hy)) by (apply Htc; split; [done | by right]). cbn. f_equal. symmetry. by apply (counter_passed_down h p b (nHeight b + m) Ht Hs Hp Hno y c Hc Ha).
Qed.

Section invalidate.

Context {C : Type} `{CoinsTip C} (coins_at : heap -> ptr -> C -> Prop) `{HC : !CoinsTipLaws C coins_at}.
Context (duration : Z).

#[local] Notation node_ok := (node_ok coins_at duration nobody).

(** The blocks from [p] on leave the chain. *)

Lemma rewind_chain_ok n p b q : node_ok n -> genesis_free (index (chain n)) -> index (chain n) !! p = Some b -> pprev b = Some q -> in_chain (chain n) p = true ->
  let n1 := {| chain := erase_candidate p (modify ModifyStatusWithFailed p (chain n)); coins := coins n; calls := calls n |} in
  exists ok n', (r ← disconnect_invalid (tip_height n1) p n1;
    if negb r.1 then Some r
    else r ← DisconnectSoftRejectedTipsNL r.2; match r with (None, n) => Some (false, n) | (Some _, n) => RemoveSoftConsensusFreezeBlocks n end) = Some (ok, n') /\
    later (chain n1) (chain n') /\ (ok = true -> node_ok n').
Proof.
  intros Hn Hg Hp Eq Hin n1. pose proof (no_index _ _ _ _ Hn) as Hcs. set (spared := fun x => ancestor (index (chain n)) p x).
  destruct (modify_erase_ok (chain n) p b ModifyStatusWithFailed Hcs Hp ltac:(done) (fun c => proj1 (proj2 (failed_later c)))) as (_ & Hl1 & Ei1 & _).
  assert (Activate.node_ok coins_at duration spared n1) as Hn1.
  { apply (mark_ok coins_at duration spared n p b); [by apply (node_ok_spare _ _ nobody) | done | done | intros c; apply failed_later | intros _; apply ancestor_refl]. }
  destruct (no_tip _ _ _ _ Hn1) as (t & Et & _). destruct (tip_block _ t (no_index _ _ _ _ Hn1) Et) as [bt Ht]. pose proof (tip_height_ok coins_at duration spared n1 t bt Hn1 Et Ht) as Eh.
  assert (index (chain n1) !! p = Some (ModifyStatusWithFailed b)) as Hp1 by (cbn; by rewrite lookup_alter_eq, Hp). pose proof (proj1 (io_tree _ Hcs p b Hp)) as H0.
  destruct (disconnect_invalid_ok coins_at duration spared p (tip_height n1) n1 t bt (ModifyStatusWithFailed b) q Hn1 Et Ht Hp1 Eq) as (ok & n2 & -> & Hl2 & Hok).
  { intros x. unfold spared. by rewrite (lt_tree _ _ Hl1). }
  { rewrite Eh. cbn. lia. }
  pose proof (later_trans _ _ _ Hl1 Hl2) as Hl. cbn [mbind option_bind fst snd]. destruct ok; cbn [negb]; [|by exists false, n2]. destruct (Hok eq_refl) as [Hn2 Hout]. destruct (no_tip _ _ _ _ Hn2) as (t2 & Et2 & _).
  destruct (lt_entry _ _ Hl p b Hp) as (b2 & Hp2 & _).
  assert (node_ok n2) as Hn2'.
  { apply (node_ok_spare _ _ spared _ _ Hn2). intros x Hx Ha. destruct (index (chain n2) !! x) as [bx|] eqn:Hbx; [|unfold in_chain, Contains in Hx; by rewrite Hbx in Hx].
    apply (in_chain_iff _ t2 x bx (no_index _ _ _ _ Hn2) Et2 Hbx) in Hx. unfold spared in Ha. rewrite (lt_tree _ _ Hl) in Ha.
    assert (in_chain (chain n2) p = true) by (apply (in_chain_iff _ t2 p b2 (no_index _ _ _ _ Hn2) Et2 Hp2), (ancestor_trans _ p x t2 Ha Hx)). congruence. }
  destruct (DisconnectSoftRejectedTipsNL_ok coins_at duration nobody n2 t2 Hn2' (genesis_free_later _ _ Hl Hg) Et2) as (ok & n3 & -> & (c3 & Ec3) & _ & Hok3). cbn [mbind option_bind].
  assert (later (chain n1) (chain n3)) as Hl3 by (apply (later_trans _ _ _ Hl2); rewrite Ec3; apply later_set_chain). destruct ok as [r|]; [|by exists false, n3].
  destruct (RemoveSoftConsensusFreezeBlocks_ok coins_at duration nobody n3 (proj1 (Hok3 r eq_refl))) as (ok & n4 & -> & (c4 & Ec4) & Hok4). exists ok, n4. split_and!; [done | | done].
  apply (later_trans _ _ _ Hl3). rewrite Ec4. apply later_set_chain.
Qed.

Lemma invalid_off n p b : node_ok n -> index (chain n) !! p = Some b -> isInvalid (nStatus b) = true -> in_chain (chain n) p = false.
Proof. intros Hn Hp Hi. destruct (in_chain (chain n) p) eqn:E; [|done]. destruct (no_valid _ _ _ _ Hn p b Hp E) as [|[]]. congruence. Qed.

Definition rivals_listed (cs : chainstate) : Prop := exists t, tip cs = Some t /\ forall x, tip_rival cs t x -> x ∈ setBlockIndexCandidates cs.

Lemma completed_ok n : node_ok n -> exists cs, complete_candidates (chain n) = Some cs /\ later (chain n) cs /\ index cs = index (chain n) /\ chainActive cs = chainActive (chain n) /\ node_ok (with_chain n cs) /\ rivals_listed cs.
Proof.
  intros Hn. destruct (no_tip _ _ _ _ Hn) as (t & Et & _). destruct (complete_ok (chain n) t (no_index _ _ _ _ Hn) Et) as (cs & E & Hcs & Hl & Ei & Ec & Hel).
  exists cs. split_and!; [done | done | done | done | |].
  - apply (node_ok_later coins_at duration nobody n cs _ Hn Hcs Hl Ec). by apply steady_same.
  - exists t. split; [unfold tip; by rewrite Ec|]. intros x Hx. apply Hel. right. unfold tip_rival, less in *. by rewrite Ei in Hx.
Qed.

Lemma rewind_ok n p b q : node_ok n -> genesis_free (index (chain n)) -> index (chain n) !! p = Some b -> pprev b = Some q -> exists ok n',
  rewind p n = Some (ok, n') /\ later (chain n) (chain n') /\ (exists b', index (chain n') !! p = Some b' /\ hasFailed (nStatus b') = true) /\ (ok = true -> node_ok n' /\ rivals_listed (chain n')).
Proof.
  intros Hn Hg Hp Eq. pose proof (no_index _ _ _ _ Hn) as Hcs. destruct (modify_erase_ok (chain n) p b ModifyStatusWithFailed Hcs Hp ltac:(done) (fun c => proj1 (proj2 (failed_later c)))) as (Hcs1 & Hl1 & Ei1 & Ec1 & _).
  unfold rewind. set (cs1 := erase_candidate p (modify ModifyStatusWithFailed p (chain n))) in *. set (n1 := {| chain := cs1; coins := coins n; calls := calls n |}).
  assert (index cs1 !! p = Some (ModifyStatusWithFailed b)) as Hp1 by (by rewrite Ei1, lookup_alter_eq, Hp).
  assert (in_chain cs1 p = in_chain (chain n) p) as Ein by (unfold in_chain; rewrite Ec1; by rewrite (lt_tree _ _ Hl1)).
  assert (exists ok n2, (if in_chain cs1 p then r ← disconnect_invalid (tip_height n1) p n1; if negb r.1 then Some r
      else r ← DisconnectSoftRejectedTipsNL r.2; match r with (None, n) => Some (false, n) | (Some _, n) => RemoveSoftConsensusFreezeBlocks n end
    else cs ← InvalidateChain p cs1; Some (true, {| chain := cs; coins := coins n1; calls := calls n1 |})) = Some (ok, n2) /\ later cs1 (chain n2) /\ (ok = true -> node_ok n2)) as (ok & n2 & E & Hl2 & Hn2).
  { destruct (in_chain cs1 p) eqn:Eout; [by apply (rewind_chain_ok n p b q)|]. symmetry in Ein.
    pose proof (mark_ok coins_at duration nobody n p b ModifyStatusWithFailed Hn Hp ltac:(done) (fun c => proj1 (proj2 (failed_later c))) ltac:(congruence)) as Hn1. destruct (no_tip _ _ _ _ Hn1) as (t & Et & _).
    destruct (InvalidateChain_later cs1 p _ Hcs1 Hp1 (failed_invalid _ (proj2 (proj2 (failed_later b)))) Eout ltac:(by exists t)) as (cs2 & -> & Hcs2 & Hl2 & Ec2 & Hst). cbn [mbind option_bind].
    eexists _, _. split; [done|]. split; [done|]. intros _. by apply (node_ok_later coins_at duration nobody n1 cs2 _ Hn1). }
  fold n1. rewrite E. cbn [mbind option_bind]. destruct (lt_entry _ _ Hl2 p _ Hp1) as (b2 & Hp2 & He2). pose proof (el_failed _ _ He2 (proj2 (proj2 (failed_later b)))) as Hf2.
  destruct ok; cbn [negb fst snd]; [|exists false, n2; split_and!; [done | by apply (later_trans _ _ _ Hl1) | by exists b2 | done]].
  destruct (completed_ok n2 (Hn2 eq_refl)) as (cs3 & -> & Hl3 & Ei3 & _ & Hn3 & Hr3). cbn [mbind option_bind]. destruct (no_tip _ _ _ _ Hn3) as (t & Et & _).
  destruct (InvalidChainFound_ok p cs3 t (no_index _ _ _ _ Hn3) ltac:(rewrite Ei3; by exists b2) Et) as (cs4 & -> & Hcs4 & Hl4 & Ei4 & Es4 & Ec4). cbn [mbind option_bind].
  eexists _, _. split; [done|]. cbn [chain]. split_and!.
  - apply (later_trans _ _ _ Hl1), (later_trans _ _ _ Hl2), (later_trans _ _ _ Hl3), Hl4.
  - exists b2. by rewrite Ei4, Ei3.
  - intros _. split; [apply (node_ok_later coins_at duration nobody (with_chain n2 cs3) cs4 _ Hn3 Hcs4 Hl4 Ec4); by apply steady_same|].
    destruct Hr3 as (t3 & Et3 & Hr3). exists t3. split; [unfold tip; by rewrite Ec4|]. intros x Hx. rewrite Es4. apply Hr3. unfold tip_rival, less in *. by rewrite Ei4 in Hx.
Qed.

(** The activation from there. *)

Context (clock : nat -> Z) (in_validation : ptr -> bool) (g_connman : bool) `{HU : !Undisturbed C}.
Context (Hclock : forall k, clock k <= time_max) (Hduration : 0 <= duration).

(** [n'] is the node after the activation from [n], if there is one. *)

Definition activated_from (fuel : nat) (n n' : node (C := C)) : Prop :=
  if g_connman then exists done, (forall k, ActivateBestChain clock duration in_validation (fuel + k) None n = Returned done n') /\
    (done = true -> node_ok n' /\ (settled (chain n') \/ exists m, in_validation m = true /\ best_for m (chain n')))
  else n' = n.

Lemma then_activate_ok n : node_ok n -> exists fuel n', (forall k, then_activate clock duration in_validation g_connman (fuel + k) n = Returned true n') /\ later (chain n) (chain n') /\ activated_from fuel n n'.
Proof.
  intros Hn. unfold then_activate, activated_from. destruct g_connman; [|exists O, n; split_and!; [done | apply later_refl | done]].
  destruct (loop_ok coins_at clock duration in_validation nobody Hclock Hduration never_damaged always_flushed never_cancelled None n Hn ltac:(done)) as (fuel & ok & n' & E & Hl & Hok).
  exists fuel, n'. split_and!; [intros k; unfold ActivateBestChain; by rewrite E | done|]. exists ok. split; [exact E|]. intros ->. destruct (Hok eq_refl) as [Hn' [Hs|(m & Hm & [Hb|?])]]; [by split; [|left] | | done].
  split; [done|]. right. by exists m.
Qed.

End invalidate.

Lemma rejected_node {C : Type} `{CoinsTip C} (coins_at : heap -> ptr -> C -> Prop) `{!CoinsTipLaws C coins_at} duration n p b m h' :
  node_ok coins_at duration nobody n -> index (chain n) !! p = Some b -> rejected_entries (index (chain n)) p b m h' -> same_tree (index (chain n)) h' ->
  node_ok coins_at duration nobody {| chain := set_index (chain n) h'; coins := coins n; calls := calls n |}.
Proof.
  intros Hn Hp Hr Es. pose proof (no_index _ _ _ _ Hn) as Hcs.
  assert (forall y c c', index (chain n) !! y = Some c -> h' !! y = Some c' -> key c' = key c /\ IsInSoftConsensusFreeze c' = IsInSoftConsensusFreeze c /\ isInvalid (nStatus c') = isInvalid (nStatus c)) as Hshape.
  { intros y c c' Hc Hc'. destruct (rejected_entry _ p b m h' y c (io_tree _ Hcs) Hp Hr Hc) as [[E _]|[E _]]; rewrite Hc' in E; injection E as ->; [done | apply rejected_for_shape]. }
  apply (node_ok_entries coins_at duration nobody n _ _ Hn); [| done | done |].
  - apply index_ok_key; [done|]. apply map_eq. intros y. rewrite !lookup_fmap. destruct (index (chain n) !! y) as [c|] eqn:Hc; [|by rewrite (same_tree_none _ _ y Es Hc)].
    destruct (same_tree_lookup _ _ y c Es Hc) as (c' & Hc' & _). rewrite Hc'. cbn. by rewrite (proj1 (Hshape y c c' Hc Hc')).
  - intros y c c' Hc Hc'. destruct (Hshape y c c' Hc Hc') as (_ & H1 & H2). split; [done | by left].
Qed.

(** ** Precious blocks *)

Lemma counters_ok cs a b w : index_ok cs -> index_ok (set_counters cs a b w).
Proof. by intros [H1 H2 H3 H4 H5 H6 H7]. Qed.

Lemma precious_later r b : entry_later b (SetSequenceId (IgnoreValidationTime b) r).
Proof. by split. Qed.

(** The entry gets its new rank while it is no candidate. *)

Lemma ranked_ok cs p b f : index_ok cs -> index cs !! p = Some b -> (forall b, place (f b) = place b) -> (forall b, entry_later b (f b)) ->
  let cs' := modify f p (erase_candidate p cs) in
  index_ok cs' /\ later cs cs' /\ index cs' = alter f p (index cs) /\ chainActive cs' = chainActive cs /\ (forall q, q ∈ setBlockIndexCandidates cs' <-> q ∈ setBlockIndexCandidates cs /\ q <> p).
Proof.
  intros Hcs Hp Hf Hlat cs'. destruct (erase_ok cs p Hcs ltac:(by exists b)) as (Hcs1 & Hl1 & Hel1). split_and!; [| | done | done | done].
  - apply (index_ok_modify _ p b f Hcs1); [intros Hin; by apply Hel1 in Hin as [_ ?] | done | done | |]; rewrite (el_linked _ _ (Hlat b)); [|done]. intros Hz q bq. by apply (io_parents _ Hcs p b).
  - apply (later_trans _ _ _ Hl1). by apply later_modify.
Qed.

Lemma PreciousBlock_mark_ok cs p b t : index_ok cs -> index cs !! p = Some b -> tip cs = Some t -> tip_listed cs -> exists cs',
  PreciousBlock_mark p cs = Some cs' /\ index_ok cs' /\ later cs cs' /\ chainActive cs' = chainActive cs /\ steady cs cs'.
Proof.
  intros Hcs Hp Et Htl. destruct (tip_block cs t Hcs Et) as [bt Ht]. unfold PreciousBlock_mark. rewrite Hp. cbn [mbind option_bind]. rewrite Et. cbn [mbind option_bind]. rewrite Ht. cbn [mbind option_bind].
  destruct (CompareTo (nChainWork b) (nChainWork bt) <? 0); [exists cs; split_and!; [done | done | apply later_refl | done | by apply steady_same]|].
  set (reverse := if 0 <? _ then -1 else _). set (f := fun b => SetSequenceId (IgnoreValidationTime b) reverse). set (cs0 := set_counters cs _ reverse _).
  destruct (ranked_ok cs0 p b f (counters_ok cs _ _ _ Hcs) Hp ltac:(done) (precious_later reverse)) as (Hcs1 & Hl1 & Ei1 & Ec1 & Hel1). set (cs1 := modify f p (erase_candidate p cs0)) in *.
  assert (later cs cs1) as Hl by (apply (later_trans _ cs0); [by apply later_same | done]).
  assert (steady cs cs1) as Hst by (intros x c c' Hx; rewrite Ei1; intros (c0 & Hc0 & ->)%alter_get; change (index cs !! x = Some c0) in Hc0; rewrite Hx in Hc0; injection Hc0 as <-; by destruct (decide (x = p))).
  set (cs2 := set_counters cs1 _ _ _). assert (index_ok cs2) as Hcs2 by (by apply counters_ok). assert (later cs1 cs2) as Hl2 by (by apply later_same).
  destruct (IsValid b TRANSACTIONS && negb (nChainTx b =? 0)) eqn:Ev; [|exists cs2; split_and!; [done | done | by apply (later_trans _ _ _ Hl) | done | exact Hst]].
  apply andb_prop in Ev as [_ Hz%negb_true_iff%Z.eqb_neq]. destruct (index_ok_insert cs2 p (f b) Hcs2) as [Hcs3 Hel3]; [change (index cs2) with (index cs1); rewrite Ei1, lookup_alter_eq; change (f <$> index cs !! p = Some (f b)); by rewrite Hp | done|].
  destruct (Prune_ok (insert_candidate p cs2) t t Hcs3 Et) as (cs' & E & Hcs' & Hl' & Ei' & Ec' & _).
  { apply Hel3. destruct (decide (t = p)) as [|Hne]; [by right | left]. by apply Hel1; split; [apply Htl|]. }
  { unfold less. apply comparator_irrefl, Hcs3. }
  exists cs'. split_and!; [exact E | done | | done |].
  - apply (later_trans _ _ _ Hl), (later_trans _ (insert_candidate p cs2)); [by apply later_same | done].
  - intros x c c' Hx Hx'. apply (Hst x c c' Hx). by rewrite Ei' in Hx'.
Qed.

(** [PreciousBlock] returns, and if it succeeds the best chain is active, by the new order of the candidates. *)

Theorem PreciousBlock_correct {C : Type} `{CoinsTip C} (coins_at : heap -> ptr -> C -> Prop) `{!CoinsTipLaws C coins_at} `{!Undisturbed C} clock duration in_validation n p b :
  (forall k, clock k <= time_max) -> 0 <= duration -> node_ok coins_at duration nobody n -> tip_listed (chain n) -> index (chain n) !! p = Some b ->
  exists fuel ok n', (forall k, PreciousBlock clock duration in_validation (fuel + k) p n = Returned ok n') /\ later (chain n) (chain n') /\
    (ok = true -> node_ok coins_at duration nobody n' /\ (n' = n \/ settled (chain n') \/ exists m, in_validation m = true /\ best_for m (chain n'))).
Proof.
  intros Hclock Hduration Hn Htl Hp. pose proof (no_index _ _ _ _ Hn) as Hcs. destruct (no_tip _ _ _ _ Hn) as (t & Et & _). destruct (tip_block _ t Hcs Et) as [bt Ht].
  destruct (PreciousBlock_mark_ok (chain n) p b t Hcs Hp Et Htl) as (cs & E & Hcs' & Hl & Ec & Hst). unfold PreciousBlock, below_tip. rewrite Hp, Et. cbn [mbind option_bind]. rewrite Ht. cbn [mbind option_bind]. rewrite E.
  destruct (_ <? 0); [exists O, true, n; split_and!; [done | apply later_refl | by split; [|left]]|].
  destruct (loop_ok coins_at clock duration in_validation nobody Hclock Hduration never_damaged always_flushed never_cancelled None (with_chain n cs)
    (node_ok_later coins_at duration nobody n cs _ Hn Hcs' Hl Ec Hst) ltac:(done)) as (fuel & ok & n' & E' & Hl' & Hok).
  exists fuel, ok, n'. split_and!; [exact E' | by apply (later_trans _ _ _ Hl)|]. intros ->. destruct (Hok eq_refl) as [Hn' [Hs|(m & Hm & [Hb|?])]]; [by split; [|right; left] | | done].
  split; [done|]. right. right. by exists m.
Qed.

(** ** The demo *)

(** Once the calls have returned, more rounds change nothing. *)

Lemma then_activate_more {C : Type} `{CoinsTip C} clock duration in_validation g_connman n j k ok n' : then_activate clock duration in_validation g_connman j n = Returned ok n' ->
  then_activate clock duration in_validation g_connman (j + k) n = Returned ok n'.
Proof.
  unfold then_activate, ActivateBestChain. destruct g_connman; [|done]. destruct (activate_loop _ _ _ j None None n) as [| |ok' n1] eqn:E; [done | done|]. by rewrite (activate_loop_more _ _ _ _ j None n ok' n1 k E).
Qed.

Lemma InvalidateBlock_more {C : Type} `{CoinsTip C} clock duration in_validation flush g_connman p n j k ok n' : InvalidateBlock clock duration in_validation flush g_connman j p n = Returned ok n' ->
  InvalidateBlock clock duration in_validation flush g_connman (j + k) p n = Returned ok n'.
Proof. unfold InvalidateBlock. destruct (rewind p n) as [[[] n1]|]; [|done..]. destruct (flush n1); [apply then_activate_more | done]. Qed.

Lemma SoftRejectBlockNL_more {C : Type} `{CoinsTip C} clock duration in_validation g_connman p m n j k ok n' : SoftRejectBlockNL clock duration in_validation g_connman j p m n = Returned ok n' ->
  SoftRejectBlockNL clock duration in_validation g_connman (j + k) p m n = Returned ok n'.
Proof.
  unfold SoftRejectBlockNL. destruct (soft_reject _ _ _) as [[[] h]|]; [|done..]. destruct (DisconnectSoftRejectedTipsNL _) as [[[[]|] n1]|]; [|done..]. destruct (complete_candidates _); [apply then_activate_more | done].
Qed.

(** Block 3 is the tip, block 5 is its sibling. *)

Definition demo_tip3 : node (C := ptr) := {| chain := UpdateTip (Some 3%positive) demo_linked; coins := 3%positive; calls := 0%nat |}.

Lemma demo_tip3_ok : node_ok Toy.at_block 10 nobody demo_tip3.
Proof. apply demo_node_ok; [apply demo_linked_ok | vm_compute; reflexivity | by eexists | vm_compute; reflexivity]. Qed.

Lemma demo_tip3_soft : soft_ok (index (chain demo_tip3)).
Proof.
  assert (map_Forall (fun _ b => nSoftRejected b = -1) (index (chain demo_tip3))) as H by (apply (bool_decide_eq_true_1 _); vm_compute; reflexivity).
  split; [intros p b Hp; rewrite (H p b Hp); lia | intros p b Hp _; apply (H p b Hp) | intros p b q bq _ _ Hq; rewrite (H q bq Hq); lia].
Qed.

#[local] Instance accepting : CoinsTip ptr := Toy.tip_coins (fun _ => false).

Lemma demo_invalidated : returned (InvalidateBlock (fun _ => 0) 10 (fun _ => false) (fun _ => true) true 10 3%positive demo_tip3) = Some (true, Some 5%positive).
Proof. vm_compute. reflexivity. Qed.

Lemma demo_soft_rejected : returned (SoftRejectBlockNL (fun _ => 0) 10 (fun _ => false) true 10 3%positive 1 demo_tip3) = Some (true, Some 5%positive).
Proof. vm_compute. reflexivity. Qed.

Lemma demo_block3 : exists b, index (chain demo_tip3) !! 3%positive = Some b /\ pprev b = Some 2%positive /\ nHeight b + 1 < 2 ^ 31.
Proof. eexists. split; [vm_compute; reflexivity|]. split; [reflexivity | vm_compute; reflexivity]. Qed.

(** ** Properties *)

(** C11. [InvalidateBlock] does what it is asked for and leaves a good chain.  For a block other than a genesis block, from a
    consistent node, the call returns, no assertion fails and the block is marked as failed for good.  If it succeeds, the
    block and all blocks above it have been taken off the active chain, the coins belong to the chain that was left, every
    valid linked block that is not worse than its tip is a candidate again, and the activation of the best chain that
    follows, if it succeeds, ends with a chain that does not contain the block and above which no usable candidate ranks
    (unless another thread is validating the target). *)

Theorem InvalidateBlock_correct {C : Type} `{CoinsTip C} (coins_at : heap -> ptr -> C -> Prop) `{!CoinsTipLaws C coins_at} `{!Undisturbed C} clock duration in_validation FlushStateToDisk g_connman n p b q :
  (forall k, clock k <= time_max) -> 0 <= duration -> node_ok coins_at duration nobody n -> soft_ok (index (chain n)) -> index (chain n) !! p = Some b -> pprev b = Some q ->
  exists fuel ok n', (forall k, InvalidateBlock clock duration in_validation FlushStateToDisk g_connman (fuel + k) p n = Returned ok n') /\ later (chain n) (chain n') /\
    (exists b', index (chain n') !! p = Some b' /\ hasFailed (nStatus b') = true) /\ (node_ok coins_at duration nobody n' -> in_chain (chain n') p = false) /\
    (ok = true -> exists n1, node_ok coins_at duration nobody n1 /\ in_chain (chain n1) p = false /\ rivals_listed (chain n1) /\
       activated_from coins_at duration clock in_validation g_connman fuel n1 n').
Proof.
  intros Hclock Hduration Hn Hs Hp Eq. destruct (rewind_ok coins_at duration n p b q Hn (soft_ok_genesis _ Hs) Hp Eq) as (ok & n1 & E & Hl & (b1 & Hb1 & Hf1) & Hok).
  assert (forall n', later (chain n1) (chain n') -> (exists b', index (chain n') !! p = Some b' /\ hasFailed (nStatus b') = true) /\ (node_ok coins_at duration nobody n' -> in_chain (chain n') p = false)) as Hfail.
  { intros n' Hl'. destruct (lt_entry _ _ Hl' p b1 Hb1) as (b' & Hb' & He). pose proof (el_failed _ _ He Hf1) as Hf'. split; [by exists b'|]. intros Hn'. by apply (invalid_off coins_at duration n' p b'), failed_invalid. }
  unfold InvalidateBlock. rewrite E. destruct (Hfail n1 (later_refl _)) as [F1 F2].
  destruct ok; [destruct (FlushStateToDisk n1)|]; [|by exists O, false, n1; split_and! ..]. destruct (Hok eq_refl) as [Hn1 Hr1].
  destruct (then_activate_ok coins_at duration clock in_validation g_connman Hclock Hduration n1 Hn1) as (fuel & n' & E' & Hl' & Ha). destruct (Hfail n' Hl') as [F3 F4].
  exists fuel, true, n'. split_and!; [done | by apply (later_trans _ _ _ Hl) | done | done|]. intros _. exists n1. by split_and!; [| apply F2 | |].
Qed.

(** C31. [SoftRejectBlockNL] as a whole.  It is refused without any change where it must be; if a block cannot be disconnected
    the soft rejection of every block is what it was before.  If it succeeds, the block and its descendants in range carry the
    number of blocks that are left and no other entry has changed, the active chain has been cut back to a block that is not
    soft rejected, with the coins of that chain, and if blocks were taken off it, every valid linked block that is not worse
    than the new tip is a candidate again and the best chain has been activated. *)

Theorem SoftRejectBlockNL_correct {C : Type} `{CoinsTip C} (coins_at : heap -> ptr -> C -> Prop) `{!CoinsTipLaws C coins_at} `{!Undisturbed C} clock duration in_validation g_connman n t p b m :
  (forall k, clock k <= time_max) -> 0 <= duration -> node_ok coins_at duration nobody n -> soft_ok (index (chain n)) -> tip (chain n) = Some t ->
  index (chain n) !! p = Some b -> 0 <= m -> nHeight b + m < 2 ^ 31 ->
  exists fuel ok n', (forall k, SoftRejectBlockNL clock duration in_validation g_connman (fuel + k) p m n = Returned ok n') /\
    (~ may_reject (index (chain n)) p b m -> ok = false /\ n' = n) /\
    (ok = false -> forall y, nSoftRejected <$> index (chain n') !! y = nSoftRejected <$> index (chain n) !! y) /\
    (ok = true -> may_reject (index (chain n)) p b m /\ exists n1 t1 b1, node_ok coins_at duration nobody n1 /\ soft_ok (index (chain n1)) /\ rejected_entries (index (chain n)) p b m (index (chain n1)) /\
       tip (chain n1) = Some t1 /\ ancestor (index (chain n)) t1 t /\ index (chain n1) !! t1 = Some b1 /\ IsSoftRejected b1 = false /\
       (t1 = t /\ n' = n1 \/ rivals_listed (chain n1) /\ activated_from coins_at duration clock in_validation g_connman fuel n1 n')).
Proof.
  intros Hclock Hduration Hn Hs Et Hp Hm Hmax. pose proof (io_tree _ (no_index _ _ _ _ Hn)) as Ht.
  destruct (soft_reject_correct (index (chain n)) p b m Ht Hs Hp Hm Hmax) as (ok & h' & E & Es & Hs' & Hiff & _ & Hval). change (ok = true <-> may_reject (index (chain n)) p b m) in Hiff. unfold SoftRejectBlockNL. rewrite E.
  destruct ok; [|exists O, false, n; split_and!; [done | done | done | done]]. assert (may_reject (index (chain n)) p b m) as Hmay by (by apply Hiff). specialize (Hval eq_refl).
  pose proof (rejected_node coins_at duration n p b m h' Hn Hp Hval Es) as Hn1. set (n1 := {| chain := set_index (chain n) h' |}) in *.
  destruct (DisconnectSoftRejectedTipsNL_ok coins_at duration nobody n1 t Hn1 (soft_ok_genesis h' Hs') Et) as (r & n2 & -> & (c & Ec) & Hsame & Hok). assert (index (chain n2) = h') as Ei by (by rewrite Ec).
  destruct r as [r|].
  - destruct (Hok r eq_refl) as (Hn2 & t2 & b2 & Et2 & Ha2 & Hb2 & Hr2). cbn in Ha2. rewrite <- Es in Ha2. destruct r.
    + destruct (completed_ok coins_at duration n2 Hn2) as (cs & -> & _ & Eics & Ecs & Hncs & Hrcs). fold (with_chain n2 cs).
      destruct (then_activate_ok coins_at duration clock in_validation g_connman Hclock Hduration (with_chain n2 cs) Hncs) as (fuel & n' & E' & _ & Hact). exists fuel, true, n'. split_and!; [done | done | done|]. intros _.
      split; [done|]. exists (with_chain n2 cs), t2, b2. cbn [chain with_chain] in *. rewrite Eics, Ei in *.
      split_and!; try done; [unfold tip in *; by rewrite Ecs | by right].
    + exists O, true, n2. split_and!; [done | done | done|]. intros _. split; [done|]. exists n2, t2, b2. rewrite (Hsame eq_refl) in *. split_and!; try done. left. split; [|done]. change (tip (chain n) = Some t2) in Et2. congruence.
  - destruct (restored_ok (index (chain n)) p b m h' Ht Hs Hp Hm Hmay Hval Es) as (l & h2 & El & E2 & Hback). unfold restore_rejection. rewrite Hp. cbn [mbind option_bind]. rewrite El. cbn [mbind option_bind].
    rewrite Ei, E2. cbn [mbind option_bind]. eexists O, false, _. split_and!; [done | done | intros _; exact Hback | done].
Qed.

(** Block 3 is invalidated, and block 5 becomes the tip. *)

Lemma InvalidateBlock_correct_witness : exists fuel n', InvalidateBlock (fun _ => 0) 10 (fun _ => false) (fun _ => true) true fuel 3%positive demo_tip3 = Returned true n' /\
  tip (chain n') = Some 5%positive /\ later (chain demo_tip3) (chain n') /\ exists b', index (chain n') !! 3%positive = Some b' /\ hasFailed (nStatus b') = true.
Proof.
  destruct demo_block3 as (b & Hb & Eb & _).
  destruct (@InvalidateBlock_correct ptr accepting Toy.at_block (Toy.laws _) (Toy.undisturbed _) (fun _ => 0) 10 (fun _ => false) (fun _ => true) true demo_tip3 3%positive b 2%positive
    ltac:(intros; vm_compute; discriminate) ltac:(lia) demo_tip3_ok demo_tip3_soft Hb Eb) as (fuel & ok & n' & E & Hl & Hf & _).
  destruct (returned_inv _ (true, Some 5%positive) demo_invalidated) as (n1 & E1 & Et). pose proof (InvalidateBlock_more _ _ _ _ _ _ _ 10 fuel _ _ E1) as E2. specialize (E 10%nat).
  rewrite Nat.add_comm in E2. rewrite E in E2. injection E2 as -> ->. exists 10%nat, n1. split; [exact E1|]. split; [exact Et|]. split; [exact Hl | exact Hf].
Defined.

(** Block 3 is soft rejected for one block, and block 5 becomes the tip. *)

Lemma SoftRejectBlockNL_correct_witness : exists fuel n' b, SoftRejectBlockNL (fun _ => 0) 10 (fun _ => false) true fuel 3%positive 1 demo_tip3 = Returned true n' /\ tip (chain n') = Some 5%positive /\
  index (chain demo_tip3) !! 3%positive = Some b /\ may_reject (index (chain demo_tip3)) 3%positive b 1.
Proof.
  destruct demo_block3 as (b & Hb & _ & Hmax).
  destruct (@SoftRejectBlockNL_correct ptr accepting Toy.at_block (Toy.laws _) (Toy.undisturbed _) (fun _ => 0) 10 (fun _ => false) true demo_tip3 3%positive 3%positive b 1
    ltac:(intros; vm_compute; discriminate) ltac:(lia) demo_tip3_ok demo_tip3_soft ltac:(reflexivity) Hb ltac:(lia) Hmax) as (fuel & ok & n' & E & _ & _ & Hok).
  destruct (returned_inv _ (true, Some 5%positive) demo_soft_rejected) as (n1 & E1 & Et). pose proof (SoftRejectBlockNL_more _ _ _ _ _ _ _ 10 fuel _ _ E1) as E2. specialize (E 10%nat).
  rewrite Nat.add_comm in E2. rewrite E in E2. injection E2 as -> ->. exists 10%nat, n1, b. split; [exact E1|]. split; [exact Et|]. split; [exact Hb | apply (Hok eq_refl)].
Defined.
