(* ===== verification/Accept.v ===== *)
(** * Headers and blocks from the network

    [BlockIndexStore::Insert] of [src/block_index_store.h], and from [src/validation.cpp] the way of a header and a block into
    the block index: [AcceptBlockHeader], [ProcessNewBlockHeaders], [AcceptBlock], [ProcessNewBlock] up to the
    activation of the best chain, which is Activate.v, and [InitBlockIndex].  Left out are the notifications, the safe mode and the flush after a block file
    has grown.

    Here is what one header does to the index; NodeRun.v has the blocks and the runs of a node. *)

From stdpp Require Import gmap.
From Stdlib Require Import String.
From S2P Require Import Prelude Common Uint256 BlockIndex Pow BigInt Script Hasher Sha2 Hash Serialize Transaction Merkle Coins TxCheck BlockCheck ChainIndex ChainLinks Activate.
Import Uint256.arith_uint256.
#[local] Open Scope Z_scope.

(** ** The store *)

(** [mStore] maps a hash to the address of its entry; the entries are the heap of the globals. *)

Record BlockIndexStore := {
  globals : chainstate;
  mStore : gmap (list Z) ptr;
  mBestHeader : option ptr }.

Definition entries (s : BlockIndexStore) : heap := index (globals s).

Definition with_globals (s : BlockIndexStore) (cs : chainstate) : BlockIndexStore :=
  {| globals := cs; mStore := mStore s; mBestHeader := mBestHeader s |}.

Definition Get (s : BlockIndexStore) (blockHash : list Z) : option ptr := mStore s !! blockHash.

Definition MIN_BLOCKS_TO_KEEP : Z := 288.

Definition Error (strRejectReasonIn : string) (st : CValidationState) : bool * CValidationState :=
  (false, {| mode := MODE_ERROR; nDoS := nDoS st; strRejectReason := if decide (mode st = MODE_VALID) then strRejectReasonIn else strRejectReason st;
             chRejectCode := chRejectCode st; corruptionPossible := corruptionPossible st; nonFinal := nonFinal st |}).

Definition is_invalid (st : CValidationState) : bool := bool_decide (mode st = MODE_INVALID).

(** What a handler gives: its answer with the last values of its out-parameters and of the state. *)

Notation handled A := (outcome coins_exn (A * CValidationState * BlockIndexStore)).

Section accept.
Context `{BN_API} (l : layout) (config : Config).

(** The blocks named on the command line, the checkpoints, and the address of a new entry. *)

Context (IsBlockInvalidated : list Z -> bool) (fCheckpointsEnabled : bool) (checkpoints : list (Z * list Z)) (alloc : heap -> ptr).

(** [Insert]: the best header is replaced when the comparator ranks it below the entry. *)

Definition best_header (p : ptr) (s : BlockIndexStore) : BlockIndexStore :=
  {| globals := globals s; mStore := mStore s;
     mBestHeader := match mBestHeader s with
                    | Some best => if CBlockIndexWorkComparator (entries s) best p then Some p else Some best
                    | None => Some p
                    end |}.

Definition Insert (block : CBlockHeader) (now : Z) (s : BlockIndexStore) : outcome coins_exn (ptr * BlockIndexStore) :=
  let prev := mStore s !! hdr_hashPrevBlock block in
  _ ← assert_ (bool_decide (hdr_hashPrevBlock block = uint256_null /\ prev = None) || bool_decide (is_Some prev));
  hash ← of_stream (GetBlockHash block);
  match mStore s !! hash with
  | Some p => Ok (p, best_header p s)
  | None =>
      match new_CBlockIndex (entries s) block prev now with
      | None => Abort
      | Some b =>
          let p := alloc (entries s) in
          Ok (p, best_header p {| globals := set_index (globals s) (<[p := b]> (entries s)); mStore := <[hash := p]> (mStore s); mBestHeader := mBestHeader s |})
      end
  end.

Definition AddToBlockIndex (block : CBlockHeader) (now : Z) (s : BlockIndexStore) : outcome coins_exn (ptr * BlockIndexStore) :=
  hash ← of_stream (GetBlockHash block);
  match Get s hash with Some p => Ok (p, s) | None => Insert block now s end.

(** [isInvalid] of an entry. *)

Definition invalid_at (s : BlockIndexStore) (p : ptr) : outcome coins_exn bool :=
  match entries s !! p with Some b => Ok (isInvalid (nStatus b)) | None => Abort end.

Definition FindPreviousBlockIndex (s : BlockIndexStore) (block : CBlockHeader) (st : CValidationState) : outcome coins_exn (option ptr * CValidationState) :=
  match Get s (hdr_hashPrevBlock block) with
  | Some p =>
      invalid ← invalid_at s p;
      if (invalid : bool) then Ok (None, (DoS 100 false REJECT_INVALID "bad-prevblk" st).2) else Ok (Some p, st)
  | None => Ok (None, (DoS 10 false 0 "prev-blk-not-found" st).2)
  end.

(** The checks of a header that is not known, and its entry. *)

Definition accept_new (block : CBlockHeader) (hash : list Z) (nAdjustedTime : Z) (s : BlockIndexStore) (st : CValidationState) : outcome coins_exn (bool * CValidationState) :=
  '(ok, st) ← CheckBlockHeader config block new_BlockValidationOptions st;
  if negb ok then Ok (false, st)
  else
    '(prev, st) ← FindPreviousBlockIndex s block st;
    match prev with
    | None => Ok (false, st)
    | Some pindexPrev =>
        '(ok, st) ← (if fCheckpointsEnabled then CheckIndexAgainstCheckpoint (entries s) (Get s) pindexPrev checkpoints hash st else Ok (true, st));
        if negb ok then Ok (false, st) else ContextualCheckBlockHeader config (entries s) block (Some pindexPrev) nAdjustedTime st
    end.

Definition AcceptBlockHeader (block : CBlockHeader) (nAdjustedTime now : Z) (s : BlockIndexStore) (st : CValidationState) : handled (bool * option ptr) :=
  hash ← of_stream (GetBlockHash block);
  let add st := '(p, s) ← AddToBlockIndex block now s; Ok (true, Some p, st, s) in
  if IsBlockInvalidated hash then Ok (false, None, (TxCheck.Invalid false 10 "block is marked as invalid" st).2, s)
  else if negb (bool_decide (hash = hashGenesisBlock (GetConsensus config))) then
    match Get s hash with
    | Some p =>
        invalid ← invalid_at s p;
        if (invalid : bool) then Ok (false, Some p, (TxCheck.Invalid false 0 "duplicate" st).2, s) else Ok (true, Some p, st, s)
    | None =>
        '(ok, st) ← accept_new block hash nAdjustedTime s st;
        if (ok : bool) then add st else Ok (false, None, st, s)
    end
  else add st.

(** The pointer is the entry of the last header that was accepted. *)

Fixpoint ProcessNewBlockHeaders (headers : list CBlockHeader) (nAdjustedTime now : Z) (last : option ptr) (s : BlockIndexStore) (st : CValidationState) : handled (bool * option ptr) :=
  match headers with
  | [] => Ok (true, last, st, s)
  | header :: headers =>
      '(ok, p, st, s) ← AcceptBlockHeader header nAdjustedTime now s st;
      if (ok : bool) then ProcessNewBlockHeaders headers nAdjustedTime now p s st else Ok (false, last, st, s)
  end.

(** ** A block *)

(** What the block files answer: whether a place was found, and whether the block could be written, with a digest. *)

Record block_files := { FindBlockPos : bool; WriteBlockToDisk : bool; has_digest : bool }.

(** The decision not to look at a block that nobody asked for. *)

Definition not_wanted (fRequested : bool) (s : BlockIndexStore) (b : CBlockIndex) : outcome coins_exn bool :=
  if hasData (nStatus b) then Ok true
  else if fRequested then Ok false
  else if negb (nTx b =? 0) then Ok true
  else
    fHasMoreWork ← match tip (globals s) with
                   | None => Ok true
                   | Some t => match entries s !! t with Some bt => Ok (0 <? CompareTo (nChainWork b) (nChainWork bt)) | None => Abort end
                   end;
    Ok (negb fHasMoreWork || (Height (entries s) (chainActive (globals s)) + MIN_BLOCKS_TO_KEEP <? nHeight b)).

(** [CheckBlock] and [ContextualCheckBlock]; the flag is [block.fChecked]. *)

Definition check_both (block : CBlock) (fChecked : bool) (s : BlockIndexStore) (b : CBlockIndex) (st : CValidationState) : outcome coins_exn (bool * CValidationState) :=
  '(ok, _, st) ← CheckBlock l config block fChecked (nHeight b) new_BlockValidationOptions st;
  if (ok : bool) then ContextualCheckBlock l config (entries s) block (pprev b) st else Ok (false, st).

Definition store_block (block : CBlock) (p : ptr) (has_dbp : bool) (files : block_files) (now : Z) (s : BlockIndexStore) (st : CValidationState) : handled bool :=
  if negb (FindBlockPos files) then Ok (false, (Error "out of disk space" st).2, s)
  else
    let st := if negb has_dbp && negb (WriteBlockToDisk files) then (Error "Failed to write block" st).2 else st in
    ttor ← CheckBlockTTOROrder l block;
    match ReceivedBlockTransactions p (Z.of_nat (List.length (vtx block))) ttor (has_digest files) now (globals s) with
    | None => Abort
    | Some (ok, cs) => Ok (ok, if (ok : bool) then st else (TxCheck.Invalid false 0 "bad-blk-ttor" st).2, with_globals s cs)
    end.

(** The answers are the result, [*ppindex] and [*fNewBlock]. *)

Definition AcceptBlock (block : CBlock) (fChecked fRequested has_dbp : bool) (files : block_files) (nAdjustedTime now : Z) (s : BlockIndexStore) (st : CValidationState) :
    handled (bool * option ptr * bool) :=
  '(ok, pindex, st, s) ← AcceptBlockHeader (block_header block) nAdjustedTime now s st;
  if negb ok then Ok (false, pindex, false, st, s)
  else
    match (p ← pindex; b ← entries s !! p; Some (p, b)) with
    | None => Abort
    | Some (p, b) =>
        skip ← not_wanted fRequested s b;
        if (skip : bool) then Ok (true, pindex, false, st, s)
        else
          '(ok, st) ← check_both block fChecked s b st;
          if negb ok then
            Ok (false, pindex, true, st, if is_invalid st && negb (corruptionPossible st) then with_globals s (modify ModifyStatusWithFailed p (globals s)) else s)
          else '(ok, st, s) ← store_block block p has_dbp files now s st; Ok (ok, pindex, true, st, s)
    end.

(** [ProcessNewBlock] before the activation of the best chain. *)

Definition ProcessNewBlock (block : CBlock) (fForceProcessing : bool) (options : BlockValidationOptions) (files : block_files) (nAdjustedTime now : Z) (s : BlockIndexStore) :
    handled (bool * bool) :=
  '(prev, st) ← FindPreviousBlockIndex s (block_header block) new_CValidationState;
  match prev with
  | None => Ok (false, false, st, s)
  | Some pindexPrev =>
      height ← height_of (entries s) pindexPrev;
      '(ok, fChecked, st) ← CheckBlock l config block false (height + 1) options st;
      if negb ok then Ok (false, false, st, s)
      else '(ok, _, fNewBlock, st, s) ← AcceptBlock block fChecked fForceProcessing false files nAdjustedTime now s st; Ok (ok, fNewBlock, st, s)
  end.

(** The genesis block, when the block index is new. *)

Definition InitBlockIndex (genesisBlock : CBlock) (fReindex : bool) (files : block_files) (now : Z) (s : BlockIndexStore) : outcome coins_exn (bool * BlockIndexStore) :=
  match Genesis (chainActive (globals s)) with
  | Some _ => Ok (true, s)
  | None =>
      if fReindex then Ok (true, s)
      else if negb (FindBlockPos files) then Ok (false, s)
      else if negb (WriteBlockToDisk files) then Ok (false, s)
      else
        '(p, s) ← AddToBlockIndex (block_header genesisBlock) now s;
        ttor ← CheckBlockTTOROrder l genesisBlock;
        match ReceivedBlockTransactions p (Z.of_nat (List.length (vtx genesisBlock))) ttor (has_digest files) now (globals s) with
        | None => Abort
        | Some (ok, cs) => Ok (ok, with_globals s cs)
        end
  end.

End accept.

(** ** What an entry says of its block *)

Definition core (b : CBlockIndex) : option ptr * option ptr * Z * base_uint * (Z * list Z * Z * Z * Z) :=
  (pprev b, pskip b, nHeight b, nChainWork b, header_of b).

(** Every block of [h] is in [h'], up to the bookkeeping. *)

Definition within (h h' : heap) : Prop := forall p b, h !! p = Some b -> exists b', h' !! p = Some b' /\ core b' = core b.

#[export] Instance within_preorder : PreOrder within.
Proof.
  split; [intros h p b Hp; by exists b|]. intros h1 h2 h3 H12 H23 p b Hp. destruct (H12 p b Hp) as (b2 & Hp2 & E2). destruct (H23 p b2 Hp2) as (b3 & Hp3 & E3). exists b3. split; [done | congruence].
Qed.

Lemma within_insert h p b : h !! p = None -> within h (<[p := b]> h).
Proof. intros Hp q c Hq. exists c. rewrite lookup_insert_ne by congruence. done. Qed.

Section frame.
Context (h h' : heap) (Hw : within h h').

Lemma ancestor_loop_within height : forall fuel p hw r, ancestor_loop h fuel p hw height = Some r -> ancestor_loop h' fuel p hw height = Some r.
Proof.
  induction fuel as [|fuel IH]; intros p hw r; cbn [ancestor_loop]; [done|]. destruct (hw <=? height); [done|]. destruct (h !! p) as [b|] eqn:Hp; [|done].
  destruct (Hw p b Hp) as (b' & -> & [= -> -> _ _ _ _ _ _ _]). cbn zeta. destruct (pskip b); [destruct (_ || _); [apply IH|]|]; (destruct (pprev b); [apply IH | done]).
Qed.

Lemma GetAncestor_within p height r : GetAncestor h p height = Some r -> GetAncestor h' p height = Some r.
Proof.
  unfold GetAncestor. destruct (h !! p) as [b|] eqn:Hp; [|done]. destruct (Hw p b Hp) as (b' & -> & [= _ _ -> _ _ _ _ _ _]). destruct (_ || _); [done|].
  destruct (ancestor_loop h _ p _ height) as [q|] eqn:E; [|done]. by rewrite (ancestor_loop_within _ _ _ _ _ E).
Qed.

Lemma collect_times_within (Ht : tree_ok h) : forall n p, (forall q, p = Some q -> is_Some (h !! q)) -> collect_times h' n p = collect_times h n p.
Proof.
  induction n as [|n IH]; intros p Hp; [done|]. cbn [collect_times]. destruct p as [q|]; [|done]. destruct (Hp q eq_refl) as [b Hb]. rewrite Hb. destruct (Hw q b Hb) as (b' & -> & [= -> _ _ _ _ _ -> _ _]).
  f_equal. apply IH. intros r Hr. destruct (Ht q b Hb) as [_ Hprev]. rewrite Hr in Hprev. destruct Hprev as (br & -> & _). done.
Qed.

Lemma GetMedianTimePast_within p (Ht : tree_ok h) : is_Some (h !! p) -> GetMedianTimePast h' p = GetMedianTimePast h p.
Proof. intros Hp. unfold GetMedianTimePast. rewrite collect_times_within; [done | done | by intros q [= <-]]. Qed.

Lemma min_difficulty_loop_within interval limit : forall fuel p r, min_difficulty_loop h fuel interval limit p = Some r -> min_difficulty_loop h' fuel interval limit p = Some r.
Proof.
  induction fuel as [|fuel IH]; intros p r; [done|]. cbn [min_difficulty_loop]. destruct (h !! p) as [b|] eqn:Hp; [|done]. destruct (Hw p b Hp) as (b' & -> & [= -> _ -> _ _ _ _ -> _]).
  destruct (pprev b); [|done]. destruct (_ && _); [apply IH | done].
Qed.

Lemma GetSuitableBlock_within p r : GetSuitableBlock h p = Some r -> GetSuitableBlock h' p = Some r.
Proof.
  unfold GetSuitableBlock. destruct (h !! p) as [b2|] eqn:H2; [|done]. destruct (Hw p b2 H2) as (c2 & -> & [= E2 _ E2h _ _ _ E2t _ _]). cbn [mbind option_bind]. rewrite E2, E2h. destruct (_ <? 3); [done|].
  destruct (pprev b2) as [p1|]; [|done]. cbn [mbind option_bind]. destruct (h !! p1) as [b1|] eqn:H1; [|done]. destruct (Hw p1 b1 H1) as (c1 & -> & [= E1 _ _ _ _ _ E1t _ _]). cbn [mbind option_bind]. rewrite E1.
  destruct (pprev b1) as [p0|]; [|done]. cbn [mbind option_bind]. destruct (h !! p0) as [b0|] eqn:H0; [|done]. destruct (Hw p0 b0 H0) as (c0 & -> & [= _ _ _ _ _ _ E0t _ _]). cbn [mbind option_bind].
  unfold swap_if_later. cbn [fst snd]. rewrite E2t, E1t, E0t. by repeat (case_match; cbn [fst snd] in *; simplify_eq; rewrite ?E2t, ?E1t, ?E0t in *).
Qed.

Lemma GetNextCashWorkRequired_within p block P r : GetNextCashWorkRequired h p block P = Some r -> GetNextCashWorkRequired h' p block P = Some r.
Proof.
  unfold GetNextCashWorkRequired. destruct (h !! p) as [b|] eqn:Hp; [|done]. destruct (Hw p b Hp) as (b' & -> & [= _ _ Eh _ _ _ Et _ _]). cbn [mbind option_bind]. rewrite Eh, Et.
  destruct (_ && _); [done|]. cbn zeta. destruct (DifficultyAdjustmentInterval P); [|done]. cbn [mbind option_bind]. destruct (_ <? _); [done|].
  destruct (GetSuitableBlock h p) as [pl|] eqn:El; [|done]. rewrite (GetSuitableBlock_within _ _ El). cbn [mbind option_bind]. destruct (h !! pl) as [bl|] eqn:Hl; [|done]. destruct (Hw pl bl Hl) as (bl' & -> & [= _ _ Elh Elw _ _ Elt _ _]). cbn [mbind option_bind].
  destruct (GetAncestor h p _) as [a|] eqn:Ea; [|done]. rewrite (GetAncestor_within _ _ _ Ea). cbn [mbind option_bind]. destruct a as [a|]; [|done]. cbn [mbind option_bind].
  destruct (GetSuitableBlock h a) as [pf|] eqn:Ef; [|done]. rewrite (GetSuitableBlock_within _ _ Ef). cbn [mbind option_bind]. destruct (h !! pf) as [bf|] eqn:Hf; [|done]. destruct (Hw pf bf Hf) as (bf' & -> & [= _ _ Efh Efw _ _ Eft _ _]). cbn [mbind option_bind].
  unfold ComputeTarget. by rewrite Elh, Efh, Elw, Efw, Elt, Eft.
Qed.

Lemma GetNextEDAWorkRequired_within p block P r : tree_ok h -> GetNextEDAWorkRequired h p block P = Some r -> GetNextEDAWorkRequired h' p block P = Some r.
Proof.
  intros Ht. unfold GetNextEDAWorkRequired. destruct (h !! p) as [b|] eqn:Hp; [|done]. destruct (Hw p b Hp) as (b' & -> & [= _ _ Eh _ _ _ Et Eb _]). cbn [mbind option_bind]. cbn zeta. unfold CalculateNextWorkRequired. rewrite Eh, Et, Eb.
  destruct (DifficultyAdjustmentInterval P) as [interval|]; [|done]. cbn [mbind option_bind]. destruct (interval =? 0); [done|]. destruct (_ =? 0).
  - destruct (_ <? _); [done|]. destruct (GetAncestor h p _) as [a|] eqn:Ea; [|done]. rewrite (GetAncestor_within _ _ _ Ea). cbn [mbind option_bind]. destruct a as [a|]; [|done]. cbn [mbind option_bind].
    destruct (h !! a) as [ba|] eqn:Ha; [|done]. destruct (Hw a ba Ha) as (ba' & -> & [= _ _ _ _ _ _ Eat _ _]). cbn [mbind option_bind]. by rewrite Eat.
  - destruct (GetCompact0 (UintToArith256 (powLimit P))) as [limit|]; [|done]. cbn [mbind option_bind]. destruct (fPowAllowMinDifficultyBlocks P); [destruct (_ <? _); [done | apply min_difficulty_loop_within]|]. destruct (_ =? limit); [done|].
    destruct (GetAncestor h p _) as [a|] eqn:Ea; [|done]. rewrite (GetAncestor_within _ _ _ Ea). cbn [mbind option_bind]. destruct a as [a|]; [|done]. cbn [mbind option_bind].
    assert (is_Some (h !! a)) as Hia.
    { pose proof (GetAncestor_spec h p b (nHeight b + 1 - 7) Ht Hp) as Es. rewrite Ea in Es. destruct (_ || _); [discriminate Es|]. injection Es as Es. destruct (ancestor_height h p b a Ht Hp) as (ba & -> & _); [by eexists | done]. }
    rewrite !GetMedianTimePast_within by (done || by rewrite Hp). done.
Qed.

Lemma GetNextWorkRequired_within p block P r : tree_ok h -> GetNextWorkRequired h (Some p) block P = Some r -> GetNextWorkRequired h' (Some p) block P = Some r.
Proof.
  intros Ht. unfold GetNextWorkRequired. destruct (h !! p) as [b|] eqn:Hp; [|done]. destruct (Hw p b Hp) as (b' & -> & [= _ _ Eh _ _ _ _ Eb _]). cbn [mbind option_bind]. rewrite Eh, Eb.
  destruct (fPowNoRetargeting P); [done|]. destruct (IsDAAEnabled P _); [apply GetNextCashWorkRequired_within | by apply GetNextEDAWorkRequired_within].
Qed.

Lemma new_CBlockIndex_within block prev now now' b : new_CBlockIndex h block prev now = Some b -> exists b', new_CBlockIndex h' block prev now' = Some b' /\ core b' = core b.
Proof.
  unfold new_CBlockIndex. destruct prev as [q|].
  - destruct (h !! q) as [bq|] eqn:Hq; [|done]. destruct (Hw q bq Hq) as (bq' & Hq' & [= _ _ Eh Ewk _ _ _ _ _]). rewrite Hq', Eh. unfold BuildSkipNL. destruct (GetAncestor h q _) as [skip|] eqn:Ea; [|done]. rewrite (GetAncestor_within _ _ _ Ea).
    destruct (SetSoftRejectedFromParentBaseNL bq 0) as [sr st]. destruct (SetSoftRejectedFromParentBaseNL bq' 0) as [sr' st']. unfold SetChainWorkNL. rewrite Hq, Hq', Ewk.
    destruct (GetBlockProof _); [|done]. intros [= <-]. eexists. split; [done|]. done.
  - destruct (SetChainWorkNL h None _) as [w|] eqn:E; [|done]. change (SetChainWorkNL h' None (hdr_nBits block)) with (SetChainWorkNL h None (hdr_nBits block)). rewrite E. intros [= <-]. eexists. split; [done|]. done.
Qed.

End frame.

(** ** The rules of headers *)

Lemma header_hash block : header_ok block -> exists hash, GetBlockHash block = Ok hash /\ is_uint256 hash.
Proof.
  intros (Hv & [Hp Lp] & [Hm Lm] & Ht & Hb & Hn). unfold GetBlockHash, SerializeHash. eexists. split; [reflexivity|].
  unfold GetHash. rewrite CHash256_spec; [split; [apply fips_sha256_bytes | apply length_fips_sha256]|]. cbn [concat]. repeat (rewrite length_app || rewrite Lp || rewrite Lm || cbn). lia.
Qed.

Section rules.
Context `{BN_API} (config : Config).
Notation params := (pow_params (GetConsensus config)).

(** The versions that are too old at a height. *)

Definition version_ok (height version : Z) : Prop :=
  (BIP34Height (GetConsensus config) <= height -> 2 <= version) /\ (BIP66Height (GetConsensus config) <= height -> 3 <= version) /\ (BIP65Height (GetConsensus config) <= height -> 4 <= version).

(** The rules for a header on top of [q] that do not depend on the clock. *)

Definition header_valid (h : heap) (q : ptr) (block : CBlockHeader) : Prop :=
  exists bq t, h !! q = Some bq /\ GetNextWorkRequired h (Some q) block params = Some (hdr_nBits block) /\ GetMedianTimePast h q = Some t /\ t < hdr_nTime block /\
    version_ok (nHeight bq + 1) (hdr_nVersion block).

Lemma header_valid_within h h' q block : within h h' -> tree_ok h -> header_valid h q block -> header_valid h' q block.
Proof.
  intros Hw Ht (bq & t & Hq & E1 & E2 & Hlt & Hv). destruct (Hw q bq Hq) as (bq' & Hq' & E). exists bq', t. injection E as _ _ Eh _ _ _ _ _ _. rewrite Eh.
  split_and!; [done | by apply (GetNextWorkRequired_within h) | by rewrite (GetMedianTimePast_within h) by (done || by rewrite Hq) | done | done..]; apply Hv.
Qed.

Lemma ContextualCheckBlockHeader_decides h q bq block nAdjustedTime bits : h !! q = Some bq -> GetNextWorkRequired h (Some q) block params = Some bits ->
  decides (ContextualCheckBlockHeader config h block (Some q) nAdjustedTime) (header_valid h q block /\ hdr_nTime block <= nAdjustedTime + MAX_FUTURE_BLOCK_TIME).
Proof.
  intros Hq Eb. destruct (GetMedianTimePast_total h q bq Hq) as [t Et]. unfold ContextualCheckBlockHeader. eapply decides_with; [by unfold height_of; rewrite Hq|]. cbn beta zeta. rewrite Eb.
  assert (header_valid h q block <-> hdr_nBits block = bits /\ t < hdr_nTime block /\ version_ok (nHeight bq + 1) (hdr_nVersion block)) as ->.
  { split; [intros (bq' & t' & Hq' & E1 & E2 & ?); simplify_eq; split; [congruence | done] | intros (<- & ? & ?); by exists bq, t]. }
  destruct (Z.eqb_spec (hdr_nBits block) bits) as [->|Hne]; cbn [negb]; [|apply decides_reject; [lia | tauto]]. eapply decides_with; [by unfold median_of; rewrite Et|]. cbn beta.
  destruct (Z.leb_spec (hdr_nTime block) t); [apply decides_reject; [lia | intros ((_ & ? & _) & _); lia]|]. destruct (Z.ltb_spec (nAdjustedTime + MAX_FUTURE_BLOCK_TIME) (hdr_nTime block)); [apply decides_reject; [lia | lia]|].
  unfold version_ok. destruct (Z.ltb_spec (hdr_nVersion block) 2), (Z.ltb_spec (hdr_nVersion block) 3), (Z.ltb_spec (hdr_nVersion block) 4), (Z.leb_spec (BIP34Height (GetConsensus config)) (nHeight bq + 1)),
    (Z.leb_spec (BIP66Height (GetConsensus config)) (nHeight bq + 1)), (Z.leb_spec (BIP65Height (GetConsensus config)) (nHeight bq + 1)); cbn [andb orb]; first [apply decides_reject; lia | apply decides_accept; lia].
Qed.

(** The checkpoints allow a header with this hash at this height. *)

Definition checkpoint_ok (s : BlockIndexStore) (checkpoints : list (Z * list Z)) (height : Z) (hash : list Z) : Prop :=
  Checkpoints_CheckBlock checkpoints height hash = true /\ forall p b, GetLastCheckpoint (Get s) checkpoints = Some p -> entries s !! p = Some b -> nHeight b <= height.

Lemma last_checkpoint_stored s checkpoints p : GetLastCheckpoint (Get s) checkpoints = Some p -> exists hash, mStore s !! hash = Some p.
Proof.
  unfold GetLastCheckpoint. generalize (rev checkpoints). induction l as [|[n hash] l IH]; [done|]. cbn [last_checkpoint]. unfold Get at 1. destruct (mStore s !! hash) eqn:E; [intros [= <-]; by exists hash | apply IH].
Qed.

Lemma CheckIndexAgainstCheckpoint_decides s checkpoints q bq hash : (forall hash p, mStore s !! hash = Some p -> is_Some (entries s !! p)) -> entries s !! q = Some bq ->
  decides (CheckIndexAgainstCheckpoint (entries s) (Get s) q checkpoints hash) (checkpoint_ok s checkpoints (nHeight bq + 1) hash).
Proof.
  intros Hs Hq. unfold CheckIndexAgainstCheckpoint, checkpoint_ok. eapply decides_with; [by unfold height_of; rewrite Hq|]. cbn beta zeta.
  destruct (Checkpoints_CheckBlock _ _ _); cbn [negb]; [|apply decides_reject; [lia | by intros [? _]]]. destruct (GetLastCheckpoint (Get s) checkpoints) as [p|] eqn:E; [|apply decides_accept; done].
  destruct (last_checkpoint_stored _ _ _ E) as [hash' Hh]. destruct (Hs _ _ Hh) as [b Hb]. eapply decides_with; [by unfold height_of; rewrite Hb|]. cbn beta. destruct (Z.ltb_spec (nHeight bq + 1) (nHeight b)).
  - apply decides_reject; [lia|]. intros [_ Hc]. specialize (Hc p b eq_refl Hb). lia.
  - apply decides_accept. split; [done|]. intros p' b' [= <-] Hb'. simplify_eq. done.
Qed.

End rules.

(** ** The store *)

Section store.
Context `{BN_API} (config : Config) (IsBlockInvalidated : list Z -> bool) (fCheckpointsEnabled : bool) (checkpoints : list (Z * list Z)).
Notation params := (pow_params (GetConsensus config)).
Notation genesis := (hashGenesisBlock (GetConsensus config)).

(** The header of an entry. *)

Definition describes (b : CBlockIndex) (block : CBlockHeader) : Prop :=
  nVersion b = hdr_nVersion block /\ hashMerkleRoot b = hdr_hashMerkleRoot block /\ nTime b = hdr_nTime block /\ nBits b = hdr_nBits block /\ nNonce b = hdr_nNonce block.

(** The first block, which is not checked. *)

Definition genesis_header (block : CBlockHeader) : Prop := hdr_hashPrevBlock block = uint256_null /\ target_ok params (hdr_nBits block) /\ 0 < compact_value (hdr_nBits block).

(** An entry that may be under a hash: its header has the hash, its predecessor is the entry under [hashPrevBlock], and it
    obeys the rules. *)

Definition entry_valid (s : BlockIndexStore) (hash : list Z) (p : ptr) : Prop := exists b block, entries s !! p = Some b /\ header_ok block /\ describes b block /\ GetBlockHash block = Ok hash /\
  match pprev b with
  | None => hash = genesis /\ genesis_header block
  | Some q => mStore s !! hdr_hashPrevBlock block = Some q /\ CheckProofOfWork hash (hdr_nBits block) params = true /\ header_valid config (entries s) q block /\
      (fCheckpointsEnabled = true -> Checkpoints_CheckBlock checkpoints (nHeight b) hash = true)
  end.

(** No entry has more work than the best header. *)

Definition best_ok (h : heap) (best : option ptr) : Prop :=
  match best with
  | None => h = ∅
  | Some q => exists bq, h !! q = Some bq /\ forall p b, h !! p = Some b -> val (nChainWork b) <= val (nChainWork bq)
  end.

Record store_ok (s : BlockIndexStore) : Prop := {
  so_index : index_ok (globals s);
  so_links : links_ok (globals s);
  so_tree : exists h, block_tree h /\ within h (entries s) /\ within (entries s) h;
  so_entry hash p : mStore s !! hash = Some p -> entry_valid s hash p;
  so_stored p : is_Some (entries s !! p) -> exists hash, mStore s !! hash = Some p;
  so_once hash hash' p : mStore s !! hash = Some p -> mStore s !! hash' = Some p -> hash = hash';
  so_null : mStore s !! uint256_null = None;
  so_best : best_ok (entries s) (mBestHeader s) }.

(** Where the required target of a block on top of [p] is defined. *)

Definition retargets (h : heap) (p : ptr) : Prop := exists b, h !! p = Some b /\ nHeight b + 1 < 2 ^ 31 /\
  if IsDAAEnabled params (nHeight b) then nPowTargetTimespan params / nPowTargetSpacing params <= nHeight b /\ work_of h p b * nPowTargetSpacing params < 2 ^ 256
  else 6 <= nHeight b \/ nBits b = compact_code (limit_val params).

Lemma chain_work_within h h' (Hw : within h h') (Ht : tree_ok h) : forall n p, is_Some (h !! p) -> chain_work h' n p = chain_work h n p.
Proof.
  induction n as [|n IH]; intros p [b Hp]; [done|]. cbn [chain_work]. rewrite Hp. destruct (Hw p b Hp) as (b' & -> & [= -> _ _ _ _ _ _ -> _]). destruct (pprev b) as [q|] eqn:Eq; [|done].
  destruct (Ht p b Hp) as [_ Hprev]. rewrite Eq in Hprev. destruct Hprev as (bq & Hq & _). by rewrite IH by (by rewrite Hq).
Qed.

Lemma retargets_within h h' p : within h h' -> within h' h -> tree_ok h -> retargets h p -> retargets h' p.
Proof.
  intros Hw Hw' Ht (b & Hp & Hb & Hr). destruct (Hw p b Hp) as (b' & Hp' & E). exists b'. injection E as _ _ Eh _ _ _ _ Eb _. rewrite Eh, Eb. split_and!; [done | done|].
  destruct (IsDAAEnabled _ _); [|done]. unfold work_of in *. rewrite Eh. rewrite (chain_work_within h h' Hw Ht) by (by rewrite Hp). done.
Qed.

Lemma stored_block s hash p : store_ok s -> mStore s !! hash = Some p -> is_Some (entries s !! p).
Proof. intros Hs Hp. destruct (so_entry _ Hs hash p Hp) as (b & _ & -> & _). done. Qed.

Lemma stored_targets s : params_ok params -> store_ok s -> targets_ok (entries s) params.
Proof.
  intros HP Hs p b Hp. destruct (so_stored _ Hs p ltac:(by rewrite Hp)) as [hash Hh]. destruct (so_entry _ Hs hash p Hh) as (b' & block & Hp' & Hok & (_ & _ & _ & Eb & _) & Eh & Hrest). simplify_eq. rewrite Eb.
  destruct (pprev b) as [q|]; [|by destruct Hrest as (_ & _ & ?)]. destruct Hrest as (_ & Hpow & _). destruct (header_hash block Hok) as (hash' & Eh' & Hu). assert (hash' = hash) as -> by congruence.
  destruct Hok as (_ & _ & _ & _ & Hbits & _). apply CheckProofOfWork_spec in Hpow as (T & V & _); [|exact Hu | apply HP | done]. unfold target_ok. split_and!; first [done | lia].
Qed.

Lemma next_work_defined s q block : params_ok params -> store_ok s -> retargets (entries s) q -> exists bits, GetNextWorkRequired (entries s) (Some q) block params = Some bits.
Proof.
  intros HP Hs Hr. destruct (so_tree _ Hs) as (h & Hh & Hw & Hw'). pose proof (io_tree _ (so_index _ Hs)) as Ht. destruct (retargets_within _ _ q Hw' Hw Ht Hr) as (b & Hb & Hmax & Hreg).
  destruct (GetNextWorkRequired_within_limit h (Some q) block params HP Hh) as (bits & E & _); [|by exists b|].
  - intros p c Hp. destruct (Hw p c Hp) as (c' & Hp' & E). injection E as _ _ _ _ _ _ _ <- _. by apply (stored_targets s HP Hs p c').
  - exists bits. apply (GetNextWorkRequired_within h _ Hw); [by apply block_tree_ok | done].
Qed.

End store.

(** ** A new entry *)

Section insertion.
Context (cs : chainstate) (p : ptr) (b : CBlockIndex) (Hcs : index_ok cs) (Hp : index cs !! p = None) (Hb : BlockIndex.block_ok (index cs) b).

Notation h' := (<[p := b]> (index cs)).

Lemma index_grows : index cs ⊆ h'.
Proof. by apply insert_subseteq. Qed.

Lemma tree_ok_new : tree_ok h'.
Proof.
  intros q c. destruct (decide (p = q)) as [<-|Hne]; [rewrite lookup_insert_eq; intros [= <-] | rewrite lookup_insert_ne by done; intros Hq; apply (io_tree _ Hcs) in Hq as Hc];
    (apply (block_ok_mono (index cs)); [apply index_grows | done]).
Qed.

Lemma no_child q c : index cs !! q = Some c -> pprev c <> Some p.
Proof. intros Hq E. destruct (io_tree _ Hcs q c Hq) as [_ Hprev]. rewrite E in Hprev. destruct Hprev as (bp & Hp' & _). congruence. Qed.

Lemma index_ok_new : wf (nChainWork b) -> nChainTx b = 0 -> index_ok (set_index cs h').
Proof.
  intros Hwf Hz. split; cbn [index set_index setBlockIndexCandidates chainActive pindexBestInvalid].
  - apply tree_ok_new.
  - apply map_Forall_insert_2; [done | apply (io_works _ Hcs)].
  - by apply (chain_ok_mono (index cs)); [apply (io_tree _ Hcs) | apply index_grows | apply (io_chain _ Hcs)].
  - pose proof (io_ordered _ Hcs) as Ho. pose proof (candidates_blocks cs Hcs) as Hbl. unfold less in *. cbn [index set_index]. induction Ho as [|x l Ho IH Hf]; [constructor|]. apply list.Forall_cons_1 in Hbl as [[bx Hx] Hbl].
    constructor; [by apply IH|]. apply list.Forall_forall. intros y Hy. apply (proj1 (list.Forall_forall _ _) Hf) in Hy as Hlt. apply (proj1 (list.Forall_forall _ _) Hbl) in Hy as [bY HY]. rewrite <- Hlt.
    symmetry. apply (comparator_entries _ _ x y bx bY); [done | by apply (lookup_weaken _ _ _ _ Hx index_grows) | done | by apply (lookup_weaken _ _ _ _ HY index_grows)].
  - intros q Hq. destruct (io_linked _ Hcs q Hq) as (c & Hc & Hn). exists c. split; [by apply (lookup_weaken _ _ _ _ Hc index_grows) | done].
  - intros x c q cq Hx Hn Eq Hq. destruct (decide (p = x)) as [<-|Hne]; [rewrite lookup_insert_eq in Hx; congruence|]. rewrite lookup_insert_ne in Hx by done.
    rewrite lookup_insert_ne in Hq by (intros <-; by apply (no_child x c)). by apply (io_parents _ Hcs x c q cq).
  - intros q Eq. destruct (io_invalid _ Hcs q Eq) as [c Hc]. exists c. by apply (lookup_weaken _ _ _ _ Hc index_grows).
Qed.

Lemma chain_txs_new : forall n q, is_Some (index cs !! q) -> chain_txs h' n q = chain_txs (index cs) n q.
Proof.
  induction n as [|n IH]; intros q [c Hq]; [done|]. cbn [chain_txs]. rewrite Hq, (lookup_weaken _ _ _ _ Hq index_grows). destruct (pprev c) as [r|] eqn:Er; [|done].
  destruct (io_tree _ Hcs q c Hq) as [_ Hprev]. rewrite Er in Hprev. destruct Hprev as (br & Hr & _). by rewrite IH by (by rewrite Hr).
Qed.

Lemma links_ok_new : links_ok cs -> nTx b = 0 -> nChainTx b = 0 -> validity_code TREE <= getValidity (nStatus b) -> links_ok (set_index cs h').
Proof.
  intros [Htr Htx Hdata Hs Hnd Hq Hwait Hall Htip] Ez Ecz Hv. assert (forall q c, h' !! q = Some c -> q = p /\ c = b \/ index cs !! q = Some c) as Hget.
  { intros q c. destruct (decide (p = q)) as [<-|]; [rewrite lookup_insert_eq; intros [= <-]; by left | rewrite lookup_insert_ne by done; by right]. }
  assert (forall q c, index cs !! q = Some c -> h' !! q = Some c) as Hmore by (intros q c Hc; by apply (lookup_weaken _ _ _ _ Hc index_grows)).
  split; cbn [index set_index mapBlocksUnlinked].
  - intros q c [[-> ->]|Hc]%Hget; [done | by apply (Htr q)].
  - intros q c [[-> ->]|Hc]%Hget; [lia | by apply (Htx q)].
  - intros q c [[-> ->]|Hc]%Hget; [done | by apply (Hdata q)].
  - intros q c [[-> ->]|Hc]%Hget; [done|]. intros Hn. rewrite chain_txs_new by (by rewrite Hc). by apply Hs.
  - done.
  - by intros q []%elem_of_nil.
  - intros q x Hw. destruct (Hwait q x Hw) as (c & cq & Hc & E & Hcq & Hn & Hz). exists c, cq. split; [by apply Hmore|]. split; [done|]. split; [by apply Hmore | done].
  - intros q c [[-> ->]|Hc]%Hget; [done|]. intros Hn Hz. destruct (Hall q c Hc Hn Hz) as [|[|(r & br & Er & Hr & Hi)]]; [by left | by right; left | right; right]. exists r, br. split_and!; [done | by apply Hmore | done].
  - intros t Et. destruct (Htip t Et) as (c & Hc & Hn). exists c. split; [by apply Hmore | done].
Qed.

End insertion.

Lemma new_describes h block prev now b : new_CBlockIndex h block prev now = Some b -> describes b block /\ pprev b = prev.
Proof.
  unfold new_CBlockIndex. destruct prev as [q|].
  - destruct (h !! q) as [bq|]; [|done]. destruct (BuildSkipNL _ _ _); [|done]. destruct (SetSoftRejectedFromParentBaseNL bq 0). destruct (SetChainWorkNL _ _ _); [|done]. by intros [= <-].
  - destruct (SetChainWorkNL _ _ _); [|done]. by intros [= <-].
Qed.

Lemma best_header_ok s h p b : entries s = <[p := b]> h -> works_ok (entries s) -> h !! p = None -> best_ok h (mBestHeader s) -> best_ok (entries s) (mBestHeader (best_header p s)).
Proof.
  intros Es Hw Hn Hb. assert (entries s !! p = Some b) as Hp by (by rewrite Es, lookup_insert_eq). assert (forall q c, entries s !! q = Some c -> q = p /\ c = b \/ h !! q = Some c) as Hget.
  { intros q c. rewrite Es. destruct (decide (p = q)) as [<-|]; [rewrite lookup_insert_eq; intros [= <-]; by left | rewrite lookup_insert_ne by done; by right]. }
  unfold best_header. cbn [mBestHeader]. destruct (mBestHeader s) as [best|]; cbn [best_ok] in Hb.
  - destruct Hb as (bb & Hbb & Hmax). assert (entries s !! best = Some bb) as Hbb' by (rewrite Es, lookup_insert_ne by congruence; done).
    pose proof (comparator_spec (entries s) best p bb b Hw Hbb' Hp) as Hc. unfold before, rank in Hc. destruct (CBlockIndexWorkComparator _ best p) eqn:E; cbn [best_ok].
    + exists b. split; [done|]. destruct Hc as [Hc _]. specialize (Hc eq_refl). intros q c [[-> ->]|Hq]%Hget; [lia|]. specialize (Hmax q c Hq). lia.
    + exists bb. split; [done|]. intros q c [[-> ->]|Hq]%Hget; [|by apply (Hmax q)]. destruct (Z.le_gt_cases (val (nChainWork b)) (val (nChainWork bb))); [done|]. destruct Hc as [_ Hc]. discriminate Hc. left. lia.
  - exists b. split; [done|]. intros q c [[-> ->]|Hq]%Hget; [lia|]. by rewrite Hb, lookup_empty in Hq.
Qed.

(** ** Headers *)

Section headers.
Context `{BN_API} (config : Config) (IsBlockInvalidated : list Z -> bool) (fCheckpointsEnabled : bool) (checkpoints : list (Z * list Z)) (alloc : heap -> ptr).
Notation params := (pow_params (GetConsensus config)).
Notation genesis := (hashGenesisBlock (GetConsensus config)).
Notation store_ok := (store_ok config fCheckpointsEnabled checkpoints).
Notation entry_valid := (entry_valid config fCheckpointsEnabled checkpoints).

(** A later store: entries and hashes are kept. *)

Definition extends (s s' : BlockIndexStore) : Prop := within (entries s) (entries s') /\ mStore s ⊆ mStore s'.

#[export] Instance extends_preorder : PreOrder extends.
Proof. split; [intros s; split; done | intros s1 s2 s3 [] []; split; by etransitivity]. Qed.

Lemma entry_valid_extends s s' hash p : tree_ok (entries s) -> extends s s' -> entry_valid s hash p -> entry_valid s' hash p.
Proof.
  intros Ht [Hw Hm] (b & block & Hp & Hok & Hd & Eh & Hrest). destruct (Hw p b Hp) as (b' & Hp' & E). injection E as Ep _ Eht _ E1 E2 E3 E4 E5. exists b', block. split; [done|]. split; [done|].
  split; [unfold describes in *; rewrite E1, E2, E3, E4, E5; done|]. split; [done|]. rewrite Ep, Eht. destruct (pprev b) as [q|]; [|done]. destruct Hrest as (Hq & Hpow & Hv & Hc).
  split; [by apply (lookup_weaken _ _ _ _ Hq Hm)|]. split; [done|]. split; [by apply (header_valid_within config (entries s)) | done].
Qed.

(** What a new header has to satisfy for its entry to be valid. *)

Definition insertable (s : BlockIndexStore) (block : CBlockHeader) (hash : list Z) : Prop :=
  match mStore s !! hdr_hashPrevBlock block with
  | None => hash = genesis /\ genesis_header config block
  | Some q => CheckProofOfWork hash (hdr_nBits block) params = true /\ header_valid config (entries s) q block /\
      (fCheckpointsEnabled = true -> forall bq, entries s !! q = Some bq -> Checkpoints_CheckBlock checkpoints (nHeight bq + 1) hash = true)
  end.

Lemma Insert_spec s block now hash : store_ok s -> header_ok block -> GetBlockHash block = Ok hash -> hash <> uint256_null -> mStore s !! hash = None -> entries s !! alloc (entries s) = None -> insertable s block hash ->
  exists b s', Insert alloc block now s = Ok (alloc (entries s), s') /\ entries s' = <[alloc (entries s) := b]> (entries s) /\ mStore s' = <[hash := alloc (entries s)]> (mStore s) /\
    new_CBlockIndex (entries s) block (mStore s !! hdr_hashPrevBlock block) now = Some b /\ globals s' = set_index (globals s) (entries s') /\ mBestHeader s' = mBestHeader (best_header (alloc (entries s)) {| globals := globals s'; mStore := mStore s'; mBestHeader := mBestHeader s |}).
Proof.
  intros Hs Hok Eh Hnn Hnew Hfresh Hins. unfold Insert. set (prev := mStore s !! hdr_hashPrevBlock block) in *. pose proof (io_tree _ (so_index _ _ _ _ Hs)) as Ht.
  assert (bool_decide (hdr_hashPrevBlock block = uint256_null /\ prev = None) || bool_decide (is_Some prev) = true) as ->.
  { unfold insertable in Hins. fold prev in Hins. destruct prev; [by rewrite orb_true_r|]. destruct Hins as (_ & Hg & _). by rewrite bool_decide_true. }
  cbn [assert_ mbind outcome_bind]. rewrite Eh. cbn [mbind outcome_bind of_stream]. rewrite Hnew.
  destruct (new_CBlockIndex_total (entries s) block prev now Ht) as [b Eb]; [destruct Hok as (_ & _ & _ & ? & ? & _); by split | intros q Eq; by eapply stored_block|].
  rewrite Eb. exists b. eexists. split; [done|]. done.
Qed.

Lemma Insert_ok s block now hash : store_ok s -> header_ok block -> GetBlockHash block = Ok hash -> hash <> uint256_null -> mStore s !! hash = None -> entries s !! alloc (entries s) = None -> insertable s block hash ->
  exists b s', Insert alloc block now s = Ok (alloc (entries s), s') /\ store_ok s' /\ extends s s' /\ globals s' = set_index (globals s) (<[alloc (entries s) := b]> (entries s)) /\ mStore s' = <[hash := alloc (entries s)]> (mStore s) /\
    describes b block /\ nTx b = 0 /\ isInvalid (nStatus b) = false /\ pprev b = mStore s !! hdr_hashPrevBlock block.
Proof.
  intros Hs Hok Eh Hnn Hnew Hfresh Hins. destruct (Insert_spec s block now hash Hs Hok Eh Hnn Hnew Hfresh Hins) as (b & s' & E & Ee & Em & Eb & Eg & Ebest). set (p := alloc (entries s)) in *. exists b, s'. split; [done|].
  destruct (new_describes _ _ _ _ _ Eb) as [Hd Ep]. destruct (new_block_header _ _ _ _ _ Eb) as (T1 & T2 & T3 & T4). pose proof (so_index _ _ _ _ Hs) as Hcs. pose proof (io_tree _ Hcs) as Ht.
  destruct (new_CBlockIndex_ok (entries s) block _ now b Ht Eb) as [Hbok _]. assert (extends s s') as Hext by (split; [rewrite Ee; by apply within_insert | rewrite Em; by apply insert_subseteq]).
  destruct (so_tree _ _ _ _ Hs) as (h & Hh & Hw1 & Hw2). assert (h !! p = None) as Hph by (destruct (h !! p) as [c|] eqn:Hc; [destruct (Hw1 p c Hc) as (c' & ? & _); congruence | done]).
  destruct (new_CBlockIndex_within (entries s) h Hw2 block _ now now b Eb) as (b' & Eb' & Ec). assert (header_range block) as Hr by (destruct Hok as (_ & _ & _ & ? & ? & _); by split).
  assert (block_tree (<[p := b']> h)) as Hh' by (by eapply tree_add). assert (wf (nChainWork b)) as Hwf by (injection Ec as _ _ _ <- _ _ _ _ _; apply (block_tree_work _ Hh' p b'); by rewrite lookup_insert_eq).
  assert (index_ok (globals s')) as Hix by (rewrite Eg, Ee; by apply index_ok_new). split; [|rewrite Eg, Ee; split_and!; done].
  assert (entries s' !! p = Some b) as Hp by (by rewrite Ee, lookup_insert_eq). split.
  - done.
  - rewrite Eg, Ee. apply links_ok_new; try done. apply (so_links _ _ _ _ Hs).
  - exists (<[p := b']> h). split; [done|]. rewrite Ee. split; intros q c; (destruct (decide (p = q)) as [<-|Hne]; [rewrite !lookup_insert_eq; intros [= <-]; eauto | rewrite !lookup_insert_ne by done; auto]).
  - intros hash' q. rewrite Em. destruct (decide (hash = hash')) as [<-|Hne]; [|rewrite lookup_insert_ne by done; intros Hq; apply (entry_valid_extends s); [done | done | by apply (so_entry _ _ _ _ Hs)]].
    rewrite lookup_insert_eq. intros [= <-]. exists b, block. split_and!; try done. rewrite Ep. unfold insertable in Hins. destruct (mStore s !! hdr_hashPrevBlock block) as [q|] eqn:Eq; [|done]. destruct Hins as (Hpow & Hv & Hc).
    split; [rewrite Em, lookup_insert_ne by congruence; done|]. split; [done|]. split; [apply (header_valid_within config (entries s)); [apply Hext | done | done]|]. intros Hf.
    destruct (stored_block _ _ _ _ _ _ Hs Eq) as [bq Hbq]. destruct Hbok as [_ Hprev]. rewrite Ep in Hprev. destruct Hprev as (bq' & Hbq' & -> & _). simplify_eq. by apply Hc.
  - intros q. rewrite Ee, Em. destruct (decide (p = q)) as [<-|Hne]; [intros _; exists hash; by rewrite lookup_insert_eq|]. rewrite lookup_insert_ne by done. intros Hq. destruct (so_stored _ _ _ _ Hs q Hq) as [hash' Hh2]. exists hash'. rewrite lookup_insert_ne by congruence. done.
  - assert (forall hash', mStore s !! hash' <> Some p) as Hnot by (intros hash' Hq; destruct (stored_block _ _ _ _ _ _ Hs Hq); congruence).
    intros h1 h2 q. rewrite Em. destruct (decide (hash = h1)) as [<-|N1], (decide (hash = h2)) as [<-|N2]; rewrite ?lookup_insert_eq, ?lookup_insert_ne by done; [done | by intros [= <-] ?%Hnot | by intros Hq [= <-]; apply Hnot in Hq | by apply (so_once _ _ _ _ Hs)].
  - rewrite Em, lookup_insert_ne by done. apply (so_null _ _ _ _ Hs).
  - rewrite Ebest. set (s0 := {| globals := globals s'; mStore := _; mBestHeader := _ |}). change (entries s') with (entries s0) in *. apply (best_header_ok s0 (entries s) p b); [done | apply Hix | done | apply (so_best _ _ _ _ Hs)].
Qed.

(** The rules for a header that is not known yet. *)

Definition acceptable_new (s : BlockIndexStore) (block : CBlockHeader) (hash : list Z) (nAdjustedTime : Z) : Prop :=
  CheckProofOfWork hash (hdr_nBits block) params = true /\ exists q bq, mStore s !! hdr_hashPrevBlock block = Some q /\ entries s !! q = Some bq /\ isInvalid (nStatus bq) = false /\
    (fCheckpointsEnabled = true -> checkpoint_ok s checkpoints (nHeight bq + 1) hash) /\ header_valid config (entries s) q block /\ hdr_nTime block <= nAdjustedTime + MAX_FUTURE_BLOCK_TIME.

Definition acceptable (s : BlockIndexStore) (block : CBlockHeader) (hash : list Z) (nAdjustedTime : Z) : Prop :=
  IsBlockInvalidated hash = false /\
  (hash = genesis \/ match mStore s !! hash with
                    | Some p => exists b, entries s !! p = Some b /\ isInvalid (nStatus b) = false
                    | None => acceptable_new s block hash nAdjustedTime
                    end).

Lemma FindPreviousBlockIndex_spec s block st : store_ok s -> exists prev st', FindPreviousBlockIndex s block st = Ok (prev, st') /\
  match prev with
  | Some q => st' = st /\ exists bq, mStore s !! hdr_hashPrevBlock block = Some q /\ entries s !! q = Some bq /\ isInvalid (nStatus bq) = false
  | None => rejected st st' /\ forall q bq, mStore s !! hdr_hashPrevBlock block = Some q -> entries s !! q = Some bq -> isInvalid (nStatus bq) = true
  end.
Proof.
  intros Hs. unfold FindPreviousBlockIndex, Get, invalid_at. assert (forall level code reason, 0 <= level -> rejected st (DoS level false code reason st).2) as Hrej.
  { intros level code reason Hl. destruct (decides_reject level code reason False Hl ltac:(tauto) st) as (b & st' & [= <- <-] & _ & Hr). exact Hr. }
  destruct (mStore s !! hdr_hashPrevBlock block) as [q|] eqn:Eq.
  - destruct (stored_block _ _ _ _ _ _ Hs Eq) as [bq Hq]. rewrite Hq. cbn [mbind outcome_bind]. destruct (isInvalid (nStatus bq)) eqn:Ei.
    + eexists None, _. split; [done|]. split; [by apply Hrej|]. intros q' bq' [= <-] Hq'. congruence.
    + exists (Some q), st. split; [done|]. split; [done|]. by exists bq.
  - eexists None, _. split; [done|]. split; [by apply Hrej | done].
Qed.

Lemma accept_new_decides s block hash nAdjustedTime : params_ok params -> store_ok s -> header_ok block -> GetBlockHash block = Ok hash ->
  (forall q, mStore s !! hdr_hashPrevBlock block = Some q -> retargets config (entries s) q) ->
  decides (accept_new config fCheckpointsEnabled checkpoints block hash nAdjustedTime s) (acceptable_new s block hash nAdjustedTime).
Proof.
  intros HP Hs Hok Eh Hre st. unfold accept_new, acceptable_new. destruct (CheckBlockHeader_decides config block new_BlockValidationOptions Hok st) as (ok & st1 & -> & H1). cbn [mbind outcome_bind].
  destruct ok; cbn [negb]. 2:{ exists false, st1. split; [done|]. destruct H1 as [Hn ?]. split; [|done]. intros [Hpow _]. apply Hn. intros _. by exists hash. }
  destruct H1 as [Hpow ->]. destruct (Hpow eq_refl) as (hash' & Eh' & Hp). assert (hash' = hash) as -> by congruence.
  destruct (FindPreviousBlockIndex_spec s block st Hs) as (prev & st' & -> & H2). cbn [mbind outcome_bind]. destruct prev as [q|].
  2:{ exists false, st'. split; [done|]. destruct H2 as [? Hn]. split; [|done]. intros (_ & q & bq & Hq & Hbq & Hv & _). by rewrite (Hn q bq Hq Hbq) in Hv. }
  destruct H2 as (-> & bq & Hq & Hbq & Hv). destruct (next_work_defined _ _ _ s q block HP Hs (Hre q Hq)) as [bits Ebits].
  destruct (ContextualCheckBlockHeader_decides config (entries s) q bq block nAdjustedTime bits Hbq Ebits st) as (ok3 & st3 & E3 & H3).
  assert (forall r br, mStore s !! hdr_hashPrevBlock block = Some r -> entries s !! r = Some br -> r = q /\ br = bq) as Hone by (intros r br Hr Hbr; rewrite Hq in Hr; injection Hr as <-; by rewrite Hbq in Hbr; injection Hbr as <-).
  assert (exists ok2 st2, (if fCheckpointsEnabled then CheckIndexAgainstCheckpoint (entries s) (Get s) q checkpoints hash st else Ok (true, st)) = Ok (ok2, st2) /\
    if ok2 then st2 = st /\ (fCheckpointsEnabled = true -> checkpoint_ok s checkpoints (nHeight bq + 1) hash) else rejected st st2 /\ ~ (fCheckpointsEnabled = true -> checkpoint_ok s checkpoints (nHeight bq + 1) hash)) as (ok2 & st2 & -> & H2).
  { destruct fCheckpointsEnabled; [|by exists true, st]. destruct (CheckIndexAgainstCheckpoint_decides s checkpoints q bq hash ltac:(intros; by eapply stored_block) Hbq st) as (b & st2 & -> & Hb). exists b, st2. split; [done|].
    destruct b; [tauto|]. destruct Hb as [Hn ?]. split; [done|]. intros Hc. by apply Hn, Hc. }
  cbn [mbind outcome_bind]. destruct ok2; cbn [negb]. 2:{ exists false, st2. split; [done|]. destruct H2 as [? Hn]. split; [|done]. intros (_ & r & br & Hr & Hbr & _ & Hc & _). destruct (Hone r br Hr Hbr) as [-> ->]. by apply Hn. }
  destruct H2 as [-> Hc]. rewrite E3. exists ok3, st3. split; [done|]. destruct ok3.
  - destruct H3 as [[Hhv Htime] ->]. split; [|done]. split; [done|]. by exists q, bq.
  - destruct H3 as [Hn ?]. split; [|done]. intros (_ & r & br & Hr & Hbr & _ & _ & Hhv & Htime). destruct (Hone r br Hr Hbr) as [-> ->]. by apply Hn.
Qed.

(** The conditions under which a header is handled: it hashes, its hash is not the null hash, the first block is as it should
    be, the address of a new entry is free, and the rules are defined on top of its predecessor. *)

Record header_ready (s : BlockIndexStore) (block : CBlockHeader) (hash : list Z) : Prop := {
  hr_ok : header_ok block;
  hr_hash : GetBlockHash block = Ok hash;
  hr_null : hash <> uint256_null;
  hr_genesis : hash = genesis -> genesis_header config block;
  hr_fresh : entries s !! alloc (entries s) = None;
  hr_retargets q : mStore s !! hdr_hashPrevBlock block = Some q -> retargets config (entries s) q }.

(** How the store is after a header was accepted: as before, or with its entry. *)

Definition with_entry (s s' : BlockIndexStore) (block : CBlockHeader) (hash : list Z) (p : ptr) : Prop :=
  (s' = s /\ mStore s !! hash = Some p) \/
  (mStore s !! hash = None /\ entries s !! p = None /\ mStore s' = <[hash := p]> (mStore s) /\
   exists b, globals s' = set_index (globals s) (<[p := b]> (entries s)) /\ describes b block /\ nTx b = 0 /\ isInvalid (nStatus b) = false /\ pprev b = mStore s !! hdr_hashPrevBlock block).

Lemma with_entry_found s s' block hash p : store_ok s -> with_entry s s' block hash p -> mStore s' !! hash = Some p /\ is_Some (entries s' !! p).
Proof.
  intros Hs [[-> Hp]|(_ & _ & Em & b & Eg & _)]; [split; [done | by eapply stored_block]|]. split; [by rewrite Em, lookup_insert_eq|]. unfold entries at 1. rewrite Eg. cbn. by rewrite lookup_insert_eq.
Qed.

Lemma AddToBlockIndex_spec s block now hash : store_ok s -> header_ready s block hash -> (mStore s !! hash = None -> insertable s block hash) ->
  exists p s', AddToBlockIndex alloc block now s = Ok (p, s') /\ store_ok s' /\ extends s s' /\ with_entry s s' block hash p.
Proof.
  intros Hs [Hok Eh Hnn Hg Hf Hre] Hins. unfold AddToBlockIndex, Get. rewrite Eh. cbn [of_stream mbind outcome_bind]. destruct (mStore s !! hash) as [p|] eqn:Ep; [exists p, s; split_and!; [done | done | done | by left]|].
  destruct (Insert_ok s block now hash Hs Hok Eh Hnn Ep Hf (Hins eq_refl)) as (b & s' & E & Hs' & Hext & Eg & Em & Hd & Ht & Hi & Epp). exists (alloc (entries s)), s'. split_and!; [done | done | done|]. right. split_and!; try done. by exists b.
Qed.

(** What [AcceptBlockHeader] answers and does. *)

Definition header_answer (s : BlockIndexStore) (block : CBlockHeader) (hash : list Z) (nAdjustedTime : Z) (st : CValidationState) (ok : bool) (r : option ptr) (st' : CValidationState) (s' : BlockIndexStore) : Prop :=
  store_ok s' /\ extends s s' /\
  if ok then acceptable s block hash nAdjustedTime /\ st' = st /\ exists p, r = Some p /\ with_entry s s' block hash p
  else ~ acceptable s block hash nAdjustedTime /\ rejected st st' /\ s' = s.

Lemma add_answer s block hash nAdjustedTime now st : store_ok s -> header_ready s block hash -> (mStore s !! hash = None -> insertable s block hash) -> acceptable s block hash nAdjustedTime ->
  exists p s', AddToBlockIndex alloc block now s = Ok (p, s') /\ header_answer s block hash nAdjustedTime st true (Some p) st s'.
Proof.
  intros Hs Hr Hins Hacc. destruct (AddToBlockIndex_spec s block now hash Hs Hr Hins) as (p & s' & E & Hs' & Hext & Hwe). exists p, s'. split; [done|]. unfold header_answer. split_and!; try done. by exists p.
Qed.

Lemma AcceptBlockHeader_spec s block nAdjustedTime now st hash : params_ok params -> store_ok s -> header_ready s block hash ->
  exists ok r st' s', AcceptBlockHeader config IsBlockInvalidated fCheckpointsEnabled checkpoints alloc block nAdjustedTime now s st = Ok (ok, r, st', s') /\ header_answer s block hash nAdjustedTime st ok r st' s'.
Proof.
  intros HP Hs Hr. pose proof Hr as [Hok Eh Hnn Hg Hf Hre]. unfold AcceptBlockHeader, Get. rewrite Eh. cbn [of_stream mbind outcome_bind]. cbn zeta.
  assert (forall code reason, rejected st (TxCheck.Invalid false code reason st).2) as Hrej.
  { intros code reason. destruct (decides_reject 0 code reason False ltac:(lia) ltac:(tauto) st) as (b & st' & [= <- <-] & _ & R). exact R. }
  destruct (IsBlockInvalidated hash) eqn:Ei; [eexists false, None, _, s; split; [done|]; split_and!; try done; intros [? _]; congruence|]. destruct (bool_decide (hash = genesis)) eqn:Eg; cbn [negb].
  - apply bool_decide_eq_true in Eg. destruct (add_answer s block hash nAdjustedTime now st Hs Hr) as (p & s' & -> & Ha); [| by split; [|left] | by exists true, (Some p), st, s'].
    intros _. unfold insertable. destruct (Hg Eg) as (Hn & Ht). rewrite Hn, (so_null _ _ _ _ Hs). done.
  - apply bool_decide_eq_false in Eg. destruct (mStore s !! hash) as [p|] eqn:Ep.
    + unfold invalid_at. destruct (stored_block _ _ _ _ _ _ Hs Ep) as [b Hb]. rewrite Hb. cbn [mbind outcome_bind]. destruct (isInvalid (nStatus b)) eqn:Ev.
      * eexists false, (Some p), _, s. split; [done|]. split_and!; try done. unfold acceptable. rewrite Ep. intros (_ & [?|(b' & Hb' & Ev')]); [done | congruence].
      * exists true, (Some p), st, s. split; [done|]. split_and!; try done; [unfold acceptable; rewrite Ep; split; [done|]; right; by exists b | exists p; split; [done | by left]].
    + destruct (accept_new_decides s block hash nAdjustedTime HP Hs Hok Eh Hre st) as (ok & st1 & -> & Ha). cbn [mbind outcome_bind]. destruct ok.
      * destruct Ha as [Ha ->]. destruct (add_answer s block hash nAdjustedTime now st Hs Hr) as (p & s' & -> & Hans); [|unfold acceptable; rewrite Ep; auto | by exists true, (Some p), st, s'].
        intros _. unfold insertable. destruct Ha as (Hpow & q & bq & Hq & Hbq & _ & Hc & Hv & _). rewrite Hq. split; [done|]. split; [done|]. intros Hfl bq' Hbq'. simplify_eq. by apply Hc.
      * eexists false, None, st1, s. split; [done|]. split_and!; try done; [|tauto]. unfold acceptable. rewrite Ep. intros (_ & [?|?]); [done | tauto].
Qed.

End headers.

(** ** What blocks leave of the headers *)

Definition cores (h : heap) : gmap ptr _ := core <$> h.

Lemma cores_within h h' : cores h = cores h' -> within h h'.
Proof.
  intros E p b Hp. assert (cores h' !! p = Some (core b)) as Hp' by (unfold cores in *; by rewrite <- E, lookup_fmap, Hp). unfold cores in Hp'. rewrite lookup_fmap in Hp'.
  destruct (h' !! p) as [b'|]; [|done]. exists b'. split; [done|]. by apply (inj Some) in Hp'.
Qed.

Lemma cores_alter f p h : (forall b, core (f b) = core b) -> cores (alter f p h) = cores h.
Proof.
  intros Hf. apply map_eq. intros q. unfold cores. rewrite !lookup_fmap. destruct (decide (p = q)) as [<-|]; [rewrite lookup_alter_eq | by rewrite lookup_alter_ne]. destruct (h !! p); [|done]. cbn. by rewrite Hf.
Qed.

Lemma offer_index p cs : index (offer p cs) = index cs.
Proof. unfold offer. destruct (tip cs); [destruct (less _ _ _)|]; done. Qed.

Lemma link_loop_cores fuel : forall queue cs cs', link_loop fuel queue cs = Some cs' -> cores (index cs') = cores (index cs).
Proof.
  induction fuel as [|fuel IH]; intros [|p queue] cs cs'; cbn [link_loop]; [by intros [= <-] | done | by intros [= <-]|]. destruct (index cs !! p) as [b|]; [|done]. cbn [mbind option_bind].
  destruct (match pprev b with None => _ | Some _ => _ end) as [before|]; [|done]. cbn [mbind option_bind]. destruct (_ =? _); [done|]. cbn zeta. intros E. rewrite (IH _ _ _ E). cbn [index set_unlinked]. unfold link_block. rewrite offer_index. cbn. by apply cores_alter.
Qed.

Lemma later_cores cs cs' : later cs cs' -> cores (index cs') = cores (index cs).
Proof.
  intros Hl. apply map_eq. intros p. unfold cores. rewrite !lookup_fmap. destruct (index cs !! p) as [b|] eqn:Hp; [|by rewrite (same_tree_none _ _ p (lt_tree _ _ Hl) Hp)]. destruct (lt_entry _ _ Hl p b Hp) as (b' & Hp' & He). rewrite Hp'. cbn.
  unfold core. rewrite (el_header _ _ He). pose proof (lt_tree _ _ Hl) as E. unfold same_tree in E. apply (f_equal (fun h => h !! p)) in E. rewrite !lookup_fmap, Hp, Hp' in E. cbn in E. unfold place in E. congruence.
Qed.

Lemma marked_later M cs : later cs (marked M cs).
Proof.
  split; [apply same_but_status_tree, marked_status | | done]. intros p b Hp. exists (fail_if M p b). rewrite marked_lookup, Hp. split; [done|]. unfold fail_if. destruct (decide _); [apply failed_parent_later | apply entry_later_refl].
Qed.

(** A block that is marked as failed. *)

Lemma fail_block cs p b : index_ok cs -> links_ok cs -> index cs !! p = Some b ->
  let cs' := modify ModifyStatusWithFailed p cs in index_ok cs' /\ links_ok cs' /\ later cs cs'.
Proof.
  intros Hcs Hl Hp cs'. assert (later cs cs') as Hlt by (apply later_modify; intros; apply failed_later). split.
  - pose proof (index_ok_status cs (index cs') (fun _ => True) Hcs) as Hok. cbn in Hok. rewrite filter_all in Hok by done. apply Hok. symmetry. by apply same_but_status_alter.
  - split; [|done]. apply (links_ok_later cs); [done | done | | done]. intros t Et. destruct (lk_tip _ _ Hl t Et) as (bt & Ht & Hn). destruct (lt_entry _ _ Hlt t bt Ht) as (bt' & Ht' & He). exists bt'. split; [done|]. by rewrite (el_linked _ _ He).
Qed.

(** A block deep below the tip whose transactions are out of order: it has failed, with all that is above it. *)

Lemma late_order cs p b : index_ok cs -> links_ok cs -> index cs !! p = Some b -> ttor_checked cs b = Some true ->
  exists cs', (cs ← InvalidateChain p (erase_candidate p (modify ModifyStatusWithFailed p cs)); cs ← InvalidChainFound p cs; Some (false, cs)) = Some (false, cs') /\ index_ok cs' /\ links_ok cs' /\ later cs cs' /\
    exists b', index cs' !! p = Some b' /\ hasFailed (nStatus b') = true /\ forall q, is_Some (index cs !! q) -> ancestor (index cs) p q -> exists bq, index cs' !! q = Some bq /\ isInvalid (nStatus bq) = true.
Proof.
  intros Hcs Hl Hp Ed. destruct (tip cs) as [t|] eqn:Et; [|by unfold ttor_checked in Ed; rewrite Et in Ed]. destruct (fail_block cs p b Hcs Hl Hp) as (Hcs1 & Hl1 & Hlt1). set (cs1 := modify ModifyStatusWithFailed p cs) in *.
  assert (index cs1 !! p = Some (ModifyStatusWithFailed b)) as Hp1 by (cbn; by rewrite lookup_alter_eq, Hp). destruct (erase_ok cs1 p Hcs1 ltac:(by rewrite Hp1)) as (Hcs2 & Hlt2 & _). set (cs2 := erase_candidate p cs1) in *.
  assert (hasFailed (nStatus (ModifyStatusWithFailed b)) = true) as Hf by apply failed_later. destruct (InvalidateChain_spec cs2 Hcs2 p (ModifyStatusWithFailed b) Hp1 (failed_invalid _ Hf)) as (M & -> & HM). cbn [mbind option_bind].
  assert (index (marked M cs2) !! p = Some (fail_if M p (ModifyStatusWithFailed b))) as Hp3 by (by rewrite marked_lookup; unfold cs2; cbn [index erase_candidate set_candidates]; rewrite Hp1).
  destruct (InvalidChainFound_ok p (marked M cs2) t (marked_ok M cs2 Hcs2) ltac:(by rewrite Hp3) Et) as (cs3 & -> & Hcs3 & Hlt3 & Ei & _ & Ech). cbn [mbind option_bind]. exists cs3. split; [done|].
  assert (later cs cs3) as Hlt by (apply (later_trans _ _ _ Hlt1), (later_trans _ _ _ Hlt2), (later_trans _ _ _ (marked_later M cs2)), Hlt3). assert (p ∉ M) as HpM by (intros Hin; apply HM in Hin; tauto).
  split; [done|]. split; [|split; [done|]].
  - apply (links_ok_later cs); [done | done | | done]. intros t' Et'. unfold tip in Et'. rewrite Ech in Et'. destruct (lk_tip _ _ Hl t' Et') as (bt & Ht & Hnt). destruct (lt_entry _ _ Hlt t' bt Ht) as (bt' & Ht' & He). exists bt'. split; [done|]. by rewrite (el_linked _ _ He).
  - exists (ModifyStatusWithFailed b). rewrite Ei. split; [rewrite Hp3; unfold fail_if; by rewrite decide_False by done|]. split; [done|]. intros q [c Hq] Ha. destruct (decide (q = p)) as [->|Hne].
    + eexists. split; [exact Hp3|]. unfold fail_if. rewrite decide_False by done. by apply failed_invalid.
    + assert (index cs2 !! q = Some c) as Hq2 by (cbn; by rewrite lookup_alter_ne). assert (q ∈ M) as HqM.
      { apply HM. split; [by rewrite Hq2|]. split; [|done]. apply (ancestor_proper _ _ (lt_tree _ _ Hlt1) p p eq_refl q q eq_refl) in Ha. exact Ha. }
      exists (fail_if M q c). rewrite marked_lookup, Hq2. split; [done|]. unfold fail_if. rewrite decide_True by done. apply failed_parent_invalid.
Qed.

Lemma SetDiskBlockData_core b n meta now : core (SetDiskBlockData b n meta now) = core b.
Proof. unfold SetDiskBlockData, RaiseValidity. destruct (RaiseValidityNL _ _) as [status raised]. by destruct (_ && _), meta. Qed.

Lemma received_cores cs p n ttor meta now cs' : ReceivedBlockTransactions p n ttor meta now cs = Some (true, cs') -> cores (index cs') = cores (index cs).
Proof.
  intros E. unfold ReceivedBlockTransactions in E. destruct (index cs !! p) as [b|]; [|done]. cbn [mbind option_bind] in E. destruct (ttor_checked cs b) as [deep|]; [|done]. cbn [mbind option_bind] in E. destruct (deep && negb ttor).
  - destruct (InvalidateChain _ _) as [cs1|]; [|done]. cbn [mbind option_bind] in E. by destruct (InvalidChainFound _ _).
  - cbn zeta in E. set (cs1 := modify _ p cs) in *. assert (cores (index cs1) = cores (index cs)) as E1 by (apply cores_alter; intros; apply SetDiskBlockData_core).
    destruct (pprev b) as [q|]; [|destruct (link_loop _ _ _) eqn:El; [|done]; injection E as <-; by rewrite (link_loop_cores _ _ _ _ El)].
    destruct (index cs1 !! q) as [bq|]; [|done]. cbn [mbind option_bind] in E. destruct (negb _); [destruct (link_loop _ _ _) eqn:El; [|done]; injection E as <-; by rewrite (link_loop_cores _ _ _ _ El)|]. destruct (IsValid bq TREE); by injection E as <-.
Qed.

(** The arrival of the transactions, in order or not. *)

Lemma received_ok cs p b n ttor meta now : index_ok cs -> links_ok cs -> index cs !! p = Some b -> nTx b = 0 -> 0 < n < 2 ^ 32 ->
  txs_bounded (index (modify (fun b => SetDiskBlockData b n meta now) p cs)) -> nBlockSequenceId cs + Z.of_nat (S (length (mapBlocksUnlinked cs))) < 2 ^ 31 ->
  exists ok cs', ReceivedBlockTransactions p n ttor meta now cs = Some (ok, cs') /\ index_ok cs' /\ links_ok cs' /\ cores (index cs') = cores (index cs) /\
    if ok then (ttor = true \/ ttor_checked cs b = Some false) /\ grown (modify (fun b => SetDiskBlockData b n meta now) p cs) cs'
    else ttor = false /\ ttor_checked cs b = Some true /\ later cs cs' /\ exists b', index cs' !! p = Some b' /\ hasFailed (nStatus b') = true /\ forall q, is_Some (index cs !! q) -> ancestor (index cs) p q -> exists bq, index cs' !! q = Some bq /\ isInvalid (nStatus bq) = true.
Proof.
  intros Hcs Hl Hp Hb Hn Hbound Hid. destruct (ttor_checked_some cs _ b Hl) as [deep Ed]. destruct (deep && negb ttor) eqn:Ec.
  - apply andb_true_iff in Ec as [-> Ettor%negb_true_iff]. destruct (late_order cs p b Hcs Hl Hp Ed) as (cs' & E & Hcs' & Hl' & Hlt & Hfail). exists false, cs'. split_and!; try done; [|by apply later_cores].
    unfold ReceivedBlockTransactions. rewrite Hp. cbn [mbind option_bind]. rewrite Ed. cbn [mbind option_bind]. rewrite Ettor. cbn [andb negb]. exact E.
  - assert (ttor = true \/ ttor_checked cs b = Some false) as Ho by (apply andb_false_iff in Ec as [->|Et%negb_false_iff]; auto).
    destruct (receive_links cs p b n ttor meta now Hcs Hl Hp Hb Hn Ho Hbound Hid) as (cs' & E & Hcs' & Hl' & Hg). exists true, cs'. split_and!; try done. by apply (received_cores _ _ _ _ _ _ _ E).
Qed.
