(* ===== verification/NodeRun.v ===== *)
(** * The runs of a node

    What [AcceptBlock], [ProcessNewBlock], [ProcessNewBlockHeaders] and [InitBlockIndex] of Accept.v answer and do, and what
    holds after any sequence of them, with changes of the active chain in between: the index stays consistent, every header
    in it but the first has a known predecessor, proof of work for the required target, and obeys the rules on times and
    versions, and every block whose transactions are counted was checked. *)

From stdpp Require Import gmap.
From Stdlib Require Import String.
From S2P Require Import Prelude Common Uint256 BlockIndex Pow BigInt Script Hasher Sha2 Hash Serialize Transaction Merkle Coins TxCheck BlockCheck ChainIndex ChainLinks Activate Accept.
Import Uint256.arith_uint256.
#[local] Open Scope Z_scope.

(** ** Blocks *)

Section contextual.
Context `{BN_API} (l : layout) (config : Config).

(** The rules for a block at a height, on top of a chain with a median time. *)

Definition contextual_rules (block : CBlock) (height median size : Z) : Prop :=
  let cutoff := if CSVHeight (GetConsensus config) <=? height then median else hdr_nTime (block_header block) in
  size <= GetMaxBlockSize config /\ Forall (fun tx => IsFinalTx tx height cutoff = true) (vtx block) /\
  (BIP34Height (GetConsensus config) <= height -> exists tx txs txin ins, vtx block = tx :: txs /\ vin tx = txin :: ins /\ starts_with (push_int64 height) (scriptSig txin) = true).

Lemma check_final_decides height cutoff txs : decides (check_final config height cutoff txs) (Forall (fun tx => IsFinalTx tx height cutoff = true) txs).
Proof.
  induction txs as [|tx txs IH]; [by apply decides_accept|]. rewrite list.Forall_cons. cbn [check_final]. apply decides_and; [|by intros _]. intros st. unfold ContextualCheckTransaction. destruct (IsFinalTx tx height cutoff); cbn [negb]; [by exists true, st|].
  cbn [mbind outcome_bind]. destruct (decides_reject 10 REJECT_INVALID "bad-txns-nonfinal" False ltac:(lia) ltac:(tauto) (SetNonFinal st)) as (b & st' & E & Hb). exists b, st'. split; [done|]. destruct b; [tauto|]. split; [done | apply Hb].
Qed.

Lemma ContextualCheckBlock_decides h block prev height median size : 
  match prev with None => height = 0 /\ median = 0 | Some q => exists bq, h !! q = Some bq /\ height = nHeight bq + 1 /\ GetMedianTimePast h q = Some median end ->
  GetSerializeSize (CBlock_codec l) block = Ok size -> (exists tx txs txin ins, vtx block = tx :: txs /\ vin tx = txin :: ins) ->
  decides (ContextualCheckBlock l config h block prev) (contextual_rules block height median size).
Proof.
  intros Hprev Hsize (tx & txs & txin & ins & Ev & Ei). unfold ContextualCheckBlock, contextual_rules. eapply (decides_with _ _ (height, median)).
  { destruct prev as [q|]; [|by destruct Hprev as [-> ->]]. destruct Hprev as (bq & Hq & -> & Et). unfold height_of, median_of. rewrite Hq, Et. done. }
  cbn beta iota. eapply decides_with; [exact Hsize|]. cbn beta zeta. apply (decides_unless _ 100 _ _ _ (size <= GetMaxBlockSize config)); [lia | rewrite Z.ltb_lt; lia | | rewrite Z.ltb_ge; lia]. intros _.
  apply decides_and; [apply check_final_decides|]. intros _. destruct (Z.leb_spec (BIP34Height (GetConsensus config)) height); [|apply decides_accept; lia]. rewrite Ev. destruct tx as [v vin0 vout0 lock]. cbn in Ei. subst vin0.
  destruct (starts_with _ _) eqn:Es; [apply decides_accept; intros _; by eexists _, _, txin, ins | apply decides_reject; [lia|]]. intros Hx. destruct (Hx ltac:(lia)) as (tx' & txs' & txin' & ins' & [= <- <-] & [= <- <-] & E). congruence.
Qed.

End contextual.

Section blocks.
Context `{BN_API} (l : layout) (config : Config) (IsBlockInvalidated : list Z -> bool) (fCheckpointsEnabled : bool) (checkpoints : list (Z * list Z)) (alloc : heap -> ptr).
Context (Hl : layout_ok l) (HP : params_ok (pow_params (GetConsensus config))).
Notation store_ok := (store_ok config fCheckpointsEnabled checkpoints).
Notation AcceptBlockHeader := (AcceptBlockHeader config IsBlockInvalidated fCheckpointsEnabled checkpoints alloc).
Notation AcceptBlock := (AcceptBlock l config IsBlockInvalidated fCheckpointsEnabled checkpoints alloc).
Notation acceptable := (acceptable config IsBlockInvalidated fCheckpointsEnabled checkpoints).

(** The bookkeeping may change, the headers stay. *)

Lemma store_ok_globals s cs : store_ok s -> index_ok cs -> links_ok cs -> cores (index cs) = cores (entries s) -> store_ok (with_globals s cs) /\ extends s (with_globals s cs).
Proof.
  intros Hs Hcs Hlk Ec. assert (within (entries s) (index cs)) as W1 by (by apply cores_within). assert (within (index cs) (entries s)) as W2 by (by apply cores_within).
  assert (extends s (with_globals s cs)) as Hext by done. split; [|done]. pose proof (io_tree _ (so_index _ _ _ _ Hs)) as Ht. split; cbn [globals with_globals mStore mBestHeader]; [done | done | | | | apply (so_once _ _ _ _ Hs) | apply (so_null _ _ _ _ Hs)|].
  - destruct (so_tree _ _ _ _ Hs) as (h & Hh & H1 & H2). exists h. split; [done|]. split; by etransitivity.
  - intros hash p Hp. apply (entry_valid_extends config _ _ s); [done | done | by apply (so_entry _ _ _ _ Hs)].
  - intros p [b Hb]. destruct (W2 p b Hb) as (b' & Hb' & _). apply (so_stored _ _ _ _ Hs). by rewrite Hb'.
  - change (entries (with_globals s cs)) with (index cs). pose proof (so_best _ _ _ _ Hs) as Hb. destruct (mBestHeader s) as [q|]; cbn [best_ok] in *.
    + destruct Hb as (bq & Hq & Hmax). destruct (W1 q bq Hq) as (bq' & Hq' & Eq). exists bq'. split; [done|]. injection Eq as _ _ _ -> _ _ _ _ _. intros p b Hp. destruct (W2 p b Hp) as (b' & Hp' & Eb). injection Eb as _ _ _ <- _ _ _ _ _. by apply (Hmax p).
    + apply map_empty. intros p. destruct (index cs !! p) as [b|] eqn:Hp; [|done]. destruct (W2 p b Hp) as (b' & Hp' & _). by rewrite Hb, lookup_empty in Hp'.
Qed.

(** The rules of a block that is not known, at its entry. *)

Definition passes (s : BlockIndexStore) (b : CBlockIndex) (block : CBlock) (fChecked : bool) : Prop :=
  (fChecked = false -> block_valid l config block (nHeight b) new_BlockValidationOptions) /\
  exists median size, match pprev b with Some q => GetMedianTimePast (entries s) q = Some median | None => median = 0 end /\ GetSerializeSize (CBlock_codec l) block = Ok size /\ contextual_rules config block (nHeight b) median size.

Lemma valid_shape block height options : block_valid l config block height options ->
  (exists size, GetSerializeSize (CBlock_codec l) block = Ok size) /\ (exists tx txs txin ins, vtx block = tx :: txs /\ vin tx = txin :: ins) /\ 0 < Z.of_nat (List.length (vtx block)).
Proof.
  intros (_ & _ & cb & rest & size & Ev & Es & _ & (Hcb & _ & _) & _). split; [by exists size|]. split; [|rewrite Ev; cbn; lia]. unfold IsCoinBase in Hcb. destruct (vin cb) as [|i [|]] eqn:Ei; [done | | done]. by exists cb, rest, i, [].
Qed.

Lemma check_both_spec s p b block fChecked st : store_ok s -> entries s !! p = Some b -> Transaction.block_ok block -> Z.of_nat (List.length (vtx block)) <= 2 ^ 31 -> nHeight b <> MEMPOOL_HEIGHT ->
  (fChecked = true -> exists options, block_valid l config block (nHeight b) options) ->
  exists ok st', check_both l config block fChecked s b st = Ok (ok, st') /\ (if ok then passes s b block fChecked /\ st' = st else ~ passes s b block fChecked /\ rejected st st') /\ (ok = true -> 0 < Z.of_nat (List.length (vtx block))).
Proof.
  intros Hs Hp Hok Hlen Hh Hch. assert (exists ok1 f1 st1, CheckBlock l config block fChecked (nHeight b) new_BlockValidationOptions st = Ok (ok1, f1, st1) /\
    if ok1 then st1 = st /\ (fChecked = false -> block_valid l config block (nHeight b) new_BlockValidationOptions) /\ exists options, block_valid l config block (nHeight b) options
    else rejected st st1 /\ fChecked = false /\ ~ block_valid l config block (nHeight b) new_BlockValidationOptions) as (ok1 & f1 & st1 & E1 & H1).
  { unfold CheckBlock. destruct fChecked; [exists true, true, st; split; [done|]; split; [done|]; split; [done | by apply Hch]|].
    destruct (CheckBlock_checks_decides l Hl config block (nHeight b) new_BlockValidationOptions Hok Hlen Hh st) as (ok1 & st1 & -> & H1). cbn [mbind outcome_bind]. eexists ok1, _, st1. split; [done|]. destruct ok1; [destruct H1; eauto | tauto]. }
  unfold check_both. rewrite E1. cbn [mbind outcome_bind]. destruct ok1. 2:{ exists false, st1. split; [done|]. split; [|done]. destruct H1 as (? & Ef & Hn). split; [|done]. intros [Hv _]. by apply Hn, Hv. }
  destruct H1 as (-> & Hv & options & Hvo). destruct (valid_shape block _ _ Hvo) as ([size Es] & Hshape & Hpos). pose proof (io_tree _ (so_index _ _ _ _ Hs)) as Ht. destruct (Ht p b Hp) as [_ Hprev].
  assert (exists median, match pprev b with Some q => GetMedianTimePast (entries s) q = Some median | None => median = 0 end) as [median Hm].
  { destruct (pprev b) as [q|]; [|by exists 0]. destruct Hprev as (bq & Hq & _). apply (GetMedianTimePast_total _ q bq Hq). }
  destruct (ContextualCheckBlock_decides l config (entries s) block (pprev b) (nHeight b) median size) with (st := st) as (ok & st' & E & H2); [|done | done|].
  { destruct (pprev b) as [q|]; [|by destruct Hprev]. destruct Hprev as (bq & Hq & Eh & _). by exists bq. }
  rewrite E. exists ok, st'. split; [done|]. split; [|done]. destruct ok; [destruct H2 as [H2 ->]; split; [split; [done|]; by exists median, size | done]|]. destruct H2 as [Hn ?]. split; [|done].
  intros (_ & median' & size' & Hm' & Es' & Hr). apply Hn. assert (size' = size) as -> by congruence. assert (median' = median) as -> by (destruct (pprev b); congruence). done.
Qed.

(** What [AcceptBlock] answers: the result, [*ppindex], [*fNewBlock], the validation state and the block index. In all but the
    first case the header was accepted, with the entry [b] at [p] in the index [s1]. *)

Definition header_taken (s : BlockIndexStore) (block : CBlock) (hash : list Z) (nAdjustedTime : Z) (s1 : BlockIndexStore) (p : ptr) (b : CBlockIndex) : Prop :=
  acceptable s (block_header block) hash nAdjustedTime /\ store_ok s1 /\ with_entry s s1 (block_header block) hash p /\ entries s1 !! p = Some b.

Inductive block_answer (s : BlockIndexStore) (block : CBlock) (hash : list Z) (fChecked fRequested : bool) (files : block_files) (nAdjustedTime : Z) (st : CValidationState) :
    bool -> option ptr -> bool -> CValidationState -> BlockIndexStore -> Prop :=
| header_refused r st' : ~ acceptable s (block_header block) hash nAdjustedTime -> rejected st st' -> block_answer s block hash fChecked fRequested files nAdjustedTime st false r false st' s
| block_unwanted s1 p b : header_taken s block hash nAdjustedTime s1 p b -> not_wanted fRequested s1 b = Ok true -> block_answer s block hash fChecked fRequested files nAdjustedTime st true (Some p) false st s1
| block_invalid s1 p b st' s' : header_taken s block hash nAdjustedTime s1 p b -> not_wanted fRequested s1 b = Ok false -> ~ passes s1 b block fChecked -> rejected st st' ->
    (if is_invalid st' && negb (corruptionPossible st') then exists b', entries s' !! p = Some b' /\ hasFailed (nStatus b') = true else s' = s1) ->
    block_answer s block hash fChecked fRequested files nAdjustedTime st false (Some p) true st' s'
| block_unplaced s1 p b st' : header_taken s block hash nAdjustedTime s1 p b -> not_wanted fRequested s1 b = Ok false -> passes s1 b block fChecked -> FindBlockPos files = false -> rejected st st' ->
    block_answer s block hash fChecked fRequested files nAdjustedTime st false (Some p) true st' s1
| block_misordered s1 p b st' s' : header_taken s block hash nAdjustedTime s1 p b -> not_wanted fRequested s1 b = Ok false -> passes s1 b block fChecked -> FindBlockPos files = true ->
    CheckBlockTTOROrder l block = Ok false -> ttor_checked (globals s1) b = Some true -> rejected st st' ->
    (forall q, is_Some (entries s1 !! q) -> ancestor (entries s1) p q -> exists bq, entries s' !! q = Some bq /\ isInvalid (nStatus bq) = true) ->
    block_answer s block hash fChecked fRequested files nAdjustedTime st false (Some p) true st' s'
| block_stored s1 p b b' st' s' : header_taken s block hash nAdjustedTime s1 p b -> not_wanted fRequested s1 b = Ok false -> passes s1 b block fChecked -> FindBlockPos files = true ->
    CheckBlockTTOROrder l block = Ok true \/ ttor_checked (globals s1) b = Some false -> st' = st \/ WriteBlockToDisk files = false /\ rejected st st' ->
    extends s1 s' -> entries s' !! p = Some b' -> hasData (nStatus b') = true -> nTx b' = Z.of_nat (List.length (vtx block)) ->
    block_answer s block hash fChecked fRequested files nAdjustedTime st true (Some p) true st' s'.

(** The block that comes in. No other header with its hash is known, and the counters of the index have room for it. *)

Record block_ready (s : BlockIndexStore) (block : CBlock) (hash : list Z) : Prop := {
  br_header : header_ready config alloc s (block_header block) hash;
  br_ok : Transaction.block_ok block;
  br_length : Z.of_nat (List.length (vtx block)) <= 2 ^ 31;
  br_heights p b : entries s !! p = Some b -> nHeight b + 1 < MEMPOOL_HEIGHT;
  br_same p b : mStore s !! hash = Some p -> entries s !! p = Some b -> pprev b = mStore s !! hdr_hashPrevBlock (block_header block);
  br_txs s1 p meta now : store_ok s1 -> with_entry s s1 (block_header block) hash p -> txs_bounded (index (modify (fun b => SetDiskBlockData b (Z.of_nat (List.length (vtx block))) meta now) p (globals s1)));
  br_ids : nBlockSequenceId (globals s) + Z.of_nat (S (length (mapBlocksUnlinked (globals s)))) < 2 ^ 31 }.

Lemma not_wanted_total s p b fRequested : store_ok s -> entries s !! p = Some b -> exists skip, not_wanted fRequested s b = Ok skip /\ (skip = false -> nTx b = 0).
Proof.
  intros Hs Hp. unfold not_wanted. assert (hasData (nStatus b) = false -> nTx b = 0) as Hn.
  { intros Hd. destruct (decide (nTx b = 0)) as [|Hn]; [done|]. by rewrite (lk_data _ _ (so_links _ _ _ _ Hs) p b Hp Hn) in Hd. }
  destruct (hasData (nStatus b)); [by exists true|]. specialize (Hn eq_refl). destruct fRequested; [by exists false|]. rewrite Hn. cbn [negb Z.eqb].
  destruct (tip (globals s)) as [t|] eqn:Et; cbn [mbind outcome_bind]; [|by eexists]. destruct (lk_tip _ _ (so_links _ _ _ _ Hs) t Et) as (bt & Ht & _). unfold entries. rewrite Ht. cbn [mbind outcome_bind]. by eexists.
Qed.

Lemma same_txs_lookup h h' p b : same_txs h h' -> h !! p = Some b -> exists b', h' !! p = Some b' /\ nTx b' = nTx b.
Proof. intros E Hp. assert ((fun b => (pprev b, nTx b)) <$> (h' !! p) = Some (pprev b, nTx b)) as Hq by (rewrite <- lookup_fmap, <- E, lookup_fmap, Hp; done). destruct (h' !! p) as [b'|]; [|done]. exists b'. split; [done|]. by injection Hq. Qed.

Lemma ttor_total block : Transaction.block_ok block -> exists ttor, CheckBlockTTOROrder l block = Ok ttor.
Proof. intros (_ & Htx & _). unfold CheckBlockTTOROrder. destruct (block_leaves_total l Hl (vtx block) Htx) as (ids & -> & _). by eexists. Qed.

Lemma Error_rejected reason st : rejected st (Error reason st).2.
Proof. split; [done | cbn; lia]. Qed.

Lemma Invalid_rejected ret code reason st0 st : nDoS st0 <= nDoS st -> rejected st0 (TxCheck.Invalid ret code reason st).2.
Proof. intros Hn. unfold TxCheck.Invalid, DoS. cbn. case_decide as E; split; cbn; [by rewrite E | done | done | lia]. Qed.

(** Where the counts of transactions come from: they were there, or they are new at some entry. *)

Definition txs_from (s s' : BlockIndexStore) (P : ptr -> Prop) : Prop :=
  forall q c, entries s' !! q = Some c -> nTx c <> 0 -> (exists c0, entries s !! q = Some c0 /\ nTx c0 = nTx c) \/ P q.

Lemma txs_from_refl s P : txs_from s s P.
Proof. intros q c Hq _. left. by exists c. Qed.

Lemma txs_from_later s cs P : later (globals s) cs -> txs_from s (with_globals s cs) P.
Proof. intros Hlt q c Hq _. left. destruct (later_back _ _ q c Hlt Hq) as (c0 & Hc0 & He). exists c0. split; [done|]. symmetry. apply He. Qed.

Lemma txs_from_entry s s1 s' block hash p P : with_entry s s1 block hash p -> txs_from s1 s' P -> txs_from s s' P.
Proof.
  intros [[-> _]|(_ & _ & _ & b & E & _ & Hn & _)] H1; [done|]. intros q c Hq Hc. destruct (H1 q c Hq Hc) as [(c0 & Hc0 & En)|]; [|by right]. left. exists c0. split; [|done]. unfold entries in Hc0 at 1. rewrite E in Hc0. cbn [index set_index] in Hc0.
  destruct (decide (q = p)) as [->|Hne]; [rewrite lookup_insert_eq in Hc0; injection Hc0 as <-; congruence | by rewrite lookup_insert_ne in Hc0].
Qed.

Lemma txs_from_received s p n meta now cs : grown (modify (fun b => SetDiskBlockData b n meta now) p (globals s)) cs -> txs_from s (with_globals s cs) (fun q => q = p).
Proof.
  intros Hg q c Hq _. destruct (decide (q = p)) as [|Hne]; [by right|]. left. pose proof (gr_txs _ _ Hg) as E. symmetry in E. destruct (same_txs_lookup _ _ q c E Hq) as (c0 & Hc0 & En). exists c0. split; [|done]. cbn in Hc0. by rewrite lookup_alter_ne in Hc0.
Qed.

(** What [with_entry] leaves of the counters. *)

Lemma with_entry_counters s s1 block hash p : with_entry s s1 block hash p -> nBlockSequenceId (globals s1) = nBlockSequenceId (globals s) /\ mapBlocksUnlinked (globals s1) = mapBlocksUnlinked (globals s).
Proof. intros [[-> _]|(_ & _ & _ & b & -> & _)]; done. Qed.

Lemma with_entry_height s s1 block hash p b bound : store_ok s1 -> (forall p b, entries s !! p = Some b -> nHeight b + 1 < bound) -> 0 < bound -> with_entry s s1 block hash p -> entries s1 !! p = Some b -> nHeight b < bound.
Proof.
  intros Hs Hh Hb0 Hw Hp. destruct Hw as [[-> _]|(_ & Hnone & _ & b0 & E & _)]; [apply Hh in Hp; lia|]. pose proof (io_tree _ (so_index _ _ _ _ Hs) p b Hp) as [_ Hprev].
  assert (entries s1 = <[p := b0]> (entries s)) as Ei by (unfold entries at 1; by rewrite E). destruct (pprev b) as [q|]; [|lia]. destruct Hprev as (bq & Hq & Eh & _). change (index (globals s1)) with (entries s1) in Hq.
  rewrite Ei in Hq. destruct (decide (q = p)) as [->|Hne].
  - rewrite Ei, lookup_insert_eq in Hp. rewrite lookup_insert_eq in Hq. assert (bq = b) as -> by congruence. lia.
  - rewrite lookup_insert_ne in Hq by done. apply Hh in Hq. lia.
Qed.

Lemma store_block_spec s s1 block hash p b fChecked fRequested has_dbp files nAdjustedTime now st : store_ok s1 -> block_ready s block hash -> header_taken s block hash nAdjustedTime s1 p b ->
  not_wanted fRequested s1 b = Ok false -> nTx b = 0 -> passes s1 b block fChecked -> 0 < Z.of_nat (List.length (vtx block)) ->
  exists ok st' s', store_block l block p has_dbp files now s1 st = Ok (ok, st', s') /\ store_ok s' /\ extends s1 s' /\ block_answer s block hash fChecked fRequested files nAdjustedTime st ok (Some p) true st' s' /\ txs_from s s' (fun q => ok = true /\ q = p).
Proof.
  intros Hs Hr Ht Hnw Htx Hpass Hpos. unfold store_block. destruct (FindBlockPos files) eqn:Ef; cbn [negb].
  2:{ eexists false, _, s1. split; [done|]. split; [done|]. split; [done|]. split; [eapply block_unplaced; done|]. destruct Ht as (_ & _ & Hw & _). apply (txs_from_entry _ _ _ _ _ _ _ Hw), txs_from_refl. }
  destruct (ttor_total block (br_ok _ _ _ Hr)) as [ttor Ett]. rewrite Ett. cbn [mbind outcome_bind]. pose proof Ht as (_ & _ & Hw & Hp). destruct (with_entry_counters _ _ _ _ _ Hw) as [Eid Eun].
  pose proof (br_length _ _ _ Hr) as Hlen. destruct (received_ok (globals s1) p b (Z.of_nat (List.length (vtx block))) ttor (has_digest files) now) as (ok & cs & -> & Hcs & Hlk & Hc & Hres); [apply Hs | apply Hs | done | done | | by apply (br_txs _ _ _ Hr) | rewrite Eid, Eun; apply Hr|].
  { lia. }
  destruct (store_ok_globals s1 cs Hs Hcs Hlk Hc) as [Hs' Hext]. eexists ok, _, (with_globals s1 cs). split; [done|]. split; [done|]. split; [done|]. destruct ok.
  - destruct Hres as (Ho & Hg). split. 2:{ apply (txs_from_entry _ _ _ _ _ _ _ Hw). intros q c Hq Hn. destruct (txs_from_received _ _ _ _ _ _ Hg q c Hq Hn); auto. } set (n := Z.of_nat (List.length (vtx block))) in *. assert (index (modify (fun b => SetDiskBlockData b n (has_digest files) now) p (globals s1)) !! p = Some (SetDiskBlockData b n (has_digest files) now)) as Hp1.
    { cbn [modify index set_index]. rewrite lookup_alter_eq. unfold entries in Hp. by rewrite Hp. }
    destruct (same_txs_lookup _ _ p _ (gr_txs _ _ Hg) Hp1) as (b' & Hb' & En). destruct (SetDiskBlockData_fields b n (has_digest files) now) as (_ & En' & _). rewrite En' in En. unfold u32 in En. rewrite Z.mod_small in En by lia. apply (block_stored _ _ _ _ _ _ _ _ s1 p b b'); try done; [destruct Ho as [->|]; [by left | by right] | |].
    + destruct (negb has_dbp && negb (WriteBlockToDisk files)) eqn:E; [right | by left]. apply andb_true_iff in E as [_ E]. split; [by apply negb_true_iff | apply Error_rejected].
    + apply (lk_data _ _ Hlk p b' Hb'). lia.
  - destruct Hres as (-> & Hd & Hlt & bf & _ & _ & Hq). split; [|by apply (txs_from_entry _ _ _ _ _ _ _ Hw), txs_from_later]. apply (block_misordered _ _ _ _ _ _ _ _ s1 p b); try done. apply Invalid_rejected. by destruct (negb has_dbp && negb (WriteBlockToDisk files)).
Qed.

Lemma AcceptBlock_spec s block hash fChecked fRequested has_dbp files nAdjustedTime now st : store_ok s -> block_ready s block hash ->
  (forall s1 p b, fChecked = true -> store_ok s1 -> with_entry s s1 (block_header block) hash p -> entries s1 !! p = Some b -> exists options, block_valid l config block (nHeight b) options) ->
  exists ok r new st' s', AcceptBlock block fChecked fRequested has_dbp files nAdjustedTime now s st = Ok (ok, r, new, st', s') /\ store_ok s' /\ extends s s' /\ block_answer s block hash fChecked fRequested files nAdjustedTime st ok r new st' s' /\
    txs_from s s' (fun q => ok = true /\ new = true /\ mStore s' !! hash = Some q).
Proof.
  intros Hs Hr Hch. unfold Accept.AcceptBlock. destruct (AcceptBlockHeader_spec config IsBlockInvalidated fCheckpointsEnabled checkpoints alloc s (block_header block) nAdjustedTime now st hash HP Hs (br_header _ _ _ Hr)) as (ok & r & st1 & s1 & -> & Hs1 & Hext & Hres).
  cbn [mbind outcome_bind]. destruct ok; cbn [negb]; [|destruct Hres as (Hn & Hrj & ->); exists false, r, false, st1, s; split; [done|]; split; [done|]; split; [done|]; split; [by apply header_refused | apply txs_from_refl]].
  destruct Hres as (Hacc & -> & p & -> & Hw). destruct (with_entry_found _ _ _ _ _ _ _ _ Hs Hw) as [Hfound [b Hp]]. assert (header_taken s block hash nAdjustedTime s1 p b) as Ht by done. cbn [mbind option_bind]. rewrite Hp. cbn [mbind option_bind].
  destruct (not_wanted_total s1 p b fRequested Hs1 Hp) as (skip & Enw & Hnt). rewrite Enw. cbn [mbind outcome_bind]. destruct skip; [exists true, (Some p), false, st, s1; split; [done|]; split; [done|]; split; [done|]; split; [by eapply block_unwanted | apply (txs_from_entry _ _ _ _ _ _ _ Hw), txs_from_refl]|].
  destruct (check_both_spec s1 p b block fChecked st Hs1 Hp (br_ok _ _ _ Hr) (br_length _ _ _ Hr)) as (ok & st' & -> & Hres & Hpos).
  { pose proof (with_entry_height s s1 _ hash p b MEMPOOL_HEIGHT Hs1 (br_heights _ _ _ Hr) ltac:(done) Hw Hp). lia. }
  { intros Hc. by apply (Hch s1 p b). }
  cbn [mbind outcome_bind]. destruct ok; cbn [negb].
  - destruct Hres as [Hpass ->]. destruct (store_block_spec s s1 block hash p b fChecked fRequested has_dbp files nAdjustedTime now st Hs1 Hr Ht Enw (Hnt eq_refl) Hpass (Hpos eq_refl)) as (ok & st' & s' & -> & Hs' & Hext' & Ha & Hf).
    exists ok, (Some p), true, st', s'. split; [done|]. split; [done|]. split; [by etransitivity|]. split; [done|]. intros q c Hq Hc. destruct (Hf q c Hq Hc) as [?|[-> ->]]; [by left|]. right. split; [done|]. split; [done|]. apply (lookup_weaken _ _ _ _ Hfound), Hext'.
  - destruct Hres as [Hn Hrj]. destruct (fail_block (globals s1) p b (so_index _ _ _ _ Hs1) (so_links _ _ _ _ Hs1) Hp) as (Hcs & Hlk & Hlt). eexists false, (Some p), true, st', _. split; [done|].
    pose proof (block_invalid s block hash fChecked fRequested files nAdjustedTime st s1 p b st') as Ha. destruct (is_invalid st' && negb (corruptionPossible st')); [|split; [done|]; split; [done|]; split; [by apply Ha | apply (txs_from_entry _ _ _ _ _ _ _ Hw), txs_from_refl]].
    destruct (store_ok_globals s1 _ Hs1 Hcs Hlk (later_cores _ _ Hlt)) as [Hs' Hext']. split; [done|]. split; [by etransitivity|]. split; [|by apply (txs_from_entry _ _ _ _ _ _ _ Hw), txs_from_later]. apply Ha; try done. exists (ModifyStatusWithFailed b). split; [cbn; rewrite lookup_alter_eq; unfold entries in Hp; by rewrite Hp | apply failed_later].
Qed.

(** The height of the block. *)

Lemma entry_height s s1 block hash p b q bq : store_ok s1 -> block_ready s block hash -> with_entry s s1 (block_header block) hash p -> entries s1 !! p = Some b ->
  mStore s !! hdr_hashPrevBlock (block_header block) = Some q -> entries s !! q = Some bq -> nHeight b = nHeight bq + 1.
Proof.
  intros Hs1 Hr Hw Hp Hq Hbq. assert (pprev b = Some q /\ entries s1 !! q = Some bq) as [Eq Hq1].
  { destruct Hw as [[-> Hh]|(_ & Hnone & _ & b0 & E & _ & _ & _ & Ep)]; [split; [|done]; rewrite (br_same _ _ _ Hr p b Hh Hp); done|].
    unfold entries in Hp |- *. rewrite E in Hp |- *. cbn [index set_index] in *. rewrite lookup_insert_eq in Hp. injection Hp as ->. split; [congruence|]. rewrite lookup_insert_ne; [done | intros ->; congruence]. }
  destruct (io_tree _ (so_index _ _ _ _ Hs1) p b Hp) as [_ Hprev]. rewrite Eq in Hprev. destruct Hprev as (bq' & Hq' & Eh & _). unfold entries in Hq1. congruence.
Qed.

(** What [ProcessNewBlock] looks at first. *)

Definition fits (s : BlockIndexStore) (block : CBlock) (options : BlockValidationOptions) : Prop :=
  exists q bq, mStore s !! hdr_hashPrevBlock (block_header block) = Some q /\ entries s !! q = Some bq /\ isInvalid (nStatus bq) = false /\ block_valid l config block (nHeight bq + 1) options.

Lemma ProcessNewBlock_spec s block hash fForceProcessing options files nAdjustedTime now : store_ok s -> block_ready s block hash ->
  exists ok new st' s', ProcessNewBlock l config IsBlockInvalidated fCheckpointsEnabled checkpoints alloc block fForceProcessing options files nAdjustedTime now s = Ok (ok, new, st', s') /\ store_ok s' /\ extends s s' /\ txs_from s s' (fun q => ok = true /\ new = true /\ mStore s' !! hash = Some q) /\
    ((~ fits s block options /\ ok = false /\ new = false /\ s' = s /\ rejected new_CValidationState st') \/
     (fits s block options /\ exists fChecked r, block_answer s block hash fChecked fForceProcessing files nAdjustedTime new_CValidationState ok r new st' s')).
Proof.
  intros Hs Hr. unfold ProcessNewBlock. destruct (FindPreviousBlockIndex_spec config fCheckpointsEnabled checkpoints s (block_header block) new_CValidationState Hs) as (prev & st & -> & Hprev). cbn [mbind outcome_bind].
  destruct prev as [q|]. 2:{ destruct Hprev as [Hrj Hn]. eexists false, false, st, s. split; [done|]. split; [done|]. split; [done|]. split; [apply txs_from_refl|]. left. split; [|done]. intros (q & bq & Hq & Hbq & Hi & _). rewrite (Hn q bq Hq Hbq) in Hi. done. }
  destruct Hprev as (-> & bq & Hq & Hbq & Hi). unfold height_of. rewrite Hbq. cbn [mbind outcome_bind]. unfold CheckBlock. pose proof (br_heights _ _ _ Hr q bq Hbq) as Hh.
  destruct (CheckBlock_checks_decides l Hl config block (nHeight bq + 1) options (br_ok _ _ _ Hr) (br_length _ _ _ Hr) ltac:(lia) new_CValidationState) as (ok & st & -> & Hres). cbn [mbind outcome_bind]. destruct ok; cbn [negb andb].
  - destruct Hres as [Hv ->]. assert (fits s block options) as Hf by (by exists q, bq). set (fChecked := _ || _). destruct (AcceptBlock_spec s block hash fChecked fForceProcessing false files nAdjustedTime now new_CValidationState Hs Hr) as (ok & r & new & st' & s' & -> & Hs' & Hext & Ha & Hf').
    { intros s1 p b _ Hs1 Hw Hp. exists options. by rewrite (entry_height s s1 block hash p b q bq). }
    exists ok, new, st', s'. split; [done|]. split; [done|]. split; [done|]. split; [done|]. right. split; [done|]. by exists fChecked, r.
  - destruct Hres as [Hn Hrj]. exists false, false, st, s. split; [done|]. split; [done|]. split; [done|]. split; [apply txs_from_refl|]. left. split; [|done]. intros (q' & bq' & Hq' & Hbq' & _ & Hv). assert (q' = q) as -> by congruence. assert (bq' = bq) as -> by congruence. done.
Qed.

(** The genesis block that the parameters of the chain give, before it was stored. *)

Record genesis_ready (s : BlockIndexStore) (block : CBlock) (hash : list Z) : Prop := {
  gb_ready : block_ready s block hash;
  gb_hash : hash = hashGenesisBlock (GetConsensus config);
  gb_length : 0 < Z.of_nat (List.length (vtx block));
  gb_new p b : mStore s !! hash = Some p -> entries s !! p = Some b -> nTx b = 0 }.

Lemma InitBlockIndex_spec s block hash fReindex files now : store_ok s -> genesis_ready s block hash ->
  exists ok s', InitBlockIndex l alloc block fReindex files now s = Ok (ok, s') /\ store_ok s' /\ extends s s' /\ txs_from s s' (fun q => mStore s' !! hash = Some q).
Proof.
  intros Hs Hg. pose proof (gb_ready _ _ _ Hg) as Hr. pose proof (br_header _ _ _ Hr) as Hh. pose proof (txs_from_refl s (fun q => mStore s !! hash = Some q)) as Hrefl. unfold InitBlockIndex.
  destruct (Genesis _); [by exists true, s|]. destruct fReindex; [by exists true, s|]. destruct (FindBlockPos files); cbn [negb]; [|by exists false, s]. destruct (WriteBlockToDisk files); cbn [negb]; [|by exists false, s].
  destruct (AddToBlockIndex_spec config fCheckpointsEnabled checkpoints alloc s (block_header block) now hash Hs Hh) as (p & s1 & -> & Hs1 & Hext & Hw).
  { intros _. pose proof (gb_hash _ _ _ Hg) as Eh. destruct (hr_genesis _ _ _ _ _ Hh Eh) as [Hn Ht]. unfold insertable. by rewrite Hn, (so_null _ _ _ _ Hs). }
  cbn [mbind outcome_bind]. destruct (ttor_total block (br_ok _ _ _ Hr)) as [ttor ->]. cbn [mbind outcome_bind]. destruct (with_entry_found _ _ _ _ _ _ _ _ Hs Hw) as [Hfound [b Hp]]. destruct (with_entry_counters _ _ _ _ _ Hw) as [Eid Eun].
  pose proof (br_length _ _ _ Hr) as Hlen. pose proof (gb_length _ _ _ Hg) as Hpos. destruct (received_ok (globals s1) p b (Z.of_nat (List.length (vtx block))) ttor (has_digest files) now) as (ok & cs & -> & Hcs & Hlk & Hc & Hres); [apply Hs1 | apply Hs1 | done | | lia | by apply (br_txs _ _ _ Hr) | rewrite Eid, Eun; apply Hr|].
  { destruct Hw as [[-> Hm]|(_ & _ & _ & b0 & E & _ & Hn & _)]; [by apply (gb_new _ _ _ Hg p)|]. unfold entries in Hp. rewrite E in Hp. cbn in Hp. rewrite lookup_insert_eq in Hp. congruence. }
  destruct (store_ok_globals s1 cs Hs1 Hcs Hlk Hc) as [Hs' Hext']. exists ok, (with_globals s1 cs). split; [done|]. split; [done|]. split; [by etransitivity|]. apply (txs_from_entry _ _ _ _ _ _ _ Hw). destruct ok; [|destruct Hres as (_ & _ & Hlt & _); by apply txs_from_later].
  destruct Hres as [_ Hgr]. intros q c Hq Hn. destruct (txs_from_received _ _ _ _ _ _ Hgr q c Hq Hn) as [?| ->]; [by left | by right].
Qed.

(** Headers that come in, each when its turn comes. *)

Fixpoint headers_ready (headers : list CBlockHeader) (nAdjustedTime now : Z) (s : BlockIndexStore) (st : CValidationState) : Prop :=
  match headers with
  | [] => True
  | header :: headers => (exists hash, header_ready config alloc s header hash) /\ forall r st' s', AcceptBlockHeader header nAdjustedTime now s st = Ok (true, r, st', s') -> headers_ready headers nAdjustedTime now s' st'
  end.

Lemma ProcessNewBlockHeaders_spec nAdjustedTime now : forall headers s last st, store_ok s -> headers_ready headers nAdjustedTime now s st ->
  exists ok r st' s', ProcessNewBlockHeaders config IsBlockInvalidated fCheckpointsEnabled checkpoints alloc headers nAdjustedTime now last s st = Ok (ok, r, st', s') /\ store_ok s' /\ extends s s' /\ txs_from s s' (fun _ => False).
Proof.
  induction headers as [|header headers IH]; intros s last st Hs Hr; [exists true, last, st, s; split; [done|]; split; [done|]; split; [done | apply txs_from_refl]|]. destruct Hr as [[hash Hh] Hr]. cbn [ProcessNewBlockHeaders].
  destruct (AcceptBlockHeader_spec config IsBlockInvalidated fCheckpointsEnabled checkpoints alloc s header nAdjustedTime now st hash HP Hs Hh) as (ok & r & st1 & s1 & E & Hs1 & Hext & Hres). rewrite E. cbn [mbind outcome_bind]. destruct ok.
  - destruct Hres as (_ & -> & p & -> & Hw). destruct (IH s1 (Some p) st Hs1 (Hr _ _ _ E)) as (ok & r & st' & s' & -> & Hs' & Hext' & Hf). exists ok, r, st', s'. split; [done|]. split; [done|]. split; [by etransitivity|]. by apply (txs_from_entry _ _ _ _ _ _ _ Hw).
  - destruct Hres as (_ & _ & ->). exists false, last, st1, s. split; [done|]. split; [done|]. split; [done | apply txs_from_refl].
Qed.

(** ** The node *)

Definition new_BlockIndexStore : BlockIndexStore := {| globals := new_chainstate; mStore := ∅; mBestHeader := None |}.

Lemma new_store_ok : store_ok new_BlockIndexStore.
Proof.
  destruct (headers_ok ∅ tree_empty) as [H1 H2]. change (set_index new_chainstate ∅) with new_chainstate in *. split; [done | done | exists ∅; split; [constructor|]; by split | done | | done | done | done].
  intros p [b Hb]. done.
Qed.

(** Headers, blocks and the genesis block come in, in any order, and between them the active chain changes. [log] has the
    blocks that were stored, with their entries. *)

Inductive node_run : BlockIndexStore -> gmap ptr CBlock -> Prop :=
| run_start : node_run new_BlockIndexStore ∅
| run_init s log block hash fReindex files now ok s' : node_run s log -> genesis_ready s block hash -> InitBlockIndex l alloc block fReindex files now s = Ok (ok, s') -> node_run s' log
| run_headers s log headers nAdjustedTime now ok r st s' : node_run s log -> headers_ready headers nAdjustedTime now s new_CValidationState ->
    ProcessNewBlockHeaders config IsBlockInvalidated fCheckpointsEnabled checkpoints alloc headers nAdjustedTime now None s new_CValidationState = Ok (ok, r, st, s') -> node_run s' log
| run_block s log block hash fForceProcessing files nAdjustedTime now ok new st s' : node_run s log -> block_ready s block hash ->
    ProcessNewBlock l config IsBlockInvalidated fCheckpointsEnabled checkpoints alloc block fForceProcessing new_BlockValidationOptions files nAdjustedTime now s = Ok (ok, new, st, s') ->
    node_run s' (match mStore s' !! hash with Some p => if ok && new then <[p := block]> log else log | None => log end)
| run_chain s log cs : node_run s log -> later (globals s) cs -> index_ok cs -> links_ok cs -> node_run (with_globals s cs) log.

(** A block that was stored obeys all the rules that do not depend on the coins. *)

Definition checked_block (s : BlockIndexStore) (p : ptr) (b : CBlockIndex) (block : CBlock) : Prop :=
  (exists hash, GetBlockHash (block_header block) = Ok hash /\ mStore s !! hash = Some p) /\ nTx b = Z.of_nat (List.length (vtx block)) /\ block_valid l config block (nHeight b) new_BlockValidationOptions /\ passes s b block true.

Definition blocks_checked (s : BlockIndexStore) (log : gmap ptr CBlock) : Prop := forall p b, entries s !! p = Some b -> nTx b <> 0 ->
  mStore s !! hashGenesisBlock (GetConsensus config) = Some p \/ exists block, log !! p = Some block /\ checked_block s p b block.

Lemma passes_extends s s' p b b' block fChecked : tree_ok (entries s) -> extends s s' -> entries s !! p = Some b -> core b' = core b -> passes s b block fChecked -> passes s' b' block fChecked.
Proof.
  intros Ht [Hw _] Hp E (Hv & median & size & Hm & Es & Hr). injection E as Ep _ Eh _ _ _ _ _ _. unfold passes. rewrite Ep, Eh. split; [done|]. exists median, size. split; [|done]. destruct (Ht p b Hp) as [_ Hprev]. destruct (pprev b) as [q|]; [|done].
  rewrite (GetMedianTimePast_within _ _ Hw q Ht); [done|]. destruct Hprev as (bq & -> & _). done.
Qed.

Lemma checked_extends s s' p b b' block : store_ok s -> extends s s' -> entries s !! p = Some b -> entries s' !! p = Some b' -> nTx b' = nTx b -> checked_block s p b block -> checked_block s' p b' block.
Proof.
  intros Hs Hext Hp Hp' En ((hash & Eh & Hm) & Ht & Hv & Hpass). destruct (proj1 Hext p b Hp) as (b1 & Hb1 & E). assert (b1 = b') as -> by congruence. split; [exists hash; split; [done|]; by apply (lookup_weaken _ _ _ _ Hm), Hext|]. split; [congruence|].
  split; [injection E as _ _ -> _ _ _ _ _ _; done | by apply (passes_extends s s' p b); [apply (io_tree _ (so_index _ _ _ _ Hs)) | ..]].
Qed.

Lemma blocks_checked_extends s s' log P : store_ok s -> extends s s' -> txs_from s s' P -> blocks_checked s log ->
  forall p b, entries s' !! p = Some b -> nTx b <> 0 -> P p \/ mStore s' !! hashGenesisBlock (GetConsensus config) = Some p \/ exists block, log !! p = Some block /\ checked_block s' p b block.
Proof.
  intros Hs Hext Hf Hc p b Hp Hn. destruct (Hf p b Hp Hn) as [(c0 & Hc0 & En)|]; [right | by left]. destruct (Hc p c0 Hc0 ltac:(congruence)) as [Hg|(block & Hlog & Hb)]; [left; by apply (lookup_weaken _ _ _ _ Hg), Hext|]. right. exists block. split; [done|]. by apply (checked_extends s s' p c0).
Qed.

Lemma stored_checked s s' block hash fForceProcessing files nAdjustedTime fChecked r st' : store_ok s -> block_ready s block hash -> fits s block new_BlockValidationOptions ->
  block_answer s block hash fChecked fForceProcessing files nAdjustedTime new_CValidationState true r true st' s' -> exists p b, mStore s' !! hash = Some p /\ entries s' !! p = Some b /\ checked_block s' p b block.
Proof.
  intros Hs Hr (q & bq & Hq & Hbq & _ & Hv) Ha. inversion Ha as [| | | | |s1 p b b' st1 s2 (_ & Hs1 & Hw & Hp) _ Hpass _ _ _ Hext Hp' _ Hn]; subst. destruct (with_entry_found _ _ _ _ _ _ _ _ Hs Hw) as [Hfound _]. exists p, b'.
  assert (mStore s' !! hash = Some p) as Hm by (by apply (lookup_weaken _ _ _ _ Hfound), Hext). split; [done|]. split; [done|]. destruct (proj1 Hext p b Hp) as (b1 & Hb1 & E). assert (b1 = b') as -> by congruence.
  split; [exists hash; split; [apply (hr_hash _ _ _ _ _ (br_header _ _ _ Hr)) | done]|]. split; [done|]. split.
  - rewrite <- (entry_height s s1 block hash p b q bq) in Hv by done. by injection E as _ _ -> _ _ _ _ _ _.
  - apply (passes_extends s1 s' p b); [apply (io_tree _ (so_index _ _ _ _ Hs1)) | done | done | done|]. split; [done | apply Hpass].
Qed.

Lemma node_run_ok s log : node_run s log -> store_ok s /\ blocks_checked s log.
Proof.
  induction 1 as [|s log block hash fReindex files now ok s' _ [Hs Hb] Hg E|s log headers nAdjustedTime now ok r st s' _ [Hs Hb] Hr E|s log block hash force files nAdjustedTime now ok new st s' _ [Hs Hb] Hr E|s log cs _ [Hs Hb] Hlt Hcs Hlk].
  - split; [apply new_store_ok|]. done.
  - destruct (InitBlockIndex_spec s block hash fReindex files now Hs Hg) as (ok1 & s1 & E1 & Hs' & Hext & Hf). rewrite E1 in E. injection E as _ ->. split; [done|]. intros p b Hp Hn.
    destruct (blocks_checked_extends s s' log _ Hs Hext Hf Hb p b Hp Hn) as [Hm|]; [|done]. left. by rewrite <- (gb_hash _ _ _ Hg).
  - destruct (ProcessNewBlockHeaders_spec nAdjustedTime now headers s None new_CValidationState Hs Hr) as (ok1 & r1 & st1 & s1 & E1 & Hs' & Hext & Hf). rewrite E1 in E. injection E as _ _ _ ->. split; [done|]. intros p b Hp Hn.
    by destruct (blocks_checked_extends s s' log _ Hs Hext Hf Hb p b Hp Hn).
  - destruct (ProcessNewBlock_spec s block hash force new_BlockValidationOptions files nAdjustedTime now Hs Hr) as (ok1 & new1 & st1 & s1 & E1 & Hs' & Hext & Hf & Ha). rewrite E1 in E. injection E as -> -> -> ->. split; [done|]. intros p b Hp Hn.
    pose proof (blocks_checked_extends s s' log _ Hs Hext Hf Hb p b Hp Hn) as Hold. destruct (ok && new) eqn:Eon.
    + apply andb_true_iff in Eon as [-> ->]. destruct Ha as [(_ & ? & _)|(Hfit & fChecked & r & Ha)]; [done|]. destruct (stored_checked s s' block hash force files nAdjustedTime fChecked r st Hs Hr Hfit Ha) as (p' & b' & Hm & Hp' & Hcb). rewrite Hm.
      destruct (decide (p = p')) as [->|Hne]; [right; exists block; rewrite lookup_insert_eq; split; [done|]; assert (b = b') as -> by congruence; done|]. rewrite lookup_insert_ne by done. destruct Hold as [(_ & _ & Hm')|]; [congruence | done].
    + assert (ok && new = true -> False) as Hno by congruence. destruct Hold as [(-> & -> & _)|Hold]; [done|]. by destruct (mStore s' !! hash).
  - destruct (store_ok_globals s cs Hs Hcs Hlk (later_cores _ _ Hlt)) as [Hs' Hext]. split; [done|]. intros p b Hp Hn. by destruct (blocks_checked_extends s _ log _ Hs Hext (txs_from_later s cs (fun _ => False) Hlt) Hb p b Hp Hn).
Qed.

End blocks.

(** ** An example *)

Lemma chain_txs_max h n p m : 0 <= m -> (forall q b, h !! q = Some b -> nTx b <= m) -> chain_txs h n p <= Z.of_nat n * m.
Proof.
  intros Hm Hb. revert p. induction n as [|n IH]; intros p; [done|]. cbn [chain_txs]. destruct (h !! p) as [b|] eqn:Hp; [|nia]. pose proof (Hb p b Hp). destruct (pprev b) as [q|]; [pose proof (IH q)|]; nia.
Qed.

(** A short chain of small blocks has room for another one. *)

Lemma room_for `{BN_API} config flag checkpoints s s1 block hash p n meta now m k : (forall q c, entries s !! q = Some c -> nTx c <= m /\ nHeight c + 1 < k) -> 0 <= n <= m -> 0 < k -> k * m < 2 ^ 32 ->
  store_ok config flag checkpoints s1 -> with_entry s s1 block hash p -> txs_bounded (index (modify (fun b => SetDiskBlockData b n meta now) p (globals s1))).
Proof.
  intros Hs Hn Hk Hkm Hs1 Hw. set (h := index (modify _ p (globals s1))). assert (forall q c, entries s1 !! q = Some c -> (q = p \/ nTx c <= m) /\ nHeight c < k) as H1.
  { intros q c Hq. destruct (decide (q = p)) as [->|Hne].
    - split; [by left|]. apply (with_entry_height config flag checkpoints s s1 block hash p c k Hs1); try done. intros x d Hx. apply Hs in Hx. lia.
    - assert (entries s !! q = Some c) as Hq'; [|apply Hs in Hq'; split; [right|]; lia]. destruct Hw as [[-> _]|(_ & _ & _ & b0 & E & _)]; [done|]. unfold entries in Hq. rewrite E in Hq. cbn in Hq. by rewrite lookup_insert_ne in Hq. }
  assert (forall q c, h !! q = Some c -> nTx c <= m /\ nHeight c < k) as H2.
  { intros q c Hq. unfold h in Hq. cbn [modify index set_index] in Hq. destruct (decide (p = q)) as [<-|Hne].
    - rewrite lookup_alter_eq in Hq. destruct (index (globals s1) !! p) as [b|] eqn:Hp; [|done]. cbn in Hq. injection Hq as <-. destruct (SetDiskBlockData_fields b n meta now) as (Ep & En & _). unfold place in Ep. injection Ep as _ _ Eh _.
      rewrite En, Eh. split; [unfold u32; rewrite Z.mod_small; [lia|nia] | by apply (H1 p b Hp)].
    - rewrite lookup_alter_ne in Hq by done. destruct (H1 q c Hq) as [[?|?] ?]; [congruence | done]. }
  intros q c Hq. destruct (H2 q c Hq) as [_ Hh]. pose proof (chain_txs_max h (S (Z.to_nat (nHeight c))) q m ltac:(lia) (fun x d Hx => proj1 (H2 x d Hx))). nia.
Qed.

(** A chain with an easy limit, its genesis block and a block on top of it. *)

Definition demo_header (prev root : list Z) (time nonce : Z) : CBlockHeader :=
  {| hdr_nVersion := 4; hdr_hashPrevBlock := prev; hdr_hashMerkleRoot := root; hdr_nTime := time; hdr_nBits := 0x1f3fffff; hdr_nNonce := nonce |}.

Definition demo_mined (prev : list Z) (time nonce : Z) (tx : CTransaction) : CBlock :=
  {| block_header := demo_header prev (match GetId demo_layout tx with Ok id => id | _ => [] end) time nonce; vtx := [tx] |}.

Definition demo_genesis : CBlock := Eval vm_compute in demo_mined uint256_null 1000 0 (demo_coinbase 7 50).

Definition demo_genesis_hash : list Z := Eval vm_compute in match GetBlockHash (block_header demo_genesis) with Ok hash => hash | _ => [] end.

Definition demo_first : CBlock := Eval vm_compute in demo_mined demo_genesis_hash 1600 1194 (demo_coinbase 8 50).

Definition demo_first_hash : list Z := Eval vm_compute in match GetBlockHash (block_header demo_first) with Ok hash => hash | _ => [] end.

Definition demo_chain_Config : Config :=
  {| GetConsensus := {| pow_params := {| daaHeight := 147; powLimit := le_bytes 32 (2 ^ 246 - 1); fPowAllowMinDifficultyBlocks := false; fPowNoRetargeting := false; nPowTargetSpacing := 1; nPowTargetTimespan := 147 |};
                        hashGenesisBlock := demo_genesis_hash; nSubsidyHalvingInterval := 210000; BIP34Height := 1000; BIP34Hash := uint256_null; BIP65Height := 1000; BIP66Height := 1000; CSVHeight := 1000; uahfHeight := 1000 |};
     script_config := demo_limits; GetGenesisActivationHeight := 1000; GetMaxBlockSize := 1000000; GetMaxTxSize _ _ := 1000000; GetMaxTxSigOpsCountConsensusBeforeGenesis := 20000; GetDisableBIP30Checks := false |}.

Definition demo_alloc (h : heap) : ptr := Pos.of_succ_nat (size h).

Definition demo_files : block_files := {| FindBlockPos := true; WriteBlockToDisk := true; has_digest := true |}.

Definition demo_started : BlockIndexStore := Eval vm_compute in match InitBlockIndex demo_layout demo_alloc demo_genesis false demo_files 1000 new_BlockIndexStore with Ok (_, s) => s | _ => new_BlockIndexStore end.

Definition demo_grown : BlockIndexStore := Eval vm_compute in
  match ProcessNewBlock (H := Z_BN) demo_layout demo_chain_Config (fun _ => false) false [] demo_alloc demo_first false new_BlockValidationOptions demo_files 1600 1600 demo_started with
  | Ok (_, _, _, s) => s
  | _ => new_BlockIndexStore
  end.

Lemma demo_chain_params : params_ok (pow_params (GetConsensus demo_chain_Config)).
Proof.
  assert (limit_val (pow_params (GetConsensus demo_chain_Config)) = 2 ^ 246 - 1) as E by (vm_compute; reflexivity). split; rewrite ?E; try (cbn; lia). split; [apply le_bytes_bytes | apply length_le_bytes].
Qed.

Lemma demo_mined_ok : Transaction.block_ok demo_genesis /\ Transaction.block_ok demo_first.
Proof. split; repeat split; try done; repeat constructor; done. Qed.

Lemma demo_target : target_ok (pow_params (GetConsensus demo_chain_Config)) 0x1f3fffff /\ 0 < compact_value 0x1f3fffff /\ compact_code (limit_val (pow_params (GetConsensus demo_chain_Config))) = 0x1f3fffff.
Proof. split; [split; [lia|]; split; [reflexivity | vm_compute; discriminate] | split; vm_compute; reflexivity]. Qed.

Lemma demo_genesis_ready : genesis_ready demo_chain_Config false [] demo_alloc new_BlockIndexStore demo_genesis demo_genesis_hash.
Proof.
  split; [split | done | done | done].
  - split; [apply demo_mined_ok | vm_compute; reflexivity | vm_compute; discriminate | intros _; split; [done | split; apply demo_target] | done | done].
  - apply demo_mined_ok.
  - vm_compute. discriminate.
  - done.
  - done.
  - intros s1 p meta now Hs1 Hw. apply (room_for (H := Z_BN) demo_chain_Config false [] new_BlockIndexStore s1 (block_header demo_genesis) demo_genesis_hash p _ meta now 10 10); done.
  - vm_compute. reflexivity.
Qed.

Definition demo_entry : CBlockIndex := Eval vm_compute in match entries demo_started !! 1%positive with Some b => b | None => BlockIndex.demo_block 1%positive end.

Lemma demo_started_entries : entries demo_started = {[ 1%positive := demo_entry ]}.
Proof. vm_compute. reflexivity. Qed.

Lemma demo_started_store : mStore demo_started = {[ demo_genesis_hash := 1%positive ]}.
Proof. vm_compute. reflexivity. Qed.

Lemma demo_first_ready : block_ready demo_chain_Config false [] demo_alloc demo_started demo_first demo_first_hash.
Proof.
  assert (forall q c, entries demo_started !! q = Some c -> q = 1%positive /\ c = demo_entry) as He by (rewrite demo_started_entries; by intros q c [<- <-]%lookup_singleton_Some).
  split.
  - split; [apply demo_mined_ok | vm_compute; reflexivity | vm_compute; discriminate | vm_compute; discriminate | by rewrite demo_started_entries|].
    rewrite demo_started_store. intros q [_ <-]%lookup_singleton_Some. exists demo_entry. rewrite demo_started_entries, lookup_singleton_eq. split; [done|]. split; [done|]. right. vm_compute. reflexivity.
  - apply demo_mined_ok.
  - vm_compute. discriminate.
  - intros p b [-> ->]%He. done.
  - rewrite demo_started_store. intros p b [E _]%lookup_singleton_Some. exfalso. revert E. vm_compute. discriminate.
  - intros s1 p meta now Hs1 Hw. apply (room_for (H := Z_BN) demo_chain_Config false [] demo_started s1 (block_header demo_first) demo_first_hash p _ meta now 10 10); try done. intros q c [-> ->]%He. done.
  - vm_compute. reflexivity.
Qed.

Lemma demo_started_run : node_run (H := Z_BN) demo_layout demo_chain_Config (fun _ => false) false [] demo_alloc demo_started ∅.
Proof. eapply (run_init _ _ _ _ _ _ _ _ demo_genesis demo_genesis_hash false demo_files 1000 true); [apply run_start | apply demo_genesis_ready | vm_compute; reflexivity]. Qed.

Lemma demo_started_ok : store_ok demo_chain_Config false [] demo_started.
Proof. apply (node_run_ok _ _ _ _ _ _ demo_layout_ok demo_chain_params _ _ demo_started_run). Qed.

Lemma demo_first_processed : exists st, ProcessNewBlock (H := Z_BN) demo_layout demo_chain_Config (fun _ => false) false [] demo_alloc demo_first false new_BlockValidationOptions demo_files 1600 1600 demo_started = Ok (true, true, st, demo_grown).
Proof. eexists. vm_compute. reflexivity. Qed.

(** ** The theorems *)

(** C14. [AcceptBlockHeader] takes a header when and only when the rules allow it: it is not on the list of invalidated
    blocks, and it is the genesis block, or is known and was not found invalid, or has proof of work, a known predecessor that
    is not invalid, no checkpoint against it, the required target, a time after the median and not too far ahead, and a
    version that is not outdated.  A header that is taken is in the index afterwards, under its hash and on top of its
    predecessor; otherwise nothing changes.  The index stays consistent: among the rest, the best header has the most work. *)
Theorem AcceptBlockHeader_correct (config : Config) IsBlockInvalidated fCheckpointsEnabled checkpoints alloc s block nAdjustedTime now st hash :
  params_ok (pow_params (GetConsensus config)) -> store_ok config fCheckpointsEnabled checkpoints s -> header_ready config alloc s block hash -> exists ok r st' s',
  AcceptBlockHeader config IsBlockInvalidated fCheckpointsEnabled checkpoints alloc block nAdjustedTime now s st = Ok (ok, r, st', s') /\
  (ok = true <-> acceptable config IsBlockInvalidated fCheckpointsEnabled checkpoints s block hash nAdjustedTime) /\ store_ok config fCheckpointsEnabled checkpoints s' /\ extends s s' /\
  (if ok then st' = st /\ exists p, r = Some p /\ with_entry s s' block hash p else rejected st st' /\ s' = s).
Proof.
  intros HP Hs Hr. destruct (AcceptBlockHeader_spec config IsBlockInvalidated fCheckpointsEnabled checkpoints alloc s block nAdjustedTime now st hash HP Hs Hr) as (ok & r & st' & s' & E & Hs' & Hext & Hres). exists ok, r, st', s'. split; [done|].
  split; [destruct ok; split; [intros _; apply Hres | done | done | intros Ha; by destruct Hres]|]. split; [done|]. split; [done|]. destruct ok; apply Hres.
Qed.

Lemma AcceptBlockHeader_correct_witness : exists s', AcceptBlockHeader demo_chain_Config (fun _ => false) false [] demo_alloc (block_header demo_first) 1600 1600 demo_started new_CValidationState = Ok (true, Some 2%positive, new_CValidationState, s') /\
  acceptable demo_chain_Config (fun _ => false) false [] demo_started (block_header demo_first) demo_first_hash 1600 /\ mBestHeader s' = Some 2%positive.
Proof.
  destruct (AcceptBlockHeader_correct demo_chain_Config (fun _ => false) false [] demo_alloc demo_started (block_header demo_first) 1600 1600 new_CValidationState demo_first_hash demo_chain_params demo_started_ok
    (br_header _ _ _ _ _ _ _ demo_first_ready)) as (ok & r & st' & s' & E & Hok & _).
  assert (exists s1, AcceptBlockHeader demo_chain_Config (fun _ => false) false [] demo_alloc (block_header demo_first) 1600 1600 demo_started new_CValidationState = Ok (true, Some 2%positive, new_CValidationState, s1) /\ mBestHeader s1 = Some 2%positive) as (s1 & E1 & Hb) by (eexists; split; [vm_compute; reflexivity | reflexivity]).
  exists s1. split; [exact E1|]. rewrite E in E1. injection E1 as E1 _ _ _. split; [by apply Hok | exact Hb].
Defined.

(** C13. [ProcessNewBlock] takes in a block when and only when it should.  A block that does not obey the rules that need no
    context, or whose predecessor is unknown or invalid, is refused and leaves no trace.  Of the others, the header is looked
    at first; then a block that is already there, or that nobody asked for and that could not become the tip, is passed over;
    a block that breaks a rule in its context is marked as failed unless it may have been corrupted on the way; and a block
    that is stored obeys all the rules, has its data flag set and its transactions counted.  The index stays consistent, and
    no other entry gets transactions. *)
Theorem ProcessNewBlock_correct `{BN_API} (l : layout) (config : Config) IsBlockInvalidated fCheckpointsEnabled checkpoints alloc s block hash fForceProcessing options files nAdjustedTime now :
  layout_ok l -> params_ok (pow_params (GetConsensus config)) -> store_ok config fCheckpointsEnabled checkpoints s -> block_ready config fCheckpointsEnabled checkpoints alloc s block hash ->
  exists ok new st' s', ProcessNewBlock l config IsBlockInvalidated fCheckpointsEnabled checkpoints alloc block fForceProcessing options files nAdjustedTime now s = Ok (ok, new, st', s') /\
    store_ok config fCheckpointsEnabled checkpoints s' /\ extends s s' /\ txs_from s s' (fun q => ok = true /\ new = true /\ mStore s' !! hash = Some q) /\
    ((~ fits l config s block options /\ ok = false /\ new = false /\ s' = s /\ rejected new_CValidationState st') \/
     (fits l config s block options /\ exists fChecked r, block_answer l config IsBlockInvalidated fCheckpointsEnabled checkpoints s block hash fChecked fForceProcessing files nAdjustedTime new_CValidationState ok r new st' s')).
Proof. intros Hl HP. by apply ProcessNewBlock_spec. Qed.

Lemma ProcessNewBlock_correct_witness : exists st, ProcessNewBlock (H := Z_BN) demo_layout demo_chain_Config (fun _ => false) false [] demo_alloc demo_first false new_BlockValidationOptions demo_files 1600 1600 demo_started = Ok (true, true, st, demo_grown) /\
  fits (H := Z_BN) demo_layout demo_chain_Config demo_started demo_first new_BlockValidationOptions.
Proof.
  destruct demo_first_processed as [st E]. exists st. split; [exact E|].
  destruct (ProcessNewBlock_correct (H := Z_BN) demo_layout demo_chain_Config (fun _ => false) false [] demo_alloc demo_started demo_first demo_first_hash false new_BlockValidationOptions demo_files 1600 1600 demo_layout_ok demo_chain_params demo_started_ok demo_first_ready)
    as (ok & new & st' & s' & E' & _ & _ & _ & Hres).
  destruct Hres as [(_ & -> & _)|[Hf _]]; [|exact Hf]. rewrite E in E'. discriminate E'.
Defined.

(** C12. However the headers, the blocks and the genesis block come in, and whatever the active chain does in between, the
    block index stays consistent: every entry is under the hash of its header, its predecessor is the entry that the header
    names, its work is that of its chain, every header but the first has proof of work for the required target and obeys the
    rules on checkpoints, times and versions, and no entry has more work than the best header.  And every block but the
    first whose transactions are counted was stored from a block that obeys all the rules that do not depend on the coins. *)
Theorem node_run_correct `{BN_API} (l : layout) (config : Config) IsBlockInvalidated fCheckpointsEnabled checkpoints alloc s log :
  layout_ok l -> params_ok (pow_params (GetConsensus config)) -> node_run l config IsBlockInvalidated fCheckpointsEnabled checkpoints alloc s log ->
  store_ok config fCheckpointsEnabled checkpoints s /\ blocks_checked l config s log.
Proof. intros Hl HP. by apply node_run_ok. Qed.

Lemma demo_grown_run : node_run (H := Z_BN) demo_layout demo_chain_Config (fun _ => false) false [] demo_alloc demo_grown {[ 2%positive := demo_first ]}.
Proof.
  destruct demo_first_processed as [st E]. apply (run_block (H := Z_BN) _ _ _ _ _ _ demo_started ∅ demo_first demo_first_hash false demo_files 1600 1600 true true st demo_grown demo_started_run demo_first_ready) in E.
  replace (mStore demo_grown !! demo_first_hash) with (Some 2%positive) in E by (vm_compute; reflexivity). exact E.
Qed.

Lemma node_run_correct_witness : store_ok demo_chain_Config false [] demo_grown /\ exists b, entries demo_grown !! 2%positive = Some b /\ checked_block (H := Z_BN) demo_layout demo_chain_Config demo_grown 2%positive b demo_first.
Proof.
  destruct (node_run_correct (H := Z_BN) demo_layout demo_chain_Config (fun _ => false) false [] demo_alloc demo_grown {[ 2%positive := demo_first ]} demo_layout_ok demo_chain_params demo_grown_run) as [Hs Hb]. split; [exact Hs|].
  assert (exists b, entries demo_grown !! 2%positive = Some b /\ nTx b = 1 /\ mStore demo_grown !! hashGenesisBlock (GetConsensus demo_chain_Config) = Some 1%positive) as (b & Hp & Ht & Hg) by (eexists; split; [vm_compute; reflexivity | split; vm_compute; reflexivity]).
  exists b. split; [exact Hp|]. destruct (Hb 2%positive b Hp ltac:(rewrite Ht; discriminate)) as [Hm|(block & Hlog & Hc)]; [discriminate (eq_trans (eq_sym Hg) Hm)|]. rewrite lookup_singleton_eq in Hlog. injection Hlog as <-. exact Hc.
Defined.
